(* ===== verification/_CoqProject ===== *)
-Q . S2P
Prelude.v
Transaction.v
ChainParams.v
Subsidy.v
ArithUint256.v
Script.v
Interpreter.v
InterpreterSafety.v
SignatureEncoding.v
Coins.v
History.v
CoinsView.v
CoinsLaws.v
CoinsCache.v
CoinsOps.v
UpdateCoins.v
CoinsDB.v
MerkleTree.v
Serialize.v
CoinsSerialize.v
TxSerialize.v
SigHash.v
Standard.v
Block.v
Chain.v
Pow.v
MerkleBlock.v
Checks.v
CheckTx.v
CheckInputs.v
CoinsReplay.v
CheckBlock.v
ChainState.v
ChainShape.v
BestChain.v
ChainSteps.v
BlockFileAlloc.v
AcceptBlock.v
ConnectBlock.v
ConnectTx.v
ConnectLaws.v
Double.v
MempoolLimit.v
TxMemPool.v
PoolLaws.v
PoolRemovals.v
PoolCoins.v
PoolSafety.v
PoolCheck.v
AcceptToPool.v
AcceptLaws.v
AcceptSafety.v
AcceptableInputs.v
ConnectReads.v
ConnectFails.v
Tip.v
TipLaws.v
TipSafety.v
Activate.v
ActivateLaws.v
ActivateSafety.v
ChainExamples.v
ConnectExamples.v
AcceptExamples.v
TipExamples.v
ActivateExamples.v
