(* ===== verification/Prelude.v ===== *)
(** * Gemlink: the chain state and its validation rules

    A Rocq model of the consensus core of a Gemlink node (a Zcash derivative,
    src/src/ of the repository) with the theorems that make it correct.  The
    node keeps a tree of block headers, chooses the branch with most work,
    checks and connects the blocks of that branch one by one in a stack of
    coins views over a database, and undoes them when the branch changes.
    Scripts decide who may spend an output; note commitment trees and
    nullifiers do the same for shielded value.

    ** Parts, and the files that model them

    - Shared vocabulary: this file.  [result] is the outcome of C++ code (a
      value, an exception, a failed assertion or a null dereference),
      [u8 ... i64] are the machine widths, [foldM] is a loop that may throw.
    - Amounts and transactions (amount.{h,cpp}, primitives/transaction.{h,cpp}):
      Transaction.v; their wire format: TxSerialize.v over Serialize.v
      (serialize.h); what signatures commit to: SigHash.v
      (script/interpreter.cpp, [SignatureHash]).
    - Consensus parameters, upgrades and rewards (the files of consensus/,
      chainparams.cpp, the subsidy functions of main.cpp): ChainParams.v,
      Subsidy.v.
    - Scripts (script/script.{h,cpp}): Script.v; the interpreter
      (script/interpreter.cpp): Interpreter.v, InterpreterSafety.v,
      SignatureEncoding.v; standard scripts (script/standard.{h,cpp}): Standard.v.
    - Coins (coins.{h,cpp}, txdb.cpp, undo.h, compressor.{h,cpp}): Coins.v for [CCoins],
      CoinsView.v for the interface [CCoinsView] and [CCoinsViewCache],
      CoinsOps.v for its queries and History.v for the chain history cache
      (zcash/History.{hpp,cpp}), CoinsDB.v for [CCoinsViewDB], CoinsSerialize.v for
      the stored records.  CoinsLaws.v states what a view promises to its
      readers ([CCoinsViewReads]) and to its writers ([CCoinsViewLaws]),
      CoinsCache.v that a cache over a lawful view is lawful.
    - Note commitment trees (zcash/IncrementalMerkleTree.{hpp,cpp}): MerkleTree.v.
    - Blocks, Merkle trees and proofs (primitives/block.{h,cpp}, merkleblock.{h,cpp}):
      Block.v, MerkleBlock.v.
    - 256-bit arithmetic and proof of work (arith_uint256.{h,cpp}, pow.cpp):
      ArithUint256.v, Pow.v.
    - The block index and the active chain (chain.{h,cpp}): Chain.v.
    - Validation (main.cpp): Checks.v for [CValidationState] as a monad,
      CheckTx.v and CheckInputs.v for transactions, CheckBlock.v for headers
      and blocks.
    - The choice of the best chain (main.cpp): ChainState.v for the globals
      and their operations, ChainShape.v, BestChain.v and ChainSteps.v for the
      invariant and what the operations achieve, BlockFileAlloc.v for
      positions in block files, AcceptBlock.v for [AcceptBlockHeader] and
      [AcceptBlock].
    - Connecting and disconnecting (main.cpp): UpdateCoins.v for
      [UpdateCoins], [ApplyTxInUndo] and [DisconnectBlock], ConnectBlock.v for
      [ConnectBlock], ConnectTx.v and ConnectLaws.v for what it establishes.
    - The tip of the active chain (main.cpp, deprecation.cpp): Tip.v for the
      globals as a record [Node], [ConnectTip], [DisconnectTip] and
      [FlushStateToDisk], which compose the coins, the block index and the
      pool; ConnectReads.v and TipLaws.v for what they leave alone,
      TipSafety.v for what they achieve.
    - The activation of the best chain (main.cpp): Activate.v for
      [ActivateBestChainStep], [ActivateBestChain] and [InvalidateBlock] over
      the tip and the choice of the best chain, ConnectFails.v for how
      [ConnectBlock] fails on an intact block, ActivateLaws.v for how the
      steps change the block index, ActivateSafety.v for what they achieve.
    - The memory pool (txmempool.{h,cpp}, mempool_limit.{h,cpp}): Double.v for
      the IEEE doubles of priorities and fee deltas, MempoolLimit.v for the
      weight tree that chooses evictions and the list of recent ones,
      TxMemPool.v for [CTxMemPool] and its operations, PoolLaws.v for its
      invariant, PoolRemovals.v and PoolSafety.v for what the operations
      achieve (every sequence of them included), PoolCoins.v for the address indexes, [removeForReorg] and
      [CCoinsViewMemPool], PoolCheck.v for the self-check [check].
    - Admission to the pool (main.cpp): AcceptToPool.v for the policy and
      [AcceptToMemoryPool], CoinsReplay.v for what a coins cache answers
      without its backend, AcceptLaws.v and AcceptSafety.v for what an accepted
      and a rejected transaction mean, AcceptableInputs.v for the variant that
      checks the inputs of masternodes.
    - ChainExamples.v, ConnectExamples.v, AcceptExamples.v, TipExamples.v and
      ActivateExamples.v run the definitions on small chain states where the hypotheses of the
      theorems hold.

    ** How the code is rendered

    Functions keep their names; a method [C::m] is [C_m] or, for the coins
    cache, [Cache_m].  References that are changed are results.  Integers are
    [Z] with the wrap-around of their width written out where the code does
    not exclude it; hashes are integers below 2^256, byte strings lists of
    integers below 256.  Pointers to block index entries are block hashes and
    [mapBlockIndex] is a finite map; a dereference that fails is [Abort], and
    so is a failed [assert].  A function that reports to a
    [CValidationState] is a [check], one that also changes a state a
    [scheck], which keeps the state of a failed run.  A read of a coins view
    returns the view, since caches fill themselves on reads.

    What is outside src/ is a parameter: hash functions and curve operations
    ([ScriptCrypto], [SigHashCrypto], [Secp256k1], [HashType], [Hash2]),
    proof verification ([TxVerifier], [EquihashVerifier]), the history tree
    of the Rust library ([HistoryTree]), header and transaction ids
    ([BlockOracle]).  What validation reads of the rest of the node (clock,
    sporks, locks, payment schedule, disk) is in the records [BlockEnv],
    [ConnectEnv], [AcceptEnv] and [TipEnv], what the pool uses of it in [PoolEnv].  What is assumed of them is in classes that have an instance
    in the files: the sizes of hashes ([ScriptCryptoLaws], and the range of
    [blake2b]), parsing a printed key ([Secp256k1Laws]), and the root of the
    empty note commitment tree ([MerkleTreeLaws]).

    ** What the theorems show

    - The chain state.  Caches refine the view they hide ([Flush_refines]);
      disconnecting what was connected restores
      the view ([DisconnectBlock_restores]), also through the whole of
      [ConnectBlock] with the undo data it writes ([ConnectBlock_undone]);
      stored records are read back ([CCoins_roundtrip]).  [ConnectTip] moves
      coins, active chain and pool together ([ConnectTip_extends]) or, when
      the block breaks a rule, leaves them alone ([ConnectTip_rejects]), and
      [DisconnectTip] takes the coins back and returns the block's
      transactions to the pool ([DisconnectTip_restores]), for blocks
      connected the first time and again.
      A step of the activation reaches a better tip or marks a bad block
      ([ActivateBestChainStep_progress]); with intact files the activation ends at the
      best usable candidate ([ActivateBestChain_ends]); an invalidated block
      leaves the active chain ([InvalidateBlock_removes]).
    - Money.  Inputs cover outputs ([CheckTxInputs_sound] in CheckInputs.v); a block creates at most its
      subsidy outside superblocks ([ConnectBlock_no_inflation]); the
      subsidies of all time have an exact sum, which is more than [MAX_MONEY]
      ([total_issued_exact]).
    - Scripts.  Every evaluation ends without an escaping exception, and with
      no failed assertion but that CLEANSTACK needs P2SH, which only flags that
      break it reach ([VerifyScript_total]), within its resource bounds
      ([EvalScript_bounded]); signatures are accepted exactly in strict DER
      form and commit to what the hash type selects.
    - Validation.  [CheckTransaction] and [CheckBlock] accept exactly the
      well-formed transactions and blocks; coinbases of different heights
      differ.
    - The best chain.  In every reachable state the block index is well
      formed ([reachable_index_wf]); [FindMostWorkChain] ends with the best
      usable candidate; waiting blocks are linked when their data arrives;
      headers are added only after every check; block files do not overlap.
    - Commitments and formats.  The incremental tree and its witnesses compute
      the full Merkle tree; partial Merkle trees prove membership and a Merkle
      root determines the transactions, up to collisions among the pairs that
      were hashed; the wire formats of
      transactions and blocks are one-to-one.
    - The memory pool.  In every reachable state its tables describe its
      transactions, no two of which spend the same output or nullifier
      ([mempool_consistent]); removals take exactly the descendants of what
      they select ([removals_exact]); after a block nothing conflicts with it
      ([removeForBlock_clean]); evictions end within the limit and are drawn
      fairly while the weights add up to less than 2^31
      ([EnsureSizeLimit_terminates], [eviction_fair]).  A transaction is admitted only with
      unspent inputs of the chain or the pool, its exact fee and valid scripts
      ([AcceptToMemoryPool_sound]), and a rejected one changes nothing
      ([AcceptToMemoryPool_rejects]).
    - Arithmetic and difficulty.  The limb operations are arithmetic modulo
      2^256; compact targets round down; the next target stays within the
      limit and LWMA-3 computes its formula without overflow.

    ** Loops and fuel

    Loops over containers are structural.  Where the code loops until a
    condition, the fixpoint carries a number of rounds and stops with [Abort]
    when it runs out, and a theorem shows that it does not: the length of the
    script for [EvalScript], the number of transactions for Merkle levels,
    the height of a block for walks to its ancestors ([GetAncestor], [SetTip],
    [FindFork], the walks of [FindMostWorkChain]), the number of candidates
    for [FindMostWorkChain], the number of unlinked blocks for
    [ReceivedBlockTransactions], the number of block files for
    [FindBlockPos], the outputs of the pool for [remove], the weights of the
    tree for [EnsureSizeLimit].  The loops of the activation return [None] when
    their rounds run out (an [lscheck]): the height of the branch is enough for
    a step, the length of the active chain for [InvalidateBlock], and the square
    of the number of blocks plus one for [ActivateBestChain] on intact files.
    On a damaged file no number is ([damaged_file_never_ends] in
    ActivateExamples.v).

    ** Not modelled

    Loading and rewinding the block index, its self-check [CheckBlockIndex],
    notifications of peers and wallets, networking and message handling (net.cpp, [ProcessMessage]), the wallet,
    RPC and the user interface, masternodes, budgets, sporks and SwiftTX
    except the rules validation calls, fee estimation (policy/fees.cpp; the
    pool carries it as an [Estimator]), LevelDB and file I/O, threads and
    locks (every function runs under cs_main, deferred script checks are run
    where they are awaited), logging and memory accounting.
    Proof systems and hash functions are libraries.

    ** This file

    Results and their monad, machine integers, loops, finite-map folds, and
    the tactics and hints the other files share. *)
From stdpp Require Import prelude gmap strings list fin_maps.
From Stdlib Require Import ZArith Lia.

#[local] Open Scope Z_scope.

(** ** Outcomes of C++ code

    [Ok a] is a normal return.  [Throw msg] is a C++ exception that leaves
    the function.  [Abort] is a failed [assert], which stops the process (the
    sources refuse to build with NDEBUG), or an out-of-range container
    access that the code relies on never making. *)
Inductive result (A : Type) : Type :=
| Ok (a : A)
| Throw (msg : string)
| Abort.
Arguments Ok {A} a.
Arguments Throw {A} msg.
Arguments Abort {A}.

#[global] Instance result_ret : MRet result := fun A a => Ok a.
#[global] Instance result_bind : MBind result :=
  fun A B (f : A -> result B) (m : result A) =>
    match m with
    | Ok a => f a
    | Throw msg => Throw msg
    | Abort => Abort
    end.

(** [assert(b)]. *)
Definition assert_true (b : bool) : result unit := if b then Ok tt else Abort.

(** [vector[i]] where the code has established [i < size()]. *)
Definition index_or_abort {A} (l : list A) (i : nat) : result A :=
  match l !! i with Some x => Ok x | None => Abort end.

(** A [for] loop over a container whose body may throw or abort. *)
Fixpoint foldM {A B} (f : A -> B -> result A) (l : list B) (a : A) : result A :=
  match l with
  | [] => Ok a
  | b :: l' => a' ← f a b; foldM f l' a'
  end.

Definition is_ok {A} (r : result A) : bool :=
  match r with Ok _ => true | _ => false end.

(** ** Machine integers

    A C++ integer is a [Z]; the wrap-around of its width is written out
    where the code can reach it. *)
Definition u8 (z : Z) : Z := z mod 2 ^ 8.
Definition u32 (z : Z) : Z := z mod 2 ^ 32.
Definition u64 (z : Z) : Z := z mod 2 ^ 64.
Definition i32 (z : Z) : Z := (z + 2 ^ 31) mod 2 ^ 32 - 2 ^ 31.
Definition i64 (z : Z) : Z := (z + 2 ^ 63) mod 2 ^ 64 - 2 ^ 63.

Definition is_u8 (z : Z) : Prop := 0 <= z < 2 ^ 8.
Definition is_u32 (z : Z) : Prop := 0 <= z < 2 ^ 32.
Definition is_u64 (z : Z) : Prop := 0 <= z < 2 ^ 64.
Definition is_i32 (z : Z) : Prop := - 2 ^ 31 <= z < 2 ^ 31.
Definition is_i64 (z : Z) : Prop := - 2 ^ 63 <= z < 2 ^ 63.

(** A 256-bit blob (hash, txid, nullifier, tree root): the number its bytes
    spell, least significant byte first.  [uint256()] is the null blob. *)
Abbreviation uint256 := Z.
Definition uint256_null : uint256 := 0.
Definition uint256_IsNull (h : uint256) : bool := bool_decide (h = uint256_null).

(** A byte vector: every element is between 0 and 255. *)
Abbreviation bytes := (list Z).
Definition is_bytes (l : bytes) : Prop := Forall is_u8 l.

(** ** Tactics and lemmas shared by the components *)

Create HintDb gemlink.

Lemma u8_bound z : is_u8 (u8 z).
Proof. apply Z.mod_pos_bound. lia. Qed.
Lemma u32_bound z : is_u32 (u32 z).
Proof. apply Z.mod_pos_bound. lia. Qed.
Lemma u64_bound z : is_u64 (u64 z).
Proof. apply Z.mod_pos_bound. lia. Qed.
Lemma u8_small z : is_u8 z -> u8 z = z.
Proof. apply Z.mod_small. Qed.
Lemma u32_small z : is_u32 z -> u32 z = z.
Proof. apply Z.mod_small. Qed.
Lemma u64_small z : is_u64 z -> u64 z = z.
Proof. apply Z.mod_small. Qed.
Lemma i32_small z : is_i32 z -> i32 z = z.
Proof. unfold is_i32, i32. intros H. rewrite Z.mod_small; lia. Qed.
Lemma i64_small z : is_i64 z -> i64 z = z.
Proof. unfold is_i64, i64. intros H. rewrite Z.mod_small; lia. Qed.
Lemma i32_bound z : is_i32 (i32 z).
Proof. unfold is_i32, i32. pose proof (Z.mod_pos_bound (z + 2^31) (2^32)). lia. Qed.
Lemma i64_bound z : is_i64 (i64 z).
Proof. unfold is_i64, i64. pose proof (Z.mod_pos_bound (z + 2^63) (2^64)). lia. Qed.

Lemma u64_i64 z : u64 (i64 z) = u64 z.
Proof. unfold u64, i64. rewrite Zminus_mod_idemp_l. f_equal. lia. Qed.
Lemma u32_i32 z : u32 (i32 z) = u32 z.
Proof. unfold u32, i32. rewrite Zminus_mod_idemp_l. f_equal. lia. Qed.

Lemma i64_shift z k : i64 (z + k * 2 ^ 64) = i64 z.
Proof.
  unfold i64. replace (z + k * 2 ^ 64 + 2 ^ 63) with (z + 2 ^ 63 + k * 2 ^ 64) by lia.
  by rewrite Z.mod_add by lia.
Qed.
Lemma i64_wraps z : exists k, i64 z = z + k * 2 ^ 64.
Proof. exists (- ((z + 2 ^ 63) / 2 ^ 64)). unfold i64. rewrite Z.mod_eq by lia. lia. Qed.
Lemma i64_add_l a b : i64 (i64 a + b) = i64 (a + b).
Proof.
  destruct (i64_wraps a) as [k ->]. replace (a + k * 2 ^ 64 + b) with (a + b + k * 2 ^ 64) by lia.
  apply i64_shift.
Qed.

(** Wrapping around can only lose. *)
Lemma i64_le z : - 2 ^ 63 <= z -> i64 z <= z.
Proof. intros Hz. unfold i64. pose proof (Z.mod_le (z + 2 ^ 63) (2 ^ 64)). lia. Qed.

#[export] Hint Resolve u8_bound u32_bound u64_bound i32_bound i64_bound : gemlink.
Create Rewrite HintDb width.
#[export] Hint Rewrite u8_small u32_small u64_small i32_small i64_small
  using (unfold is_u8, is_u32, is_u64, is_i32, is_i64 in *; lia) : width.

(** Turn boolean tests on integers into propositions. *)
Ltac zbool :=
  repeat match goal with
  | H : andb _ _ = true |- _ => apply andb_true_iff in H as [? ?]
  | H : orb _ _ = false |- _ => apply orb_false_iff in H as [? ?]
  | H : negb _ = true |- _ => apply negb_true_iff in H
  | H : negb _ = false |- _ => apply negb_false_iff in H
  | H : (_ <=? _)%Z = true |- _ => apply Z.leb_le in H
  | H : (_ <=? _)%Z = false |- _ => apply Z.leb_gt in H
  | H : (_ <? _)%Z = true |- _ => apply Z.ltb_lt in H
  | H : (_ <? _)%Z = false |- _ => apply Z.ltb_ge in H
  | H : (_ =? _)%Z = true |- _ => apply Z.eqb_eq in H
  | H : (_ =? _)%Z = false |- _ => apply Z.eqb_neq in H
  | H : bool_decide _ = true |- _ => apply bool_decide_eq_true in H
  | H : bool_decide _ = false |- _ => apply bool_decide_eq_false in H
  end.

Lemma if_decide_ext {A} (P Q : Prop) `{!Decision P, !Decision Q} (a a' b : A) :
  (P <-> Q) -> (P -> a = a') ->
  (if bool_decide P then a else b) = (if bool_decide Q then a' else b).
Proof. intros HPQ Ha. do 2 case_bool_decide; naive_solver. Qed.

(** Peel one [mbind] off a hypothesis that says a computation returned. *)
Lemma bind_Ok {A B} (m : result A) (f : A -> result B) b :
  m ≫= f = Ok b -> exists a, m = Ok a /\ f a = Ok b.
Proof. destruct m; simpl; intros; try discriminate. eauto. Qed.

Lemma assert_true_Ok b u : assert_true b = Ok u -> b = true.
Proof. destruct b; [done | discriminate]. Qed.

(** Reduce the monad's plumbing and nothing else. *)
Ltac mstep := cbn [mbind result_bind mret result_ret assert_true].

Ltac ok_inv :=
  repeat match goal with
  | H : mbind _ _ = Ok _ |- _ =>
      let a := fresh "a" in let E := fresh "E" in
      apply bind_Ok in H as (a & E & H)
  | H : mret _ = Ok _ |- _ => injection H as H
  | H : Ok _ = Ok _ |- _ => injection H as H
  | H : assert_true _ = Ok _ |- _ => apply assert_true_Ok in H
  | H : Throw _ = Ok _ |- _ => discriminate H
  | H : Abort = Ok _ |- _ => discriminate H
  | H : (_, _) = (_, _) |- _ => injection H as ? ?
  end; simplify_eq.

(** ** Loops over unordered maps

    The order in which C++ visits an unordered map is unspecified.  When the
    body for key [k] only touches the entry of [k] in the target map, every
    order gives the same result: the pointwise one. *)
Section MapLoop.
Context {A B : Type}.
Implicit Types (m : gmap Z A) (mb : gmap Z B).
Context (step : gmap Z A -> Z * B -> result (gmap Z A)).
Context (f : Z -> option A -> B -> option A) (pre : option A -> Z -> B -> Prop).
Hypothesis step_ok : forall m k b, pre (m !! k) k b ->
  exists m', step m (k, b) = Ok m' /\ m' !! k = f k (m !! k) b /\ (forall j, j <> k -> m' !! j = m !! j).

Lemma foldM_pointwise_list l : forall m,
  NoDup l.*1 -> (forall k b, (k, b) ∈ l -> pre (m !! k) k b) ->
  exists m', foldM step l m = Ok m'
    /\ (forall k b, (k, b) ∈ l -> m' !! k = f k (m !! k) b)
    /\ (forall k, k ∉ l.*1 -> m' !! k = m !! k).
Proof using step_ok.
  induction l as [|[k b] l IH]; intros m Hnd Hpre; cbn [foldM].
  - exists m. split_and!; [done| |done]. intros k b Hin. by apply elem_of_nil in Hin.
  - apply NoDup_cons in Hnd as [Hk Hnd].
    destruct (step_ok m k b) as (m1 & E1 & Ek & Ej); [apply Hpre; left|].
    rewrite E1. cbn [mbind result_bind].
    assert (Hkin : forall j c, (j, c) ∈ l -> j <> k).
    { intros j c Hin ->. apply Hk. apply (list_elem_of_fmap_2 fst) in Hin. done. }
    destruct (IH m1 Hnd) as (m' & E' & Hin' & Hout').
    { intros j c Hin. rewrite Ej by eauto. apply Hpre. by right. }
    exists m'. split_and!; [done|..].
    + intros j c Hin. apply elem_of_cons in Hin as [[= -> ->]|Hin].
      * rewrite Hout' by done. done.
      * rewrite (Hin' j c Hin). by rewrite Ej by eauto.
    + intros j Hj. simpl in Hj. apply not_elem_of_cons in Hj as [Hjk Hj].
      rewrite Hout' by done. by apply Ej.
Qed.

Lemma foldM_pointwise mb m :
  (forall k b, mb !! k = Some b -> pre (m !! k) k b) ->
  exists m', foldM step (map_to_list mb) m = Ok m'
    /\ forall k, m' !! k = match mb !! k with Some b => f k (m !! k) b | None => m !! k end.
Proof using step_ok.
  intros Hpre.
  destruct (foldM_pointwise_list (map_to_list mb) m) as (m' & E & Hin & Hout).
  - apply NoDup_fst_map_to_list.
  - intros k b Hin. apply Hpre. by apply elem_of_map_to_list in Hin.
  - exists m'. split; [done|]. intros k. destruct (mb !! k) as [b|] eqn:Ek.
    + apply Hin. by apply elem_of_map_to_list.
    + apply Hout. intros Hk. apply list_elem_of_fmap in Hk as ([k' b] & -> & Hk).
      apply elem_of_map_to_list in Hk. simpl in Ek. congruence.
Qed.
End MapLoop.

Lemma foldM_foldl {A B} (g : A -> B -> A) l : forall a,
  foldM (fun a b => Ok (g a b)) l a = Ok (foldl g a l).
Proof. induction l as [|b l IH]; intros a; simpl; [done|]. apply IH. Qed.

Lemma foldM_app {A B} (f : A -> B -> result A) l1 l2 : forall a,
  foldM f (l1 ++ l2) a = a' ← foldM f l1 a; foldM f l2 a'.
Proof.
  induction l1 as [|b l1 IH]; intros a; [done|]. simpl. destruct (f a b); simpl; [apply IH|done..].
Qed.

Lemma foldl_pointwise_key {A B} (step : gmap Z A -> Z * B -> gmap Z A)
  (f : Z -> option A -> B -> option A) (mb : gmap Z B) (m : gmap Z A) :
  (forall m k b, step m (k, b) !! k = f k (m !! k) b /\ (forall j, j <> k -> step m (k, b) !! j = m !! j)) ->
  forall k, foldl step m (map_to_list mb) !! k =
    match mb !! k with Some b => f k (m !! k) b | None => m !! k end.
Proof.
  intros Hs.
  destruct (foldM_pointwise (fun m p => Ok (step m p)) f (fun _ _ _ => True)) with (mb := mb) (m := m)
    as (m' & E & Hm); [|done|].
  - intros m0 k b _. destruct (Hs m0 k b). eauto.
  - rewrite foldM_foldl in E. by injection E as <-.
Qed.

Lemma foldl_pointwise {A B} (step : gmap Z A -> Z * B -> gmap Z A) (f : option A -> B -> option A)
  (mb : gmap Z B) (m : gmap Z A) :
  (forall m k b, step m (k, b) !! k = f (m !! k) b /\ (forall j, j <> k -> step m (k, b) !! j = m !! j)) ->
  forall k, foldl step m (map_to_list mb) !! k =
    match mb !! k with Some b => f (m !! k) b | None => m !! k end.
Proof. exact (foldl_pointwise_key step (fun _ => f) mb m). Qed.

(** A table overwritten by every entry of [mb]. *)
Lemma foldl_insert {B C} (g : B -> C) (mb : gmap Z B) (m : gmap Z C) k :
  foldl (fun m p => <[p.1 := g p.2]> m) m (map_to_list mb) !! k =
    match mb !! k with Some b => Some (g b) | None => m !! k end.
Proof.
  apply (foldl_pointwise (fun m p => <[p.1 := g p.2]> m) (fun _ b => Some (g b))).
  intros mm j b. simpl. split; [apply lookup_insert_eq|]. intros. by rewrite lookup_insert_ne.
Qed.

(** ** Little-endian byte strings

    [WriteLE16], [WriteLE32], [WriteLE64] and [ReadLE*] (crypto/common.h), for
    any width. *)
Fixpoint le_bytes (n : nat) (z : Z) : bytes :=
  match n with
  | O => []
  | S n' => z mod 256 :: le_bytes n' (z / 256)
  end.

Fixpoint le_val (l : bytes) : Z :=
  match l with
  | [] => 0
  | b :: l' => b + 256 * le_val l'
  end.

Lemma length_le_bytes n : forall z, length (le_bytes n z) = n.
Proof. induction n as [|n IH]; intros z; simpl; [done|]. by rewrite IH. Qed.

Lemma le_bytes_bytes n : forall z, is_bytes (le_bytes n z).
Proof.
  induction n as [|n IH]; intros z; simpl; constructor; [|apply IH].
  apply Z.mod_pos_bound. lia.
Qed.

Lemma pow256_S n : 256 ^ Z.of_nat (S n) = 256 * 256 ^ Z.of_nat n.
Proof. rewrite Nat2Z.inj_succ, Z.pow_succ_r by lia. done. Qed.

Lemma pow256_pos n : 0 < 256 ^ Z.of_nat n.
Proof. apply Z.pow_pos_nonneg; lia. Qed.

Lemma le_val_bound l : is_bytes l -> 0 <= le_val l < 256 ^ Z.of_nat (length l).
Proof.
  induction 1 as [|b l Hb Hl IH]; [simpl; lia|]. cbn [le_val length]. rewrite pow256_S.
  unfold is_u8 in Hb. change (2 ^ 8) with 256 in Hb. lia.
Qed.

Lemma le_val_le_bytes n : forall z, le_val (le_bytes n z) = z mod 256 ^ Z.of_nat n.
Proof.
  induction n as [|n IH]; intros z; [simpl; by rewrite Z.mod_1_r|].
  cbn [le_bytes le_val]. rewrite IH, pow256_S.
  pose proof (pow256_pos n). rewrite Z.rem_mul_r by lia. lia.
Qed.

Lemma le_val_le_bytes_small n z : 0 <= z < 256 ^ Z.of_nat n -> le_val (le_bytes n z) = z.
Proof. intros Hz. rewrite le_val_le_bytes. by apply Z.mod_small. Qed.

Lemma le_bytes_le_val l : is_bytes l -> le_bytes (length l) (le_val l) = l.
Proof.
  induction 1 as [|b l Hb Hl IH]; [done|]. cbn [le_val length le_bytes].
  unfold is_u8 in Hb. change (2 ^ 8) with 256 in Hb.
  rewrite (Z.mul_comm 256), Z.mod_add, Z.div_add, (Z.div_small b), Z.add_0_l, IH by lia.
  by rewrite Z.mod_small by lia.
Qed.

Lemma le_val_app l1 l2 : le_val (l1 ++ l2) = le_val l1 + 256 ^ Z.of_nat (length l1) * le_val l2.
Proof.
  induction l1 as [|b l1 IH]; [simpl; lia|]. cbn [le_val length app]. rewrite IH, pow256_S. lia.
Qed.

#[export] Hint Resolve le_bytes_bytes : gemlink.
#[export] Hint Rewrite length_le_bytes : width.

(** ** Bits *)

(** A byte predicate holds when it holds of the 256 bytes. *)
Lemma byte_cases (P : Z -> bool) : forallb P (seqZ 0 256) = true -> forall b, is_u8 b -> P b = true.
Proof.
  intros H b Hb. rewrite forallb_forall in H. apply H. apply list_elem_of_In, elem_of_seqZ.
  unfold is_u8 in Hb. lia.
Qed.

Lemma lor_disjoint k r x : 0 <= k -> 0 <= r < 2 ^ k -> Z.lor r (x * 2 ^ k) = r + x * 2 ^ k.
Proof.
  intros Hk Hr. assert (Z.land r (x * 2 ^ k) = 0) as E.
  { apply Z.bits_inj'. intros n Hn. rewrite Z.land_spec, Z.bits_0.
    destruct (decide (n < k)).
    - rewrite Z.mul_pow2_bits_low by lia. apply andb_false_r.
    - rewrite <- (Z.mod_small r (2 ^ k)) by lia. by rewrite Z.mod_pow2_bits_high by lia. }
  rewrite <- Z.lxor_lor by done. symmetry. by apply Z.add_nocarry_lxor.
Qed.

Lemma pow256_pow2 n : 0 <= n -> 256 ^ n = 2 ^ (8 * n).
Proof. intros Hn. change 256 with (2 ^ 8). by rewrite <- Z.pow_mul_r by lia. Qed.

(** Clearing the top bit of a word. *)
Lemma clear_bit k low : 0 <= k < 64 -> 0 <= low < 2 ^ k ->
  Z.land (low + 2 ^ k) (u64 (Z.lnot (2 ^ k))) = low.
Proof.
  intros Hk Hlow. assert (E : low + 2 ^ k = Z.lor low (1 * 2 ^ k)) by (rewrite lor_disjoint; lia).
  rewrite E, Z.mul_1_l. apply Z.bits_inj'. intros n Hn.
  rewrite Z.land_spec, Z.lor_spec, Z.pow2_bits_eqb by lia. unfold u64.
  assert (Hb : k <= n -> Z.testbit low n = false).
  { intros Hkn. rewrite <- (Z.mod_small low (2 ^ k)) by lia. by apply Z.mod_pow2_bits_high; lia. }
  destruct (decide (n < 64)).
  - rewrite Z.mod_pow2_bits_low, Z.lnot_spec, Z.pow2_bits_eqb by lia.
    destruct (Z.eqb_spec k n) as [->|]; simpl.
    + rewrite Hb by lia. done.
    + by rewrite orb_false_r, andb_true_r.
  - rewrite Z.mod_pow2_bits_high, andb_false_r, Hb by lia. done.
Qed.

(** ** The back of a vector *)

Lemma snoc_inv {A} (l : list A) : l <> [] -> exists l0 b, l = l0 ++ [b].
Proof. intros Hn. destruct l as [|b l0 _] using rev_ind; [done|eauto]. Qed.
