(* ===== verification/Transaction.v ===== *)
(** * Amounts and transactions

    amount.h / amount.cpp ([MoneyRange], [CFeeRate]) and the data types of
    primitives/transaction.h with the methods of primitives/transaction.cpp
    that consensus code uses: outpoints, inputs, outputs, shielded
    descriptions, [CTransaction] with its constructors and value sums. *)
From S2P Require Import Prelude.
From stdpp Require Import prelude gmap strings list.
#[local] Open Scope Z_scope.

(** ** Amounts *)

Definition COIN : Z := 100000000.
Definition CENT : Z := 1000000.
Definition MAX_MONEY : Z := 160000000 * COIN.
Definition PREMINE_GEMLINK : Z := 10000000 * COIN.

Definition MoneyRange (nValue : Z) : bool := (0 <=? nValue) && (nValue <=? MAX_MONEY).

(** [CFeeRate]: the single field [nSatoshisPerK], an [int64_t].  The mixed
    [int64_t]/[size_t] arithmetic converts to the unsigned 64-bit type. *)
Record CFeeRate := mkCFeeRate { nSatoshisPerK : Z }.

Definition CFeeRate_of (nFeePaid nSize : Z) : CFeeRate :=
  mkCFeeRate (if 0 <? nSize then i64 (u64 (i64 (nFeePaid * 1000)) / nSize) else 0).

Definition CFeeRate_GetFee (r : CFeeRate) (nSize : Z) : Z :=
  let nFee := i64 (u64 (nSatoshisPerK r * nSize) / 1000) in
  if (nFee =? 0) && (0 <? nSatoshisPerK r) then nSatoshisPerK r else nFee.

(** ** Outpoints, inputs, outputs *)

Abbreviation CScript := bytes.

Record COutPoint := mkCOutPoint { out_hash : uint256; out_n : Z }.

#[global] Instance COutPoint_eq_dec : EqDecision COutPoint.
Proof. solve_decision. Defined.
#[global] Instance COutPoint_countable : Countable COutPoint.
Proof.
  refine (inj_countable' (fun o => (out_hash o, out_n o)) (fun p => mkCOutPoint p.1 p.2) _).
  by intros [].
Defined.

Definition COutPoint_SetNull : COutPoint := mkCOutPoint uint256_null (2 ^ 32 - 1).
Definition COutPoint_IsNull (o : COutPoint) : bool :=
  uint256_IsNull (out_hash o) && (out_n o =? 2 ^ 32 - 1).

(** [prevPubKey] of the C++ class is not serialized and not read by the
    modelled code. *)
Record CTxIn := mkCTxIn { prevout : COutPoint; scriptSig : CScript; nSequence : Z }.

Definition CTxIn_IsFinal (i : CTxIn) : bool := nSequence i =? 2 ^ 32 - 1.

Record CTxOut := mkCTxOut { nValue : Z; scriptPubKey : CScript; nRounds : Z }.

#[global] Instance CTxOut_eq_dec : EqDecision CTxOut.
Proof. solve_decision. Defined.

(** The constructor [CTxOut(nValueIn, scriptPubKeyIn)]. *)
Definition CTxOut_new (nValueIn : Z) (scriptPubKeyIn : CScript) : CTxOut :=
  mkCTxOut nValueIn scriptPubKeyIn (-10).
(** [SetNull], also the default constructor. *)
Definition CTxOut_SetNull : CTxOut := mkCTxOut (-1) [] (-10).
Definition CTxOut_IsNull (o : CTxOut) : bool := nValue o =? -1.

(** [CScript::IsUnspendable] (script/script.h). *)
Definition OP_RETURN : Z := 0x6a.
Definition MAX_SCRIPT_SIZE : Z := 10000.
Definition CScript_IsUnspendable (s : CScript) : bool :=
  (match s with b :: _ => b =? OP_RETURN | [] => false end)
  || (MAX_SCRIPT_SIZE <? Z.of_nat (length s)).

(** ** Shielded descriptions *)

Record SpendDescription := mkSpendDescription {
  sd_cv : uint256;
  sd_anchor : uint256;
  sd_nullifier : uint256;
  sd_rk : uint256;
  sd_zkproof : bytes;
  sd_spendAuthSig : bytes
}.

Record OutputDescription := mkOutputDescription {
  od_cv : uint256;
  od_cm : uint256;
  od_ephemeralKey : uint256;
  od_encCiphertext : bytes;
  od_outCiphertext : bytes;
  od_zkproof : bytes
}.

(** [CompressedG1] and [CompressedG2]: a sign bit and a coordinate. *)
Record CompressedPoint := mkPoint { pt_sign : bool; pt_x : bytes }.

Record PHGRProof := mkPHGR {
  g_A : CompressedPoint;
  g_A_prime : CompressedPoint;
  g_B : CompressedPoint;
  g_B_prime : CompressedPoint;
  g_C : CompressedPoint;
  g_C_prime : CompressedPoint;
  g_K : CompressedPoint;
  g_H : CompressedPoint
}.

(** [std::variant<PHGRProof, GrothProof>]. *)
Inductive SproutProof := PHGR (proof : PHGRProof) | GrothProof (proof : bytes).

Record JSDescription := mkJSDescription {
  vpub_old : Z;
  vpub_new : Z;
  js_anchor : uint256;
  js_nullifiers : list uint256;
  js_commitments : list uint256;
  js_ephemeralKey : uint256;
  js_ciphertexts : list bytes;
  js_randomSeed : uint256;
  js_macs : list uint256;
  js_proof : SproutProof
}.

(** ** Transactions *)

(** The fields shared by [CTransaction] and [CMutableTransaction]. *)
Record CMutableTransaction := mkTx {
  fOverwintered : bool;
  tx_nVersion : Z;
  nVersionGroupId : Z;
  vin : list CTxIn;
  tx_vout : list CTxOut;
  nLockTime : Z;
  nExpiryHeight : Z;
  valueBalance : Z;
  vShieldedSpend : list SpendDescription;
  vShieldedOutput : list OutputDescription;
  vjoinsplit : list JSDescription;
  joinSplitPubKey : bytes;
  joinSplitSig : bytes;
  bindingSig : bytes
}.

(** A [CTransaction] caches the hash of its serialization. *)
Record CTransaction := mkCTransaction {
  tx_hash : uint256;
  tx_body :> CMutableTransaction
}.

Definition OVERWINTER_VERSION_GROUP_ID : Z := 0x03C48270.
Definition SAPLING_VERSION_GROUP_ID : Z := 0x892F2085.
Definition OVERWINTER_TX_VERSION : Z := 3.
Definition SAPLING_TX_VERSION : Z := 4.

Section Constructors.
(** [SerializeHash], the double SHA-256 of the network serialization. *)
Context (SerializeHash : CMutableTransaction -> uint256).

(** [CTransaction(const CMutableTransaction&)]: copy, then [UpdateHash]. *)
Definition CTransaction_copy (tx : CMutableTransaction) : CTransaction :=
  mkCTransaction (SerializeHash tx) tx.

(** [CTransaction(CMutableTransaction&&)]: the initializer list has no entry
    for [bindingSig], which keeps its in-class initializer [{{0}}]. *)
Definition CTransaction_move (tx : CMutableTransaction) : CTransaction :=
  let body :=
    mkTx (fOverwintered tx) (tx_nVersion tx) (nVersionGroupId tx) (vin tx) (tx_vout tx)
         (nLockTime tx) (nExpiryHeight tx) (valueBalance tx) (vShieldedSpend tx)
         (vShieldedOutput tx) (vjoinsplit tx) (joinSplitPubKey tx) (joinSplitSig tx)
         (replicate 64 0) in
  mkCTransaction (SerializeHash body) body.
End Constructors.

Definition IsCoinBase (tx : CMutableTransaction) : bool :=
  match vin tx with
  | [i] => COutPoint_IsNull (prevout i)
  | _ => false
  end.

(** The running sums of [GetValueOut] and [GetShieldedValueIn]: the amount is
    added first, then the addend and the new total are range-checked. *)
Definition sum_step (msg : string) (total v : Z) : result Z :=
  let total' := i64 (total + v) in
  if negb (MoneyRange v) || negb (MoneyRange total') then Throw msg else Ok total'.

Fixpoint sum_checked (msg : string) (total : Z) (l : list Z) : result Z :=
  match l with
  | [] => Ok total
  | v :: l' => total' ← sum_step msg total v; sum_checked msg total' l'
  end.

Definition value_out_msg : string := "CTransaction::GetValueOut(): value out of range".
Definition value_in_msg : string := "CTransaction::GetShieldedValueIn(): value out of range".

Definition GetValueOut (tx : CMutableTransaction) : result Z :=
  nValueOut ← sum_checked value_out_msg 0 (nValue <$> tx_vout tx);
  nValueOut ←
    (if valueBalance tx <=? 0
     then sum_step value_out_msg nValueOut (i64 (- valueBalance tx))
     else Ok nValueOut);
  sum_checked value_out_msg nValueOut (vpub_old <$> vjoinsplit tx).

Definition GetShieldedValueIn (tx : CMutableTransaction) : result Z :=
  n ← (if 0 <=? valueBalance tx
       then sum_step value_in_msg 0 (valueBalance tx)
       else Ok 0);
  sum_checked value_in_msg n (vpub_new <$> vjoinsplit tx).

(** [CalculateModifiedSize]; [nSerSize] is the serialized size, used when the
    caller passes 0. *)
Definition modified_size_step (nTxSize : Z) (i : CTxIn) : Z :=
  let offset := 41 + Z.min 110 (Z.of_nat (length (scriptSig i))) in
  if offset <? nTxSize then nTxSize - offset else nTxSize.

Definition CalculateModifiedSize (nSerSize : Z) (tx : CMutableTransaction) (nTxSize : Z) : Z :=
  foldl modified_size_step (if nTxSize =? 0 then nSerSize else nTxSize) (vin tx).

(** ** Properties *)

Definition sumZ (l : list Z) : Z := foldr Z.add 0 l.

Lemma sumZ_cons x l : sumZ (x :: l) = x + sumZ l.
Proof. done. Qed.

Lemma sumZ_app l1 l2 : sumZ (l1 ++ l2) = sumZ l1 + sumZ l2.
Proof. induction l1 as [|x l1 IH]; [done|]. rewrite <- app_comm_cons, !sumZ_cons, IH. lia. Qed.

Lemma MoneyRange_spec v : MoneyRange v = true <-> 0 <= v <= MAX_MONEY.
Proof. unfold MoneyRange. rewrite andb_true_iff, !Z.leb_le. done. Qed.

Lemma MAX_MONEY_lt : MAX_MONEY < 2 ^ 62.
Proof. vm_compute. done. Qed.

(** Starting in range, a checked step succeeds exactly when the exact
    mathematical sum and the addend stay in range: the 64-bit addition
    cannot wrap back into range unnoticed. *)
Lemma sum_step_spec msg total v :
  0 <= total <= MAX_MONEY -> is_i64 v ->
  sum_step msg total v =
    if bool_decide (0 <= v /\ total + v <= MAX_MONEY) then Ok (total + v) else Throw msg.
Proof.
  intros Ht Hv. unfold sum_step. pose proof MAX_MONEY_lt as Hm.
  destruct (MoneyRange v) eqn:Ev; simpl.
  - apply MoneyRange_spec in Ev.
    rewrite i64_small by (unfold is_i64; lia).
    case_bool_decide as Hb.
    + assert (MoneyRange (total + v) = true) as -> by (apply MoneyRange_spec; lia). done.
    + destruct (MoneyRange (total + v)) eqn:E2; [|done].
      apply MoneyRange_spec in E2. lia.
  - case_bool_decide as Hb; [|done].
    assert (MoneyRange v = true) by (apply MoneyRange_spec; lia). congruence.
Qed.

Definition all_in_range (l : list Z) : Prop := Forall (fun v => 0 <= v) l.

Lemma sum_checked_spec msg l : forall total,
  0 <= total <= MAX_MONEY -> Forall is_i64 l ->
  sum_checked msg total l =
    if bool_decide (all_in_range l /\ total + sumZ l <= MAX_MONEY)
    then Ok (total + sumZ l) else Throw msg.
Proof.
  induction l as [|v l IH]; intros total Ht Hl.
  - simpl. rewrite bool_decide_true by (split; [constructor|lia]). f_equal. lia.
  - apply Forall_cons in Hl as [Hv Hl]. simpl.
    rewrite sum_step_spec by done.
    assert (Hnn : all_in_range l -> 0 <= sumZ l).
    { clear. induction 1; simpl; lia. }
    case_bool_decide as Hb; simpl.
    + rewrite IH by (lia || done).
      replace (total + v + sumZ l) with (total + (v + sumZ l)) by lia.
      destruct (decide (all_in_range l /\ total + (v + sumZ l) <= MAX_MONEY)) as [H|H].
      * rewrite !bool_decide_true; [done| |done]. destruct H. split; [constructor; [lia|done]|done].
      * rewrite !bool_decide_false; [done| |done].
        intros [HF ?]. apply H. inversion HF; subst. done.
    + rewrite bool_decide_false; [done|].
      intros [HF Hs]. inversion HF as [|? ? H0 HF']; subst. apply Hb. specialize (Hnn HF'). simpl in Hs. lia.
Qed.

(** The amounts of a transaction are [int64_t]s. *)
Definition tx_amounts_i64 (tx : CMutableTransaction) : Prop :=
  Forall is_i64 (nValue <$> tx_vout tx) /\ is_i64 (valueBalance tx) /\
  Forall is_i64 (vpub_old <$> vjoinsplit tx) /\ Forall is_i64 (vpub_new <$> vjoinsplit tx).

(** The exact value a transaction takes from the transparent pool, and the
    exact value its shielded part gives to it, over the integers. *)
Definition exact_value_out (tx : CMutableTransaction) : Z :=
  sumZ (nValue <$> tx_vout tx) + Z.max 0 (- valueBalance tx) + sumZ (vpub_old <$> vjoinsplit tx).
Definition exact_shielded_in (tx : CMutableTransaction) : Z :=
  Z.max 0 (valueBalance tx) + sumZ (vpub_new <$> vjoinsplit tx).

Lemma sumZ_nonneg l : all_in_range l -> 0 <= sumZ l.
Proof. induction 1; simpl; lia. Qed.

Lemma GetValueOut_value (tx : CMutableTransaction) : tx_amounts_i64 tx ->
  GetValueOut tx =
    if bool_decide (all_in_range (nValue <$> tx_vout tx)
                    /\ all_in_range (vpub_old <$> vjoinsplit tx)
                    /\ exact_value_out tx <= MAX_MONEY)
    then Ok (exact_value_out tx)
    else Throw value_out_msg.
Proof.
  intros (Hvo & Hvb & Hjo & _). unfold GetValueOut, exact_value_out.
  pose proof MAX_MONEY_lt as Hm.
  assert (0 <= MAX_MONEY) by (vm_compute; done).
  rewrite sum_checked_spec by (lia || done).
  case_bool_decide as H1; simpl.
  2:{ rewrite bool_decide_false; [done|]. intros (Ha & Hb & Hc). apply H1. split; [done|].
      pose proof (sumZ_nonneg _ Hb). lia. }
  destruct H1 as [Ha Hs]. pose proof (sumZ_nonneg _ Ha).
  destruct (valueBalance tx <=? 0) eqn:Eb; zbool; simpl.
  - destruct (decide (valueBalance tx = - 2^63)) as [E|E].
    + rewrite E. change (i64 (- - 2^63)) with (- 2^63).
      rewrite sum_step_spec by (unfold is_i64; lia).
      rewrite !bool_decide_false; [done| |lia].
      intros (_ & Hb & Hc). pose proof (sumZ_nonneg _ Hb). lia.
    + rewrite (i64_small (- valueBalance tx)) by (unfold is_i64 in *; lia).
      rewrite sum_step_spec by (unfold is_i64 in *; lia).
      case_bool_decide as H2; simpl.
      2:{ rewrite bool_decide_false; [done|]. intros (_ & Hb & Hc).
          pose proof (sumZ_nonneg _ Hb). lia. }
      rewrite sum_checked_spec by (lia || done).
      replace (Z.max 0 (- valueBalance tx)) with (- valueBalance tx) by lia.
      apply if_decide_ext; [naive_solver lia | intros _; f_equal; lia].
  - rewrite sum_checked_spec by (lia || done).
    replace (Z.max 0 (- valueBalance tx)) with 0 by lia.
    apply if_decide_ext; [naive_solver lia | intros _; f_equal; lia].
Qed.

Lemma GetShieldedValueIn_value (tx : CMutableTransaction) : tx_amounts_i64 tx ->
  GetShieldedValueIn tx =
    if bool_decide (all_in_range (vpub_new <$> vjoinsplit tx) /\ exact_shielded_in tx <= MAX_MONEY)
    then Ok (exact_shielded_in tx)
    else Throw value_in_msg.
Proof.
  intros (_ & Hvb & _ & Hjn). unfold GetShieldedValueIn, exact_shielded_in.
  pose proof MAX_MONEY_lt as Hm. assert (0 <= MAX_MONEY) by (vm_compute; done).
  destruct (0 <=? valueBalance tx) eqn:Eb; zbool; simpl.
  - rewrite sum_step_spec by (unfold is_i64 in *; lia). case_bool_decide as H2; simpl.
    2:{ rewrite bool_decide_false; [done|]. intros (Hb & Hc). pose proof (sumZ_nonneg _ Hb). lia. }
    rewrite sum_checked_spec by (lia || done). replace (Z.max 0 (valueBalance tx)) with (valueBalance tx) by lia.
    apply if_decide_ext; [naive_solver lia | intros _; f_equal; lia].
  - rewrite sum_checked_spec by (lia || done). replace (Z.max 0 (valueBalance tx)) with 0 by lia.
    apply if_decide_ext; [naive_solver lia | intros _; f_equal; lia].
Qed.

(** [GetValueOut] and [GetShieldedValueIn] either throw or return the
    exact integer sums of what a transaction takes from the transparent pool
    and of what its shielded part gives to it: every addend is non-negative
    and the sum at most [MAX_MONEY].  They throw exactly when that fails, also
    for amounts chosen to overflow the 64-bit additions. *)
Theorem GetValueOut_exact (tx : CMutableTransaction) (H : tx_amounts_i64 tx) :
  GetValueOut tx =
    (if bool_decide (all_in_range (nValue <$> tx_vout tx)
                    /\ all_in_range (vpub_old <$> vjoinsplit tx)
                    /\ exact_value_out tx <= MAX_MONEY)
     then Ok (exact_value_out tx)
     else Throw value_out_msg)
  /\ GetShieldedValueIn tx =
    (if bool_decide (all_in_range (vpub_new <$> vjoinsplit tx) /\ exact_shielded_in tx <= MAX_MONEY)
     then Ok (exact_shielded_in tx)
     else Throw value_in_msg).
Proof. split; [by apply GetValueOut_value|by apply GetShieldedValueIn_value]. Qed.
