(* ===== verification/ChainParams.v ===== *)
(** * Consensus parameters and network upgrades

    consensus/consensus.h, consensus/params.{h,cpp}, consensus/upgrades.{h,cpp},
    consensus/validation.h, the parameters of the three networks and the
    height-dependent rules of chainparams.cpp. *)
From S2P Require Import Prelude Transaction.
From stdpp Require Import prelude strings list.
#[local] Open Scope Z_scope.

(** ** consensus/consensus.h *)

Definition MIN_BLOCK_VERSION : Z := 4.
Definition SPROUT_MIN_TX_VERSION : Z := 1.
Definition OVERWINTER_MIN_TX_VERSION : Z := 3.
Definition OVERWINTER_MAX_TX_VERSION : Z := 3.
Definition SAPLING_MIN_TX_VERSION : Z := 4.
Definition SAPLING_MAX_TX_VERSION : Z := 4.
Definition MAX_BLOCK_SIZE_BEFORE_UPGRADE : Z := 2000000.
Definition MAX_BLOCK_SIZE_AFTER_UPGRADE : Z := 4000000.
Definition MAX_BLOCK_SIGOPS : Z := 20000.
Definition MAX_TX_SIZE_BEFORE_SAPLING : Z := 100000.
Definition MAX_TX_SIZE_AFTER_SAPLING : Z := 2000000.
Definition MAX_TX_SIZE_AFTER_DIFA : Z := 2 * MAX_TX_SIZE_BEFORE_SAPLING.
Definition MAX_TX_SIZE_AFTER_ALFHEIMR : Z := 4 * MAX_TX_SIZE_BEFORE_SAPLING.
Definition COINBASE_MATURITY : Z := 100.
Definition TX_EXPIRY_HEIGHT_THRESHOLD : Z := 500000000.
Definition LOCKTIME_MEDIAN_TIME_PAST : Z := Z.shiftl 1 1.
Definition STANDARD_LOCKTIME_VERIFY_FLAGS : Z := LOCKTIME_MEDIAN_TIME_PAST.

(** ** consensus/validation.h *)

Definition REJECT_MALFORMED : Z := 0x01.
Definition REJECT_INVALID : Z := 0x10.
Definition REJECT_OBSOLETE : Z := 0x11.
Definition REJECT_DUPLICATE : Z := 0x12.
Definition REJECT_TIME_TOO_FAST : Z := 0x13.
Definition REJECT_NONSTANDARD : Z := 0x40.
Definition REJECT_DUST : Z := 0x41.
Definition REJECT_INSUFFICIENTFEE : Z := 0x42.
Definition REJECT_CHECKPOINT : Z := 0x43.

Inductive mode_state := MODE_VALID | MODE_INVALID | MODE_ERROR.
#[global] Instance mode_state_eq_dec : EqDecision mode_state.
Proof. solve_decision. Defined.

Record CValidationState := mkState {
  vs_mode : mode_state;
  nDoS : Z;
  strRejectReason : string;
  chRejectCode : Z;
  corruptionPossible : bool
}.

Definition CValidationState_new : CValidationState := mkState MODE_VALID 0 "" 0 false.
Definition DoS (level : Z) (code : Z) (reason : string) (corruption : bool) (st : CValidationState)
  : CValidationState :=
  if decide (vs_mode st = MODE_ERROR) then mkState (vs_mode st) (nDoS st) reason code corruption
  else mkState MODE_INVALID (nDoS st + level) reason code corruption.
Definition Invalid (code : Z) (reason : string) (st : CValidationState) : CValidationState :=
  DoS 0 code reason false st.
Definition Error (reason : string) (st : CValidationState) : CValidationState :=
  mkState MODE_ERROR (nDoS st) (if decide (vs_mode st = MODE_VALID) then reason else strRejectReason st)
    (chRejectCode st) (corruptionPossible st).
Definition IsValid (st : CValidationState) : bool := bool_decide (vs_mode st = MODE_VALID).
Definition IsInvalid (st : CValidationState) : bool := bool_decide (vs_mode st = MODE_INVALID).
Definition IsError (st : CValidationState) : bool := bool_decide (vs_mode st = MODE_ERROR).
Definition IsInvalid_DoS (st : CValidationState) : option Z := if IsInvalid st then Some (nDoS st) else None.

(** ** consensus/params.h *)

Inductive UpgradeIndex :=
| BASE_SPROUT | UPGRADE_TESTDUMMY | UPGRADE_OVERWINTER | UPGRADE_SAPLING | UPGRADE_DIFA | UPGRADE_ALFHEIMR
| UPGRADE_KNOWHERE | UPGRADE_WAKANDA | UPGRADE_ATLANTIS | UPGRADE_MORAG | UPGRADE_XANDAR | UPGRADE_LATVERIA
| UPGRADE_KRAKOA | UPGRADE_LATVERION.

Definition upgrade_index (idx : UpgradeIndex) : Z :=
  match idx with
  | BASE_SPROUT => 0 | UPGRADE_TESTDUMMY => 1 | UPGRADE_OVERWINTER => 2 | UPGRADE_SAPLING => 3
  | UPGRADE_DIFA => 4 | UPGRADE_ALFHEIMR => 5 | UPGRADE_KNOWHERE => 6 | UPGRADE_WAKANDA => 7
  | UPGRADE_ATLANTIS => 8 | UPGRADE_MORAG => 9 | UPGRADE_XANDAR => 10 | UPGRADE_LATVERIA => 11
  | UPGRADE_KRAKOA => 12 | UPGRADE_LATVERION => 13
  end.
Definition MAX_NETWORK_UPGRADES : Z := 14.

Record EHparameters := mkEH { eh_n : Z; eh_k : Z; eh_nSolSize : Z; eh_pers : string }.
Definition eh200_9 : EHparameters := mkEH 200 9 1344 "ZcashPoW".
Definition eh144_5 : EHparameters := mkEH 144 5 100 "sngemPoW".
Definition eh96_5 : EHparameters := mkEH 96 5 68 "ZcashPoW".
Definition eh48_5 : EHparameters := mkEH 48 5 36 "ZcashPoW".

Record NetworkUpgrade := mkUpgrade { nProtocolVersion : Z; nActivationHeight : Z }.
Definition ALWAYS_ACTIVE : Z := 0.
Definition NO_ACTIVATION_HEIGHT : Z := -1.

Record Params := mkParams {
  fCoinbaseMustBeProtected : bool;
  nSubsidySlowStartInterval : Z;
  nSubsidyHalvingInterval : Z;
  nDelayHalvingBlocks : Z;
  nMajorityEnforceBlockUpgrade : Z;
  nMajorityRejectBlockOutdated : Z;
  nMajorityWindow : Z;
  vUpgrades : list NetworkUpgrade;
  powLimit : uint256;
  powLimitTop : uint256;
  nPowAllowMinDifficultyBlocksAfterHeight : option Z;
  nPowAveragingWindow : Z;
  nPowMaxAdjustDown : Z;
  nPowMaxAdjustUp : Z;
  nPowTargetSpacing : Z;
  nTimeshiftPriv : Z;
  nProposalEstablishmentTime : Z;
  nMasternodePaymentsStartBlock : Z;
  nMasternodePaymentsIncreasePeriod : Z;
  eh_epoch_1 : EHparameters;
  eh_epoch_2 : EHparameters;
  eh_epoch_1_endtime : Z;
  eh_epoch_2_starttime : Z;
  nMinimumChainWork : uint256;
  nZawyLWMA3AveragingWindow : Z
}.

(** [vUpgrades[idx].nActivationHeight]: the array has an entry per index. *)
Definition activation_at (params : Params) (i : Z) : Z :=
  match vUpgrades params !! Z.to_nat i with Some u => nActivationHeight u | None => NO_ACTIVATION_HEIGHT end.
Definition activation (params : Params) (idx : UpgradeIndex) : Z := activation_at params (upgrade_index idx).

(** Integer division of C++ rounds towards zero. *)
Definition SubsidySlowStartShift (params : Params) : Z := Z.quot (nSubsidySlowStartInterval params) 2.
Definition GetLastFoundersRewardBlockHeight (params : Params) : Z :=
  nSubsidyHalvingInterval params + SubsidySlowStartShift params - 1.
Definition GetLastDevelopersRewardBlockHeight (params : Params) : Z := 99999999.
Definition GetLastTreasuryRewardBlockHeight (params : Params) : Z := activation params UPGRADE_MORAG - 1.
Definition GetFoundersRewardRepeatInterval (params : Params) : Z :=
  nSubsidyHalvingInterval params + SubsidySlowStartShift params - 1.
Definition AveragingWindowTimespan (params : Params) : Z := nPowAveragingWindow params * nPowTargetSpacing params.
Definition MinActualTimespan (params : Params) : Z :=
  Z.quot (AveragingWindowTimespan params * (100 - nPowMaxAdjustUp params)) 100.
Definition MaxActualTimespan (params : Params) : Z :=
  Z.quot (AveragingWindowTimespan params * (100 + nPowMaxAdjustDown params)) 100.

(** [validEHparameterList]: the entries written and their number. *)
Definition validEHparameterList (params : Params) (blocktime : Z) : list EHparameters :=
  if (eh_epoch_2_starttime params <=? blocktime) && (eh_epoch_1_endtime params <? blocktime) then [eh_epoch_2 params]
  else if blocktime <? eh_epoch_2_starttime params then [eh_epoch_1 params]
  else [eh_epoch_2 params; eh_epoch_1 params].

(** ** consensus/upgrades.cpp *)

Record NUInfo := mkNUInfo { nu_nBranchId : Z; nu_strName : string; nu_strInfo : string }.
Definition NetworkUpgradeInfo : list NUInfo := [
  mkNUInfo 0 "Sprout" "The Zcash network at launch";
  mkNUInfo 0x74736554 "Test dummy" "Test dummy info";
  mkNUInfo 0x5ba81b19 "Overwinter" "See https://z.cash/upgrade/overwinter.html for details.";
  mkNUInfo 0x76b809bb "Sapling" "See https://z.cash/upgrade/sapling.html for details.";
  mkNUInfo 0 "Difa" "SnowGem Blocksize and LWMA update";
  mkNUInfo 0x76b809bb "Alfheimr" "Masternodevoting, increase tx size to 400k";
  mkNUInfo 0x76b809bb "Knowhere" "Update payment reward";
  mkNUInfo 0x76b809bb "Wakanda" "Update new block consensus";
  mkNUInfo 0x76b809bb "Atlantis" "Dropping private transactions";
  mkNUInfo 0x76b809bb "Morag" "Gemlink";
  mkNUInfo 0x76b809bb "Xandar" "Locking mn funds";
  mkNUInfo 0x76b809bb "Latveria" "Locking blacklist";
  mkNUInfo 0x76b809bb "Krakoa" "Decrease min blocktime to 8 seconds";
  mkNUInfo 0x76b809bb "Latverion" "Decrease collateral locking time to 7 days"].
Definition branch_id (i : Z) : Z :=
  match NetworkUpgradeInfo !! Z.to_nat i with Some u => nu_nBranchId u | None => 0 end.
Definition SPROUT_BRANCH_ID : Z := branch_id (upgrade_index BASE_SPROUT).

Inductive UpgradeState := UPGRADE_DISABLED | UPGRADE_PENDING | UPGRADE_ACTIVE.
#[global] Instance UpgradeState_eq_dec : EqDecision UpgradeState.
Proof. solve_decision. Defined.

(** The body of [NetworkUpgradeState] after its assertions. *)
Definition upgrade_state (nHeight : Z) (params : Params) (i : Z) : UpgradeState :=
  let nActivationHeight := activation_at params i in
  if nActivationHeight =? NO_ACTIVATION_HEIGHT then UPGRADE_DISABLED
  else if nActivationHeight <=? nHeight then UPGRADE_ACTIVE
  else UPGRADE_PENDING.
Definition NetworkUpgradeState (nHeight : Z) (params : Params) (i : Z) : result UpgradeState :=
  _ ← assert_true (0 <=? nHeight);
  _ ← assert_true ((upgrade_index BASE_SPROUT <=? i) && (i <? MAX_NETWORK_UPGRADES));
  Ok (upgrade_state nHeight params i).
Definition NetworkUpgradeActive_at (nHeight : Z) (params : Params) (i : Z) : result bool :=
  st ← NetworkUpgradeState nHeight params i; Ok (bool_decide (st = UPGRADE_ACTIVE)).
Definition NetworkUpgradeActive (nHeight : Z) (params : Params) (idx : UpgradeIndex) : result bool :=
  NetworkUpgradeActive_at nHeight params (upgrade_index idx).

(** [for (idxInt = MAX_NETWORK_UPGRADES - 1; idxInt >= BASE_SPROUT; idxInt--)];
    [n] is the number of turns left. *)
Fixpoint epoch_loop (n : nat) (nHeight : Z) (params : Params) : result Z :=
  match n with
  | O => Ok (upgrade_index BASE_SPROUT)
  | S n' =>
      active ← NetworkUpgradeActive_at nHeight params (Z.of_nat n');
      if (active : bool) then Ok (Z.of_nat n') else epoch_loop n' nHeight params
  end.
Definition CurrentEpoch (nHeight : Z) (params : Params) : result Z :=
  epoch_loop (Z.to_nat MAX_NETWORK_UPGRADES) nHeight params.
Definition CurrentEpochBranchId (nHeight : Z) (params : Params) : result Z :=
  e ← CurrentEpoch nHeight params; Ok (branch_id e).

(** [for (idx = from; idx < MAX_NETWORK_UPGRADES; idx++) if (p(idx)) return idx]. *)
Fixpoint first_idx (fuel : nat) (from : Z) (p : Z -> bool) : option Z :=
  match fuel with
  | O => None
  | S fuel' => if from <? MAX_NETWORK_UPGRADES then
                 if p from then Some from else first_idx fuel' (from + 1) p
               else None
  end.
Definition first_upgrade (from : Z) (p : Z -> bool) : option Z := first_idx (Z.to_nat MAX_NETWORK_UPGRADES) from p.

Definition PrevEpochBranchId (currentBranchId : Z) (params : Params) : Z :=
  match first_upgrade (upgrade_index BASE_SPROUT + 1) (fun idx => currentBranchId =? branch_id idx) with
  | Some idx => branch_id (idx - 1)
  | None => branch_id (upgrade_index BASE_SPROUT)
  end.

(** The [int] argument is converted to [uint32_t] for the comparison. *)
Definition IsConsensusBranchId (branchId : Z) : bool :=
  bool_decide (is_Some (first_upgrade (upgrade_index BASE_SPROUT) (fun idx => u32 branchId =? branch_id idx))).

Definition IsActivationHeight (nHeight : Z) (params : Params) (i : Z) : result bool :=
  _ ← assert_true ((upgrade_index BASE_SPROUT <=? i) && (i <? MAX_NETWORK_UPGRADES));
  Ok (if i =? upgrade_index BASE_SPROUT then false else (0 <=? nHeight) && (nHeight =? activation_at params i)).

Definition IsActivationHeightForAnyUpgrade (nHeight : Z) (params : Params) : bool :=
  if nHeight <? 0 then false
  else bool_decide (is_Some (first_upgrade (upgrade_index BASE_SPROUT + 1)
                               (fun idx => nHeight =? activation_at params idx))).

Definition NextEpoch (nHeight : Z) (params : Params) : option Z :=
  if nHeight <? 0 then None
  else first_upgrade (upgrade_index BASE_SPROUT + 1)
         (fun idx => bool_decide (upgrade_state nHeight params idx = UPGRADE_PENDING)).

Definition NextActivationHeight (nHeight : Z) (params : Params) : option Z :=
  match NextEpoch nHeight params with
  | Some idx => Some (activation_at params idx)
  | None => None
  end.

(** ** chainparams.{h,cpp} *)

Record CChainParams := mkChainParams {
  consensus : Params;
  vFoundersRewardAddress : list string;
  vFoundersRewardAddress2 : list string;
  vTreasuryRewardAddress : list string;
  vDevelopersRewardAddress : list string;
  vBlacklistTx : list (COutPoint * COutPoint);
  vWhitelistTx : list (COutPoint * COutPoint);
  newTimeRule : Z;
  masternodeProtectionBlock : Z;
  masternodeCollateral : Z;
  masternodeCollateralNew : Z;
  mnLockBlocks : Z
}.

Inductive Network := MAIN | TESTNET | REGTEST.
#[global] Instance Network_eq_dec : EqDecision Network.
Proof. solve_decision. Defined.

(** [map[COutPoint(txid, n)] = COutPoint(txid, m)]. *)
Definition tx_entry (txid : uint256) (n m : Z) : COutPoint * COutPoint := (mkCOutPoint txid n, mkCOutPoint txid m).

(** The main network. *)
Definition main_vUpgrades : list NetworkUpgrade :=
  [mkUpgrade 170006 ALWAYS_ACTIVE;
   mkUpgrade 170006 NO_ACTIVATION_HEIGHT;
   mkUpgrade 170007 520000;
   mkUpgrade 170008 520000;
   mkUpgrade 170008 765000;
   mkUpgrade 170008 850000;
   mkUpgrade 170009 916000;
   mkUpgrade 170010 1545000;
   mkUpgrade 170010 1760000;
   mkUpgrade 170011 2167200;
   mkUpgrade 170012 2844000;
   mkUpgrade 170012 3125000;
   mkUpgrade 170012 3270500;
   mkUpgrade 170012 3730000].

Definition main_consensus : Params := {|
  fCoinbaseMustBeProtected := true;
  nSubsidySlowStartInterval := 8000;
  nSubsidyHalvingInterval := (60 * 24 * 365 * 4);
  nDelayHalvingBlocks := 655200;
  nMajorityEnforceBlockUpgrade := 750;
  nMajorityRejectBlockOutdated := 950;
  nMajorityWindow := 4000;
  vUpgrades := main_vUpgrades;
  powLimit := 0x0007ffffffffffffffffffffffffffffffffffffffffffffffffffffffffffff;
  powLimitTop := 0x0000000000000000000000000000000000000000000000000000000000000001;
  nPowAllowMinDifficultyBlocksAfterHeight := None;
  nPowAveragingWindow := 17;
  nPowMaxAdjustDown := 32;
  nPowMaxAdjustUp := 16;
  nPowTargetSpacing := (1 * 60);
  nTimeshiftPriv := (7 * 24 * 60);
  nProposalEstablishmentTime := (60 * 60 * 24);
  nMasternodePaymentsStartBlock := 193200;
  nMasternodePaymentsIncreasePeriod := 43200;
  eh_epoch_1 := eh200_9;
  eh_epoch_2 := eh144_5;
  eh_epoch_1_endtime := 1530187171;
  eh_epoch_2_starttime := 1530187141;
  nMinimumChainWork := 0x000000000000000000000000000000000000000000000000000000e45718e6cb;
  nZawyLWMA3AveragingWindow := 60
|}.

Definition main_vFoundersRewardAddress : list string :=
  ["s3d27MhkBRt3ha2UuxhjXaYF4DCnttTMnL1";
   "s3Wws6Mx3GHJkAe8QkNr4jhW28WU21Fp9gL";
   "s3QD18CKEA9Cw4kgnssnmk4rbf9Y3rU1uWG";
   "s3esoTmHdcXdDwCkoGSxC4YkfzBo1ySuher";
   "s3Q8NwoBv4aq9RRvqjT3LqN9TQnZrS2RdcV";
   "s3ix12RLstrzFEJKVsbLxCsPuUSjAqs3Bqp";
   "s3bCvm5zDv9KYFwHxaZjz2eKecEnbdFz98f";
   "s3UfvUuHahzTmYViL3KrGZeUPug69denBm3";
   "s3gmzNUmttwDJbUcpmW4gxVqHf3J58fDKpp";
   "s3YuWMW4Kpij7gW91WHLhjfi5Dwc7dKyPNn";
   "s3k2MaTdZyFBqyndrHdCDFnET5atCdC4iod";
   "s3YFHxL9euG89LMgPT5wGka4Ek8XVyw4FWG";
   "s3TKKkNnvBXphdv4ce84UKePdssWLHGBe1A";
   "s3PLrY7e7jzzAxnMY7A6GkjhkGc1CVkuEoi";
   "s3Ug8VAGcUijwD6QMhyFcCYXQEFABaA9VFy";
   "s3b4DAbbrTb4FPz3mHeyE89fUq6Liqg5vxX";
   "s3cM379BTJyCe5yJC4jkPn6qJwpZaHK2kXb";
   "s3TKWLar6bZEHppF4ZR1MbPuBfe33a1bHX9";
   "s3UpY6Q3T3v3F7MEpNDnV3rTucLEJkkHR4q";
   "s3eWx3DcwLiusTBfhWu6z7zM4TffaV1Ng9r"].

Definition main_vFoundersRewardAddress2 : list string :=
  ["s3an7UoVwfga6fXsTvE46MenWDu8auRrUqd";
   "s3Zu8sebtKEteGETPLm69yf38PMyHWAYeQv";
   "s3Qeesfn1tuWhxKZ35aSZq7oVWq2LtBjBoa";
   "s3drQ1rpYKvxcEvtDnG3fP8NDLVjnes5SHN";
   "s3Uio17ZNu7ZcFk3sHmerN4Tt3Pg7uYteTm";
   "s3RVLe2j459YjtuAaBakMoG6dUzCU6rtfZ8";
   "s3f16EZXRchBvZW1ESKUkTcLRWCERP7HBkc";
   "s3PqWHjG4aLgQWBmA2aWUhv6WrH6FDSN6KG";
   "s3V5NJFiPrqgXXuoWo5h4c8pbhwTupyJmMy";
   "s3bc2Af4Aktxz8p25YCX63Hk8pZGMKr2r63";
   "s3UuTKYhbbRK4NPKSNjnAxvJaTAgJBgM92S";
   "s3MyuAGqcjUHSF7yN8apLSEWPK19CdKT6nV";
   "s3XVKYBjQ9hv5NKxKrtyjFmGeFrwSsdwscz";
   "s3Vjj29KCYoBFKFy11QREGGfPePAe42JX3m";
   "s3YVbu8hBDVh3pJYUX76tejTg6Dgb9uXsR6";
   "s3cAonYtPtumWp1c5qAhUQtYLWxe94yw6w9";
   "s3RDMvMZFmVBDWQT6ooAVVd66SL6Hgs1B4G";
   "s3TB2uqZpSEK7C5M9dhJYfzKoXzqXRztSMq";
   "s3cZdRCGyxnzkzgkMPGXrS7YHRPNAmEb87p";
   "s3fKKBm4kk8LtNhziDYET4Bg5ZxYSHE6AkP"].

Definition main_vTreasuryRewardAddress : list string :=
  ["s3STyRjwtffPWcfQzawkHEcDVVeYCCZvKAw";
   "s3QiJcoCmWewixcVVAnt3LoxY3BSNNx8YhM";
   "s3b65JSBYsikDESqv1MqgWhn51adyMd2fzY";
   "s3fRjrKkH6yVj5rPTU2N8X7pMKnuyWS46Qb";
   "s3XYB7NcXsZWb6MX8jsCwefdAU8BnTQvg7x";
   "s3dcca3UyRyH56osUEWMRGTS7h9YwXj6Kqq";
   "s3c5hmNVHNn5Gb4JzqdUH7iDubSjUSfUD9i";
   "s3b3EPcrRvkcgcTVVqEhz8HtF3KrKGu5m3h";
   "s3chG3hQjiorgYRACd42S7p4zzWoGaYyVfN";
   "s3aVCqrd3qt6EASt9KpGnLtKRQkjAPbu5qC";
   "s3jPRn5CmFGVfKENbjbE3U4NwfXaBN4oH2C";
   "s3gUK3Vv9gF1hT4XoGfZju1DFmvoGvhEuVH";
   "s3b2SGjybAV8vhZeKuXz1vFURpP3CVxyrnq";
   "s3inM3mAzVwseCPJzMDgwmNyXDTRA9Pjn5h";
   "s3PiBVbSkPeV6VNXJf1HD2hbsyXRGXDN1q5";
   "s3aejhtm6xYdB5wEdSyJUsJ79CqqGmeC7Y6";
   "s3TTYpvWazeMSbvMHvmTfxsJakWz7cEhcET";
   "s3f4F2nsXzgJt1K2drpcGnDiVZedvfMY6H1";
   "s3ZGMfXNrYRLEy58bGGacyc7CzsXt6C8brn";
   "s3S7Z17UfNmRkxoNkRaLuyXpckMv9DEr4cz"].

Definition main_vDevelopersRewardAddress : list string :=
  ["s3SgKCHDpuxB7AKCYGZUrxfoRPU1B9hUAfb";
   "s3iXM761vHWYV6y3BJ1oqsq95ayFqp6kc2C";
   "s3bgknZtCJXS292DHWWEYzEm5ovU2md3AFB";
   "s3NQUfs8DupgdW8nXxWUWWrecWJ3jj9hsJK";
   "s3ZWJjTMuLvsB6EhXKbDhB4FJnb3psdMHYH";
   "s3Tqq7LH4PPJDZqdcZyEVjQLTbx8CJrD8v4";
   "s3eKe21Qff1im8zfncdGtCC2wrnaXS9zukG";
   "s3inaQace2ASNKwP3ziJf2GkifDt5cvV3ne";
   "s3QfbhHb5Q2eaZGuSf14iHp1UVgJdVZjFhT";
   "s3T8MHWtFAkJyRfNvodvgGvj68hWqnuzCKh";
   "s3NJ8krcBiANTXALNQq6cXzq1xAUEyfyAUU";
   "s3jtvD64EUYrwagWnwBWX7nJ4teb7wKxyiw";
   "s3QfEvmX1j5Mjq6fcHYHtomXP53QfkdXTbe";
   "s3jiQ8xbZx99ZwtbMh8a98d2hLEXLfEQ36V";
   "s3UmhWKGCHYUxyuer7mvkK4N4Y6X5E8Bqu6";
   "s3jp8bUttie4DLeHqmDX1Y9dAYRnusah4rD";
   "s3QBYwZ5WuFEbNCXKwumEvn9TDcUmzWPaTo";
   "s3QVgjSx57ReEPy2MsttWsTESBuFG4Z86it";
   "s3eYv5LxBqtRTc7PmJ29hw1fetRnVDhTVVo";
   "s3NhM4j8n9Z4pDd7MFmihXoszyA7AP1tdYS"].

Definition main_vBlacklistTx : list (COutPoint * COutPoint) :=
  [tx_entry 0x39193c2bdecd18cdcdb350b1c243be7bbcfeb9985595e57facfdcc29c5daae4f 0 0;
   tx_entry 0x55cb70d60d0848a05c564dce96f9a952e5ed3cd26cd918936504aa30d7ed4ec0 0 0;
   tx_entry 0x8334da808fe6dcfd023165317731c8d998c33107058c48df163ec4658260bea4 0 0;
   tx_entry 0xf70aa056a7fc472a96605f21aa890a428ee2327a32ea0a49abab5d67575c27ca 0 0;
   tx_entry 0x559e52339471724e2bcebe9c827bce116e07f4ae3bebe675ad2758e30cb09b15 1 1;
   tx_entry 0xbaa520a33d49977cae9bb35762f0238ad213ca4893ea218b55eff144b0eb3ab8 1 1;
   tx_entry 0xbaa520a33d49977cae9bb35762f0238ad213ca4893ea218b55eff144b0eb3ab8 2 2;
   tx_entry 0x347915d48d4e30ad85605ad6a1cf9c36d5e1e8979e6ae0535c586ac704b69b32 0 0;
   tx_entry 0xb6939ecf1c6510f1bcb188e1a958339a5a24b4892bd25ea058efd00f3cd13953 4 4;
   tx_entry 0xe3f45d2087a9e1f1cbc0f23cdf22e2b84501f5052130a2e189e35ba94f08c878 0 0;
   tx_entry 0x83e71a9709c27f01b7ec6a7e005a795df5fe37f9bee1bbc46c59f72e59e37538 1 1;
   tx_entry 0xed17e27dd0daf261d02e77b6d1020291912c7de4dfa093c551e9f49fd8e49ae0 5 5;
   tx_entry 0xb6939ecf1c6510f1bcb188e1a958339a5a24b4892bd25ea058efd00f3cd13953 0 0;
   tx_entry 0x559e52339471724e2bcebe9c827bce116e07f4ae3bebe675ad2758e30cb09b15 0 0;
   tx_entry 0xa394330bff24f802251bdd68f4cd47b1f05a494c7037d9f0fb8cde535117ba63 0 0;
   tx_entry 0x041931e512daf53ca0852e01baa4a3aae6d72783422adb921fb53e3ec19b395d 1 1;
   tx_entry 0xa969a4a6caab6f45109dba60884ef0e964b1d2598f134995257e0fac7ab0c219 0 0;
   tx_entry 0xddaa81c8c2a8e271d8a46c94e9d4e7c30ec5a9c5d403ca2386234c5907e12b1e 0 0;
   tx_entry 0xde7de8c00467db02a377fbd6f40c4a8f49f9d567ec5f41da7463e63fde8238ba 0 0;
   tx_entry 0x5cd8d343f8ca8d813440143d96a4166d094fb038879f6febfb51d85d9109e33e 0 0;
   tx_entry 0x761f83b1d94828709b4d64a177fb9e501504f7f7f0e7495a85be1abd40424c05 0 0;
   tx_entry 0x6ec563df38c09cc44418a696858ff237ca637fd7e8175a8c484ff0d180091b49 0 0;
   tx_entry 0x5e6952a168d5e535ef14fdc9b0eeed9cec4c151f0f2c7fc893e73b0b35cd2610 0 0;
   tx_entry 0x61a2ce385139a69ab0b96f0e292df74b6fa8e89d67dd01dde0bcadcfca4ca969 0 0;
   tx_entry 0xb95593e09bfb0c96bd17f661557f8ab3095691c3d60f2de747b62f83401a9508 0 0;
   tx_entry 0x2feb77b6cc8252e919b5f727268c3f17afa4466b6a2b9bdc5f573c5c77cb2a0c 0 0;
   tx_entry 0x7301141dd2efb0bbe90f11c8b9dd2eb721c6e2f4f72667a3e1e76ae6c9a4db33 0 0;
   tx_entry 0xc414a1c773b34a13933d0d229b1329210483eb10e75a90a4036bdbcf3e46f5e9 0 0;
   tx_entry 0x9b3ce0046d4eccc9499f25f05fc9b96565405c1ddb3c4040665e70d29e039bed 0 0;
   tx_entry 0x25a3bc447d3401ee4326c9fa58745dee31d06af51ac520ca6df912f9c434c75a 0 0;
   tx_entry 0x4f141c3b0b58ca9d0095d7f985ea7139a833bc39a39b5784f9d0316b0d25c5f5 0 0;
   tx_entry 0x4f08225de887034fff156ffadd34d867fa06d6e9a194f444d5c55a96635702ed 0 0;
   tx_entry 0x99d4067517fdeb1a57122cd9fc42fcb67b59f1dbe3d59fe2269b7cd976344365 0 0;
   tx_entry 0xc43fa84a6f0cbca1c522f22e525d628fb059040bc567d294e8c80ae25641d2ae 0 0;
   tx_entry 0x8c42fb889aee0a521b9cd6f1a36e2a9943f6868efb3f4de6036711c8dc3aecfb 0 0;
   tx_entry 0x732bfb5976d3ed46af8cb070f685fcd0eb56f1c192562ae5c4b0fec77ecdbaa8 0 0;
   tx_entry 0x4f3d6de180c6cec2b25b5278891f252a3d109a8dd33d728170f8cc22bb5540ab 0 0;
   tx_entry 0x9145155cea99f602fe3d1b2628e1bfe202a6b94d694e4f90d218730343c3479e 0 0;
   tx_entry 0xbf13ce8c4bf8164806c315c0c732b67ba06e3a1217ec1458f4ff9cd55d1318e6 0 0;
   tx_entry 0xf06c3c1fa50f1905f93931f9f65074ed997e8c12e9e171c1e9d477223c474feb 0 0;
   tx_entry 0x35d2919fc71dfeec36229d399bb159a28b60eff61718ba6dfc4d428199d37efc 0 0;
   tx_entry 0x6b7bbfddd7730727ed26300671bb9878e44f5a536e0cda2fb6f81227d5faf00b 0 0;
   tx_entry 0x9de0cc74bf33b124ee89fabf974997c10bc1f0e56484b04fc32c57bad80536eb 0 0;
   tx_entry 0x7a83274d66adec207b9620417537e99f3b3666b4a39633fef4dabe0af454be28 0 0;
   tx_entry 0x304d3904c3a0ca1aeaa529d71ba2803937b6ad6e53fce67a13e52f427e417100 0 0;
   tx_entry 0x90d034108e029cde33c409a23fce54708c12949c42731a9b98fbc538f4d42ec7 0 0;
   tx_entry 0x98ecfe8a50bf874cdc105dcad35b8bf6927f3a480a34edf8fb495061054878a8 0 0;
   tx_entry 0x026d36af1b344ba40fcda42fe34da23124a865baa652bb4174d12d2cfcdf9ae0 0 0;
   tx_entry 0x3b85a18e237d7f29a8c0d35e054ec54b58224786a5b6b1e7d9e02d880cf83a6f 0 0;
   tx_entry 0x54b955aeb0c74fad70b9ba24f3482d44defd5fa249de82a0f46dbaf8af167413 0 0;
   tx_entry 0xdabac2423d59d073877e0a7afe53fdcf77a21cc320d23634671a1810058c779b 0 0;
   tx_entry 0x4bb0b04f57216ac1468816a7f126bf943b805488726647860b5ebc4e1b0a2004 0 0;
   tx_entry 0x80d062910e91def18fd55d1c32ed048de645bcdad6c5afff9cf828d8fd7083d3 0 0;
   tx_entry 0x1b43010cef82df7bb52796b30516763f731dfe51ee68b0b9cf107ce70698bd21 0 0;
   tx_entry 0x09adf773e47a2d75df7bd7a4b5f84f7f796b5ee77dd11930796f358c19614f57 0 0;
   tx_entry 0x0dcf64c5da21f85ab1f0b7cad3cce2b0f4036cff486c2a40af21473c4056f73b 0 0;
   tx_entry 0x4a2a5561cabc1aaf7fbec3815662bb8963200161577884088e8dc917099a2365 0 0;
   tx_entry 0xcc5e9ecfba4b282cf0694f4c4a74f804704e07b1e1348d4c65b6bd6c8ec69c82 0 0;
   tx_entry 0x72f7700a86ca3773447dec8c4b6f146c0ce095a4fd4f9c21795fb00df53167d1 0 0;
   tx_entry 0x511c55b3e2ab97e3bb8c37d583ce8abd60dbad065597162fa10fa51df46d183e 0 0;
   tx_entry 0x57b08d06749f2cc70ab94573328e435be2f3fedc5b79ec54528cdb20c4e03ed4 0 0;
   tx_entry 0x6946af5b6dba8b2076ef673f231c3fb47da4c143ec8079bc85d4b513ba7c34ca 0 0;
   tx_entry 0xcc7f7887e7ffe616e3169fae80fb7ef45bb38ef43291f62fef85d51c1e0a7efb 0 0;
   tx_entry 0x3bd708b9ae9bce0fad91ef908acf14d828c7a05e88828b5a94ee7725c6838e8b 0 0;
   tx_entry 0x1ca05f8641d56f934bcb9a8dd9e22b3517d982f8213c9ce9d05be86fad3bba33 0 0;
   tx_entry 0x7e367819b149666ef29462202503c9ab858c556434909ed572c36893204bc888 0 0;
   tx_entry 0x4aadd106938e774832d0cbca86e4d5f4e9d67030fb894a427ea001d068e7b669 0 1].

Definition main_vWhitelistTx : list (COutPoint * COutPoint) :=
  [tx_entry 0x041931e512daf53ca0852e01baa4a3aae6d72783422adb921fb53e3ec19b395d 1 1].

Definition main_params : CChainParams := {|
  consensus := main_consensus;
  vFoundersRewardAddress := main_vFoundersRewardAddress;
  vFoundersRewardAddress2 := main_vFoundersRewardAddress2;
  vTreasuryRewardAddress := main_vTreasuryRewardAddress;
  vDevelopersRewardAddress := main_vDevelopersRewardAddress;
  vBlacklistTx := main_vBlacklistTx;
  vWhitelistTx := main_vWhitelistTx;
  newTimeRule := 246600;
  masternodeProtectionBlock := 590000;
  masternodeCollateral := 10000;
  masternodeCollateralNew := 20000;
  mnLockBlocks := 14 * 1440
|}.

(** The test network. *)
Definition testnet_vUpgrades : list NetworkUpgrade :=
  [mkUpgrade 170006 ALWAYS_ACTIVE;
   mkUpgrade 170006 NO_ACTIVATION_HEIGHT;
   mkUpgrade 170007 8100;
   mkUpgrade 170008 8100;
   mkUpgrade 170008 8300;
   mkUpgrade 170008 8500;
   mkUpgrade 170009 12600;
   mkUpgrade 170010 22500;
   mkUpgrade 170010 28610;
   mkUpgrade 170010 77780;
   mkUpgrade 170012 81220;
   mkUpgrade 170012 81400;
   mkUpgrade 170012 81600;
   mkUpgrade 170012 85600].

Definition testnet_consensus : Params := {|
  fCoinbaseMustBeProtected := true;
  nSubsidySlowStartInterval := 8000;
  nSubsidyHalvingInterval := (60 * 24 * 365 * 4);
  nDelayHalvingBlocks := 0;
  nMajorityEnforceBlockUpgrade := 51;
  nMajorityRejectBlockOutdated := 75;
  nMajorityWindow := 400;
  vUpgrades := testnet_vUpgrades;
  powLimit := 0x07ffffffffffffffffffffffffffffffffffffffffffffffffffffffffffffff;
  powLimitTop := 0x0000000000000000000000000000000000000000000000000000000000000001;
  nPowAllowMinDifficultyBlocksAfterHeight := (Some 13000);
  nPowAveragingWindow := 17;
  nPowMaxAdjustDown := 32;
  nPowMaxAdjustUp := 16;
  nPowTargetSpacing := (1 * 60);
  nTimeshiftPriv := (1 * 60);
  nProposalEstablishmentTime := (60 * 5);
  nMasternodePaymentsStartBlock := 1500;
  nMasternodePaymentsIncreasePeriod := 200;
  eh_epoch_1 := eh200_9;
  eh_epoch_2 := eh144_5;
  eh_epoch_1_endtime := 1529432082;
  eh_epoch_2_starttime := 1529402266;
  nMinimumChainWork := 0x000000000000000000000000000000000000000000000000000000000000000d;
  nZawyLWMA3AveragingWindow := 60
|}.

Definition testnet_vFoundersRewardAddress : list string :=
  ["t2UNzUUx8mWBCRYPRezvA363EYXyEpHokyi";
   "t27puhwCQgYRenkoNSFrhfeAPyfk1LpZbu9"].

Definition testnet_vFoundersRewardAddress2 : list string :=
  ["t2DuepruJtHNZpjsaPneoRsGTBLDG5hhUmj";
   "t27uXCcSZd1qSWhFArDbwVBHuuiGscY4DDM"].

Definition testnet_vTreasuryRewardAddress : list string :=
  ["t2Vck95daFLBrvcgfxCT43uBsicECsn6wqe"].

Definition testnet_vDevelopersRewardAddress : list string :=
  ["t2UNzUUx8mWBCRYPRezvA363EYXyEpHokyi"].

Definition testnet_vBlacklistTx : list (COutPoint * COutPoint) :=
  [tx_entry 0x66f0309234e17ec8cd679b595016ed9cd09877db4c4e5350f4ad75a50bc617ce 0 0].

Definition testnet_vWhitelistTx : list (COutPoint * COutPoint) := [].

Definition testnet_params : CChainParams := {|
  consensus := testnet_consensus;
  vFoundersRewardAddress := testnet_vFoundersRewardAddress;
  vFoundersRewardAddress2 := testnet_vFoundersRewardAddress2;
  vTreasuryRewardAddress := testnet_vTreasuryRewardAddress;
  vDevelopersRewardAddress := testnet_vDevelopersRewardAddress;
  vBlacklistTx := testnet_vBlacklistTx;
  vWhitelistTx := testnet_vWhitelistTx;
  newTimeRule := 0;
  masternodeProtectionBlock := 7900;
  masternodeCollateral := 10;
  masternodeCollateralNew := 20;
  mnLockBlocks := 10
|}.

(** The regression test network.  Its parameters have static storage: the
    heights the constructor does not set are 0. *)
Definition regtest_vUpgrades : list NetworkUpgrade :=
  [mkUpgrade 170002 ALWAYS_ACTIVE;
   mkUpgrade 170002 NO_ACTIVATION_HEIGHT;
   mkUpgrade 170006 NO_ACTIVATION_HEIGHT;
   mkUpgrade 170007 NO_ACTIVATION_HEIGHT;
   mkUpgrade 0 0;
   mkUpgrade 0 0;
   mkUpgrade 0 0;
   mkUpgrade 0 0;
   mkUpgrade 0 0;
   mkUpgrade 0 0;
   mkUpgrade 0 0;
   mkUpgrade 0 0;
   mkUpgrade 0 0;
   mkUpgrade 0 0].

Definition regtest_consensus : Params := {|
  fCoinbaseMustBeProtected := false;
  nSubsidySlowStartInterval := 0;
  nSubsidyHalvingInterval := 150;
  nDelayHalvingBlocks := 0;
  nMajorityEnforceBlockUpgrade := 750;
  nMajorityRejectBlockOutdated := 950;
  nMajorityWindow := 1000;
  vUpgrades := regtest_vUpgrades;
  powLimit := 0x0f0f0f0f0f0f0f0f0f0f0f0f0f0f0f0f0f0f0f0f0f0f0f0f0f0f0f0f0f0f0f0f;
  powLimitTop := 0;
  nPowAllowMinDifficultyBlocksAfterHeight := (Some 0);
  nPowAveragingWindow := 17;
  nPowMaxAdjustDown := 0;
  nPowMaxAdjustUp := 0;
  nPowTargetSpacing := (1 * 60);
  nTimeshiftPriv := (1 * 60);
  nProposalEstablishmentTime := (60 * 5);
  nMasternodePaymentsStartBlock := 0;
  nMasternodePaymentsIncreasePeriod := 0;
  eh_epoch_1 := eh48_5;
  eh_epoch_2 := eh48_5;
  eh_epoch_1_endtime := 1;
  eh_epoch_2_starttime := 1;
  nMinimumChainWork := 0x00;
  nZawyLWMA3AveragingWindow := 0
|}.

Definition regtest_vFoundersRewardAddress : list string :=
  ["t2f9nkUG1Xe2TrQ4StHKcxUgLGuYszo8iS4"].

Definition regtest_vFoundersRewardAddress2 : list string :=
  ["t2f9nkUG1Xe2TrQ4StHKcxUgLGuYszo8iS4"].

Definition regtest_vTreasuryRewardAddress : list string :=
  ["t2f9nkUG1Xe2TrQ4StHKcxUgLGuYszo8iS4"].

Definition regtest_vDevelopersRewardAddress : list string :=
  ["t2f9nkUG1Xe2TrQ4StHKcxUgLGuYszo8iS4"].

Definition regtest_vBlacklistTx : list (COutPoint * COutPoint) := [].

Definition regtest_vWhitelistTx : list (COutPoint * COutPoint) := [].

Definition regtest_params : CChainParams := {|
  consensus := regtest_consensus;
  vFoundersRewardAddress := regtest_vFoundersRewardAddress;
  vFoundersRewardAddress2 := regtest_vFoundersRewardAddress2;
  vTreasuryRewardAddress := regtest_vTreasuryRewardAddress;
  vDevelopersRewardAddress := regtest_vDevelopersRewardAddress;
  vBlacklistTx := regtest_vBlacklistTx;
  vWhitelistTx := regtest_vWhitelistTx;
  newTimeRule := 0;
  masternodeProtectionBlock := 0;
  masternodeCollateral := 0;
  masternodeCollateralNew := 0;
  mnLockBlocks := 120
|}.

Definition Params_of (network : Network) : CChainParams :=
  match network with MAIN => main_params | TESTNET => testnet_params | REGTEST => regtest_params end.

Definition MAX_BLOCK_SIZE (params : Params) (height : Z) : Z :=
  if activation params UPGRADE_DIFA <=? height then MAX_BLOCK_SIZE_AFTER_UPGRADE
  else MAX_BLOCK_SIZE_BEFORE_UPGRADE.

(** [vector[i]] of one of the address lists. *)
Definition addr_at (v : list string) (i : Z) : result string :=
  if i <? 0 then Abort else index_or_abort v (Z.to_nat i).

(** The index of the address to be paid: [size_t] arithmetic, so a negative
    height is first converted to 64 bits. *)
Definition reward_index (consensus : Params) (v : list string) (nHeight : Z) : Z :=
  let maxHeight := GetFoundersRewardRepeatInterval consensus in
  let size := Z.of_nat (length v) in
  let addressChangeInterval := u64 (maxHeight + size) / size in
  (u64 nHeight / addressChangeInterval) mod size.

Definition GetFoundersRewardAddressAtHeight (p : CChainParams) (nHeight : Z) : result string :=
  let i := reward_index (consensus p) (vFoundersRewardAddress p) nHeight in
  active ← NetworkUpgradeActive nHeight (consensus p) UPGRADE_ATLANTIS;
  if negb active then addr_at (vFoundersRewardAddress p) i
  else if Z.rem nHeight 2 =? 0 then addr_at (vFoundersRewardAddress p) i
  else addr_at (vFoundersRewardAddress2 p) i.
Definition GetFoundersRewardAddressAtIndex (p : CChainParams) (i : Z) : result string :=
  _ ← assert_true ((0 <=? i) && (i <? Z.of_nat (length (vFoundersRewardAddress p))));
  addr_at (vFoundersRewardAddress p) i.
Definition GetTreasuryRewardAddressAtHeight (p : CChainParams) (nHeight : Z) : result string :=
  addr_at (vTreasuryRewardAddress p) (reward_index (consensus p) (vTreasuryRewardAddress p) nHeight).
Definition GetTreasuryRewardAddressAtIndex (p : CChainParams) (i : Z) : result string :=
  _ ← assert_true ((0 <=? i) && (i <? Z.of_nat (length (vTreasuryRewardAddress p))));
  addr_at (vTreasuryRewardAddress p) i.
Definition GetDevelopersRewardAddressAtHeight (p : CChainParams) (nHeight : Z) : result string :=
  addr_at (vDevelopersRewardAddress p) (reward_index (consensus p) (vDevelopersRewardAddress p) nHeight).
Definition GetDevelopersRewardAddressAtIndex (p : CChainParams) (i : Z) : result string :=
  _ ← assert_true ((0 <=? i) && (i <? Z.of_nat (length (vDevelopersRewardAddress p))));
  addr_at (vDevelopersRewardAddress p) i.

Definition GetBlacklistTxSize (p : CChainParams) : Z := Z.of_nat (length (vBlacklistTx p)).
Definition tx_listed (l : list (COutPoint * COutPoint)) (o : COutPoint) : bool := bool_decide (o ∈ l.*1).
Definition IsBlocked (p : CChainParams) (height : Z) (outpoint : COutPoint) : result bool :=
  active ← NetworkUpgradeActive height (consensus p) UPGRADE_LATVERION;
  Ok (if active && tx_listed (vWhitelistTx p) outpoint then false else tx_listed (vBlacklistTx p) outpoint).

Definition GetCoinbaseProtected (p : CChainParams) (height : Z) : result bool :=
  active ← NetworkUpgradeActive height (consensus p) UPGRADE_ATLANTIS; Ok (negb active).
Definition GetmnLockBlocks (p : CChainParams) (height : Z) : result Z :=
  active ← NetworkUpgradeActive height (consensus p) UPGRADE_LATVERION;
  Ok (if negb active then mnLockBlocks p else Z.quot (mnLockBlocks p) 2).
Definition GetMasternodeCollateral (p : CChainParams) (height : Z) : result Z :=
  active ← NetworkUpgradeActive height (consensus p) UPGRADE_MORAG;
  Ok (if negb active then masternodeCollateral p else masternodeCollateralNew p).
Definition DEFAULT_REORG_MN_CHECK : Z := 100.
Definition MASTERNODE_REORG_CHECK : Z := 20.
Definition GetReorgNumber (isProtected : bool) : Z :=
  if isProtected then MASTERNODE_REORG_CHECK else DEFAULT_REORG_MN_CHECK.

(** The regression test network's parameters can be changed from the command
    line. *)
Definition UpdateNetworkUpgradeParameters (params : Params) (i nHeight : Z) : result Params :=
  _ ← assert_true ((upgrade_index BASE_SPROUT <? i) && (i <? MAX_NETWORK_UPGRADES));
  Ok (mkParams (fCoinbaseMustBeProtected params) (nSubsidySlowStartInterval params) (nSubsidyHalvingInterval params)
        (nDelayHalvingBlocks params) (nMajorityEnforceBlockUpgrade params) (nMajorityRejectBlockOutdated params)
        (nMajorityWindow params)
        (alter (fun u => mkUpgrade (nProtocolVersion u) nHeight) (Z.to_nat i) (vUpgrades params))
        (powLimit params) (powLimitTop params) (nPowAllowMinDifficultyBlocksAfterHeight params)
        (nPowAveragingWindow params) (nPowMaxAdjustDown params) (nPowMaxAdjustUp params) (nPowTargetSpacing params)
        (nTimeshiftPriv params) (nProposalEstablishmentTime params) (nMasternodePaymentsStartBlock params)
        (nMasternodePaymentsIncreasePeriod params) (eh_epoch_1 params) (eh_epoch_2 params) (eh_epoch_1_endtime params)
        (eh_epoch_2_starttime params) (nMinimumChainWork params) (nZawyLWMA3AveragingWindow params)).

(** ** Properties of the upgrade schedule *)

(** Whether upgrade [i] is active: what [NetworkUpgradeActive] returns at a
    known height. *)
Definition active_b (nHeight : Z) (params : Params) (i : Z) : bool :=
  bool_decide (upgrade_state nHeight params i = UPGRADE_ACTIVE).

Lemma NetworkUpgradeActive_at_ok h params i : 0 <= h -> 0 <= i < MAX_NETWORK_UPGRADES ->
  NetworkUpgradeActive_at h params i = Ok (active_b h params i).
Proof.
  intros Hh Hi. unfold NetworkUpgradeActive_at, NetworkUpgradeState.
  rewrite (proj2 (Z.leb_le 0 h)) by done. cbn [upgrade_index].
  rewrite (proj2 (Z.leb_le 0 i)), (proj2 (Z.ltb_lt i _)) by lia. done.
Qed.

Lemma NetworkUpgradeActive_ok h params idx : 0 <= h ->
  NetworkUpgradeActive h params idx = Ok (active_b h params (upgrade_index idx)).
Proof. intros Hh. apply NetworkUpgradeActive_at_ok; [done|]. unfold MAX_NETWORK_UPGRADES. destruct idx; cbn; lia. Qed.

Lemma active_b_spec h params i :
  active_b h params i = true <-> activation_at params i <> NO_ACTIVATION_HEIGHT /\ activation_at params i <= h.
Proof.
  unfold active_b, upgrade_state. rewrite bool_decide_eq_true.
  destruct (Z.eqb_spec (activation_at params i) NO_ACTIVATION_HEIGHT); [naive_solver|].
  destruct (Z.leb_spec (activation_at params i) h); split; intros; try done; lia.
Qed.

Lemma active_b_mono h h' params i : h <= h' -> active_b h params i = true -> active_b h' params i = true.
Proof. rewrite !active_b_spec. intros Hh [Hn Hle]. split; [done|lia]. Qed.

(** What the loop of [CurrentEpoch] finds: the highest active index below [n]. *)
Lemma epoch_loop_spec n h params : 0 <= h -> (Z.of_nat n <= MAX_NETWORK_UPGRADES) ->
  active_b h params 0 = true -> (0 < n)%nat ->
  exists e, epoch_loop n h params = Ok e /\ 0 <= e < Z.of_nat n /\ active_b h params e = true
    /\ forall i, e < i < Z.of_nat n -> active_b h params i = false.
Proof.
  intros Hh. induction n as [|n IH]; intros Hn H0 Hpos; [lia|]. cbn [epoch_loop].
  rewrite NetworkUpgradeActive_at_ok by lia. mstep. destruct (active_b h params (Z.of_nat n)) eqn:E.
  - exists (Z.of_nat n). split; [done|]. split; [lia|]. split; [done|]. intros; lia.
  - destruct n as [|n]; [change (Z.of_nat 0) with 0 in E; congruence|]. destruct IH as (e & E1 & He & Ha & Hi); [lia|done|lia|].
    exists e. split; [done|]. split; [lia|]. split; [done|]. intros i Hei.
    destruct (Z.eq_dec i (Z.of_nat (S n))) as [->|]; [done|]. apply Hi. lia.
Qed.

Lemma CurrentEpoch_last params h : 0 <= h -> active_b h params 0 = true ->
  exists e, CurrentEpoch h params = Ok e /\ 0 <= e < MAX_NETWORK_UPGRADES /\ active_b h params e = true
    /\ forall i, e < i < MAX_NETWORK_UPGRADES -> active_b h params i = false.
Proof. intros Hh H0. exact (epoch_loop_spec 14 h params Hh ltac:(done) H0 ltac:(lia)). Qed.

(** On a network whose Sprout rules are always active, [CurrentEpoch] returns
    the last active upgrade at every height, and the epoch never goes back as
    the height grows. *)
Theorem CurrentEpoch_correct (params : Params) (h h' : Z) (Hh : 0 <= h <= h')
  (Hs : activation params BASE_SPROUT = ALWAYS_ACTIVE) :
  exists e e', CurrentEpoch h params = Ok e /\ CurrentEpoch h' params = Ok e' /\ e <= e'
    /\ upgrade_state h params e = UPGRADE_ACTIVE
    /\ (forall i, e < i < MAX_NETWORK_UPGRADES -> upgrade_state h params i <> UPGRADE_ACTIVE).
Proof.
  assert (H0 : forall k, 0 <= k -> active_b k params 0 = true).
  { intros k Hk. apply active_b_spec. unfold activation in Hs. cbn [upgrade_index] in Hs. rewrite Hs. unfold ALWAYS_ACTIVE, NO_ACTIVATION_HEIGHT. lia. }
  destruct (CurrentEpoch_last params h) as (e & E & He & Ha & Hi); [lia|apply H0; lia|].
  destruct (CurrentEpoch_last params h') as (e' & E' & He' & Ha' & Hi'); [lia|apply H0; lia|].
  exists e, e'. split; [done|]. split; [done|]. split.
  { destruct (Z.le_gt_cases e e') as [|Hgt]; [done|].
    apply (active_b_mono h h') in Ha; [|lia]. rewrite Hi' in Ha by lia. done. }
  split; [by apply bool_decide_eq_true in Ha|]. intros i Hie. specialize (Hi i Hie).
  by apply bool_decide_eq_false in Hi.
Qed.

(** The enabled upgrades activate in the order of their indices. *)
Definition upgrades_ordered (params : Params) : Prop :=
  forall i j, 0 < i < j -> j < MAX_NETWORK_UPGRADES ->
    activation_at params i <> NO_ACTIVATION_HEIGHT -> activation_at params j <> NO_ACTIVATION_HEIGHT ->
    activation_at params i <= activation_at params j.

Lemma first_idx_Some fuel : forall from p i, first_idx fuel from p = Some i ->
  from <= i < MAX_NETWORK_UPGRADES /\ p i = true /\ forall j, from <= j < i -> p j = false.
Proof.
  induction fuel as [|fuel IH]; intros from p i; [done|]. cbn [first_idx].
  destruct (Z.ltb_spec from MAX_NETWORK_UPGRADES) as [Hf|]; [|done]. destruct (p from) eqn:Ep.
  - intros [= <-]. split; [lia|]. split; [done|]. intros; lia.
  - intros E. apply IH in E as (Hi & Hp & Hj). split; [lia|]. split; [done|]. intros j Hj'.
    destruct (Z.eq_dec j from) as [->|]; [done|]. apply Hj. lia.
Qed.

Lemma first_idx_None fuel : forall from p, first_idx fuel from p = None ->
  MAX_NETWORK_UPGRADES <= from + Z.of_nat fuel -> forall j, from <= j < MAX_NETWORK_UPGRADES -> p j = false.
Proof.
  induction fuel as [|fuel IH]; intros from p; [intros _ ? ?; lia|]. cbn [first_idx].
  destruct (Z.ltb_spec from MAX_NETWORK_UPGRADES) as [Hf|]; [|intros _ _ ? ?; lia].
  destruct (p from) eqn:Ep; [done|]. intros E Hle j Hj.
  destruct (Z.eq_dec j from) as [->|]; [done|]. apply (IH (from + 1)); [done|lia|lia].
Qed.

Lemma epoch_loop_ext n h h' params : 0 <= h -> 0 <= h' -> Z.of_nat n <= MAX_NETWORK_UPGRADES ->
  (forall i, 0 <= i < MAX_NETWORK_UPGRADES -> active_b h params i = active_b h' params i) ->
  epoch_loop n h params = epoch_loop n h' params.
Proof.
  intros Hh Hh' Hn He. induction n as [|n IH]; [done|]. cbn [epoch_loop].
  rewrite !NetworkUpgradeActive_at_ok by lia. mstep. rewrite He by lia. by rewrite IH by lia.
Qed.

(** An upgrade is pending when its height is still to come. *)
Lemma pending_spec h params i :
  upgrade_state h params i = UPGRADE_PENDING <-> activation_at params i <> NO_ACTIVATION_HEIGHT /\ h < activation_at params i.
Proof.
  unfold upgrade_state. destruct (Z.eqb_spec (activation_at params i) NO_ACTIVATION_HEIGHT); [naive_solver|].
  destruct (Z.leb_spec (activation_at params i) h); split; intros; try done; lia.
Qed.

(** Between two heights with no activation among the known upgrades the same
    upgrades are active. *)
Lemma active_b_between h k params i : h <= k ->
  (upgrade_state h params i = UPGRADE_PENDING -> k < activation_at params i) ->
  active_b h params i = active_b k params i.
Proof.
  intros Hk Hp. rewrite pending_spec in Hp.
  pose proof (active_b_spec h params i) as A. pose proof (active_b_spec k params i) as B.
  destruct (active_b h params i), (active_b k params i); try done; naive_solver lia.
Qed.

(** [NextActivationHeight] announces the next change of epoch: strictly later
    than the current height, an activation height, and the epoch, hence the
    branch id, does not change before it, or ever if there is none. *)
Theorem NextActivationHeight_correct (params : Params) (h : Z) (Hh : 0 <= h)
  (Hs : activation params BASE_SPROUT = ALWAYS_ACTIVE) (Ho : upgrades_ordered params) :
  match NextActivationHeight h params with
  | Some a => h < a /\ IsActivationHeightForAnyUpgrade a params = true
              /\ forall k, h <= k < a -> CurrentEpochBranchId k params = CurrentEpochBranchId h params
  | None => forall k, h <= k -> CurrentEpochBranchId k params = CurrentEpochBranchId h params
  end.
Proof.
  assert (Hext : forall k, h <= k ->
    (forall i, 0 < i < MAX_NETWORK_UPGRADES -> upgrade_state h params i = UPGRADE_PENDING -> k < activation_at params i) ->
    CurrentEpochBranchId k params = CurrentEpochBranchId h params).
  { intros k Hk Hp. unfold CurrentEpochBranchId, CurrentEpoch. rewrite (epoch_loop_ext _ k h); try done; try lia.
    intros i Hi. symmetry. apply active_b_between; [done|]. destruct (Z.eq_dec i 0) as [->|]; [|apply Hp; lia].
    rewrite pending_spec. unfold activation in Hs. cbn in Hs. rewrite Hs. unfold ALWAYS_ACTIVE. lia. }
  unfold NextActivationHeight, NextEpoch. rewrite (proj2 (Z.ltb_ge _ _)) by done.
  unfold first_upgrade. destruct (first_idx _ _ _) as [idx|] eqn:E.
  - apply first_idx_Some in E as (Hi & Hp & Hj). apply bool_decide_eq_true, pending_spec in Hp as [Hn Hlt].
    cbn [upgrade_index] in Hi, Hj. split; [done|]. split.
    + unfold IsActivationHeightForAnyUpgrade. rewrite (proj2 (Z.ltb_ge _ _)) by lia.
      apply bool_decide_eq_true. unfold first_upgrade. destruct (first_idx _ _ _) eqn:E'; [done|].
      pose proof (first_idx_None _ _ _ E' ltac:(done) idx Hi) as E2. cbn in E2. by rewrite Z.eqb_refl in E2.
    + intros k Hk. apply Hext; [lia|]. intros i Hi' Hpi.
      destruct (Z.lt_ge_cases i idx) as [Hlti|Hge].
      * specialize (Hj i ltac:(lia)). apply bool_decide_eq_false in Hj. done.
      * apply pending_spec in Hpi as [Hni _]. destruct (Z.eq_dec i idx) as [->|]; [lia|].
        pose proof (Ho idx i ltac:(lia) ltac:(lia) Hn Hni). lia.
  - intros k Hk. apply Hext; [done|]. intros i Hi Hpi.
    pose proof (first_idx_None _ _ _ E ltac:(done) i ltac:(cbn; lia)) as E2.
    apply bool_decide_eq_false in E2. done.
Qed.

(** Ordered activation heights, decided for a given network. *)
Definition ordered_b (params : Params) : bool :=
  forallb (fun i => forallb (fun j =>
    negb ((0 <? i) && (i <? j)) || (activation_at params i =? NO_ACTIVATION_HEIGHT)
    || (activation_at params j =? NO_ACTIVATION_HEIGHT) || (activation_at params i <=? activation_at params j))
    (seqZ 0 14)) (seqZ 0 14).

Lemma ordered_b_sound params : ordered_b params = true -> upgrades_ordered params.
Proof.
  intros H i j Hij Hj Hi Hj'. unfold ordered_b in H. unfold MAX_NETWORK_UPGRADES in Hj. rewrite forallb_forall in H.
  specialize (H i ltac:(apply list_elem_of_In, elem_of_seqZ; lia)). rewrite forallb_forall in H.
  specialize (H j ltac:(apply list_elem_of_In, elem_of_seqZ; lia)).
  apply Z.eqb_neq in Hi, Hj'. rewrite Hi, Hj' in H.
  rewrite (proj2 (Z.ltb_lt 0 i)), (proj2 (Z.ltb_lt i j)) in H by lia. cbn in H. by apply Z.leb_le.
Qed.

Lemma CurrentEpoch_correct_witness :
  exists e e', CurrentEpoch 520000 main_consensus = Ok e /\ CurrentEpoch 4000000 main_consensus = Ok e' /\ e <= e'
    /\ upgrade_state 520000 main_consensus e = UPGRADE_ACTIVE
    /\ (forall i, e < i < MAX_NETWORK_UPGRADES -> upgrade_state 520000 main_consensus i <> UPGRADE_ACTIVE).
Proof. apply (CurrentEpoch_correct main_consensus 520000 4000000); [lia|reflexivity]. Defined.

Lemma NextActivationHeight_correct_witness :
  NextActivationHeight 850000 main_consensus = Some 916000
  /\ forall k, 850000 <= k < 916000 -> CurrentEpochBranchId k main_consensus = CurrentEpochBranchId 850000 main_consensus.
Proof.
  split; [reflexivity|].
  exact (proj2 (proj2 (NextActivationHeight_correct main_consensus 850000 ltac:(lia) eq_refl
    (ordered_b_sound main_consensus ltac:(vm_compute; reflexivity))))).
Defined.

(** [PrevEpochBranchId] does not give the branch id of the previous epoch: on
    the main network the Alfheimr epoch follows Difa, whose id is that of
    Sprout, but the answer for Alfheimr's id is Overwinter's. *)
Lemma PrevEpochBranchId_not_previous :
  CurrentEpochBranchId 849999 main_consensus = Ok 0
  /\ CurrentEpochBranchId 850000 main_consensus = Ok 0x76b809bb
  /\ PrevEpochBranchId 0x76b809bb main_consensus = 0x5ba81b19.
Proof. vm_compute. done. Qed.

(** On the regression test network the upgrades from Difa on are active from
    the genesis block while Overwinter and Sapling are disabled. *)
Lemma regtest_epoch h : 0 <= h -> CurrentEpoch h regtest_consensus = Ok (upgrade_index UPGRADE_LATVERION)
  /\ NetworkUpgradeActive h regtest_consensus UPGRADE_SAPLING = Ok false.
Proof.
  intros Hh. split.
  - unfold CurrentEpoch. change (Z.to_nat MAX_NETWORK_UPGRADES) with 14%nat. cbn [epoch_loop].
    rewrite (NetworkUpgradeActive_at_ok h _ (Z.of_nat 13)) by (unfold MAX_NETWORK_UPGRADES; lia). mstep.
    assert (Ha : active_b h regtest_consensus (Z.of_nat 13) = true); [|by rewrite Ha].
    apply active_b_spec. change (activation_at _ _) with 0. unfold NO_ACTIVATION_HEIGHT. lia.
  - by rewrite NetworkUpgradeActive_ok.
Qed.
