(* ===== verification/Subsidy.v ===== *)
(** * Block subsidy

    main.cpp, [GetBlockSubsidy], [GetMasternodePayment],
    [GetDevelopersPayment] and [GetPremineAmountAtHeight], and the coins they
    issue over the life of the main network. *)
From stdpp Require Import prelude strings list.
From S2P Require Import Prelude Transaction ChainParams.
#[local] Open Scope Z_scope.

(** [a / b] of C++: towards zero; dividing by zero traps. *)
Definition div_trap (a b : Z) : result Z := if b =? 0 then Abort else Ok (Z.quot a b).

Definition GetPremineAmountAtHeight (p : CChainParams) (nHeight : Z) : Z :=
  if nHeight =? activation (consensus p) UPGRADE_MORAG then PREMINE_GEMLINK else 0.

(** [consensusParams] is an argument of its own, while [Params()] is [p]. *)
Definition GetBlockSubsidy (net : Network) (p : CChainParams) (nHeight : Z) (consensusParams : Params) : result Z :=
  let nSubsidy := 20 * COIN in
  morag ← NetworkUpgradeActive nHeight consensusParams UPGRADE_MORAG;
  if negb (bool_decide (net = MAIN)) && negb morag then Ok nSubsidy
  else if nHeight <? Z.quot (nSubsidySlowStartInterval consensusParams) 2 then
    q ← div_trap nSubsidy (nSubsidySlowStartInterval consensusParams); Ok (q * nHeight)
  else if nHeight <? nSubsidySlowStartInterval consensusParams then
    q ← div_trap nSubsidy (nSubsidySlowStartInterval consensusParams); Ok (q * (nHeight + 1))
  else
    _ ← assert_true (SubsidySlowStartShift consensusParams <? nHeight);
    let interval := if negb (bool_decide (net = MAIN)) && morag then 3500
                    else nSubsidyHalvingInterval consensusParams in
    halvings ← div_trap (nHeight - SubsidySlowStartShift consensusParams) interval;
    '(nSubsidy, halvings) ←
      (if morag : bool then
         halvings ← div_trap (Z.max 0 (nHeight - activation consensusParams UPGRADE_MORAG)) interval;
         Ok (30 * COIN + (if nHeight =? activation (consensus p) UPGRADE_MORAG
                          then GetPremineAmountAtHeight p nHeight else 0), halvings)
       else Ok (nSubsidy, halvings));
    if 64 <=? halvings then Ok 0 else Ok (Z.shiftr nSubsidy halvings).

(** The products are on [int64_t]. *)
Definition GetMasternodePayment (p : CChainParams) (nHeight blockValue : Z) : Z :=
  let ret := Z.quot (i64 (blockValue * 35)) 100 in
  let nMNPSBlock := nMasternodePaymentsStartBlock (consensus p) in
  let nMNPIPeriod := nMasternodePaymentsIncreasePeriod (consensus p) in
  let nMNPaymentChange := activation (consensus p) UPGRADE_OVERWINTER in
  let nMNPaymentDIFA := activation (consensus p) UPGRADE_DIFA in
  let nMNPaymentKnowhere := activation (consensus p) UPGRADE_KNOWHERE in
  if nMNPaymentKnowhere <=? nHeight then
    if nHeight =? activation (consensus p) UPGRADE_MORAG then
      Z.quot (i64 ((blockValue - GetPremineAmountAtHeight p nHeight) * 50)) 100
    else Z.quot (i64 (blockValue * 50)) 100
  else
    let ret := if nMNPSBlock <? nHeight then 7 * COIN else ret in
    let ret := if nMNPSBlock + nMNPIPeriod * 1 <? nHeight then 8 * COIN else ret in
    let ret := if nMNPSBlock + nMNPIPeriod * 2 <? nHeight then 9 * COIN else ret in
    let ret := if nMNPSBlock + nMNPIPeriod * 3 <? nHeight then 10 * COIN else ret in
    let ret := if nMNPaymentChange <? nHeight then 9 * COIN else ret in
    let ret := if nMNPaymentDIFA <=? nHeight then Z.quot (925 * COIN) 100 else ret in
    ret.

Definition GetDevelopersPayment (p : CChainParams) (nHeight blockValue : Z) : Z :=
  if nHeight =? activation (consensus p) UPGRADE_MORAG then
    Z.quot (i64 ((blockValue - GetPremineAmountAtHeight p nHeight) * 20)) 100
  else Z.quot (i64 (blockValue * 20)) 100.

(** The subsidies of the blocks below height [n]. *)
Fixpoint total_issued (net : Network) (p : CChainParams) (n : nat) : result Z :=
  match n with
  | O => Ok 0
  | S n' =>
      acc ← total_issued net p n';
      s ← GetBlockSubsidy net p (Z.of_nat n') (consensus p);
      Ok (acc + s)
  end.

Lemma GetBlockSubsidy_nonneg net p h c s : 0 < h -> GetBlockSubsidy net p h c = Ok s -> 0 <= s.
Proof.
  intros Hh E. unfold GetBlockSubsidy in E. apply bind_Ok in E as (m & _ & E). destruct (_ && _); [injection E as <-; unfold COIN; lia|].
  destruct (Z.ltb_spec h (Z.quot (nSubsidySlowStartInterval c) 2)) as [Hq|_].
  { apply bind_Ok in E as (q & Eq & [= <-]). unfold div_trap in Eq. destruct (_ =? 0); [done|]. injection Eq as <-.
    assert (0 < nSubsidySlowStartInterval c).
    { destruct (Z.le_gt_cases (nSubsidySlowStartInterval c) 0); [|done]. pose proof (Z.quot_le_mono (nSubsidySlowStartInterval c) 0 2 ltac:(lia) ltac:(lia)) as Hn. rewrite Z.quot_0_l in Hn by lia. lia. }
    pose proof (Z.quot_pos (20 * COIN) (nSubsidySlowStartInterval c)). unfold COIN in *. nia. }
  destruct (Z.ltb_spec h (nSubsidySlowStartInterval c)) as [Hq|_].
  { apply bind_Ok in E as (q & Eq & [= <-]). unfold div_trap in Eq. destruct (_ =? 0); [done|]. injection Eq as <-.
    pose proof (Z.quot_pos (20 * COIN) (nSubsidySlowStartInterval c)). unfold COIN in *. nia. }
  apply bind_Ok in E as ([] & _ & E). apply bind_Ok in E as (k & _ & E). apply bind_Ok in E as ([n k'] & En & E).
  assert (0 <= n).
  { destruct m; [|injection En as <- _; unfold COIN; lia]. apply bind_Ok in En as (k2 & _ & [= <- _]).
    unfold GetPremineAmountAtHeight, PREMINE_GEMLINK, COIN. repeat case_match; lia. }
  destruct (64 <=? k'); injection E as <-; [done|]. by apply Z.shiftr_nonneg.
Qed.

(** ** The main network *)

Definition MORAG_HEIGHT : Z := 2167200.
Definition HALVING : Z := 2102400.

(** The reference schedule: a linear slow start, 20 coins until the first
    halving, 10 until Morag, then a premine and 30 coins halved every
    [HALVING] blocks. *)
Definition main_schedule (h : Z) : Z :=
  if h <? 4000 then 250000 * h
  else if h <? 8000 then 250000 * (h + 1)
  else if h <? 2106400 then 20 * COIN
  else if h <? MORAG_HEIGHT then 10 * COIN
  else (if h =? MORAG_HEIGHT then PREMINE_GEMLINK else 0)
       + (if (h - MORAG_HEIGHT) / HALVING <? 64 then Z.shiftr (30 * COIN) ((h - MORAG_HEIGHT) / HALVING) else 0).

Lemma main_active h i : 0 <= h -> 0 <= i < MAX_NETWORK_UPGRADES ->
  activation_at main_consensus i <> NO_ACTIVATION_HEIGHT ->
  active_b h main_consensus i = (activation_at main_consensus i <=? h).
Proof.
  intros Hh Hi Hn. pose proof (active_b_spec h main_consensus i) as A.
  destruct (Z.leb_spec (activation_at main_consensus i) h); destruct (active_b h main_consensus i); try done; naive_solver lia.
Qed.

Lemma GetBlockSubsidy_main h : 0 <= h -> GetBlockSubsidy MAIN main_params h main_consensus = Ok (main_schedule h).
Proof.
  intros Hh. unfold GetBlockSubsidy, main_schedule. rewrite NetworkUpgradeActive_ok by done.
  rewrite main_active by done. mstep. rewrite bool_decide_true by done. cbn [negb andb].
  change (SubsidySlowStartShift main_consensus) with 4000.
  change (Z.quot (nSubsidySlowStartInterval main_consensus) 2) with 4000.
  change (nSubsidySlowStartInterval main_consensus) with 8000.
  change (nSubsidyHalvingInterval main_consensus) with HALVING.
  change (activation_at main_consensus (upgrade_index UPGRADE_MORAG)) with MORAG_HEIGHT.
  change (activation main_consensus UPGRADE_MORAG) with MORAG_HEIGHT.
  change (activation (consensus main_params) UPGRADE_MORAG) with MORAG_HEIGHT.
  change (div_trap (20 * COIN) 8000) with (Ok 250000). mstep.
  destruct (Z.ltb_spec h 4000); [done|]. destruct (Z.ltb_spec h 8000); [done|].
  rewrite (proj2 (Z.ltb_lt 4000 h)) by lia. mstep. unfold div_trap. change (HALVING =? 0) with false.
  mstep. rewrite !Z.quot_div_nonneg by (unfold HALVING; lia).
  destruct (Z.leb_spec MORAG_HEIGHT h) as [Hm|Hm]; mstep.
  - rewrite Z.max_r by lia. destruct (Z.ltb_spec h 2106400); [unfold MORAG_HEIGHT in Hm; lia|].
    destruct (Z.ltb_spec h MORAG_HEIGHT); [lia|]. unfold GetPremineAmountAtHeight.
    change (activation (consensus main_params) UPGRADE_MORAG) with MORAG_HEIGHT.
    destruct (Z.eqb_spec h MORAG_HEIGHT) as [->|]; [by rewrite Z.sub_diag|].
    rewrite Z.add_0_r, Z.add_0_l, Z.leb_antisym. by destruct (_ <? 64).
  - destruct (Z.ltb_spec h 2106400).
    + rewrite Z.div_small by (unfold HALVING; lia). done.
    + rewrite (proj2 (Z.ltb_lt h MORAG_HEIGHT)) by done.
      replace ((h - 4000) / HALVING) with 1; [done|].
      apply Z.div_unique with (h - 4000 - HALVING); unfold HALVING, MORAG_HEIGHT in *; lia.
Qed.

(** ** The total issued *)

(** [HALVING] blocks in each of the first [k] eras after Morag. *)
Fixpoint eras (k : nat) : Z :=
  match k with O => 0 | S k' => eras k' + HALVING * Z.shiftr (30 * COIN) (Z.of_nat k') end.

Definition after_morag (m : Z) : Z :=
  let k := m / HALVING in
  if k <? 64 then eras (Z.to_nat k) + (m - HALVING * k) * Z.shiftr (30 * COIN) k else eras 64.

Lemma after_morag_step m : 0 <= m ->
  after_morag (m + 1) = after_morag m + (if m / HALVING <? 64 then Z.shiftr (30 * COIN) (m / HALVING) else 0).
Proof.
  intros Hm. unfold after_morag. set (k := m / HALVING).
  assert (Hk : 0 <= k) by (apply Z.div_pos; unfold HALVING; lia).
  assert (Hd : m = HALVING * k + m mod HALVING) by (apply Z.div_mod; done).
  pose proof (Z.mod_pos_bound m HALVING ltac:(done)) as Hr.
  destruct (Z.eq_dec (m mod HALVING) (HALVING - 1)) as [Hl|Hl].
  - replace ((m + 1) / HALVING) with (k + 1) by (apply Z.div_unique with 0; unfold HALVING in *; lia).
    assert (Es : eras (S (Z.to_nat k)) = eras (Z.to_nat k) + (m - HALVING * k + 1) * Z.shiftr (30 * COIN) k).
    { cbn [eras]. rewrite Z2Nat.id by lia. by replace (m - HALVING * k + 1) with HALVING by lia. }
    destruct (Z.ltb_spec k 64) as [H64|H64].
    + destruct (Z.ltb_spec (k + 1) 64) as [H65|H65].
      * replace (Z.to_nat (k + 1)) with (S (Z.to_nat k)) by lia. rewrite Es.
        replace (m + 1 - HALVING * (k + 1)) with 0 by lia. ring.
      * replace 64%nat with (S (Z.to_nat k)) by lia. rewrite Es. ring.
    + rewrite (proj2 (Z.ltb_ge (k + 1) 64)) by lia. lia.
  - replace ((m + 1) / HALVING) with k by (apply Z.div_unique with (m mod HALVING + 1); unfold HALVING in *; lia).
    destruct (k <? 64); [ring|lia].
Qed.

Lemma eras_mono k k' : (k <= k')%nat -> eras k <= eras k'.
Proof.
  induction 1 as [|k' Hk IH]; [done|]. cbn [eras].
  pose proof (proj2 (Z.shiftr_nonneg (30 * COIN) (Z.of_nat k')) ltac:(done)).
  assert (0 <= HALVING) by done. nia.
Qed.

Lemma after_morag_bound m : 0 <= m -> 0 <= after_morag m <= eras 64.
Proof.
  intros Hm. unfold after_morag. set (k := m / HALVING).
  assert (Hk : 0 <= k) by (apply Z.div_pos; unfold HALVING; lia).
  assert (Hd : m = HALVING * k + m mod HALVING) by (apply Z.div_mod; done).
  pose proof (Z.mod_pos_bound m HALVING ltac:(done)) as Hr.
  pose proof (proj2 (Z.shiftr_nonneg (30 * COIN) k) ltac:(done)) as Hx.
  pose proof (eras_mono 0 (Z.to_nat k) ltac:(lia)) as H0. change (eras 0) with 0 in H0.
  destruct (Z.ltb_spec k 64) as [H64|H64]; [|split; [|done]; by vm_compute].
  replace (m - HALVING * k) with (m mod HALVING) by lia.
  pose proof (eras_mono (S (Z.to_nat k)) 64 ltac:(lia)) as H1.
  remember (eras 64) as e64. cbn [eras] in H1. rewrite Z2Nat.id in H1 by lia. nia.
Qed.

(** Everything issued below height [n]. *)
Definition main_issued (n : Z) : Z :=
  if n <=? 4000 then 125000 * (n * (n - 1))
  else if n <=? 8000 then 125000 * (n * (n + 1) - 8000)
  else if n <=? 2106400 then 80000 * COIN + (n - 8000) * (20 * COIN)
  else if n <=? MORAG_HEIGHT then 42048000 * COIN + (n - 2106400) * (10 * COIN)
  else 42656000 * COIN + PREMINE_GEMLINK + after_morag (n - MORAG_HEIGHT).

Lemma main_issued_step n : 0 <= n -> main_issued (n + 1) = main_issued n + main_schedule n.
Proof.
  intros Hn. unfold main_issued, main_schedule, COIN, PREMINE_GEMLINK.
  destruct (Z.ltb_spec n 4000); [rewrite !(proj2 (Z.leb_le _ 4000)) by lia; ring|].
  rewrite (proj2 (Z.leb_gt (n + 1) 4000)) by lia.
  destruct (Z.ltb_spec n 8000).
  { rewrite (proj2 (Z.leb_le (n + 1) 8000)) by lia. destruct (Z.leb_spec n 4000).
    - by replace n with 4000 by lia.
    - rewrite (proj2 (Z.leb_le n 8000)) by lia. ring. }
  rewrite (proj2 (Z.leb_gt (n + 1) 8000)), (proj2 (Z.leb_gt n 4000)) by lia.
  destruct (Z.ltb_spec n 2106400).
  { rewrite (proj2 (Z.leb_le (n + 1) 2106400)) by lia. destruct (Z.leb_spec n 8000).
    - by replace n with 8000 by lia.
    - rewrite (proj2 (Z.leb_le n 2106400)) by lia. unfold COIN. ring. }
  rewrite (proj2 (Z.leb_gt (n + 1) 2106400)), (proj2 (Z.leb_gt n 8000)) by lia.
  destruct (Z.ltb_spec n MORAG_HEIGHT).
  { rewrite (proj2 (Z.leb_le (n + 1) MORAG_HEIGHT)) by lia. destruct (Z.leb_spec n 2106400).
    - by replace n with 2106400 by lia.
    - rewrite (proj2 (Z.leb_le n MORAG_HEIGHT)) by lia. unfold COIN. ring. }
  rewrite (proj2 (Z.leb_gt (n + 1) MORAG_HEIGHT)), (proj2 (Z.leb_gt n 2106400)) by (unfold MORAG_HEIGHT in *; lia).
  replace (n + 1 - MORAG_HEIGHT) with (n - MORAG_HEIGHT + 1) by lia.
  rewrite after_morag_step by lia. destruct (Z.leb_spec n MORAG_HEIGHT).
  - by replace n with MORAG_HEIGHT by lia.
  - rewrite (proj2 (Z.eqb_neq n MORAG_HEIGHT)) by lia. unfold COIN. ring.
Qed.

Lemma total_issued_main n : total_issued MAIN main_params n = Ok (main_issued (Z.of_nat n)).
Proof.
  induction n as [|n IH]; [done|]. cbn [total_issued]. rewrite IH. mstep.
  change (consensus main_params) with main_consensus. rewrite GetBlockSubsidy_main by lia. mstep.
  by rewrite Nat2Z.inj_succ, <- Z.add_1_r, main_issued_step by lia.
Qed.

Definition MAX_ISSUED : Z := 17879999974771200.

Lemma main_schedule_nonneg h : 0 <= h -> 0 <= main_schedule h.
Proof.
  intros Hh. unfold main_schedule. repeat case_match; try (unfold COIN, PREMINE_GEMLINK; lia); zbool.
  all: assert (0 <= Z.shiftr (30 * COIN) ((h - MORAG_HEIGHT) / HALVING)) by (apply Z.shiftr_nonneg; done). all: unfold PREMINE_GEMLINK, COIN in *; lia.
Qed.
Lemma main_issued_mono a b : 0 <= a <= b -> main_issued a <= main_issued b.
Proof.
  intros Hab. replace b with (a + Z.of_nat (Z.to_nat (b - a))) by lia. induction (Z.to_nat (b - a)) as [|k IH]; [by rewrite Z.add_0_r|].
  rewrite Nat2Z.inj_succ, <- Z.add_1_r, Z.add_assoc, main_issued_step by lia. pose proof (main_schedule_nonneg (a + Z.of_nat k)). lia.
Qed.
(** The first height below which more coins are issued than [MoneyRange] accepts
    as one amount. *)
Lemma main_issued_exceeds a : 0 <= a -> MAX_MONEY < main_issued a <-> 8070134 <= a.
Proof.
  intros Ha. assert (main_issued 8070133 <= MAX_MONEY < main_issued 8070134) as [? ?] by (split; [|apply Z.ltb_lt]; by vm_compute).
  split; intros Hm.
  - destruct (Z.le_gt_cases 8070134 a); [done|]. pose proof (main_issued_mono a 8070133 ltac:(lia)). lia.
  - pose proof (main_issued_mono 8070134 a ltac:(lia)). lia.
Qed.

Lemma main_issued_bounded n : 0 <= main_issued (Z.of_nat n) <= MAX_ISSUED
  /\ (MORAG_HEIGHT + 64 * HALVING < Z.of_nat n -> main_issued (Z.of_nat n) = MAX_ISSUED).
Proof.
  assert (E64 : eras 64 = 12614399974771200) by (vm_compute; reflexivity).
  unfold main_issued, MAX_ISSUED, PREMINE_GEMLINK, COIN, MORAG_HEIGHT in *.
  destruct (Z.leb_spec (Z.of_nat n) 4000); [split; [nia|unfold HALVING; lia]|].
  destruct (Z.leb_spec (Z.of_nat n) 8000); [split; [nia|unfold HALVING; lia]|].
  destruct (Z.leb_spec (Z.of_nat n) 2106400); [split; [lia|unfold HALVING; lia]|].
  destruct (Z.leb_spec (Z.of_nat n) 2167200); [split; [lia|unfold HALVING; lia]|].
  pose proof (after_morag_bound (Z.of_nat n - 2167200) ltac:(lia)) as Hb. rewrite E64 in Hb.
  split; [lia|]. intros Hn. unfold after_morag.
  rewrite (proj2 (Z.ltb_ge _ 64)); [lia|]. apply Z.div_le_lower_bound; [done|]. lia.
Qed.


(** The parts of a block subsidy paid to masternode and developers fit in it. *)
Lemma quot_share v k : 0 <= v <= MAX_MONEY -> 0 <= k <= 50 -> Z.quot (i64 (v * k)) 100 = v * k / 100.
Proof.
  intros Hv Hk. rewrite i64_small; [apply Z.quot_div_nonneg; nia|].
  unfold MAX_MONEY, COIN in Hv. unfold is_i64. nia.
Qed.

Lemma main_schedule_bound h : 0 <= h -> 0 <= main_schedule h - GetPremineAmountAtHeight main_params h
  /\ main_schedule h <= MAX_MONEY.
Proof.
  intros Hh. unfold main_schedule, GetPremineAmountAtHeight, MAX_MONEY.
  change (activation (consensus main_params) UPGRADE_MORAG) with MORAG_HEIGHT.
  unfold COIN, PREMINE_GEMLINK, MORAG_HEIGHT, COIN.
  destruct (Z.ltb_spec h 4000), (Z.ltb_spec h 8000), (Z.ltb_spec h 2106400), (Z.ltb_spec h 2167200),
    (Z.eqb_spec h 2167200); try lia.
  - rewrite (proj2 (Z.ltb_lt _ 64)) by (rewrite Z.div_small; unfold HALVING; lia).
    subst h. by vm_compute.
  - destruct (_ <? 64); [|lia]. set (k := (h - 2167200) / HALVING).
    assert (Hk : 0 <= k) by (apply Z.div_pos; unfold HALVING; lia).
    rewrite Z.shiftr_div_pow2 by done. pose proof (Z.pow_pos_nonneg 2 k).
    pose proof (Z.div_pos (30 * 100000000) (2 ^ k) ltac:(lia) ltac:(lia)).
    pose proof (Z.div_le_upper_bound (30 * 100000000) (2 ^ k) (30 * 100000000) ltac:(lia) ltac:(nia)). lia.
Qed.

(** From Knowhere on, half of a main network subsidy goes to the masternode
    and a fifth to the developers, neither taking part of the premine; with
    the premine they leave at least three tenths to the miner. *)
Theorem payments_fit (h : Z) (Hh : activation main_consensus UPGRADE_KNOWHERE <= h) :
  exists s, GetBlockSubsidy MAIN main_params h main_consensus = Ok s
    /\ let base := s - GetPremineAmountAtHeight main_params h in
       GetMasternodePayment main_params h s = base * 50 / 100
       /\ GetDevelopersPayment main_params h s = base * 20 / 100
       /\ base * 30 / 100 <= s - GetPremineAmountAtHeight main_params h
                             - GetMasternodePayment main_params h s - GetDevelopersPayment main_params h s.
Proof.
  change (activation main_consensus UPGRADE_KNOWHERE) with 916000 in Hh.
  exists (main_schedule h). split; [apply GetBlockSubsidy_main; lia|]. cbv zeta.
  destruct (main_schedule_bound h) as [H0 H1]; [lia|]. set (s := main_schedule h) in *.
  assert (Hp : 0 <= GetPremineAmountAtHeight main_params h)
    by (unfold GetPremineAmountAtHeight, PREMINE_GEMLINK, COIN; destruct (_ =? _); lia).
  assert (Em : GetMasternodePayment main_params h s = (s - GetPremineAmountAtHeight main_params h) * 50 / 100).
  { unfold GetMasternodePayment. change (activation (consensus main_params) UPGRADE_KNOWHERE) with 916000.
    rewrite (proj2 (Z.leb_le _ _)) by done. destruct (h =? _) eqn:E; [apply quot_share; lia|].
    unfold GetPremineAmountAtHeight. rewrite E, Z.sub_0_r. apply quot_share; lia. }
  assert (Ed : GetDevelopersPayment main_params h s = (s - GetPremineAmountAtHeight main_params h) * 20 / 100).
  { unfold GetDevelopersPayment. destruct (h =? _) eqn:E; [apply quot_share; lia|].
    unfold GetPremineAmountAtHeight. rewrite E, Z.sub_0_r. apply quot_share; lia. }
  rewrite Em, Ed. split; [done|]. split; [done|]. set (b := s - _) in *.
  assert (b * 50 / 100 + b * 20 / 100 + b * 30 / 100 <= b); [|lia].
  pose proof (Z.mul_div_le (b * 50) 100). pose proof (Z.mul_div_le (b * 20) 100).
  pose proof (Z.mul_div_le (b * 30) 100). lia.
Qed.

Lemma payments_fit_witness :
  exists s, GetBlockSubsidy MAIN main_params 2167200 main_consensus = Ok s
    /\ let base := s - GetPremineAmountAtHeight main_params 2167200 in
       GetMasternodePayment main_params 2167200 s = base * 50 / 100
       /\ GetDevelopersPayment main_params 2167200 s = base * 20 / 100
       /\ base * 30 / 100 <= s - GetPremineAmountAtHeight main_params 2167200
                             - GetMasternodePayment main_params 2167200 s - GetDevelopersPayment main_params 2167200 s.
Proof. apply (payments_fit 2167200). vm_compute. done. Defined.
