(* ===== verification/ArithUint256.v ===== *)
(** * 256-bit arithmetic

    arith_uint256.{h,cpp}: [base_uint<256>], an unsigned integer kept as eight
    32-bit limbs, least significant first, and [arith_uint256] with the
    compact encoding of difficulty targets.  [val] is the number the limbs
    spell; every operation is shown to be the integer operation modulo
    2^256. *)
From stdpp Require Import prelude strings list.
From S2P Require Import Prelude.
#[local] Open Scope Z_scope.

(** ** Data *)

Definition WIDTH : nat := 8.
(** [uint32_t pn[WIDTH]]. *)
Abbreviation base_uint := (list Z).

(** A well-formed value: [WIDTH] limbs of 32 bits. *)
Definition limbs (l : list Z) : Prop := Forall is_u32 l.
Definition wf (a : base_uint) : Prop := length a = WIDTH /\ limbs a.

Fixpoint val (l : list Z) : Z :=
  match l with
  | [] => 0
  | x :: l' => x + 2 ^ 32 * val l'
  end.

(** ** Constructors, assignment and the bitwise operators *)

(** [base_uint()]. *)
Definition bu_zero : base_uint := replicate WIDTH 0.

(** [base_uint(uint64_t)] and [operator=(uint64_t)]. *)
Definition bu_of_u64 (b : Z) : base_uint := u32 b :: u32 (Z.shiftr b 32) :: replicate (WIDTH - 2) 0.

(** [operator!]. *)
Definition bu_not_b (a : base_uint) : bool := forallb (fun x => x =? 0) a.

(** [operator~]. *)
Definition bu_lnot (a : base_uint) : base_uint := map (fun x => u32 (Z.lnot x)) a.

Definition bu_xor (a b : base_uint) : base_uint := zip_with Z.lxor a b.
Definition bu_and (a b : base_uint) : base_uint := zip_with Z.land a b.
Definition bu_or (a b : base_uint) : base_uint := zip_with Z.lor a b.

(** [pn[j] |= v]. *)
Definition or_at (j : nat) (v : Z) (pn : list Z) : list Z := alter (fun x => Z.lor x v) j pn.

(** [operator^=(uint64_t)] and [operator|=(uint64_t)]. *)
Definition bu_xor_u64 (a : base_uint) (b : Z) : base_uint :=
  alter (fun x => Z.lxor x (u32 (Z.shiftr b 32))) 1%nat (alter (fun x => Z.lxor x (u32 b)) 0%nat a).
Definition bu_or_u64 (a : base_uint) (b : Z) : base_uint :=
  or_at 1 (u32 (Z.shiftr b 32)) (or_at 0 (u32 b) a).

(** ** Increment, decrement, addition, subtraction *)

(** [while (++pn[i] == 0 && i < WIDTH - 1) i++]. *)
Fixpoint bu_incr (a : base_uint) : base_uint :=
  match a with
  | [] => []
  | x :: a' => let x' := u32 (x + 1) in if x' =? 0 then x' :: bu_incr a' else x' :: a'
  end.

(** [while (--pn[i] == (uint32_t)-1 && i < WIDTH - 1) i++]. *)
Fixpoint bu_decr (a : base_uint) : base_uint :=
  match a with
  | [] => []
  | x :: a' => let x' := u32 (x - 1) in if x' =? 0xffffffff then x' :: bu_decr a' else x' :: a'
  end.

(** [operator-]. *)
Definition bu_neg (a : base_uint) : base_uint := bu_incr (bu_lnot a).

Fixpoint add_loop (carry : Z) (a b : list Z) : list Z :=
  match a, b with
  | x :: a', y :: b' =>
      let n := u64 (carry + x + y) in
      Z.land n 0xffffffff :: add_loop (Z.shiftr n 32) a' b'
  | _, _ => []
  end.
Definition bu_add (a b : base_uint) : base_uint := add_loop 0 a b.
Definition bu_sub (a b : base_uint) : base_uint := bu_add a (bu_neg b).
(** [operator+=(uint64_t)] and [operator-=(uint64_t)]. *)
Definition bu_add_u64 (a : base_uint) (b64 : Z) : base_uint := bu_add a (bu_of_u64 b64).
Definition bu_sub_u64 (a : base_uint) (b64 : Z) : base_uint := bu_add a (bu_neg (bu_of_u64 b64)).

(** ** Shifts *)

(** [pn[i]], for [i < WIDTH]. *)
Definition limb (a : base_uint) (i : nat) : Z := nth i a 0.

Definition shl_body (a : base_uint) (k : nat) (shift : Z) (pn : base_uint) (i : nat) : base_uint :=
  let pn := if (i + k + 1 <? WIDTH)%nat && negb (shift =? 0)
            then or_at (i + k + 1) (Z.shiftr (limb a i) (32 - shift)) pn else pn in
  if (i + k <? WIDTH)%nat then or_at (i + k) (u32 (Z.shiftl (limb a i) shift)) pn else pn.
Definition bu_shl (a : base_uint) (shift : Z) : base_uint :=
  foldl (shl_body a (Z.to_nat (shift / 32)) (shift mod 32)) bu_zero (seq 0 WIDTH).

Definition shr_body (a : base_uint) (k : nat) (shift : Z) (pn : base_uint) (i : nat) : base_uint :=
  let pn := if (k + 1 <=? i)%nat && negb (shift =? 0)
            then or_at (i - k - 1) (u32 (Z.shiftl (limb a i) (32 - shift))) pn else pn in
  if (k <=? i)%nat then or_at (i - k) (Z.shiftr (limb a i) shift) pn else pn.
Definition bu_shr (a : base_uint) (shift : Z) : base_uint :=
  foldl (shr_body a (Z.to_nat (shift / 32)) (shift mod 32)) bu_zero (seq 0 WIDTH).

(** ** Multiplication *)

(** [operator*=(uint32_t)]. *)
Fixpoint mul32_loop (carry b32 : Z) (a : list Z) : list Z :=
  match a with
  | [] => []
  | x :: a' =>
      let n := u64 (carry + b32 * x) in
      Z.land n 0xffffffff :: mul32_loop (Z.shiftr n 32) b32 a'
  end.
Definition bu_mul32 (a : base_uint) (b32 : Z) : base_uint := mul32_loop 0 b32 a.

(** The inner loop of [operator*=]: [pn[i + j]] for [i + j < WIDTH]. *)
Fixpoint mul_row (carry aj : Z) (pn b : list Z) : list Z :=
  match pn, b with
  | p :: pn', y :: b' =>
      let n := u64 (carry + p + aj * y) in
      Z.land n 0xffffffff :: mul_row (Z.shiftr n 32) aj pn' b'
  | _, _ => pn
  end.
Definition mul_body (a b : base_uint) (pn : base_uint) (j : nat) : base_uint :=
  take j pn ++ mul_row 0 (limb a j) (drop j pn) b.
Definition bu_mul (a b : base_uint) : base_uint := foldl (mul_body a b) bu_zero (seq 0 WIDTH).

(** ** Comparison and size *)

(** [CompareTo], from the most significant limb down. *)
Fixpoint compare_rev (a b : list Z) : Z :=
  match a, b with
  | x :: a', y :: b' => if x <? y then -1 else if y <? x then 1 else compare_rev a' b'
  | _, _ => 0
  end.
Definition CompareTo (a b : base_uint) : Z := compare_rev (rev a) (rev b).
Definition bu_gt (a b : base_uint) : bool := 0 <? CompareTo a b.
Definition bu_lt (a b : base_uint) : bool := CompareTo a b <? 0.
Definition bu_ge (a b : base_uint) : bool := 0 <=? CompareTo a b.
Definition bu_le (a b : base_uint) : bool := CompareTo a b <=? 0.
Definition bu_eq (a b : base_uint) : bool := bool_decide (a = b).

Definition EqualTo (a : base_uint) (b : Z) : bool :=
  forallb (fun x => x =? 0) (drop 2 a)
  && (limb a 1 =? Z.shiftr b 32) && (limb a 0 =? Z.land b 0xffffffff).

(** [for (int bits = 31; bits > 0; bits--)]. *)
Fixpoint limb_bits (bits : nat) (x : Z) : Z :=
  match bits with
  | O => 1
  | S bits' => if negb (Z.land x (Z.shiftl 1 (Z.of_nat bits)) =? 0) then Z.of_nat bits + 1
               else limb_bits bits' x
  end.
(** [for (int pos = WIDTH - 1; pos >= 0; pos--)], over the limbs from the top. *)
Fixpoint bits_rev (l : list Z) : Z :=
  match l with
  | [] => 0
  | x :: l' => if negb (x =? 0) then 32 * Z.of_nat (length l') + limb_bits 31 x else bits_rev l'
  end.
Definition bu_bits (a : base_uint) : Z := bits_rev (rev a).

Definition GetLow64 (a : base_uint) : Z := Z.lor (limb a 0) (Z.shiftl (limb a 1) 32).

(** ** Division *)

(** [while (shift >= 0)]; [n] is [shift + 1]. *)
Fixpoint div_loop (n : nat) (num div pn : base_uint) : base_uint :=
  match n with
  | O => pn
  | S shift =>
      let ge := bu_ge num div in
      let num := if ge then bu_sub num div else num in
      let pn := if ge then or_at (shift / 32) (Z.shiftl 1 (Z.land (Z.of_nat shift) 31)) pn else pn in
      div_loop shift num (bu_shr div 1) pn
  end.
Definition bu_div (a b : base_uint) : result base_uint :=
  let num_bits := bu_bits a in
  let div_bits := bu_bits b in
  if div_bits =? 0 then Throw "Division by zero"
  else if num_bits <? div_bits then Ok bu_zero
  else let shift := num_bits - div_bits in
       Ok (div_loop (Z.to_nat (shift + 1)) a (bu_shl b shift) bu_zero).

(** ** Compact targets *)

(** [SetCompact]: the value, [*pfNegative] and [*pfOverflow]. *)
Definition SetCompact (nCompact : Z) : base_uint * bool * bool :=
  let nSize := Z.shiftr nCompact 24 in
  let nWord := Z.land nCompact 0x007fffff in
  let nWord := if nSize <=? 3 then Z.shiftr nWord (8 * (3 - nSize)) else nWord in
  let v := if nSize <=? 3 then bu_of_u64 nWord else bu_shl (bu_of_u64 nWord) (8 * (nSize - 3)) in
  (v,
   negb (nWord =? 0) && negb (Z.land nCompact 0x00800000 =? 0),
   negb (nWord =? 0) && ((34 <? nSize) || ((0xff <? nWord) && (33 <? nSize)) || ((0xffff <? nWord) && (32 <? nSize)))).
Definition compact_target (nCompact : Z) : base_uint := (SetCompact nCompact).1.1.

Definition GetCompact (a : base_uint) (fNegative : bool) : result Z :=
  let nSize := (bu_bits a + 7) / 8 in
  let nCompact := if nSize <=? 3 then u32 (Z.shiftl (GetLow64 a) (8 * (3 - nSize)))
                  else u32 (GetLow64 (bu_shr a (8 * (nSize - 3)))) in
  let sign := negb (Z.land nCompact 0x00800000 =? 0) in
  let nSize := if sign then nSize + 1 else nSize in
  let nCompact := if sign then Z.shiftr nCompact 8 else nCompact in
  _ ← assert_true (Z.land nCompact (u32 (Z.lnot 0x007fffff)) =? 0);
  _ ← assert_true (nSize <? 256);
  let nCompact := Z.lor nCompact (u32 (Z.shiftl nSize 24)) in
  Ok (Z.lor nCompact (if fNegative && negb (Z.land nCompact 0x007fffff =? 0) then 0x00800000 else 0)).

(** ** Conversions to and from 256-bit blobs *)

Definition ArithToUint256 (a : base_uint) : uint256 := le_val (concat (map (le_bytes 4) a)).
Definition UintToArith256 (h : uint256) : base_uint :=
  map (fun x => le_val (take 4 (drop (4 * x) (le_bytes 32 h)))) (seq 0 WIDTH).

(** ** The value of limb lists *)

Abbreviation B := (2 ^ 32).
Definition bexp (n : nat) : Z := 2 ^ (32 * Z.of_nat n).

Lemma bexp_S n : bexp (S n) = B * bexp n.
Proof. unfold bexp. rewrite <- Z.pow_add_r by lia. f_equal. lia. Qed.
Lemma bexp_pos n : 0 < bexp n.
Proof. apply Z.pow_pos_nonneg; lia. Qed.
Lemma bexp_add m n : bexp (m + n) = bexp m * bexp n.
Proof. unfold bexp. rewrite <- Z.pow_add_r by lia. f_equal. lia. Qed.

Lemma val_bound l : limbs l -> 0 <= val l < bexp (length l).
Proof.
  induction 1 as [|x l Hx Hl IH]; [cbn; unfold bexp; simpl; lia|].
  cbn [val length]. rewrite bexp_S. unfold is_u32 in Hx. lia.
Qed.

Lemma wf_bound a : wf a -> 0 <= val a < 2 ^ 256.
Proof. intros [Hl Hu]. pose proof (val_bound a Hu) as H. by rewrite Hl in H. Qed.

Lemma val_app l1 l2 : val (l1 ++ l2) = val l1 + bexp (length l1) * val l2.
Proof.
  induction l1 as [|x l IH]; [unfold bexp; simpl; lia|]. cbn [val app length]. rewrite IH, bexp_S. lia.
Qed.

Lemma val_replicate_0 n : val (replicate n 0) = 0.
Proof. induction n as [|n IH]; [done|]. cbn [val replicate]. lia. Qed.

Lemma val_take n l : limbs l -> val (take n l) = val l mod bexp n.
Proof.
  intros Hl. destruct (Nat.le_gt_cases n (length l)) as [Hn|Hn].
  - rewrite <- (take_drop n l) at 2. rewrite val_app, length_take_le by done.
    rewrite (Z.mul_comm (bexp n)), Z.mod_add by (pose proof (bexp_pos n); lia).
    symmetry. apply Z.mod_small. pose proof (val_bound (take n l)) as Hb.
    rewrite length_take_le in Hb by done. apply Hb. by apply Forall_take.
  - rewrite take_ge by lia. symmetry. apply Z.mod_small. pose proof (val_bound l Hl).
    assert (bexp (length l) <= bexp n); [|lia]. apply Z.pow_le_mono_r; lia.
Qed.

Lemma val_drop n l : limbs l -> val (drop n l) = val l / bexp n.
Proof.
  intros Hl. destruct (Nat.le_gt_cases n (length l)) as [Hn|Hn].
  - rewrite <- (take_drop n l) at 2. rewrite val_app, length_take_le by done.
    pose proof (bexp_pos n). rewrite (Z.mul_comm (bexp n)), Z.div_add by lia.
    pose proof (val_bound (take n l)) as Hb. rewrite length_take_le in Hb by done.
    rewrite Z.div_small; [done|]. apply Hb. by apply Forall_take.
  - rewrite drop_ge by lia. symmetry. apply Z.div_small. pose proof (val_bound l Hl).
    assert (bexp (length l) <= bexp n); [|lia]. apply Z.pow_le_mono_r; lia.
Qed.

Lemma val_inj a b : limbs a -> limbs b -> length a = length b -> val a = val b -> a = b.
Proof.
  intros Ha. revert b. induction Ha as [|x a Hx Ha IH]; intros b Hb Hl He; destruct b as [|y b]; try done.
  apply Forall_cons in Hb as [Hy Hb]. cbn [val] in He. unfold is_u32 in Hx, Hy.
  assert (x = y /\ val a = val b) as [-> Hv] by lia.
  f_equal. apply IH; [done| |done]. by injection Hl.
Qed.

Lemma val_zero_iff a : limbs a -> val a = 0 <-> Forall (fun x => x = 0) a.
Proof.
  induction 1 as [|x a Hx Ha IH]; [done|]. cbn [val]. pose proof (val_bound a Ha). unfold is_u32 in Hx.
  rewrite Forall_cons, <- IH. lia.
Qed.

Lemma forallb_zero a : limbs a -> forallb (fun x => x =? 0) a = (val a =? 0).
Proof.
  intros Ha. apply eq_true_iff_eq. rewrite forallb_forall, Z.eqb_eq, val_zero_iff, Forall_forall by done.
  setoid_rewrite list_elem_of_In. by setoid_rewrite Z.eqb_eq.
Qed.

#[export] Hint Resolve bexp_pos : gemlink.

(** ** Small facts about limbs *)

Lemma land_ones32 n : Z.land n 0xffffffff = u32 n.
Proof. change 0xffffffff with (Z.ones 32). by rewrite Z.land_ones by lia. Qed.

Lemma limb_split n : is_u64 n -> is_u32 (u32 n) /\ is_u32 (Z.shiftr n 32) /\ n = u32 n + B * Z.shiftr n 32.
Proof.
  intros Hn. rewrite Z.shiftr_div_pow2 by lia. unfold is_u64 in Hn. split_and!; [apply u32_bound|split|].
  - apply Z.div_pos; lia.
  - apply Z.div_lt_upper_bound; [lia|]. change (B * B) with (2 ^ 64). lia.
  - unfold u32. pose proof (Z.div_mod n B). lia.
Qed.

Lemma limbs_replicate_0 n : limbs (replicate n 0).
Proof. apply Forall_replicate. unfold is_u32. lia. Qed.
Lemma wf_zero : wf bu_zero.
Proof. split; [done|]. apply limbs_replicate_0. Qed.
Lemma val_zero : val bu_zero = 0.
Proof. done. Qed.

Lemma of_u64_spec b : is_u64 b -> wf (bu_of_u64 b) /\ val (bu_of_u64 b) = b.
Proof.
  intros Hb. destruct (limb_split b Hb) as (H1 & H2 & E). unfold bu_of_u64. split.
  - split; [done|]. constructor; [apply u32_bound|constructor; [apply u32_bound|apply limbs_replicate_0]].
  - cbn [val]. rewrite val_replicate_0, (u32_small (Z.shiftr b 32)) by done. lia.
Qed.

Lemma lnot_u32 x : is_u32 x -> u32 (Z.lnot x) = B - 1 - x.
Proof.
  intros Hx. unfold is_u32 in Hx. unfold u32, Z.lnot, Z.pred. replace (- x + -1) with (B - 1 - x + (-1) * B) by lia.
  rewrite Z.mod_add by lia. apply Z.mod_small. lia.
Qed.

Lemma lnot_spec a : wf a -> wf (bu_lnot a) /\ val (bu_lnot a) = 2 ^ 256 - 1 - val a.
Proof.
  intros [Hl Ha]. split; [split|].
  - unfold bu_lnot. by rewrite length_map.
  - unfold bu_lnot. apply Forall_map, Forall_true. intros. apply u32_bound.
  - change (2 ^ 256) with (bexp WIDTH). rewrite <- Hl. clear Hl. unfold bu_lnot.
    induction Ha as [|x a Hx Ha IH]; [done|]. cbn [map val length]. rewrite IH, lnot_u32, bexp_S by done. lia.
Qed.

(** ** Bitwise operators *)

Lemma val_lor_cons x l : is_u32 x -> val (x :: l) = Z.lor x (Z.shiftl (val l) 32).
Proof.
  intros Hx. rewrite Z.shiftl_mul_pow2 by lia. cbn [val]. rewrite lor_disjoint by (done || lia). lia.
Qed.

Lemma is_u32_high x n : is_u32 x -> 32 <= n -> Z.testbit x n = false.
Proof. intros Hx Hn. rewrite <- (Z.mod_small x (2 ^ 32)) by done. apply Z.mod_pow2_bits_high. lia. Qed.

Lemma u32_of_bits x : 0 <= x -> (forall n, 32 <= n -> Z.testbit x n = false) -> is_u32 x.
Proof.
  intros Hx Hb. split; [done|]. destruct (decide (x = 0)) as [->|]; [lia|].
  apply Z.log2_lt_pow2; [lia|]. destruct (Z.lt_ge_cases (Z.log2 x) 32) as [|Hge]; [done|].
  specialize (Hb _ Hge). rewrite Z.bit_log2 in Hb by lia. done.
Qed.

(** A bitwise operator with [f false false = false] acts limb by limb. *)
Section Bitwise.
Context (op : Z -> Z -> Z) (f : bool -> bool -> bool).
Hypothesis op_spec : forall x y n, 0 <= n -> Z.testbit (op x y) n = f (Z.testbit x n) (Z.testbit y n).
Hypothesis op_nonneg : forall x y, 0 <= x -> 0 <= y -> 0 <= op x y.
Hypothesis f_false : f false false = false.

Lemma op_u32 x y : is_u32 x -> is_u32 y -> is_u32 (op x y).
Proof using All.
  intros Hx Hy. apply u32_of_bits; [apply op_nonneg; unfold is_u32 in *; lia|].
  intros n Hn. by rewrite op_spec, !is_u32_high by (done || lia).
Qed.

Lemma bits_cons x l n : is_u32 x -> 0 <= n ->
  Z.testbit (val (x :: l)) n = if n <? 32 then Z.testbit x n else Z.testbit (val l) (n - 32).
Proof using Type.
  intros Hx Hn. rewrite val_lor_cons, Z.lor_spec, Z.shiftl_spec by (done || lia).
  destruct (Z.ltb_spec n 32).
  - rewrite (Z.testbit_neg_r (val l)) by lia. apply orb_false_r.
  - by rewrite is_u32_high by done.
Qed.

Lemma zip_op_spec a : forall b, limbs a -> limbs b -> length a = length b ->
  limbs (zip_with op a b) /\ val (zip_with op a b) = op (val a) (val b).
Proof using All.
  induction a as [|x a IH]; intros [|y b] Ha Hb Hl; try done.
  - split; [constructor|]. cbn. apply Z.bits_inj'. intros n Hn. by rewrite op_spec, Z.bits_0 by done.
  - apply Forall_cons in Ha as [Hx Ha], Hb as [Hy Hb]. injection Hl as Hl.
    destruct (IH b Ha Hb Hl) as [IHw IHv]. cbn [zip_with]. split; [constructor; [by apply op_u32|done]|].
    apply Z.bits_inj'. intros n Hn. rewrite op_spec, !bits_cons by (done || by apply op_u32).
    destruct (Z.ltb_spec n 32); [by rewrite op_spec|]. by rewrite IHv, op_spec by lia.
Qed.
End Bitwise.

Lemma xor_spec a b : wf a -> wf b -> wf (bu_xor a b) /\ val (bu_xor a b) = Z.lxor (val a) (val b).
Proof.
  intros [La Ha] [Lb Hb]. destruct (zip_op_spec Z.lxor xorb (fun x y n _ => Z.lxor_spec x y n)) with (a := a) (b := b) as [H1 H2];
    try done; [intros; apply Z.lxor_nonneg; lia|congruence|].
  split; [split|]; [|done..]. unfold bu_xor. rewrite length_zip_with. lia.
Qed.

Lemma and_spec a b : wf a -> wf b -> wf (bu_and a b) /\ val (bu_and a b) = Z.land (val a) (val b).
Proof.
  intros [La Ha] [Lb Hb]. destruct (zip_op_spec Z.land andb (fun x y n _ => Z.land_spec x y n)) with (a := a) (b := b)
    as [H1 H2]; try done; [intros; apply Z.land_nonneg; lia|congruence|].
  split; [split|]; [|done..]. unfold bu_and. rewrite length_zip_with. lia.
Qed.

Lemma or_spec a b : wf a -> wf b -> wf (bu_or a b) /\ val (bu_or a b) = Z.lor (val a) (val b).
Proof.
  intros [La Ha] [Lb Hb]. destruct (zip_op_spec Z.lor orb (fun x y n _ => Z.lor_spec x y n)) with (a := a) (b := b)
    as [H1 H2]; try done; [intros; apply Z.lor_nonneg; lia|congruence|].
  split; [split|]; [|done..]. unfold bu_or. rewrite length_zip_with. lia.
Qed.

Lemma or_at_spec j v l : limbs l -> is_u32 v -> (j < length l)%nat ->
  limbs (or_at j v l) /\ val (or_at j v l) = Z.lor (val l) (Z.shiftl v (32 * Z.of_nat j)).
Proof.
  intros Hl Hv. revert j. induction Hl as [|x l Hx Hl IH]; intros j Hj; [simpl in Hj; lia|].
  assert (Hor : is_u32 (Z.lor x v)).
  { apply (op_u32 Z.lor orb); try done; [intros; apply Z.lor_spec|intros; apply Z.lor_nonneg; lia]. }
  destruct j as [|j].
  - split; [by constructor|]. change (or_at 0 v (x :: l)) with (Z.lor x v :: l).
    rewrite !val_lor_cons by done. rewrite Z.mul_0_r, Z.shiftl_0_r, <- !Z.lor_assoc. f_equal. apply Z.lor_comm.
  - change (or_at (S j) v (x :: l)) with (x :: or_at j v l). destruct (IH j) as [IH1 IH2]; [simpl in Hj; lia|].
    split; [by constructor|]. rewrite !val_lor_cons, IH2, Z.shiftl_lor, Z.shiftl_shiftl, Z.lor_assoc by (done || lia).
    do 2 f_equal. lia.
Qed.

(** ** Addition and subtraction *)

(** Taking out the lowest limb of a sum modulo a power of the base. *)
Lemma mod_low m k X n : 0 < k -> 0 < n -> 0 <= m < k -> (m + k * X) mod (k * n) = m + k * (X mod n).
Proof.
  intros Hk Hn Hm. rewrite Z.rem_mul_r, (Z.mul_comm k X), Z.mod_add, Z.div_add, Z.mod_small by lia.
  by rewrite Z.div_small, Z.add_0_l by lia.
Qed.

Lemma add_loop_spec a : forall b c, limbs a -> limbs b -> length a = length b -> 0 <= c <= 1 ->
  limbs (add_loop c a b) /\ length (add_loop c a b) = length a
  /\ val (add_loop c a b) = (c + val a + val b) mod bexp (length a).
Proof.
  induction a as [|x a IH]; intros [|y b] c Ha Hb Hl Hc; try done.
  { split_and!; [constructor|done|]. cbn. unfold bexp. simpl. by rewrite Z.mod_1_r. }
  apply Forall_cons in Ha as [Hx Ha], Hb as [Hy Hb]. injection Hl as Hl. cbn [add_loop length val].
  assert (Hn : is_u64 (c + x + y)) by (unfold is_u32, is_u64 in *; lia).
  rewrite u64_small, land_ones32 by done. destruct (limb_split _ Hn) as (H1 & H2 & E).
  destruct (IH b (Z.shiftr (c + x + y) 32) Ha Hb Hl) as (I1 & I2 & I3); [unfold is_u32 in *; lia|].
  split_and!; [by constructor|congruence|]. rewrite I3, bexp_S. set (r := Z.shiftr _ _) in *. set (m := u32 _) in *.
  replace (c + (x + B * val a) + (y + B * val b)) with (m + B * (r + val a + val b)) by lia.
  by rewrite mod_low by (auto with gemlink || lia).
Qed.

Lemma incr_spec a : limbs a -> limbs (bu_incr a) /\ length (bu_incr a) = length a
  /\ val (bu_incr a) = (val a + 1) mod bexp (length a).
Proof.
  induction 1 as [|x a Hx Ha IH]; [split_and!; [constructor|done|]; unfold bexp; simpl; by rewrite Z.mod_1_r|].
  cbn [bu_incr length val]. destruct IH as (I1 & I2 & I3). pose proof (val_bound a Ha). rewrite bexp_S.
  unfold is_u32 in Hx. destruct (decide (x = B - 1)) as [->|].
  - change (u32 (B - 1 + 1)) with 0. rewrite Z.eqb_refl. cbn [length val].
    split_and!; [constructor; [unfold is_u32; lia|done]|congruence|]. rewrite I3.
    replace (B - 1 + B * val a + 1) with (B * (val a + 1)) by lia. rewrite Z.mul_mod_distr_l by lia. lia.
  - rewrite u32_small by (unfold is_u32; lia). destruct (Z.eqb_spec (x + 1) 0); [lia|]. cbn [length val].
    split_and!; [constructor; [unfold is_u32; lia|done]|done|]. rewrite Z.mod_small; lia.
Qed.

Lemma decr_spec a : limbs a -> limbs (bu_decr a) /\ length (bu_decr a) = length a
  /\ val (bu_decr a) = (val a - 1) mod bexp (length a).
Proof.
  induction 1 as [|x a Hx Ha IH]; [split_and!; [constructor|done|]; unfold bexp; simpl; by rewrite Z.mod_1_r|].
  cbn [bu_decr length val]. destruct IH as (I1 & I2 & I3). pose proof (val_bound a Ha). rewrite bexp_S.
  unfold is_u32 in Hx. destruct (decide (x = 0)) as [->|].
  - change (u32 (0 - 1)) with 0xffffffff. rewrite Z.eqb_refl. cbn [length val].
    split_and!; [constructor; [unfold is_u32; lia|done]|congruence|]. rewrite I3.
    replace (0 + B * val a - 1) with (B - 1 + B * (val a - 1)) by lia.
    by rewrite mod_low by (auto with gemlink || lia).
  - rewrite u32_small by (unfold is_u32; lia). destruct (Z.eqb_spec (x - 1) 0xffffffff); [lia|]. cbn [length val].
    split_and!; [constructor; [unfold is_u32; lia|done]|done|]. rewrite Z.mod_small; lia.
Qed.

Abbreviation M := (2 ^ 256).

Lemma wf_bexp a : wf a -> bexp (length a) = M.
Proof. by intros [-> _]. Qed.

Lemma neg_spec a : wf a -> wf (bu_neg a) /\ val (bu_neg a) = (- val a) mod M.
Proof.
  intros Ha. destruct (lnot_spec a Ha) as [W V]. pose proof (wf_bexp _ W) as E. destruct W as [W1 W2].
  destruct (incr_spec _ W2) as (I1 & I2 & I3). split; [split; [unfold bu_neg; congruence|done]|].
  unfold bu_neg. rewrite I3, E, V. replace (M - 1 - val a + 1) with (- val a + 1 * M) by lia. by rewrite Z.mod_add by lia.
Qed.

Lemma add_spec a b : wf a -> wf b -> wf (bu_add a b) /\ val (bu_add a b) = (val a + val b) mod M.
Proof.
  intros Ha [Lb Hb]. pose proof (wf_bexp _ Ha) as E. destruct Ha as [La Ha].
  destruct (add_loop_spec a b 0 Ha Hb) as (I1 & I2 & I3); [congruence|lia|].
  split; [split; [unfold bu_add; congruence|done]|]. unfold bu_add. by rewrite I3, E, Z.add_0_l.
Qed.

Lemma sub_spec a b : wf a -> wf b -> wf (bu_sub a b) /\ val (bu_sub a b) = (val a - val b) mod M.
Proof.
  intros Ha Hb. destruct (neg_spec b Hb) as [W V]. destruct (add_spec a _ Ha W) as [W' V'].
  split; [done|]. unfold bu_sub. by rewrite V', V, Zplus_mod_idemp_r.
Qed.

(** ** Multiplication *)

Lemma mul_row_spec aj pn : forall b c, is_u32 aj -> is_u32 c -> limbs pn -> limbs b -> (length pn <= length b)%nat ->
  limbs (mul_row c aj pn b) /\ length (mul_row c aj pn b) = length pn
  /\ val (mul_row c aj pn b) = (c + val pn + aj * val b) mod bexp (length pn).
Proof.
  induction pn as [|p pn IH]; intros b c Haj Hc Hp Hb Hl.
  { split_and!; [by destruct b..|]. unfold bexp. simpl. rewrite Z.mod_1_r. by destruct b. }
  destruct b as [|y b]; [simpl in Hl; lia|].
  apply Forall_cons in Hp as [Hx Hp], Hb as [Hy Hb]. simpl in Hl. cbn [mul_row length val].
  assert (Hn : is_u64 (c + p + aj * y)) by (unfold is_u32, is_u64 in *; nia).
  rewrite u64_small, land_ones32 by done. destruct (limb_split _ Hn) as (H1 & H2 & E).
  destruct (IH b (Z.shiftr (c + p + aj * y) 32) Haj H2 Hp Hb) as (I1 & I2 & I3); [lia|].
  split_and!; [by constructor|congruence|]. rewrite I3, bexp_S. set (r := Z.shiftr _ _) in *. set (m := u32 _) in *.
  replace (c + (p + B * val pn) + aj * (y + B * val b)) with (m + B * (r + val pn + aj * val b)) by lia.
  by rewrite mod_low by (auto with gemlink || lia).
Qed.

Lemma mul32_loop_row c b a : mul32_loop c b a = mul_row c b (replicate (length a) 0) a.
Proof.
  revert c. induction a as [|x a IH]; intros c; [done|]. cbn [mul32_loop mul_row length replicate].
  rewrite Z.add_0_r. by f_equal.
Qed.

Lemma mul32_spec a b : wf a -> is_u32 b -> wf (bu_mul32 a b) /\ val (bu_mul32 a b) = (val a * b) mod M.
Proof.
  intros Ha Hb. pose proof (wf_bexp _ Ha) as E. destruct Ha as [La Ha]. unfold bu_mul32. rewrite mul32_loop_row.
  destruct (mul_row_spec b (replicate (length a) 0) a 0) as (I1 & I2 & I3);
    [done|unfold is_u32; lia|apply limbs_replicate_0|done|by rewrite length_replicate|].
  rewrite length_replicate in *. split; [split; [congruence|done]|].
  rewrite I3, E, val_replicate_0. f_equal. lia.
Qed.

Lemma limb_take_S a j : (j < length a)%nat -> val (take (S j) a) = val (take j a) + bexp j * limb a j.
Proof.
  intros Hj. unfold limb. destruct (nth_lookup_or_length a j 0) as [Hn|Hn]; [|lia].
  rewrite (take_S_r a j (nth j a 0)), val_app by done. rewrite length_take_le by lia. cbn [val]. lia.
Qed.

Lemma limb_u32 a j : limbs a -> is_u32 (limb a j).
Proof.
  intros Ha. unfold limb. destruct (nth_lookup_or_length a j 0) as [Hn|Hn].
  - exact (Forall_lookup_1 _ _ _ _ Ha Hn).
  - rewrite nth_overflow by done. unfold is_u32. lia.
Qed.

Lemma mul_body_spec a b pn j : wf a -> wf b -> wf pn -> (j < WIDTH)%nat ->
  wf (mul_body a b pn j) /\ val (mul_body a b pn j) = (val pn + bexp j * limb a j * val b) mod M.
Proof.
  intros [La Ha] [Lb Hb] [Lp Hp] Hj. unfold mul_body.
  assert (Hd : limbs (drop j pn)) by by apply Forall_drop. assert (Ht : limbs (take j pn)) by by apply Forall_take.
  assert (L1 : length (take j pn) = j) by (rewrite length_take_le; lia).
  assert (L2 : length (drop j pn) = (WIDTH - j)%nat) by (rewrite length_drop; lia).
  destruct (mul_row_spec (limb a j) (drop j pn) b 0) as (I1 & I2 & I3);
    [by apply limb_u32|unfold is_u32; lia|done|done|lia|].
  split; [split; [rewrite length_app; lia|by apply Forall_app]|].
  rewrite val_app, L1, I3, L2, Z.add_0_l. replace M with (bexp j * bexp (WIDTH - j)) by (rewrite <- bexp_add; by replace (j + (WIDTH - j))%nat with WIDTH by lia).
  pose proof (bexp_pos j). pose proof (bexp_pos (WIDTH - j)).
  rewrite <- (take_drop j pn) at 3. rewrite val_app, L1.
  pose proof (val_bound _ Ht) as Hv. rewrite L1 in Hv.
  replace (val (take j pn) + bexp j * val (drop j pn) + bexp j * limb a j * val b)
    with (val (take j pn) + bexp j * (val (drop j pn) + limb a j * val b)) by lia.
  by rewrite mod_low.
Qed.

Lemma mul_spec a b : wf a -> wf b -> wf (bu_mul a b) /\ val (bu_mul a b) = (val a * val b) mod M.
Proof.
  intros Ha Hb. unfold bu_mul.
  assert (forall n, (n <= WIDTH)%nat -> wf (foldl (mul_body a b) bu_zero (seq 0 n))
    /\ val (foldl (mul_body a b) bu_zero (seq 0 n)) = (val (take n a) * val b) mod M) as Hn.
  { induction n as [|n IH]; intros Hn; [split; [apply wf_zero|done]|].
    destruct IH as [W V]; [lia|]. rewrite seq_S, foldl_app. cbn [foldl Nat.add].
    destruct (mul_body_spec a b _ n Ha Hb W) as [W' V']; [lia|]. split; [done|].
    rewrite V', V, Zplus_mod_idemp_l, limb_take_S by (destruct Ha; lia). f_equal. lia. }
  destruct (Hn WIDTH) as [W V]; [lia|]. split; [done|]. rewrite V. rewrite take_ge; [done|]. destruct Ha; lia.
Qed.

(** ** Comparison *)

Lemma compare_rev_spec a : forall b, limbs a -> limbs b -> length a = length b ->
  compare_rev a b = match val (rev a) ?= val (rev b) with Lt => -1 | Eq => 0 | Gt => 1 end.
Proof.
  induction a as [|x a IH]; intros [|y b] Ha Hb Hl; try done.
  apply Forall_cons in Ha as [Hx Ha], Hb as [Hy Hb]. injection Hl as Hl. cbn [compare_rev rev].
  rewrite !val_app, !length_rev, Hl, IH by done. cbn [val].
  assert (Ra : limbs (rev a)) by by apply Forall_rev. assert (Rb : limbs (rev b)) by by apply Forall_rev.
  pose proof (val_bound _ Ra) as Va. pose proof (val_bound _ Rb) as Vb. rewrite length_rev in Va, Vb. rewrite Hl in Va.
  destruct (Z.ltb_spec x y), (Z.ltb_spec y x); try lia.
  - replace (_ ?= _) with Lt; [done|]. symmetry. apply Z.compare_lt_iff. nia.
  - replace (_ ?= _) with Gt; [done|]. symmetry. apply Z.compare_gt_iff. nia.
  - assert (x = y) as -> by lia.
    destruct (Z.compare_spec (val (rev a)) (val (rev b))), (Z.compare_spec (val (rev a) + bexp (length b) * (y + 2 ^ 32 * 0))
      (val (rev b) + bexp (length b) * (y + 2 ^ 32 * 0))); done || lia.
Qed.

Lemma CompareTo_spec a b : wf a -> wf b ->
  CompareTo a b = match val a ?= val b with Lt => -1 | Eq => 0 | Gt => 1 end.
Proof.
  intros [La Ha] [Lb Hb]. unfold CompareTo.
  rewrite compare_rev_spec, !rev_involutive by (by apply Forall_rev || by rewrite !length_rev, La, Lb). done.
Qed.

Section Order.
Context (a b : base_uint) (Ha : wf a) (Hb : wf b).
Lemma gt_spec : bu_gt a b = (val b <? val a).
Proof using Ha Hb.
  unfold bu_gt. rewrite CompareTo_spec by done. destruct (Z.compare_spec (val a) (val b)), (Z.ltb_spec (val b) (val a)); done || lia.
Qed.
Lemma lt_spec : bu_lt a b = (val a <? val b).
Proof using Ha Hb.
  unfold bu_lt. rewrite CompareTo_spec by done. destruct (Z.compare_spec (val a) (val b)), (Z.ltb_spec (val a) (val b)); done || lia.
Qed.
Lemma ge_spec : bu_ge a b = (val b <=? val a).
Proof using Ha Hb.
  unfold bu_ge. rewrite CompareTo_spec by done. destruct (Z.compare_spec (val a) (val b)), (Z.leb_spec (val b) (val a)); done || lia.
Qed.
Lemma le_spec : bu_le a b = (val a <=? val b).
Proof using Ha Hb.
  unfold bu_le. rewrite CompareTo_spec by done. destruct (Z.compare_spec (val a) (val b)), (Z.leb_spec (val a) (val b)); done || lia.
Qed.
Lemma eq_spec : bu_eq a b = (val a =? val b).
Proof using Ha Hb.
  unfold bu_eq. destruct Ha as [La ?], Hb as [Lb ?]. case_bool_decide as E; symmetry; [subst; apply Z.eqb_refl|].
  apply Z.eqb_neq. intros Hv. apply E. by apply val_inj; [..|congruence|].
Qed.
End Order.

Lemma EqualTo_spec a b : wf a -> is_u64 b -> EqualTo a b = (val a =? b).
Proof.
  intros [La Ha] Hb. destruct (limb_split b Hb) as (H1 & H2 & E). unfold EqualTo. rewrite land_ones32.
  destruct a as [|x [|y l]]; try done. change (drop 2 (x :: y :: l)) with l. unfold limb. cbn [nth].
  apply Forall_cons in Ha as [Hx Ha]. apply Forall_cons in Ha as [Hy Ha]. rewrite forallb_zero by done.
  pose proof (val_bound _ Ha). cbn [val]. set (r := Z.shiftr _ _) in *. set (m := u32 _) in *. unfold is_u32, is_u64 in *.
  destruct (Z.eqb_spec (val l) 0), (Z.eqb_spec y r), (Z.eqb_spec x m), (Z.eqb_spec (x + 2 ^ 32 * (y + 2 ^ 32 * val l)) b);
    done || lia.
Qed.

Lemma GetLow64_spec a : wf a -> GetLow64 a = val a mod 2 ^ 64.
Proof.
  intros [La Ha]. destruct a as [|x [|y l]]; try done. unfold GetLow64, limb. cbn [nth].
  apply Forall_cons in Ha as [Hx Ha]. apply Forall_cons in Ha as [Hy Ha].
  rewrite Z.shiftl_mul_pow2, lor_disjoint by (done || lia). cbn [val]. unfold is_u32 in *.
  change (2 ^ 64) with (2 ^ 32 * 2 ^ 32). rewrite mod_low by lia. rewrite (Z.mul_comm _ (val l)), Z.mod_add, Z.mod_small by lia. lia.
Qed.

(** ** The number of bits *)

Lemma limb_bits_spec n : forall x, 0 < x < 2 ^ (Z.of_nat n + 1) -> limb_bits n x = Z.log2 x + 1.
Proof.
  induction n as [|n IH]; intros x Hx.
  - change (2 ^ (Z.of_nat 0 + 1)) with 2 in Hx. by assert (x = 1) as -> by lia.
  - cbn [limb_bits]. assert (Hs : 2 ^ (Z.of_nat (S n) + 1) = 2 * 2 ^ (Z.of_nat n + 1)).
    { rewrite <- Z.pow_succ_r by lia. f_equal. lia. }
    assert (Hz : (Z.land x (Z.shiftl 1 (Z.of_nat (S n))) =? 0) = negb (Z.testbit x (Z.of_nat (S n)))).
    { rewrite Z.shiftl_1_l. destruct (Z.testbit x (Z.of_nat (S n))) eqn:Eb; [apply Z.eqb_neq|apply Z.eqb_eq].
      - intros Hl. apply (f_equal (fun z => Z.testbit z (Z.of_nat (S n)))) in Hl.
        rewrite Z.land_spec, Z.pow2_bits_true, Eb, Z.bits_0 in Hl by lia. done.
      - apply Z.bits_inj'. intros m Hm. rewrite Z.land_spec, Z.bits_0, Z.pow2_bits_eqb by lia.
        destruct (Z.eqb_spec (Z.of_nat (S n)) m) as [<-|]; [by rewrite Eb|apply andb_false_r]. }
    rewrite Hz, negb_involutive. destruct (Z.testbit x (Z.of_nat (S n))) eqn:Eb.
    + f_equal. symmetry. apply Z.log2_unique; [lia|]. rewrite Nat2Z.inj_succ in *. split; [|rewrite <- Z.add_1_r; lia].
      destruct (Z.lt_ge_cases x (2 ^ Z.succ (Z.of_nat n))) as [Hlt|]; [|done].
      rewrite <- (Z.mod_small x (2 ^ Z.succ (Z.of_nat n))), Z.mod_pow2_bits_high in Eb by lia. done.
    + apply IH. split; [lia|]. destruct (Z.lt_ge_cases x (2 ^ (Z.of_nat n + 1))) as [|Hge]; [done|].
      assert (Z.log2 x = Z.of_nat (S n)) as El; [|rewrite <- El, Z.bit_log2 in Eb by lia; done].
      apply Z.log2_unique; [lia|]. replace (Z.succ (Z.of_nat (S n))) with (Z.of_nat (S n) + 1) by lia.
      split; [replace (Z.of_nat (S n)) with (Z.of_nat n + 1) by lia|]; lia.
Qed.

Lemma bits_rev_spec l : limbs l -> bits_rev l = if val (rev l) =? 0 then 0 else Z.log2 (val (rev l)) + 1.
Proof.
  induction 1 as [|x l Hx Hl IH]; [done|]. cbn [bits_rev rev]. rewrite val_app, length_rev. cbn [val].
  rewrite Z.mul_0_r, Z.add_0_r. assert (Hr : limbs (rev l)) by by apply Forall_rev.
  pose proof (val_bound _ Hr) as Hv. rewrite length_rev in Hv. pose proof (bexp_pos (length l)). unfold is_u32 in Hx.
  destruct (Z.eqb_spec x 0) as [->|]; cbn [negb]; [by rewrite Z.mul_0_r, Z.add_0_r|].
  destruct (Z.eqb_spec (val (rev l) + bexp (length l) * x) 0); [nia|].
  rewrite limb_bits_spec by (change (Z.of_nat 31 + 1) with 32; lia). rewrite Z.add_assoc. f_equal. symmetry.
  apply Z.log2_unique; [pose proof (Z.log2_nonneg x); lia|].
  pose proof (Z.log2_spec x ltac:(lia)) as [L1 L2]. pose proof (Z.log2_nonneg x).
  rewrite <- Z.add_succ_r, !Z.pow_add_r by lia. fold (bexp (length l)). nia.
Qed.

Lemma bits_spec a : wf a -> bu_bits a = if val a =? 0 then 0 else Z.log2 (val a) + 1.
Proof. intros [La Ha]. unfold bu_bits. rewrite bits_rev_spec, rev_involutive by by apply Forall_rev. done. Qed.

(** What the callers use of [bits]. *)
Lemma bits_bounds a : wf a -> 0 <= bu_bits a <= 256 /\ val a < 2 ^ bu_bits a
  /\ (val a <> 0 -> 0 < bu_bits a /\ 2 ^ (bu_bits a - 1) <= val a).
Proof.
  intros Ha. pose proof (wf_bound a Ha) as Hv. rewrite bits_spec by done.
  destruct (Z.eqb_spec (val a) 0) as [E|]; [rewrite E; simpl; lia|].
  pose proof (Z.log2_spec (val a) ltac:(lia)) as [L1 L2]. pose proof (Z.log2_nonneg (val a)).
  assert (Z.log2 (val a) < 256) by (apply Z.log2_lt_pow2; lia).
  rewrite Z.add_simpl_r. rewrite Z.add_1_r. split_and!; lia.
Qed.

(** ** Shifts *)

(** The limbs of [l * 2^s] for [s < 32], with [c] carried in; the top carry
    is dropped. *)
Fixpoint shl_bits (s c : Z) (l : list Z) : list Z :=
  match l with
  | [] => []
  | x :: l' => Z.lor c (u32 (Z.shiftl x s)) :: shl_bits s (Z.shiftr x (32 - s)) l'
  end.
(** The limbs of [l / 2^s]. *)
Fixpoint shr_bits (s : Z) (l : list Z) : list Z :=
  match l with
  | [] => []
  | x :: l' => Z.lor (Z.shiftr x s) (match l' with [] => 0 | y :: _ => u32 (Z.shiftl y (32 - s)) end) :: shr_bits s l'
  end.

Lemma shl_word x s : is_u32 x -> 0 <= s < 32 ->
  u32 (Z.shiftl x s) = x mod 2 ^ (32 - s) * 2 ^ s /\ Z.shiftr x (32 - s) = x / 2 ^ (32 - s)
  /\ 0 <= x / 2 ^ (32 - s) < 2 ^ s
  /\ x * 2 ^ s = x mod 2 ^ (32 - s) * 2 ^ s + B * (x / 2 ^ (32 - s)).
Proof.
  intros Hx Hs. assert (HB : B = 2 ^ (32 - s) * 2 ^ s) by (rewrite <- Z.pow_add_r by lia; f_equal; lia).
  pose proof (Z.pow_pos_nonneg 2 s). pose proof (Z.pow_pos_nonneg 2 (32 - s)).
  rewrite Z.shiftl_mul_pow2, Z.shiftr_div_pow2 by lia. unfold u32, is_u32 in *. split_and!; [|done|..].
  - rewrite HB, Z.mul_mod_distr_r by lia. done.
  - apply Z.div_pos; lia.
  - apply Z.div_lt_upper_bound; lia.
  - rewrite HB. pose proof (Z.div_mod x (2 ^ (32 - s))). nia.
Qed.

Lemma shl_bits_spec s l : 0 <= s < 32 -> limbs l -> forall c, 0 <= c < 2 ^ s ->
  limbs (shl_bits s c l) /\ length (shl_bits s c l) = length l
  /\ val (shl_bits s c l) = (c + val l * 2 ^ s) mod bexp (length l).
Proof.
  intros Hs. induction 1 as [|x l Hx Hl IH]; intros c Hc.
  { split_and!; [constructor|done|]. unfold bexp. cbn [shl_bits val length]. by rewrite Z.mod_1_r. }
  cbn [shl_bits length val]. destruct (shl_word x s Hx Hs) as (E1 & E2 & E3 & E4).
  rewrite E1, E2, lor_disjoint by lia. destruct (IH _ E3) as (I1 & I2 & I3).
  assert (Hlow : is_u32 (c + x mod 2 ^ (32 - s) * 2 ^ s)).
  { pose proof (Z.mod_pos_bound x (2 ^ (32 - s)) ltac:(apply Z.pow_pos_nonneg; lia)).
    assert (HB : B = 2 ^ (32 - s) * 2 ^ s) by (rewrite <- Z.pow_add_r by lia; f_equal; lia). unfold is_u32. nia. }
  split_and!; [by constructor|congruence|]. rewrite I3, bexp_S.
  rewrite <- mod_low by (auto with gemlink || lia). f_equal. lia.
Qed.

Lemma val_mod_low l s : 0 <= s < 32 -> val l mod 2 ^ s = match l with [] => 0 | y :: _ => y mod 2 ^ s end.
Proof.
  intros Hs. destruct l as [|y l]; [apply Z.mod_0_l, Z.pow_nonzero; lia|]. cbn [val].
  replace B with (2 ^ (32 - s) * 2 ^ s) by (rewrite <- Z.pow_add_r by lia; f_equal; lia).
  replace (y + 2 ^ (32 - s) * 2 ^ s * val l) with (y + 2 ^ (32 - s) * val l * 2 ^ s) by lia.
  apply Z.mod_add. apply Z.pow_nonzero; lia.
Qed.

Lemma shr_bits_spec s l : 0 <= s < 32 -> limbs l ->
  limbs (shr_bits s l) /\ length (shr_bits s l) = length l /\ val (shr_bits s l) = val l / 2 ^ s.
Proof.
  intros Hs. pose proof (Z.pow_pos_nonneg 2 s). pose proof (Z.pow_pos_nonneg 2 (32 - s)).
  assert (HB : B = 2 ^ (32 - s) * 2 ^ s) by (rewrite <- Z.pow_add_r by lia; f_equal; lia).
  induction 1 as [|x l Hx Hl (I1 & I2 & I3)]; [split_and!; [constructor|done|]; cbn; by rewrite Z.div_0_l by lia|].
  assert (Hy : match l with [] => 0 | y :: _ => u32 (Z.shiftl y (32 - s)) end = val l mod 2 ^ s * 2 ^ (32 - s)).
  { rewrite val_mod_low by lia. destruct Hl as [|y l Hy' Hl]; [done|]. unfold u32. rewrite Z.shiftl_mul_pow2 by lia.
    rewrite HB, (Z.mul_comm (2 ^ (32 - s))), Z.mul_mod_distr_r by lia. done. }
  pose proof (Z.mod_pos_bound (val l) (2 ^ s) ltac:(lia)). unfold is_u32 in Hx.
  assert (0 <= x / 2 ^ s < 2 ^ (32 - s)) by (split; [apply Z.div_pos|apply Z.div_lt_upper_bound]; lia).
  cbn [shr_bits length val]. rewrite Hy, Z.shiftr_div_pow2, lor_disjoint by lia.
  split_and!; [constructor; [unfold is_u32; nia|done]|congruence|].
  rewrite I3, HB. replace (x + 2 ^ (32 - s) * 2 ^ s * val l) with (x + 2 ^ (32 - s) * val l * 2 ^ s) by lia.
  rewrite Z.div_add by lia. pose proof (Z.div_mod (val l) (2 ^ s)). nia.
Qed.

(** The loops of [operator<<=] and [operator>>=] compute exactly these limbs. *)
Lemma list_8 (a : list Z) : length a = WIDTH -> exists a0 a1 a2 a3 a4 a5 a6 a7, a = [a0; a1; a2; a3; a4; a5; a6; a7].
Proof. intros H. do 8 (destruct a as [|? a]; [done|]). destruct a; [|done]. by do 8 eexists. Qed.

Lemma shl_bits_0 a : limbs a -> shl_bits 0 0 a = a.
Proof.
  induction 1 as [|x a Hx Ha IH]; [done|]. cbn [shl_bits]. rewrite Z.shiftl_0_r, u32_small by done.
  change (32 - 0) with 32. by rewrite Z.shiftr_div_pow2, Z.div_small, IH by (done || lia).
Qed.

Lemma shr_bits_0 a : limbs a -> shr_bits 0 a = a.
Proof.
  induction 1 as [|x a Hx Ha IH]; [done|]. cbn [shr_bits]. rewrite IH, Z.shiftr_0_r. f_equal.
  destruct Ha as [|y a _ _]; [apply Z.lor_0_r|]. change (32 - 0) with 32. unfold u32.
  by rewrite Z.shiftl_mul_pow2, Z.mod_mul, Z.lor_0_r by lia.
Qed.

Ltac limb_loop := cbn -[Z.shiftl Z.shiftr Z.lor u32 Z.eqb Z.sub].

Lemma shl_loop_eq a k s : wf a -> 0 <= s < 32 ->
  foldl (shl_body a k s) bu_zero (seq 0 WIDTH) = take WIDTH (replicate k 0 ++ shl_bits s 0 a).
Proof.
  intros [(a0 & a1 & a2 & a3 & a4 & a5 & a6 & a7 & ->)%list_8 Ha] Hs.
  destruct (Z.eqb_spec s 0) as [->|Hn].
  - rewrite shl_bits_0 by done. unfold limbs in Ha. repeat setoid_rewrite Forall_cons in Ha. destruct_and! Ha.
    do 8 (destruct k as [|k]; [limb_loop; rewrite ?Z.eqb_refl; limb_loop; rewrite ?Z.shiftl_0_r, ?u32_small by done; done|]).
    limb_loop. reflexivity.
  - apply Z.eqb_neq in Hn.
    do 8 (destruct k as [|k]; [limb_loop; rewrite ?Hn; limb_loop; rewrite ?Z.lor_0_l; reflexivity|]).
    limb_loop. reflexivity.
Qed.

Lemma shr_loop_eq a k s : wf a -> 0 <= s < 32 ->
  foldl (shr_body a k s) bu_zero (seq 0 WIDTH) = shr_bits s (drop k a) ++ replicate (Nat.min k WIDTH) 0.
Proof.
  intros [(a0 & a1 & a2 & a3 & a4 & a5 & a6 & a7 & ->)%list_8 Ha] Hs.
  destruct (Z.eqb_spec s 0) as [->|Hn].
  - rewrite shr_bits_0 by by apply Forall_drop.
    do 8 (destruct k as [|k]; [limb_loop; rewrite ?Z.eqb_refl; limb_loop; rewrite ?Z.shiftr_0_r; done|]).
    limb_loop. by rewrite ?drop_nil, Nat.min_0_r.
  - apply Z.eqb_neq in Hn.
    do 8 (destruct k as [|k]; [limb_loop; rewrite ?Hn; limb_loop; rewrite ?Z.lor_0_l, ?Z.lor_0_r; repeat f_equal; apply Z.lor_comm|]).
    limb_loop. by rewrite ?drop_nil, Nat.min_0_r.
Qed.

Lemma shift_split s : 0 <= s -> 2 ^ s = bexp (Z.to_nat (s / 32)) * 2 ^ (s mod 32).
Proof.
  intros Hs. pose proof (Z.mod_pos_bound s 32). pose proof (Z.div_pos s 32). unfold bexp.
  rewrite Z2Nat.id, <- Z.pow_add_r by lia. f_equal. apply Z.div_mod. lia.
Qed.

Lemma shl_spec a s : wf a -> 0 <= s -> wf (bu_shl a s) /\ val (bu_shl a s) = (val a * 2 ^ s) mod M.
Proof.
  intros Ha Hs. pose proof (Z.mod_pos_bound s 32 ltac:(lia)) as Hm. unfold bu_shl. rewrite shl_loop_eq by done.
  set (k := Z.to_nat (s / 32)). pose proof Ha as [La Hla].
  destruct (shl_bits_spec (s mod 32) a Hm Hla 0) as (I1 & I2 & I3); [split; [lia|apply Z.pow_pos_nonneg; lia]|].
  assert (Hw : limbs (replicate k 0 ++ shl_bits (s mod 32) 0 a)) by (apply Forall_app; split; [apply limbs_replicate_0|done]).
  split; [split|]; [rewrite length_take, length_app, I2, La, length_replicate; lia|by apply Forall_take|].
  rewrite val_take, val_app, val_replicate_0, length_replicate, I3, (wf_bexp a Ha), Z.add_0_l by done.
  change (bexp WIDTH) with M. rewrite !Z.add_0_l, Zmult_mod_idemp_r. f_equal.
  rewrite (shift_split s) by done. fold k. lia.
Qed.

Lemma shr_spec a s : wf a -> 0 <= s -> wf (bu_shr a s) /\ val (bu_shr a s) = val a / 2 ^ s.
Proof.
  intros Ha Hs. pose proof (Z.mod_pos_bound s 32 ltac:(lia)) as Hm. unfold bu_shr. rewrite shr_loop_eq by done.
  set (k := Z.to_nat (s / 32)). destruct Ha as [La Hla].
  assert (Hd : limbs (drop k a)) by by apply Forall_drop.
  destruct (shr_bits_spec (s mod 32) _ Hm Hd) as (I1 & I2 & I3).
  split; [split|]; [|apply Forall_app; split; [done|apply limbs_replicate_0]|].
  - rewrite length_app, I2, length_drop, La, length_replicate. lia.
  - rewrite val_app, val_replicate_0, I3, val_drop, Z.mul_0_r, Z.add_0_r by done.
    pose proof (Z.pow_pos_nonneg 2 (s mod 32)). rewrite Z.div_div by (auto with gemlink || lia || (pose proof (bexp_pos k); lia)).
    by rewrite (shift_split s Hs).
Qed.

(** ** Division *)

Lemma lor_above n q s : n = Z.of_nat s -> (2 ^ (n + 1) | q) -> Z.lor q (2 ^ n) = q + 2 ^ n.
Proof.
  intros -> [z ->]. rewrite Z.lor_comm, lor_disjoint; [lia|lia|]. split; [lia|]. apply Z.pow_lt_mono_r; lia.
Qed.

(** At [shift + 1 = n]: [num] is below twice the shifted divisor, the
    quotient so far is a multiple of [2^n] and accounts for the rest. *)
Lemma div_loop_spec n : forall num div pn D, wf num -> wf div -> wf pn -> (n <= 256)%nat ->
  0 < D -> val div = (if decide (n = 0%nat) then D / 2 else D * 2 ^ (Z.of_nat n - 1)) ->
  val num < D * 2 ^ Z.of_nat n -> (2 ^ Z.of_nat n | val pn) ->
  wf (div_loop n num div pn) /\ val (div_loop n num div pn) = val pn + val num / D.
Proof.
  induction n as [|n IH]; intros num div pn D Wn Wd Wp Hn HD Hd Hlt Hdvd.
  { split; [done|]. cbn [div_loop]. rewrite Z.pow_0_r, Z.mul_1_r in Hlt. pose proof (wf_bound num Wn).
    rewrite Z.div_small by lia. lia. }
  cbn [div_loop]. destruct (decide (S n = 0%nat)); [done|].
  replace (Z.of_nat (S n) - 1) with (Z.of_nat n) in Hd by lia.
  rewrite Nat2Z.inj_succ, Z.pow_succ_r in * by lia. pose proof (Z.pow_pos_nonneg 2 (Z.of_nat n)).
  destruct (shr_spec div 1 Wd) as [Ws Vs]; [lia|]. change (2 ^ 1) with 2 in Vs.
  assert (Hs : val (bu_shr div 1) = if decide (n = 0%nat) then D / 2 else D * 2 ^ (Z.of_nat n - 1)).
  { rewrite Vs, Hd. destruct (decide (n = 0%nat)) as [->|]; [change (2 ^ Z.of_nat 0) with 1; by rewrite Z.mul_1_r|].
    replace (Z.of_nat n) with (Z.succ (Z.of_nat n - 1)) at 1 by lia. rewrite Z.pow_succ_r by lia.
    replace (D * (2 * 2 ^ (Z.of_nat n - 1))) with (D * 2 ^ (Z.of_nat n - 1) * 2) by lia. by rewrite Z.div_mul by lia. }
  rewrite ge_spec by done. pose proof (wf_bound num Wn). pose proof (wf_bound div Wd).
  destruct (Z.leb_spec (val div) (val num)).
  - destruct (sub_spec num div Wn Wd) as [Wsub Vsub]. rewrite Z.mod_small in Vsub by lia.
    destruct (or_at_spec (n / 32) (Z.shiftl 1 (Z.land (Z.of_nat n) 31)) pn) as [Wo Vo].
    { by destruct Wp. }
    { change 31 with (Z.ones 5). rewrite Z.land_ones, Z.shiftl_1_l by lia. change (2 ^ 5) with 32.
      pose proof (Z.mod_pos_bound (Z.of_nat n) 32). split; [apply Z.pow_nonneg; lia|apply Z.pow_lt_mono_r; lia]. }
    { destruct Wp as [-> _]. unfold WIDTH. apply Nat.Div0.div_lt_upper_bound. lia. }
    assert (Ho : val (or_at (n / 32) (Z.shiftl 1 (Z.land (Z.of_nat n) 31)) pn) = val pn + 2 ^ Z.of_nat n).
    { rewrite Vo. change 31 with (Z.ones 5). rewrite Z.land_ones, Z.shiftl_shiftl, Z.shiftl_1_l by (lia || (apply Z.mod_pos_bound; lia)).
      rewrite Nat2Z.inj_div. change (2 ^ 5) with 32. change (Z.of_nat 32) with 32.
      rewrite (Z.add_comm (Z.of_nat n mod _)), <- (Z.div_mod (Z.of_nat n) 32) by lia.
      apply (lor_above _ _ n); [done|]. by rewrite Z.add_1_r, Z.pow_succ_r by lia. }
    destruct (IH _ _ (or_at (n / 32) (Z.shiftl 1 (Z.land (Z.of_nat n) 31)) pn) D Wsub Ws) as [W V]; try done.
    + split; [unfold or_at; rewrite length_alter; by destruct Wp|done].
    + lia.
    + nia.
    + rewrite Ho. apply Z.divide_add_r; [|done]. eapply Z.divide_trans; [|done]. apply Z.divide_factor_r.
    + split; [done|]. rewrite V, Ho, Vsub, Hd.
      replace (val num - D * 2 ^ Z.of_nat n) with (val num + - 2 ^ Z.of_nat n * D) by lia. rewrite Z.div_add by lia. lia.
  - apply IH; try done; [lia|lia|]. eapply Z.divide_trans; [|done]. apply Z.divide_factor_r.
Qed.

Lemma div_spec a b : wf a -> wf b -> val b <> 0 ->
  exists q, bu_div a b = Ok q /\ wf q /\ val q = val a / val b.
Proof.
  intros Wa Wb Hb. pose proof (wf_bound a Wa). pose proof (wf_bound b Wb). unfold bu_div.
  destruct (bits_bounds a Wa) as (A1 & A2 & A3). destruct (bits_bounds b Wb) as (B1 & B2 & B3).
  specialize (B3 Hb) as [B3 B4]. destruct (Z.eqb_spec (bu_bits b) 0); [lia|].
  destruct (Z.ltb_spec (bu_bits a) (bu_bits b)).
  - exists bu_zero. split_and!; [done|apply wf_zero|]. rewrite val_zero. symmetry. apply Z.div_small.
    assert (2 ^ bu_bits a <= 2 ^ (bu_bits b - 1)) by (apply Z.pow_le_mono_r; lia). lia.
  - eexists. split; [done|]. set (s := bu_bits a - bu_bits b).
    assert (Ea : 2 ^ bu_bits a = 2 ^ s * 2 ^ bu_bits b) by (rewrite <- Z.pow_add_r by lia; f_equal; lia).
    assert (Eb : 2 ^ bu_bits b = 2 * 2 ^ (bu_bits b - 1)) by (rewrite <- Z.pow_succ_r by lia; f_equal; lia).
    assert (2 ^ bu_bits a <= M) by (apply Z.pow_le_mono_r; lia). pose proof (Z.pow_pos_nonneg 2 s).
    destruct (shl_spec b s Wb) as [Ws Vs]; [lia|]. rewrite Z.mod_small in Vs by nia.
    destruct (div_loop_spec (Z.to_nat (s + 1)) a (bu_shl b s) bu_zero (val b)) as [W V]; try done; try lia.
    + apply wf_zero.
    + destruct (decide (Z.to_nat (s + 1) = 0%nat)); [lia|]. rewrite Z2Nat.id by lia. by rewrite Z.add_simpl_r.
    + rewrite Z2Nat.id, Z.add_1_r, Z.pow_succ_r by lia. nia.
    + apply Z.divide_0_r.
Qed.

Lemma div_by_zero a b : wf b -> val b = 0 -> bu_div a b = Throw "Division by zero".
Proof. intros Wb Hb. unfold bu_div. by rewrite (bits_spec b), Hb by done. Qed.

Lemma not_spec a : wf a -> bu_not_b a = (val a =? 0).
Proof. intros [_ Ha]. by apply forallb_zero. Qed.

(** ** Blobs *)

Lemma ArithToUint256_spec a : wf a -> ArithToUint256 a = val a.
Proof.
  intros [_ Ha]. unfold ArithToUint256. induction Ha as [|x a Hx Ha IH]; [done|]. cbn [map concat val].
  rewrite le_val_app, length_le_bytes, IH, le_val_le_bytes_small by exact Hx. done.
Qed.

Lemma UintToArith256_spec h : 0 <= h < M -> wf (UintToArith256 h) /\ val (UintToArith256 h) = h.
Proof.
  intros Hh. assert (Hb : forall x, (x < WIDTH)%nat -> is_u32 (le_val (take 4 (drop (4 * x) (le_bytes 32 h))))).
  { intros x Hx. pose proof (le_val_bound (take 4 (drop (4 * x) (le_bytes 32 h)))) as Hv.
    rewrite length_take_le in Hv; [|rewrite length_drop, length_le_bytes; unfold WIDTH in Hx; lia].
    apply Hv. apply Forall_take, Forall_drop, le_bytes_bytes. }
  split; [split; [done|]|].
  { apply Forall_map, Forall_forall. intros x Hx%elem_of_seq. apply Hb. lia. }
  assert (Hl : length (le_bytes 32 h) = 32%nat) by apply length_le_bytes.
  transitivity (le_val (le_bytes 32 h)); [|by apply le_val_le_bytes_small].
  unfold UintToArith256, WIDTH. generalize dependent (le_bytes 32 h). intros l _ Hl. clear Hh.
  do 32 (destruct l as [|? l]; [done|]). destruct l; [|done]. cbn -[Z.mul Z.add Z.pow]. lia.
Qed.

(** ** Compact targets *)

Lemma compact_parts m e : 0 <= m < 2 ^ 24 -> 0 <= e ->
  Z.shiftr (m + e * 2 ^ 24) 24 = e /\ Z.land (m + e * 2 ^ 24) 0x007fffff = m mod 2 ^ 23
  /\ (Z.land (m + e * 2 ^ 24) 0x00800000 =? 0) = (m <? 2 ^ 23).
Proof.
  intros Hm He. split_and!.
  - rewrite Z.shiftr_div_pow2, Z.div_add, Z.div_small by lia. lia.
  - change 0x007fffff with (Z.ones 23). rewrite Z.land_ones by lia.
    replace (m + e * 2 ^ 24) with (m + e * 2 * 2 ^ 23) by lia. by rewrite Z.mod_add by lia.
  - change 0x00800000 with (2 ^ 23). assert (E : Z.testbit (m + e * 2 ^ 24) 23 = negb (m <? 2 ^ 23)).
    { rewrite Z.testbit_eqb by lia. replace (m + e * 2 ^ 24) with (m + e * 2 * 2 ^ 23) by lia. rewrite Z.div_add by lia.
      rewrite Z.add_mod, Z.mod_mul, Z.add_0_r, Z.mod_mod by lia. destruct (Z.ltb_spec m (2 ^ 23)) as [Hlt|Hge].
      - by rewrite Z.div_small by lia.
      - replace m with (m - 2 ^ 23 + 1 * 2 ^ 23) by lia. by rewrite Z.div_add, Z.div_small by lia. }
    destruct (m <? 2 ^ 23); cbn [negb] in E.
    + apply Z.eqb_eq, Z.bits_inj'. intros n Hn. rewrite Z.land_spec, Z.bits_0, Z.pow2_bits_eqb by lia.
      destruct (Z.eqb_spec 23 n) as [<-|]; [by rewrite E|apply andb_false_r].
    + apply Z.eqb_neq. intros Hl. apply (f_equal (fun z => Z.testbit z 23)) in Hl.
      rewrite Z.land_spec, E, Z.pow2_bits_true, Z.bits_0 in Hl by lia. done.
Qed.

Lemma u32_compact c : is_u32 c -> exists m e, c = m + e * 2 ^ 24 /\ 0 <= m < 2 ^ 24 /\ 0 <= e < 256.
Proof.
  intros Hc. exists (c mod 2 ^ 24), (c / 2 ^ 24). unfold is_u32 in Hc. pose proof (Z.div_mod c (2 ^ 24)).
  pose proof (Z.mod_pos_bound c (2 ^ 24)). lia.
Qed.

(** The number that mantissa [m] (below 2^23) and exponent [e] denote. *)
Definition compact_value (m e : Z) : Z := if e <=? 3 then m / 256 ^ (3 - e) else m * 256 ^ (e - 3).

Lemma SetCompact_spec m e : 0 <= m < 2 ^ 24 -> 0 <= e < 256 ->
  exists v, SetCompact (m + e * 2 ^ 24) = (v, negb (compact_value (m mod 2 ^ 23) e =? 0) && (2 ^ 23 <=? m),
                                           M <=? compact_value (m mod 2 ^ 23) e)
    /\ wf v /\ val v = compact_value (m mod 2 ^ 23) e mod M.
Proof.
  intros Hm He. destruct (compact_parts m e Hm) as (E1 & E2 & E3); [lia|]. unfold SetCompact. rewrite E1, E2, E3.
  clear E1 E2 E3. pose proof (Z.mod_pos_bound m (2 ^ 23) ltac:(lia)) as Hw. set (w := m mod 2 ^ 23) in *.
  assert (Hs : forall k, 0 <= k -> Z.shiftr w (8 * k) = w / 256 ^ k).
  { intros k Hk. by rewrite Z.shiftr_div_pow2, pow256_pow2 by lia. }
  rewrite <- Z.leb_antisym. unfold compact_value. destruct (Z.leb_spec e 3) as [He3|He3].
  - rewrite Hs by lia. pose proof (Z.pow_pos_nonneg 256 (3 - e)).
    assert (Hq : 0 <= w / 256 ^ (3 - e) < 2 ^ 23).
    { split; [apply Z.div_pos; lia|]. apply Z.div_lt_upper_bound; nia. }
    destruct (of_u64_spec (w / 256 ^ (3 - e))) as [W V]; [unfold is_u64; lia|].
    eexists. split; [|split; [exact W|by rewrite Z.mod_small by lia]]. f_equal.
    rewrite (proj2 (Z.leb_gt M _)) by lia. rewrite !(proj2 (Z.ltb_ge _ e)) by lia. by rewrite !andb_false_r.
  - destruct (of_u64_spec w) as [W V]; [unfold is_u64; lia|].
    destruct (shl_spec (bu_of_u64 w) (8 * (e - 3)) W) as [W' V']; [lia|]. rewrite V, <- pow256_pow2 in V' by lia.
    eexists. split; [|split; [exact W'|exact V']]. pose proof (Z.pow_pos_nonneg 256 (e - 3)).
    destruct (Z.eqb_spec w 0) as [->|Hw0].
    { rewrite Z.mul_0_l. reflexivity. }
    destruct (Z.eqb_spec (w * 256 ^ (e - 3)) 0); [nia|]. f_equal. cbn [negb andb].
    assert (Hmono : forall j, 0 <= j <= e - 3 -> 256 ^ j <= 256 ^ (e - 3)) by (intros; apply Z.pow_le_mono_r; lia).
    symmetry. destruct (Z.ltb_spec 34 e); [apply Z.leb_le; specialize (Hmono 32); change (256 ^ 32) with M in Hmono; nia|].
    destruct (Z.ltb_spec 33 e); [assert (e = 34) as -> by lia; clear Hmono|].
    { rewrite andb_true_r. change (256 ^ (34 - 3)) with (2 ^ 248). cbn [orb].
      destruct (Z.ltb_spec 0xff w), (Z.ltb_spec 0xffff w), (Z.leb_spec M (w * 2 ^ 248)); done || lia. }
    rewrite andb_false_r. cbn [orb]. destruct (Z.ltb_spec 32 e); [assert (e = 33) as -> by lia; clear Hmono|].
    { rewrite andb_true_r. change (256 ^ (33 - 3)) with (2 ^ 240).
      destruct (Z.ltb_spec 0xffff w), (Z.leb_spec M (w * 2 ^ 240)); done || lia. }
    rewrite andb_false_r. apply Z.leb_gt. assert (256 ^ (e - 3) <= 256 ^ 29) by (apply Z.pow_le_mono_r; lia).
    change (256 ^ 29) with (2 ^ 232) in *. nia.
Qed.

(** The size of a number in bytes, as [GetCompact] computes it from [bits]. *)
Lemma size_unique a s : wf a -> 1 <= s -> 256 ^ (s - 1) <= val a < 256 ^ s -> (bu_bits a + 7) / 8 = s.
Proof.
  intros Wa Hs [H1 H2]. pose proof (Z.pow_pos_nonneg 256 (s - 1)). destruct (bits_bounds a Wa) as (_ & B2 & B3).
  destruct B3 as [B3 B4]; [lia|]. rewrite !pow256_pow2 in * by lia.
  assert (bu_bits a - 1 < 8 * s) by (apply (Z.pow_lt_mono_r_iff 2); lia).
  assert (8 * (s - 1) < bu_bits a).
  { apply (Z.pow_lt_mono_r_iff 2); [lia|lia|]. by eapply Z.le_lt_trans. }
  symmetry. apply (Z.div_unique _ _ _ (bu_bits a + 7 - 8 * s)); lia.
Qed.

Lemma size_exists v : 0 < v < M -> exists s, 1 <= s <= 32 /\ 256 ^ (s - 1) <= v < 256 ^ s.
Proof.
  intros Hv. pose proof (Z.log2_spec v ltac:(lia)) as [L1 L2]. pose proof (Z.log2_nonneg v).
  assert (Z.log2 v < 256) by (apply Z.log2_lt_pow2; lia).
  pose proof (Z.div_mod (Z.log2 v) 8). pose proof (Z.mod_pos_bound (Z.log2 v) 8).
  exists (Z.log2 v / 8 + 1). rewrite Z.add_simpl_r, !pow256_pow2 by lia. split; [lia|]. split.
  - etransitivity; [|exact L1]. apply Z.pow_le_mono_r; lia.
  - eapply Z.lt_le_trans; [exact L2|]. apply Z.pow_le_mono_r; lia.
Qed.

(** The three most significant bytes of [v], for a value of [s] bytes. *)
Definition top3 (v s : Z) : Z := if s <=? 3 then v * 256 ^ (3 - s) else v / 256 ^ (s - 3).

Lemma top3_bound v s : 1 <= s -> 256 ^ (s - 1) <= v < 256 ^ s -> 2 ^ 16 <= top3 v s < 2 ^ 24.
Proof.
  intros Hs Hv. unfold top3. pose proof (Z.pow_pos_nonneg 256 (3 - s)). pose proof (Z.pow_pos_nonneg 256 (s - 3)).
  destruct (Z.leb_spec s 3).
  - change (2 ^ 16) with (256 ^ 2). change (2 ^ 24) with (256 ^ 3).
    assert (256 ^ 2 = 256 ^ (s - 1) * 256 ^ (3 - s)) by (rewrite <- Z.pow_add_r by lia; f_equal; lia).
    assert (256 ^ 3 = 256 ^ s * 256 ^ (3 - s)) by (rewrite <- Z.pow_add_r by lia; f_equal; lia). nia.
  - change (2 ^ 16) with (256 ^ 2). change (2 ^ 24) with (256 ^ 3). split.
    + apply Z.div_le_lower_bound; [lia|]. rewrite <- Z.pow_add_r by lia. replace (s - 3 + 2) with (s - 1) by lia. lia.
    + apply Z.div_lt_upper_bound; [lia|]. rewrite <- Z.pow_add_r by lia. replace (s - 3 + 3) with s by lia. lia.
Qed.

Lemma land_low m : 0 <= m < 2 ^ 23 -> (Z.land m (u32 (Z.lnot 0x007fffff)) =? 0) = true.
Proof.
  intros Hm. change (u32 (Z.lnot 0x007fffff)) with (511 * 2 ^ 23). apply Z.eqb_eq, Z.bits_inj'. intros n Hn.
  rewrite Z.land_spec, Z.bits_0. destruct (decide (n < 23)).
  - rewrite Z.mul_pow2_bits_low by lia. apply andb_false_r.
  - rewrite <- (Z.mod_small m (2 ^ 23)) by lia. by rewrite Z.mod_pow2_bits_high by lia.
Qed.

(** [GetCompact] of a value of [s] bytes: its three top bytes, or two when the
    top bit would be taken for the sign. *)
Lemma GetCompact_pos a s : wf a -> 1 <= s -> 256 ^ (s - 1) <= val a < 256 ^ s ->
  GetCompact a false = Ok (if top3 (val a) s <? 2 ^ 23 then top3 (val a) s + s * 2 ^ 24
                           else top3 (val a) s / 256 + (s + 1) * 2 ^ 24).
Proof.
  intros Wa Hs Hv. pose proof (top3_bound _ _ Hs Hv) as Ht. unfold GetCompact. rewrite (size_unique a s) by done.
  assert (Hs32 : s <= 32).
  { pose proof (wf_bound a Wa). change M with (256 ^ 32) in *. destruct (Z.le_gt_cases s 32) as [|Hgt]; [done|].
    assert (256 ^ 32 <= 256 ^ (s - 1)) by (apply Z.pow_le_mono_r; lia). lia. }
  replace (if s <=? 3 then _ else _) with (top3 (val a) s).
  2:{ unfold top3 in *. destruct (Z.leb_spec s 3).
      - rewrite GetLow64_spec, Z.shiftl_mul_pow2, <- pow256_pow2 by (done || lia).
        assert (256 ^ s <= 256 ^ 3) by (apply Z.pow_le_mono_r; lia).
        rewrite (Z.mod_small (val a)) by lia. by rewrite u32_small by (unfold is_u32; lia).
      - destruct (shr_spec a (8 * (s - 3)) Wa) as [W V]; [lia|].
        rewrite GetLow64_spec, V, <- pow256_pow2 by (done || lia).
        rewrite Z.mod_small by lia. by rewrite u32_small by (unfold is_u32; lia). }
  set (t := top3 (val a) s) in *.
  assert (E : (Z.land t 0x00800000 =? 0) = (t <? 2 ^ 23)).
  { destruct (compact_parts t 0) as (_ & _ & E); [lia..|]. by rewrite Z.mul_0_l, Z.add_0_r in E. }
  rewrite E. clear E.
  assert (Hfin : forall m e, 0 <= m < 2 ^ 23 -> 0 <= e < 256 ->
    Z.lor (Z.lor m (u32 (Z.shiftl e 24))) 0 = m + e * 2 ^ 24).
  { intros m e Hm He. rewrite Z.lor_0_r, Z.shiftl_mul_pow2, u32_small by (unfold is_u32; lia).
    apply lor_disjoint; lia. }
  cbn [andb]. destruct (Z.ltb_spec t (2 ^ 23)); cbn [negb].
  - rewrite land_low by lia. rewrite (proj2 (Z.ltb_lt s 256)) by lia. mstep. f_equal. apply Hfin; lia.
  - rewrite Z.shiftr_div_pow2 by lia. change (2 ^ 8) with 256.
    assert (0 <= t / 256 < 2 ^ 16) by (split; [apply Z.div_pos|apply Z.div_lt_upper_bound]; lia).
    rewrite land_low by lia. rewrite (proj2 (Z.ltb_lt (s + 1) 256)) by lia. mstep. f_equal. apply Hfin; lia.
Qed.

(** Mantissa and exponent that [GetCompact] produces. *)
Definition canonical (m e : Z) : Prop :=
  2 ^ 15 <= m < 2 ^ 23 /\ 1 <= e <= 33 /\ (e <= 3 -> (256 ^ (3 - e) | m)) /\ (m < 2 ^ 16 -> 2 <= e).

Lemma top3_inv t v s : 2 ^ 16 <= t < 2 ^ 24 -> 1 <= s ->
  (if s <=? 3 then v * 256 ^ (3 - s) = t else v = t * 256 ^ (s - 3)) ->
  256 ^ (s - 1) <= v < 256 ^ s /\ top3 v s = t.
Proof.
  intros Ht Hs. unfold top3. pose proof (Z.pow_pos_nonneg 256 (3 - s)). pose proof (Z.pow_pos_nonneg 256 (s - 3)).
  change (2 ^ 16) with (256 ^ 2) in Ht. change (2 ^ 24) with (256 ^ 3) in Ht. destruct (Z.leb_spec s 3); intros E.
  - split; [|done]. assert (256 ^ 2 = 256 ^ (s - 1) * 256 ^ (3 - s)) by (rewrite <- Z.pow_add_r by lia; f_equal; lia).
    assert (256 ^ 3 = 256 ^ s * 256 ^ (3 - s)) by (rewrite <- Z.pow_add_r by lia; f_equal; lia). nia.
  - subst v. split; [|apply Z.div_mul; lia].
    assert (256 ^ (s - 1) = 256 ^ 2 * 256 ^ (s - 3)) by (rewrite <- Z.pow_add_r by lia; f_equal; lia).
    assert (256 ^ s = 256 ^ 3 * 256 ^ (s - 3)) by (rewrite <- Z.pow_add_r by lia; f_equal; lia). nia.
Qed.

Lemma canonical_value m e v s : canonical m e -> v = compact_value m e ->
  s = (if m <? 2 ^ 16 then e - 1 else e) ->
  1 <= s /\ 256 ^ (s - 1) <= v < 256 ^ s /\ top3 v s = (if m <? 2 ^ 16 then m * 256 else m).
Proof.
  intros (Hm & He & Hdvd & Hlow) -> ->. assert (Hs : 1 <= (if m <? 2 ^ 16 then e - 1 else e)).
  { destruct (Z.ltb_spec m (2 ^ 16)) as [Hs|]; [specialize (Hlow Hs)|]; lia. }
  split; [done|]. apply top3_inv; [destruct (Z.ltb_spec m (2 ^ 16)); lia|done|]. clear Hs.
  assert (Hq : e <= 3 -> m / 256 ^ (3 - e) * 256 ^ (3 - e) = m).
  { intros He3. destruct (Hdvd He3) as [q ->]. rewrite Z.div_mul; [done|]. apply Z.pow_nonzero; lia. }
  unfold compact_value. destruct (Z.ltb_spec m (2 ^ 16)), (Z.leb_spec e 3); try (rewrite (proj2 (Z.leb_le _ 3)) by lia);
    [..|done].
  - rewrite <- (Hq ltac:(done)) at 2. replace (3 - (e - 1)) with (Z.succ (3 - e)) by lia. rewrite Z.pow_succ_r by lia. lia.
  - destruct (Z.leb_spec (e - 1) 3); [by assert (e = 4) as -> by lia; lia|].
    replace (e - 3) with (Z.succ (e - 1 - 3)) by lia. rewrite Z.pow_succ_r by lia. lia.
  - by apply Hq.
Qed.

Lemma GetCompact_canonical a m e : wf a -> canonical m e -> val a = compact_value m e ->
  GetCompact a false = Ok (m + e * 2 ^ 24).
Proof.
  intros Wa Hc Hv. destruct (canonical_value m e (val a) _ Hc Hv eq_refl) as (Hs & Hb & Ht).
  rewrite (GetCompact_pos _ _ Wa Hs Hb), Ht. destruct Hc as (Hm & _). f_equal. destruct (Z.ltb_spec m (2 ^ 16)).
  - rewrite (proj2 (Z.ltb_ge _ _)) by lia. rewrite Z.div_mul by lia. lia.
  - by rewrite (proj2 (Z.ltb_lt _ _)) by lia.
Qed.

(** The unit of the last place of an exponent. *)
Definition compact_unit (e : Z) : Z := 256 ^ Z.max 0 (e - 3).

(** Rounding a number down to the precision of its compact form. *)
Lemma compact_exists v : 0 < v < M ->
  exists m e, canonical m e /\ compact_value m e = v / compact_unit e * compact_unit e
    /\ forall a, wf a -> val a = v -> GetCompact a false = Ok (m + e * 2 ^ 24).
Proof.
  intros Hv. destruct (size_exists v Hv) as (s & Hs & Hb). pose proof (top3_bound v s ltac:(lia) Hb) as Ht.
  exists (if top3 v s <? 2 ^ 23 then top3 v s else top3 v s / 256), (if top3 v s <? 2 ^ 23 then s else s + 1).
  split_and!; [| |intros a Wa <-; rewrite (GetCompact_pos a s) by (done || lia); by destruct (_ <? _)];
    unfold canonical, compact_value, compact_unit; destruct (Z.ltb_spec (top3 v s) (2 ^ 23)).
  - split_and!; try lia. intros Hs3. unfold top3. rewrite (proj2 (Z.leb_le _ _)) by done. apply Z.divide_factor_r.
  - assert (2 ^ 15 <= top3 v s / 256 < 2 ^ 16) by (split; [apply Z.div_le_lower_bound|apply Z.div_lt_upper_bound]; lia).
    split_and!; try lia. intros Hs3. unfold top3. rewrite (proj2 (Z.leb_le _ _)) by lia.
    replace (3 - s) with (Z.succ (2 - s)) by lia. rewrite Z.pow_succ_r by lia.
    replace (v * (256 * 256 ^ (2 - s))) with (v * 256 ^ (2 - s) * 256) by lia. rewrite Z.div_mul by lia.
    replace (3 - (s + 1)) with (2 - s) by lia. apply Z.divide_factor_r.
  - unfold top3. destruct (Z.leb_spec s 3); [|by rewrite Z.max_r by lia].
    rewrite Z.max_l by lia. rewrite Z.div_mul by (apply Z.pow_nonzero; lia). by rewrite Z.div_1_r, Z.mul_1_r.
  - unfold top3. destruct (Z.leb_spec (s + 1) 3).
    + rewrite (proj2 (Z.leb_le s 3)), Z.max_l by lia. replace (3 - s) with (Z.succ (2 - s)) by lia.
      rewrite Z.pow_succ_r by lia. replace (v * (256 * 256 ^ (2 - s))) with (v * 256 ^ (2 - s) * 256) by lia.
      replace (3 - (s + 1)) with (2 - s) by lia. rewrite !Z.div_mul by (apply Z.pow_nonzero || idtac; lia).
      by rewrite Z.div_1_r, Z.mul_1_r.
    + rewrite Z.max_r by lia. destruct (Z.leb_spec s 3); [by assert (s = 3) as -> by lia; rewrite Z.pow_0_r, Z.mul_1_r|].
      rewrite Z.div_div by (lia || apply Z.pow_pos_nonneg; lia).
      replace (s + 1 - 3) with (Z.succ (s - 3)) by lia. rewrite Z.pow_succ_r by lia. by rewrite (Z.mul_comm 256).
Qed.

Lemma GetCompact_zero a : wf a -> val a = 0 -> GetCompact a false = Ok 0.
Proof. intros Wa Ha. unfold GetCompact. rewrite (bits_spec a), GetLow64_spec, Ha by done. done. Qed.

Lemma compact_target_wf c : is_u32 c -> wf (compact_target c).
Proof.
  intros (m & e & -> & Hm & He)%u32_compact. destruct (SetCompact_spec m e Hm He) as (v & E & Wv & _).
  unfold compact_target. by rewrite E.
Qed.

Lemma compact_unit_pos e : 0 < compact_unit e.
Proof. apply Z.pow_pos_nonneg; lia. Qed.

(** The compact form of a number and its value. *)
Lemma compact_ok (a : base_uint) (Ha : wf a) :
  exists c r, GetCompact a false = Ok c /\ is_u32 c
    /\ SetCompact c = (r, false, false) /\ wf r
    /\ val r = val a / compact_unit (Z.shiftr c 24) * compact_unit (Z.shiftr c 24)
    /\ (compact_unit (Z.shiftr c 24) = 1 \/ 2 ^ 15 * compact_unit (Z.shiftr c 24) <= val a)
    /\ GetCompact r false = Ok c.
Proof.
  pose proof (wf_bound a Ha) as Hb. destruct (decide (val a = 0)) as [E|E].
  { exists 0, bu_zero. split_and!; [by apply GetCompact_zero|unfold is_u32; lia|done|apply wf_zero|by rewrite E|by left|done]. }
  destruct (compact_exists (val a)) as (m & e & Hc & Hv & Hg); [lia|]. specialize (Hg a Ha eq_refl).
  pose proof Hc as (Hm & He & _ & _). destruct (SetCompact_spec m e) as (r & Er & Wr & Vr); [lia..|].
  rewrite (Z.mod_small m) in Er, Vr by lia. pose proof (compact_unit_pos e) as Hu.
  pose proof (Z.mul_div_le (val a) (compact_unit e) Hu). pose proof (Z.div_pos (val a) (compact_unit e)).
  rewrite Z.mod_small in Vr by lia.
  exists (m + e * 2 ^ 24), r. destruct (compact_parts m e) as (-> & _ & _); [lia..|].
  split_and!; [done|unfold is_u32; lia| |done|congruence| |].
  - rewrite Er, (proj2 (Z.leb_gt (2 ^ 23) m)), (proj2 (Z.leb_gt M _)), andb_false_r by lia. done.
  - unfold compact_unit. destruct (Z.le_gt_cases e 3); [left; by rewrite Z.max_l by lia|right].
    unfold compact_value, compact_unit in Hv. rewrite (proj2 (Z.leb_gt _ _)), Z.max_r in Hv by lia.
    unfold compact_unit in *. rewrite Z.max_r in * by lia. nia.
  - by apply GetCompact_canonical.
Qed.

(** [GetCompact] and [SetCompact] are inverse up to the precision of the
    compact form: every 256-bit number has a compact form (the assertions of
    [GetCompact] hold), reading it back raises neither flag and gives the
    number rounded down to a multiple of the unit of the exponent, with at
    least 15 bits of mantissa, and that number has the same compact form. *)
Theorem compact_roundtrip (a : base_uint) (Ha : wf a) :
  exists c r, GetCompact a false = Ok c /\ is_u32 c
    /\ SetCompact c = (r, false, false) /\ wf r
    /\ val r = val a / compact_unit (Z.shiftr c 24) * compact_unit (Z.shiftr c 24)
    /\ (compact_unit (Z.shiftr c 24) = 1 \/ 2 ^ 15 * compact_unit (Z.shiftr c 24) <= val a)
    /\ GetCompact r false = Ok c.
Proof. by apply compact_ok. Qed.

Lemma compact_roundtrip_witness :
  wf (UintToArith256 0x1234567890) /\ GetCompact (UintToArith256 0x1234567890) false = Ok 0x05123456
  /\ exists r, SetCompact 0x05123456 = (r, false, false) /\ val r = 0x1234560000.
Proof.
  assert (Hw : wf (UintToArith256 0x1234567890)) by (apply UintToArith256_spec; lia). split; [exact Hw|].
  destruct (compact_roundtrip _ Hw) as (c & r & H1 & _ & H2 & _ & H3 & _).
  assert (E : GetCompact (UintToArith256 0x1234567890) false = Ok 0x05123456) by (vm_compute; reflexivity).
  split; [exact E|]. rewrite E in H1. injection H1 as <-. exists r. split; [exact H2|].
  rewrite H3. vm_compute. reflexivity.
Defined.

(** (C37) [base_uint<256>] implements the integers modulo 2^256: every
    operation keeps eight 32-bit limbs and computes the corresponding integer
    operation on the numbers they spell, with carries and the shifted
    schoolbook division written out over limbs; division by zero, and only
    that, throws. *)
Theorem base_uint_refines (a b : base_uint) (Ha : wf a) (Hb : wf b) :
  (wf (bu_add a b) /\ val (bu_add a b) = (val a + val b) mod M)
  /\ (wf (bu_sub a b) /\ val (bu_sub a b) = (val a - val b) mod M)
  /\ (wf (bu_mul a b) /\ val (bu_mul a b) = (val a * val b) mod M)
  /\ (forall n, is_u32 n -> wf (bu_mul32 a n) /\ val (bu_mul32 a n) = (val a * n) mod M)
  /\ match bu_div a b with
     | Ok q => val b <> 0 /\ wf q /\ val q = val a / val b
     | Throw _ => val b = 0
     | Abort => False
     end
  /\ (forall s, 0 <= s -> wf (bu_shl a s) /\ val (bu_shl a s) = (val a * 2 ^ s) mod M)
  /\ (forall s, 0 <= s -> wf (bu_shr a s) /\ val (bu_shr a s) = val a / 2 ^ s)
  /\ (wf (bu_neg a) /\ val (bu_neg a) = (- val a) mod M)
  /\ (wf (bu_lnot a) /\ val (bu_lnot a) = M - 1 - val a)
  /\ (wf (bu_and a b) /\ val (bu_and a b) = Z.land (val a) (val b))
  /\ (wf (bu_or a b) /\ val (bu_or a b) = Z.lor (val a) (val b))
  /\ (wf (bu_xor a b) /\ val (bu_xor a b) = Z.lxor (val a) (val b))
  /\ CompareTo a b = match val a ?= val b with Lt => -1 | Eq => 0 | Gt => 1 end
  /\ bu_bits a = (if val a =? 0 then 0 else Z.log2 (val a) + 1)
  /\ GetLow64 a = val a mod 2 ^ 64
  /\ ArithToUint256 a = val a /\ UintToArith256 (ArithToUint256 a) = a.
Proof.
  split_and!; try (by apply add_spec) || (by apply sub_spec) || (by apply mul_spec) || (by apply neg_spec)
    || (by apply lnot_spec) || (by apply and_spec) || (by apply or_spec) || (by apply xor_spec).
  - intros n Hn. by apply mul32_spec.
  - destruct (decide (val b = 0)) as [E|E]; [by rewrite div_by_zero|].
    by destruct (div_spec a b Ha Hb E) as (q & -> & Wq & Vq).
  - intros s Hs. by apply shl_spec.
  - intros s Hs. by apply shr_spec.
  - by apply CompareTo_spec.
  - by apply bits_spec.
  - by apply GetLow64_spec.
  - by apply ArithToUint256_spec.
  - rewrite ArithToUint256_spec by done. destruct (UintToArith256_spec (val a) (wf_bound a Ha)) as [[Lw Hw] V].
    destruct Ha as [La Ha]. apply val_inj; [done|done|congruence|done].
Qed.

Lemma base_uint_refines_witness :
  wf (UintToArith256 (2 ^ 200 + 5)) /\ wf (UintToArith256 (2 ^ 100))
  /\ match bu_div (UintToArith256 (2 ^ 200 + 5)) (UintToArith256 (2 ^ 100)) with
     | Ok q => val q = 2 ^ 100 | _ => False end.
Proof.
  assert (Wa : wf (UintToArith256 (2 ^ 200 + 5))) by (apply UintToArith256_spec; lia).
  assert (Wb : wf (UintToArith256 (2 ^ 100))) by (apply UintToArith256_spec; lia).
  split; [exact Wa|]. split; [exact Wb|].
  destruct (base_uint_refines _ _ Wa Wb) as (_ & _ & _ & _ & H & _).
  destruct (bu_div _ _) as [q| |] eqn:E; [|vm_compute in H; discriminate H|exact H].
  destruct H as (_ & _ & ->). vm_compute. reflexivity.
Defined.
