(* ===== verification/Script.v ===== *)
(** * Scripts

    script/script.h and script/script.cpp: the opcodes, script numbers
    ([CScriptNum]), pushing data and numbers, reading operations ([GetOp2]),
    signature-operation counts and the script templates.  A script is its
    list of bytes; an iterator into it is the list of bytes that remain. *)
From S2P Require Import Prelude Transaction.
From stdpp Require Import prelude strings list.
#[local] Open Scope Z_scope.

Definition MAX_SCRIPT_ELEMENT_SIZE : Z := 520.
Definition LOCKTIME_THRESHOLD : Z := 500000000.

(** ** Opcodes *)

Definition OP_0 : Z := 0x00.
Definition OP_FALSE : Z := OP_0.
Definition OP_PUSHDATA1 : Z := 0x4c.
Definition OP_PUSHDATA2 : Z := 0x4d.
Definition OP_PUSHDATA4 : Z := 0x4e.
Definition OP_1NEGATE : Z := 0x4f.
Definition OP_RESERVED : Z := 0x50.
Definition OP_1 : Z := 0x51.
Definition OP_TRUE : Z := OP_1.
Definition OP_2 : Z := 0x52.
Definition OP_3 : Z := 0x53.
Definition OP_4 : Z := 0x54.
Definition OP_5 : Z := 0x55.
Definition OP_6 : Z := 0x56.
Definition OP_7 : Z := 0x57.
Definition OP_8 : Z := 0x58.
Definition OP_9 : Z := 0x59.
Definition OP_10 : Z := 0x5a.
Definition OP_11 : Z := 0x5b.
Definition OP_12 : Z := 0x5c.
Definition OP_13 : Z := 0x5d.
Definition OP_14 : Z := 0x5e.
Definition OP_15 : Z := 0x5f.
Definition OP_16 : Z := 0x60.
Definition OP_NOP : Z := 0x61.
Definition OP_VER : Z := 0x62.
Definition OP_IF : Z := 0x63.
Definition OP_NOTIF : Z := 0x64.
Definition OP_VERIF : Z := 0x65.
Definition OP_VERNOTIF : Z := 0x66.
Definition OP_ELSE : Z := 0x67.
Definition OP_ENDIF : Z := 0x68.
Definition OP_VERIFY : Z := 0x69.
Definition OP_TOALTSTACK : Z := 0x6b.
Definition OP_FROMALTSTACK : Z := 0x6c.
Definition OP_2DROP : Z := 0x6d.
Definition OP_2DUP : Z := 0x6e.
Definition OP_3DUP : Z := 0x6f.
Definition OP_2OVER : Z := 0x70.
Definition OP_2ROT : Z := 0x71.
Definition OP_2SWAP : Z := 0x72.
Definition OP_IFDUP : Z := 0x73.
Definition OP_DEPTH : Z := 0x74.
Definition OP_DROP : Z := 0x75.
Definition OP_DUP : Z := 0x76.
Definition OP_NIP : Z := 0x77.
Definition OP_OVER : Z := 0x78.
Definition OP_PICK : Z := 0x79.
Definition OP_ROLL : Z := 0x7a.
Definition OP_ROT : Z := 0x7b.
Definition OP_SWAP : Z := 0x7c.
Definition OP_TUCK : Z := 0x7d.
Definition OP_CAT : Z := 0x7e.
Definition OP_SUBSTR : Z := 0x7f.
Definition OP_LEFT : Z := 0x80.
Definition OP_RIGHT : Z := 0x81.
Definition OP_SIZE : Z := 0x82.
Definition OP_INVERT : Z := 0x83.
Definition OP_AND : Z := 0x84.
Definition OP_OR : Z := 0x85.
Definition OP_XOR : Z := 0x86.
Definition OP_EQUAL : Z := 0x87.
Definition OP_EQUALVERIFY : Z := 0x88.
Definition OP_RESERVED1 : Z := 0x89.
Definition OP_RESERVED2 : Z := 0x8a.
Definition OP_1ADD : Z := 0x8b.
Definition OP_1SUB : Z := 0x8c.
Definition OP_2MUL : Z := 0x8d.
Definition OP_2DIV : Z := 0x8e.
Definition OP_NEGATE : Z := 0x8f.
Definition OP_ABS : Z := 0x90.
Definition OP_NOT : Z := 0x91.
Definition OP_0NOTEQUAL : Z := 0x92.
Definition OP_ADD : Z := 0x93.
Definition OP_SUB : Z := 0x94.
Definition OP_MUL : Z := 0x95.
Definition OP_DIV : Z := 0x96.
Definition OP_MOD : Z := 0x97.
Definition OP_LSHIFT : Z := 0x98.
Definition OP_RSHIFT : Z := 0x99.
Definition OP_BOOLAND : Z := 0x9a.
Definition OP_BOOLOR : Z := 0x9b.
Definition OP_NUMEQUAL : Z := 0x9c.
Definition OP_NUMEQUALVERIFY : Z := 0x9d.
Definition OP_NUMNOTEQUAL : Z := 0x9e.
Definition OP_LESSTHAN : Z := 0x9f.
Definition OP_GREATERTHAN : Z := 0xa0.
Definition OP_LESSTHANOREQUAL : Z := 0xa1.
Definition OP_GREATERTHANOREQUAL : Z := 0xa2.
Definition OP_MIN : Z := 0xa3.
Definition OP_MAX : Z := 0xa4.
Definition OP_WITHIN : Z := 0xa5.
Definition OP_RIPEMD160 : Z := 0xa6.
Definition OP_SHA1 : Z := 0xa7.
Definition OP_SHA256 : Z := 0xa8.
Definition OP_HASH160 : Z := 0xa9.
Definition OP_HASH256 : Z := 0xaa.
Definition OP_CODESEPARATOR : Z := 0xab.
Definition OP_CHECKSIG : Z := 0xac.
Definition OP_CHECKSIGVERIFY : Z := 0xad.
Definition OP_CHECKMULTISIG : Z := 0xae.
Definition OP_CHECKMULTISIGVERIFY : Z := 0xaf.
Definition OP_NOP1 : Z := 0xb0.
Definition OP_NOP2 : Z := 0xb1.
Definition OP_CHECKLOCKTIMEVERIFY : Z := OP_NOP2.
Definition OP_NOP3 : Z := 0xb2.
Definition OP_NOP4 : Z := 0xb3.
Definition OP_NOP5 : Z := 0xb4.
Definition OP_NOP6 : Z := 0xb5.
Definition OP_NOP7 : Z := 0xb6.
Definition OP_NOP8 : Z := 0xb7.
Definition OP_NOP9 : Z := 0xb8.
Definition OP_NOP10 : Z := 0xb9.
Definition OP_INVALIDOPCODE : Z := 0xff.

Definition opcode_names : list (Z * string) :=
  [(OP_0, "0"); (OP_PUSHDATA1, "OP_PUSHDATA1"); (OP_PUSHDATA2, "OP_PUSHDATA2"); (OP_PUSHDATA4, "OP_PUSHDATA4");
   (OP_1NEGATE, "-1"); (OP_RESERVED, "OP_RESERVED"); (OP_1, "1"); (OP_2, "2");
   (OP_3, "3"); (OP_4, "4"); (OP_5, "5"); (OP_6, "6");
   (OP_7, "7"); (OP_8, "8"); (OP_9, "9"); (OP_10, "10");
   (OP_11, "11"); (OP_12, "12"); (OP_13, "13"); (OP_14, "14");
   (OP_15, "15"); (OP_16, "16"); (OP_NOP, "OP_NOP"); (OP_VER, "OP_VER");
   (OP_IF, "OP_IF"); (OP_NOTIF, "OP_NOTIF"); (OP_VERIF, "OP_VERIF"); (OP_VERNOTIF, "OP_VERNOTIF");
   (OP_ELSE, "OP_ELSE"); (OP_ENDIF, "OP_ENDIF"); (OP_VERIFY, "OP_VERIFY"); (OP_RETURN, "OP_RETURN");
   (OP_TOALTSTACK, "OP_TOALTSTACK"); (OP_FROMALTSTACK, "OP_FROMALTSTACK"); (OP_2DROP, "OP_2DROP"); (OP_2DUP, "OP_2DUP");
   (OP_3DUP, "OP_3DUP"); (OP_2OVER, "OP_2OVER"); (OP_2ROT, "OP_2ROT"); (OP_2SWAP, "OP_2SWAP");
   (OP_IFDUP, "OP_IFDUP"); (OP_DEPTH, "OP_DEPTH"); (OP_DROP, "OP_DROP"); (OP_DUP, "OP_DUP");
   (OP_NIP, "OP_NIP"); (OP_OVER, "OP_OVER"); (OP_PICK, "OP_PICK"); (OP_ROLL, "OP_ROLL");
   (OP_ROT, "OP_ROT"); (OP_SWAP, "OP_SWAP"); (OP_TUCK, "OP_TUCK"); (OP_CAT, "OP_CAT");
   (OP_SUBSTR, "OP_SUBSTR"); (OP_LEFT, "OP_LEFT"); (OP_RIGHT, "OP_RIGHT"); (OP_SIZE, "OP_SIZE");
   (OP_INVERT, "OP_INVERT"); (OP_AND, "OP_AND"); (OP_OR, "OP_OR"); (OP_XOR, "OP_XOR");
   (OP_EQUAL, "OP_EQUAL"); (OP_EQUALVERIFY, "OP_EQUALVERIFY"); (OP_RESERVED1, "OP_RESERVED1"); (OP_RESERVED2, "OP_RESERVED2");
   (OP_1ADD, "OP_1ADD"); (OP_1SUB, "OP_1SUB"); (OP_2MUL, "OP_2MUL"); (OP_2DIV, "OP_2DIV");
   (OP_NEGATE, "OP_NEGATE"); (OP_ABS, "OP_ABS"); (OP_NOT, "OP_NOT"); (OP_0NOTEQUAL, "OP_0NOTEQUAL");
   (OP_ADD, "OP_ADD"); (OP_SUB, "OP_SUB"); (OP_MUL, "OP_MUL"); (OP_DIV, "OP_DIV");
   (OP_MOD, "OP_MOD"); (OP_LSHIFT, "OP_LSHIFT"); (OP_RSHIFT, "OP_RSHIFT"); (OP_BOOLAND, "OP_BOOLAND");
   (OP_BOOLOR, "OP_BOOLOR"); (OP_NUMEQUAL, "OP_NUMEQUAL"); (OP_NUMEQUALVERIFY, "OP_NUMEQUALVERIFY"); (OP_NUMNOTEQUAL, "OP_NUMNOTEQUAL");
   (OP_LESSTHAN, "OP_LESSTHAN"); (OP_GREATERTHAN, "OP_GREATERTHAN"); (OP_LESSTHANOREQUAL, "OP_LESSTHANOREQUAL"); (OP_GREATERTHANOREQUAL, "OP_GREATERTHANOREQUAL");
   (OP_MIN, "OP_MIN"); (OP_MAX, "OP_MAX"); (OP_WITHIN, "OP_WITHIN"); (OP_RIPEMD160, "OP_RIPEMD160");
   (OP_SHA1, "OP_SHA1"); (OP_SHA256, "OP_SHA256"); (OP_HASH160, "OP_HASH160"); (OP_HASH256, "OP_HASH256");
   (OP_CODESEPARATOR, "OP_CODESEPARATOR"); (OP_CHECKSIG, "OP_CHECKSIG"); (OP_CHECKSIGVERIFY, "OP_CHECKSIGVERIFY"); (OP_CHECKMULTISIG, "OP_CHECKMULTISIG");
   (OP_CHECKMULTISIGVERIFY, "OP_CHECKMULTISIGVERIFY"); (OP_NOP1, "OP_NOP1"); (OP_NOP2, "OP_NOP2"); (OP_NOP3, "OP_NOP3");
   (OP_NOP4, "OP_NOP4"); (OP_NOP5, "OP_NOP5"); (OP_NOP6, "OP_NOP6"); (OP_NOP7, "OP_NOP7");
   (OP_NOP8, "OP_NOP8"); (OP_NOP9, "OP_NOP9"); (OP_NOP10, "OP_NOP10"); (OP_INVALIDOPCODE, "OP_INVALIDOPCODE")].

Definition GetOpName (opcode : Z) : string :=
  match list_find (fun p => p.1 = opcode) opcode_names with
  | Some (_, (_, name)) => name
  | None => "OP_UNKNOWN"
  end.

(** ** Script numbers *)

Definition INT64_MIN : Z := - 2 ^ 63.
Definition INT64_MAX : Z := 2 ^ 63 - 1.

(** The byte string that stands for [INT64_MIN]. *)
Definition int64_min_vch : bytes := [0; 0; 0; 0; 0; 0; 0; 128; 128].

(** [while (absvalue)]: an unsigned 64-bit value is exhausted by 8 rounds. *)
Fixpoint push_abs (fuel : nat) (absvalue : Z) : bytes :=
  match fuel with
  | O => []
  | S f => if absvalue =? 0 then [] else Z.land absvalue 0xff :: push_abs f (Z.shiftr absvalue 8)
  end.

(** Replace the last byte of a non-empty vector. *)
Definition set_back (l : bytes) (b : Z) : bytes := take (length l - 1) l ++ [b].

Definition CScriptNum_serialize (value : Z) : bytes :=
  if value =? 0 then []
  else if value =? INT64_MIN then int64_min_vch
  else
    let neg := value <? 0 in
    let absvalue := u64 (if neg then - value else value) in
    let result := push_abs 8 absvalue in
    let back := default 0 (last result) in
    if negb (Z.land back 0x80 =? 0) then result ++ [if neg then 0x80 else 0]
    else if neg then set_back result (Z.lor back 0x80)
    else result.

Fixpoint or_bytes (vch : bytes) (i : Z) (result : Z) : Z :=
  match vch with
  | [] => result
  | b :: vch' => or_bytes vch' (i + 1) (i64 (Z.lor result (i64 (Z.shiftl b (8 * i)))))
  end.

Definition CScriptNum_set_vch (vch : bytes) : result Z :=
  if bool_decide (vch = []) then Ok 0
  else if bool_decide (vch = int64_min_vch) then Ok INT64_MIN
  else if 8 <? Z.of_nat (length vch) then Throw "script number overflow"
  else
    let result := or_bytes vch 0 0 in
    if negb (Z.land (default 0 (last vch)) 0x80 =? 0)
    then Ok (i64 (- i64 (Z.land (u64 result)
                 (u64 (Z.lnot (u64 (Z.shiftl 0x80 (8 * (Z.of_nat (length vch) - 1)))))))))
    else Ok result.

Definition nDefaultMaxNumSize : Z := 4.

(** [CScriptNum(vch, fRequireMinimal, nMaxNumSize)]. *)
Definition CScriptNum_of_vch (vch : bytes) (fRequireMinimal : bool) (nMaxNumSize : Z) : result Z :=
  if nMaxNumSize <? Z.of_nat (length vch) then Throw "script number overflow"
  else if fRequireMinimal && (0 <? Z.of_nat (length vch))
          && (Z.land (default 0 (last vch)) 0x7f =? 0)
          && ((Z.of_nat (length vch) <=? 1)
              || (Z.land (default 0 (vch !! (length vch - 2)%nat)) 0x80 =? 0))
  then Throw "non-minimally encoded script number"
  else CScriptNum_set_vch vch.

Definition scriptnum_add (a rhs : Z) : result Z :=
  _ ← assert_true ((rhs =? 0) || ((0 <? rhs) && (a <=? INT64_MAX - rhs))
                   || ((rhs <? 0) && (INT64_MIN - rhs <=? a)));
  Ok (a + rhs).

Definition scriptnum_sub (a rhs : Z) : result Z :=
  _ ← assert_true ((rhs =? 0) || ((0 <? rhs) && (INT64_MIN + rhs <=? a))
                   || ((rhs <? 0) && (a <=? INT64_MAX + rhs)));
  Ok (a - rhs).

Definition scriptnum_neg (a : Z) : result Z :=
  _ ← assert_true (negb (a =? INT64_MIN)); Ok (- a).

Definition scriptnum_getint (a : Z) : Z :=
  if 2 ^ 31 - 1 <? a then 2 ^ 31 - 1 else if a <? - 2 ^ 31 then - 2 ^ 31 else a.

(** ** Building scripts *)

(** [operator<<(const std::vector<unsigned char>&)]. *)
Definition CScript_push_data (s b : bytes) : CScript :=
  let n := Z.of_nat (length b) in
  s ++ (if n <? OP_PUSHDATA1 then [u8 n]
        else if n <=? 0xff then [OP_PUSHDATA1; u8 n]
        else if n <=? 0xffff then OP_PUSHDATA2 :: le_bytes 2 n
        else OP_PUSHDATA4 :: le_bytes 4 n) ++ b.

(** [push_int64]. *)
Definition CScript_push_int64 (s : CScript) (n : Z) : CScript :=
  if (n =? -1) || ((1 <=? n) && (n <=? 16)) then s ++ [u8 (n + (OP_1 - 1))]
  else if n =? 0 then s ++ [OP_0]
  else CScript_push_data s (CScriptNum_serialize n).

Definition CScript_push_opcode (s : CScript) (opcode : Z) : result CScript :=
  if (opcode <? 0) || (0xff <? opcode) then Throw "CScript::operator<<(): invalid opcode"
  else Ok (s ++ [opcode]).

(** ** Reading scripts *)

(** The results of [GetOp2]: the returned flag, [opcodeRet], [*pvchRet] and
    the iterator. *)
Record GetOpResult := mkGetOp { go_ret : bool; go_opcode : Z; go_vch : bytes; go_pc : bytes }.

(** The operand of [nSize] bytes at [pc]. *)
Definition GetOp2_operand (opcode nSize : Z) (pc : bytes) : GetOpResult :=
  if u32 (Z.of_nat (length pc)) <? nSize then mkGetOp false OP_INVALIDOPCODE [] pc
  else mkGetOp true opcode (take (Z.to_nat nSize) pc) (drop (Z.to_nat nSize) pc).

(** [k] length bytes, little-endian. *)
Definition GetOp2_sized (opcode : Z) (k : nat) (pc : bytes) : GetOpResult :=
  if Z.of_nat (length pc) <? Z.of_nat k then mkGetOp false OP_INVALIDOPCODE [] pc
  else GetOp2_operand opcode (le_val (take k pc)) (drop k pc).

Definition GetOp2 (pc : bytes) : GetOpResult :=
  match pc with
  | [] => mkGetOp false OP_INVALIDOPCODE [] []
  | opcode :: pc =>
      if opcode <=? OP_PUSHDATA4 then
        if opcode <? OP_PUSHDATA1 then GetOp2_operand opcode opcode pc
        else if opcode =? OP_PUSHDATA1 then GetOp2_sized opcode 1 pc
        else if opcode =? OP_PUSHDATA2 then GetOp2_sized opcode 2 pc
        else GetOp2_sized opcode 4 pc
      else mkGetOp true opcode [] pc
  end.

Definition DecodeOP_N (opcode : Z) : result Z :=
  if opcode =? OP_0 then Ok 0
  else _ ← assert_true ((OP_1 <=? opcode) && (opcode <=? OP_16)); Ok (opcode - (OP_1 - 1)).

Definition EncodeOP_N (n : Z) : result Z :=
  _ ← assert_true ((0 <=? n) && (n <=? 16));
  Ok (if n =? 0 then OP_0 else OP_1 + n - 1).

(** A [while (pc < end())] loop that reads one operation per round, with the
    length of the script as bound on the rounds. *)
Fixpoint sigops_loop (fuel : nat) (fAccurate : bool) (pc : bytes) (lastOpcode n : Z) : Z :=
  match fuel with
  | O => n
  | S f =>
      match pc with
      | [] => n
      | _ =>
          let r := GetOp2 pc in
          if go_ret r then
            let opcode := go_opcode r in
            let n' :=
              if (opcode =? OP_CHECKSIG) || (opcode =? OP_CHECKSIGVERIFY) then u32 (n + 1)
              else if (opcode =? OP_CHECKMULTISIG) || (opcode =? OP_CHECKMULTISIGVERIFY) then
                if fAccurate && (OP_1 <=? lastOpcode) && (lastOpcode <=? OP_16)
                then u32 (n + (lastOpcode - (OP_1 - 1)))
                else u32 (n + 20)
              else n in
            sigops_loop f fAccurate (go_pc r) opcode n'
          else n
      end
  end.

Definition CScript_GetSigOpCount (s : CScript) (fAccurate : bool) : Z :=
  sigops_loop (length s) fAccurate s OP_INVALIDOPCODE 0.

(** [IsPayToScriptHash] and [IsPayToPublicKeyHash]. *)
Definition byte_at (s : CScript) (i : nat) : Z := default 0 (s !! i).

Definition CScript_IsPayToPublicKeyHash (s : CScript) : bool :=
  bool_decide (length s = 25%nat) && (byte_at s 0 =? OP_DUP) && (byte_at s 1 =? OP_HASH160)
  && (byte_at s 2 =? 0x14) && (byte_at s 23 =? OP_EQUALVERIFY) && (byte_at s 24 =? OP_CHECKSIG).

Definition CScript_IsPayToScriptHash (s : CScript) : bool :=
  bool_decide (length s = 23%nat) && (byte_at s 0 =? OP_HASH160) && (byte_at s 1 =? 0x14)
  && (byte_at s 22 =? OP_EQUAL).

(** The last data pushed by [scriptSig], when it is all pushes. *)
Fixpoint last_push_loop (fuel : nat) (pc data : bytes) : option bytes :=
  match fuel with
  | O => Some data
  | S f =>
      match pc with
      | [] => Some data
      | _ =>
          let r := GetOp2 pc in
          if negb (go_ret r) then None
          else if OP_16 <? go_opcode r then None
          else last_push_loop f (go_pc r) (go_vch r)
      end
  end.

Definition CScript_GetSigOpCount_P2SH (s scriptSig : CScript) : Z :=
  if negb (CScript_IsPayToScriptHash s) then CScript_GetSigOpCount s true
  else match last_push_loop (length scriptSig) scriptSig [] with
       | None => 0
       | Some data => CScript_GetSigOpCount data true
       end.

(** [IsNormalPaymentScript]: the result of [GetOp] is ignored. *)
Fixpoint normal_loop (fuel : nat) (i : Z) (pc : bytes) : bool :=
  match fuel with
  | O => true
  | S f =>
      match pc with
      | [] => true
      | _ =>
          let r := GetOp2 pc in
          let opcode := go_opcode r in
          if (i =? 0) && negb (opcode =? OP_DUP) then false
          else if (i =? 1) && negb (opcode =? OP_HASH160) then false
          else if (i =? 3) && negb (opcode =? OP_EQUALVERIFY) then false
          else if (i =? 4) && negb (opcode =? OP_CHECKSIG) then false
          else if i =? 5 then false
          else normal_loop f (i + 1) (go_pc r)
      end
  end.

Definition CScript_IsNormalPaymentScript (s : CScript) : bool :=
  if bool_decide (length s <> 25%nat) then false else normal_loop (length s) 0 s.

Fixpoint push_only_loop (fuel : nat) (pc : bytes) : bool :=
  match fuel with
  | O => true
  | S f =>
      match pc with
      | [] => true
      | _ =>
          let r := GetOp2 pc in
          if negb (go_ret r) then false
          else if OP_16 <? go_opcode r then false
          else push_only_loop f (go_pc r)
      end
  end.

Definition CScript_IsPushOnly (s : CScript) : bool := push_only_loop (length s) s.

Inductive ScriptType := UNKNOWN | P2PKH | P2SH.

Definition CScript_GetType (s : CScript) : ScriptType :=
  if CScript_IsPayToPublicKeyHash s then P2PKH
  else if CScript_IsPayToScriptHash s then P2SH
  else UNKNOWN.

Definition CScript_AddressHash (s : CScript) : bytes :=
  if CScript_IsPayToPublicKeyHash s then take 20 (drop 3 s)
  else if CScript_IsPayToScriptHash s then take 20 (drop 2 s)
  else replicate 20 0.

(** ** Script numbers: lemmas *)

Lemma land_80 b : is_u8 b -> (Z.land b 0x80 =? 0) = (b <? 128).
Proof. intros Hb. apply eqb_prop. revert b Hb. apply byte_cases. vm_compute. done. Qed.

Lemma land_7f b : is_u8 b -> Z.land b 0x7f = b mod 128.
Proof. intros _. by apply (Z.land_ones b 7). Qed.

Lemma land_ff v : Z.land v 0xff = v mod 256.
Proof. by apply (Z.land_ones v 8). Qed.

Lemma lor_80 b : 0 <= b < 128 -> Z.lor b 0x80 = b + 128.
Proof. intros Hb. apply (lor_disjoint 7 b 1); lia. Qed.

(** The magnitude bytes: least significant first, no zero byte at the back. *)
Lemma push_abs_spec fuel : forall v, 0 <= v < 256 ^ Z.of_nat fuel ->
  is_bytes (push_abs fuel v) /\ le_val (push_abs fuel v) = v
  /\ (length (push_abs fuel v) <= fuel)%nat /\ (v <> 0 -> default 0 (last (push_abs fuel v)) <> 0).
Proof.
  induction fuel as [|fuel IH]; intros v Hv.
  - simpl in *. split_and!; [constructor|lia|lia|lia].
  - cbn [push_abs]. destruct (Z.eqb_spec v 0) as [->|Hn].
    { simpl. split_and!; [constructor|lia|lia|lia]. }
    rewrite pow256_S in Hv. rewrite land_ff, Z.shiftr_div_pow2 by lia. change (2 ^ 8) with 256.
    destruct (IH (v / 256)) as (H1 & H2 & H3 & H4); [split; [apply Z.div_pos; lia|apply Z.div_lt_upper_bound; lia]|].
    pose proof (Z.div_mod v 256). pose proof (Z.mod_pos_bound v 256).
    split_and!; [constructor; [split; change (2 ^ 8) with 256; lia|done]|cbn [le_val]; lia|simpl; lia|].
    intros _. destruct (push_abs fuel (v / 256)) as [|b l] eqn:E.
    + simpl in *. lia.
    + rewrite last_cons_cons. apply H4. intros Ez. rewrite Ez in E.
      destruct fuel; simpl in E; done.
Qed.

(** Digits are unique. *)
Lemma push_abs_le_val m : forall fuel, is_bytes m -> (length m <= fuel)%nat -> default 1 (last m) <> 0 ->
  push_abs fuel (le_val m) = m.
Proof.
  induction m as [|b m IH]; intros fuel Hm Hf Hl.
  - by destruct fuel.
  - destruct fuel as [|fuel]; [simpl in Hf; lia|]. inversion Hm as [|? ? Hb Hm']; subst.
    unfold is_u8 in Hb. change (2 ^ 8) with 256 in Hb.
    pose proof (le_val_bound m Hm') as Hv. cbn [push_abs le_val].
    rewrite land_ff, Z.shiftr_div_pow2 by lia. change (2 ^ 8) with 256.
    rewrite (Z.mul_comm 256), Z.mod_add, Z.div_add, (Z.div_small b), (Z.mod_small b) by lia. simpl Z.add.
    rewrite IH; [|done|simpl in Hf; lia|destruct m; [done|by rewrite last_cons_cons in Hl]].
    destruct (Z.eqb_spec (b + le_val m * 256) 0) as [E|E]; [|done].
    assert (b = 0 /\ le_val m = 0) as [-> Em] by lia.
    destruct m as [|c m]; [done|]. rewrite last_cons_cons in Hl. exfalso.
    destruct (snoc_inv (c :: m)) as (m0 & d & Ed); [done|]. rewrite Ed in *.
    rewrite last_snoc in Hl. rewrite le_val_app in Em. simpl in Em, Hl.
    apply Forall_app in Hm' as [Hm0 Hd]. inversion Hd as [|? ? Hd' _]; subst. unfold is_u8 in Hd'.
    pose proof (le_val_bound m0 Hm0). pose proof (pow256_pos (length m0)). nia.
Qed.

Lemma or_bytes_spec vch : forall i r, is_bytes vch -> 0 <= i -> i + Z.of_nat (length vch) <= 8 ->
  0 <= r < 256 ^ i -> (vch <> [] \/ i <= 7) -> or_bytes vch i r = i64 (r + 256 ^ i * le_val vch).
Proof.
  induction vch as [|b vch IH]; intros i r Hb Hi Hl Hr Hn; cbn [or_bytes le_val].
  - rewrite Z.mul_0_r, Z.add_0_r, i64_small; [done|]. unfold is_i64.
    assert (256 ^ i <= 256 ^ 7) by (apply Z.pow_le_mono_r; destruct Hn; done || lia). lia.
  - inversion Hb as [|? ? Hb0 Hb']; subst. unfold is_u8 in Hb0. change (2 ^ 8) with 256 in Hb0.
    cbn [length] in Hl. rewrite Z.shiftl_mul_pow2, <- pow256_pow2 by lia.
    assert (Hp : 0 < 256 ^ i) by (apply Z.pow_pos_nonneg; lia).
    assert (Hps : 256 ^ (i + 1) = 256 * 256 ^ i) by (rewrite Z.add_1_r; apply Z.pow_succ_r; lia).
    destruct (decide (i = 7)) as [->|Hi7].
    + destruct vch; [|simpl in Hl; lia]. cbn [or_bytes le_val]. rewrite Z.mul_0_r, Z.add_0_r.
      assert (exists x, i64 (b * 256 ^ 7) = x * 256 ^ 7 /\ (x = b \/ x = b - 256)) as (x & -> & Hx).
      { destruct (decide (b < 128)); [exists b|exists (b - 256)]; (split; [|lia]).
        - apply i64_small. unfold is_i64. lia.
        - unfold i64. replace (b * 256 ^ 7 + 2 ^ 63) with (b * 256 ^ 7 - 2 ^ 63 + 1 * 2 ^ 64) by lia.
          rewrite Z.mod_add, Z.mod_small by lia. lia. }
      change (256 ^ 7) with (2 ^ 56) in *. rewrite lor_disjoint by lia. destruct Hx as [->| ->]; [f_equal; lia|].
      unfold i64. replace (r + (b - 256) * 2 ^ 56 + 2 ^ 63) with (r + 2 ^ 56 * b + 2 ^ 63 + (-1) * 2 ^ 64) by lia.
      by rewrite Z.mod_add by lia.
    + assert (256 ^ (i + 1) <= 256 ^ 7) by (apply Z.pow_le_mono_r; lia).
      rewrite (i64_small (b * 256 ^ i)) by (unfold is_i64; nia).
      rewrite (pow256_pow2 i) in * by lia. rewrite lor_disjoint by lia.
      rewrite i64_small by (unfold is_i64; nia). rewrite IH; [|done|lia|lia| |lia].
      * rewrite Hps. f_equal. ring.
      * rewrite Hps. nia.
Qed.

(** The number a non-empty vector spells: sign bit and magnitude. *)
Definition sm_val (l0 : bytes) (b : Z) : Z :=
  let mag := le_val l0 + 256 ^ Z.of_nat (length l0) * (b mod 128) in
  if b <? 128 then mag else - mag.

Lemma set_vch_spec l0 b : is_bytes (l0 ++ [b]) -> (length l0 <= 7)%nat ->
  CScriptNum_set_vch (l0 ++ [b]) = Ok (sm_val l0 b).
Proof.
  intros Hb Hl. unfold CScriptNum_set_vch.
  rewrite bool_decide_false by (by destruct l0).
  rewrite bool_decide_false by (intros E; apply (f_equal length) in E; rewrite length_app in E; simpl in E; lia).
  rewrite length_app. cbn [length]. destruct (Z.ltb_spec 8 (Z.of_nat (length l0 + 1))); [lia|].
  rewrite last_snoc. cbn [default from_option id].
  pose proof (proj1 (Forall_app _ _ _) Hb) as [Hb0 Hb1]. inversion Hb1 as [|? ? Hbb _]; subst.
  rewrite land_80 by done. unfold is_u8 in Hbb. change (2 ^ 8) with 256 in Hbb.
  rewrite or_bytes_spec; [|done|lia|rewrite length_app; simpl; lia|simpl; lia|left; by destruct l0].
  rewrite le_val_app, Z.pow_0_r, Z.mul_1_l, Z.add_0_l. cbn [le_val]. rewrite Z.mul_0_r, Z.add_0_r.
  pose proof (le_val_bound l0 Hb0) as Hv. set (P := 256 ^ Z.of_nat (length l0)) in *.
  assert (HP : 0 < P <= 256 ^ 7) by (subst P; split; [apply pow256_pos|apply Z.pow_le_mono_r; lia]).
  unfold sm_val. fold P. destruct (Z.ltb_spec b 128); cbn [negb].
  - rewrite (Z.mod_small b) by lia. rewrite i64_small; [done|]. unfold is_i64.
    assert (0 <= P * b <= P * 127) by (split; [apply Z.mul_nonneg_nonneg|apply Z.mul_le_mono_nonneg_l]; lia). lia.
  - replace (b mod 128) with (b - 128) by (rewrite <- (Z.mod_add b (-1) 128), Z.mod_small by lia; lia).
    set (low := le_val l0 + P * (b - 128)).
    assert (Hlow : 0 <= low < 128 * P) by (subst low; nia).
    assert (Ek : 128 * P = 2 ^ (8 * Z.of_nat (length l0) + 7)).
    { subst P. rewrite pow256_pow2, Z.pow_add_r by lia. lia. }
    assert (Esh : u64 (Z.shiftl 128 (8 * (Z.of_nat (length l0 + 1) - 1))) = 2 ^ (8 * Z.of_nat (length l0) + 7)).
    { rewrite Z.shiftl_mul_pow2 by lia. rewrite <- Ek. subst P. rewrite pow256_pow2 by lia.
      replace (8 * (Z.of_nat (length l0 + 1) - 1)) with (8 * Z.of_nat (length l0)) by lia.
      apply u64_small. rewrite <- pow256_pow2 by lia. unfold is_u64. lia. }
    rewrite Esh.
    assert (Eu : u64 (i64 (le_val l0 + P * b)) = low + 2 ^ (8 * Z.of_nat (length l0) + 7)).
    { rewrite <- Ek. replace (le_val l0 + P * b) with (low + 128 * P) by (subst low; lia).
      rewrite u64_i64. apply u64_small. unfold is_u64. lia. }
    rewrite Eu, clear_bit by lia.
    rewrite (i64_small low), i64_small by (unfold is_i64; lia). done.
Qed.

(** The encoding of a number other than zero and [INT64_MIN]: the magnitude's
    bytes, with a sign byte when the top bit is taken. *)
Lemma serialize_split v : is_i64 v -> v <> 0 -> v <> INT64_MIN ->
  exists l0 b, CScriptNum_serialize v = l0 ++ [b] /\ is_bytes (l0 ++ [b]) /\ (length l0 <= 7)%nat
    /\ sm_val l0 b = v.
Proof.
  unfold is_i64, INT64_MIN. intros Hv Hn0 Hnm. unfold CScriptNum_serialize, INT64_MIN.
  rewrite (proj2 (Z.eqb_neq _ _)), (proj2 (Z.eqb_neq _ _)) by done.
  set (neg := v <? 0). set (a := if neg then - v else v).
  assert (Ha : 0 < a < 2 ^ 63) by (subst a neg; destruct (Z.ltb_spec v 0); lia).
  rewrite (u64_small a) by (unfold is_u64; lia).
  destruct (push_abs_spec 8 a) as (Hb & Hval & Hlen & Hlast); [change (256 ^ Z.of_nat 8) with (2 ^ 64); lia|].
  specialize (Hlast ltac:(lia)).
  destruct (snoc_inv (push_abs 8 a)) as (l0 & b & E); [intros E; rewrite E in Hlast; done|].
  rewrite E in *. rewrite last_snoc in *. cbn [default from_option id] in *.
  rewrite le_val_app in Hval. cbn [le_val] in Hval. rewrite Z.mul_0_r, Z.add_0_r in Hval.
  rewrite length_app in Hlen. cbn [length] in Hlen.
  pose proof (proj1 (Forall_app _ _ _) Hb) as [Hb0 Hb1]. inversion Hb1 as [|? ? Hbb _]; subst.
  rewrite land_80 by done. pose proof (le_val_bound l0 Hb0) as Hv0. pose proof (pow256_pos (length l0)) as HP.
  unfold is_u8 in Hbb. change (2 ^ 8) with 256 in Hbb.
  assert (Esign : forall x, x = a -> (if neg then - x else x) = v)
    by (intros x ->; subst a neg; destruct (v <? 0); lia).
  destruct (Z.ltb_spec b 128) as [Hlt|Hge]; cbn [negb].
  - destruct neg eqn:Eneg.
    + exists l0, (b + 128). unfold set_back. rewrite length_app. cbn [length].
      rewrite Nat.add_sub, take_app_length, lor_80 by lia. split_and!; [done| |lia|].
      * apply Forall_app. split; [done|]. constructor; [|done]. unfold is_u8. lia.
      * unfold sm_val. rewrite (proj2 (Z.ltb_ge _ _)) by lia.
        rewrite <- (Z.mod_add (b + 128) (-1)), Z.mod_small by lia. rewrite <- (Esign a eq_refl), <- Hval.
        do 2 f_equal. f_equal. lia.
    + exists l0, b. split_and!; [done|done|lia|]. unfold sm_val.
      rewrite (proj2 (Z.ltb_lt _ _)), Z.mod_small by lia. by apply Esign.
  - assert (length l0 <= 6)%nat as Hl6.
    { destruct (decide (length l0 = 7%nat)) as [E7|]; [|lia]. rewrite E7 in Hval.
      change (256 ^ Z.of_nat 7) with (2 ^ 56) in Hval. lia. }
    exists (l0 ++ [b]), (if neg then 128 else 0). rewrite length_app. cbn [length]. split_and!; [done| |lia|].
    + apply Forall_app. split; [done|]. constructor; [|done]. destruct neg; unfold is_u8; lia.
    + unfold sm_val. rewrite le_val_app. cbn [le_val]. rewrite Z.mul_0_r, Z.add_0_r.
      rewrite <- (Esign a eq_refl), <- Hval. destruct neg.
      * change (128 <? 128) with false. change (128 mod 128) with 0. cbn iota. lia.
      * change (0 <? 128) with true. change (0 mod 128) with 0. cbn iota. lia.
Qed.

Lemma set_vch_serialize (v : Z) : is_i64 v -> CScriptNum_set_vch (CScriptNum_serialize v) = Ok v.
Proof.
  intros Hv. destruct (decide (v = 0)) as [->|Hn0]; [done|].
  destruct (decide (v = INT64_MIN)) as [->|Hnm]; [done|].
  destruct (serialize_split v Hv Hn0 Hnm) as (l0 & b & -> & Hb & Hl & Hs).
  rewrite set_vch_spec by done. by rewrite Hs.
Qed.

(** Every 64-bit script number survives serialisation: [set_vch]
    applied to [serialize value] gives [value] back, [INT64_MIN] and its
    special encoding included. *)
Theorem CScriptNum_roundtrip (v : Z) (Hv : is_i64 v) :
  CScriptNum_set_vch (CScriptNum_serialize v) = Ok v.
Proof. by apply set_vch_serialize. Qed.

Lemma CScriptNum_roundtrip_witness : CScriptNum_set_vch (CScriptNum_serialize (-255)) = Ok (-255).
Proof. apply CScriptNum_roundtrip. unfold is_i64. lia. Defined.

Lemma serialize_sm a v :
  is_i64 v -> v <> INT64_MIN -> v <> 0 ->
  push_abs 8 (Z.abs v) = a ->
  CScriptNum_serialize v =
    (if 128 <=? default 0 (last a) then a ++ [if v <? 0 then 0x80 else 0]
     else if v <? 0 then set_back a (Z.lor (default 0 (last a)) 0x80) else a).
Proof.
  intros Hv Hm H0 Ha. unfold CScriptNum_serialize, is_i64, INT64_MIN in *.
  rewrite (proj2 (Z.eqb_neq _ _)), (proj2 (Z.eqb_neq _ _)) by done.
  replace (if v <? 0 then - v else v) with (Z.abs v) by (destruct (Z.ltb_spec v 0); lia).
  rewrite (u64_small (Z.abs v)), Ha by (unfold is_u64; lia).
  destruct (push_abs_spec 8 (Z.abs v)) as (Hb & _); [change (256 ^ Z.of_nat 8) with (2 ^ 64); lia|].
  rewrite Ha in Hb. assert (is_u8 (default 0 (last a))) as Hl.
  { destruct (last a) eqn:E; [|unfold is_u8; simpl; lia]. apply last_Some in E as [? ->].
    apply Forall_app in Hb as [_ Hb]. by inversion Hb. }
  rewrite land_80 by done. destruct (Z.ltb_spec (default 0 (last a)) 128); simpl;
    destruct (Z.leb_spec 128 (default 0 (last a))); done || lia.
Qed.

(** With [fRequireMinimal], the constructor accepts exactly the encodings
    [serialize] produces, up to the size limit (8 bytes at most): whatever it
    accepts re-serialises to itself. *)
Theorem CScriptNum_minimal (vch : bytes) (nMaxNumSize v : Z)
  (Hb : is_bytes vch) (Hmax : nMaxNumSize <= 8)
  (Hok : CScriptNum_of_vch vch true nMaxNumSize = Ok v) :
  CScriptNum_serialize v = vch.
Proof.
  unfold CScriptNum_of_vch in Hok.
  destruct (Z.ltb_spec nMaxNumSize (Z.of_nat (length vch))) as [|Hlen]; [done|].
  destruct (decide (vch = [])) as [->|Hne]; [by injection Hok as <-|].
  destruct (snoc_inv vch Hne) as (l0 & b & ->). rewrite last_snoc in Hok. cbn [default from_option id] in Hok.
  rewrite length_app in *. cbn [length] in *.
  pose proof (proj1 (Forall_app _ _ _) Hb) as [Hb0 Hb1]. inversion Hb1 as [|? ? Hbb _]; subst.
  rewrite land_7f in Hok by done. rewrite set_vch_spec in Hok by (done || lia).
  rewrite (proj2 (Z.ltb_lt 0 _)) in Hok by lia. cbn [andb] in Hok.
  destruct (_ && _) eqn:Emin in Hok; [done|]. injection Hok as <-.
  unfold is_u8 in Hbb. change (2 ^ 8) with 256 in Hbb.
  pose proof (le_val_bound l0 Hb0) as Hv0. set (P := 256 ^ Z.of_nat (length l0)) in *.
  assert (HP : 0 < P <= 256 ^ 7) by (subst P; split; [apply pow256_pos|apply Z.pow_le_mono_r; lia]).
  set (mag := le_val l0 + P * (b mod 128)).
  assert (Hmod : 0 <= b mod 128 < 128) by (apply Z.mod_pos_bound; lia).
  assert (Hmag : 0 <= mag < 128 * P) by (subst mag; nia).
  assert (Esm : sm_val l0 b = if b <? 128 then mag else - mag) by done.
  assert (Habs : Z.abs (sm_val l0 b) = mag) by (rewrite Esm; destruct (b <? 128); lia).
  assert (Hsm : 0 < mag -> is_i64 (sm_val l0 b) /\ sm_val l0 b <> INT64_MIN /\ sm_val l0 b <> 0
                 /\ (sm_val l0 b <? 0) = (128 <=? b)).
  { intros Hpos. rewrite Esm. unfold is_i64, INT64_MIN.
    destruct (Z.ltb_spec b 128), (Z.leb_spec 128 b); try lia; split_and!; lia. }
  destruct (decide (b mod 128 = 0)) as [Ez|Enz].
  - rewrite (proj2 (Z.eqb_eq _ _) Ez) in Emin. cbn [andb] in Emin. apply orb_false_iff in Emin as [E1 E2].
    zbool. destruct (snoc_inv l0) as (l1 & c & ->); [destruct l0; [simpl in E1; lia|done]|].
    rewrite length_app in *. cbn [length] in *.
    rewrite <- app_assoc in E2. replace (length l1 + 1 + 1 - 2)%nat with (length l1) in E2 by lia.
    rewrite lookup_app_r, Nat.sub_diag in E2 by lia. cbn in E2.
    pose proof (proj1 (Forall_app _ _ _) Hb0) as [Hb2 Hb3]. inversion Hb3 as [|? ? Hc _]; subst.
    assert (Hc128 : 128 <= c).
    { pose proof (land_80 c Hc) as L. destruct (Z.ltb_spec c 128); [|lia]. zbool. lia. }
    assert (Emag : mag = le_val (l1 ++ [c])) by (subst mag; rewrite Ez; lia).
    assert (Hpos : 0 < mag).
    { rewrite Emag, le_val_app. cbn [le_val]. pose proof (le_val_bound l1 Hb2).
      pose proof (pow256_pos (length l1)). nia. }
    destruct (Hsm Hpos) as (Hi & Hnm & Hn0 & Esgn).
    rewrite (serialize_sm (l1 ++ [c])); try done.
    + rewrite last_snoc. cbn [default from_option id]. rewrite (proj2 (Z.leb_le _ _)) by lia.
      rewrite Esgn. f_equal. f_equal. destruct (Z.leb_spec 128 b); Z.to_euclidean_division_equations; lia.
    + rewrite Habs, Emag. apply push_abs_le_val; [done|rewrite length_app; simpl; lia|].
      rewrite last_snoc. simpl. lia.
  - assert (Hpos : 0 < mag) by (subst mag; nia).
    destruct (Hsm Hpos) as (Hi & Hnm & Hn0 & Esgn).
    rewrite (serialize_sm (l0 ++ [b mod 128])); try done.
    + rewrite last_snoc. cbn [default from_option id]. rewrite (proj2 (Z.leb_gt _ _)) by lia.
      rewrite Esgn, lor_80 by lia. unfold set_back. rewrite length_app. cbn [length].
      rewrite Nat.add_sub, take_app_length. destruct (Z.leb_spec 128 b); do 2 f_equal;
        Z.to_euclidean_division_equations; lia.
    + rewrite Habs. replace mag with (le_val (l0 ++ [b mod 128])).
      * apply push_abs_le_val; [|rewrite length_app; simpl; lia|by rewrite last_snoc].
        apply Forall_app. split; [done|]. constructor; [unfold is_u8; lia|done].
      * rewrite le_val_app. cbn [le_val]. subst mag P. lia.
Qed.

Lemma CScriptNum_minimal_witness : CScriptNum_serialize (-255) = [0xff; 0x80].
Proof.
  apply (CScriptNum_minimal [0xff; 0x80] 4); [repeat constructor; unfold is_u8; lia|lia|reflexivity].
Defined.

(** ** Reading what was pushed *)

(** The opcode byte in front of pushed data. *)
Definition push_opcode (b : bytes) : Z :=
  let n := Z.of_nat (length b) in
  if n <? OP_PUSHDATA1 then n
  else if n <=? 0xff then OP_PUSHDATA1
  else if n <=? 0xffff then OP_PUSHDATA2
  else OP_PUSHDATA4.

Definition pushed (b : bytes) : bytes := CScript_push_data [] b.

Lemma push_data_app s b : CScript_push_data s b = s ++ pushed b.
Proof. done. Qed.

Lemma GetOp2_operand_ok opcode b rest :
  Z.of_nat (length (b ++ rest)) < 2 ^ 32 ->
  GetOp2_operand opcode (Z.of_nat (length b)) (b ++ rest) = mkGetOp true opcode b rest.
Proof.
  intros Hl. unfold GetOp2_operand. rewrite u32_small by (unfold is_u32; lia). rewrite length_app in *.
  destruct (Z.ltb_spec (Z.of_nat (length b + length rest)) (Z.of_nat (length b))); [lia|].
  by rewrite Nat2Z.id, take_app_length, drop_app_length.
Qed.

Lemma GetOp2_sized_ok opcode k b rest :
  Z.of_nat (length (b ++ rest)) < 2 ^ 32 -> Z.of_nat (length b) < 256 ^ Z.of_nat k ->
  GetOp2_sized opcode k (le_bytes k (Z.of_nat (length b)) ++ b ++ rest) = mkGetOp true opcode b rest.
Proof.
  intros Hl Hk. unfold GetOp2_sized. rewrite length_app, length_le_bytes.
  destruct (Z.ltb_spec (Z.of_nat (k + length (b ++ rest))) (Z.of_nat k)); [lia|].
  rewrite take_app_length', drop_app_length' by (by rewrite length_le_bytes).
  rewrite le_val_le_bytes_small by lia. by apply GetOp2_operand_ok.
Qed.

(** Reading at a push gives its opcode and data and stops behind it. *)
Lemma GetOp2_pushed b rest : Z.of_nat (length (pushed b ++ rest)) < 2 ^ 32 ->
  GetOp2 (pushed b ++ rest) = mkGetOp true (push_opcode b) b rest.
Proof.
  unfold pushed, CScript_push_data, push_opcode. cbn [app]. intros Hl.
  assert (Hlen : Z.of_nat (length (b ++ rest)) < 2 ^ 32) by (rewrite !length_app in *; lia).
  assert (Hb : Z.of_nat (length b) < 2 ^ 32) by (rewrite length_app in Hlen; lia).
  rewrite <- app_assoc.
  destruct (Z.ltb_spec (Z.of_nat (length b)) OP_PUSHDATA1) as [H1|H1].
  { rewrite u8_small by (unfold is_u8, OP_PUSHDATA1 in *; lia). cbn [app GetOp2].
    unfold OP_PUSHDATA1, OP_PUSHDATA4 in *. rewrite (proj2 (Z.leb_le _ _)) by lia.
    rewrite (proj2 (Z.ltb_lt _ _)) by lia. by apply GetOp2_operand_ok. }
  unfold OP_PUSHDATA1 in *.
  destruct (Z.leb_spec (Z.of_nat (length b)) 0xff) as [H2|H2].
  { rewrite u8_small by (unfold is_u8; lia). cbn [app GetOp2]. cbn [Z.leb Z.ltb Z.eqb Z.compare].
    change (Z.of_nat (length b) :: b ++ rest) with ([Z.of_nat (length b)] ++ b ++ rest).
    replace [Z.of_nat (length b)] with (le_bytes 1 (Z.of_nat (length b)))
      by (simpl; by rewrite Z.mod_small by lia).
    apply (GetOp2_sized_ok _ 1); [done|]. change (256 ^ Z.of_nat 1) with 256. lia. }
  destruct (Z.leb_spec (Z.of_nat (length b)) 0xffff) as [H3|H3].
  - rewrite <- app_comm_cons. cbn [GetOp2].
    apply (GetOp2_sized_ok OP_PUSHDATA2 2); [done|]. change (256 ^ Z.of_nat 2) with 65536. lia.
  - rewrite <- app_comm_cons. cbn [GetOp2].
    apply (GetOp2_sized_ok OP_PUSHDATA4 4); [done|]. change (256 ^ Z.of_nat 4) with (2 ^ 32). lia.
Qed.

Lemma push_opcode_le b : push_opcode b <= OP_PUSHDATA4.
Proof.
  unfold push_opcode, OP_PUSHDATA1, OP_PUSHDATA2, OP_PUSHDATA4.
  repeat match goal with |- context [if ?c then _ else _] => destruct c eqn:? end; zbool; lia.
Qed.

Lemma pushed_not_nil b : pushed b <> [].
Proof.
  unfold pushed, CScript_push_data. simpl.
  repeat match goal with |- context [if ?c then _ else _] => destruct c end; done.
Qed.

(** Every round of a reading loop consumes at least one byte. *)
Lemma GetOp2_progress pc : pc <> [] -> (length (go_pc (GetOp2 pc)) < length pc)%nat.
Proof.
  destruct pc as [|op pc]; [done|intros _]. cbn [GetOp2 length].
  assert (Ho : forall o n p, (length (go_pc (GetOp2_operand o n p)) <= length p)%nat).
  { intros o n p. unfold GetOp2_operand. destruct (_ <? _); simpl; [lia|]. rewrite length_drop. lia. }
  assert (Hs : forall o k p, (length (go_pc (GetOp2_sized o k p)) <= length p)%nat).
  { intros o k p. unfold GetOp2_sized. destruct (_ <? _); simpl; [lia|].
    etrans; [apply Ho|]. rewrite length_drop. lia. }
  pose proof (Ho op op pc). pose proof (Hs op 1%nat pc). pose proof (Hs op 2%nat pc). pose proof (Hs op 4%nat pc).
  repeat match goal with |- context [if ?c then _ else _] => destruct c end; simpl; lia.
Qed.

(** The bound on the rounds never cuts a loop short. *)
Lemma sigops_loop_fuel f1 : forall f2 acc pc l n, (length pc <= f1)%nat -> (length pc <= f2)%nat ->
  sigops_loop f1 acc pc l n = sigops_loop f2 acc pc l n.
Proof.
  induction f1 as [|f1 IH]; intros f2 acc pc l n H1 H2.
  - destruct pc; [|simpl in H1; lia]. by destruct f2.
  - destruct pc as [|b pc]; [by destruct f2|]. destruct f2 as [|f2]; [simpl in H2; lia|].
    cbn [sigops_loop]. pose proof (GetOp2_progress (b :: pc) ltac:(done)).
    destruct (go_ret (GetOp2 (b :: pc))); [|done]. apply IH; simpl in *; lia.
Qed.

Lemma last_push_loop_fuel f1 : forall f2 pc d, (length pc <= f1)%nat -> (length pc <= f2)%nat ->
  last_push_loop f1 pc d = last_push_loop f2 pc d.
Proof.
  induction f1 as [|f1 IH]; intros f2 pc d H1 H2.
  - destruct pc; [|simpl in H1; lia]. by destruct f2.
  - destruct pc as [|b pc]; [by destruct f2|]. destruct f2 as [|f2]; [simpl in H2; lia|].
    cbn [last_push_loop]. pose proof (GetOp2_progress (b :: pc) ltac:(done)).
    destruct (negb _); [done|]. destruct (_ <? _); [done|]. apply IH; simpl in *; lia.
Qed.

Lemma push_only_loop_fuel f1 : forall f2 pc, (length pc <= f1)%nat -> (length pc <= f2)%nat ->
  push_only_loop f1 pc = push_only_loop f2 pc.
Proof.
  induction f1 as [|f1 IH]; intros f2 pc H1 H2.
  - destruct pc; [|simpl in H1; lia]. by destruct f2.
  - destruct pc as [|b pc]; [by destruct f2|]. destruct f2 as [|f2]; [simpl in H2; lia|].
    cbn [push_only_loop]. pose proof (GetOp2_progress (b :: pc) ltac:(done)).
    destruct (negb _); [done|]. destruct (_ <? _); [done|]. apply IH; simpl in *; lia.
Qed.

(** A script of pushes, in order. *)
Definition push_all (items : list bytes) : CScript := foldl CScript_push_data [] items.

Lemma push_all_concat items : push_all items = concat (pushed <$> items).
Proof.
  unfold push_all. assert (G : forall s, foldl CScript_push_data s items = s ++ concat (pushed <$> items)).
  { induction items as [|b items IH]; intros s; simpl; [by rewrite app_nil_r|].
    rewrite IH, push_data_app, <- app_assoc. done. }
  apply (G []).
Qed.

Lemma last_push_loop_pushes items : forall f d,
  Z.of_nat (length (concat (pushed <$> items))) < 2 ^ 32 ->
  (length (concat (pushed <$> items)) <= f)%nat ->
  last_push_loop f (concat (pushed <$> items)) d = Some (default d (last items)).
Proof.
  induction items as [|b items IH]; intros f d Hl Hf.
  - by destruct f.
  - cbn [fmap list_fmap concat] in *. fold (pushed <$> items) in *.
    pose proof (pushed_not_nil b) as Hn. rewrite length_app in Hf.
    destruct f as [|f]; [destruct (pushed b); simpl in Hf; [done|lia]|].
    cbn [last_push_loop].
    destruct (pushed b ++ concat (pushed <$> items)) as [|x pc] eqn:E; [by destruct (pushed b)|].
    rewrite <- E in Hl |- *. rewrite GetOp2_pushed by done. cbn [go_ret go_opcode go_pc go_vch negb].
    pose proof (push_opcode_le b) as Hle. unfold OP_16, OP_PUSHDATA4 in *.
    rewrite (proj2 (Z.ltb_ge _ _)) by lia.
    assert (1 <= length (pushed b))%nat by (destruct (pushed b); [done|simpl; lia]).
    rewrite IH; [|rewrite length_app in Hl; lia|lia]. f_equal.
    destruct items as [|c items]; [done|]. rewrite last_cons_cons.
    destruct (last (c :: items)) eqn:El; [done|]. by apply last_None in El.
Qed.

Lemma push_only_loop_pushes items : forall f,
  Z.of_nat (length (concat (pushed <$> items))) < 2 ^ 32 ->
  push_only_loop f (concat (pushed <$> items)) = true.
Proof.
  induction items as [|b items IH]; intros f Hl; [by destruct f|].
  cbn [fmap list_fmap concat] in *. fold (pushed <$> items) in *.
  destruct f as [|f]; [done|]. cbn [push_only_loop]. pose proof (pushed_not_nil b) as Hn.
  destruct (pushed b ++ concat (pushed <$> items)) as [|x pc] eqn:E; [done|].
  rewrite <- E in Hl |- *. rewrite GetOp2_pushed by done. cbn [go_ret go_opcode go_pc negb].
  pose proof (push_opcode_le b) as Hle. unfold OP_16, OP_PUSHDATA4 in *.
  rewrite (proj2 (Z.ltb_ge _ _)) by lia. apply IH. rewrite length_app in Hl. lia.
Qed.

(** The signature operations of a P2SH output are counted in the last
    item its scriptSig pushes: for any scriptSig that pushes [items] and then
    a redeem script, the count is the accurate count of that redeem script,
    whatever its length. *)
Theorem GetSigOpCount_P2SH_redeem (scriptPubKey : CScript) (items : list bytes) (redeem : bytes)
  (Hp : CScript_IsPayToScriptHash scriptPubKey = true)
  (Hl : Z.of_nat (length (push_all (items ++ [redeem]))) < 2 ^ 32) :
  CScript_GetSigOpCount_P2SH scriptPubKey (push_all (items ++ [redeem]))
    = CScript_GetSigOpCount redeem true.
Proof.
  unfold CScript_GetSigOpCount_P2SH. rewrite Hp. cbn [negb].
  rewrite push_all_concat in *. rewrite last_push_loop_pushes by (done || lia).
  by rewrite last_snoc.
Qed.

Lemma GetSigOpCount_P2SH_redeem_witness :
  CScript_GetSigOpCount_P2SH (OP_HASH160 :: 0x14 :: replicate 20 7 ++ [OP_EQUAL])
    (push_all [[1; 2]; [OP_2; OP_CHECKMULTISIG; OP_CHECKSIG]]) = 3.
Proof.
  rewrite (GetSigOpCount_P2SH_redeem _ [[1; 2]] [OP_2; OP_CHECKMULTISIG; OP_CHECKSIG]);
    [reflexivity|reflexivity|vm_compute; reflexivity].
Defined.

(** A reading loop meets at most one signature operation of weight 20 per
    byte. *)
Lemma sigops_loop_bound f : forall acc pc l n, 0 <= n -> n + 20 * Z.of_nat (length pc) < 2 ^ 32 ->
  n <= sigops_loop f acc pc l n <= n + 20 * Z.of_nat (length pc).
Proof.
  induction f as [|f IH]; intros acc pc l n Hn Hb; cbn [sigops_loop]; [lia|].
  destruct pc as [|b pc]; [simpl; lia|].
  pose proof (GetOp2_progress (b :: pc) ltac:(done)) as Hp. set (r := GetOp2 (b :: pc)) in *. clearbody r.
  destruct (go_ret r); [|lia]. set (len := length (b :: pc)) in *. clearbody len.
  match goal with |- context [sigops_loop _ _ _ _ ?n'] => set (n1 := n') end.
  assert (n <= n1 <= n + 20) as Hn1.
  { subst n1. repeat match goal with |- context [if ?c then _ else _] => destruct c eqn:? end; try lia;
      zbool; unfold OP_1, OP_16 in *; rewrite u32_small by (unfold is_u32; lia); lia. }
  specialize (IH acc (go_pc r) (go_opcode r) n1 ltac:(lia) ltac:(lia)). lia.
Qed.
