(* ===== verification/Interpreter.v ===== *)
(** * The script interpreter

    script/interpreter.cpp: the encodings of signatures and public keys,
    [EvalScript] with every opcode, [VerifyScript] with P2SH, and the lock
    time check of [TransactionSignatureChecker].  A stack is the C++ vector
    read from its back: the head of the list is [stacktop(-1)].  The
    signature checker is an interface ([BaseSignatureChecker]); the hash
    functions and [CPubKey::CheckLowS] are parameters. *)
From S2P Require Import Prelude Transaction Script.
From stdpp Require Import prelude strings list.
#[local] Open Scope Z_scope.

Inductive ScriptError :=
| SCRIPT_ERR_OK
| SCRIPT_ERR_UNKNOWN_ERROR
| SCRIPT_ERR_EVAL_FALSE
| SCRIPT_ERR_OP_RETURN
| SCRIPT_ERR_SCRIPT_SIZE
| SCRIPT_ERR_PUSH_SIZE
| SCRIPT_ERR_OP_COUNT
| SCRIPT_ERR_STACK_SIZE
| SCRIPT_ERR_SIG_COUNT
| SCRIPT_ERR_PUBKEY_COUNT
| SCRIPT_ERR_VERIFY
| SCRIPT_ERR_EQUALVERIFY
| SCRIPT_ERR_CHECKMULTISIGVERIFY
| SCRIPT_ERR_CHECKSIGVERIFY
| SCRIPT_ERR_NUMEQUALVERIFY
| SCRIPT_ERR_BAD_OPCODE
| SCRIPT_ERR_DISABLED_OPCODE
| SCRIPT_ERR_INVALID_STACK_OPERATION
| SCRIPT_ERR_INVALID_ALTSTACK_OPERATION
| SCRIPT_ERR_UNBALANCED_CONDITIONAL
| SCRIPT_ERR_NEGATIVE_LOCKTIME
| SCRIPT_ERR_UNSATISFIED_LOCKTIME
| SCRIPT_ERR_SIG_HASHTYPE
| SCRIPT_ERR_SIG_DER
| SCRIPT_ERR_MINIMALDATA
| SCRIPT_ERR_SIG_PUSHONLY
| SCRIPT_ERR_SIG_HIGH_S
| SCRIPT_ERR_SIG_NULLDUMMY
| SCRIPT_ERR_PUBKEYTYPE
| SCRIPT_ERR_CLEANSTACK
| SCRIPT_ERR_DISCOURAGE_UPGRADABLE_NOPS
| SCRIPT_ERR_ERROR_COUNT.

#[global] Instance ScriptError_eq_dec : EqDecision ScriptError.
Proof. solve_decision. Defined.

Definition SIGHASH_ALL : Z := 1.
Definition SIGHASH_NONE : Z := 2.
Definition SIGHASH_SINGLE : Z := 3.
Definition SIGHASH_ANYONECANPAY : Z := 0x80.

Definition SCRIPT_VERIFY_NONE : Z := 0.
Definition SCRIPT_VERIFY_P2SH : Z := Z.shiftl 1 0.
Definition SCRIPT_VERIFY_STRICTENC : Z := Z.shiftl 1 1.
Definition SCRIPT_VERIFY_LOW_S : Z := Z.shiftl 1 3.
Definition SCRIPT_VERIFY_NULLDUMMY : Z := Z.shiftl 1 4.
Definition SCRIPT_VERIFY_SIGPUSHONLY : Z := Z.shiftl 1 5.
Definition SCRIPT_VERIFY_MINIMALDATA : Z := Z.shiftl 1 6.
Definition SCRIPT_VERIFY_DISCOURAGE_UPGRADABLE_NOPS : Z := Z.shiftl 1 7.
Definition SCRIPT_VERIFY_CLEANSTACK : Z := Z.shiftl 1 8.
Definition SCRIPT_VERIFY_CHECKLOCKTIMEVERIFY : Z := Z.shiftl 1 9.

(** [(flags & f) != 0]. *)
Definition has_flag (flags f : Z) : bool := negb (Z.land flags f =? 0).

Abbreviation valtype := bytes.
Definition vchFalse : valtype := [].
Definition vchTrue : valtype := [1].

Fixpoint CastToBool (vch : valtype) : bool :=
  match vch with
  | [] => false
  | b :: rest => if negb (b =? 0) then negb (bool_decide (rest = []) && (b =? 0x80)) else CastToBool rest
  end.

(** ** Encodings of keys and signatures *)

Definition IsCompressedOrUncompressedPubKey (vchPubKey : valtype) : bool :=
  if (length vchPubKey <? 33)%nat then false
  else if byte_at vchPubKey 0 =? 0x04 then (length vchPubKey =? 65)%nat
  else if (byte_at vchPubKey 0 =? 0x02) || (byte_at vchPubKey 0 =? 0x03) then (length vchPubKey =? 33)%nat
  else false.

Definition IsValidSignatureEncoding (sig : bytes) : bool :=
  let size := Z.of_nat (length sig) in
  let at_ i := byte_at sig (Z.to_nat i) in
  if size <? 9 then false
  else if 73 <? size then false
  else if negb (at_ 0 =? 0x30) then false
  else if negb (at_ 1 =? size - 3) then false
  else
    let lenR := at_ 3 in
    if size <=? 5 + lenR then false
    else
      let lenS := at_ (5 + lenR) in
      if negb (lenR + lenS + 7 =? size) then false
      else if negb (at_ 2 =? 0x02) then false
      else if lenR =? 0 then false
      else if negb (Z.land (at_ 4) 0x80 =? 0) then false
      else if (1 <? lenR) && (at_ 4 =? 0) && (Z.land (at_ 5) 0x80 =? 0) then false
      else if negb (at_ (lenR + 4) =? 0x02) then false
      else if lenS =? 0 then false
      else if negb (Z.land (at_ (lenR + 6)) 0x80 =? 0) then false
      else if (1 <? lenS) && (at_ (lenR + 6) =? 0) && (Z.land (at_ (lenR + 7)) 0x80 =? 0) then false
      else true.

(** A check that may fail; a failure says what it writes to [*serror], if
    anything. *)
Inductive check := CheckOk | CheckFail (serror : option ScriptError).

Definition IsDefinedHashtypeSignature (vchSig : valtype) : bool :=
  match last vchSig with
  | None => false
  | Some b =>
      let nHashType := u8 (Z.land b (Z.lnot SIGHASH_ANYONECANPAY)) in
      negb ((nHashType <? SIGHASH_ALL) || (SIGHASH_SINGLE <? nHashType))
  end.

Definition CheckMinimalPush (data : valtype) (opcode : Z) : bool :=
  let size := Z.of_nat (length data) in
  if size =? 0 then opcode =? OP_0
  else if (size =? 1) && (1 <=? byte_at data 0) && (byte_at data 0 <=? 16)
  then opcode =? OP_1 + (byte_at data 0 - 1)
  else if (size =? 1) && (byte_at data 0 =? 0x81) then opcode =? OP_1NEGATE
  else if size <=? 75 then opcode =? size
  else if size <=? 255 then opcode =? OP_PUSHDATA1
  else if size <=? 65535 then opcode =? OP_PUSHDATA2
  else true.

Definition CheckPubKeyEncoding (vchPubKey : valtype) (flags : Z) : check :=
  if has_flag flags SCRIPT_VERIFY_STRICTENC && negb (IsCompressedOrUncompressedPubKey vchPubKey)
  then CheckFail (Some SCRIPT_ERR_PUBKEYTYPE) else CheckOk.

(** What the interpreter needs of a transaction: [BaseSignatureChecker].  The
    methods may throw, and abort. *)
Class BaseSignatureChecker (C : Type) := {
  CheckSig : C -> bytes -> bytes -> CScript -> Z -> result bool;
  CheckLockTime : C -> Z -> result bool
}.

(** The hash functions and the curve-order test of signatures. *)
Class ScriptCrypto := {
  ripemd160 : bytes -> bytes;
  sha1 : bytes -> bytes;
  sha256 : bytes -> bytes;
  CheckLowS : bytes -> bool
}.

(** ** Evaluation

    A step returns a script error ([inl]) or a value ([inr]); [Throw] is a C++
    exception, [Abort] a failed assertion. *)
Definition ev (A : Type) : Type := result (ScriptError + A).
Definition ev_ret {A} (a : A) : ev A := Ok (inr a).
Definition set_error {A} (e : ScriptError) : ev A := Ok (inl e).
Definition ev_bind {A B} (m : ev A) (k : A -> ev B) : ev B :=
  match m with
  | Ok (inr a) => k a
  | Ok (inl e) => Ok (inl e)
  | Throw msg => Throw msg
  | Abort => Abort
  end.
Definition ev_lift {A} (m : result A) : ev A := a ← m; Ok (inr a).

Declare Scope ev_scope.
Notation "'let!' x := m 'in' k" := (ev_bind m (fun x => k))
  (at level 10, x name, m at level 100, k at level 200) : ev_scope.
#[local] Open Scope ev_scope.

Record EvalState := mkEval {
  es_stack : list valtype;
  es_altstack : list valtype;
  es_vfExec : list bool;
  es_nOpCount : Z
}.

Definition with_stack (st : EvalState) (s : list valtype) : EvalState :=
  mkEval s (es_altstack st) (es_vfExec st) (es_nOpCount st).

Section Eval.
Context {C : Type} `{BaseSignatureChecker C} `{ScriptCrypto}.
Context (script : CScript) (flags : Z) (checker : C) (consensusBranchId : Z).

Definition CHash160 (b : bytes) : bytes := ripemd160 (sha256 b).
Definition CHash256 (b : bytes) : bytes := sha256 (sha256 b).

(** A failed [CheckLowS] leaves [*serror] as it is. *)
Definition IsLowDERSignature (vchSig : valtype) : check :=
  if negb (IsValidSignatureEncoding vchSig) then CheckFail (Some SCRIPT_ERR_SIG_DER)
  else if CheckLowS (take (length vchSig - 1) vchSig) then CheckOk else CheckFail None.

Definition CheckSignatureEncoding (vchSig : valtype) (flags : Z) : check :=
  if (length vchSig =? 0)%nat then CheckOk
  else if negb (IsValidSignatureEncoding vchSig) then CheckFail (Some SCRIPT_ERR_SIG_DER)
  else match (if has_flag flags SCRIPT_VERIFY_LOW_S then IsLowDERSignature vchSig else CheckOk) with
       | CheckFail e => CheckFail e
       | CheckOk =>
           if has_flag flags SCRIPT_VERIFY_STRICTENC && negb (IsDefinedHashtypeSignature vchSig)
           then CheckFail (Some SCRIPT_ERR_SIG_HASHTYPE) else CheckOk
       end.

(** [EvalScript] sets [*serror] to [SCRIPT_ERR_UNKNOWN_ERROR] before anything
    else: what a check that leaves it alone reports. *)
Definition run_check (c : check) : ev unit :=
  match c with
  | CheckOk => ev_ret tt
  | CheckFail e => set_error (default SCRIPT_ERR_UNKNOWN_ERROR e)
  end.

Definition fRequireMinimal : bool := has_flag flags SCRIPT_VERIFY_MINIMALDATA.

Definition stack_error {A} : ev A := set_error SCRIPT_ERR_INVALID_STACK_OPERATION.

(** [CScriptNum(vch, fRequireMinimal)]. *)
Definition getnum (vch : valtype) : ev Z :=
  ev_lift (CScriptNum_of_vch vch fRequireMinimal nDefaultMaxNumSize).

Definition b2v (b : bool) : valtype := if b then vchTrue else vchFalse.

(** *** Control *)

Definition op_checklocktimeverify (st : EvalState) : ev EvalState :=
  if negb (has_flag flags SCRIPT_VERIFY_CHECKLOCKTIMEVERIFY) then
    if has_flag flags SCRIPT_VERIFY_DISCOURAGE_UPGRADABLE_NOPS
    then set_error SCRIPT_ERR_DISCOURAGE_UPGRADABLE_NOPS else ev_ret st
  else match es_stack st with
       | [] => stack_error
       | top :: _ =>
           let! nLockTime := ev_lift (CScriptNum_of_vch top fRequireMinimal 5) in
           if nLockTime <? 0 then set_error SCRIPT_ERR_NEGATIVE_LOCKTIME
           else
             let! ok := ev_lift (CheckLockTime checker nLockTime) in
             if negb ok then set_error SCRIPT_ERR_UNSATISFIED_LOCKTIME else ev_ret st
       end.

Definition op_nop (st : EvalState) : ev EvalState :=
  if has_flag flags SCRIPT_VERIFY_DISCOURAGE_UPGRADABLE_NOPS
  then set_error SCRIPT_ERR_DISCOURAGE_UPGRADABLE_NOPS else ev_ret st.

Definition op_if (opcode : Z) (fExec : bool) (st : EvalState) : ev EvalState :=
  if fExec then
    match es_stack st with
    | [] => set_error SCRIPT_ERR_UNBALANCED_CONDITIONAL
    | vch :: rest =>
        let fValue := if opcode =? OP_NOTIF then negb (CastToBool vch) else CastToBool vch in
        ev_ret (mkEval rest (es_altstack st) (fValue :: es_vfExec st) (es_nOpCount st))
    end
  else ev_ret (mkEval (es_stack st) (es_altstack st) (false :: es_vfExec st) (es_nOpCount st)).

Definition op_else (st : EvalState) : ev EvalState :=
  match es_vfExec st with
  | [] => set_error SCRIPT_ERR_UNBALANCED_CONDITIONAL
  | f :: rest => ev_ret (mkEval (es_stack st) (es_altstack st) (negb f :: rest) (es_nOpCount st))
  end.

Definition op_endif (st : EvalState) : ev EvalState :=
  match es_vfExec st with
  | [] => set_error SCRIPT_ERR_UNBALANCED_CONDITIONAL
  | _ :: rest => ev_ret (mkEval (es_stack st) (es_altstack st) rest (es_nOpCount st))
  end.

Definition op_verify (st : EvalState) : ev EvalState :=
  match es_stack st with
  | [] => stack_error
  | vch :: rest => if CastToBool vch then ev_ret (with_stack st rest) else set_error SCRIPT_ERR_VERIFY
  end.

(** *** Stack operations *)

Definition op_toaltstack (st : EvalState) : ev EvalState :=
  match es_stack st with
  | [] => stack_error
  | x :: r => ev_ret (mkEval r (x :: es_altstack st) (es_vfExec st) (es_nOpCount st))
  end.

Definition op_fromaltstack (st : EvalState) : ev EvalState :=
  match es_altstack st with
  | [] => set_error SCRIPT_ERR_INVALID_ALTSTACK_OPERATION
  | x :: r => ev_ret (mkEval (x :: es_stack st) r (es_vfExec st) (es_nOpCount st))
  end.

(** The operations that only rearrange the stack: [None] when it is too
    short. *)
Definition stack_op (opcode : Z) (s : list valtype) : option (list valtype) :=
  if opcode =? OP_2DROP then match s with _ :: _ :: r => Some r | _ => None end
  else if opcode =? OP_2DUP then
    match s with x2 :: x1 :: r => Some (x2 :: x1 :: x2 :: x1 :: r) | _ => None end
  else if opcode =? OP_3DUP then
    match s with x3 :: x2 :: x1 :: r => Some (x3 :: x2 :: x1 :: x3 :: x2 :: x1 :: r) | _ => None end
  else if opcode =? OP_2OVER then
    match s with
    | x4 :: x3 :: x2 :: x1 :: r => Some (x2 :: x1 :: x4 :: x3 :: x2 :: x1 :: r)
    | _ => None
    end
  else if opcode =? OP_2ROT then
    match s with
    | x6 :: x5 :: x4 :: x3 :: x2 :: x1 :: r => Some (x2 :: x1 :: x6 :: x5 :: x4 :: x3 :: r)
    | _ => None
    end
  else if opcode =? OP_2SWAP then
    match s with x4 :: x3 :: x2 :: x1 :: r => Some (x2 :: x1 :: x4 :: x3 :: r) | _ => None end
  else if opcode =? OP_IFDUP then
    match s with x :: r => Some (if CastToBool x then x :: x :: r else x :: r) | _ => None end
  else if opcode =? OP_DEPTH then Some (CScriptNum_serialize (Z.of_nat (length s)) :: s)
  else if opcode =? OP_DROP then match s with _ :: r => Some r | _ => None end
  else if opcode =? OP_DUP then match s with x :: r => Some (x :: x :: r) | _ => None end
  else if opcode =? OP_NIP then match s with x2 :: _ :: r => Some (x2 :: r) | _ => None end
  else if opcode =? OP_OVER then match s with x2 :: x1 :: r => Some (x1 :: x2 :: x1 :: r) | _ => None end
  else if opcode =? OP_ROT then
    match s with x3 :: x2 :: x1 :: r => Some (x1 :: x3 :: x2 :: r) | _ => None end
  else if opcode =? OP_SWAP then match s with x2 :: x1 :: r => Some (x1 :: x2 :: r) | _ => None end
  else if opcode =? OP_TUCK then match s with x2 :: x1 :: r => Some (x2 :: x1 :: x2 :: r) | _ => None end
  else (* OP_SIZE *)
    match s with x :: r => Some (CScriptNum_serialize (Z.of_nat (length x)) :: x :: r) | _ => None end.

Definition op_stack (opcode : Z) (st : EvalState) : ev EvalState :=
  match stack_op opcode (es_stack st) with
  | Some s => ev_ret (with_stack st s)
  | None => stack_error
  end.

Definition op_pick_roll (opcode : Z) (st : EvalState) : ev EvalState :=
  match es_stack st with
  | top :: (_ :: _) as r =>
      let! bn := getnum top in
      let n := scriptnum_getint bn in
      if (n <? 0) || (Z.of_nat (length r) <=? n) then stack_error
      else match r !! Z.to_nat n with
           | None => Throw "vector::at"
           | Some vch =>
               let r' := if opcode =? OP_ROLL then take (Z.to_nat n) r ++ drop (S (Z.to_nat n)) r else r in
               ev_ret (with_stack st (vch :: r'))
           end
  | _ => stack_error
  end.

Definition op_equal (opcode : Z) (st : EvalState) : ev EvalState :=
  match es_stack st with
  | vch2 :: vch1 :: r =>
      let fEqual := bool_decide (vch1 = vch2) in
      if opcode =? OP_EQUALVERIFY then
        if fEqual then ev_ret (with_stack st r) else set_error SCRIPT_ERR_EQUALVERIFY
      else ev_ret (with_stack st (b2v fEqual :: r))
  | _ => stack_error
  end.

(** *** Numbers *)

Definition op_unary (opcode : Z) (st : EvalState) : ev EvalState :=
  match es_stack st with
  | [] => stack_error
  | top :: r =>
      let! bn := getnum top in
      let! bn := ev_lift
        (if opcode =? OP_1ADD then scriptnum_add bn 1
         else if opcode =? OP_1SUB then scriptnum_sub bn 1
         else if opcode =? OP_NEGATE then scriptnum_neg bn
         else if opcode =? OP_ABS then if bn <? 0 then scriptnum_neg bn else Ok bn
         else if opcode =? OP_NOT then Ok (Z.b2z (bn =? 0))
         else if opcode =? OP_0NOTEQUAL then Ok (Z.b2z (negb (bn =? 0)))
         else Abort) in
      ev_ret (with_stack st (CScriptNum_serialize bn :: r))
  end.

Definition binary_num (opcode bn1 bn2 : Z) : result Z :=
  if opcode =? OP_ADD then scriptnum_add bn1 bn2
  else if opcode =? OP_SUB then scriptnum_sub bn1 bn2
  else if opcode =? OP_BOOLAND then Ok (Z.b2z (negb (bn1 =? 0) && negb (bn2 =? 0)))
  else if opcode =? OP_BOOLOR then Ok (Z.b2z (negb (bn1 =? 0) || negb (bn2 =? 0)))
  else if opcode =? OP_NUMEQUAL then Ok (Z.b2z (bn1 =? bn2))
  else if opcode =? OP_NUMEQUALVERIFY then Ok (Z.b2z (bn1 =? bn2))
  else if opcode =? OP_NUMNOTEQUAL then Ok (Z.b2z (negb (bn1 =? bn2)))
  else if opcode =? OP_LESSTHAN then Ok (Z.b2z (bn1 <? bn2))
  else if opcode =? OP_GREATERTHAN then Ok (Z.b2z (bn2 <? bn1))
  else if opcode =? OP_LESSTHANOREQUAL then Ok (Z.b2z (bn1 <=? bn2))
  else if opcode =? OP_GREATERTHANOREQUAL then Ok (Z.b2z (bn2 <=? bn1))
  else if opcode =? OP_MIN then Ok (if bn1 <? bn2 then bn1 else bn2)
  else if opcode =? OP_MAX then Ok (if bn2 <? bn1 then bn1 else bn2)
  else Abort.

Definition op_binary (opcode : Z) (st : EvalState) : ev EvalState :=
  match es_stack st with
  | top2 :: top1 :: r =>
      let! bn1 := getnum top1 in
      let! bn2 := getnum top2 in
      let! bn := ev_lift (binary_num opcode bn1 bn2) in
      let vch := CScriptNum_serialize bn in
      if opcode =? OP_NUMEQUALVERIFY then
        if CastToBool vch then ev_ret (with_stack st r) else set_error SCRIPT_ERR_NUMEQUALVERIFY
      else ev_ret (with_stack st (vch :: r))
  | _ => stack_error
  end.

Definition op_within (st : EvalState) : ev EvalState :=
  match es_stack st with
  | top3 :: top2 :: top1 :: r =>
      let! bn1 := getnum top1 in
      let! bn2 := getnum top2 in
      let! bn3 := getnum top3 in
      ev_ret (with_stack st (b2v ((bn2 <=? bn1) && (bn1 <? bn3)) :: r))
  | _ => stack_error
  end.

(** *** Crypto *)

Definition op_hash (opcode : Z) (st : EvalState) : ev EvalState :=
  match es_stack st with
  | [] => stack_error
  | vch :: r =>
      let vchHash :=
        if opcode =? OP_RIPEMD160 then ripemd160 vch
        else if opcode =? OP_SHA1 then sha1 vch
        else if opcode =? OP_SHA256 then sha256 vch
        else if opcode =? OP_HASH160 then CHash160 vch
        else CHash256 vch in
      ev_ret (with_stack st (vchHash :: r))
  end.

(** [CheckSignatureEncoding(...) || CheckPubKeyEncoding(...)], then
    [checker.CheckSig]. *)
Definition checked_sig (vchSig vchPubKey : valtype) : ev bool :=
  let! _ := run_check (CheckSignatureEncoding vchSig flags) in
  let! _ := run_check (CheckPubKeyEncoding vchPubKey flags) in
  ev_lift (CheckSig checker vchSig vchPubKey script consensusBranchId).

Definition op_checksig (opcode : Z) (st : EvalState) : ev EvalState :=
  match es_stack st with
  | vchPubKey :: vchSig :: r =>
      let! fSuccess := checked_sig vchSig vchPubKey in
      if opcode =? OP_CHECKSIGVERIFY then
        if fSuccess then ev_ret (with_stack st r) else set_error SCRIPT_ERR_CHECKSIGVERIFY
      else ev_ret (with_stack st (b2v fSuccess :: r))
  | _ => stack_error
  end.

(** [stacktop(-i)], through [vector::at]. *)
Definition stacktop (s : list valtype) (i : Z) : ev valtype :=
  match s !! Z.to_nat (i - 1) with Some v => ev_ret v | None => Throw "vector::at" end.

(** [while (fSuccess && nSigsCount > 0)]: every round uses up a key, so that
    as many rounds as there are keys are enough; more would be [Abort]. *)
Fixpoint multisig_loop (fuel : nat) (s : list valtype) (isig ikey nSigsCount nKeysCount : Z)
  (fSuccess : bool) : ev bool :=
  match fuel with
  | O => if fSuccess && (0 <? nSigsCount) then Abort else ev_ret fSuccess
  | S f =>
      if fSuccess && (0 <? nSigsCount) then
        let! vchSig := stacktop s isig in
        let! vchPubKey := stacktop s ikey in
        let! fOk := checked_sig vchSig vchPubKey in
        let isig := if fOk then isig + 1 else isig in
        let nSigsCount := if fOk then nSigsCount - 1 else nSigsCount in
        let nKeysCount := nKeysCount - 1 in
        multisig_loop f s isig (ikey + 1) nSigsCount nKeysCount (negb (nKeysCount <? nSigsCount))
      else ev_ret fSuccess
  end.

Definition op_checkmultisig (opcode : Z) (st : EvalState) : ev EvalState :=
  let s := es_stack st in
  let size := Z.of_nat (length s) in
  if size <? 1 then stack_error else
  let! top := stacktop s 1 in
  let! bn := getnum top in
  let nKeysCount := scriptnum_getint bn in
  if (nKeysCount <? 0) || (20 <? nKeysCount) then set_error SCRIPT_ERR_PUBKEY_COUNT else
  let nOpCount := es_nOpCount st + nKeysCount in
  if 201 <? nOpCount then set_error SCRIPT_ERR_OP_COUNT else
  let ikey := 2 in
  let i := 2 + nKeysCount in
  if size <? i then stack_error else
  let! sigs := stacktop s i in
  let! bn := getnum sigs in
  let nSigsCount := scriptnum_getint bn in
  if (nSigsCount <? 0) || (nKeysCount <? nSigsCount) then set_error SCRIPT_ERR_SIG_COUNT else
  let isig := i + 1 in
  let i := i + 1 + nSigsCount in
  if size <? i then stack_error else
  let! fSuccess := multisig_loop (Z.to_nat nKeysCount) s isig ikey nSigsCount nKeysCount true in
  match drop (Z.to_nat (i - 1)) s with
  | [] => stack_error
  | dummy :: r =>
      if has_flag flags SCRIPT_VERIFY_NULLDUMMY && (0 <? length dummy)%nat
      then set_error SCRIPT_ERR_SIG_NULLDUMMY
      else
        let st' := mkEval r (es_altstack st) (es_vfExec st) nOpCount in
        if opcode =? OP_CHECKMULTISIGVERIFY then
          if fSuccess then ev_ret st' else set_error SCRIPT_ERR_CHECKMULTISIGVERIFY
        else ev_ret (with_stack st' (b2v fSuccess :: r))
  end.

(** *** The switch *)

(** [a <= x <= b]. *)
Definition in_range (a x b : Z) : bool := (a <=? x) && (x <=? b).
Definition one_of (x : Z) (l : list Z) : bool := existsb (Z.eqb x) l.

Definition eval_op (opcode : Z) (fExec : bool) (st : EvalState) : ev EvalState :=
  if (opcode =? OP_1NEGATE) || in_range OP_1 opcode OP_16
  then ev_ret (with_stack st (CScriptNum_serialize (opcode - (OP_1 - 1)) :: es_stack st))
  else if opcode =? OP_NOP then ev_ret st
  else if opcode =? OP_CHECKLOCKTIMEVERIFY then op_checklocktimeverify st
  else if (opcode =? OP_NOP1) || in_range OP_NOP3 opcode OP_NOP10 then op_nop st
  else if (opcode =? OP_IF) || (opcode =? OP_NOTIF) then op_if opcode fExec st
  else if opcode =? OP_ELSE then op_else st
  else if opcode =? OP_ENDIF then op_endif st
  else if opcode =? OP_VERIFY then op_verify st
  else if opcode =? OP_RETURN then set_error SCRIPT_ERR_OP_RETURN
  else if opcode =? OP_TOALTSTACK then op_toaltstack st
  else if opcode =? OP_FROMALTSTACK then op_fromaltstack st
  else if (opcode =? OP_PICK) || (opcode =? OP_ROLL) then op_pick_roll opcode st
  else if in_range OP_2DROP opcode OP_TUCK || (opcode =? OP_SIZE) then op_stack opcode st
  else if (opcode =? OP_EQUAL) || (opcode =? OP_EQUALVERIFY) then op_equal opcode st
  else if one_of opcode [OP_1ADD; OP_1SUB; OP_NEGATE; OP_ABS; OP_NOT; OP_0NOTEQUAL] then op_unary opcode st
  else if one_of opcode [OP_ADD; OP_SUB] || in_range OP_BOOLAND opcode OP_MAX then op_binary opcode st
  else if opcode =? OP_WITHIN then op_within st
  else if in_range OP_RIPEMD160 opcode OP_HASH256 then op_hash opcode st
  else if (opcode =? OP_CHECKSIG) || (opcode =? OP_CHECKSIGVERIFY) then op_checksig opcode st
  else if (opcode =? OP_CHECKMULTISIG) || (opcode =? OP_CHECKMULTISIGVERIFY) then op_checkmultisig opcode st
  else set_error SCRIPT_ERR_BAD_OPCODE.

Definition disabled_opcodes : list Z :=
  [OP_CAT; OP_SUBSTR; OP_LEFT; OP_RIGHT; OP_INVERT; OP_AND; OP_OR; OP_XOR; OP_2MUL; OP_2DIV; OP_MUL;
   OP_DIV; OP_MOD; OP_LSHIFT; OP_RSHIFT; OP_CODESEPARATOR].

Definition MAX_OPS_PER_SCRIPT : Z := 201.
Definition MAX_STACK_SIZE : nat := 1000.

(** One round of the loop, after [GetOp]. *)
Definition eval_step (opcode : Z) (vchPushValue : valtype) (st : EvalState) : ev EvalState :=
  let fExec := forallb (fun b => b) (es_vfExec st) in
  if MAX_SCRIPT_ELEMENT_SIZE <? Z.of_nat (length vchPushValue) then set_error SCRIPT_ERR_PUSH_SIZE else
  let nOpCount := if OP_16 <? opcode then es_nOpCount st + 1 else es_nOpCount st in
  if (OP_16 <? opcode) && (MAX_OPS_PER_SCRIPT <? nOpCount) then set_error SCRIPT_ERR_OP_COUNT else
  let st := mkEval (es_stack st) (es_altstack st) (es_vfExec st) nOpCount in
  if one_of opcode disabled_opcodes then set_error SCRIPT_ERR_DISABLED_OPCODE else
  let! st :=
    if fExec && in_range 0 opcode OP_PUSHDATA4 then
      if fRequireMinimal && negb (CheckMinimalPush vchPushValue opcode) then set_error SCRIPT_ERR_MINIMALDATA
      else ev_ret (with_stack st (vchPushValue :: es_stack st))
    else if fExec || in_range OP_IF opcode OP_ENDIF then eval_op opcode fExec st
    else ev_ret st in
  if (MAX_STACK_SIZE <? length (es_stack st) + length (es_altstack st))%nat then set_error SCRIPT_ERR_STACK_SIZE
  else ev_ret st.

(** [while (pc < pend)]: every round reads at least one byte; a loop that
    outlives its bound is [Abort]. *)
Fixpoint eval_loop (fuel : nat) (pc : bytes) (st : EvalState) : ev EvalState :=
  match fuel with
  | O => match pc with [] => ev_ret st | _ => Abort end
  | S f =>
      match pc with
      | [] => ev_ret st
      | _ =>
          let r := GetOp2 pc in
          if negb (go_ret r) then set_error SCRIPT_ERR_BAD_OPCODE
          else let! st := eval_step (go_opcode r) (go_vch r) st in eval_loop f (go_pc r) st
      end
  end.

(** [EvalScript]: the stack it leaves, or the error it reports. *)
Definition EvalScript (stack : list valtype) : ev (list valtype) :=
  if MAX_SCRIPT_SIZE <? Z.of_nat (length script) then set_error SCRIPT_ERR_SCRIPT_SIZE
  else match eval_loop (length script) script (mkEval stack [] [] 0) with
       | Ok (inr st) =>
           if bool_decide (es_vfExec st = []) then ev_ret (es_stack st)
           else set_error SCRIPT_ERR_UNBALANCED_CONDITIONAL
       | Ok (inl e) => Ok (inl e)
       | Throw _ => set_error SCRIPT_ERR_UNKNOWN_ERROR
       | Abort => Abort
       end.
End Eval.

Section Verify.
Context {C : Type} `{BaseSignatureChecker C} `{ScriptCrypto}.

(** The stack must be non-empty with a true top. *)
Definition top_is_true (stack : list valtype) : ev unit :=
  match stack with
  | [] => set_error SCRIPT_ERR_EVAL_FALSE
  | top :: _ => if CastToBool top then ev_ret tt else set_error SCRIPT_ERR_EVAL_FALSE
  end.

(** [VerifyScript]: [inr tt] is success. *)
Definition VerifyScript (scriptSig scriptPubKey : CScript) (flags : Z) (checker : C)
  (consensusBranchId : Z) : ev unit :=
  if has_flag flags SCRIPT_VERIFY_SIGPUSHONLY && negb (CScript_IsPushOnly scriptSig)
  then set_error SCRIPT_ERR_SIG_PUSHONLY else
  let! stack0 := EvalScript scriptSig flags checker consensusBranchId [] in
  let! stack := EvalScript scriptPubKey flags checker consensusBranchId stack0 in
  let! _ := top_is_true stack in
  let! stack :=
    if has_flag flags SCRIPT_VERIFY_P2SH && CScript_IsPayToScriptHash scriptPubKey then
      if negb (CScript_IsPushOnly scriptSig) then set_error SCRIPT_ERR_SIG_PUSHONLY
      else match stack0 with
           | [] => Abort
           | pubKey2 :: rest =>
               let! stack := EvalScript pubKey2 flags checker consensusBranchId rest in
               let! _ := top_is_true stack in
               ev_ret stack
           end
    else ev_ret stack in
  if has_flag flags SCRIPT_VERIFY_CLEANSTACK then
    if negb (has_flag flags SCRIPT_VERIFY_P2SH) then Abort
    else if negb (length stack =? 1)%nat then set_error SCRIPT_ERR_CLEANSTACK
    else ev_ret tt
  else ev_ret tt.
End Verify.

(** ** Lock times: [TransactionSignatureChecker::CheckLockTime] *)

Definition Tx_CheckLockTime (tx : CMutableTransaction) (nIn : nat) (nLockTime : Z) : result bool :=
  if negb (((Transaction.nLockTime tx <? LOCKTIME_THRESHOLD) && (nLockTime <? LOCKTIME_THRESHOLD))
           || ((LOCKTIME_THRESHOLD <=? Transaction.nLockTime tx) && (LOCKTIME_THRESHOLD <=? nLockTime)))
  then Ok false
  else if Transaction.nLockTime tx <? nLockTime then Ok false
  else i ← index_or_abort (vin tx) nIn;
       Ok (negb (CTxIn_IsFinal i)).
