(* ===== verification/InterpreterSafety.v ===== *)
(** * The interpreter is safe and bounded

    No assertion of the interpreter can fire but the one on its flags, and no
    exception leaves it; the stack it returns holds at most 1000 elements of at most 520 bytes.  The
    loops end by themselves: the bounds on their rounds are never reached. *)
From S2P Require Import Prelude Transaction Script Interpreter.
From stdpp Require Import prelude strings list.
#[local] Open Scope Z_scope.
#[local] Open Scope ev_scope.

(** What is used of the hash functions: the sizes of their digests. *)
Class ScriptCryptoLaws `{ScriptCrypto} := {
  ripemd160_size : forall b, length (ripemd160 b) = 20%nat /\ is_bytes (ripemd160 b);
  sha1_size : forall b, length (sha1 b) = 20%nat /\ is_bytes (sha1 b);
  sha256_size : forall b, length (sha256 b) = 32%nat /\ is_bytes (sha256 b)
}.

(** [safe m P]: [m] does not abort, and a value it returns satisfies [P]. *)
Definition safe {A} (m : ev A) (P : A -> Prop) : Prop :=
  match m with
  | Ok (inr a) => P a
  | Abort => False
  | _ => True
  end.

Lemma safe_bind {A B} (m : ev A) (k : A -> ev B) P Q :
  safe m P -> (forall a, P a -> safe (k a) Q) -> safe (ev_bind m k) Q.
Proof. destruct m as [[e|a]| |]; simpl; auto. Qed.

Lemma safe_ret {A} (a : A) (P : A -> Prop) : P a -> safe (ev_ret a) P.
Proof. done. Qed.

Lemma safe_error {A} e (P : A -> Prop) : safe (set_error e) P.
Proof. done. Qed.

Lemma safe_mono {A} (m : ev A) (P Q : A -> Prop) : safe m P -> (forall a, P a -> Q a) -> safe m Q.
Proof. destruct m as [[e|a]| |]; simpl; auto. Qed.

#[export] Hint Resolve safe_ret safe_error : gemlink.

(** ** Elements and states *)

Definition elem_ok (v : valtype) : Prop := is_bytes v /\ (length v <= 520)%nat.

Record st_ok (st : EvalState) : Prop := {
  so_stack : Forall elem_ok (es_stack st);
  so_alt : Forall elem_ok (es_altstack st);
  so_ops : 0 <= es_nOpCount st <= 201
}.

Lemma elem_ok_bool b : elem_ok (b2v b).
Proof. destruct b; (split; [repeat constructor; unfold is_u8; simpl; lia|simpl; lia]). Qed.

Lemma elem_ok_serialize v : is_i64 v -> elem_ok (CScriptNum_serialize v).
Proof.
  intros Hv. destruct (decide (v = 0)) as [->|H0]; [split; [constructor|simpl; lia]|].
  destruct (decide (v = INT64_MIN)) as [->|Hm].
  - split; [repeat constructor; unfold is_u8; lia|vm_compute; lia].
  - destruct (serialize_split v Hv H0 Hm) as (l0 & b & -> & Hb & Hl & _).
    split; [done|]. rewrite length_app. simpl. lia.
Qed.

Lemma set_vch_bound vch n : is_bytes vch -> (length vch <= n)%nat -> (1 <= n <= 5)%nat ->
  match CScriptNum_set_vch vch with
  | Ok v => - 128 * 256 ^ (Z.of_nat n - 1) < v < 128 * 256 ^ (Z.of_nat n - 1)
  | Throw _ => True
  | Abort => False
  end.
Proof.
  intros Hb Hl Hn. assert (Hp : 0 < 256 ^ (Z.of_nat n - 1)) by (apply Z.pow_pos_nonneg; lia).
  destruct (decide (vch = [])) as [->|Hne]; [simpl; lia|].
  destruct (snoc_inv vch Hne) as (l0 & b & ->). rewrite length_app in Hl. cbn [length] in Hl.
  rewrite set_vch_spec by (done || lia).
  apply Forall_app in Hb as [Hb0 Hb1]. inversion Hb1 as [|? ? Hbb _]; subst.
  pose proof (le_val_bound l0 Hb0) as Hv. unfold sm_val.
  set (P := 256 ^ Z.of_nat (length l0)) in *.
  assert (HP : P <= 256 ^ (Z.of_nat n - 1)) by (apply Z.pow_le_mono_r; lia).
  assert (Hmod : 0 <= b mod 128 < 128) by (apply Z.mod_pos_bound; lia).
  assert (0 <= le_val l0 + P * (b mod 128) < 128 * P) by nia.
  destruct (b <? 128); nia.
Qed.

Lemma of_vch_safe vch minimal n : is_bytes vch -> (1 <= n <= 5)%nat ->
  safe (ev_lift (CScriptNum_of_vch vch minimal (Z.of_nat n)))
    (fun v => - 128 * 256 ^ (Z.of_nat n - 1) < v < 128 * 256 ^ (Z.of_nat n - 1)).
Proof.
  intros Hb Hn. unfold CScriptNum_of_vch. destruct (Z.ltb_spec (Z.of_nat n) (Z.of_nat (length vch))); [done|].
  destruct (_ && _); [done|].
  pose proof (set_vch_bound vch n Hb ltac:(lia) Hn) as Hs. by destruct (CScriptNum_set_vch vch).
Qed.

(** A script number of at most four bytes. *)
Definition num_ok (v : Z) : Prop := - 2 ^ 31 < v < 2 ^ 31.

Lemma getnum_safe flags vch : is_bytes vch -> safe (getnum flags vch) num_ok.
Proof. intros Hb. apply (of_vch_safe vch _ 4); [done|lia]. Qed.

Lemma num_getint v : num_ok v -> scriptnum_getint v = v.
Proof. unfold num_ok, scriptnum_getint. intros. repeat case_match; zbool; lia. Qed.

(** The methods of the checker may throw, but do not abort. *)
Definition checker_ok {C} `{BaseSignatureChecker C} (checker : C) : Prop :=
  (forall sig key code branch, CheckSig checker sig key code branch <> Abort) /\ (forall n, CheckLockTime checker n <> Abort).

Section Safety.
Context {C : Type} `{BaseSignatureChecker C} `{ScriptCryptoLaws}.
Context (script : CScript) (flags : Z) (checker : C) (branch : Z) (Hck : checker_ok checker).
Implicit Types st : EvalState.

Lemma st_ok_stack st s : st_ok st -> Forall elem_ok s -> st_ok (with_stack st s).
Proof. intros [] ?. by split. Qed.

(** Break a [Forall] over an explicit list into its parts and put it back. *)
Ltac elems := repeat match goal with
  | H : Forall _ (_ :: _) |- _ => apply Forall_cons in H as [? H]
  | |- Forall _ (_ :: _) => apply Forall_cons; split
  end; try done.

Lemma stack_op_safe opcode s s' : Forall elem_ok s -> (length s <= 1000)%nat -> stack_op opcode s = Some s' ->
  Forall elem_ok s'.
Proof.
  intros Hs Hl. unfold stack_op.
  repeat match goal with |- context [if ?c then _ else _] => destruct c end;
    repeat match goal with |- match ?s with [] => _ | _ :: _ => _ end = _ -> _ => destruct s; [done|] end;
    intros [= <-]; try (destruct (CastToBool _)); elems.
  - apply elem_ok_serialize. unfold is_i64. lia.
  - apply elem_ok_serialize. unfold is_i64. destruct H2. lia.
Qed.

Lemma run_check_safe c (P : unit -> Prop) : P tt -> safe (run_check c) P.
Proof. intros. by destruct c. Qed.

Lemma checked_sig_safe sig key : safe (checked_sig script flags checker branch sig key) (fun _ => True).
Proof.
  unfold checked_sig. eapply safe_bind; [by apply (run_check_safe _ (fun _ => True))|]. intros [] _.
  eapply safe_bind; [by apply (run_check_safe _ (fun _ => True))|]. intros [] _.
  pose proof (proj1 Hck sig key script branch). by destruct (CheckSig checker sig key script branch).
Qed.

Lemma op_cltv_safe st : st_ok st -> safe (op_checklocktimeverify flags checker st) st_ok.
Proof.
  intros Hs. unfold op_checklocktimeverify. destruct (negb _); [by destruct (has_flag _ _)|].
  pose proof (so_stack _ Hs) as HF. destruct (es_stack st) as [|top r]; [done|].
  apply Forall_cons in HF as [[Hb _] _].
  eapply safe_bind; [apply (of_vch_safe top _ 5); [done|lia]|]. intros v _.
  destruct (v <? 0); [done|]. pose proof (proj2 Hck v). destruct (CheckLockTime checker v) as [ok| |]; [|done..]. by destruct ok.
Qed.

Lemma op_pick_roll_safe opcode st : st_ok st -> safe (op_pick_roll flags opcode st) st_ok.
Proof.
  intros Hs. unfold op_pick_roll. pose proof (so_stack _ Hs) as HF.
  destruct (es_stack st) as [|top [|x r]]; [done..|]. apply Forall_cons in HF as [[Hb _] HF].
  eapply safe_bind; [by apply getnum_safe|]. intros bn Hbn. rewrite num_getint by done.
  destruct (_ || _); [done|]. destruct ((x :: r) !! Z.to_nat bn) as [v|] eqn:E; [|done].
  apply st_ok_stack; [done|]. apply Forall_cons. split; [by eapply Forall_lookup_1|].
  destruct (opcode =? OP_ROLL); [|done]. apply Forall_app. split; [by apply Forall_take|by apply Forall_drop].
Qed.

Lemma op_unary_safe opcode st :
  one_of opcode [OP_1ADD; OP_1SUB; OP_NEGATE; OP_ABS; OP_NOT; OP_0NOTEQUAL] = true ->
  st_ok st -> safe (op_unary flags opcode st) st_ok.
Proof.
  intros Hop Hs. unfold op_unary. pose proof (so_stack _ Hs) as HF.
  destruct (es_stack st) as [|top r]; [done|]. apply Forall_cons in HF as [[Hb _] HF].
  eapply safe_bind; [by apply getnum_safe|]. intros bn Hbn. unfold num_ok in Hbn.
  apply (safe_bind _ _ is_i64).
  - unfold scriptnum_add, scriptnum_sub, scriptnum_neg, INT64_MIN, INT64_MAX.
    unfold one_of in Hop. cbn [existsb] in Hop.
    repeat match goal with |- context [if opcode =? ?c then _ else _] => destruct (opcode =? c) end;
      try done; simpl.
    + rewrite (proj2 (Z.leb_le bn _)) by lia. simpl. unfold is_i64. lia.
    + rewrite (proj2 (Z.leb_le _ bn)) by lia. simpl. unfold is_i64. lia.
    + rewrite (proj2 (Z.eqb_neq _ _)) by lia. simpl. unfold is_i64. lia.
    + destruct (bn <? 0); simpl; [rewrite (proj2 (Z.eqb_neq _ _)) by lia; simpl|]; unfold is_i64; lia.
    + destruct (bn =? 0); unfold is_i64; simpl; lia.
    + destruct (bn =? 0); unfold is_i64; simpl; lia.
  - intros v Hv. apply st_ok_stack; [done|]. apply Forall_cons. split; [by apply elem_ok_serialize|done].
Qed.

Lemma binary_num_safe opcode a b :
  one_of opcode [OP_ADD; OP_SUB] || in_range OP_BOOLAND opcode OP_MAX = true ->
  num_ok a -> num_ok b -> safe (ev_lift (binary_num opcode a b)) is_i64.
Proof.
  intros Hop Ha Hb. unfold num_ok in *. unfold binary_num.
  assert (Hbool : forall c, is_i64 (Z.b2z c)) by (intros []; unfold is_i64; simpl; lia).
  repeat match goal with |- context [if opcode =? ?c then _ else _] => destruct (Z.eqb_spec opcode c) as [|] end;
    try apply Hbool.
  - unfold scriptnum_add, INT64_MIN, INT64_MAX. match goal with |- context [assert_true ?c] => destruct c eqn:E end;
      [simpl; unfold is_i64; lia|].
    zbool. lia.
  - unfold scriptnum_sub, INT64_MIN, INT64_MAX. match goal with |- context [assert_true ?c] => destruct c eqn:E end;
      [simpl; unfold is_i64; lia|].
    zbool. lia.
  - simpl. destruct (a <? b); unfold is_i64; lia.
  - simpl. destruct (b <? a); unfold is_i64; lia.
  - exfalso. unfold one_of, in_range in Hop. cbn [existsb] in Hop.
    rewrite (proj2 (Z.eqb_neq opcode OP_ADD)), (proj2 (Z.eqb_neq opcode OP_SUB)) in Hop by done.
    cbn [orb] in Hop. zbool.
    unfold OP_BOOLAND, OP_BOOLOR, OP_NUMEQUAL, OP_NUMEQUALVERIFY, OP_NUMNOTEQUAL, OP_LESSTHAN, OP_GREATERTHAN,
      OP_LESSTHANOREQUAL, OP_GREATERTHANOREQUAL, OP_MIN, OP_MAX in *. lia.
Qed.

Lemma op_binary_safe opcode st :
  one_of opcode [OP_ADD; OP_SUB] || in_range OP_BOOLAND opcode OP_MAX = true ->
  st_ok st -> safe (op_binary flags opcode st) st_ok.
Proof.
  intros Hop Hs. unfold op_binary. pose proof (so_stack _ Hs) as HF.
  destruct (es_stack st) as [|t2 [|t1 r]]; [done..|].
  apply Forall_cons in HF as [[Hb2 _] HF]. apply Forall_cons in HF as [[Hb1 _] HF].
  eapply safe_bind; [by apply getnum_safe|]. intros a Ha.
  eapply safe_bind; [by apply getnum_safe|]. intros b Hb.
  eapply safe_bind; [by apply binary_num_safe|]. intros v Hv.
  destruct (opcode =? OP_NUMEQUALVERIFY); [destruct (CastToBool _); [by apply st_ok_stack|done]|].
  apply st_ok_stack; [done|]. apply Forall_cons. split; [by apply elem_ok_serialize|done].
Qed.

Lemma op_within_safe st : st_ok st -> safe (op_within flags st) st_ok.
Proof.
  intros Hs. unfold op_within. pose proof (so_stack _ Hs) as HF.
  destruct (es_stack st) as [|t3 [|t2 [|t1 r]]]; [done..|]. elems.
  destruct H2, H3, H4.
  do 3 (eapply safe_bind; [by apply getnum_safe|]; intros ? _).
  apply st_ok_stack; [done|]. apply Forall_cons. split; [apply elem_ok_bool|done].
Qed.

Lemma op_hash_safe opcode st : st_ok st -> safe (op_hash opcode st) st_ok.
Proof.
  intros Hs. unfold op_hash, CHash160, CHash256. pose proof (so_stack _ Hs) as HF.
  destruct (es_stack st) as [|v r]; [done|]. apply Forall_cons in HF as [_ HF].
  apply st_ok_stack; [done|]. apply Forall_cons. split; [|done].
  assert (Hr : forall b, elem_ok (ripemd160 b)) by (intros b; destruct (ripemd160_size b); split; [done|lia]).
  assert (H1' : forall b, elem_ok (sha1 b)) by (intros b; destruct (sha1_size b); split; [done|lia]).
  assert (H2' : forall b, elem_ok (sha256 b)) by (intros b; destruct (sha256_size b); split; [done|lia]).
  repeat match goal with |- context [if ?c then _ else _] => destruct c end; auto.
Qed.

Lemma op_checksig_safe opcode st : st_ok st -> safe (op_checksig script flags checker branch opcode st) st_ok.
Proof.
  intros Hs. unfold op_checksig. pose proof (so_stack _ Hs) as HF.
  destruct (es_stack st) as [|k [|sg r]]; [done..|]. elems.
  eapply safe_bind; [apply checked_sig_safe|]. intros ok _.
  destruct (opcode =? OP_CHECKSIGVERIFY); [destruct ok; [by apply st_ok_stack|done]|].
  apply st_ok_stack; [done|]. apply Forall_cons. split; [apply elem_ok_bool|done].
Qed.

Lemma stacktop_safe s i : Forall elem_ok s -> safe (stacktop s i) elem_ok.
Proof.
  intros Hs. unfold stacktop. destruct (s !! Z.to_nat (i - 1)) as [v|] eqn:E; [|done].
  exact (Forall_lookup_1 _ _ _ _ Hs E).
Qed.

Lemma multisig_loop_safe s fuel : forall isig ikey nS nK ok, Forall elem_ok s ->
  nK = Z.of_nat fuel -> (ok = true -> nS <= nK) ->
  safe (multisig_loop script flags checker branch fuel s isig ikey nS nK ok) (fun _ => True).
Proof.
  induction fuel as [|fuel IH]; intros isig ikey nS nK ok Hs HK Hok; cbn [multisig_loop];
    destruct (ok && (0 <? nS)) eqn:Hc; try done; apply andb_true_iff in Hc as [-> Hc];
    apply Z.ltb_lt in Hc; specialize (Hok eq_refl); [lia|].
  eapply safe_bind; [by apply stacktop_safe|]. intros sg _.
  eapply safe_bind; [by apply stacktop_safe|]. intros key _.
  eapply safe_bind; [apply checked_sig_safe|]. intros fOk _.
  apply IH; [done|lia|]. intros Hn. apply negb_true_iff, Z.ltb_ge in Hn. lia.
Qed.

Lemma op_checkmultisig_safe opcode st :
  st_ok st -> safe (op_checkmultisig script flags checker branch opcode st) st_ok.
Proof.
  intros Hs. unfold op_checkmultisig. pose proof (so_stack _ Hs) as HF. destruct Hs as [_ Halt Hops].
  destruct (_ <? 1); [done|].
  eapply safe_bind; [by apply stacktop_safe|]. intros top [Ht _].
  eapply safe_bind; [by apply getnum_safe|]. intros bn Hbn. rewrite num_getint by done.
  destruct (_ || _) eqn:Ek; [done|]. zbool. destruct (201 <? _) eqn:Eo; [done|]. zbool.
  destruct (_ <? _); [done|].
  eapply safe_bind; [by apply stacktop_safe|]. intros sgs [Hsg _].
  eapply safe_bind; [by apply getnum_safe|]. intros bn2 Hbn2. rewrite num_getint by done.
  destruct (_ || _) eqn:En; [done|]. apply orb_false_iff in En as [_ En]. zbool. destruct (_ <? _); [done|].
  eapply safe_bind; [apply multisig_loop_safe; [done|lia|intros _; lia]|]. intros ok _.
  destruct (drop _ (es_stack st)) as [|dummy r] eqn:Ed; [done|].
  assert (Forall elem_ok r) as Hr.
  { assert (Forall elem_ok (dummy :: r)) as HF' by (rewrite <- Ed; by apply Forall_drop).
    by apply Forall_cons in HF' as [_ ?]. }
  destruct (_ && _); [done|]. destruct (opcode =? OP_CHECKMULTISIGVERIFY); [destruct ok; [|done]|].
  - split; simpl; [done..|lia].
  - split; simpl; [|done|lia]. apply Forall_cons. split; [apply elem_ok_bool|done].
Qed.

(** One opcode of the switch. *)
Lemma eval_op_safe opcode fExec st : 0 <= opcode < 256 -> st_ok st -> (length (es_stack st) <= 1000)%nat ->
  safe (eval_op script flags checker branch opcode fExec st) st_ok.
Proof.
  intros Hop Hs Hl. unfold eval_op.
  destruct (_ || in_range OP_1 _ _).
  { apply st_ok_stack; [done|]. apply Forall_cons. split; [|apply (so_stack _ Hs)].
    apply elem_ok_serialize. unfold is_i64, OP_1. lia. }
  destruct (opcode =? OP_NOP); [done|].
  destruct (opcode =? OP_CHECKLOCKTIMEVERIFY); [by apply op_cltv_safe|].
  destruct (_ || in_range OP_NOP3 _ _); [unfold op_nop; by destruct (has_flag _ _)|].
  destruct (_ || (opcode =? OP_NOTIF)).
  { unfold op_if. destruct fExec; [|by destruct Hs]. destruct Hs as [HF Halt Hops].
    destruct (es_stack st) as [|v r]; [done|]. apply Forall_cons in HF as [_ HF]. done. }
  destruct (opcode =? OP_ELSE); [unfold op_else; destruct Hs, (es_vfExec st); done|].
  destruct (opcode =? OP_ENDIF); [unfold op_endif; destruct Hs, (es_vfExec st); done|].
  destruct (opcode =? OP_VERIFY).
  { unfold op_verify. pose proof (so_stack _ Hs) as HF. destruct (es_stack st) as [|v r]; [done|].
    apply Forall_cons in HF as [_ HF]. destruct (CastToBool v); [by apply st_ok_stack|done]. }
  destruct (opcode =? OP_RETURN); [done|].
  destruct (opcode =? OP_TOALTSTACK).
  { unfold op_toaltstack. destruct Hs as [HF Halt Hops]. destruct (es_stack st) as [|v r]; [done|].
    apply Forall_cons in HF as [Hv HF]. split; simpl; [done| |done]. by apply Forall_cons. }
  destruct (opcode =? OP_FROMALTSTACK).
  { unfold op_fromaltstack. destruct Hs as [HF Halt Hops]. destruct (es_altstack st) as [|v r]; [done|].
    apply Forall_cons in Halt as [Hv Halt]. split; simpl; [|done|done]. by apply Forall_cons. }
  destruct (_ || (opcode =? OP_ROLL)); [by apply op_pick_roll_safe|].
  destruct (_ || (opcode =? OP_SIZE)).
  { unfold op_stack. destruct (stack_op opcode (es_stack st)) as [s|] eqn:E; [|done].
    apply st_ok_stack; [done|]. eapply stack_op_safe; [apply (so_stack _ Hs)|done|done]. }
  destruct (_ || (opcode =? OP_EQUALVERIFY)).
  { unfold op_equal. pose proof (so_stack _ Hs) as HF. destruct (es_stack st) as [|a [|b r]]; [done..|]. elems.
    destruct (opcode =? _); [destruct (bool_decide _); [by apply st_ok_stack|done]|].
    apply st_ok_stack; [done|]. apply Forall_cons. split; [apply elem_ok_bool|done]. }
  destruct (one_of opcode [OP_1ADD; OP_1SUB; OP_NEGATE; OP_ABS; OP_NOT; OP_0NOTEQUAL]) eqn:Eu;
    [by apply op_unary_safe|].
  destruct (one_of opcode [OP_ADD; OP_SUB] || _) eqn:Eb; [by apply op_binary_safe|].
  destruct (opcode =? OP_WITHIN); [by apply op_within_safe|].
  destruct (in_range OP_RIPEMD160 _ _); [by apply op_hash_safe|].
  destruct (_ || (opcode =? OP_CHECKSIGVERIFY)); [by apply op_checksig_safe|].
  destruct ((opcode =? OP_CHECKMULTISIG) || _); [by apply op_checkmultisig_safe|done].
Qed.

Definition depth (st : EvalState) : nat := length (es_stack st) + length (es_altstack st).

Lemma eval_step_safe opcode vch st :
  0 <= opcode < 256 -> is_bytes vch -> st_ok st -> (depth st <= 1000)%nat ->
  safe (eval_step script flags checker branch opcode vch st) (fun st' => st_ok st' /\ (depth st' <= 1000)%nat).
Proof.
  intros Hop Hv Hs Hd. unfold eval_step. unfold depth in *.
  destruct (_ <? Z.of_nat (length vch)) eqn:Ev; [done|]. zbool. unfold MAX_SCRIPT_ELEMENT_SIZE in Ev.
  destruct (_ && _) eqn:Eo; [done|].
  assert (Hs' : st_ok (mkEval (es_stack st) (es_altstack st) (es_vfExec st)
            (if OP_16 <? opcode then es_nOpCount st + 1 else es_nOpCount st))).
  { destruct Hs as [HF Halt Hops]. split; simpl; [done..|].
    destruct (OP_16 <? opcode); simpl in Eo; [|done]. zbool. unfold MAX_OPS_PER_SCRIPT in *. lia. }
  set (st1 := mkEval _ _ _ _) in *.
  destruct (one_of _ _); [done|].
  apply (safe_bind _ _ st_ok).
  - destruct (_ && in_range 0 _ _).
    + destruct (_ && negb _); [done|]. apply st_ok_stack; [done|].
      apply Forall_cons. split; [split; [done|lia]|apply (so_stack _ Hs)].
    + destruct (_ || _); [|done]. apply eval_op_safe; [done..|simpl; lia].
  - intros st2 Hs2. destruct (Nat.ltb_spec MAX_STACK_SIZE (length (es_stack st2) + length (es_altstack st2)));
      [done|]. by split.
Qed.

Lemma GetOp2_bytes pc : is_bytes pc -> go_ret (GetOp2 pc) = true ->
  0 <= go_opcode (GetOp2 pc) < 256 /\ is_bytes (go_vch (GetOp2 pc)) /\ is_bytes (go_pc (GetOp2 pc)).
Proof.
  intros Hb. destruct Hb as [|op pc Hop Hb]; [done|]. unfold is_u8 in Hop. change (2 ^ 8) with 256 in Hop.
  cbn [GetOp2].
  assert (Ho : forall o n p, is_bytes p -> 0 <= o < 256 -> go_ret (GetOp2_operand o n p) = true ->
    0 <= go_opcode (GetOp2_operand o n p) < 256 /\ is_bytes (go_vch (GetOp2_operand o n p))
    /\ is_bytes (go_pc (GetOp2_operand o n p))).
  { intros o n p Hp Hob. unfold GetOp2_operand. destruct (_ <? _); [done|]. intros _. cbn.
    split_and!; [lia|lia|by apply Forall_take|by apply Forall_drop]. }
  assert (Hs : forall o k p, is_bytes p -> 0 <= o < 256 -> go_ret (GetOp2_sized o k p) = true ->
    0 <= go_opcode (GetOp2_sized o k p) < 256 /\ is_bytes (go_vch (GetOp2_sized o k p))
    /\ is_bytes (go_pc (GetOp2_sized o k p))).
  { intros o k p Hp Hob. unfold GetOp2_sized. destruct (_ <? _); [done|]. apply Ho; [by apply Forall_drop|done]. }
  repeat match goal with |- context [if ?c then _ else _] => destruct c end; auto.
  intros _. cbn. split_and!; [lia|lia|constructor|done].
Qed.

Lemma eval_loop_safe fuel : forall pc st, (length pc <= fuel)%nat -> is_bytes pc -> st_ok st -> (depth st <= 1000)%nat ->
  safe (eval_loop script flags checker branch fuel pc st) (fun st' => st_ok st' /\ (depth st' <= 1000)%nat).
Proof.
  induction fuel as [|fuel IH]; intros pc st Hl Hb Hs Hd; (destruct pc as [|b pc]; [done|]); [simpl in Hl; lia|].
  cbn [eval_loop]. pose proof (GetOp2_bytes (b :: pc) Hb) as Hg. pose proof (GetOp2_progress (b :: pc) ltac:(done)).
  destruct (go_ret (GetOp2 (b :: pc))); [|done]. destruct (Hg eq_refl) as (Hop & Hv & Hpc). cbn [negb].
  eapply safe_bind; [by apply eval_step_safe|]. intros st' [Hs' Hd']. apply IH; [simpl in *; lia|done..].
Qed.

(** The bound on the rounds is never reached. *)
Lemma eval_loop_fuel f1 : forall f2 pc st, (length pc <= f1)%nat -> (length pc <= f2)%nat ->
  eval_loop script flags checker branch f1 pc st = eval_loop script flags checker branch f2 pc st.
Proof.
  induction f1 as [|f1 IH]; intros f2 pc st HF1 HF2.
  - destruct pc; [|simpl in HF1; lia]. by destruct f2.
  - destruct pc as [|b pc]; [by destruct f2|]. destruct f2 as [|f2]; [simpl in HF2; lia|].
    cbn [eval_loop]. pose proof (GetOp2_progress (b :: pc) ltac:(done)).
    destruct (negb _); [done|]. destruct (eval_step _ _ _ _ _ _ st) as [[e|st']| |]; try done.
    simpl. apply IH; simpl in *; lia.
Qed.

Lemma EvalScript_ok stack : is_bytes script -> Forall elem_ok stack -> (length stack <= 1000)%nat ->
  match EvalScript script flags checker branch stack with
  | Ok (inr s) => Forall elem_ok s /\ (length s <= 1000)%nat
  | Ok (inl _) => True
  | _ => False
  end.
Proof.
  intros Hb Hs Hl. unfold EvalScript. destruct (_ <? _); [done|].
  pose proof (eval_loop_safe (length script) script (mkEval stack [] [] 0) ltac:(done) Hb) as Hsafe.
  destruct (eval_loop _ _ _ _ _ _ _) as [[e|st]| |]; try done.
  - destruct Hsafe as [[HF _ _] Hd]; [split; simpl; [done|done|lia]|unfold depth; simpl; lia|].
    destruct (bool_decide _); [|done]. split; [done|]. unfold depth in Hd. lia.
  - apply Hsafe; [split; simpl; [done|done|lia]|unfold depth; simpl; lia].
Qed.
End Safety.

(** ** VerifyScript *)

Section VerifySafety.
Context {C : Type} `{BaseSignatureChecker C} `{ScriptCryptoLaws}.
Context (flags : Z) (checker : C) (branch : Z) (Hck : checker_ok checker).

(** A P2SH script fails on an empty stack. *)
Lemma p2sh_empty spk : CScript_IsPayToScriptHash spk = true ->
  EvalScript spk flags checker branch [] = Ok (inl SCRIPT_ERR_INVALID_STACK_OPERATION).
Proof.
  unfold CScript_IsPayToScriptHash. intros Hp. zbool.
  destruct spk as [|b spk]; [done|]. change (byte_at (b :: spk) 0) with b in *. subst b.
  unfold EvalScript. rewrite (proj2 (Z.ltb_ge _ _)) by (unfold MAX_SCRIPT_SIZE; simpl in *; lia).
  reflexivity.
Qed.

Lemma top_is_true_safe s : safe (top_is_true s) (fun _ => s <> []).
Proof. destruct s as [|t s]; [done|]. unfold top_is_true. by destruct (CastToBool t). Qed.

(** The assertion on the flags fires. *)
Definition flags_clash : bool := has_flag flags SCRIPT_VERIFY_CLEANSTACK && negb (has_flag flags SCRIPT_VERIFY_P2SH).
Definition verdict {A} (m : ev A) : Prop := (exists r, m = Ok r) \/ m = Abort /\ flags_clash = true.

Lemma VerifyScript_verdict scriptSig scriptPubKey : is_bytes scriptSig -> is_bytes scriptPubKey ->
  verdict (VerifyScript scriptSig scriptPubKey flags checker branch).
Proof.
  intros Hsig Hpk. unfold VerifyScript.
  assert (Hok : forall A (m : ev A) B (k : A -> ev B), (exists r, m = Ok r) ->
    (forall a, m = Ok (inr a) -> verdict (k a)) -> verdict (ev_bind m k)).
  { intros A m B k [[e|a] ->] Hk; simpl; [left; eauto|by apply Hk]. }
  assert (Heval : forall s st, is_bytes s -> Forall elem_ok st -> (length st <= 1000)%nat ->
    exists r, EvalScript s flags checker branch st = Ok r).
  { intros s st Hs Hst Hl. pose proof (EvalScript_ok s flags checker branch Hck st Hs Hst Hl).
    destruct (EvalScript s flags checker branch st); [eauto|done..]. }
  assert (Htop : forall s, exists r, top_is_true s = Ok r).
  { intros [|t s]; unfold top_is_true; [eauto|]. destruct (CastToBool t); eauto. }
  destruct (_ && negb _); [left; by eexists|].
  apply Hok; [apply Heval; [done|constructor|simpl; lia]|]. intros stack0 E0.
  pose proof (EvalScript_ok scriptSig flags checker branch Hck [] Hsig ltac:(constructor) ltac:(simpl; lia)) as H0s.
  rewrite E0 in H0s. destruct H0s as [Hs0 Hl0].
  apply Hok; [by apply Heval|]. intros stack Es. apply Hok; [apply Htop|]. intros [] _.
  apply Hok.
  - destruct (_ && CScript_IsPayToScriptHash scriptPubKey) eqn:Ep; [|by eexists]. zbool.
    destruct (negb _); [by eexists|]. destruct stack0 as [|pk2 rest].
    + rewrite p2sh_empty in Es by done. done.
    + apply Forall_cons in Hs0 as [[Hpk2 _] Hrest]. simpl in Hl0. destruct (Heval pk2 rest) as [[e|s2] ->]; [done|done|lia|by eexists|]. cbn [ev_bind].
      destruct (Htop s2) as [[e|[]] ->]; by eexists.
  - intros s2 _. unfold verdict, flags_clash. destruct (has_flag flags SCRIPT_VERIFY_CLEANSTACK); [|left; by eexists].
    destruct (has_flag flags SCRIPT_VERIFY_P2SH); [|by right]. left. cbn [negb]. destruct (negb _); by eexists.
Qed.
End VerifySafety.

(** (C12) [VerifyScript] always returns a verdict, with one exception.  For any
    scripts and flags, and any checker whose methods return or throw (that of a
    transaction does, [TransactionSignatureChecker_ok] in CheckInputs.v), it
    returns true or an error: no exception leaves it, neither the overflow
    assertions of script arithmetic nor the one that the stack is not empty
    before a P2SH evaluation fires, and every loop ends within its bound (a
    round per script byte, a round per public key).  The exception is the
    assertion that CLEANSTACK is used with P2SH only, which can fire only when
    the flags break that rule. *)
Theorem VerifyScript_total `{BaseSignatureChecker C, ScriptCryptoLaws}
  (scriptSig scriptPubKey : CScript) (flags branch : Z) (checker : C)
  (Hsig : is_bytes scriptSig) (Hpk : is_bytes scriptPubKey) (Hck : checker_ok checker) :
  (exists r, VerifyScript scriptSig scriptPubKey flags checker branch = Ok r)
  \/ VerifyScript scriptSig scriptPubKey flags checker branch = Abort
     /\ has_flag flags SCRIPT_VERIFY_CLEANSTACK && negb (has_flag flags SCRIPT_VERIFY_P2SH) = true.
Proof. by apply VerifyScript_verdict. Qed.

(** Resource limits of [EvalScript]: from a stack within the limits, an
    evaluation that succeeds leaves at most 1000 elements of at most 520
    bytes each, whatever the script computes. *)
Theorem EvalScript_bounded `{BaseSignatureChecker C, ScriptCryptoLaws}
  (script : CScript) (flags branch : Z) (checker : C) (stack s : list valtype)
  (Hck : checker_ok checker) (Hb : is_bytes script) (Hs : Forall elem_ok stack) (Hl : (length stack <= 1000)%nat)
  (Hr : EvalScript script flags checker branch stack = Ok (inr s)) :
  (length s <= 1000)%nat /\ Forall (fun v => is_bytes v /\ (length v <= 520)%nat) s.
Proof.
  pose proof (EvalScript_ok script flags checker branch Hck stack Hb Hs Hl) as Hok. rewrite Hr in Hok.
  by destruct Hok.
Qed.

(** ** Pay to public key hash *)

Definition p2pkh (h : bytes) : CScript := [OP_DUP; OP_HASH160; 20] ++ h ++ [OP_EQUALVERIFY; OP_CHECKSIG].

(** [EvalScript] catches every exception. *)
Definition caught {A} (m : ev A) : ev A := match m with Throw _ => set_error SCRIPT_ERR_UNKNOWN_ERROR | _ => m end.

Section P2PKH.
Context {C : Type} `{BaseSignatureChecker C} `{ScriptCryptoLaws}.
Context (flags : Z) (checker : C) (branch : Z).

Lemma minimal_push b : (2 <= length b <= 520)%nat -> CheckMinimalPush b (push_opcode b) = true.
Proof.
  intros Hl. unfold CheckMinimalPush, push_opcode, OP_PUSHDATA1.
  rewrite (proj2 (Z.eqb_neq _ 0)), (proj2 (Z.eqb_neq _ 1)) by lia. cbn [andb].
  destruct (Z.leb_spec (Z.of_nat (length b)) 75).
  - rewrite (proj2 (Z.ltb_lt _ _)) by lia. apply Z.eqb_refl.
  - rewrite (proj2 (Z.ltb_ge _ _)) by lia. destruct (_ <=? 255); [done|].
    destruct (Z.leb_spec (Z.of_nat (length b)) 65535); [done|lia].
Qed.

Lemma eval_step_push script b st :
  (2 <= length b <= 520)%nat -> es_vfExec st = [] -> (depth st < 1000)%nat ->
  eval_step script flags checker branch (push_opcode b) b st
    = ev_ret (mkEval (b :: es_stack st) (es_altstack st) [] (es_nOpCount st)).
Proof.
  intros Hl Hx Hd. unfold eval_step. rewrite Hx. cbn [forallb].
  rewrite (proj2 (Z.ltb_ge MAX_SCRIPT_ELEMENT_SIZE _)) by (unfold MAX_SCRIPT_ELEMENT_SIZE; lia).
  pose proof (push_opcode_le b) as Hle. unfold OP_PUSHDATA4 in Hle.
  rewrite (proj2 (Z.ltb_ge OP_16 _)) by (unfold OP_16; lia). cbn [andb].
  assert (Hdis : one_of (push_opcode b) disabled_opcodes = false).
  { unfold one_of, disabled_opcodes. cbn [existsb].
    repeat (rewrite (proj2 (Z.eqb_neq _ _)) by
      (unfold OP_CAT, OP_SUBSTR, OP_LEFT, OP_RIGHT, OP_INVERT, OP_AND, OP_OR, OP_XOR, OP_2MUL, OP_2DIV, OP_MUL,
         OP_DIV, OP_MOD, OP_LSHIFT, OP_RSHIFT, OP_CODESEPARATOR; lia)). done. }
  rewrite Hdis.
  assert (Hr : in_range 0 (push_opcode b) OP_PUSHDATA4 = true).
  { unfold in_range. rewrite (proj2 (Z.leb_le _ OP_PUSHDATA4)) by (unfold OP_PUSHDATA4; lia).
    rewrite andb_true_r. apply Z.leb_le. unfold push_opcode, OP_PUSHDATA1, OP_PUSHDATA2, OP_PUSHDATA4.
    repeat case_match; lia. }
  rewrite Hr, minimal_push by done. cbn [negb]. rewrite andb_false_r. cbn [ev_bind ev_ret with_stack es_stack es_altstack length].
  unfold depth in Hd. rewrite (proj2 (Nat.ltb_ge _ _)) by (unfold MAX_STACK_SIZE; simpl; lia). done.
Qed.

(** A push in front of the rest of a script. *)
Lemma eval_loop_push script f b rest st :
  (2 <= length b <= 520)%nat -> es_vfExec st = [] -> (depth st < 1000)%nat ->
  Z.of_nat (length (pushed b ++ rest)) < 2 ^ 32 -> (length (pushed b ++ rest) <= f)%nat ->
  eval_loop script flags checker branch f (pushed b ++ rest) st
    = eval_loop script flags checker branch (length rest) rest
        (mkEval (b :: es_stack st) (es_altstack st) [] (es_nOpCount st)).
Proof.
  intros Hl Hx Hd Hlen Hf. pose proof (pushed_not_nil b) as Hn.
  assert (1 <= length (pushed b))%nat by (destruct (pushed b); [done|simpl; lia]).
  pose proof (length_app (pushed b) rest) as Ela.
  destruct f as [|f]; [lia|]. cbn [eval_loop].
  destruct (pushed b ++ rest) as [|x pc] eqn:E; [by destruct (pushed b)|]. rewrite <- E in *.
  rewrite GetOp2_pushed by done. cbn [go_ret go_opcode go_vch go_pc negb].
  rewrite eval_step_push by done. cbn [ev_bind ev_ret]. apply eval_loop_fuel; lia.
Qed.

(** An opcode without operand in front of the rest of a script. *)
Lemma eval_loop_op script op rest st :
  OP_PUSHDATA4 < op ->
  eval_loop script flags checker branch (length (op :: rest)) (op :: rest) st
    = let! st' := eval_step script flags checker branch op [] st in
      eval_loop script flags checker branch (length rest) rest st'.
Proof.
  intros Hop. cbn [length eval_loop GetOp2]. rewrite (proj2 (Z.leb_gt _ _)) by lia. done.
Qed.

Lemma eval_sig_pushes sig key : (2 <= length sig <= 520)%nat -> (2 <= length key <= 520)%nat ->
  EvalScript (push_all [sig; key]) flags checker branch [] = Ok (inr [key; sig]).
Proof.
  intros Hs Hk. rewrite push_all_concat. cbn [fmap list_fmap concat]. rewrite app_nil_r.
  assert (Hp : forall b, (length b <= 520)%nat -> (length (pushed b) <= 525)%nat).
  { intros b Hb. unfold pushed, CScript_push_data. cbn [app]. rewrite length_app.
    repeat case_match; simpl; lia. }
  pose proof (Hp sig ltac:(lia)). pose proof (Hp key ltac:(lia)).
  unfold EvalScript. rewrite (proj2 (Z.ltb_ge _ _)) by (unfold MAX_SCRIPT_SIZE; rewrite length_app; lia).
  rewrite eval_loop_push by (done || (unfold depth; simpl; lia) || (rewrite ?length_app; lia)).
  rewrite <- (app_nil_r (pushed key)).
  rewrite eval_loop_push by (done || (unfold depth; simpl; lia) || (rewrite ?length_app; simpl; lia)).
  done.
Qed.

Lemma eval_p2pkh sig key h : length h = 20%nat ->
  EvalScript (p2pkh h) flags checker branch [key; sig] =
    if bool_decide (h = CHash160 key)
    then let! ok := caught (checked_sig (p2pkh h) flags checker branch sig key) in Ok (inr [b2v ok])
    else Ok (inl SCRIPT_ERR_EQUALVERIFY).
Proof.
  intros Hh. unfold EvalScript.
  assert (Hlen : length (p2pkh h) = 25%nat) by (unfold p2pkh; rewrite !length_app; simpl; lia).
  rewrite (proj2 (Z.ltb_ge _ _)) by (unfold MAX_SCRIPT_SIZE; lia).
  assert (Ep : p2pkh h = OP_DUP :: OP_HASH160 :: pushed h ++ [OP_EQUALVERIFY; OP_CHECKSIG]).
  { unfold p2pkh, pushed, CScript_push_data. rewrite Hh. done. }
  generalize (p2pkh h) at 1 4 as scr. intros scr. rewrite Ep.
  rewrite eval_loop_op by done.
  change (eval_step scr flags checker branch OP_DUP [] (mkEval [key; sig] [] [] 0))
    with (ev_ret (mkEval [key; key; sig] [] [] 1)). cbn [ev_bind ev_ret].
  rewrite eval_loop_op by done.
  change (eval_step scr flags checker branch OP_HASH160 [] (mkEval [key; key; sig] [] [] 1))
    with (ev_ret (mkEval [CHash160 key; key; sig] [] [] 2)). cbn [ev_bind ev_ret].
  assert (Hp : (length (pushed h) <= 21)%nat).
  { unfold pushed, CScript_push_data. rewrite Hh. simpl. lia. }
  rewrite eval_loop_push by (done || lia || (unfold depth; simpl; lia) || (rewrite length_app; simpl; lia)).
  cbn [es_stack es_altstack es_nOpCount].
  rewrite eval_loop_op by done.
  transitivity (match (let! st := (if bool_decide (CHash160 key = h)
      then ev_ret (mkEval [key; sig] [] [] 3) else set_error SCRIPT_ERR_EQUALVERIFY) in
      let! st := eval_step scr flags checker branch OP_CHECKSIG [] st in ev_ret st) with
    | Ok (inr st) => if bool_decide (es_vfExec st = []) then ev_ret (es_stack st)
                     else set_error SCRIPT_ERR_UNBALANCED_CONDITIONAL
    | Ok (inl e) => Ok (inl e)
    | Throw _ => set_error SCRIPT_ERR_UNKNOWN_ERROR
    | Abort => Abort
    end).
  { assert (Eeq : eval_step scr flags checker branch OP_EQUALVERIFY [] (mkEval [h; CHash160 key; key; sig] [] [] 2)
      = if bool_decide (CHash160 key = h) then ev_ret (mkEval [key; sig] [] [] 3)
        else set_error SCRIPT_ERR_EQUALVERIFY).
    { unfold eval_step. change (forallb (fun b => b) []) with true. cbn -[bool_decide].
      destruct (bool_decide (CHash160 key = h)); done. }
    rewrite Eeq. destruct (bool_decide (CHash160 key = h)); [|done]. cbn [ev_bind ev_ret].
    rewrite eval_loop_op by done. by destruct (eval_step _ _ _ _ _ _ _) as [[]| |]. }
  rewrite (bool_decide_ext (h = CHash160 key) (CHash160 key = h)) by done.
  destruct (bool_decide (CHash160 key = h)); [|done]. cbn [ev_bind ev_ret].
  change (eval_step scr flags checker branch OP_CHECKSIG [] (mkEval [key; sig] [] [] 3))
    with (let! st := (let! ok := checked_sig scr flags checker branch sig key in
            ev_ret (mkEval [b2v ok] [] [] 4)) in
          if (MAX_STACK_SIZE <? length (es_stack st) + length (es_altstack st))%nat
          then set_error SCRIPT_ERR_STACK_SIZE else ev_ret st).
  unfold checked_sig.
  destruct (CheckSignatureEncoding sig flags); [|done].
  destruct (CheckPubKeyEncoding key flags); [|done]. by destruct (CheckSig _ _ _ _ _).
Qed.

Lemma VerifyScript_P2PKH sig key h :
  (2 <= length sig <= 520)%nat -> (2 <= length key <= 520)%nat -> length h = 20%nat ->
  (has_flag flags SCRIPT_VERIFY_CLEANSTACK = true -> has_flag flags SCRIPT_VERIFY_P2SH = true) ->
  VerifyScript (push_all [sig; key]) (p2pkh h) flags checker branch =
    if bool_decide (h = CHash160 key)
    then let! ok := caught (checked_sig (p2pkh h) flags checker branch sig key) in
         if ok then ev_ret tt else set_error SCRIPT_ERR_EVAL_FALSE
    else set_error SCRIPT_ERR_EQUALVERIFY.
Proof.
  intros Hs Hk Hh Hclean. unfold VerifyScript.
  assert (Hpo : CScript_IsPushOnly (push_all [sig; key]) = true).
  { unfold CScript_IsPushOnly. rewrite push_all_concat at 2. apply push_only_loop_pushes.
    assert (Hp : forall b, (length b <= 520)%nat -> (length (pushed b) <= 525)%nat).
    { intros b Hb. unfold pushed, CScript_push_data. cbn [app]. rewrite length_app. repeat case_match; simpl; lia. }
    pose proof (Hp sig ltac:(lia)). pose proof (Hp key ltac:(lia)).
    cbn [fmap list_fmap concat]. rewrite app_nil_r, length_app. lia. }
  rewrite Hpo, andb_false_r, eval_sig_pushes by done. cbn [ev_bind].
  rewrite eval_p2pkh by done. destruct (bool_decide (h = CHash160 key)); [|done].
  destruct (checked_sig _ _ _ _ sig key) as [[e|ok]| |]; try done. cbn [caught ev_bind].
  assert (Hnp : CScript_IsPayToScriptHash (p2pkh h) = false).
  { unfold CScript_IsPayToScriptHash. rewrite bool_decide_false; [done|].
    unfold p2pkh. rewrite !length_app. simpl. lia. }
  rewrite Hnp, andb_false_r. destruct ok; [|done]. cbn [top_is_true b2v ev_bind ev_ret].
  change (CastToBool vchTrue) with true. cbn [ev_bind ev_ret].
  destruct (has_flag flags SCRIPT_VERIFY_CLEANSTACK); [|done]. by rewrite Hclean.
Qed.
End P2PKH.

(** Pay to public key hash: a scriptSig that pushes a signature and a key
    satisfies [DUP HASH160 <h> EQUALVERIFY CHECKSIG] exactly when the key
    hashes to [h], both encodings pass the checks of the flags, and the
    checker accepts the signature for that key over this very script; the
    other cases end in the corresponding script error. *)
Theorem P2PKH_verified `{BaseSignatureChecker C, ScriptCryptoLaws}
  (sig key h : bytes) (flags branch : Z) (checker : C)
  (Hs : (2 <= length sig <= 520)%nat) (Hk : (2 <= length key <= 520)%nat) (Hh : length h = 20%nat)
  (Hclean : has_flag flags SCRIPT_VERIFY_CLEANSTACK = true -> has_flag flags SCRIPT_VERIFY_P2SH = true) :
  VerifyScript (push_all [sig; key]) (p2pkh h) flags checker branch = Ok (inr tt)
  <-> h = CHash160 key /\ CheckSignatureEncoding sig flags = CheckOk
      /\ CheckPubKeyEncoding key flags = CheckOk /\ CheckSig checker sig key (p2pkh h) branch = Ok true.
Proof.
  rewrite VerifyScript_P2PKH by done. case_bool_decide as Eh; [|naive_solver].
  unfold checked_sig. destruct (CheckSignatureEncoding sig flags); simpl; [|naive_solver].
  destruct (CheckPubKeyEncoding key flags); simpl; [|naive_solver].
  destruct (CheckSig checker sig key (p2pkh h) branch) as [[]| |]; naive_solver.
Qed.

(** ** A concrete checker *)

(** A checker that accepts one signature, and stand-ins for the hash
    functions with the right digest sizes. *)
#[local] Instance one_sig_checker : BaseSignatureChecker bytes := {|
  CheckSig c sig _ _ _ := Ok (bool_decide (c = sig));
  CheckLockTime _ n := Ok (n <? 100)
|}.
Lemma one_sig_checker_ok (c : bytes) : checker_ok c.
Proof. done. Qed.
#[local] Instance toy_crypto : ScriptCrypto := {|
  ripemd160 b := le_bytes 20 (le_val b);
  sha1 b := le_bytes 20 (le_val b + 1);
  sha256 b := le_bytes 32 (le_val b);
  CheckLowS _ := true
|}.
#[local] Instance toy_crypto_laws : ScriptCryptoLaws.
Proof. split; intros b; (split; [apply length_le_bytes|apply le_bytes_bytes]). Qed.

Lemma VerifyScript_total_witness :
  exists r, VerifyScript [OP_1] [OP_1; OP_ADD] SCRIPT_VERIFY_P2SH ([1; 2] : bytes) 0 = Ok r.
Proof.
  destruct (VerifyScript_total [OP_1] [OP_1; OP_ADD] SCRIPT_VERIFY_P2SH 0 ([1; 2] : bytes)) as [Hr|[_ Hf]];
    [repeat constructor; unfold is_u8; vm_compute; done..|apply one_sig_checker_ok|exact Hr|].
  vm_compute in Hf. discriminate Hf.
Defined.

Lemma EvalScript_bounded_witness :
  (length ([[2%Z]] : list valtype) <= 1000)%nat
  /\ Forall (fun v => is_bytes v /\ (length v <= 520)%nat) ([[2]] : list valtype).
Proof.
  apply (EvalScript_bounded [OP_1; OP_1; OP_ADD] 0 0 ([1; 2] : bytes) [] [[2]]);
    [apply one_sig_checker_ok|repeat constructor; unfold is_u8; vm_compute; done|constructor|simpl; lia|vm_compute; reflexivity].
Defined.

Lemma P2PKH_verified_witness :
  VerifyScript (push_all [[1; 2]; [3; 4]]) (p2pkh (CHash160 [3; 4])) 0 ([1; 2] : bytes) 0 = Ok (inr tt)
  <-> CHash160 [3; 4] = CHash160 [3; 4] /\ CheckSignatureEncoding [1; 2] 0 = CheckOk
      /\ CheckPubKeyEncoding [3; 4] 0 = CheckOk
      /\ CheckSig ([1; 2] : bytes) [1; 2] [3; 4] (p2pkh (CHash160 [3; 4])) 0 = Ok true.
Proof.
  apply P2PKH_verified; [simpl; lia|simpl; lia|reflexivity|intros Hf; vm_compute in Hf; discriminate Hf].
Defined.
