(* ===== verification/SignatureEncoding.v ===== *)
(** * Strict DER signatures

    The byte tests of [IsValidSignatureEncoding] (script/interpreter.cpp)
    against the format its comment describes:
    [0x30 len 0x02 lenR R 0x02 lenS S sighash], with R and S non-negative and
    minimally padded. *)
From S2P Require Import Prelude Transaction Script Interpreter.
From stdpp Require Import prelude strings list.
#[local] Open Scope Z_scope.

(** A DER integer's contents: not empty, not negative, no superfluous zero. *)
Definition der_int (x : bytes) : Prop :=
  match x with
  | [] => False
  | [b] => b < 128
  | b :: c :: _ => b < 128 /\ (b = 0 -> 128 <= c)
  end.

Definition der_signature (R S : bytes) (hashtype : Z) : bytes :=
  [0x30; Z.of_nat (length R + length S + 4); 0x02; Z.of_nat (length R)] ++ R
  ++ [0x02; Z.of_nat (length S)] ++ S ++ [hashtype].

Lemma byte_at_app_l l1 l2 i : (i < length l1)%nat -> byte_at (l1 ++ l2) i = byte_at l1 i.
Proof. intros Hi. unfold byte_at. by rewrite lookup_app_l. Qed.

Lemma byte_at_app_r l1 l2 i k : i = (length l1 + k)%nat -> byte_at (l1 ++ l2) i = byte_at l2 k.
Proof. intros ->. unfold byte_at. rewrite lookup_app_r by lia. f_equal. f_equal. lia. Qed.

(** The layout, from the lengths alone. *)
Lemma sig_layout (sig : bytes) (r s : nat) : length sig = (r + s + 7)%nat ->
  exists b0 b1 b2 b3 R x y S h, sig = [b0; b1; b2; b3] ++ R ++ [x; y] ++ S ++ [h]
    /\ length R = r /\ length S = s.
Proof.
  intros Hl. do 4 (destruct sig as [|? sig]; [simpl in Hl; lia|]). simpl in Hl.
  exists z, z0, z1, z2, (take r sig).
  assert (Hd : length (drop r sig) = (s + 3)%nat) by (rewrite length_drop; lia).
  destruct (drop r sig) as [|x [|y t]] eqn:E; [simpl in Hd; lia..|]. simpl in Hd.
  destruct (snoc_inv t) as (S & h & ->); [destruct t; simpl in Hd; [lia|done]|].
  rewrite length_app in Hd. simpl in Hd. exists x, y, S, h.
  split_and!; [|rewrite length_take; lia|lia].
  rewrite <- (take_drop r sig) at 1. by rewrite E.
Qed.

(** The tests on a laid-out signature. *)
Definition int_test (x : bytes) : bool :=
  negb (length x =? 0)%nat && (byte_at x 0 <? 128)
  && negb ((1 <? length x)%nat && (byte_at x 0 =? 0) && (byte_at x 1 <? 128)).

Lemma int_test_der x : is_bytes x -> int_test x = true <-> der_int x.
Proof.
  intros Hx. unfold int_test, der_int. destruct Hx as [|b x Hb Hx]; [done|].
  change (byte_at (b :: x) 0) with b. destruct Hx as [|c x Hc Hx]; simpl.
  - rewrite andb_true_r. apply Z.ltb_lt.
  - change (byte_at (b :: c :: x) 1) with c. rewrite andb_true_iff, negb_true_iff, andb_false_iff, Z.ltb_lt, Z.ltb_ge, Z.eqb_neq.
    split; [intros [? [?|?]]|intros [? H2]; split; [done|]; destruct (decide (b = 0)); [right|left]]; auto; lia.
Qed.

Lemma IsValidSignatureEncoding_layout b0 b1 b2 R x y S h :
  is_bytes R -> is_bytes S ->
  IsValidSignatureEncoding ([b0; b1; b2; Z.of_nat (length R)] ++ R ++ [x; y] ++ S ++ [h]) =
    (length R + length S <=? 66)%nat && (b0 =? 0x30) && (b1 =? Z.of_nat (length R + length S + 4))
    && (y =? Z.of_nat (length S)) && (b2 =? 0x02) && int_test R && (x =? 0x02) && int_test S.
Proof.
  intros HbR HbS. set (sig := [b0; b1; b2; Z.of_nat (length R)] ++ R ++ [x; y] ++ S ++ [h]).
  assert (Hlen : Z.of_nat (length sig) = Z.of_nat (length R + length S) + 7)
    by (subst sig; rewrite !length_app; simpl; lia).
  unfold IsValidSignatureEncoding. cbv zeta. rewrite Hlen.
  change (byte_at sig (Z.to_nat 0)) with b0. change (byte_at sig (Z.to_nat 1)) with b1.
  change (byte_at sig (Z.to_nat 2)) with b2. change (byte_at sig (Z.to_nat 3)) with (Z.of_nat (length R)).
  assert (Ey : byte_at sig (Z.to_nat (5 + Z.of_nat (length R))) = y).
  { unfold sig. rewrite (byte_at_app_r _ _ _ (length R + 1)) by (simpl; lia).
    by rewrite (byte_at_app_r _ _ _ 1) by lia. }
  assert (Ex : byte_at sig (Z.to_nat (Z.of_nat (length R) + 4)) = x).
  { unfold sig. rewrite (byte_at_app_r _ _ _ (length R)) by (simpl; lia).
    by rewrite (byte_at_app_r _ _ _ 0) by lia. }
  assert (Er : forall k, (k < length R)%nat -> byte_at sig (4 + k) = byte_at R k).
  { intros k Hk. unfold sig. rewrite (byte_at_app_r _ _ _ k) by (simpl; lia). by rewrite byte_at_app_l. }
  assert (Es : forall k, (k < length S)%nat -> byte_at sig (length R + 6 + k) = byte_at S k).
  { intros k Hk. unfold sig. rewrite (byte_at_app_r _ _ _ (length R + 2 + k)) by (simpl; lia).
    rewrite (byte_at_app_r _ _ _ (2 + k)) by lia. rewrite (byte_at_app_r _ _ _ k) by (simpl; lia).
    by rewrite byte_at_app_l. }
  rewrite Ey, Ex. unfold int_test.
  assert (Hb : forall (l : bytes) k, is_bytes l -> (k < length l)%nat -> is_u8 (byte_at l k)).
  { intros l k Hl Hk. unfold byte_at. destruct (lookup_lt_is_Some_2 l k Hk) as [b Eb]. rewrite Eb.
    exact (Forall_lookup_1 _ _ _ _ Hl Eb). }
  destruct (Nat.eqb_spec (length R) 0) as [R0|R0].
  { rewrite R0. cbn [negb andb]. rewrite !andb_false_r. cbn [andb].
    repeat match goal with |- context [if ?c then _ else _] => destruct c eqn:? end; done. }
  destruct (Nat.eqb_spec (length S) 0) as [S0|S0].
  { rewrite S0. cbn [negb andb]. rewrite andb_false_r. change (Z.of_nat 0) with 0.
    destruct (Z.eqb_spec y 0) as [->|]; [cbn [Z.eqb]|];
    repeat match goal with |- context [if ?c then _ else _] => destruct c eqn:? end; try done. zbool. lia. }
  rewrite (proj2 (Z.ltb_ge _ 9)) by lia.
  destruct (Nat.leb_spec (length R + length S) 66); cbn [andb];
    [rewrite (proj2 (Z.ltb_ge 73 _)) by lia|by rewrite (proj2 (Z.ltb_lt 73 _)) by lia].
  destruct (b0 =? 0x30); cbn [negb andb]; [|done].
  replace (Z.of_nat (length R + length S) + 7 - 3) with (Z.of_nat (length R + length S + 4)) by lia.
  destruct (b1 =? _); cbn [negb andb]; [|done].
  rewrite (proj2 (Z.leb_gt _ (5 + _))) by lia.
  destruct (Z.eqb_spec y (Z.of_nat (length S))) as [->|Hy]; cbn [andb];
    [rewrite (proj2 (Z.eqb_eq _ (Z.of_nat (length R + length S) + 7))) by lia
    |by rewrite (proj2 (Z.eqb_neq _ (Z.of_nat (length R + length S) + 7))) by lia].
  cbn [negb]. destruct (b2 =? 2); cbn [negb andb]; [|done].
  rewrite (proj2 (Z.eqb_neq (Z.of_nat (length R)) 0)) by lia.
  change (Z.to_nat 4) with (4 + 0)%nat. rewrite (Er 0%nat), land_80 by (lia || (apply Hb; [done|lia])).
  destruct (byte_at R 0 <? 128); cbn [negb andb]; [|done].
  assert (E2 : (1 <? Z.of_nat (length R)) && (byte_at R 0 =? 0) && (Z.land (byte_at sig (Z.to_nat 5)) 128 =? 0)
            = (1 <? length R)%nat && (byte_at R 0 =? 0) && (byte_at R 1 <? 128)).
  { destruct (Nat.ltb_spec 1 (length R)); [|by rewrite (proj2 (Z.ltb_ge 1 _)) by lia].
    rewrite (proj2 (Z.ltb_lt 1 _)) by lia. change (Z.to_nat 5) with (4 + 1)%nat.
    by rewrite (Er 1%nat), land_80 by (lia || (apply Hb; [done|lia])). }
  rewrite E2. destruct ((1 <? length R)%nat && _ && _); cbn [negb andb]; [done|].
  destruct (x =? 2); cbn [negb andb]; [|done].
  rewrite (proj2 (Z.eqb_neq (Z.of_nat (length S)) 0)) by lia.
  replace (Z.to_nat (Z.of_nat (length R) + 6)) with (length R + 6 + 0)%nat by lia.
  rewrite (Es 0%nat), land_80 by (lia || (apply Hb; [done|lia])).
  destruct (byte_at S 0 <? 128); cbn [negb andb]; [|done].
  assert (E3 : (1 <? Z.of_nat (length S)) && (byte_at S 0 =? 0)
               && (Z.land (byte_at sig (Z.to_nat (Z.of_nat (length R) + 7))) 128 =? 0)
            = (1 <? length S)%nat && (byte_at S 0 =? 0) && (byte_at S 1 <? 128)).
  { destruct (Nat.ltb_spec 1 (length S)); [|by rewrite (proj2 (Z.ltb_ge 1 _)) by lia].
    rewrite (proj2 (Z.ltb_lt 1 _)) by lia.
    replace (Z.to_nat (Z.of_nat (length R) + 7)) with (length R + 6 + 1)%nat by lia.
    by rewrite (Es 1%nat), land_80 by (lia || (apply Hb; [done|lia])). }
  rewrite E3. by destruct ((1 <? length S)%nat && _ && _).
Qed.

(** The lengths a valid signature declares are those of its parts. *)
Lemma IsValidSignatureEncoding_lengths sig : is_bytes sig -> IsValidSignatureEncoding sig = true ->
  exists r s, length sig = (r + s + 7)%nat /\ byte_at sig 3 = Z.of_nat r
    /\ byte_at sig (5 + r) = Z.of_nat s.
Proof.
  intros Hb Hv. unfold IsValidSignatureEncoding in Hv. cbv zeta in Hv.
  repeat match type of Hv with
  | (if ?c then false else _) = true => let E := fresh "E" in destruct c eqn:E; [done|]
  end.
  assert (Hu : forall k, 0 <= byte_at sig k).
  { intros k. unfold byte_at. destruct (sig !! k) as [b|] eqn:Eb; [|simpl; lia].
    apply (Forall_lookup_1 _ _ _ _ Hb) in Eb. unfold is_u8 in Eb. simpl. lia. }
  zbool. change (Z.to_nat 3) with 3%nat in *.
  set (r := byte_at sig 3) in *. pose proof (Hu 3%nat). fold r in H.
  exists (Z.to_nat r), (Z.to_nat (byte_at sig (Z.to_nat (5 + r)))).
  pose proof (Hu (Z.to_nat (5 + r))).
  replace (5 + Z.to_nat r)%nat with (Z.to_nat (5 + r)) by lia. lia.
Qed.

(** (C29) [IsValidSignatureEncoding] accepts exactly the strict DER signatures
    followed by a sighash byte: positive, minimally padded R and S whose
    declared lengths add up, 73 bytes at most in all. *)
Theorem IsValidSignatureEncoding_der (sig : bytes) (Hb : is_bytes sig) :
  IsValidSignatureEncoding sig = true <->
    exists R S h, sig = der_signature R S h /\ der_int R /\ der_int S /\ (length sig <= 73)%nat.
Proof.
  split.
  - intros Hv. destruct (IsValidSignatureEncoding_lengths sig Hb Hv) as (r & s & Hl & E3 & Es).
    destruct (sig_layout sig r s Hl) as (b0 & b1 & b2 & b3 & R & x & y & S & h & -> & HR & HS).
    change (byte_at ([b0; b1; b2; b3] ++ R ++ [x; y] ++ S ++ [h]) 3) with b3 in E3.
    rewrite (byte_at_app_r _ _ _ (length R + 1)), (byte_at_app_r _ _ _ 1) in Es by (simpl; lia).
    change (byte_at ([x; y] ++ S ++ [h]) 1) with y in Es. subst b3 y r s.
    repeat (apply Forall_app in Hb as [? Hb]).
    rewrite IsValidSignatureEncoding_layout in Hv by done. zbool.
    exists R, S, h. unfold der_signature. rewrite <- !int_test_der by done. subst.
    split_and!; [done|done|done|]. rewrite !length_app. simpl.
    match goal with Hle : (_ <=? 66)%nat = true |- _ => apply Nat.leb_le in Hle end. lia.
  - intros (R & S & h & -> & HR & HS & Hl). unfold der_signature in *.
    assert (is_bytes R /\ is_bytes S) as [HbR HbS] by (repeat (apply Forall_app in Hb as [? Hb]); done).
    rewrite IsValidSignatureEncoding_layout by done. rewrite !length_app in Hl. simpl in Hl.
    rewrite (proj2 (Nat.leb_le _ _)) by lia. rewrite !Z.eqb_refl.
    by rewrite (proj2 (int_test_der R HbR) HR), (proj2 (int_test_der S HbS) HS).
Qed.

Lemma IsValidSignatureEncoding_der_witness :
  IsValidSignatureEncoding (der_signature [0x7f] [0; 0x80] 1) = true <->
    exists R S h, der_signature [0x7f] [0; 0x80] 1 = der_signature R S h /\ der_int R /\ der_int S
      /\ (length (der_signature [0x7f%Z] [0%Z; 0x80%Z] 1%Z) <= 73)%nat.
Proof.
  apply IsValidSignatureEncoding_der. unfold der_signature. repeat constructor; unfold is_u8; simpl; lia.
Defined.
