(* ===== verification/Coins.v ===== *)
(** * CCoins: the unspent outputs of one transaction

    coins.h, class [CCoins]: construction from a transaction, the trailing
    null clean-up, spending an output, availability and the equality that
    identifies all fully spent values. *)
From S2P Require Import Prelude Transaction.
From stdpp Require Import prelude gmap strings list.
#[local] Open Scope Z_scope.

Record CCoins := mkCCoins {
  fCoinBase : bool;
  vout : list CTxOut;
  nHeight : Z;
  nVersion : Z
}.

#[global] Instance CCoins_eq_dec : EqDecision CCoins.
Proof. solve_decision. Defined.

Definition with_vout (c : CCoins) (l : list CTxOut) : CCoins :=
  mkCCoins (fCoinBase c) l (nHeight c) (nVersion c).

(** [CCoins()] and the effect of [Clear()]. *)
Definition CCoins_new : CCoins := mkCCoins false [] 0 0.
Definition CCoins_Clear (c : CCoins) : CCoins := mkCCoins false [] 0 0.

(** [while (vout.size() > 0 && vout.back().IsNull()) vout.pop_back()], run on
    the vector read from its back. *)
Fixpoint pop_null (rvout : list CTxOut) : list CTxOut :=
  match rvout with
  | [] => []
  | o :: rest => if CTxOut_IsNull o then pop_null rest else rvout
  end.

Definition CCoins_Cleanup (c : CCoins) : CCoins :=
  with_vout c (reverse (pop_null (reverse (vout c)))).

Definition CCoins_ClearUnspendable (c : CCoins) : CCoins :=
  CCoins_Cleanup (with_vout c
    ((fun o => if CScript_IsUnspendable (scriptPubKey o) then CTxOut_SetNull else o) <$> vout c)).

Definition CCoins_FromTx (tx : CMutableTransaction) (nHeightIn : Z) : CCoins :=
  CCoins_ClearUnspendable (mkCCoins (IsCoinBase tx) (tx_vout tx) nHeightIn (tx_nVersion tx)).

Definition CCoins_IsAvailable (c : CCoins) (nPos : nat) : bool :=
  match vout c !! nPos with Some o => negb (CTxOut_IsNull o) | None => false end.

Definition CCoins_IsPruned (c : CCoins) : bool := forallb CTxOut_IsNull (vout c).

(** [operator==]: empty [CCoins] objects are always equal. *)
Definition CCoins_eqb (a b : CCoins) : bool :=
  if CCoins_IsPruned a && CCoins_IsPruned b then true
  else bool_decide (fCoinBase a = fCoinBase b) && bool_decide (nHeight a = nHeight b)
       && bool_decide (nVersion a = nVersion b) && bool_decide (vout a = vout b).

Definition CCoins_Spend (c : CCoins) (nPos : nat) : bool * CCoins :=
  match vout c !! nPos with
  | None => (false, c)
  | Some o =>
      if CTxOut_IsNull o then (false, c)
      else (true, CCoins_Cleanup (with_vout c (<[nPos := CTxOut_SetNull]> (vout c))))
  end.

(** ** The unspent outputs, by position *)

(** The output at a position, when it is unspent. *)
Definition unspent (c : CCoins) (n : nat) : option CTxOut :=
  match vout c !! n with
  | Some o => if CTxOut_IsNull o then None else Some o
  | None => None
  end.

Lemma IsAvailable_unspent c n :
  CCoins_IsAvailable c n = match unspent c n with Some _ => true | None => false end.
Proof. unfold CCoins_IsAvailable, unspent. destruct (vout c !! n) as [o|]; [|done]. by destruct (CTxOut_IsNull o). Qed.

Lemma IsPruned_unspent c : CCoins_IsPruned c = true <-> forall n, unspent c n = None.
Proof.
  unfold CCoins_IsPruned, unspent. induction (vout c) as [|o l IH]; simpl.
  - split; [|done]. intros _ n. by destruct n.
  - rewrite andb_true_iff, IH. split.
    + intros [Ho Hl] [|n]; simpl; [by rewrite Ho|apply Hl].
    + intros H. split; [|intros n; apply (H (S n))].
      specialize (H 0%nat). simpl in H. by destruct (CTxOut_IsNull o).
Qed.

(** The clean-up removes a run of null outputs at the back, and stops at an
    output that is not null. *)
Lemma pop_null_split l :
  exists nulls, l = nulls ++ pop_null l /\ Forall (fun o => CTxOut_IsNull o = true) nulls
    /\ (forall o r, pop_null l = o :: r -> CTxOut_IsNull o = false).
Proof.
  induction l as [|o l (nulls & Hl & HF & Hh)]; simpl; [by exists []|].
  destruct (CTxOut_IsNull o) eqn:Eo.
  - exists (o :: nulls). simpl. rewrite <- Hl. auto.
  - exists []. split; [done|]. split; [done|]. by intros ? ? [= -> ->].
Qed.

Lemma Cleanup_split c :
  exists nulls, vout c = vout (CCoins_Cleanup c) ++ nulls
    /\ Forall (fun o => CTxOut_IsNull o = true) nulls
    /\ (forall o, last (vout (CCoins_Cleanup c)) = Some o -> CTxOut_IsNull o = false).
Proof.
  destruct (pop_null_split (reverse (vout c))) as (nulls & Hl & HF & Hh).
  exists (reverse nulls). simpl. split; [|split].
  - rewrite <- reverse_app, <- Hl. by rewrite reverse_involutive.
  - by apply Forall_reverse.
  - intros o Ho. rewrite last_reverse in Ho.
    destruct (pop_null (reverse (vout c))) as [|o' r] eqn:E; simpl in Ho; [done|].
    simplify_eq. eauto.
Qed.

Lemma unspent_Cleanup c n : unspent (CCoins_Cleanup c) n = unspent c n.
Proof.
  destruct (Cleanup_split c) as (nulls & Hv & HF & _).
  unfold unspent. rewrite Hv. destruct (decide (n < length (vout (CCoins_Cleanup c)))%nat) as [Hn|Hn].
  - by rewrite lookup_app_l.
  - rewrite lookup_app_r by lia. rewrite (lookup_ge_None_2 (vout _)) by lia.
    destruct (nulls !! _) as [o|] eqn:Eo; [|done].
    by rewrite (Forall_lookup_1 _ _ _ _ HF Eo).
Qed.

Lemma IsPruned_Cleanup c : CCoins_IsPruned (CCoins_Cleanup c) = CCoins_IsPruned c.
Proof.
  apply eq_bool_prop_intro. rewrite !Is_true_true, !IsPruned_unspent.
  by setoid_rewrite unspent_Cleanup.
Qed.

Lemma IsPruned_Cleanup_nil c : CCoins_IsPruned c = true -> vout (CCoins_Cleanup c) = [].
Proof.
  intros Hp. destruct (Cleanup_split c) as (nulls & Hv & HF & Hlast).
  destruct (vout (CCoins_Cleanup c)) as [|o l] eqn:E using rev_ind; [done|].
  rewrite last_snoc in Hlast. specialize (Hlast o eq_refl).
  rewrite <- IsPruned_Cleanup in Hp. unfold CCoins_IsPruned in Hp.
  rewrite E in Hp. rewrite forallb_app in Hp. simpl in Hp. rewrite Hlast, andb_false_r in Hp. done.
Qed.

Lemma Cleanup_fixed c :
  (forall o, last (vout c) = Some o -> CTxOut_IsNull o = false) -> CCoins_Cleanup c = c.
Proof.
  intros Hl. destruct c as [cb l h v]. unfold CCoins_Cleanup, with_vout. simpl in *. f_equal.
  rewrite <- (reverse_involutive l) at 2. f_equal.
  rewrite <- (reverse_involutive l), last_reverse in Hl.
  destruct (reverse l) as [|o r]; simpl in *; [done|]. by rewrite (Hl o).
Qed.

Lemma Cleanup_idemp c : CCoins_Cleanup (CCoins_Cleanup c) = CCoins_Cleanup c.
Proof. apply Cleanup_fixed. by destruct (Cleanup_split c) as (? & _ & _ & ?). Qed.

(** Two cleaned-up values with the same metadata and the same unspent outputs
    have the same [vout], when spent slots hold the canonical null output. *)
Definition canonical_nulls (l : list CTxOut) : Prop :=
  Forall (fun o => CTxOut_IsNull o = true -> o = CTxOut_SetNull) l.

(** ** Spend *)

Lemma unspent_insert_null c n m :
  unspent (with_vout c (<[n := CTxOut_SetNull]> (vout c))) m =
    if decide (n = m) then None else unspent c m.
Proof.
  unfold unspent. simpl. case_decide as E.
  - subst. destruct (decide (m < length (vout c))%nat).
    + by rewrite list_lookup_insert_eq.
    + rewrite list_insert_ge by lia. by rewrite lookup_ge_None_2 by lia.
  - by rewrite list_lookup_insert_ne.
Qed.

(** Spending output [nPos] succeeds exactly when the output is unspent;
    on success that output is gone, every other unspent output and the
    metadata are kept, and no null output is left at the back; on failure
    nothing changes. *)
Theorem Spend_spec (c : CCoins) (nPos : nat) :
  match CCoins_Spend c nPos with
  | (true, c') =>
      is_Some (unspent c nPos)
      /\ (forall m, unspent c' m = if decide (nPos = m) then None else unspent c m)
      /\ fCoinBase c' = fCoinBase c /\ nHeight c' = nHeight c /\ nVersion c' = nVersion c
      /\ (forall o, last (vout c') = Some o -> CTxOut_IsNull o = false)
  | (false, c') => unspent c nPos = None /\ c' = c
  end.
Proof.
  unfold CCoins_Spend. destruct (vout c !! nPos) as [o|] eqn:Eo.
  2:{ unfold unspent. by rewrite Eo. }
  destruct (CTxOut_IsNull o) eqn:En.
  { unfold unspent. by rewrite Eo, En. }
  split; [unfold unspent; rewrite Eo, En; eauto|].
  split; [intros m; by rewrite unspent_Cleanup, unspent_insert_null|].
  do 3 (split; [done|]).
  destruct (Cleanup_split (with_vout c (<[nPos:=CTxOut_SetNull]> (vout c)))) as (? & _ & _ & H).
  exact H.
Qed.

(** ** Normal form: a fully spent value is the same as no value *)

Definition norm (o : option CCoins) : option CCoins :=
  match o with
  | Some c => if CCoins_IsPruned c then None else Some c
  | None => None
  end.

Lemma norm_Some_inv o c : norm o = Some c -> o = Some c /\ CCoins_IsPruned c = false.
Proof. destruct o as [c'|]; simpl; [|done]. destruct (CCoins_IsPruned c') eqn:E; [done|]. by intros [= ->]. Qed.

Lemma norm_pruned c : CCoins_IsPruned c = true -> norm (Some c) = None.
Proof. simpl. by intros ->. Qed.

Lemma norm_idemp o : norm (norm o) = norm o.
Proof. destruct o as [c|]; simpl; [|done]. destruct (CCoins_IsPruned c) eqn:E; simpl; [done|]. by rewrite E. Qed.

#[export] Hint Rewrite norm_idemp : width.
#[export] Hint Resolve norm_pruned : gemlink.

(** [operator==] on [CCoins] is equality of normal forms, hence an
    equivalence relation. *)
Theorem CCoins_eqb_norm (a b : CCoins) : CCoins_eqb a b = true <-> norm (Some a) = norm (Some b).
Proof.
  unfold CCoins_eqb, norm.
  assert (Hne : (bool_decide (fCoinBase a = fCoinBase b) && bool_decide (nHeight a = nHeight b)
      && bool_decide (nVersion a = nVersion b) && bool_decide (vout a = vout b)) = true <-> a = b).
  { rewrite !andb_true_iff, !bool_decide_eq_true. destruct a, b; simpl. naive_solver. }
  destruct (CCoins_IsPruned a) eqn:Ea, (CCoins_IsPruned b) eqn:Eb; simpl; [done|..];
    rewrite Hne; split; intros H; try naive_solver congruence.
Qed.
