(* ===== verification/History.v ===== *)
(** * Chain history trees

    zcash/History.cpp ([HistoryCache], entry encodings), the peak search of
    [CCoinsViewCache::PreloadHistoryTree] (coins.cpp) and the merge of a
    child's history cache into its parent ([BatchWriteHistory], coins.cpp). *)
From S2P Require Import Prelude.
From stdpp Require Import prelude gmap strings list.
#[local] Open Scope Z_scope.

(** A history node is an opaque array of [NODE_SERIALIZED_LENGTH] bytes, an
    entry the bytes the code writes at the front of its buffer. *)
Abbreviation HistoryNode := bytes.
Abbreviation HistoryEntry := bytes.
Definition NODE_SERIALIZED_LENGTH : nat := 171.
Definition HistoryNode_zero : HistoryNode := replicate NODE_SERIALIZED_LENGTH 0.

Record HistoryCache := mkHistoryCache {
  hc_appends : gmap Z HistoryNode;
  hc_length : Z;
  hc_updateDepth : Z;
  hc_root : uint256;
  hc_epoch : Z
}.

Definition HistoryCache_new (initialLength : Z) (initialRoot : uint256) (initialEpoch : Z) :=
  mkHistoryCache ∅ initialLength initialLength initialRoot initialEpoch.

Definition hc_set_root (hc : HistoryCache) (root : uint256) : HistoryCache :=
  mkHistoryCache (hc_appends hc) (hc_length hc) (hc_updateDepth hc) root (hc_epoch hc).

(** [appends[length++] = leaf]. *)
Definition HistoryCache_Extend (hc : HistoryCache) (leaf : HistoryNode) : HistoryCache :=
  mkHistoryCache (<[hc_length hc := leaf]> (hc_appends hc)) (u64 (hc_length hc + 1))
    (hc_updateDepth hc) (hc_root hc) (hc_epoch hc).

(** [for (idx = length; idx >= newLength; idx--) appends.erase(idx)], for a
    positive [newLength]; [n] counts the iterations. *)
Fixpoint erase_down (n : nat) (idx : Z) (m : gmap Z HistoryNode) : gmap Z HistoryNode :=
  match n with
  | O => m
  | S n' => erase_down n' (idx - 1) (delete idx m)
  end.

Definition HistoryCache_Truncate (hc : HistoryCache) (newLength : Z) : HistoryCache :=
  let appends :=
    if 0 <? newLength
    then erase_down (Z.to_nat (hc_length hc - newLength + 1)) (hc_length hc) (hc_appends hc)
    else ∅ in
  mkHistoryCache appends newLength
    (if newLength <? hc_updateDepth hc then newLength else hc_updateDepth hc)
    (hc_root hc) (hc_epoch hc).

(** ** Entries *)

Definition NodeToEntry (node : HistoryNode) (left right : Z) : HistoryEntry :=
  0 :: le_bytes 4 left ++ le_bytes 4 right ++ node.
Definition LeafToEntry (node : HistoryNode) : HistoryEntry := 1 :: node.

Definition draftMMRNode (nodeData : HistoryNode) (alt peak_pos : Z) : HistoryEntry :=
  if alt =? 0 then LeafToEntry nodeData
  else NodeToEntry nodeData (u32 (peak_pos - Z.shiftl 1 alt)) (u32 (peak_pos - 1)).

(** ** Peaks *)

(** [while (x >>= 1) ++log]: 32 iterations reach zero for any 32-bit [x]. *)
Fixpoint floor_log2_loop (fuel : nat) (x log : Z) : Z :=
  match fuel with
  | O => log
  | S f => let x := Z.shiftr x 1 in if x =? 0 then log else floor_log2_loop f x (log + 1)
  end.
Definition floor_log2 (x : Z) : result Z :=
  _ ← assert_true (0 <? x); Ok (floor_log2_loop 32 x 0).
Definition altitude (n : Z) : result Z :=
  l ← floor_log2 (u32 (n + 1)); Ok (u32 (l - 1)).

(** The peak loop: returns the (altitude, position) pairs it drafts, in order. *)
Fixpoint peaks_loop (fuel : nat) (treeLength alt peak_pos : Z) : list (Z * Z) :=
  match fuel with
  | O => []
  | S f =>
      if alt =? 0 then []
      else
        let '(peak_pos, alt) :=
          if treeLength <=? peak_pos then (u32 (peak_pos - Z.shiftl 1 alt), u32 (alt - 1))
          else (peak_pos, alt) in
        if peak_pos <? treeLength
        then (alt, peak_pos)
             :: peaks_loop f treeLength alt (u32 (peak_pos + Z.shiftl 1 (alt + 1) - 1))
        else peaks_loop f treeLength alt peak_pos
  end.

(** Enough for any 32-bit length: an altitude is left after at most two
    iterations. *)
Definition peaks_fuel : nat := 64.

(** The extra pass down the right slope of the last peak: the left and right
    children at each level. *)
Fixpoint slope_loop (alt : nat) (peak_pos : Z) : list (Z * Z) :=
  match alt with
  | O => []
  | S a =>
      let left_pos := u32 (peak_pos - Z.shiftl 1 (Z.of_nat alt)) in
      let right_pos := u32 (peak_pos - 1) in
      (Z.of_nat a, left_pos) :: (Z.of_nat a, right_pos) :: slope_loop a right_pos
  end.

(** The positions [PreloadHistoryTree] loads for a tree of [treeLength > 1]
    nodes, and the number of peaks among them. *)
Definition preload_positions (treeLength : Z) (extra : bool) : result (list (Z * Z) * nat) :=
  alt ← altitude treeLength;
  let peaks := peaks_loop peaks_fuel treeLength alt (u32 (Z.shiftl 1 (alt + 1) - 2)) in
  if extra then
    let '(last_alt, last_pos) := default (0, 0) (last peaks) in
    Ok (peaks ++ slope_loop (Z.to_nat last_alt) last_pos, length peaks)
  else Ok (peaks, length peaks).

(** ** Merging a child's cache of one epoch into its parent (coins.cpp,
    [BatchWriteHistory]) *)

(** [for (i = updateDepth; i < length; i++) Extend(appends[i])]. *)
Fixpoint extend_from (n : nat) (i : Z) (src : gmap Z HistoryNode) (hc : HistoryCache) : HistoryCache :=
  match n with
  | O => hc
  | S n' => extend_from n' (i + 1) src
              (HistoryCache_Extend hc (default HistoryNode_zero (src !! i)))
  end.

Definition merge_history (hc hcIn : HistoryCache) : result HistoryCache :=
  let hc := HistoryCache_Truncate hc (hc_updateDepth hcIn) in
  let hc := extend_from (Z.to_nat (hc_length hcIn - hc_updateDepth hcIn))
              (hc_updateDepth hcIn) (hc_appends hcIn) hc in
  _ ← assert_true (hc_length hc =? hc_length hcIn);
  Ok (hc_set_root hc (hc_root hcIn)).

Definition batch_history_step (m : gmap Z HistoryCache) (p : Z * HistoryCache)
  : result (gmap Z HistoryCache) :=
  let '(epochId, hcIn) := p in
  match m !! epochId with
  | Some hc => hc' ← merge_history hc hcIn; Ok (<[epochId := hc']> m)
  | None => Ok (<[epochId := hcIn]> m)
  end.

Definition BatchWriteHistory (m mIn : gmap Z HistoryCache) : result (gmap Z HistoryCache) :=
  foldM batch_history_step (map_to_list mIn) m.

(** ** Invariant and view of one history cache over a base of [blen] nodes *)

Definition hist_ok (blen : Z) (hc : HistoryCache) : Prop :=
  0 <= hc_updateDepth hc <= hc_length hc /\ hc_updateDepth hc <= blen
  /\ hc_length hc < 2 ^ 63
  /\ forall i, is_Some (hc_appends hc !! i) <-> hc_updateDepth hc <= i < hc_length hc.

(** The node at an index: from the appends, or from the base. *)
Definition hist_at (bat : Z -> option HistoryNode) (hc : HistoryCache) (i : Z) : option HistoryNode :=
  if hc_updateDepth hc <=? i then hc_appends hc !! i else bat i.

Lemma hist_ok_new blen root e : 0 <= blen < 2 ^ 63 -> hist_ok blen (HistoryCache_new blen root e).
Proof.
  intros H. split_and!; simpl; try lia. intros i. rewrite lookup_empty. split; [by intros []|lia].
Qed.

Lemma hist_ok_Extend blen hc n :
  hist_ok blen hc -> hc_length hc + 1 < 2 ^ 63 -> hist_ok blen (HistoryCache_Extend hc n).
Proof.
  intros (H1 & H2 & H3 & H4) Hl. unfold hist_ok. simpl.
  rewrite u64_small by (unfold is_u64; lia). split_and!; try lia.
  intros i. destruct (decide (i = hc_length hc)) as [->|Hne].
  - rewrite lookup_insert_eq. split; [lia|eauto].
  - rewrite lookup_insert_ne by done. rewrite H4. lia.
Qed.

Lemma lookup_erase_down n : forall idx m i,
  erase_down n idx m !! i = if decide (idx - Z.of_nat n < i <= idx) then None else m !! i.
Proof.
  induction n as [|n IH]; intros idx m i; cbn [erase_down].
  - by rewrite decide_False by lia.
  - rewrite IH. destruct (decide (i = idx)) as [->|Hne].
    + rewrite lookup_delete_eq. repeat case_decide; done || lia.
    + rewrite lookup_delete_ne by done. repeat case_decide; done || lia.
Qed.

Lemma lookup_Truncate blen hc n i :
  hist_ok blen hc -> 0 <= n <= hc_length hc ->
  hc_appends (HistoryCache_Truncate hc n) !! i = if decide (i < n) then hc_appends hc !! i else None.
Proof.
  intros (H1 & H2 & H3 & H4) Hn. simpl. destruct (0 <? n) eqn:E; zbool.
  - rewrite lookup_erase_down. rewrite Z2Nat.id by lia.
    repeat case_decide; try done; try lia.
    apply eq_None_not_Some. rewrite H4. lia.
  - rewrite lookup_empty. case_decide; [|done].
    symmetry. apply eq_None_not_Some. rewrite H4. lia.
Qed.

Lemma hist_ok_Truncate blen hc n :
  hist_ok blen hc -> 0 <= n <= hc_length hc -> hist_ok blen (HistoryCache_Truncate hc n).
Proof.
  intros Hok Hn. pose proof Hok as (H1 & H2 & H3 & H4).
  unfold hist_ok. split_and!; [..|intros i; rewrite (lookup_Truncate blen) by done]; simpl;
    destruct (n <? hc_updateDepth hc) eqn:E; zbool; try lia.
  - case_decide; [rewrite H4; lia|]. split; [by intros []|lia].
  - case_decide; [rewrite H4; lia|]. split; [by intros []|lia].
Qed.

Lemma extend_from_spec n : forall i src hc,
  hc_length hc = i -> 0 <= i -> i + Z.of_nat n < 2 ^ 63 ->
  let hc' := extend_from n i src hc in
  hc_length hc' = i + Z.of_nat n /\ hc_updateDepth hc' = hc_updateDepth hc
  /\ hc_root hc' = hc_root hc /\ hc_epoch hc' = hc_epoch hc
  /\ forall k, hc_appends hc' !! k =
       if decide (i <= k < i + Z.of_nat n) then Some (default HistoryNode_zero (src !! k))
       else hc_appends hc !! k.
Proof.
  induction n as [|n IH]; intros i src hc Hi H0 Hn; cbn [extend_from].
  - split_and!; try done; [lia|]. intros k. by rewrite decide_False by lia.
  - destruct (IH (i + 1) src (HistoryCache_Extend hc (default HistoryNode_zero (src !! i))))
      as (H1 & H2 & H3 & H4 & H5); [simpl; rewrite u64_small; unfold is_u64; lia|lia|lia|].
    split_and!; try done; [lia|]. intros k. rewrite H5. simpl. rewrite Hi.
    destruct (decide (k = i)) as [->|Hne].
    + rewrite lookup_insert_eq. repeat case_decide; done || lia.
    + rewrite lookup_insert_ne by done. repeat case_decide; done || lia.
Qed.

(** Merging a child's cache: the parent then shows, over its own base, what
    the child showed over the parent, and the assertion on the lengths holds. *)
Lemma merge_history_spec blen hc hcIn :
  hist_ok blen hc -> hist_ok (hc_length hc) hcIn ->
  exists hc', merge_history hc hcIn = Ok hc' /\ hist_ok blen hc'
    /\ hc_length hc' = hc_length hcIn /\ hc_root hc' = hc_root hcIn
    /\ forall bat i, 0 <= i < hc_length hcIn ->
         hist_at bat hc' i = hist_at (hist_at bat hc) hcIn i.
Proof.
  intros Hok HokI. pose proof Hok as (P1 & P2 & P3 & P4). pose proof HokI as (I1 & I2 & I3 & I4).
  pose proof (hist_ok_Truncate _ _ (hc_updateDepth hcIn) Hok ltac:(lia)) as HokT.
  assert (ET := fun i => lookup_Truncate blen hc (hc_updateDepth hcIn) i Hok ltac:(lia)).
  unfold merge_history.
  destruct (extend_from_spec (Z.to_nat (hc_length hcIn - hc_updateDepth hcIn)) (hc_updateDepth hcIn)
    (hc_appends hcIn) (HistoryCache_Truncate hc (hc_updateDepth hcIn))) as (E1 & E2 & E3 & E4 & E5);
    [done|lia|lia|].
  rewrite Z2Nat.id in E1, E5 by lia.
  set (hx := extend_from _ _ _ _) in *.
  replace (hc_updateDepth hcIn + (hc_length hcIn - hc_updateDepth hcIn)) with (hc_length hcIn) in * by lia.
  rewrite E1, Z.eqb_refl. simpl. eexists. split; [done|].
  assert (E6 : forall k, hc_appends hx !! k = if decide (hc_updateDepth hcIn <= k < hc_length hcIn)
    then Some (default HistoryNode_zero (hc_appends hcIn !! k))
    else if decide (k < hc_updateDepth hcIn) then hc_appends hc !! k else None)
    by (intros k; rewrite <- ET; apply E5).
  clear E5 ET.
  split; [|split; [done|split; [done|]]].
  - unfold hist_ok. simpl. rewrite E1, E2. simpl.
    destruct (hc_updateDepth hcIn <? hc_updateDepth hc) eqn:E; zbool; (split_and!; [lia..|]);
      intros k; rewrite E6; repeat case_decide; try rewrite P4; try (split; [by intros []|lia]);
      split; eauto; lia.
  - intros bat i Hi. unfold hist_at. simpl. rewrite E2, E6. simpl.
    destruct (hc_updateDepth hcIn <=? i) eqn:Ed; zbool.
    + assert (is_Some (hc_appends hcIn !! i)) as [x Hx] by (apply I4; lia).
      rewrite Hx. simpl. rewrite decide_True by lia.
      destruct (hc_updateDepth hcIn <? hc_updateDepth hc) eqn:E; zbool;
        [rewrite (proj2 (Z.leb_le _ _)) by lia; done|].
      by rewrite (proj2 (Z.leb_le _ _)) by lia.
    + rewrite (decide_False (P := _ <= _ < _)) by lia. rewrite decide_True by lia.
      destruct (hc_updateDepth hcIn <? hc_updateDepth hc) eqn:E; zbool; [|done].
      rewrite (proj2 (Z.leb_gt _ _)) by lia. by rewrite (proj2 (Z.leb_gt _ _)) by lia.
Qed.

(** ** Peaks: specification

    A Merkle mountain range is a sequence of perfect trees of strictly
    decreasing altitudes; the tree of altitude [a] has [2^(a+1) - 1] nodes and
    its root is its last node. *)
Fixpoint mmr_nodes (alts : list nat) : Z :=
  match alts with
  | [] => 0
  | a :: r => 2 ^ (Z.of_nat a + 1) - 1 + mmr_nodes r
  end.

Fixpoint mmr_roots (start : Z) (alts : list nat) : list (Z * Z) :=
  match alts with
  | [] => []
  | a :: r => (Z.of_nat a, start + 2 ^ (Z.of_nat a + 1) - 2)
              :: mmr_roots (start + 2 ^ (Z.of_nat a + 1) - 1) r
  end.

(** Strictly decreasing, all below [b]. *)
Fixpoint mmr_below (b : nat) (alts : list nat) : Prop :=
  match alts with
  | [] => True
  | a :: r => (a < b)%nat /\ mmr_below a r
  end.

Lemma mmr_nodes_bound alts : forall b,
  mmr_below b alts -> 0 <= mmr_nodes alts <= 2 ^ (Z.of_nat b + 1) - 2.
Proof.
  induction alts as [|a r IH]; intros b Hb; cbn [mmr_nodes].
  - pose proof (Z.pow_le_mono_r 2 1 (Z.of_nat b + 1)). lia.
  - destruct Hb as [Hab Hr]. specialize (IH a Hr).
    pose proof (Z.pow_le_mono_r 2 (Z.of_nat a + 2) (Z.of_nat b + 1)).
    replace (Z.of_nat a + 2) with (Z.succ (Z.of_nat a + 1)) in H by lia.
    rewrite Z.pow_succ_r in H by lia.
    pose proof (Z.pow_pos_nonneg 2 (Z.of_nat a + 1)). lia.
Qed.

Lemma mmr_below_pred a rest :
  mmr_below (S a) rest -> mmr_below a rest \/ exists r, rest = a :: r /\ mmr_below a r.
Proof.
  destruct rest as [|b r]; [by left|]. intros [Hb Hr].
  destruct (decide (b = a)) as [->|]; [right; eauto|left]. simpl. split; [lia|done].
Qed.

Lemma peaks_loop_below a : forall fuel s rest,
  (a < fuel)%nat -> mmr_below a rest -> 0 <= s -> s + 2 ^ (Z.of_nat a + 1) <= 2 ^ 32 ->
  peaks_loop fuel (s + mmr_nodes rest) (Z.of_nat a) (s + 2 ^ (Z.of_nat a + 1) - 2) = mmr_roots s rest.
Proof.
  induction a as [|a IH]; intros [|fuel] s rest Hf Hb Hs Hw; try lia; cbn [peaks_loop].
  - destruct rest as [|b r]; [done|]. destruct Hb. lia.
  - rewrite (proj2 (Z.eqb_neq _ _)) by lia.
    pose proof (mmr_nodes_bound _ _ Hb) as Hn.
    rewrite (proj2 (Z.leb_le _ _)) by lia.
    assert (Hpow : 2 ^ (Z.of_nat (S a) + 1) = 2 * 2 ^ (Z.of_nat a + 1)).
    { rewrite <- Z.pow_succ_r by lia. f_equal. lia. }
    pose proof (Z.pow_le_mono_r 2 1 (Z.of_nat a + 1)).
    assert (Ha32 : Z.of_nat a + 2 <= 32).
    { apply (Z.pow_le_mono_r_iff 2); [lia..|].
      replace (Z.of_nat a + 2) with (Z.of_nat (S a) + 1) by lia. lia. }
    rewrite Z.shiftl_mul_pow2, Z.mul_1_l by lia.
    replace (2 ^ Z.of_nat (S a)) with (2 ^ (Z.of_nat a + 1)) by (f_equal; lia).
    rewrite (u32_small (_ - _)) by (unfold is_u32; lia).
    rewrite (u32_small (Z.of_nat (S a) - 1)) by (unfold is_u32; lia).
    replace (s + 2 ^ (Z.of_nat (S a) + 1) - 2 - 2 ^ (Z.of_nat a + 1))
      with (s + 2 ^ (Z.of_nat a + 1) - 2) by lia.
    replace (Z.of_nat (S a) - 1) with (Z.of_nat a) by lia.
    destruct (mmr_below_pred _ _ Hb) as [Hb'|(r & -> & Hr)].
    + pose proof (mmr_nodes_bound _ _ Hb'). rewrite (proj2 (Z.ltb_ge _ _)) by lia.
      apply IH; [lia|done|lia|lia].
    + pose proof (mmr_nodes_bound _ _ Hr). cbn [mmr_nodes mmr_roots].
      rewrite (proj2 (Z.ltb_lt _ _)) by lia. f_equal.
      rewrite Z.shiftl_mul_pow2, Z.mul_1_l, u32_small by (unfold is_u32; lia).
      rewrite <- (IH fuel (s + 2 ^ (Z.of_nat a + 1) - 1) r) by (lia || done).
      f_equal; lia.
Qed.

Lemma floor_log2_loop_spec fuel : forall x log,
  0 < x -> Z.log2 x < Z.of_nat fuel -> floor_log2_loop fuel x log = log + Z.log2 x.
Proof.
  induction fuel as [|fuel IH]; intros x log Hx Hf; cbn [floor_log2_loop].
  - pose proof (Z.log2_nonneg x). lia.
  - rewrite Z.shiftr_div_pow2 by lia. change (2 ^ 1) with 2.
    destruct (x / 2 =? 0) eqn:E; zbool.
    + assert (x = 1) as -> by (Z.to_euclidean_division_equations; lia).
      replace (Z.log2 1) with 0 by done. lia.
    + assert (0 < x / 2) by (Z.to_euclidean_division_equations; lia).
      assert (Z.log2 x = Z.log2 (x / 2) + 1).
      { assert (Hd := Z.log2_shiftr x 1 Hx). rewrite Z.shiftr_div_pow2 in Hd by lia.
        change (2 ^ 1) with 2 in Hd. rewrite Hd.
        assert (1 <= Z.log2 x); [|lia]. apply Z.log2_le_pow2; Z.to_euclidean_division_equations; lia. }
      rewrite IH by lia. lia.
Qed.

Lemma altitude_spec n : 0 < n < 2 ^ 32 - 1 -> altitude n = Ok (Z.log2 (n + 1) - 1).
Proof.
  intros Hn. unfold altitude, floor_log2.
  rewrite (u32_small (n + 1)) by (unfold is_u32; lia).
  rewrite (proj2 (Z.ltb_lt _ _)) by lia. mstep.
  assert (Z.log2 (n + 1) < 32) by (apply Z.log2_lt_pow2; lia).
  assert (1 <= Z.log2 (n + 1)) by (apply Z.log2_le_pow2; lia).
  rewrite floor_log2_loop_spec by (try (change (Z.of_nat 32) with 32); lia).
  rewrite u32_small by (unfold is_u32; lia). done.
Qed.

(** For every Merkle mountain range below 2^31 nodes with more than one
    node, the loop of [PreloadHistoryTree] terminates and loads exactly the
    roots of the range's perfect trees, left to right. *)
Theorem preload_positions_peaks (a : nat) (rest : list nat)
  (Ha : (1 <= a <= 29)%nat) (Hd : mmr_below a rest) :
  preload_positions (mmr_nodes (a :: rest)) false
    = Ok (mmr_roots 0 (a :: rest), length (a :: rest)).
Proof.
  pose proof (mmr_nodes_bound _ _ Hd) as Hn.
  pose proof (Z.pow_le_mono_r 2 (Z.of_nat a + 1) 30).
  pose proof (Z.pow_le_mono_r 2 2 (Z.of_nat a + 1)).
  unfold preload_positions. cbn [mmr_nodes].
  rewrite altitude_spec by lia. mstep.
  replace (Z.log2 _ - 1) with (Z.of_nat a).
  2:{ symmetry. apply Z.sub_move_r. apply Z.log2_unique; [lia|].
      rewrite (Z.pow_succ_r 2 (Z.of_nat a + 1)) by lia. lia. }
  rewrite Z.shiftl_mul_pow2, Z.mul_1_l, u32_small by (unfold is_u32; lia).
  change peaks_fuel with (S 63).
  assert (Hp : forall f, (a < f)%nat ->
               peaks_loop (S f) (2 ^ (Z.of_nat a + 1) - 1 + mmr_nodes rest) (Z.of_nat a)
                 (2 ^ (Z.of_nat a + 1) - 2) = mmr_roots 0 (a :: rest)).
  { intros f Hf. cbn [peaks_loop mmr_roots]. rewrite (proj2 (Z.eqb_neq _ _)) by lia.
    rewrite (proj2 (Z.leb_gt _ _)) by lia. rewrite (proj2 (Z.ltb_lt _ _)) by lia.
    f_equal. rewrite Z.shiftl_mul_pow2, Z.mul_1_l, u32_small by (unfold is_u32; lia).
    rewrite <- (peaks_loop_below a f) by (lia || done). f_equal; lia. }
  rewrite Hp by lia. f_equal. f_equal. clear. cbn [mmr_roots length]. f_equal.
  generalize (0 + 2 ^ (Z.of_nat a + 1) - 1). induction rest as [|b r IH]; intros z; simpl; [done|].
  by rewrite IH.
Qed.

Lemma preload_positions_peaks_witness :
  preload_positions (mmr_nodes [3; 2; 1]%nat) false = Ok ([(3, 14); (2, 21); (1, 24)], 3%nat).
Proof. apply (preload_positions_peaks 3 [2; 1]%nat); [lia|simpl; lia]. Defined.
