(* ===== verification/CoinsView.v ===== *)
(** * Coins views: the interface and the cache

    coins.h / coins.cpp: the virtual interface [CCoinsView], its do-nothing
    base implementation, the forwarding [CCoinsViewBacked], and
    [CCoinsViewCache] with its modifier protocol.  The backing view [base] of
    a cache is a value of any type that implements the interface; a read of
    it returns its new state, since a cache fills itself on reads.  Memory
    accounting ([cachedCoinsUsage]) is not modelled: it depends on vector
    capacities. *)
From S2P Require Import Prelude Transaction Coins History.
From stdpp Require Import prelude gmap strings list.
#[local] Open Scope Z_scope.

Inductive ShieldedType := SPROUT | SAPLING.

#[global] Instance ShieldedType_eq_dec : EqDecision ShieldedType.
Proof. solve_decision. Defined.

(** What the caches use of an incremental Merkle tree type. *)
Class MerkleTree (T : Type) := {
  tree_new : T;
  tree_root : T -> uint256;
  tree_append : uint256 -> T -> result T;
  tree_empty_root : uint256
}.

(** ** Cache entries

    [flags] is a bit set of [DIRTY] and, for coins, [FRESH]. *)
Record CCoinsCacheEntry := mkCoinsEntry { ce_coins : CCoins; ce_DIRTY : bool; ce_FRESH : bool }.
Record CAnchorsCacheEntry (T : Type) :=
  mkAnchorEntry { ae_entered : bool; ae_tree : T; ae_DIRTY : bool }.
Arguments mkAnchorEntry {T}.
Arguments ae_entered {T}.
Arguments ae_tree {T}.
Arguments ae_DIRTY {T}.
Record CNullifiersCacheEntry := mkNullEntry { ne_entered : bool; ne_DIRTY : bool }.

(** The maps and best-pointers of a cache: also the arguments of [BatchWrite]. *)
Record CacheMaps (SpT SaT : Type) := mkCacheMaps {
  cacheCoins : gmap uint256 CCoinsCacheEntry;
  hashBlock : uint256;
  hashSproutAnchor : uint256;
  hashSaplingAnchor : uint256;
  cacheSproutAnchors : gmap uint256 (CAnchorsCacheEntry SpT);
  cacheSaplingAnchors : gmap uint256 (CAnchorsCacheEntry SaT);
  cacheSproutNullifiers : gmap uint256 CNullifiersCacheEntry;
  cacheSaplingNullifiers : gmap uint256 CNullifiersCacheEntry;
  historyCacheMap : gmap Z HistoryCache
}.
Arguments mkCacheMaps {SpT SaT}.
Arguments cacheCoins {SpT SaT}.
Arguments hashBlock {SpT SaT}.
Arguments hashSproutAnchor {SpT SaT}.
Arguments hashSaplingAnchor {SpT SaT}.
Arguments cacheSproutAnchors {SpT SaT}.
Arguments cacheSaplingAnchors {SpT SaT}.
Arguments cacheSproutNullifiers {SpT SaT}.
Arguments cacheSaplingNullifiers {SpT SaT}.
Arguments historyCacheMap {SpT SaT}.

(** ** The interface *)

Class CCoinsView (SpT SaT V : Type) := {
  GetSproutAnchorAt : uint256 -> V -> option SpT * V;
  GetSaplingAnchorAt : uint256 -> V -> option SaT * V;
  GetNullifier : uint256 -> ShieldedType -> V -> bool * V;
  GetCoins : uint256 -> V -> option CCoins * V;
  HaveCoins : uint256 -> V -> bool * V;
  GetBestBlock : V -> uint256 * V;
  GetBestAnchor : ShieldedType -> V -> uint256 * V;
  GetHistoryLength : Z -> V -> Z * V;
  GetHistoryAt : Z -> Z -> V -> result (HistoryNode * V);
  GetHistoryRoot : Z -> V -> uint256 * V;
  BatchWrite : CacheMaps SpT SaT -> V -> result (bool * V)
}.

Section Base.
Context {SpT SaT : Type}.

(** The non-pure base class: knows nothing, accepts nothing. *)
Definition CCoinsView_base : CCoinsView SpT SaT unit := {|
  GetSproutAnchorAt _ v := (None, v);
  GetSaplingAnchorAt _ v := (None, v);
  GetNullifier _ _ v := (false, v);
  GetCoins _ v := (None, v);
  HaveCoins _ v := (false, v);
  GetBestBlock v := (uint256_null, v);
  GetBestAnchor _ v := (uint256_null, v);
  GetHistoryLength _ v := (0, v);
  GetHistoryAt _ _ v := Ok (HistoryNode_zero, v);
  GetHistoryRoot _ v := (uint256_null, v);
  BatchWrite _ v := Ok (false, v)
|}.

(** [CCoinsViewBacked]: every method forwards to [base]. *)
Record CCoinsViewBacked (V : Type) := mkBacked { backed_base : V }.
Arguments mkBacked {V}.
Arguments backed_base {V}.

Definition forward {V A} (r : A * V) : A * CCoinsViewBacked V := (r.1, mkBacked r.2).

Definition CCoinsViewBacked_view {V} `{CCoinsView SpT SaT V} :
  CCoinsView SpT SaT (CCoinsViewBacked V) := {|
  GetSproutAnchorAt rt v := forward (GetSproutAnchorAt rt (backed_base v));
  GetSaplingAnchorAt rt v := forward (GetSaplingAnchorAt rt (backed_base v));
  GetNullifier nf ty v := forward (GetNullifier nf ty (backed_base v));
  GetCoins txid v := forward (GetCoins txid (backed_base v));
  HaveCoins txid v := forward (HaveCoins txid (backed_base v));
  GetBestBlock v := forward (GetBestBlock (backed_base v));
  GetBestAnchor ty v := forward (GetBestAnchor ty (backed_base v));
  GetHistoryLength e v := forward (GetHistoryLength e (backed_base v));
  GetHistoryAt e i v := r ← GetHistoryAt e i (backed_base v); Ok (forward r);
  GetHistoryRoot e v := forward (GetHistoryRoot e (backed_base v));
  BatchWrite b v := r ← BatchWrite b (backed_base v); Ok (forward r)
|}.

Definition CCoinsViewBacked_SetBackend {V} (viewIn : V) (v : CCoinsViewBacked V) :
  CCoinsViewBacked V := mkBacked viewIn.
End Base.
Arguments mkBacked {V}.
Arguments backed_base {V}.

(** ** The cache *)

Record CCoinsViewCache (SpT SaT V : Type) := mkCache {
  base : V;
  hasModifier : bool;
  maps : CacheMaps SpT SaT
}.
Arguments mkCache {SpT SaT V}.
Arguments base {SpT SaT V}.
Arguments hasModifier {SpT SaT V}.
Arguments maps {SpT SaT V}.

Section Cache.
Context {SpT SaT V : Type} `{CCoinsView SpT SaT V}.
Context `{MerkleTree SpT} `{MerkleTree SaT}.
Local Abbreviation maps_t := (CacheMaps SpT SaT).
Local Abbreviation cache := (CCoinsViewCache SpT SaT V).

(** Field updates. *)
Definition maps_empty : maps_t := mkCacheMaps ∅ uint256_null uint256_null uint256_null ∅ ∅ ∅ ∅ ∅.
Definition set_coins (x : gmap uint256 CCoinsCacheEntry) (m : maps_t) : maps_t :=
  mkCacheMaps x (hashBlock m) (hashSproutAnchor m) (hashSaplingAnchor m) (cacheSproutAnchors m)
    (cacheSaplingAnchors m) (cacheSproutNullifiers m) (cacheSaplingNullifiers m) (historyCacheMap m).
Definition set_hashBlock (x : uint256) (m : maps_t) : maps_t :=
  mkCacheMaps (cacheCoins m) x (hashSproutAnchor m) (hashSaplingAnchor m) (cacheSproutAnchors m)
    (cacheSaplingAnchors m) (cacheSproutNullifiers m) (cacheSaplingNullifiers m) (historyCacheMap m).
Definition set_hashAnchor (ty : ShieldedType) (x : uint256) (m : maps_t) : maps_t :=
  mkCacheMaps (cacheCoins m) (hashBlock m)
    (if decide (ty = SPROUT) then x else hashSproutAnchor m)
    (if decide (ty = SPROUT) then hashSaplingAnchor m else x) (cacheSproutAnchors m)
    (cacheSaplingAnchors m) (cacheSproutNullifiers m) (cacheSaplingNullifiers m) (historyCacheMap m).
Definition get_hashAnchor (ty : ShieldedType) (m : maps_t) : uint256 :=
  match ty with SPROUT => hashSproutAnchor m | SAPLING => hashSaplingAnchor m end.
Definition set_sproutAnchors (x : gmap uint256 (CAnchorsCacheEntry SpT)) (m : maps_t) : maps_t :=
  mkCacheMaps (cacheCoins m) (hashBlock m) (hashSproutAnchor m) (hashSaplingAnchor m) x
    (cacheSaplingAnchors m) (cacheSproutNullifiers m) (cacheSaplingNullifiers m) (historyCacheMap m).
Definition set_saplingAnchors (x : gmap uint256 (CAnchorsCacheEntry SaT)) (m : maps_t) : maps_t :=
  mkCacheMaps (cacheCoins m) (hashBlock m) (hashSproutAnchor m) (hashSaplingAnchor m)
    (cacheSproutAnchors m) x (cacheSproutNullifiers m) (cacheSaplingNullifiers m) (historyCacheMap m).
Definition get_nullifiers (ty : ShieldedType) (m : maps_t) : gmap uint256 CNullifiersCacheEntry :=
  match ty with SPROUT => cacheSproutNullifiers m | SAPLING => cacheSaplingNullifiers m end.
Definition set_nullifiers (ty : ShieldedType) (x : gmap uint256 CNullifiersCacheEntry) (m : maps_t) : maps_t :=
  mkCacheMaps (cacheCoins m) (hashBlock m) (hashSproutAnchor m) (hashSaplingAnchor m)
    (cacheSproutAnchors m) (cacheSaplingAnchors m)
    (if decide (ty = SPROUT) then x else cacheSproutNullifiers m)
    (if decide (ty = SPROUT) then cacheSaplingNullifiers m else x) (historyCacheMap m).
Definition set_history (x : gmap Z HistoryCache) (m : maps_t) : maps_t :=
  mkCacheMaps (cacheCoins m) (hashBlock m) (hashSproutAnchor m) (hashSaplingAnchor m)
    (cacheSproutAnchors m) (cacheSaplingAnchors m) (cacheSproutNullifiers m)
    (cacheSaplingNullifiers m) x.

Definition upd (f : maps_t -> maps_t) (c : cache) : cache :=
  mkCache (base c) (hasModifier c) (f (maps c)).
Definition set_base (v : V) (c : cache) : cache := mkCache v (hasModifier c) (maps c).
Definition set_hasModifier (b : bool) (c : cache) : cache := mkCache (base c) b (maps c).

(** The constructor. *)
Definition CCoinsViewCache_new (baseIn : V) : cache := mkCache baseIn false maps_empty.

(** ** Reads *)

(** [FetchCoins]: the cached coins, filling the cache from the base. *)
Definition FetchCoins (txid : uint256) (c : cache) : option CCoins * cache :=
  match cacheCoins (maps c) !! txid with
  | Some e => (Some (ce_coins e), c)
  | None =>
      match GetCoins txid (base c) with
      | (None, v') => (None, set_base v' c)
      | (Some tmp, v') =>
          (Some tmp,
           upd (fun m => set_coins
                  (<[txid := mkCoinsEntry tmp false (CCoins_IsPruned tmp)]> (cacheCoins m)) m)
               (set_base v' c))
      end
  end.

Definition Cache_GetCoins (txid : uint256) (c : cache) : option CCoins * cache := FetchCoins txid c.
Definition Cache_AccessCoins (txid : uint256) (c : cache) : option CCoins * cache := FetchCoins txid c.

Definition Cache_HaveCoins (txid : uint256) (c : cache) : bool * cache :=
  let '(o, c') := FetchCoins txid c in
  (match o with Some coins => negb (bool_decide (vout coins = [])) | None => false end, c').

(** [GetSproutAnchorAt] and [GetSaplingAnchorAt] share their text; [look] is
    the base's method, [get]/[set] select the map. *)
Definition anchor_at {T} (look : uint256 -> V -> option T * V)
  (get : maps_t -> gmap uint256 (CAnchorsCacheEntry T))
  (set : gmap uint256 (CAnchorsCacheEntry T) -> maps_t -> maps_t)
  (rt : uint256) (c : cache) : option T * cache :=
  match get (maps c) !! rt with
  | Some e => (if ae_entered e then Some (ae_tree e) else None, c)
  | None =>
      match look rt (base c) with
      | (None, v') => (None, set_base v' c)
      | (Some tree, v') =>
          (Some tree,
           upd (fun m => set (<[rt := mkAnchorEntry true tree false]> (get m)) m) (set_base v' c))
      end
  end.

Definition Cache_GetSproutAnchorAt : uint256 -> cache -> option SpT * cache :=
  anchor_at GetSproutAnchorAt cacheSproutAnchors set_sproutAnchors.
Definition Cache_GetSaplingAnchorAt : uint256 -> cache -> option SaT * cache :=
  anchor_at GetSaplingAnchorAt cacheSaplingAnchors set_saplingAnchors.

Definition Cache_GetNullifier (nf : uint256) (ty : ShieldedType) (c : cache) : bool * cache :=
  match get_nullifiers ty (maps c) !! nf with
  | Some e => (ne_entered e, c)
  | None =>
      let '(tmp, v') := GetNullifier nf ty (base c) in
      (tmp, upd (fun m => set_nullifiers ty (<[nf := mkNullEntry tmp false]> (get_nullifiers ty m)) m)
              (set_base v' c))
  end.

Definition Cache_GetBestBlock (c : cache) : uint256 * cache :=
  if uint256_IsNull (hashBlock (maps c)) then
    let '(h, v') := GetBestBlock (base c) in (h, upd (set_hashBlock h) (set_base v' c))
  else (hashBlock (maps c), c).

Definition Cache_GetBestAnchor (ty : ShieldedType) (c : cache) : uint256 * cache :=
  if uint256_IsNull (get_hashAnchor ty (maps c)) then
    let '(h, v') := GetBestAnchor ty (base c) in (h, upd (set_hashAnchor ty h) (set_base v' c))
  else (get_hashAnchor ty (maps c), c).

(** [SelectHistoryCache]: the epoch's history cache, created on first use. *)
Definition SelectHistoryCache (epochId : Z) (c : cache) : HistoryCache * cache :=
  match historyCacheMap (maps c) !! epochId with
  | Some hc => (hc, c)
  | None =>
      let '(len, v1) := GetHistoryLength epochId (base c) in
      let '(root, v2) := GetHistoryRoot epochId v1 in
      let hc := HistoryCache_new len root epochId in
      (hc, upd (fun m => set_history (<[epochId := hc]> (historyCacheMap m)) m) (set_base v2 c))
  end.

Definition Cache_GetHistoryLength (epochId : Z) (c : cache) : Z * cache :=
  let '(hc, c') := SelectHistoryCache epochId c in (hc_length hc, c').

Definition Cache_GetHistoryRoot (epochId : Z) (c : cache) : uint256 * cache :=
  let '(hc, c') := SelectHistoryCache epochId c in (hc_root hc, c').

Definition Cache_GetHistoryAt (epochId index : Z) (c : cache) : result (HistoryNode * cache) :=
  let '(hc, c') := SelectHistoryCache epochId c in
  if hc_length hc <=? index then Throw "Invalid history request"
  else if hc_updateDepth hc <=? index
  then Ok (default HistoryNode_zero (hc_appends hc !! index), c')
  else
    r ← GetHistoryAt epochId index (base c');
    Ok (r.1, set_base r.2 c').

(** ** Best block, anchors, nullifiers *)

Definition Cache_SetBestBlock (hashBlockIn : uint256) (c : cache) : cache :=
  upd (set_hashBlock hashBlockIn) c.

(** [AbstractPushAnchor] on one of the two anchor maps. *)
Definition AbstractPushAnchor {T} `{MerkleTree T}
  (get : maps_t -> gmap uint256 (CAnchorsCacheEntry T))
  (set : gmap uint256 (CAnchorsCacheEntry T) -> maps_t -> maps_t)
  (ty : ShieldedType) (tree : T) (c : cache) : cache :=
  let newrt := tree_root tree in
  let '(currentRoot, c1) := Cache_GetBestAnchor ty c in
  if decide (currentRoot = newrt) then c1
  else upd (fun m => set_hashAnchor ty newrt
              (set (<[newrt := mkAnchorEntry true tree true]> (get m)) m)) c1.

Definition PushAnchor_Sprout : SpT -> cache -> cache :=
  AbstractPushAnchor cacheSproutAnchors set_sproutAnchors SPROUT.
Definition PushAnchor_Sapling : SaT -> cache -> cache :=
  AbstractPushAnchor cacheSaplingAnchors set_saplingAnchors SAPLING.

(** [AbstractPopAnchor]: the current best anchor is brought into the cache
    ([BringBestAnchorIntoCache] asserts that it is known), then marked as not
    entered. *)
Definition AbstractPopAnchor {T} `{MerkleTree T}
  (look : uint256 -> V -> option T * V)
  (get : maps_t -> gmap uint256 (CAnchorsCacheEntry T))
  (set : gmap uint256 (CAnchorsCacheEntry T) -> maps_t -> maps_t)
  (ty : ShieldedType) (newrt : uint256) (c : cache) : result cache :=
  let '(currentRoot, c1) := Cache_GetBestAnchor ty c in
  if decide (currentRoot = newrt) then Ok c1
  else
    let '(found, c2) := anchor_at look get set currentRoot c1 in
    _ ← assert_true (bool_decide (is_Some found));
    let e := default (mkAnchorEntry false tree_new false) (get (maps c2) !! currentRoot) in
    Ok (upd (fun m => set_hashAnchor ty newrt
               (set (<[currentRoot := mkAnchorEntry false (ae_tree e) true]> (get m)) m)) c2).

Definition Cache_PopAnchor (newrt : uint256) (ty : ShieldedType) (c : cache) : result cache :=
  match ty with
  | SPROUT => AbstractPopAnchor GetSproutAnchorAt cacheSproutAnchors set_sproutAnchors SPROUT newrt c
  | SAPLING => AbstractPopAnchor GetSaplingAnchorAt cacheSaplingAnchors set_saplingAnchors SAPLING newrt c
  end.

(** One nullifier: [insert] keeps an existing entry; [flags |= DIRTY]. *)
Definition set_nullifier (spent : bool) (ty : ShieldedType) (c : cache) (nf : uint256) : cache :=
  upd (fun m => set_nullifiers ty (<[nf := mkNullEntry spent true]> (get_nullifiers ty m)) m) c.

Definition Cache_SetNullifiers (tx : CMutableTransaction) (spent : bool) (c : cache) : cache :=
  let c1 := foldl (set_nullifier spent SPROUT) c (vjoinsplit tx ≫= js_nullifiers) in
  foldl (set_nullifier spent SAPLING) c1 (sd_nullifier <$> vShieldedSpend tx).

(** ** Modifiers

    [ModifyCoins] and [ModifyNewCoins] return a handle to the entry of
    [txid]; the code then works on the coins through it, and the handle's
    destructor runs at the end of its scope.  [modify] composes the three:
    [body] is the code in the scope, reading and replacing the coins. *)

Definition ModifyCoins (txid : uint256) (c : cache) : result cache :=
  _ ← assert_true (negb (hasModifier c));
  let '(e, c1) :=
    match cacheCoins (maps c) !! txid with
    | Some e => (e, c)
    | None =>
        match GetCoins txid (base c) with
        | (None, v') => (mkCoinsEntry CCoins_new false true, set_base v' c)
        | (Some coins, v') =>
            (mkCoinsEntry coins false (CCoins_IsPruned coins), set_base v' c)
        end
    end in
  let e' := mkCoinsEntry (ce_coins e) true (ce_FRESH e) in
  Ok (set_hasModifier true
        (upd (fun m => set_coins (<[txid := e']> (cacheCoins m)) m) c1)).

Definition ModifyNewCoins (txid : uint256) (c : cache) : result cache :=
  _ ← assert_true (negb (hasModifier c));
  Ok (set_hasModifier true
        (upd (fun m => set_coins (<[txid := mkCoinsEntry CCoins_new true true]> (cacheCoins m)) m) c)).

(** [~CCoinsModifier]. *)
Definition CCoinsModifier_destroy (txid : uint256) (c : cache) : result cache :=
  _ ← assert_true (hasModifier c);
  match cacheCoins (maps c) !! txid with
  | None => Abort
  | Some e =>
      let coins := CCoins_Cleanup (ce_coins e) in
      let m' :=
        if ce_FRESH e && CCoins_IsPruned coins
        then delete txid (cacheCoins (maps c))
        else <[txid := mkCoinsEntry coins (ce_DIRTY e) (ce_FRESH e)]> (cacheCoins (maps c)) in
      Ok (set_hasModifier false (upd (set_coins m') c))
  end.

Definition modify {A} (acquire : uint256 -> cache -> result cache) (txid : uint256)
  (body : CCoins -> result (A * CCoins)) (c : cache) : result (A * cache) :=
  c1 ← acquire txid c;
  match cacheCoins (maps c1) !! txid with
  | None => Abort
  | Some e =>
      r ← body (ce_coins e);
      c2 ← CCoinsModifier_destroy txid
             (upd (fun m => set_coins
                (<[txid := mkCoinsEntry r.2 (ce_DIRTY e) (ce_FRESH e)]> (cacheCoins m)) m) c1);
      Ok (r.1, c2)
  end.

(** ** Writing a child's maps into this cache *)

Definition batch_coins_step (cc : gmap uint256 CCoinsCacheEntry) (p : uint256 * CCoinsCacheEntry)
  : result (gmap uint256 CCoinsCacheEntry) :=
  let '(t, it) := p in
  if ce_DIRTY it then
    match cc !! t with
    | None =>
        if negb (CCoins_IsPruned (ce_coins it)) then
          _ ← assert_true (ce_FRESH it);
          Ok (<[t := mkCoinsEntry (ce_coins it) true true]> cc)
        else Ok cc
    | Some itUs =>
        if ce_FRESH itUs && CCoins_IsPruned (ce_coins it)
        then Ok (delete t cc)
        else Ok (<[t := mkCoinsEntry (ce_coins it) true (ce_FRESH itUs)]> cc)
    end
  else Ok cc.

Definition batch_null_step (cn : gmap uint256 CNullifiersCacheEntry) (p : uint256 * CNullifiersCacheEntry)
  : gmap uint256 CNullifiersCacheEntry :=
  let '(t, child) := p in
  if ne_DIRTY child then
    match cn !! t with
    | None => <[t := mkNullEntry (ne_entered child) true]> cn
    | Some parent =>
        if bool_decide (ne_entered parent = ne_entered child) then cn
        else <[t := mkNullEntry (ne_entered child) true]> cn
    end
  else cn.

Definition BatchWriteNullifiers (mapNullifiers cacheNullifiers : gmap uint256 CNullifiersCacheEntry)
  : gmap uint256 CNullifiersCacheEntry :=
  foldl batch_null_step cacheNullifiers (map_to_list mapNullifiers).

Definition batch_anchor_step {T} (ca : gmap uint256 (CAnchorsCacheEntry T))
  (p : uint256 * CAnchorsCacheEntry T) : gmap uint256 (CAnchorsCacheEntry T) :=
  let '(t, child) := p in
  if ae_DIRTY child then
    match ca !! t with
    | None => <[t := mkAnchorEntry (ae_entered child) (ae_tree child) true]> ca
    | Some parent =>
        if bool_decide (ae_entered parent = ae_entered child) then ca
        else <[t := mkAnchorEntry (ae_entered child) (ae_tree parent) true]> ca
    end
  else ca.

Definition BatchWriteAnchors {T} (mapAnchors cacheAnchors : gmap uint256 (CAnchorsCacheEntry T))
  : gmap uint256 (CAnchorsCacheEntry T) :=
  foldl batch_anchor_step cacheAnchors (map_to_list mapAnchors).

Definition Cache_BatchWrite (b : maps_t) (c : cache) : result (bool * cache) :=
  _ ← assert_true (negb (hasModifier c));
  coins ← foldM batch_coins_step (map_to_list (cacheCoins b)) (cacheCoins (maps c));
  hist ← BatchWriteHistory (historyCacheMap (maps c)) (historyCacheMap b);
  Ok (true,
      upd (fun m => mkCacheMaps coins (hashBlock b) (hashSproutAnchor b) (hashSaplingAnchor b)
             (BatchWriteAnchors (cacheSproutAnchors b) (cacheSproutAnchors m))
             (BatchWriteAnchors (cacheSaplingAnchors b) (cacheSaplingAnchors m))
             (BatchWriteNullifiers (cacheSproutNullifiers b) (cacheSproutNullifiers m))
             (BatchWriteNullifiers (cacheSaplingNullifiers b) (cacheSaplingNullifiers m))
             hist) c).

(** [Flush]: hand the maps to the base and empty them.  The best-block and
    best-anchor hashes are kept. *)
Definition Cache_Flush (c : cache) : result (bool * cache) :=
  r ← BatchWrite (maps c) (base c);
  Ok (r.1, mkCache r.2 (hasModifier c)
             (mkCacheMaps ∅ (hashBlock (maps c)) (hashSproutAnchor (maps c))
                (hashSaplingAnchor (maps c)) ∅ ∅ ∅ ∅ ∅)).

#[global] Instance CCoinsViewCache_view : CCoinsView SpT SaT cache := {|
  GetSproutAnchorAt := Cache_GetSproutAnchorAt;
  GetSaplingAnchorAt := Cache_GetSaplingAnchorAt;
  GetNullifier := Cache_GetNullifier;
  GetCoins := Cache_GetCoins;
  HaveCoins := Cache_HaveCoins;
  GetBestBlock := Cache_GetBestBlock;
  GetBestAnchor := Cache_GetBestAnchor;
  GetHistoryLength := Cache_GetHistoryLength;
  GetHistoryAt := Cache_GetHistoryAt;
  GetHistoryRoot := Cache_GetHistoryRoot;
  BatchWrite := Cache_BatchWrite
|}.
End Cache.
