(* ===== verification/CoinsLaws.v ===== *)
(** * What a coins view promises, and the cache's refinement

    The abstract state of a view, the laws a [CCoinsView] implementation
    satisfies with respect to it, and the proof that [CCoinsViewCache] over a
    lawful base is a lawful view: reads return the abstract state and do not
    change it, [BatchWrite] overlays the child's maps. *)
From S2P Require Import Prelude Transaction Coins History CoinsView.
From stdpp Require Import prelude gmap strings list.
#[local] Open Scope Z_scope.

(** ** Abstract state *)

Record AbsView := mkAbs {
  a_coins : uint256 -> option CCoins;        (* unspent outputs; never fully spent *)
  a_null : ShieldedType -> uint256 -> bool;  (* spent nullifiers *)
  a_anchor : ShieldedType -> uint256 -> bool;(* known tree roots *)
  a_best : uint256;
  a_bestAnchor : ShieldedType -> uint256;
  a_hlen : Z -> Z;
  a_hroot : Z -> uint256;
  a_hat : Z -> Z -> option HistoryNode
}.

(** Pointwise equality; history nodes matter below the history's length. *)
Record abs_equiv (a b : AbsView) : Prop := {
  eqv_coins : forall t, a_coins a t = a_coins b t;
  eqv_null : forall ty nf, a_null a ty nf = a_null b ty nf;
  eqv_anchor : forall ty rt, a_anchor a ty rt = a_anchor b ty rt;
  eqv_best : a_best a = a_best b;
  eqv_bestAnchor : forall ty, a_bestAnchor a ty = a_bestAnchor b ty;
  eqv_hlen : forall e, a_hlen a e = a_hlen b e;
  eqv_hroot : forall e, a_hroot a e = a_hroot b e;
  eqv_hat : forall e i, 0 <= i < a_hlen a e -> a_hat a e i = a_hat b e i
}.
#[global] Instance AbsView_equiv : Equiv AbsView := abs_equiv.

#[global] Instance AbsView_equivalence : Equivalence (≡@{AbsView}).
Proof.
  split.
  - intros a. split; done.
  - intros a b []. split; intros; symmetry; auto. apply eqv_hat0. by rewrite eqv_hlen0.
  - intros a b c H1 H2. split; intros;
      [by etrans; [apply H1|apply H2]..|].
    rewrite (eqv_hat _ _ H1) by done. apply (eqv_hat _ _ H2). by rewrite <- (eqv_hlen _ _ H1).
Qed.

(** A view state [v'] reached by reads from [v]. *)
Definition stable {V} (inv : V -> Prop) (abs : V -> AbsView) (backed : V -> uint256 -> Prop)
  (v v' : V) : Prop :=
  inv v' /\ abs v' ≡ abs v /\ forall t, backed v t -> backed v' t.

(** The maps of a cache are consistent with the state of the view below it:
    clean entries agree with it, FRESH entries are absent from it, the
    others are backed by it; anchors are filed under their root, and the root
    of the empty tree is never removed. *)
Record batch_ok {SpT SaT} `{MerkleTree SpT} `{MerkleTree SaT}
  (b : CacheMaps SpT SaT) (a : AbsView) (backed : uint256 -> Prop) : Prop := {
  bo_coins : forall t e, cacheCoins b !! t = Some e ->
    (ce_DIRTY e = false -> norm (Some (ce_coins e)) = a_coins a t)
    /\ (ce_FRESH e = true -> a_coins a t = None)
    /\ (ce_FRESH e = false -> backed t);
  bo_null : forall ty nf e, get_nullifiers ty b !! nf = Some e ->
    ne_DIRTY e = false -> ne_entered e = a_null a ty nf;
  bo_sprout : forall rt e, cacheSproutAnchors b !! rt = Some e ->
    tree_root (ae_tree e) = rt /\ (ae_DIRTY e = false -> ae_entered e = a_anchor a SPROUT rt)
    /\ (rt = tree_empty_root (T := SpT) -> ae_entered e = true);
  bo_sapling : forall rt e, cacheSaplingAnchors b !! rt = Some e ->
    tree_root (ae_tree e) = rt /\ (ae_DIRTY e = false -> ae_entered e = a_anchor a SAPLING rt)
    /\ (rt = tree_empty_root (T := SaT) -> ae_entered e = true);
  bo_hist : forall e hc, historyCacheMap b !! e = Some hc -> hist_ok (a_hlen a e) hc
}.

(** The state seen through the maps. *)
Definition overlay {SpT SaT} (b : CacheMaps SpT SaT) (a : AbsView) : AbsView := mkAbs
  (fun t => match cacheCoins b !! t with
            | Some e => norm (Some (ce_coins e))
            | None => a_coins a t
            end)
  (fun ty nf => match get_nullifiers ty b !! nf with
                | Some e => ne_entered e
                | None => a_null a ty nf
                end)
  (fun ty rt => match ty with
                | SPROUT => match cacheSproutAnchors b !! rt with
                            | Some e => ae_entered e
                            | None => a_anchor a ty rt
                            end
                | SAPLING => match cacheSaplingAnchors b !! rt with
                             | Some e => ae_entered e
                             | None => a_anchor a ty rt
                             end
                end)
  (if uint256_IsNull (hashBlock b) then a_best a else hashBlock b)
  (fun ty => if uint256_IsNull (get_hashAnchor ty b) then a_bestAnchor a ty else get_hashAnchor ty b)
  (fun e => match historyCacheMap b !! e with Some hc => hc_length hc | None => a_hlen a e end)
  (fun e => match historyCacheMap b !! e with Some hc => hc_root hc | None => a_hroot a e end)
  (fun e i => match historyCacheMap b !! e with
              | Some hc => hist_at (a_hat a e) hc i
              | None => a_hat a e i
              end).

(** The best block and both best anchors have been read or set. *)
Definition best_known {SpT SaT} (b : CacheMaps SpT SaT) : Prop :=
  hashBlock b <> uint256_null /\ hashSproutAnchor b <> uint256_null
  /\ hashSaplingAnchor b <> uint256_null.

(** The laws of the reads; a view under a cache that is only read needs no
    more. *)
Class CCoinsViewReads (SpT SaT V : Type) `{MerkleTree SpT, MerkleTree SaT, CCoinsView SpT SaT V} := {
  view_inv : V -> Prop;
  view_abs : V -> AbsView;
  view_backed : V -> uint256 -> Prop;
  view_hlen : forall v e, view_inv v -> 0 <= a_hlen (view_abs v) e < 2 ^ 63;
  GetCoins_law : forall t v, view_inv v ->
    stable view_inv view_abs view_backed v (GetCoins t v).2
    /\ norm (GetCoins t v).1 = a_coins (view_abs v) t
    /\ (norm (GetCoins t v).1 <> None -> view_backed (GetCoins t v).2 t);
  HaveCoins_law : forall t v, view_inv v ->
    stable view_inv view_abs view_backed v (HaveCoins t v).2
    /\ (a_coins (view_abs v) t <> None -> (HaveCoins t v).1 = true);
  GetNullifier_law : forall nf ty v, view_inv v ->
    stable view_inv view_abs view_backed v (GetNullifier nf ty v).2
    /\ (GetNullifier nf ty v).1 = a_null (view_abs v) ty nf;
  GetSproutAnchorAt_law : forall rt v, view_inv v ->
    stable view_inv view_abs view_backed v (GetSproutAnchorAt rt v).2
    /\ match (GetSproutAnchorAt rt v).1 with
       | Some tree => tree_root tree = rt /\ a_anchor (view_abs v) SPROUT rt = true
       | None => a_anchor (view_abs v) SPROUT rt = false
       end;
  GetSaplingAnchorAt_law : forall rt v, view_inv v ->
    stable view_inv view_abs view_backed v (GetSaplingAnchorAt rt v).2
    /\ match (GetSaplingAnchorAt rt v).1 with
       | Some tree => tree_root tree = rt /\ a_anchor (view_abs v) SAPLING rt = true
       | None => a_anchor (view_abs v) SAPLING rt = false
       end;
  GetBestBlock_law : forall v, view_inv v ->
    stable view_inv view_abs view_backed v (GetBestBlock v).2
    /\ (GetBestBlock v).1 = a_best (view_abs v);
  GetBestAnchor_law : forall ty v, view_inv v ->
    stable view_inv view_abs view_backed v (GetBestAnchor ty v).2
    /\ (GetBestAnchor ty v).1 = a_bestAnchor (view_abs v) ty;
  GetHistoryLength_law : forall e v, view_inv v ->
    stable view_inv view_abs view_backed v (GetHistoryLength e v).2
    /\ (GetHistoryLength e v).1 = a_hlen (view_abs v) e;
  GetHistoryRoot_law : forall e v, view_inv v ->
    stable view_inv view_abs view_backed v (GetHistoryRoot e v).2
    /\ (GetHistoryRoot e v).1 = a_hroot (view_abs v) e;
  GetHistoryAt_law : forall e i v, view_inv v -> 0 <= i < a_hlen (view_abs v) e ->
    exists n v', GetHistoryAt e i v = Ok (n, v') /\ a_hat (view_abs v) e i = Some n
      /\ stable view_inv view_abs view_backed v v'
}.

(** The laws of a view that can be written to. *)
Class CCoinsViewLaws (SpT SaT V : Type) {TSp : MerkleTree SpT} {TSa : MerkleTree SaT} {View : CCoinsView SpT SaT V} := {
  laws_reads : @CCoinsViewReads SpT SaT V TSp TSa View;
  BatchWrite_law : forall b v, @view_inv _ _ _ _ _ _ laws_reads v ->
    batch_ok b (@view_abs _ _ _ _ _ _ laws_reads v) (@view_backed _ _ _ _ _ _ laws_reads v) -> best_known b ->
    exists v', BatchWrite b v = Ok (true, v') /\ @view_inv _ _ _ _ _ _ laws_reads v'
      /\ @view_abs _ _ _ _ _ _ laws_reads v' ≡ overlay b (@view_abs _ _ _ _ _ _ laws_reads v)
}.
#[global] Existing Instance laws_reads.

(** ** Congruence of the overlay *)

Section Overlay.
Context {SpT SaT : Type} `{MerkleTree SpT} `{MerkleTree SaT}.
Implicit Types b : CacheMaps SpT SaT.

Lemma batch_ok_mono b a a' (B B' : uint256 -> Prop) :
  a' ≡ a -> (forall t, B t -> B' t) -> batch_ok b a B -> batch_ok b a' B'.
Proof.
  intros Ha HB [Hc Hn Hs Hz Hh]. split.
  - intros t e He. destruct (Hc t e He) as (H1 & H2 & H3).
    rewrite (eqv_coins _ _ Ha). auto.
  - intros ty nf e He Hd. rewrite (eqv_null _ _ Ha). eauto.
  - intros rt e He. rewrite (eqv_anchor _ _ Ha). eauto.
  - intros rt e He. rewrite (eqv_anchor _ _ Ha). eauto.
  - intros e hc He. rewrite (eqv_hlen _ _ Ha). eauto.
Qed.

Lemma overlay_mono b a a' B : a' ≡ a -> batch_ok b a B -> overlay b a' ≡ overlay b a.
Proof.
  intros Ha Hb. split; simpl.
  - intros t. by rewrite (eqv_coins _ _ Ha).
  - intros ty nf. by rewrite (eqv_null _ _ Ha).
  - intros ty rt. by rewrite (eqv_anchor _ _ Ha).
  - by rewrite (eqv_best _ _ Ha).
  - intros ty. by rewrite (eqv_bestAnchor _ _ Ha).
  - intros e. by rewrite (eqv_hlen _ _ Ha).
  - intros e. by rewrite (eqv_hroot _ _ Ha).
  - intros e i Hi. destruct (historyCacheMap b !! e) as [hc|] eqn:E.
    + unfold hist_at. destruct (hc_updateDepth hc <=? i) eqn:Ed; [done|]. zbool.
      destruct (bo_hist _ _ _ Hb e hc E) as (? & ? & _).
      apply (eqv_hat _ _ Ha). rewrite (eqv_hlen _ _ Ha). lia.
    + by apply (eqv_hat _ _ Ha).
Qed.

Lemma batch_ok_empty a B : batch_ok (maps_empty : CacheMaps SpT SaT) a B.
Proof. split; intros *; try destruct ty; cbn; rewrite lookup_empty; done. Qed.

(** Coins entries of a consistent map show what the view below shows, unless
    they are dirty. *)
Lemma overlay_hlen b a B e :
  batch_ok b a B -> 0 <= a_hlen a e < 2 ^ 63 -> 0 <= a_hlen (overlay b a) e < 2 ^ 63.
Proof.
  intros Hb Ha. simpl. destruct (historyCacheMap b !! e) as [hc|] eqn:E; [|done].
  destruct (bo_hist _ _ _ Hb e hc E) as (? & ? & ? & _). lia.
Qed.
End Overlay.
