(* ===== verification/CoinsCache.v ===== *)
(** * [CCoinsViewCache] is a lawful view

    Reads through a cache preserve its invariant and its abstract state and
    return what the abstract state says; writing a child's maps into the
    cache overlays them.  Hence caches stack: a cache over a lawful view is
    a lawful view. *)
From S2P Require Import Prelude Transaction Coins History CoinsView CoinsLaws.
From stdpp Require Import prelude gmap strings list.
#[local] Open Scope Z_scope.

Section CacheLaws.
Context {SpT SaT V : Type} `{!MerkleTree SpT, !MerkleTree SaT, !CCoinsView SpT SaT V}.
Context `{!CCoinsViewReads SpT SaT V}.
Local Abbreviation maps_t := (CacheMaps SpT SaT).
Local Abbreviation cache := (CCoinsViewCache SpT SaT V).
Implicit Types (m b : maps_t) (c : cache) (a : AbsView).

Definition cache_core (c : cache) : Prop :=
  view_inv (base c) /\ batch_ok (maps c) (view_abs (base c)) (view_backed (base c)).
Definition cache_inv (c : cache) : Prop := cache_core c /\ hasModifier c = false.
Definition cache_abs (c : cache) : AbsView := overlay (maps c) (view_abs (base c)).
Definition cache_backed (c : cache) (t : uint256) : Prop := is_Some (cacheCoins (maps c) !! t).

(** Reads keep the modifier flag, so their core invariant suffices. *)
Definition read_ok (c c' : cache) : Prop :=
  cache_core c' /\ cache_abs c' ≡ cache_abs c
  /\ (forall t, cache_backed c t -> cache_backed c' t) /\ hasModifier c' = hasModifier c.

Lemma read_ok_refl c : cache_core c -> read_ok c c.
Proof. by intros Hc. Qed.

Lemma read_ok_trans c1 c2 c3 : read_ok c1 c2 -> read_ok c2 c3 -> read_ok c1 c3.
Proof.
  intros (? & ? & ? & ?) (? & E & ? & ?). split; [done|]. split; [by etrans; [apply E|]|]. split; [by auto|congruence].
Qed.

Lemma read_ok_stable c c' :
  cache_inv c -> read_ok c c' -> stable cache_inv cache_abs cache_backed c c'.
Proof. intros [? ?] (? & ? & ? & ?). split; [split; [done|congruence]|done]. Qed.

(** A read of the base. *)
Lemma read_ok_set_base c v' :
  cache_core c -> stable view_inv view_abs view_backed (base c) v' -> read_ok c (set_base v' c).
Proof.
  intros [Hv Hb] (Hv' & Ha & HB). split_and!; [split|..]; simpl; try done.
  - eapply batch_ok_mono; eauto.
  - eapply overlay_mono; eauto.
Qed.

(** A change of the maps that stays consistent and shows the same state. *)
Lemma read_ok_upd c f :
  cache_core c ->
  batch_ok (f (maps c)) (view_abs (base c)) (view_backed (base c)) ->
  overlay (f (maps c)) (view_abs (base c)) ≡ overlay (maps c) (view_abs (base c)) ->
  (forall t, is_Some (cacheCoins (maps c) !! t) -> is_Some (cacheCoins (f (maps c)) !! t)) ->
  read_ok c (upd f c).
Proof. intros [Hv Hb] Hf He Hk. split_and!; [split|..]; done. Qed.

(** ** Adding clean entries *)

(** The nullifier maps are untouched. *)
Ltac null_same Hn := intros []; [apply (Hn SPROUT)|apply (Hn SAPLING)].

Lemma insert_coins_clean m a B t coins :
  batch_ok m a B -> cacheCoins m !! t = None -> norm (Some coins) = a_coins a t ->
  (CCoins_IsPruned coins = false -> B t) ->
  let m' := set_coins (<[t := mkCoinsEntry coins false (CCoins_IsPruned coins)]> (cacheCoins m)) m in
  batch_ok m' a B /\ overlay m' a ≡ overlay m a.
Proof.
  intros [Hc Hn Hs Hz Hh] Ht Ho HB m'. split.
  - split; [|null_same Hn|done..]. intros t' e. simpl.
    destruct (decide (t = t')) as [<-|Hne].
    + rewrite lookup_insert_eq. intros [= <-]. simpl. split_and!; [done| |done].
      intros Hp. rewrite <- Ho. by apply norm_pruned.
    + rewrite lookup_insert_ne by done. apply Hc.
  - split; try done. intros t'. simpl. destruct (decide (t = t')) as [<-|Hne].
    + rewrite lookup_insert_eq, Ht. done.
    + by rewrite lookup_insert_ne.
Qed.

Lemma insert_null_clean m a B ty nf :
  batch_ok m a B -> get_nullifiers ty m !! nf = None ->
  let m' := set_nullifiers ty (<[nf := mkNullEntry (a_null a ty nf) false]> (get_nullifiers ty m)) m in
  batch_ok m' a B /\ overlay m' a ≡ overlay m a.
Proof.
  intros [Hc Hn Hs Hz Hh] Ht m'. subst m'. split.
  - split; try done. intros ty' nf' e.
    destruct ty, ty'; simpl; try (apply (Hn SPROUT)); try (apply (Hn SAPLING));
      (destruct (decide (nf = nf')) as [<-|Hne];
       [rewrite lookup_insert_eq; by intros [= <-]|rewrite lookup_insert_ne by done]).
    + apply (Hn SPROUT).
    + apply (Hn SAPLING).
  - split; try done. intros ty' nf'.
    destruct ty, ty'; simpl in *; try done;
      (destruct (decide (nf = nf')) as [<-|Hne];
       [rewrite lookup_insert_eq, Ht; done|by rewrite lookup_insert_ne by done]).
Qed.

Lemma insert_sprout_clean m a B rt tree :
  batch_ok m a B -> cacheSproutAnchors m !! rt = None -> tree_root tree = rt ->
  a_anchor a SPROUT rt = true ->
  let m' := set_sproutAnchors (<[rt := mkAnchorEntry true tree false]> (cacheSproutAnchors m)) m in
  batch_ok m' a B /\ overlay m' a ≡ overlay m a.
Proof.
  intros [Hc Hn Hs Hz Hh] Ht Hr Ha m'. split.
  - split; [done|null_same Hn| |done..]. intros rt' e. simpl.
    destruct (decide (rt = rt')) as [<-|Hne].
    + rewrite lookup_insert_eq. by intros [= <-].
    + rewrite lookup_insert_ne by done. apply Hs.
  - split; try done. intros [] rt'; [|done]. simpl. destruct (decide (rt = rt')) as [<-|Hne].
    + by rewrite lookup_insert_eq, Ht.
    + by rewrite lookup_insert_ne.
Qed.

Lemma insert_sapling_clean m a B rt tree :
  batch_ok m a B -> cacheSaplingAnchors m !! rt = None -> tree_root tree = rt ->
  a_anchor a SAPLING rt = true ->
  let m' := set_saplingAnchors (<[rt := mkAnchorEntry true tree false]> (cacheSaplingAnchors m)) m in
  batch_ok m' a B /\ overlay m' a ≡ overlay m a.
Proof.
  intros [Hc Hn Hs Hz Hh] Ht Hr Ha m'. split.
  - split; [done|null_same Hn|done| |done]. intros rt' e. simpl.
    destruct (decide (rt = rt')) as [<-|Hne].
    + rewrite lookup_insert_eq. by intros [= <-].
    + rewrite lookup_insert_ne by done. apply Hz.
  - split; try done. intros [] rt'; [done|]. simpl. destruct (decide (rt = rt')) as [<-|Hne].
    + by rewrite lookup_insert_eq, Ht.
    + by rewrite lookup_insert_ne.
Qed.

Lemma insert_hist_clean m a B e :
  batch_ok m a B -> historyCacheMap m !! e = None -> 0 <= a_hlen a e < 2 ^ 63 ->
  let hc := HistoryCache_new (a_hlen a e) (a_hroot a e) e in
  let m' := set_history (<[e := hc]> (historyCacheMap m)) m in
  batch_ok m' a B /\ overlay m' a ≡ overlay m a.
Proof.
  intros [Hc Hn Hs Hz Hh] Ht Hl hc m'. split.
  - split; [done|null_same Hn|done..|]. intros e' hc'. simpl.
    destruct (decide (e = e')) as [<-|Hne].
    + rewrite lookup_insert_eq. intros [= <-]. by apply hist_ok_new.
    + rewrite lookup_insert_ne by done. apply Hh.
  - split; try done; simpl.
    + intros e'. destruct (decide (e = e')) as [<-|Hne];
        [by rewrite lookup_insert_eq, Ht|by rewrite lookup_insert_ne].
    + intros e'. destruct (decide (e = e')) as [<-|Hne];
        [by rewrite lookup_insert_eq, Ht|by rewrite lookup_insert_ne].
    + intros e' i. destruct (decide (e = e')) as [<-|Hne];
        [rewrite lookup_insert_eq, Ht|by rewrite lookup_insert_ne].
      simpl. unfold hist_at. simpl. intros Hi. by rewrite (proj2 (Z.leb_gt _ _)) by lia.
Qed.

Lemma set_best_clean m a B :
  batch_ok m a B -> uint256_IsNull (hashBlock m) = true ->
  batch_ok (set_hashBlock (a_best a) m) a B /\ overlay (set_hashBlock (a_best a) m) a ≡ overlay m a.
Proof.
  intros [Hc Hn Hs Hz Hh] Hb. split.
  - split; [exact Hc|null_same Hn|exact Hs|exact Hz|exact Hh].
  - split; try done. simpl. rewrite Hb. by destruct (uint256_IsNull (a_best a)).
Qed.

Lemma set_bestAnchor_clean m a B ty :
  batch_ok m a B -> uint256_IsNull (get_hashAnchor ty m) = true ->
  batch_ok (set_hashAnchor ty (a_bestAnchor a ty) m) a B
  /\ overlay (set_hashAnchor ty (a_bestAnchor a ty) m) a ≡ overlay m a.
Proof.
  intros [Hc Hn Hs Hz Hh] Hb. split.
  - split; [exact Hc|null_same Hn|exact Hs|exact Hz|exact Hh].
  - split; try done. intros ty'. destruct ty, ty'; simpl in *; try done;
      rewrite Hb; by case_match.
Qed.

(** ** Reads *)

Lemma FetchCoins_ok t c :
  cache_core c ->
  read_ok c (FetchCoins t c).2
  /\ norm (FetchCoins t c).1 = a_coins (cache_abs c) t
  /\ (norm (FetchCoins t c).1 <> None -> cache_backed (FetchCoins t c).2 t).
Proof.
  intros Hc. unfold FetchCoins, cache_abs. simpl.
  destruct (cacheCoins (maps c) !! t) as [e|] eqn:Et; simpl.
  { split_and!; [by apply read_ok_refl|done|]. intros _. unfold cache_backed. rewrite Et. eauto. }
  destruct (GetCoins_law t (base c) (proj1 Hc)) as (Hst & Ho & HB).
  destruct (GetCoins t (base c)) as [o v'] eqn:Eg. simpl in *.
  pose proof (read_ok_set_base c v' Hc Hst) as Hr. pose proof Hr as (Hc' & _).
  destruct o as [tmp|]; simpl; [|split_and!; [done|by rewrite <- Ho|done]].
  split_and!; [|done|].
  - eapply read_ok_trans; [exact Hr|].
    destruct Hst as (_ & Ha & _).
    destruct (insert_coins_clean (maps c) (view_abs v') (view_backed v') t tmp) as [H1 H2];
      [apply Hc'|done|by rewrite (eqv_coins _ _ Ha)|intros Hp; apply HB; simpl; by rewrite Hp|].
    apply read_ok_upd; [done|done|done|]. intros t' [e He]. simpl in *.
    rewrite lookup_insert_ne by congruence. eauto.
  - intros _. unfold cache_backed. simpl. rewrite lookup_insert_eq. eauto.
Qed.

Lemma GetNullifier_ok nf ty c :
  cache_core c ->
  read_ok c (Cache_GetNullifier nf ty c).2
  /\ (Cache_GetNullifier nf ty c).1 = a_null (cache_abs c) ty nf.
Proof.
  intros Hc. unfold Cache_GetNullifier, cache_abs. simpl.
  destruct (get_nullifiers ty (maps c) !! nf) as [e|] eqn:Et; simpl.
  { split; [by apply read_ok_refl|done]. }
  destruct (GetNullifier_law nf ty (base c) (proj1 Hc)) as (Hst & Ho).
  destruct (GetNullifier nf ty (base c)) as [o v'] eqn:Eg. simpl in *. subst o.
  pose proof (read_ok_set_base c v' Hc Hst) as Hr. pose proof Hr as (Hc' & _).
  split; [|done]. eapply read_ok_trans; [exact Hr|]. destruct Hst as (_ & Ha & _).
  destruct (insert_null_clean (maps c) (view_abs v') (view_backed v') ty nf) as [H1 H2];
    [apply Hc'|done|].
  rewrite (eqv_null _ _ Ha) in H1, H2. by apply read_ok_upd.
Qed.

Lemma GetSproutAnchorAt_ok rt c :
  cache_core c ->
  read_ok c (Cache_GetSproutAnchorAt rt c).2
  /\ match (Cache_GetSproutAnchorAt rt c).1 with
     | Some tree => tree_root tree = rt /\ a_anchor (cache_abs c) SPROUT rt = true
     | None => a_anchor (cache_abs c) SPROUT rt = false
     end.
Proof.
  intros Hc. unfold Cache_GetSproutAnchorAt, anchor_at, cache_abs. simpl.
  destruct (cacheSproutAnchors (maps c) !! rt) as [e|] eqn:Et; simpl.
  { split; [by apply read_ok_refl|].
    destruct (bo_sprout _ _ _ (proj2 Hc) rt e Et) as (? & ? & ?). by destruct (ae_entered e). }
  destruct (GetSproutAnchorAt_law rt (base c) (proj1 Hc)) as (Hst & Ho).
  destruct (GetSproutAnchorAt rt (base c)) as [o v'] eqn:Eg. simpl in *.
  pose proof (read_ok_set_base c v' Hc Hst) as Hr. pose proof Hr as (Hc' & _).
  destruct o as [tree|]; simpl; [|done].
  split; [|done]. eapply read_ok_trans; [exact Hr|]. destruct Hst as (_ & Ha & _). destruct Ho.
  destruct (insert_sprout_clean (maps c) (view_abs v') (view_backed v') rt tree) as [H1 H2];
    [apply Hc'|done|done|by rewrite (eqv_anchor _ _ Ha)|]. by apply read_ok_upd.
Qed.

Lemma GetSaplingAnchorAt_ok rt c :
  cache_core c ->
  read_ok c (Cache_GetSaplingAnchorAt rt c).2
  /\ match (Cache_GetSaplingAnchorAt rt c).1 with
     | Some tree => tree_root tree = rt /\ a_anchor (cache_abs c) SAPLING rt = true
     | None => a_anchor (cache_abs c) SAPLING rt = false
     end.
Proof.
  intros Hc. unfold Cache_GetSaplingAnchorAt, anchor_at, cache_abs. simpl.
  destruct (cacheSaplingAnchors (maps c) !! rt) as [e|] eqn:Et; simpl.
  { split; [by apply read_ok_refl|].
    destruct (bo_sapling _ _ _ (proj2 Hc) rt e Et) as (? & ? & ?). by destruct (ae_entered e). }
  destruct (GetSaplingAnchorAt_law rt (base c) (proj1 Hc)) as (Hst & Ho).
  destruct (GetSaplingAnchorAt rt (base c)) as [o v'] eqn:Eg. simpl in *.
  pose proof (read_ok_set_base c v' Hc Hst) as Hr. pose proof Hr as (Hc' & _).
  destruct o as [tree|]; simpl; [|done].
  split; [|done]. eapply read_ok_trans; [exact Hr|]. destruct Hst as (_ & Ha & _). destruct Ho.
  destruct (insert_sapling_clean (maps c) (view_abs v') (view_backed v') rt tree) as [H1 H2];
    [apply Hc'|done|done|by rewrite (eqv_anchor _ _ Ha)|]. by apply read_ok_upd.
Qed.

Lemma GetBestBlock_ok c :
  cache_core c ->
  read_ok c (Cache_GetBestBlock c).2 /\ (Cache_GetBestBlock c).1 = a_best (cache_abs c).
Proof.
  intros Hc. unfold Cache_GetBestBlock, cache_abs. simpl.
  destruct (uint256_IsNull (hashBlock (maps c))) eqn:En; simpl; [|split; [by apply read_ok_refl|done]].
  destruct (GetBestBlock_law (base c) (proj1 Hc)) as (Hst & Ho).
  destruct (GetBestBlock (base c)) as [h v'] eqn:Eg. simpl in *. subst h.
  pose proof (read_ok_set_base c v' Hc Hst) as Hr. pose proof Hr as (Hc' & _).
  split; [|done]. eapply read_ok_trans; [exact Hr|]. destruct Hst as (_ & Ha & _).
  destruct (set_best_clean (maps c) (view_abs v') (view_backed v')) as [H1 H2]; [apply Hc'|done|].
  rewrite (eqv_best _ _ Ha) in H1, H2. by apply read_ok_upd.
Qed.

Lemma GetBestAnchor_ok ty c :
  cache_core c ->
  read_ok c (Cache_GetBestAnchor ty c).2 /\ (Cache_GetBestAnchor ty c).1 = a_bestAnchor (cache_abs c) ty.
Proof.
  intros Hc. unfold Cache_GetBestAnchor, cache_abs. simpl.
  destruct (uint256_IsNull (get_hashAnchor ty (maps c))) eqn:En; simpl;
    [|split; [by apply read_ok_refl|done]].
  destruct (GetBestAnchor_law ty (base c) (proj1 Hc)) as (Hst & Ho).
  destruct (GetBestAnchor ty (base c)) as [h v'] eqn:Eg. simpl in *. subst h.
  pose proof (read_ok_set_base c v' Hc Hst) as Hr. pose proof Hr as (Hc' & _).
  split; [|done]. eapply read_ok_trans; [exact Hr|]. destruct Hst as (_ & Ha & _).
  destruct (set_bestAnchor_clean (maps c) (view_abs v') (view_backed v') ty) as [H1 H2];
    [apply Hc'|done|].
  rewrite (eqv_bestAnchor _ _ Ha) in H1, H2. by apply read_ok_upd.
Qed.

Lemma SelectHistoryCache_ok e c :
  cache_core c ->
  let '(hc, c') := SelectHistoryCache e c in
  read_ok c c' /\ historyCacheMap (maps c') !! e = Some hc.
Proof.
  intros Hc. unfold SelectHistoryCache.
  destruct (historyCacheMap (maps c) !! e) as [hc|] eqn:Et; simpl.
  { split; [by apply read_ok_refl|done]. }
  destruct (GetHistoryLength_law e (base c) (proj1 Hc)) as (Hst & Ho).
  destruct (GetHistoryLength e (base c)) as [len v1] eqn:E1. simpl in *. subst len.
  pose proof (read_ok_set_base c v1 Hc Hst) as Hr1. pose proof Hr1 as (Hc1 & _).
  destruct (GetHistoryRoot_law e v1 (proj1 Hc1)) as (Hst2 & Ho2).
  destruct (GetHistoryRoot e v1) as [root v2] eqn:E2. simpl in *. subst root.
  pose proof (read_ok_set_base _ v2 Hc1 Hst2) as Hr2. pose proof Hr2 as (Hc2 & _).
  change (set_base v2 (set_base v1 c)) with (set_base v2 c) in *.
  split; [|by rewrite lookup_insert_eq].
  eapply read_ok_trans; [exact Hr1|]. eapply read_ok_trans; [exact Hr2|].
  destruct Hst as (_ & Ha & _), Hst2 as (_ & Ha2 & _).
  destruct (insert_hist_clean (maps c) (view_abs v2) (view_backed v2) e) as [H1 H2];
    [apply Hc2|done|apply view_hlen, Hc2|].
  rewrite (eqv_hlen _ _ Ha2), (eqv_hroot _ _ Ha2), (eqv_hlen _ _ Ha) in H1, H2.
  by apply read_ok_upd.
Qed.

Lemma GetHistoryLength_ok e c :
  cache_core c ->
  read_ok c (Cache_GetHistoryLength e c).2 /\ (Cache_GetHistoryLength e c).1 = a_hlen (cache_abs c) e.
Proof.
  intros Hc. unfold Cache_GetHistoryLength. pose proof (SelectHistoryCache_ok e c Hc) as Hs.
  destruct (SelectHistoryCache e c) as [hc c']. destruct Hs as [Hr He]. split; [done|].
  destruct Hr as (_ & Ha & _). rewrite <- (eqv_hlen _ _ Ha). unfold cache_abs. simpl. by rewrite He.
Qed.

Lemma GetHistoryRoot_ok e c :
  cache_core c ->
  read_ok c (Cache_GetHistoryRoot e c).2 /\ (Cache_GetHistoryRoot e c).1 = a_hroot (cache_abs c) e.
Proof.
  intros Hc. unfold Cache_GetHistoryRoot. pose proof (SelectHistoryCache_ok e c Hc) as Hs.
  destruct (SelectHistoryCache e c) as [hc c']. destruct Hs as [Hr He]. split; [done|].
  destruct Hr as (_ & Ha & _). rewrite <- (eqv_hroot _ _ Ha). unfold cache_abs. simpl. by rewrite He.
Qed.

Lemma GetHistoryAt_ok e i c :
  cache_core c -> 0 <= i < a_hlen (cache_abs c) e ->
  exists n c', Cache_GetHistoryAt e i c = Ok (n, c') /\ a_hat (cache_abs c) e i = Some n /\ read_ok c c'.
Proof.
  intros Hc Hi. unfold Cache_GetHistoryAt. pose proof (SelectHistoryCache_ok e c Hc) as Hs.
  destruct (SelectHistoryCache e c) as [hc c']. destruct Hs as [Hr He].
  pose proof Hr as (Hc' & Ha & _).
  pose proof (bo_hist _ _ _ (proj2 Hc') e hc He) as (Hd & Hdl & _ & Hap).
  rewrite <- (eqv_hlen _ _ Ha) in Hi. unfold cache_abs in Hi. simpl in Hi. rewrite He in Hi.
  rewrite (proj2 (Z.leb_gt _ _)) by lia.
  assert (Hat : a_hat (cache_abs c) e i = hist_at (a_hat (view_abs (base c')) e) hc i).
  { rewrite <- (eqv_hat _ _ Ha); unfold cache_abs; simpl; by rewrite He. }
  rewrite Hat. unfold hist_at. destruct (hc_updateDepth hc <=? i) eqn:Ed; zbool.
  - assert (is_Some (hc_appends hc !! i)) as [n Hn] by (apply Hap; lia).
    rewrite Hn. simpl. eauto 6.
  - destruct (GetHistoryAt_law e i (base c') (proj1 Hc')) as (n & v' & E & Hn & Hst); [lia|].
    rewrite E. mstep. eexists _, _. split; [done|]. split; [done|].
    eapply read_ok_trans; [exact Hr|]. by apply read_ok_set_base.
Qed.

(** ** Writes from a child *)

(** The entry a key ends with when the child holds [it] for it. *)
Definition coins_merge (o : option CCoinsCacheEntry) (it : CCoinsCacheEntry) : option CCoinsCacheEntry :=
  if ce_DIRTY it then
    match o with
    | None => if CCoins_IsPruned (ce_coins it) then None else Some (mkCoinsEntry (ce_coins it) true true)
    | Some us => if ce_FRESH us && CCoins_IsPruned (ce_coins it) then None
                 else Some (mkCoinsEntry (ce_coins it) true (ce_FRESH us))
    end
  else o.

Lemma batch_coins_step_ok (cc : gmap uint256 CCoinsCacheEntry) t it :
  (cc !! t = None -> ce_DIRTY it = true -> CCoins_IsPruned (ce_coins it) = false -> ce_FRESH it = true) ->
  exists cc', batch_coins_step cc (t, it) = Ok cc' /\ cc' !! t = coins_merge (cc !! t) it
    /\ forall j, j <> t -> cc' !! j = cc !! j.
Proof.
  intros Hpre. unfold batch_coins_step, coins_merge.
  destruct (ce_DIRTY it) eqn:Ed; [|eauto].
  destruct (cc !! t) as [us|] eqn:Et.
  - destruct (ce_FRESH us && CCoins_IsPruned (ce_coins it)) eqn:Ef; eexists; (split; [done|]).
    + split; [apply lookup_delete_eq|]. intros. by rewrite lookup_delete_ne.
    + split; [apply lookup_insert_eq|]. intros. by rewrite lookup_insert_ne.
  - destruct (CCoins_IsPruned (ce_coins it)) eqn:Ep; simpl; [eauto|].
    rewrite Hpre by done. mstep. eexists. split; [done|].
    split; [apply lookup_insert_eq|]. intros. by rewrite lookup_insert_ne.
Qed.

Definition null_merge (o : option CNullifiersCacheEntry) (ch : CNullifiersCacheEntry) :=
  if ne_DIRTY ch then
    match o with
    | None => Some (mkNullEntry (ne_entered ch) true)
    | Some p => if bool_decide (ne_entered p = ne_entered ch) then Some p
                else Some (mkNullEntry (ne_entered ch) true)
    end
  else o.

Lemma BatchWriteNullifiers_lookup (mb mp : gmap uint256 CNullifiersCacheEntry) nf :
  BatchWriteNullifiers mb mp !! nf =
    match mb !! nf with Some ch => null_merge (mp !! nf) ch | None => mp !! nf end.
Proof.
  apply foldl_pointwise. intros mm k ch. unfold batch_null_step, null_merge.
  destruct (ne_DIRTY ch); [|done]. destruct (mm !! k) as [p|] eqn:Ek; [case_bool_decide; [by rewrite Ek|]|];
    (split; [apply lookup_insert_eq|intros; by rewrite lookup_insert_ne]).
Qed.

Definition anchor_merge {T} (o : option (CAnchorsCacheEntry T)) (ch : CAnchorsCacheEntry T) :=
  if ae_DIRTY ch then
    match o with
    | None => Some (mkAnchorEntry (ae_entered ch) (ae_tree ch) true)
    | Some p => if bool_decide (ae_entered p = ae_entered ch) then Some p
                else Some (mkAnchorEntry (ae_entered ch) (ae_tree p) true)
    end
  else o.

Lemma BatchWriteAnchors_lookup {T} (mb mp : gmap uint256 (CAnchorsCacheEntry T)) rt :
  BatchWriteAnchors mb mp !! rt =
    match mb !! rt with Some ch => anchor_merge (mp !! rt) ch | None => mp !! rt end.
Proof.
  apply foldl_pointwise. intros mm k ch. unfold batch_anchor_step, anchor_merge.
  destruct (ae_DIRTY ch); [|done]. destruct (mm !! k) as [p|] eqn:Ek; [case_bool_decide; [by rewrite Ek|]|];
    (split; [apply lookup_insert_eq|intros; by rewrite lookup_insert_ne]).
Qed.

(** The merged entry of one anchor map, against the parent's map [mp]. *)
Lemma anchor_merge_ok {T} `{MerkleTree T} (mb mp : gmap uint256 (CAnchorsCacheEntry T)) (known : bool) rt :
  (forall e, mp !! rt = Some e -> tree_root (ae_tree e) = rt /\ (ae_DIRTY e = false -> ae_entered e = known)
     /\ (rt = tree_empty_root (T := T) -> ae_entered e = true)) ->
  (forall e, mb !! rt = Some e -> tree_root (ae_tree e) = rt /\
     (ae_DIRTY e = false -> ae_entered e = match mp !! rt with Some p => ae_entered p | None => known end)
     /\ (rt = tree_empty_root (T := T) -> ae_entered e = true)) ->
  let r := match mb !! rt with Some ch => anchor_merge (mp !! rt) ch | None => mp !! rt end in
  (forall e, r = Some e -> tree_root (ae_tree e) = rt /\ (ae_DIRTY e = false -> ae_entered e = known)
     /\ (rt = tree_empty_root (T := T) -> ae_entered e = true))
  /\ match r with Some e => ae_entered e | None => known end =
     match mb !! rt with Some e => ae_entered e
     | None => match mp !! rt with Some p => ae_entered p | None => known end end.
Proof.
  intros Hp Hb r. subst r. destruct (mb !! rt) as [ch|]; [|done].
  destruct (Hb ch eq_refl) as (Hr & Hd & He). unfold anchor_merge.
  destruct (ae_DIRTY ch).
  - destruct (mp !! rt) as [p|]; [destruct (Hp p eq_refl) as (? & ? & ?); case_bool_decide|];
      (split; [intros e [= <-]|]); simpl; auto; done.
  - split; [done|]. by rewrite Hd.
Qed.

Lemma batch_coins_ok b c :
  cache_core c -> batch_ok b (cache_abs c) (cache_backed c) ->
  exists cc', foldM batch_coins_step (map_to_list (cacheCoins b)) (cacheCoins (maps c)) = Ok cc'
    /\ (forall t e, cc' !! t = Some e ->
          (ce_DIRTY e = false -> norm (Some (ce_coins e)) = a_coins (view_abs (base c)) t)
          /\ (ce_FRESH e = true -> a_coins (view_abs (base c)) t = None)
          /\ (ce_FRESH e = false -> view_backed (base c) t))
    /\ (forall t, match cc' !! t with
                  | Some e => norm (Some (ce_coins e))
                  | None => a_coins (view_abs (base c)) t
                  end = a_coins (overlay b (cache_abs c)) t).
Proof.
  intros [Hv Hc] Hb.
  destruct (foldM_pointwise batch_coins_step (fun _ => coins_merge)
    (fun o t it => o = None -> ce_DIRTY it = true -> CCoins_IsPruned (ce_coins it) = false ->
       ce_FRESH it = true)) with (mb := cacheCoins b) (m := cacheCoins (maps c)) as (cc' & E & Hl).
  { intros. by apply batch_coins_step_ok. }
  { intros t it Hit Hnone _ _. destruct (bo_coins _ _ _ Hb t it Hit) as (_ & _ & HB).
    destruct (ce_FRESH it); [done|]. destruct (HB eq_refl) as [x Hx]. congruence. }
  exists cc'. split; [done|].
  assert (Hkey : forall t, (forall e, cc' !! t = Some e ->
          (ce_DIRTY e = false -> norm (Some (ce_coins e)) = a_coins (view_abs (base c)) t)
          /\ (ce_FRESH e = true -> a_coins (view_abs (base c)) t = None)
          /\ (ce_FRESH e = false -> view_backed (base c) t))
      /\ match cc' !! t with
         | Some e => norm (Some (ce_coins e))
         | None => a_coins (view_abs (base c)) t
         end = a_coins (overlay b (cache_abs c)) t); [|by split; intros t; apply Hkey].
  intros t. rewrite Hl. cbn [overlay a_coins].
  destruct (cacheCoins b !! t) as [it|] eqn:Eb; [|split; [apply (bo_coins _ _ _ Hc t)|done]].
  destruct (bo_coins _ _ _ Hb t it Eb) as (B1 & B2 & B3).
  unfold cache_abs, cache_backed in B1, B2, B3. cbn [overlay a_coins] in B1, B2.
  unfold coins_merge. destruct (ce_DIRTY it) eqn:Ed.
  2:{ split; [apply (bo_coins _ _ _ Hc t)|by rewrite B1]. }
  destruct (cacheCoins (maps c) !! t) as [us|] eqn:Ec.
  - destruct (bo_coins _ _ _ Hc t us Ec) as (C1 & C2 & C3).
    destruct (ce_FRESH us && CCoins_IsPruned (ce_coins it)) eqn:Ef.
    + zbool. split; [done|]. rewrite C2 by done. symmetry. by apply norm_pruned.
    + split; [|done]. intros e [= <-]. done.
  - assert (HF : ce_FRESH it = true) by (destruct (ce_FRESH it); [done|destruct (B3 eq_refl); done]).
    specialize (B2 HF).
    destruct (CCoins_IsPruned (ce_coins it)) eqn:Ep; (split; [intros e [= <-]; done|]).
    + rewrite B2. symmetry. by apply norm_pruned.
    + done.
Qed.

Definition hist_merge (o : option HistoryCache) (hcIn : HistoryCache) : option HistoryCache :=
  match o with
  | Some hc => match merge_history hc hcIn with Ok h => Some h | _ => None end
  | None => Some hcIn
  end.

Lemma batch_history_ok b c :
  cache_core c -> batch_ok b (cache_abs c) (cache_backed c) ->
  exists hm, BatchWriteHistory (historyCacheMap (maps c)) (historyCacheMap b) = Ok hm
    /\ (forall e hc, hm !! e = Some hc -> hist_ok (a_hlen (view_abs (base c)) e) hc)
    /\ (forall e, let o := hm !! e in let a := view_abs (base c) in
          let a' := overlay b (cache_abs c) in
          match o with Some hc => hc_length hc | None => a_hlen a e end = a_hlen a' e
          /\ match o with Some hc => hc_root hc | None => a_hroot a e end = a_hroot a' e
          /\ forall i, 0 <= i < a_hlen a' e ->
               match o with Some hc => hist_at (a_hat a e) hc i | None => a_hat a e i end = a_hat a' e i).
Proof.
  intros [Hv Hc] Hb. unfold BatchWriteHistory.
  assert (Hpre : forall e hcIn hc, historyCacheMap b !! e = Some hcIn ->
      historyCacheMap (maps c) !! e = Some hc ->
      hist_ok (a_hlen (view_abs (base c)) e) hc /\ hist_ok (hc_length hc) hcIn).
  { intros e hcIn hc Ein Ec. split; [by apply (bo_hist _ _ _ Hc)|].
    pose proof (bo_hist _ _ _ Hb e hcIn Ein) as Hok. unfold cache_abs in Hok. simpl in Hok.
    by rewrite Ec in Hok. }
  destruct (foldM_pointwise batch_history_step (fun _ => hist_merge)
    (fun o e hcIn => forall hc, o = Some hc ->
       hist_ok (a_hlen (view_abs (base c)) e) hc /\ hist_ok (hc_length hc) hcIn))
    with (mb := historyCacheMap b) (m := historyCacheMap (maps c)) as (hm & E & Hl).
  { intros mm e hcIn Hp. unfold batch_history_step, hist_merge.
    destruct (mm !! e) as [hc|] eqn:Ee.
    - destruct (Hp hc eq_refl) as [H1 H2].
      destruct (merge_history_spec _ _ _ H1 H2) as (hc' & -> & _). mstep.
      eexists. split; [done|]. split; [apply lookup_insert_eq|]. intros. by rewrite lookup_insert_ne.
    - eexists. split; [done|]. split; [apply lookup_insert_eq|]. intros. by rewrite lookup_insert_ne. }
  { intros e hcIn Ein hc Ec. by apply Hpre. }
  exists hm. split; [done|].
  assert (Hkey : forall e, (forall hc, hm !! e = Some hc -> hist_ok (a_hlen (view_abs (base c)) e) hc)
      /\ let o := hm !! e in let a := view_abs (base c) in
         let a' := overlay b (cache_abs c) in
         match o with Some hc => hc_length hc | None => a_hlen a e end = a_hlen a' e
         /\ match o with Some hc => hc_root hc | None => a_hroot a e end = a_hroot a' e
         /\ forall i, 0 <= i < a_hlen a' e ->
              match o with Some hc => hist_at (a_hat a e) hc i | None => a_hat a e i end = a_hat a' e i).
  2:{ split; intros e; apply Hkey. }
  intros e. rewrite Hl. unfold cache_abs. cbn [overlay a_hlen a_hroot a_hat].
  destruct (historyCacheMap b !! e) as [hcIn|] eqn:Eb; [|split; [apply (bo_hist _ _ _ Hc)|done]].
  unfold hist_merge. destruct (historyCacheMap (maps c) !! e) as [hc|] eqn:Ec.
  - destruct (Hpre e hcIn hc Eb Ec) as [H1 H2].
    destruct (merge_history_spec _ _ _ H1 H2) as (hc' & -> & Hok & Hlen & Hroot & Hat).
    split; [by intros h [= <-]|]. split_and!; [done|done|]. intros i Hi. by apply Hat.
  - split; [|done]. intros h [= <-].
    pose proof (bo_hist _ _ _ Hb e hcIn Eb) as Hok. unfold cache_abs in Hok. simpl in Hok.
    by rewrite Ec in Hok.
Qed.

Lemma uint256_IsNull_false h : h <> uint256_null -> uint256_IsNull h = false.
Proof. intros Hh. by apply bool_decide_eq_false_2. Qed.

Lemma null_merge_ok (mb mp : gmap uint256 CNullifiersCacheEntry) (known : bool) nf :
  (forall e, mp !! nf = Some e -> ne_DIRTY e = false -> ne_entered e = known) ->
  (forall e, mb !! nf = Some e -> ne_DIRTY e = false ->
     ne_entered e = match mp !! nf with Some p => ne_entered p | None => known end) ->
  (forall e, BatchWriteNullifiers mb mp !! nf = Some e -> ne_DIRTY e = false -> ne_entered e = known)
  /\ match BatchWriteNullifiers mb mp !! nf with Some e => ne_entered e | None => known end =
     match mb !! nf with Some e => ne_entered e
     | None => match mp !! nf with Some p => ne_entered p | None => known end end.
Proof.
  intros Hp Hb. rewrite BatchWriteNullifiers_lookup.
  destruct (mb !! nf) as [ch|]; [|done]. specialize (Hb ch eq_refl). unfold null_merge.
  destruct (ne_DIRTY ch).
  - destruct (mp !! nf) as [p|]; [case_bool_decide|]; (split; [intros e [= <-]|]); simpl; auto; done.
  - split; [done|]. by rewrite Hb.
Qed.

(** Writing consistent maps into a cache succeeds (no assertion fires), keeps
    its invariant, and overlays them on its abstract state. *)
Lemma BatchWrite_ok b c :
  cache_inv c -> batch_ok b (cache_abs c) (cache_backed c) -> best_known b ->
  exists c', Cache_BatchWrite b c = Ok (true, c') /\ cache_inv c'
    /\ cache_abs c' ≡ overlay b (cache_abs c).
Proof.
  intros [[Hv Hc] Hm] Hb (Hh1 & Hh2 & Hh3). unfold Cache_BatchWrite. rewrite Hm. simpl negb. mstep.
  destruct (batch_coins_ok b c (conj Hv Hc) Hb) as (cc' & -> & Hc1 & Hc2). mstep.
  destruct (batch_history_ok b c (conj Hv Hc) Hb) as (hm & -> & Hi1 & Hi2). mstep.
  eexists. split; [done|].
  pose proof (fun rt => anchor_merge_ok (cacheSproutAnchors b) (cacheSproutAnchors (maps c)) _ rt
    (fun e => bo_sprout _ _ _ Hc rt e) (fun e => bo_sprout _ _ _ Hb rt e)) as HS.
  pose proof (fun rt => anchor_merge_ok (cacheSaplingAnchors b) (cacheSaplingAnchors (maps c)) _ rt
    (fun e => bo_sapling _ _ _ Hc rt e) (fun e => bo_sapling _ _ _ Hb rt e)) as HZ.
  pose proof (fun ty nf => null_merge_ok (get_nullifiers ty b) (get_nullifiers ty (maps c)) _ nf
    (fun e => bo_null _ _ _ Hc ty nf e) (fun e => bo_null _ _ _ Hb ty nf e)) as HN.
  split; [split; [split; [done|]|done]|]; simpl.
  - split; simpl; [done|..|done].
    + intros []; [apply (HN SPROUT)|apply (HN SAPLING)].
    + intros rt e. rewrite BatchWriteAnchors_lookup. apply HS.
    + intros rt e. rewrite BatchWriteAnchors_lookup. apply HZ.
  - split; simpl; try done.
    + intros []; [apply (HN SPROUT)|apply (HN SAPLING)].
    + intros [] rt; rewrite BatchWriteAnchors_lookup; [apply HS|apply HZ].
    + by rewrite (uint256_IsNull_false _ Hh1).
    + intros []; simpl; by rewrite uint256_IsNull_false.
    + intros e. apply Hi2.
    + intros e. apply Hi2.
    + intros e i Hi. apply Hi2. destruct (Hi2 e) as [Hlen _]. simpl in Hlen. simpl. by rewrite <- Hlen.
Qed.

#[global] Instance CCoinsViewCache_reads : CCoinsViewReads SpT SaT cache.
Proof.
  refine {| view_inv := cache_inv; view_abs := cache_abs; view_backed := cache_backed |}.
  - intros c e [[Hv Hc] _]. eapply overlay_hlen; [done|]. by apply view_hlen.
  - intros t c Hi. destruct (FetchCoins_ok t c (proj1 Hi)) as (Hr & Ho & HB).
    split; [by apply read_ok_stable|done].
  - intros t c Hi. destruct (FetchCoins_ok t c (proj1 Hi)) as (Hr & Ho & HB). cbn [HaveCoins CCoinsViewCache_view].
    unfold Cache_HaveCoins. destruct (FetchCoins t c) as [o c']. simpl in *.
    split; [by apply read_ok_stable|]. rewrite <- Ho. intros Hn.
    destruct o as [coins|]; [|done]. rewrite bool_decide_false; [done|].
    intros Hv. apply Hn. apply norm_pruned. unfold CCoins_IsPruned. by rewrite Hv.
  - intros nf ty c Hi. destruct (GetNullifier_ok nf ty c (proj1 Hi)) as (Hr & Ho).
    split; [by apply read_ok_stable|done].
  - intros rt c Hi. destruct (GetSproutAnchorAt_ok rt c (proj1 Hi)) as (Hr & Ho).
    split; [by apply read_ok_stable|done].
  - intros rt c Hi. destruct (GetSaplingAnchorAt_ok rt c (proj1 Hi)) as (Hr & Ho).
    split; [by apply read_ok_stable|done].
  - intros c Hi. destruct (GetBestBlock_ok c (proj1 Hi)) as (Hr & Ho).
    split; [by apply read_ok_stable|done].
  - intros ty c Hi. destruct (GetBestAnchor_ok ty c (proj1 Hi)) as (Hr & Ho).
    split; [by apply read_ok_stable|done].
  - intros e c Hi. destruct (GetHistoryLength_ok e c (proj1 Hi)) as (Hr & Ho).
    split; [by apply read_ok_stable|done].
  - intros e c Hi. destruct (GetHistoryRoot_ok e c (proj1 Hi)) as (Hr & Ho).
    split; [by apply read_ok_stable|done].
  - intros e i c Hi Hb. destruct (GetHistoryAt_ok e i c (proj1 Hi) Hb) as (n & c' & E & Hn & Hr).
    exists n, c'. split; [done|]. split; [done|]. by apply read_ok_stable.
Defined.

(** A cache can be written to even when the view below cannot. *)
#[global] Instance CCoinsViewCache_laws : CCoinsViewLaws SpT SaT cache.
Proof. refine {| laws_reads := CCoinsViewCache_reads |}. intros b c Hi Hb Hk. by apply BatchWrite_ok. Defined.

(** ** Modifiers *)

Definition abs_set_coins (t : uint256) (o : option CCoins) (a : AbsView) : AbsView :=
  mkAbs (fun t' => if decide (t = t') then o else a_coins a t') (a_null a) (a_anchor a) (a_best a)
    (a_bestAnchor a) (a_hlen a) (a_hroot a) (a_hat a).

#[global] Instance abs_set_coins_proper t o : Proper ((≡) ==> (≡)) (abs_set_coins t o).
Proof.
  intros a b [Hc Hn Ha Hb HB Hl Hr Hh]. split; simpl; try done. intros t'. by rewrite Hc.
Qed.

(** Closing the modifier's scope with coins [new] in the entry. *)
Lemma destroy_ok c t e new :
  view_inv (base c) ->
  (forall t' e', t' <> t -> cacheCoins (maps c) !! t' = Some e' ->
     (ce_DIRTY e' = false -> norm (Some (ce_coins e')) = a_coins (view_abs (base c)) t')
     /\ (ce_FRESH e' = true -> a_coins (view_abs (base c)) t' = None)
     /\ (ce_FRESH e' = false -> view_backed (base c) t')) ->
  batch_ok (set_coins ∅ (maps c)) (view_abs (base c)) (view_backed (base c)) ->
  cacheCoins (maps c) !! t = Some e -> ce_DIRTY e = true -> hasModifier c = true ->
  (ce_FRESH e = true -> a_coins (view_abs (base c)) t = None) ->
  (ce_FRESH e = false -> view_backed (base c) t) ->
  exists c', CCoinsModifier_destroy t
      (upd (fun m => set_coins (<[t := mkCoinsEntry new (ce_DIRTY e) (ce_FRESH e)]> (cacheCoins m)) m) c)
      = Ok c' /\ cache_inv c'
    /\ cache_abs c' ≡ abs_set_coins t (norm (Some (CCoins_Cleanup new))) (cache_abs c).
Proof.
  intros Hv Hoth [_ Hn Hs Hz Hh] He Hd Hm Hf Hnf. unfold CCoinsModifier_destroy.
  cbn [hasModifier upd set_coins maps cacheCoins]. rewrite Hm. mstep.
  rewrite lookup_insert_eq. cbn [ce_coins ce_FRESH ce_DIRTY]. rewrite IsPruned_Cleanup.
  eexists. split; [done|]. split; [split; [split; [done|]|done]|].
  - split; simpl; [|null_same Hn|done..]. intros t' e'.
    destruct (ce_FRESH e && CCoins_IsPruned new) eqn:Ep.
    + destruct (decide (t = t')) as [<-|Hne]; [by rewrite lookup_delete_eq|].
      rewrite lookup_delete_ne, lookup_insert_ne by done. intros; by eapply Hoth.
    + destruct (decide (t = t')) as [<-|Hne].
      * rewrite lookup_insert_eq. intros [= <-]. simpl. by rewrite Hd.
      * rewrite !lookup_insert_ne by done. intros; by eapply Hoth.
  - split; try done.
    intros t'. unfold cache_abs. cbn [abs_set_coins a_coins overlay set_hasModifier upd maps set_coins cacheCoins base].
    destruct (ce_FRESH e && CCoins_IsPruned new) eqn:Ep.
    + zbool. case_decide as Et; [subst t'|].
      * rewrite lookup_delete_eq, Hf by done. symmetry. apply norm_pruned. by rewrite IsPruned_Cleanup.
      * by rewrite lookup_delete_ne, lookup_insert_ne by done.
    + case_decide as Et; [subst t'|].
      * by rewrite lookup_insert_eq.
      * by rewrite !lookup_insert_ne by done.
Qed.

(** What [ModifyCoins] leaves behind: a dirty entry for [t] whose coins are
    those of the view (a fully spent value if it has none). *)
Lemma ModifyCoins_acquire t c :
  cache_inv c ->
  exists c1 e, ModifyCoins t c = Ok c1 /\ cacheCoins (maps c1) !! t = Some e
    /\ norm (Some (ce_coins e)) = a_coins (cache_abs c) t /\ ce_DIRTY e = true
    /\ (ce_FRESH e = true -> a_coins (view_abs (base c1)) t = None)
    /\ (ce_FRESH e = false -> view_backed (base c1) t)
    /\ hasModifier c1 = true /\ view_inv (base c1)
    /\ batch_ok (maps c) (view_abs (base c1)) (view_backed (base c1))
    /\ view_abs (base c1) ≡ view_abs (base c)
    /\ maps c1 = set_coins (<[t := e]> (cacheCoins (maps c))) (maps c).
Proof.
  intros [[Hv Hb] Hm]. unfold ModifyCoins. rewrite Hm. simpl negb. mstep. unfold cache_abs. simpl.
  destruct (cacheCoins (maps c) !! t) as [e|] eqn:Et.
  - destruct (bo_coins _ _ _ Hb t e Et) as (H1 & H2 & H3).
    eexists _, _. split; [done|]. simpl. rewrite lookup_insert_eq. split; [done|]. split_and!; done.
  - destruct (GetCoins_law t (base c) Hv) as (Hst & Ho & HB).
    destruct (GetCoins t (base c)) as [o v'] eqn:Eg. simpl in *.
    destruct Hst as (Hv' & Ha & HB').
    assert (Hb' := batch_ok_mono _ _ _ _ _ Ha HB' Hb).
    destruct o as [coins|]; (eexists _, _; split; [done|]); simpl; rewrite lookup_insert_eq;
      (split; [done|]); split_and!; try done; try exact Hb'.
    + intros Hp. rewrite (eqv_coins _ _ Ha), <- Ho. by apply norm_pruned.
    + simpl. intros Hp. apply HB. unfold norm. by rewrite Hp.
    + intros _. by rewrite (eqv_coins _ _ Ha), <- Ho.
Qed.

(** A scope that modifies the coins of [t] through [ModifyCoins] hands
    the code the coins the view shows for [t], and when the code returns
    with coins [new], the view changes at [t] only, to [new] cleaned up; the
    cache stays consistent. *)
Lemma ModifyCoins_refines {A} (t : uint256) (body : CCoins -> result (A * CCoins)) (c : cache)
  (Hi : cache_inv c) :
  exists old, norm (Some old) = a_coins (cache_abs c) t
    /\ match body old with
       | Ok (x, new) =>
           exists c', modify ModifyCoins t body c = Ok (x, c') /\ cache_inv c'
             /\ cache_abs c' ≡ abs_set_coins t (norm (Some (CCoins_Cleanup new))) (cache_abs c)
       | Throw msg => modify ModifyCoins t body c = Throw msg
       | Abort => modify ModifyCoins t body c = Abort
       end.
Proof.
  destruct (ModifyCoins_acquire t c Hi)
    as (c1 & e & E & He & Hold & Hd & Hf & Hnf & Hm & Hv & Hb & Ha & Hmaps).
  exists (ce_coins e). split; [done|]. unfold modify. rewrite E. mstep. rewrite He.
  destruct (body (ce_coins e)) as [[x new]|msg|] eqn:Eb; mstep; [|done..].
  destruct (destroy_ok c1 t e new) as (c' & Ec & Hi' & Habs); try done.
  - intros t' e' Hne. rewrite Hmaps. simpl. rewrite lookup_insert_ne by done. apply Hb.
  - rewrite Hmaps. destruct Hb as [Hc Hn Hs Hz Hh]. split; simpl; [by intros t' e'|null_same Hn|done..].
  - exists c'. cbn [fst snd]. rewrite Ec. mstep. split; [done|]. split; [done|].
    etrans; [exact Habs|]. destruct Hi as [[_ Hbc] _].
    pose proof (overlay_mono _ _ _ _ Ha Hbc) as [Oc On Oa Ob OB Ol Or Oh].
    unfold cache_abs in *. rewrite Hmaps. split; simpl; try done.
    + intros t'. case_decide; [done|]. rewrite lookup_insert_ne by done. apply Oc.
Qed.

(** [ModifyNewCoins] skips the read of the base: when the base has no
    unspent output for [t] (no duplicate transactions), it behaves as
    [ModifyCoins], handing out empty coins. *)
Theorem ModifyNewCoins_refines {A} (t : uint256) (body : CCoins -> result (A * CCoins)) (c : cache)
  (Hi : cache_inv c) (Hnew : a_coins (view_abs (base c)) t = None) :
  match body CCoins_new with
  | Ok (x, new) =>
      exists c', modify ModifyNewCoins t body c = Ok (x, c') /\ cache_inv c'
        /\ cache_abs c' ≡ abs_set_coins t (norm (Some (CCoins_Cleanup new))) (cache_abs c)
  | Throw msg => modify ModifyNewCoins t body c = Throw msg
  | Abort => modify ModifyNewCoins t body c = Abort
  end.
Proof.
  destruct Hi as [[Hv Hb] Hm]. unfold modify, ModifyNewCoins. rewrite Hm. simpl negb. mstep.
  cbn [maps upd set_hasModifier set_coins cacheCoins]. rewrite lookup_insert_eq. cbn [ce_coins].
  destruct (body CCoins_new) as [[x new]|msg|] eqn:Eb; mstep; [|done..].
  destruct (destroy_ok (set_hasModifier true (upd (fun m => set_coins
     (<[t:=mkCoinsEntry CCoins_new true true]> (cacheCoins m)) m) c)) t
     (mkCoinsEntry CCoins_new true true) new) as (c' & Ec & Hi' & Habs); try done.
  - intros t' e' Hne. simpl. rewrite lookup_insert_ne by done. apply Hb.
  - destruct Hb as [Hc Hn Hs Hz Hh]. split; simpl; [by intros t' e'|null_same Hn|done..].
  - simpl. by rewrite lookup_insert_eq.
  - exists c'. cbn [fst snd ce_DIRTY ce_FRESH] in *. rewrite Ec. mstep. split; [done|]. split; [done|].
    etrans; [exact Habs|]. unfold cache_abs. split; simpl; try done.
    + intros t'. case_decide; [done|]. by rewrite lookup_insert_ne.
Qed.

(** ** Nullifiers *)

Definition abs_set_null (ty : ShieldedType) (nfs : list uint256) (spent : bool) (a : AbsView) : AbsView :=
  mkAbs (a_coins a)
    (fun ty' nf => if decide (ty' = ty /\ nf ∈ nfs) then spent else a_null a ty' nf)
    (a_anchor a) (a_best a) (a_bestAnchor a) (a_hlen a) (a_hroot a) (a_hat a).

Lemma set_nullifier_ok spent ty c nf :
  cache_inv c ->
  cache_inv (set_nullifier spent ty c nf)
  /\ cache_abs (set_nullifier spent ty c nf) ≡ abs_set_null ty [nf] spent (cache_abs c)
  /\ base (set_nullifier spent ty c nf) = base c.
Proof.
  intros [[Hv [Hc Hn Hs Hz Hh]] Hm]. split; [split; [split; [done|]|done]|split; [|done]].
  - split; try done. intros ty' nf' e.
    destruct ty, ty'; simpl; try (apply (Hn SPROUT)); try (apply (Hn SAPLING));
      (destruct (decide (nf = nf')) as [<-|Hne];
       [rewrite lookup_insert_eq; by intros [= <-]|rewrite lookup_insert_ne by done]);
      [apply (Hn SPROUT)|apply (Hn SAPLING)].
  - split; try done. intros ty' nf'. unfold cache_abs. simpl.
    destruct (decide (nf = nf')) as [<-|Hne].
    + assert (nf ∈ [nf]) by by apply list_elem_of_singleton.
      destruct (decide (ty' = ty)) as [->|Hty].
      * rewrite decide_True by done. destruct ty; simpl; by rewrite lookup_insert_eq.
      * rewrite decide_False by tauto. by destruct ty, ty'.
    + assert (nf' ∉ [nf]) by (by intros ?%list_elem_of_singleton).
      rewrite decide_False by tauto. destruct ty, ty'; simpl; by rewrite ?lookup_insert_ne by done.
Qed.

Lemma abs_set_null_app ty l1 l2 spent a :
  abs_set_null ty l2 spent (abs_set_null ty l1 spent a) ≡ abs_set_null ty (l1 ++ l2) spent a.
Proof.
  split; try done. intros ty' nf. simpl. repeat case_decide; set_solver.
Qed.

#[global] Instance abs_set_null_proper ty l spent : Proper ((≡) ==> (≡)) (abs_set_null ty l spent).
Proof.
  intros a b [Hc Hn Ha Hb HB Hl Hr Hh]. split; simpl; try done. intros ty' nf. by rewrite Hn.
Qed.

Lemma set_nullifiers_fold_ok spent ty nfs : forall c,
  cache_inv c ->
  cache_inv (foldl (set_nullifier spent ty) c nfs)
  /\ cache_abs (foldl (set_nullifier spent ty) c nfs) ≡ abs_set_null ty nfs spent (cache_abs c)
  /\ base (foldl (set_nullifier spent ty) c nfs) = base c.
Proof.
  induction nfs as [|nf nfs IH]; intros c Hi; simpl.
  - split; [done|]. split; [|done]. split; try done. intros ty' nf. simpl. rewrite decide_False; [done|].
    intros [_ Hin]. by apply elem_of_nil in Hin.
  - destruct (set_nullifier_ok spent ty c nf Hi) as (Hi1 & Ha1 & Hb1).
    destruct (IH _ Hi1) as (Hi2 & Ha2 & Hb2). split; [done|]. split; [|congruence].
    etrans; [exact Ha2|]. rewrite Ha1. apply (abs_set_null_app ty [nf] nfs).
Qed.

Definition sprout_nullifiers (tx : CMutableTransaction) : list uint256 := vjoinsplit tx ≫= js_nullifiers.
Definition sapling_nullifiers (tx : CMutableTransaction) : list uint256 := sd_nullifier <$> vShieldedSpend tx.

(** [SetNullifiers] marks exactly the Sprout and Sapling nullifiers of the
    transaction as spent (or unspent), each in its own pool, and changes
    nothing else of the view. *)
Lemma SetNullifiers_refines (tx : CMutableTransaction) (spent : bool) (c : cache) (Hi : cache_inv c) :
  cache_inv (Cache_SetNullifiers tx spent c)
  /\ cache_abs (Cache_SetNullifiers tx spent c)
     ≡ abs_set_null SAPLING (sapling_nullifiers tx) spent
         (abs_set_null SPROUT (sprout_nullifiers tx) spent (cache_abs c)).
Proof.
  unfold Cache_SetNullifiers.
  destruct (set_nullifiers_fold_ok spent SPROUT (vjoinsplit tx ≫= js_nullifiers) c Hi) as (Hi1 & Ha1 & _).
  destruct (set_nullifiers_fold_ok spent SAPLING (sd_nullifier <$> vShieldedSpend tx) _ Hi1)
    as (Hi2 & Ha2 & _).
  split; [done|]. etrans; [exact Ha2|]. by rewrite Ha1.
Qed.

(** ** Best block and anchors *)

Definition abs_set_best (h : uint256) (a : AbsView) : AbsView :=
  mkAbs (a_coins a) (a_null a) (a_anchor a) h (a_bestAnchor a) (a_hlen a) (a_hroot a) (a_hat a).

#[global] Instance abs_set_best_proper h : Proper ((≡) ==> (≡)) (abs_set_best h).
Proof. intros a b [Hc Hn Ha Hb HB Hl Hr Hh]. by split. Qed.

Lemma SetBestBlock_ok h c :
  cache_inv c -> h <> uint256_null ->
  cache_inv (Cache_SetBestBlock h c) /\ cache_abs (Cache_SetBestBlock h c) ≡ abs_set_best h (cache_abs c).
Proof.
  intros [[Hv [Hc Hn Hs Hz Hh]] Hm] Hh0. split; [split; [split; [done|]|done]|].
  - split; [exact Hc|null_same Hn|exact Hs|exact Hz|exact Hh].
  - split; try done. unfold cache_abs. simpl. by rewrite uint256_IsNull_false.
Qed.

(** One root becomes known or unknown, and a root becomes the best anchor. *)
Definition abs_set_anchor (ty : ShieldedType) (rt : uint256) (known : bool) (best : uint256) (a : AbsView) : AbsView :=
  mkAbs (a_coins a) (a_null a)
    (fun ty' rt' => if decide (ty' = ty /\ rt' = rt) then known else a_anchor a ty' rt')
    (a_best a) (fun ty' => if decide (ty' = ty) then best else a_bestAnchor a ty')
    (a_hlen a) (a_hroot a) (a_hat a).

#[global] Instance abs_set_anchor_proper ty rt known best :
  Proper ((≡) ==> (≡)) (abs_set_anchor ty rt known best).
Proof.
  intros a b [Hc Hn Ha Hb HB Hl Hr Hh]. split; simpl; try done.
  - intros ty' rt'. by rewrite Ha.
  - intros ty'. by rewrite HB.
Qed.

Ltac anchor_cbn :=
  cbn [a_anchor abs_set_anchor overlay cacheSproutAnchors cacheSaplingAnchors set_hashAnchor
       set_sproutAnchors set_saplingAnchors upd maps base].

(** Writing one dirty Sprout (Sapling) anchor entry and the best anchor. *)
Lemma write_sprout_ok c rt tree entered best :
  cache_inv c -> tree_root tree = rt -> best <> uint256_null ->
  (rt = tree_empty_root (T := SpT) -> entered = true) ->
  let c' := upd (fun m => set_hashAnchor SPROUT best
              (set_sproutAnchors (<[rt := mkAnchorEntry entered tree true]> (cacheSproutAnchors m)) m)) c in
  cache_inv c' /\ cache_abs c' ≡ abs_set_anchor SPROUT rt entered best (cache_abs c).
Proof.
  intros [[Hv [Hc Hn Hs Hz Hh]] Hm] Hr Hb Hem c'. subst c'. split; [split; [split; [done|]|done]|].
  - split; [exact Hc|null_same Hn| |exact Hz|exact Hh]. intros rt' e. simpl.
    destruct (decide (rt = rt')) as [<-|Hne].
    + rewrite lookup_insert_eq. by intros [= <-].
    + rewrite lookup_insert_ne by done. apply Hs.
  - split; try done; unfold cache_abs; anchor_cbn.
    + intros [] rt'; [|by rewrite decide_False by naive_solver].
      destruct (decide (rt = rt')) as [<-|Hne].
      * rewrite lookup_insert_eq. by rewrite decide_True.
      * rewrite lookup_insert_ne by done. by rewrite decide_False by naive_solver.
    + intros []; simpl; [|done]. by rewrite uint256_IsNull_false.
Qed.

Lemma write_sapling_ok c rt tree entered best :
  cache_inv c -> tree_root tree = rt -> best <> uint256_null ->
  (rt = tree_empty_root (T := SaT) -> entered = true) ->
  let c' := upd (fun m => set_hashAnchor SAPLING best
              (set_saplingAnchors (<[rt := mkAnchorEntry entered tree true]> (cacheSaplingAnchors m)) m)) c in
  cache_inv c' /\ cache_abs c' ≡ abs_set_anchor SAPLING rt entered best (cache_abs c).
Proof.
  intros [[Hv [Hc Hn Hs Hz Hh]] Hm] Hr Hb Hem c'. subst c'. split; [split; [split; [done|]|done]|].
  - split; [exact Hc|null_same Hn|exact Hs| |exact Hh]. intros rt' e. simpl.
    destruct (decide (rt = rt')) as [<-|Hne].
    + rewrite lookup_insert_eq. by intros [= <-].
    + rewrite lookup_insert_ne by done. apply Hz.
  - split; try done; unfold cache_abs; anchor_cbn.
    + intros [] rt'; [by rewrite decide_False by naive_solver|].
      destruct (decide (rt = rt')) as [<-|Hne].
      * rewrite lookup_insert_eq. by rewrite decide_True.
      * rewrite lookup_insert_ne by done. by rewrite decide_False by naive_solver.
    + intros []; simpl; [done|]. by rewrite uint256_IsNull_false.
Qed.

Definition push_anchor_abs (ty : ShieldedType) (rt : uint256) (a : AbsView) : AbsView :=
  if decide (a_bestAnchor a ty = rt) then a else abs_set_anchor ty rt true rt a.
Definition pop_anchor_abs (ty : ShieldedType) (newrt : uint256) (a : AbsView) : AbsView :=
  if decide (a_bestAnchor a ty = newrt) then a
  else abs_set_anchor ty (a_bestAnchor a ty) false newrt a.

(** Pushing a tree makes its root known and the best anchor (and
    does nothing when it already is the best anchor). *)
Lemma PushAnchor_Sprout_refines (tree : SpT) (c : cache) (Hi : cache_inv c)
  (Hnn : tree_root tree <> uint256_null) :
  cache_inv (PushAnchor_Sprout tree c)
  /\ cache_abs (PushAnchor_Sprout tree c) ≡ push_anchor_abs SPROUT (tree_root tree) (cache_abs c).
Proof.
  unfold PushAnchor_Sprout, AbstractPushAnchor, push_anchor_abs.
  destruct (GetBestAnchor_ok SPROUT c (proj1 Hi)) as [Hr Hbest].
  destruct (Cache_GetBestAnchor SPROUT c) as [cur c1]. cbn [fst snd] in Hr, Hbest. subst cur.
  destruct (read_ok_stable c c1 Hi Hr) as (Hi1 & Ha1 & _).
  case_decide; [done|].
  destruct (write_sprout_ok c1 (tree_root tree) tree true (tree_root tree) Hi1 eq_refl Hnn ltac:(done)) as [Hi2 Ha2].
  split; [done|]. etrans; [exact Ha2|]. by rewrite Ha1.
Qed.

Lemma PushAnchor_Sapling_refines (tree : SaT) (c : cache) (Hi : cache_inv c)
  (Hnn : tree_root tree <> uint256_null) :
  cache_inv (PushAnchor_Sapling tree c)
  /\ cache_abs (PushAnchor_Sapling tree c) ≡ push_anchor_abs SAPLING (tree_root tree) (cache_abs c).
Proof.
  unfold PushAnchor_Sapling, AbstractPushAnchor, push_anchor_abs.
  destruct (GetBestAnchor_ok SAPLING c (proj1 Hi)) as [Hr Hbest].
  destruct (Cache_GetBestAnchor SAPLING c) as [cur c1]. cbn [fst snd] in Hr, Hbest. subst cur.
  destruct (read_ok_stable c c1 Hi Hr) as (Hi1 & Ha1 & _).
  case_decide; [done|].
  destruct (write_sapling_ok c1 (tree_root tree) tree true (tree_root tree) Hi1 eq_refl Hnn ltac:(done)) as [Hi2 Ha2].
  split; [done|]. etrans; [exact Ha2|]. by rewrite Ha1.
Qed.

Lemma PopAnchor_Sprout_ok newrt c :
  cache_inv c -> newrt <> uint256_null ->
  a_anchor (cache_abs c) SPROUT (a_bestAnchor (cache_abs c) SPROUT) = true ->
  (newrt <> a_bestAnchor (cache_abs c) SPROUT ->
   a_bestAnchor (cache_abs c) SPROUT <> tree_empty_root (T := SpT)) ->
  exists c', Cache_PopAnchor newrt SPROUT c = Ok c' /\ cache_inv c'
    /\ cache_abs c' ≡ pop_anchor_abs SPROUT newrt (cache_abs c).
Proof.
  intros Hi Hnn Hknown Hne. unfold Cache_PopAnchor, AbstractPopAnchor, pop_anchor_abs.
  destruct (GetBestAnchor_ok SPROUT c (proj1 Hi)) as [Hr Hbest].
  destruct (Cache_GetBestAnchor SPROUT c) as [cur c1]. cbn [fst snd] in Hr, Hbest. subst cur.
  destruct (read_ok_stable c c1 Hi Hr) as (Hi1 & Ha1 & _).
  case_decide; [by exists c1|].
  set (cur := a_bestAnchor (cache_abs c) SPROUT) in *.
  destruct (GetSproutAnchorAt_ok cur c1 (proj1 Hi1)) as [Hr2 Ho]. unfold Cache_GetSproutAnchorAt in *.
  assert (Hin : forall o c2, anchor_at GetSproutAnchorAt cacheSproutAnchors set_sproutAnchors cur c1 = (Some o, c2) ->
    exists e, cacheSproutAnchors (maps c2) !! cur = Some e).
  { unfold anchor_at. destruct (cacheSproutAnchors (maps c1) !! cur) as [e|] eqn:Ee.
    - intros o c2 [= _ <-]. eauto.
    - destruct (GetSproutAnchorAt cur (base c1)) as [[tree|] v']; intros o c2 [= _ <-].
      simpl. rewrite lookup_insert_eq. eauto. }
  destruct (anchor_at _ _ _ cur c1) as [found c2]. cbn [fst snd] in Hr2, Ho.
  rewrite (eqv_anchor _ _ Ha1), Hknown in Ho.
  destruct found as [tree|]; [|done].
  destruct (Hin tree c2 eq_refl) as [e He]. rewrite bool_decide_true by eauto. mstep. rewrite He. simpl default.
  destruct (read_ok_stable c1 c2 Hi1 Hr2) as (Hi2 & Ha2 & _).
  destruct (bo_sprout _ _ _ (proj2 (proj1 Hi2)) cur e He) as (Hroot & _ & _).
  destruct (write_sprout_ok c2 cur (ae_tree e) false newrt Hi2 Hroot Hnn) as [Hi3 Ha3];
    [intros Hx; exfalso; apply Hne; [congruence|exact Hx]|].
  eexists. split; [done|]. split; [done|]. etrans; [exact Ha3|]. by rewrite Ha2, Ha1.
Qed.

Lemma PopAnchor_Sapling_ok newrt c :
  cache_inv c -> newrt <> uint256_null ->
  a_anchor (cache_abs c) SAPLING (a_bestAnchor (cache_abs c) SAPLING) = true ->
  (newrt <> a_bestAnchor (cache_abs c) SAPLING ->
   a_bestAnchor (cache_abs c) SAPLING <> tree_empty_root (T := SaT)) ->
  exists c', Cache_PopAnchor newrt SAPLING c = Ok c' /\ cache_inv c'
    /\ cache_abs c' ≡ pop_anchor_abs SAPLING newrt (cache_abs c).
Proof.
  intros Hi Hnn Hknown Hne. unfold Cache_PopAnchor, AbstractPopAnchor, pop_anchor_abs.
  destruct (GetBestAnchor_ok SAPLING c (proj1 Hi)) as [Hr Hbest].
  destruct (Cache_GetBestAnchor SAPLING c) as [cur c1]. cbn [fst snd] in Hr, Hbest. subst cur.
  destruct (read_ok_stable c c1 Hi Hr) as (Hi1 & Ha1 & _).
  case_decide; [by exists c1|].
  set (cur := a_bestAnchor (cache_abs c) SAPLING) in *.
  destruct (GetSaplingAnchorAt_ok cur c1 (proj1 Hi1)) as [Hr2 Ho]. unfold Cache_GetSaplingAnchorAt in *.
  assert (Hin : forall o c2, anchor_at GetSaplingAnchorAt cacheSaplingAnchors set_saplingAnchors cur c1 = (Some o, c2) ->
    exists e, cacheSaplingAnchors (maps c2) !! cur = Some e).
  { unfold anchor_at. destruct (cacheSaplingAnchors (maps c1) !! cur) as [e|] eqn:Ee.
    - intros o c2 [= _ <-]. eauto.
    - destruct (GetSaplingAnchorAt cur (base c1)) as [[tree|] v']; intros o c2 [= _ <-].
      simpl. rewrite lookup_insert_eq. eauto. }
  destruct (anchor_at _ _ _ cur c1) as [found c2]. cbn [fst snd] in Hr2, Ho.
  rewrite (eqv_anchor _ _ Ha1), Hknown in Ho.
  destruct found as [tree|]; [|done].
  destruct (Hin tree c2 eq_refl) as [e He]. rewrite bool_decide_true by eauto. mstep. rewrite He. simpl default.
  destruct (read_ok_stable c1 c2 Hi1 Hr2) as (Hi2 & Ha2 & _).
  destruct (bo_sapling _ _ _ (proj2 (proj1 Hi2)) cur e He) as (Hroot & _ & _).
  destruct (write_sapling_ok c2 cur (ae_tree e) false newrt Hi2 Hroot Hnn) as [Hi3 Ha3];
    [intros Hx; exfalso; apply Hne; [congruence|exact Hx]|].
  eexists. split; [done|]. split; [done|]. etrans; [exact Ha3|]. by rewrite Ha2, Ha1.
Qed.

(** [SproutMerkleTree::empty_root()] or [SaplingMerkleTree::empty_root()]. *)
Definition empty_root_of (ty : ShieldedType) : uint256 :=
  match ty with SPROUT => tree_empty_root (T := SpT) | SAPLING => tree_empty_root (T := SaT) end.

(** Popping to a previous root: when the current best anchor is known
    (as after a push) and is not the empty tree's root, the assertion in
    [BringBestAnchorIntoCache] holds, the current root becomes unknown and the previous root the best anchor. *)
Lemma PopAnchor_refines (newrt : uint256) (ty : ShieldedType) (c : cache) (Hi : cache_inv c)
  (Hnn : newrt <> uint256_null)
  (Hknown : a_anchor (cache_abs c) ty (a_bestAnchor (cache_abs c) ty) = true)
  (Hne : newrt <> a_bestAnchor (cache_abs c) ty -> a_bestAnchor (cache_abs c) ty <> empty_root_of ty) :
  exists c', Cache_PopAnchor newrt ty c = Ok c' /\ cache_inv c'
    /\ cache_abs c' ≡ pop_anchor_abs ty newrt (cache_abs c).
Proof. destruct ty; [by apply PopAnchor_Sprout_ok|by apply PopAnchor_Sapling_ok]. Qed.

#[global] Instance pop_anchor_abs_proper ty rt : Proper ((≡) ==> (≡)) (pop_anchor_abs ty rt).
Proof.
  intros a b H. unfold pop_anchor_abs. rewrite (eqv_bestAnchor _ _ H). case_decide; [done|]. by rewrite H.
Qed.

#[global] Instance push_anchor_abs_proper ty rt : Proper ((≡) ==> (≡)) (push_anchor_abs ty rt).
Proof.
  intros a b H. unfold push_anchor_abs. rewrite (eqv_bestAnchor _ _ H). case_decide; [done|]. by rewrite H.
Qed.

(** Popping undoes a push of a new root. *)
Lemma pop_push_anchor ty rt a : a_bestAnchor a ty = rt \/ a_anchor a ty rt = false ->
  pop_anchor_abs ty (a_bestAnchor a ty) (push_anchor_abs ty rt a) ≡ a.
Proof.
  intros H. unfold pop_anchor_abs, push_anchor_abs.
  destruct (decide (a_bestAnchor a ty = rt)) as [E|E]; [by rewrite decide_True|].
  destruct H as [|H]; [done|]. cbn [a_bestAnchor abs_set_anchor].
  rewrite (decide_True (P := ty = ty)) by done. rewrite decide_False by done.
  split; simpl; try done.
  - intros ty' rt'. repeat case_decide; try done; destruct_and?; by subst.
  - intros ty'. repeat case_decide; by subst.
Qed.

Lemma pop_push_comm ty ty' x y a : ty <> ty' ->
  pop_anchor_abs ty x (push_anchor_abs ty' y a) ≡ push_anchor_abs ty' y (pop_anchor_abs ty x a).
Proof.
  intros Hne. unfold pop_anchor_abs, push_anchor_abs.
  repeat (case_decide; cbn [a_bestAnchor abs_set_anchor] in * ); simplify_eq; try done.
  split; simpl; try done.
  - intros ty2 rt2. repeat case_decide; try done; destruct_and?; by subst.
  - intros ty2. repeat case_decide; by subst.
Qed.

Lemma pop_set_best ty x h a : pop_anchor_abs ty x (abs_set_best h a) ≡ abs_set_best h (pop_anchor_abs ty x a).
Proof. unfold pop_anchor_abs. cbn [a_bestAnchor abs_set_best]. by case_decide. Qed.

End CacheLaws.

(** ** Flushing *)

Section FlushLaws.
Context {SpT SaT V : Type} `{!MerkleTree SpT, !MerkleTree SaT, !CCoinsView SpT SaT V}.
Context `{!CCoinsViewLaws SpT SaT V}.
Local Abbreviation cache := (CCoinsViewCache SpT SaT V).

Lemma flush_ok (c : cache) (Hi : cache_inv c) (Hk : best_known (maps c)) :
  exists c', Cache_Flush c = Ok (true, c') /\ cache_inv c'
    /\ view_abs (base c') ≡ cache_abs c /\ cache_abs c' ≡ cache_abs c.
Proof.
  destruct Hi as [[Hv Hb] Hm].
  destruct (BatchWrite_law (maps c) (base c) Hv Hb Hk) as (v' & E & Hv' & Ha).
  unfold Cache_Flush. rewrite E. mstep. eexists. split; [done|].
  split; [split; [split; [done|]|done]|split; [done|]].
  - simpl. split; intros *; try destruct ty; cbn; rewrite lookup_empty; done.
  - etrans; [|exact Ha]. destruct Hk as (K1 & K2 & K3).
    unfold cache_abs. split; simpl; try done.
    + intros [] nf; simpl; by rewrite lookup_empty.
    + intros [] rt; by rewrite lookup_empty.
    + rewrite (eqv_best _ _ Ha). simpl. by rewrite uint256_IsNull_false.
    + intros ty. rewrite (eqv_bestAnchor _ _ Ha). destruct ty; simpl; by rewrite uint256_IsNull_false.
Qed.
(** (C13) [Flush] on a consistent cache over a lawful base succeeds without
    any assertion firing, when the cache knows its best block and both best
    anchors ([best_known]: they were set or read; [BatchWrite] of a parent
    cache takes them over as they are, null ones too).  Afterwards the base
    alone shows exactly the state the cache showed before, and so does the
    emptied cache over it. *)
Theorem Flush_refines (c : cache) (Hi : cache_inv c) (Hk : best_known (maps c)) :
  exists c', Cache_Flush c = Ok (true, c') /\ cache_inv c'
    /\ view_abs (base c') ≡ cache_abs c /\ cache_abs c' ≡ cache_abs c.
Proof. by apply flush_ok. Qed.
End FlushLaws.
