(* ===== verification/CoinsOps.v ===== *)
(** * Queries and the history tree of the coins cache

    coins.cpp: [GetOutputFor], [GetValueIn], [HaveInputs],
    [HaveShieldedRequirements], and the history tree of an epoch
    ([PreloadHistoryTree], [PushHistoryNode], [PopHistoryNode]).  The hashing
    and tree arithmetic of the history tree is librustzcash's: the class
    [HistoryTree]. *)
From S2P Require Import Prelude Transaction Coins History CoinsView CoinsLaws CoinsCache.
From stdpp Require Import prelude gmap strings list.
#[local] Open Scope Z_scope.

Inductive UnsatisfiedShieldedReq :=
| SproutDuplicateNullifier
| SproutUnknownAnchor
| SaplingDuplicateNullifier
| SaplingUnknownAnchor.

(** librustzcash's history tree: [mmr_hash_node] is [None] when it reports a
    failure; [mmr_append] gives the number of nodes to append, the new root
    and the 32-node output buffer; [mmr_delete] the number of nodes to remove
    and the new root. *)
Class HistoryTree := {
  mmr_hash_node : Z -> HistoryNode -> option uint256;
  mmr_append : Z -> Z -> list Z -> list HistoryEntry -> HistoryNode -> Z * uint256 * list HistoryNode;
  mmr_delete : Z -> Z -> list Z -> list HistoryEntry -> Z -> Z -> Z * uint256
}.

Section Ops.
Context {SpT SaT V : Type} `{!MerkleTree SpT, !MerkleTree SaT, !CCoinsView SpT SaT V}.
Local Abbreviation cache := (CCoinsViewCache SpT SaT V).
Implicit Types c : cache.

Definition Cache_GetOutputFor (input : CTxIn) (c : cache) : result (CTxOut * cache) :=
  let '(coins, c) := Cache_AccessCoins (out_hash (prevout input)) c in
  match coins with
  | None => Abort
  | Some coins =>
      let n := Z.to_nat (out_n (prevout input)) in
      _ ← assert_true (CCoins_IsAvailable coins n);
      o ← index_or_abort (vout coins) n;
      Ok (o, c)
  end.

(** [for (...) nResult += GetOutputFor(tx.vin[i]).nValue]. *)
Definition value_in_step (s : Z * cache) (input : CTxIn) : result (Z * cache) :=
  r ← Cache_GetOutputFor input s.2; Ok (i64 (s.1 + nValue r.1), r.2).

Definition Cache_GetValueIn (tx : CTransaction) (c : cache) : result (Z * cache) :=
  if IsCoinBase tx then Ok (0, c)
  else
    r ← foldM value_in_step (vin tx) (0, c);
    s ← GetShieldedValueIn tx;
    Ok (i64 (r.1 + s), r.2).

Fixpoint have_inputs_loop (l : list CTxIn) (c : cache) : bool * cache :=
  match l with
  | [] => (true, c)
  | i :: l' =>
      let '(coins, c) := Cache_AccessCoins (out_hash (prevout i)) c in
      match coins with
      | None => (false, c)
      | Some coins =>
          if CCoins_IsAvailable coins (Z.to_nat (out_n (prevout i))) then have_inputs_loop l' c
          else (false, c)
      end
  end.

Definition Cache_HaveInputs (tx : CTransaction) (c : cache) : bool * cache :=
  if negb (IsCoinBase tx) then have_inputs_loop (vin tx) c else (true, c).

(** Whether one of the nullifiers is spent; the loop stops at the first. *)
Fixpoint any_nullifier (nfs : list uint256) (ty : ShieldedType) (c : cache) : bool * cache :=
  match nfs with
  | [] => (false, c)
  | nf :: nfs' =>
      let '(spent, c) := Cache_GetNullifier nf ty c in
      if spent then (true, c) else any_nullifier nfs' ty c
  end.

(** [intermediates] holds the trees built by earlier JoinSplits of the
    transaction; [insert] keeps an existing entry. *)
Fixpoint have_joinsplits (jss : list JSDescription) (intermediates : gmap uint256 SpT) (c : cache)
  : result (option UnsatisfiedShieldedReq * cache) :=
  match jss with
  | [] => Ok (None, c)
  | js :: jss' =>
      let '(spent, c) := any_nullifier (js_nullifiers js) SPROUT c in
      if spent then Ok (Some SproutDuplicateNullifier, c)
      else
        let '(tree, c) :=
          match intermediates !! js_anchor js with
          | Some t => (Some t, c)
          | None => Cache_GetSproutAnchorAt (js_anchor js) c
          end in
        match tree with
        | None => Ok (Some SproutUnknownAnchor, c)
        | Some tree =>
            tree ← foldM (fun t cm => tree_append cm t) (js_commitments js) tree;
            let intermediates :=
              match intermediates !! tree_root tree with
              | Some _ => intermediates
              | None => <[tree_root tree := tree]> intermediates
              end in
            have_joinsplits jss' intermediates c
        end
  end.

Fixpoint have_spends (l : list SpendDescription) (c : cache) : option UnsatisfiedShieldedReq * cache :=
  match l with
  | [] => (None, c)
  | sd :: l' =>
      let '(spent, c) := Cache_GetNullifier (sd_nullifier sd) SAPLING c in
      if spent then (Some SaplingDuplicateNullifier, c)
      else
        let '(tree, c) := Cache_GetSaplingAnchorAt (sd_anchor sd) c in
        match tree with
        | None => (Some SaplingUnknownAnchor, c)
        | Some _ => have_spends l' c
        end
  end.

Definition Cache_HaveShieldedRequirements (tx : CMutableTransaction) (c : cache)
  : result (option UnsatisfiedShieldedReq * cache) :=
  r ← have_joinsplits (vjoinsplit tx) ∅ c;
  match r.1 with
  | Some u => Ok (Some u, r.2)
  | None => Ok (have_spends (vShieldedSpend tx) r.2)
  end.

(** ** The history tree *)

Context `{HistoryTree}.

(** Load the nodes at the given (altitude, position) pairs, in order. *)
Definition draft_step (epochId : Z) (s : list HistoryEntry * list Z * cache) (p : Z * Z)
  : result (list HistoryEntry * list Z * cache) :=
  let '(entries, indices, c) := s in
  r ← Cache_GetHistoryAt epochId p.2 c;
  Ok (entries ++ [draftMMRNode r.1 p.1 p.2], indices ++ [p.2], r.2).

(** The entries, their indices and the number of peaks. *)
Definition PreloadHistoryTree (epochId : Z) (extra : bool) (c : cache)
  : result (list HistoryEntry * list Z * Z * cache) :=
  let '(treeLength, c) := Cache_GetHistoryLength epochId c in
  if treeLength <=? 0 then Throw "Invalid PreloadHistoryTree state called - tree should exist"
  else if treeLength =? 1 then
    r ← Cache_GetHistoryAt epochId 0 c;
    Ok ([LeafToEntry r.1], [0], 1, r.2)
  else
    p ← preload_positions treeLength extra;
    s ← foldM (draft_step epochId) p.1 ([], [], c);
    let '(entries, indices, c) := s in
    Ok (entries, indices, Z.of_nat p.2, c).

(** Write back the epoch's history cache. *)
Definition set_history_cache (epochId : Z) (hc : HistoryCache) (c : cache) : cache :=
  upd (fun m => set_history (<[epochId := hc]> (historyCacheMap m)) m) c.

Definition Cache_PushHistoryNode (epochId : Z) (node : HistoryNode) (c : cache) : result cache :=
  let '(hc, c) := SelectHistoryCache epochId c in
  if hc_length hc =? 0 then
    let hc := HistoryCache_Extend hc node in
    match mmr_hash_node epochId node with
    | None => Throw "hashing node failed"
    | Some root => Ok (set_history_cache epochId (hc_set_root hc root) c)
    end
  else
    r ← PreloadHistoryTree epochId false c;
    let '(entries, indices, _, c) := r in
    let '(appends, newRoot, appendBuf) := mmr_append epochId (hc_length hc) indices entries node in
    hc ← foldM (fun hc i => n ← index_or_abort appendBuf i; Ok (HistoryCache_Extend hc n))
           (seq 0 (Z.to_nat appends)) hc;
    Ok (set_history_cache epochId (hc_set_root hc newRoot) c).

Definition Cache_PopHistoryNode (epochId : Z) (c : cache) : result cache :=
  let '(hc, c) := SelectHistoryCache epochId c in
  let len := hc_length hc in
  if (len =? 0) || (len =? 1) then
    Ok (set_history_cache epochId (hc_set_root (HistoryCache_Truncate hc 0) uint256_null) c)
  else if len =? 2 then Throw "a history tree cannot have two nodes"
  else if len =? 3 then
    r ← Cache_GetHistoryAt epochId 0 c;
    match mmr_hash_node epochId r.1 with
    | None => Throw "hashing node failed"
    | Some root =>
        Ok (set_history_cache epochId (hc_set_root (HistoryCache_Truncate hc 1) root) r.2)
    end
  else
    r ← PreloadHistoryTree epochId true c;
    let '(entries, indices, peak_count, c) := r in
    let '(numberOfDeletes, newRoot) :=
      mmr_delete epochId len indices entries peak_count (Z.of_nat (length entries) - peak_count) in
    Ok (set_history_cache epochId
          (hc_set_root (HistoryCache_Truncate hc (u64 (len - numberOfDeletes))) newRoot) c).
End Ops.

(** ** Queries return what the view shows *)

(** The unspent output an outpoint refers to. *)
Definition out_unspent (a : AbsView) (o : COutPoint) : option CTxOut :=
  coins ← a_coins a (out_hash o); unspent coins (Z.to_nat (out_n o)).

Lemma out_unspent_norm (o : option CCoins) n :
  (coins ← norm o; unspent coins n) = (coins ← o; unspent coins n).
Proof.
  destruct o as [c|]; [|done]. simpl. destruct (CCoins_IsPruned c) eqn:E; [|done]. simpl.
  by rewrite (proj1 (IsPruned_unspent c) E).
Qed.

Lemma out_unspent_equiv a a' o : a ≡ a' -> out_unspent a o = out_unspent a' o.
Proof. intros Ha. unfold out_unspent. by rewrite (eqv_coins _ _ Ha). Qed.

Section OpsLaws.
Context {SpT SaT V : Type} `{!MerkleTree SpT, !MerkleTree SaT, !CCoinsView SpT SaT V}.
Context `{!CCoinsViewReads SpT SaT V}.
Local Abbreviation cache := (CCoinsViewCache SpT SaT V).
Implicit Types c : cache.

Lemma AccessCoins_ok t c : cache_core c ->
  read_ok c (Cache_AccessCoins t c).2
  /\ forall n, (coins ← (Cache_AccessCoins t c).1; unspent coins n)
       = (coins ← a_coins (cache_abs c) t; unspent coins n).
Proof.
  intros Hc. destruct (FetchCoins_ok t c Hc) as (Hr & Ho & _). split; [done|].
  intros n. rewrite <- Ho. symmetry. apply out_unspent_norm.
Qed.

Lemma read_ok_unspent c c' o : read_ok c c' -> out_unspent (cache_abs c') o = out_unspent (cache_abs c) o.
Proof. intros (_ & Ha & _). by apply out_unspent_equiv. Qed.

Lemma GetOutputFor_ok i c : cache_core c ->
  match out_unspent (cache_abs c) (prevout i) with
  | Some o => exists c', Cache_GetOutputFor i c = Ok (o, c') /\ read_ok c c'
  | None => Cache_GetOutputFor i c = Abort
  end.
Proof.
  intros Hc. unfold Cache_GetOutputFor, out_unspent.
  destruct (AccessCoins_ok (out_hash (prevout i)) c Hc) as [Hr Ho].
  rewrite <- Ho. destruct (Cache_AccessCoins _ c) as [[coins|] c'] eqn:E; simpl; [|done].
  rewrite IsAvailable_unspent. unfold unspent, index_or_abort.
  destruct (vout coins !! Z.to_nat (out_n (prevout i))) as [o|] eqn:Eo; simpl; [|done].
  destruct (CTxOut_IsNull o); simpl; [done|]. eauto.
Qed.

Lemma have_inputs_ok l : forall c, cache_core c ->
  read_ok c (have_inputs_loop l c).2
  /\ ((have_inputs_loop l c).1 = true <-> Forall (fun i => is_Some (out_unspent (cache_abs c) (prevout i))) l).
Proof.
  induction l as [|i l IH]; intros c Hc; cbn [have_inputs_loop].
  - split; [by apply read_ok_refl|]. simpl. split; [constructor|done].
  - destruct (AccessCoins_ok (out_hash (prevout i)) c Hc) as [Hr Ho].
    specialize (Ho (Z.to_nat (out_n (prevout i)))). fold (out_unspent (cache_abs c) (prevout i)) in Ho.
    destruct (Cache_AccessCoins _ c) as [o c1] eqn:E. cbn [fst snd] in Hr, Ho.
    rewrite Forall_cons, <- Ho. destruct o as [coins|]; cbn [mbind option_bind].
    2: { split; [done|]. simpl. split; [done|]. intros [[? ?] _]. done. }
    rewrite IsAvailable_unspent. destruct (unspent coins _) as [x|].
    2: { split; [done|]. simpl. split; [done|]. intros [[? ?] _]. done. }
    destruct (IH c1 (proj1 Hr)) as [Hr2 Hl]. split; [by eapply read_ok_trans|].
    rewrite Hl. split.
    + intros HF. split; [eauto|]. eapply Forall_impl; [exact HF|]. intros j. cbv beta. by rewrite (read_ok_unspent _ _ _ Hr).
    + intros [_ HF]. eapply Forall_impl; [exact HF|]. intros j. cbv beta. by rewrite (read_ok_unspent _ _ _ Hr).
Qed.

(** The outputs a list of inputs refers to; [None] when one is missing. *)
Definition input_values (a : AbsView) (l : list CTxIn) : option (list Z) :=
  mapM (fun i => nValue <$> out_unspent a (prevout i)) l.

Lemma value_in_ok l : forall c n vs, cache_core c -> input_values (cache_abs c) l = Some vs ->
  exists c', foldM value_in_step l (n, c) = Ok (foldl (fun n v => i64 (n + v)) n vs, c') /\ read_ok c c'.
Proof.
  induction l as [|i l IH]; intros c n vs Hc Hv.
  - injection Hv as <-. exists c. split; [done|by apply read_ok_refl].
  - unfold input_values in Hv. cbn [mapM] in Hv.
    pose proof (GetOutputFor_ok i c Hc) as Ho.
    destruct (out_unspent (cache_abs c) (prevout i)) as [o|] eqn:Eo; [|done].
    cbn in Hv. destruct (mapM _ l) as [vs'|] eqn:Em; [|done]. injection Hv as <-.
    destruct Ho as (c1 & E1 & Hr1). cbn [foldM].
    change (value_in_step (n, c) i) with (r ← Cache_GetOutputFor i c; Ok (i64 (n + nValue r.1), r.2)).
    rewrite E1. mstep.
    destruct (IH c1 (i64 (n + nValue o)) vs' (proj1 Hr1)) as (c2 & E2 & Hr2).
    { unfold input_values. rewrite <- Em. apply mapM_ext. intros j. by rewrite (read_ok_unspent _ _ _ Hr1). }
    exists c2. cbn [fst snd]. rewrite E2. split; [done|by eapply read_ok_trans].
Qed.

(** *** Nullifiers and anchors *)

Lemma any_nullifier_ok nfs ty : forall c, cache_core c ->
  read_ok c (any_nullifier nfs ty c).2
  /\ ((any_nullifier nfs ty c).1 = false <-> Forall (fun nf => a_null (cache_abs c) ty nf = false) nfs).
Proof.
  induction nfs as [|nf nfs IH]; intros c Hc; cbn [any_nullifier].
  - split; [by apply read_ok_refl|]. split; [constructor|done].
  - destruct (GetNullifier_ok nf ty c Hc) as [Hr Hs].
    destruct (Cache_GetNullifier nf ty c) as [spent c1]. cbn [fst snd] in Hr, Hs. rewrite Forall_cons, <- Hs.
    destruct spent; [split; [done|]; simpl; split; [done|by intros [? _]]|].
    destruct (IH c1 (proj1 Hr)) as [Hr2 Hl]. split; [by eapply read_ok_trans|]. rewrite Hl.
    pose proof Hr as (_ & Ha & _).
    split; [intros HF; split; [done|]|intros [_ HF]]; (eapply Forall_impl; [exact HF|]); intros x; cbv beta;
      by rewrite (eqv_null _ _ Ha).
Qed.

Lemma have_joinsplits_ok jss : forall inter c r c', cache_core c ->
  have_joinsplits jss inter c = Ok (r, c') ->
  read_ok c c' /\
  (r = None -> Forall (fun nf => a_null (cache_abs c) SPROUT nf = false) (jss ≫= js_nullifiers)).
Proof.
  induction jss as [|js jss IH]; intros inter c r c' Hc E; cbn [have_joinsplits] in E.
  - injection E as <- <-. split; [by apply read_ok_refl|]. intros _. constructor.
  - destruct (any_nullifier_ok (js_nullifiers js) SPROUT c Hc) as [Hr Hs].
    destruct (any_nullifier _ _ c) as [spent c1]. cbn [fst snd] in Hr, Hs.
    destruct spent; [injection E as <- <-; done|].
    assert (Hstep : exists tree c2, (match inter !! js_anchor js with
          | Some t => (Some t, c1) | None => Cache_GetSproutAnchorAt (js_anchor js) c1 end) = (tree, c2)
          /\ read_ok c c2).
    { destruct (inter !! js_anchor js); [eauto|].
      destruct (GetSproutAnchorAt_ok (js_anchor js) c1 (proj1 Hr)) as [Hr2 _].
      destruct (Cache_GetSproutAnchorAt _ c1) as [tree c2]. cbn [fst snd] in Hr2.
      exists tree, c2. split; [done|by eapply read_ok_trans]. }
    destruct Hstep as (tree & c2 & E2 & Hr2). rewrite E2 in E.
    destruct tree as [tree|]; [|injection E as <- <-; done]. apply bind_Ok in E as (tree' & _ & E).
    destruct (IH _ c2 r c' (proj1 Hr2) E) as [Hr3 HF]. split; [by eapply read_ok_trans|].
    intros ->. rewrite bind_cons, Forall_app. split; [by apply Hs|].
    eapply Forall_impl; [by apply HF|]. intros x. cbv beta. pose proof Hr2 as (_ & Ha & _). by rewrite (eqv_null _ _ Ha).
Qed.

Lemma have_spends_ok l : forall c r c', cache_core c -> have_spends l c = (r, c') ->
  read_ok c c' /\
  (r = None -> Forall (fun sd => a_null (cache_abs c) SAPLING (sd_nullifier sd) = false
                                 /\ a_anchor (cache_abs c) SAPLING (sd_anchor sd) = true) l).
Proof.
  induction l as [|sd l IH]; intros c r c' Hc E; cbn [have_spends] in E.
  - injection E as <- <-. split; [by apply read_ok_refl|]. constructor.
  - destruct (GetNullifier_ok (sd_nullifier sd) SAPLING c Hc) as [Hr Hs].
    destruct (Cache_GetNullifier _ _ c) as [spent c1]. cbn [fst snd] in Hr, Hs.
    destruct spent; [injection E as <- <-; done|].
    destruct (GetSaplingAnchorAt_ok (sd_anchor sd) c1 (proj1 Hr)) as [Hr2 Ht].
    destruct (Cache_GetSaplingAnchorAt _ c1) as [tree c2]. cbn [fst snd] in Hr2, Ht.
    assert (Hr12 : read_ok c c2) by (by eapply read_ok_trans).
    destruct tree as [tree|]; [|injection E as <- <-; done].
    destruct (IH c2 r c' (proj1 Hr12) E) as [Hr3 HF]. split; [by eapply read_ok_trans|].
    intros ->. apply Forall_cons. split.
    + split; [done|]. destruct Ht as [_ Ht]. pose proof Hr as (_ & Ha & _). by rewrite (eqv_anchor _ _ Ha) in Ht.
    + eapply Forall_impl; [by apply HF|]. intros x. cbv beta. pose proof Hr12 as (_ & Ha & _).
      by rewrite (eqv_null _ _ Ha), (eqv_anchor _ _ Ha).
Qed.

(** A transaction that meets the shielded requirements double-spends nothing:
    none of its nullifiers is spent in the view and every Sapling anchor is a
    known root; the check does not change what the view shows. *)
Lemma HaveShieldedRequirements_sound (tx : CMutableTransaction) (c c' : cache)
  (Hi : cache_core c) (E : Cache_HaveShieldedRequirements tx c = Ok (None, c')) :
  Forall (fun nf => a_null (cache_abs c) SPROUT nf = false) (sprout_nullifiers tx)
  /\ Forall (fun nf => a_null (cache_abs c) SAPLING nf = false) (sapling_nullifiers tx)
  /\ Forall (fun sd => a_anchor (cache_abs c) SAPLING (sd_anchor sd) = true) (vShieldedSpend tx)
  /\ read_ok c c'.
Proof.
  unfold Cache_HaveShieldedRequirements in E. apply bind_Ok in E as ([r c1] & E1 & E). cbn [fst snd] in E.
  destruct (have_joinsplits_ok _ _ _ _ _ Hi E1) as [Hr1 HF1].
  destruct r; [done|]. injection E as E.
  destruct (have_spends_ok _ _ _ _ (proj1 Hr1) E) as [Hr2 HF2].
  pose proof Hr1 as (_ & Ha & _). specialize (HF2 eq_refl). split_and!.
  - by apply HF1.
  - unfold sapling_nullifiers. apply Forall_fmap. eapply Forall_impl; [exact HF2|].
    intros sd [Hn _]. unfold compose. by rewrite <- (eqv_null _ _ Ha).
  - eapply Forall_impl; [exact HF2|]. intros sd [_ Hn]. cbv beta. by rewrite <- (eqv_anchor _ _ Ha).
  - by eapply read_ok_trans.
Qed.
End OpsLaws.
