(* ===== verification/UpdateCoins.v ===== *)
(** * Connecting and disconnecting transactions

    undo.h (undo records), and from main.cpp [UpdateCoins] (spend a
    transaction's inputs, mark its nullifiers, add its outputs),
    [ApplyTxInUndo] and [DisconnectBlock], with the address index entries it
    removes.  Reading the undo file and writing the index database are
    parameters of [DisconnectBlock]. *)
From S2P Require Import Prelude Transaction Script Coins History CoinsView CoinsLaws CoinsCache CoinsOps.
From stdpp Require Import prelude gmap strings list.
#[local] Open Scope Z_scope.

(** ** Undo records *)

Record CTxInUndo := mkTxInUndo {
  undo_txout : CTxOut;
  undo_fCoinBase : bool;
  undo_nHeight : Z;
  undo_nVersion : Z
}.

Record CTxUndo := mkTxUndo { vprevout : list CTxInUndo }.

Record CBlockUndo := mkBlockUndo {
  vtxundo : list CTxUndo;
  old_sprout_tree_root : uint256
}.

(** ** Address index records (main.h, spentindex.h) *)

Record CAddressIndexKey := mkAddressIndexKey {
  aik_type : Z;
  aik_hashBytes : bytes;
  aik_blockHeight : Z;
  aik_txindex : Z;
  aik_txhash : uint256;
  aik_index : Z;
  aik_spending : bool
}.

Record CAddressUnspentKey := mkAddressUnspentKey {
  auk_type : Z;
  auk_hashBytes : bytes;
  auk_txhash : uint256;
  auk_index : Z
}.

Record CAddressUnspentValue := mkAddressUnspentValue {
  auv_satoshis : Z;
  auv_script : CScript;
  auv_blockHeight : Z
}.
Definition CAddressUnspentValue_SetNull : CAddressUnspentValue := mkAddressUnspentValue (-1) [] 0.

Record CSpentIndexKey := mkSpentIndexKey { sik_txid : uint256; sik_outputIndex : Z }.

(** The address type and hash of a P2SH or P2PKH script. *)
Definition script_address (s : CScript) : option (Z * bytes) :=
  if CScript_IsPayToScriptHash s then Some (2, take 20 (drop 2 s))
  else if CScript_IsPayToPublicKeyHash s then Some (1, take 20 (drop 3 s))
  else None.

Section Update.
Context {SpT SaT V : Type} `{!MerkleTree SpT, !MerkleTree SaT, !CCoinsView SpT SaT V}.
Local Abbreviation cache := (CCoinsViewCache SpT SaT V).
Implicit Types (c view : cache) (tx : CTransaction).

(** ** UpdateCoins *)

(** The scope of the modifier of one input: spend output [nPos] and make its
    undo record. *)
Definition spend_body (nPos : Z) (coins : CCoins) : result (CTxInUndo * CCoins) :=
  match vout coins !! Z.to_nat nPos with
  | None => Abort
  | Some o =>
      if CTxOut_IsNull o then Abort
      else
        let coins' := (CCoins_Spend coins (Z.to_nat nPos)).2 in
        let undo :=
          if bool_decide (vout coins' = [])
          then mkTxInUndo o (fCoinBase coins') (u32 (nHeight coins')) (nVersion coins')
          else mkTxInUndo o false 0 0 in
        Ok (undo, coins')
  end.

Definition spend_input (s : list CTxInUndo * cache) (txin : CTxIn) : result (list CTxInUndo * cache) :=
  r ← modify ModifyCoins (out_hash (prevout txin)) (spend_body (out_n (prevout txin))) s.2;
  Ok (s.1 ++ [r.1], r.2).

Definition UpdateCoins (tx : CTransaction) (inputs : cache) (txundo : CTxUndo) (nHeight : Z)
  : result (CTxUndo * cache) :=
  s ← (if negb (IsCoinBase tx) then foldM spend_input (vin tx) (vprevout txundo, inputs)
       else Ok (vprevout txundo, inputs));
  let inputs := Cache_SetNullifiers tx true s.2 in
  r ← modify ModifyCoins (tx_hash tx) (fun _ => Ok (tt, CCoins_FromTx tx nHeight)) inputs;
  Ok (mkTxUndo s.1, r.2).

(** ** ApplyTxInUndo *)

(** [vout.resize(n)]. *)
Definition resize_vout (n : nat) (l : list CTxOut) : list CTxOut := l ++ replicate (n - length l) CTxOut_SetNull.

Definition undo_body (undo : CTxInUndo) (n : Z) (coins : CCoins) : result (bool * CCoins) :=
  let fClean := if negb (undo_nHeight undo =? 0) then CCoins_IsPruned coins else negb (CCoins_IsPruned coins) in
  let coins :=
    if negb (undo_nHeight undo =? 0)
    then mkCCoins (undo_fCoinBase undo) [] (i32 (undo_nHeight undo)) (undo_nVersion undo)
    else coins in
  let fClean := fClean && negb (CCoins_IsAvailable coins (Z.to_nat n)) in
  let l := if Z.of_nat (length (vout coins)) <? u32 (n + 1)
           then resize_vout (Z.to_nat (u32 (n + 1))) (vout coins) else vout coins in
  _ ← index_or_abort l (Z.to_nat n);
  Ok (fClean, with_vout coins (<[Z.to_nat n := undo_txout undo]> l)).

Definition ApplyTxInUndo (undo : CTxInUndo) (view : cache) (out : COutPoint) : result (bool * cache) :=
  modify ModifyCoins (out_hash out) (undo_body undo (out_n out)) view.

(** ** DisconnectBlock *)

(** What the loop over the transactions carries. *)
Record DisconnectState := mkDisc {
  dc_fClean : bool;
  dc_view : cache;
  dc_addressIndex : list (CAddressIndexKey * Z);
  dc_addressUnspentIndex : list (CAddressUnspentKey * CAddressUnspentValue);
  dc_spentIndex : list CSpentIndexKey
}.

Context (fAddressIndex fSpentIndex : bool) (height : Z).

(** The receiving activity of the outputs, from the last to the first. *)
Definition unindex_output (hash : uint256) (i : Z) (d : DisconnectState) (p : nat * CTxOut) : DisconnectState :=
  match script_address (scriptPubKey p.2) with
  | None => d
  | Some (ty, h) =>
      mkDisc (dc_fClean d) (dc_view d)
        (dc_addressIndex d ++ [(mkAddressIndexKey ty h height i hash (Z.of_nat p.1) false, nValue p.2)])
        (dc_addressUnspentIndex d ++ [(mkAddressUnspentKey ty h hash (Z.of_nat p.1), CAddressUnspentValue_SetNull)])
        (dc_spentIndex d)
  end.

(** Compare the outputs with those of the block, then remove them. *)
Definition remove_outputs_body (tx : CTransaction) (outs : CCoins) : result (bool * CCoins) :=
  let outs := CCoins_ClearUnspendable outs in
  let outsBlock := CCoins_FromTx tx height in
  let outs := if nVersion outsBlock <? 0
              then mkCCoins (fCoinBase outs) (vout outs) (nHeight outs) (nVersion outsBlock) else outs in
  Ok (CCoins_eqb outs outsBlock, CCoins_Clear outs).

(** Input [j] of transaction [i], with its undo record. *)
Definition restore_input (hash : uint256) (i : Z) (d : DisconnectState) (p : nat * (CTxIn * CTxInUndo))
  : result DisconnectState :=
  let '(j, (input, undo)) := p in
  r ← ApplyTxInUndo undo (dc_view d) (prevout input);
  let d := mkDisc (dc_fClean d && r.1) r.2 (dc_addressIndex d) (dc_addressUnspentIndex d)
             (if fSpentIndex
              then dc_spentIndex d ++ [mkSpentIndexKey (out_hash (prevout input)) (out_n (prevout input))]
              else dc_spentIndex d) in
  if fAddressIndex then
    r ← Cache_GetOutputFor input (dc_view d);
    let d := mkDisc (dc_fClean d) r.2 (dc_addressIndex d) (dc_addressUnspentIndex d) (dc_spentIndex d) in
    match script_address (scriptPubKey r.1) with
    | None => Ok d
    | Some (ty, h) =>
        Ok (mkDisc (dc_fClean d) (dc_view d)
              (dc_addressIndex d
               ++ [(mkAddressIndexKey ty h height i hash (Z.of_nat j) true, i64 (nValue r.1 * -1))])
              (dc_addressUnspentIndex d
               ++ [(mkAddressUnspentKey ty h (out_hash (prevout input)) (out_n (prevout input)),
                    mkAddressUnspentValue (nValue r.1) (scriptPubKey r.1) (i32 (undo_nHeight undo)))])
              (dc_spentIndex d))
    end
  else Ok d.

(** The inputs, from the last to the first; [inl] is the error return
    (transaction and undo data inconsistent), with the state at that point. *)
Definition restore_inputs (blockUndo : CBlockUndo) (i : nat) (tx : CTransaction) (d : DisconnectState)
  : result (DisconnectState + DisconnectState) :=
  match i with
  | O => Ok (inr d) (* not coinbases *)
  | S i' =>
      txundo ← index_or_abort (vtxundo blockUndo) i';
      if negb (length (vprevout txundo) =? length (vin tx))%nat then Ok (inl d)
      else
        d ← foldM (restore_input (tx_hash tx) (Z.of_nat i))
              (reverse (imap pair (zip (vin tx) (vprevout txundo)))) d;
        Ok (inr d)
  end.

(** Transaction [i]. *)
Definition disconnect_tx (blockUndo : CBlockUndo) (i : nat) (tx : CTransaction) (d : DisconnectState)
  : result (DisconnectState + DisconnectState) :=
  let hash := tx_hash tx in
  let d := if fAddressIndex
           then foldl (unindex_output hash (Z.of_nat i)) d (reverse (imap pair (tx_vout tx))) else d in
  r ← modify ModifyCoins hash (remove_outputs_body tx) (dc_view d);
  let view := Cache_SetNullifiers tx false r.2 in
  let d := mkDisc (dc_fClean d && r.1) view (dc_addressIndex d) (dc_addressUnspentIndex d) (dc_spentIndex d) in
  restore_inputs blockUndo i tx d.

(** [for (int i = vtx.size() - 1; i >= 0; i--)], over the reversed list of
    (index, transaction) pairs. *)
Fixpoint disconnect_txs (blockUndo : CBlockUndo) (l : list (nat * CTransaction)) (d : DisconnectState)
  : result (DisconnectState + DisconnectState) :=
  match l with
  | [] => Ok (inr d)
  | (i, tx) :: l' =>
      r ← disconnect_tx blockUndo i tx d;
      match r with
      | inl e => Ok (inl e)
      | inr d' => disconnect_txs blockUndo l' d'
      end
  end.

(** The part of a block index entry that [DisconnectBlock] reads. *)
Record BlockIndexInfo := mkIndexInfo {
  bi_hash : uint256;
  bi_has_undo : bool;
  bi_nHeight : Z;
  bi_hashFinalSaplingRoot : uint256
}.

(** What [DisconnectBlock] returns and leaves: its result, [*pfClean], the
    view, the index batches it hands to the database, and the message of
    [AbortNode]. *)
Record DisconnectOutcome := mkOutcome {
  do_ret : bool;
  do_pfClean : option bool;
  do_view : cache;
  do_eraseAddressIndex : list (CAddressIndexKey * Z);
  do_updateUnspentIndex : list (CAddressUnspentKey * CAddressUnspentValue);
  do_error : option string
}.

Definition DisconnectBlock (vtx : list CTransaction) (pindex pprev : BlockIndexInfo)
  (readUndo : option CBlockUndo) (saplingActive : Z -> bool) (eraseOk updateOk : bool)
  (pfClean : bool) (view : cache) : result DisconnectOutcome :=
  let '(best, view) := Cache_GetBestBlock view in
  _ ← assert_true (bool_decide (bi_hash pindex = best));
  let clean0 := if pfClean then Some false else None in
  let failed view := Ok (mkOutcome false clean0 view [] [] None) in
  if negb (bi_has_undo pindex) then failed view
  else match readUndo with
  | None => failed view
  | Some blockUndo =>
      if negb (length (vtxundo blockUndo) + 1 =? length vtx)%nat then failed view
      else
        r ← disconnect_txs blockUndo (reverse (imap pair vtx)) (mkDisc true view [] [] []);
        match r with
        | inl d => failed (dc_view d)
        | inr d =>
            view ← Cache_PopAnchor (old_sprout_tree_root blockUndo) SPROUT (dc_view d);
            view ← Cache_PopAnchor (if saplingActive (bi_nHeight pprev) then bi_hashFinalSaplingRoot pprev
                                    else tree_empty_root (T := SaT)) SAPLING view;
            let view := Cache_SetBestBlock (bi_hash pprev) view in
            if pfClean then Ok (mkOutcome true (Some (dc_fClean d)) view [] [] None)
            else if fAddressIndex then
              Ok (mkOutcome (eraseOk && updateOk && dc_fClean d) None view (dc_addressIndex d)
                    (if eraseOk then dc_addressUnspentIndex d else [])
                    (if negb eraseOk then Some "Failed to delete address index"
                     else if negb updateOk then Some "Failed to write address unspent index" else None)%string)
            else Ok (mkOutcome (dc_fClean d) None view [] [] None)
        end
  end.
End Update.

(** ** Spending and undoing one output *)

(** Coins as the chain state holds them: no null output at the back, spent
    slots hold the canonical null output, and a height that is not 0 (undo
    records use 0 for "not the last output"). *)
Definition coin_wf (c : CCoins) : Prop :=
  CCoins_Cleanup c = c /\ canonical_nulls (vout c) /\ 0 < nHeight c < 2 ^ 31.

Definition spent (c : CCoins) (n : nat) : CCoins :=
  CCoins_Cleanup (with_vout c (<[n := CTxOut_SetNull]> (vout c))).

Definition undo_of (c : CCoins) (n : nat) (o : CTxOut) : CTxInUndo :=
  if bool_decide (vout (spent c n) = []) then mkTxInUndo o (fCoinBase c) (u32 (nHeight c)) (nVersion c)
  else mkTxInUndo o false 0 0.

Lemma unspent_inv c n o : unspent c n = Some o -> vout c !! n = Some o /\ CTxOut_IsNull o = false.
Proof.
  unfold unspent. destruct (vout c !! n) as [o'|]; [|done]. destruct (CTxOut_IsNull o') eqn:E; [done|].
  by intros [= ->].
Qed.

Lemma unspent_not_pruned c n o : unspent c n = Some o -> CCoins_IsPruned c = false.
Proof.
  intros Eu. destruct (CCoins_IsPruned c) eqn:Ep; [|done]. by rewrite (proj1 (IsPruned_unspent c) Ep) in Eu.
Qed.

Lemma spent_Cleanup c n : CCoins_Cleanup (spent c n) = spent c n.
Proof. apply Cleanup_idemp. Qed.

Lemma spend_body_ok c n o : 0 <= n -> unspent c (Z.to_nat n) = Some o ->
  spend_body n c = Ok (undo_of c (Z.to_nat n) o, spent c (Z.to_nat n)).
Proof.
  intros Hn Hu. destruct (unspent_inv _ _ _ Hu) as [Ho Hnull].
  unfold spend_body, CCoins_Spend, undo_of, spent. rewrite Ho, Hnull. done.
Qed.

Lemma spend_body_missing c n : unspent c (Z.to_nat n) = None -> spend_body n c = Abort.
Proof.
  unfold unspent, spend_body. destruct (vout c !! Z.to_nat n) as [o|]; [|done].
  by destruct (CTxOut_IsNull o).
Qed.

(** What the clean-up after a spend removes: nothing, or everything from the
    back down to the last unspent output, the spent one being the last. *)
Lemma spent_split c n o : coin_wf c -> unspent c n = Some o ->
  <[n := CTxOut_SetNull]> (vout c)
    = resize_vout (S n) (vout (spent c n)) /\ (length (vout (spent c n)) <= length (vout c))%nat.
Proof.
  intros (Hc & Hcan & _) Hu. destruct (unspent_inv _ _ _ Hu) as [Ho Hnull].
  pose proof (lookup_lt_Some _ _ _ Ho) as Hlt.
  destruct (Cleanup_split (with_vout c (<[n := CTxOut_SetNull]> (vout c)))) as (nulls & Hv & HF & _).
  fold (spent c n) in Hv. cbn [vout with_vout] in Hv. unfold resize_vout.
  assert (Hlen : length (vout c) = (length (vout (spent c n)) + length nulls)%nat).
  { rewrite <- (length_insert (vout c) n CTxOut_SetNull), Hv, length_app. done. }
  split; [|lia]. rewrite Hv. f_equal.
  assert (Hnulls : nulls = replicate (length nulls) CTxOut_SetNull).
  { apply list_eq. intros k. destruct (decide (k < length nulls)%nat) as [Hk|Hk].
    2: { rewrite !lookup_ge_None_2; [done|rewrite length_replicate; lia|lia]. }
    rewrite lookup_replicate_2 by lia.
    destruct (lookup_lt_is_Some_2 nulls k Hk) as [x Ex]. rewrite Ex. f_equal.
    assert (El : <[n := CTxOut_SetNull]> (vout c) !! (length (vout (spent c n)) + k)%nat = Some x)
      by (rewrite Hv, lookup_app_r, Nat.add_comm, Nat.add_sub by lia; done).
    destruct (decide (n = length (vout (spent c n)) + k)%nat) as [En|Hne].
    { rewrite <- En, list_lookup_insert_eq in El by done. congruence. }
    rewrite list_lookup_insert_ne in El by done.
    apply (Forall_lookup_1 _ _ _ _ Hcan El). by apply (Forall_lookup_1 _ _ _ _ HF Ex). }
  destruct nulls as [|x nulls'] eqn:En.
  - cbn [length] in Hlen. replace (S n - length (vout (spent c n)))%nat with 0%nat by lia. done.
  - rewrite <- En in *. rewrite Hnulls. f_equal.
    assert (Hlast : S n = length (vout c)).
    { destruct (decide (S n = length (vout c))) as [|Hne]; [done|]. exfalso.
      assert (is_Some (vout c !! (length (vout c) - 1)%nat)) as [z Ez] by (apply lookup_lt_is_Some_2; lia).
      assert (CTxOut_IsNull z = false) as Hz.
      { destruct (Cleanup_split c) as (_ & _ & _ & Hl). rewrite Hc in Hl. apply Hl.
        rewrite last_lookup. by replace (pred (length (vout c))) with (length (vout c) - 1)%nat by lia. }
      assert (El : <[n := CTxOut_SetNull]> (vout c) !! (length (vout c) - 1)%nat = Some z)
        by (rewrite list_lookup_insert_ne by lia; done).
      rewrite Hv, lookup_app_r in El by (rewrite En in Hlen; cbn [length] in Hlen; lia).
      by rewrite (Forall_lookup_1 _ _ _ _ HF El) in Hz. }
    lia.
Qed.

Lemma undo_roundtrip c n o old : 0 <= n < 2 ^ 32 - 1 -> coin_wf c -> unspent c (Z.to_nat n) = Some o ->
  norm (Some old) = norm (Some (spent c (Z.to_nat n))) ->
  undo_body (undo_of c (Z.to_nat n) o) n old = Ok (true, c).
Proof.
  intros Hn Hwf Hu Hold. destruct (spent_split c _ o Hwf Hu) as [Hs _].
  destruct (unspent_inv _ _ _ Hu) as [Ho Hnull]. pose proof (lookup_lt_Some _ _ _ Ho) as Hlt.
  destruct Hwf as (Hc & Hcan & Hh). unfold undo_body, undo_of.
  assert (Enorm : vout (spent c (Z.to_nat n)) = [] \/ CCoins_IsPruned (spent c (Z.to_nat n)) = false).
  { destruct (CCoins_IsPruned (spent c (Z.to_nat n))) eqn:E; [left|by right].
    unfold spent in *. rewrite IsPruned_Cleanup in E. by apply IsPruned_Cleanup_nil. }
  assert (Efin : <[Z.to_nat n := o]> (resize_vout (S (Z.to_nat n)) (vout (spent c (Z.to_nat n)))) = vout c).
  { rewrite <- Hs, list_insert_insert_eq. by apply list_insert_id. }
  assert (Hln : (Z.to_nat n < length (resize_vout (S (Z.to_nat n)) (vout (spent c (Z.to_nat n)))))%nat)
    by (unfold resize_vout; rewrite length_app, length_replicate; lia).
  assert (Hres : forall l : list CTxOut,
    (if Z.of_nat (length l) <? u32 (n + 1) then resize_vout (Z.to_nat (u32 (n + 1))) l else l)
    = resize_vout (S (Z.to_nat n)) l).
  { intros l. rewrite u32_small by (unfold is_u32; lia). replace (Z.to_nat (n + 1)) with (S (Z.to_nat n)) by lia.
    destruct (Z.ltb_spec (Z.of_nat (length l)) (n + 1)); [done|]. unfold resize_vout.
    replace (S (Z.to_nat n) - length l)%nat with 0%nat by lia. simpl. by rewrite app_nil_r. }
  case_bool_decide as Ev; cbn [undo_nHeight undo_fCoinBase undo_nVersion undo_txout].
  - rewrite (u32_small (nHeight c)) by (unfold is_u32; lia).
    rewrite (proj2 (Z.eqb_neq _ _)) by lia. cbn [negb vout]. rewrite Hres. rewrite Ev in *.
    unfold index_or_abort. destruct (lookup_lt_is_Some_2 _ _ Hln) as [x ->]. mstep.
    assert (Hpr : CCoins_IsPruned old = true).
    { unfold norm in Hold. destruct (CCoins_IsPruned old); [done|].
      unfold CCoins_IsPruned in Hold. rewrite Ev in Hold. done. }
    rewrite Hpr, i32_small by (unfold is_i32; lia).
    assert (Hav : CCoins_IsAvailable (mkCCoins (fCoinBase c) [] (nHeight c) (nVersion c)) (Z.to_nat n) = false)
      by (unfold CCoins_IsAvailable; cbn [vout]; by rewrite lookup_nil).
    rewrite Hav, Efin. by destruct c.
  - destruct Enorm as [|Hnp]; [done|].
    assert (old = spent c (Z.to_nat n)) as ->.
    { unfold norm in Hold. rewrite Hnp in Hold. destruct (CCoins_IsPruned old); congruence. }
    change (0 =? 0) with true. cbn [negb]. rewrite Hres, Hnp. cbn [negb andb].
    unfold index_or_abort. destruct (lookup_lt_is_Some_2 _ _ Hln) as [x ->]. mstep.
    assert (Hav : CCoins_IsAvailable (spent c (Z.to_nat n)) (Z.to_nat n) = false).
    { rewrite IsAvailable_unspent. unfold spent. rewrite unspent_Cleanup, unspent_insert_null.
      by rewrite decide_True. }
    rewrite Hav, Efin. unfold spent, CCoins_Cleanup. by destruct c.
Qed.

(** ** Outputs of a transaction *)

Definition clear_out (o : CTxOut) : CTxOut :=
  if CScript_IsUnspendable (scriptPubKey o) then CTxOut_SetNull else o.

Lemma clear_out_idemp o : clear_out (clear_out o) = clear_out o.
Proof.
  unfold clear_out. destruct (CScript_IsUnspendable (scriptPubKey o)) eqn:E; [done|]. by rewrite E.
Qed.

Lemma FromTx_prefix tx h : exists nulls, clear_out <$> tx_vout tx = vout (CCoins_FromTx tx h) ++ nulls.
Proof.
  destruct (Cleanup_split (with_vout (mkCCoins (IsCoinBase tx) (tx_vout tx) h (tx_nVersion tx))
    (clear_out <$> tx_vout tx))) as (nulls & Hv & _ & _). exists nulls. exact Hv.
Qed.

Lemma Cleanup_FromTx tx h : CCoins_Cleanup (CCoins_FromTx tx h) = CCoins_FromTx tx h.
Proof. apply Cleanup_idemp. Qed.

Lemma ClearUnspendable_FromTx tx h : CCoins_ClearUnspendable (CCoins_FromTx tx h) = CCoins_FromTx tx h.
Proof.
  unfold CCoins_ClearUnspendable. fold clear_out.
  replace (clear_out <$> vout (CCoins_FromTx tx h)) with (vout (CCoins_FromTx tx h)).
  - replace (with_vout _ _) with (CCoins_FromTx tx h) by (by destruct (CCoins_FromTx tx h)).
    apply Cleanup_FromTx.
  - destruct (FromTx_prefix tx h) as [nulls Hv]. apply list_eq. intros k. rewrite list_lookup_fmap.
    destruct (vout (CCoins_FromTx tx h) !! k) as [o|] eqn:E; [|done]. simpl. f_equal.
    assert ((clear_out <$> tx_vout tx) !! k = Some o) as Ek by (rewrite Hv; by apply lookup_app_l_Some).
    rewrite list_lookup_fmap in Ek. destruct (tx_vout tx !! k) as [o'|]; [|done]. injection Ek as <-.
    symmetry. apply clear_out_idemp.
Qed.

Lemma FromTx_wf tx h : 0 < h < 2 ^ 31 -> Forall (fun o => 0 <= nValue o) (tx_vout tx) ->
  coin_wf (CCoins_FromTx tx h).
Proof.
  intros Hh Ho. split; [apply Cleanup_FromTx|]. split; [|done].
  destruct (FromTx_prefix tx h) as [nulls Hv].
  assert (canonical_nulls (clear_out <$> tx_vout tx)) as Hc.
  { apply Forall_fmap. eapply Forall_impl; [exact Ho|]. intros o Hn. unfold compose, clear_out.
    destruct (CScript_IsUnspendable _); [done|]. unfold CTxOut_IsNull. cbv beta in Hn. rewrite Z.eqb_eq. lia. }
  rewrite Hv in Hc. unfold canonical_nulls in Hc. by apply Forall_app in Hc as [? _].
Qed.

Lemma ClearUnspendable_pruned c : CCoins_IsPruned c = true -> CCoins_IsPruned (CCoins_ClearUnspendable c) = true.
Proof.
  intros Hp. unfold CCoins_ClearUnspendable. rewrite IsPruned_Cleanup. fold clear_out.
  unfold CCoins_IsPruned in *. cbn [vout with_vout]. rewrite forallb_forall in *. intros o Ho.
  apply list_elem_of_In, list_elem_of_fmap in Ho as (o' & -> & Ho').
  unfold clear_out. destruct (CScript_IsUnspendable _); [done|]. by apply Hp, list_elem_of_In.
Qed.

(** The outputs found are those of the block. *)
Lemma remove_outputs_ok (tx : CTransaction) h old : norm (Some old) = norm (Some (CCoins_FromTx tx h)) ->
  remove_outputs_body h tx old = Ok (true, CCoins_new).
Proof.
  intros Hn. unfold remove_outputs_body. f_equal. f_equal. unfold norm in Hn.
  destruct (CCoins_IsPruned old) eqn:Eo, (CCoins_IsPruned (CCoins_FromTx tx h)) eqn:Ef; try done.
  - unfold CCoins_eqb. rewrite Ef.
    match goal with |- context [CCoins_IsPruned ?x && true] => assert (CCoins_IsPruned x = true) as -> end; [|done].
    pose proof (ClearUnspendable_pruned old Eo) as Hp. by destruct (_ <? 0).
  - injection Hn as ->. rewrite ClearUnspendable_FromTx.
    match goal with |- CCoins_eqb ?x ?y = true => assert (x = y) as -> end.
    { destruct (_ <? 0); [|done]. by destruct (CCoins_FromTx tx h). }
    unfold CCoins_eqb. rewrite !bool_decide_true by done. by destruct (_ && _).
Qed.

(** ** The round trip *)

Definition view_wf (a : AbsView) : Prop := forall t c, a_coins a t = Some c -> coin_wf c.

(** Everything but the coins is the same. *)
Record same_but_coins (a b : AbsView) : Prop := {
  sb_null : forall ty nf, a_null a ty nf = a_null b ty nf;
  sb_anchor : forall ty rt, a_anchor a ty rt = a_anchor b ty rt;
  sb_best : a_best a = a_best b;
  sb_bestAnchor : forall ty, a_bestAnchor a ty = a_bestAnchor b ty;
  sb_hlen : forall e, a_hlen a e = a_hlen b e;
  sb_hroot : forall e, a_hroot a e = a_hroot b e;
  sb_hat : forall e i, 0 <= i < a_hlen a e -> a_hat a e i = a_hat b e i
}.

Lemma view_wf_equiv a b : a ≡ b -> view_wf b -> view_wf a.
Proof. intros Ha Hw t c. rewrite (eqv_coins _ _ Ha). apply Hw. Qed.

Lemma same_but_coins_refl a : same_but_coins a a.
Proof. by split. Qed.

Lemma same_but_coins_step a b t o : a ≡ abs_set_coins t o b -> same_but_coins a b.
Proof. intros [Hc Hn Ha Hb HB Hl Hr Hh]. split; done. Qed.

Lemma same_but_coins_trans a b d : same_but_coins a b -> same_but_coins b d -> same_but_coins a d.
Proof.
  intros H1 H2. split; intros;
    [by etrans; [apply H1|apply H2]..|].
  rewrite (sb_hat _ _ H1) by done. apply (sb_hat _ _ H2). by rewrite <- (sb_hlen _ _ H1).
Qed.

(** The coins and nullifiers of [a], everything else from [r]. *)
Definition with_rest (r a : AbsView) : AbsView :=
  mkAbs (a_coins a) (a_null a) (a_anchor r) (a_best r) (a_bestAnchor r) (a_hlen r) (a_hroot r) (a_hat r).

#[global] Instance with_rest_proper : Proper ((≡) ==> (≡) ==> (≡)) with_rest.
Proof.
  intros r r' Hr a a' Ha. destruct Ha as [Hc Hn _ _ _ _ _ _], Hr as [_ _ Har Hb HB Hl Hrt Hh]. by split.
Qed.

Lemma with_rest_same a b : same_but_coins a b -> a ≡ with_rest b a.
Proof. intros [Hn Ha Hb HB Hl Hr Hh]. by split. Qed.

Lemma with_rest_trans a b d : a ≡ with_rest b a -> b ≡ with_rest d b -> a ≡ with_rest d a.
Proof. intros H1 H2. rewrite H1 at 1. rewrite H2. done. Qed.

(** What must hold of a transaction before it is connected, for the undo data
    to restore the view: its id is new, its nullifiers are unspent (both are
    checked by [ConnectBlock]), its outputs are not negative. *)
Record connectable (a : AbsView) (tx : CTransaction) (h : Z) : Prop := {
  cn_new : a_coins a (tx_hash tx) = None;
  cn_sprout : Forall (fun nf => a_null a SPROUT nf = false) (sprout_nullifiers tx);
  cn_sapling : Forall (fun nf => a_null a SAPLING nf = false) (sapling_nullifiers tx);
  cn_inputs : IsCoinBase tx = false -> Forall (fun i => 0 <= out_n (prevout i) < 2 ^ 32 - 1) (vin tx);
  cn_outputs : Forall (fun o => 0 <= nValue o) (tx_vout tx);
  cn_height : 0 < h < 2 ^ 31
}.

Section UpdateLaws.
Context {SpT SaT V : Type} `{!MerkleTree SpT, !MerkleTree SaT, !CCoinsView SpT SaT V}.
Context `{!CCoinsViewReads SpT SaT V}.
Local Abbreviation cache := (CCoinsViewCache SpT SaT V).
Local Abbreviation dstate := (@DisconnectState SpT SaT V).
Implicit Types (c : cache) (d : dstate).

(** One input spent: there was an unspent output, and exactly it is gone. *)
Lemma spend_input_ok i c vp vp' c' : cache_inv c -> 0 <= out_n (prevout i) ->
  spend_input (vp, c) i = Ok (vp', c') ->
  exists coin o, a_coins (cache_abs c) (out_hash (prevout i)) = Some coin
    /\ unspent coin (Z.to_nat (out_n (prevout i))) = Some o
    /\ vp' = vp ++ [undo_of coin (Z.to_nat (out_n (prevout i))) o] /\ cache_inv c'
    /\ cache_abs c' ≡ abs_set_coins (out_hash (prevout i))
         (norm (Some (spent coin (Z.to_nat (out_n (prevout i)))))) (cache_abs c).
Proof.
  intros Hi Hn E. unfold spend_input in E. cbn [fst snd] in E.
  destruct (ModifyCoins_refines (out_hash (prevout i)) (spend_body (out_n (prevout i))) c Hi) as (old & Hold & Hm).
  set (n := Z.to_nat (out_n (prevout i))) in *.
  destruct (unspent old n) as [o|] eqn:Eu.
  2: { rewrite spend_body_missing in Hm by done. rewrite Hm in E. done. }
  pose proof (unspent_not_pruned _ _ _ Eu) as Hnp.
  rewrite (spend_body_ok old _ o Hn Eu) in Hm. destruct Hm as (c1 & E1 & Hi1 & Ha1).
  rewrite E1 in E. cbn in E. injection E as <- <-.
  fold n in Ha1. rewrite (spent_Cleanup old n) in Ha1. simpl in Hold. rewrite Hnp in Hold.
  exists old, o. done.
Qed.

(** One input restored: if the coin is as spending it left it, it is as it
    was before. *)
Lemma undo_input_ok i coin o c : cache_inv c -> 0 <= out_n (prevout i) < 2 ^ 32 - 1 -> coin_wf coin ->
  unspent coin (Z.to_nat (out_n (prevout i))) = Some o ->
  a_coins (cache_abs c) (out_hash (prevout i)) = norm (Some (spent coin (Z.to_nat (out_n (prevout i))))) ->
  exists c', ApplyTxInUndo (undo_of coin (Z.to_nat (out_n (prevout i))) o) c (prevout i) = Ok (true, c')
    /\ cache_inv c' /\ cache_abs c' ≡ abs_set_coins (out_hash (prevout i)) (Some coin) (cache_abs c).
Proof.
  intros Hi Hn Hwf Hu Ha. unfold ApplyTxInUndo.
  destruct (ModifyCoins_refines (out_hash (prevout i))
    (undo_body (undo_of coin (Z.to_nat (out_n (prevout i))) o) (out_n (prevout i))) c Hi) as (old & Hold & Hm).
  rewrite (undo_roundtrip coin _ o old Hn Hwf Hu) in Hm by congruence.
  destruct Hm as (c' & E & Hi' & Ha'). exists c'. split; [done|]. split; [done|].
  rewrite (proj1 Hwf) in Ha'. simpl in Ha'. by rewrite (unspent_not_pruned _ _ _ Hu) in Ha'.
Qed.

Lemma abs_set_coins_undo r t o o' a b : a ≡ abs_set_coins t o b -> a_coins b t = o' ->
  abs_set_coins t o' (with_rest r a) ≡ with_rest r b.
Proof.
  intros E Ho. rewrite E. split; simpl; try done. intros t'. case_decide; by simplify_eq.
Qed.

(** The loop body of [DisconnectBlock] for one input, whatever indexes it
    keeps. *)
Lemma restore_input_ok fA fS h hash k j i coin o d : cache_inv (dc_view d) ->
  0 <= out_n (prevout i) < 2 ^ 32 - 1 -> coin_wf coin ->
  unspent coin (Z.to_nat (out_n (prevout i))) = Some o ->
  a_coins (cache_abs (dc_view d)) (out_hash (prevout i))
    = norm (Some (spent coin (Z.to_nat (out_n (prevout i))))) ->
  exists d' : dstate, restore_input fA fS h hash k d (j, (i, undo_of coin (Z.to_nat (out_n (prevout i))) o)) = Ok d'
    /\ cache_inv (dc_view d') /\ dc_fClean d' = dc_fClean d
    /\ cache_abs (dc_view d') ≡ abs_set_coins (out_hash (prevout i)) (Some coin) (cache_abs (dc_view d)).
Proof.
  intros Hi Hn Hwf Hu Ha. unfold restore_input.
  destruct (undo_input_ok i coin o (dc_view d) Hi Hn Hwf Hu Ha) as (c1 & -> & Hi1 & Ha1). mstep.
  cbn [dc_view dc_fClean dc_addressIndex dc_addressUnspentIndex dc_spentIndex fst snd].
  rewrite andb_true_r. destruct fA.
  2: { eexists. split; [done|]. done. }
  pose proof (GetOutputFor_ok i c1 (proj1 Hi1)) as Ho. unfold out_unspent in Ho.
  rewrite (eqv_coins _ _ Ha1) in Ho. cbn [a_coins abs_set_coins] in Ho. rewrite decide_True in Ho by done.
  cbn in Ho. rewrite Hu in Ho. destruct Ho as (c2 & -> & Hr). mstep.
  destruct (read_ok_stable c1 c2 Hi1 Hr) as (Hi2 & Ha2 & _).
  destruct (script_address _) as [[ty hb]|]; eexists; (split; [done|]);
    cbn [dc_view dc_fClean]; split_and!; [done|done|by etrans|done|done|by etrans].
Qed.

Lemma view_wf_spent a a' t coin n o : view_wf a -> a_coins a t = Some coin -> unspent coin n = Some o ->
  a' ≡ abs_set_coins t (norm (Some (spent coin n))) a -> view_wf a'.
Proof.
  intros Hw Hc Hu Ha t' c'. rewrite (eqv_coins _ _ Ha). cbn [a_coins abs_set_coins].
  case_decide as Et; [|by apply Hw]. intros [[= <-] _]%norm_Some_inv.
  pose proof (Hw _ _ Hc) as Hwf. destruct Hwf as (Hcl & Hcan & Hh). split; [apply spent_Cleanup|].
  split; [|done].
  assert (canonical_nulls (<[n := CTxOut_SetNull]> (vout coin))) as Hi by (by apply Forall_insert).
  destruct (Cleanup_split (with_vout coin (<[n := CTxOut_SetNull]> (vout coin)))) as (nulls & Hv & _).
  cbn [vout with_vout] in Hv. rewrite Hv in Hi. unfold canonical_nulls in Hi. by apply Forall_app in Hi as [? _].
Qed.

(** Spending a list of inputs and restoring them in the reverse order is the
    identity on the abstract state, and the restored coins are clean. *)
Lemma inputs_roundtrip ins : forall c vp vp' c', cache_inv c -> view_wf (cache_abs c) ->
  Forall (fun i => 0 <= out_n (prevout i) < 2 ^ 32 - 1) ins ->
  foldM spend_input ins (vp, c) = Ok (vp', c') ->
  exists us, vp' = vp ++ us /\ length us = length ins /\ cache_inv c' /\ view_wf (cache_abs c')
    /\ (forall t, a_coins (cache_abs c) t = None -> a_coins (cache_abs c') t = None)
    /\ same_but_coins (cache_abs c') (cache_abs c)
    /\ forall fA fS h hash k L (d : dstate) r, L.*2 = zip ins us -> cache_inv (dc_view d) ->
         cache_abs (dc_view d) ≡ with_rest r (cache_abs c') ->
         exists d' : dstate, foldM (restore_input fA fS h hash k) (reverse L) d = Ok d'
           /\ cache_inv (dc_view d') /\ dc_fClean d' = dc_fClean d
           /\ cache_abs (dc_view d') ≡ with_rest r (cache_abs c).
Proof.
  induction ins as [|i ins IH]; intros c vp vp' c' Hi Hw HF E.
  - injection E as <- <-. exists []. rewrite app_nil_r. split_and!; try done.
    intros fA fS h hash k L d r HL Hd Ha. apply fmap_nil_inv in HL as ->. exists d. done.
  - apply Forall_cons in HF as [Hn HF]. cbn [foldM] in E.
    destruct (spend_input (vp, c) i) as [[vp1 c1]| |] eqn:E1; [|done..]. cbn in E.
    destruct (spend_input_ok i c vp vp1 c1 Hi (proj1 Hn) E1) as (coin & o & Hc & Hu & -> & Hi1 & Ha1).
    pose proof (view_wf_spent _ _ _ _ _ _ Hw Hc Hu Ha1) as Hw1.
    destruct (IH c1 _ vp' c' Hi1 Hw1 HF E) as (us & -> & Hlen & Hi' & Hw' & Hnone & Hsame & Hback).
    exists (undo_of coin (Z.to_nat (out_n (prevout i))) o :: us). rewrite <- app_assoc.
    split_and!; [done|simpl; lia|done|done| | |].
    { intros t Ht. apply Hnone. rewrite (eqv_coins _ _ Ha1). cbn [a_coins abs_set_coins].
      case_decide; [congruence|done]. }
    { eapply same_but_coins_trans; [done|]. by eapply same_but_coins_step. }
    intros fA fS h hash k L d r HL Hd Ha. destruct L as [|[j p] L]; [done|]. cbn in HL. injection HL as -> HL.
    rewrite reverse_cons, foldM_app.
    destruct (Hback fA fS h hash k L d r HL Hd Ha) as (d1 & -> & Hd1 & Hf1 & Hb1). mstep. cbn [foldM].
    destruct (restore_input_ok fA fS h hash k j i coin o d1 Hd1 Hn (Hw _ _ Hc) Hu) as (d2 & -> & Hd2 & Hf2 & Hb2).
    { rewrite (eqv_coins _ _ Hb1). cbn [a_coins with_rest]. rewrite (eqv_coins _ _ Ha1). cbn [a_coins abs_set_coins]. by rewrite decide_True. }
    mstep. exists d2. split_and!; [done|done|congruence|].
    etrans; [exact Hb2|]. rewrite Hb1. by eapply abs_set_coins_undo.
Qed.

Lemma unindex_outputs_view h hash k l : forall d,
  dc_view (foldl (unindex_output h hash k) d l) = dc_view d
  /\ dc_fClean (foldl (unindex_output h hash k) d l) = dc_fClean d.
Proof.
  induction l as [|p l IH]; intros d; [done|]. cbn [foldl].
  destruct (IH (unindex_output h hash k d p)) as [-> ->].
  unfold unindex_output. by destruct (script_address _) as [[ty hb]|].
Qed.

(** The state between the spends and the outputs, and back to it. *)
Lemma outputs_roundtrip (tx : CTransaction) h c : cache_inv c -> connectable (cache_abs c) tx h ->
  exists c', modify ModifyCoins (tx_hash tx) (fun _ => Ok (tt, CCoins_FromTx tx h)) (Cache_SetNullifiers tx true c)
      = Ok (tt, c')
    /\ cache_inv c'
    /\ cache_abs c' ≡ abs_set_coins (tx_hash tx) (norm (Some (CCoins_FromTx tx h)))
         (abs_set_null SAPLING (sapling_nullifiers tx) true
           (abs_set_null SPROUT (sprout_nullifiers tx) true (cache_abs c)))
    /\ forall (c2 : cache) r, cache_inv c2 -> cache_abs c2 ≡ with_rest r (cache_abs c') ->
         exists c3, modify ModifyCoins (tx_hash tx) (remove_outputs_body h tx) c2 = Ok (true, c3)
           /\ cache_inv (Cache_SetNullifiers tx false c3)
           /\ cache_abs (Cache_SetNullifiers tx false c3) ≡ with_rest r (cache_abs c).
Proof.
  intros Hi [Hnew Hsp Hsa _ _ _].
  destruct (SetNullifiers_refines tx true c Hi) as [Hi1 Ha1].
  destruct (ModifyCoins_refines (tx_hash tx) (fun _ => Ok (tt, CCoins_FromTx tx h)) _ Hi1)
    as (_ & _ & c' & E & Hi' & Ha').
  rewrite Cleanup_FromTx, Ha1 in Ha'. exists c'. split_and!; [done..|].
  intros c2 r Hi2 Ha2.
  destruct (ModifyCoins_refines (tx_hash tx) (remove_outputs_body h tx) c2 Hi2) as (old & Hold & Hm).
  assert (norm (Some old) = norm (Some (CCoins_FromTx tx h))) as Hold'.
  { rewrite Hold, (eqv_coins _ _ Ha2). cbn [a_coins with_rest]. rewrite (eqv_coins _ _ Ha'). cbn [a_coins abs_set_coins]. by rewrite decide_True. }
  rewrite (remove_outputs_ok tx h old Hold') in Hm. destruct Hm as (c3 & E3 & Hi3 & Ha3).
  exists c3. destruct (SetNullifiers_refines tx false c3 Hi3) as [Hi4 Ha4]. split_and!; [done..|].
  rewrite Ha4, Ha3, Ha2, Ha'. clear - Hnew Hsp Hsa. generalize dependent (cache_abs c). intros a Hnew Hsp Hsa. split; simpl; try done.
  - intros t. repeat case_decide; by subst.
  - intros ty nf. rewrite Forall_forall in Hsp, Hsa.
    destruct (decide (ty = SAPLING /\ nf ∈ sapling_nullifiers tx)) as [[-> Hn]|]; [by rewrite Hsa|].
    destruct (decide (ty = SPROUT /\ nf ∈ sprout_nullifiers tx)) as [[-> Hn]|]; [by rewrite Hsp|done].
Qed.

(** The transaction of index [k] of a block: [UpdateCoins], and what
    [DisconnectBlock] does about it. *)
Definition undo_recorded (k : nat) (u : CTxUndo) (blockUndo : CBlockUndo) : Prop :=
  match k with O => True | S k' => vtxundo blockUndo !! k' = Some u end.

Lemma spends_roundtrip (tx : CTransaction) k h c us c1 : cache_inv c -> view_wf (cache_abs c) ->
  connectable (cache_abs c) tx h -> IsCoinBase tx = bool_decide (k = 0%nat) ->
  (if negb (IsCoinBase tx) then foldM spend_input (vin tx) ([], c) else Ok ([], c)) = Ok (us, c1) ->
  cache_inv c1 /\ view_wf (cache_abs c1) /\ connectable (cache_abs c1) tx h
  /\ same_but_coins (cache_abs c1) (cache_abs c)
  /\ forall fA fS blockUndo (d : dstate) r, undo_recorded k (mkTxUndo us) blockUndo -> cache_inv (dc_view d) ->
       cache_abs (dc_view d) ≡ with_rest r (cache_abs c1) ->
       exists d' : dstate, restore_inputs fA fS h blockUndo k tx d = Ok (inr d')
         /\ cache_inv (dc_view d') /\ dc_fClean d' = dc_fClean d
         /\ cache_abs (dc_view d') ≡ with_rest r (cache_abs c).
Proof.
  intros Hi Hw Hcn Hcb E1. rewrite Hcb in E1. destruct k as [|k']; cbn in E1.
  - injection E1 as <- <-. split_and!; try done.
    intros fA fS b d r _ Hd Ha. by exists d.
  - destruct (inputs_roundtrip (vin tx) c [] us c1 Hi Hw (cn_inputs _ _ _ Hcn Hcb) E1)
      as (us' & -> & Hlen & Hi1 & Hw1 & Hnone & Hsame & Hback).
    split_and!; [done|done| |done|].
    { destruct Hcn as [Hnew Hsp Hsa Hin Hout Hh]. split; try done; [by apply Hnone| |];
        (eapply Forall_impl; [eassumption|]); intros nf Hnf; cbv beta in *; by rewrite (sb_null _ _ Hsame). }
    intros fA fS b d r Hu Hd Ha. unfold restore_inputs. cbn in Hu. unfold index_or_abort. rewrite Hu.
    mstep. cbn [app vprevout]. rewrite Hlen, Nat.eqb_refl. cbn [negb].
    destruct (Hback fA fS h (tx_hash tx) (Z.of_nat (S k')) (imap pair (zip (vin tx) us')) d r) as (d' & -> & H');
      [|done..|].
    { apply list_eq. intros q. rewrite list_lookup_fmap, list_lookup_imap. by destruct (zip _ _ !! q). }
    exists d'. done.
Qed.

Lemma tx_roundtrip (tx : CTransaction) k h c u c' : cache_inv c -> view_wf (cache_abs c) ->
  connectable (cache_abs c) tx h -> IsCoinBase tx = bool_decide (k = 0%nat) ->
  UpdateCoins tx c (mkTxUndo []) h = Ok (u, c') ->
  cache_inv c' /\ view_wf (cache_abs c') /\ cache_abs c' ≡ with_rest (cache_abs c) (cache_abs c')
  /\ forall fA fS blockUndo (d : dstate) r, undo_recorded k u blockUndo ->
       cache_inv (dc_view d) -> cache_abs (dc_view d) ≡ with_rest r (cache_abs c') ->
       exists d' : dstate, disconnect_tx fA fS h blockUndo k tx d = Ok (inr d')
         /\ cache_inv (dc_view d') /\ dc_fClean d' = dc_fClean d
         /\ cache_abs (dc_view d') ≡ with_rest r (cache_abs c).
Proof.
  intros Hi Hw Hcn Hcb E. unfold UpdateCoins in E. cbn [vprevout] in E.
  destruct (if negb (IsCoinBase tx) then _ else _) as [[us c1]| |] eqn:E1 in E; [|done..]. cbn in E.
  destruct (spends_roundtrip tx k h c us c1 Hi Hw Hcn Hcb E1) as (Hi1 & Hw1 & Hcn1 & Hsame & Hback).
  destruct (outputs_roundtrip tx h c1 Hi1 Hcn1) as (c2 & E2 & Hi2 & Ha2 & Hout).
  rewrite E2 in E. injection E as <- <-. split; [done|]. split_and!.
  { intros t coin. cbn [snd]. rewrite (eqv_coins _ _ Ha2). cbn [a_coins abs_set_coins abs_set_null].
    destruct (decide (tx_hash tx = t)); [|by apply Hw1]. intros [[= <-] _]%norm_Some_inv.
    apply FromTx_wf; [apply Hcn|apply Hcn]. }
  { cbn [snd]. apply (with_rest_trans _ (cache_abs c1)); [|by apply with_rest_same].
    rewrite Ha2. split; done. }
  intros fA fS b d r Hu Hd Ha. unfold disconnect_tx.
  set (d0 := if fA then _ else _). assert (dc_view d0 = dc_view d /\ dc_fClean d0 = dc_fClean d) as [Ev Ef].
  { subst d0. destruct fA; [apply unindex_outputs_view|done]. }
  rewrite Ev. destruct (Hout (dc_view d) r Hd Ha) as (c3 & -> & Hi3 & Ha3). mstep. rewrite Ef, andb_true_r.
  exact (Hback fA fS b (mkDisc (dc_fClean d) (Cache_SetNullifiers tx false c3) (dc_addressIndex d0)
    (dc_addressUnspentIndex d0) (dc_spentIndex d0)) r Hu Hi3 Ha3).
Qed.

(** Ids that are not in the view and not the transaction's stay out of it. *)
Lemma UpdateCoins_absent (tx : CTransaction) h c u c' : cache_inv c -> view_wf (cache_abs c) -> connectable (cache_abs c) tx h ->
  UpdateCoins tx c (mkTxUndo []) h = Ok (u, c') ->
  forall t, t <> tx_hash tx -> a_coins (cache_abs c) t = None -> a_coins (cache_abs c') t = None.
Proof.
  intros Hi Hw Hcn E t Hne Ht. unfold UpdateCoins in E. cbn [vprevout] in E.
  destruct (if negb (IsCoinBase tx) then _ else _) as [[us c1]| |] eqn:E1 in E; [|done..]. cbn in E.
  assert (cache_inv c1 /\ a_coins (cache_abs c1) t = None) as [Hi1 Ht1].
  { destruct (IsCoinBase tx) eqn:Hcb; cbn in E1; [by injection E1 as <- <-|].
    destruct (inputs_roundtrip (vin tx) c [] us c1 Hi Hw (cn_inputs _ _ _ Hcn Hcb) E1) as (? & _ & _ & ? & _ & Hnone & _).
    split; [done|by apply Hnone]. }
  destruct (SetNullifiers_refines tx true c1 Hi1) as [Hi2 Ha2].
  destruct (ModifyCoins_refines (tx_hash tx) (fun _ => Ok (tt, CCoins_FromTx tx h)) _ Hi2) as (_ & _ & c2 & E2 & _ & Ha').
  rewrite E2 in E. injection E as _ <-. cbn [snd]. rewrite (eqv_coins _ _ Ha'). cbn [a_coins abs_set_coins].
  rewrite decide_False by done. by rewrite (eqv_coins _ _ Ha2).
Qed.

(** The loop of [ConnectBlock] over the transactions of a block, from index
    [k]: before a transaction the view is only read, the transaction is
    connectable where it stands (the checks of that loop), and [UpdateCoins]
    is called with an empty undo record. *)
Inductive txs_connected (h : Z) : nat -> cache -> list CTransaction -> list CTxUndo -> cache -> Prop :=
| txs_nil k c : txs_connected h k c [] [] c
| txs_cons k c c0 tx u c1 txs us c2 :
    read_ok c c0 -> connectable (cache_abs c0) tx h -> IsCoinBase tx = bool_decide (k = 0%nat) ->
    UpdateCoins tx c0 (mkTxUndo []) h = Ok (u, c1) ->
    txs_connected h (S k) c1 txs us c2 ->
    txs_connected h k c (tx :: txs) (u :: us) c2.

(** The undo data is determined by what the view shows. *)
Lemma spend_inputs_det ins : forall (c d : cache) vp vc (c' : cache) vd (d' : cache), cache_inv c -> cache_inv d -> cache_abs c ≡ cache_abs d ->
  Forall (fun i => 0 <= out_n (prevout i) < 2 ^ 32 - 1) ins ->
  foldM spend_input ins (vp, c) = Ok (vc, c') -> foldM spend_input ins (vp, d) = Ok (vd, d') ->
  vc = vd /\ cache_inv c' /\ cache_inv d' /\ cache_abs c' ≡ cache_abs d'.
Proof.
  induction ins as [|i ins IH]; intros c d vp vc c' vd d' Hc Hd Ha HF Ec Ed; cbn [foldM] in Ec, Ed.
  - injection Ec as <- <-. injection Ed as <- <-. done.
  - apply Forall_cons in HF as [Hn HF]. apply bind_Ok in Ec as ([v1 c1] & Ec1 & Ec). apply bind_Ok in Ed as ([v2 d1] & Ed1 & Ed).
    apply spend_input_ok in Ec1 as (coin & o & Hco & Hu & -> & Hc1 & Hac); [|done|lia]. apply spend_input_ok in Ed1 as (coin' & o' & Hco' & Hu' & -> & Hd1 & Had); [|done|lia].
    rewrite (eqv_coins _ _ Ha), Hco' in Hco. injection Hco as ->. rewrite Hu in Hu'. injection Hu' as <-.
    eapply IH; [exact Hc1|exact Hd1| |done|exact Ec|exact Ed]. by rewrite Hac, Had, Ha.
Qed.
Lemma UpdateCoins_det (tx : CTransaction) h (c d : cache) uc (c' : cache) ud (d' : cache) : cache_inv c -> cache_inv d -> cache_abs c ≡ cache_abs d -> connectable (cache_abs c) tx h ->
  UpdateCoins tx c (mkTxUndo []) h = Ok (uc, c') -> UpdateCoins tx d (mkTxUndo []) h = Ok (ud, d') ->
  uc = ud /\ cache_inv c' /\ cache_inv d' /\ cache_abs c' ≡ cache_abs d'.
Proof.
  intros Hc Hd Ha Hcn Ec Ed. unfold UpdateCoins in Ec, Ed. cbn [vprevout] in Ec, Ed.
  apply bind_Ok in Ec as ([us c1] & Ec1 & Ec). apply bind_Ok in Ed as ([vs d1] & Ed1 & Ed).
  assert (us = vs /\ cache_inv c1 /\ cache_inv d1 /\ cache_abs c1 ≡ cache_abs d1) as (-> & Hc1 & Hd1 & Ha1).
  { destruct (IsCoinBase tx) eqn:Hcb; cbn [negb] in Ec1, Ed1; [injection Ec1 as <- <-; injection Ed1 as <- <-; done|].
    eapply spend_inputs_det; [exact Hc|exact Hd|exact Ha|by apply Hcn|exact Ec1|exact Ed1]. }
  destruct (SetNullifiers_refines tx true c1 Hc1) as [Hc2 Hac2], (SetNullifiers_refines tx true d1 Hd1) as [Hd2 Had2].
  destruct (ModifyCoins_refines (tx_hash tx) (fun _ => Ok (tt, CCoins_FromTx tx h)) _ Hc2) as (_ & _ & c3 & E3 & Hc3 & Hac3).
  destruct (ModifyCoins_refines (tx_hash tx) (fun _ => Ok (tt, CCoins_FromTx tx h)) _ Hd2) as (_ & _ & d3 & F3 & Hd3 & Had3).
  cbn [fst snd] in Ec, Ed. rewrite E3 in Ec. rewrite F3 in Ed. injection Ec as <- <-. injection Ed as <- <-. split; [done|]. split; [done|]. split; [done|].
  by rewrite Hac3, Had3, Hac2, Had2, Ha1.
Qed.
Lemma connectable_equiv a b (tx : CTransaction) h : a ≡ b -> connectable b tx h -> connectable a tx h.
Proof.
  intros Ha [Hn Hp Hq Hi Ho Hh]. split; try done; [by rewrite (eqv_coins _ _ Ha)| |]; (eapply Forall_impl; [eassumption|]); intros nf; cbv beta; by rewrite (eqv_null _ _ Ha).
Qed.
Lemma txs_connected_det h k c txs us c' : txs_connected h k c txs us c' -> forall (d : cache) vs (d' : cache), cache_inv c -> cache_inv d -> cache_abs c ≡ cache_abs d ->
  txs_connected h k d txs vs d' -> us = vs /\ cache_abs c' ≡ cache_abs d'.
Proof.
  induction 1 as [k c|k c c0 tx u c1 txs us c2 Hr Hcn Hcb E _ IH]; intros d vs d' Hc Hd Ha T; inversion T as [|? ? d0 ? v d1 ? vs' ? Hr' Hcn' _ E' T']; subst; [done|].
  destruct (read_ok_stable _ _ Hc Hr) as (Hc0 & Ha0 & _), (read_ok_stable _ _ Hd Hr') as (Hd0 & Hb0 & _).
  destruct (UpdateCoins_det tx h c0 d0 u c1 v d1) as (-> & Hc1 & Hd1 & Ha1); [done..|by rewrite Ha0, Hb0, Ha|done|done|done|].
  destruct (IH _ _ _ Hc1 Hd1 Ha1 T') as [-> ?]. done.
Qed.

Lemma txs_connected_len h k c txs us c' : txs_connected h k c txs us c' -> length us = length txs.
Proof. induction 1; simpl; congruence. Qed.

Lemma disconnect_txs_app fA fS h b l1 l2 (d : dstate) :
  disconnect_txs fA fS h b (l1 ++ l2) d
  = (r ← disconnect_txs fA fS h b l1 d;
     match r with inl e => Ok (inl e) | inr d' => disconnect_txs fA fS h b l2 d' end).
Proof.
  revert d. induction l1 as [|[i tx] l1 IH]; intros d; [by cbn|]. cbn [app disconnect_txs].
  destruct (disconnect_tx fA fS h b i tx d) as [[e|d1]| |]; mstep; [done|apply IH|done|done].
Qed.

Lemma txs_roundtrip h k c txs us c' : txs_connected h k c txs us c' ->
  cache_inv c -> view_wf (cache_abs c) ->
  cache_inv c' /\ cache_abs c' ≡ with_rest (cache_abs c) (cache_abs c')
  /\ forall fA fS blockUndo (d : dstate) r,
       (forall j u, us !! j = Some u -> undo_recorded (k + j) u blockUndo) ->
       cache_inv (dc_view d) -> cache_abs (dc_view d) ≡ with_rest r (cache_abs c') ->
       exists d' : dstate,
         disconnect_txs fA fS h blockUndo (reverse (imap (fun j tx => ((k + j)%nat, tx)) txs)) d = Ok (inr d')
         /\ cache_inv (dc_view d') /\ dc_fClean d' = dc_fClean d
         /\ cache_abs (dc_view d') ≡ with_rest r (cache_abs c).
Proof.
  induction 1 as [k c|k c c0 tx u c1 txs us c2 Hrd Hcn Hcb E _ IH]; intros Hi Hw.
  - split_and!; [done|by destruct (cache_abs c)|]. intros fA fS b d r _ Hd Ha. by exists d.
  - destruct (read_ok_stable c c0 Hi Hrd) as (Hi0 & Ha0 & _).
    destruct (tx_roundtrip tx k h c0 u c1 Hi0 (view_wf_equiv _ _ Ha0 Hw) Hcn Hcb E) as (Hi1 & Hw1 & Hs1 & Hback1).
    destruct (IH Hi1 Hw1) as (Hi2 & Hs2 & Hback2). rewrite Ha0 in Hs1.
    split; [done|]. split; [by eapply with_rest_trans|].
    intros fA fS b d r Hu Hd Ha. cbn [imap]. rewrite reverse_cons, disconnect_txs_app.
    replace (imap _ txs) with (imap (fun j tx => ((S k + j)%nat, tx)) txs)
      by (apply imap_ext; intros j x _; simpl; f_equal; lia).
    destruct (Hback2 fA fS b d r) as (d1 & -> & Hd1 & Hf1 & Ha1); [|done..|].
    { intros j u' Hj. replace (S k + j)%nat with (k + S j)%nat by lia. by apply Hu. }
    mstep. cbn [disconnect_txs]. rewrite Nat.add_0_r.
    destruct (Hback1 fA fS b d1 r) as (d2 & -> & Hd2 & Hf2 & Ha2); [|done..|].
    { rewrite <- (Nat.add_0_r k). by apply Hu. }
    mstep. exists d2. rewrite Ha0 in Ha2. split_and!; [done|done|congruence|done].
Qed.

(** The view after the rest of [ConnectBlock]: the anchors of the block's
    trees, and the new best block. *)
Definition block_anchored (spt : SpT) (sat : SaT) (hash : uint256) (c : cache) : cache :=
  Cache_SetBestBlock hash (PushAnchor_Sapling sat (PushAnchor_Sprout spt c)).

Definition new_anchor (a : AbsView) (ty : ShieldedType) (empty rt : uint256) : Prop :=
  rt <> uint256_null /\ a_bestAnchor a ty <> uint256_null
  /\ a_anchor a ty (a_bestAnchor a ty) = true
  /\ (a_bestAnchor a ty = rt \/ (a_anchor a ty rt = false /\ rt <> empty)).

Lemma pop_pushed ty rt a : a_anchor a ty (a_bestAnchor a ty) = true ->
  a_anchor (push_anchor_abs ty rt a) ty (a_bestAnchor (push_anchor_abs ty rt a) ty) = true
  /\ a_bestAnchor (push_anchor_abs ty rt a) ty = rt.
Proof.
  intros H. unfold push_anchor_abs. destruct (decide (a_bestAnchor a ty = rt)) as [E|E]; [done|].
  cbn [a_anchor a_bestAnchor abs_set_anchor]. repeat case_decide; try done; tauto.
Qed.

Lemma block_anchored_ok spt sat hash c : cache_inv c -> hash <> uint256_null ->
  tree_root spt <> uint256_null -> tree_root sat <> uint256_null ->
  cache_inv (block_anchored spt sat hash c)
  /\ cache_abs (block_anchored spt sat hash c)
     ≡ abs_set_best hash (push_anchor_abs SAPLING (tree_root sat)
         (push_anchor_abs SPROUT (tree_root spt) (cache_abs c))).
Proof.
  intros Hi Hh Hsp Hsa. unfold block_anchored.
  destruct (PushAnchor_Sprout_refines spt c Hi Hsp) as [Hi1 Ha1].
  destruct (PushAnchor_Sapling_refines sat _ Hi1 Hsa) as [Hi2 Ha2].
  destruct (SetBestBlock_ok hash _ Hi2 Hh) as [Hi3 Ha3]. split; [done|].
  etrans; [exact Ha3|]. by rewrite Ha2, Ha1.
Qed.

Lemma with_rest_push r a ty rt : with_rest (push_anchor_abs ty rt r) a ≡ push_anchor_abs ty rt (with_rest r a).
Proof. unfold push_anchor_abs. cbn [a_bestAnchor with_rest]. by case_decide. Qed.

Lemma push_with_rest a ty rt : push_anchor_abs ty rt a ≡ with_rest (push_anchor_abs ty rt a) a.
Proof. unfold push_anchor_abs. by case_decide. Qed.

(** The view [DisconnectBlock] starts from, in terms of the coins after the
    block and in terms of the coins before it. *)
Lemma anchored_rest a0 a1 r1 r2 h : a1 ≡ with_rest a0 a1 ->
  let a2 := abs_set_best h (push_anchor_abs SAPLING r2 (push_anchor_abs SPROUT r1 a1)) in
  a2 ≡ with_rest a2 a1
  /\ with_rest a2 a0 ≡ abs_set_best h (push_anchor_abs SAPLING r2 (push_anchor_abs SPROUT r1 a0)).
Proof.
  intros H a2. split.
  - subst a2. unfold push_anchor_abs. by repeat case_decide.
  - change (with_rest a2 a0) with
      (abs_set_best h (with_rest (push_anchor_abs SAPLING r2 (push_anchor_abs SPROUT r1 a1)) a0)).
    rewrite !with_rest_push. rewrite H. by destruct a0.
Qed.

Lemma push_anchor_other ty ty' rt a : ty <> ty' ->
  (forall rt', a_anchor (push_anchor_abs ty' rt a) ty rt' = a_anchor a ty rt')
  /\ a_bestAnchor (push_anchor_abs ty' rt a) ty = a_bestAnchor a ty.
Proof.
  intros Hne. unfold push_anchor_abs. case_decide; [done|]. cbn [a_anchor a_bestAnchor abs_set_anchor].
  split; intros; rewrite decide_False; [done|tauto|done|done].
Qed.

Lemma new_anchor_pop a b ty empty rt : new_anchor a ty empty rt ->
  (forall rt', a_anchor b ty rt' = a_anchor (push_anchor_abs ty rt a) ty rt') ->
  a_bestAnchor b ty = a_bestAnchor (push_anchor_abs ty rt a) ty ->
  a_anchor b ty (a_bestAnchor b ty) = true
  /\ (a_bestAnchor a ty <> a_bestAnchor b ty -> a_bestAnchor b ty <> empty).
Proof.
  intros (_ & _ & Hk & Hor) Han Hbest. destruct (pop_pushed ty rt a Hk) as [Hk' Hb'].
  rewrite Han, Hbest. split; [done|]. rewrite Hb'. intros Hne. by destruct Hor as [|[_ ?]].
Qed.

Lemma unanchor_ok a (spt : SpT) (sat : SaT) h pprev c :
  new_anchor a SPROUT (tree_empty_root (T := SpT)) (tree_root spt) ->
  new_anchor a SAPLING (tree_empty_root (T := SaT)) (tree_root sat) ->
  bi_hash pprev = a_best a /\ bi_hash pprev <> uint256_null -> cache_inv c ->
  cache_abs c ≡ abs_set_best h (push_anchor_abs SAPLING (tree_root sat) (push_anchor_abs SPROUT (tree_root spt) a)) ->
  exists c1 c2, Cache_PopAnchor (a_bestAnchor a SPROUT) SPROUT c = Ok c1
    /\ Cache_PopAnchor (a_bestAnchor a SAPLING) SAPLING c1 = Ok c2
    /\ cache_inv (Cache_SetBestBlock (bi_hash pprev) c2)
    /\ cache_abs (Cache_SetBestBlock (bi_hash pprev) c2) ≡ a.
Proof.
  intros Hsp Hsa [Hpp Hpn] Hi Ha.
  destruct (new_anchor_pop a (cache_abs c) SPROUT _ _ Hsp) as [Hk1 Hn1].
  { intros rt. rewrite (eqv_anchor _ _ Ha). cbn [abs_set_best a_anchor]. apply push_anchor_other. done. }
  { rewrite (eqv_bestAnchor _ _ Ha). cbn [abs_set_best a_bestAnchor]. by apply push_anchor_other. }
  destruct (PopAnchor_refines (a_bestAnchor a SPROUT) SPROUT c Hi) as (c1 & E1 & Hi1 & Ha1);
    [apply Hsp|done|done|].
  rewrite Ha, pop_set_best, pop_push_comm, pop_push_anchor in Ha1 by (done || by destruct Hsp as (_ & _ & _ & [|[]]); auto).
  destruct (new_anchor_pop a (cache_abs c1) SAPLING _ _ Hsa) as [Hk2 Hn2].
  { intros rt. by rewrite (eqv_anchor _ _ Ha1). }
  { by rewrite (eqv_bestAnchor _ _ Ha1). }
  destruct (PopAnchor_refines (a_bestAnchor a SAPLING) SAPLING c1 Hi1) as (c2 & E2 & Hi2 & Ha2);
    [apply Hsa|done|done|].
  rewrite Ha1, pop_set_best, pop_push_anchor in Ha2 by (destruct Hsa as (_ & _ & _ & [|[]]); auto).
  destruct (SetBestBlock_ok (bi_hash pprev) c2 Hi2 Hpn) as [Hi3 Ha3].
  exists c1, c2. split_and!; [done..|]. etrans; [exact Ha3|]. rewrite Ha2, Hpp. by destruct a.
Qed.

(** What [DisconnectBlock] does to the block that was connected last, on any
    view that shows what connecting it left. *)
Lemma disconnect_shown h (c0 c1 c2 : cache) vtx us (spt : SpT) (sat : SaT) pindex pprev
  (fA fS : bool) (active : Z -> bool) (pfClean : bool)
  (Hi : cache_inv c0) (Hw : view_wf (cache_abs c0))
  (Htxs : txs_connected h 0 c0 vtx us c1) (Hne : vtx <> [])
  (Hsp : new_anchor (cache_abs c0) SPROUT (tree_empty_root (T := SpT)) (tree_root spt))
  (Hsa : new_anchor (cache_abs c0) SAPLING (tree_empty_root (T := SaT)) (tree_root sat))
  (Hpi : bi_hash pindex <> uint256_null /\ bi_has_undo pindex = true)
  (Hpp : bi_hash pprev = a_best (cache_abs c0) /\ bi_hash pprev <> uint256_null)
  (Hsr : (if active (bi_nHeight pprev) then bi_hashFinalSaplingRoot pprev else tree_empty_root (T := SaT))
         = a_bestAnchor (cache_abs c0) SAPLING)
  (Hi2 : cache_inv c2)
  (Hc2 : cache_abs c2 ≡ cache_abs (block_anchored spt sat (bi_hash pindex) c1)) :
  exists out : @DisconnectOutcome SpT SaT V, DisconnectBlock fA fS h vtx pindex pprev
      (Some (mkBlockUndo (tail us) (a_bestAnchor (cache_abs c0) SPROUT))) active true true pfClean c2 = Ok out
    /\ do_ret out = true /\ do_pfClean out = (if pfClean then Some true else None)
    /\ cache_inv (do_view out) /\ cache_abs (do_view out) ≡ cache_abs c0.
Proof.
  destruct (txs_roundtrip h 0 c0 vtx us c1 Htxs Hi Hw) as (Hi1 & Hrest & Hback).
  destruct (block_anchored_ok spt sat (bi_hash pindex) c1 Hi1) as [_ Ha2]; [by apply Hpi|apply Hsp|apply Hsa|].
  rewrite <- Hc2 in Ha2.
  unfold DisconnectBlock. destruct (GetBestBlock_ok _ (proj1 Hi2)) as [Hr Hb].
  destruct (Cache_GetBestBlock _) as [best v0]. cbn [fst snd] in Hr, Hb.
  destruct (read_ok_stable _ _ Hi2 Hr) as (Hi3 & Ha3 & _). rewrite Ha2 in Ha3.
  rewrite (eqv_best _ _ Ha2) in Hb. cbn [a_best abs_set_best] in Hb. subst best.
  rewrite bool_decide_true by done. mstep. rewrite (proj2 Hpi). cbn [negb vtxundo old_sprout_tree_root].
  pose proof (txs_connected_len _ _ _ _ _ _ Htxs) as Hlen.
  assert ((length (tail us) + 1 =? length vtx)%nat = true) as ->.
  { apply Nat.eqb_eq. destruct vtx, us; simpl in *; try done; lia. }
  cbn [negb].
  destruct (anchored_rest (cache_abs c0) (cache_abs c1) (tree_root spt) (tree_root sat) (bi_hash pindex) Hrest)
    as [Hx1 Hx2].
  edestruct (Hback fA fS (mkBlockUndo (tail us) (a_bestAnchor (cache_abs c0) SPROUT)) (mkDisc true v0 [] [] []))
    as (d & E & Hid & Hcl & Had); [|done|by etrans; [exact Ha3|exact Hx1]|].
  { intros [|j] u Hj; [done|]. cbn. by destruct us. }
  rewrite Hx2 in Had. change (imap (fun j tx => ((0 + j)%nat, tx)) vtx) with (imap pair vtx) in E.
  rewrite E. mstep. cbn [dc_fClean] in Hcl.
  destruct (unanchor_ok (cache_abs c0) spt sat (bi_hash pindex) pprev (dc_view d)) as (v1 & v2 & E1 & E2 & Hi4 & Ha4);
    [done..|].
  rewrite E1. mstep. rewrite Hsr, E2. mstep. rewrite Hcl.
  destruct pfClean, fA; (eexists; split; [done|]; done).
Qed.

Lemma disconnect_connected h (c0 c1 : cache) vtx us (spt : SpT) (sat : SaT) pindex pprev
  (fA fS : bool) (active : Z -> bool) (pfClean : bool)
  (Hi : cache_inv c0) (Hw : view_wf (cache_abs c0))
  (Htxs : txs_connected h 0 c0 vtx us c1) (Hne : vtx <> [])
  (Hsp : new_anchor (cache_abs c0) SPROUT (tree_empty_root (T := SpT)) (tree_root spt))
  (Hsa : new_anchor (cache_abs c0) SAPLING (tree_empty_root (T := SaT)) (tree_root sat))
  (Hpi : bi_hash pindex <> uint256_null /\ bi_has_undo pindex = true)
  (Hpp : bi_hash pprev = a_best (cache_abs c0) /\ bi_hash pprev <> uint256_null)
  (Hsr : (if active (bi_nHeight pprev) then bi_hashFinalSaplingRoot pprev else tree_empty_root (T := SaT))
         = a_bestAnchor (cache_abs c0) SAPLING) :
  exists out : @DisconnectOutcome SpT SaT V, DisconnectBlock fA fS h vtx pindex pprev
      (Some (mkBlockUndo (tail us) (a_bestAnchor (cache_abs c0) SPROUT))) active true true pfClean
      (block_anchored spt sat (bi_hash pindex) c1) = Ok out
    /\ do_ret out = true /\ do_pfClean out = (if pfClean then Some true else None)
    /\ cache_inv (do_view out) /\ cache_abs (do_view out) ≡ cache_abs c0.
Proof.
  destruct (txs_roundtrip h 0 c0 vtx us c1 Htxs Hi Hw) as (Hi1 & _).
  destruct (block_anchored_ok spt sat (bi_hash pindex) c1 Hi1) as [Hi2 _]; [by apply Hpi|apply Hsp|apply Hsa|].
  by apply (disconnect_shown h c0 c1 _ vtx us spt sat).
Qed.

(** (C1) Disconnecting the block just connected restores the chain state.
    Let every transaction of a block be connectable where it stands, and let
    the view be the one [ConnectBlock] leaves: [UpdateCoins] for every
    transaction, the anchors of the block's note commitment trees pushed, the
    block the best block.  [DisconnectBlock] with the undo data of those calls
    then succeeds, reports a clean disconnect, and leaves a view with the
    coins, nullifiers, anchors, best anchors and best block of before. *)
Theorem DisconnectBlock_restores h (c0 c1 : cache) vtx us (spt : SpT) (sat : SaT) pindex pprev
  (fA fS : bool) (active : Z -> bool) (pfClean : bool)
  (Hi : cache_inv c0) (Hw : view_wf (cache_abs c0))
  (Htxs : txs_connected h 0 c0 vtx us c1) (Hne : vtx <> [])
  (Hsp : new_anchor (cache_abs c0) SPROUT (tree_empty_root (T := SpT)) (tree_root spt))
  (Hsa : new_anchor (cache_abs c0) SAPLING (tree_empty_root (T := SaT)) (tree_root sat))
  (Hpi : bi_hash pindex <> uint256_null /\ bi_has_undo pindex = true)
  (Hpp : bi_hash pprev = a_best (cache_abs c0) /\ bi_hash pprev <> uint256_null)
  (Hsr : (if active (bi_nHeight pprev) then bi_hashFinalSaplingRoot pprev else tree_empty_root (T := SaT))
         = a_bestAnchor (cache_abs c0) SAPLING) :
  exists out : @DisconnectOutcome SpT SaT V, DisconnectBlock fA fS h vtx pindex pprev
      (Some (mkBlockUndo (tail us) (a_bestAnchor (cache_abs c0) SPROUT))) active true true pfClean
      (block_anchored spt sat (bi_hash pindex) c1) = Ok out
    /\ do_ret out = true /\ do_pfClean out = (if pfClean then Some true else None)
    /\ cache_inv (do_view out) /\ cache_abs (do_view out) ≡ cache_abs c0.
Proof. by eapply disconnect_connected. Qed.

End UpdateLaws.
