(* ===== verification/CoinsDB.v ===== *)
(** * The database view

    txdb.cpp, class [CCoinsViewDB]: the coins view kept in LevelDB.  The
    database is modelled by one finite map per key prefix (keys of different
    prefixes differ); a batch is applied in order and atomically, as LevelDB
    documents, and reads return the value last written.  History nodes are
    written under 8-byte indices ([HistoryIndex]); the erase loop of
    [BatchWriteHistory] builds keys from a 4-byte [int], which live in a key
    space of their own. *)
From S2P Require Import Prelude Transaction Coins History CoinsView CoinsLaws CoinsCache.
From stdpp Require Import prelude gmap strings list.
#[local] Open Scope Z_scope.

Record CCoinsViewDB (SpT SaT : Type) := mkDB {
  db_coins : gmap uint256 CCoins;                       (* DB_COINS *)
  db_sprout_anchor : gmap uint256 SpT;                  (* DB_SPROUT_ANCHOR *)
  db_sapling_anchor : gmap uint256 SaT;                 (* DB_SAPLING_ANCHOR *)
  db_nullifier : gmap uint256 bool;                     (* DB_NULLIFIER *)
  db_sapling_nullifier : gmap uint256 bool;             (* DB_SAPLING_NULLIFIER *)
  db_best_block : option uint256;                       (* DB_BEST_BLOCK *)
  db_best_sprout : option uint256;                      (* DB_BEST_SPROUT_ANCHOR *)
  db_best_sapling : option uint256;                     (* DB_BEST_SAPLING_ANCHOR *)
  db_mmr_length : gmap Z Z;                             (* DB_MMR_LENGTH *)
  db_mmr_root : gmap Z uint256;                         (* DB_MMR_ROOT *)
  db_mmr_node : gmap Z (gmap Z HistoryNode);            (* DB_MMR_NODE, 8-byte index *)
  db_mmr_node32 : gmap Z (gmap Z HistoryNode)           (* DB_MMR_NODE, 4-byte index *)
}.
Arguments mkDB {SpT SaT}.
Arguments db_coins {SpT SaT}.
Arguments db_sprout_anchor {SpT SaT}.
Arguments db_sapling_anchor {SpT SaT}.
Arguments db_nullifier {SpT SaT}.
Arguments db_sapling_nullifier {SpT SaT}.
Arguments db_best_block {SpT SaT}.
Arguments db_best_sprout {SpT SaT}.
Arguments db_best_sapling {SpT SaT}.
Arguments db_mmr_length {SpT SaT}.
Arguments db_mmr_root {SpT SaT}.
Arguments db_mmr_node {SpT SaT}.
Arguments db_mmr_node32 {SpT SaT}.

Section DB.
Context {SpT SaT : Type} `{!MerkleTree SpT, !MerkleTree SaT}.
Local Abbreviation db_t := (CCoinsViewDB SpT SaT).
Implicit Types d : db_t.

Definition DB_GetAnchorAt {T} `{MerkleTree T} (table : gmap uint256 T) (rt : uint256) : option T :=
  if decide (rt = tree_empty_root (T := T)) then Some tree_new else table !! rt.

Definition DB_nullifiers (ty : ShieldedType) (d : db_t) : gmap uint256 bool :=
  match ty with SPROUT => db_nullifier d | SAPLING => db_sapling_nullifier d end.

(** [db.Read] of a stored flag succeeds when the key is present. *)
Definition DB_GetNullifier (nf : uint256) (ty : ShieldedType) (d : db_t) : bool :=
  bool_decide (is_Some (DB_nullifiers ty d !! nf)).

Definition DB_GetBestBlock (d : db_t) : uint256 := default uint256_null (db_best_block d).

Definition DB_GetBestAnchor (ty : ShieldedType) (d : db_t) : uint256 :=
  match ty with
  | SPROUT => default (tree_empty_root (T := SpT)) (db_best_sprout d)
  | SAPLING => default (tree_empty_root (T := SaT)) (db_best_sapling d)
  end.

Definition DB_GetHistoryLength (epochId : Z) (d : db_t) : Z := default 0 (db_mmr_length d !! epochId).
Definition DB_GetHistoryRoot (epochId : Z) (d : db_t) : uint256 :=
  default uint256_null (db_mmr_root d !! epochId).

Definition DB_node (epochId index : Z) (d : db_t) : option HistoryNode :=
  t ← db_mmr_node d !! epochId; t !! index.

Definition DB_GetHistoryAt (epochId index : Z) (d : db_t) : result HistoryNode :=
  if DB_GetHistoryLength epochId d <=? index
  then Throw "History data inconsistent - reindex?"
  else match DB_node epochId index d with
       | None => Throw "History data inconsistent (expected node not found) - reindex?"
       | Some n => Ok n
       end.

(** ** Batches *)

Definition db_coins_step (m : gmap uint256 CCoins) (p : uint256 * CCoinsCacheEntry) : gmap uint256 CCoins :=
  let '(t, e) := p in
  if ce_DIRTY e then
    if CCoins_IsPruned (ce_coins e) then delete t m else <[t := ce_coins e]> m
  else m.

Definition db_nullifiers_step (m : gmap uint256 bool) (p : uint256 * CNullifiersCacheEntry) : gmap uint256 bool :=
  let '(nf, e) := p in
  if ne_DIRTY e then
    if negb (ne_entered e) then delete nf m else <[nf := true]> m
  else m.

Definition db_anchors_step {T} `{MerkleTree T} (m : gmap uint256 T) (p : uint256 * CAnchorsCacheEntry T) :
  gmap uint256 T :=
  let '(rt, e) := p in
  if ae_DIRTY e then
    if negb (ae_entered e) then delete rt m
    else if decide (rt = tree_empty_root (T := T)) then m else <[rt := ae_tree e]> m
  else m.

(** [for (int i = updateDepth + 1; i <= length; i++) batch.Erase(...)]. *)
Fixpoint erase_up (n : nat) (i : Z) (m : gmap Z HistoryNode) : gmap Z HistoryNode :=
  match n with
  | O => m
  | S n' => erase_up n' (i + 1) (delete i m)
  end.

Definition db_node32_step (m : gmap Z (gmap Z HistoryNode)) (p : Z * HistoryCache) :
  gmap Z (gmap Z HistoryNode) :=
  let '(epochId, hc) := p in
  let i0 := i32 (hc_updateDepth hc + 1) in
  <[epochId := erase_up (Z.to_nat (hc_length hc - i0 + 1)) i0 (default ∅ (m !! epochId))]> m.

Definition db_node_step (m : gmap Z (gmap Z HistoryNode)) (p : Z * HistoryCache) :
  gmap Z (gmap Z HistoryNode) :=
  let '(epochId, hc) := p in
  <[epochId := foldl (fun t kn => <[kn.1 := kn.2]> t) (default ∅ (m !! epochId))
                 (map_to_list (hc_appends hc))]> m.

Definition db_length_step (m : gmap Z Z) (p : Z * HistoryCache) : gmap Z Z :=
  <[p.1 := hc_length p.2]> m.
Definition db_root_step (m : gmap Z uint256) (p : Z * HistoryCache) : gmap Z uint256 :=
  <[p.1 := hc_root p.2]> m.

Definition write_unless_null (h : uint256) (o : option uint256) : option uint256 :=
  if uint256_IsNull h then o else Some h.

Definition DB_BatchWrite (b : CacheMaps SpT SaT) (d : db_t) : db_t :=
  let hist := map_to_list (historyCacheMap b) in
  mkDB
    (foldl db_coins_step (db_coins d) (map_to_list (cacheCoins b)))
    (foldl db_anchors_step (db_sprout_anchor d) (map_to_list (cacheSproutAnchors b)))
    (foldl db_anchors_step (db_sapling_anchor d) (map_to_list (cacheSaplingAnchors b)))
    (foldl db_nullifiers_step (db_nullifier d) (map_to_list (cacheSproutNullifiers b)))
    (foldl db_nullifiers_step (db_sapling_nullifier d) (map_to_list (cacheSaplingNullifiers b)))
    (write_unless_null (hashBlock b) (db_best_block d))
    (write_unless_null (hashSproutAnchor b) (db_best_sprout d))
    (write_unless_null (hashSaplingAnchor b) (db_best_sapling d))
    (foldl db_length_step (db_mmr_length d) hist)
    (foldl db_root_step (db_mmr_root d) hist)
    (foldl db_node_step (db_mmr_node d) hist)
    (foldl db_node32_step (db_mmr_node32 d) hist).

#[global] Instance CCoinsViewDB_view : CCoinsView SpT SaT db_t := {|
  GetSproutAnchorAt rt d := (DB_GetAnchorAt (db_sprout_anchor d) rt, d);
  GetSaplingAnchorAt rt d := (DB_GetAnchorAt (db_sapling_anchor d) rt, d);
  GetNullifier nf ty d := (DB_GetNullifier nf ty d, d);
  GetCoins txid d := (db_coins d !! txid, d);
  HaveCoins txid d := (bool_decide (is_Some (db_coins d !! txid)), d);
  GetBestBlock d := (DB_GetBestBlock d, d);
  GetBestAnchor ty d := (DB_GetBestAnchor ty d, d);
  GetHistoryLength e d := (DB_GetHistoryLength e d, d);
  GetHistoryAt e i d := n ← DB_GetHistoryAt e i d; Ok (n, d);
  GetHistoryRoot e d := (DB_GetHistoryRoot e d, d);
  BatchWrite b d := Ok (true, DB_BatchWrite b d)
|}.

(** The constructor's empty database. *)
Definition DB_empty : db_t := mkDB ∅ ∅ ∅ ∅ ∅ None None None ∅ ∅ ∅ ∅.
End DB.

(** ** Laws *)

Class MerkleTreeLaws (T : Type) `{MerkleTree T} := {
  tree_root_new : tree_root (tree_new (T := T)) = tree_empty_root (T := T)
}.

Section DBLaws.
Context {SpT SaT : Type} `{!MerkleTree SpT, !MerkleTree SaT}.
Context `{!MerkleTreeLaws SpT, !MerkleTreeLaws SaT}.
Local Abbreviation db_t := (CCoinsViewDB SpT SaT).
Implicit Types (d : db_t) (b : CacheMaps SpT SaT).

Record db_inv (d : db_t) : Prop := {
  di_coins : forall t c, db_coins d !! t = Some c -> CCoins_IsPruned c = false;
  di_sprout : forall rt tree, db_sprout_anchor d !! rt = Some tree -> tree_root tree = rt;
  di_sapling : forall rt tree, db_sapling_anchor d !! rt = Some tree -> tree_root tree = rt;
  di_hlen : forall e, 0 <= DB_GetHistoryLength e d < 2 ^ 63;
  di_node : forall e i, 0 <= i < DB_GetHistoryLength e d -> is_Some (DB_node e i d)
}.

Definition db_abs (d : db_t) : AbsView := mkAbs
  (fun t => db_coins d !! t)
  (fun ty nf => DB_GetNullifier nf ty d)
  (fun ty rt => match ty with
                | SPROUT => bool_decide (is_Some (DB_GetAnchorAt (db_sprout_anchor d) rt))
                | SAPLING => bool_decide (is_Some (DB_GetAnchorAt (db_sapling_anchor d) rt))
                end)
  (DB_GetBestBlock d) (fun ty => DB_GetBestAnchor ty d)
  (fun e => DB_GetHistoryLength e d) (fun e => DB_GetHistoryRoot e d)
  (fun e i => DB_node e i d).

Lemma db_inv_empty : db_inv DB_empty.
Proof.
  split; simpl.
  - intros t c. by rewrite lookup_empty.
  - intros t c. by rewrite lookup_empty.
  - intros t c. by rewrite lookup_empty.
  - intros e. unfold DB_GetHistoryLength. simpl. rewrite lookup_empty. simpl. lia.
  - intros e i. unfold DB_GetHistoryLength. simpl. rewrite lookup_empty. simpl. lia.
Qed.

Lemma DB_GetAnchorAt_root {T} `{MerkleTreeLaws T} (table : gmap uint256 T) rt tree :
  (forall rt tree, table !! rt = Some tree -> tree_root tree = rt) ->
  DB_GetAnchorAt table rt = Some tree -> tree_root tree = rt.
Proof.
  intros Ht. unfold DB_GetAnchorAt. case_decide as E; [|apply Ht].
  intros [= <-]. rewrite E. apply tree_root_new.
Qed.

(** ** The tables after a batch *)

Lemma db_coins_after b d t :
  db_coins (DB_BatchWrite b d) !! t =
    match cacheCoins b !! t with
    | Some e => if ce_DIRTY e then norm (Some (ce_coins e)) else db_coins d !! t
    | None => db_coins d !! t
    end.
Proof.
  simpl. rewrite (foldl_pointwise _ (fun o e => if ce_DIRTY e then norm (Some (ce_coins e)) else o)); [done|].
  intros m k e. simpl. destruct (ce_DIRTY e); [|done]. destruct (CCoins_IsPruned (ce_coins e)).
  - split; [apply lookup_delete_eq|]. intros. by rewrite lookup_delete_ne.
  - split; [apply lookup_insert_eq|]. intros. by rewrite lookup_insert_ne.
Qed.

Lemma db_nullifiers_after (m : gmap uint256 bool) (mb : gmap uint256 CNullifiersCacheEntry) nf :
  foldl db_nullifiers_step m (map_to_list mb) !! nf =
    match mb !! nf with
    | Some e => if ne_DIRTY e then if ne_entered e then Some true else None else m !! nf
    | None => m !! nf
    end.
Proof.
  rewrite (foldl_pointwise _ (fun o e => if ne_DIRTY e then if ne_entered e then Some true else None else o)); [done|].
  intros mm k e. simpl. destruct (ne_DIRTY e); [|done]. destruct (ne_entered e); simpl.
  - split; [apply lookup_insert_eq|]. intros. by rewrite lookup_insert_ne.
  - split; [apply lookup_delete_eq|]. intros. by rewrite lookup_delete_ne.
Qed.

Definition anchor_after {T} `{MerkleTree T} (rt : uint256) (o : option T) (e : CAnchorsCacheEntry T) : option T :=
  if ae_DIRTY e then
    if negb (ae_entered e) then None
    else if decide (rt = tree_empty_root (T := T)) then o else Some (ae_tree e)
  else o.

Lemma db_anchors_after {T} `{MerkleTree T} (m : gmap uint256 T) (mb : gmap uint256 (CAnchorsCacheEntry T)) rt :
  foldl db_anchors_step m (map_to_list mb) !! rt =
    match mb !! rt with Some e => anchor_after rt (m !! rt) e | None => m !! rt end.
Proof.
  rewrite (foldl_pointwise_key _ (fun k o e => anchor_after k o e)); [done|].
  intros mm k e. unfold anchor_after. simpl. destruct (ae_DIRTY e); [|done]. destruct (ae_entered e); simpl.
  - case_decide; [done|]. split; [apply lookup_insert_eq|]. intros. by rewrite lookup_insert_ne.
  - split; [apply lookup_delete_eq|]. intros. by rewrite lookup_delete_ne.
Qed.

(** Whether the database answers for a root, after a batch that never removes
    the empty root: the entry's flag. *)
Lemma db_anchor_known {T} `{MerkleTree T} (m : gmap uint256 T) mb rt :
  (forall rt e, mb !! rt = Some e ->
     (ae_DIRTY e = false -> ae_entered e = bool_decide (is_Some (DB_GetAnchorAt m rt)))
     /\ (rt = tree_empty_root (T := T) -> ae_entered e = true)) ->
  bool_decide (is_Some (DB_GetAnchorAt (foldl db_anchors_step m (map_to_list mb)) rt)) =
    match mb !! rt with
    | Some e => ae_entered e
    | None => bool_decide (is_Some (DB_GetAnchorAt m rt))
    end.
Proof.
  intros Hb. unfold DB_GetAnchorAt in *. rewrite db_anchors_after. unfold anchor_after.
  destruct (mb !! rt) as [e|] eqn:E; [|done].
  destruct (Hb rt e E) as [Hc He]. case_decide as Er.
  - rewrite He by done. done.
  - destruct (ae_DIRTY e); [|by rewrite Hc]. by destruct (ae_entered e).
Qed.

Lemma db_anchor_filed {T} `{MerkleTree T} (m : gmap uint256 T) mb rt tree :
  (forall rt tree, m !! rt = Some tree -> tree_root tree = rt) ->
  (forall rt e, mb !! rt = Some e -> tree_root (ae_tree e) = rt) ->
  foldl db_anchors_step m (map_to_list mb) !! rt = Some tree -> tree_root tree = rt.
Proof.
  intros Hm Hb. rewrite db_anchors_after. unfold anchor_after.
  destruct (mb !! rt) as [e|] eqn:E; [|apply Hm].
  repeat case_match; try apply Hm; try done. intros [= <-]. eauto.
Qed.

Lemma DB_node_after b d e i :
  DB_node e i (DB_BatchWrite b d) =
    match historyCacheMap b !! e with
    | Some hc => match hc_appends hc !! i with Some n => Some n | None => DB_node e i d end
    | None => DB_node e i d
    end.
Proof.
  unfold DB_node. simpl.
  rewrite (foldl_pointwise _ (fun o hc => Some (foldl (fun t kn => <[kn.1 := kn.2]> t) (default ∅ o)
                 (map_to_list (hc_appends hc))))).
  - destruct (historyCacheMap b !! e) as [hc|]; [|done]. simpl.
    rewrite (foldl_insert (fun n => n)). destruct (hc_appends hc !! i); [done|].
    by destruct (db_mmr_node d !! e).
  - intros mm k hc. simpl. split; [apply lookup_insert_eq|]. intros. by rewrite lookup_insert_ne.
Qed.

Lemma DB_history_after b d e :
  DB_GetHistoryLength e (DB_BatchWrite b d) =
    match historyCacheMap b !! e with Some hc => hc_length hc | None => DB_GetHistoryLength e d end
  /\ DB_GetHistoryRoot e (DB_BatchWrite b d) =
    match historyCacheMap b !! e with Some hc => hc_root hc | None => DB_GetHistoryRoot e d end.
Proof.
  unfold DB_GetHistoryLength, DB_GetHistoryRoot. simpl. unfold db_length_step, db_root_step.
  rewrite (foldl_insert hc_length), (foldl_insert hc_root). by destruct (historyCacheMap b !! e).
Qed.

(** ** The database is a lawful view *)

Lemma DB_BatchWrite_inv b d B : db_inv d -> batch_ok b (db_abs d) B -> db_inv (DB_BatchWrite b d).
Proof.
  intros Hd Hb. split.
  - intros t c. rewrite db_coins_after.
    destruct (cacheCoins b !! t) as [e|]; [destruct (ce_DIRTY e)|]; try apply (di_coins _ Hd).
    simpl. destruct (CCoins_IsPruned (ce_coins e)) eqn:Ep; [done|]. by intros [= <-].
  - intros rt tree. apply db_anchor_filed; [apply (di_sprout _ Hd)|].
    intros r e He. by destruct (bo_sprout _ _ _ Hb r e He).
  - intros rt tree. apply db_anchor_filed; [apply (di_sapling _ Hd)|].
    intros r e He. by destruct (bo_sapling _ _ _ Hb r e He).
  - intros e. rewrite (proj1 (DB_history_after b d e)).
    destruct (historyCacheMap b !! e) as [hc|] eqn:E; [|apply (di_hlen _ Hd)].
    destruct (bo_hist _ _ _ Hb e hc E) as (? & ? & ? & _). lia.
  - intros e i. rewrite (proj1 (DB_history_after b d e)), DB_node_after.
    destruct (historyCacheMap b !! e) as [hc|] eqn:E; [|apply (di_node _ Hd)]. intros Hi.
    destruct (bo_hist _ _ _ Hb e hc E) as (H1 & H2 & H3 & H4). simpl in H2.
    destruct (hc_appends hc !! i) as [n|] eqn:En; [done|].
    apply (di_node _ Hd). destruct (decide (hc_updateDepth hc <= i)); [|lia].
    assert (is_Some (hc_appends hc !! i)) as [? ?] by (apply H4; lia). congruence.
Qed.

Lemma DB_BatchWrite_abs b d B :
  db_inv d -> batch_ok b (db_abs d) B -> best_known b ->
  db_abs (DB_BatchWrite b d) ≡ overlay b (db_abs d).
Proof.
  intros Hd Hb (Hk1 & Hk2 & Hk3). split.
  - intros t. cbn [a_coins db_abs overlay]. rewrite db_coins_after.
    destruct (cacheCoins b !! t) as [e|] eqn:E; [|done].
    destruct (ce_DIRTY e) eqn:Ed; [done|]. by destruct (bo_coins _ _ _ Hb t e E) as [-> _].
  - intros ty nf. pose proof (bo_null _ _ _ Hb ty nf) as Hn.
    destruct ty; cbn in Hn |- *; unfold DB_GetNullifier in *; cbn in Hn |- *; rewrite db_nullifiers_after;
      (destruct (_ !! nf) as [e|]; [|done]); specialize (Hn e eq_refl);
      (destruct (ne_DIRTY e); [by destruct (ne_entered e)|by rewrite Hn]).
  - intros [] rt; cbn [a_anchor db_abs overlay]; apply db_anchor_known; intros r e He.
    + destruct (bo_sprout _ _ _ Hb r e He) as (_ & H1 & H2). auto.
    + destruct (bo_sapling _ _ _ Hb r e He) as (_ & H1 & H2). auto.
  - cbn. unfold DB_GetBestBlock. cbn. unfold write_unless_null. by destruct (uint256_IsNull (hashBlock b)).
  - intros []; cbn; unfold write_unless_null; [by destruct (uint256_IsNull (hashSproutAnchor b))
      | by destruct (uint256_IsNull (hashSaplingAnchor b))].
  - intros e. apply DB_history_after.
  - intros e. apply DB_history_after.
  - intros e i. cbn [a_hlen a_hat db_abs overlay]. rewrite (proj1 (DB_history_after b d e)), DB_node_after.
    destruct (historyCacheMap b !! e) as [hc|] eqn:E; [|done]. intros Hi.
    destruct (bo_hist _ _ _ Hb e hc E) as (H1 & H2 & H3 & H4). unfold hist_at.
    destruct (hc_updateDepth hc <=? i) eqn:Ed; zbool.
    + assert (is_Some (hc_appends hc !! i)) as [? ->] by (apply H4; lia). done.
    + destruct (hc_appends hc !! i) eqn:En; [|done].
      assert (is_Some (hc_appends hc !! i)) as Hs by eauto. apply H4 in Hs. lia.
Qed.

Lemma db_stable d : db_inv d -> stable db_inv db_abs (fun _ _ => True) d d.
Proof. done. Qed.

#[global] Instance CCoinsViewDB_reads : CCoinsViewReads SpT SaT db_t.
Proof.
  refine {| view_inv := db_inv; view_abs := db_abs; view_backed := fun _ _ => True |}.
  - intros d e Hd. apply (di_hlen _ Hd).
  - intros t d Hd. cbn. split_and!; [done| |done].
    destruct (db_coins d !! t) as [c|] eqn:E; [|done]. simpl. by rewrite (di_coins _ Hd t c E).
  - intros t d Hd. cbn. split; [done|]. intros Hn. case_bool_decide as Hb; [done|].
    destruct (db_coins d !! t); [|done]. by destruct Hb.
  - by intros nf ty d Hd.
  - intros rt d Hd. cbn. split; [done|].
    destruct (DB_GetAnchorAt (db_sprout_anchor d) rt) eqn:E; [|done]. split; [|done].
    apply DB_GetAnchorAt_root in E; [done|]. apply (di_sprout _ Hd).
  - intros rt d Hd. cbn. split; [done|].
    destruct (DB_GetAnchorAt (db_sapling_anchor d) rt) eqn:E; [|done]. split; [|done].
    apply DB_GetAnchorAt_root in E; [done|]. apply (di_sapling _ Hd).
  - by intros d Hd.
  - by intros ty d Hd.
  - by intros e d Hd.
  - by intros e d Hd.
  - intros e i d Hd Hi. cbn in Hi |- *. unfold DB_GetHistoryAt.
    destruct (DB_GetHistoryLength e d <=? i) eqn:El; [zbool; lia|].
    destruct (di_node _ Hd e i Hi) as [n Hn]. rewrite Hn. exists n, d. done.
Defined.

#[global] Instance CCoinsViewDB_laws : CCoinsViewLaws SpT SaT db_t.
Proof.
  refine {| laws_reads := CCoinsViewDB_reads |}. intros b d Hd Hb Hk. exists (DB_BatchWrite b d). split_and!; [done|..].
  - by eapply DB_BatchWrite_inv.
  - by eapply DB_BatchWrite_abs.
Defined.
End DBLaws.
