(* ===== verification/MerkleTree.v ===== *)
(** * Incremental Merkle trees

    zcash/IncrementalMerkleTree.{hpp,cpp} and the bit conversions of
    zcash/util.cpp.  The template parameters are a depth and a hash type; the
    two hash functions ([SHA256Compress::combine], and Pedersen hashing in
    librustzcash) are the class [HashType], about which nothing is assumed.
    The reference is [mroot]: the root of the perfect binary tree over a list
    of leaves, padded with the uncommitted leaf. *)
From S2P Require Import Prelude Transaction Coins History CoinsView CoinsLaws CoinsCache CoinsDB.
From stdpp Require Import prelude gmap strings list.
#[local] Open Scope Z_scope.

(** A hash type: a [uint256] with its own [combine]. *)
Class HashType (H : Type) := {
  combine : H -> H -> nat -> H;
  uncommitted : H;
  of_uint256 : uint256 -> H;
  to_uint256 : H -> uint256
}.

(** ** zcash/util.cpp *)

Definition convertIntToVectorLE (val_int : Z) : bytes :=
  (fun i => u8 (Z.shiftr val_int (Z.of_nat i * 8))) <$> seq 0 8.

Definition byte_bits (c : Z) : list bool :=
  (fun j => Z.odd (Z.shiftr c (7 - Z.of_nat j))) <$> seq 0 8.

Definition convertBytesVectorToVector (b : bytes) : list bool := b ≫= byte_bits.

Definition convertVectorToInt (v : list bool) : result Z :=
  if 64 <? Z.of_nat (length v) then Throw "boolean vector can't be larger than 64 bits"
  else Ok (foldl (fun acc (p : nat * bool) =>
             if p.2 then Z.lor acc (u64 (Z.shiftl 1 (Z.of_nat (length v) - 1 - Z.of_nat p.1))) else acc)
             0 (imap pair v)).

Record MerklePath := mkPath { authentication_path : list (list bool); mp_index : list bool }.

(** ** Trees and witnesses *)

Record IncrementalMerkleTree (Depth : nat) (H : Type) := mkTree {
  left : option H;
  right : option H;
  parents : list (option H)
}.
Arguments mkTree {Depth H}.
Arguments left {Depth H}.
Arguments right {Depth H}.
Arguments parents {Depth H}.

Section Tree.
Context {Depth : nat} {H : Type} `{HashType H}.
Local Abbreviation tree_t := (IncrementalMerkleTree Depth H).
Implicit Types (t : tree_t) (ps : list (option H)) (q : list H).

(** [EmptyMerkleRoots]: the array of [Depth + 1] roots, filled upwards. *)
Definition empty_roots_step (arr : list H) (d : nat) : list H :=
  let e := default uncommitted (arr !! (d - 1)%nat) in arr ++ [combine e e (d - 1)].
Definition EmptyMerkleRoots_new : list H := foldl empty_roots_step [uncommitted] (seq 1 Depth).

Definition empty_root (depth : nat) : result H :=
  match EmptyMerkleRoots_new !! depth with
  | Some h => Ok h
  | None => Throw "array::at"
  end.

(** [PathFiller::next]. *)
Definition PathFiller_next (depth : nat) (queue : list H) : result (H * list H) :=
  match queue with
  | h :: queue' => Ok (h, queue')
  | [] => h ← empty_root depth; Ok (h, [])
  end.

Definition tree_empty : tree_t := mkTree None None [].

Definition present {A} (o : option A) : bool := match o with Some _ => true | None => false end.

Definition wfcheck (t : tree_t) : result unit :=
  if Nat.leb Depth (length (parents t)) then Throw "tree has too many parents"
  else if match last (parents t) with Some None => true | _ => false end
  then Throw "tree has non-canonical representation of parent"
  else if negb (present (left t)) && present (right t)
  then Throw "tree has non-canonical representation; right should not exist"
  else if negb (present (left t)) && Nat.ltb 0 (length (parents t))
  then Throw "tree has non-canonical representation; parents should not be unempty"
  else Ok tt.

Definition tree_last (t : tree_t) : result H :=
  match right t, left t with
  | Some r, _ => Ok r
  | None, Some l => Ok l
  | None, None => Throw "tree has no cursor"
  end.

(** [1 << (i + 1)] is an [int]. *)
Definition size_loop (ret : Z) (ps : list (option H)) : Z :=
  foldl (fun ret (p : nat * option H) =>
           match p.2 with
           | Some _ => u64 (ret + u64 (i32 (Z.shiftl 1 (Z.of_nat p.1 + 1))))
           | None => ret
           end) ret (imap pair ps).

Definition tree_size (t : tree_t) : Z :=
  let ret := if present (left t) then 1 else 0 in
  let ret := if present (right t) then ret + 1 else ret in
  size_loop ret (parents t).

Definition is_complete (t : tree_t) (depth : nat) : bool :=
  match left t, right t with
  | Some _, Some _ =>
      if Z.of_nat (length (parents t)) =? u64 (Z.of_nat depth - 1)
      then forallb present (parents t)
      else false
  | _, _ => false
  end.

(** The [for] loop of [append] from index [i], [n] rounds left. *)
Fixpoint append_loop (n i : nat) (combined : H) (ps : list (option H)) : list (option H) :=
  match n with
  | O => ps
  | S n' =>
      match ps !! i with
      | Some (Some p) => append_loop n' (S i) (combine p combined (i + 1)) (<[i := None]> ps)
      | Some None => <[i := Some combined]> ps
      | None => ps ++ [Some combined]
      end
  end.

Definition tree_append_hash (obj : H) (t : tree_t) : result tree_t :=
  if is_complete t Depth then Throw "tree is full"
  else match left t, right t with
       | None, _ => Ok (mkTree (Some obj) (right t) (parents t))
       | Some _, None => Ok (mkTree (left t) (Some obj) (parents t))
       | Some l, Some r =>
           Ok (mkTree (Some obj) None (append_loop Depth 0 (combine l r 0) (parents t)))
       end.

Fixpoint next_depth_loop (ps : list (option H)) (d skip : nat) : nat :=
  match ps with
  | [] => d + skip
  | Some _ :: ps' => next_depth_loop ps' (S d) skip
  | None :: ps' =>
      match skip with
      | O => d
      | S skip' => next_depth_loop ps' (S d) skip'
      end
  end.

Definition next_depth (t : tree_t) (skip : nat) : nat :=
  match left t, right t, skip with
  | None, _, O => 0
  | None, None, S O => 0
  | None, None, S (S skip') => next_depth_loop (parents t) 1 skip'
  | None, Some _, S skip' => next_depth_loop (parents t) 1 skip'
  | Some _, None, O => 0
  | Some _, None, S skip' => next_depth_loop (parents t) 1 skip'
  | Some _, Some _, _ => next_depth_loop (parents t) 1 skip
  end.

(** The loop over [parents] of [root], then its [while] loop, [n] rounds. *)
Fixpoint root_parents (ps : list (option H)) (d : nat) (root : H) (q : list H) : result (nat * H * list H) :=
  match ps with
  | [] => Ok (d, root, q)
  | Some p :: ps' => root_parents ps' (S d) (combine p root d) q
  | None :: ps' =>
      r ← PathFiller_next d q;
      root_parents ps' (S d) (combine root r.1 d) r.2
  end.

Fixpoint root_fill (n d : nat) (root : H) (q : list H) : result H :=
  match n with
  | O => Ok root
  | S n' =>
      r ← PathFiller_next d q;
      root_fill n' (S d) (combine root r.1 d) r.2
  end.

(** [left ? *left : filler.next(0)]. *)
Definition leaf_or_next (o : option H) (q : list H) : result (H * list H) :=
  match o with Some h => Ok (h, q) | None => PathFiller_next 0 q end.

Definition tree_root_with (t : tree_t) (depth : nat) (filler_hashes : list H) : result H :=
  l ← leaf_or_next (left t) filler_hashes;
  r ← leaf_or_next (right t) l.2;
  s ← root_parents (parents t) 1 (combine l.1 r.1 0) r.2;
  let '(d, root, q) := s in
  root_fill (depth - d) d root q.

Definition tree_root_hash (t : tree_t) : result H := tree_root_with t Depth [].

(** [path]: the pairs pushed to [index] and [path] by the two loops. *)
Fixpoint path_parents (ps : list (option H)) (d : nat) (q : list H) : result (nat * list (bool * H) * list H) :=
  match ps with
  | [] => Ok (d, [], q)
  | Some p :: ps' =>
      s ← path_parents ps' (S d) q;
      let '(d', l, q') := s in Ok (d', (true, p) :: l, q')
  | None :: ps' =>
      r ← PathFiller_next d q;
      s ← path_parents ps' (S d) r.2;
      let '(d', l, q') := s in Ok (d', (false, r.1) :: l, q')
  end.

Fixpoint path_fill (n d : nat) (q : list H) : result (list (bool * H)) :=
  match n with
  | O => Ok []
  | S n' =>
      r ← PathFiller_next d q;
      l ← path_fill n' (S d) r.2;
      Ok ((false, r.1) :: l)
  end.

Definition path_pairs (t : tree_t) (filler_hashes : list H) : result (list (bool * H)) :=
  match left t with
  | None => Throw "can't create an authentication path for the beginning of the tree"
  | Some l =>
      first ← match right t with
              | Some _ => Ok ((true, l), filler_hashes)
              | None => r ← PathFiller_next 0 filler_hashes; Ok ((false, r.1), r.2)
              end;
      s ← path_parents (parents t) 1 first.2;
      let '(d, mid, q) := s in
      rest ← path_fill (Depth - d) d q;
      Ok (first.1 :: mid ++ rest)
  end.

Definition tree_path (t : tree_t) (filler_hashes : list H) : result MerklePath :=
  l ← path_pairs t filler_hashes;
  Ok (mkPath (reverse ((fun p => convertBytesVectorToVector (le_bytes 32 (to_uint256 p.2))) <$> l))
             (reverse (fst <$> l))).

(** *** Witnesses *)

Record IncrementalWitness := mkWitness {
  w_tree : tree_t;
  w_filled : list H;
  w_cursor : option tree_t;
  w_cursor_depth : nat
}.

Definition tree_witness (t : tree_t) : IncrementalWitness := mkWitness t [] None 0.

Definition partial_path (w : IncrementalWitness) : result (list H) :=
  match w_cursor w with
  | Some c => h ← tree_root_with c (w_cursor_depth w) []; Ok (w_filled w ++ [h])
  | None => Ok (w_filled w)
  end.

Definition witness_append (obj : H) (w : IncrementalWitness) : result IncrementalWitness :=
  match w_cursor w with
  | Some c =>
      c' ← tree_append_hash obj c;
      if is_complete c' (w_cursor_depth w) then
        h ← tree_root_with c' (w_cursor_depth w) [];
        Ok (mkWitness (w_tree w) (w_filled w ++ [h]) None (w_cursor_depth w))
      else Ok (mkWitness (w_tree w) (w_filled w) (Some c') (w_cursor_depth w))
  | None =>
      let cd := next_depth (w_tree w) (length (w_filled w)) in
      if Nat.leb Depth cd then Throw "tree is full"
      else if Nat.eqb cd 0 then Ok (mkWitness (w_tree w) (w_filled w ++ [obj]) None cd)
      else c' ← tree_append_hash obj tree_empty;
           Ok (mkWitness (w_tree w) (w_filled w) (Some c') cd)
  end.

Definition witness_path (w : IncrementalWitness) : result MerklePath :=
  q ← partial_path w; tree_path (w_tree w) q.
Definition witness_element (w : IncrementalWitness) : result H := tree_last (w_tree w).
Definition witness_position (w : IncrementalWitness) : Z := u64 (tree_size (w_tree w) - 1).
Definition witness_root (w : IncrementalWitness) : result H :=
  q ← partial_path w; tree_root_with (w_tree w) Depth q.

(** [operator<<] and the deserialisation of a witness recompute the cursor
    depth. *)
Definition witness_deserialized (w : IncrementalWitness) : IncrementalWitness :=
  mkWitness (w_tree w) (w_filled w) (w_cursor w) (next_depth (w_tree w) (length (w_filled w))).
End Tree.

(** ** The reference tree *)

Section Reference.
Context {H : Type} `{HashType H}.
Implicit Types (l m : list H) (ps : list (option H)) (q : list H) (d : nat).
#[local] Open Scope nat_scope.

(** The root of the perfect tree of depth [d] over [l], padded on the right. *)
Fixpoint mroot d l : H :=
  match d with
  | O => match l with h :: _ => h | [] => uncommitted end
  | S d' => combine (mroot d' (take (2 ^ d') l)) (mroot d' (drop (2 ^ d') l)) d'
  end.

Lemma pow2_pos d : 0 < 2 ^ d.
Proof. apply Nat.neq_0_lt_0, Nat.pow_nonzero. lia. Qed.

Lemma pow2_S d : 2 ^ S d = 2 ^ d + 2 ^ d.
Proof. simpl. lia. Qed.

Lemma mroot_app d l1 l2 :
  length l1 = 2 ^ d -> mroot (S d) (l1 ++ l2) = combine (mroot d l1) (mroot d l2) d.
Proof. intros E. simpl. by rewrite take_app_length', drop_app_length'. Qed.

Lemma mroot_small d l : length l <= 2 ^ d -> mroot (S d) l = combine (mroot d l) (mroot d []) d.
Proof. intros E. simpl. by rewrite take_ge, drop_ge. Qed.

Lemma EmptyMerkleRoots_lookup Depth d :
  d <= Depth -> EmptyMerkleRoots_new (Depth := Depth) !! d = Some (mroot d []).
Proof.
  unfold EmptyMerkleRoots_new.
  assert (Hn : forall n, length (foldl empty_roots_step [uncommitted] (seq 1 n)) = S n
    /\ forall d, d <= n -> foldl empty_roots_step [uncommitted] (seq 1 n) !! d = Some (mroot d [])).
  { induction n as [|n [IHl IH]].
    - split; [done|]. intros k Hk. by replace k with 0 by lia.
    - rewrite seq_S, foldl_app. cbn [foldl]. unfold empty_roots_step at 1 3. replace (1 + n - 1) with n by lia.
      rewrite (IH n) by lia. cbn [default].
      split; [rewrite length_app; simpl; lia|]. intros k Hk.
      destruct (decide (k = S n)) as [->|].
      + rewrite lookup_app_r by lia. rewrite IHl, Nat.sub_diag. cbn [lookup list_lookup].
        rewrite mroot_small by (simpl; pose proof (pow2_pos n); lia). done.
      + rewrite lookup_app_l by lia. apply IH. lia. }
  apply Hn.
Qed.

Lemma empty_root_ok Depth d : d <= Depth -> empty_root (Depth := Depth) d = Ok (mroot d []).
Proof. intros Hd. unfold empty_root. by rewrite EmptyMerkleRoots_lookup. Qed.

(** *** Representation of the leaves by [parents]

    [parents_rep d ps l]: the complete subtrees of [ps], whose first entry
    has depth [d], cover exactly the leaves [l]. *)
Inductive parents_rep : nat -> list (option H) -> list H -> Prop :=
| pr_nil d : parents_rep d [] []
| pr_none d ps l : parents_rep (S d) ps l -> parents_rep d (None :: ps) l
| pr_some d ps l1 l2 :
    parents_rep (S d) ps l1 -> length l2 = 2 ^ d ->
    parents_rep d (Some (mroot d l2) :: ps) (l1 ++ l2).

Definition canonical ps : Prop := last ps <> Some None.

Fixpoint carry d (c : H) ps : list (option H) :=
  match ps with
  | [] => [Some c]
  | None :: ps' => Some c :: ps'
  | Some p :: ps' => None :: carry (S d) (combine p c d) ps'
  end.

Lemma append_loop_carry n ps : forall pre c,
  length ps < n ->
  append_loop n (length pre) c (pre ++ ps) = pre ++ carry (S (length pre)) c ps.
Proof.
  revert n. induction ps as [|o ps IH]; intros n pre c Hn; (destruct n as [|n]; [simpl in Hn; lia|]); simpl.
  - rewrite app_nil_r, lookup_ge_None_2 by lia. done.
  - rewrite list_lookup_middle by done. rewrite insert_app_r_alt by lia.
    rewrite Nat.sub_diag. cbn [insert list_insert]. destruct o as [p|].
    + replace (pre ++ None :: ps) with ((pre ++ [None]) ++ ps) by (by rewrite <- app_assoc).
      assert (El : length (pre ++ [None (A:=H)]) = S (length pre)) by (rewrite length_app; simpl; lia).
      rewrite <- El at 1. rewrite IH by (simpl in Hn; lia). rewrite El, <- app_assoc, Nat.add_1_r. done.
    + rewrite insert_app_r_alt by lia. rewrite Nat.sub_diag. done.
Qed.

Lemma carry_rep ps : forall d l lc,
  parents_rep d ps l -> length lc = 2 ^ d -> parents_rep d (carry d (mroot d lc) ps) (l ++ lc).
Proof.
  induction ps as [|o ps IH]; intros d l lc Hr Hc; inversion Hr; subst; simpl.
  - apply (pr_some d [] []); [constructor|done].
  - by constructor.
  - rewrite <- app_assoc. constructor. rewrite <- mroot_app by done. apply IH; [done|].
    rewrite length_app, pow2_S. lia.
Qed.

Lemma carry_not_nil d c ps : carry d c ps <> [].
Proof. destruct ps as [|[]]; done. Qed.

Lemma carry_canonical ps : forall d c, canonical ps -> canonical (carry d c ps).
Proof.
  unfold canonical. induction ps as [|o ps IH]; intros d c Hc; [done|]. destruct o as [p|]; cbn [carry].
  - specialize (IH (S d) (combine p c d)).
    destruct (carry (S d) (combine p c d) ps) eqn:E; [by apply carry_not_nil in E|].
    rewrite last_cons_cons. apply IH. destruct ps; [done|]. by rewrite last_cons_cons in Hc.
  - destruct ps; [done|]. by rewrite last_cons_cons in *.
Qed.

(** Counting the leaves. *)
Lemma parents_rep_count d ps l : parents_rep d ps l ->
  length l + 2 ^ d <= 2 ^ (d + length ps)
  /\ (length l + 2 ^ d = 2 ^ (d + length ps) <-> forallb present ps = true).
Proof.
  induction 1 as [d|d ps l Hr [IH1 IH2]|d ps l1 l2 Hr [IH1 IH2] Hl]; cbn [length forallb present].
  - rewrite Nat.add_0_r. simpl. split; [lia|done].
  - rewrite pow2_S in IH1. rewrite Nat.add_succ_r. rewrite Nat.add_succ_l in IH1.
    pose proof (pow2_pos d). split; [lia|]. split; [lia|done].
  - rewrite pow2_S in IH1, IH2. rewrite length_app, Nat.add_succ_r. rewrite Nat.add_succ_l in IH1, IH2.
    rewrite andb_true_l, <- IH2. split; [lia|]. split; lia.
Qed.

Lemma parents_rep_low d ps l : parents_rep d ps l -> canonical ps -> ps <> [] ->
  2 ^ (d + length ps) <= length l + length l.
Proof.
  unfold canonical. induction 1 as [d|d ps l Hr IH|d ps l1 l2 Hr IH Hl]; intros Hc Hn; [done|..];
    cbn [length]; rewrite Nat.add_succ_r.
  - destruct ps; [done|]. rewrite last_cons_cons in Hc. apply IH; done.
  - rewrite length_app. destruct ps.
    + inversion Hr; subst. rewrite Nat.add_0_r, pow2_S. simpl. lia.
    + rewrite last_cons_cons in Hc. specialize (IH Hc ltac:(done)). rewrite Nat.add_succ_l in IH. lia.
Qed.

Lemma parents_rep_even d ps l : parents_rep (S d) ps l -> Nat.Even (length l).
Proof.
  intros Hr. remember (S d) as d' eqn:E. revert d E.
  induction Hr as [d'|d' ps l Hr IH|d' ps l1 l2 Hr IH Hl]; intros dd ->.
  - by exists 0.
  - by eapply IH.
  - destruct (IH (S dd) eq_refl) as [k Hk]. exists (k + 2 ^ dd). rewrite length_app, Hl, Hk, pow2_S. lia.
Qed.

(** *** Trees *)

(** The leaves not yet in [parents]. *)
Definition cursor_rep {Depth} (t : IncrementalMerkleTree Depth H) (ll : list H) : Prop :=
  match left t, right t with
  | None, None => ll = [] /\ parents t = []
  | Some a, None => ll = [a]
  | Some a, Some b => ll = [a; b]
  | None, Some _ => False
  end.

(** [tree_rep t l]: the tree [t] holds the leaves [l]. *)
Definition tree_rep {Depth} (t : IncrementalMerkleTree Depth H) (l : list H) : Prop :=
  exists lp ll, l = lp ++ ll /\ parents_rep 1 (parents t) lp /\ canonical (parents t) /\ cursor_rep t ll.

Lemma tree_rep_empty Depth : tree_rep (tree_empty (Depth := Depth)) [].
Proof. exists [], []. split_and!; by try constructor. Qed.

Lemma cursor_rep_length {Depth} (t : IncrementalMerkleTree Depth H) ll :
  cursor_rep t ll -> length ll <= 2 /\ (parents t <> [] -> 1 <= length ll).
Proof.
  unfold cursor_rep. destruct (left t), (right t); try done; [intros ->..|intros [-> ->]]; simpl;
    split; try lia; done.
Qed.

(** A tree of at most [2 ^ d] leaves has fewer than [d] parents. *)
Lemma tree_rep_parents {Depth} (t : IncrementalMerkleTree Depth H) l d :
  tree_rep t l -> length l <= 2 ^ d -> 1 <= d -> length (parents t) < d.
Proof.
  intros (lp & ll & -> & Hp & Hc & Hcur) Hl Hd. rewrite length_app in Hl.
  destruct (decide (parents t = [])) as [->|Hn]; [simpl; lia|].
  pose proof (parents_rep_low _ _ _ Hp Hc Hn) as Hlow.
  destruct (cursor_rep_length _ _ Hcur) as [_ H1]. specialize (H1 Hn).
  change (1 + length (parents t)) with (S (length (parents t))) in Hlow. rewrite pow2_S in Hlow.
  apply (Nat.pow_lt_mono_r_iff 2); lia.
Qed.

Lemma is_complete_iff {Depth} (t : IncrementalMerkleTree Depth H) l d :
  tree_rep t l -> 1 <= d -> (Z.of_nat d < 2 ^ 32)%Z -> is_complete t d = true <-> length l = 2 ^ d.
Proof.
  intros Ht Hd Hd32. pose proof Ht as (lp & ll & -> & Hp & Hc & Hcur).
  unfold is_complete. unfold cursor_rep in Hcur. rewrite length_app.
  destruct (parents_rep_count _ _ _ Hp) as [Hle Heq].
  pose proof (parents_rep_even _ _ _ Hp) as [k Hk].
  destruct d as [|d]; [lia|]. rewrite pow2_S.
  destruct (left t) as [a|], (right t) as [b|]; try done.
  - subst ll. rewrite u64_small by (unfold is_u64; lia). cbn [length].
    replace (Z.of_nat (S d) - 1)%Z with (Z.of_nat d) by lia.
    destruct (Z.eqb_spec (Z.of_nat (length (parents t))) (Z.of_nat d)) as [E|E].
    + rewrite <- Heq. replace (length (parents t)) with d by lia.
      change (1 + length (parents t)) with (S (length (parents t))). rewrite pow2_S. simpl. lia.
    + split; [done|]. intros El. destruct E. f_equal. change (1 + length (parents t)) with (S (length (parents t))) in Hle. rewrite pow2_S in Hle.
      assert (length (parents t) < S d) as Hlt.
      { apply (tree_rep_parents t (lp ++ [a; b])); [done| |lia]. rewrite length_app, pow2_S. simpl. lia. }
      destruct (decide (length (parents t) < d)) as [Hd'|]; [|lia].
      apply (Nat.pow_lt_mono_r 2) in Hd'; [|lia]. simpl in Hle. lia.
  - subst ll. split; [done|]. simpl. intros El. assert (Nat.Even (2 ^ d + 2 ^ d)) as [x Hx] by (exists (2 ^ d); lia).
    lia.
  - destruct Hcur as [-> ?]. split; [done|]. simpl. destruct (parents t); [|done].
    inversion Hp; subst. pose proof (pow2_pos d). simpl. lia.
Qed.

(** *** Uncles filled in later

    The depths at which [parents] (first entry of depth [d]) misses a right
    sibling, in ascending order. *)
Fixpoint unfilled d ps : list nat :=
  match ps with
  | [] => []
  | Some _ :: ps' => unfilled (S d) ps'
  | None :: ps' => d :: unfilled (S d) ps'
  end.

(** [fills ds q m]: the hashes [q] are the roots of consecutive subtrees over
    the leaves [m], of the depths [ds] in order; only the last one may be
    incomplete. *)
Inductive fills : list nat -> list H -> list H -> Prop :=
| fills_nil ds : fills ds [] []
| fills_full d ds q m1 m : length m1 = 2 ^ d -> fills ds q m -> fills (d :: ds) (mroot d m1 :: q) (m1 ++ m)
| fills_part d ds m1 : length m1 < 2 ^ d -> fills (d :: ds) [mroot d m1] m1.

Lemma root_parents_ok Depth ps : forall d lp cur q m,
  parents_rep d ps lp -> d + length ps <= S Depth -> fills (unfilled d ps) q m ->
  length cur <= 2 ^ d -> (m <> [] -> length cur = 2 ^ d) ->
  exists q', root_parents (Depth := Depth) ps d (mroot d cur) q
    = Ok (d + length ps, mroot (d + length ps) (lp ++ cur ++ m), q').
Proof.
  induction ps as [|o ps IH]; intros d lp cur q m Hr Hd Hf Hc Hm; inversion Hr; subst; cbn [root_parents unfilled length] in *.
  - inversion Hf; subst. rewrite Nat.add_0_r, app_nil_r. eauto.
  - rewrite Nat.add_succ_r in *. inversion Hf; subst; cbn [PathFiller_next].
    + rewrite empty_root_ok by lia. mstep. cbn [fst snd]. rewrite <- mroot_small by done.
      apply (IH (S d) lp cur [] []); try done; [constructor|rewrite pow2_S; lia].
    + mstep. cbn [fst snd]. pose proof (pow2_pos d).
      assert (length cur = 2 ^ d) as Ec by (apply Hm; destruct m1; simpl in *; [lia|done]).
      rewrite <- mroot_app by done. rewrite (app_assoc cur).
      apply (IH (S d) lp (cur ++ m1) q0 m0); try done; rewrite length_app, pow2_S; lia.
    + mstep. cbn [fst snd].
      assert (combine (mroot d cur) (mroot d m) d = mroot (S d) (cur ++ m)) as ->.
      { destruct (decide (m = [])) as [->|Hn]; [by rewrite app_nil_r, mroot_small|].
        by rewrite mroot_app by auto. }
      destruct (IH (S d) lp (cur ++ m) [] []) as [q' Hq]; try done; [constructor|rewrite length_app, pow2_S; lia|].
      rewrite app_nil_r in Hq. eauto.
  - rewrite Nat.add_succ_r in *. rewrite <- mroot_app, <- app_assoc by done.
    rewrite (app_assoc l2). apply (IH (S d) l1 (l2 ++ cur) q m); try done; rewrite length_app, pow2_S; [lia|].
    intros Hn. rewrite Hm by done. lia.
Qed.

(** The [while] loops are the loops over absent parents. *)
Lemma root_fill_parents Depth n : forall d r q,
  root_fill (Depth := Depth) n d r q = s ← root_parents (Depth := Depth) (replicate n None) d r q; Ok s.1.2.
Proof.
  induction n as [|n IH]; intros d r q; [done|]. simpl.
  destruct (PathFiller_next d q) as [[h q']| |]; [|done..]. apply IH.
Qed.

Lemma root_parents_app Depth ps1 ps2 : forall d r q,
  root_parents (Depth := Depth) (ps1 ++ ps2) d r q =
    s ← root_parents (Depth := Depth) ps1 d r q; root_parents (Depth := Depth) ps2 s.1.1 s.1.2 s.2.
Proof.
  induction ps1 as [|[p|] ps1 IH]; intros d r q; [done|apply IH|]. simpl.
  destruct (PathFiller_next d q) as [[h q']| |]; [|done..]. apply IH.
Qed.

Lemma parents_rep_pad d ps l n : parents_rep d ps l -> parents_rep d (ps ++ replicate n None) l.
Proof.
  induction 1 as [d| |]; simpl; [|by constructor..].
  revert d. induction n; intros d; simpl; by constructor.
Qed.
End Reference.

(** ** Correctness of the operations *)

Section Correct.
Context {Depth : nat} {H : Type} `{HashType H}.
Hypothesis Depth_pos : (1 <= Depth)%nat.
Hypothesis Depth_32 : Z.of_nat Depth < 2 ^ 32.
Local Abbreviation tree_t := (IncrementalMerkleTree Depth H).
Implicit Types (t c : tree_t) (l m : list H) (q : list H).
#[local] Open Scope nat_scope.

Lemma append_full t l h : tree_rep t l -> length l = 2 ^ Depth -> tree_append_hash h t = Throw "tree is full".
Proof using Depth_pos Depth_32.
  intros Ht Hl. unfold tree_append_hash.
  by rewrite (proj2 (is_complete_iff t l Depth Ht Depth_pos Depth_32) Hl).
Qed.

Lemma append_ok t l h : tree_rep t l -> length l < 2 ^ Depth ->
  exists t', tree_append_hash h t = Ok t' /\ tree_rep t' (l ++ [h]).
Proof using Depth_pos Depth_32.
  intros Ht Hl. unfold tree_append_hash.
  destruct (is_complete t Depth) eqn:Ec; [apply (is_complete_iff t l) in Ec; lia || done|]. clear Ec.
  assert (length (parents t) < Depth) as Hps by (apply (tree_rep_parents t l); lia || done).
  destruct Ht as (lp & ll & -> & Hp & Hcan & Hcur). unfold cursor_rep in Hcur.
  destruct (left t) as [a|] eqn:El, (right t) as [b|] eqn:Er; try done; eexists; (split; [done|]).
  - subst ll. exists (lp ++ [a; b]), [h]. split_and!; [done|..]; simpl.
    + rewrite (append_loop_carry Depth (parents t) []) by done. simpl.
      apply (carry_rep (parents t) 1 lp [a; b] Hp). done.
    + rewrite (append_loop_carry Depth (parents t) []) by done. by apply carry_canonical.
    + done.
  - subst ll. exists lp, [a; h]. rewrite <- app_assoc. split_and!; done.
  - destruct Hcur as [-> Hn]. exists lp, [h]. rewrite app_nil_r. split_and!; done.
Qed.

(** The depths of the missing siblings of a tree of depth [depth]. *)
Definition tree_unfilled t (depth : nat) : list nat :=
  (if present (right t) then [] else [0]) ++ unfilled 1 (parents t ++ replicate (depth - 1 - length (parents t)) None).

Lemma root_with_parents t depth q :
  length (parents t) < depth ->
  tree_root_with t depth q =
    l ← leaf_or_next (Depth := Depth) (left t) q; r ← leaf_or_next (Depth := Depth) (right t) l.2;
    s ← root_parents (Depth := Depth) (parents t ++ replicate (depth - 1 - length (parents t)) None) 1
          (combine l.1 r.1 0) r.2; Ok s.1.2.
Proof using Type. clear Depth_pos Depth_32.
  intros Hlt. unfold tree_root_with.
  destruct (leaf_or_next (Depth := Depth) (left t) q) as [[a q1]| |]; [|done..]. mstep. cbn [fst snd].
  destruct (leaf_or_next (Depth := Depth) (right t) q1) as [[b q2]| |]; [|done..]. mstep. cbn [fst snd].
  rewrite root_parents_app.
  assert (Hd : forall ps d r q d' r' q', root_parents (Depth := Depth) ps d r q = Ok (d', r', q') ->
             d' = d + length ps).
  { induction ps as [|[p|] ps IH]; intros d r q0 d' r' q'; cbn [root_parents length].
    - intros [=]. lia.
    - intros E%IH. lia.
    - intros E. ok_inv. apply IH in E. lia. }
  destruct (root_parents (Depth := Depth) (parents t) 1 (combine a b 0) q2) as [[[d' r'] q']| |] eqn:E; [|done..].
  apply Hd in E as ->. cbn [mbind result_bind fst snd]. rewrite root_fill_parents.
  by replace (depth - (1 + length (parents t))) with (depth - 1 - length (parents t)) by lia.
Qed.

Lemma root_with_ok t l depth q m :
  tree_rep t l -> 1 <= depth <= Depth -> length l <= 2 ^ depth ->
  fills (tree_unfilled t depth) q m -> (l = [] -> q = []) ->
  tree_root_with t depth q = Ok (mroot depth (l ++ m)).
Proof using Type. clear Depth_pos Depth_32.
  intros Ht Hdep Hl Hf Hq.
  assert (length (parents t) < depth) as Hps by (apply (tree_rep_parents t l); lia || done).
  rewrite root_with_parents by done. unfold tree_unfilled in Hf.
  destruct Ht as (lp & ll & -> & Hp & Hcan & Hcur). unfold cursor_rep in Hcur.
  pose proof (parents_rep_pad _ _ _ (depth - 1 - length (parents t)) Hp) as Hpad.
  set (ps := parents t ++ replicate (depth - 1 - length (parents t)) None) in *.
  assert (1 + length ps = depth) as Els by (subst ps; rewrite length_app, length_replicate; lia).
  clearbody ps.
  assert (Hrun : forall cur q m, fills (unfilled 1 ps) q m -> length cur <= 2 -> (m <> [] -> length cur = 2) ->
    (s ← root_parents (Depth := Depth) ps 1 (mroot 1 cur) q; Ok s.1.2) = Ok (mroot depth (lp ++ cur ++ m))).
  { intros cur q0 m0 Hf0 Hc Hm. destruct (root_parents_ok Depth ps 1 lp cur q0 m0) as [q' E]; try done; [lia|].
    rewrite E. cbn [mbind result_bind fst snd]. by rewrite Els. }
  destruct (left t) as [a|], (right t) as [b|]; try done; cbn [leaf_or_next present app] in *; mstep; cbn [fst snd].
  - subst ll. change (combine a b 0) with (mroot 1 [a; b]). rewrite <- app_assoc. by apply Hrun.
  - subst ll. rewrite <- app_assoc. inversion Hf; subst; cbn [PathFiller_next].
    + rewrite empty_root_ok by lia. mstep. cbn [fst snd]. apply (Hrun [a] [] []); [constructor|simpl; lia|done].
    + mstep. cbn [fst snd]. destruct m1 as [|b [|]]; try done. apply (Hrun [a; b] q0 m0); done.
    + mstep. cbn [fst snd]. destruct m as [|]; [|simpl in *; lia].
      apply (Hrun [a] [] []); [constructor|simpl; lia|done].
  - destruct Hcur as [-> Hn]. assert (lp = []) as -> by (rewrite Hn in Hp; by inversion Hp).
    rewrite Hq in * by done. inversion Hf; subst. cbn [PathFiller_next].
    rewrite !empty_root_ok by lia. mstep. cbn [fst snd PathFiller_next].
    rewrite !empty_root_ok by lia. mstep. cbn [fst snd].
    apply (Hrun [] [] []); [constructor|simpl; lia|done].
Qed.

Lemma root_ok t l : tree_rep t l -> length l <= 2 ^ Depth -> tree_root_hash t = Ok (mroot Depth l).
Proof using Depth_pos.
  intros Ht Hl. unfold tree_root_hash.
  rewrite (root_with_ok t l Depth [] []); [by rewrite app_nil_r|done|lia|done|constructor|done].
Qed.

(** *** Appending many leaves *)

Definition append_all (hs : list H) t : result tree_t := foldM (fun t h => tree_append_hash h t) hs t.

Lemma append_all_ok hs : forall t l, tree_rep t l -> length l + length hs <= 2 ^ Depth ->
  exists t', append_all hs t = Ok t' /\ tree_rep t' (l ++ hs).
Proof using Depth_pos Depth_32.
  induction hs as [|h hs IH]; intros t l Ht Hl; simpl in Hl.
  - exists t. rewrite app_nil_r. done.
  - destruct (append_ok t l h Ht) as (t1 & E1 & H1); [lia|].
    destruct (IH t1 (l ++ [h]) H1) as (t' & E' & H'); [rewrite length_app; simpl; lia|].
    exists t'. rewrite <- app_assoc in H'. split; [|done].
    unfold append_all. cbn [foldM]. rewrite E1. exact E'.
Qed.

(** *** Authentication paths *)

(** What a verifier computes from a leaf and the (bit, sibling) pairs, lowest
    first. *)
Fixpoint auth (d : nat) (r : H) (pairs : list (bool * H)) : H :=
  match pairs with
  | [] => r
  | (b, h) :: pairs' => auth (S d) (if b then combine h r d else combine r h d) pairs'
  end.

Lemma root_parents_auth ps : forall d r q,
  root_parents (Depth := Depth) ps d r q =
    s ← path_parents (Depth := Depth) ps d q; Ok (s.1.1, auth d r s.1.2, s.2).
Proof using Type. clear Depth_pos Depth_32.
  induction ps as [|[p|] ps IH]; intros d r q; cbn [root_parents path_parents].
  - done.
  - rewrite IH. by destruct (path_parents (Depth := Depth) ps (S d) q) as [[[? ?] ?]| |].
  - destruct (PathFiller_next (Depth := Depth) d q) as [[h q']| |]; [|done..]. mstep. rewrite IH. cbn [fst snd].
    by destruct (path_parents (Depth := Depth) ps (S d) q') as [[[? ?] ?]| |].
Qed.

Lemma root_fill_auth n : forall d r q,
  root_fill (Depth := Depth) n d r q = l ← path_fill (Depth := Depth) n d q; Ok (auth d r l).
Proof using Type. clear Depth_pos Depth_32.
  induction n as [|n IH]; intros d r q; cbn [root_fill path_fill]; [done|].
  destruct (PathFiller_next (Depth := Depth) d q) as [[h q']| |]; [|done..]. mstep. rewrite IH. cbn [fst snd].
  by destruct (path_fill (Depth := Depth) n (S d) q').
Qed.

Lemma path_parents_shape ps : forall d q d' pairs q',
  path_parents (Depth := Depth) ps d q = Ok (d', pairs, q') ->
  d' = d + length ps /\ pairs.*1 = present <$> ps.
Proof using Type. clear Depth_pos Depth_32.
  induction ps as [|[p|] ps IH]; intros d q d' pairs q'; cbn [path_parents]; intros E; ok_inv.
  - split; [simpl; lia|done].
  - destruct a as [[d1 l1] q1]. apply IH in E0 as [-> E1]. ok_inv. split; [simpl; lia|]. cbn [fmap list_fmap fst]. by rewrite <- E1.
  - destruct a0 as [[d1 l1] q1]. apply IH in E1 as [-> E2]. ok_inv. split; [simpl; lia|]. cbn [fmap list_fmap fst]. by rewrite <- E2.
Qed.

Lemma path_fill_shape n : forall d q pairs,
  path_fill (Depth := Depth) n d q = Ok pairs -> pairs.*1 = replicate n false.
Proof using Type. clear Depth_pos Depth_32.
  induction n as [|n IH]; intros d q pairs; cbn [path_fill]; intros E; ok_inv; [done|].
  apply IH in E1. cbn. by rewrite <- E1.
Qed.

Lemma auth_app d r (l1 l2 : list (bool * H)) : auth d r (l1 ++ l2) = auth (d + length l1) (auth d r l1) l2.
Proof using Type. clear Depth_pos Depth_32.
  revert d r. induction l1 as [|[b h] l1 IH]; intros d r; simpl; [by rewrite Nat.add_0_r|].
  rewrite IH. f_equal. lia.
Qed.

(** The path of a tree leads from its last leaf to the root that the same
    fillers give. *)
Lemma path_pairs_auth t q :
  match left t with
  | None => path_pairs t q = Throw "can't create an authentication path for the beginning of the tree"
  | Some a =>
      tree_root_with t Depth q =
        pairs ← path_pairs t q; Ok (auth 0 (default a (right t)) pairs)
  end.
Proof using Type. clear Depth_pos Depth_32.
  unfold path_pairs, tree_root_with. destruct (left t) as [a|]; [|done].
  assert (Hrun : forall a b q1 p, combine a b 0 = auth 0 (default a (right t)) [p] ->
    (s ← root_parents (Depth := Depth) (parents t) 1 (combine a b 0) q1;
     let '(d, root, q) := s in root_fill (Depth := Depth) (Depth - d) d root q) =
    pairs ← (s ← path_parents (Depth := Depth) (parents t) 1 q1;
             let '(d, mid, q0) := s in
             rest ← path_fill (Depth := Depth) (Depth - d) d q0; Ok (p :: mid ++ rest));
    Ok (auth 0 (default a (right t)) pairs)).
  { intros x y q1 p Ep. rewrite root_parents_auth.
    destruct (path_parents (Depth := Depth) (parents t) 1 q1) as [[[d mid] q0]| |] eqn:E; [|done..].
    cbn [mbind result_bind fst snd]. rewrite root_fill_auth.
    destruct (path_fill (Depth := Depth) (Depth - d) d q0) as [rest| |]; [|done..].
    cbn [mbind result_bind]. f_equal.
    replace (p :: mid ++ rest) with (([p] ++ mid) ++ rest) by done.
    rewrite (auth_app 0 _ ([p] ++ mid)), (auth_app 0 _ [p]), <- Ep.
    apply path_parents_shape in E as [-> E]. apply (f_equal length) in E.
    rewrite !length_fmap in E. f_equal. rewrite length_app, E. done. }
  destruct (right t) as [b|]; cbn [leaf_or_next default]; mstep; cbn [fst snd].
  - apply (Hrun a b q (true, a)). done.
  - destruct (PathFiller_next (Depth := Depth) 0 q) as [[h q']| |]; [|done..]. mstep. cbn [fst snd].
    apply (Hrun a h q' (false, h)). done.
Qed.

(** *** Witnesses *)

(** The first [length q] depths are filled by complete subtrees over [m]. *)
Inductive fulls : list nat -> list H -> list H -> Prop :=
| fulls_nil ds : fulls ds [] []
| fulls_cons d ds q m1 m :
    length m1 = 2 ^ d -> fulls ds q m -> fulls (d :: ds) (mroot d m1 :: q) (m1 ++ m).

Lemma fulls_snoc ds q m d m1 :
  fulls ds q m -> ds !! length q = Some d -> length m1 = 2 ^ d -> fulls ds (q ++ [mroot d m1]) (m ++ m1).
Proof using Type. clear Depth_pos Depth_32.
  induction 1 as [ds|d' ds q m' m Hm' Hf IH]; simpl; intros Hd Hl.
  - destruct ds as [|d0 ds]; [done|]. injection Hd as ->. rewrite <- (app_nil_r m1) at 2. constructor; [done|constructor].
  - rewrite <- app_assoc. constructor; [done|auto].
Qed.

Lemma fulls_fills ds q m : fulls ds q m -> fills ds q m.
Proof using Type. clear Depth_pos Depth_32. induction 1; by constructor. Qed.

Lemma fulls_fills_part ds q m d m1 :
  fulls ds q m -> ds !! length q = Some d -> length m1 < 2 ^ d -> fills ds (q ++ [mroot d m1]) (m ++ m1).
Proof using Type. clear Depth_pos Depth_32.
  induction 1 as [ds|d' ds q m' m Hm' Hf IH]; simpl; intros Hd Hl.
  - destruct ds as [|d0 ds]; [done|]. injection Hd as ->. by constructor.
  - rewrite <- app_assoc. constructor; [done|auto].
Qed.

Definition capacity (ds : list nat) : nat := sum_list_with (fun d => 2 ^ d) ds.

Lemma fulls_capacity ds q m : fulls ds q m -> length m <= capacity ds /\ (ds !! length q = None -> length m = capacity ds).
Proof using Type. clear Depth_pos Depth_32.
  unfold capacity. induction 1 as [ds|d' ds q m' m Hm' Hf [IH1 IH2]]; simpl.
  - split; [lia|]. destruct ds; done.
  - rewrite length_app, Hm'. split; [lia|]. intros E. rewrite IH2 by done. lia.
Qed.

Lemma unfilled_capacity d (ps : list (option H)) l : parents_rep d ps l ->
  length l + capacity (unfilled d ps) + 2 ^ d = 2 ^ (d + length ps).
Proof using Type. clear Depth_pos Depth_32.
  unfold capacity. induction 1 as [d|d ps l Hr IH|d ps l1 l2 Hr IH Hl]; cbn [unfilled length sum_list_with].
  - simpl. by rewrite Nat.add_0_r.
  - rewrite Nat.add_succ_r. rewrite pow2_S, Nat.add_succ_l in IH. lia.
  - rewrite length_app, Nat.add_succ_r. rewrite pow2_S, Nat.add_succ_l in IH. lia.
Qed.

Lemma tree_unfilled_capacity t l : tree_rep t l -> l <> [] -> length l <= 2 ^ Depth ->
  length l + capacity (tree_unfilled t Depth) = 2 ^ Depth.
Proof using Depth_pos.
  intros Ht Hn Hl. assert (length (parents t) < Depth) as Hps by (apply (tree_rep_parents t l); lia || done).
  destruct Ht as (lp & ll & -> & Hp & Hcan & Hcur). unfold cursor_rep in Hcur.
  pose proof (unfilled_capacity _ _ _ (parents_rep_pad _ _ _ (Depth - 1 - length (parents t)) Hp)) as Hcap.
  rewrite (length_app (parents t)), length_replicate in Hcap.
  replace (1 + (length (parents t) + (Depth - 1 - length (parents t)))) with Depth in Hcap by lia.
  unfold tree_unfilled, capacity in *. rewrite length_app.
  destruct (left t) as [a|], (right t) as [b|]; try done; simpl in *.
  - subst ll. simpl. lia.
  - subst ll. simpl. lia.
  - destruct Hcur as [-> E]. rewrite E in Hp. by inversion Hp; subst.
Qed.

Lemma unfilled_bound d (ps : list (option H)) x : x ∈ unfilled d ps -> x < d + length ps.
Proof using Type. clear Depth_pos Depth_32.
  revert d. induction ps as [|[p|] ps IH]; intros d; simpl; [by intros ?%elem_of_nil|intros Hx%IH; lia|].
  rewrite elem_of_cons. intros [->|Hx%IH]; lia.
Qed.

Lemma tree_unfilled_bound t x : length (parents t) < Depth -> x ∈ tree_unfilled t Depth -> x < Depth.
Proof using Depth_pos.
  intros Hps. unfold tree_unfilled. rewrite elem_of_app. intros [Hx|Hx%unfilled_bound].
  - destruct (present (right t)); [by apply elem_of_nil in Hx|]. apply list_elem_of_singleton in Hx. lia.
  - rewrite length_app, length_replicate in Hx. lia.
Qed.

Lemma unfilled_replicate n : forall d, unfilled (H := H) d (replicate n None) = seq d n.
Proof using Type. clear Depth_pos Depth_32. induction n as [|n IH]; intros d; simpl; [done|]. by rewrite IH. Qed.

Lemma next_depth_loop_ok ps n : forall d skip,
  match unfilled d (ps ++ replicate n None) !! skip with
  | Some x => next_depth_loop (H := H) ps d skip = x
  | None => True
  end.
Proof using Type. clear Depth_pos Depth_32.
  induction ps as [|[p|] ps IH]; intros d skip; cbn [next_depth_loop unfilled app].
  - rewrite unfilled_replicate. destruct (seq d n !! skip) eqn:E; [|done]. apply lookup_seq in E. lia.
  - apply IH.
  - destruct skip as [|skip]; [done|]. apply IH.
Qed.

Lemma next_depth_ok t skip d : left t <> None ->
  tree_unfilled t Depth !! skip = Some d -> next_depth t skip = d.
Proof using Type. clear Depth_pos Depth_32.
  unfold tree_unfilled, next_depth. destruct (left t) as [a|]; [intros _|done].
  pose proof (next_depth_loop_ok (parents t) (Depth - 1 - length (parents t)) 1) as Hl.
  destruct (right t) as [b|]; simpl.
  - intros E. specialize (Hl skip). by rewrite E in Hl.
  - destruct skip as [|skip]; simpl; [by intros [= <-]|].
    intros E. specialize (Hl skip). by rewrite E in Hl.
Qed.

(** [witness_rep w l m]: a witness taken after the leaves [l] that has since
    seen the leaves [m]. *)
Definition witness_rep (w : IncrementalWitness) (l m : list H) : Prop :=
  tree_rep (w_tree w) l /\ l <> [] /\ length l + length m <= 2 ^ Depth /\
  exists m1 m2, m = m1 ++ m2 /\ fulls (tree_unfilled (w_tree w) Depth) (w_filled w) m1 /\
  match w_cursor w with
  | None => m2 = []
  | Some c => tree_rep c m2
      /\ tree_unfilled (w_tree w) Depth !! length (w_filled w) = Some (w_cursor_depth w)
      /\ 0 < length m2 < 2 ^ w_cursor_depth w
  end.

Lemma tree_rep_left t l : tree_rep t l -> l <> [] -> left t <> None.
Proof using Type. clear Depth_pos Depth_32.
  intros (lp & ll & -> & Hp & _ & Hcur) Hn E. unfold cursor_rep in Hcur. rewrite E in Hcur.
  destruct (right t); [done|]. destruct Hcur as [-> E']. rewrite E' in Hp. by inversion Hp; subst.
Qed.

Lemma witness_new_ok t l : tree_rep t l -> l <> [] -> length l <= 2 ^ Depth -> witness_rep (tree_witness t) l [].
Proof using Type. clear Depth_pos Depth_32.
  intros Ht Hn Hl. split_and!; [done|done|simpl; lia|]. exists [], []. split_and!; [done|constructor|done].
Qed.

Lemma pow2_pos_inv n d : 0 < n < 2 ^ d -> 1 <= d.
Proof using Type. clear Depth_pos Depth_32. destruct d; simpl; lia. Qed.

(** The open uncle of a witness, when it has one. *)
Lemma witness_cursor_bound w l m c m2 :
  witness_rep w l m -> w_cursor w = Some c -> 0 < length m2 < 2 ^ w_cursor_depth w ->
  1 <= w_cursor_depth w < Depth.
Proof using Depth_pos.
  intros (Ht & Hn & Hl & m1 & m2' & -> & Hf & Hc) E Hm2. rewrite E in Hc. destruct Hc as (_ & Hu & _).
  split; [by eapply pow2_pos_inv|]. apply list_elem_of_lookup_2, tree_unfilled_bound in Hu; [done|].
  apply (tree_rep_parents (w_tree w) l); lia || done.
Qed.

Lemma witness_append_ok w l m h : witness_rep w l m -> length l + length m < 2 ^ Depth ->
  exists w', witness_append h w = Ok w' /\ witness_rep w' l (m ++ [h]).
Proof using Depth_pos Depth_32.
  intros Hw Hlt. pose proof Hw as (Ht & Hn & Hl & m1 & m2 & -> & Hf & Hc). rewrite length_app in Hlt.
  assert (length (parents (w_tree w)) < Depth) as Hps by (apply (tree_rep_parents (w_tree w) l); lia || done).
  assert (Hlen : length l + length ((m1 ++ m2) ++ [h]) <= 2 ^ Depth) by (rewrite !length_app; simpl; lia).
  unfold witness_append. destruct (w_cursor w) as [c|] eqn:Ec.
  - destruct Hc as (Hcr & Hu & Hm2).
    pose proof (witness_cursor_bound w l _ c m2 Hw Ec Hm2) as Hcd.
    destruct (append_ok c m2 h Hcr) as (c' & E' & Hc'); [lia|]. rewrite E'. mstep.
    pose proof (is_complete_iff c' (m2 ++ [h]) (w_cursor_depth w) Hc' ltac:(lia) ltac:(lia)) as Hic.
    rewrite length_app in Hic. cbn [length] in Hic.
    destruct (is_complete c' (w_cursor_depth w)).
    + assert (length m2 + 1 = 2 ^ w_cursor_depth w) as Efull by (by apply Hic).
      rewrite (root_with_ok c' (m2 ++ [h]) (w_cursor_depth w) [] []);
        [|done|lia|rewrite length_app; simpl; lia|constructor|done].
      mstep. eexists. split; [done|]. split_and!; [done..|].
      exists (m1 ++ m2 ++ [h]), []. rewrite app_nil_r, <- app_assoc. split_and!; [done|..|done].
      cbn [w_tree w_filled]. rewrite app_nil_r. apply fulls_snoc; [done..|]. rewrite length_app. simpl. lia.
    + eexists. split; [done|]. split_and!; [done..|].
      exists m1, (m2 ++ [h]). rewrite <- app_assoc. split_and!; [done..|]. cbn.
      assert (length m2 + 1 <> 2 ^ w_cursor_depth w) by (intros E%Hic; done).
      rewrite length_app. simpl. split_and!; try done; lia.
  - subst m2. simpl in Hlt. rewrite app_nil_r in *.
    destruct (tree_unfilled (w_tree w) Depth !! length (w_filled w)) as [cd|] eqn:Eu.
    2: { destruct (fulls_capacity _ _ _ Hf) as [_ Hfull]. specialize (Hfull Eu).
         pose proof (tree_unfilled_capacity (w_tree w) l Ht Hn ltac:(lia)). lia. }
    rewrite (next_depth_ok _ _ cd); [|by eapply tree_rep_left|done].
    assert (cd < Depth) as Hcd by (by eapply tree_unfilled_bound; [|eapply list_elem_of_lookup_2]).
    destruct (Nat.leb_spec Depth cd); [lia|]. destruct (Nat.eqb_spec cd 0) as [->|Hcd0].
    + eexists. split; [done|]. split_and!; [done..|]. exists (m1 ++ [h]), []. rewrite app_nil_r.
      split_and!; [done| |done]. by apply (fulls_snoc _ _ _ 0 [h]).
    + destruct (append_ok tree_empty [] h) as (c' & E' & Hc'); [apply tree_rep_empty|simpl; apply pow2_pos|].
      rewrite E'. mstep. eexists. split; [done|]. split_and!; [done..|]. exists m1, [h].
      split_and!; [done..|]. cbn. split_and!; [done..|lia|]. destruct cd; [done|]. rewrite pow2_S.
      pose proof (pow2_pos cd). lia.
Qed.

Lemma partial_path_ok w l m : witness_rep w l m ->
  exists q, partial_path w = Ok q /\ fills (tree_unfilled (w_tree w) Depth) q m.
Proof using Depth_pos.
  intros Hw. pose proof Hw as (Ht & Hn & Hl & m1 & m2 & -> & Hf & Hc). unfold partial_path.
  destruct (w_cursor w) as [c|] eqn:Ec.
  - destruct Hc as (Hcr & Hu & Hm2). pose proof (witness_cursor_bound w l _ c m2 Hw Ec Hm2) as Hcd.
    rewrite (root_with_ok c m2 (w_cursor_depth w) [] []); [|done|lia|lia|constructor|done].
    mstep. eexists. split; [done|]. rewrite app_nil_r. apply fulls_fills_part; [done..|lia].
  - subst m2. rewrite app_nil_r. eexists. split; [done|]. by apply fulls_fills.
Qed.

Local Abbreviation wit_t := (IncrementalWitness (Depth := Depth) (H := H)).
Definition witness_append_all (hs : list H) (w : wit_t) : result wit_t :=
  foldM (fun w h => witness_append h w) hs w.

Lemma witness_append_all_ok hs : forall w l m, witness_rep w l m -> length l + length m + length hs <= 2 ^ Depth ->
  exists w', witness_append_all hs w = Ok w' /\ witness_rep w' l (m ++ hs).
Proof using Depth_pos Depth_32.
  induction hs as [|h hs IH]; intros w l m Hw Hl; simpl in Hl.
  - exists w. rewrite app_nil_r. done.
  - destruct (witness_append_ok w l m h Hw) as (w1 & E1 & H1); [lia|].
    destruct (IH w1 l (m ++ [h]) H1) as (w' & E' & H'); [rewrite length_app; simpl; lia|].
    exists w'. rewrite <- app_assoc in H'. split; [|done].
    unfold witness_append_all. cbn [foldM]. rewrite E1. exact E'.
Qed.

(** *** Positions *)

Lemma size_loop_ok ps : forall k ret lp,
  parents_rep (S k) ps lp -> k + length ps <= 30 -> (0 <= ret)%Z -> (ret + Z.of_nat (length lp) < 2 ^ 63)%Z ->
  foldl (fun ret (p : nat * option H) =>
           match p.2 with
           | Some _ => u64 (ret + u64 (i32 (Z.shiftl 1 (Z.of_nat p.1 + 1))))
           | None => ret
           end) ret (imap (fun i x => (k + i, x)) ps) = (ret + Z.of_nat (length lp))%Z.
Proof using Type. clear Depth_pos Depth_32.
  induction ps as [|o ps IH]; intros k ret lp Hr Hk H0r Hlt; inversion Hr as [|? ? ? Hr'|? ? l1 l2 Hr' Hl2]; subst;
    rewrite ?imap_cons; cbn [imap foldl snd fst length] in *.
  - simpl. lia.
  - rewrite <- (IH (S k) ret lp) by (done || lia). f_equal. apply imap_ext. intros. simpl. f_equal. lia.
  - rewrite Nat.add_0_r. rewrite length_app, Hl2 in *.
    assert (E : (Z.of_nat (2 ^ S k) = 2 ^ (Z.of_nat k + 1))%Z) by (rewrite Nat2Z.inj_pow; f_equal; lia).
    assert (2 ^ (Z.of_nat k + 1) <= 2 ^ 30)%Z by (apply Z.pow_le_mono_r; lia).
    assert (0 < 2 ^ (Z.of_nat k + 1))%Z by (apply Z.pow_pos_nonneg; lia).
    rewrite Z.shiftl_1_l. rewrite Nat2Z.inj_add, E in Hlt.
    rewrite (i32_small (2 ^ _)), (u64_small (2 ^ _)), u64_small by (unfold is_i32, is_u64; lia).
    rewrite Nat2Z.inj_add, E.
    transitivity ((ret + 2 ^ (Z.of_nat k + 1)) + Z.of_nat (length l1))%Z; [|lia].
    rewrite <- (IH (S k) (ret + 2 ^ (Z.of_nat k + 1))%Z l1) by (done || lia).
    f_equal. apply imap_ext. intros. simpl. f_equal. lia.
Qed.

Lemma tree_size_ok t l : tree_rep t l -> length l <= 2 ^ 31 -> tree_size t = Z.of_nat (length l).
Proof using Type. clear Depth_pos Depth_32.
  intros Ht Hl. pose proof (tree_rep_parents t l 31 Ht Hl ltac:(lia)) as Hps.
  assert (Hz : (Z.of_nat (length l) <= 2 ^ 31)%Z).
  { apply Nat2Z.inj_le in Hl. rewrite Nat2Z.inj_pow in Hl. exact Hl. }
  destruct Ht as (lp & ll & -> & Hp & _ & Hcur). rewrite length_app in *.
  unfold tree_size, size_loop, cursor_rep in *.
  assert (E : forall ret, (0 <= ret <= 2)%Z -> foldl (fun ret (p : nat * option H) =>
     match p.2 with
     | Some _ => u64 (ret + u64 (i32 (Z.shiftl 1 (Z.of_nat p.1 + 1))))
     | None => ret
     end) ret (imap pair (parents t)) = (ret + Z.of_nat (length lp))%Z).
  { intros ret Hret. rewrite <- (size_loop_ok (parents t) 0 ret lp) by (done || lia).
    f_equal. }
  destruct (left t), (right t); try done; simpl; rewrite E by lia.
  - subst ll. simpl. lia.
  - subst ll. simpl. lia.
  - destruct Hcur as [-> _]. simpl. lia.
Qed.
End Correct.

Section Bits.
Fixpoint bits_val (v : list bool) : Z :=
  match v with [] => 0 | b :: v' => Z.b2z b + 2 * bits_val v' end.

Lemma bits_val_nonneg v : 0 <= bits_val v.
Proof. induction v as [|[] v IH]; simpl; lia. Qed.

Lemma bits_val_false n v : bits_val (v ++ replicate n false) = bits_val v.
Proof.
  induction v as [|b v IH]; simpl; [|lia]. induction n as [|n IH]; simpl; [done|]. rewrite IH. done.
Qed.

Lemma lor_low_bit x k : 0 <= k -> Z.lor (x * 2 ^ (k + 1)) (2 ^ k) = x * 2 ^ (k + 1) + 2 ^ k.
Proof.
  intros Hk. rewrite Z.lor_comm, lor_disjoint; [lia|lia|].
  split; [apply Z.pow_nonneg; lia|apply Z.pow_lt_mono_r; lia].
Qed.

Lemma convertVectorToInt_reverse v : (length v <= 64)%nat -> convertVectorToInt (reverse v) = Ok (bits_val v).
Proof.
  intros Hv. unfold convertVectorToInt. rewrite length_reverse.
  destruct (Z.ltb_spec 64 (Z.of_nat (length v))); [lia|]. f_equal.
  assert (G : forall n, Z.of_nat (length v) <= n -> n <= 64 ->
    foldl (fun acc (p : nat * bool) =>
      if p.2 then Z.lor acc (u64 (Z.shiftl 1 (n - 1 - Z.of_nat p.1))) else acc) 0 (imap pair (reverse v))
    = bits_val v * 2 ^ (n - Z.of_nat (length v))).
  { clear. induction v as [|b v IH]; intros n Hl Hn; [done|].
    rewrite reverse_cons, imap_app, foldl_app, IH by (simpl in Hl; lia).
    cbn [imap foldl fst snd]. rewrite length_reverse. cbn [bits_val].
    simpl in Hl. set (k := n - 1 - Z.of_nat (length v)).
    replace (n - Z.of_nat (length v)) with (k + 1) by lia.
    replace (n - Z.of_nat (length (b :: v))) with k by (simpl; lia).
    cbn [compose]. rewrite Nat.add_0_r. fold k.
    assert (2 ^ (k + 1) = 2 * 2 ^ k) as Ek by (rewrite Z.pow_add_r by lia; lia).
    destruct b; simpl; [|rewrite Ek; lia].
    rewrite Z.shiftl_1_l, u64_small, lor_low_bit by
      (lia || (split; [apply Z.pow_nonneg; lia|apply Z.pow_lt_mono_r; lia])).
    rewrite Ek. lia. }
  rewrite G by lia. rewrite Z.sub_diag. lia.
Qed.
End Bits.

(** ** The tree as the caches use it *)

#[global] Instance IncrementalMerkleTree_MerkleTree Depth H `{HashType H} :
  MerkleTree (IncrementalMerkleTree Depth H) := {|
  tree_new := tree_empty;
  tree_root t := match tree_root_hash t with Ok h => to_uint256 h | _ => uint256_null end;
  tree_append cm t := tree_append_hash (of_uint256 cm) t;
  tree_empty_root :=
    match empty_root (Depth := Depth) (H := H) Depth with Ok h => to_uint256 h | _ => uint256_null end
|}.

(** The template asserts [Depth >= 1]. *)
#[global] Instance IncrementalMerkleTree_laws n H `{HashType H} :
  MerkleTreeLaws (IncrementalMerkleTree (S n) H).
Proof.
  split. cbn [tree_root tree_new tree_empty_root IncrementalMerkleTree_MerkleTree].
  rewrite (root_ok (Depth := S n) ltac:(lia) tree_empty []), empty_root_ok by
    (lia || apply tree_rep_empty || (simpl; lia)).
  done.
Qed.

Section Statements.
Context {Depth : nat} {H : Type} `{HashType H}.

Lemma wfcheck_ok (t : IncrementalMerkleTree Depth H) l :
  (1 <= Depth)%nat -> tree_rep t l -> (length l <= 2 ^ Depth)%nat -> wfcheck t = Ok tt.
Proof.
  intros Hd Ht Hl. pose proof (tree_rep_parents t l Depth Ht Hl Hd) as Hps.
  destruct Ht as (lp & ll & -> & Hp & Hcan & Hcur). unfold wfcheck, canonical, cursor_rep in *.
  destruct (Nat.leb_spec Depth (length (parents t))); [lia|].
  destruct (last (parents t)) as [[p|]|]; [|done|];
    (destruct (left t), (right t); try done; simpl; destruct Hcur as [_ ->]; done).
Qed.

Lemma parents_rep_bits d (ps : list (option H)) lp :
  parents_rep d ps lp -> Z.of_nat (length lp) = 2 ^ Z.of_nat d * bits_val (present <$> ps).
Proof.
  induction 1 as [d|d ps l Hr IH|d ps l1 l2 Hr IH Hl]; cbn [fmap list_fmap bits_val present Z.b2z length].
  - lia.
  - rewrite Nat2Z.inj_succ, Z.pow_succ_r in IH by lia. rewrite IH. unfold fmap. lia.
  - rewrite length_app, Nat2Z.inj_add, IH, Hl, Nat2Z.inj_pow, Nat2Z.inj_succ, Z.pow_succ_r by lia.
    unfold fmap. lia.
Qed.

(** The index bits of a path spell the position of the tree's last leaf. *)
Lemma path_pairs_index (t : IncrementalMerkleTree Depth H) l q pairs :
  tree_rep t l -> l <> [] -> (length l <= 2 ^ Depth)%nat -> (1 <= Depth)%nat ->
  path_pairs t q = Ok pairs ->
  bits_val pairs.*1 = Z.of_nat (length l) - 1 /\ length pairs = Depth.
Proof.
  intros Ht Hn Hl Hd E. pose proof (tree_rep_parents t l Depth Ht Hl Hd) as Hps.
  pose proof (tree_rep_left t l Ht Hn) as Hleft.
  destruct Ht as (lp & ll & -> & Hp & _ & Hcur). unfold path_pairs, cursor_rep in *.
  destruct (left t) as [a|]; [|done]. ok_inv. destruct a0 as [[b0 h0] q0].
  destruct a1 as [[d mid] q1]. ok_inv. apply path_parents_shape in E1 as [-> Emid].
  apply path_fill_shape in E2. apply parents_rep_bits in Hp. rewrite length_app.
  cbn [fst]. rewrite fmap_cons, fmap_app, Emid, E2. cbn [bits_val fst]. rewrite bits_val_false.
  apply (f_equal length) in Emid. apply (f_equal length) in E2.
  rewrite !length_fmap in Emid. rewrite length_fmap, length_replicate in E2.
  cbn [length]. rewrite length_app, Emid, E2. split; [|lia].
  rewrite Nat2Z.inj_add, Hp. change (2 ^ Z.of_nat 1) with 2.
  destruct (right t) as [b|]; subst ll; ok_inv; simpl; lia.
Qed.

Lemma tree_last_ok (t : IncrementalMerkleTree Depth H) l : tree_rep t l ->
  tree_last t = match last l with Some x => Ok x | None => Throw "tree has no cursor" end.
Proof.
  intros (lp & ll & -> & Hp & _ & Hcur). unfold cursor_rep, tree_last in *.
  destruct (left t) as [a|], (right t) as [b|]; [| |done|]; try (subst ll; by rewrite last_app).
  destruct Hcur as [-> E]. rewrite E in Hp. inversion Hp; subst. done.
Qed.

(** (C27) Appending [hs] to an empty tree succeeds while it fits, gives a tree
    that passes the deserialisation check and whose root is the root of the
    padded perfect tree over [hs]; [last] is the last of [hs], and throws when
    there is none; [size] is their number as long as that is at most 2^31,
    beyond which [1 << 31] overflows its [int]; a full tree refuses the next
    leaf. *)
Theorem IncrementalMerkleTree_correct (hs : list H) :
  (1 <= Depth)%nat -> Z.of_nat Depth < 2 ^ 32 -> (length hs <= 2 ^ Depth)%nat ->
  exists t : IncrementalMerkleTree Depth H,
    append_all hs tree_empty = Ok t /\ tree_root_hash t = Ok (mroot Depth hs) /\ wfcheck t = Ok tt
    /\ tree_last t = match last hs with Some x => Ok x | None => Throw "tree has no cursor" end
    /\ ((length hs <= 2 ^ 31)%nat -> tree_size t = Z.of_nat (length hs))
    /\ (length hs = (2 ^ Depth)%nat -> forall h, tree_append_hash h t = Throw "tree is full").
Proof.
  intros Hd Hd32 Hl.
  destruct (append_all_ok Hd Hd32 hs tree_empty []) as (t & E & Ht); [apply tree_rep_empty|done|].
  exists t. split_and!; [done|by apply root_ok|by eapply wfcheck_ok|by apply tree_last_ok|by apply tree_size_ok|].
  intros Hf h. by apply (append_full Hd Hd32 t hs).
Qed.

(** (C28) A witness taken after the leaves [l] and then fed the leaves [m] has
    the root of the tree over [l ++ m], the last leaf of [l] as its element,
    its position as index, and an authentication path from that element to
    that root. *)
Theorem IncrementalWitness_correct (l m : list H) (x : H) :
  (1 <= Depth <= 64)%nat -> (length (l ++ [x]) + length m <= 2 ^ Depth)%nat ->
  exists (t : IncrementalMerkleTree Depth H) w q pairs path,
    append_all (l ++ [x]) tree_empty = Ok t
    /\ witness_append_all m (tree_witness t) = Ok w
    /\ witness_root w = Ok (mroot Depth ((l ++ [x]) ++ m))
    /\ witness_element w = Ok x
    /\ partial_path w = Ok q /\ path_pairs (w_tree w) q = Ok pairs /\ witness_path w = Ok path
    /\ auth 0 x pairs = mroot Depth ((l ++ [x]) ++ m) /\ length pairs = Depth
    /\ convertVectorToInt (mp_index path) = Ok (Z.of_nat (length l)).
Proof.
  intros [Hd Hd64] Hl. assert (Hd32 : Z.of_nat Depth < 2 ^ 32) by lia.
  assert (Hn : l ++ [x] <> []) by (by destruct l).
  destruct (append_all_ok Hd Hd32 (l ++ [x]) tree_empty []) as (t & E & Ht); [apply tree_rep_empty|simpl; lia|].
  destruct (witness_append_all_ok Hd Hd32 m (tree_witness t) (l ++ [x]) []) as (w & Ew & Hw);
    [apply witness_new_ok; done || lia|simpl; lia|].
  simpl in Hw, Ht. pose proof Hw as (Htw & _ & _ & _).
  destruct (partial_path_ok Hd w _ _ Hw) as (q & Eq & Hfill).
  assert (Eroot : tree_root_with (w_tree w) Depth q = Ok (mroot Depth ((l ++ [x]) ++ m))).
  { apply root_with_ok; [done|lia|lia|done|done]. }
  pose proof (path_pairs_auth (w_tree w) q) as Hauth.
  pose proof (tree_rep_left _ _ Htw Hn) as Hleft.
  assert (Hlast : exists a, left (w_tree w) = Some a /\ default a (right (w_tree w)) = x
                            /\ tree_last (w_tree w) = Ok x).
  { destruct Htw as (lp & ll & Ell & Hp & _ & Hcur). unfold cursor_rep, tree_last in *.
    destruct (left (w_tree w)) as [a|], (right (w_tree w)) as [b|]; try done; subst ll; exists a; simpl.
    - change [a; b] with ([a] ++ [b]) in Ell. rewrite app_assoc in Ell.
      apply app_inj_2 in Ell as [_ [= ->]]; done.
    - apply app_inj_2 in Ell as [_ [= ->]]; done. }
  destruct Hlast as (a & Ea & Ex & El). rewrite Ea, Eroot, Ex in Hauth.
  destruct (path_pairs (w_tree w) q) as [pairs| |] eqn:Epp; try done. injection Hauth as Hauth.
  destruct (path_pairs_index _ _ _ _ Htw Hn ltac:(lia) Hd Epp) as [Hidx Hlen].
  eexists t, w, q, pairs, _. split_and!; try done.
  - unfold witness_root. by rewrite Eq.
  - unfold witness_path, tree_path. rewrite Eq. mstep. by rewrite Epp.
  - simpl. rewrite convertVectorToInt_reverse by (rewrite length_fmap; lia).
    rewrite Hidx, length_app. simpl. f_equal. lia.
Qed.
End Statements.

(** ** A concrete hash type *)

(** A transparent stand-in for the hash functions, to run the trees on. *)
Definition toy_hash : HashType Z := {|
  combine a b d := (3 * a + 5 * b + 7 * Z.of_nat d + 11) mod 1000003;
  uncommitted := 1;
  of_uint256 x := x;
  to_uint256 x := x
|}.

Lemma IncrementalMerkleTree_correct_witness :
  exists t : IncrementalMerkleTree 2 Z,
    append_all (H0 := toy_hash) [10; 20; 30] tree_empty = Ok t
    /\ tree_root_hash (H0 := toy_hash) t = Ok (mroot (H0 := toy_hash) 2 [10; 20; 30])
    /\ tree_last t = Ok 30.
Proof.
  destruct (IncrementalMerkleTree_correct (Depth := 2) (H0 := toy_hash) [10; 20; 30])
    as (t & E & R & _ & L & _); [lia|lia|simpl; lia|].
  exists t. split; [exact E|]. split; [exact R|exact L].
Defined.

Lemma IncrementalWitness_correct_witness :
  exists (t : IncrementalMerkleTree 3 Z) w,
    append_all (H0 := toy_hash) [10; 20] tree_empty = Ok t
    /\ witness_append_all (H0 := toy_hash) [30; 40; 50] (tree_witness t) = Ok w
    /\ witness_root (H0 := toy_hash) w = Ok (mroot (H0 := toy_hash) 3 [10; 20; 30; 40; 50]).
Proof.
  destruct (IncrementalWitness_correct (Depth := 3) (H0 := toy_hash) [10] [30; 40; 50] 20)
    as (t & w & q & pairs & path & E & Ew & R & _); [lia|simpl; lia|].
  exists t, w. split; [exact E|split; [exact Ew|exact R]].
Defined.
