(* ===== verification/Serialize.v ===== *)
(** * Serialization

    serialize.h: little-endian integers, compact sizes, variable-length
    integers, byte vectors, vectors, arrays and optional values, written to
    and read from a byte stream.  Reading past the end of the stream throws,
    as [CDataStream::read] does; streams are shorter than 4 GiB.

    [codec w r ok] states that a writer and a reader are inverse to each
    other: what is written for an [ok] value is read back, and every byte
    string the reader accepts is what the writer makes of the value read. *)
From S2P Require Import Prelude.
From stdpp Require Import prelude strings list.
#[local] Open Scope Z_scope.

(** ** Streams *)

Definition writer : Type := result bytes.
Definition wseq (a b : writer) : writer := x ← a; y ← b; Ok (x ++ y).
Declare Scope stream_scope.
Notation "a ⧺ b" := (wseq a b) (at level 60, right associativity) : stream_scope.
#[global] Open Scope stream_scope.

Definition reader (A : Type) : Type := bytes -> result (A * bytes).
#[global] Instance reader_ret : MRet reader := fun A a s => Ok (a, s).
#[global] Instance reader_bind : MBind reader := fun A B (f : A -> reader B) (m : reader A) s =>
  match m s with
  | Ok (a, s') => f a s'
  | Throw msg => Throw msg
  | Abort => Abort
  end.
Definition read_throw {A} (msg : string) : reader A := fun _ => Throw msg.

(** [CBaseDataStream::read] of [n] bytes. *)
Definition read_bytes (n : nat) : reader bytes := fun s =>
  if (n <=? length s)%nat then Ok (take n s, drop n s) else Throw "end of data".
(** [CBaseDataStream::ignore]; its argument is an [int]. *)
Definition stream_ignore (n : nat) : reader unit := fun s =>
  if 2 ^ 31 <=? Z.of_nat n then Throw "nSize negative"
  else if (n <=? length s)%nat then Ok (tt, drop n s) else Throw "end of data".

(** ** Integers *)

(** [ser_writedata8] to [ser_writedata64] and the [Serialize] overloads on
    integers: the value at its width, least significant byte first. *)
Definition ser_le (n : nat) (z : Z) : writer := Ok (le_bytes n z).
Definition unser_le (n : nat) : reader Z := b ← read_bytes n; mret (le_val b).

Definition ser_u8 := ser_le 1.
Definition unser_u8 := unser_le 1.
Definition ser_u16 := ser_le 2.
Definition unser_u16 := unser_le 2.
Definition ser_u32 := ser_le 4.
Definition unser_u32 := unser_le 4.
Definition ser_u64 := ser_le 8.
Definition unser_u64 := unser_le 8.
Definition ser_i32 := ser_le 4.
Definition unser_i32 : reader Z := x ← unser_u32; mret (i32 x).
Definition ser_i64 := ser_le 8.
Definition unser_i64 : reader Z := x ← unser_u64; mret (i64 x).
(** [base_blob<256>]. *)
Definition ser_uint256 : uint256 -> writer := ser_le 32.
Definition unser_uint256 : reader uint256 := unser_le 32.
(** [CFlatData] and arrays of [unsigned char] of a fixed length. *)
Definition ser_flat (b : bytes) : writer := Ok b.
Definition unser_flat (n : nat) : reader bytes := read_bytes n.

(** ** Compact sizes *)

Definition MAX_SIZE : Z := 0x02000000.

Definition GetSizeOfCompactSize (nSize : Z) : Z :=
  if nSize <? 253 then 1
  else if nSize <=? 0xFFFF then 3
  else if nSize <=? 0xFFFFFFFF then 5
  else 9.

Definition WriteCompactSize (nSize : Z) : writer :=
  if nSize <? 253 then ser_u8 nSize
  else if nSize <=? 0xFFFF then ser_u8 253 ⧺ ser_u16 nSize
  else if nSize <=? 0xFFFFFFFF then ser_u8 254 ⧺ ser_u32 nSize
  else ser_u8 255 ⧺ ser_u64 nSize.

Definition non_canonical : string := "non-canonical ReadCompactSize()".

Definition ReadCompactSize : reader Z :=
  chSize ← unser_u8;
  nSizeRet ←
    (if chSize <? 253 then mret chSize
     else if chSize =? 253 then
       n ← unser_u16; if n <? 253 then read_throw non_canonical else mret n
     else if chSize =? 254 then
       n ← unser_u32; if n <? 0x10000 then read_throw non_canonical else mret n
     else
       n ← unser_u64; if n <? 0x100000000 then read_throw non_canonical else mret n);
  if MAX_SIZE <? nSizeRet then read_throw "ReadCompactSize(): size too large" else mret nSizeRet.

(** ** Variable-length integers *)

(** [while (true)] of [GetSizeOfVarInt] and [WriteVarInt], on the value [n]
    of an integer type of [bits] bits: the bytes of [tmp], last first.  The
    loop runs at most [bits] times. *)
Fixpoint varint_loop (fuel : nat) (first : bool) (n : Z) (acc : bytes) : option bytes :=
  match fuel with
  | O => None
  | S fuel' =>
      let acc' := Z.lor (Z.land n 0x7F) (if first then 0x00 else 0x80) :: acc in
      if n <=? 0x7F then Some acc' else varint_loop fuel' false (Z.shiftr n 7 - 1) acc'
  end.

Fixpoint varint_size_loop (fuel : nat) (n nRet : Z) : option Z :=
  match fuel with
  | O => None
  | S fuel' => if n <=? 0x7F then Some (nRet + 1) else varint_size_loop fuel' (Z.shiftr n 7 - 1) (nRet + 1)
  end.
Definition GetSizeOfVarInt (bits : Z) (n : Z) : option Z := varint_size_loop (Z.to_nat bits) n 0.

(** [tmp] has room for [(bits + 6) / 7] bytes; writing past it is an error
    the code relies on never making. *)
Definition WriteVarInt (bits : Z) (n : Z) : writer :=
  match varint_loop (Z.to_nat ((bits + 6) / 7)) true n [] with
  | Some b => Ok b
  | None => Abort
  end.

(** [ReadVarInt] into a type whose wrap-around is [wrap]; each turn reads a
    byte. *)
Fixpoint ReadVarInt_loop (wrap : Z -> Z) (fuel : nat) (n : Z) : reader Z :=
  match fuel with
  | O => fun _ => Throw "end of data"
  | S fuel' =>
      chData ← unser_u8;
      let n := wrap (Z.lor (Z.shiftl n 7) (Z.land chData 0x7F)) in
      if Z.land chData 0x80 =? 0 then mret n
      else ReadVarInt_loop wrap fuel' (wrap (n + 1))
  end.
Definition ReadVarInt (wrap : Z -> Z) : reader Z := fun s => ReadVarInt_loop wrap (S (length s)) 0 s.

(** ** Containers *)

(** [std::vector<unsigned char>], [prevector] of it and [std::string]: one
    opaque blob. *)
Definition ser_blob (v : bytes) : writer := WriteCompactSize (Z.of_nat (length v)) ⧺ Ok v.
Definition unser_blob : reader bytes := n ← ReadCompactSize; read_bytes (Z.to_nat n).

Section Containers.
Context {A : Type} (ser : A -> writer) (unser : reader A).

Definition ser_all (v : list A) : writer := foldr (fun a w => ser a ⧺ w) (Ok []) v.
Fixpoint unser_n (n : nat) : reader (list A) :=
  match n with
  | O => mret []
  | S n' => a ← unser; l ← unser_n n'; mret (a :: l)
  end.

(** [std::vector<T>]. *)
Definition ser_vector (v : list A) : writer := WriteCompactSize (Z.of_nat (length v)) ⧺ ser_all v.
Definition unser_vector : reader (list A) := n ← ReadCompactSize; unser_n (Z.to_nat n).

(** [std::array<T, N>]. *)
Definition ser_array (v : list A) : writer := ser_all v.
Definition unser_array (N : nat) : reader (list A) := unser_n N.

(** [std::optional<T>]. *)
Definition ser_optional (item : option A) : writer :=
  match item with
  | Some a => ser_u8 1 ⧺ ser a
  | None => ser_u8 0
  end.
Definition unser_optional : reader (option A) :=
  discriminant ← unser_u8;
  if discriminant =? 0 then mret None
  else if discriminant =? 1 then a ← unser; mret (Some a)
  else read_throw "non-canonical optional discriminant".
End Containers.

(** ** Inverses *)

Definition reads {A} (r : reader A) (b : bytes) (a : A) : Prop := forall rest, r (b ++ rest) = Ok (a, rest).

Record codec {A} (w : A -> writer) (r : reader A) (ok : A -> Prop) : Prop := {
  codec_fwd : forall a, ok a -> exists b, w a = Ok b /\ is_bytes b /\ reads r b a;
  codec_bwd : forall b a rest, is_bytes b -> r b = Ok (a, rest) ->
    ok a /\ exists b1, w a = Ok b1 /\ b = b1 ++ rest
}.

Lemma reads_ret {A} (a : A) : reads (mret a) [] a.
Proof. intros rest. done. Qed.

Lemma reads_bind {A B} (r : reader A) (f : A -> reader B) b1 b2 a c :
  reads r b1 a -> reads (f a) b2 c -> reads (r ≫= f) (b1 ++ b2) c.
Proof. intros H1 H2 rest. unfold mbind, reader_bind. rewrite <- app_assoc, H1. apply H2. Qed.

Lemma reads_map {A B} (r : reader A) (f : A -> B) b a : reads r b a -> reads (x ← r; mret (f x)) b (f a).
Proof. intros H rest. unfold mbind, reader_bind. by rewrite H. Qed.

Lemma reader_bind_inv {A B} (r : reader A) (f : A -> reader B) s c rest :
  (r ≫= f) s = Ok (c, rest) -> exists a s', r s = Ok (a, s') /\ f a s' = Ok (c, rest).
Proof. unfold mbind, reader_bind. destruct (r s) as [[a s']| |]; [eauto|done..]. Qed.

Lemma reader_ret_inv {A} (a b : A) s rest : (mret a : reader A) s = Ok (b, rest) -> a = b /\ s = rest.
Proof. by intros [= -> ->]. Qed.

Lemma wseq_Ok a b : (Ok a : writer) ⧺ Ok b = Ok (a ++ b).
Proof. done. Qed.

Lemma codec_iff {A} (w : A -> writer) r ok ok' : codec w r ok -> (forall a, ok a <-> ok' a) -> codec w r ok'.
Proof.
  intros [Hf Hb] H. split.
  - intros a Ha. by apply Hf, H.
  - intros b a rest Hs E. destruct (Hb b a rest Hs E) as [Ho Hw]. by rewrite <- H.
Qed.

Lemma is_bytes_app a b : is_bytes (a ++ b) <-> is_bytes a /\ is_bytes b.
Proof. apply Forall_app. Qed.

(** ** Records: one field after the other *)

Lemma codec_field_dep {R A} (f : R -> A) (w1 : A -> writer) r1 ok1 (wk : A -> R -> writer) (k : A -> reader R)
  (okk : A -> R -> Prop) :
  codec w1 r1 ok1 -> (forall a, codec (wk a) (k a) (okk a)) -> (forall a x, ok1 a -> okk a x -> f x = a) ->
  codec (fun x => w1 (f x) ⧺ wk (f x) x) (a ← r1; k a) (fun x => ok1 (f x) /\ okk (f x) x).
Proof.
  intros [Hf1 Hb1] Hk Hfa. split.
  - intros x [Ho Hok]. destruct (Hf1 _ Ho) as (b1 & E1 & Hi1 & Hr1).
    destruct (codec_fwd _ _ _ (Hk (f x)) x Hok) as (b2 & E2 & Hi2 & Hr2).
    exists (b1 ++ b2). rewrite E1, E2. split; [done|]. split; [by apply is_bytes_app|].
    by eapply reads_bind.
  - intros b x rest Hs E. apply reader_bind_inv in E as (a & s' & E1 & E2).
    destruct (Hb1 _ _ _ Hs E1) as (Ho & b1 & Ew1 & ->). apply is_bytes_app in Hs as [_ Hs'].
    destruct (codec_bwd _ _ _ (Hk a) _ _ _ Hs' E2) as (Hok & b2 & Ew2 & ->).
    rewrite (Hfa _ _ Ho Hok). split; [done|]. exists (b1 ++ b2). rewrite Ew1, Ew2. by rewrite <- app_assoc.
Qed.

Lemma codec_field {R A} (f : R -> A) (w1 : A -> writer) r1 ok1 (wk : R -> writer) (k : A -> reader R)
  (okk : A -> R -> Prop) :
  codec w1 r1 ok1 -> (forall a, codec wk (k a) (okk a)) -> (forall a x, ok1 a -> okk a x -> f x = a) ->
  codec (fun x => w1 (f x) ⧺ wk x) (a ← r1; k a) (fun x => ok1 (f x) /\ okk (f x) x).
Proof. apply (codec_field_dep f w1 r1 ok1 (fun _ => wk)). Qed.

Lemma codec_wext {A} (w w' : A -> writer) r ok :
  codec w r ok -> (forall x, ok x -> w x = w' x) -> codec w' r ok.
Proof.
  intros [Hf Hb] H. split.
  - intros a Ha. rewrite <- H by done. by apply Hf.
  - intros b a rest Hs E. destruct (Hb b a rest Hs E) as [Ho Hw]. by rewrite <- H.
Qed.

Lemma codec_last {R A} (f : R -> A) (mk : A -> R) (w : A -> writer) r ok :
  codec w r ok -> (forall a, f (mk a) = a) ->
  codec (fun x => w (f x)) (a ← r; mret (mk a)) (fun x => ok (f x) /\ x = mk (f x)).
Proof.
  intros [Hf Hb] Hmk. split.
  - intros x [Ho Hx]. destruct (Hf _ Ho) as (b & E & Hi & Hr). exists b. split; [done|]. split; [done|].
    rewrite <- (app_nil_r b). eapply reads_bind; [exact Hr|]. rewrite <- Hx. apply reads_ret.
  - intros b x rest Hs E. apply reader_bind_inv in E as (a & s' & E1 & E2).
    apply reader_ret_inv in E2 as [<- <-]. destruct (Hb _ _ _ Hs E1) as (Ho & Hw). by rewrite Hmk.
Qed.

Lemma codec_ret {R} (v : R) : codec (fun _ => Ok []) (mret v) (fun x => x = v).
Proof.
  split.
  - intros x ->. exists []. split; [done|]. split; [constructor|apply reads_ret].
  - intros b x rest _ E. apply reader_ret_inv in E as [<- <-]. split; [done|]. by exists [].
Qed.

Ltac codec_eq := cbv beta; intros; destruct_and?; match goal with H : ?x = _ |- _ = _ => by rewrite H end.

(** Solves the codec of a record from those of its fields, up to the shape of
    the value predicate. *)
Ltac codec_record :=
  (repeat match goal with
   | |- codec (fun x => _ ⧺ _) _ _ => eapply codec_field; [solve [eauto with codec]|intros ?|]
   | |- codec (fun x => _ (_ x)) _ _ => eapply codec_last; [solve [eauto with codec]|done]
   end); codec_eq.

Create HintDb codec discriminated.

(** The values of the types a codec covers. *)
Definition flat_ok (n : nat) (b : bytes) : Prop := length b = n /\ is_bytes b.
Definition blob_ok (b : bytes) : Prop := is_bytes b /\ Z.of_nat (length b) <= MAX_SIZE.
Definition array_ok {A} (ok : A -> Prop) (n : nat) (l : list A) : Prop := length l = n /\ Forall ok l.
Definition vector_ok {A} (ok : A -> Prop) (l : list A) : Prop :=
  Z.of_nat (length l) <= MAX_SIZE /\ Forall ok l.

(** ** The primitive codecs *)

Lemma read_bytes_ok n b rest : length b = n -> read_bytes n (b ++ rest) = Ok (b, rest).
Proof.
  intros <-. unfold read_bytes. rewrite length_app. rewrite (proj2 (Nat.leb_le _ _)) by lia.
  by rewrite take_app_length, drop_app_length.
Qed.

Lemma read_bytes_inv n s b rest : read_bytes n s = Ok (b, rest) -> length b = n /\ s = b ++ rest.
Proof.
  unfold read_bytes. destruct (Nat.leb_spec n (length s)); [|done]. intros [= <- <-].
  split; [rewrite length_take; lia|by rewrite take_drop].
Qed.

Lemma flat_codec n : codec ser_flat (unser_flat n) (flat_ok n).
Proof.
  split.
  - intros b [Hn Hb]. exists b. split; [done|]. split; [done|]. intros rest. by apply read_bytes_ok.
  - intros b a rest Hs E. apply read_bytes_inv in E as [Hn ->]. apply is_bytes_app in Hs as [Ha _].
    split; [done|]. by exists a.
Qed.

Lemma le_codec n : codec (ser_le n) (unser_le n) (fun z => 0 <= z < 256 ^ Z.of_nat n).
Proof.
  split.
  - intros z Hz. exists (le_bytes n z). split; [done|]. split; [apply le_bytes_bytes|].
    intros rest. unfold unser_le, mbind, reader_bind. rewrite read_bytes_ok by apply length_le_bytes.
    by rewrite le_val_le_bytes_small.
  - intros b z rest Hs E. apply reader_bind_inv in E as (x & s' & E1 & E2).
    apply read_bytes_inv in E1 as [Hn ->]. apply reader_ret_inv in E2 as [<- <-].
    apply is_bytes_app in Hs as [Hx _]. split; [rewrite <- Hn; by apply le_val_bound|].
    exists x. unfold ser_le. rewrite <- Hn, le_bytes_le_val by done. done.
Qed.

Lemma u8_codec : codec ser_u8 unser_u8 is_u8.
Proof. apply (le_codec 1). Qed.
Lemma u16_codec : codec ser_u16 unser_u16 (fun z => 0 <= z < 2 ^ 16).
Proof. apply (le_codec 2). Qed.
Lemma u32_codec : codec ser_u32 unser_u32 is_u32.
Proof. apply (le_codec 4). Qed.
Lemma u64_codec : codec ser_u64 unser_u64 is_u64.
Proof. apply (le_codec 8). Qed.

Definition is_uint256 (z : uint256) : Prop := 0 <= z < 2 ^ 256.
Lemma uint256_codec : codec ser_uint256 unser_uint256 is_uint256.
Proof. apply (le_codec 32). Qed.

(** A signed integer is the unsigned one of the same bytes. *)
Lemma signed_codec (n : nat) (wrap : Z -> Z) (ok : Z -> Prop) :
  (forall z, ok (wrap z)) -> (forall z, le_bytes n (wrap z) = le_bytes n z) ->
  (forall z, ok z -> wrap (z mod 256 ^ Z.of_nat n) = z) ->
  codec (ser_le n) (x ← unser_le n; mret (wrap x)) ok.
Proof.
  intros Hok Hle Hw. split.
  - intros z Hz. exists (le_bytes n z). split; [done|]. split; [apply le_bytes_bytes|].
    intros rest. unfold unser_le, mbind, reader_bind. rewrite read_bytes_ok by apply length_le_bytes.
    unfold mret, reader_ret. by rewrite le_val_le_bytes, Hw.
  - intros b z rest Hs E. apply reader_bind_inv in E as (x & s' & E1 & E2).
    apply reader_ret_inv in E2 as [<- <-].
    destruct (codec_bwd _ _ _ (le_codec n) _ _ _ Hs E1) as (_ & b1 & Ew & ->). split; [done|].
    exists b1. split; [|done]. unfold ser_le in *. by rewrite Hle.
Qed.

Lemma le_bytes_mod n z z' : z mod 256 ^ Z.of_nat n = z' mod 256 ^ Z.of_nat n -> le_bytes n z = le_bytes n z'.
Proof.
  intros H. rewrite <- (le_bytes_le_val (le_bytes n z)), <- (le_bytes_le_val (le_bytes n z')) by apply le_bytes_bytes.
  by rewrite !length_le_bytes, !le_val_le_bytes, H.
Qed.

Lemma i32_codec : codec ser_i32 unser_i32 is_i32.
Proof.
  apply (signed_codec 4); [apply i32_bound|intros z; apply le_bytes_mod, u32_i32|].
  intros z Hz. change (i32 (u32 z) = z). destruct (decide (0 <= z)).
  - rewrite u32_small, i32_small; [done|done|unfold is_i32, is_u32 in *; lia].
  - unfold is_i32 in Hz. unfold u32. rewrite <- (Z.mod_add z 1) by lia. rewrite Z.mod_small by lia.
    unfold i32. replace (z + 1 * 2 ^ 32 + 2 ^ 31) with (z + 2 ^ 31 + 1 * 2 ^ 32) by lia.
    rewrite Z.mod_add, Z.mod_small by lia. lia.
Qed.

Lemma i64_codec : codec ser_i64 unser_i64 is_i64.
Proof.
  apply (signed_codec 8); [apply i64_bound|intros z; apply le_bytes_mod, u64_i64|].
  intros z Hz. change (i64 (u64 z) = z). destruct (decide (0 <= z)).
  - rewrite u64_small, i64_small; [done|done|unfold is_i64, is_u64 in *; lia].
  - unfold is_i64 in Hz. unfold u64. rewrite <- (Z.mod_add z 1) by lia. rewrite Z.mod_small by lia.
    unfold i64. replace (z + 1 * 2 ^ 64 + 2 ^ 63) with (z + 2 ^ 63 + 1 * 2 ^ 64) by lia.
    rewrite Z.mod_add, Z.mod_small by lia. lia.
Qed.

#[export] Hint Resolve flat_codec u8_codec u16_codec u32_codec u64_codec i32_codec i64_codec uint256_codec : codec.

(** ** Compact sizes: one encoding per size *)

Lemma le_reads n z : 0 <= z < 256 ^ Z.of_nat n -> reads (unser_le n) (le_bytes n z) z.
Proof. intros Hz. by destruct (codec_fwd _ _ _ (le_codec n) z Hz) as (b & [= <-] & _ & Hr). Qed.

Lemma CompactSize_reads n : 0 <= n <= MAX_SIZE ->
  exists b, WriteCompactSize n = Ok b /\ is_bytes b /\ reads ReadCompactSize b n.
Proof.
  unfold MAX_SIZE. intros Hn. unfold WriteCompactSize, ReadCompactSize.
  assert (Hmax : (MAX_SIZE <? n) = false) by (apply Z.ltb_ge; unfold MAX_SIZE; lia).
  destruct (Z.ltb_spec n 253).
  { exists (le_bytes 1 n). split; [done|]. split; [apply le_bytes_bytes|].
    rewrite <- (app_nil_r (le_bytes 1 n)). eapply reads_bind; [apply (le_reads 1); lia|].
    rewrite (proj2 (Z.ltb_lt _ _)) by lia. intros rest. unfold mbind, reader_bind. cbn. by rewrite Hmax. }
  destruct (Z.leb_spec n 0xFFFF).
  { exists (le_bytes 1 253 ++ le_bytes 2 n). split; [done|].
    split; [apply is_bytes_app; split; apply le_bytes_bytes|].
    eapply reads_bind; [apply (le_reads 1); lia|]. cbn -[le_bytes].
    intros rest. unfold mbind, reader_bind. rewrite (le_reads 2) by lia.
    rewrite (proj2 (Z.ltb_ge n 253)) by lia. cbn. by rewrite Hmax. }
  rewrite (proj2 (Z.leb_le n 0xFFFFFFFF)) by lia.
  exists (le_bytes 1 254 ++ le_bytes 4 n). split; [done|].
  split; [apply is_bytes_app; split; apply le_bytes_bytes|].
  eapply reads_bind; [apply (le_reads 1); lia|]. cbn -[le_bytes].
  intros rest. unfold mbind, reader_bind. rewrite (le_reads 4) by lia.
  rewrite (proj2 (Z.ltb_ge n 0x10000)) by lia. cbn. by rewrite Hmax.
Qed.

Lemma compact_tail (n : nat) (lo : Z) b m rest : is_bytes b ->
  (x ← unser_le n; if x <? lo then read_throw non_canonical else mret x) b = Ok (m, rest) ->
  lo <= m < 256 ^ Z.of_nat n /\ b = le_bytes n m ++ rest.
Proof.
  intros Hs E. apply reader_bind_inv in E as (x & s' & E1 & E2).
  destruct (codec_bwd _ _ _ (le_codec n) _ _ _ Hs E1) as (Hx & b1 & [= <-] & ->).
  destruct (Z.ltb_spec x lo); [done|]. apply reader_ret_inv in E2 as [<- <-]. split; [lia|done].
Qed.

Lemma CompactSize_codec : codec WriteCompactSize ReadCompactSize (fun n => 0 <= n <= MAX_SIZE).
Proof.
  split; [apply CompactSize_reads|].
  intros b n rest Hs E. apply reader_bind_inv in E as (ch & s1 & E1 & E).
  apply reader_bind_inv in E as (m & s2 & E2 & E3).
  assert (m = n /\ s2 = rest /\ n <= MAX_SIZE) as (-> & -> & Hmax).
  { destruct (Z.ltb_spec MAX_SIZE m); [done|]. apply reader_ret_inv in E3 as [<- <-]. done. }
  clear E3. destruct (codec_bwd _ _ _ u8_codec _ _ _ Hs E1) as (Hch & b1 & [= <-] & ->).
  apply is_bytes_app in Hs as [_ Hs]. unfold WriteCompactSize, MAX_SIZE, is_u8 in *.
  destruct (Z.ltb_spec ch 253).
  { apply reader_ret_inv in E2 as [<- <-]. split; [lia|]. exists (le_bytes 1 ch).
    by rewrite (proj2 (Z.ltb_lt _ _)) by lia. }
  destruct (Z.eqb_spec ch 253) as [->|].
  { apply (compact_tail 2) in E2 as [Hb ->]; [|done]. split; [lia|].
    exists (le_bytes 1 253 ++ le_bytes 2 n). rewrite (proj2 (Z.ltb_ge _ _)), (proj2 (Z.leb_le _ _)) by lia.
    by rewrite <- app_assoc. }
  destruct (Z.eqb_spec ch 254) as [->|].
  { apply (compact_tail 4) in E2 as [Hb ->]; [|done]. split; [lia|].
    exists (le_bytes 1 254 ++ le_bytes 4 n).
    rewrite (proj2 (Z.ltb_ge n 253)), (proj2 (Z.leb_gt n 0xFFFF)), (proj2 (Z.leb_le n 0xFFFFFFFF)) by lia.
    by rewrite <- app_assoc. }
  apply (compact_tail 8) in E2 as [Hb _]; [lia|done].
Qed.

(** ** Container codecs *)

Lemma blob_codec : codec ser_blob unser_blob blob_ok.
Proof.
  split.
  - intros v [Hv Hl]. destruct (codec_fwd _ _ _ CompactSize_codec (Z.of_nat (length v)) ltac:(cbv beta; lia)) as (b & E & Hb & Hr).
    exists (b ++ v). unfold ser_blob. rewrite E. split; [done|]. split; [by apply is_bytes_app|].
    eapply reads_bind; [exact Hr|]. intros rest. rewrite Nat2Z.id. by apply read_bytes_ok.
  - intros b v rest Hs E. apply reader_bind_inv in E as (n & s' & E1 & E2).
    destruct (codec_bwd _ _ _ CompactSize_codec _ _ _ Hs E1) as (Hn & b1 & Ew & ->).
    apply read_bytes_inv in E2 as [Hl ->]. apply is_bytes_app in Hs as [_ Hs]. apply is_bytes_app in Hs as [Hv _].
    split; [split; [done|lia]|]. exists (b1 ++ v). unfold ser_blob.
    rewrite Hl, Z2Nat.id, Ew by lia. by rewrite <- app_assoc.
Qed.

Section ContainerCodecs.
Context {A : Type} (w : A -> writer) (r : reader A) (ok : A -> Prop) (Hc : codec w r ok).

Lemma all_codec n : codec (ser_all w) (unser_n r n) (array_ok ok n).
Proof using All.
  induction n as [|n IH].
  - split.
    + intros l [Hl _]. destruct l; [|done]. exists []. split; [done|]. split; [constructor|apply reads_ret].
    + intros b l rest _ E. apply reader_ret_inv in E as [<- <-]. split; [by split|]. by exists [].
  - split.
    + intros l [Hl Ho]. destruct l as [|a l]; [done|]. apply Forall_cons in Ho as [Ha Ho]. injection Hl as Hl.
      destruct (codec_fwd _ _ _ Hc a Ha) as (b1 & E1 & Hb1 & Hr1).
      destruct (codec_fwd _ _ _ IH l (conj Hl Ho)) as (b2 & E2 & Hb2 & Hr2).
      exists (b1 ++ b2). cbn [ser_all foldr]. fold (ser_all w l). rewrite E1, E2. split; [done|].
      split; [by apply is_bytes_app|]. eapply reads_bind; [exact Hr1|].
      rewrite <- (app_nil_r b2). eapply reads_bind; [exact Hr2|apply reads_ret].
    + intros b l rest Hs E. apply reader_bind_inv in E as (a & s1 & E1 & E).
      destruct (codec_bwd _ _ _ Hc _ _ _ Hs E1) as (Ha & b1 & Ew1 & ->). apply is_bytes_app in Hs as [_ Hs].
      apply reader_bind_inv in E as (l' & s2 & E2 & E3). apply reader_ret_inv in E3 as [<- <-].
      destruct (codec_bwd _ _ _ IH _ _ _ Hs E2) as ([Hl Ho] & b2 & Ew2 & ->).
      split; [split; [simpl; congruence|by constructor]|].
      exists (b1 ++ b2). cbn [ser_all foldr]. fold (ser_all w l'). rewrite Ew1, Ew2. by rewrite <- app_assoc.
Qed.

Lemma array_codec n : codec (ser_array w) (unser_array r n) (array_ok ok n).
Proof using All. apply all_codec. Qed.

Lemma vector_codec :
  codec (ser_vector w) (unser_vector r) (vector_ok ok).
Proof using All.
  split.
  - intros l [Hl Ho].
    destruct (codec_fwd _ _ _ CompactSize_codec (Z.of_nat (length l)) ltac:(cbv beta; lia)) as (b & E & Hb & Hr).
    destruct (codec_fwd _ _ _ (all_codec (length l)) l (conj eq_refl Ho)) as (b2 & E2 & Hb2 & Hr2).
    exists (b ++ b2). unfold ser_vector. rewrite E, E2. split; [done|]. split; [by apply is_bytes_app|].
    eapply reads_bind; [exact Hr|]. by rewrite Nat2Z.id.
  - intros b l rest Hs E. apply reader_bind_inv in E as (n & s' & E1 & E2).
    destruct (codec_bwd _ _ _ CompactSize_codec _ _ _ Hs E1) as (Hn & b1 & Ew & ->).
    apply is_bytes_app in Hs as [_ Hs].
    destruct (codec_bwd _ _ _ (all_codec (Z.to_nat n)) _ _ _ Hs E2) as ([Hl Ho] & b2 & Ew2 & ->).
    split; [split; [lia|done]|]. exists (b1 ++ b2). unfold ser_vector.
    rewrite Hl, Z2Nat.id, Ew, Ew2 by lia. by rewrite <- app_assoc.
Qed.

Lemma optional_codec :
  codec (ser_optional w) (unser_optional r) (fun o => match o with Some a => ok a | None => True end).
Proof using All.
  split.
  - intros [a|] Ho.
    + destruct (codec_fwd _ _ _ Hc a Ho) as (b & E & Hb & Hr). exists (le_bytes 1 1 ++ b).
      unfold ser_optional. rewrite E. split; [done|]. split; [apply is_bytes_app; split; [apply le_bytes_bytes|done]|].
      eapply reads_bind; [apply (le_reads 1); lia|]. cbn -[le_bytes].
      rewrite <- (app_nil_r b). eapply reads_bind; [exact Hr|apply reads_ret].
    + exists (le_bytes 1 0). split; [done|]. split; [apply le_bytes_bytes|].
      rewrite <- (app_nil_r (le_bytes 1 0)). eapply reads_bind; [apply (le_reads 1); lia|apply reads_ret].
  - intros b o rest Hs E. apply reader_bind_inv in E as (d & s' & E1 & E2).
    destruct (codec_bwd _ _ _ u8_codec _ _ _ Hs E1) as (Hd & b1 & [= <-] & ->). apply is_bytes_app in Hs as [_ Hs].
    destruct (Z.eqb_spec d 0) as [->|].
    { apply reader_ret_inv in E2 as [<- <-]. split; [done|]. by exists (le_bytes 1 0). }
    destruct (Z.eqb_spec d 1) as [->|]; [|done]. apply reader_bind_inv in E2 as (a & s2 & E2 & E3).
    apply reader_ret_inv in E3 as [<- <-]. destruct (codec_bwd _ _ _ Hc _ _ _ Hs E2) as (Ha & b2 & Ew & ->).
    split; [done|]. exists (le_bytes 1 1 ++ b2). unfold ser_optional. rewrite Ew. by rewrite <- app_assoc.
Qed.
End ContainerCodecs.

#[export] Hint Resolve CompactSize_codec blob_codec array_codec vector_codec optional_codec : codec.

(** ** Variable-length integers *)

Lemma land_7f_mod n : Z.land n 0x7F = n mod 2 ^ 7.
Proof. change 0x7F with (Z.ones 7). by rewrite Z.land_ones by lia. Qed.

Lemma varint_byte m : 0 <= m -> Z.lor (Z.land m 0x7F) 0x80 = m mod 2 ^ 7 + 2 ^ 7.
Proof.
  intros Hm. rewrite land_7f_mod. change 0x80 with (1 * 2 ^ 7).
  apply lor_disjoint; [lia|]. apply Z.mod_pos_bound. lia.
Qed.

Lemma shift_join a r : 0 <= r < 2 ^ 7 -> Z.lor (Z.shiftl a 7) r = a * 2 ^ 7 + r.
Proof. intros Hr. rewrite Z.shiftl_mul_pow2, Z.lor_comm, lor_disjoint by lia. lia. Qed.

(** The bytes [varint_loop] puts in front of [acc] for [m] make the reader
    accumulate [m + 1]. *)
Lemma varint_prefix (wrap : Z -> Z) B (Hwrap : forall v, 0 <= v < B -> wrap v = v) fuel : forall m acc b,
  0 <= m < B - 1 -> varint_loop fuel false m acc = Some b ->
  exists p, b = p ++ acc /\ is_bytes p
    /\ forall f rest, ReadVarInt_loop wrap (length p + f) 0 (p ++ rest) = ReadVarInt_loop wrap f (m + 1) rest.
Proof.
  assert (Hbyte : forall m, 0 <= m -> let b := m mod 2 ^ 7 + 2 ^ 7 in
    is_u8 b /\ Z.land b 0x7F = m mod 2 ^ 7 /\ Z.land b 0x80 = 0x80).
  { intros m Hm b. pose proof (Z.mod_pos_bound m (2 ^ 7) ltac:(lia)) as Hr. subst b. split; [unfold is_u8; lia|].
    rewrite land_7f_mod. rewrite <- Zplus_mod_idemp_r, Z.mod_same, Z.add_0_r, Z.mod_mod by lia. split; [done|].
    generalize dependent (m mod 2 ^ 7). intros r Hr.
    pose proof (byte_cases (fun b => (b <? 128) || (Z.land b 0x80 =? 0x80)) ltac:(by vm_compute) (r + 2 ^ 7)
      ltac:(unfold is_u8; lia)) as H. cbv beta in H.
    rewrite (proj2 (Z.ltb_ge _ _)) in H by lia. by apply Z.eqb_eq in H. }
  assert (Hstep : forall m v f rest, 0 <= m -> 0 <= v -> v * 2 ^ 7 + m mod 2 ^ 7 < B - 1 ->
    ReadVarInt_loop wrap (S f) v ((m mod 2 ^ 7 + 2 ^ 7) :: rest)
    = ReadVarInt_loop wrap f (v * 2 ^ 7 + m mod 2 ^ 7 + 1) rest).
  { intros m v f rest Hm Hv Hlt. destruct (Hbyte m Hm) as (H8 & H7f & H80).
    pose proof (Z.mod_pos_bound m (2 ^ 7) ltac:(lia)) as Hr.
    cbn [ReadVarInt_loop]. unfold mbind at 1, reader_bind at 1.
    replace (_ :: rest) with (le_bytes 1 (m mod 2 ^ 7 + 2 ^ 7) ++ rest)
      by (cbn [le_bytes app]; unfold u8; rewrite Z.mod_small by (unfold is_u8 in H8; lia); done).
    rewrite (le_reads 1) by (unfold is_u8 in H8; lia). rewrite H7f, H80, shift_join by done.
    change (0x80 =? 0) with false. cbv iota. by rewrite (Hwrap (v * 2 ^ 7 + m mod 2 ^ 7)), Hwrap by lia. }
  induction fuel as [|fuel IH]; intros m acc b Hm E; [done|]. cbn [varint_loop] in E.
  rewrite varint_byte in E by lia. destruct (Z.leb_spec m 0x7F) as [Hle|Hgt].
  - injection E as <-. exists [m mod 2 ^ 7 + 2 ^ 7]. split; [done|].
    split; [repeat constructor; apply Hbyte; lia|]. intros f rest. cbn [length app Nat.add].
    rewrite Hstep by (rewrite ?Z.mod_small by lia; lia). rewrite Z.mod_small by lia. f_equal; lia.
  - pose proof (Z.div_mod m (2 ^ 7) ltac:(lia)) as Hdm. pose proof (Z.mod_pos_bound m (2 ^ 7) ltac:(lia)).
    rewrite Z.shiftr_div_pow2 in E by lia.
    destruct (IH (m / 2 ^ 7 - 1) _ b ltac:(lia) E) as (p & -> & Hp & Hread).
    exists (p ++ [m mod 2 ^ 7 + 2 ^ 7]). split; [by rewrite <- app_assoc|].
    split; [apply is_bytes_app; split; [done|repeat constructor; apply Hbyte; lia]|].
    intros f rest. rewrite length_app. cbn [length]. rewrite <- app_assoc, <- Nat.add_assoc, Hread.
    cbn [app Nat.add]. replace (m / 2 ^ 7 - 1 + 1) with (m / 2 ^ 7) by lia.
    rewrite Hstep by lia. f_equal; lia.
Qed.

Lemma varint_loop_some fuel : forall first n acc, n < 2 ^ (7 * Z.of_nat fuel) -> fuel <> 0%nat ->
  exists b, varint_loop fuel first n acc = Some b.
Proof.
  induction fuel as [|fuel IH]; intros first n acc Hn Hf; [done|]. cbn [varint_loop].
  destruct (Z.leb_spec n 0x7F); [eauto|]. destruct fuel as [|fuel'].
  { change (7 * Z.of_nat 1) with 7 in Hn. lia. }
  apply IH; [|done]. rewrite Z.shiftr_div_pow2 by lia.
  replace (7 * Z.of_nat (S (S fuel'))) with (7 * Z.of_nat (S fuel') + 7) in Hn by lia.
  rewrite Z.pow_add_r in Hn by lia. pose proof (Z.div_lt_upper_bound n (2 ^ 7) (2 ^ (7 * Z.of_nat (S fuel')))). lia.
Qed.

Lemma ReadVarInt_last (wrap : Z -> Z) v r f rest : 0 <= r < 2 ^ 7 ->
  ReadVarInt_loop wrap (S f) v (r :: rest) = Ok (wrap (v * 2 ^ 7 + r), rest).
Proof.
  intros Hr. cbn [ReadVarInt_loop]. unfold mbind, reader_bind.
  replace (r :: rest) with (le_bytes 1 r ++ rest) by (cbn [le_bytes app]; unfold u8; by rewrite Z.mod_small by lia).
  rewrite (le_reads 1) by lia. rewrite land_7f_mod, Z.mod_small, shift_join by lia.
  pose proof (byte_cases (fun b => (128 <=? b) || (Z.land b 0x80 =? 0)) ltac:(by vm_compute) r
    ltac:(unfold is_u8; lia)) as H. cbv beta in H.
  rewrite (proj2 (Z.leb_gt _ _)) in H by lia. cbn [orb] in H. by rewrite H.
Qed.

Lemma VarInt_reads bits (wrap : Z -> Z) B n : 0 < bits -> B <= 2 ^ bits ->
  (forall v, 0 <= v < B -> wrap v = v) -> 0 <= n < B ->
  exists b, WriteVarInt bits n = Ok b /\ is_bytes b /\ reads (ReadVarInt wrap) b n.
Proof.
  intros Hbits HB Hwrap Hn. unfold WriteVarInt.
  assert (Hfuel : bits <= 7 * ((bits + 6) / 7)).
  { pose proof (Z.div_mod (bits + 6) 7 ltac:(lia)). pose proof (Z.mod_pos_bound (bits + 6) 7 ltac:(lia)). lia. }
  assert (Hpos : 1 <= (bits + 6) / 7) by lia.
  destruct (varint_loop_some (Z.to_nat ((bits + 6) / 7)) true n []) as [b E]; [|lia|].
  { rewrite Z2Nat.id by lia. pose proof (Z.pow_le_mono_r 2 bits (7 * ((bits + 6) / 7))). lia. }
  rewrite E. exists b. split; [done|]. destruct (Z.to_nat ((bits + 6) / 7)) as [|fuel]; [done|].
  cbn [varint_loop] in E. rewrite Z.lor_0_r, land_7f_mod in E. unfold ReadVarInt, reads.
  destruct (Z.leb_spec n 0x7F) as [Hle|Hgt].
  - injection E as <-. rewrite Z.mod_small by lia. split; [repeat constructor; unfold is_u8; lia|].
    intros rest. cbn [app length]. rewrite ReadVarInt_last by lia. by rewrite Hwrap by lia.
  - pose proof (Z.div_mod n (2 ^ 7) ltac:(lia)) as Hdm. pose proof (Z.mod_pos_bound n (2 ^ 7) ltac:(lia)).
    rewrite Z.shiftr_div_pow2 in E by lia.
    destruct (varint_prefix wrap B Hwrap fuel (n / 2 ^ 7 - 1) _ b ltac:(lia) E) as (p & -> & Hp & Hread).
    split; [apply is_bytes_app; split; [done|repeat constructor; unfold is_u8; lia]|].
    intros rest. rewrite <- app_assoc. rewrite length_app. cbn [length app].
    replace (S (length p + S (length rest))) with (length p + S (S (length rest)))%nat by lia.
    rewrite Hread, ReadVarInt_last by lia. rewrite Hwrap by lia. do 2 f_equal. lia.
Qed.

Lemma varint_loop_size fuel : forall first n acc b k fuel', (fuel <= fuel')%nat ->
  varint_loop fuel first n acc = Some b ->
  varint_size_loop fuel' n k = Some (k + Z.of_nat (length b) - Z.of_nat (length acc)).
Proof.
  induction fuel as [|fuel IH]; intros first n acc b k fuel' Hf E; [done|].
  destruct fuel' as [|fuel']; [lia|]. cbn [varint_loop varint_size_loop] in *.
  destruct (n <=? 0x7F).
  - injection E as <-. f_equal. cbn [length]. lia.
  - apply (IH _ _ _ _ (k + 1) fuel') in E; [|lia]. rewrite E. f_equal. cbn [length]. lia.
Qed.

(** Variable-length integers round trip at 32 and 64 bits.  Every value
    of the unsigned type is written without running past the [tmp] buffer, in
    [GetSizeOfVarInt] bytes, and reading the bytes back gives the value and
    leaves the rest of the stream. *)
Theorem VarInt_roundtrip (bits n : Z) (Hbits : bits = 32 \/ bits = 64) (Hn : 0 <= n < 2 ^ bits) :
  exists b, WriteVarInt bits n = Ok b
    /\ GetSizeOfVarInt bits n = Some (Z.of_nat (length b))
    /\ forall rest, ReadVarInt (fun v => v mod 2 ^ bits) (b ++ rest) = Ok (n, rest).
Proof.
  destruct (VarInt_reads bits (fun v => v mod 2 ^ bits) (2 ^ bits) n) as (b & E & _ & Hr);
    [lia|lia|intros v Hv; by apply Z.mod_small|done|].
  exists b. split; [done|]. split; [|done]. unfold WriteVarInt in E.
  destruct (varint_loop _ true n []) as [b'|] eqn:El; [|done]. injection E as ->.
  apply (varint_loop_size _ _ _ _ _ 0 (Z.to_nat bits)) in El; [|destruct Hbits as [-> | ->]; vm_compute; lia].
  unfold GetSizeOfVarInt. rewrite El. f_equal. cbn [length]. lia.
Qed.

Lemma VarInt_roundtrip_witness : exists b, WriteVarInt 32 65535 = Ok b /\ b = [0x82; 0xFE; 0x7F].
Proof.
  destruct (VarInt_roundtrip 32 65535) as (b & E & _); [by left|lia|].
  exists b. split; [exact E|]. vm_compute in E. by injection E as <-.
Defined.

(** A variable-length integer does not have one encoding only:
    [ReadVarInt] does not check for overflow, and reads the encoding of
    [2^32] as the 32-bit value 0. *)
Theorem ReadVarInt_overflows :
  WriteVarInt 64 (2 ^ 32) = Ok [0x8E; 0xFE; 0xFE; 0xFF; 0x00]
  /\ ReadVarInt u32 [0x8E; 0xFE; 0xFE; 0xFF; 0x00] = Ok (0, [])
  /\ ReadVarInt u32 [0x00] = Ok (0, []).
Proof. by vm_compute. Qed.
