(* ===== verification/CoinsSerialize.v ===== *)
(** * Compressed records of the chain state

    compressor.{h,cpp}: the compact forms of amounts, scripts and outputs;
    the serialization of [CCoins] (coins.h) and of the undo records (undo.h),
    which the chain state database and the undo files hold.

    Parsing and printing curve points is libsecp256k1's: the class
    [Secp256k1] with the one law the script compressor relies on. *)
From stdpp Require Import prelude strings list.
From S2P Require Import Prelude Transaction Script Coins Serialize UpdateCoins.
#[local] Open Scope Z_scope.

(** ** Amounts *)

(** [while (((n % 10) == 0) && e < 9)]: at most nine turns. *)
Fixpoint strip_zeros (fuel : nat) (n e : Z) : Z * Z :=
  match fuel with
  | O => (n, e)
  | S fuel' => if (n mod 10 =? 0) && (e <? 9) then strip_zeros fuel' (n / 10) (e + 1) else (n, e)
  end.

(** On [uint64_t]. *)
Definition CompressAmount (n : Z) : result Z :=
  if n =? 0 then Ok 0
  else
    let '(n, e) := strip_zeros 9 n 0 in
    if e <? 9 then
      let d := n mod 10 in
      _ ← assert_true ((1 <=? d) && (d <=? 9));
      Ok (u64 (1 + (n / 10 * 9 + d - 1) * 10 + e))
    else Ok (u64 (1 + (n - 1) * 10 + 9)).

Fixpoint times_ten (e : nat) (n : Z) : Z :=
  match e with O => n | S e' => times_ten e' (u64 (n * 10)) end.

Definition DecompressAmount (x : Z) : Z :=
  if x =? 0 then 0
  else
    let x := x - 1 in
    let e := x mod 10 in
    let x := x / 10 in
    let n := if e <? 9 then u64 (x / 9 * 10 + (x mod 9 + 1)) else x + 1 in
    times_ten (Z.to_nat e) n.

(** ** Scripts *)

Class Secp256k1 := {
  ec_pubkey_parse : bytes -> bool;
  ec_pubkey_uncompressed : bytes -> bytes
}.

(** [secp256k1_ec_pubkey_parse] accepts the compressed form of every
    uncompressed key it accepts, as the same point. *)
Class Secp256k1Laws `{Secp256k1} := {
  uncompressed_size : forall k, ec_pubkey_parse k = true -> length (ec_pubkey_uncompressed k) = 65%nat;
  compressed_point : forall x y, length x = 32%nat -> length y = 32%nat ->
    ec_pubkey_parse (0x04 :: x ++ y) = true ->
    let k := Z.lor 0x02 (Z.land (byte_at y 31) 1) :: x in
    ec_pubkey_parse k = true /\ ec_pubkey_uncompressed k = 0x04 :: x ++ y
}.

Definition nSpecialScripts : Z := 6.

Definition IsToKeyID (script : CScript) : option bytes :=
  if bool_decide (length script = 25%nat) && (byte_at script 0 =? OP_DUP) && (byte_at script 1 =? OP_HASH160)
     && (byte_at script 2 =? 20) && (byte_at script 23 =? OP_EQUALVERIFY) && (byte_at script 24 =? OP_CHECKSIG)
  then Some (take 20 (drop 3 script)) else None.

Definition IsToScriptID (script : CScript) : option bytes :=
  if bool_decide (length script = 23%nat) && (byte_at script 0 =? OP_HASH160) && (byte_at script 1 =? 20)
     && (byte_at script 22 =? OP_EQUAL)
  then Some (take 20 (drop 2 script)) else None.

Section Compressor.
Context `{Secp256k1}.

Definition IsToPubKey (script : CScript) : option bytes :=
  if bool_decide (length script = 35%nat) && (byte_at script 0 =? 33) && (byte_at script 34 =? OP_CHECKSIG)
     && ((byte_at script 1 =? 0x02) || (byte_at script 1 =? 0x03))
  then Some (take 33 (drop 1 script))
  else if bool_decide (length script = 67%nat) && (byte_at script 0 =? 65) && (byte_at script 66 =? OP_CHECKSIG)
          && (byte_at script 1 =? 0x04)
  then let pubkey := take 65 (drop 1 script) in if ec_pubkey_parse pubkey then Some pubkey else None
  else None.

Definition Compress (script : CScript) : option bytes :=
  match IsToKeyID script with
  | Some keyID => Some (0x00 :: keyID)
  | None =>
      match IsToScriptID script with
      | Some scriptID => Some (0x01 :: scriptID)
      | None =>
          match IsToPubKey script with
          | Some pubkey =>
              let x := take 32 (drop 1 pubkey) in
              if (byte_at pubkey 0 =? 0x02) || (byte_at pubkey 0 =? 0x03) then Some (byte_at pubkey 0 :: x)
              else if byte_at pubkey 0 =? 0x04 then Some (Z.lor 0x04 (Z.land (byte_at pubkey 64) 0x01) :: x)
              else None
          | None => None
          end
      end
  end.

Definition GetSpecialSize (nSize : Z) : nat :=
  if (nSize =? 0) || (nSize =? 1) then 20
  else if (nSize =? 2) || (nSize =? 3) || (nSize =? 4) || (nSize =? 5) then 32
  else 0.

(** [Decompress] into [script]; when it fails the script keeps its value. *)
Definition Decompress (nSize : Z) (in_ : bytes) (script : CScript) : result CScript :=
  if nSize =? 0 then Ok (OP_DUP :: OP_HASH160 :: 20 :: take 20 in_ ++ [OP_EQUALVERIFY; OP_CHECKSIG])
  else if nSize =? 1 then Ok (OP_HASH160 :: 20 :: take 20 in_ ++ [OP_EQUAL])
  else if (nSize =? 2) || (nSize =? 3) then Ok (33 :: nSize :: take 32 in_ ++ [OP_CHECKSIG])
  else if (nSize =? 4) || (nSize =? 5) then
    let vch := (nSize - 2) :: take 32 in_ in
    if ec_pubkey_parse vch then
      let pubkey := ec_pubkey_uncompressed vch in
      _ ← assert_true (bool_decide (length pubkey = 65%nat));
      Ok (65 :: pubkey ++ [OP_CHECKSIG])
    else Ok script
  else Ok script.

Definition lift {A} (r : result A) : reader A := fun s => a ← r; Ok (a, s).

Definition ser_CScriptCompressor (script : CScript) : writer :=
  match Compress script with
  | Some compr => ser_flat compr
  | None => WriteVarInt 32 (u32 (Z.of_nat (length script) + nSpecialScripts)) ⧺ ser_flat script
  end.

Definition unser_CScriptCompressor (script : CScript) : reader CScript :=
  nSize ← ReadVarInt u32;
  if nSize <? nSpecialScripts then
    vch ← unser_flat (GetSpecialSize nSize);
    lift (Decompress nSize vch script)
  else
    let nSize := nSize - nSpecialScripts in
    if MAX_SCRIPT_SIZE <? nSize then
      _ ← stream_ignore (Z.to_nat nSize); mret (script ++ [OP_RETURN])
    else unser_flat (Z.to_nat nSize).

(** ** Outputs *)

Definition ser_CTxOutCompressor (o : CTxOut) : writer :=
  (nVal ← CompressAmount (u64 (nValue o)); WriteVarInt 64 nVal) ⧺ ser_CScriptCompressor (scriptPubKey o).

(** Reading into the output [o]. *)
Definition unser_CTxOutCompressor (o : CTxOut) : reader CTxOut :=
  nVal ← ReadVarInt u64;
  script ← unser_CScriptCompressor (scriptPubKey o);
  mret (mkCTxOut (i64 (DecompressAmount nVal)) script (nRounds o)).

(** ** [CCoins] *)

Definition out_avail (v : list CTxOut) (i : nat) : bool :=
  match v !! i with Some o => negb (CTxOut_IsNull o) | None => false end.

(** Byte [b] of the spentness bitmask. *)
Definition mask_avail (v : list CTxOut) (b : nat) : list bool := (fun i => out_avail v (2 + b * 8 + i)%nat) <$> seq 0 8.
Definition mask_byte (v : list CTxOut) (b : nat) : Z :=
  foldl (fun ch (p : nat * bool) => if p.2 then Z.lor ch (Z.shiftl 1 (Z.of_nat p.1)) else ch) 0
    (imap pair (mask_avail v b)).

(** [CalcMaskSize]: [for (b = 0; 2 + b * 8 < vout.size(); b++)], with the
    index after the last byte in use and the number of non-zero bytes. *)
Fixpoint mask_size_loop (fuel : nat) (v : list CTxOut) (b nLastUsedByte nNonzeroBytes : nat) : nat * nat :=
  match fuel with
  | O => (nLastUsedByte, nNonzeroBytes)
  | S fuel' =>
      if (2 + b * 8 <? length v)%nat then
        let fZero := forallb negb (mask_avail v b) in
        if fZero then mask_size_loop fuel' v (S b) nLastUsedByte nNonzeroBytes
        else mask_size_loop fuel' v (S b) (S b) (S nNonzeroBytes)
      else (nLastUsedByte, nNonzeroBytes)
  end.
Definition CalcMaskSize (v : list CTxOut) : nat * nat := mask_size_loop (length v) v 0 0 0.

Definition ser_CCoins (c : CCoins) : writer :=
  let '(nMaskSize, nMaskCode) := CalcMaskSize (vout c) in
  let fFirst := out_avail (vout c) 0 in
  let fSecond := out_avail (vout c) 1 in
  _ ← assert_true (fFirst || fSecond || negb (nMaskCode =? 0)%nat);
  let nCode := u32 (8 * (Z.of_nat nMaskCode - (if fFirst || fSecond then 0 else 1)) + (if fCoinBase c then 1 else 0)
                    + (if fFirst then 2 else 0) + (if fSecond then 4 else 0)) in
  WriteVarInt 32 (nVersion c) ⧺ WriteVarInt 32 nCode
  ⧺ Ok (mask_byte (vout c) <$> seq 0 nMaskSize)
  ⧺ foldr (fun o w => if CTxOut_IsNull o then w else ser_CTxOutCompressor o ⧺ w) (Ok []) (vout c)
  ⧺ WriteVarInt 32 (nHeight c).

(** [while (nMaskCode > 0)]; each turn reads a byte. *)
Definition byte_flags (ch : Z) : list bool := (fun p => negb (Z.land ch (Z.shiftl 1 (Z.of_nat p)) =? 0)) <$> seq 0 8.
Fixpoint mask_read_loop (fuel : nat) (nMaskCode : Z) (vAvail : list bool) : reader (list bool) :=
  match fuel with
  | O => fun _ => Throw "end of data"
  | S fuel' =>
      if 0 <? nMaskCode then
        chAvail ← unser_u8;
        mask_read_loop fuel' (if chAvail =? 0 then nMaskCode else nMaskCode - 1) (vAvail ++ byte_flags chAvail)
      else mret vAvail
  end.
Definition mask_read (nMaskCode : Z) (vAvail : list bool) : reader (list bool) :=
  fun s => mask_read_loop (S (length s)) nMaskCode vAvail s.

Fixpoint unser_outs (vAvail : list bool) : reader (list CTxOut) :=
  match vAvail with
  | [] => mret []
  | true :: rest => o ← unser_CTxOutCompressor CTxOut_SetNull; l ← unser_outs rest; mret (o :: l)
  | false :: rest => l ← unser_outs rest; mret (CTxOut_SetNull :: l)
  end.

Definition unser_CCoins : reader CCoins :=
  nVersion ← ReadVarInt i32;
  nCode ← ReadVarInt u32;
  let fCoinBase := negb (Z.land nCode 1 =? 0) in
  let nMaskCode := nCode / 8 + (if negb (Z.land nCode 6 =? 0) then 0 else 1) in
  vAvail ← mask_read nMaskCode [negb (Z.land nCode 2 =? 0); negb (Z.land nCode 4 =? 0)];
  vout ← unser_outs vAvail;
  nHeight ← ReadVarInt i32;
  mret (CCoins_Cleanup (mkCCoins fCoinBase vout nHeight nVersion)).

(** ** Undo records *)

Definition ser_CTxInUndo (u : CTxInUndo) : writer :=
  WriteVarInt 32 (u32 (undo_nHeight u * 2 + (if undo_fCoinBase u then 1 else 0)))
  ⧺ (if 0 <? undo_nHeight u then WriteVarInt 32 (undo_nVersion u) else Ok [])
  ⧺ ser_CTxOutCompressor (undo_txout u).
(** Read into a fresh record, as the elements of a vector are. *)
Definition unser_CTxInUndo : reader CTxInUndo :=
  nCode ← ReadVarInt u32;
  let nHeight := nCode / 2 in
  let fCoinBase := negb (Z.land nCode 1 =? 0) in
  nVersion ← (if 0 <? nHeight then ReadVarInt i32 else mret 0);
  txout ← unser_CTxOutCompressor CTxOut_SetNull;
  mret (mkTxInUndo txout fCoinBase nHeight nVersion).

Definition ser_CTxUndo (u : CTxUndo) : writer := ser_vector ser_CTxInUndo (vprevout u).
Definition unser_CTxUndo : reader CTxUndo := v ← unser_vector unser_CTxInUndo; mret (mkTxUndo v).
Definition ser_CBlockUndo (u : CBlockUndo) : writer :=
  ser_vector ser_CTxUndo (vtxundo u) ⧺ ser_uint256 (old_sprout_tree_root u).
Definition unser_CBlockUndo : reader CBlockUndo :=
  v ← unser_vector unser_CTxUndo; r ← unser_uint256; mret (mkBlockUndo v r).
End Compressor.

(** ** Writing, then reading back *)

(** What is written is read back as [a]. *)
Definition wr {A} (w : writer) (r : reader A) (a : A) : Prop := exists b, w = Ok b /\ is_bytes b /\ reads r b a.

Lemma wr_ret {A} (a : A) : wr (Ok []) (mret a) a.
Proof. exists []. split; [done|]. split; [constructor|apply reads_ret]. Qed.

Lemma wr_bind {A B} (w1 w2 : writer) (r : reader A) (f : A -> reader B) a c :
  wr w1 r a -> wr w2 (f a) c -> wr (w1 ⧺ w2) (r ≫= f) c.
Proof.
  intros (b1 & -> & I1 & R1) (b2 & -> & I2 & R2). exists (b1 ++ b2). split; [done|].
  split; [by apply is_bytes_app|]. by eapply reads_bind.
Qed.

Lemma wr_map {A B} (w : writer) (r : reader A) (f : A -> B) a : wr w r a -> wr w (x ← r; mret (f x)) (f a).
Proof. intros (b & -> & I & R). exists b. split; [done|]. split; [done|]. by apply reads_map. Qed.

Lemma wr_codec {A} (w : A -> writer) r ok a : codec w r ok -> ok a -> wr (w a) r a.
Proof. intros Hc Ha. apply (codec_fwd _ _ _ Hc a Ha). Qed.

Lemma wr_u32 n : is_u32 n -> wr (WriteVarInt 32 n) (ReadVarInt u32) n.
Proof. intros Hn. apply (VarInt_reads 32 u32 (2 ^ 32)); [lia|lia|apply u32_small|done]. Qed.
Lemma wr_i32 n : 0 <= n < 2 ^ 31 -> wr (WriteVarInt 32 n) (ReadVarInt i32) n.
Proof.
  intros Hn. apply (VarInt_reads 32 i32 (2 ^ 31)); [lia|lia| |done]. intros v Hv. apply i32_small.
  unfold is_i32. lia.
Qed.
Lemma wr_u64 n : is_u64 n -> wr (WriteVarInt 64 n) (ReadVarInt u64) n.
Proof. intros Hn. apply (VarInt_reads 64 u64 (2 ^ 64)); [lia|lia|apply u64_small|done]. Qed.

(** *** Amounts *)

Lemma strip_zeros_spec fuel : forall n e n' e', 0 < n -> 0 <= e -> e + Z.of_nat fuel = 9 ->
  strip_zeros fuel n e = (n', e') ->
  0 < n' /\ e <= e' <= 9 /\ n = n' * 10 ^ (e' - e) /\ (e' = 9 \/ n' mod 10 <> 0).
Proof.
  induction fuel as [|fuel IH]; intros n e n' e' Hn He Hf E; cbn [strip_zeros] in E.
  - injection E as <- <-. rewrite Z.sub_diag. split_and!; try lia.
  - destruct (Z.eqb_spec (n mod 10) 0) as [Hm|Hm]; cbn [andb] in E.
    + rewrite (proj2 (Z.ltb_lt e 9)) in E by lia.
      pose proof (Z.div_mod n 10 ltac:(lia)) as Hd.
      destruct (IH (n / 10) (e + 1) n' e') as (H1 & H2 & H3 & H4); [lia..|done|].
      split; [done|]. split; [lia|]. split; [|done].
      replace (e' - e) with (Z.succ (e' - (e + 1))) by lia. rewrite Z.pow_succ_r by lia. lia.
    + injection E as <- <-. rewrite Z.sub_diag. split_and!; try lia.
Qed.

Lemma times_ten_spec e : forall n, 0 <= n -> n * 10 ^ Z.of_nat e < 2 ^ 64 -> times_ten e n = n * 10 ^ Z.of_nat e.
Proof.
  induction e as [|e IH]; intros n Hn Hlt; [cbn; lia|]. cbn [times_ten].
  rewrite Nat2Z.inj_succ, Z.pow_succ_r in * by lia. pose proof (Z.pow_pos_nonneg 10 (Z.of_nat e)).
  rewrite u64_small by (unfold is_u64; nia). rewrite IH by nia. lia.
Qed.

Lemma CompressAmount_ok n : 0 <= n <= MAX_MONEY ->
  exists x, CompressAmount n = Ok x /\ is_u64 x /\ DecompressAmount x = n.
Proof.
  intros Hn. unfold MAX_MONEY, COIN in Hn. unfold CompressAmount. destruct (Z.eqb_spec n 0) as [->|Hnz].
  { exists 0. done. }
  destruct (strip_zeros 9 n 0) as [m e] eqn:E.
  destruct (strip_zeros_spec 9 n 0 m e) as (Hm & He & Heq & Hor); [lia|lia|lia|done|].
  rewrite Z.sub_0_r in Heq. pose proof (Z.pow_pos_nonneg 10 e ltac:(lia) ltac:(lia)) as Hp.
  assert (Hmn : m <= n) by nia.
  assert (Ht : times_ten (Z.to_nat e) m = n).
  { rewrite times_ten_spec by (rewrite ?Z2Nat.id by lia; lia). rewrite Z2Nat.id by lia. lia. }
  pose proof (Z.div_mod m 10 ltac:(lia)) as Hd. pose proof (Z.mod_pos_bound m 10 ltac:(lia)) as Hb.
  destruct (Z.ltb_spec e 9) as [He9|He9].
  - rewrite (proj2 (Z.leb_le 1 _)), (proj2 (Z.leb_le _ 9)) by lia. mstep.
    set (q := m / 10) in *. set (d := m mod 10) in *.
    exists (1 + (q * 9 + d - 1) * 10 + e). rewrite u64_small by (unfold is_u64; lia).
    split; [done|]. split; [unfold is_u64; lia|]. unfold DecompressAmount.
    rewrite (proj2 (Z.eqb_neq _ 0)) by lia. cbv zeta.
    replace (1 + (q * 9 + d - 1) * 10 + e - 1) with (e + (q * 9 + d - 1) * 10) by lia.
    rewrite Z.mod_add, (Z.mod_small e 10), Z.div_add, (Z.div_small e 10), Z.add_0_l by lia.
    rewrite (proj2 (Z.ltb_lt e 9)) by lia.
    replace (q * 9 + d - 1) with (d - 1 + q * 9) by lia.
    rewrite Z.mod_add, (Z.mod_small (d - 1) 9), Z.div_add, (Z.div_small (d - 1) 9), Z.add_0_l by lia.
    rewrite u64_small by (unfold is_u64; lia). rewrite <- Ht. f_equal. lia.
  - exists (1 + (m - 1) * 10 + 9). rewrite u64_small by (unfold is_u64; lia).
    split; [done|]. split; [unfold is_u64; lia|]. unfold DecompressAmount.
    rewrite (proj2 (Z.eqb_neq _ 0)) by lia. cbv zeta.
    replace (1 + (m - 1) * 10 + 9 - 1) with (9 + (m - 1) * 10) by lia.
    rewrite Z.mod_add, Z.div_add by lia. cbn [Z.ltb]. change (9 mod 10) with 9. change (9 / 10) with 0.
    change (9 <? 9) with false. rewrite <- Ht. replace e with 9 by lia. f_equal. lia.
Qed.

(** Every valid amount survives compression: [CompressAmount] passes its
    assertion, and [DecompressAmount] gives the amount back. *)
Theorem CompressAmount_roundtrip (n : Z) (Hn : MoneyRange n = true) :
  exists x, CompressAmount n = Ok x /\ is_u64 x /\ DecompressAmount x = n.
Proof. apply CompressAmount_ok. by apply MoneyRange_spec. Qed.

Lemma CompressAmount_roundtrip_witness :
  exists x, CompressAmount 5000000000 = Ok x /\ is_u64 x /\ DecompressAmount x = 5000000000.
Proof. apply (CompressAmount_roundtrip 5000000000). reflexivity. Defined.

(** *** Scripts *)

Section Scripts.
Context `{Secp256k1Laws}.

(** A list of known length, element by element. *)
Local Tactic Notation "explode" hyp(s) integer(n) :=
  do n (destruct s as [|? s]; [done|]); destruct s; [|done].

Lemma IsToKeyID_inv s k : IsToKeyID s = Some k ->
  length k = 20%nat /\ s = OP_DUP :: OP_HASH160 :: 20 :: k ++ [OP_EQUALVERIFY; OP_CHECKSIG].
Proof.
  unfold IsToKeyID. destruct (_ && _) eqn:E; [|done]. intros [= <-]. zbool.
  explode s 25. cbn in *. split; [done|]. by subst.
Qed.

Lemma IsToScriptID_inv s k : IsToScriptID s = Some k ->
  length k = 20%nat /\ s = OP_HASH160 :: 20 :: k ++ [OP_EQUAL].
Proof.
  unfold IsToScriptID. destruct (_ && _) eqn:E; [|done]. intros [= <-]. zbool.
  explode s 23. cbn in *. split; [done|]. by subst.
Qed.

Lemma IsToPubKey_inv s k : IsToPubKey s = Some k ->
  (exists b x, length x = 32%nat /\ k = b :: x /\ (b = 2 \/ b = 3) /\ s = 33 :: b :: x ++ [OP_CHECKSIG])
  \/ (exists x y, length x = 32%nat /\ length y = 32%nat /\ k = 4 :: x ++ y /\ ec_pubkey_parse k = true
      /\ s = 65 :: k ++ [OP_CHECKSIG]).
Proof.
  unfold IsToPubKey. destruct (_ && _) eqn:E.
  - intros [= <-]. zbool. left. explode s 35. cbn in *.
    eexists _, _. split; [|split; [reflexivity|]]; [done|]. subst. split; [|done].
    match goal with H : orb _ _ = true |- _ => apply orb_true_iff in H as [?|?] end; zbool; auto.
  - clear E. destruct (_ && _) eqn:E; [|done]. destruct (ec_pubkey_parse _) eqn:Ep; [|done]. intros [= <-].
    zbool. right. exists (take 32 (drop 2 s)), (take 32 (drop 34 s)).
    explode s 67. cbn in *. subst. split_and!; done.
Qed.

Lemma flags_byte b x rest : 0 <= b < 128 -> ReadVarInt u32 (b :: x ++ rest) = Ok (b, x ++ rest).
Proof.
  intros Hb. unfold ReadVarInt. rewrite ReadVarInt_last by lia. cbn [Z.mul Z.add].
  rewrite u32_small by (unfold is_u32; lia). done.
Qed.

(** A special script: its code, then its payload. *)
Lemma special_wr b x s s0 : 0 <= b < 6 -> length x = GetSpecialSize b -> is_bytes x ->
  Decompress b x s0 = Ok s -> wr (ser_flat (b :: x)) (unser_CScriptCompressor s0) s.
Proof.
  intros Hb Hx Hbx Hd. exists (b :: x). split; [done|]. split; [constructor; [unfold is_u8; lia|done]|].
  intros rest. unfold unser_CScriptCompressor. cbn [app]. unfold mbind, reader_bind.
  rewrite flags_byte by lia. rewrite (proj2 (Z.ltb_lt _ _)) by (unfold nSpecialScripts; lia).
  unfold unser_flat. rewrite read_bytes_ok by done. unfold lift. by rewrite Hd.
Qed.

Lemma is_bytes_cons b l : is_bytes (b :: l) <-> is_u8 b /\ is_bytes l.
Proof. apply Forall_cons. Qed.

Lemma decompress_key n x k s0 : n = 4 \/ n = 5 -> length x = 32%nat ->
  ec_pubkey_parse (n - 2 :: x) = true -> ec_pubkey_uncompressed (n - 2 :: x) = k ->
  Decompress n x s0 = Ok (65 :: k ++ [OP_CHECKSIG]).
Proof.
  intros Hn Hx Hparse Hunc. pose proof (uncompressed_size _ Hparse) as Hl. rewrite Hunc in Hl.
  unfold Decompress. rewrite (take_ge x 32) by lia. rewrite Hparse, Hunc.
  destruct Hn as [-> | ->]; cbn [Z.eqb Pos.eqb orb]; by rewrite bool_decide_true.
Qed.

Lemma Compress_wr s compr s0 : is_bytes s -> Compress s = Some compr ->
  wr (ser_flat compr) (unser_CScriptCompressor s0) s.
Proof.
  intros Hs. unfold Compress. destruct (IsToKeyID s) as [k|] eqn:E1.
  { intros [= <-]. apply IsToKeyID_inv in E1 as [Hk ->]. apply special_wr; [lia|done| |].
    - repeat apply is_bytes_cons in Hs as [_ Hs]. by apply is_bytes_app in Hs as [Hs _].
    - unfold Decompress. cbn [Z.eqb]. by rewrite take_ge by lia. }
  destruct (IsToScriptID s) as [k|] eqn:E2.
  { intros [= <-]. apply IsToScriptID_inv in E2 as [Hk ->]. apply special_wr; [lia|done| |].
    - repeat apply is_bytes_cons in Hs as [_ Hs]. by apply is_bytes_app in Hs as [Hs _].
    - unfold Decompress. cbn. by rewrite take_ge by lia. }
  destruct (IsToPubKey s) as [k|] eqn:E3; [|done].
  apply IsToPubKey_inv in E3 as [(b & x & Hx & -> & Hb & ->)|(x & y & Hx & Hy & -> & Hp & ->)].
  - change (drop 1 (b :: x)) with x. change (byte_at (b :: x) 0) with b. rewrite (take_ge x) by lia.
    destruct Hb as [-> | ->]; cbn [Z.eqb Pos.eqb orb]; intros [= <-]; (apply special_wr; [lia|done| |]).
    1,3: repeat apply is_bytes_cons in Hs as [_ Hs]; by apply is_bytes_app in Hs as [Hs _].
    all: unfold Decompress; cbn [Z.eqb Pos.eqb orb]; by rewrite take_ge by lia.
  - change (drop 1 (4 :: x ++ y)) with (x ++ y). change (byte_at (4 :: x ++ y) 0) with 4.
    change (byte_at (4 :: x ++ y) 64) with (default 0 ((x ++ y) !! 63%nat)).
    cbn [Z.eqb Pos.eqb orb]. intros [= <-].
    assert (Ey : default 0 ((x ++ y) !! 63%nat) = byte_at y 31).
    { unfold byte_at. rewrite lookup_app_r by lia. by rewrite Hx. }
    rewrite Ey. rewrite take_app_le, take_ge by lia.
    destruct (compressed_point x y Hx Hy Hp) as [Hparse Hunc].
    set (par := Z.land (byte_at y 31) 1) in *.
    assert (Hpar : par = 0 \/ par = 1).
    { subst par. assert (E : Z.land (byte_at y 31) 1 = byte_at y 31 mod 2) by (apply (Z.land_ones _ 1); lia).
      rewrite E. pose proof (Z.mod_pos_bound (byte_at y 31) 2 ltac:(lia)). lia. }
    clearbody par. apply special_wr.
    + by destruct Hpar as [-> | ->]; vm_compute.
    + destruct Hpar as [-> | ->]; done.
    + repeat apply is_bytes_cons in Hs as [_ Hs]. apply is_bytes_app in Hs as [Hs _].
      by apply is_bytes_app in Hs as [Hs _].
    + destruct Hpar as [-> | ->].
      * change (Z.lor 4 0) with 4. change (Z.lor 2 0) with (4 - 2) in Hparse, Hunc. apply decompress_key; auto.
      * change (Z.lor 4 1) with 5. change (Z.lor 2 1) with (5 - 2) in Hparse, Hunc. apply decompress_key; auto.
Qed.

Definition script_ok (s : CScript) : Prop := is_bytes s /\ Z.of_nat (length s) <= MAX_SCRIPT_SIZE.

Lemma script_wr s s0 : script_ok s -> wr (ser_CScriptCompressor s) (unser_CScriptCompressor s0) s.
Proof.
  intros [Hs Hl]. unfold ser_CScriptCompressor. destruct (Compress s) as [compr|] eqn:E; [by eapply Compress_wr|].
  unfold MAX_SCRIPT_SIZE in Hl. rewrite u32_small by (unfold is_u32, nSpecialScripts; lia).
  unfold unser_CScriptCompressor. eapply wr_bind; [apply wr_u32; unfold is_u32, nSpecialScripts; lia|].
  unfold nSpecialScripts, MAX_SCRIPT_SIZE. rewrite (proj2 (Z.ltb_ge _ 6)), (proj2 (Z.ltb_ge 10000 _)) by lia.
  replace (Z.to_nat (Z.of_nat (length s) + 6 - 6)) with (length s) by lia.
  by apply (wr_codec _ _ _ _ (flat_codec _)).
Qed.

(** *** Outputs *)

Definition out_ok (o : CTxOut) : Prop := 0 <= nValue o <= MAX_MONEY /\ script_ok (scriptPubKey o) /\ nRounds o = -10.

Lemma out_wr o : out_ok o -> wr (ser_CTxOutCompressor o) (unser_CTxOutCompressor CTxOut_SetNull) o.
Proof.
  intros (Hv & Hs & Hr). destruct (CompressAmount_ok _ Hv) as (x & Ex & Hx & Ed).
  unfold ser_CTxOutCompressor. pose proof MAX_MONEY_lt. rewrite u64_small by (unfold is_u64; lia). rewrite Ex. mstep.
  unfold unser_CTxOutCompressor. eapply wr_bind; [by apply wr_u64|].
  replace o with (mkCTxOut (i64 (DecompressAmount x)) (scriptPubKey o) (nRounds CTxOut_SetNull)) at 2.
  - apply (wr_map _ _ (fun script => mkCTxOut _ script _)). by apply script_wr.
  - rewrite Ed, i64_small by (unfold is_i64; lia). destruct o. cbn in *. by subst.
Qed.

(** *** Unspent outputs of a transaction *)

Definition coin_ok (o : CTxOut) : Prop := o = CTxOut_SetNull \/ out_ok o.

(** The output at a position, null past the end. *)
Definition out_at (v : list CTxOut) (i : nat) : CTxOut := default CTxOut_SetNull (v !! i).

Lemma out_avail_at v i : out_avail v i = negb (CTxOut_IsNull (out_at v i)).
Proof. unfold out_avail, out_at. by destruct (v !! i). Qed.

Lemma outs_range v n : forall (Hall : Forall coin_ok v) k,
  (forall i, (k + n <= i)%nat -> out_avail v i = false) ->
  wr (foldr (fun o w => if CTxOut_IsNull o then w else ser_CTxOutCompressor o ⧺ w) (Ok []) (out_at v <$> seq k n))
    (unser_outs (out_avail v <$> seq k n)) (out_at v <$> seq k n).
Proof.
  intros Hall. induction n as [|n IH]; intros k Hk; [apply wr_ret|]. cbn [seq fmap list_fmap foldr unser_outs].
  assert (IHk := IH (S k) ltac:(intros i Hi; apply Hk; lia)).
  rewrite out_avail_at. destruct (CTxOut_IsNull (out_at v k)) eqn:En; cbn [negb].
  - assert (E : out_at v k = CTxOut_SetNull).
    { unfold out_at in *. destruct (v !! k) as [o|] eqn:Eo; [|done].
      pose proof (Forall_lookup_1 _ _ _ _ Hall Eo) as [->|(Hv & _)]; [done|].
      cbn in En. unfold CTxOut_IsNull in En. zbool. lia. }
    rewrite E. by apply (wr_map _ _ (fun l => CTxOut_SetNull :: l)).
  - eapply wr_bind.
    + apply out_wr. unfold out_at in *. destruct (v !! k) as [o|] eqn:Eo; [|done].
      pose proof (Forall_lookup_1 _ _ _ _ Hall Eo) as [->|Ho]; [done|exact Ho].
    + by apply (wr_map _ _ (fun l => out_at v k :: l)).
Qed.

(** *** The bitmask *)

Lemma mask_byte_flags v b : is_u8 (mask_byte v b)
  /\ byte_flags (mask_byte v b) = mask_avail v b /\ (mask_byte v b =? 0) = forallb negb (mask_avail v b).
Proof.
  unfold mask_byte. assert (Hl : length (mask_avail v b) = 8%nat) by done.
  generalize dependent (mask_avail v b). intros l Hl.
  do 8 (destruct l as [|[] l]; [done|..]). all: destruct l; [by vm_compute|done].
Qed.

(** Bytes read until [code] of them were not zero. *)
Definition nonzero (M : bytes) : Z := Z.of_nat (length (filter (fun b => b <> 0) M)).

Lemma mask_read_ok M : forall vAvail, is_bytes M -> (forall b, last M = Some b -> b <> 0) ->
  wr (Ok M) (mask_read (nonzero M) vAvail) (vAvail ++ (M ≫= byte_flags)).
Proof.
  intros vAvail HM Hlast. exists M. split; [done|]. split; [done|]. intros rest. unfold mask_read.
  assert (Hf : (length M < S (length (M ++ rest)))%nat) by (rewrite length_app; lia).
  revert Hf. generalize (S (length (M ++ rest))) as fuel. intros fuel. revert fuel vAvail.
  induction M as [|m M IH]; intros fuel vAvail Hf.
  - destruct fuel; [cbn in Hf; lia|]. cbn. by rewrite app_nil_r.
  - apply is_bytes_cons in HM as [Hm HM]. destruct fuel as [|fuel]; [cbn in Hf; lia|]. cbn [mask_read_loop].
    assert (Hlast' : forall b, last M = Some b -> b <> 0).
    { intros b Hb. apply Hlast. rewrite last_cons, Hb. done. }
    assert (Hpos : 0 < nonzero (m :: M)).
    { unfold nonzero. destruct (filter _ (m :: M)) as [|? ?] eqn:E; [|cbn; lia]. exfalso.
      destruct (last (m :: M)) as [b|] eqn:El; [|by rewrite last_cons in El; destruct (last M)].
      assert (b ∈ filter (fun b => b <> 0) (m :: M)) as Hin.
      { apply list_elem_of_filter. split; [by apply Hlast|]. by apply last_Some_elem_of. }
      rewrite E in Hin. by apply not_elem_of_nil in Hin. }
    rewrite (proj2 (Z.ltb_lt _ _)) by done. unfold mbind at 1, reader_bind at 1.
    assert (Em : unser_u8 ((m :: M) ++ rest) = Ok (m, M ++ rest)).
    { pose proof (le_reads 1 m) as Hr. cbn [le_bytes app] in Hr. unfold is_u8 in Hm. change (2 ^ 8) with 256 in Hm.
      specialize (Hr ltac:(lia) (M ++ rest)). rewrite Z.mod_small in Hr by lia. exact Hr. }
    rewrite Em.
    assert (En : (if m =? 0 then nonzero (m :: M) else nonzero (m :: M) - 1) = nonzero M).
    { unfold nonzero. rewrite filter_cons. destruct (Z.eqb_spec m 0); destruct (decide _); try done. cbn [length]. lia. }
    rewrite En, IH; [|done|done|cbn in Hf; lia]. by rewrite <- app_assoc.
Qed.

Lemma nonzero_app A B : nonzero (A ++ B) = nonzero A + nonzero B.
Proof. unfold nonzero. rewrite filter_app, length_app. lia. Qed.
Lemma nonzero_zeros M : Forall (fun b => b = 0) M -> nonzero M = 0.
Proof.
  induction 1 as [|b M Hb HM IH]; [done|]. unfold nonzero in *. rewrite filter_cons.
  by destruct (decide _).
Qed.

Definition mask (v : list CTxOut) (n : nat) : bytes := mask_byte v <$> seq 0 n.

(** What [CalcMaskSize] counts after [b] bytes. *)
Record mask_inv (v : list CTxOut) (b N C : nat) : Prop := {
  mi_le : (N <= b)%nat;
  mi_count : nonzero (mask v N) = Z.of_nat C;
  mi_last : forall m, last (mask v N) = Some m -> m <> 0;
  mi_zero : forall k, (N <= k < b)%nat -> mask_byte v k = 0
}.

Lemma mask_inv_step v b N C : mask_inv v b N C ->
  if forallb negb (mask_avail v b) then mask_inv v (S b) N C else mask_inv v (S b) (S b) (S C).
Proof.
  intros [Hle Hc Hl Hz]. destruct (mask_byte_flags v b) as (_ & _ & E0).
  destruct (forallb negb (mask_avail v b)); zbool.
  - split; [lia|done|done|]. intros k Hk. destruct (decide (k = b)) as [->|]; [done|]. apply Hz. lia.
  - assert (Em : mask v (S b) = mask v N ++ (mask_byte v <$> seq N (b - N)) ++ [mask_byte v b]).
    { unfold mask. rewrite seq_S, fmap_app. cbn [Nat.add fmap list_fmap].
      replace b with (N + (b - N))%nat at 1 by lia. rewrite seq_app, fmap_app. cbn [Nat.add].
      by rewrite <- app_assoc. }
    split; [lia| | |intros; lia].
    + rewrite Em, !nonzero_app, Hc, nonzero_zeros.
      * unfold nonzero. rewrite filter_cons. destruct (decide _); [|done]. cbn [length filter list_filter]. lia.
      * apply Forall_fmap, Forall_forall. intros k Hk. apply elem_of_seq in Hk. cbn. apply Hz. lia.
    + intros m Hm. rewrite Em, app_assoc, last_snoc in Hm. by injection Hm as <-.
Qed.

Lemma mask_size_loop_ok v fuel : forall b N C N' C', mask_inv v b N C -> (b + fuel = length v)%nat ->
  mask_size_loop fuel v b N C = (N', C') ->
  exists b', mask_inv v b' N' C' /\ (length v <= 2 + b' * 8)%nat /\ (b' <= length v)%nat.
Proof.
  induction fuel as [|fuel IH]; intros b N C N' C' Hi Hb E; cbn [mask_size_loop] in E.
  - injection E as <- <-. exists b. split; [done|]. lia.
  - destruct (Nat.ltb_spec (2 + b * 8) (length v)).
    + pose proof (mask_inv_step v b N C Hi) as Hs. destruct (forallb negb (mask_avail v b));
        apply (IH (S b) _ _ _ _ Hs); [lia|done|lia|done].
    + injection E as <- <-. exists b. split; [done|]. lia.
Qed.

Lemma mask_avail_seq v b : mask_avail v b = out_avail v <$> seq (2 + b * 8) 8.
Proof.
  trans (out_avail v <$> (Nat.add (2 + b * 8) <$> seq 0 8)); [by rewrite <- list_fmap_compose|].
  rewrite fmap_add_seq. do 2 f_equal. lia.
Qed.

(** The bits of the mask are the availabilities from the third output on. *)
Lemma mask_flags v N : mask v N ≫= byte_flags = out_avail v <$> seq 2 (N * 8).
Proof.
  induction N as [|N IH]; [done|]. unfold mask in *. rewrite seq_S, fmap_app, bind_app, IH.
  cbn [Nat.add fmap list_fmap]. rewrite bind_cons. change ([] ≫= byte_flags) with (@nil bool). rewrite app_nil_r.
  destruct (mask_byte_flags v N) as (_ & -> & _). rewrite mask_avail_seq, <- fmap_app.
  replace (S N * 8)%nat with (N * 8 + 8)%nat by lia. by rewrite seq_app.
Qed.

Lemma CalcMaskSize_ok v N C : CalcMaskSize v = (N, C) ->
  nonzero (mask v N) = Z.of_nat C /\ (forall m, last (mask v N) = Some m -> m <> 0)
  /\ (forall i, (2 + N * 8 <= i)%nat -> out_avail v i = false) /\ (C <= length v)%nat /\ (C = 0%nat -> N = 0%nat).
Proof.
  intros E. assert (Hi0 : mask_inv v 0 0 0) by (split; [lia|done|by intros|intros; lia]).
  destruct (mask_size_loop_ok v (length v) 0 0 0 N C Hi0 eq_refl E) as (b & [Hle Hc Hl Hz] & Hb & Hbl).
  assert (HCN : (C <= N)%nat).
  { apply Nat2Z.inj_le. rewrite <- Hc. unfold nonzero. apply Nat2Z.inj_le.
    transitivity (length (mask v N)); [apply length_filter|]. unfold mask. by rewrite length_fmap, length_seq. }
  split; [done|]. split; [done|]. split; [|split; [lia|]].
  - intros i Hi. destruct (Nat.le_gt_cases (length v) i) as [Hge|Hlt].
    { unfold out_avail. by rewrite lookup_ge_None_2. }
    set (k := ((i - 2) / 8)%nat). set (r := ((i - 2) mod 8)%nat).
    assert (Ei : i = (2 + k * 8 + r)%nat /\ (r < 8)%nat).
    { subst k r. pose proof (Nat.div_mod_eq (i - 2) 8). pose proof (Nat.mod_upper_bound (i - 2) 8). lia. }
    destruct (mask_byte_flags v k) as (_ & _ & E0). rewrite Hz in E0 by lia. change (0 =? 0) with true in E0. symmetry in E0.
    rewrite forallb_forall in E0. specialize (E0 (out_avail v i)).
    destruct (out_avail v i) eqn:Ea; [|done]. discriminate E0. apply list_elem_of_In. unfold mask_avail.
    apply list_elem_of_fmap. exists r. destruct Ei as [Ei Hr]. rewrite <- Ei. split; [done|apply elem_of_seq; lia].
  - intros ->. destruct (last (mask v N)) as [m|] eqn:El.
    + exfalso. specialize (Hl m eq_refl). unfold nonzero in Hc.
      assert (m ∈ filter (fun b => b <> 0) (mask v N)) as Hin.
      { apply list_elem_of_filter. split; [done|]. by apply last_Some_elem_of. }
      destruct (filter _ (mask v N)); [by apply not_elem_of_nil in Hin|done].
    + apply last_None in El. destruct N; [done|]. unfold mask in El. by rewrite seq_S, fmap_app in El; destruct (_ <$> _).
Qed.

(** *** The clean-up forgets null outputs past the last one in use *)

Lemma pop_null_nulls l l' : Forall (fun o => CTxOut_IsNull o = true) l -> pop_null (l ++ l') = pop_null l'.
Proof. induction 1 as [|o l Ho Hl IH]; [done|]. cbn. by rewrite Ho. Qed.

Lemma pop_null_seq v n m : (n <= m)%nat -> (forall i, (n <= i)%nat -> out_avail v i = false) ->
  pop_null (reverse (out_at v <$> seq 0 m)) = pop_null (reverse (out_at v <$> seq 0 n)).
Proof.
  intros Hnm Hi. replace m with (n + (m - n))%nat by lia. rewrite seq_app, fmap_app, reverse_app.
  apply pop_null_nulls, Forall_reverse, Forall_fmap, Forall_forall. intros k Hk. apply elem_of_seq in Hk. cbn.
  specialize (Hi k ltac:(lia)). rewrite out_avail_at in Hi. by apply negb_false_iff in Hi.
Qed.

Lemma out_at_all v : out_at v <$> seq 0 (length v) = v.
Proof.
  apply list_eq. intros i. rewrite list_lookup_fmap. destruct (Nat.lt_ge_cases i (length v)) as [Hlt|Hge].
  - rewrite lookup_seq_lt by done. cbn. unfold out_at. destruct (lookup_lt_is_Some_2 v i Hlt) as [o ->]. done.
  - rewrite lookup_seq_ge by done. by rewrite lookup_ge_None_2.
Qed.

Lemma Cleanup_seq c n : (forall i, (n <= i)%nat -> out_avail (vout c) i = false) ->
  CCoins_Cleanup (mkCCoins (fCoinBase c) (out_at (vout c) <$> seq 0 n) (nHeight c) (nVersion c)) = CCoins_Cleanup c.
Proof.
  intros Hi. unfold CCoins_Cleanup, with_vout. cbn [fCoinBase vout nHeight nVersion]. f_equal. f_equal.
  rewrite <- (pop_null_seq (vout c) n (Nat.max n (length (vout c)))) by (done || lia).
  rewrite (pop_null_seq (vout c) (length (vout c))); [by rewrite out_at_all|lia|].
  intros i Hge. unfold out_avail. by rewrite lookup_ge_None_2.
Qed.

(** *** Coins *)

Record coins_ok (c : CCoins) : Prop := {
  co_outs : Forall coin_ok (vout c);
  co_size : Z.of_nat (length (vout c)) < 2 ^ 28;
  co_version : 0 <= nVersion c < 2 ^ 31;
  co_height : 0 <= nHeight c < 2 ^ 31
}.

(** The header code packs three flags under the mask count. *)
Lemma code_fields (cb f s : bool) (q : Z) : 0 <= q ->
  let nCode := 8 * q + (if cb then 1 else 0) + (if f then 2 else 0) + (if s then 4 else 0) in
  negb (Z.land nCode 1 =? 0) = cb /\ negb (Z.land nCode 2 =? 0) = f /\ negb (Z.land nCode 4 =? 0) = s
  /\ negb (Z.land nCode 6 =? 0) = (f || s) /\ nCode / 8 = q.
Proof.
  intros Hq nCode. set (r := (if cb then 1 else 0) + (if f then 2 else 0) + (if s then 4 else 0)).
  assert (Hr : 0 <= r < 2 ^ 3) by (subst r; destruct cb, f, s; lia).
  assert (En : nCode = r + q * 2 ^ 3) by (subst nCode r; lia).
  assert (Hland : forall m, Z.land m (Z.ones 3) = m -> Z.land nCode m = Z.land r m).
  { intros m Hm. rewrite <- Hm, Z.land_comm, <- Z.land_assoc, (Z.land_comm (Z.ones 3)), Z.land_ones by lia.
    rewrite En, Z.mod_add, Z.mod_small by lia. rewrite Hm. apply Z.land_comm. }
  rewrite !Hland by done. rewrite En, Z.div_add, Z.div_small by lia.
  subst r. destruct cb, f, s; by vm_compute.
Qed.

Lemma outs_foldr v n : (forall i, (n <= i)%nat -> out_avail v i = false) ->
  foldr (fun o w => if CTxOut_IsNull o then w else ser_CTxOutCompressor o ⧺ w) (Ok []) v
  = foldr (fun o w => if CTxOut_IsNull o then w else ser_CTxOutCompressor o ⧺ w) (Ok []) (out_at v <$> seq 0 n).
Proof.
  intros Hi. set (F := fun o w => _).
  assert (Hnull : forall l, Forall (fun o => CTxOut_IsNull o = true) l -> foldr F (Ok []) l = Ok []).
  { induction 1 as [|o l Ho Hl IH]; [done|]. cbn. unfold F at 1. by rewrite Ho. }
  assert (Hm : forall m, (forall i, (m <= i)%nat -> out_avail v i = false) -> forall k, (m <= k)%nat ->
    foldr F (Ok []) (out_at v <$> seq 0 k) = foldr F (Ok []) (out_at v <$> seq 0 m)).
  { intros m Hm k Hk. replace k with (m + (k - m))%nat by lia. rewrite seq_app, fmap_app, foldr_app.
    rewrite Hnull; [done|]. apply Forall_fmap, Forall_forall. intros j Hj. apply elem_of_seq in Hj. cbn.
    specialize (Hm j ltac:(lia)). rewrite out_avail_at in Hm. by apply negb_false_iff in Hm. }
  rewrite <- (Hm n Hi (Nat.max n (length v))) by lia.
  rewrite (Hm (length v)); [by rewrite out_at_all| |lia].
  intros i Hge. unfold out_avail. by rewrite lookup_ge_None_2.
Qed.

Lemma CCoins_wr c : coins_ok c -> CCoins_IsPruned c = false -> wr (ser_CCoins c) unser_CCoins (CCoins_Cleanup c).
Proof.
  intros [Ho Hsz Hv Hh] Hp. unfold ser_CCoins. destruct (CalcMaskSize (vout c)) as [N C] eqn:E.
  destruct (CalcMaskSize_ok _ _ _ E) as (Hc & Hl & Hbeyond & HC & HC0).
  set (f := out_avail (vout c) 0). set (s := out_avail (vout c) 1).
  assert (Ha : f || s || negb (C =? 0)%nat = true).
  { destruct (f || s) eqn:Efs; [done|]. cbn. apply orb_false_iff in Efs as [Ef Es]. apply negb_true_iff, Nat.eqb_neq.
    intros HCz. rewrite (HC0 HCz) in Hbeyond. enough (CCoins_IsPruned c = true) by congruence.
    apply IsPruned_unspent. intros n. pose proof (IsAvailable_unspent c n) as Hu.
    assert (Hn : out_avail (vout c) n = false) by (destruct n as [|[|n]]; [done|done|apply Hbeyond; lia]).
    change (CCoins_IsAvailable c n) with (out_avail (vout c) n) in Hu. rewrite Hn in Hu. by destruct (unspent c n). }
  rewrite Ha. mstep. set (q := Z.of_nat C - (if f || s then 0 else 1)).
  assert (Hq : 0 <= q < 2 ^ 28).
  { subst q. destruct (f || s); [lia|]. cbn [orb] in Ha. apply negb_true_iff, Nat.eqb_neq in Ha. lia. }
  destruct (code_fields (fCoinBase c) f s q ltac:(lia)) as (E1 & E2 & E4 & E6 & E8).
  set (nCode := 8 * q + _ + _ + _) in *.
  assert (Hcode : is_u32 nCode) by (subst nCode; unfold is_u32; destruct (fCoinBase c), f, s; lia).
  rewrite u32_small by done. unfold unser_CCoins.
  eapply wr_bind; [by apply wr_i32|]. eapply wr_bind; [by apply wr_u32|]. cbv zeta.
  rewrite E1, E2, E4, E6, E8.
  replace (q + (if f || s then 0 else 1)) with (nonzero (mask (vout c) N)) by (rewrite Hc; subst q; destruct (f || s); lia).
  eapply wr_bind.
  { apply mask_read_ok; [|done]. apply Forall_fmap, Forall_forall. intros k _. cbn. apply mask_byte_flags. }
  rewrite mask_flags. change ([f; s] ++ (out_avail (vout c) <$> seq 2 (N * 8)))
    with (out_avail (vout c) <$> seq 0 (2 + N * 8)).
  rewrite (outs_foldr (vout c) (2 + N * 8)) by done.
  eapply wr_bind; [apply outs_range; [done|intros i Hi; apply Hbeyond; lia]|].
  rewrite <- (Cleanup_seq c (2 + N * 8) Hbeyond).
  apply (wr_map _ _ (fun h => CCoins_Cleanup (mkCCoins _ _ h _))). by apply wr_i32.
Qed.

(** (C35) The chain state record of a transaction's outputs is read back from
    what is written for it, up to the clean-up of null outputs at the back:
    whatever the availabilities, the bitmask and the compressed amounts and
    scripts give the same unspent outputs, and no assertion fires. *)
Theorem CCoins_roundtrip (c : CCoins) (Hc : coins_ok c) (Hp : CCoins_IsPruned c = false) :
  exists b, ser_CCoins c = Ok b /\ forall rest, unser_CCoins (b ++ rest) = Ok (CCoins_Cleanup c, rest).
Proof. destruct (CCoins_wr c Hc Hp) as (b & E & _ & R). by exists b. Qed.

(** *** Undo records *)

Lemma wr_all {A} (ser : A -> writer) (unser : reader A) l : Forall (fun a => wr (ser a) unser a) l ->
  wr (ser_all ser l) (unser_n unser (length l)) l.
Proof.
  induction 1 as [|a l Ha Hl IH]; [apply wr_ret|]. cbn [ser_all foldr unser_n length].
  eapply wr_bind; [done|]. by apply (wr_map _ _ (fun l => a :: l)).
Qed.

Lemma wr_vector {A} (ser : A -> writer) (unser : reader A) l : Z.of_nat (length l) <= MAX_SIZE ->
  Forall (fun a => wr (ser a) unser a) l -> wr (ser_vector ser l) (unser_vector unser) l.
Proof.
  intros Hl Ha. unfold ser_vector, unser_vector.
  eapply wr_bind; [apply (wr_codec _ _ _ _ CompactSize_codec); lia|]. rewrite Nat2Z.id. by apply wr_all.
Qed.

Record undo_ok (u : CTxInUndo) : Prop := {
  uo_txout : out_ok (undo_txout u);
  uo_height : 0 <= undo_nHeight u < 2 ^ 31;
  uo_version : if 0 <? undo_nHeight u then 0 <= undo_nVersion u < 2 ^ 31 else undo_nVersion u = 0
}.
Definition tx_undo_ok (u : CTxUndo) : Prop := vector_ok undo_ok (vprevout u).
Definition block_undo_ok (u : CBlockUndo) : Prop :=
  vector_ok tx_undo_ok (vtxundo u) /\ is_uint256 (old_sprout_tree_root u).

Lemma CTxInUndo_wr u : undo_ok u -> wr (ser_CTxInUndo u) unser_CTxInUndo u.
Proof.
  intros [Ho Hh Hv]. unfold ser_CTxInUndo, unser_CTxInUndo.
  set (nCode := undo_nHeight u * 2 + (if undo_fCoinBase u then 1 else 0)).
  assert (Hc : is_u32 nCode) by (unfold is_u32; subst nCode; destruct (undo_fCoinBase u); lia).
  assert (E2 : nCode / 2 = undo_nHeight u).
  { subst nCode. rewrite Z.add_comm, Z.div_add by lia. by destruct (undo_fCoinBase u). }
  assert (E1 : negb (Z.land nCode 1 =? 0) = undo_fCoinBase u).
  { subst nCode. rewrite (Z.land_ones _ 1), Z.add_comm, Z.mod_add by lia. by destruct (undo_fCoinBase u). }
  rewrite u32_small by done. eapply wr_bind; [by apply wr_u32|]. cbv zeta. rewrite E1, E2.
  eapply (wr_bind _ _ _ _ (undo_nVersion u)).
  - destruct (0 <? undo_nHeight u); [by apply wr_i32|]. rewrite Hv. apply wr_ret.
  - destruct u as [o cb h v]. apply (wr_map _ _ (fun o => mkTxInUndo o _ _ _)). by apply out_wr.
Qed.

Lemma CBlockUndo_wr u : block_undo_ok u -> wr (ser_CBlockUndo u) unser_CBlockUndo u.
Proof.
  intros [[Hl Hv] Hr]. unfold ser_CBlockUndo, unser_CBlockUndo. eapply wr_bind.
  - apply wr_vector; [done|]. eapply Forall_impl; [exact Hv|]. intros t [Hlt Ht]. unfold ser_CTxUndo, unser_CTxUndo.
    destruct t as [v]. apply (wr_map _ _ mkTxUndo). apply wr_vector; [done|].
    eapply Forall_impl; [exact Ht|]. apply CTxInUndo_wr.
  - destruct u as [v r]. apply (wr_map _ _ (mkBlockUndo v)). by apply (wr_codec _ _ _ _ uint256_codec).
Qed.

(** The undo data of a block is read back exactly as it was written. *)
Theorem CBlockUndo_roundtrip (u : CBlockUndo) (Hu : block_undo_ok u) :
  exists b, ser_CBlockUndo u = Ok b /\ forall rest, unser_CBlockUndo (b ++ rest) = Ok (u, rest).
Proof. destruct (CBlockUndo_wr u Hu) as (b & E & _ & R). by exists b. Qed.
End Scripts.

(** ** Concrete runs *)

(** Points whose two coordinates are equal. *)
Definition toy_parse (k : bytes) : bool :=
  match k with
  | [] => false
  | b :: x =>
      (bool_decide (length x = 64%nat) && (b =? 4) && bool_decide (take 32 x = drop 32 x))
      || (bool_decide (length x = 32%nat) && (Z.lor 2 (Z.land (byte_at x 31) 1) =? b))
  end.
Definition toy_uncompressed (k : bytes) : bytes :=
  match k with
  | [] => []
  | b :: x => if bool_decide (length x = 64%nat) then k else 4 :: x ++ x
  end.
Definition toy_secp : Secp256k1 := {| ec_pubkey_parse := toy_parse; ec_pubkey_uncompressed := toy_uncompressed |}.

Lemma toy_secp_laws : @Secp256k1Laws toy_secp.
Proof.
  split.
  - intros [|b x] Hp; [done|]. cbn in *. case_bool_decide as Hx; [by rewrite <- Hx|].
    cbn [andb orb] in Hp. zbool. cbn [length]. rewrite length_app. lia.
  - intros x y Hx Hy Hp k. cbn in Hp. rewrite length_app, Hx, Hy in Hp. cbn in Hp.
    rewrite take_app_length', drop_app_length' in Hp by done.
    rewrite orb_false_r in Hp. zbool. subst y k. cbn. rewrite Hx. cbn. by rewrite Z.eqb_refl.
Qed.

Definition ex_key : bytes := replicate 31 7 ++ [3].
Definition ex_coins : CCoins :=
  mkCCoins true
    [mkCTxOut 5000000000 (OP_DUP :: OP_HASH160 :: 20 :: replicate 20 9 ++ [OP_EQUALVERIFY; OP_CHECKSIG]) (-10);
     CTxOut_SetNull; CTxOut_SetNull;
     mkCTxOut 12345 (65 :: 4 :: ex_key ++ ex_key ++ [OP_CHECKSIG]) (-10);
     mkCTxOut 1 [0x51] (-10)] 120891 4.

Lemma ex_coins_ok : coins_ok ex_coins.
Proof.
  split; cbn [vout nVersion nHeight ex_coins]; [|cbn; lia|lia|lia].
  assert (Hout : forall v s, 0 <= v <= MAX_MONEY -> forallb (fun b => (0 <=? b) && (b <? 256)) s = true ->
    Z.of_nat (length s) <= MAX_SCRIPT_SIZE -> coin_ok (mkCTxOut v s (-10))).
  { intros v s Hv Hs Hl. right. split; [done|]. split; [|done]. split; [|done]. apply Forall_forall. intros b Hb.
    rewrite forallb_forall in Hs. specialize (Hs b ltac:(by apply list_elem_of_In)). zbool.
    unfold is_u8. change (2 ^ 8) with 256. lia. }
  repeat (apply Forall_cons; split); try apply Forall_nil_2;
    first [by left|apply Hout; [unfold MAX_MONEY, COIN; lia|by vm_compute|by vm_compute]].
Qed.

Lemma CCoins_roundtrip_witness :
  exists b, @ser_CCoins toy_secp ex_coins = Ok b
    /\ forall rest, @unser_CCoins toy_secp (b ++ rest) = Ok (CCoins_Cleanup ex_coins, rest).
Proof.
  apply (@CCoins_roundtrip toy_secp toy_secp_laws ex_coins); [apply ex_coins_ok|reflexivity].
Defined.

Lemma CBlockUndo_roundtrip_witness :
  let u := mkBlockUndo [mkTxUndo [mkTxInUndo (out_at (vout ex_coins) 3) true 7 4]] 99 in
  exists b, @ser_CBlockUndo toy_secp u = Ok b
    /\ forall rest, @unser_CBlockUndo toy_secp (b ++ rest) = Ok (u, rest).
Proof.
  intros u. apply (@CBlockUndo_roundtrip toy_secp toy_secp_laws u). split; [|unfold is_uint256; cbn; lia].
  split; [cbn; unfold MAX_SIZE; lia|]. constructor; [|constructor]. split; [cbn; unfold MAX_SIZE; lia|].
  constructor; [|constructor]. split; [|cbn; lia|cbn; lia]. cbn [undo_txout].
  destruct (Forall_lookup_1 _ _ 3%nat _ (co_outs _ ex_coins_ok) eq_refl) as [Hn|Ho]; [discriminate Hn|exact Ho].
Defined.
