(* ===== verification/TxSerialize.v ===== *)
(** * Serialization of transactions

    The [SerializationOp] of every part of a transaction
    (primitives/transaction.h, zcash/Proof.hpp), and the proof that the wire
    format of a transaction is one-to-one. *)
From S2P Require Import Prelude Transaction Serialize.
From stdpp Require Import prelude strings list.
#[local] Open Scope Z_scope.

(** ** Proofs *)

Definition G1_PREFIX_MASK : Z := 0x02.
Definition G2_PREFIX_MASK : Z := 0x0a.

(** [CompressedG1] ([mask] is [G1_PREFIX_MASK], 32 bytes) and [CompressedG2]
    ([G2_PREFIX_MASK], 64 bytes). *)
Definition ser_point (mask : Z) (p : CompressedPoint) : writer :=
  ser_u8 (if pt_sign p then Z.lor mask 1 else mask) ⧺ ser_flat (pt_x p).
Definition unser_point (mask : Z) (n : nat) : reader CompressedPoint :=
  leadingByte ← unser_u8;
  if negb (Z.ldiff leadingByte 1 =? mask) then read_throw "lead byte of point not recognized"
  else x ← unser_flat n; mret (mkPoint (negb (Z.land leadingByte 1 =? 0)) x).

Definition ser_G1 := ser_point G1_PREFIX_MASK.
Definition unser_G1 := unser_point G1_PREFIX_MASK 32.
Definition ser_G2 := ser_point G2_PREFIX_MASK.
Definition unser_G2 := unser_point G2_PREFIX_MASK 64.

Definition ser_PHGRProof (p : PHGRProof) : writer :=
  ser_G1 (g_A p) ⧺ ser_G1 (g_A_prime p) ⧺ ser_G2 (g_B p) ⧺ ser_G1 (g_B_prime p)
  ⧺ ser_G1 (g_C p) ⧺ ser_G1 (g_C_prime p) ⧺ ser_G1 (g_K p) ⧺ ser_G1 (g_H p).
Definition unser_PHGRProof : reader PHGRProof :=
  g_A ← unser_G1; g_A_prime ← unser_G1; g_B ← unser_G2; g_B_prime ← unser_G1;
  g_C ← unser_G1; g_C_prime ← unser_G1; g_K ← unser_G1; g_H ← unser_G1;
  mret (mkPHGR g_A g_A_prime g_B g_B_prime g_C g_C_prime g_K g_H).

Definition GROTH_PROOF_SIZE : nat := 48 + 96 + 48.

(** [SerReadWriteSproutProof]. *)
Definition ser_SproutProof (useGroth : bool) (p : SproutProof) : writer :=
  match p with
  | PHGR proof =>
      if useGroth then Throw "Invalid Sprout proof for transaction format (expected GrothProof, found PHGRProof)"
      else ser_PHGRProof proof
  | GrothProof proof =>
      if useGroth then ser_flat proof
      else Throw "Invalid Sprout proof for transaction format (expected PHGRProof, found GrothProof)"
  end.
Definition unser_SproutProof (useGroth : bool) : reader SproutProof :=
  if useGroth then p ← unser_flat GROTH_PROOF_SIZE; mret (GrothProof p)
  else p ← unser_PHGRProof; mret (PHGR p).

(** ** Shielded descriptions *)

Definition ser_SpendDescription (d : SpendDescription) : writer :=
  ser_uint256 (sd_cv d) ⧺ ser_uint256 (sd_anchor d) ⧺ ser_uint256 (sd_nullifier d)
  ⧺ ser_uint256 (sd_rk d) ⧺ ser_flat (sd_zkproof d) ⧺ ser_flat (sd_spendAuthSig d).
Definition unser_SpendDescription : reader SpendDescription :=
  cv ← unser_uint256; anchor ← unser_uint256; nullifier ← unser_uint256; rk ← unser_uint256;
  zkproof ← unser_flat GROTH_PROOF_SIZE; spendAuthSig ← unser_flat 64;
  mret (mkSpendDescription cv anchor nullifier rk zkproof spendAuthSig).

Definition ZC_SAPLING_ENCCIPHERTEXT_SIZE : nat := 1 + 11 + 8 + 32 + 512 + 16.
Definition ZC_SAPLING_OUTCIPHERTEXT_SIZE : nat := 32 + 32 + 16.

Definition ser_OutputDescription (d : OutputDescription) : writer :=
  ser_uint256 (od_cv d) ⧺ ser_uint256 (od_cm d) ⧺ ser_uint256 (od_ephemeralKey d)
  ⧺ ser_flat (od_encCiphertext d) ⧺ ser_flat (od_outCiphertext d) ⧺ ser_flat (od_zkproof d).
Definition unser_OutputDescription : reader OutputDescription :=
  cv ← unser_uint256; cm ← unser_uint256; ephemeralKey ← unser_uint256;
  enc ← unser_flat ZC_SAPLING_ENCCIPHERTEXT_SIZE; out ← unser_flat ZC_SAPLING_OUTCIPHERTEXT_SIZE;
  zkproof ← unser_flat GROTH_PROOF_SIZE;
  mret (mkOutputDescription cv cm ephemeralKey enc out zkproof).

Definition ZC_NUM_JS_INPUTS : nat := 2.
Definition ZC_NUM_JS_OUTPUTS : nat := 2.
(** [ZCNoteEncryption::Ciphertext]. *)
Definition CLEN : nat := 1 + 8 + 32 + 32 + 512 + 16.

(** The stream's version is the transaction header. *)
Definition js_useGroth (version : Z) : bool :=
  let fOverwintered := negb (Z.shiftr version 31 =? 0) in
  let txVersion := Z.land version 0x7FFFFFFF in
  fOverwintered && (SAPLING_TX_VERSION <=? txVersion).

Definition ser_JSDescription (version : Z) (js : JSDescription) : writer :=
  ser_i64 (vpub_old js) ⧺ ser_i64 (vpub_new js) ⧺ ser_uint256 (js_anchor js)
  ⧺ ser_array ser_uint256 (js_nullifiers js) ⧺ ser_array ser_uint256 (js_commitments js)
  ⧺ ser_uint256 (js_ephemeralKey js) ⧺ ser_uint256 (js_randomSeed js)
  ⧺ ser_array ser_uint256 (js_macs js) ⧺ ser_SproutProof (js_useGroth version) (js_proof js)
  ⧺ ser_array ser_flat (js_ciphertexts js).
Definition unser_JSDescription (version : Z) : reader JSDescription :=
  vpub_old ← unser_i64; vpub_new ← unser_i64; anchor ← unser_uint256;
  nullifiers ← unser_array unser_uint256 ZC_NUM_JS_INPUTS;
  commitments ← unser_array unser_uint256 ZC_NUM_JS_OUTPUTS;
  ephemeralKey ← unser_uint256; randomSeed ← unser_uint256;
  macs ← unser_array unser_uint256 ZC_NUM_JS_INPUTS;
  proof ← unser_SproutProof (js_useGroth version);
  ciphertexts ← unser_array (unser_flat CLEN) ZC_NUM_JS_OUTPUTS;
  mret (mkJSDescription vpub_old vpub_new anchor nullifiers commitments ephemeralKey ciphertexts randomSeed macs proof).

(** ** Inputs and outputs *)

Definition ser_COutPoint (o : COutPoint) : writer := ser_uint256 (out_hash o) ⧺ ser_u32 (out_n o).
Definition unser_COutPoint : reader COutPoint := h ← unser_uint256; n ← unser_u32; mret (mkCOutPoint h n).

Definition ser_CTxIn (i : CTxIn) : writer :=
  ser_COutPoint (prevout i) ⧺ ser_blob (scriptSig i) ⧺ ser_u32 (nSequence i).
Definition unser_CTxIn : reader CTxIn :=
  prevout ← unser_COutPoint; scriptSig ← unser_blob; nSequence ← unser_u32;
  mret (mkCTxIn prevout scriptSig nSequence).

(** [nRounds] is not serialized; a fresh output has its initial value. *)
Definition ser_CTxOut (o : CTxOut) : writer := ser_i64 (nValue o) ⧺ ser_blob (scriptPubKey o).
Definition unser_CTxOut : reader CTxOut :=
  nValue ← unser_i64; scriptPubKey ← unser_blob; mret (mkCTxOut nValue scriptPubKey (-10)).

(** ** Transactions *)

Definition OVERWINTER_bit : Z := Z.shiftl 1 31.

Definition GetHeader (tx : CMutableTransaction) : Z :=
  let header := u32 (tx_nVersion tx) in
  if fOverwintered tx then Z.lor header OVERWINTER_bit else header.

Definition is_OverwinterV3 (fOverwintered : bool) (nVersionGroupId nVersion : Z) : bool :=
  fOverwintered && (nVersionGroupId =? OVERWINTER_VERSION_GROUP_ID) && (nVersion =? OVERWINTER_TX_VERSION).
Definition is_SaplingV4 (fOverwintered : bool) (nVersionGroupId nVersion : Z) : bool :=
  fOverwintered && (nVersionGroupId =? SAPLING_VERSION_GROUP_ID) && (nVersion =? SAPLING_TX_VERSION).

(** [if (c) READWRITE(x)]: a field that is not read keeps its value. *)
Definition ser_if (c : bool) (w : writer) : writer := if c then w else Ok [].
Definition unser_if {A} (c : bool) (r : reader A) (old : A) : reader A := if c then r else mret old.

(** The fields after the version group id. *)
Definition ser_tx_body (v3 v4 : bool) (header : Z) (tx : CMutableTransaction) : writer :=
  ser_vector ser_CTxIn (vin tx) ⧺ ser_vector ser_CTxOut (tx_vout tx) ⧺ ser_u32 (nLockTime tx)
  ⧺ ser_if (v3 || v4) (ser_u32 (nExpiryHeight tx))
  ⧺ ser_if v4 (ser_i64 (valueBalance tx))
  ⧺ ser_if v4 (ser_vector ser_SpendDescription (vShieldedSpend tx))
  ⧺ ser_if v4 (ser_vector ser_OutputDescription (vShieldedOutput tx))
  ⧺ ser_if (2 <=? tx_nVersion tx) (ser_vector (ser_JSDescription (i32 header)) (vjoinsplit tx))
  ⧺ ser_if ((2 <=? tx_nVersion tx) && bool_decide (vjoinsplit tx <> [])) (ser_flat (joinSplitPubKey tx))
  ⧺ ser_if ((2 <=? tx_nVersion tx) && bool_decide (vjoinsplit tx <> [])) (ser_flat (joinSplitSig tx))
  ⧺ ser_if (v4 && negb (bool_decide (vShieldedSpend tx = []) && bool_decide (vShieldedOutput tx = [])))
      (ser_flat (bindingSig tx)).

Definition unser_tx_body (v3 v4 fOverwintered : bool) (header nVersion nVersionGroupId : Z)
  (tx0 : CMutableTransaction) : reader CMutableTransaction :=
  vin ← unser_vector unser_CTxIn;
  vout ← unser_vector unser_CTxOut;
  nLockTime ← unser_u32;
  nExpiryHeight ← unser_if (v3 || v4) unser_u32 (nExpiryHeight tx0);
  valueBalance ← unser_if v4 unser_i64 (valueBalance tx0);
  vShieldedSpend ← unser_if v4 (unser_vector unser_SpendDescription) (vShieldedSpend tx0);
  vShieldedOutput ← unser_if v4 (unser_vector unser_OutputDescription) (vShieldedOutput tx0);
  vjoinsplit ← unser_if (2 <=? nVersion) (unser_vector (unser_JSDescription (i32 header))) (vjoinsplit tx0);
  let fKeys := (2 <=? nVersion) && bool_decide (vjoinsplit <> []) in
  joinSplitPubKey ← unser_if fKeys (unser_flat 32) (joinSplitPubKey tx0);
  joinSplitSig ← unser_if fKeys (unser_flat 64) (joinSplitSig tx0);
  let fBinding := v4 && negb (bool_decide (vShieldedSpend = []) && bool_decide (vShieldedOutput = [])) in
  bindingSig ← unser_if fBinding (unser_flat 64) (bindingSig tx0);
  mret (mkTx fOverwintered nVersion nVersionGroupId vin vout nLockTime nExpiryHeight valueBalance
          vShieldedSpend vShieldedOutput vjoinsplit joinSplitPubKey joinSplitSig bindingSig).

Definition unknown_format : string := "Unknown transaction format".

Definition ser_tx (tx : CMutableTransaction) : writer :=
  let header := GetHeader tx in
  let v3 := is_OverwinterV3 (fOverwintered tx) (nVersionGroupId tx) (tx_nVersion tx) in
  let v4 := is_SaplingV4 (fOverwintered tx) (nVersionGroupId tx) (tx_nVersion tx) in
  ser_u32 header ⧺ ser_if (fOverwintered tx) (ser_u32 (nVersionGroupId tx))
  ⧺ (if fOverwintered tx && negb (v3 || v4) then Throw unknown_format
     else ser_tx_body v3 v4 header tx).

(** Reading into the transaction [tx0]. *)
Definition unser_tx (tx0 : CMutableTransaction) : reader CMutableTransaction :=
  header ← unser_u32;
  let fOverwintered := negb (Z.shiftr header 31 =? 0) in
  let nVersion := Z.land header 0x7FFFFFFF in
  nVersionGroupId ← unser_if fOverwintered unser_u32 (nVersionGroupId tx0);
  let v3 := is_OverwinterV3 fOverwintered nVersionGroupId nVersion in
  let v4 := is_SaplingV4 fOverwintered nVersionGroupId nVersion in
  if fOverwintered && negb (v3 || v4) then read_throw unknown_format
  else unser_tx_body v3 v4 fOverwintered header nVersion nVersionGroupId tx0.

(** The default [CMutableTransaction()]; its key and signature bytes are not
    initialized. *)
Definition CMutableTransaction_new (key sig : bytes) : CMutableTransaction :=
  mkTx false 1 0 [] [] 0 0 0 [] [] [] key sig (replicate 64 0).

(** [GetSerializeSize(tx, SER_NETWORK, PROTOCOL_VERSION)]. *)
Definition GetSerializeSize_tx (tx : CMutableTransaction) : result Z := b ← ser_tx tx; Ok (Z.of_nat (length b)).

(** ** The parts are one-to-one *)

Definition point_ok (n : nat) (p : CompressedPoint) : Prop := flat_ok n (pt_x p).

Lemma point_codec mask n : mask = G1_PREFIX_MASK \/ mask = G2_PREFIX_MASK ->
  codec (ser_point mask) (unser_point mask n) (point_ok n).
Proof.
  intros Hm. split.
  - intros [sgn x] [Hl Hx]. cbn [pt_x] in *.
    exists (le_bytes 1 (if sgn then Z.lor mask 1 else mask) ++ x). split; [done|].
    split; [apply is_bytes_app; split; [apply le_bytes_bytes|done]|].
    eapply reads_bind; [apply (le_reads 1); destruct Hm as [-> | ->], sgn; vm_compute; split; done|].
    assert (Hr : reads (unser_flat n) x x) by (intros rest; by apply read_bytes_ok).
    destruct Hm as [-> | ->], sgn; exact (reads_map _ (mkPoint _) _ _ Hr).
  - intros b p rest Hs E. apply reader_bind_inv in E as (l & s' & E1 & E2).
    destruct (codec_bwd _ _ _ u8_codec _ _ _ Hs E1) as (Hl & b1 & [= <-] & ->). apply is_bytes_app in Hs as [_ Hs].
    destruct (Z.eqb_spec (Z.ldiff l 1) mask) as [Hd|]; [|done]. cbn [negb] in E2.
    apply reader_bind_inv in E2 as (x & s2 & E2 & E3). apply reader_ret_inv in E3 as [<- <-].
    destruct (codec_bwd _ _ _ (flat_codec n) _ _ _ Hs E2) as (Hx & b2 & [= <-] & ->).
    split; [done|]. exists (le_bytes 1 l ++ x). split; [|by rewrite <- app_assoc].
    unfold ser_point, ser_u8, ser_le. cbn [pt_sign pt_x]. do 2 f_equal.
    replace (if negb (Z.land l 1 =? 0) then Z.lor mask 1 else mask) with l; [done|].
    subst mask. clear - Hl.
    pose proof (byte_cases (fun l => l =? (if negb (Z.land l 1 =? 0) then Z.lor (Z.ldiff l 1) 1 else Z.ldiff l 1))
      ltac:(by vm_compute) l Hl) as H. cbv beta in H. by apply Z.eqb_eq in H.
Qed.

Lemma G1_codec : codec ser_G1 unser_G1 (point_ok 32).
Proof. apply point_codec. by left. Qed.
Lemma G2_codec : codec ser_G2 unser_G2 (point_ok 64).
Proof. apply point_codec. by right. Qed.
#[export] Hint Resolve G1_codec G2_codec : codec.

(** The shape of the value predicate of a record. *)
Ltac codec_shape ok := intros []; unfold ok; cbn; intuition.

Definition PHGR_ok (p : PHGRProof) : Prop :=
  point_ok 32 (g_A p) /\ point_ok 32 (g_A_prime p) /\ point_ok 64 (g_B p) /\ point_ok 32 (g_B_prime p)
  /\ point_ok 32 (g_C p) /\ point_ok 32 (g_C_prime p) /\ point_ok 32 (g_K p) /\ point_ok 32 (g_H p).

Lemma PHGR_codec : codec ser_PHGRProof unser_PHGRProof PHGR_ok.
Proof.
  eapply codec_iff; [unfold ser_PHGRProof, unser_PHGRProof; codec_record|]. codec_shape PHGR_ok.
Qed.

Definition SproutProof_ok (useGroth : bool) (p : SproutProof) : Prop :=
  match p with
  | PHGR proof => useGroth = false /\ PHGR_ok proof
  | GrothProof proof => useGroth = true /\ flat_ok GROTH_PROOF_SIZE proof
  end.

Lemma SproutProof_codec g : codec (ser_SproutProof g) (unser_SproutProof g) (SproutProof_ok g).
Proof.
  unfold unser_SproutProof. split.
  - intros [proof|proof] Ho; cbn in Ho.
    + destruct Ho as [-> Ho]. destruct (codec_fwd _ _ _ PHGR_codec proof Ho) as (b & E & Hb & Hr).
      exists b. split; [done|]. split; [done|]. by apply (reads_map _ PHGR).
    + destruct Ho as [-> Ho]. destruct (codec_fwd _ _ _ (flat_codec _) proof Ho) as (b & E & Hb & Hr).
      exists b. split; [done|]. split; [done|]. by apply (reads_map _ GrothProof).
  - intros b p rest Hs E. destruct g; apply reader_bind_inv in E as (x & s' & E1 & E2);
      apply reader_ret_inv in E2 as [<- <-].
    + destruct (codec_bwd _ _ _ (flat_codec _) _ _ _ Hs E1) as (Ho & Hw). by split.
    + destruct (codec_bwd _ _ _ PHGR_codec _ _ _ Hs E1) as (Ho & Hw). by split.
Qed.
#[export] Hint Resolve PHGR_codec SproutProof_codec : codec.

Definition Spend_ok (d : SpendDescription) : Prop :=
  is_uint256 (sd_cv d) /\ is_uint256 (sd_anchor d) /\ is_uint256 (sd_nullifier d) /\ is_uint256 (sd_rk d)
  /\ flat_ok GROTH_PROOF_SIZE (sd_zkproof d) /\ flat_ok 64 (sd_spendAuthSig d).

Lemma Spend_codec : codec ser_SpendDescription unser_SpendDescription Spend_ok.
Proof.
  eapply codec_iff; [unfold ser_SpendDescription, unser_SpendDescription; codec_record|]. codec_shape Spend_ok.
Qed.

Definition Output_ok (d : OutputDescription) : Prop :=
  is_uint256 (od_cv d) /\ is_uint256 (od_cm d) /\ is_uint256 (od_ephemeralKey d)
  /\ flat_ok ZC_SAPLING_ENCCIPHERTEXT_SIZE (od_encCiphertext d)
  /\ flat_ok ZC_SAPLING_OUTCIPHERTEXT_SIZE (od_outCiphertext d) /\ flat_ok GROTH_PROOF_SIZE (od_zkproof d).

Lemma Output_codec : codec ser_OutputDescription unser_OutputDescription Output_ok.
Proof.
  eapply codec_iff; [unfold ser_OutputDescription, unser_OutputDescription; codec_record|]. codec_shape Output_ok.
Qed.

Definition JS_ok (version : Z) (js : JSDescription) : Prop :=
  is_i64 (vpub_old js) /\ is_i64 (vpub_new js) /\ is_uint256 (js_anchor js)
  /\ array_ok is_uint256 2 (js_nullifiers js) /\ array_ok is_uint256 2 (js_commitments js)
  /\ is_uint256 (js_ephemeralKey js) /\ is_uint256 (js_randomSeed js) /\ array_ok is_uint256 2 (js_macs js)
  /\ SproutProof_ok (js_useGroth version) (js_proof js) /\ array_ok (flat_ok CLEN) 2 (js_ciphertexts js).

Lemma JS_codec version : codec (ser_JSDescription version) (unser_JSDescription version) (JS_ok version).
Proof.
  eapply codec_iff; [unfold ser_JSDescription, unser_JSDescription; codec_record|]. codec_shape JS_ok.
Qed.

Definition OutPoint_ok (o : COutPoint) : Prop := is_uint256 (out_hash o) /\ is_u32 (out_n o).
Lemma OutPoint_codec : codec ser_COutPoint unser_COutPoint OutPoint_ok.
Proof. eapply codec_iff; [unfold ser_COutPoint, unser_COutPoint; codec_record|]. codec_shape OutPoint_ok. Qed.
#[export] Hint Resolve Spend_codec Output_codec JS_codec OutPoint_codec : codec.

Definition TxIn_ok (i : CTxIn) : Prop := OutPoint_ok (prevout i) /\ blob_ok (scriptSig i) /\ is_u32 (nSequence i).
Lemma TxIn_codec : codec ser_CTxIn unser_CTxIn TxIn_ok.
Proof. eapply codec_iff; [unfold ser_CTxIn, unser_CTxIn; codec_record|]. codec_shape TxIn_ok. Qed.

Definition TxOut_ok (o : CTxOut) : Prop := is_i64 (nValue o) /\ blob_ok (scriptPubKey o) /\ nRounds o = -10.
Lemma TxOut_codec : codec ser_CTxOut unser_CTxOut TxOut_ok.
Proof.
  eapply codec_iff; [unfold ser_CTxOut, unser_CTxOut; codec_record|].
  intros [v s n]. unfold TxOut_ok. cbn. intuition congruence.
Qed.
#[export] Hint Resolve TxIn_codec TxOut_codec : codec.

(** ** A transaction *)

Definition if_ok {A} (c : bool) (ok : A -> Prop) (old a : A) : Prop := if c then ok a else a = old.

Lemma if_codec {A} (c : bool) (w : A -> writer) r ok old : codec w r ok ->
  codec (fun a => ser_if c (w a)) (unser_if c r old) (if_ok c ok old).
Proof. intros H. destruct c; [exact H|]. apply codec_ret. Qed.

Definition js_keys (tx : CMutableTransaction) : bool := (2 <=? tx_nVersion tx) && bool_decide (vjoinsplit tx <> []).
Definition has_binding (v4 : bool) (tx : CMutableTransaction) : bool :=
  v4 && negb (bool_decide (vShieldedSpend tx = []) && bool_decide (vShieldedOutput tx = [])).

(** The fields after the version group id: those the format carries are in
    range, the others are those of [tx0]. *)
Definition body_ok (v3 v4 : bool) (header : Z) (tx0 tx : CMutableTransaction) : Prop :=
  vector_ok TxIn_ok (vin tx) /\ vector_ok TxOut_ok (tx_vout tx) /\ is_u32 (nLockTime tx)
  /\ if_ok (v3 || v4) is_u32 (nExpiryHeight tx0) (nExpiryHeight tx)
  /\ if_ok v4 is_i64 (valueBalance tx0) (valueBalance tx)
  /\ if_ok v4 (vector_ok Spend_ok) (vShieldedSpend tx0) (vShieldedSpend tx)
  /\ if_ok v4 (vector_ok Output_ok) (vShieldedOutput tx0) (vShieldedOutput tx)
  /\ if_ok (2 <=? tx_nVersion tx) (vector_ok (JS_ok (i32 header))) (vjoinsplit tx0) (vjoinsplit tx)
  /\ if_ok (js_keys tx) (flat_ok 32) (joinSplitPubKey tx0) (joinSplitPubKey tx)
  /\ if_ok (js_keys tx) (flat_ok 64) (joinSplitSig tx0) (joinSplitSig tx)
  /\ if_ok (has_binding v4 tx) (flat_ok 64) (bindingSig tx0) (bindingSig tx).

Lemma tx_body_codec v3 v4 fOv header nVer vgid tx0 :
  codec (ser_tx_body v3 v4 header) (unser_tx_body v3 v4 fOv header nVer vgid tx0)
    (fun tx => fOverwintered tx = fOv /\ tx_nVersion tx = nVer /\ nVersionGroupId tx = vgid
               /\ body_ok v3 v4 header tx0 tx).
Proof.
  eapply codec_wext; [eapply codec_iff; [unfold unser_tx_body|]|].
  - eapply (codec_field vin); [eauto with codec|intros l_in|].
    1: eapply (codec_field tx_vout); [eauto with codec|intros l_out|].
    1: eapply (codec_field nLockTime); [eauto with codec|intros lock|].
    1: eapply (codec_field nExpiryHeight); [apply if_codec; eauto with codec|intros expiry|].
    1: eapply (codec_field valueBalance); [apply if_codec; eauto with codec|intros vb|].
    1: eapply (codec_field_dep vShieldedSpend); [apply if_codec; eauto with codec|intros ss|].
    1: eapply (codec_field_dep vShieldedOutput); [apply if_codec; eauto with codec|intros so|].
    1: eapply (codec_field_dep vjoinsplit); [apply if_codec; eauto with codec|intros js|].
    1: eapply (codec_field joinSplitPubKey); [apply if_codec; eauto with codec|intros pk|].
    1: eapply (codec_field joinSplitSig); [apply if_codec; eauto with codec|intros sig|].
    1: eapply (codec_last bindingSig); [apply if_codec; eauto with codec|done].
    all: codec_eq.
  - intros []. unfold body_ok, js_keys, has_binding. cbn.
    split; intros; destruct_and!;
      [match goal with H : mkTx _ _ _ _ _ _ _ _ _ _ _ _ _ _ = _ |- _ => injection H as -> -> -> end|subst];
      by split_and!.
  - intros tx (<- & <- & <- & _). done.
Qed.

(** The header holds the flag in its top bit. *)
Lemma header_split header : is_u32 header ->
  negb (Z.shiftr header 31 =? 0) = (2 ^ 31 <=? header) /\ Z.land header 0x7FFFFFFF = header mod 2 ^ 31.
Proof.
  intros Hh. unfold is_u32 in Hh. split.
  - rewrite Z.shiftr_div_pow2 by lia. destruct (Z.leb_spec (2 ^ 31) header).
    + pose proof (Z.div_le_lower_bound header (2 ^ 31) 1 ltac:(lia) ltac:(lia)).
      destruct (Z.eqb_spec (header / 2 ^ 31) 0); [lia|done].
    + by rewrite Z.div_small by lia.
  - change 0x7FFFFFFF with (Z.ones 31). apply Z.land_ones. lia.
Qed.

Lemma GetHeader_split (tx : CMutableTransaction) : 0 <= tx_nVersion tx < 2 ^ 31 ->
  GetHeader tx = tx_nVersion tx + (if fOverwintered tx then 2 ^ 31 else 0).
Proof.
  intros Hv. unfold GetHeader. rewrite u32_small by (unfold is_u32; lia). destruct (fOverwintered tx); [|lia].
  change OVERWINTER_bit with (1 * 2 ^ 31). rewrite lor_disjoint; lia.
Qed.

Lemma codec_throw {A} (c : bool) msg (w : A -> writer) r ok : codec w r ok ->
  codec (fun x => if c then Throw msg else w x) (if c then read_throw msg else r) (fun x => c = false /\ ok x).
Proof.
  intros Hc. destruct c.
  - split; [intros ? [? _]; done|]. intros b a rest _ E. done.
  - eapply codec_iff; [exact Hc|]. naive_solver.
Qed.

Lemma header_fields (tx : CMutableTransaction) : 0 <= tx_nVersion tx < 2 ^ 31 ->
  is_u32 (GetHeader tx) /\ negb (Z.shiftr (GetHeader tx) 31 =? 0) = fOverwintered tx
  /\ Z.land (GetHeader tx) 0x7FFFFFFF = tx_nVersion tx.
Proof.
  intros Hv. assert (Hh : is_u32 (GetHeader tx)).
  { rewrite GetHeader_split by done. unfold is_u32. destruct (fOverwintered tx); lia. }
  destruct (header_split _ Hh) as [-> ->]. rewrite GetHeader_split in Hh |- * by done.
  split; [done|]. destruct (fOverwintered tx).
  - rewrite (proj2 (Z.leb_le _ _)) by lia. split; [done|].
    replace (tx_nVersion tx + 2 ^ 31) with (tx_nVersion tx + 1 * 2 ^ 31) by lia.
    rewrite Z.mod_add by lia. by apply Z.mod_small.
  - rewrite Z.add_0_r, (proj2 (Z.leb_gt _ _)) by lia. split; [done|]. by apply Z.mod_small.
Qed.

(** What the wire format can carry: a version of 31 bits, a version group id
    for an overwintered transaction, which is then of a known format. *)
Definition tx_v3 (tx : CMutableTransaction) : bool :=
  is_OverwinterV3 (fOverwintered tx) (nVersionGroupId tx) (tx_nVersion tx).
Definition tx_v4 (tx : CMutableTransaction) : bool :=
  is_SaplingV4 (fOverwintered tx) (nVersionGroupId tx) (tx_nVersion tx).
Record tx_wire (tx0 tx : CMutableTransaction) : Prop := {
  tw_version : 0 <= tx_nVersion tx < 2 ^ 31;
  tw_group : if_ok (fOverwintered tx) is_u32 (nVersionGroupId tx0) (nVersionGroupId tx);
  tw_format : fOverwintered tx && negb (tx_v3 tx || tx_v4 tx) = false;
  tw_body : body_ok (tx_v3 tx) (tx_v4 tx) (GetHeader tx) tx0 tx
}.

Lemma tx_codec tx0 : codec ser_tx (unser_tx tx0) (tx_wire tx0).
Proof.
  eapply codec_wext; [eapply codec_iff; [unfold unser_tx|]|].
  - eapply (codec_field_dep GetHeader); [apply u32_codec|intros header|].
    1: eapply (codec_field_dep nVersionGroupId); [apply if_codec, u32_codec|intros vgid|].
    1: apply codec_throw, tx_body_codec.
    + cbv beta. naive_solver.
    + cbv beta. intros header tx Hh (_ & _ & Ef & Ev & _). destruct (header_split header Hh) as [Hf Hv].
      rewrite Hf in Ef. rewrite Hv in Ev. unfold is_u32 in Hh.
      rewrite GetHeader_split by (rewrite Ev; apply Z.mod_pos_bound; lia).
      rewrite Ef, Ev. destruct (Z.leb_spec (2 ^ 31) header).
      * pose proof (Z.div_mod header (2 ^ 31)). assert (header / 2 ^ 31 = 1) by (symmetry; apply Z.div_unique with (header - 2 ^ 31); lia). lia.
      * rewrite Z.mod_small; lia.
  - intros tx. cbv beta. split.
    + intros (Hh & Hg & Hf & Ef & Ev & _ & Hb). rewrite <- Ef, <- Ev in *. split; try done.
      rewrite Ev. destruct (header_split _ Hh) as [_ ->]. apply Z.mod_pos_bound. lia.
    + intros [Hv Hg Hf Hb]. destruct (header_fields tx Hv) as (Hh & -> & ->). by split_and!.
  - intros tx [Hv _ _ _]. destruct (header_fields tx Hv) as (_ & Ef & Ev). unfold ser_tx. by rewrite Ef, Ev.
Qed.

(** (C34) [CTransaction::SerializationOp] and [CMutableTransaction::SerializationOp]
    read a transaction into [tx0].  A transaction the wire format can carry is
    written and read back, whatever follows it in the stream; and the bytes a
    reader accepts are those written for the transaction read, so a
    transaction has one encoding. *)
Theorem transaction_wire_format (tx0 : CMutableTransaction) :
  (forall tx, tx_wire tx0 tx -> exists b, ser_tx tx = Ok b /\ forall rest, unser_tx tx0 (b ++ rest) = Ok (tx, rest))
  /\ (forall s tx rest, is_bytes s -> unser_tx tx0 s = Ok (tx, rest) ->
        tx_wire tx0 tx /\ exists b, ser_tx tx = Ok b /\ s = b ++ rest).
Proof.
  destruct (tx_codec tx0) as [Hf Hb]. split.
  - intros tx Ht. destruct (Hf tx Ht) as (b & E & _ & Hr). by exists b.
  - exact Hb.
Qed.
