(* ===== verification/SigHash.v ===== *)
(** * Signature hashes

    script/interpreter.cpp: what a signature of a transaction input commits to
    ([SignatureHash] in its three versions, with the precomputed hashes of
    [PrecomputedTransactionData]), and [TransactionSignatureChecker::CheckSig].

    BLAKE2b with a personalization string, double SHA-256 and ECDSA
    verification are parameters (class [SigHashCrypto]). *)
From stdpp Require Import prelude strings list.
From S2P Require Import Prelude Transaction Script Interpreter Serialize TxSerialize.
#[local] Open Scope Z_scope.

(** [CBLAKE2bWriter] on all the bytes written to it, [CHashWriter] likewise,
    and [CPubKey::Verify] of a valid key. *)
Class SigHashCrypto := {
  blake2b : bytes -> bytes -> uint256;
  blake2b_range p b : 0 <= blake2b p b < 2 ^ 256;
  Hash256 : bytes -> uint256;
  ecdsa_verify : bytes -> uint256 -> bytes -> bool
}.

Definition NOT_AN_INPUT : Z := 2 ^ 32 - 1.

(** The bytes of a string literal. *)
Definition ascii_bytes (s : string) : bytes := (fun c => Z.of_nat (Ascii.nat_of_ascii c)) <$> String.list_ascii_of_string s.
Definition ZCASH_PREVOUTS_HASH_PERSONALIZATION : bytes := ascii_bytes "ZcashPrevoutHash".
Definition ZCASH_SEQUENCE_HASH_PERSONALIZATION : bytes := ascii_bytes "ZcashSequencHash".
Definition ZCASH_OUTPUTS_HASH_PERSONALIZATION : bytes := ascii_bytes "ZcashOutputsHash".
Definition ZCASH_JOINSPLITS_HASH_PERSONALIZATION : bytes := ascii_bytes "ZcashJSplitsHash".
Definition ZCASH_SHIELDED_SPENDS_HASH_PERSONALIZATION : bytes := ascii_bytes "ZcashSSpendsHash".
Definition ZCASH_SHIELDED_OUTPUTS_HASH_PERSONALIZATION : bytes := ascii_bytes "ZcashSOutputHash".

Inductive SigVersion := SIGVERSION_SPROUT | SIGVERSION_OVERWINTER | SIGVERSION_SAPLING.

Definition SignatureHashVersion (txTo : CMutableTransaction) : SigVersion :=
  if fOverwintered txTo then
    if nVersionGroupId txTo =? SAPLING_VERSION_GROUP_ID then SIGVERSION_SAPLING else SIGVERSION_OVERWINTER
  else SIGVERSION_SPROUT.

(** ** The Sprout serializer *)

Section Serializer.
Context (txTo : CMutableTransaction) (scriptCode : CScript) (nIn nHashType : Z).

Definition fAnyoneCanPay : bool := negb (Z.land nHashType SIGHASH_ANYONECANPAY =? 0).
Definition fHashSingle : bool := Z.land nHashType 0x1f =? SIGHASH_SINGLE.
Definition fHashNone : bool := Z.land nHashType 0x1f =? SIGHASH_NONE.

Definition SerializeScriptCode : writer := WriteCompactSize (Z.of_nat (length scriptCode)) ⧺ ser_flat scriptCode.

Definition SerializeInput (nInput : Z) : writer :=
  let nInput := if fAnyoneCanPay then nIn else nInput in
  i ← index_or_abort (vin txTo) (Z.to_nat nInput);
  ser_COutPoint (prevout i)
  ⧺ (_ ← assert_true (negb (nInput =? NOT_AN_INPUT));
     if negb (nInput =? nIn) then ser_blob [] else SerializeScriptCode)
  ⧺ (if negb (nInput =? nIn) && (fHashSingle || fHashNone) then ser_i32 0 else ser_u32 (nSequence i)).

Definition SerializeOutput (nOutput : Z) : writer :=
  if fHashSingle && negb (nOutput =? nIn) then ser_CTxOut CTxOut_SetNull
  else o ← index_or_abort (tx_vout txTo) (Z.to_nat nOutput); ser_CTxOut o.

(** A [for] loop that writes. *)
Definition write_each (l : list Z) (f : Z -> writer) : writer := foldr (fun n w => f n ⧺ w) (Ok []) l.

Definition SignatureSerialize : writer :=
  let nInputs := if fAnyoneCanPay then 1 else Z.of_nat (length (vin txTo)) in
  let nOutputs := if fHashNone then 0 else if fHashSingle then u32 (nIn + 1) else Z.of_nat (length (tx_vout txTo)) in
  ser_i32 (tx_nVersion txTo)
  ⧺ WriteCompactSize nInputs ⧺ write_each (seqZ 0 nInputs) SerializeInput
  ⧺ WriteCompactSize nOutputs ⧺ write_each (seqZ 0 nOutputs) SerializeOutput
  ⧺ ser_u32 (nLockTime txTo)
  ⧺ ser_if (2 <=? tx_nVersion txTo) (ser_vector (ser_JSDescription 0) (vjoinsplit txTo))
  ⧺ ser_if ((2 <=? tx_nVersion txTo) && bool_decide (vjoinsplit txTo <> []))
      (ser_flat (joinSplitPubKey txTo) ⧺ ser_flat (replicate 64 0)).
End Serializer.

Section SigHash.
Context `{SigHashCrypto}.

(** [CBLAKE2bWriter ss(...); ss << ...; ss.GetHash()]. *)
Definition blake2b_of (personal : bytes) (w : writer) : result uint256 := b ← w; Ok (blake2b personal b).

Definition GetPrevoutHash (txTo : CMutableTransaction) : result uint256 :=
  blake2b_of ZCASH_PREVOUTS_HASH_PERSONALIZATION (ser_all (fun i => ser_COutPoint (prevout i)) (vin txTo)).
Definition GetSequenceHash (txTo : CMutableTransaction) : result uint256 :=
  blake2b_of ZCASH_SEQUENCE_HASH_PERSONALIZATION (ser_all (fun i => ser_u32 (nSequence i)) (vin txTo)).
Definition GetOutputsHash (txTo : CMutableTransaction) : result uint256 :=
  blake2b_of ZCASH_OUTPUTS_HASH_PERSONALIZATION (ser_all ser_CTxOut (tx_vout txTo)).
Definition GetJoinSplitsHash (txTo : CMutableTransaction) : result uint256 :=
  blake2b_of ZCASH_JOINSPLITS_HASH_PERSONALIZATION
    (ser_all (ser_JSDescription (i32 (GetHeader txTo))) (vjoinsplit txTo) ⧺ ser_flat (joinSplitPubKey txTo)).
Definition ser_spend_effects (d : SpendDescription) : writer :=
  ser_uint256 (sd_cv d) ⧺ ser_uint256 (sd_anchor d) ⧺ ser_uint256 (sd_nullifier d) ⧺ ser_uint256 (sd_rk d)
  ⧺ ser_flat (sd_zkproof d).
Definition GetShieldedSpendsHash (txTo : CMutableTransaction) : result uint256 :=
  blake2b_of ZCASH_SHIELDED_SPENDS_HASH_PERSONALIZATION (ser_all ser_spend_effects (vShieldedSpend txTo)).
Definition GetShieldedOutputsHash (txTo : CMutableTransaction) : result uint256 :=
  blake2b_of ZCASH_SHIELDED_OUTPUTS_HASH_PERSONALIZATION (ser_all ser_OutputDescription (vShieldedOutput txTo)).

Record PrecomputedTransactionData := mkPrecomputed {
  ptd_hashPrevouts : uint256;
  ptd_hashSequence : uint256;
  ptd_hashOutputs : uint256;
  ptd_hashJoinSplits : uint256;
  ptd_hashShieldedSpends : uint256;
  ptd_hashShieldedOutputs : uint256
}.

Definition Precompute (txTo : CMutableTransaction) : result PrecomputedTransactionData :=
  a ← GetPrevoutHash txTo; b ← GetSequenceHash txTo; c ← GetOutputsHash txTo;
  d ← GetJoinSplitsHash txTo; e ← GetShieldedSpendsHash txTo; f ← GetShieldedOutputsHash txTo;
  Ok (mkPrecomputed a b c d e f).

(** [cache ? cache->field : compute(txTo)]. *)
Definition cached (cache : option PrecomputedTransactionData) (field : PrecomputedTransactionData -> uint256)
  (compute : result uint256) : result uint256 :=
  match cache with Some c => Ok (field c) | None => compute end.

(** [SignatureHash] for Overwinter and Sapling transactions. *)
Definition SignatureHash_overwinter (sapling : bool) (scriptCode : CScript) (txTo : CMutableTransaction) (nIn nHashType amount : Z)
  (consensusBranchId : Z) (cache : option PrecomputedTransactionData) : result uint256 :=
  let anyone := fAnyoneCanPay nHashType in
  let single := fHashSingle nHashType in
  let none := fHashNone nHashType in
  hashPrevouts ← (if negb anyone then cached cache ptd_hashPrevouts (GetPrevoutHash txTo) else Ok uint256_null);
  hashSequence ← (if negb anyone && negb single && negb none
                  then cached cache ptd_hashSequence (GetSequenceHash txTo) else Ok uint256_null);
  hashOutputs ← (if negb single && negb none then cached cache ptd_hashOutputs (GetOutputsHash txTo)
                 else if single && (nIn <? Z.of_nat (length (tx_vout txTo)))
                 then o ← index_or_abort (tx_vout txTo) (Z.to_nat nIn);
                      blake2b_of ZCASH_OUTPUTS_HASH_PERSONALIZATION (ser_CTxOut o)
                 else Ok uint256_null);
  hashJoinSplits ← (if bool_decide (vjoinsplit txTo <> []) then cached cache ptd_hashJoinSplits (GetJoinSplitsHash txTo)
                    else Ok uint256_null);
  hashShieldedSpends ← (if bool_decide (vShieldedSpend txTo <> [])
                        then cached cache ptd_hashShieldedSpends (GetShieldedSpendsHash txTo) else Ok uint256_null);
  hashShieldedOutputs ← (if bool_decide (vShieldedOutput txTo <> [])
                         then cached cache ptd_hashShieldedOutputs (GetShieldedOutputsHash txTo) else Ok uint256_null);
  blake2b_of (ascii_bytes "ZcashSigHash" ++ le_bytes 4 consensusBranchId)
    (ser_u32 (GetHeader txTo) ⧺ ser_u32 (nVersionGroupId txTo)
     ⧺ ser_uint256 hashPrevouts ⧺ ser_uint256 hashSequence ⧺ ser_uint256 hashOutputs ⧺ ser_uint256 hashJoinSplits
     ⧺ ser_if sapling (ser_uint256 hashShieldedSpends ⧺ ser_uint256 hashShieldedOutputs)
     ⧺ ser_u32 (nLockTime txTo) ⧺ ser_u32 (nExpiryHeight txTo)
     ⧺ ser_if sapling (ser_i64 (valueBalance txTo))
     ⧺ ser_i32 nHashType
     ⧺ (if nIn =? NOT_AN_INPUT then Ok []
        else i ← index_or_abort (vin txTo) (Z.to_nat nIn);
             ser_COutPoint (prevout i) ⧺ ser_blob scriptCode ⧺ ser_i64 amount ⧺ ser_u32 (nSequence i))).

Definition SignatureHash (scriptCode : CScript) (txTo : CMutableTransaction) (nIn nHashType amount : Z)
  (consensusBranchId : Z) (cache : option PrecomputedTransactionData) : result uint256 :=
  if (Z.of_nat (length (vin txTo)) <=? nIn) && negb (nIn =? NOT_AN_INPUT)
  then Throw "input index is out of range"
  else match SignatureHashVersion txTo with
       | SIGVERSION_OVERWINTER => SignatureHash_overwinter false scriptCode txTo nIn nHashType amount consensusBranchId cache
       | SIGVERSION_SAPLING => SignatureHash_overwinter true scriptCode txTo nIn nHashType amount consensusBranchId cache
       | SIGVERSION_SPROUT =>
           if fHashSingle nHashType && (Z.of_nat (length (tx_vout txTo)) <=? nIn)
           then Throw "no matching output for SIGHASH_SINGLE"
           else b ← SignatureSerialize txTo scriptCode nIn nHashType ⧺ ser_i32 nHashType; Ok (Hash256 b)
       end.

(** ** [CheckSig] *)

Definition COMPRESSED_PUBLIC_KEY_SIZE : nat := 33.
Definition PUBLIC_KEY_SIZE : nat := 65.
Definition CPubKey_GetLen (chHeader : Z) : nat :=
  if (chHeader =? 2) || (chHeader =? 3) then COMPRESSED_PUBLIC_KEY_SIZE
  else if (chHeader =? 4) || (chHeader =? 6) || (chHeader =? 7) then PUBLIC_KEY_SIZE
  else 0%nat.
(** [CPubKey(vch).IsValid()]. *)
Definition CPubKey_IsValid (vch : bytes) : bool :=
  match vch with
  | [] => false
  | h :: _ => negb (CPubKey_GetLen h =? 0)%nat && (CPubKey_GetLen h =? length vch)%nat
  end.

(** The [logic_error]s of [SignatureHash]; a failure of the serialization is
    an [ios_base::failure]. *)
Definition is_logic_error (msg : string) : bool :=
  bool_decide (msg = "input index is out of range" \/ msg = "no matching output for SIGHASH_SINGLE").

(** [TransactionSignatureChecker::CheckSig], which catches [logic_error]. *)
Definition Tx_CheckSig (txTo : CMutableTransaction) (nIn amount : Z) (txdata : option PrecomputedTransactionData)
  (vchSigIn vchPubKey : bytes) (scriptCode : CScript) (consensusBranchId : Z) : result bool :=
  if negb (CPubKey_IsValid vchPubKey) then Ok false
  else match last vchSigIn with
       | None => Ok false
       | Some nHashType =>
           match SignatureHash scriptCode txTo nIn nHashType amount consensusBranchId txdata with
           | Ok sighash => Ok (ecdsa_verify vchPubKey sighash (take (length vchSigIn - 1) vchSigIn))
           | Throw msg => if is_logic_error msg then Ok false else Throw msg
           | Abort => Abort
           end
       end.
End SigHash.

(** ** No assertion fires

    Serializing throws at most; the indexes into the transaction are in range. *)
Definition returns {A} (m : result A) : Prop := m <> Abort.
Lemma returns_bind {A B} (m : result A) (k : A -> result B) : returns m -> (forall a, m = Ok a -> returns (k a)) -> returns (m ≫= k).
Proof. intros Hm Hk. destruct m; [by apply Hk|done..]. Qed.
Lemma returns_seq (a b : writer) : returns a -> returns b -> returns (a ⧺ b).
Proof. unfold wseq. intros. apply returns_bind; [done|]. intros x _. by apply returns_bind. Qed.
Lemma returns_if (c : bool) (w : writer) : returns w -> returns (ser_if c w).
Proof. by destruct c. Qed.
Lemma returns_compact n : returns (WriteCompactSize n).
Proof. unfold WriteCompactSize. by repeat case_match. Qed.
Lemma returns_blob b : returns (ser_blob b).
Proof. apply returns_seq; [apply returns_compact|done]. Qed.
Lemma returns_all {A} (w : A -> writer) l : (forall a, returns (w a)) -> returns (ser_all w l).
Proof. intros Hw. induction l as [|a l IH]; [done|]. cbn [ser_all foldr]. by apply returns_seq. Qed.
Lemma returns_each l f : Forall (fun n => returns (f n)) l -> returns (write_each l f).
Proof. induction 1; [done|]. cbn [write_each foldr]. by apply returns_seq. Qed.
Lemma returns_index {A} (l : list A) i : (i < length l)%nat -> returns (index_or_abort l i).
Proof. intros [x Hx]%lookup_lt_is_Some. unfold index_or_abort. by rewrite Hx. Qed.
Lemma returns_txout o : returns (ser_CTxOut o).
Proof. apply returns_seq; [done|apply returns_blob]. Qed.
Lemma returns_joinsplit v js : returns (ser_JSDescription v js).
Proof.
  unfold ser_JSDescription, ser_array, ser_SproutProof. repeat first [apply returns_seq|apply returns_all; intros|done|case_match].
Qed.

Section Returns.
Context `{SigHashCrypto}.
Lemma blake2b_returns p w : returns w -> returns (blake2b_of p w).
Proof. intros Hw. by apply returns_bind. Qed.
Lemma part_returns (c : bool) cache field (compute : result uint256) : returns compute -> returns (if c then cached cache field compute else Ok uint256_null).
Proof. intros Hc. destruct c; [|done]. by destruct cache. Qed.

Lemma SignatureHash_overwinter_returns sapling code tx nIn ht amount branch cache : 0 <= nIn < Z.of_nat (length (vin tx)) ->
  returns (SignatureHash_overwinter sapling code tx nIn ht amount branch cache).
Proof.
  intros Hn. unfold SignatureHash_overwinter.
  apply returns_bind; [by apply part_returns, blake2b_returns, returns_all|intros ? _].
  apply returns_bind; [by apply part_returns, blake2b_returns, returns_all|intros ? _].
  apply returns_bind; [|intros ? _; apply returns_bind; [|intros ? _; apply returns_bind; [|intros ? _; apply returns_bind; [|intros ? _]]]].
  - destruct (_ && _); [destruct cache; [done|]; apply blake2b_returns, returns_all, returns_txout|]. destruct (_ && _) eqn:E; [|done].
    apply andb_true_iff in E as [_ E]. apply Z.ltb_lt in E. apply returns_bind; [apply returns_index; lia|]. intros o _. apply blake2b_returns, returns_txout.
  - apply part_returns, blake2b_returns, returns_seq; [apply returns_all, returns_joinsplit|done].
  - by apply part_returns, blake2b_returns, returns_all.
  - by apply part_returns, blake2b_returns, returns_all.
  - apply blake2b_returns. repeat first [apply returns_seq|apply returns_if|done]. destruct (_ =? _); [done|].
    apply returns_bind; [apply returns_index; lia|]. intros i _. repeat first [apply returns_blob|apply returns_seq|done].
Qed.
Lemma SignatureSerialize_returns tx code nIn ht : 0 <= nIn < Z.of_nat (length (vin tx)) -> Z.of_nat (length (vin tx)) < 2 ^ 32 ->
  (fHashSingle ht = true -> nIn < Z.of_nat (length (tx_vout tx))) -> returns (SignatureSerialize tx code nIn ht).
Proof.
  intros Hn Hl Hs. unfold SignatureSerialize. cbv zeta.
  apply returns_seq; [done|]. apply returns_seq; [apply returns_compact|]. apply returns_seq.
  2: apply returns_seq; [apply returns_compact|]; apply returns_seq.
  3: repeat first [apply returns_if|apply returns_compact|apply returns_all, returns_joinsplit|apply returns_seq|done].
  all: apply returns_each, Forall_forall; intros k Hk%elem_of_seqZ.
  - unfold SerializeInput. cbv zeta. set (n := if fAnyoneCanPay ht then nIn else k).
    assert (0 <= n < Z.of_nat (length (vin tx))) by (subst n; destruct (fAnyoneCanPay ht); lia).
    apply returns_bind; [apply returns_index; lia|]. intros i _. rewrite (proj2 (Z.eqb_neq n NOT_AN_INPUT)) by (unfold NOT_AN_INPUT; lia).
    apply returns_seq; [done|]. apply returns_seq; [|by destruct (_ && _)]. cbn [negb assert_true mbind result_bind].
    destruct (negb _); [apply returns_blob|]. apply returns_seq; [apply returns_compact|done].
  - unfold SerializeOutput. destruct (fHashSingle ht && negb (k =? nIn)) eqn:E; [apply returns_txout|].
    apply returns_bind; [|intros o _; apply returns_txout]. apply returns_index. destruct (fHashNone ht); [lia|].
    destruct (fHashSingle ht); [|lia]. cbn [andb] in E. apply negb_false_iff, Z.eqb_eq in E. specialize (Hs eq_refl). lia.
Qed.

(** Signatures for an input of the transaction, which has less than 2^32 - 1 of
    them. *)
Lemma Tx_CheckSig_returns tx nIn amount txdata sig key code branch : 0 <= nIn < Z.of_nat (length (vin tx)) -> Z.of_nat (length (vin tx)) < 2 ^ 32 - 1 ->
  returns (Tx_CheckSig tx nIn amount txdata sig key code branch).
Proof.
  intros Hn Hl. unfold Tx_CheckSig. destruct (negb _); [done|]. destruct (last sig) as [ht|]; [|done].
  assert (Hr : returns (SignatureHash code tx nIn ht amount branch txdata)).
  { unfold SignatureHash. rewrite (proj2 (Z.leb_gt _ _)) by lia. cbn [andb].
    destruct (SignatureHashVersion tx); [|by apply SignatureHash_overwinter_returns..].
    destruct (fHashSingle ht && _) eqn:E; [done|]. apply returns_bind; [|done]. apply returns_seq; [|done]. apply SignatureSerialize_returns; [done|lia|].
    intros Hs. rewrite Hs in E. by apply Z.leb_gt in E. }
  destruct (SignatureHash _ _ _ _ _ _ _); [done| |done]. by destruct (is_logic_error _).
Qed.
End Returns.

(** ** What a signature commits to *)

Section Injective.
Context {A : Type} (w : A -> writer) (r : reader A) (ok : A -> Prop) (Hc : codec w r ok).

(** Two streams that start with encodings start with the same value. *)
Lemma codec_app_inj a1 a2 b1 b2 s1 s2 : ok a1 -> ok a2 -> w a1 = Ok b1 -> w a2 = Ok b2 ->
  b1 ++ s1 = b2 ++ s2 -> a1 = a2 /\ s1 = s2.
Proof.
  intros H1 H2 E1 E2 E. destruct (codec_fwd _ _ _ Hc a1 H1) as (c1 & F1 & _ & R1).
  destruct (codec_fwd _ _ _ Hc a2 H2) as (c2 & F2 & _ & R2). rewrite E1 in F1. rewrite E2 in F2. simplify_eq.
  specialize (R1 s1). rewrite E, R2 in R1. by simplify_eq.
Qed.

Lemma codec_wseq_inj a1 a2 k1 k2 b : ok a1 -> ok a2 -> w a1 ⧺ k1 = Ok b -> w a2 ⧺ k2 = Ok b ->
  a1 = a2 /\ exists b', k1 = Ok b' /\ k2 = Ok b'.
Proof.
  intros H1 H2 E1 E2. unfold wseq in *. destruct (w a1) as [b1| |] eqn:W1, (w a2) as [b2| |] eqn:W2; try done.
  destruct k1 as [s1| |], k2 as [s2| |]; try done.
  injection E1 as E1. injection E2 as E2. rewrite <- E2 in E1.
  destruct (codec_app_inj _ _ _ _ _ _ H1 H2 W1 W2 E1) as [-> ->]. eauto.
Qed.

(** Without a length in front, a list of non-empty encodings is still read in one way. *)
Lemma ser_all_inj (Hne : forall a, ok a -> w a <> Ok []) l1 : forall l2 b, Forall ok l1 -> Forall ok l2 ->
  ser_all w l1 = Ok b -> ser_all w l2 = Ok b -> l1 = l2.
Proof.
  assert (Hcons : forall a l, ok a -> ser_all w (a :: l) <> Ok []).
  { intros a l Ha. change (w a ⧺ ser_all w l <> Ok []). unfold wseq. specialize (Hne a Ha).
    destruct (w a) as [[|]| |]; [done| |done..]. by destruct (ser_all w l). }
  induction l1 as [|a1 l1 IH]; intros [|a2 l2] b F1 F2 E1 E2.
  - done.
  - apply Forall_cons in F2 as [Ha _]. destruct (Hcons a2 l2 Ha). by rewrite E2, <- E1.
  - apply Forall_cons in F1 as [Ha _]. destruct (Hcons a1 l1 Ha). by rewrite E1, <- E2.
  - apply Forall_cons in F1 as [H1 F1]. apply Forall_cons in F2 as [H2 F2].
    change (ser_all w (a1 :: l1)) with (w a1 ⧺ ser_all w l1) in E1.
    change (ser_all w (a2 :: l2)) with (w a2 ⧺ ser_all w l2) in E2.
    destruct (codec_wseq_inj _ _ _ _ _ H1 H2 E1 E2) as (-> & b' & E1' & E2'). f_equal. by eapply IH.
Qed.
End Injective.

Section Commitment.
Context `{SigHashCrypto}.

(** The parts of a transaction that the hash for input [nIn] and type [nHashType] depends on. *)
Record sighash_view := mkView {
  v_branch : Z;
  v_header : Z;
  v_group : Z;
  v_prevouts : option (list COutPoint);
  v_sequences : option (list Z);
  v_outputs : option (list CTxOut);
  v_joinsplits : option (list JSDescription * bytes);
  v_spends : option (list SpendDescription);
  v_shielded_outputs : option (list OutputDescription);
  v_lock : Z;
  v_expiry : Z;
  v_balance : Z;
  v_hashtype : Z;
  v_input : option (COutPoint * CScript * Z * Z)
}.

(** A spend description without its signature. *)
Definition unsigned (d : SpendDescription) : SpendDescription :=
  mkSpendDescription (sd_cv d) (sd_anchor d) (sd_nullifier d) (sd_rk d) (sd_zkproof d) [].

Definition nonempty {A B} (l : list A) (x : B) : option B := if bool_decide (l <> []) then Some x else None.

Definition view_of (scriptCode : CScript) (txTo : CMutableTransaction) (nIn nHashType amount consensusBranchId : Z) : sighash_view :=
  let all := negb (fHashSingle nHashType) && negb (fHashNone nHashType) in
  mkView consensusBranchId (GetHeader txTo) (nVersionGroupId txTo)
    (if negb (fAnyoneCanPay nHashType) then Some (prevout <$> vin txTo) else None)
    (if negb (fAnyoneCanPay nHashType) && all then Some (nSequence <$> vin txTo) else None)
    (if all then Some (tx_vout txTo)
     else if fHashSingle nHashType then (fun o => [o]) <$> (tx_vout txTo !! Z.to_nat nIn) else None)
    (nonempty (vjoinsplit txTo) (vjoinsplit txTo, joinSplitPubKey txTo))
    (nonempty (vShieldedSpend txTo) (unsigned <$> vShieldedSpend txTo))
    (nonempty (vShieldedOutput txTo) (vShieldedOutput txTo))
    (nLockTime txTo) (nExpiryHeight txTo) (valueBalance txTo) nHashType
    (if nIn =? NOT_AN_INPUT then None
     else (fun i => (prevout i, scriptCode, amount, nSequence i)) <$> vin txTo !! Z.to_nat nIn).

Definition hash_part (personal : bytes) (o : option writer) : result uint256 :=
  match o with Some w => blake2b_of personal w | None => Ok uint256_null end.

Definition ser_joinsplits (header : Z) (p : list JSDescription * bytes) : writer :=
  ser_all (ser_JSDescription (i32 header)) p.1 ⧺ ser_flat p.2.
Definition ser_input (i : COutPoint * CScript * Z * Z) : writer :=
  let '(o, scriptCode, amount, seq) := i in ser_COutPoint o ⧺ ser_blob scriptCode ⧺ ser_i64 amount ⧺ ser_u32 seq.

(** The calls of BLAKE2b on the parts of a view. *)
Definition view_parts (v : sighash_view) : list (bytes * option writer) :=
  [(ZCASH_PREVOUTS_HASH_PERSONALIZATION, ser_all ser_COutPoint <$> v_prevouts v);
   (ZCASH_SEQUENCE_HASH_PERSONALIZATION, ser_all ser_u32 <$> v_sequences v);
   (ZCASH_OUTPUTS_HASH_PERSONALIZATION, ser_all ser_CTxOut <$> v_outputs v);
   (ZCASH_JOINSPLITS_HASH_PERSONALIZATION, ser_joinsplits (v_header v) <$> v_joinsplits v);
   (ZCASH_SHIELDED_SPENDS_HASH_PERSONALIZATION, ser_all ser_spend_effects <$> v_spends v);
   (ZCASH_SHIELDED_OUTPUTS_HASH_PERSONALIZATION, ser_all ser_OutputDescription <$> v_shielded_outputs v)].

Definition view_personal (v : sighash_view) : bytes := ascii_bytes "ZcashSigHash" ++ le_bytes 4 (v_branch v).
Definition view_body (sapling : bool) (v : sighash_view) (h1 h2 h3 h4 h5 h6 : uint256) : writer :=
  ser_u32 (v_header v) ⧺ ser_u32 (v_group v)
  ⧺ ser_uint256 h1 ⧺ ser_uint256 h2 ⧺ ser_uint256 h3 ⧺ ser_uint256 h4
  ⧺ ser_if sapling (ser_uint256 h5 ⧺ ser_uint256 h6)
  ⧺ ser_u32 (v_lock v) ⧺ ser_u32 (v_expiry v) ⧺ ser_if sapling (ser_i64 (v_balance v)) ⧺ ser_i32 (v_hashtype v)
  ⧺ (match v_input v with Some i => ser_input i | None => Ok [] end).
Definition hash_parts {A} (v : sighash_view) (k : uint256 -> uint256 -> uint256 -> uint256 -> uint256 -> uint256 -> result A) : result A :=
  h1 ← hash_part ZCASH_PREVOUTS_HASH_PERSONALIZATION (ser_all ser_COutPoint <$> v_prevouts v);
  h2 ← hash_part ZCASH_SEQUENCE_HASH_PERSONALIZATION (ser_all ser_u32 <$> v_sequences v);
  h3 ← hash_part ZCASH_OUTPUTS_HASH_PERSONALIZATION (ser_all ser_CTxOut <$> v_outputs v);
  h4 ← hash_part ZCASH_JOINSPLITS_HASH_PERSONALIZATION (ser_joinsplits (v_header v) <$> v_joinsplits v);
  h5 ← hash_part ZCASH_SHIELDED_SPENDS_HASH_PERSONALIZATION (ser_all ser_spend_effects <$> v_spends v);
  h6 ← hash_part ZCASH_SHIELDED_OUTPUTS_HASH_PERSONALIZATION (ser_all ser_OutputDescription <$> v_shielded_outputs v);
  k h1 h2 h3 h4 h5 h6.
Definition view_preimage (sapling : bool) (v : sighash_view) : writer := hash_parts v (view_body sapling v).
Definition view_hash (sapling : bool) (v : sighash_view) : result uint256 :=
  blake2b_of (view_personal v) (view_preimage sapling v).

(** *** The hash is a function of the view *)

Lemma ser_all_fmap {A B} (f : A -> B) (w : B -> writer) (l : list A) : ser_all w (f <$> l) = ser_all (fun a => w (f a)) l.
Proof. induction l as [|a l IH]; [done|]. unfold ser_all in *. cbn. by f_equal. Qed.

Lemma ser_all_single {A} (w : A -> writer) a : ser_all w [a] = w a.
Proof. cbn. unfold wseq. destruct (w a); cbn; [by rewrite app_nil_r|done..]. Qed.

Definition valid_nIn (txTo : CMutableTransaction) (nIn : Z) : Prop :=
  nIn = NOT_AN_INPUT \/ 0 <= nIn < Z.of_nat (length (vin txTo)).

Lemma bind_congr {A B} (m1 m2 : result A) (f1 f2 : A -> result B) :
  m1 = m2 -> (forall a, f1 a = f2 a) -> (m1 ≫= f1) = (m2 ≫= f2).
Proof. intros ->. destruct m2; cbn; auto. Qed.

Lemma hash_part_if p (c : bool) {A} (a : A) (w : A -> writer) w' : w a = w' ->
  (if c then blake2b_of p w' else Ok uint256_null) = hash_part p (w <$> (if c then Some a else None)).
Proof. intros <-. by destruct c. Qed.

Lemma blake2b_of_bind {A} p (m : result A) k : blake2b_of p (m ≫= k) = (h ← m; blake2b_of p (k h)).
Proof. by destruct m. Qed.

Lemma SignatureHash_view sapling sc tx nIn ht amount branch : 0 <= nIn -> valid_nIn tx nIn ->
  SignatureHash_overwinter sapling sc tx nIn ht amount branch None
  = view_hash sapling (view_of sc tx nIn ht amount branch).
Proof.
  intros Hn Hv. unfold SignatureHash_overwinter, view_hash, view_preimage, hash_parts, cached.
  transitivity (hash_parts (view_of sc tx nIn ht amount branch) (fun h1 h2 h3 h4 h5 h6 =>
     blake2b_of (view_personal (view_of sc tx nIn ht amount branch))
       (view_body sapling (view_of sc tx nIn ht amount branch) h1 h2 h3 h4 h5 h6))).
  - unfold hash_parts, view_of. cbn [v_prevouts v_sequences v_outputs v_joinsplits v_spends v_shielded_outputs v_header].
    apply bind_congr; [by apply hash_part_if, ser_all_fmap|intros h1].
    apply bind_congr; [rewrite <- andb_assoc; by apply hash_part_if, ser_all_fmap|intros h2].
    apply bind_congr; [|intros h3].
    { destruct (negb (fHashSingle ht) && negb (fHashNone ht)); [done|]. destruct (fHashSingle ht); [|done]. cbn [andb].
      unfold index_or_abort. destruct (Z.ltb_spec nIn (Z.of_nat (length (tx_vout tx)))) as [Hlt|Hge].
      - destruct (lookup_lt_is_Some_2 (tx_vout tx) (Z.to_nat nIn)) as [o ->]; [lia|]. cbn [fmap option_fmap option_map hash_part].
        by rewrite ser_all_single.
      - by rewrite lookup_ge_None_2 by lia. }
    unfold nonempty.
    apply bind_congr; [by apply (hash_part_if _ _ _ (ser_joinsplits (GetHeader tx)))|intros h4].
    apply bind_congr; [apply hash_part_if; exact (ser_all_fmap unsigned ser_spend_effects _)|intros h5].
    apply bind_congr; [by apply hash_part_if|intros h6].
    unfold view_personal, view_body. cbn [v_branch v_header v_group v_lock v_expiry v_balance v_hashtype v_input].
    do 12 f_equal. destruct (Z.eqb_spec nIn NOT_AN_INPUT) as [|Hne]; [done|].
    unfold index_or_abort. destruct (lookup_lt_is_Some_2 (vin tx) (Z.to_nat nIn)) as [i ->]; [destruct Hv; [done|lia]|]. done.
  - symmetry. unfold hash_parts. by do 6 (rewrite blake2b_of_bind; apply bind_congr; [done|intros ?]).
Qed.

(** *** Different views are hashed from different bytes *)

Definition Spend_effects_ok (d : SpendDescription) : Prop :=
  is_uint256 (sd_cv d) /\ is_uint256 (sd_anchor d) /\ is_uint256 (sd_nullifier d) /\ is_uint256 (sd_rk d)
  /\ flat_ok GROTH_PROOF_SIZE (sd_zkproof d) /\ sd_spendAuthSig d = [].

Definition input_ok (i : COutPoint * CScript * Z * Z) : Prop :=
  OutPoint_ok i.1.1.1 /\ blob_ok i.1.1.2 /\ is_i64 i.1.2 /\ is_u32 i.2.

Definition opt_ok {A} (ok : A -> Prop) (o : option A) : Prop := match o with Some a => ok a | None => True end.

Record view_ok (v : sighash_view) : Prop := {
  vo_branch : is_u32 (v_branch v);
  vo_header : is_u32 (v_header v);
  vo_group : is_u32 (v_group v);
  vo_prevouts : opt_ok (Forall OutPoint_ok) (v_prevouts v);
  vo_sequences : opt_ok (Forall is_u32) (v_sequences v);
  vo_outputs : opt_ok (Forall TxOut_ok) (v_outputs v);
  vo_joinsplits : opt_ok (fun p => Forall (JS_ok (i32 (v_header v))) p.1 /\ flat_ok 32 p.2) (v_joinsplits v);
  vo_spends : opt_ok (Forall Spend_effects_ok) (v_spends v);
  vo_shielded_outputs : opt_ok (Forall Output_ok) (v_shielded_outputs v);
  vo_lock : is_u32 (v_lock v);
  vo_expiry : is_u32 (v_expiry v);
  vo_balance : is_i64 (v_balance v);
  vo_hashtype : is_i32 (v_hashtype v);
  vo_input : opt_ok input_ok (v_input v)
}.

(** A writer that always succeeds and never writes the same bytes for two values. *)
Definition faithful {A} (ok : A -> Prop) (w : A -> writer) : Prop :=
  (forall a, ok a -> is_ok (w a)) /\ (forall a1 a2 b, ok a1 -> ok a2 -> w a1 = Ok b -> w a2 = Ok b -> a1 = a2).

Lemma codec_is_ok {A} (w : A -> writer) r ok a : codec w r ok -> ok a -> is_ok (w a).
Proof. intros Hc Ha. by destruct (codec_fwd _ _ _ Hc a Ha) as (b & -> & _). Qed.

Lemma wseq_is_ok (a b : writer) : is_ok a -> is_ok b -> is_ok (a ⧺ b).
Proof. by destruct a, b. Qed.

Lemma ser_all_is_ok {A} (w : A -> writer) l : Forall (fun a => is_ok (w a)) l -> is_ok (ser_all w l).
Proof. induction 1; [done|]. by apply wseq_is_ok. Qed.

(** A list of encodings, none of them empty. *)
Lemma ser_all_faithful {A} (w : A -> writer) r ok : codec w r ok -> (forall a, ok a -> w a <> Ok []) -> faithful (Forall ok) (ser_all w).
Proof.
  intros Hc Hne. split.
  - intros l Hl. eapply ser_all_is_ok, Forall_impl; [exact Hl|]. intros a. by apply codec_is_ok with r.
  - intros l1 l2 b. by apply (ser_all_inj w r ok Hc Hne).
Qed.

(** An encoding that starts with an integer is not empty. *)
Lemma ser_le_not_nil n z w : (0 < n)%nat -> ser_le n z ⧺ w <> Ok [].
Proof. intros Hn. destruct n; [lia|]. by destruct w. Qed.

Lemma prevouts_faithful : faithful (Forall OutPoint_ok) (ser_all ser_COutPoint).
Proof. apply (ser_all_faithful _ _ _ OutPoint_codec). intros a _. apply ser_le_not_nil. lia. Qed.
Lemma sequences_faithful : faithful (Forall is_u32) (ser_all ser_u32).
Proof. apply (ser_all_faithful _ _ _ u32_codec). done. Qed.
Lemma outputs_faithful : faithful (Forall TxOut_ok) (ser_all ser_CTxOut).
Proof. apply (ser_all_faithful _ _ _ TxOut_codec). intros a _. apply ser_le_not_nil. lia. Qed.
Lemma shielded_outputs_faithful : faithful (Forall Output_ok) (ser_all ser_OutputDescription).
Proof. apply (ser_all_faithful _ _ _ Output_codec). intros a _. apply ser_le_not_nil. lia. Qed.

Definition unser_spend_effects : reader SpendDescription :=
  cv ← unser_uint256; anchor ← unser_uint256; nf ← unser_uint256; rk ← unser_uint256;
  proof ← unser_flat GROTH_PROOF_SIZE; mret (mkSpendDescription cv anchor nf rk proof []).
Lemma spend_effects_codec : codec ser_spend_effects unser_spend_effects Spend_effects_ok.
Proof.
  eapply codec_iff; [unfold ser_spend_effects, unser_spend_effects; codec_record|]. codec_shape Spend_effects_ok; congruence.
Qed.
Lemma spends_faithful : faithful (Forall Spend_effects_ok) (ser_all ser_spend_effects).
Proof. apply (ser_all_faithful _ _ _ spend_effects_codec). intros a _. apply ser_le_not_nil. lia. Qed.

Lemma joinsplits_faithful header :
  faithful (fun p => Forall (JS_ok (i32 header)) p.1 /\ flat_ok 32 p.2) (ser_joinsplits header).
Proof.
  assert (Hl : faithful (Forall (JS_ok (i32 header))) (ser_all (ser_JSDescription (i32 header)))).
  { apply (ser_all_faithful _ _ _ (JS_codec _)). intros a _. apply ser_le_not_nil. lia. }
  destruct Hl as [Ht Hi]. split.
  - intros [l k] [Hl _]. apply wseq_is_ok; [by apply Ht|done].
  - intros [l1 k1] [l2 k2] b [H1 [K1 _]] [H2 [K2 _]]. unfold ser_joinsplits, wseq. cbn [fst snd] in *.
    pose proof (Ht _ H1) as T1. pose proof (Ht _ H2) as T2.
    destruct (ser_all _ l1) as [b1| |] eqn:E1; [|done..]. destruct (ser_all _ l2) as [b2| |] eqn:E2; [|done..].
    cbn. intros [= <-] [= E]. apply app_inj_2 in E as [-> ->]; [|congruence]. f_equal. by eapply Hi.
Qed.

(** The calls of BLAKE2b that the hash of a view makes: personalization and input. *)
Definition call (p : bytes) (w : writer) : list (bytes * bytes) := match w with Ok b => [(p, b)] | _ => [] end.
Definition part_call (p : bytes) (o : option writer) : list (bytes * bytes) := match o with Some w => call p w | None => [] end.
Definition view_calls (v : sighash_view) : list (bytes * bytes) :=
  part_call ZCASH_PREVOUTS_HASH_PERSONALIZATION (ser_all ser_COutPoint <$> v_prevouts v)
  ++ part_call ZCASH_SEQUENCE_HASH_PERSONALIZATION (ser_all ser_u32 <$> v_sequences v)
  ++ part_call ZCASH_OUTPUTS_HASH_PERSONALIZATION (ser_all ser_CTxOut <$> v_outputs v)
  ++ part_call ZCASH_JOINSPLITS_HASH_PERSONALIZATION (ser_joinsplits (v_header v) <$> v_joinsplits v)
  ++ part_call ZCASH_SHIELDED_SPENDS_HASH_PERSONALIZATION (ser_all ser_spend_effects <$> v_spends v)
  ++ part_call ZCASH_SHIELDED_OUTPUTS_HASH_PERSONALIZATION (ser_all ser_OutputDescription <$> v_shielded_outputs v)
  ++ call (view_personal v) (view_preimage true v).

(** No two of the calls collide, and none gives the zero hash. *)
Definition collision_free (l : list (bytes * bytes)) : Prop :=
  Forall (fun x => Forall (fun y => blake2b x.1 x.2 = blake2b y.1 y.2 -> x = y) l) l
  /\ Forall (fun x => blake2b x.1 x.2 <> uint256_null) l.

Lemma collision_free_eq l p1 b1 p2 b2 : collision_free l -> (p1, b1) ∈ l -> (p2, b2) ∈ l ->
  blake2b p1 b1 = blake2b p2 b2 -> p1 = p2 /\ b1 = b2.
Proof.
  intros [Hl _] H1 H2 E. rewrite Forall_forall in Hl. specialize (Hl _ H1). rewrite Forall_forall in Hl.
  specialize (Hl _ H2 E). by simplify_eq.
Qed.

Lemma hash_part_inj {A} (ok : A -> Prop) (w : A -> writer) l p o1 o2 h : faithful ok w -> collision_free l ->
  part_call p (w <$> o1) ⊆ l -> part_call p (w <$> o2) ⊆ l -> opt_ok ok o1 -> opt_ok ok o2 ->
  hash_part p (w <$> o1) = Ok h -> hash_part p (w <$> o2) = Ok h -> o1 = o2.
Proof.
  intros [Ht Hi] Hcf. destruct o1 as [a1|], o2 as [a2|]; cbn; intros I1 I2 O1 O2 E1 E2; [| | |done].
  - pose proof (Ht _ O1) as T1. pose proof (Ht _ O2) as T2. unfold blake2b_of in *.
    destruct (w a1) as [b1| |] eqn:W1; [|done..]. destruct (w a2) as [b2| |] eqn:W2; [|done..]. cbn in *.
    destruct (collision_free_eq l p b1 p b2) as [_ ->]; [done|set_solver..|congruence|]. f_equal. by eapply Hi.
  - pose proof (Ht _ O1) as T1. unfold blake2b_of in *. destruct (w a1) as [b1| |]; [|done..]. cbn in *.
    destruct Hcf as [_ Hz]. rewrite Forall_forall in Hz. destruct (Hz (p, b1)); [set_solver|]. cbn. congruence.
  - pose proof (Ht _ O2) as T2. unfold blake2b_of in *. destruct (w a2) as [b1| |]; [|done..]. cbn in *.
    destruct Hcf as [_ Hz]. rewrite Forall_forall in Hz. destruct (Hz (p, b1)); [set_solver|]. cbn. congruence.
Qed.

Lemma hash_part_ok {A} (ok : A -> Prop) (w : A -> writer) p o : faithful ok w -> opt_ok ok o ->
  exists h, hash_part p (w <$> o) = Ok h /\ is_uint256 h.
Proof.
  intros [Ht _] Ho. destruct o as [a|]; cbn; [|by exists 0]. pose proof (Ht a Ho) as T. unfold blake2b_of.
  destruct (w a) as [b| |]; [|done..]. exists (blake2b p b). split; [done|]. apply blake2b_range.
Qed.

Lemma ser_input_faithful : faithful input_ok ser_input.
Proof.
  split.
  - intros [[[o s] a] q] (H1 & H2 & H3 & H4). unfold ser_input. apply wseq_is_ok; [by eapply codec_is_ok; [apply OutPoint_codec|]|].
    apply wseq_is_ok; [by eapply codec_is_ok; [apply blob_codec|]|done].
  - intros [[[o1 s1] a1] q1] [[[o2 s2] a2] q2] b (H1 & H2 & H3 & H4) (G1 & G2 & G3 & G4) E1 E2.
    unfold ser_input in E1, E2. cbn [fst snd] in *.
    destruct (codec_wseq_inj _ _ _ OutPoint_codec _ _ _ _ _ H1 G1 E1 E2) as (-> & b1 & F1 & F2).
    destruct (codec_wseq_inj _ _ _ blob_codec _ _ _ _ _ H2 G2 F1 F2) as (-> & b2 & F3 & F4).
    destruct (codec_wseq_inj _ _ _ i64_codec _ _ _ _ _ H3 G3 F3 F4) as (-> & b3 & F5 & F6).
    assert (Hq : ser_u32 q1 ⧺ Ok [] = ser_u32 q2 ⧺ Ok []) by congruence.
    destruct (codec_wseq_inj _ _ _ u32_codec q1 q2 (Ok []) (Ok []) (le_bytes 4 q2 ++ []) H4 G4) as (-> & _); [by rewrite Hq|done|done].
Qed.

Lemma wseq_assoc (a b c : writer) : (a ⧺ b) ⧺ c = a ⧺ b ⧺ c.
Proof. destruct a, b, c; try done. unfold wseq. cbn. by rewrite app_assoc. Qed.

(** Reads one value off the front of two equal streams. *)
Ltac peel Hc O1 O2 E1 E2 :=
  let b := fresh "b" in let F1 := fresh in let F2 := fresh in let Q := fresh "Q" in
  destruct (codec_wseq_inj _ _ _ Hc _ _ _ _ _ O1 O2 E1 E2) as (Q & b & F1 & F2); clear E1 E2; rename F1 into E1, F2 into E2.

Lemma tail_inj (o1 o2 : option (COutPoint * CScript * Z * Z)) b : opt_ok input_ok o1 -> opt_ok input_ok o2 ->
  match o1 with Some i => ser_input i | None => Ok [] end = Ok b ->
  match o2 with Some i => ser_input i | None => Ok [] end = Ok b -> o1 = o2.
Proof.
  assert (Hne : forall i, ser_input i <> Ok []) by (intros [[[o s] a] q]; unfold ser_input, ser_COutPoint; rewrite wseq_assoc; apply ser_le_not_nil; lia).
  destruct o1 as [i1|], o2 as [i2|]; cbn [opt_ok]; intros O1 O2 E1 E2; [| | |done].
  - f_equal. destruct ser_input_faithful as [_ Hi]. by eapply Hi.
  - destruct (Hne i1). congruence.
  - destruct (Hne i2). congruence.
Qed.

(** The bytes hashed last determine the fields in them and the hashes of the parts. *)
Lemma view_body_inj v1 v2 h1 h2 h3 h4 h5 h6 g1 g2 g3 g4 g5 g6 b : view_ok v1 -> view_ok v2 ->
  Forall is_uint256 [h1; h2; h3; h4; h5; h6] -> Forall is_uint256 [g1; g2; g3; g4; g5; g6] ->
  view_body true v1 h1 h2 h3 h4 h5 h6 = Ok b -> view_body true v2 g1 g2 g3 g4 g5 g6 = Ok b ->
  [h1; h2; h3; h4; h5; h6] = [g1; g2; g3; g4; g5; g6]
  /\ v_header v1 = v_header v2 /\ v_group v1 = v_group v2 /\ v_lock v1 = v_lock v2 /\ v_expiry v1 = v_expiry v2
  /\ v_balance v1 = v_balance v2 /\ v_hashtype v1 = v_hashtype v2 /\ v_input v1 = v_input v2.
Proof.
  intros O1 O2 Hh Hg E1 E2. rewrite !Forall_cons in Hh, Hg. destruct_and!. unfold view_body in E1, E2.
  unfold ser_if in E1, E2.
  rewrite !wseq_assoc in E1, E2.
  peel u32_codec (vo_header _ O1) (vo_header _ O2) E1 E2. peel u32_codec (vo_group _ O1) (vo_group _ O2) E1 E2.
  do 6 (match goal with H1 : is_uint256 ?x, H2 : is_uint256 ?y, _ : ser_uint256 ?x ⧺ _ = _, _ : ser_uint256 ?y ⧺ _ = _ |- _ =>
    peel uint256_codec H1 H2 E1 E2 end).
  peel u32_codec (vo_lock _ O1) (vo_lock _ O2) E1 E2. peel u32_codec (vo_expiry _ O1) (vo_expiry _ O2) E1 E2.
  peel i64_codec (vo_balance _ O1) (vo_balance _ O2) E1 E2. peel i32_codec (vo_hashtype _ O1) (vo_hashtype _ O2) E1 E2.
  pose proof (tail_inj _ _ _ (vo_input _ O1) (vo_input _ O2) E1 E2).
  split_and!; congruence.
Qed.

(** The hashes of the parts of a well-formed view. *)
Lemma view_hashes v : view_ok v -> exists h1 h2 h3 h4 h5 h6, Forall is_uint256 [h1; h2; h3; h4; h5; h6]
  /\ hash_part ZCASH_PREVOUTS_HASH_PERSONALIZATION (ser_all ser_COutPoint <$> v_prevouts v) = Ok h1
  /\ hash_part ZCASH_SEQUENCE_HASH_PERSONALIZATION (ser_all ser_u32 <$> v_sequences v) = Ok h2
  /\ hash_part ZCASH_OUTPUTS_HASH_PERSONALIZATION (ser_all ser_CTxOut <$> v_outputs v) = Ok h3
  /\ hash_part ZCASH_JOINSPLITS_HASH_PERSONALIZATION (ser_joinsplits (v_header v) <$> v_joinsplits v) = Ok h4
  /\ hash_part ZCASH_SHIELDED_SPENDS_HASH_PERSONALIZATION (ser_all ser_spend_effects <$> v_spends v) = Ok h5
  /\ hash_part ZCASH_SHIELDED_OUTPUTS_HASH_PERSONALIZATION (ser_all ser_OutputDescription <$> v_shielded_outputs v) = Ok h6.
Proof.
  intros [].
  destruct (hash_part_ok _ _ ZCASH_PREVOUTS_HASH_PERSONALIZATION _ prevouts_faithful vo_prevouts0) as (h1 & E1 & R1).
  destruct (hash_part_ok _ _ ZCASH_SEQUENCE_HASH_PERSONALIZATION _ sequences_faithful vo_sequences0) as (h2 & E2 & R2).
  destruct (hash_part_ok _ _ ZCASH_OUTPUTS_HASH_PERSONALIZATION _ outputs_faithful vo_outputs0) as (h3 & E3 & R3).
  destruct (hash_part_ok _ _ ZCASH_JOINSPLITS_HASH_PERSONALIZATION _ (joinsplits_faithful _) vo_joinsplits0) as (h4 & E4 & R4).
  destruct (hash_part_ok _ _ ZCASH_SHIELDED_SPENDS_HASH_PERSONALIZATION _ spends_faithful vo_spends0) as (h5 & E5 & R5).
  destruct (hash_part_ok _ _ ZCASH_SHIELDED_OUTPUTS_HASH_PERSONALIZATION _ shielded_outputs_faithful vo_shielded_outputs0) as (h6 & E6 & R6).
  exists h1, h2, h3, h4, h5, h6. split; [by repeat (apply Forall_cons_2; [done|])|]. by split_and!.
Qed.

Lemma view_body_is_ok v h1 h2 h3 h4 h5 h6 : view_ok v -> is_ok (view_body true v h1 h2 h3 h4 h5 h6).
Proof.
  intros Ho. unfold view_body. do 10 (apply wseq_is_ok; [done|]). pose proof (vo_input _ Ho) as Hi.
  apply wseq_is_ok; [done|]. destruct (v_input v); [|done]. by apply (proj1 ser_input_faithful).
Qed.

Lemma singleton_subseteq {A} (x : A) l : [x] ⊆ l -> x ∈ l.
Proof. intros Hl. apply Hl. by apply list_elem_of_singleton. Qed.

Lemma view_hash_inj v1 v2 : view_ok v1 -> view_ok v2 -> collision_free (view_calls v1 ++ view_calls v2) ->
  view_hash true v1 = view_hash true v2 -> v1 = v2.
Proof.
  intros O1 O2 Hcf. destruct (view_hashes _ O1) as (h1 & h2 & h3 & h4 & h5 & h6 & Hh & A1 & A2 & A3 & A4 & A5 & A6).
  destruct (view_hashes _ O2) as (g1 & g2 & g3 & g4 & g5 & g6 & Hg & B1 & B2 & B3 & B4 & B5 & B6).
  pose proof (view_body_is_ok _ h1 h2 h3 h4 h5 h6 O1) as K1. pose proof (view_body_is_ok _ g1 g2 g3 g4 g5 g6 O2) as K2.
  set (l := _ ++ _) in Hcf. unfold view_hash.
  assert (L1 : view_calls v1 ⊆ l) by (by apply list_subseteq_app_l). assert (L2 : view_calls v2 ⊆ l) by (by apply list_subseteq_app_r).
  clearbody l. unfold view_calls in L1, L2.
  assert (P1 : view_preimage true v1 = view_body true v1 h1 h2 h3 h4 h5 h6)
    by (unfold view_preimage, hash_parts; by rewrite A1, A2, A3, A4, A5, A6).
  assert (P2 : view_preimage true v2 = view_body true v2 g1 g2 g3 g4 g5 g6)
    by (unfold view_preimage, hash_parts; by rewrite B1, B2, B3, B4, B5, B6).
  rewrite P1, P2 in *. rewrite !list_subseteq_app_iff_l in L1, L2. destruct_and!.
  destruct (view_body true v1 _ _ _ _ _ _) as [b1| |] eqn:E1; [|done..].
  destruct (view_body true v2 _ _ _ _ _ _) as [b2| |] eqn:E2; [|done..]. cbn [blake2b_of mbind result_bind call] in *.
  intros E. injection E as E. apply (collision_free_eq l) in E as [Ep Eb]; [|done|by apply singleton_subseteq..].
  rewrite <- Eb in E2. destruct (view_body_inj _ _ _ _ _ _ _ _ _ _ _ _ _ _ _ O1 O2 Hh Hg E1 E2)
    as (Ehs & Ehd & Egr & Elk & Eex & Ebl & Eht & Ein). injection Ehs as <- <- <- <- <- <-.
  apply app_inj_1 in Ep as [_ Ep]; [|done].
  assert (v_branch v1 = v_branch v2).
  { destruct (codec_app_inj _ _ _ u32_codec (v_branch v1) (v_branch v2) _ _ [] [] (vo_branch _ O1) (vo_branch _ O2) eq_refl eq_refl); [|done].
    by rewrite Ep. }
  assert (v_prevouts v1 = v_prevouts v2) by (refine (hash_part_inj _ _ l _ _ _ _ prevouts_faithful Hcf _ _ (vo_prevouts _ O1) (vo_prevouts _ O2) A1 B1); assumption).
  assert (v_sequences v1 = v_sequences v2) by (refine (hash_part_inj _ _ l _ _ _ _ sequences_faithful Hcf _ _ (vo_sequences _ O1) (vo_sequences _ O2) A2 B2); assumption).
  assert (v_outputs v1 = v_outputs v2) by (refine (hash_part_inj _ _ l _ _ _ _ outputs_faithful Hcf _ _ (vo_outputs _ O1) (vo_outputs _ O2) A3 B3); assumption).
  assert (v_spends v1 = v_spends v2) by (refine (hash_part_inj _ _ l _ _ _ _ spends_faithful Hcf _ _ (vo_spends _ O1) (vo_spends _ O2) A5 B5); assumption).
  assert (v_shielded_outputs v1 = v_shielded_outputs v2)
    by (refine (hash_part_inj _ _ l _ _ _ _ shielded_outputs_faithful Hcf _ _ (vo_shielded_outputs _ O1) (vo_shielded_outputs _ O2) A6 B6); assumption).
  pose proof (vo_joinsplits _ O2) as J2. rewrite <- Ehd in *.
  assert (v_joinsplits v1 = v_joinsplits v2) by (refine (hash_part_inj _ _ l _ _ _ _ (joinsplits_faithful _) Hcf _ _ (vo_joinsplits _ O1) J2 A4 B4); assumption).
  destruct v1, v2. cbn in *. by subst.
Qed.

(** *** The precomputed hashes *)

Definition cache_valid (txTo : CMutableTransaction) (cache : option PrecomputedTransactionData) : Prop :=
  match cache with Some c => Precompute txTo = Ok c | None => True end.

Lemma cached_valid tx cache : cache_valid tx cache ->
  cached cache ptd_hashPrevouts (GetPrevoutHash tx) = GetPrevoutHash tx
  /\ cached cache ptd_hashSequence (GetSequenceHash tx) = GetSequenceHash tx
  /\ cached cache ptd_hashOutputs (GetOutputsHash tx) = GetOutputsHash tx
  /\ cached cache ptd_hashJoinSplits (GetJoinSplitsHash tx) = GetJoinSplitsHash tx
  /\ cached cache ptd_hashShieldedSpends (GetShieldedSpendsHash tx) = GetShieldedSpendsHash tx
  /\ cached cache ptd_hashShieldedOutputs (GetShieldedOutputsHash tx) = GetShieldedOutputsHash tx.
Proof.
  intros Hc. destruct cache as [c|]; [|done]. cbn [cache_valid cached] in *. unfold Precompute in Hc.
  repeat (match type of Hc with (?m ≫= _) = _ => destruct m; [change (mbind ?f (Ok ?x)) with (f x) in Hc; cbv beta in Hc|done..] end).
  injection Hc as <-. done.
Qed.

Lemma SignatureHash_cached sc tx nIn ht amount branch cache : cache_valid tx cache ->
  SignatureHash sc tx nIn ht amount branch cache = SignatureHash sc tx nIn ht amount branch None.
Proof.
  intros Hc. unfold SignatureHash, SignatureHash_overwinter.
  by destruct (cached_valid _ _ Hc) as (-> & -> & -> & -> & -> & ->).
Qed.

(** *** Sapling transactions *)

Lemma nonempty_ok {A B} (P : B -> Prop) (l : list A) x : (l <> [] -> P x) -> opt_ok P (nonempty l x).
Proof. intros HP. unfold nonempty. case_bool_decide; [by apply HP|done]. Qed.

Lemma tx_v4_version tx : tx_v4 tx = true -> fOverwintered tx = true /\ nVersionGroupId tx = SAPLING_VERSION_GROUP_ID /\ tx_nVersion tx = 4.
Proof.
  unfold tx_v4, is_SaplingV4, SAPLING_TX_VERSION. intros Hv. apply andb_true_iff in Hv as [Hv ?].
  apply andb_true_iff in Hv as [? ?]. split_and!; [done|by apply Z.eqb_eq..].
Qed.

Lemma view_of_ok tx0 tx sc nIn ht amount branch : tx_wire tx0 tx -> tx_v4 tx = true -> valid_nIn tx nIn ->
  blob_ok sc -> is_i32 ht -> is_i64 amount -> is_u32 branch -> view_ok (view_of sc tx nIn ht amount branch).
Proof.
  intros [Hver Hgrp _ Hb] Hv4 Hn Hsc Hht Ham Hbr. rewrite Hv4 in Hb. destruct (tx_v4_version tx Hv4) as (Ef & Eg & Ev).
  destruct (header_fields tx Hver) as (Hh & _ & _). unfold body_ok in Hb. rewrite orb_true_r in Hb. rewrite Ef in Hgrp.
  destruct Hb as ([_ Hin] & [_ Hout] & Hlk & Hex & Hvb & Hss & Hso & Hjs & Hpk & _). unfold js_keys in Hpk. rewrite Ev in Hjs, Hpk.
  cbn [if_ok] in *.
  change (if_ok (2 <=? 4)) with (@if_ok (list JSDescription) true) in Hjs. cbn [if_ok] in Hjs.
  destruct Hss as [_ Hss], Hso as [_ Hso], Hjs as [_ Hjs].
  unfold view_of. split; cbn [v_branch v_header v_group v_lock v_expiry v_balance v_hashtype v_prevouts v_sequences v_outputs
    v_joinsplits v_spends v_shielded_outputs v_input]; try done.
  - destruct (fAnyoneCanPay ht); [done|]. cbn. apply Forall_fmap. eapply Forall_impl; [exact Hin|]. by intros i [? _].
  - destruct (negb _ && _); [|done]. cbn. apply Forall_fmap. eapply Forall_impl; [exact Hin|]. by intros i (_ & _ & ?).
  - destruct (negb (fHashSingle ht) && _); [done|]. destruct (fHashSingle ht); [|done].
    destruct (tx_vout tx !! Z.to_nat nIn) as [o|] eqn:Eo; [|done]. cbn. apply Forall_singleton.
    by eapply Forall_lookup_1.
  - apply nonempty_ok. intros Hne. split; [done|]. by rewrite bool_decide_eq_true_2 in Hpk.
  - apply nonempty_ok. intros _. apply Forall_fmap. eapply Forall_impl; [exact Hss|].
    intros d (? & ? & ? & ? & ? & _). unfold Spend_effects_ok, compose. by split_and!.
  - apply nonempty_ok. done.
  - destruct (nIn =? NOT_AN_INPUT); [done|]. destruct (vin tx !! Z.to_nat nIn) as [i|] eqn:Ei; [|done]. cbn.
    eapply Forall_lookup_1 in Ei; [|exact Hin]. destruct Ei as (? & _ & ?). unfold input_ok. by split_and!.
Qed.

(** What is signed in a Sapling transaction: the script code, amount, input
    index, hash type and branch id of the call. *)
Record sign_ok (tx : CMutableTransaction) (sc : CScript) (nIn ht amount branch : Z) : Prop := {
  so_input : valid_nIn tx nIn;
  so_script : blob_ok sc;
  so_hashtype : is_i32 ht;
  so_amount : is_i64 amount;
  so_branch : is_u32 branch
}.

Lemma SignatureHash_sapling tx sc nIn ht amount branch cache : tx_v4 tx = true -> valid_nIn tx nIn -> cache_valid tx cache ->
  SignatureHash sc tx nIn ht amount branch cache = view_hash true (view_of sc tx nIn ht amount branch).
Proof.
  intros Hv Hn Hc. rewrite SignatureHash_cached by done. unfold SignatureHash, SignatureHashVersion.
  destruct (tx_v4_version tx Hv) as (-> & -> & _). rewrite Z.eqb_refl.
  assert (Hg : (Z.of_nat (length (vin tx)) <=? nIn) && negb (nIn =? NOT_AN_INPUT) = false).
  { destruct Hn as [->|Hn]; [by rewrite Z.eqb_refl, andb_false_r|]. by rewrite (proj2 (Z.leb_gt _ _)) by lia. }
  rewrite Hg. apply SignatureHash_view; [|done]. destruct Hn as [->|?]; [done|lia].
Qed.
End Commitment.

(** (C26) [SignatureHash] of Sapling transactions, with or without the hashes
    of [PrecomputedTransactionData], is the hash of the view of the
    transaction that the hash type selects: two calls give the same hash
    exactly when branch id, header, version group, prevouts, sequences,
    outputs, joinsplits with their key, shielded spends without their
    signatures, shielded outputs, lock time, expiry height, value balance,
    hash type and the signed input with its script code and amount are the
    same, unless BLAKE2b collides on the bytes hashed or maps them to zero. *)
Theorem SignatureHash_commits `{SigHashCrypto} tx01 tx02 tx1 tx2 sc1 sc2 nIn1 nIn2 ht1 ht2 amount1 amount2 branch1 branch2 cache1 cache2
  (Hw1 : tx_wire tx01 tx1) (Hw2 : tx_wire tx02 tx2) (Hv1 : tx_v4 tx1 = true) (Hv2 : tx_v4 tx2 = true)
  (Hs1 : sign_ok tx1 sc1 nIn1 ht1 amount1 branch1) (Hs2 : sign_ok tx2 sc2 nIn2 ht2 amount2 branch2)
  (Hc1 : cache_valid tx1 cache1) (Hc2 : cache_valid tx2 cache2)
  (Hcf : collision_free (view_calls (view_of sc1 tx1 nIn1 ht1 amount1 branch1) ++ view_calls (view_of sc2 tx2 nIn2 ht2 amount2 branch2))) :
  SignatureHash sc1 tx1 nIn1 ht1 amount1 branch1 cache1 = SignatureHash sc2 tx2 nIn2 ht2 amount2 branch2 cache2
  <-> view_of sc1 tx1 nIn1 ht1 amount1 branch1 = view_of sc2 tx2 nIn2 ht2 amount2 branch2.
Proof.
  destruct Hs1, Hs2. rewrite !SignatureHash_sapling by done. split; [|by intros ->].
  apply view_hash_inj; [by eapply view_of_ok..|done].
Qed.

(** A checksum in place of the hash functions. *)
Definition checksum (l : bytes) : uint256 := foldl (fun h x => (h * 257 + x + 1) mod 1000003) 1 l.
#[local] Program Instance checksum_crypto : SigHashCrypto := {
  blake2b p b := checksum (p ++ b);
  Hash256 := checksum;
  ecdsa_verify _ _ _ := false
}.
Next Obligation. intros p b. unfold checksum. generalize (p ++ b) as l. intros l. induction l using rev_ind; [done|]. rewrite foldl_snoc. pose proof (Z.mod_pos_bound (foldl (fun h x => (h * 257 + x + 1) mod 1000003) 1 l * 257 + x + 1) 1000003). lia. Qed.

Definition example_tx (sig : CScript) (value : Z) : CMutableTransaction :=
  mkTx true 4 SAPLING_VERSION_GROUP_ID [mkCTxIn (mkCOutPoint 7 1) sig 5] [mkCTxOut value [81] (-10)] 0 100 0 [] [] [] [] [] [].

Lemma example_tx_wire sig value : blob_ok sig -> is_i64 value -> tx_wire (example_tx sig value) (example_tx sig value).
Proof.
  intros Hs Hv. split; [cbn; lia|done|done|]. unfold body_ok, vector_ok.
  split_and!; cbn; try done; try lia.
  - apply Forall_singleton. by split_and!.
  - apply Forall_singleton. split_and!; [done| |done]. split; [by apply Forall_singleton|done].
Qed.

Lemma SignatureHash_commits_witness :
  SignatureHash [81] (example_tx [1] 9) 0 SIGHASH_ALL 50 77 None = SignatureHash [81] (example_tx [2; 3] 9) 0 SIGHASH_ALL 50 77 None
  /\ SignatureHash [81] (example_tx [1] 9) 0 SIGHASH_ALL 50 77 None <> SignatureHash [81] (example_tx [1] 8) 0 SIGHASH_ALL 50 77 None.
Proof.
  assert (Hw : forall sig value, blob_ok sig -> is_i64 value -> tx_wire (example_tx sig value) (example_tx sig value)) by exact example_tx_wire.
  assert (Hs : forall sig value, sign_ok (example_tx sig value) [81] 0 SIGHASH_ALL 50 77).
  { intros. split; [right; cbn; lia|split; [by apply Forall_singleton|done]|done..]. }
  assert (Hb : blob_ok [1] /\ blob_ok [2; 3]) by (split; split; try done; repeat constructor; done). destruct Hb as [Hb1 Hb2].
  assert (Hi : is_i64 9 /\ is_i64 8) by (unfold is_i64; lia). destruct Hi as [Hi9 Hi8].
  split.
  - apply (SignatureHash_commits _ _ _ _ _ _ _ _ _ _ _ _ _ _ None None (Hw _ _ Hb1 Hi9) (Hw _ _ Hb2 Hi9)
      eq_refl eq_refl (Hs _ _) (Hs _ _) I I); [|done].
    apply (bool_decide_unpack _). by vm_compute.
  - intros E. apply (SignatureHash_commits _ _ _ _ _ _ _ _ _ _ _ _ _ _ None None (Hw _ _ Hb1 Hi9) (Hw _ _ Hb1 Hi8)
      eq_refl eq_refl (Hs _ _) (Hs _ _) I I) in E; [done|].
    apply (bool_decide_unpack _). by vm_compute.
Defined.
