(* ===== verification/Standard.v ===== *)
(** * Standard scripts

    script/standard.{h,cpp}: the templates of standard output scripts
    ([Solver]), the destinations they pay to, the scripts built for a
    destination, and which scripts are relayed ([IsStandard]).  Solving a
    script that was built for a destination gives the destination back. *)
From stdpp Require Import prelude gmap strings list.
From S2P Require Import Prelude Transaction Script Interpreter SigHash.
#[local] Open Scope Z_scope.

Definition MAX_OP_RETURN_RELAY : Z := 83.

Inductive txnouttype := TX_NONSTANDARD | TX_PUBKEY | TX_PUBKEYHASH | TX_SCRIPTHASH | TX_MULTISIG | TX_NULL_DATA.
#[global] Instance txnouttype_eq_dec : EqDecision txnouttype.
Proof. solve_decision. Defined.

Definition GetTxnOutputType (t : txnouttype) : string :=
  match t with
  | TX_NONSTANDARD => "nonstandard"
  | TX_PUBKEY => "pubkey"
  | TX_PUBKEYHASH => "pubkeyhash"
  | TX_SCRIPTHASH => "scripthash"
  | TX_MULTISIG => "multisig"
  | TX_NULL_DATA => "nulldata"
  end.

(** The variant [CTxDestination]; key and script ids are 20 bytes. *)
Inductive CTxDestination := CNoDestination | CKeyID (hash : bytes) | CScriptID (hash : bytes).
#[global] Instance CTxDestination_eq_dec : EqDecision CTxDestination.
Proof. solve_decision. Defined.

Definition IsValidDestination (d : CTxDestination) : bool := match d with CNoDestination => false | _ => true end.
Definition IsKeyDestination (d : CTxDestination) : bool := match d with CKeyID _ => true | _ => false end.
Definition IsScriptDestination (d : CTxDestination) : bool := match d with CScriptID _ => true | _ => false end.

(** ** Public keys *)

Definition CPubKey_ValidSize (vch : bytes) : bool :=
  match vch with [] => false | h :: _ => (CPubKey_GetLen h =? length vch)%nat end.

(** [CPubKey(vch)]: the bytes of a valid key, nothing for an invalid one. *)
Definition CPubKey_Set (vch : bytes) : bytes :=
  match vch with
  | [] => []
  | h :: _ => if negb (CPubKey_GetLen h =? 0)%nat && (CPubKey_GetLen h =? length vch)%nat then vch else []
  end.

(** ** Matching *)

Definition match_pubkey_of (size : nat) (script : CScript) : option bytes :=
  if bool_decide (length script = size + 2)%nat && (byte_at script 0 =? Z.of_nat size) && (default 0 (last script) =? OP_CHECKSIG)
  then Some (take size (drop 1 script)) else None.
(** [None] when it returns [false]. *)
Definition MatchPayToPubkey (script : CScript) : option bytes :=
  match match_pubkey_of PUBLIC_KEY_SIZE script with
  | Some pubkey => if CPubKey_ValidSize pubkey then Some pubkey else None
  | None =>
      match match_pubkey_of COMPRESSED_PUBLIC_KEY_SIZE script with
      | Some pubkey => if CPubKey_ValidSize pubkey then Some pubkey else None
      | None => None
      end
  end.

Definition MatchPayToPubkeyHash (script : CScript) : option bytes :=
  if bool_decide (length script = 25%nat) && (byte_at script 0 =? OP_DUP) && (byte_at script 1 =? OP_HASH160) && (byte_at script 2 =? 20)
     && (byte_at script 23 =? OP_EQUALVERIFY) && (byte_at script 24 =? OP_CHECKSIG)
  then Some (take 20 (drop 3 script)) else None.

Definition IsSmallInteger (opcode : Z) : bool := (OP_1 <=? opcode) && (opcode <=? OP_16).

(** [while (script.GetOp(it, opcode, data) && CPubKey::ValidSize(data))]: the
    keys, the last opcode read and the iterator behind it.  Every round reads
    at least one byte. *)
Fixpoint multisig_keys (fuel : nat) (pc : bytes) (pubkeys : list bytes) : Z * list bytes * bytes :=
  let r := GetOp2 pc in
  if go_ret r && CPubKey_ValidSize (go_vch r) then
    match fuel with
    | O => (go_opcode r, pubkeys, go_pc r)
    | S fuel' => multisig_keys fuel' (go_pc r) (pubkeys ++ [go_vch r])
    end
  else (go_opcode r, pubkeys, go_pc r).

Definition MatchMultisig (script : CScript) : result (option (Z * list bytes)) :=
  if (length script <? 1)%nat || negb (default 0 (last script) =? OP_CHECKMULTISIG) then Ok None
  else
    let r := GetOp2 script in
    if negb (go_ret r) || negb (IsSmallInteger (go_opcode r)) then Ok None
    else
      required ← DecodeOP_N (go_opcode r);
      let '(opcode, pubkeys, it) := multisig_keys (length script) (go_pc r) [] in
      if negb (IsSmallInteger opcode) then Ok None
      else
        keys ← DecodeOP_N opcode;
        if negb (Z.of_nat (length pubkeys) =? keys) || (keys <? required) then Ok None
        else Ok (if (length it =? 1)%nat then Some (required, pubkeys) else None).

(** [Solver]: the returned flag, the type and the solutions. *)
Definition Solver (scriptPubKey : CScript) : result (bool * txnouttype * list bytes) :=
  if CScript_IsPayToScriptHash scriptPubKey then Ok (true, TX_SCRIPTHASH, [take 20 (drop 2 scriptPubKey)])
  else if (1 <=? length scriptPubKey)%nat && (byte_at scriptPubKey 0 =? OP_RETURN) && CScript_IsPushOnly (drop 1 scriptPubKey)
  then Ok (true, TX_NULL_DATA, [])
  else match MatchPayToPubkey scriptPubKey with
  | Some data => Ok (true, TX_PUBKEY, [data])
  | None =>
      match MatchPayToPubkeyHash scriptPubKey with
      | Some data => Ok (true, TX_PUBKEYHASH, [data])
      | None =>
          m ← MatchMultisig scriptPubKey;
          Ok (match m with
              | Some (required, keys) => (true, TX_MULTISIG, [u8 required] :: keys ++ [[u8 (Z.of_nat (length keys))]])
              | None => (false, TX_NONSTANDARD, [])
              end)
      end
  end.

Definition ScriptSigArgsExpected (t : txnouttype) (vSolutions : list bytes) : Z :=
  match t with
  | TX_NONSTANDARD | TX_NULL_DATA => -1
  | TX_PUBKEY => 1
  | TX_PUBKEYHASH => 2
  | TX_MULTISIG => match vSolutions with (m :: _) :: _ => m + 1 | _ => -1 end
  | TX_SCRIPTHASH => 1
  end.

(** ** Destinations *)

Section Destinations.
Context `{ScriptCrypto}.

Definition CPubKey_GetID (pubKey : bytes) : CTxDestination := CKeyID (CHash160 pubKey).
Definition CScriptID_of (s : CScript) : CTxDestination := CScriptID (CHash160 s).

Definition ExtractDestination (scriptPubKey : CScript) : result (option CTxDestination) :=
  r ← Solver scriptPubKey;
  let '(ok, whichType, vSolutions) := r in
  if negb ok then Ok None
  else match whichType with
  | TX_PUBKEY =>
      s ← index_or_abort vSolutions 0;
      let pubKey := CPubKey_Set s in
      Ok (if CPubKey_IsValid pubKey then Some (CPubKey_GetID pubKey) else None)
  | TX_PUBKEYHASH => s ← index_or_abort vSolutions 0; Ok (Some (CKeyID s))
  | TX_SCRIPTHASH => s ← index_or_abort vSolutions 0; Ok (Some (CScriptID s))
  | _ => Ok None
  end.

(** The addresses of the keys between the first and the last solution. *)
Definition multisig_addresses (vSolutions : list bytes) : list CTxDestination :=
  omap (fun s => let pubKey := CPubKey_Set s in if CPubKey_IsValid pubKey then Some (CPubKey_GetID pubKey) else None)
    (drop 1 (take (length vSolutions - 1) vSolutions)).

(** [None] when it returns [false]: type, addresses and required signatures. *)
Definition ExtractDestinations (scriptPubKey : CScript) : result (option (txnouttype * list CTxDestination * Z)) :=
  r ← Solver scriptPubKey;
  let '(ok, typeRet, vSolutions) := r in
  if negb ok then Ok None
  else match typeRet with
  | TX_NULL_DATA => Ok None
  | TX_MULTISIG =>
      s ← index_or_abort vSolutions 0;
      nRequiredRet ← index_or_abort s 0;
      let addressRet := multisig_addresses vSolutions in
      Ok (if bool_decide (addressRet = []) then None else Some (typeRet, addressRet, nRequiredRet))
  | _ =>
      address ← ExtractDestination scriptPubKey;
      Ok (match address with Some a => Some (typeRet, [a], 1) | None => None end)
  end.
End Destinations.

(** [CScriptVisitor]. *)
Definition GetScriptForDestination (dest : CTxDestination) : CScript :=
  match dest with
  | CNoDestination => []
  | CKeyID keyID => CScript_push_data [OP_DUP; OP_HASH160] keyID ++ [OP_EQUALVERIFY; OP_CHECKSIG]
  | CScriptID scriptID => CScript_push_data [OP_HASH160] scriptID ++ [OP_EQUAL]
  end.

Definition GetScriptForRawPubKey (pubKey : bytes) : CScript := CScript_push_data [] pubKey ++ [OP_CHECKSIG].

Definition GetScriptForMultisig (nRequired : Z) (keys : list bytes) : result CScript :=
  m ← EncodeOP_N nRequired;
  let script := foldl CScript_push_data [m] keys in
  n ← EncodeOP_N (Z.of_nat (length keys));
  Ok (script ++ [n; OP_CHECKMULTISIG]).

Definition DestFromAddressHash (scriptType : Z) (addressHash : bytes) : CTxDestination :=
  if scriptType =? 1 then CKeyID addressHash else if scriptType =? 2 then CScriptID addressHash else CNoDestination.

(** [IsStandard]; the options -datacarrier and [nMaxDatacarrierBytes] are
    arguments. *)
Definition IsStandard (datacarrier : bool) (nMaxDatacarrierBytes : Z) (scriptPubKey : CScript) : result (bool * txnouttype) :=
  r ← Solver scriptPubKey;
  let '(ok, whichType, vSolutions) := r in
  if negb ok then Ok (false, whichType)
  else match whichType with
  | TX_MULTISIG =>
      f ← index_or_abort vSolutions 0;
      m ← index_or_abort f 0;
      b ← index_or_abort vSolutions (length vSolutions - 1);
      n ← index_or_abort b 0;
      if (n <? 1) || (3 <? n) then Ok (false, whichType)
      else if (m <? 1) || (n <? m) then Ok (false, whichType)
      else Ok (negb (bool_decide (whichType = TX_NONSTANDARD)), whichType)
  | TX_NULL_DATA =>
      if negb datacarrier || (nMaxDatacarrierBytes <? Z.of_nat (length scriptPubKey)) then Ok (false, whichType)
      else Ok (negb (bool_decide (whichType = TX_NONSTANDARD)), whichType)
  | _ => Ok (negb (bool_decide (whichType = TX_NONSTANDARD)), whichType)
  end.

(** ** Lemmas *)

(** Take a list of known length apart. *)
Ltac explode h Hl :=
  repeat match type of Hl with
  | length ?l = S _ => let x := fresh "x" in let l' := fresh "l" in destruct l as [|x l']; [discriminate Hl|]; injection Hl as Hl
  | length ?l = O => apply nil_length_inv in Hl; subst l
  end.

Lemma MatchPayToPubkeyHash_spec s h : MatchPayToPubkeyHash s = Some h <-> length h = 20%nat /\ s = GetScriptForDestination (CKeyID h).
Proof.
  unfold MatchPayToPubkeyHash. split.
  - case_match eqn:E; [|done]. intros [= <-]. zbool. rename H into Hl. explode s Hl. unfold byte_at in *. cbn in *. subst. split; done.
  - intros [Hl ->]. explode h Hl. done.
Qed.

Lemma IsPayToScriptHash_spec s : CScript_IsPayToScriptHash s = true <-> exists h, length h = 20%nat /\ s = GetScriptForDestination (CScriptID h).
Proof.
  unfold CScript_IsPayToScriptHash. split.
  - intros E. zbool. rename H into Hl. exists (take 20 (drop 2 s)). explode s Hl. unfold byte_at in *. cbn in *. subst. split; done.
  - intros (h & Hl & ->). explode h Hl. done.
Qed.

Lemma ValidSize_length k : CPubKey_ValidSize k = true -> length k = 33%nat \/ length k = 65%nat.
Proof.
  destruct k as [|h k]; [done|]. cbn [CPubKey_ValidSize]. unfold CPubKey_GetLen. intros E%Nat.eqb_eq. repeat case_match; [left|right|]; try done.
Qed.

(** The loop reads exactly the keys that were pushed. *)
Lemma multisig_keys_pushed n keys : IsSmallInteger n = true -> Forall (fun k => CPubKey_ValidSize k = true) keys ->
  forall fuel acc, (length keys < fuel)%nat -> Z.of_nat (length (concat (pushed <$> keys) ++ [n; OP_CHECKMULTISIG])) < 2 ^ 32 ->
  multisig_keys fuel (concat (pushed <$> keys) ++ [n; OP_CHECKMULTISIG]) acc = (n, acc ++ keys, [OP_CHECKMULTISIG]).
Proof.
  intros Hn Hk. induction Hk as [|k keys Hv _ IH]; intros fuel acc Hf Hl.
  - cbn [fmap list_fmap concat app]. rewrite app_nil_r. assert (E : GetOp2 [n; OP_CHECKMULTISIG] = mkGetOp true n [] [OP_CHECKMULTISIG]).
    { cbn [GetOp2]. unfold IsSmallInteger, OP_1, OP_16 in Hn. zbool. unfold OP_PUSHDATA4. by rewrite (proj2 (Z.leb_gt n 78)) by lia. }
    destruct fuel; cbn [multisig_keys]; rewrite E; done.
  - cbn [fmap list_fmap concat] in *. fold (pushed <$> keys) in *. rewrite <- app_assoc in *. destruct fuel as [|fuel]; [lia|]. cbn [multisig_keys].
    rewrite GetOp2_pushed by done. cbn [go_ret go_vch go_pc go_opcode]. rewrite Hv. cbn [andb]. rewrite IH; [by rewrite <- app_assoc|cbn in Hf; lia|].
    rewrite length_app in Hl. lia.
Qed.

Lemma foldl_push_data m keys : foldl CScript_push_data [m] keys = m :: concat (pushed <$> keys).
Proof.
  assert (G : forall s, foldl CScript_push_data s keys = s ++ concat (pushed <$> keys)); [|by rewrite G].
  induction keys as [|k keys IH]; intros s; cbn; [by rewrite app_nil_r|]. rewrite IH, push_data_app, <- app_assoc. done.
Qed.

Lemma pushed_keys_length keys : Forall (fun k => CPubKey_ValidSize k = true) keys -> (length keys <= length (concat (pushed <$> keys)) <= 66 * length keys)%nat.
Proof.
  induction 1 as [|k keys Hv _ IH]; [done|]. cbn [fmap list_fmap concat length]. fold (pushed <$> keys). rewrite length_app.
  assert (Hp : length (pushed k) = S (length k)).
  { unfold pushed, CScript_push_data. apply ValidSize_length in Hv. rewrite (proj2 (Z.ltb_lt (Z.of_nat (length k)) OP_PUSHDATA1)); [done|]. unfold OP_PUSHDATA1. lia. }
  apply ValidSize_length in Hv. lia.
Qed.

Lemma EncodeOP_N_ok n : 1 <= n <= 16 -> EncodeOP_N n = Ok (OP_1 + n - 1) /\ IsSmallInteger (OP_1 + n - 1) = true /\ DecodeOP_N (OP_1 + n - 1) = Ok n.
Proof.
  intros Hn. unfold EncodeOP_N, IsSmallInteger, DecodeOP_N, OP_1, OP_16, OP_0.
  rewrite (proj2 (Z.leb_le 0 n)), (proj2 (Z.leb_le n 16)), (proj2 (Z.eqb_neq n 0)) by lia. cbn [andb assert_true mbind result_bind]. split; [done|].
  rewrite (proj2 (Z.leb_le 81 (81 + n - 1))), (proj2 (Z.leb_le (81 + n - 1) 96)), (proj2 (Z.eqb_neq (81 + n - 1) 0)) by lia. split; [done|].
  cbn [andb assert_true mbind result_bind]. f_equal. lia.
Qed.

Lemma last_cons_app_2 {A} (m : A) l x y : last (m :: l ++ [x; y]) = Some y.
Proof. change (m :: l ++ [x; y]) with ((m :: l) ++ [x; y]). by rewrite last_app. Qed.

(** Only multisig is left when the first byte is a small integer. *)
Lemma Solver_small_first m rest : IsSmallInteger m = true ->
  Solver (m :: rest) = (r ← MatchMultisig (m :: rest);
    Ok (match r with
        | Some (required, keys) => (true, TX_MULTISIG, [u8 required] :: keys ++ [[u8 (Z.of_nat (length keys))]])
        | None => (false, TX_NONSTANDARD, [])
        end)).
Proof.
  intros Hm. unfold IsSmallInteger, OP_1, OP_16 in Hm. zbool. unfold Solver, MatchPayToPubkey, match_pubkey_of, MatchPayToPubkeyHash, CScript_IsPayToScriptHash.
  change (byte_at (m :: rest) 0) with m. unfold OP_HASH160, OP_RETURN, PUBLIC_KEY_SIZE, COMPRESSED_PUBLIC_KEY_SIZE, OP_DUP.
  change (Z.of_nat 65) with 65. change (Z.of_nat 33) with 33.
  rewrite (proj2 (Z.eqb_neq m 169)), (proj2 (Z.eqb_neq m 106)), (proj2 (Z.eqb_neq m 65)), (proj2 (Z.eqb_neq m 33)), (proj2 (Z.eqb_neq m 118)) by lia.
  rewrite !andb_false_r. done.
Qed.

Lemma Solver_multisig m keys : 1 <= m <= Z.of_nat (length keys) -> (length keys <= 16)%nat -> Forall (fun k => CPubKey_ValidSize k = true) keys ->
  exists s, GetScriptForMultisig m keys = Ok s /\ Solver s = Ok (true, TX_MULTISIG, [m] :: keys ++ [[Z.of_nat (length keys)]]).
Proof.
  intros Hm Hn Hk. destruct (EncodeOP_N_ok m) as (Em & Sm & Dm); [lia|]. destruct (EncodeOP_N_ok (Z.of_nat (length keys))) as (En & Sn & Dn); [lia|].
  pose proof (pushed_keys_length keys Hk) as Hlen. unfold GetScriptForMultisig. rewrite Em, En. cbn [mbind result_bind]. rewrite foldl_push_data.
  set (om := OP_1 + m - 1) in *. set (on := OP_1 + Z.of_nat (length keys) - 1) in *. eexists. split; [done|]. rewrite <- app_comm_cons.
  rewrite Solver_small_first by done. unfold MatchMultisig. rewrite last_cons_app_2. cbn [default length]. rewrite Z.eqb_refl. cbn [negb orb].
  change ((S (length (concat (pushed <$> keys) ++ [on; OP_CHECKMULTISIG])) <? 1)%nat) with false. cbn [orb].
  assert (E : GetOp2 (om :: concat (pushed <$> keys) ++ [on; OP_CHECKMULTISIG]) = mkGetOp true om [] (concat (pushed <$> keys) ++ [on; OP_CHECKMULTISIG])).
  { cbn [GetOp2]. pose proof Sm as Sm'. unfold IsSmallInteger, OP_1, OP_16 in Sm'. zbool. unfold OP_PUSHDATA4. by rewrite (proj2 (Z.leb_gt om 78)) by lia. }
  rewrite E. cbn [go_ret go_opcode go_pc negb orb]. rewrite Sm. cbn [negb]. rewrite Dm. cbn [mbind result_bind].
  rewrite multisig_keys_pushed; [|done|done|rewrite length_app; cbn; lia|rewrite length_app; cbn; lia]. cbn [app]. rewrite Sn. cbn [negb]. rewrite Dn. cbn [mbind result_bind].
  rewrite Z.eqb_refl. rewrite (proj2 (Z.ltb_ge (Z.of_nat (length keys)) m)) by lia. cbn [negb orb length Nat.eqb].
  cbn [mbind result_bind]. rewrite !u8_small by (unfold is_u8; lia). done.
Qed.

Lemma Solver_total s : exists ok t l, Solver s = Ok (ok, t, l).
Proof.
  unfold Solver. destruct (CScript_IsPayToScriptHash s); [by eauto|]. case_match; [by eauto|]. destruct (MatchPayToPubkey s); [by eauto|].
  destruct (MatchPayToPubkeyHash s); [by eauto|]. unfold MatchMultisig. case_match; [by eauto|]. cbn zeta. destruct (negb _ || negb (IsSmallInteger _)) eqn:E1; [by eauto|].
  apply orb_false_iff in E1 as [_ E1%negb_false_iff].
  assert (D : forall op, IsSmallInteger op = true -> exists n, DecodeOP_N op = Ok n).
  { intros op Hop. unfold DecodeOP_N. case_match; [by eauto|]. unfold IsSmallInteger in Hop. rewrite Hop. by eauto. }
  destruct (D _ E1) as [m ->]. cbn [mbind result_bind]. destruct (multisig_keys _ _ _) as [[op keys] it]. destruct (IsSmallInteger op) eqn:E2; [|by eauto]. cbn [negb].
  destruct (D _ E2) as [n ->]. cbn [mbind result_bind]. case_match; [by eauto|]. case_match; by eauto.
Qed.

Section Roundtrip.
Context `{ScriptCrypto}.

Lemma ExtractDestination_key h : length h = 20%nat -> Solver (GetScriptForDestination (CKeyID h)) = Ok (true, TX_PUBKEYHASH, [h])
  /\ ExtractDestination (GetScriptForDestination (CKeyID h)) = Ok (Some (CKeyID h)).
Proof. intros Hl. explode h Hl. split; reflexivity. Qed.

Lemma ExtractDestination_script h : length h = 20%nat -> Solver (GetScriptForDestination (CScriptID h)) = Ok (true, TX_SCRIPTHASH, [h])
  /\ ExtractDestination (GetScriptForDestination (CScriptID h)) = Ok (Some (CScriptID h)).
Proof. intros Hl. explode h Hl. split; reflexivity. Qed.

(** A public key paid to directly. *)
Lemma MatchPayToPubkey_raw k : CPubKey_ValidSize k = true -> MatchPayToPubkey (GetScriptForRawPubKey k) = Some k.
Proof.
  intros Hv. unfold MatchPayToPubkey. destruct (ValidSize_length k Hv) as [Hl|Hl].
  - assert (E : match_pubkey_of PUBLIC_KEY_SIZE (GetScriptForRawPubKey k) = None /\ match_pubkey_of COMPRESSED_PUBLIC_KEY_SIZE (GetScriptForRawPubKey k) = Some k)
      by (clear Hv; explode k Hl; split; reflexivity).
    destruct E as [-> ->]. by rewrite Hv.
  - assert (E : match_pubkey_of PUBLIC_KEY_SIZE (GetScriptForRawPubKey k) = Some k) by (clear Hv; explode k Hl; reflexivity).
    rewrite E. by rewrite Hv.
Qed.

Lemma Solver_raw k : CPubKey_ValidSize k = true -> Solver (GetScriptForRawPubKey k) = Ok (true, TX_PUBKEY, [k]).
Proof.
  intros Hv. pose proof (MatchPayToPubkey_raw k Hv) as E. unfold Solver. rewrite E.
  assert (Hb : byte_at (GetScriptForRawPubKey k) 0 = Z.of_nat (length k)).
  { unfold GetScriptForRawPubKey, CScript_push_data, byte_at. destruct (ValidSize_length k Hv) as [-> | ->]; done. }
  unfold CScript_IsPayToScriptHash. rewrite Hb. destruct (ValidSize_length k Hv) as [-> | ->]; cbn [Z.of_nat Z.eqb Pos.of_succ_nat OP_HASH160 OP_RETURN andb]; rewrite ?andb_false_r; done.
Qed.

Lemma ExtractDestination_raw k : CPubKey_ValidSize k = true -> ExtractDestination (GetScriptForRawPubKey k) = Ok (Some (CPubKey_GetID k)).
Proof.
  intros Hv. unfold ExtractDestination. rewrite Solver_raw by done. cbn [mbind result_bind negb index_or_abort lookup list_lookup].
  assert (Hs : CPubKey_Set k = k /\ CPubKey_IsValid k = true).
  { destruct k as [|h k]; [done|]. unfold CPubKey_Set, CPubKey_IsValid. cbn [CPubKey_ValidSize] in Hv. rewrite Hv.
    apply Nat.eqb_eq in Hv. rewrite Hv. cbn [length Nat.eqb negb andb]. done. }
  destruct Hs as [-> ->]. done.
Qed.

(** The scripts with a single hash as their destination. *)
Lemma Solver_hash_inv s t h : Solver s = Ok (true, t, [h]) ->
  (t = TX_SCRIPTHASH -> length h = 20%nat /\ s = GetScriptForDestination (CScriptID h))
  /\ (t = TX_PUBKEYHASH -> length h = 20%nat /\ s = GetScriptForDestination (CKeyID h)).
Proof.
  unfold Solver. destruct (CScript_IsPayToScriptHash s) eqn:Ep.
  { intros [= <- <-]. apply IsPayToScriptHash_spec in Ep as (h & Hl & ->). split; [|done]. intros _. explode h Hl. done. }
  case_match; [done|]. destruct (MatchPayToPubkey s) as [k|]; [by intros [= <- <-]|]. destruct (MatchPayToPubkeyHash s) as [k|] eqn:Ek.
  { intros [= <- <-]. split; [done|]. intros _. by apply MatchPayToPubkeyHash_spec. }
  destruct (MatchMultisig s) as [[[m keys]|]| |]; cbn [mbind result_bind]; intros E; simplify_eq; done.
Qed.

(** (C30) Standard scripts are read back.  [Solver] returns on every script.  The
    script for a key or script id gives that destination, and no other script
    is recognised as paying to it by hash; the script for a valid public key
    gives the key and its id; and an m-of-n multisignature script of up to
    16 valid keys gives m, the keys in order, and n. *)
Theorem standard_scripts_roundtrip :
  (forall s, exists ok t l, Solver s = Ok (ok, t, l))
  /\ (forall h, length h = 20%nat ->
       ExtractDestination (GetScriptForDestination (CKeyID h)) = Ok (Some (CKeyID h))
       /\ ExtractDestination (GetScriptForDestination (CScriptID h)) = Ok (Some (CScriptID h)))
  /\ (forall s h, (Solver s = Ok (true, TX_PUBKEYHASH, [h]) <-> length h = 20%nat /\ s = GetScriptForDestination (CKeyID h))
       /\ (Solver s = Ok (true, TX_SCRIPTHASH, [h]) <-> length h = 20%nat /\ s = GetScriptForDestination (CScriptID h)))
  /\ (forall k, CPubKey_ValidSize k = true -> Solver (GetScriptForRawPubKey k) = Ok (true, TX_PUBKEY, [k])
       /\ ExtractDestination (GetScriptForRawPubKey k) = Ok (Some (CPubKey_GetID k)))
  /\ (forall m keys, 1 <= m <= Z.of_nat (length keys) -> (length keys <= 16)%nat -> Forall (fun k => CPubKey_ValidSize k = true) keys ->
       exists s, GetScriptForMultisig m keys = Ok s /\ Solver s = Ok (true, TX_MULTISIG, [m] :: keys ++ [[Z.of_nat (length keys)]])).
Proof.
  split; [exact Solver_total|]. split; [intros h Hl; split; [by apply ExtractDestination_key|by apply ExtractDestination_script]|].
  split; [|split; [intros k Hk; split; [by apply Solver_raw|by apply ExtractDestination_raw]|exact Solver_multisig]].
  intros s h. split; (split; [intros E; by apply (Solver_hash_inv s _ h E)|intros [Hl ->]; by apply ExtractDestination_key || by apply ExtractDestination_script]).
Qed.
End Roundtrip.

(** A bare 2-of-2 multisignature output is relayed, a 1-of-4 is not. *)
Example IsStandard_multisig :
  (s ← GetScriptForMultisig 2 [2 :: replicate 32 7; 3 :: replicate 32 8]; IsStandard true MAX_OP_RETURN_RELAY s) = Ok (true, TX_MULTISIG)
  /\ (s ← GetScriptForMultisig 1 (replicate 4 (2 :: replicate 32 7)); IsStandard true MAX_OP_RETURN_RELAY s) = Ok (false, TX_MULTISIG).
Proof. split; vm_compute; reflexivity. Qed.
