(* ===== verification/Block.v ===== *)
(** * Blocks

    primitives/block.{h,cpp}: the block header, the block, their wire formats,
    and the transaction Merkle tree of a block: its construction with the
    detection of mutated transaction lists, branches and their check.

    [Hash] of two 32-byte blobs (double SHA-256) is the parameter [Hash2]. *)
From S2P Require Import Prelude Transaction Serialize TxSerialize.
From stdpp Require Import prelude strings list.
#[local] Open Scope Z_scope.

(** ** Data *)

Record CBlockHeader := mkHeader {
  h_nVersion : Z;
  hashPrevBlock : uint256;
  hashMerkleRoot : uint256;
  hashFinalSaplingRoot : uint256;
  h_nTime : Z;
  nBits : Z;
  nNonce : uint256;
  nSolution : bytes
}.

Definition HEADER_SIZE : Z := 4 + 32 + 32 + 32 + 4 + 4 + 32.
Definition CBlockHeader_CURRENT_VERSION : Z := 4.

Definition CBlockHeader_SetNull : CBlockHeader :=
  mkHeader CBlockHeader_CURRENT_VERSION uint256_null uint256_null uint256_null 0 0 uint256_null [].
Definition CBlockHeader_IsNull (h : CBlockHeader) : bool := nBits h =? 0.
Definition CBlockHeader_GetBlockTime (h : CBlockHeader) : Z := h_nTime h.

Definition ser_CBlockHeader (h : CBlockHeader) : writer :=
  ser_i32 (h_nVersion h) ⧺ ser_uint256 (hashPrevBlock h) ⧺ ser_uint256 (hashMerkleRoot h)
  ⧺ ser_uint256 (hashFinalSaplingRoot h) ⧺ ser_u32 (h_nTime h) ⧺ ser_u32 (nBits h) ⧺ ser_uint256 (nNonce h)
  ⧺ ser_blob (nSolution h).
Definition unser_CBlockHeader : reader CBlockHeader :=
  nVersion ← unser_i32; hashPrevBlock ← unser_uint256; hashMerkleRoot ← unser_uint256;
  hashFinalSaplingRoot ← unser_uint256; nTime ← unser_u32; nBits ← unser_u32; nNonce ← unser_uint256;
  nSolution ← unser_blob;
  mret (mkHeader nVersion hashPrevBlock hashMerkleRoot hashFinalSaplingRoot nTime nBits nNonce nSolution).

(** A block: the members written to network and disk, and the Merkle tree
    kept in memory. *)
Record CBlock := mkCBlock {
  b_header : CBlockHeader;
  b_vtx : list CMutableTransaction;
  b_payee : CScript;
  vMerkleTree : list uint256
}.

Definition CBlock_SetNull : CBlock := mkCBlock CBlockHeader_SetNull [] [] [].
Definition CBlock_of_header (h : CBlockHeader) : CBlock := mkCBlock h [] [] [].
Definition GetBlockHeader (b : CBlock) : CBlockHeader := b_header b.

(** [vtx] is cleared before it is read, so every transaction is read into
    the default one, [tx0].  [payee] and [vMerkleTree] keep their values. *)
Definition ser_CBlock (b : CBlock) : writer := ser_CBlockHeader (b_header b) ⧺ ser_vector ser_tx (b_vtx b).
Definition unser_CBlock (tx0 : CMutableTransaction) (b0 : CBlock) : reader CBlock :=
  h ← unser_CBlockHeader; vtx ← unser_vector (unser_tx tx0);
  mret (mkCBlock h vtx (b_payee b0) (vMerkleTree b0)).

(** [CEquihashInput]: the header without nonce and solution. *)
Definition ser_CEquihashInput (h : CBlockHeader) : writer :=
  ser_i32 (h_nVersion h) ⧺ ser_uint256 (hashPrevBlock h) ⧺ ser_uint256 (hashMerkleRoot h)
  ⧺ ser_uint256 (hashFinalSaplingRoot h) ⧺ ser_u32 (h_nTime h) ⧺ ser_u32 (nBits h).

(** [CBlockLocator]: the version of the stream comes first, except when
    hashing, and is ignored on reading. *)
Definition ser_CBlockLocator (gethash : bool) (version : Z) (vHave : list uint256) : writer :=
  ser_if (negb gethash) (ser_i32 version) ⧺ ser_vector ser_uint256 vHave.
Definition unser_CBlockLocator (gethash : bool) (version : Z) : reader (list uint256) :=
  _ ← unser_if (negb gethash) unser_i32 version; unser_vector unser_uint256.
Definition CBlockLocator_IsNull (vHave : list uint256) : bool := bool_decide (vHave = []).

(** ** Wire format *)

Definition Header_ok (h : CBlockHeader) : Prop :=
  is_i32 (h_nVersion h) /\ is_uint256 (hashPrevBlock h) /\ is_uint256 (hashMerkleRoot h)
  /\ is_uint256 (hashFinalSaplingRoot h) /\ is_u32 (h_nTime h) /\ is_u32 (nBits h) /\ is_uint256 (nNonce h)
  /\ blob_ok (nSolution h).

Lemma Header_codec : codec ser_CBlockHeader unser_CBlockHeader Header_ok.
Proof.
  eapply codec_iff; [unfold ser_CBlockHeader, unser_CBlockHeader; codec_record|]. codec_shape Header_ok.
Qed.
#[export] Hint Resolve Header_codec tx_codec : codec.

Record block_wire (tx0 : CMutableTransaction) (b0 b : CBlock) : Prop := {
  bw_header : Header_ok (b_header b);
  bw_vtx : vector_ok (tx_wire tx0) (b_vtx b);
  bw_payee : b_payee b = b_payee b0;
  bw_tree : vMerkleTree b = vMerkleTree b0
}.

Lemma CBlock_codec tx0 b0 : codec ser_CBlock (unser_CBlock tx0 b0) (block_wire tx0 b0).
Proof.
  eapply codec_iff; [unfold ser_CBlock, unser_CBlock; codec_record|].
  intros []. cbn. split; [|intros []; cbn in *; by subst].
  intros (? & ? & [= -> ->]). by split.
Qed.

(** A block is read back from what was written for it, and two streams that
    read as the same block begin with the same bytes: a block has one
    encoding. *)
Theorem block_wire_format (tx0 : CMutableTransaction) (b0 : CBlock) :
  (forall b, block_wire tx0 b0 b ->
     exists s, ser_CBlock b = Ok s /\ forall rest, unser_CBlock tx0 b0 (s ++ rest) = Ok (b, rest))
  /\ (forall s1 s2 b rest1 rest2, is_bytes s1 -> is_bytes s2 ->
        unser_CBlock tx0 b0 s1 = Ok (b, rest1) -> unser_CBlock tx0 b0 s2 = Ok (b, rest2) ->
        exists s, ser_CBlock b = Ok s /\ s1 = s ++ rest1 /\ s2 = s ++ rest2).
Proof.
  destruct (CBlock_codec tx0 b0) as [Hf Hb]. split.
  - intros b Hw. destruct (Hf b Hw) as (s & E & _ & Hr). by exists s.
  - intros s1 s2 b r1 r2 H1 H2 E1 E2.
    destruct (Hb _ _ _ H1 E1) as (_ & b1 & Ew1 & ->). destruct (Hb _ _ _ H2 E2) as (_ & b2 & Ew2 & ->).
    rewrite Ew1 in Ew2. injection Ew2 as <-. by exists b1.
Qed.

(** ** The Merkle tree of a block *)

(** [v[i]] for an [int] index. *)
Definition at_int {A} (v : list A) (i : Z) : result A :=
  if i <? 0 then Abort else index_or_abort v (Z.to_nat i).

Section Merkle.
Context (Hash2 : uint256 -> uint256 -> uint256).

(** One level: [i] from 0 by twos below [nSize], the nodes of the level
    starting at [j].  At most [nSize] turns. *)
Fixpoint merkle_level (fuel : nat) (nSize j i : Z) (tree : list uint256) (mutated : bool)
  : result (list uint256 * bool) :=
  match fuel with
  | O => Abort
  | S fuel' =>
      if i <? nSize then
        let i2 := Z.min (i + 1) (nSize - 1) in
        a ← at_int tree (j + i);
        b ← at_int tree (j + i2);
        let mutated := mutated || ((i2 =? i + 1) && (i2 + 1 =? nSize) && (a =? b)) in
        merkle_level fuel' nSize j (i + 2) (tree ++ [Hash2 a b]) mutated
      else Ok (tree, mutated)
  end.

Fixpoint merkle_levels (fuel : nat) (nSize j : Z) (tree : list uint256) (mutated : bool)
  : result (list uint256 * bool) :=
  match fuel with
  | O => Abort
  | S fuel' =>
      if 1 <? nSize then
        '(tree, mutated) ← merkle_level (S (Z.to_nat nSize)) nSize j 0 tree mutated;
        merkle_levels fuel' ((nSize + 1) / 2) (j + nSize) tree mutated
      else Ok (tree, mutated)
  end.

(** [BuildMerkleTree] on the transaction ids: the root, the mutation flag
    and the tree left in [vMerkleTree]. *)
Definition BuildMerkleTree (txids : list uint256) : result (uint256 * bool * list uint256) :=
  '(tree, mutated) ← merkle_levels (S (length txids)) (Z.of_nat (length txids)) 0 txids false;
  Ok (match last tree with Some r => r | None => uint256_null end, mutated, tree).

Fixpoint branch_loop (fuel : nat) (tree : list uint256) (nIndex nSize j : Z) (acc : list uint256)
  : result (list uint256) :=
  match fuel with
  | O => Abort
  | S fuel' =>
      if 1 <? nSize then
        let i := Z.min (Z.lxor nIndex 1) (nSize - 1) in
        h ← at_int tree (j + i);
        branch_loop fuel' tree (Z.shiftr nIndex 1) ((nSize + 1) / 2) (j + nSize) (acc ++ [h])
      else Ok acc
  end.

(** [GetMerkleBranch], with the cached [vMerkleTree]. *)
Definition GetMerkleBranch (txids cached : list uint256) (nIndex : Z) : result (list uint256) :=
  tree ← (if bool_decide (cached = []) then '(_, _, tree) ← BuildMerkleTree txids; Ok tree else Ok cached);
  branch_loop (S (length txids)) tree nIndex (Z.of_nat (length txids)) 0 [].

Fixpoint check_branch_loop (hash : uint256) (vMerkleBranch : list uint256) (nIndex : Z) : uint256 :=
  match vMerkleBranch with
  | [] => hash
  | it :: rest =>
      check_branch_loop (if negb (Z.land nIndex 1 =? 0) then Hash2 it hash else Hash2 hash it) rest (Z.shiftr nIndex 1)
  end.
Definition CheckMerkleBranch (hash : uint256) (vMerkleBranch : list uint256) (nIndex : Z) : uint256 :=
  if nIndex =? -1 then uint256_null else check_branch_loop hash vMerkleBranch nIndex.

(** *** Reference: the levels of the tree *)

Fixpoint pair_up (l : list uint256) : list uint256 :=
  match l with
  | a :: b :: l' => Hash2 a b :: pair_up l'
  | [a] => [Hash2 a a]
  | [] => []
  end.

Fixpoint levels (fuel : nat) (l : list uint256) : list (list uint256) :=
  match fuel with
  | O => [l]
  | S fuel' => if decide (length l <= 1)%nat then [l] else l :: levels fuel' (pair_up l)
  end.

(** An even level whose last two nodes are equal. *)
Fixpoint twin_end (l : list uint256) : bool :=
  match l with
  | a :: b :: l' => match l' with [] => a =? b | _ => twin_end l' end
  | _ => false
  end.

Definition merkle_root (l : list uint256) : uint256 :=
  match last (levels (length l) l) with Some (r :: _) => r | _ => uint256_null end.
Definition mutated_list (l : list uint256) : bool := existsb twin_end (levels (length l) l).

Lemma pair_ind (P : list uint256 -> Prop) :
  P [] -> (forall a, P [a]) -> (forall a b l, P l -> P (a :: b :: l)) -> forall l, P l.
Proof.
  intros H0 H1 H2. fix IH 1. intros [|a [|b l]]; [exact H0|apply H1|]. apply H2, IH.
Qed.

Lemma length_pair_up l : length (pair_up l) = ((length l + 1) / 2)%nat.
Proof.
  induction l as [|a|a b l IH] using pair_ind; [done|done|]. cbn [pair_up length]. rewrite IH.
  replace (S (S (length l)) + 1)%nat with (length l + 1 + 1 * 2)%nat by lia. rewrite Nat.div_add by lia. lia.
Qed.

Lemma length_pair_up_lt l : (1 < length l)%nat -> (1 <= length (pair_up l) < length l)%nat.
Proof.
  intros H. rewrite length_pair_up. split; [apply Nat.div_le_lower_bound; lia|].
  apply Nat.Div0.div_lt_upper_bound; lia.
Qed.

Lemma at_int_app {A} (pre suf : list A) a i : i = Z.of_nat (length pre) -> at_int (pre ++ a :: suf) i = Ok a.
Proof.
  intros ->. unfold at_int, index_or_abort. rewrite (proj2 (Z.ltb_ge _ _)) by lia.
  by rewrite Nat2Z.id, list_lookup_middle.
Qed.

Lemma at_int_mid {A} (pre l suf : list A) k a i : l !! k = Some a ->
  i = Z.of_nat (length pre) + Z.of_nat k -> at_int (pre ++ l ++ suf) i = Ok a.
Proof.
  intros Hk ->. pose proof (lookup_lt_Some _ _ _ Hk). unfold at_int, index_or_abort.
  rewrite (proj2 (Z.ltb_ge _ _)) by lia. rewrite <- Nat2Z.inj_add, Nat2Z.id, lookup_app_r by lia.
  rewrite lookup_app_l by lia. by replace (length pre + k - length pre)%nat with k by lia; rewrite Hk.
Qed.

(** One level of the tree. *)
Lemma merkle_level_ok rem : forall fuel nSize j i tree mutated pre mid,
  (length rem < fuel)%nat -> tree = pre ++ rem ++ mid -> j + i = Z.of_nat (length pre) -> 0 <= i ->
  nSize = i + Z.of_nat (length rem) ->
  merkle_level fuel nSize j i tree mutated = Ok (tree ++ pair_up rem, mutated || twin_end rem).
Proof.
  induction rem as [|a|a b l IH] using pair_ind; intros fuel nSize j i tree mutated pre mid Hfuel -> Hj Hi Hn;
    (destruct fuel as [|fuel]; [simpl in Hfuel; lia|]); cbn [merkle_level]; cbn [length] in Hn, Hfuel.
  - rewrite (proj2 (Z.ltb_ge _ _)) by lia. by rewrite app_nil_r, orb_false_r.
  - rewrite (proj2 (Z.ltb_lt _ _)) by lia. rewrite Z.min_r by lia. replace (nSize - 1) with i by lia.
    cbn [app]. rewrite at_int_app by lia. mstep. destruct (Z.eqb_spec i (i + 1)); [lia|]. cbn [andb twin_end].
    destruct fuel as [|fuel]; [simpl in *; lia|]. cbn [merkle_level]. rewrite (proj2 (Z.ltb_ge _ _)) by lia. done.
  - rewrite (proj2 (Z.ltb_lt _ _)) by lia. rewrite Z.min_l by lia. cbn [app]. rewrite (at_int_app pre _ a (j + i)) by lia.
    assert (Eb : at_int (pre ++ a :: b :: l ++ mid) (j + (i + 1)) = Ok b).
    { change (a :: b :: l ++ mid) with ([a] ++ b :: l ++ mid). rewrite app_assoc.
      apply at_int_app. rewrite length_app. simpl. lia. }
    mstep. rewrite Eb. mstep. rewrite Z.eqb_refl. cbn [andb].
    rewrite (IH fuel nSize j (i + 2) _ _ (pre ++ [a; b]) (mid ++ [Hash2 a b])); try lia.
    + cbn [pair_up]. rewrite <- app_assoc. cbn [app]. do 2 f_equal. rewrite <- orb_assoc. f_equal.
      cbn [twin_end]. destruct l; cbn [length] in Hn.
      * rewrite (proj2 (Z.eqb_eq _ _)) by lia. cbn. by rewrite orb_false_r.
      * destruct (Z.eqb_spec (i + 1 + 1) nSize); [lia|done].
    + rewrite <- !app_assoc. cbn [app]. by rewrite <- app_assoc.
    + rewrite length_app. simpl. lia.
Qed.

Lemma div2_of_nat n : Z.of_nat ((n + 1) / 2) = (Z.of_nat n + 1) / 2.
Proof. rewrite Nat2Z.inj_div. f_equal. lia. Qed.

Lemma levels_fuel l : forall f, (length l <= f)%nat -> levels f l = levels (length l) l.
Proof.
  induction l as [l IH] using (induction_ltof1 _ (@length _)). unfold ltof in IH. intros f Hf.
  destruct l as [|a l']; [destruct f; done|]. destruct f as [|f]; [simpl in Hf; lia|].
  cbn [levels length]. destruct (decide (S (length l') <= 1)%nat) as [|Hl]; [done|].
  destruct (length_pair_up_lt (a :: l')) as [_ Hlt]; [simpl; lia|]. cbn [length] in Hlt, Hf.
  f_equal. trans (levels (length (pair_up (a :: l'))) (pair_up (a :: l')));
    [|symmetry]; apply IH; cbn [length]; lia.
Qed.

Lemma levels_1 l : (length l <= 1)%nat -> levels (length l) l = [l].
Proof. intros H. destruct l as [|a [|b l]]; [done|done|simpl in H; lia]. Qed.

Lemma levels_S l : (1 < length l)%nat ->
  levels (length l) l = l :: levels (length (pair_up l)) (pair_up l).
Proof.
  intros H. destruct (length_pair_up_lt l H) as [_ Hlt]. destruct l as [|a l']; [simpl in H; lia|].
  cbn [levels length]. cbn [length] in *. destruct (decide _); [lia|]. f_equal. apply levels_fuel. lia.
Qed.

Lemma merkle_levels_ok fuel : forall l pre mutated, (length l < fuel)%nat ->
  merkle_levels fuel (Z.of_nat (length l)) (Z.of_nat (length pre)) (pre ++ l) mutated
  = Ok (pre ++ concat (levels (length l) l), mutated || existsb twin_end (levels (length l) l)).
Proof.
  induction fuel as [|fuel IH]; intros l pre mutated Hf; [lia|]. cbn [merkle_levels].
  destruct (Z.ltb_spec 1 (Z.of_nat (length l))) as [Hl|Hl].
  - rewrite (merkle_level_ok l _ _ _ _ _ _ pre []); [|lia|by rewrite app_nil_r|lia..]. mstep.
    destruct (length_pair_up_lt l) as [_ Hlt]; [lia|].
    rewrite <- div2_of_nat, <- length_pair_up.
    replace (Z.of_nat (length pre) + Z.of_nat (length l)) with (Z.of_nat (length (pre ++ l)))
      by (rewrite length_app; lia).
    rewrite IH by lia. rewrite (levels_S l) by lia. cbn [concat existsb].
    by rewrite <- app_assoc, orb_assoc.
  - rewrite levels_1 by lia. cbn [concat existsb]. destruct l as [|a [|b l]]; [| |simpl in Hl; lia];
      cbn; by rewrite orb_false_r.
Qed.

(** The root a level list ends in. *)
Lemma levels_last_concat l : l <> [] -> exists r, last (levels (length l) l) = Some [r]
  /\ last (concat (levels (length l) l)) = Some r.
Proof.
  induction l as [l IH] using (induction_ltof1 _ (@length _)). unfold ltof in IH. intros Hn.
  destruct (decide (length l <= 1)%nat) as [Hl|Hl].
  - rewrite levels_1 by done. destruct l as [|r [|? ?]]; [done| |simpl in Hl; lia]. by exists r.
  - destruct (length_pair_up_lt l) as [H1 H2]; [lia|].
    destruct (IH (pair_up l)) as (r & E1 & E2); [lia|intros E; rewrite E in H1; simpl in H1; lia|].
    exists r. rewrite (levels_S l) by lia. split.
    + rewrite last_cons, E1. done.
    + cbn [concat]. by rewrite last_app, E2.
Qed.

Lemma BuildMerkleTree_ok txids :
  BuildMerkleTree txids = Ok (merkle_root txids, mutated_list txids, concat (levels (length txids) txids)).
Proof.
  unfold BuildMerkleTree. pose proof (merkle_levels_ok (S (length txids)) txids [] false) as E.
  cbn [length app] in E. change (Z.of_nat 0) with 0 in E. rewrite E by lia. mstep. do 3 f_equal. unfold merkle_root.
  destruct txids as [|t l]; [done|].
  destruct (levels_last_concat (t :: l)) as (r & E1 & E2); [done|]. by rewrite E1, E2.
Qed.

Lemma merkle_root_S l : (1 < length l)%nat -> merkle_root l = merkle_root (pair_up l).
Proof.
  intros H. destruct (length_pair_up_lt l H) as [H1 _].
  destruct (levels_last_concat (pair_up l)) as (r & E & _); [intros E; rewrite E in H1; simpl in H1; lia|].
  unfold merkle_root. rewrite (levels_S l) by done. by rewrite last_cons, E.
Qed.

(** *** Commitment *)

(** The pairs that are hashed for a level and for a whole tree. *)
Fixpoint level_calls (l : list uint256) : list (uint256 * uint256) :=
  match l with
  | [] => []
  | [a] => [(a, a)]
  | a :: b :: l' => (a, b) :: level_calls l'
  end.
Definition merkle_calls (l : list uint256) : list (uint256 * uint256) :=
  levels (length l) l ≫= fun v => if decide (length v <= 1)%nat then [] else level_calls v.

(** A call of the first list and one of the second have different arguments and
    the same hash. *)
Definition collides (c1 c2 : list (uint256 * uint256)) : Prop :=
  Exists (fun x => Exists (fun y => x <> y /\ Hash2 x.1 x.2 = Hash2 y.1 y.2) c2) c1.

Lemma pair_up_calls l : pair_up l = (fun x => Hash2 x.1 x.2) <$> level_calls l.
Proof. induction l as [|a|a b l IH] using pair_ind; [done..|]. cbn. by rewrite IH. Qed.
Lemma merkle_calls_S l : (1 < length l)%nat -> merkle_calls l = level_calls l ++ merkle_calls (pair_up l).
Proof. intros Hl. unfold merkle_calls. rewrite levels_S, bind_cons by done. by rewrite decide_False by lia. Qed.

Lemma collides_mono c1 c2 d1 d2 : c1 ⊆ d1 -> c2 ⊆ d2 -> collides c1 c2 -> collides d1 d2.
Proof.
  intros H1 H2. unfold collides. rewrite !Exists_exists. intros (x & Hx & Hy). exists x. split; [by apply H1|].
  rewrite Exists_exists in Hy |- *. destruct Hy as (y & Hy & E). exists y. split; [by apply H2|done].
Qed.
Lemma collides_app_l c1 c2 d1 d2 : collides c1 c2 -> collides (c1 ++ d1) (c2 ++ d2).
Proof. apply collides_mono; by apply list_subseteq_app_l. Qed.
Lemma collides_app_r c1 c2 d1 d2 : collides c1 c2 -> collides (d1 ++ c1) (d2 ++ c2).
Proof. apply collides_mono; by apply list_subseteq_app_r. Qed.
Lemma calls_inj a b c d c1 c2 : (a, b) ∈ c1 -> (c, d) ∈ c2 -> Hash2 a b = Hash2 c d -> a = c /\ b = d \/ collides c1 c2.
Proof.
  intros H1 H2 E. destruct (decide ((a, b) = (c, d))) as [[= -> ->]|Hn]; [by left|right].
  apply Exists_exists. exists (a, b). split; [done|]. apply Exists_exists. by exists (c, d).
Qed.

Lemma pair_up_inj l1 : forall l2, pair_up l1 = pair_up l2 -> twin_end l1 = false -> twin_end l2 = false ->
  l1 = l2 \/ collides (level_calls l1) (level_calls l2).
Proof.
  induction l1 as [|a|a b l IH] using pair_ind; intros [|c [|d l2]] E T1 T2; cbn [pair_up] in E; try done; cbn [level_calls].
  - by left.
  - injection E as E. destruct (calls_inj a a c c [(a, a)] [(c, c)]) as [[-> _]|]; [set_solver..|done|by left|by right].
  - injection E as E E2. destruct l2 as [|? [|? ?]]; [|done..].
    destruct (calls_inj a a c d [(a, a)] [(c, d)]) as [[-> ->]|]; [set_solver..|done| |by right]. cbn in T2. by rewrite Z.eqb_refl in T2.
  - injection E as E E2. destruct l as [|? [|? ?]]; [|done..].
    destruct (calls_inj a b c c [(a, b)] [(c, c)]) as [[-> ->]|]; [set_solver..|done| |by right]. cbn in T1. by rewrite Z.eqb_refl in T1.
  - injection E as E E2. destruct (calls_inj a b c d ((a, b) :: level_calls l) ((c, d) :: level_calls l2)) as [[-> ->]|]; [set_solver..|done| |by right].
    destruct (IH l2 E2) as [->|]; [| |by left|].
    + cbn [twin_end] in T1. by destruct l.
    + cbn [twin_end] in T2. by destruct l2.
    + right. eapply collides_mono; [| |done]; set_solver.
Qed.

(** The number of levels above the transactions. *)
Definition merkle_height (l : list uint256) : nat := length (levels (length l) l).

Lemma merkle_commits l1 : forall l2, l1 <> [] -> l2 <> [] -> merkle_height l1 = merkle_height l2 ->
  mutated_list l1 = false -> mutated_list l2 = false -> merkle_root l1 = merkle_root l2 ->
  l1 = l2 \/ collides (merkle_calls l1) (merkle_calls l2).
Proof.
  induction l1 as [l1 IH] using (induction_ltof1 _ (@length _)). unfold ltof in IH.
  intros l2 N1 N2 Hh M1 M2 E. unfold merkle_height, mutated_list in Hh, M1, M2.
  destruct (decide (length l1 <= 1)%nat) as [L1|L1], (decide (length l2 <= 1)%nat) as [L2|L2].
  - destruct l1 as [|a [|? ?]], l2 as [|b [|? ?]]; simpl in L1, L2; try lia; try done.
    left. unfold merkle_root in E. rewrite !levels_1 in E by (simpl; lia). cbn in E. by rewrite E.
  - rewrite levels_1, levels_S in Hh by lia. injection Hh as Hh. exfalso. symmetry in Hh. revert Hh.
    by destruct (levels _ _) eqn:?, (length (pair_up l2)); cbn [levels] in *; try done; destruct (decide _).
  - rewrite (levels_1 l2), (levels_S l1) in Hh by lia. injection Hh as Hh. exfalso. revert Hh.
    by destruct (levels _ _) eqn:?, (length (pair_up l1)); cbn [levels] in *; try done; destruct (decide _).
  - rewrite (levels_S l1), (levels_S l2) in Hh by lia. injection Hh as Hh.
    rewrite (levels_S l1) in M1 by lia. rewrite (levels_S l2) in M2 by lia. cbn [existsb] in M1, M2. zbool.
    rewrite (merkle_root_S l1), (merkle_root_S l2) in E by lia.
    destruct (length_pair_up_lt l1) as [P1 Q1]; [lia|]. destruct (length_pair_up_lt l2) as [P2 Q2]; [lia|].
    destruct (IH (pair_up l1) Q1 (pair_up l2)) as [Ep|]; try done.
    + intros E'. rewrite E' in P1. simpl in P1. lia.
    + intros E'. rewrite E' in P2. simpl in P2. lia.
    + rewrite (merkle_calls_S l1), (merkle_calls_S l2) by lia. destruct (pair_up_inj l1 l2) as [->|]; [done..|by left|right].
      by apply collides_app_l.
    + right. rewrite (merkle_calls_S l1), (merkle_calls_S l2) by lia. by apply collides_app_r.
Qed.

(** (C33) Two transaction lists of the same tree height with the same Merkle root,
    neither reported as mutated, are the same list, or a pair that was hashed
    for the first root and another one that was hashed for the second have the
    same hash. *)
Theorem BuildMerkleTree_commits (l1 l2 : list uint256) (r : uint256) (t1 t2 : list uint256)
  (N1 : l1 <> []) (N2 : l2 <> []) (Hh : merkle_height l1 = merkle_height l2)
  (B1 : BuildMerkleTree l1 = Ok (r, false, t1)) (B2 : BuildMerkleTree l2 = Ok (r, false, t2)) :
  l1 = l2 \/ collides (merkle_calls l1) (merkle_calls l2).
Proof.
  rewrite BuildMerkleTree_ok in B1, B2. injection B1 as R1 M1 _. injection B2 as R2 M2 _.
  apply merkle_commits; congruence.
Qed.

(** *** Branches *)

(** The sibling of a node in its level; the last node of an odd level is its
    own sibling. *)
Definition sibling (n i : nat) : nat := if Nat.odd i then (i - 1)%nat else Nat.min (i + 1) (n - 1).

Lemma pair_up_lookup l : forall i a, l !! i = Some a ->
  exists s, l !! sibling (length l) i = Some s
    /\ pair_up l !! (i / 2)%nat = Some (if Nat.odd i then Hash2 s a else Hash2 a s).
Proof.
  induction l as [|b|b c l IH] using pair_ind; intros i a Hi.
  - done.
  - destruct i; [|done]. injection Hi as <-. by exists b.
  - destruct i as [|[|i]].
    + injection Hi as <-. exists c. unfold sibling. split; [|done]. cbn [length].
      by rewrite Nat.min_l by lia.
    + injection Hi as <-. by exists b.
    + cbn in Hi. destruct (IH i a Hi) as (s & Es & Ep). exists s.
      replace (S (S i) / 2)%nat with (S (i / 2)).
      2: { replace (S (S i)) with (i + 1 * 2)%nat by lia. rewrite Nat.div_add; lia. }
      change (Nat.odd (S (S i))) with (Nat.odd i). split; [|exact Ep].
      apply lookup_lt_Some in Hi. rewrite <- Es. unfold sibling. change (Nat.odd (S (S i))) with (Nat.odd i).
      destruct (Nat.odd i) eqn:Eo; cbn [length].
      * destruct i; [done|]. replace (S (S (S i)) - 1)%nat with (S (S (S i - 1))) by lia. done.
      * replace (Nat.min (S (S i) + 1) (S (S (length l)) - 1)) with (S (S (Nat.min (i + 1) (length l - 1)))) by lia.
        done.
Qed.

Lemma lxor_1_even k : 0 <= k -> Z.lxor (2 * k) 1 = 2 * k + 1.
Proof.
  intros Hk. apply Z.bits_inj'. intros m Hm. rewrite Z.lxor_spec. change 1 with (2 * 0 + 1) at 1.
  destruct (Z.eq_dec m 0) as [->|]; [by rewrite Z.testbit_even_0, !Z.testbit_odd_0|].
  replace m with (Z.succ (m - 1)) by lia.
  rewrite !Z.testbit_odd_succ, Z.testbit_even_succ by lia. by rewrite Z.bits_0, xorb_false_r.
Qed.
Lemma lxor_1_odd k : 0 <= k -> Z.lxor (2 * k + 1) 1 = 2 * k.
Proof. intros Hk. by rewrite <- lxor_1_even, Z.lxor_assoc, Z.lxor_nilpotent, Z.lxor_0_r by done. Qed.

Lemma sibling_xor (n i : nat) : (1 < n)%nat -> (i < n)%nat ->
  Z.min (Z.lxor (Z.of_nat i) 1) (Z.of_nat n - 1) = Z.of_nat (sibling n i).
Proof.
  intros Hn Hi. unfold sibling. destruct (Nat.odd i) eqn:Eo.
  - apply Nat.odd_spec in Eo as [k ->]. replace (Z.of_nat (2 * k + 1)) with (2 * Z.of_nat k + 1) by lia.
    rewrite lxor_1_odd; lia.
  - assert (Ee : Nat.even i = true) by (by rewrite <- Nat.negb_odd, Eo).
    apply Nat.even_spec in Ee as [k ->]. replace (Z.of_nat (2 * k)) with (2 * Z.of_nat k) by lia.
    rewrite lxor_1_even; lia.
Qed.

Lemma index_bit (i : nat) : negb (Z.land (Z.of_nat i) 1 =? 0) = Nat.odd i.
Proof.
  change 1 with (Z.ones 1). rewrite Z.land_ones by lia. change (2 ^ 1) with 2. destruct (Nat.odd i) eqn:Eo.
  - apply Nat.odd_spec in Eo as [k ->]. replace (Z.of_nat (2 * k + 1)) with (1 + Z.of_nat k * 2) by lia.
    by rewrite Z.mod_add by lia.
  - assert (Ee : Nat.even i = true) by (by rewrite <- Nat.negb_odd, Eo).
    apply Nat.even_spec in Ee as [k ->]. replace (Z.of_nat (2 * k)) with (Z.of_nat k * 2) by lia.
    by rewrite Z.mod_mul by lia.
Qed.

Lemma branch_loop_ok fuel : forall l pre i a acc, (length l < fuel)%nat -> l !! i = Some a ->
  exists br, branch_loop fuel (pre ++ concat (levels (length l) l)) (Z.of_nat i) (Z.of_nat (length l))
      (Z.of_nat (length pre)) acc = Ok (acc ++ br)
    /\ check_branch_loop a br (Z.of_nat i) = merkle_root l.
Proof.
  induction fuel as [|fuel IH]; intros l pre i a acc Hf Hi; [lia|]. cbn [branch_loop].
  pose proof (lookup_lt_Some _ _ _ Hi) as Hlt. destruct (Z.ltb_spec 1 (Z.of_nat (length l))) as [Hl|Hl].
  - rewrite sibling_xor by lia. destruct (pair_up_lookup l i a Hi) as (s & Es & Ep).
    destruct (length_pair_up_lt l) as [_ Hlt']; [lia|].
    rewrite (levels_S l) by lia. cbn [concat].
    assert (Ea : at_int (pre ++ l ++ concat (levels (length (pair_up l)) (pair_up l)))
                   (Z.of_nat (length pre) + Z.of_nat (sibling (length l) i)) = Ok s).
    { by eapply at_int_mid. }
    rewrite Ea. mstep. rewrite <- div2_of_nat, <- length_pair_up.
    replace (Z.shiftr (Z.of_nat i) 1) with (Z.of_nat (i / 2))
      by (rewrite Z.shiftr_div_pow2, Nat2Z.inj_div by lia; done).
    replace (Z.of_nat (length pre) + Z.of_nat (length l)) with (Z.of_nat (length (pre ++ l)))
      by (rewrite length_app; lia).
    rewrite app_assoc. destruct (IH (pair_up l) (pre ++ l) (i / 2)%nat _ (acc ++ [s]) ltac:(lia) Ep)
      as (br & Eb & Ec).
    exists (s :: br). rewrite Eb, <- app_assoc. split; [done|]. rewrite merkle_root_S by lia. rewrite <- Ec.
    cbn [check_branch_loop]. rewrite index_bit. f_equal.
    rewrite Z.shiftr_div_pow2, Nat2Z.inj_div by lia. done.
  - exists []. rewrite app_nil_r. split; [done|]. unfold merkle_root. rewrite levels_1 by lia.
    destruct l as [|b [|? ?]]; [done| |simpl in Hl; lia]. destruct i; [|done]. by injection Hi as ->.
Qed.

(** The branch [GetMerkleBranch] returns for the transaction at [nIndex],
    from the cached tree or a fresh one, checks to the root
    [BuildMerkleTree] returns. *)
Theorem CheckMerkleBranch_correct (txids : list uint256) (i : nat) (txid : uint256)
  (Hi : txids !! i = Some txid) :
  exists root mutated tree br,
    BuildMerkleTree txids = Ok (root, mutated, tree)
    /\ GetMerkleBranch txids [] (Z.of_nat i) = Ok br /\ GetMerkleBranch txids tree (Z.of_nat i) = Ok br
    /\ CheckMerkleBranch txid br (Z.of_nat i) = root.
Proof.
  destruct (branch_loop_ok (S (length txids)) txids [] i txid [] ltac:(lia) Hi) as (br & Eb & Ec).
  cbn [app length] in Eb. change (Z.of_nat 0) with 0 in Eb. eexists _, _, _, br.
  unfold GetMerkleBranch, CheckMerkleBranch. rewrite BuildMerkleTree_ok. split; [done|].
  rewrite (proj2 (Z.eqb_neq _ _)) by lia. split_and!; [exact Eb| |exact Ec].
  case_bool_decide; exact Eb.
Qed.
End Merkle.

Definition test_hash (a b : uint256) : uint256 := 3 * a + 5 * b + 1.

(** The example of the comment in [BuildMerkleTree]: repeating the last two of
    six transactions keeps the root and is reported. *)
Example duplicated_transactions_detected :
  exists root t1 t2, BuildMerkleTree test_hash [1; 2; 3; 4; 5; 6] = Ok (root, false, t1)
    /\ BuildMerkleTree test_hash [1; 2; 3; 4; 5; 6; 5; 6] = Ok (root, true, t2).
Proof. eexists _, _, _. split; vm_compute; reflexivity. Qed.

(** [test_hash] takes (7, 8) and (12, 5) to the same value, and the theorem
    finds these two calls. *)
Lemma BuildMerkleTree_commits_witness :
  BuildMerkleTree test_hash [7; 8; 9] = Ok (552, false, [7; 8; 9; 62; 73; 552])
  /\ BuildMerkleTree test_hash [12; 5; 9] = Ok (552, false, [12; 5; 9; 62; 73; 552])
  /\ collides test_hash (merkle_calls test_hash [7; 8; 9]) (merkle_calls test_hash [12; 5; 9]).
Proof.
  split; [by vm_compute|]. split; [by vm_compute|].
  destruct (BuildMerkleTree_commits test_hash [7; 8; 9] [12; 5; 9] 552 [7; 8; 9; 62; 73; 552] [12; 5; 9; 62; 73; 552]);
    by vm_compute.
Defined.

Lemma CheckMerkleBranch_correct_witness :
  exists root mutated tree br,
    BuildMerkleTree test_hash [7; 8; 9] = Ok (root, mutated, tree)
    /\ GetMerkleBranch test_hash [7; 8; 9] [] 2 = Ok br /\ GetMerkleBranch test_hash [7; 8; 9] tree 2 = Ok br
    /\ CheckMerkleBranch test_hash 9 br 2 = root.
Proof. apply (CheckMerkleBranch_correct test_hash [7; 8; 9] 2 9). reflexivity. Defined.
