(* ===== verification/Chain.v ===== *)
(** * The block index and the active chain

    chain.{h,cpp}: [CBlockFileInfo], [CDiskBlockPos], [CBlockIndex] with its
    skip list, and [CChain], the vector of the blocks of one branch.

    Block index entries live in [mapBlockIndex], keyed by block hash, and are
    never removed from it; a pointer to an entry is modelled by its key
    ([*phashBlock]), a null pointer by [None].  Following a pointer that is
    not in the map is [Abort]. *)
From stdpp Require Import prelude gmap strings list sorting.
From S2P Require Import Prelude Transaction Serialize Block ArithUint256.
#[local] Open Scope Z_scope.

Definition SPROUT_VALUE_VERSION : Z := 1001400.
Definition SAPLING_VALUE_VERSION : Z := 2010100.
Definition MAX_FUTURE_BLOCK_TIME_MTP : Z := 90 * 60.
Definition MAX_FUTURE_BLOCK_TIME_LOCAL : Z := 2 * 60 * 60.
Definition TIMESTAMP_WINDOW : Z := MAX_FUTURE_BLOCK_TIME_LOCAL + 60.

(** ** Block files *)

Record CBlockFileInfo := mkFileInfo {
  fi_nBlocks : Z;
  fi_nSize : Z;
  fi_nUndoSize : Z;
  fi_nHeightFirst : Z;
  fi_nHeightLast : Z;
  fi_nTimeFirst : Z;
  fi_nTimeLast : Z
}.

Definition CBlockFileInfo_SetNull : CBlockFileInfo := mkFileInfo 0 0 0 0 0 0 0.

Definition CBlockFileInfo_AddBlock (f : CBlockFileInfo) (nHeightIn nTimeIn : Z) : CBlockFileInfo :=
  mkFileInfo (u32 (fi_nBlocks f + 1)) (fi_nSize f) (fi_nUndoSize f)
    (if (fi_nBlocks f =? 0) || (nHeightIn <? fi_nHeightFirst f) then nHeightIn else fi_nHeightFirst f)
    (if fi_nHeightLast f <? nHeightIn then nHeightIn else fi_nHeightLast f)
    (if (fi_nBlocks f =? 0) || (nTimeIn <? fi_nTimeFirst f) then nTimeIn else fi_nTimeFirst f)
    (if fi_nTimeLast f <? nTimeIn then nTimeIn else fi_nTimeLast f).

Definition ser_CBlockFileInfo (f : CBlockFileInfo) : writer :=
  WriteVarInt 32 (fi_nBlocks f) ⧺ WriteVarInt 32 (fi_nSize f) ⧺ WriteVarInt 32 (fi_nUndoSize f)
  ⧺ WriteVarInt 32 (fi_nHeightFirst f) ⧺ WriteVarInt 32 (fi_nHeightLast f)
  ⧺ WriteVarInt 64 (fi_nTimeFirst f) ⧺ WriteVarInt 64 (fi_nTimeLast f).
Definition unser_CBlockFileInfo : reader CBlockFileInfo :=
  a ← ReadVarInt u32; b ← ReadVarInt u32; c ← ReadVarInt u32; d ← ReadVarInt u32; e ← ReadVarInt u32;
  f ← ReadVarInt u64; g ← ReadVarInt u64;
  mret (mkFileInfo a b c d e f g).

Record CDiskBlockPos := mkDiskPos { dp_nFile : Z; dp_nPos : Z }.
#[global] Instance CDiskBlockPos_eq_dec : EqDecision CDiskBlockPos.
Proof. solve_decision. Defined.
Definition CDiskBlockPos_SetNull : CDiskBlockPos := mkDiskPos (-1) 0.
Definition CDiskBlockPos_IsNull (p : CDiskBlockPos) : bool := dp_nFile p =? -1.
Definition ser_CDiskBlockPos (p : CDiskBlockPos) : writer := WriteVarInt 32 (dp_nFile p) ⧺ WriteVarInt 32 (dp_nPos p).
Definition unser_CDiskBlockPos : reader CDiskBlockPos :=
  f ← ReadVarInt i32; p ← ReadVarInt u32; mret (mkDiskPos f p).

(** ** [BlockStatus] *)

Definition BLOCK_VALID_UNKNOWN : Z := 0.
Definition BLOCK_VALID_HEADER : Z := 1.
Definition BLOCK_VALID_TREE : Z := 2.
Definition BLOCK_VALID_TRANSACTIONS : Z := 3.
Definition BLOCK_VALID_CHAIN : Z := 4.
Definition BLOCK_VALID_SCRIPTS : Z := 5.
Definition BLOCK_VALID_MASK : Z :=
  Z.lor (Z.lor (Z.lor (Z.lor BLOCK_VALID_HEADER BLOCK_VALID_TREE) BLOCK_VALID_TRANSACTIONS) BLOCK_VALID_CHAIN)
    BLOCK_VALID_SCRIPTS.
Definition BLOCK_HAVE_DATA : Z := 8.
Definition BLOCK_HAVE_UNDO : Z := 16.
Definition BLOCK_HAVE_MASK : Z := Z.lor BLOCK_HAVE_DATA BLOCK_HAVE_UNDO.
Definition BLOCK_FAILED_VALID : Z := 32.
Definition BLOCK_FAILED_CHILD : Z := 64.
Definition BLOCK_FAILED_MASK : Z := Z.lor BLOCK_FAILED_VALID BLOCK_FAILED_CHILD.
Definition BLOCK_ACTIVATES_UPGRADE : Z := 128.
Definition BLOCK_VALID_CONSENSUS : Z := BLOCK_VALID_SCRIPTS.

(** [nStatus & mask], as a condition. *)
Definition has_status (nStatus mask : Z) : bool := negb (Z.land nStatus mask =? 0).

(** ** Block index entries *)

Record CBlockIndex := mkIndex {
  bi_pprev : option uint256;
  bi_pskip : option uint256;
  bi_nHeight : Z;
  bi_nFile : Z;
  bi_nDataPos : Z;
  bi_nUndoPos : Z;
  bi_nChainWork : base_uint;
  bi_nTx : Z;
  bi_nChainTx : Z;
  bi_nStatus : Z;
  bi_nCachedBranchId : option Z;
  bi_hashSproutAnchor : uint256;
  bi_hashFinalSproutRoot : uint256;
  bi_nSproutValue : option Z;
  bi_nChainSproutValue : option Z;
  bi_nSaplingValue : Z;
  bi_nChainSaplingValue : option Z;
  bi_nVersion : Z;
  bi_hashMerkleRoot : uint256;
  bi_hashFinalSaplingRoot : uint256;
  bi_nTime : Z;
  bi_nBits : Z;
  bi_nNonce : uint256;
  bi_nSolution : bytes;
  bi_nSequenceId : Z
}.

Definition CBlockIndex_SetNull : CBlockIndex :=
  mkIndex None None 0 0 0 0 bu_zero 0 0 0 None uint256_null uint256_null None None 0 None
    0 uint256_null uint256_null 0 0 uint256_null [] 0.

(** [CBlockIndex(const CBlockHeader&)]. *)
Definition CBlockIndex_of_header (block : CBlockHeader) : CBlockIndex :=
  mkIndex None None 0 0 0 0 bu_zero 0 0 0 None uint256_null uint256_null None None 0 None
    (h_nVersion block) (hashMerkleRoot block) (hashFinalSaplingRoot block) (h_nTime block) (nBits block)
    (nNonce block) (nSolution block) 0.

Definition bi_with_pskip (b : CBlockIndex) (p : option uint256) : CBlockIndex :=
  mkIndex (bi_pprev b) p (bi_nHeight b) (bi_nFile b) (bi_nDataPos b) (bi_nUndoPos b) (bi_nChainWork b)
    (bi_nTx b) (bi_nChainTx b) (bi_nStatus b) (bi_nCachedBranchId b) (bi_hashSproutAnchor b)
    (bi_hashFinalSproutRoot b) (bi_nSproutValue b) (bi_nChainSproutValue b) (bi_nSaplingValue b)
    (bi_nChainSaplingValue b) (bi_nVersion b) (bi_hashMerkleRoot b) (bi_hashFinalSaplingRoot b) (bi_nTime b)
    (bi_nBits b) (bi_nNonce b) (bi_nSolution b) (bi_nSequenceId b).

Definition bi_with_status (b : CBlockIndex) (s : Z) : CBlockIndex :=
  mkIndex (bi_pprev b) (bi_pskip b) (bi_nHeight b) (bi_nFile b) (bi_nDataPos b) (bi_nUndoPos b) (bi_nChainWork b)
    (bi_nTx b) (bi_nChainTx b) s (bi_nCachedBranchId b) (bi_hashSproutAnchor b)
    (bi_hashFinalSproutRoot b) (bi_nSproutValue b) (bi_nChainSproutValue b) (bi_nSaplingValue b)
    (bi_nChainSaplingValue b) (bi_nVersion b) (bi_hashMerkleRoot b) (bi_hashFinalSaplingRoot b) (bi_nTime b)
    (bi_nBits b) (bi_nNonce b) (bi_nSolution b) (bi_nSequenceId b).

Definition GetBlockPos (b : CBlockIndex) : CDiskBlockPos :=
  if has_status (bi_nStatus b) BLOCK_HAVE_DATA then mkDiskPos (bi_nFile b) (bi_nDataPos b) else CDiskBlockPos_SetNull.
Definition GetUndoPos (b : CBlockIndex) : CDiskBlockPos :=
  if has_status (bi_nStatus b) BLOCK_HAVE_UNDO then mkDiskPos (bi_nFile b) (bi_nUndoPos b) else CDiskBlockPos_SetNull.

Definition CBlockIndex_GetBlockHeader (b : CBlockIndex) : CBlockHeader :=
  mkHeader (bi_nVersion b) (default uint256_null (bi_pprev b)) (bi_hashMerkleRoot b) (bi_hashFinalSaplingRoot b)
    (bi_nTime b) (bi_nBits b) (bi_nNonce b) (bi_nSolution b).

Definition CBlockIndex_GetBlockTime (b : CBlockIndex) : Z := bi_nTime b.

(** [assert(!(nUpTo & ~BLOCK_VALID_MASK))]. *)
Definition assert_validity_level (nUpTo : Z) : result unit :=
  assert_true (Z.land nUpTo (u32 (Z.lnot BLOCK_VALID_MASK)) =? 0).

Definition CBlockIndex_IsValid (b : CBlockIndex) (nUpTo : Z) : result bool :=
  _ ← assert_validity_level nUpTo;
  if has_status (bi_nStatus b) BLOCK_FAILED_MASK then Ok false
  else Ok (nUpTo <=? Z.land (bi_nStatus b) BLOCK_VALID_MASK).

Definition RaiseValidity (b : CBlockIndex) (nUpTo : Z) : result (bool * CBlockIndex) :=
  _ ← assert_validity_level nUpTo;
  if has_status (bi_nStatus b) BLOCK_FAILED_MASK then Ok (false, b)
  else if Z.land (bi_nStatus b) BLOCK_VALID_MASK <? nUpTo
  then Ok (true, bi_with_status b (Z.lor (Z.land (bi_nStatus b) (u32 (Z.lnot BLOCK_VALID_MASK))) nUpTo))
  else Ok (false, b).

(** ** The block tree *)

Abbreviation BlockMap := (gmap uint256 CBlockIndex).

(** Dereferencing a pointer. *)
Definition deref (m : BlockMap) (p : uint256) : result CBlockIndex :=
  match m !! p with Some b => Ok b | None => Abort end.

(** [GetMedianTimePast]: the times of the block and of up to ten
    predecessors, sorted. *)
Definition nMedianTimeSpan : nat := 11.
Fixpoint past_times (n : nat) (m : BlockMap) (p : option uint256) : result (list Z) :=
  match n, p with
  | S n', Some h => b ← deref m h; l ← past_times n' m (bi_pprev b); Ok (CBlockIndex_GetBlockTime b :: l)
  | _, _ => Ok []
  end.
Definition GetMedianTimePast (m : BlockMap) (h : uint256) : result Z :=
  l ← past_times nMedianTimeSpan m (Some h);
  index_or_abort (merge_sort Z.le l) (length l / 2).

(** ** The skip list *)

Definition InvertLowestOne (n : Z) : Z := Z.land n (n - 1).

Definition GetSkipHeight (height : Z) : Z :=
  if height <? 2 then 0
  else if negb (Z.land height 1 =? 0) then InvertLowestOne (InvertLowestOne (height - 1)) + 1
  else InvertLowestOne height.

(** [while (heightWalk > height)]: every round goes down at least by one. *)
Fixpoint ancestor_walk (fuel : nat) (m : BlockMap) (pindexWalk : uint256) (heightWalk height : Z) : result uint256 :=
  if negb (height <? heightWalk) then Ok pindexWalk
  else match fuel with
  | O => Abort
  | S fuel' =>
      b ← deref m pindexWalk;
      let heightSkip := GetSkipHeight heightWalk in
      let heightSkipPrev := GetSkipHeight (heightWalk - 1) in
      match bi_pskip b with
      | Some s =>
          if (heightSkip =? height)
             || ((height <? heightSkip) && negb ((heightSkipPrev <? heightSkip - 2) && (height <=? heightSkipPrev)))
          then ancestor_walk fuel' m s heightSkip height
          else match bi_pprev b with
               | Some p => ancestor_walk fuel' m p (heightWalk - 1) height
               | None => Abort
               end
      | None => match bi_pprev b with
                | Some p => ancestor_walk fuel' m p (heightWalk - 1) height
                | None => Abort
                end
      end
  end.

(** [p->GetAncestor(height)]. *)
Definition GetAncestor (m : BlockMap) (p : uint256) (height : Z) : result (option uint256) :=
  b ← deref m p;
  if (bi_nHeight b <? height) || (height <? 0) then Ok None
  else r ← ancestor_walk (Z.to_nat (bi_nHeight b - height)) m p (bi_nHeight b) height; Ok (Some r).

(** [p->BuildSkip()], which updates the entry of [p]. *)
Definition BuildSkip (m : BlockMap) (p : uint256) : result BlockMap :=
  b ← deref m p;
  match bi_pprev b with
  | None => Ok m
  | Some q => s ← GetAncestor m q (GetSkipHeight (bi_nHeight b)); Ok (<[p := bi_with_pskip b s]> m)
  end.

(** ** The active chain *)

(** [vChain]: [None] is a null pointer. *)
Abbreviation CChain := (list (option uint256)).

Definition CChain_Genesis (c : CChain) : option uint256 := default None (c !! 0%nat).
Definition CChain_Tip (c : CChain) : option uint256 := default None (last c).
Definition CChain_at (c : CChain) (nHeight : Z) : option uint256 :=
  if (nHeight <? 0) || (Z.of_nat (length c) <=? nHeight) then None else default None (c !! Z.to_nat nHeight).
(** [operator==], on non-empty chains. *)
Definition CChain_eq (a b : CChain) : bool :=
  (length a =? length b)%nat && bool_decide (last a = last b).
Definition CChain_Contains (m : BlockMap) (c : CChain) (p : uint256) : result bool :=
  b ← deref m p; Ok (bool_decide (CChain_at c (bi_nHeight b) = Some p)).
Definition CChain_Next (m : BlockMap) (c : CChain) (p : uint256) : result (option uint256) :=
  b ← deref m p;
  if bool_decide (CChain_at c (bi_nHeight b) = Some p) then Ok (CChain_at c (bi_nHeight b + 1)) else Ok None.
Definition CChain_Height (c : CChain) : Z := Z.of_nat (length c) - 1.

(** [vector::resize]. *)
Definition chain_resize (c : CChain) (n : nat) : CChain := take n c ++ replicate (n - length c) None.

(** [while (pindex && vChain[pindex->nHeight] != pindex)]: the heights go
    down from the tip, one round per block. *)
Fixpoint set_tip_loop (fuel : nat) (m : BlockMap) (c : CChain) (pindex : option uint256) : result CChain :=
  match pindex with
  | None => Ok c
  | Some p =>
      b ← deref m p;
      old ← index_or_abort c (Z.to_nat (bi_nHeight b));
      if bool_decide (old = Some p) then Ok c
      else match fuel with
           | O => Abort
           | S fuel' => set_tip_loop fuel' m (<[Z.to_nat (bi_nHeight b) := Some p]> c) (bi_pprev b)
           end
  end.
Definition CChain_SetTip (m : BlockMap) (c : CChain) (pindex : option uint256) : result CChain :=
  match pindex with
  | None => Ok []
  | Some p =>
      b ← deref m p;
      let n := Z.to_nat (bi_nHeight b + 1) in
      set_tip_loop n m (chain_resize c n) (Some p)
  end.

(** [GetLocator]: [while (pindex)], one round per step back. *)
Fixpoint locator_loop (fuel : nat) (m : BlockMap) (c : CChain) (nStep : Z) (vHave : list uint256)
  (pindex : option uint256) : result (list uint256) :=
  match pindex with
  | None => Ok vHave
  | Some p =>
      match fuel with
      | O => Abort
      | S fuel' =>
          b ← deref m p;
          let vHave := vHave ++ [p] in
          if bi_nHeight b =? 0 then Ok vHave
          else
            let nHeight := Z.max (bi_nHeight b - nStep) 0 in
            next ← (if bool_decide (CChain_at c (bi_nHeight b) = Some p) then Ok (CChain_at c nHeight)
                    else GetAncestor m p nHeight);
            let nStep := if (10 <? length vHave)%nat then i32 (nStep * 2) else nStep in
            locator_loop fuel' m c nStep vHave next
      end
  end.
(** [CChain::GetLocator(pindex)]; the locator is its list of hashes. *)
Definition CChain_GetLocator (m : BlockMap) (c : CChain) (pindex : option uint256) : result (list uint256) :=
  match (match pindex with Some p => Some p | None => CChain_Tip c end) with
  | None => Ok []
  | Some p => b ← deref m p; locator_loop (S (Z.to_nat (bi_nHeight b))) m c 1 [] (Some p)
  end.

(** [while (pindex && !Contains(pindex)) pindex = pindex->pprev]. *)
Fixpoint fork_loop (fuel : nat) (m : BlockMap) (c : CChain) (pindex : option uint256) : result (option uint256) :=
  match pindex with
  | None => Ok None
  | Some p =>
      b ← deref m p;
      if bool_decide (CChain_at c (bi_nHeight b) = Some p) then Ok (Some p)
      else match fuel with
           | O => Abort
           | S fuel' => fork_loop fuel' m c (bi_pprev b)
           end
  end.
Definition CChain_FindFork (m : BlockMap) (c : CChain) (p : uint256) : result (option uint256) :=
  b ← deref m p;
  start ← (if CChain_Height c <? bi_nHeight b then GetAncestor m p (CChain_Height c) else Ok (Some p));
  fork_loop (S (Z.to_nat (bi_nHeight b))) m c start.

(** ** Well-formed block trees *)

(** Following [pprev] [n] times. *)
Fixpoint prev_n (n : nat) (m : BlockMap) (p : uint256) : option uint256 :=
  match n with
  | O => Some p
  | S n' => b ← m !! p; q ← bi_pprev b; prev_n n' m q
  end.

(** The ancestor of a block at a height, by definition. *)
Definition ancestor_at (m : BlockMap) (p : uint256) (height : Z) : option uint256 :=
  b ← m !! p; if (0 <=? height) && (height <=? bi_nHeight b) then prev_n (Z.to_nat (bi_nHeight b - height)) m p else None.

(** Heights count the predecessors, predecessors are in the map, and a skip
    pointer that is set points to the ancestor at the skip height. *)
Record tree_wf (m : BlockMap) : Prop := {
  tw_height : forall p b, m !! p = Some b -> 0 <= bi_nHeight b;
  tw_prev : forall p b, m !! p = Some b ->
    match bi_pprev b with
    | None => bi_nHeight b = 0
    | Some q => exists b', m !! q = Some b' /\ bi_nHeight b = bi_nHeight b' + 1
    end;
  tw_skip : forall p b s, m !! p = Some b -> bi_pskip b = Some s ->
    ancestor_at m p (GetSkipHeight (bi_nHeight b)) = Some s
}.

Lemma prev_n_add i j m p : prev_n (i + j) m p = q ← prev_n i m p; prev_n j m q.
Proof.
  revert p. induction i as [|i IH]; intros p; [done|]. cbn [Nat.add prev_n].
  destruct (m !! p) as [b|]; [|done]. cbn. destruct (bi_pprev b) as [q|]; [|done]. cbn. apply IH.
Qed.

Lemma InvertLowestOne_lt n : 0 < n -> 0 <= InvertLowestOne n < n.
Proof.
  intros Hn. unfold InvertLowestOne. assert (0 <= Z.land n (n - 1)) by (apply Z.land_nonneg; lia). split; [done|].
  destruct (Z.le_gt_cases n (Z.land n (n - 1))) as [Hle|]; [|done]. exfalso.
  assert (E : Z.land n (n - 1) + Z.ldiff (n - 1) n = n - 1).
  { rewrite (Z.land_comm n). rewrite Z.add_nocarry_lxor.
    - rewrite Z.lxor_lor; [|].
      + apply Z.bits_inj'. intros k Hk. rewrite Z.lor_spec, Z.land_spec, Z.ldiff_spec.
        destruct (Z.testbit n k), (Z.testbit (n - 1) k); done.
      + apply Z.bits_inj'. intros k Hk. rewrite !Z.land_spec, Z.ldiff_spec, Z.bits_0.
        destruct (Z.testbit n k), (Z.testbit (n - 1) k); done.
    - apply Z.bits_inj'. intros k Hk. rewrite !Z.land_spec, Z.ldiff_spec, Z.bits_0.
      destruct (Z.testbit n k), (Z.testbit (n - 1) k); done. }
  assert (0 <= Z.ldiff (n - 1) n) by (apply Z.ldiff_nonneg; lia). lia.
Qed.

Lemma GetSkipHeight_lt h : 1 <= h -> 0 <= GetSkipHeight h < h.
Proof.
  intros Hh. unfold GetSkipHeight. destruct (Z.ltb_spec h 2); [lia|].
  destruct (negb (Z.land h 1 =? 0)) eqn:E; [|by apply InvertLowestOne_lt; lia].
  assert (h <> 2) by (intros ->; done). pose proof (InvertLowestOne_lt (h - 1)).
  destruct (decide (InvertLowestOne (h - 1) = 0)) as [->|]; [by change (InvertLowestOne 0) with 0; lia|].
  pose proof (InvertLowestOne_lt (InvertLowestOne (h - 1))). lia.
Qed.

Section Tree.
Context (m : BlockMap) (W : tree_wf m).

Lemma prev_n_exists n : forall p b, m !! p = Some b -> Z.of_nat n <= bi_nHeight b ->
  exists q b', prev_n n m p = Some q /\ m !! q = Some b' /\ bi_nHeight b' = bi_nHeight b - Z.of_nat n.
Proof using W.
  induction n as [|n IH]; intros p b Hp Hn; [exists p, b; split_and!; [done|done|lia]|].
  cbn [prev_n]. rewrite Hp. cbn. pose proof (tw_prev m W p b Hp) as Hq.
  destruct (bi_pprev b) as [q|]; [|lia]. destruct Hq as (b' & Hq & Hh). cbn.
  destruct (IH q b' Hq) as (r & b'' & H1 & H2 & H3); [lia|]. exists r, b''. split_and!; [done..|lia].
Qed.

Lemma prev_n_height n p b q : m !! p = Some b -> prev_n n m p = Some q ->
  Z.of_nat n <= bi_nHeight b /\ exists b', m !! q = Some b' /\ bi_nHeight b' = bi_nHeight b - Z.of_nat n.
Proof using W.
  revert p b. induction n as [|n IH]; intros p b Hp Hq.
  - injection Hq as <-. split; [pose proof (tw_height m W _ _ Hp); lia|]. exists b. split; [done|lia].
  - cbn [prev_n] in Hq. rewrite Hp in Hq. cbn in Hq. pose proof (tw_prev m W p b Hp) as Hpr.
    destruct (bi_pprev b) as [r|]; [|done]. destruct Hpr as (b1 & Hr & Hh). cbn in Hq.
    destruct (IH r b1 Hr Hq) as (H1 & b' & H2 & H3). split; [lia|]. exists b'. split; [done|lia].
Qed.

Lemma ancestor_prev p b h n : m !! p = Some b -> 0 <= h -> h = bi_nHeight b - Z.of_nat n ->
  ancestor_at m p h = prev_n n m p.
Proof using W.
  intros Hp Hh ->. unfold ancestor_at. rewrite Hp. cbn. rewrite (proj2 (Z.leb_le 0 _)), (proj2 (Z.leb_le _ (bi_nHeight b))) by lia.
  cbn [andb]. f_equal. lia.
Qed.

(** Going through an ancestor. *)
Lemma ancestor_trans p b q bq h : m !! p = Some b -> m !! q = Some bq ->
  ancestor_at m p (bi_nHeight bq) = Some q -> h <= bi_nHeight bq -> ancestor_at m p h = ancestor_at m q h.
Proof using W.
  intros Hp Hq Ha Hle. unfold ancestor_at in *. rewrite Hp in *. rewrite Hq. cbn in *.
  destruct ((0 <=? bi_nHeight bq) && (bi_nHeight bq <=? bi_nHeight b)) eqn:E; [|done]. zbool.
  destruct (Z.leb_spec 0 h); [|done]. rewrite (proj2 (Z.leb_le h _)), (proj2 (Z.leb_le h (bi_nHeight bq))) by lia. cbn [andb].
  replace (Z.to_nat (bi_nHeight b - h)) with (Z.to_nat (bi_nHeight b - bi_nHeight bq) + Z.to_nat (bi_nHeight bq - h))%nat by lia.
  by rewrite prev_n_add, Ha.
Qed.

Lemma ancestor_exists p b h : m !! p = Some b -> 0 <= h <= bi_nHeight b ->
  exists q b', ancestor_at m p h = Some q /\ m !! q = Some b' /\ bi_nHeight b' = h.
Proof using W.
  intros Hp Hh. destruct (prev_n_exists (Z.to_nat (bi_nHeight b - h)) p b Hp) as (q & b' & H1 & H2 & H3); [lia|].
  exists q, b'. split_and!; [|done|lia]. rewrite (ancestor_prev p b h (Z.to_nat (bi_nHeight b - h))) by (done || lia). done.
Qed.

Lemma ancestor_Some p b h q : m !! p = Some b -> ancestor_at m p h = Some q ->
  0 <= h <= bi_nHeight b /\ exists b', m !! q = Some b' /\ bi_nHeight b' = h.
Proof using W.
  intros Hp Ha. assert (Hh : 0 <= h <= bi_nHeight b).
  { unfold ancestor_at in Ha. rewrite Hp in Ha. cbn in Ha.
    destruct ((0 <=? h) && (h <=? bi_nHeight b)) eqn:E; [|done]. zbool. lia. }
  split; [done|]. destruct (ancestor_exists p b h Hp Hh) as (q' & b' & H1 & H2 & H3). exists b'. by simplify_eq.
Qed.

Lemma ancestor_self p b : m !! p = Some b -> ancestor_at m p (bi_nHeight b) = Some p.
Proof using W.
  intros Hp. pose proof (tw_height m W _ _ Hp). by rewrite (ancestor_prev p b _ 0) by (done || lia).
Qed.

Lemma ancestor_pprev p b q : m !! p = Some b -> bi_pprev b = Some q ->
  ancestor_at m p (bi_nHeight b - 1) = Some q.
Proof using W.
  intros Hp Hq. pose proof (tw_prev m W p b Hp) as H. rewrite Hq in H. destruct H as (b' & H1 & H2).
  pose proof (tw_height m W _ _ H1). rewrite (ancestor_prev p b _ 1) by (done || lia). cbn. rewrite Hp. cbn. by rewrite Hq.
Qed.

Lemma ancestor_walk_ok fuel : forall p b height, m !! p = Some b -> 0 <= height <= bi_nHeight b ->
  bi_nHeight b - height <= Z.of_nat fuel ->
  exists q, ancestor_walk fuel m p (bi_nHeight b) height = Ok q /\ ancestor_at m p height = Some q.
Proof using W.
  induction fuel as [|fuel IH]; intros p b height Hp Hh Hf; cbn [ancestor_walk].
  - destruct (Z.ltb_spec height (bi_nHeight b)); [lia|]. cbn [negb]. exists p. split; [done|].
    replace height with (bi_nHeight b) by lia. by apply ancestor_self.
  - destruct (Z.ltb_spec height (bi_nHeight b)) as [Hlt|]; cbn [negb].
    2:{ exists p. split; [done|]. replace height with (bi_nHeight b) by lia. by apply ancestor_self. }
    unfold deref. rewrite Hp. mstep.
    assert (Hstep : forall q h', ancestor_at m p h' = Some q -> height <= h' < bi_nHeight b ->
      exists r, ancestor_walk fuel m q h' height = Ok r /\ ancestor_at m p height = Some r).
    { intros q h' Ha Hh'. destruct (ancestor_Some p b h' q Hp Ha) as (_ & bq & Hq & Hhq).
      rewrite <- Hhq in *. destruct (IH q bq height Hq) as (r & H1 & H2); [lia|lia|]. exists r. split; [done|].
      by rewrite (ancestor_trans p b q bq height) by (done || lia). }
    assert (Hprev : exists q, bi_pprev b = Some q).
    { pose proof (tw_prev m W p b Hp) as Hq. destruct (bi_pprev b) as [q|]; [by exists q|lia]. }
    destruct Hprev as [q Eq]. rewrite Eq. pose proof (ancestor_pprev p b q Hp Eq) as Hap.
    destruct (bi_pskip b) as [s|] eqn:Es; [|apply Hstep; [done|lia]].
    pose proof (tw_skip m W p b s Hp Es) as Has. pose proof (GetSkipHeight_lt (bi_nHeight b) ltac:(lia)).
    destruct (_ || _) eqn:Ec; [|apply Hstep; [done|lia]]. apply Hstep; [done|].
    apply orb_true_iff in Ec as [Ec|Ec]; zbool; lia.
Qed.

(** [GetAncestor] finds the ancestor at a height. *)
Lemma GetAncestor_ok p b height : m !! p = Some b -> GetAncestor m p height = Ok (ancestor_at m p height).
Proof using W.
  intros Hp. unfold GetAncestor, deref. rewrite Hp. mstep.
  destruct (Z.ltb_spec (bi_nHeight b) height), (Z.ltb_spec height 0); cbn [orb];
    try (unfold ancestor_at; rewrite Hp; cbn; destruct (Z.leb_spec 0 height), (Z.leb_spec height (bi_nHeight b)); done || lia).
  destruct (ancestor_walk_ok (Z.to_nat (bi_nHeight b - height)) p b height Hp) as (q & -> & ->); [lia|lia|]. done.
Qed.
End Tree.

(** ** Growing the tree *)

(** A block whose predecessor is [pprev], not yet in the map. *)
Definition fits (m : BlockMap) (p : uint256) (b : CBlockIndex) : Prop :=
  m !! p = None /\ bi_pskip b = None
  /\ match bi_pprev b with
     | None => bi_nHeight b = 0
     | Some q => exists b', m !! q = Some b' /\ bi_nHeight b = bi_nHeight b' + 1
     end.

Lemma prev_n_insert m p b n q : m !! p = None -> tree_wf m -> is_Some (m !! q) ->
  prev_n n (<[p := b]> m) q = prev_n n m q.
Proof.
  intros Hp W. revert q. induction n as [|n IH]; intros q [bq Hq]; [done|]. cbn [prev_n].
  rewrite lookup_insert_ne by congruence. rewrite Hq. cbn. pose proof (tw_prev m W q bq Hq) as Hpr.
  destruct (bi_pprev bq) as [r|]; [|done]. destruct Hpr as (br & Hr & _). cbn. by apply IH.
Qed.

Lemma ancestor_insert m p b q h : m !! p = None -> tree_wf m -> is_Some (m !! q) ->
  ancestor_at (<[p := b]> m) q h = ancestor_at m q h.
Proof.
  intros Hp W [bq Hq]. unfold ancestor_at. rewrite lookup_insert_ne, Hq by congruence. cbn.
  destruct (_ && _); [|done]. apply prev_n_insert; eauto.
Qed.

Lemma tree_wf_insert m p b : tree_wf m ->
  m !! p = None -> 0 <= bi_nHeight b ->
  match bi_pprev b with
  | None => bi_nHeight b = 0
  | Some q => exists b', m !! q = Some b' /\ bi_nHeight b = bi_nHeight b' + 1
  end ->
  (forall s, bi_pskip b = Some s -> ancestor_at (<[p := b]> m) p (GetSkipHeight (bi_nHeight b)) = Some s) ->
  tree_wf (<[p := b]> m).
Proof.
  intros W Hp Hh Hprev Hskip. split.
  - intros q c. rewrite lookup_insert_Some. intros [[_ <-]|[_ Hq]]; [done|]. by apply (tw_height m W q c).
  - intros q c. rewrite lookup_insert_Some. intros [[_ <-]|[_ Hq]].
    + destruct (bi_pprev b) as [r|]; [|done]. destruct Hprev as (b' & H1 & H2). exists b'. split; [|done].
      rewrite lookup_insert_ne by congruence. done.
    + pose proof (tw_prev m W q c Hq) as Hpr. destruct (bi_pprev c) as [r|]; [|done]. destruct Hpr as (b' & H1 & H2).
      exists b'. split; [|done]. rewrite lookup_insert_ne by congruence. done.
  - intros q c s. rewrite lookup_insert_Some. intros [[<- <-]|[_ Hq]] Hs; [by apply Hskip|].
    rewrite ancestor_insert by eauto. by apply (tw_skip m W q c s).
Qed.

(** [BuildSkip] on a new entry gives a well-formed tree, with the skip pointer
    set to the ancestor at the skip height. *)
Lemma BuildSkip_ok m p b : tree_wf m -> fits m p b ->
  let b' := bi_with_pskip b (q ← bi_pprev b; ancestor_at m q (GetSkipHeight (bi_nHeight b))) in
  BuildSkip (<[p := b]> m) p = Ok (<[p := b']> m) /\ tree_wf (<[p := b']> m).
Proof.
  intros W (Hp & Hs & Hprev). assert (Hh : 0 <= bi_nHeight b).
  { destruct (bi_pprev b) as [q|]; [|lia]. destruct Hprev as (b' & H1 & H2). pose proof (tw_height m W _ _ H1). lia. }
  assert (W1 : tree_wf (<[p := b]> m)) by (apply tree_wf_insert; [done..|congruence]).
  unfold BuildSkip, deref. rewrite lookup_insert_eq. mstep. destruct (bi_pprev b) as [q|] eqn:Eq; cbn [mbind option_bind].
  - destruct Hprev as (b' & H1 & H2). pose proof (tw_height m W _ _ H1).
    rewrite (GetAncestor_ok _ W1 q b'), ancestor_insert by (eauto || (rewrite lookup_insert_ne by congruence; done)).
    mstep. rewrite insert_insert_eq. split; [done|].
    apply tree_wf_insert; [done..|cbn [bi_pprev bi_with_pskip]; rewrite Eq; eauto|].
    cbn [bi_pskip bi_nHeight bi_with_pskip]. intros s Es. set (b1 := bi_with_pskip b _).
    pose proof (GetSkipHeight_lt (bi_nHeight b) ltac:(lia)). rewrite <- Es. unfold ancestor_at.
    rewrite lookup_insert_eq, H1. cbn [mbind option_bind]. change (bi_nHeight b1) with (bi_nHeight b).
    set (h := GetSkipHeight _) in *. rewrite !(proj2 (Z.leb_le _ _)) by lia. cbn [andb].
    replace (Z.to_nat (bi_nHeight b - h)) with (S (Z.to_nat (bi_nHeight b' - h))) by lia. cbn [prev_n].
    rewrite lookup_insert_eq. cbn [mbind option_bind]. change (bi_pprev b1) with (bi_pprev b). rewrite Eq. cbn.
    by apply prev_n_insert; eauto.
  - assert (bi_with_pskip b None = b) as -> by (destruct b; cbn in *; by subst). done.
Qed.

(** ** Chains *)

(** [c] is the branch that ends in block [p]: entry [i] is the ancestor of
    [p] at height [i]. *)
Definition is_branch (m : BlockMap) (c : CChain) (p : uint256) : Prop :=
  exists b, m !! p = Some b /\ Z.of_nat (length c) = bi_nHeight b + 1
    /\ forall i, (i < length c)%nat -> c !! i = Some (ancestor_at m p (Z.of_nat i)).
Definition chain_wf (m : BlockMap) (c : CChain) : Prop := c = [] \/ exists p, is_branch m c p.

Section ChainOps.
Context (m : BlockMap) (W : tree_wf m).

Lemma CChain_at_spec c i : CChain_at c i = if (0 <=? i) then default None (c !! Z.to_nat i) else None.
Proof using Type.
  unfold CChain_at. destruct (Z.ltb_spec i 0), (Z.leb_spec 0 i); try lia; [done|]. cbn [orb].
  destruct (Z.leb_spec (Z.of_nat (length c)) i); [|done]. by rewrite lookup_ge_None_2 by lia.
Qed.

Lemma branch_at c p i : is_branch m c p -> CChain_at c i = ancestor_at m p i.
Proof using W.
  intros (b & Hp & Hl & Hc). rewrite CChain_at_spec. unfold ancestor_at. rewrite Hp. cbn.
  destruct (Z.leb_spec 0 i); [|done]. destruct (Z.leb_spec i (bi_nHeight b)); cbn [andb].
  - rewrite Hc by lia. unfold ancestor_at. rewrite Hp. cbn. rewrite Z2Nat.id by lia.
    by rewrite !(proj2 (Z.leb_le _ _)) by lia.
  - by rewrite lookup_ge_None_2 by lia.
Qed.

(** The blocks a branch contains are the ancestors of its tip. *)
Lemma branch_contains c p q bq : is_branch m c p -> m !! q = Some bq ->
  CChain_Contains m c q = Ok (bool_decide (ancestor_at m p (bi_nHeight bq) = Some q)).
Proof using W. intros Hb Hq. unfold CChain_Contains, deref. rewrite Hq. mstep. by rewrite (branch_at c p). Qed.

(** The loop of [SetTip] on its way down from the tip [p]: the entries from
    [q]'s height up are still to be checked against the old branch [o]. *)
Lemma set_tip_loop_ok p b : m !! p = Some b -> forall fuel c q bq (o : CChain),
  m !! q = Some bq -> ancestor_at m p (bi_nHeight bq) = Some q -> chain_wf m o ->
  Z.of_nat (length c) = bi_nHeight b + 1 -> bi_nHeight bq + 1 <= Z.of_nat fuel ->
  (forall i, (i < length c)%nat -> bi_nHeight bq < Z.of_nat i -> c !! i = Some (ancestor_at m p (Z.of_nat i))) ->
  (forall i, (i < length c)%nat -> Z.of_nat i <= bi_nHeight bq -> c !! i = Some (default None (o !! i))) ->
  exists c', set_tip_loop fuel m c (Some q) = Ok c' /\ is_branch m c' p.
Proof using W.
  intros Hp. induction fuel as [|fuel IH]; intros c q bq o Hq Ha Ho Hl Hf Hhi Hlo.
  { pose proof (tw_height m W _ _ Hq). lia. }
  pose proof (tw_height m W _ _ Hq) as Hq0. destruct (ancestor_Some m W p b _ q Hp Ha) as (Hle & _).
  cbn [set_tip_loop]. unfold deref, index_or_abort. rewrite Hq. mstep. rewrite (Hlo (Z.to_nat (bi_nHeight bq))) by lia. mstep.
  case_bool_decide as Eo.
  - exists c. split; [done|]. exists b. split_and!; [done..|]. intros i Hi.
    destruct (Z.lt_ge_cases (bi_nHeight bq) (Z.of_nat i)); [by apply Hhi|]. rewrite Hlo by lia. f_equal.
    destruct Ho as [->|[t Ht]]; [done|].
    assert (Hoq : CChain_at o (bi_nHeight bq) = Some q) by (rewrite CChain_at_spec, (proj2 (Z.leb_le _ _)) by lia; done).
    rewrite (branch_at o t _ Ht) in Hoq. pose proof Ht as (bt & Hmt & _).
    rewrite (ancestor_trans m W p b q bq) by (done || lia). rewrite <- (ancestor_trans m W t bt q bq) by (done || lia).
    rewrite <- (branch_at o t _ Ht), CChain_at_spec, (proj2 (Z.leb_le _ _)), Nat2Z.id by lia. done.
  - set (c1 := <[Z.to_nat (bi_nHeight bq) := Some q]> c). pose proof (tw_prev m W q bq Hq) as Hpr.
    assert (Hl1 : length c1 = length c) by apply length_insert.
    assert (Hc1 : forall i, (i < length c)%nat -> bi_nHeight bq - 1 < Z.of_nat i -> c1 !! i = Some (ancestor_at m p (Z.of_nat i))).
    { intros i Hi Hgt. destruct (decide (i = Z.to_nat (bi_nHeight bq))) as [->|].
      - unfold c1. rewrite list_lookup_insert_eq, Z2Nat.id by lia. by rewrite Ha.
      - unfold c1. rewrite list_lookup_insert_ne by done. apply Hhi; lia. }
    destruct (bi_pprev bq) as [r|] eqn:Er.
    + destruct Hpr as (br & Hr & Hh).
      apply (IH c1 r br o); [done| |done|by rewrite Hl1|lia| |].
      * rewrite (ancestor_trans m W p b q bq) by (done || lia). replace (bi_nHeight br) with (bi_nHeight bq - 1) by lia.
        by apply (ancestor_pprev m W).
      * intros i Hi Hgt. rewrite Hl1 in Hi. apply Hc1; lia.
      * intros i Hi Hlei. rewrite Hl1 in Hi. unfold c1. rewrite list_lookup_insert_ne by lia. apply Hlo; lia.
    + destruct fuel; cbn [set_tip_loop]; (exists c1; split; [done|]; exists b; split_and!; [done|by rewrite Hl1|];
        intros i Hi; rewrite Hl1 in Hi; apply Hc1; lia).
Qed.

Lemma SetTip_ok c p b : chain_wf m c -> m !! p = Some b ->
  exists c', CChain_SetTip m c (Some p) = Ok c' /\ is_branch m c' p.
Proof using W.
  intros Hc Hp. pose proof (tw_height m W _ _ Hp). unfold CChain_SetTip, deref. rewrite Hp. mstep.
  set (n := Z.to_nat (bi_nHeight b + 1)).
  assert (Hl : length (chain_resize c n) = n) by (unfold chain_resize; rewrite length_app, length_take, length_replicate; lia).
  apply (set_tip_loop_ok p b Hp _ _ p b c); [done|by apply ancestor_self|done|lia|lia| |].
  - intros i Hi Hgt. lia.
  - intros i Hi _. rewrite Hl in Hi. unfold chain_resize. destruct (Nat.lt_ge_cases i (length c)).
    + rewrite lookup_app_l by (rewrite length_take; lia). rewrite lookup_take_lt by done.
      by destruct (lookup_lt_is_Some_2 c i) as [x ->].
    + rewrite lookup_app_r, length_take by (rewrite length_take; lia). rewrite lookup_replicate_2 by lia.
      by rewrite lookup_ge_None_2.
Qed.
End ChainOps.

Section ForkAndLocator.
Context (m : BlockMap) (W : tree_wf m).

(** [q] is an ancestor of [p] (or [p] itself). *)
Definition is_ancestor (q p : uint256) : Prop :=
  exists b, m !! q = Some b /\ ancestor_at m p (bi_nHeight b) = Some q.

Lemma is_ancestor_trans p q r : is_Some (m !! p) -> is_ancestor q p -> is_ancestor r q -> is_ancestor r p.
Proof using W.
  intros [bp Hp] (bq & Hq & H1) (br & Hr & H2). exists br. split; [done|].
  destruct (ancestor_Some m W q bq _ r Hq H2) as (Hh & _). by rewrite (ancestor_trans m W p bp q bq) by (done || lia).
Qed.

Lemma is_ancestor_refl p : is_Some (m !! p) -> is_ancestor p p.
Proof using W. intros [b Hp]. exists b. split; [done|]. by apply ancestor_self. Qed.

(** The last common block of [p] and the branch of [t], going down from [q]. *)
Definition last_common (p t : uint256) (r : option uint256) : Prop :=
  match r with
  | Some f => is_ancestor f p /\ is_ancestor f t
      /\ forall g bf bg, m !! f = Some bf -> m !! g = Some bg -> is_ancestor g p -> is_ancestor g t ->
         bi_nHeight bg <= bi_nHeight bf
  | None => forall g, is_ancestor g p -> is_ancestor g t -> False
  end.

Lemma fork_loop_ok c t : is_branch m c t -> forall fuel q b, m !! q = Some b -> bi_nHeight b + 1 <= Z.of_nat fuel ->
  exists r, fork_loop fuel m c (Some q) = Ok r /\ last_common q t r.
Proof using W.
  intros Ht. induction fuel as [|fuel IH]; intros q b Hq Hf; pose proof (tw_height m W _ _ Hq); [lia|].
  cbn [fork_loop]. unfold deref. rewrite Hq. mstep. rewrite (branch_at m W c t _ Ht). case_bool_decide as Ec.
  - exists (Some q). split; [done|]. split_and!; [apply is_ancestor_refl; eauto|by exists b|].
    intros g bf bg Hbf Hg (bg' & Hg' & Ha) _. simplify_eq. destruct (ancestor_Some m W q _ _ g Hq Ha). lia.
  - assert (Hno : forall g, is_ancestor g q -> is_ancestor g t -> g <> q).
    { intros g (bg & Hg & _) (bg' & Hg' & Hgt) ->. by simplify_eq. }
    pose proof (tw_prev m W q b Hq) as Hpr. destruct (bi_pprev b) as [p|] eqn:Ep.
    + destruct Hpr as (bp & Hp & Hh). destruct (IH p bp Hp) as (r & E & Hr); [lia|]. exists r. split; [done|].
      assert (Hup : forall g, is_ancestor g q -> g <> q -> is_ancestor g p).
      { intros g (bg & Hg & Ha) Hne. exists bg. split; [done|]. destruct (ancestor_Some m W q b _ g Hq Ha) as (Hhg & _).
        destruct (decide (bi_nHeight bg = bi_nHeight b)) as [Eh|].
        - rewrite Eh, (ancestor_self m W q b Hq) in Ha. by simplify_eq.
        - pose proof (ancestor_pprev m W q b p Hq Ep) as Hap. replace (bi_nHeight b - 1) with (bi_nHeight bp) in Hap by lia.
          rewrite (ancestor_trans m W q b p bp) in Ha by (done || lia). done. }
      destruct r as [f|].
      * destruct Hr as (H1 & H2 & H3). split_and!; [|done|].
        -- apply (is_ancestor_trans q p); [eauto| |done]. exists bp. split; [done|].
           replace (bi_nHeight bp) with (bi_nHeight b - 1) by lia. by apply (ancestor_pprev m W).
        -- intros g bf bg Hbf Hg Hgq Hgt. apply (H3 g); auto.
      * intros g Hgq Hgt. apply (Hr g); auto.
    + destruct fuel; cbn [fork_loop]; (exists None; split; [done|]; intros g Hgq Hgt; apply (Hno g Hgq Hgt);
        destruct Hgq as (bg & Hg & Ha); destruct (ancestor_Some m W q b _ g Hq Ha) as (Hhg & _);
        replace (bi_nHeight bg) with (bi_nHeight b) in Ha by lia; rewrite (ancestor_self m W q b Hq) in Ha; by simplify_eq).
Qed.

(** Blocks above the branch's tip cannot be common. *)
Lemma last_common_above p b q bq t bt r : m !! p = Some b -> m !! q = Some bq -> m !! t = Some bt ->
  is_ancestor q p -> bi_nHeight bt <= bi_nHeight bq -> last_common q t r -> last_common p t r.
Proof using W.
  intros Hp Hq Ht (bq' & Hq' & Haq) Hle. simplify_eq.
  assert (Hdown : forall g, is_ancestor g p -> is_ancestor g t -> is_ancestor g q).
  { intros g (bg & Hg & Ha) (bg' & Hg' & Hat). simplify_eq. exists bg. split; [done|].
    destruct (ancestor_Some m W t bt _ g Ht Hat). by rewrite (ancestor_trans m W p b q bq) in Ha by (done || lia). }
  assert (is_ancestor q p) by by exists bq. destruct r as [f|]; cbn.
  - intros (H1 & H2 & H3). split_and!; [by apply (is_ancestor_trans p q); eauto|done|].
    intros g bf bg Hf Hg Hgp Hgt. apply (H3 g); auto.
  - intros Hr g Hgp Hgt. apply (Hr g); auto.
Qed.

Lemma FindFork_ok c t p b : is_branch m c t -> m !! p = Some b ->
  exists r, CChain_FindFork m c p = Ok r /\ last_common p t r.
Proof using W.
  intros Ht Hp. pose proof Ht as (bt & Hmt & Hl & _). pose proof (tw_height m W _ _ Hp). pose proof (tw_height m W _ _ Hmt).
  unfold CChain_FindFork, deref. rewrite Hp. mstep. unfold CChain_Height.
  destruct (Z.ltb_spec (Z.of_nat (length c) - 1) (bi_nHeight b)).
  - rewrite (GetAncestor_ok m W p b) by done. mstep.
    destruct (ancestor_exists m W p b (Z.of_nat (length c) - 1) Hp) as (q & bq & Hq1 & Hq2 & Hq3); [lia|]. rewrite Hq1.
    destruct (fork_loop_ok c t Ht (S (Z.to_nat (bi_nHeight b))) q bq Hq2) as (r & E & Hr); [lia|].
    exists r. split; [done|]. apply (last_common_above p b q bq t bt); try done; [|lia]. exists bq. split; [done|]. congruence.
  - mstep. apply (fork_loop_ok c t Ht _ p b); [done|lia].
Qed.

(** ** Locators *)

(** Strictly descending heights. *)
Fixpoint descending (l : list uint256) : Prop :=
  match l with
  | [] => True
  | p :: l' =>
      match l' with
      | [] => True
      | q :: _ => (exists bp bq, m !! p = Some bp /\ m !! q = Some bq /\ bi_nHeight bq < bi_nHeight bp)
      end /\ descending l'
  end.

(** What the rounds from block [q] on append: ancestors of [q], descending,
    down to the genesis block. *)
Definition locator_from (q : uint256) (l : list uint256) : Prop :=
  head l = Some q /\ Forall (fun x => is_ancestor x q) l /\ descending l
  /\ last l = ancestor_at m q 0.

Lemma locator_loop_ok c (Hc : chain_wf m c) : forall fuel q b nStep vHave,
  m !! q = Some b -> 0 < nStep -> bi_nHeight b < Z.of_nat fuel ->
  (bi_nHeight b = 0 \/ nStep - 1 + bi_nHeight b < 2 ^ 30) ->
  exists l, locator_loop fuel m c nStep vHave (Some q) = Ok (vHave ++ l) /\ locator_from q l
    /\ forall j, 0 <= j -> bi_nHeight b <= nStep * (2 ^ j - 1) ->
       Z.of_nat (length l) <= Z.max 0 (10 - Z.of_nat (length vHave)) + j + 1.
Proof using W.
  induction fuel as [|fuel IH]; intros q b nStep vHave Hq Hs Hf Hbound; pose proof (tw_height m W _ _ Hq) as H0; [lia|].
  cbn [locator_loop]. unfold deref. rewrite Hq. mstep. destruct (Z.eqb_spec (bi_nHeight b) 0) as [E0|E0].
  - exists [q]. unfold locator_from. split_and!; [done|done|..].
    + constructor; [|constructor]. apply is_ancestor_refl; eauto.
    + done.
    + rewrite <- E0. symmetry. by apply ancestor_self.
    + intros j Hj _. cbn. lia.
  - set (h := Z.max (bi_nHeight b - nStep) 0).
    assert (Hnext : (if bool_decide (CChain_at c (bi_nHeight b) = Some q) then Ok (CChain_at c h) else GetAncestor m q h)
      = Ok (ancestor_at m q h)).
    { case_bool_decide as Ec; [|by rewrite (GetAncestor_ok m W q b)]. f_equal. destruct Hc as [->|[t Ht]].
      - rewrite CChain_at_spec in Ec. destruct (0 <=? _); done.
      - rewrite !(branch_at m W c t _ Ht) in *. pose proof Ht as (bt & Hmt & _).
        apply (ancestor_trans m W t bt q b); [done..|lia]. }
    rewrite Hnext. mstep. destruct (ancestor_exists m W q b h Hq) as (r & br & Hr1 & Hr2 & Hr3); [lia|]. rewrite Hr1.
    set (s' := if (10 <? length (vHave ++ [q]))%nat then i32 (nStep * 2) else nStep).
    assert (Hs' : 0 < s' /\ (s' = nStep \/ s' = nStep * 2) /\ (if (10 <=? length vHave)%nat then s' = nStep * 2 else s' = nStep)).
    { unfold s'. rewrite length_app. cbn [length].
      destruct (Nat.ltb_spec 10 (length vHave + 1)), (Nat.leb_spec 10 (length vHave)); try lia.
      rewrite i32_small by (unfold is_i32; lia). lia. }
    destruct (IH r br s' (vHave ++ [q]) Hr2) as (l & E & (L1 & L2 & L3 & L4) & Hlen); [lia|lia|lia|].
    assert (Har : is_ancestor r q) by (exists br; split; [done|congruence]).
    exists (q :: l). rewrite E, <- app_assoc. unfold locator_from. split_and!; [done|done|..].
    + constructor; [apply is_ancestor_refl; eauto|]. eapply Forall_impl; [exact L2|]. intros x Hx.
      apply (is_ancestor_trans q r); eauto.
    + destruct l as [|x l]; [done|]. injection L1 as ->. split; [|done]. exists b, br. split_and!; [done..|lia].
    + destruct l as [|x l]; [done|]. cbn [last]. change (last (x :: l) = ancestor_at m q 0). rewrite L4.
      rewrite (ancestor_trans m W q b r br) by (done || lia || congruence). done.
    + intros j Hj Hh. assert (j <> 0) by (intros ->; change (2 ^ 0) with 1 in Hh; lia). cbn [length].
      rewrite length_app in Hlen. cbn [length] in Hlen. destruct Hs' as (_ & _ & Hs').
      destruct (Nat.leb_spec 10 (length vHave)).
      * specialize (Hlen (j - 1)). replace j with (Z.succ (j - 1)) in Hh by lia. rewrite Z.pow_succ_r in Hh by lia.
        pose proof (Z.pow_pos_nonneg 2 (j - 1)). rewrite Hs' in Hlen. nia.
      * specialize (Hlen j). rewrite Hs' in Hlen. lia.
Qed.
End ForkAndLocator.

(** ** Median time *)

Lemma past_times_ok m (W : tree_wf m) n : forall p b, m !! p = Some b ->
  exists l, past_times n m (Some p) = Ok l /\ (n <> 0%nat -> l <> [])
    /\ Forall (fun t => exists q bq, is_ancestor m q p /\ m !! q = Some bq /\ t = bi_nTime bq) l.
Proof.
  induction n as [|n IH]; intros p b Hp; [by exists []|]. cbn [past_times]. unfold deref. rewrite Hp. mstep.
  assert (Hself : exists q bq, is_ancestor m q p /\ m !! q = Some bq /\ CBlockIndex_GetBlockTime b = bi_nTime bq).
  { exists p, b. split_and!; [apply is_ancestor_refl; eauto|done|done]. }
  pose proof (tw_prev m W p b Hp) as Hpr. destruct (bi_pprev b) as [q|] eqn:Eq.
  - destruct Hpr as (bq & Hq & Hh). destruct (IH q bq Hq) as (l & -> & _ & Hl). mstep. eexists. split; [done|].
    split; [done|]. constructor; [done|]. eapply Forall_impl; [exact Hl|]. intros t (x & bx & Hx & Hbx & ->).
    exists x, bx. split_and!; [|done..]. apply (is_ancestor_trans m W p q); [eauto| |done]. exists bq. split; [done|].
    replace (bi_nHeight bq) with (bi_nHeight b - 1) by lia. by apply (ancestor_pprev m W).
  - destruct n; cbn [past_times]; mstep; (eexists; split; [done|]; split; [done|]; by constructor).
Qed.

(** [GetMedianTimePast] reads no element outside its array: it is the time of
    the block or of an ancestor. *)
Lemma GetMedianTimePast_ok m p b : tree_wf m -> m !! p = Some b ->
  exists t q bq, GetMedianTimePast m p = Ok t /\ is_ancestor m q p /\ m !! q = Some bq /\ t = bi_nTime bq.
Proof.
  intros W Hp. destruct (past_times_ok m W nMedianTimeSpan p b Hp) as (l & E & Hne & Hl).
  unfold GetMedianTimePast. rewrite E. mstep. unfold index_or_abort.
  assert (Hlen : length (merge_sort Z.le l) = length l) by (apply Permutation_length, merge_sort_Permutation).
  destruct (lookup_lt_is_Some_2 (merge_sort Z.le l) (length l / 2)) as [t Ht].
  { rewrite Hlen. apply Nat.div_lt; [|lia]. destruct l; [by destruct Hne|simpl; lia]. }
  rewrite Ht. assert (Hin : t ∈ l).
  { apply list_elem_of_lookup_2 in Ht. by rewrite merge_sort_Permutation in Ht. }
  rewrite Forall_forall in Hl. destruct (Hl t Hin) as (q & bq & H1 & H2 & H3). eauto 10.
Qed.

(** ** Examples *)

(** A tree with two branches: 1 - 2 - 3 - 5 and 1 - 2 - 4. *)
Definition example_index (prev : option uint256) (height time : Z) : CBlockIndex :=
  mkIndex prev None height 0 0 0 bu_zero 1 1 BLOCK_VALID_TREE None 0 0 None None 0 None 4 0 0 time 0x2007ffff 0 [] 0.
Definition example_tree0 : BlockMap :=
  <[4 := example_index (Some 2) 2 350]> (<[3 := example_index (Some 2) 2 300]>
    (<[2 := example_index (Some 1) 1 200]> (<[1 := example_index None 0 100]> ∅))).

Lemma example_tree0_wf : tree_wf example_tree0.
Proof.
  assert (We : tree_wf ∅) by (split; intros *; rewrite lookup_empty; done).
  unfold example_tree0. repeat (apply tree_wf_insert; [|reflexivity|cbn; lia| |intros ? [=]]); [exact We|..];
    cbn [bi_pprev example_index]; try reflexivity; eexists; (split; [reflexivity|reflexivity]).
Qed.

(** (C38) The skip list is sound and its walk ends.  Adding a block whose
    predecessor is known and building its skip pointer keeps the tree well
    formed; in a well-formed tree [GetAncestor] never follows a null pointer,
    ends within [nHeight - height] rounds, and finds for every block and height
    the block that following [pprev] finds, or null exactly when the height is
    negative or above the block's. *)
Theorem GetAncestor_terminates (m : BlockMap) (p : uint256) (b : CBlockIndex)
  (W : tree_wf m) (Hfit : fits m p b) :
  exists m', BuildSkip (<[p := b]> m) p = Ok m' /\ tree_wf m' /\ is_Some (m' !! p)
    /\ forall q bq height, m' !! q = Some bq ->
         GetAncestor m' q height = Ok (ancestor_at m' q height)
         /\ (0 <= height <= bi_nHeight bq ->
             exists a ba, ancestor_at m' q height = Some a /\ m' !! a = Some ba /\ bi_nHeight ba = height).
Proof.
  destruct (BuildSkip_ok m p b W Hfit) as [E W']. eexists. split; [exact E|]. split; [exact W'|].
  split; [rewrite lookup_insert_eq; eauto|]. intros q bq height Hq.
  split; [by apply (GetAncestor_ok _ W' q bq)|]. by apply (ancestor_exists _ W').
Qed.

Lemma GetAncestor_terminates_witness :
  fits example_tree0 5 (example_index (Some 3) 3 400)
  /\ exists m', BuildSkip (<[5 := example_index (Some 3) 3 400]> example_tree0) 5 = Ok m' /\ GetAncestor m' 5 1 = Ok (Some 2).
Proof.
  assert (Hf : fits example_tree0 5 (example_index (Some 3) 3 400)).
  { split; [reflexivity|]. split; [reflexivity|]. eexists. split; reflexivity. }
  split; [exact Hf|]. destruct (GetAncestor_terminates _ _ _ example_tree0_wf Hf) as (m' & E & W' & [b5 H5] & HA).
  exists m'. split; [exact E|]. rewrite (proj1 (HA 5 b5 1 H5)). vm_compute in E. injection E as <-. vm_compute. reflexivity.
Defined.

(** (C39) [SetTip] and [FindFork].  From any branch of the tree (or the empty
    chain), [SetTip] to a block ends with the vector that holds exactly the
    ancestors of that block by height, although it stops at the first entry
    that is already right; [FindFork] from any block then returns the last
    block it has in common with that branch, or null when there is none. *)
Theorem SetTip_FindFork_correct (m : BlockMap) (c : CChain) (t p : uint256)
  (W : tree_wf m) (Hc : chain_wf m c) (Ht : is_Some (m !! t)) (Hp : is_Some (m !! p)) :
  exists c' r, CChain_SetTip m c (Some t) = Ok c' /\ chain_wf m c'
    /\ (forall i, CChain_at c' i = ancestor_at m t i)
    /\ CChain_Tip c' = Some t /\ CChain_FindFork m c' p = Ok r /\ last_common m p t r.
Proof.
  destruct Ht as [bt Hbt], Hp as [bp Hbp]. destruct (SetTip_ok m W c t bt Hc Hbt) as (c' & E & Hb).
  destruct (FindFork_ok m W c' t p bp Hb Hbp) as (r & Er & Hr). exists c', r.
  split_and!; [done|right; by exists t| | |done|done]; [intros i; by apply branch_at|].
  pose proof Hb as (b & H1 & Hl & H2). pose proof (tw_height m W _ _ H1). unfold CChain_Tip. rewrite last_lookup, H2 by lia.
  replace (Z.of_nat (Nat.pred (length c'))) with (bi_nHeight b) by lia. cbn. by apply ancestor_self.
Qed.

Lemma SetTip_FindFork_correct_witness :
  exists c', CChain_SetTip example_tree0 [Some 1; Some 2; Some 3] (Some 4) = Ok c'
    /\ CChain_at c' 1 = Some 2 /\ CChain_FindFork example_tree0 c' 3 = Ok (Some 2).
Proof.
  assert (Hc : chain_wf example_tree0 [Some 1; Some 2; Some 3]).
  { right. exists 3. eexists. split; [reflexivity|]. split; [reflexivity|].
    intros i Hi. destruct i as [|[|[|i]]]; [reflexivity..|simpl in Hi; lia]. }
  destruct (SetTip_FindFork_correct example_tree0 _ 4 3 example_tree0_wf Hc) as (c' & r & E & _ & Hat & _ & Hf & _);
    [eexists; reflexivity..|].
  exists c'. split; [exact E|]. split; [rewrite Hat; vm_compute; reflexivity|].
  vm_compute in E. injection E as <-. vm_compute. reflexivity.
Defined.

(** Locators.  On chains below 2^30 blocks [GetLocator] ends without
    integer overflow; the locator starts with the block, ends with the genesis
    block, lists ancestors of the block in strictly descending order, and has
    at most 12 + log2(height) entries. *)
Theorem GetLocator_bounded (m : BlockMap) (c : CChain) (p : uint256) (b : CBlockIndex)
  (W : tree_wf m) (Hc : chain_wf m c) (Hp : m !! p = Some b) (Hh : bi_nHeight b < 2 ^ 30) :
  exists l, CChain_GetLocator m c (Some p) = Ok l /\ locator_from m p l
    /\ Z.of_nat (length l) <= 12 + Z.log2 (bi_nHeight b).
Proof.
  unfold CChain_GetLocator, deref. rewrite Hp. mstep. pose proof (tw_height m W _ _ Hp).
  destruct (locator_loop_ok m W c Hc (S (Z.to_nat (bi_nHeight b))) p b 1 [] Hp) as (l & E & Hl & Hlen); [lia..|].
  exists l. split_and!; [done|done|]. specialize (Hlen (Z.log2 (bi_nHeight b) + 1)). cbn [length] in Hlen.
  pose proof (Z.log2_nonneg (bi_nHeight b)). destruct (decide (bi_nHeight b = 0)) as [E0|].
  - rewrite E0 in Hlen. change (Z.log2 0) with 0 in *. rewrite E0. simpl in Hlen |- *. lia.
  - pose proof (Z.log2_spec (bi_nHeight b) ltac:(lia)). rewrite Z.add_1_r in Hlen. lia.
Qed.

Lemma GetLocator_bounded_witness :
  exists l, CChain_GetLocator example_tree0 [Some 1; Some 2; Some 3] (Some 4) = Ok l /\ l = [4; 2; 1]
    /\ locator_from example_tree0 4 l.
Proof.
  assert (Hc : chain_wf example_tree0 [Some 1; Some 2; Some 3]).
  { right. exists 3. eexists. split; [reflexivity|]. split; [reflexivity|].
    intros i Hi. destruct i as [|[|[|i]]]; [reflexivity..|simpl in Hi; lia]. }
  destruct (GetLocator_bounded example_tree0 _ 4 (example_index (Some 2) 2 350) example_tree0_wf Hc)
    as (l & E & Hl & _); [reflexivity|cbn; lia|].
  exists l. split; [exact E|]. split; [|exact Hl]. vm_compute in E. by injection E as <-.
Defined.
