(* ===== verification/Pow.v ===== *)
(** * Proof of work

    pow.{h,cpp}: block timestamp rules, the required difficulty of the next
    block (the Digishield average and the LWMA-3 weighted average), the
    proof-of-work check, the work of a block.  The current time
    ([GetAdjustedTime]) and the Equihash verifier of librustzcash are
    parameters. *)
From stdpp Require Import prelude gmap strings list sorting.
From S2P Require Import Prelude Transaction ChainParams ArithUint256 Serialize Block Chain.
#[local] Open Scope Z_scope.

(** ** Timestamps *)

Definition CheckBlockTimestamp (adjustedTime : Z) (params : Params) (pindexLast : CBlockIndex)
  (pblock : option CBlockHeader) : bool :=
  let earliest := CBlockIndex_GetBlockTime pindexLast + Z.quot (nPowTargetSpacing params) 3 in
  if match pblock with Some b => CBlockHeader_GetBlockTime b <? earliest | None => false end then false
  else negb (adjustedTime <? earliest).

Definition CheckBlockTimestamp2 (adjustedTime : Z) (pindexLast : CBlockIndex) (pblock : option CBlockHeader) : bool :=
  let earliest := CBlockIndex_GetBlockTime pindexLast + 8 in
  if match pblock with Some b => CBlockHeader_GetBlockTime b <? earliest | None => false end then false
  else negb (adjustedTime <? earliest).

(** ** The average of a window of targets *)

Definition DigishieldCalculateNextWorkRequired (bnAvg : base_uint) (nLastBlockTime nFirstBlockTime : Z)
  (params : Params) : result Z :=
  let nActualTimespan := nLastBlockTime - nFirstBlockTime in
  let nActualTimespan :=
    AveragingWindowTimespan params + Z.quot (nActualTimespan - AveragingWindowTimespan params) 4 in
  let nActualTimespan := if nActualTimespan <? MinActualTimespan params then MinActualTimespan params else nActualTimespan in
  let nActualTimespan := if MaxActualTimespan params <? nActualTimespan then MaxActualTimespan params else nActualTimespan in
  let bnPowLimit := UintToArith256 (powLimit params) in
  bnNew ← bu_div bnAvg (bu_of_u64 (u64 (AveragingWindowTimespan params)));
  let bnNew := bu_mul32 bnNew (u32 nActualTimespan) in
  let bnNew := if bu_gt bnNew bnPowLimit then bnPowLimit else bnNew in
  GetCompact bnNew false.

(** ** The weighted average *)

(** What the loop of [Lwma3CalculateNextWorkRequired] carries. *)
Record LwmaState := mkLwma {
  lw_previousTimestamp : Z;
  lw_t : Z;
  lw_j : Z;
  lw_sumTarget : base_uint;
  lw_previousDiff : base_uint
}.

Definition lwma_body (m : BlockMap) (pindexLast : uint256) (T N k height : Z) (s : LwmaState) (i : Z) : result LwmaState :=
  a ← GetAncestor m pindexLast i;
  match a with
  | None => Abort
  | Some p =>
      block ← deref m p;
      let thisTimestamp := if lw_previousTimestamp s <? CBlockIndex_GetBlockTime block
                           then CBlockIndex_GetBlockTime block else lw_previousTimestamp s + 1 in
      let solvetime := Z.min (6 * T) (thisTimestamp - lw_previousTimestamp s) in
      let j := lw_j s + 1 in
      let t := lw_t s + solvetime * j in
      let target := compact_target (bi_nBits block) in
      q ← bu_div target (bu_of_u64 (u64 (k * N)));
      Ok (mkLwma thisTimestamp t j (bu_add (lw_sumTarget s) q)
            (if i =? height then target else lw_previousDiff s))
  end.

Definition Lwma3CalculateNextWorkRequired (m : BlockMap) (pindexLast : uint256) (params : Params) : result Z :=
  let T := nPowTargetSpacing params in
  let N := nZawyLWMA3AveragingWindow params in
  let k := Z.quot (N * (N + 1) * T) 2 in
  last ← deref m pindexLast;
  let height := bi_nHeight last in
  let powLimit := UintToArith256 (powLimit params) in
  if height <? N then GetCompact powLimit false
  else
    first ← GetAncestor m pindexLast (height - N);
    match first with
    | None => Abort
    | Some p =>
        blockPreviousTimestamp ← deref m p;
        s ← foldM (lwma_body m pindexLast T N k height) (seqZ (height - N + 1) N)
              (mkLwma (CBlockIndex_GetBlockTime blockPreviousTimestamp) 0 0 bu_zero bu_zero);
        let nextTarget := bu_mul (bu_of_u64 (u64 (lw_t s))) (lw_sumTarget s) in
        up ← bu_div (bu_mul32 (lw_previousDiff s) 150) (bu_of_u64 100);
        let nextTarget := if bu_gt nextTarget up then up else nextTarget in
        down ← bu_div (bu_mul32 (lw_previousDiff s) 67) (bu_of_u64 100);
        let nextTarget := if bu_gt down nextTarget then down else nextTarget in
        let nextTarget := if bu_gt nextTarget powLimit then powLimit else nextTarget in
        GetCompact nextTarget false
    end.

(** ** [GetNextWorkRequired] *)

(** [for (int i = 0; pindexFirst && i < nPowAveragingWindow; i++)]; [n] rounds
    are left. *)
Fixpoint window_loop (n : nat) (m : BlockMap) (pindexFirst : option uint256) (bnTot : base_uint)
  : result (base_uint * option uint256) :=
  match n, pindexFirst with
  | S n', Some p =>
      b ← deref m p;
      window_loop n' m (bi_pprev b) (bu_add bnTot (compact_target (bi_nBits b)))
  | _, _ => Ok (bnTot, pindexFirst)
  end.

Definition GetNextWorkRequired (m : BlockMap) (pindexLast : option uint256) (pblock : option CBlockHeader)
  (params : Params) : result Z :=
  nProofOfWorkLimit ← GetCompact (UintToArith256 (powLimit params)) false;
  match pindexLast with
  | None => Ok nProofOfWorkLimit
  | Some p =>
      last ← deref m p;
      if (bi_nTime last <? eh_epoch_1_endtime params) && (eh_epoch_2_starttime params <=? bi_nTime last)
      then Ok nProofOfWorkLimit
      else if match nPowAllowMinDifficultyBlocksAfterHeight params, pblock with
              | Some h, Some b =>
                  (h <=? bi_nHeight last)
                  && (CBlockIndex_GetBlockTime last + nPowTargetSpacing params * 6 <? CBlockHeader_GetBlockTime b)
              | _, _ => false
              end
      then Ok nProofOfWorkLimit
      else
        w ← window_loop (Z.to_nat (nPowAveragingWindow params)) m (Some p) bu_zero;
        match w.2 with
        | None => Ok nProofOfWorkLimit
        | Some pindexFirst =>
            bnAvg ← bu_div w.1 (bu_of_u64 (u64 (nPowAveragingWindow params)));
            let nHeight := bi_nHeight last + 1 in
            digishield ←
              (if nHeight <? activation params UPGRADE_DIFA then Ok true
               else latveria ← NetworkUpgradeActive nHeight params UPGRADE_LATVERIA;
                    if (latveria : bool) then krakoa ← NetworkUpgradeActive nHeight params UPGRADE_KRAKOA; Ok (negb krakoa)
                    else Ok false);
            if (digishield : bool) then
              t1 ← GetMedianTimePast m p;
              t0 ← GetMedianTimePast m pindexFirst;
              DigishieldCalculateNextWorkRequired bnAvg t1 t0 params
            else Lwma3CalculateNextWorkRequired m p params
        end
  end.

(** ** Checking work *)

Definition CheckProofOfWork (hash : uint256) (nBits : Z) (params : Params) : bool :=
  let '(bnTarget, fNegative, fOverflow) := SetCompact nBits in
  if fNegative || EqualTo bnTarget 0 || fOverflow || bu_gt bnTarget (UintToArith256 (powLimit params)) then false
  else negb (bu_gt (UintToArith256 hash) bnTarget).

(** [librustzcash_eh_isvalid(n, k, input, nonce, soln, personalization)]. *)
Class EquihashVerifier := { eh_isvalid : Z -> Z -> bytes -> bytes -> bytes -> string -> bool }.

Definition CheckEquihashSolution `{EquihashVerifier} (pblock : CBlockHeader) (params : Params) : result bool :=
  let eh := if h_nTime pblock <=? eh_epoch_1_endtime params then eh_epoch_1 params else eh_epoch_2 params in
  ss ← ser_CEquihashInput pblock;
  Ok (eh_isvalid (eh_n eh) (eh_k eh) ss (le_bytes 32 (nNonce pblock)) (nSolution pblock) (eh_pers eh)).

Definition GetBlockProof (nBits : Z) : result base_uint :=
  let '(bnTarget, fNegative, fOverflow) := SetCompact nBits in
  if fNegative || fOverflow || EqualTo bnTarget 0 then Ok (bu_of_u64 0)
  else q ← bu_div (bu_lnot bnTarget) (bu_add bnTarget (bu_of_u64 1)); Ok (bu_add q (bu_of_u64 1)).

Definition GetBlockProofEquivalentTime (to from tip : CBlockIndex) (params : Params) : result Z :=
  let gt := bu_gt (bi_nChainWork to) (bi_nChainWork from) in
  let r := if gt then bu_sub (bi_nChainWork to) (bi_nChainWork from) else bu_sub (bi_nChainWork from) (bi_nChainWork to) in
  let sign := if gt then 1 else -1 in
  proof ← GetBlockProof (bi_nBits tip);
  r ← bu_div (bu_mul r (bu_of_u64 (u64 (nPowTargetSpacing params)))) proof;
  if 63 <? bu_bits r then Ok (sign * (2 ^ 63 - 1)) else Ok (i64 (sign * GetLow64 r)).

(** ** Totality and range of the required work *)

(** What the retargeting relies on of the network's parameters. *)
Record pow_params (params : Params) : Prop := {
  pp_limit : 0 <= powLimit params < M;
  pp_window : 0 < nPowAveragingWindow params < 2 ^ 16;
  pp_spacing : 0 < nPowTargetSpacing params < 2 ^ 16;
  pp_lwma : 0 <= nZawyLWMA3AveragingWindow params < 2 ^ 10
}.

Lemma networks_pow_params :
  pow_params main_consensus /\ pow_params testnet_consensus /\ pow_params regtest_consensus.
Proof. split_and!; split; vm_compute; done. Qed.

(** Every entry has a 32-bit [nBits]. *)
Definition bits_wf (m : BlockMap) : Prop := forall p b, m !! p = Some b -> is_u32 (bi_nBits b).

(** The compact form of a target that is at most the limit. *)
Definition within_limit (params : Params) (r : result Z) : Prop :=
  exists c t, r = Ok c /\ is_u32 c /\ SetCompact c = (t, false, false) /\ wf t /\ val t <= powLimit params.

Section Required.
Context (params : Params) (PP : pow_params params).

Lemma limit_spec : wf (UintToArith256 (powLimit params)) /\ val (UintToArith256 (powLimit params)) = powLimit params.
Proof using PP. apply UintToArith256_spec, PP. Qed.

Lemma GetCompact_within a : wf a -> val a <= powLimit params -> within_limit params (GetCompact a false).
Proof using PP.
  intros Wa Ha. destruct (compact_ok a Wa) as (c & r & E & Hc & Es & Wr & Vr & _ & _). exists c, r.
  split_and!; [done..|]. etransitivity; [|exact Ha]. rewrite Vr. pose proof (compact_unit_pos (Z.shiftr c 24)).
  pose proof (Z.mul_div_le (val a) (compact_unit (Z.shiftr c 24))). lia.
Qed.

(** [if (bn > bnPowLimit) bn = bnPowLimit], then [GetCompact]. *)
Lemma clamped_within a : wf a -> within_limit params
  (GetCompact (if bu_gt a (UintToArith256 (powLimit params)) then UintToArith256 (powLimit params) else a) false).
Proof using PP.
  intros Wa. destruct limit_spec as [Wl Vl]. rewrite gt_spec by done. rewrite Vl.
  destruct (Z.ltb_spec (powLimit params) (val a)); apply GetCompact_within; try done; lia.
Qed.

Lemma div_u64_ok a n : wf a -> is_u64 n -> n <> 0 ->
  exists q, bu_div a (bu_of_u64 n) = Ok q /\ wf q /\ val q = val a / n.
Proof using Type.
  intros Wa Hn Hn0. destruct (of_u64_spec n Hn) as [Wn Vn].
  destruct (div_spec a (bu_of_u64 n) Wa Wn) as (q & E & Wq & Vq); [by rewrite Vn|]. exists q. by rewrite Vn in Vq.
Qed.

Lemma AveragingWindowTimespan_bound : 0 < AveragingWindowTimespan params < 2 ^ 32.
Proof using PP. destruct PP. unfold AveragingWindowTimespan. nia. Qed.

Lemma Digishield_within bnAvg t1 t0 : wf bnAvg ->
  within_limit params (DigishieldCalculateNextWorkRequired bnAvg t1 t0 params).
Proof using PP.
  intros Wa. pose proof AveragingWindowTimespan_bound. unfold DigishieldCalculateNextWorkRequired.
  rewrite u64_small by (unfold is_u64; lia).
  destruct (div_u64_ok bnAvg (AveragingWindowTimespan params)) as (q & -> & Wq & _); [done|unfold is_u64; lia|lia|]. mstep.
  apply clamped_within. apply mul32_spec; [done|apply u32_bound].
Qed.

Lemma lwma_k_bound N T : 0 < N < 2 ^ 10 -> 0 < T < 2 ^ 16 ->
  0 < Z.quot (N * (N + 1) * T) 2 * N < 2 ^ 60 /\ 2 * Z.quot (N * (N + 1) * T) 2 = N * (N + 1) * T.
Proof using Type.
  intros HN HT. set (k := Z.quot _ _).
  assert (Hk : 2 * k = N * (N + 1) * T).
  { unfold k. rewrite Z.quot_div_nonneg by nia. destruct (Z.Even_or_Odd N) as [[z Hz]|[z Hz]].
    - rewrite Hz. replace (2 * z * (2 * z + 1) * T) with (z * (2 * z + 1) * T * 2) by lia. rewrite Z.div_mul by lia. lia.
    - rewrite Hz. replace ((2 * z + 1) * (2 * z + 1 + 1) * T) with ((2 * z + 1) * (z + 1) * T * 2) by lia.
      rewrite Z.div_mul by lia. lia. }
  split; [|done]. assert (0 < N * (N + 1) * T) by nia. assert (N * (N + 1) * T < 2 ^ 10 * 2 ^ 11 * 2 ^ 16) by nia. nia.
Qed.

(** *** The weighted average, over integers *)

(** Weighted solve times and scaled targets of the blocks of a window, oldest
    first, after a block with timestamp [prev] and weight [j]. *)
Fixpoint lwma_sums (T kN prev j : Z) (l : list CBlockIndex) : Z * Z :=
  match l with
  | [] => (0, 0)
  | b :: l' =>
      let this := if prev <? bi_nTime b then bi_nTime b else prev + 1 in
      let r := lwma_sums T kN this (j + 1) l' in
      (Z.min (6 * T) (this - prev) * (j + 1) + r.1, val (compact_target (bi_nBits b)) / kN + r.2)
  end.

(** The next target: the weighted average, within 67% and 150% of the last
    target and below the limit. *)
Definition lwma_next (limit t sum previous : Z) : Z :=
  Z.min limit (Z.max (previous * 67 / 100) (Z.min (previous * 150 / 100) (t * sum))).

Lemma lwma_sums_bound T kN P : 0 < T -> 0 < kN -> forall l prev j, 0 <= j ->
  Forall (fun b => 0 <= val (compact_target (bi_nBits b)) <= P) l ->
  0 <= (lwma_sums T kN prev j l).1 /\ 2 * (lwma_sums T kN prev j l).1 <= 6 * T * (Z.of_nat (length l) * (2 * j + Z.of_nat (length l) + 1))
  /\ 0 <= (lwma_sums T kN prev j l).2 <= Z.of_nat (length l) * (P / kN).
Proof using Type.
  intros HT HkN. induction l as [|b l IH]; intros prev j Hj Hl; [cbn; lia|]. apply Forall_cons in Hl as [Hb Hl].
  cbn [lwma_sums fst snd length]. set (this := if prev <? bi_nTime b then bi_nTime b else prev + 1).
  destruct (IH this (j + 1)) as (I1 & I2 & I3); [lia|done|].
  assert (0 <= this - prev) by (unfold this; destruct (Z.ltb_spec prev (bi_nTime b)); lia).
  assert (0 <= val (compact_target (bi_nBits b)) / kN <= P / kN) by (split; [apply Z.div_pos|apply Z.div_le_mono]; lia).
  set (x := Z.min _ _). assert (0 <= x <= 6 * T) by lia. nia.
Qed.

Context (m : BlockMap) (W : tree_wf m) (Hbits : bits_wf m).

(** The block at a height of the branch of [p]. *)
Definition chain_block (p : uint256) (i : Z) : option CBlockIndex := a ← ancestor_at m p i; m !! a.

Lemma chain_block_exists p b i : m !! p = Some b -> 0 <= i <= bi_nHeight b -> is_Some (chain_block p i).
Proof using W.
  intros Hp Hi. destruct (ancestor_exists m W p b i Hp Hi) as (q & bq & H1 & H2 & _). unfold chain_block. rewrite H1. cbn. eauto.
Qed.

Lemma lwma_body_ok p b T N k height s i blk : m !! p = Some b -> chain_block p i = Some blk ->
  wf (lw_sumTarget s) -> wf (lw_previousDiff s) -> 0 < k * N < 2 ^ 60 ->
  exists s', lwma_body m p T N k height s i = Ok s' /\ wf (lw_sumTarget s') /\ wf (lw_previousDiff s')
    /\ lw_j s' = lw_j s + 1
    /\ lw_previousTimestamp s' = (if lw_previousTimestamp s <? bi_nTime blk then bi_nTime blk else lw_previousTimestamp s + 1)
    /\ lw_t s' = lw_t s + Z.min (6 * T) (lw_previousTimestamp s' - lw_previousTimestamp s) * (lw_j s + 1)
    /\ val (lw_sumTarget s') = (val (lw_sumTarget s) + val (compact_target (bi_nBits blk)) / (k * N)) mod M
    /\ lw_previousDiff s' = (if i =? height then compact_target (bi_nBits blk) else lw_previousDiff s).
Proof using W Hbits.
  intros Hp Hblk Ws Wd HkN. unfold lwma_body. rewrite (GetAncestor_ok m W p b) by done. mstep.
  unfold chain_block in Hblk. destruct (ancestor_at m p i) as [a|]; [|done]. cbn in Hblk.
  unfold deref. rewrite Hblk. mstep. pose proof (compact_target_wf _ (Hbits _ _ Hblk)) as Wt.
  rewrite u64_small by (unfold is_u64; lia).
  destruct (div_u64_ok (compact_target (bi_nBits blk)) (k * N)) as (q & -> & Wq & Vq); [done|unfold is_u64; lia|lia|]. mstep.
  eexists. split; [done|]. destruct (add_spec _ q Ws Wq) as [Wa Va].
  cbn [lw_sumTarget lw_previousDiff lw_j lw_previousTimestamp lw_t]. unfold CBlockIndex_GetBlockTime.
  split; [exact Wa|]. split; [destruct (i =? height); [exact Wt|exact Wd]|]. rewrite Va, Vq. by split_and!.
Qed.

Lemma lwma_fold_ok p b T N k P height : m !! p = Some b -> 0 < T -> 0 < k * N < 2 ^ 60 -> forall blks i s,
  Forall2 (fun i blk => chain_block p i = Some blk) (seqZ i (Z.of_nat (length blks))) blks ->
  wf (lw_sumTarget s) -> wf (lw_previousDiff s) -> 0 <= lw_j s ->
  exists s', foldM (lwma_body m p T N k height) (seqZ i (Z.of_nat (length blks))) s = Ok s'
    /\ wf (lw_sumTarget s') /\ wf (lw_previousDiff s')
    /\ lw_t s' = lw_t s + (lwma_sums T (k * N) (lw_previousTimestamp s) (lw_j s) blks).1
    /\ (Forall (fun b => 0 <= val (compact_target (bi_nBits b)) <= P) blks ->
        val (lw_sumTarget s) + (lwma_sums T (k * N) (lw_previousTimestamp s) (lw_j s) blks).2 < M ->
        val (lw_sumTarget s') = val (lw_sumTarget s) + (lwma_sums T (k * N) (lw_previousTimestamp s) (lw_j s) blks).2)
    /\ (forall blk, i + Z.of_nat (length blks) = height + 1 -> last blks = Some blk -> lw_previousDiff s' = compact_target (bi_nBits blk)).
Proof using W Hbits.
  intros Hp HT HkN. induction blks as [|blk blks IH]; intros i s HF Ws Wd Hj.
  { exists s. split_and!; [done..|cbn; lia|intros; cbn; lia|done]. }
  cbn [length] in *. rewrite seqZ_cons in * by lia. apply Forall2_cons in HF as [Hblk HF].
  replace (Z.pred (Z.of_nat (S (length blks)))) with (Z.of_nat (length blks)) in * by lia. rewrite <- Z.add_1_r in *.
  destruct (lwma_body_ok p b T N k height s i blk Hp Hblk Ws Wd HkN) as (s1 & E & Ws1 & Wd1 & Ej & Ep & Et & Es & Ed).
  destruct (IH (i + 1) s1 HF Ws1 Wd1) as (s' & E' & Ws' & Wd' & Et' & Es' & Ed'); [lia|]. cbn [foldM]. rewrite E. mstep.
  exists s'. split_and!; [done|done|done|..].
  - rewrite Et', Et, Ej. cbn [lwma_sums fst]. rewrite <- Ep. lia.
  - intros Hl HM. apply Forall_cons in Hl as [Hb Hl]. cbn [lwma_sums snd] in *. rewrite <- Ep, <- Ej in *.
    pose proof (wf_bound _ Ws). pose proof (Z.div_pos (val (compact_target (bi_nBits blk))) (k * N)).
    pose proof (lwma_sums_bound T (k * N) P ltac:(lia) ltac:(lia) blks (lw_previousTimestamp s1) (lw_j s1) ltac:(lia) Hl).
    rewrite Z.mod_small in Es by lia. rewrite Es' by (done || lia). lia.
  - intros blk' Hi Hlast. destruct blks as [|b2 blks].
    + injection Hlast as <-. cbn in E'. injection E' as <-. rewrite Ed. cbn in Hi. by rewrite (proj2 (Z.eqb_eq _ _)) by lia.
    + apply Ed'; [lia|done].
Qed.
End Required.

Lemma deref_Some m p b : m !! p = Some b -> deref m p = Ok b.
Proof. unfold deref. by intros ->. Qed.

(** The sums of a window of [N] blocks: neither they nor their product
    overflow. *)
Lemma lwma_product N T k P first blks : 0 < N -> 0 < T < 2 ^ 16 -> 0 < k * N < 2 ^ 60 -> 2 * k = N * (N + 1) * T -> 0 <= P < M ->
  Z.of_nat (length blks) = N -> Forall (fun b => 0 <= val (compact_target (bi_nBits b)) <= P) blks ->
  let sums := lwma_sums T (k * N) first 0 blks in
  0 <= sums.1 < 2 ^ 64 /\ 0 <= sums.1 <= 6 * k /\ 0 <= sums.2 <= P /\ sums.1 * sums.2 <= 6 * P.
Proof.
  intros HN HT HkN Hk HPM Hl HP sums.
  destruct (lwma_sums_bound T (k * N) P ltac:(lia) ltac:(lia) blks first 0 ltac:(lia) HP) as (B1 & B2 & B3).
  rewrite Hl in B2, B3. fold sums in B1, B2, B3.
  pose proof (Z.mul_div_le P (k * N) ltac:(lia)) as Hdiv. pose proof (Z.div_pos P (k * N) ltac:(lia) ltac:(lia)) as Hdiv0.
  assert (0 < k) by nia. set (q := P / (k * N)) in *. assert (Ht : 0 <= sums.1 <= 6 * k) by nia.
  assert (N * q <= P) by nia. split_and!; try nia.
Qed.

Section RequiredWork.
Context (params : Params) (PP : pow_params params) (m : BlockMap) (W : tree_wf m) (Hbits : bits_wf m).

Lemma chain_blocks_exist p b i n : m !! p = Some b -> 0 <= i -> i + Z.of_nat n <= bi_nHeight b + 1 ->
  exists blks, length blks = n /\ Forall2 (fun i blk => chain_block m p i = Some blk) (seqZ i (Z.of_nat n)) blks.
Proof using W.
  intros Hp. revert i. induction n as [|n IH]; intros i Hi Hn; [by exists []|].
  destruct (chain_block_exists m W p b i Hp) as [blk Hblk]; [lia|]. destruct (IH (i + 1)) as (blks & Hl & HF); [lia..|].
  exists (blk :: blks). split; [cbn; lia|]. rewrite seqZ_cons by lia. constructor; [done|].
  by replace (Z.pred (Z.of_nat (S n))) with (Z.of_nat n) by lia.
Qed.

Abbreviation N := (nZawyLWMA3AveragingWindow params).
Abbreviation T := (nPowTargetSpacing params).
Abbreviation k := (Z.quot (N * (N + 1) * T) 2).

(** The body of [Lwma3CalculateNextWorkRequired] past its guard, as a function
    of the state its loop ends with. *)
Lemma lwma_tail s : wf (lw_sumTarget s) -> wf (lw_previousDiff s) ->
  exists next, wf next /\
    (up ← bu_div (bu_mul32 (lw_previousDiff s) 150) (bu_of_u64 100);
     let nextTarget := bu_mul (bu_of_u64 (u64 (lw_t s))) (lw_sumTarget s) in
     let nextTarget := if bu_gt nextTarget up then up else nextTarget in
     down ← bu_div (bu_mul32 (lw_previousDiff s) 67) (bu_of_u64 100);
     let nextTarget := if bu_gt down nextTarget then down else nextTarget in
     GetCompact (if bu_gt nextTarget (UintToArith256 (powLimit params)) then UintToArith256 (powLimit params) else nextTarget) false)
    = GetCompact (if bu_gt next (UintToArith256 (powLimit params)) then UintToArith256 (powLimit params) else next) false
    /\ (is_u64 (lw_t s) -> val (lw_previousDiff s) * 150 < M -> lw_t s * val (lw_sumTarget s) < M ->
        val next = Z.max (val (lw_previousDiff s) * 67 / 100)
                     (Z.min (val (lw_previousDiff s) * 150 / 100) (lw_t s * val (lw_sumTarget s)))).
Proof using Type.
  intros Ws Wd. destruct (mul32_spec (lw_previousDiff s) 150 Wd) as [W1 V1]; [unfold is_u32; lia|].
  destruct (mul32_spec (lw_previousDiff s) 67 Wd) as [W2 V2]; [unfold is_u32; lia|].
  destruct (div_u64_ok (bu_mul32 (lw_previousDiff s) 150) 100) as (up & -> & Wu & Vu); [done|unfold is_u64; lia|lia|].
  destruct (div_u64_ok (bu_mul32 (lw_previousDiff s) 67) 100) as (dn & -> & Wdn & Vdn); [done|unfold is_u64; lia|lia|].
  cbn [mbind result_bind]. destruct (of_u64_spec (u64 (lw_t s)) (u64_bound _)) as [Wt Vt].
  destruct (mul_spec _ _ Wt Ws) as [Wm Vm]. set (x := bu_mul _ _) in *.
  assert (W3 : wf (if bu_gt x up then up else x)) by by destruct (bu_gt x up).
  eexists. split; [|split; [done|]]; [by destruct (bu_gt dn _)|].
  intros Ht Hd Hp. pose proof (wf_bound _ Wd). pose proof (wf_bound _ Ws).
  rewrite Vt, (u64_small (lw_t s)) in Vm by done. rewrite Z.mod_small in Vm by (unfold is_u64 in Ht; nia).
  rewrite Z.mod_small in V1, V2 by lia. rewrite V1 in Vu. rewrite V2 in Vdn.
  rewrite (gt_spec dn) by done. rewrite gt_spec by done. rewrite Vu, Vdn, Vm.
  destruct (Z.ltb_spec (val (lw_previousDiff s) * 150 / 100) (lw_t s * val (lw_sumTarget s))).
  - rewrite Vu. destruct (Z.ltb_spec (val (lw_previousDiff s) * 150 / 100) (val (lw_previousDiff s) * 67 / 100)); rewrite ?Vu, ?Vdn; lia.
  - rewrite Vm. destruct (Z.ltb_spec (lw_t s * val (lw_sumTarget s)) (val (lw_previousDiff s) * 67 / 100)); rewrite ?Vm, ?Vdn; lia.
Qed.

(** The loop over the window, for a block above it. *)
Lemma lwma_loop p b : m !! p = Some b -> 0 <= N <= bi_nHeight b ->
  exists first blks s, chain_block m p (bi_nHeight b - N) = Some first
    /\ Z.of_nat (length blks) = N
    /\ Forall2 (fun i blk => chain_block m p i = Some blk) (seqZ (bi_nHeight b - N + 1) N) blks
    /\ wf (lw_sumTarget s) /\ wf (lw_previousDiff s)
    /\ Lwma3CalculateNextWorkRequired m p params =
       (up ← bu_div (bu_mul32 (lw_previousDiff s) 150) (bu_of_u64 100);
        let nextTarget := bu_mul (bu_of_u64 (u64 (lw_t s))) (lw_sumTarget s) in
        let nextTarget := if bu_gt nextTarget up then up else nextTarget in
        down ← bu_div (bu_mul32 (lw_previousDiff s) 67) (bu_of_u64 100);
        let nextTarget := if bu_gt down nextTarget then down else nextTarget in
        GetCompact (if bu_gt nextTarget (UintToArith256 (powLimit params)) then UintToArith256 (powLimit params) else nextTarget) false)
    /\ (0 < N -> lw_t s = (lwma_sums T (k * N) (bi_nTime first) 0 blks).1
        /\ lw_previousDiff s = compact_target (bi_nBits b)
        /\ forall P, Forall (fun b => 0 <= val (compact_target (bi_nBits b)) <= P) blks ->
           (lwma_sums T (k * N) (bi_nTime first) 0 blks).2 < M ->
           val (lw_sumTarget s) = (lwma_sums T (k * N) (bi_nTime first) 0 blks).2).
Proof using All.
  intros Hp HN. unfold Lwma3CalculateNextWorkRequired. rewrite (deref_Some m p b Hp). mstep.
  rewrite (proj2 (Z.ltb_ge _ _)) by lia. rewrite (GetAncestor_ok m W p b) by done. mstep.
  destruct (chain_block_exists m W p b (bi_nHeight b - N) Hp) as [first Hf]; [lia|]. pose proof Hf as Hf'.
  unfold chain_block in Hf'. destruct (ancestor_at m p (bi_nHeight b - N)) as [a|]; [|done]. cbn in Hf'.
  rewrite (deref_Some m a first Hf'). mstep.
  destruct (chain_blocks_exist p b (bi_nHeight b - N + 1) (Z.to_nat N) Hp) as (blks & Hl & HF); [lia..|].
  rewrite Z2Nat.id in HF by lia. assert (HlN : Z.of_nat (length blks) = N) by lia. exists first, blks.
  destruct (decide (N = 0)) as [E0|E0].
  - rewrite E0 in *. destruct blks; [|cbn in HlN; lia].
    eexists (mkLwma (bi_nTime first) 0 0 bu_zero bu_zero).
    split_and!; [done|done|done|apply wf_zero|apply wf_zero|done|lia].
  - destruct (lwma_k_bound N T) as [HkN _]; [pose proof (pp_lwma _ PP); lia|apply PP|].
    destruct (lwma_fold_ok m W Hbits p b T N k M (bi_nHeight b) Hp) with (blks := blks) (i := bi_nHeight b - N + 1)
      (s := mkLwma (bi_nTime first) 0 0 bu_zero bu_zero) as (s & E & Ws & Wd & Et & _ & Ed);
      [apply PP|done|by rewrite HlN|apply wf_zero|apply wf_zero|done|].
    exists s. rewrite HlN in E. unfold CBlockIndex_GetBlockTime. rewrite E. mstep.
    split_and!; [done|done|done|done|done|done|]. intros _. split; [by rewrite Et|]. split.
    + destruct (snoc_inv blks) as (l0 & bl & El); [by intros ->; cbn in HlN; lia|].
      rewrite (Ed bl); [|lia|by rewrite El, last_snoc].
      assert (Hlast : chain_block m p (bi_nHeight b) = Some bl).
      { assert (Hb : blks !! Nat.pred (length blks) = Some bl) by (rewrite <- last_lookup; by rewrite El, last_snoc).
        destruct (Forall2_lookup_r _ _ _ _ _ HF Hb) as (i & Hi & Hc). apply lookup_seqZ in Hi as [-> Hi].
        by replace (bi_nHeight b - N + 1 + Z.of_nat (Nat.pred (length blks))) with (bi_nHeight b) in Hc by lia. }
      unfold chain_block in Hlast. rewrite (ancestor_self m W p b Hp) in Hlast. cbn in Hlast. congruence.
    + intros P HP HM.
      destruct (lwma_fold_ok m W Hbits p b T N k P (bi_nHeight b) Hp) with (blks := blks) (i := bi_nHeight b - N + 1)
        (s := mkLwma (bi_nTime first) 0 0 bu_zero bu_zero) as (s2 & E2 & _ & _ & _ & Es & _);
        [apply PP|done|by rewrite HlN|apply wf_zero|apply wf_zero|done|].
      rewrite HlN, E in E2. injection E2 as <-. by apply Es.
Qed.

(** Hence the result, from the sums. *)
Lemma lwma_result p b : m !! p = Some b -> 0 < N <= bi_nHeight b ->
  (forall q bq, m !! q = Some bq -> val (compact_target (bi_nBits bq)) <= powLimit params) -> powLimit params * 150 < M ->
  exists first blks, chain_block m p (bi_nHeight b - N) = Some first
    /\ Forall2 (fun i blk => chain_block m p i = Some blk) (seqZ (bi_nHeight b - N + 1) N) blks
    /\ (let sums := lwma_sums T (k * N) (bi_nTime first) 0 blks in
        let next := lwma_next (powLimit params) sums.1 sums.2 (val (compact_target (bi_nBits b))) in
        Lwma3CalculateNextWorkRequired m p params = GetCompact (UintToArith256 next) false).
Proof using All.
  intros Hp HN Htargets Hlim.
  destruct (lwma_loop p b Hp) as (first & blks & s & Hf & Hl & HF & Ws & Wd & E & Hs); [lia|].
  destruct (Hs ltac:(lia)) as (Et & Ed & Es). exists first, blks. split_and!; [done..|]. cbv zeta.
  destruct (lwma_k_bound N T) as [HkN Hk]; [pose proof (pp_lwma _ PP); lia|apply PP|].
  assert (HP : Forall (fun b => 0 <= val (compact_target (bi_nBits b)) <= powLimit params) blks).
  { apply Forall_forall. intros blk Hin. apply list_elem_of_lookup in Hin as [i Hi].
    destruct (Forall2_lookup_r _ _ _ _ _ HF Hi) as (z & _ & Hz). unfold chain_block in Hz.
    destruct (ancestor_at m p z) as [a|]; [|done]. cbn in Hz. split; [|by eapply Htargets].
    apply wf_bound, compact_target_wf. by eapply Hbits. }
  destruct (lwma_product N T k (powLimit params) (bi_nTime first) blks) as (B1 & B2 & B3 & B4);
    [lia|apply PP|done|lia|apply PP|done|done|].
  set (sums := lwma_sums T (k * N) (bi_nTime first) 0 blks) in *.
  pose proof (Htargets p b Hp) as Hprev. pose proof (pp_limit _ PP). destruct (limit_spec params PP) as [Wl Vl].
  rewrite E.
  destruct (lwma_tail s Ws Wd) as (next & Wn & -> & Vn). rewrite Ed, Et in Vn. rewrite (Es (powLimit params) HP) in Vn by lia.
  specialize (Vn ltac:(unfold is_u64; lia) ltac:(lia) ltac:(lia)).
  assert (Hx : forall x y, wf x -> wf y -> val x = val y -> GetCompact x false = GetCompact y false).
  { intros x y [Lx Hx] [Ly Hy] Hv. f_equal. by apply val_inj; [..|congruence|]. }
  unfold lwma_next. rewrite <- Vn. pose proof (wf_bound _ Wn). rewrite gt_spec by done. rewrite Vl.
  destruct (UintToArith256_spec (Z.min (powLimit params) (val next))) as [Wu Vu]; [lia|].
  apply Hx; [by destruct (_ <? _)|done|]. rewrite Vu. destruct (Z.ltb_spec (powLimit params) (val next)); rewrite ?Vl; lia.
Qed.

Lemma Lwma3_within p b : m !! p = Some b -> within_limit params (Lwma3CalculateNextWorkRequired m p params).
Proof using All.
  intros Hp. destruct (limit_spec params PP) as [Wl Vl]. destruct (Z.lt_ge_cases (bi_nHeight b) N).
  - unfold Lwma3CalculateNextWorkRequired. rewrite (deref_Some m p b Hp). mstep. rewrite (proj2 (Z.ltb_lt _ _)) by done.
    apply GetCompact_within; [done..|lia].
  - destruct (lwma_loop p b Hp) as (_ & _ & s & _ & _ & _ & Ws & Wd & -> & _); [pose proof (pp_lwma _ PP); lia|].
    destruct (lwma_tail s Ws Wd) as (next & Wn & -> & _). by apply clamped_within.
Qed.

Lemma window_loop_ok n : forall p bnTot, match p with Some h => is_Some (m !! h) | None => True end -> wf bnTot ->
  exists t q, window_loop n m p bnTot = Ok (t, q) /\ wf t /\ match q with Some h => is_Some (m !! h) | None => True end.
Proof using W Hbits.
  induction n as [|n IH]; intros p bnTot Hp Wt; cbn [window_loop]; [eauto|]. destruct p as [p|]; [|eauto].
  destruct Hp as [b Hp]. rewrite (deref_Some m p b Hp). mstep. apply IH.
  - pose proof (tw_prev m W p b Hp) as Hq. destruct (bi_pprev b) as [q|]; [|done]. destruct Hq as (b' & Hq & _). eauto.
  - apply add_spec; [done|]. apply compact_target_wf. by eapply Hbits.
Qed.

Lemma GetNextWorkRequired_ok pindexLast pblock : match pindexLast with Some h => is_Some (m !! h) | None => True end ->
  within_limit params (GetNextWorkRequired m pindexLast pblock params).
Proof using All.
  intros Hp. destruct (limit_spec params PP) as [Wl Vl].
  assert (Hlim : within_limit params (GetCompact (UintToArith256 (powLimit params)) false))
    by (apply GetCompact_within; [done..|lia]).
  unfold GetNextWorkRequired. destruct (GetCompact _ false) as [c| |] eqn:Ec; [|by destruct Hlim as (? & ? & ? & _)..]. mstep.
  destruct pindexLast as [p|]; [|done]. destruct Hp as [b Hp]. rewrite (deref_Some m p b Hp). mstep.
  destruct (_ && _); [done|]. match goal with |- context [if ?c then Ok _ else _] => destruct c; [done|] end.
  destruct (window_loop_ok (Z.to_nat (nPowAveragingWindow params)) (Some p) bu_zero) as (t & q & -> & Wt & Hq);
    [eauto|apply wf_zero|]. mstep. cbn [fst snd]. destruct q as [q|]; [|done]. destruct Hq as [bq Hq].
  pose proof (pp_window _ PP). rewrite u64_small by (unfold is_u64; lia).
  destruct (div_u64_ok t (nPowAveragingWindow params)) as (avg & -> & Wavg & _); [done|unfold is_u64; lia|lia|]. mstep.
  destruct (GetMedianTimePast_ok m p b W Hp) as (t1 & _ & _ & -> & _).
  destruct (GetMedianTimePast_ok m q bq W Hq) as (t0 & _ & _ & -> & _). mstep.
  pose proof (tw_height m W _ _ Hp). pose proof (Lwma3_within p b Hp) as HL.
  pose proof (Digishield_within params PP avg t1 t0 Wavg) as HD.
  rewrite !NetworkUpgradeActive_ok by lia. mstep.
  repeat match goal with |- context [if ?c then _ else _] => destruct c; mstep end; done.
Qed.
End RequiredWork.

(** (C40) The LWMA-3 retarget.  On a well-formed tree whose targets are within
    the limit, and when 150 times the limit fits in 256 bits,
    [Lwma3CalculateNextWorkRequired] computes without overflow the compact form
    of the weighted average: the sum over the last N blocks of the solve times,
    each at most 6T and weighted by its position, times the sum of the targets
    divided by kN; kept between 67% and 150% of the last target and below the
    limit. *)
Theorem Lwma3_correct (params : Params) (m : BlockMap) (p : uint256) (b : CBlockIndex)
  (PP : pow_params params) (W : tree_wf m) (Hbits : bits_wf m) (Hp : m !! p = Some b)
  (HN : 0 < nZawyLWMA3AveragingWindow params <= bi_nHeight b)
  (Hlim : powLimit params * 150 < M)
  (Htargets : forall q bq, m !! q = Some bq -> val (compact_target (bi_nBits bq)) <= powLimit params) :
  exists first blks next,
    let N := nZawyLWMA3AveragingWindow params in
    let T := nPowTargetSpacing params in
    let previous := val (compact_target (bi_nBits b)) in
    let sums := lwma_sums T (N * (N + 1) * T / 2 * N) (bi_nTime first) 0 blks in
    chain_block m p (bi_nHeight b - N) = Some first
    /\ Forall2 (fun i blk => chain_block m p i = Some blk) (seqZ (bi_nHeight b - N + 1) N) blks
    /\ next = lwma_next (powLimit params) sums.1 sums.2 previous
    /\ Lwma3CalculateNextWorkRequired m p params = GetCompact (UintToArith256 next) false
    /\ Z.min (powLimit params) (previous * 67 / 100) <= next <= previous * 150 / 100.
Proof.
  destruct (lwma_result params PP m W Hbits p b Hp HN Htargets Hlim) as (first & blks & Hf & HF & E). exists first, blks.
  pose proof (pp_spacing _ PP). rewrite Z.quot_div_nonneg in E by nia. eexists. cbv zeta in *. split_and!; [done|done|done|exact E|..];
    unfold lwma_next; pose proof (Htargets p b Hp); pose proof (wf_bound _ (compact_target_wf _ (Hbits p b Hp)));
    set (v := val _) in *; assert (v * 67 / 100 <= v * 150 / 100) by (apply Z.div_le_mono; lia); lia.
Qed.

(** ** Example chains *)

(** [n] blocks in a row, [spacing] seconds apart, with the same [nBits]. *)
Definition line_block (n : nat) (spacing bits : Z) : CBlockIndex :=
  mkIndex (match n with O => None | _ => Some (Z.of_nat n) end) None (Z.of_nat n) 0 0 0 bu_zero 1 1 BLOCK_VALID_TREE
    None 0 0 None None 0 None 4 0 0 (spacing * Z.of_nat n) bits 0 [] 0.
Fixpoint line (n : nat) (spacing bits : Z) : BlockMap :=
  match n with
  | O => ∅
  | S n' => <[Z.of_nat n := line_block n' spacing bits]> (line n' spacing bits)
  end.

Lemma line_lookup n sp bits z b : line n sp bits !! z = Some b ->
  exists i, (i < n)%nat /\ z = Z.of_nat (S i) /\ b = line_block i sp bits.
Proof.
  induction n as [|n IH]; cbn [line]; [by rewrite lookup_empty|]. rewrite lookup_insert_Some.
  intros [[<- <-]|[_ H]]; [by exists n; split_and!; [lia|..]|]. destruct (IH H) as (i & Hi & -> & ->). exists i. split_and!; [lia|done..].
Qed.

Lemma line_here n sp bits : line (S n) sp bits !! Z.of_nat (S n) = Some (line_block n sp bits).
Proof. cbn [line]. apply lookup_insert_eq. Qed.

Lemma line_wf n sp bits : tree_wf (line n sp bits).
Proof.
  induction n as [|n IH]; [split; intros *; cbn [line]; rewrite lookup_empty; done|]. cbn [line].
  apply tree_wf_insert; [done| |cbn; lia| |done].
  - destruct (line n sp bits !! Z.of_nat (S n)) eqn:E; [|done]. apply line_lookup in E as (i & Hi & Hz & _). lia.
  - destruct n as [|n]; [done|]. exists (line_block n sp bits). split; [apply line_here|]. cbn. lia.
Qed.

Lemma line_bits_wf n sp bits : is_u32 bits -> bits_wf (line n sp bits).
Proof. intros Hb p b (i & _ & _ & ->)%line_lookup. done. Qed.

(** The main network's rules with a window of two blocks. *)
Definition short_window : Params :=
  let p := main_consensus in
  mkParams (fCoinbaseMustBeProtected p) (nSubsidySlowStartInterval p) (nSubsidyHalvingInterval p) (nDelayHalvingBlocks p)
    (nMajorityEnforceBlockUpgrade p) (nMajorityRejectBlockOutdated p) (nMajorityWindow p) (vUpgrades p) (powLimit p)
    (powLimitTop p) (nPowAllowMinDifficultyBlocksAfterHeight p) (nPowAveragingWindow p) (nPowMaxAdjustDown p)
    (nPowMaxAdjustUp p) (nPowTargetSpacing p) (nTimeshiftPriv p) (nProposalEstablishmentTime p)
    (nMasternodePaymentsStartBlock p) (nMasternodePaymentsIncreasePeriod p) (eh_epoch_1 p) (eh_epoch_2 p)
    (eh_epoch_1_endtime p) (eh_epoch_2_starttime p) (nMinimumChainWork p) 2.

Lemma Lwma3_correct_witness :
  exists next, Lwma3CalculateNextWorkRequired (line 3 120 0x1e0ffff0) 3 short_window = GetCompact (UintToArith256 next) false
    /\ GetCompact (UintToArith256 next) false = Ok 0x1e17ffe8.
Proof.
  destruct (Lwma3_correct short_window (line 3 120 0x1e0ffff0) 3 (line_block 2 120 0x1e0ffff0)) as (first & blks & next & H).
  - split; vm_compute; done.
  - apply line_wf.
  - apply line_bits_wf. unfold is_u32. lia.
  - apply line_here.
  - cbn. lia.
  - vm_compute. reflexivity.
  - intros q bq (i & _ & _ & ->)%line_lookup. vm_compute. discriminate.
  - destruct H as (_ & _ & _ & H & _). exists next. split; [exact H|]. rewrite <- H. vm_compute. reflexivity.
Defined.

(** On the test network, whose limit is about 2^251, multiplying a target near
    the limit by 150 wraps around 2^256: the upper bound of the LWMA-3 step for
    a last target at the limit is below a quarter of that target. *)
Lemma Lwma3_testnet_wraps : exists up,
  bu_div (bu_mul32 (compact_target 0x2007ffff) 150) (bu_of_u64 100) = Ok up
  /\ val (compact_target 0x2007ffff) <= powLimit testnet_consensus
  /\ val up * 4 < val (compact_target 0x2007ffff).
Proof.
  assert (W : wf (compact_target 0x2007ffff)) by (apply compact_target_wf; unfold is_u32; lia).
  destruct (mul32_spec _ 150 W) as [Wm Vm]; [unfold is_u32; lia|].
  destruct (div_u64_ok _ 100 Wm) as (up & E & _ & Vu); [unfold is_u64; lia|lia|].
  exists up. split; [exact E|]. rewrite Vu, Vm. vm_compute. split; [discriminate|reflexivity].
Qed.

(** The required work is always well defined: on a well-formed tree
    [GetNextWorkRequired] neither throws (no division by zero), nor fails an
    assertion, nor follows a null pointer, for any tip and candidate block, on
    any of the three networks; the [nBits] it returns decode without the
    negative or overflow flag to a target that is at most the limit, so they
    pass the range check of [CheckProofOfWork] unless the target is zero. *)
Theorem GetNextWorkRequired_within (params : Params) (m : BlockMap) (pindexLast : option uint256) (pblock : option CBlockHeader)
  (PP : pow_params params) (W : tree_wf m) (Hbits : bits_wf m)
  (Hlast : match pindexLast with Some h => is_Some (m !! h) | None => True end) :
  exists c t, GetNextWorkRequired m pindexLast pblock params = Ok c /\ is_u32 c
    /\ SetCompact c = (t, false, false) /\ wf t /\ val t <= powLimit params
    /\ forall hash, 0 <= hash < M -> CheckProofOfWork hash c params = (0 <? val t) && (hash <=? val t).
Proof.
  destruct (GetNextWorkRequired_ok params PP m W Hbits pindexLast pblock Hlast) as (c & t & E & Hc & Es & Wt & Vt).
  exists c, t. split_and!; [done..|]. intros hash Hh. destruct (limit_spec params PP) as [Wl Vl].
  destruct (UintToArith256_spec hash Hh) as [Wh Vh]. unfold CheckProofOfWork. rewrite Es.
  rewrite EqualTo_spec, !gt_spec, Vl, Vh by (done || unfold is_u64; lia). pose proof (wf_bound t Wt).
  destruct (Z.eqb_spec (val t) 0), (Z.ltb_spec (powLimit params) (val t)), (Z.ltb_spec (val t) hash),
    (Z.ltb_spec 0 (val t)), (Z.leb_spec hash (val t)); done || lia.
Qed.

Lemma GetNextWorkRequired_within_witness :
  exists c, GetNextWorkRequired (line 20 60 0x1f07ffff) (Some 20) None main_consensus = Ok c /\ c = 0x1f078786.
Proof.
  destruct (GetNextWorkRequired_within main_consensus (line 20 60 0x1f07ffff) (Some 20) None) as (c & t & E & _).
  - exact (proj1 networks_pow_params).
  - apply line_wf.
  - apply line_bits_wf. unfold is_u32. lia.
  - eexists. apply line_here.
  - exists c. split; [exact E|]. vm_compute in E. by injection E as <-.
Defined.

(** ** The work of a block *)

(** No compact form denotes 2^256 - 1. *)
Lemma compact_target_not_max c : is_u32 c -> val (compact_target c) < M - 1.
Proof.
  intros (m & e & -> & Hm & He)%u32_compact. destruct (SetCompact_spec m e Hm He) as (v & E & Wv & Vv).
  unfold compact_target. rewrite E. cbn [fst]. pose proof (wf_bound v Wv). rewrite Vv in *.
  pose proof (Z.mod_pos_bound m (2 ^ 23) ltac:(lia)). unfold compact_value in *. destruct (Z.leb_spec e 3).
  - assert (m mod 2 ^ 23 / 256 ^ (3 - e) <= m mod 2 ^ 23).
    { pose proof (Z.pow_pos_nonneg 256 (3 - e)). apply Z.div_le_upper_bound; nia. }
    pose proof (Z.mod_le (m mod 2 ^ 23 / 256 ^ (3 - e)) M). pose proof (Z.div_pos (m mod 2 ^ 23) (256 ^ (3 - e))).
    pose proof (Z.pow_pos_nonneg 256 (3 - e)). lia.
  - replace (e - 3) with (Z.succ (e - 4)) in * by lia. rewrite Z.pow_succ_r in * by lia.
    set (x := m mod 2 ^ 23) in *. set (y := 256 ^ (e - 4)) in *. clearbody x y. change M with (256 * 2 ^ 248) in *.
    replace (x * (256 * y)) with (256 * (x * y)) in * by lia. rewrite Z.mul_mod_distr_l in * by lia. lia.
Qed.

(** [GetBlockProof] is exactly 2^256 / (target + 1). *)
Lemma GetBlockProof_exact c t : is_u32 c -> SetCompact c = (t, false, false) -> val t <> 0 ->
  exists w, GetBlockProof c = Ok w /\ wf w /\ val w = M / (val t + 1).
Proof.
  intros Hc Es Ht. pose proof (compact_target_wf c Hc) as Wt. pose proof (compact_target_not_max c Hc) as Hmax.
  unfold compact_target in Wt, Hmax. rewrite Es in Wt, Hmax. cbn [fst] in Wt, Hmax.
  pose proof (wf_bound t Wt). unfold GetBlockProof. rewrite Es, EqualTo_spec by (done || unfold is_u64; lia).
  rewrite (proj2 (Z.eqb_neq _ _)) by done. cbn [orb].
  destruct (of_u64_spec 1) as [W1 V1]; [unfold is_u64; lia|]. destruct (lnot_spec t Wt) as [Wn Vn].
  destruct (add_spec t _ Wt W1) as [Wa Va]. rewrite V1, Z.mod_small in Va by lia.
  destruct (div_spec _ _ Wn Wa) as (q & -> & Wq & Vq); [lia|]. mstep. rewrite Vn, Va in Vq.
  destruct (add_spec q _ Wq W1) as [Ww Vw]. eexists. split; [done|]. split; [done|]. rewrite Vw, V1, Vq.
  replace (M - 1 - val t) with (M + (-1) * (val t + 1)) by lia. rewrite Z.div_add by lia.
  assert (0 <= M / (val t + 1) < M) by (split; [apply Z.div_pos|apply Z.div_lt]; lia).
  replace (M / (val t + 1) + -1 + 1) with (M / (val t + 1)) by lia. apply Z.mod_small. lia.
Qed.
