(* ===== verification/MerkleBlock.v ===== *)
(** * Partial Merkle trees

    merkleblock.{h,cpp}: [CPartialMerkleTree], which proves that some of a
    block's transactions are in its Merkle tree, and [CMerkleBlock].  The
    counters and positions are [unsigned int]; [ExtractMatches] bounds the
    number of transactions before it computes with it, so that none of the
    shifts and sums wraps around.

    [Hash] is the parameter [Hash2] of Block.v. *)
From stdpp Require Import prelude strings list.
From S2P Require Import Prelude Transaction ChainParams Serialize TxSerialize Block.
#[local] Open Scope Z_scope.

Record CPartialMerkleTree := mkPMT {
  nTransactions : Z;
  vBits : list bool;
  vHash : list uint256;
  fBad : bool
}.

Definition CPartialMerkleTree_new : CPartialMerkleTree := mkPMT 0 [] [] true.

Definition CalcTreeWidth (nTransactions : Z) (height : nat) : Z :=
  Z.shiftr (nTransactions + Z.shiftl 1 (Z.of_nat height) - 1) (Z.of_nat height).

(** [while (CalcTreeWidth(nHeight) > 1) nHeight++], at most 32 turns for a
    32-bit count. *)
Fixpoint tree_height_loop (fuel : nat) (nTransactions : Z) (nHeight : nat) : result nat :=
  match fuel with
  | O => Abort
  | S fuel' => if 1 <? CalcTreeWidth nTransactions nHeight then tree_height_loop fuel' nTransactions (S nHeight)
               else Ok nHeight
  end.
Definition tree_height (nTransactions : Z) : result nat := tree_height_loop 33 nTransactions 0.

Section PMT.
Context (Hash2 : uint256 -> uint256 -> uint256).

Fixpoint CalcHash (nTransactions : Z) (height : nat) (pos : Z) (vTxid : list uint256) : result uint256 :=
  match height with
  | O => at_int vTxid pos
  | S height' =>
      left ← CalcHash nTransactions height' (pos * 2) vTxid;
      right ← (if pos * 2 + 1 <? CalcTreeWidth nTransactions height'
               then CalcHash nTransactions height' (pos * 2 + 1) vTxid else Ok left);
      Ok (Hash2 left right)
  end.

(** [for (p = lo; p < hi && p < nTransactions; p++) fParentOfMatch |= vMatch[p]]. *)
Definition parent_of_match (vMatch : list bool) (lo hi : Z) : result bool :=
  foldM (fun f p => m ← at_int vMatch p; Ok (f || m)) (seqZ lo (hi - lo)) false.

Fixpoint TraverseAndBuild (nTransactions : Z) (height : nat) (pos : Z) (vTxid : list uint256) (vMatch : list bool)
  (st : list bool * list uint256) : result (list bool * list uint256) :=
  fParentOfMatch ← parent_of_match vMatch (Z.shiftl pos (Z.of_nat height))
                     (Z.min (Z.shiftl (pos + 1) (Z.of_nat height)) nTransactions);
  let st := (st.1 ++ [fParentOfMatch], st.2) in
  match height with
  | O => h ← CalcHash nTransactions height pos vTxid; Ok (st.1, st.2 ++ [h])
  | S height' =>
      if negb fParentOfMatch then h ← CalcHash nTransactions height pos vTxid; Ok (st.1, st.2 ++ [h])
      else
        st ← TraverseAndBuild nTransactions height' (pos * 2) vTxid vMatch st;
        if pos * 2 + 1 <? CalcTreeWidth nTransactions height'
        then TraverseAndBuild nTransactions height' (pos * 2 + 1) vTxid vMatch st else Ok st
  end.

(** [CPartialMerkleTree(vTxid, vMatch)]. *)
Definition CPartialMerkleTree_build (vTxid : list uint256) (vMatch : list bool) : result CPartialMerkleTree :=
  let nTransactions := Z.of_nat (length vTxid) in
  nHeight ← tree_height nTransactions;
  '(bits, hashes) ← TraverseAndBuild nTransactions nHeight 0 vTxid vMatch ([], []);
  Ok (mkPMT nTransactions bits hashes false).

(** What [TraverseAndExtract] changes: the two counters, the matches and the
    flag [fBad]. *)
Record extract_state := mkES { nBitsUsed : nat; nHashUsed : nat; es_match : list uint256; es_bad : bool }.

Fixpoint TraverseAndExtract (t : CPartialMerkleTree) (height : nat) (pos : Z) (st : extract_state)
  : uint256 * extract_state :=
  match vBits t !! nBitsUsed st with
  | None => (uint256_null, mkES (nBitsUsed st) (nHashUsed st) (es_match st) true)
  | Some fParentOfMatch =>
      let st := mkES (S (nBitsUsed st)) (nHashUsed st) (es_match st) (es_bad st) in
      let stop :=
        match vHash t !! nHashUsed st with
        | None => (uint256_null, mkES (nBitsUsed st) (nHashUsed st) (es_match st) true)
        | Some hash =>
            (hash, mkES (nBitsUsed st) (S (nHashUsed st))
                     (if bool_decide (height = O) && fParentOfMatch then es_match st ++ [hash] else es_match st)
                     (es_bad st))
        end in
      match height with
      | O => stop
      | S height' =>
          if negb fParentOfMatch then stop
          else
            let '(lhash, st) := TraverseAndExtract t height' (pos * 2) st in
            if pos * 2 + 1 <? CalcTreeWidth (nTransactions t) height' then
              let '(rhash, st) := TraverseAndExtract t height' (pos * 2 + 1) st in
              (Hash2 lhash rhash,
               mkES (nBitsUsed st) (nHashUsed st) (es_match st) (es_bad st || bool_decide (rhash = lhash)))
            else (Hash2 lhash lhash, st)
      end
  end.

(** [ExtractMatches]: the root, or the null hash on failure, and [vMatch].
    The flag [fBad] it leaves in the object is that of the traversal. *)
Definition ExtractMatches (params : Params) (t : CPartialMerkleTree) (height : Z) : result (uint256 * list uint256) :=
  if nTransactions t =? 0 then Ok (uint256_null, [])
  else if Z.quot (MAX_BLOCK_SIZE params height) 60 <? nTransactions t then Ok (uint256_null, [])
  else if nTransactions t <? Z.of_nat (length (vHash t)) then Ok (uint256_null, [])
  else if (length (vBits t) <? length (vHash t))%nat then Ok (uint256_null, [])
  else
    nHeight ← tree_height (nTransactions t);
    let '(hashMerkleRoot, st) := TraverseAndExtract t nHeight 0 (mkES 0 0 [] (fBad t)) in
    if es_bad st then Ok (uint256_null, es_match st)
    else if negb ((nBitsUsed st + 7) / 8 =? (length (vBits t) + 7) / 8)%nat then Ok (uint256_null, es_match st)
    else if negb (nHashUsed st =? length (vHash t))%nat then Ok (uint256_null, es_match st)
    else Ok (hashMerkleRoot, es_match st).
End PMT.

(** ** Wire format *)

(** The flag bits, eight to a byte, the least significant first. *)
Definition byte_of_bits (bits : list bool) : Z :=
  foldr (fun (b : bool) acc => (if b then 1 else 0) + 2 * acc) 0 bits.
Fixpoint pack_bits (fuel : nat) (bits : list bool) : bytes :=
  match fuel with
  | O => []
  | S fuel' => byte_of_bits (take 8 bits) :: pack_bits fuel' (drop 8 bits)
  end.
Definition bits_to_bytes (bits : list bool) : bytes := pack_bits ((length bits + 7) / 8) bits.
Definition bits_of_byte (b : Z) : list bool :=
  (fun p => negb (Z.land b (Z.shiftl 1 p) =? 0)) <$> seqZ 0 8.
Definition bytes_to_bits (v : bytes) : list bool := v ≫= bits_of_byte.

Definition ser_CPartialMerkleTree (t : CPartialMerkleTree) : writer :=
  ser_u32 (nTransactions t) ⧺ ser_vector ser_uint256 (vHash t) ⧺ ser_blob (bits_to_bytes (vBits t)).
Definition unser_CPartialMerkleTree : reader CPartialMerkleTree :=
  nTransactions ← unser_u32; vHash ← unser_vector unser_uint256; vBytes ← unser_blob;
  mret (mkPMT nTransactions (bytes_to_bits vBytes) vHash false).

(** [CMerkleBlock]: the header and the partial tree of the transactions that
    pass a filter; [hits] are the answers of
    [CBloomFilter::IsRelevantAndUpdate] or of the set of ids, in order. *)
Record CMerkleBlock := mkMerkleBlock {
  mb_header : CBlockHeader;
  mb_txn : CPartialMerkleTree;
  vMatchedTxn : list (Z * uint256)
}.
Definition CMerkleBlock_filter (Hash2 : uint256 -> uint256 -> uint256) (header : CBlockHeader)
  (txids : list uint256) (hits : list bool) : result CMerkleBlock :=
  t ← CPartialMerkleTree_build Hash2 txids hits;
  Ok (mkMerkleBlock header t
        (omap (fun '(i, (txid, hit)) => if hit : bool then Some (Z.of_nat i, txid) else None)
           (imap pair (zip txids hits)))).
Definition CMerkleBlock_txids (Hash2 : uint256 -> uint256 -> uint256) (header : CBlockHeader)
  (txids : list uint256) (set : list uint256) : result CMerkleBlock :=
  t ← CPartialMerkleTree_build Hash2 txids ((fun h => bool_decide (h ∈ set)) <$> txids);
  Ok (mkMerkleBlock header t []).
Definition ser_CMerkleBlock (m : CMerkleBlock) : writer :=
  ser_CBlockHeader (mb_header m) ⧺ ser_CPartialMerkleTree (mb_txn m).

(** ** Nodes of the tree *)

Section Nodes.
Context (Hash2 : uint256 -> uint256 -> uint256).

Fixpoint level (h : nat) (l : list uint256) : list uint256 :=
  match h with O => l | S h' => pair_up Hash2 (level h' l) end.

Lemma CalcTreeWidth_div n h : CalcTreeWidth n h = (n + 2 ^ Z.of_nat h - 1) / 2 ^ Z.of_nat h.
Proof. unfold CalcTreeWidth. by rewrite Z.shiftr_div_pow2, Z.shiftl_1_l by lia. Qed.

Lemma CalcTreeWidth_level l h : CalcTreeWidth (Z.of_nat (length l)) h = Z.of_nat (length (level h l)).
Proof.
  induction h as [|h IH]; rewrite CalcTreeWidth_div in *.
  - change (2 ^ Z.of_nat 0) with 1. rewrite Z.div_1_r. cbn [level]. lia.
  - cbn [level]. rewrite length_pair_up, div2_of_nat, <- IH, Nat2Z.inj_succ, Z.pow_succ_r by lia.
    pose proof (Z.pow_pos_nonneg 2 (Z.of_nat h)). set (w := 2 ^ Z.of_nat h) in *.
    rewrite (Z.mul_comm 2 w), <- Z.div_div by lia. f_equal.
    replace (Z.of_nat (length l) + w * 2 - 1) with (Z.of_nat (length l) + w - 1 + 1 * w) by lia.
    by rewrite Z.div_add by lia.
Qed.

(** The children of a node. *)
Lemma level_calls_lookup v : forall p a b, level_calls v !! p = Some (a, b) ->
  v !! (2 * p)%nat = Some a /\ if decide (2 * p + 1 < length v)%nat then v !! (2 * p + 1)%nat = Some b else b = a.
Proof.
  induction v as [|x|x y v IH] using pair_ind; intros [|p] a b E; try done; cbn [level_calls lookup list_lookup] in E; [by injection E as <- <-..|].
  destruct (IH p a b E) as [Ha Hb]. replace (2 * S p)%nat with (S (S (2 * p))) by lia. split; [done|].
  cbn [length Nat.add lookup list_lookup]. repeat (destruct (decide _)); try lia; done.
Qed.
Lemma level_children h l p x : level (S h) l !! p = Some x ->
  exists a b, (a, b) ∈ level_calls (level h l) /\ level h l !! (2 * p)%nat = Some a /\ x = Hash2 a b
    /\ if decide (2 * p + 1 < length (level h l))%nat then level h l !! (2 * p + 1)%nat = Some b else b = a.
Proof.
  cbn [level]. rewrite pair_up_calls, list_lookup_fmap. intros ([a b] & Ex & ->)%fmap_Some. exists a, b.
  split; [by eapply list_elem_of_lookup_2|]. destruct (level_calls_lookup _ _ _ _ Ex) as [? ?]. done.
Qed.

(** The levels with more than one node are hashed. *)
Lemma level_S h : forall l, level (S h) l = level h (pair_up Hash2 l).
Proof. induction h as [|h IH]; intros l; [done|]. change (level (S (S h)) l) with (pair_up Hash2 (level (S h) l)). by rewrite IH. Qed.
Lemma level_grows h l : (1 < length (level h l))%nat -> (1 < length l)%nat.
Proof.
  induction h as [|h IH]; [done|]. cbn [level]. rewrite length_pair_up. intros Hl. apply IH.
  destruct (decide (length (level h l) <= 1)%nat); [|lia]. pose proof (Nat.Div0.div_le_upper_bound (length (level h l) + 1) 2 1). lia.
Qed.
Lemma level_hashed h : forall l, (1 < length (level h l))%nat -> level_calls (level h l) ⊆ merkle_calls Hash2 l.
Proof.
  induction h as [|h IH]; intros l Hl; rewrite merkle_calls_S by (by eapply level_grows).
  - by apply list_subseteq_app_l.
  - apply list_subseteq_app_r. rewrite level_S in *. by apply IH.
Qed.

Lemma CalcHash_level l h : forall p x, level h l !! p = Some x ->
  CalcHash Hash2 (Z.of_nat (length l)) h (Z.of_nat p) l = Ok x.
Proof.
  induction h as [|h IH]; intros p x Hx.
  - cbn [CalcHash level] in *. unfold at_int, index_or_abort. rewrite (proj2 (Z.ltb_ge _ _)) by lia.
    by rewrite Nat2Z.id, Hx.
  - destruct (level_children h l p x Hx) as (a & b & _ & Ha & -> & Hb). cbn [CalcHash].
    replace (Z.of_nat p * 2) with (Z.of_nat (2 * p)) by lia. rewrite (IH _ _ Ha). mstep.
    rewrite CalcTreeWidth_level. replace (Z.of_nat (2 * p) + 1) with (Z.of_nat (2 * p + 1)) by lia.
    destruct (Z.ltb_spec (Z.of_nat (2 * p + 1)) (Z.of_nat (length (level h l)))); destruct (decide _); try lia.
    + by rewrite (IH _ _ Hb).
    + by rewrite Hb.
Qed.

(** The transactions below a node, with their flags. *)
Definition seg {A} (h p : nat) (l : list A) : list A := take (2 ^ h) (drop (p * 2 ^ h) l).
Definition sel (s : list (uint256 * bool)) : list uint256 :=
  omap (fun q : uint256 * bool => if q.2 then Some q.1 else None) s.

Lemma take_plus {A} a b : forall l : list A, take (a + b) l = take a l ++ take b (drop a l).
Proof.
  induction a as [|a IH]; intros l; [done|]. destruct l as [|x l]; [by destruct b|].
  cbn. by rewrite IH.
Qed.

Lemma seg_S {A} h p (l : list A) : seg (S h) p l = seg h (2 * p) l ++ seg h (2 * p + 1) l.
Proof.
  unfold seg. rewrite Nat.pow_succ_r'. set (w := (2 ^ h)%nat).
  replace (p * (2 * w))%nat with (2 * p * w)%nat by lia. replace ((2 * p + 1) * w)%nat with (2 * p * w + w)%nat by lia.
  rewrite <- drop_drop. replace (2 * w)%nat with (w + w)%nat by lia.
  apply take_plus.
Qed.

Lemma sel_app s1 s2 : sel (s1 ++ s2) = sel s1 ++ sel s2.
Proof. apply omap_app. Qed.

Lemma sel_none s : existsb snd s = false -> sel s = [].
Proof.
  induction s as [|[x [|]] s IH]; cbn; [done|done|]. apply IH.
Qed.

Lemma parent_of_match_ok (m : list bool) k : forall a f, (a + k <= length m)%nat ->
  foldM (fun f p => b ← at_int m p; Ok (f || b)) (seqZ (Z.of_nat a) (Z.of_nat k)) f
  = Ok (f || existsb id (take k (drop a m))).
Proof.
  induction k as [|k IH]; intros a f Hl; [cbn; by rewrite orb_false_r|].
  rewrite seqZ_cons by lia. replace (Z.pred (Z.of_nat (S k))) with (Z.of_nat k) by lia.
  replace (Z.succ (Z.of_nat a)) with (Z.of_nat (S a)) by lia. cbn [foldM].
  destruct (lookup_lt_is_Some_2 m a) as [b Hb]; [lia|].
  assert (Ea : at_int m (Z.of_nat a) = Ok b).
  { unfold at_int, index_or_abort. rewrite (proj2 (Z.ltb_ge _ _)) by lia. by rewrite Nat2Z.id, Hb. }
  rewrite Ea. mstep. rewrite IH by lia. rewrite (drop_S _ _ _ Hb). cbn [take existsb id].
  by rewrite orb_assoc.
Qed.

(** The flag stored for a node. *)
Lemma parent_of_match_seg (l : list uint256) (m : list bool) h p : length m = length l ->
  (p * 2 ^ h <= length l)%nat ->
  parent_of_match m (Z.shiftl (Z.of_nat p) (Z.of_nat h))
    (Z.min (Z.shiftl (Z.of_nat p + 1) (Z.of_nat h)) (Z.of_nat (length l)))
  = Ok (existsb snd (seg h p (zip l m))).
Proof.
  intros Hl Hp. unfold parent_of_match. rewrite !Z.shiftl_mul_pow2 by lia.
  replace (2 ^ Z.of_nat h) with (Z.of_nat (2 ^ h)) by (rewrite Nat2Z.inj_pow; done).
  replace (Z.of_nat p * Z.of_nat (2 ^ h)) with (Z.of_nat (p * 2 ^ h)) by lia.
  set (k := Nat.min (2 ^ h) (length l - p * 2 ^ h)).
  replace (Z.min ((Z.of_nat p + 1) * Z.of_nat (2 ^ h)) (Z.of_nat (length l)) - Z.of_nat (p * 2 ^ h))
    with (Z.of_nat k) by lia.
  rewrite parent_of_match_ok by lia. cbn [orb]. f_equal. unfold seg.
  assert (E : take k (drop (p * 2 ^ h) m) = (take (2 ^ h) (drop (p * 2 ^ h) (zip l m))).*2).
  { rewrite fmap_take, fmap_drop, snd_zip by lia. destruct (Nat.le_gt_cases (2 ^ h) (length l - p * 2 ^ h)).
    - unfold k. by rewrite Nat.min_l by lia.
    - rewrite !take_ge; rewrite ?length_drop; lia || done. }
  rewrite E. clear. induction (take (2 ^ h) (drop (p * 2 ^ h) (zip l m))) as [|q s IH]; [done|].
  cbn. by rewrite IH.
Qed.

(** Equal nodes at different positions of a level over distinct transactions
    are a collision in the tree. *)
Lemma level_distinct l h : NoDup l -> forall p q x, level h l !! p = Some x -> level h l !! q = Some x ->
  p <> q -> collides Hash2 (merkle_calls Hash2 l) (merkle_calls Hash2 l).
Proof.
  intros Hnd. induction h as [|h IH]; intros p q x Hp Hq Hne.
  - destruct Hne. by eapply NoDup_lookup.
  - assert (Hl : (1 < length (level (S h) l))%nat) by (apply lookup_lt_Some in Hp, Hq; lia). rewrite level_S in Hl.
    assert (Hl' : (1 < length (level h l))%nat) by (rewrite <- level_S in Hl; apply (level_grows 1); done).
    destruct (level_children h l p x Hp) as (a & b & Hc & Ha & -> & _). destruct (level_children h l q _ Hq) as (a' & b' & Hc' & Ha' & E & _).
    destruct (calls_inj Hash2 _ _ _ _ (merkle_calls Hash2 l) (merkle_calls Hash2 l) (level_hashed h l Hl' _ Hc) (level_hashed h l Hl' _ Hc') E) as [[-> _]|];
      [|done]. apply (IH _ _ _ Ha Ha'). lia.
Qed.

Lemma tree_height_ok l fuel : forall h, (length (level h l) <= 2 ^ fuel)%nat -> l <> [] ->
  exists H, tree_height_loop (S fuel) (Z.of_nat (length l)) h = Ok H /\ level H l = [merkle_root Hash2 (level h l)].
Proof.
  induction fuel as [|fuel IH]; intros h Hle Hn; cbn [tree_height_loop]; rewrite CalcTreeWidth_level.
  all: assert (Hpos : (1 <= length (level h l))%nat) by
    (clear - Hn; induction h as [|h IH]; [by destruct l; simpl in *; [|lia]|];
     cbn [level]; rewrite length_pair_up; apply Nat.div_le_lower_bound; lia).
  all: assert (H1 : length (level h l) = 1%nat -> level h l = [merkle_root Hash2 (level h l)]) by
    (intros H1; destruct (level h l) as [|r [|? ?]]; try done; unfold merkle_root; by rewrite levels_1).
  - rewrite (proj2 (Z.ltb_ge _ _)) by (simpl in Hle; lia). exists h. split; [done|]. apply H1. simpl in Hle. lia.
  - destruct (Z.ltb_spec 1 (Z.of_nat (length (level h l)))).
    + destruct (IH (S h)) as (nH & E & El); [|done|].
      * cbn [level]. rewrite length_pair_up. rewrite Nat.pow_succ_r' in Hle.
        apply Nat.lt_succ_r, Nat.Div0.div_lt_upper_bound. lia.
      * exists nH. split; [exact E|]. rewrite El. cbn [level]. by rewrite <- merkle_root_S by lia.
    + exists h. split; [done|]. apply H1. lia.
Qed.

(** Where a level ends. *)
Lemma level_below h l p x : level h l !! p = Some x -> (p * 2 ^ h < length l)%nat.
Proof.
  revert p x. induction h as [|h IH]; intros p x Hx.
  - cbn in *. apply lookup_lt_Some in Hx. lia.
  - destruct (level_children h l p x Hx) as (a & b & _ & Ha & _). apply IH in Ha. rewrite Nat.pow_succ_r'. lia.
Qed.

Lemma level_beyond h l q : (length (level h l) <= q)%nat -> (length l <= q * 2 ^ h)%nat.
Proof.
  intros Hq. pose proof (CalcTreeWidth_level l h) as Hw. rewrite CalcTreeWidth_div in Hw.
  pose proof (Z.pow_pos_nonneg 2 (Z.of_nat h)) as Hpos. set (w := 2 ^ Z.of_nat h) in *.
  pose proof (Z.div_mod (Z.of_nat (length l) + w - 1) w ltac:(lia)) as Hd.
  pose proof (Z.mod_pos_bound (Z.of_nat (length l) + w - 1) w ltac:(lia)).
  rewrite Hw in Hd. apply Nat2Z.inj_le. rewrite Nat2Z.inj_mul, Nat2Z.inj_pow. change (Z.of_nat 2) with 2. fold w. nia.
Qed.

Lemma seg_beyond {A} h q (l : list A) : (length l <= q * 2 ^ h)%nat -> seg h q l = [].
Proof. intros Hl. unfold seg. by rewrite drop_ge, take_nil. Qed.

Lemma seg_0 (l : list uint256) (m : list bool) p x : length m = length l -> l !! p = Some x ->
  exists b, seg 0 p (zip l m) = [(x, b)].
Proof.
  intros Hl Hx. destruct (lookup_lt_is_Some_2 m p) as [b Hb]; [rewrite Hl; by eapply lookup_lt_Some|].
  exists b. unfold seg. cbn [Nat.pow]. rewrite Nat.mul_1_r.
  rewrite (drop_S (zip l m) (x, b)); [done|]. apply lookup_zip_with_Some. eauto.
Qed.

Lemma seg_nonempty (l : list uint256) (m : list bool) h p : length m = length l -> (p * 2 ^ h < length l)%nat ->
  (1 <= length (seg h p (zip l m)))%nat.
Proof.
  intros Hl Hp. unfold seg. rewrite length_take, length_drop, length_zip_with, Hl, Nat.min_id.
  pose proof (Nat.pow_nonzero 2 h). lia.
Qed.

(** What the traversals do at a node: [TraverseAndBuild] appends some bits and
    hashes from which [TraverseAndExtract] recovers the node's hash and the
    flagged transactions below it, or two calls of the tree collide. *)
Record node_ok (l : list uint256) (m : list bool) (h p : nat) (x : uint256) (B : list bool) (Hs : list uint256)
  : Prop := {
  no_build : forall st, TraverseAndBuild Hash2 (Z.of_nat (length l)) h (Z.of_nat p) l m st = Ok (st.1 ++ B, st.2 ++ Hs);
  no_leaves : (length Hs <= length (seg h p (zip l m)))%nat;
  no_bits : (length Hs <= length B)%nat;
  no_size : (length B <= S h * length (seg h p (zip l m)))%nat;
  no_nodes : Forall (fun y => exists h' q, level h' l !! q = Some y) Hs;
  no_extract : forall t preB sufB preH sufH M, nTransactions t = Z.of_nat (length l) ->
    vBits t = preB ++ B ++ sufB -> vHash t = preH ++ Hs ++ sufH ->
    TraverseAndExtract Hash2 t h (Z.of_nat p) (mkES (length preB) (length preH) M false)
    = (x, mkES (length preB + length B) (length preH + length Hs) (M ++ sel (seg h p (zip l m))) false)
    \/ collides Hash2 (merkle_calls Hash2 l) (merkle_calls Hash2 l)
}.

(** A node whose hash is stored. *)
Lemma node_stop l m h p x : length m = length l -> level h l !! p = Some x ->
  (h = O \/ existsb snd (seg h p (zip l m)) = false) -> (1 <= length (seg h p (zip l m)))%nat ->
  (p * 2 ^ h <= length l)%nat ->
  node_ok l m h p x [existsb snd (seg h p (zip l m))] [x].
Proof.
  intros Hl Hx Hstop H1 Hp. pose proof (CalcHash_level l h p x Hx) as Hc.
  pose proof (parent_of_match_seg l m h p Hl Hp) as Hm. split; [|done|done|cbn [length]; nia|constructor; [eauto|constructor]|].
  - intros st. destruct h as [|h]; cbn [TraverseAndBuild]; rewrite Hm; mstep.
    + rewrite Hc. done.
    + destruct Hstop as [|Hf]; [done|]. rewrite Hf. cbn [negb]. by rewrite Hc.
  - intros t preB sufB preH sufH M _ EB EH. left.
    assert (Eb : vBits t !! length preB = Some (existsb snd (seg h p (zip l m)))).
    { rewrite EB. cbn. by rewrite list_lookup_middle. }
    assert (Eh : vHash t !! length preH = Some x).
    { rewrite EH. cbn. by rewrite list_lookup_middle. }
    replace (length preB + 1)%nat with (S (length preB)) by lia.
    destruct h as [|h]; cbn [TraverseAndExtract nBitsUsed]; rewrite Eb; cbn [nHashUsed]; rewrite Eh.
    + cbn [length]. rewrite !Nat.add_1_r. do 2 f_equal. cbn [nBitsUsed es_match].
      rewrite bool_decide_true by done. cbn [andb]. destruct (seg_0 l m p x Hl Hx) as [b ->]. cbn.
      rewrite orb_false_r. destruct b; [done|]. by rewrite app_nil_r.
    + destruct Hstop as [|Hf]; [done|]. rewrite Hf. cbn [negb length]. rewrite !Nat.add_1_r.
      rewrite (sel_none _ Hf), app_nil_r. done.
Qed.

(** A node whose children are visited. *)
Lemma node_inner l m h p a b x B1 H1 : length m = length l -> NoDup l -> (p * 2 ^ S h <= length l)%nat ->
  existsb snd (seg (S h) p (zip l m)) = true ->
  level h l !! (2 * p)%nat = Some a -> node_ok l m h (2 * p) a B1 H1 -> x = Hash2 a b ->
  (if decide (2 * p + 1 < length (level h l))%nat
   then level h l !! (2 * p + 1)%nat = Some b /\ exists B2 H2, node_ok l m h (2 * p + 1) b B2 H2
   else b = a) ->
  exists B Hs, node_ok l m (S h) p x B Hs.
Proof.
  intros Hl Hnd Hp Hf Ha [Hb1 Hl1 Hn1 Hz1 Hd1 He1] -> Hr. pose proof (parent_of_match_seg l m (S h) p Hl Hp) as Hm.
  rewrite Hf in Hm. pose proof (CalcTreeWidth_level l h) as Hw.
  assert (E2 : Z.of_nat p * 2 = Z.of_nat (2 * p)) by lia.
  assert (E3 : Z.of_nat (2 * p) + 1 = Z.of_nat (2 * p + 1)) by lia.
  destruct (decide (2 * p + 1 < length (level h l))%nat) as [Hlt|Hge].
  - destruct Hr as (Hbx & B2 & H2 & [Hb2 Hl2 Hn2 Hz2 Hd2 He2]). exists (true :: B1 ++ B2), (H1 ++ H2). split.
    + intros st. cbn [TraverseAndBuild]. rewrite Hm. mstep. cbn [negb]. rewrite E2, Hb1. mstep.
      rewrite Hw, E3, (proj2 (Z.ltb_lt _ _)) by lia. rewrite Hb2. cbn [fst snd]. by rewrite <- !app_assoc.
    + rewrite seg_S, !length_app. lia.
    + cbn [length]. rewrite !length_app. lia.
    + rewrite seg_S, length_app. cbn [length]. rewrite length_app.
      assert (1 <= length (seg h (2 * p) (zip l m)))%nat by (apply seg_nonempty; [done|by eapply level_below]). nia.
    + by apply Forall_app.
    + intros t preB sufB preH sufH M Hn EB EH. cbn [TraverseAndExtract nBitsUsed].
      assert (Eb : vBits t !! length preB = Some true) by (rewrite EB; cbn; by rewrite list_lookup_middle).
      rewrite Eb. cbn [negb nHashUsed es_match es_bad].
      rewrite E2. replace (S (length preB)) with (length (preB ++ [true])) by (rewrite length_app; cbn; lia).
      destruct (He1 t (preB ++ [true]) (B2 ++ sufB) preH (H2 ++ sufH) M Hn) as [Ee|]; [| |rewrite Ee|by right].
      { rewrite EB. cbn. by rewrite <- !app_assoc. } { rewrite EH. by rewrite <- !app_assoc. }
      rewrite Hn, Hw, E3, (proj2 (Z.ltb_lt _ _)) by lia.
      rewrite <- !length_app.
      destruct (He2 t ((preB ++ [true]) ++ B1) sufB (preH ++ H1) sufH (M ++ sel (seg h (2 * p) (zip l m))) Hn)
        as [Ee2|]; [| |rewrite Ee2|by right].
      { rewrite EB. cbn. by rewrite <- !app_assoc. } { rewrite EH. by rewrite <- !app_assoc. }
      cbn [es_bad orb]. destruct (decide (b = a)) as [->|Hne].
      * right. eapply (level_distinct l h Hnd (2 * p) (2 * p + 1)); [done|done|lia].
      * left. rewrite bool_decide_false by done. rewrite seg_S, sel_app.
        do 2 f_equal; cbn [nBitsUsed nHashUsed es_match length]; [| |by rewrite <- app_assoc];
          repeat (rewrite length_app; cbn [length]); lia.
  - subst b. exists (true :: B1), H1. split.
    + intros st. cbn [TraverseAndBuild]. rewrite Hm. mstep. cbn [negb]. rewrite E2, Hb1. mstep.
      rewrite Hw, E3, (proj2 (Z.ltb_ge _ _)) by lia. cbn [fst snd]. by rewrite <- !app_assoc.
    + rewrite seg_S, !length_app. lia.
    + cbn [length]. lia.
    + rewrite seg_S, length_app. cbn [length].
      assert (1 <= length (seg h (2 * p) (zip l m)))%nat by (apply seg_nonempty; [done|by eapply level_below]). nia.
    + done.
    + intros t preB sufB preH sufH M Hn EB EH. cbn [TraverseAndExtract nBitsUsed].
      assert (Eb : vBits t !! length preB = Some true) by (rewrite EB; cbn; by rewrite list_lookup_middle).
      rewrite Eb. cbn [negb nHashUsed es_match es_bad].
      rewrite E2. replace (S (length preB)) with (length (preB ++ [true])) by (rewrite length_app; cbn; lia).
      destruct (He1 t (preB ++ [true]) sufB preH sufH M Hn) as [Ee|]; [|done|rewrite Ee|by right].
      { rewrite EB. cbn. by rewrite <- !app_assoc. }
      rewrite Hn, Hw, E3, (proj2 (Z.ltb_ge _ _)) by lia. left.
      rewrite seg_S, (seg_beyond h (2 * p + 1)).
      * rewrite app_nil_r, length_app. cbn [length]. do 2 f_equal. lia.
      * rewrite length_zip_with, Hl, Nat.min_id. by apply level_beyond; lia.
Qed.

Lemma nodes l m h : length m = length l -> NoDup l -> forall p x, level h l !! p = Some x ->
  exists B Hs, node_ok l m h p x B Hs.
Proof.
  intros Hl Hnd. induction h as [|h IH]; intros p x Hx; pose proof (level_below _ _ _ _ Hx) as Hp.
  - eexists _, _. apply node_stop; [done|done|by left| |lia].
    destruct (seg_0 l m p x Hl Hx) as [b ->]. done.
  - destruct (existsb snd (seg (S h) p (zip l m))) eqn:Ef.
    + destruct (level_children h l p x Hx) as (a & b & _ & Ha & -> & Hb). destruct (IH _ _ Ha) as (B1 & H1 & N1).
      eapply node_inner; try done; [lia|]. destruct (decide _); [|done]. split; [done|]. by apply IH.
    + eexists _, _. apply node_stop; [done|done|by right| |lia].
      by apply seg_nonempty.
Qed.

(** More fuel does not change the height found. *)
Lemma tree_height_fuel k fuel : forall n h H, tree_height_loop fuel n h = Ok H ->
  tree_height_loop (fuel + k) n h = Ok H.
Proof.
  induction fuel as [|fuel IH]; intros n h H; [done|]. cbn [tree_height_loop Nat.add].
  destruct (_ <? _); [apply IH|done].
Qed.

Lemma tree_height_le fuel : forall n h H, tree_height_loop fuel n h = Ok H -> (H <= h + fuel)%nat.
Proof.
  induction fuel as [|fuel IH]; intros n h H; [done|]. cbn [tree_height_loop].
  destruct (_ <? _); [|intros [= <-]; lia]. intros E%IH. lia.
Qed.

(** *** Bits *)

Lemma bits_of_byte_of_bits c : (length c <= 8)%nat ->
  bits_of_byte (byte_of_bits c) = c ++ replicate (8 - length c) false.
Proof.
  intros Hc. do 8 (destruct c as [|[] c]; [by vm_compute|..]). all: destruct c; [by vm_compute|cbn in Hc; lia].
Qed.

Lemma unpack_pack fuel : forall bits, (length bits <= 8 * fuel)%nat ->
  bytes_to_bits (pack_bits fuel bits) = bits ++ replicate (8 * fuel - length bits) false.
Proof.
  induction fuel as [|fuel IH]; intros bits Hb.
  - destruct bits; [done|cbn in Hb; lia].
  - cbn [pack_bits]. unfold bytes_to_bits in *. rewrite bind_cons, IH by (rewrite length_drop; lia).
    rewrite bits_of_byte_of_bits by (rewrite length_take; lia). rewrite length_take, length_drop.
    destruct (Nat.le_gt_cases 8 (length bits)).
    + rewrite Nat.min_l by lia. cbn [Nat.sub replicate]. rewrite app_nil_r, app_assoc, take_drop.
      do 2 f_equal. lia.
    + rewrite take_ge, (drop_ge bits) by lia. rewrite Nat.min_r by lia. cbn [app].
      rewrite <- app_assoc, <- replicate_add. do 2 f_equal. lia.
Qed.

(** Reading the bits back pads them to a whole number of bytes. *)
Lemma bytes_to_bits_to_bytes bits : exists k, bytes_to_bits (bits_to_bytes bits) = bits ++ replicate k false
  /\ ((length bits + k + 7) / 8 = (length bits + 7) / 8)%nat.
Proof.
  assert (Hd : (length bits <= 8 * ((length bits + 7) / 8))%nat).
  { pose proof (Nat.div_mod_eq (length bits + 7) 8). pose proof (Nat.mod_upper_bound (length bits + 7) 8). lia. }
  eexists. split; [by apply unpack_pack|].
  replace (length bits + (8 * ((length bits + 7) / 8) - length bits) + 7)%nat
    with (7 + (length bits + 7) / 8 * 8)%nat by lia.
  by rewrite Nat.div_add.
Qed.

Lemma is_byte_of_bits c : (length c <= 8)%nat -> is_u8 (byte_of_bits c).
Proof.
  intros Hc. assert (H : 0 <= byte_of_bits c < 2 ^ Z.of_nat (length c)).
  { clear. induction c as [|b c IH]; [cbn; lia|]. cbn [byte_of_bits foldr length].
    fold (byte_of_bits c). rewrite Nat2Z.inj_succ, Z.pow_succ_r by lia. destruct b; lia. }
  unfold is_u8. pose proof (Z.pow_le_mono_r 2 (Z.of_nat (length c)) 8). lia.
Qed.

Lemma bits_to_bytes_ok bits : is_bytes (bits_to_bytes bits) /\ length (bits_to_bytes bits) = ((length bits + 7) / 8)%nat.
Proof.
  unfold bits_to_bytes. generalize ((length bits + 7) / 8)%nat as n. intros n. revert bits.
  induction n as [|n IH]; intros bits; [split; [constructor|done]|]. cbn [pack_bits length].
  destruct (IH (drop 8 bits)) as [Hb ->]. split; [|done]. constructor; [|done].
  apply is_byte_of_bits. rewrite length_take. lia.
Qed.

(** A tree is read back as it was, its bits padded. *)
Lemma PMT_reads t : is_u32 (nTransactions t) -> vector_ok is_uint256 (vHash t) ->
  Z.of_nat (length (vBits t)) < MAX_SIZE ->
  exists b, ser_CPartialMerkleTree t = Ok b
    /\ reads unser_CPartialMerkleTree b
         (mkPMT (nTransactions t) (bytes_to_bits (bits_to_bytes (vBits t))) (vHash t) false).
Proof.
  intros Hn Hh Hb. destruct (bits_to_bytes_ok (vBits t)) as [Hby Hlen].
  destruct (codec_fwd _ _ _ u32_codec _ Hn) as (b1 & E1 & _ & R1).
  destruct (codec_fwd _ _ _ (vector_codec _ _ _ uint256_codec) _ Hh) as (b2 & E2 & _ & R2).
  destruct (codec_fwd _ _ _ blob_codec (bits_to_bytes (vBits t))) as (b3 & E3 & _ & R3).
  { split; [done|]. rewrite Hlen. pose proof (Nat.Div0.div_le_upper_bound (length (vBits t) + 7) 8 (S (length (vBits t)))).
    unfold MAX_SIZE in *. lia. }
  exists (b1 ++ b2 ++ b3). unfold ser_CPartialMerkleTree. rewrite E1, E2, E3. split; [done|].
  unfold unser_CPartialMerkleTree. eapply reads_bind; [done|]. eapply reads_bind; [done|].
  by apply (reads_map _ (fun v => mkPMT _ (bytes_to_bits v) _ false)).
Qed.

Lemma level_uint256 (l : list uint256) h : (forall a b, is_uint256 (Hash2 a b)) -> Forall is_uint256 l ->
  Forall is_uint256 (level h l).
Proof.
  intros Hh Hl. induction h as [|h IH]; [done|]. cbn [level]. clear IH.
  induction (level h l) as [|a|a b v IH] using pair_ind; cbn [pair_up]; auto using Forall_cons, Forall_nil.
Qed.

(** The matched transactions, in order. *)
Definition matched (vTxid : list uint256) (vMatch : list bool) : list uint256 := sel (zip vTxid vMatch).

Lemma extract_built params height vTxid vMatch nH B Hs k :
  vTxid <> [] -> length vMatch = length vTxid -> Z.of_nat (length vTxid) * 60 <= MAX_BLOCK_SIZE params height ->
  tree_height (Z.of_nat (length vTxid)) = Ok nH -> level nH vTxid = [merkle_root Hash2 vTxid] ->
  node_ok vTxid vMatch nH 0 (merkle_root Hash2 vTxid) B Hs ->
  ((length B + k + 7) / 8 = (length B + 7) / 8)%nat ->
  ExtractMatches Hash2 params (mkPMT (Z.of_nat (length vTxid)) (B ++ replicate k false) Hs false) height
  = Ok (merkle_root Hash2 vTxid, matched vTxid vMatch) \/ collides Hash2 (merkle_calls Hash2 vTxid) (merkle_calls Hash2 vTxid).
Proof.
  intros Hn Hl Hmax Hth Hlv [_ Hlv' Hbits _ _ Hex] Hk.
  assert (Hseg : seg nH 0 (zip vTxid vMatch) = zip vTxid vMatch).
  { unfold seg. rewrite Nat.mul_0_l, drop_0. apply take_ge. rewrite length_zip_with, Hl, Nat.min_id.
    pose proof (level_beyond nH vTxid 1) as Hb. rewrite Hlv in Hb. specialize (Hb ltac:(done)). lia. }
  rewrite Hseg in *. rewrite length_zip_with, Hl, Nat.min_id in Hlv'.
  unfold ExtractMatches. cbn [nTransactions vBits vHash fBad].
  rewrite (proj2 (Z.eqb_neq _ 0)) by (destruct vTxid; simpl in *; [done|lia]).
  rewrite (proj2 (Z.ltb_ge _ _)) by (apply Z.quot_le_lower_bound; lia).
  rewrite (proj2 (Z.ltb_ge _ _)) by lia. rewrite length_app, length_replicate.
  rewrite (proj2 (Nat.ltb_ge _ _)) by lia. rewrite Hth. mstep.
  destruct (Hex (mkPMT (Z.of_nat (length vTxid)) (B ++ replicate k false) Hs false) [] (replicate k false) [] [] [] eq_refl
    eq_refl) as [E|]; [cbn; by rewrite app_nil_r| |by right].
  cbn [length] in E. change (Z.of_nat 0) with 0 in E. rewrite E. left. cbn [es_bad nBitsUsed nHashUsed es_match app].
  rewrite Nat.add_0_l, (proj2 (Nat.eqb_eq _ _)) by (by rewrite Hk). by rewrite Nat.add_0_l, Nat.eqb_refl.
Qed.

(** (C31) A partial tree built from the block's transaction ids and a selection of
    them, sent over the wire and read back, gives the block's Merkle root and
    exactly the selected ids, in order; unless two different pairs that are
    hashed for that root have the same hash. *)
Theorem PartialMerkleTree_roundtrip (params : Params) (height : Z) (vTxid : list uint256) (vMatch : list bool)
  (Hh : forall a b, is_uint256 (Hash2 a b)) (Ht : Forall is_uint256 vTxid)
  (Hn : vTxid <> []) (Hnd : NoDup vTxid) (Hl : length vMatch = length vTxid)
  (Hmax : Z.of_nat (length vTxid) * 60 <= MAX_BLOCK_SIZE params height) :
  (exists t b t', CPartialMerkleTree_build Hash2 vTxid vMatch = Ok t
    /\ ser_CPartialMerkleTree t = Ok b /\ (forall rest, unser_CPartialMerkleTree (b ++ rest) = Ok (t', rest))
    /\ ExtractMatches Hash2 params t height = Ok (merkle_root Hash2 vTxid, matched vTxid vMatch)
    /\ ExtractMatches Hash2 params t' height = Ok (merkle_root Hash2 vTxid, matched vTxid vMatch))
  \/ collides Hash2 (merkle_calls Hash2 vTxid) (merkle_calls Hash2 vTxid).
Proof.
  assert (Hsz : Z.of_nat (length vTxid) <= 2 ^ 17).
  { unfold MAX_BLOCK_SIZE, MAX_BLOCK_SIZE_AFTER_UPGRADE, MAX_BLOCK_SIZE_BEFORE_UPGRADE in Hmax.
    destruct (_ <=? height); lia. }
  destruct (tree_height_ok vTxid 17 0) as (nH & Eh & Elv); [|done|].
  { apply Nat2Z.inj_le. rewrite Nat2Z.inj_pow. done. }
  change (level 0 vTxid) with vTxid in Elv.
  assert (Eth : tree_height (Z.of_nat (length vTxid)) = Ok nH).
  { apply (tree_height_fuel 15 _ _ _ _ Eh). }
  pose proof (tree_height_le _ _ _ _ Eh) as HnH.
  destruct (nodes vTxid vMatch nH Hl Hnd 0 (merkle_root Hash2 vTxid)) as (B & Hs & N); [by rewrite Elv|].
  destruct (bytes_to_bits_to_bytes B) as (k & Ek & Hk).
  pose proof N as [Hbuild Hlv Hb Hz Hnodes _].
  assert (Hseg : (length (seg nH 0 (zip vTxid vMatch)) <= length vTxid)%nat).
  { unfold seg. rewrite length_take, length_drop, length_zip_with. lia. }
  destruct (PMT_reads (mkPMT (Z.of_nat (length vTxid)) B Hs false)) as (b & Eb & Hr); cbn [nTransactions vBits vHash].
  { unfold is_u32. lia. }
  { split; [unfold MAX_SIZE; lia|]. eapply Forall_impl; [exact Hnodes|]. intros y (h' & q & Hy).
    eapply Forall_lookup_1; [by apply (level_uint256 vTxid h')|done]. }
  { unfold MAX_SIZE. nia. }
  cbn [nTransactions vBits vHash] in Hr. rewrite Ek in Hr.
  destruct (extract_built params height vTxid vMatch nH B Hs k) as [E1|]; try done; [|by right].
  destruct (extract_built params height vTxid vMatch nH B Hs 0) as [E2|]; try done; [by rewrite Nat.add_0_r| |by right].
  cbn [replicate] in E2. rewrite app_nil_r in E2.
  left. eexists _, b, _. split.
  { unfold CPartialMerkleTree_build. rewrite Eth. mstep. change 0 with (Z.of_nat 0). rewrite Hbuild. mstep. done. }
  split; [exact Eb|]. split; [exact Hr|]. by split.
Qed.

(** *** Soundness *)

(** A failure is not forgotten. *)
Lemma extract_bad t h : forall p st y st', TraverseAndExtract Hash2 t h p st = (y, st') ->
  es_bad st = true -> es_bad st' = true.
Proof.
  induction h as [|h IH]; intros p st y st' E Hb; cbn [TraverseAndExtract] in E;
    (destruct (vBits t !! nBitsUsed st) as [f|]; [|by injection E as <- <-]); cbn [nHashUsed nBitsUsed es_match es_bad] in E.
  - by destruct (vHash t !! nHashUsed st); injection E as <- <-.
  - destruct f; cbn [negb] in E; [|by destruct (vHash t !! nHashUsed st); injection E as <- <-].
    destruct (TraverseAndExtract Hash2 t h (p * 2) _) as [a st1] eqn:E1. apply IH in E1; [|done].
    destruct (_ <? _); [|by injection E as <- <-].
    destruct (TraverseAndExtract Hash2 t h (p * 2 + 1) st1) as [b st2] eqn:E2. apply IH in E2; [|done].
    injection E as <- <-. cbn. by rewrite E2.
Qed.

(** The pairs that [TraverseAndExtract] hashes. *)
Fixpoint extract_calls (t : CPartialMerkleTree) (height : nat) (pos : Z) (st : extract_state) : list (uint256 * uint256) :=
  match height, vBits t !! nBitsUsed st with
  | S height', Some true =>
      let st := mkES (S (nBitsUsed st)) (nHashUsed st) (es_match st) (es_bad st) in
      let '(lhash, st1) := TraverseAndExtract Hash2 t height' (pos * 2) st in
      extract_calls t height' (pos * 2) st ++
      if pos * 2 + 1 <? CalcTreeWidth (nTransactions t) height' then
        extract_calls t height' (pos * 2 + 1) st1 ++ [(lhash, (TraverseAndExtract Hash2 t height' (pos * 2 + 1) st1).1)]
      else [(lhash, lhash)]
  | _, _ => []
  end.

(** Whatever tree is presented for a block, if a node's hash is the right one
    then the ids reported below it are transactions of the block, or a call of
    the block's tree and one of the traversal collide. *)
Lemma extract_sound l t h : nTransactions t = Z.of_nat (length l) -> (forall h', (h' < h)%nat -> (1 < length (level h' l))%nat) ->
  forall p x st st', level h l !! p = Some x -> TraverseAndExtract Hash2 t h (Z.of_nat p) st = (x, st') -> es_bad st' = false ->
  (exists M, es_match st' = es_match st ++ M /\ M ⊆ l) \/ collides Hash2 (merkle_calls Hash2 l) (extract_calls t h (Z.of_nat p) st).
Proof.
  intros Hn. induction h as [|h IH]; intros Hw p x st st' Hx E Hbad; cbn [TraverseAndExtract extract_calls] in *;
    (destruct (vBits t !! nBitsUsed st) as [f|]; [|by injection E as _ <-]); cbn [nHashUsed nBitsUsed es_match es_bad] in E.
  - left. destruct (vHash t !! nHashUsed st) as [y|]; [|by injection E as _ <-]. injection E as -> <-.
    destruct f; cbn.
    + exists [x]. split; [done|]. apply list_elem_of_lookup_2 in Hx. set_solver.
    + exists []. rewrite app_nil_r. set_solver.
  - destruct f; cbn [negb] in E.
    2: { left. exists []. rewrite app_nil_r. split; [|set_solver].
         by destruct (vHash t !! nHashUsed st); injection E as _ <-. }
    destruct (level_children h l p x Hx) as (a & b & Hc & Ha & -> & Hb). rewrite Hn, CalcTreeWidth_level in *.
    apply (level_hashed h l (Hw h ltac:(lia))) in Hc. specialize (IH ltac:(intros h' Hh'; apply Hw; lia)).
    replace (Z.of_nat p * 2) with (Z.of_nat (2 * p)) in * by lia.
    replace (Z.of_nat (2 * p) + 1) with (Z.of_nat (2 * p + 1)) in * by lia.
    destruct (TraverseAndExtract Hash2 t h (Z.of_nat (2 * p)) _) as [y1 st1] eqn:E1.
    destruct (Z.ltb_spec (Z.of_nat (2 * p + 1)) (Z.of_nat (length (level h l)))); destruct (decide _); try lia.
    + destruct (TraverseAndExtract Hash2 t h (Z.of_nat (2 * p + 1)) st1) as [y2 st2] eqn:E2. cbn [fst].
      injection E as Eh <-. cbn [es_bad] in Hbad. apply orb_false_iff in Hbad as [Hbad _].
      match goal with |- context [collides _ _ (?c1 ++ ?c2 ++ _)] => set (cl := c1); set (cr := c2) end.
      assert (Hy : (y1, y2) ∈ cl ++ cr ++ [(y1, y2)]) by (rewrite !elem_of_app; right; right; by apply list_elem_of_singleton).
      destruct (calls_inj Hash2 _ _ _ _ (merkle_calls Hash2 l) _ Hc Hy (eq_sym Eh)) as [[<- <-]|]; [|by right].
      assert (Hbad1 : es_bad st1 = false).
      { destruct (es_bad st1) eqn:Eb; [|done]. by rewrite (extract_bad _ _ _ _ _ _ E2 Eb) in Hbad. }
      destruct (IH _ _ _ _ Ha E1 Hbad1) as [(M1 & Em1 & S1)|Hcl].
      2: { right. eapply collides_mono; [done| |exact Hcl]. by apply list_subseteq_app_l. }
      destruct (IH _ _ _ _ Hb E2 Hbad) as [(M2 & Em2 & S2)|Hcr].
      2: { right. eapply collides_mono; [done| |exact Hcr]. apply list_subseteq_app_r. by apply list_subseteq_app_l. }
      left. exists (M1 ++ M2). cbn [es_match]. rewrite Em2, Em1. cbn [es_match]. rewrite <- app_assoc.
      split; [done|]. set_solver.
    + injection E as Eh <-. match goal with |- context [collides _ _ (?c1 ++ _)] => set (cl := c1) end. subst b.
      assert (Hy : (y1, y1) ∈ cl ++ [(y1, y1)]) by (rewrite elem_of_app; right; by apply list_elem_of_singleton).
      destruct (calls_inj Hash2 _ _ _ _ (merkle_calls Hash2 l) _ Hc Hy (eq_sym Eh)) as [[<- _]|]; [|by right].
      destruct (IH _ _ _ _ Ha E1 Hbad) as [?|Hcl]; [by left|right]. eapply collides_mono; [done| |exact Hcl]. by apply list_subseteq_app_l.
Qed.

(** The pairs [ExtractMatches] hashes. *)
Definition proof_calls (t : CPartialMerkleTree) : list (uint256 * uint256) :=
  match tree_height (nTransactions t) with
  | Ok nHeight => extract_calls t nHeight 0 (mkES 0 0 [] (fBad t))
  | _ => []
  end.
Lemma tree_height_wide fuel : forall n h H, tree_height_loop fuel n h = Ok H -> forall h', (h <= h' < H)%nat -> 1 < CalcTreeWidth n h'.
Proof.
  induction fuel as [|fuel IH]; intros n h H; [done|]. cbn [tree_height_loop]. destruct (Z.ltb_spec 1 (CalcTreeWidth n h)); [|intros [= <-]; lia].
  intros E h' Hh. destruct (decide (h' = h)) as [->|]; [done|]. apply (IH _ _ _ E). lia.
Qed.

(** (C32) A client that knows a block's number of transactions and its Merkle root
    cannot be made to accept an id that is not in the block, unless the proof it
    is given makes it hash a pair that collides with a different pair of the
    block's own tree. *)
Theorem ExtractMatches_sound (params : Params) (height : Z) (vTxid : list uint256) (t : CPartialMerkleTree)
  (vMatch : list uint256) (Hn : vTxid <> []) (Ht : nTransactions t = Z.of_nat (length vTxid))
  (Hr : merkle_root Hash2 vTxid <> uint256_null)
  (E : ExtractMatches Hash2 params t height = Ok (merkle_root Hash2 vTxid, vMatch)) :
  vMatch ⊆ vTxid \/ collides Hash2 (merkle_calls Hash2 vTxid) (proof_calls t).
Proof.
  unfold ExtractMatches in E. destruct (_ =? 0); [by injection E as E _; congruence|].
  destruct (Z.ltb_spec (Z.quot (MAX_BLOCK_SIZE params height) 60) (nTransactions t)) as [|Hmax];
    [by injection E as E _; congruence|].
  destruct (_ <? Z.of_nat _); [by injection E as E _; congruence|].
  destruct (_ <? length (vHash t))%nat; [by injection E as E _; congruence|].
  assert (Hsz : Z.of_nat (length vTxid) <= 2 ^ 17).
  { unfold MAX_BLOCK_SIZE, MAX_BLOCK_SIZE_AFTER_UPGRADE, MAX_BLOCK_SIZE_BEFORE_UPGRADE in Hmax.
    rewrite Ht in Hmax. destruct (_ <=? height);
      [change (Z.quot 4000000 60) with 66666 in Hmax|change (Z.quot 2000000 60) with 33333 in Hmax]; lia. }
  destruct (tree_height_ok vTxid 17 0) as (nH & Eh & Elv); [|done|].
  { apply Nat2Z.inj_le. rewrite Nat2Z.inj_pow. done. }
  assert (Eth : tree_height (Z.of_nat (length vTxid)) = Ok nH) by apply (tree_height_fuel 15 _ _ _ _ Eh).
  rewrite Ht, Eth in E. cbn [mbind result_bind] in E. unfold proof_calls. rewrite Ht, Eth.
  destruct (TraverseAndExtract Hash2 t nH 0 _) as [y st] eqn:Ex.
  destruct (es_bad st) eqn:Eb; [by injection E as E _; congruence|].
  destruct (negb _); [by injection E as E _; congruence|].
  destruct (negb _); [by injection E as E _; congruence|]. injection E as -> <-.
  assert (Hw : forall h', (h' < nH)%nat -> (1 < length (level h' vTxid))%nat).
  { intros h' Hh. pose proof (tree_height_wide _ _ _ _ Eth h' ltac:(lia)) as Hw. rewrite CalcTreeWidth_level in Hw. lia. }
  destruct (extract_sound vTxid t nH Ht Hw 0 _ _ _ ltac:(by rewrite Elv) Ex Eb) as [(M & Em & Hs)|]; [|by right].
  left. by rewrite Em.
Qed.
End Nodes.

(** A hash for concrete runs. *)
Definition test_hash256 (a b : uint256) : uint256 := (3 * a + 5 * b + 1) mod 2 ^ 256.

Lemma PartialMerkleTree_roundtrip_witness :
  exists t b t', CPartialMerkleTree_build test_hash256 [7; 8; 9] [false; false; true] = Ok t
    /\ ser_CPartialMerkleTree t = Ok b /\ (forall rest, unser_CPartialMerkleTree (b ++ rest) = Ok (t', rest))
    /\ ExtractMatches test_hash256 main_consensus t 0 = Ok (merkle_root test_hash256 [7; 8; 9], [9])
    /\ ExtractMatches test_hash256 main_consensus t' 0 = Ok (merkle_root test_hash256 [7; 8; 9], [9]).
Proof.
  destruct (PartialMerkleTree_roundtrip test_hash256 main_consensus 0 [7; 8; 9] [false; false; true]) as [Ht|Hc].
  - intros a b. apply Z.mod_pos_bound. lia.
  - repeat constructor; lia.
  - done.
  - apply (bool_decide_unpack _). by vm_compute.
  - done.
  - vm_compute. done.
  - exact Ht.
  - apply (bool_decide_pack _) in Hc. by vm_compute in Hc.
Defined.

(** The second proof gives the right root with a forged id: it has the verifier
    hash (12, 5) where the block has (7, 8), which collide under this hash. *)
Lemma ExtractMatches_sound_witness :
  ExtractMatches test_hash256 main_consensus (mkPMT 3 [true; false; true; true] [62; 9] false) 0 = Ok (552, [9])
  /\ [9] ⊆ [7; 8; 9]
  /\ ExtractMatches test_hash256 main_consensus (mkPMT 3 [true; true; true; false; false] [12; 5; 73] false) 0 = Ok (552, [12])
  /\ collides test_hash256 (merkle_calls test_hash256 [7; 8; 9]) (proof_calls test_hash256 (mkPMT 3 [true; true; true; false; false] [12; 5; 73] false)).
Proof.
  split; [by vm_compute|]. split; [|split; [by vm_compute|]].
  - destruct (ExtractMatches_sound test_hash256 main_consensus 0 [7; 8; 9] (mkPMT 3 [true; false; true; true] [62; 9] false) [9]) as [Hs|Hc];
      [done|done|by vm_compute|by vm_compute|exact Hs|]. apply (bool_decide_pack _) in Hc. by vm_compute in Hc.
  - destruct (ExtractMatches_sound test_hash256 main_consensus 0 [7; 8; 9] (mkPMT 3 [true; true; true; false; false] [12; 5; 73] false) [12]) as [Hs|Hc];
      [done|done|by vm_compute|by vm_compute| |exact Hc]. specialize (Hs 12 ltac:(by left)). by apply (bool_decide_pack _) in Hs; vm_compute in Hs.
Defined.
