(* ===== verification/Checks.v ===== *)
(** * Checks that report a rejection

    The functions of main.cpp that validate take a [CValidationState&] and
    return a [bool]: the first failed test records a rejection in the state and
    returns [false].  [check A] is the outcome of such a function: it passes
    with a value, fails with a rejection, throws, or stops the process.
    [scheck S A] is a check that also reads or changes a state [S], which is
    kept when the check fails.  [finish] runs a check on a validation state. *)
From stdpp Require Import prelude strings list.
From S2P Require Import Prelude Transaction ChainParams.
#[local] Open Scope Z_scope.

(** [state.DoS(level, ..., code, reason, corruption)], [state.Error(reason)]
    (also through [AbortNode]), and [return false] or [return error(...)]
    that leave the validation state as it is. *)
Inductive failure :=
| FailDoS (level code : Z) (reason : string) (corruption : bool)
| FailError (reason : string)
| FailPlain.
#[global] Instance failure_eq_dec : EqDecision failure.
Proof. solve_decision. Defined.

(** [state.DoS] without the last argument, and [state.Invalid]. *)
Definition dos (level code : Z) (reason : string) : failure := FailDoS level code reason false.
Definition invalid (code : Z) (reason : string) : failure := FailDoS 0 code reason false.

Inductive check (A : Type) : Type :=
| Pass (a : A)
| Fail (f : failure)
| Raise (msg : string)
| Halt.
Arguments Pass {A} a.
Arguments Fail {A} f.
Arguments Raise {A} msg.
Arguments Halt {A}.

#[global] Instance check_ret : MRet check := fun A a => Pass a.
#[global] Instance check_bind : MBind check := fun A B (k : A -> check B) (m : check A) =>
  match m with
  | Pass a => k a
  | Fail f => Fail f
  | Raise msg => Raise msg
  | Halt => Halt
  end.

(** [if (bad) return state.DoS(...)]. *)
Definition reject_if (bad : bool) (f : failure) : check unit := if bad then Fail f else Pass tt.

Definition of_result {A} (r : result A) : check A :=
  match r with Ok a => Pass a | Throw msg => Raise msg | Abort => Halt end.

(** A loop that returns from the function when its body fails. *)
Fixpoint check_loop {S A} (body : S -> A -> check S) (l : list A) (s : S) : check S :=
  match l with
  | [] => Pass s
  | a :: l' => s' ← body s a; check_loop body l' s'
  end.
Definition check_each {A} (body : A -> check unit) (l : list A) : check unit := check_loop (fun _ a => body a) l tt.

(** [std::set::count] then [insert], for each element. *)
Definition check_distinct {A} `{EqDecision A} (f : failure) (l : list A) : check unit :=
  _ ← check_loop (fun seen a => _ ← reject_if (bool_decide (a ∈ seen)) f; Pass (a :: seen)) l []; Pass tt.

Definition apply_failure (f : failure) (st : CValidationState) : CValidationState :=
  match f with
  | FailDoS level code reason corruption => DoS level code reason corruption st
  | FailError reason => Error reason st
  | FailPlain => st
  end.

Definition finish {A} (m : check A) (st : CValidationState) : result (bool * CValidationState) :=
  match m with
  | Pass _ => Ok (true, st)
  | Fail f => Ok (false, apply_failure f st)
  | Raise msg => Throw msg
  | Halt => Abort
  end.

(** ** Checks with a state *)

Definition scheck (S A : Type) : Type := S -> check A * S.
#[global] Instance scheck_ret {S} : MRet (scheck S) := fun A a s => (Pass a, s).
#[global] Instance scheck_bind {S} : MBind (scheck S) := fun A B (k : A -> scheck S B) (m : scheck S A) s =>
  match m s with
  | (Pass a, s') => k a s'
  | (Fail f, s') => (Fail f, s')
  | (Raise msg, s') => (Raise msg, s')
  | (Halt, s') => (Halt, s')
  end.
Definition lift {S A} (m : check A) : scheck S A := fun s => (m, s).
(** An operation that always returns, and one that may throw or stop. *)
Definition query {S A} (f : S -> A * S) : scheck S A := fun s => let '(a, s') := f s in (Pass a, s').
Definition action {S A} (f : S -> result (A * S)) : scheck S A := fun s =>
  match f s with
  | Ok (a, s') => (Pass a, s')
  | Throw msg => (Raise msg, s)
  | Abort => (Halt, s)
  end.
Fixpoint scheck_loop {S T A} (body : T -> A -> scheck S T) (l : list A) (t : T) : scheck S T :=
  match l with
  | [] => mret t
  | a :: l' => t' ← body t a; scheck_loop body l' t'
  end.

(** ** Lemmas *)

Lemma Pass_bind {A B} (a : A) (k : A -> check B) : (Pass a ≫= k) = k a.
Proof. done. Qed.

Lemma bind_Pass {A B} (m : check A) (k : A -> check B) b : (m ≫= k) = Pass b <-> exists a, m = Pass a /\ k a = Pass b.
Proof. split; [destruct m; cbn; naive_solver|]. by intros (a & -> & ?). Qed.

Lemma reject_if_Pass bad f u : reject_if bad f = Pass u <-> bad = false.
Proof. destruct u, bad; cbn; naive_solver. Qed.

(** In a sequence of tests, one that passes first. *)
Lemma reject_if_seq {B} bad f (k : unit -> check B) b : (reject_if bad f ≫= k) = Pass b <-> bad = false /\ k tt = Pass b.
Proof. destruct bad; cbn; naive_solver. Qed.

Lemma seq_Pass {B} (m : check unit) (k : unit -> check B) b : (m ≫= k) = Pass b <-> m = Pass tt /\ k tt = Pass b.
Proof. rewrite bind_Pass. split; [intros ([] & ? & ?); done|intros [? ?]; by exists tt]. Qed.

Lemma check_each_cons {A} (body : A -> check unit) a l :
  check_each body (a :: l) = (_ ← body a; check_each body l).
Proof. unfold check_each. cbn. by destruct (body a) as [[]| | |]. Qed.

Lemma check_each_Pass {A} (body : A -> check unit) l : check_each body l = Pass tt <-> Forall (fun a => body a = Pass tt) l.
Proof.
  induction l as [|a l IH]; [done|]. rewrite check_each_cons, seq_Pass, Forall_cons, IH. done.
Qed.

Lemma check_distinct_loop {A} `{EqDecision A} (f : failure) (l : list A) : forall seen,
  (exists seen', check_loop (fun seen a => _ ← reject_if (bool_decide (a ∈ seen)) f; Pass (a :: seen)) l seen = Pass seen')
  <-> NoDup l /\ Forall (fun a => a ∉ seen) l.
Proof.
  induction l as [|a l IH]; intros seen; cbn [check_loop].
  - split; [intros _; split; constructor|eauto].
  - rewrite NoDup_cons, Forall_cons. case_bool_decide as Ha; cbn.
    + split; [by intros [? ?]|]. by intros [_ [? _]].
    + rewrite IH. rewrite !Forall_forall. set_solver.
Qed.

Lemma check_distinct_Pass {A} `{EqDecision A} (f : failure) (l : list A) : check_distinct f l = Pass tt <-> NoDup l.
Proof.
  unfold check_distinct. rewrite bind_Pass. pose proof (check_distinct_loop f l []) as H. split.
  - intros (s & E & _). by apply H; eauto.
  - intros Hn. destruct (proj2 H) as [s E]; [|by exists s]. split; [done|]. apply Forall_forall. set_solver.
Qed.

(** A check that does not throw or stop on any input of a type. *)
Definition decided {A} (m : check A) : Prop := match m with Pass _ | Fail _ => True | _ => False end.

(** [finish] records exactly the rejection, on a fresh state. *)
Lemma finish_new {A} (m : check A) : finish m CValidationState_new =
  match m with
  | Pass _ => Ok (true, CValidationState_new)
  | Fail (FailDoS level code reason corruption) => Ok (false, mkState MODE_INVALID level reason code corruption)
  | Fail (FailError reason) => Ok (false, mkState MODE_ERROR 0 reason 0 false)
  | Fail FailPlain => Ok (false, CValidationState_new)
  | Raise msg => Throw msg
  | Halt => Abort
  end.
Proof. by destruct m as [a|[]| |]. Qed.

Lemma lift_bind {S A B} (m : check A) (k : A -> scheck S B) s b s' :
  (lift m ≫= k) s = (Pass b, s') <-> exists a, m = Pass a /\ k a s = (Pass b, s').
Proof. unfold mbind, scheck_bind, lift. destruct m; split; naive_solver. Qed.

Lemma lift_seq {S B} (m : check unit) (k : unit -> scheck S B) s b s' :
  (lift m ≫= k) s = (Pass b, s') <-> m = Pass tt /\ k tt s = (Pass b, s').
Proof. rewrite lift_bind. split; [intros ([] & ? & ?); done|intros [? ?]; by exists tt]. Qed.

Lemma lift_last {S A} (m : check A) (s : S) b s' : lift m s = (Pass b, s') <-> m = Pass b /\ s = s'.
Proof. unfold lift. naive_solver. Qed.

Lemma of_result_Pass {A} (r : result A) a : of_result r = Pass a <-> r = Ok a.
Proof. destruct r; cbn; naive_solver. Qed.
