(* ===== verification/CheckTx.v ===== *)
(** * Transaction validity

    main.cpp: finality and expiry ([IsFinalTx], [IsExpiredTx],
    [CheckFinalTx]), signature operation counts, the checks of a transaction
    that need no context ([CheckTransactionWithoutProofVerification],
    [CheckTransaction]) and those that depend on the height
    ([ContextualCheckTransaction]).

    Proof and signature verification of librustzcash and libsodium, and the
    lookup of the last masternode payment, are parameters. *)
From stdpp Require Import prelude gmap strings list.
From S2P Require Import Prelude Transaction Script Interpreter Serialize TxSerialize SigHash Coins CoinsView CoinsLaws CoinsCache CoinsOps ChainParams Checks.
#[local] Open Scope Z_scope.

(** ** Finality and expiry *)

Definition TX_EXPIRING_SOON_THRESHOLD : Z := 3.

Definition IsFinalTx (tx : CMutableTransaction) (nBlockHeight nBlockTime : Z) : bool :=
  if nLockTime tx =? 0 then true
  else if nLockTime tx <? (if nLockTime tx <? LOCKTIME_THRESHOLD then nBlockHeight else nBlockTime) then true
  else forallb CTxIn_IsFinal (vin tx).

Definition IsExpiredTx (tx : CMutableTransaction) (nBlockHeight : Z) : bool :=
  if (nExpiryHeight tx =? 0) || IsCoinBase tx then false else nExpiryHeight tx <? u32 nBlockHeight.

Definition IsExpiringSoonTx (tx : CMutableTransaction) (nNextBlockHeight : Z) : bool :=
  IsExpiredTx tx (i32 (u32 (nNextBlockHeight + TX_EXPIRING_SOON_THRESHOLD))).

(** [tipHeight] is [chainActive.Height()], [medianTimePast] the median time of
    the tip and [adjustedTime] the network-adjusted time. *)
Definition CheckFinalTx (tx : CMutableTransaction) (flags tipHeight medianTimePast adjustedTime : Z) : bool :=
  let flags := Z.max flags 0 in
  let nBlockHeight := tipHeight + 1 in
  let nBlockTime := if negb (Z.land flags LOCKTIME_MEDIAN_TIME_PAST =? 0) then medianTimePast else adjustedTime in
  IsFinalTx tx nBlockHeight nBlockTime.

(** ** Signature operations *)

Definition GetLegacySigOpCount (tx : CMutableTransaction) : Z :=
  let n := foldl (fun n i => u32 (n + CScript_GetSigOpCount (scriptSig i) false)) 0 (vin tx) in
  foldl (fun n o => u32 (n + CScript_GetSigOpCount (scriptPubKey o) false)) n (tx_vout tx).

Section P2SHSigOps.
Context {SpT SaT V : Type} `{!MerkleTree SpT, !MerkleTree SaT, !CCoinsView SpT SaT V}.
Local Abbreviation cache := (CCoinsViewCache SpT SaT V).

Definition p2sh_sigops_step (s : Z * cache) (i : CTxIn) : result (Z * cache) :=
  r ← Cache_GetOutputFor i s.2;
  let prevout := scriptPubKey r.1 in
  Ok (if CScript_IsPayToScriptHash prevout then u32 (s.1 + CScript_GetSigOpCount_P2SH prevout (scriptSig i)) else s.1, r.2).
Definition GetP2SHSigOpCount (tx : CMutableTransaction) (inputs : cache) : result (Z * cache) :=
  if IsCoinBase tx then Ok (0, inputs) else foldM p2sh_sigops_step (vin tx) (0, inputs).
End P2SHSigOps.

(** ** Checks without context *)

Definition check_tx_version (tx : CMutableTransaction) : check unit :=
  if negb (fOverwintered tx) && (tx_nVersion tx <? SPROUT_MIN_TX_VERSION)
  then Fail (dos 100 REJECT_INVALID "bad-txns-version-too-low")
  else if fOverwintered tx then
    _ ← reject_if (tx_nVersion tx <? OVERWINTER_MIN_TX_VERSION) (dos 100 REJECT_INVALID "bad-tx-overwinter-version-too-low");
    _ ← reject_if (negb (nVersionGroupId tx =? OVERWINTER_VERSION_GROUP_ID) && negb (nVersionGroupId tx =? SAPLING_VERSION_GROUP_ID))
          (dos 100 REJECT_INVALID "bad-tx-version-group-id");
    reject_if (TX_EXPIRY_HEIGHT_THRESHOLD <=? nExpiryHeight tx) (dos 100 REJECT_INVALID "bad-tx-expiry-height-too-high")
  else Pass tt.

Definition is_empty {A} (l : list A) : bool := match l with [] => true | _ => false end.

Definition txouttotal_toolarge : failure := dos 100 REJECT_INVALID "bad-txns-txouttotal-toolarge".
Definition txintotal_toolarge : failure := dos 100 REJECT_INVALID "bad-txns-txintotal-toolarge".

(** The loop over the transparent outputs, with the running total. *)
Definition check_vout_step (nValueOut : Z) (txout : CTxOut) : check Z :=
  _ ← reject_if (nValue txout <? 0) (dos 100 REJECT_INVALID "bad-txns-vout-negative");
  _ ← reject_if (MAX_MONEY <? nValue txout) (dos 100 REJECT_INVALID "bad-txns-vout-toolarge");
  let nValueOut := i64 (nValueOut + nValue txout) in
  _ ← reject_if (negb (MoneyRange nValueOut)) txouttotal_toolarge;
  Pass nValueOut.

(** The loop over the joinsplits, with the running total of value out. *)
Definition check_joinsplit_step (nValueOut : Z) (js : JSDescription) : check Z :=
  _ ← reject_if (vpub_old js <? 0) (dos 100 REJECT_INVALID "bad-txns-vpub_old-negative");
  _ ← reject_if (vpub_new js <? 0) (dos 100 REJECT_INVALID "bad-txns-vpub_new-negative");
  _ ← reject_if (MAX_MONEY <? vpub_old js) (dos 100 REJECT_INVALID "bad-txns-vpub_old-toolarge");
  _ ← reject_if (MAX_MONEY <? vpub_new js) (dos 100 REJECT_INVALID "bad-txns-vpub_new-toolarge");
  _ ← reject_if (negb (vpub_new js =? 0) && negb (vpub_old js =? 0)) (dos 100 REJECT_INVALID "bad-txns-vpubs-both-nonzero");
  let nValueOut := i64 (nValueOut + vpub_old js) in
  _ ← reject_if (negb (MoneyRange nValueOut)) txouttotal_toolarge;
  Pass nValueOut.

(** The loop over the joinsplits, with the running total of value in. *)
Definition check_value_in_step (nValueIn : Z) (js : JSDescription) : check Z :=
  let nValueIn := i64 (nValueIn + vpub_new js) in
  _ ← reject_if (negb (MoneyRange (vpub_new js)) || negb (MoneyRange nValueIn)) txintotal_toolarge;
  Pass nValueIn.

(** The transparent outputs and a negative value balance. *)
Definition check_transparent_out (tx : CMutableTransaction) : check Z :=
  nValueOut ← check_loop check_vout_step (tx_vout tx) 0;
  _ ← reject_if (is_empty (vShieldedSpend tx) && is_empty (vShieldedOutput tx) && negb (valueBalance tx =? 0))
        (dos 100 REJECT_INVALID "bad-txns-valuebalance-nonzero");
  _ ← reject_if ((MAX_MONEY <? valueBalance tx) || (valueBalance tx <? - MAX_MONEY))
        (dos 100 REJECT_INVALID "bad-txns-valuebalance-toolarge");
  if valueBalance tx <=? 0 then
    let nValueOut := i64 (nValueOut + i64 (- valueBalance tx)) in
    _ ← reject_if (negb (MoneyRange nValueOut)) txouttotal_toolarge; Pass nValueOut
  else Pass nValueOut.

(** What the joinsplits and a positive value balance add to the pool. *)
Definition check_shielded_in (tx : CMutableTransaction) : check unit :=
  nValueIn ← check_loop check_value_in_step (vjoinsplit tx) 0;
  if 0 <=? valueBalance tx then
    reject_if (negb (MoneyRange (i64 (nValueIn + valueBalance tx)))) txintotal_toolarge
  else Pass tt.

Definition check_tx_amounts (tx : CMutableTransaction) : check unit :=
  nValueOut ← check_transparent_out tx;
  _ ← check_loop check_joinsplit_step (vjoinsplit tx) nValueOut;
  check_shielded_in tx.

Definition check_tx_coinbase (tx : CMutableTransaction) : check unit :=
  if IsCoinBase tx then
    _ ← reject_if (negb (is_empty (vjoinsplit tx))) (dos 100 REJECT_INVALID "bad-cb-has-joinsplits");
    _ ← reject_if (negb (is_empty (vShieldedSpend tx))) (dos 100 REJECT_INVALID "bad-cb-has-spend-description");
    _ ← reject_if (negb (is_empty (vShieldedOutput tx))) (dos 100 REJECT_INVALID "bad-cb-has-output-description");
    i ← of_result (index_or_abort (vin tx) 0);
    let n := Z.of_nat (length (scriptSig i)) in
    reject_if ((n <? 2) || (100 <? n)) (dos 100 REJECT_INVALID "bad-cb-length")
  else check_each (fun i => reject_if (COutPoint_IsNull (prevout i)) (dos 10 REJECT_INVALID "bad-txns-prevout-null")) (vin tx).

Definition CheckTransactionWithoutProofVerification (tx : CMutableTransaction) : check unit :=
  _ ← check_tx_version tx;
  _ ← reject_if (is_empty (vin tx) && is_empty (vjoinsplit tx) && is_empty (vShieldedSpend tx))
        (dos 10 REJECT_INVALID "bad-txns-vin-empty");
  _ ← reject_if (is_empty (tx_vout tx) && is_empty (vjoinsplit tx) && is_empty (vShieldedOutput tx))
        (dos 10 REJECT_INVALID "bad-txns-vout-empty");
  size ← of_result (GetSerializeSize_tx tx);
  _ ← reject_if (MAX_TX_SIZE_AFTER_SAPLING <? size) (dos 100 REJECT_INVALID "bad-txns-oversize");
  _ ← check_tx_amounts tx;
  _ ← check_distinct (dos 100 REJECT_INVALID "bad-txns-inputs-duplicate") (prevout <$> vin tx);
  _ ← check_distinct (dos 100 REJECT_INVALID "bad-joinsplits-nullifiers-duplicate") (sprout_nullifiers tx);
  _ ← check_distinct (dos 100 REJECT_INVALID "bad-spend-description-nullifiers-duplicate") (sapling_nullifiers tx);
  check_tx_coinbase tx.

(** [ProofVerifier::VerifySprout] of one joinsplit and the transaction's key. *)
Definition CheckTransaction (VerifySprout : JSDescription -> bytes -> bool) (tx : CMutableTransaction) : check unit :=
  _ ← CheckTransactionWithoutProofVerification tx;
  check_each (fun js => reject_if (negb (VerifySprout js (joinSplitPubKey tx)))
                (dos 100 REJECT_INVALID "bad-txns-joinsplit-verification-failed")) (vjoinsplit tx).

(** ** Checks that depend on the height *)

(** [ed25519_verify], the Sapling verification context of librustzcash with
    its three checks, and the masternode payment lookup of
    [GetLastPaymentBlock]. *)
Class TxVerifier := {
  ed25519_verify : bytes -> bytes -> uint256 -> bool;
  sapling_ctx : Type;
  sapling_verification_ctx_init : sapling_ctx;
  sapling_check_spend : sapling_ctx -> SpendDescription -> uint256 -> bool * sapling_ctx;
  sapling_check_output : sapling_ctx -> OutputDescription -> bool * sapling_ctx;
  sapling_final_check : sapling_ctx -> Z -> bytes -> uint256 -> bool;
  GetLastPaymentBlock : CTxIn -> option Z
}.

Definition hex_digit (d : Z) : Ascii.ascii := Ascii.ascii_of_nat (Z.to_nat (if d <? 10 then 48 + d else 87 + d)).
Definition HexInt (val : Z) : string :=
  String.string_of_list_ascii ((fun i => hex_digit (Z.shiftr val (4 * i) mod 16)) <$> [7; 6; 5; 4; 3; 2; 1; 0]).

Definition CheckBlacklistTx (params : CChainParams) (tx : CMutableTransaction) (height : Z) : result bool :=
  foldM (fun found i => if found : bool then Ok true else IsBlocked params height (prevout i)) (vin tx) false.

Section Contextual.
Context `{SigHashCrypto} `{TxVerifier}.
(** [Params()], and [chainActive.Height()]. *)
Context (params : CChainParams) (tipHeight : Z).

Definition CheckMnTx (tx : CMutableTransaction) : result bool :=
  if IsCoinBase tx then Ok true
  else foldM (fun ok i =>
         if negb ok then Ok false
         else match GetLastPaymentBlock i with
              | Some lastHeight => n ← GetmnLockBlocks params tipHeight; Ok (negb (tipHeight <? lastHeight + n))
              | None => Ok true
              end) (vin tx) true.

Section Transaction.
Context (chainparams : CChainParams) (tx : CMutableTransaction) (nHeight dosLevel : Z) (isInitBlockDownload : bool).

Definition active (idx : UpgradeIndex) : check bool := of_result (NetworkUpgradeActive nHeight (consensus chainparams) idx).
Definition ibd_level : Z := if isInitBlockDownload then 0 else dosLevel.

(** The version rules of the epoch. *)
Definition check_epoch_version (overwinterActive saplingActive : bool) : check unit :=
  _ ← reject_if (negb overwinterActive && fOverwintered tx) (dos ibd_level REJECT_INVALID "tx-overwinter-not-active");
  if saplingActive then
    _ ← reject_if ((SAPLING_MIN_TX_VERSION <=? tx_nVersion tx) && negb (fOverwintered tx))
          (dos dosLevel REJECT_INVALID "tx-overwintered-flag-not-set");
    _ ← reject_if (fOverwintered tx && negb (nVersionGroupId tx =? SAPLING_VERSION_GROUP_ID))
          (dos ibd_level REJECT_INVALID "bad-sapling-tx-version-group-id");
    _ ← reject_if (fOverwintered tx && (tx_nVersion tx <? SAPLING_MIN_TX_VERSION))
          (dos 100 REJECT_INVALID "bad-tx-sapling-version-too-low");
    reject_if (fOverwintered tx && (SAPLING_MAX_TX_VERSION <? tx_nVersion tx))
      (dos 100 REJECT_INVALID "bad-tx-sapling-version-too-high")
  else if overwinterActive then
    _ ← reject_if ((OVERWINTER_MIN_TX_VERSION <=? tx_nVersion tx) && negb (fOverwintered tx))
          (dos dosLevel REJECT_INVALID "tx-overwinter-flag-not-set");
    _ ← reject_if (fOverwintered tx && negb (nVersionGroupId tx =? OVERWINTER_VERSION_GROUP_ID))
          (dos ibd_level REJECT_INVALID "bad-overwinter-tx-version-group-id");
    reject_if (fOverwintered tx && (OVERWINTER_MAX_TX_VERSION <? tx_nVersion tx))
      (dos 100 REJECT_INVALID "bad-tx-overwinter-version-too-high")
  else Pass tt.

(** Between Atlantis and Morag shielded value may first only leave, then not move. *)
Definition check_shielded_phase (atlantisActive moragActive : bool) : check unit :=
  if atlantisActive && negb moragActive then
    late ← of_result (NetworkUpgradeActive (nHeight - nTimeshiftPriv (consensus chainparams)) (consensus chainparams) UPGRADE_ATLANTIS);
    if negb late then
      reject_if (is_empty (vShieldedSpend tx) && negb (is_empty (vShieldedOutput tx)))
        (dos 100 REJECT_INVALID "bad-txns-sending-to-private-address")
    else
      reject_if (negb (is_empty (vShieldedSpend tx)) || negb (is_empty (vShieldedOutput tx)))
        (dos 100 REJECT_INVALID "bad-txns-private-transaction")
  else Pass tt.

Definition check_expiry (overwinterActive : bool) : check unit :=
  if overwinterActive then
    _ ← reject_if (negb (fOverwintered tx)) (dos dosLevel REJECT_INVALID "tx-overwinter-active");
    reject_if (IsExpiredTx tx nHeight)
      (dos (if IsExpiredTx tx (nHeight - 1) then dosLevel else 0) REJECT_INVALID "tx-overwinter-expired")
  else Pass tt.

Definition has_shielded : bool :=
  negb (is_empty (vjoinsplit tx)) || negb (is_empty (vShieldedSpend tx)) || negb (is_empty (vShieldedOutput tx)).

(** [dataToBeSigned]; it stays zero when there is nothing to verify. *)
Definition data_to_be_signed : check uint256 :=
  if has_shielded then
    branch ← of_result (CurrentEpochBranchId nHeight (consensus params));
    match SignatureHash [] tx NOT_AN_INPUT SIGHASH_ALL 0 branch None with
    | Throw msg => if is_logic_error msg then Fail (dos 100 REJECT_INVALID "error-computing-signature-hash") else Raise msg
    | r => of_result r
    end
  else Pass uint256_null.

(** [prevDataToBeSigned] is declared and never assigned. *)
Definition prevDataToBeSigned : uint256 := uint256_null.

Definition check_joinsplit_sig (consensusBranchId dataToBeSigned : Z) : check unit :=
  let prevConsensusBranchId := PrevEpochBranchId consensusBranchId (consensus chainparams) in
  if negb (is_empty (vjoinsplit tx)) && negb (ed25519_verify (joinSplitPubKey tx) (joinSplitSig tx) dataToBeSigned) then
    if ed25519_verify (joinSplitPubKey tx) (joinSplitSig tx) prevDataToBeSigned then
      Fail (dos dosLevel REJECT_INVALID ("old-consensus-branch-id (Expected " +:+ HexInt consensusBranchId +:+ ", found "
              +:+ HexInt prevConsensusBranchId +:+ ")"))
    else Fail (dos dosLevel REJECT_INVALID "bad-txns-invalid-joinsplit-signature")
  else Pass tt.

Definition check_sapling_sigs (dataToBeSigned : uint256) : check unit :=
  if negb (is_empty (vShieldedSpend tx)) || negb (is_empty (vShieldedOutput tx)) then
    ctx ← check_loop (fun ctx spend => let '(ok, ctx) := sapling_check_spend ctx spend dataToBeSigned in
            _ ← reject_if (negb ok) (dos 100 REJECT_INVALID "bad-txns-sapling-spend-description-invalid"); Pass ctx)
            (vShieldedSpend tx) sapling_verification_ctx_init;
    ctx ← check_loop (fun ctx output => let '(ok, ctx) := sapling_check_output ctx output in
            _ ← reject_if (negb ok) (dos 100 REJECT_INVALID "bad-txns-sapling-output-description-invalid"); Pass ctx)
            (vShieldedOutput tx) ctx;
    reject_if (negb (sapling_final_check ctx (valueBalance tx) (bindingSig tx) dataToBeSigned))
      (dos 100 REJECT_INVALID "bad-txns-sapling-binding-signature-invalid")
  else Pass tt.

Definition ContextualCheckTransaction : check unit :=
  consensusBranchId ← of_result (CurrentEpochBranchId nHeight (consensus chainparams));
  overwinterActive ← active UPGRADE_OVERWINTER;
  saplingActive ← active UPGRADE_SAPLING;
  atlantisActive ← active UPGRADE_ATLANTIS;
  moragActive ← active UPGRADE_MORAG;
  xandarActive ← active UPGRADE_XANDAR;
  latveriaActive ← active UPGRADE_LATVERIA;
  _ ← check_epoch_version overwinterActive saplingActive;
  _ ← check_shielded_phase atlantisActive moragActive;
  _ ← check_expiry overwinterActive;
  _ ← (if negb saplingActive then
         size ← of_result (GetSerializeSize_tx tx);
         reject_if (MAX_TX_SIZE_BEFORE_SAPLING <? size) (dos 100 REJECT_INVALID "bad-txns-oversize")
       else Pass tt);
  _ ← (if xandarActive : bool then
         ok ← of_result (CheckMnTx tx); reject_if (negb ok) (dos 50 REJECT_INVALID "bad-txns-lock")
       else Pass tt);
  blacklisted ← of_result (CheckBlacklistTx params tx nHeight);
  _ ← reject_if blacklisted (dos 50 REJECT_INVALID "bad-txns-blackist-input");
  dataToBeSigned ← data_to_be_signed;
  _ ← check_joinsplit_sig consensusBranchId dataToBeSigned;
  check_sapling_sigs dataToBeSigned.
End Transaction.
End Contextual.

(** *** What the checks without context accept *)

(** A loop that adds up amounts, keeping the running total in range. *)
Section SumLoop.
Context {A : Type} (body : Z -> A -> check Z) (f : A -> Z) (P ok : A -> Prop).
Context (Hpos : forall a, P a -> 0 <= f a).
Context (Hbody : forall s a s', ok a -> 0 <= s <= MAX_MONEY -> body s a = Pass s' <-> P a /\ s' = s + f a /\ s + f a <= MAX_MONEY).

Lemma sum_loop l : forall s s', Forall ok l -> 0 <= s <= MAX_MONEY ->
  check_loop body l s = Pass s' <-> Forall P l /\ s' = s + sumZ (f <$> l) /\ s + sumZ (f <$> l) <= MAX_MONEY.
Proof.
  induction l as [|a l IH]; intros s s' Hok Hs; cbn [check_loop].
  - cbn. rewrite Z.add_0_r. split; [intros [= <-]; split_and!; [constructor|done|lia]|]. by intros (_ & -> & _).
  - apply Forall_cons in Hok as [Ha Hok]. rewrite bind_Pass, Forall_cons, fmap_cons, sumZ_cons. split.
    + intros (s1 & E1 & E2). apply Hbody in E1 as (HP & -> & Hle); [|done..]. specialize (Hpos _ HP).
      apply IH in E2 as (HF & -> & Hle2); [|done|lia]. split_and!; try done; lia.
    + intros ([HP HF] & -> & Hle).
      assert (0 <= sumZ (f <$> l)) by (apply sumZ_nonneg, Forall_fmap; eapply Forall_impl; [exact HF|exact Hpos]).
      specialize (Hpos _ HP). exists (s + f a). split; [apply Hbody; [done..|]; split_and!; try done; lia|].
      apply IH; [done|lia|]. split_and!; try done; lia.
Qed.
End SumLoop.

Lemma check_vout_step_Pass s o s' : is_i64 (nValue o) -> 0 <= s <= MAX_MONEY ->
  check_vout_step s o = Pass s' <-> 0 <= nValue o /\ s' = s + nValue o /\ s + nValue o <= MAX_MONEY.
Proof.
  intros Hi Hs. pose proof MAX_MONEY_lt. unfold check_vout_step. rewrite !reject_if_seq, Z.ltb_ge, Z.ltb_ge, negb_false_iff, MoneyRange_spec.
  split.
  - intros (? & ? & ? & [= <-]). rewrite i64_small in * by (unfold is_i64; lia). lia.
  - intros (? & -> & ?). rewrite i64_small by (unfold is_i64; lia). by split_and!; try lia.
Qed.

Definition joinsplit_amounts_ok (js : JSDescription) : Prop :=
  0 <= vpub_old js <= MAX_MONEY /\ 0 <= vpub_new js <= MAX_MONEY /\ (vpub_old js = 0 \/ vpub_new js = 0).

Lemma check_joinsplit_step_Pass s js s' : True -> 0 <= s <= MAX_MONEY ->
  check_joinsplit_step s js = Pass s' <-> joinsplit_amounts_ok js /\ s' = s + vpub_old js /\ s + vpub_old js <= MAX_MONEY.
Proof.
  intros _ Hs. pose proof MAX_MONEY_lt. unfold check_joinsplit_step, joinsplit_amounts_ok.
  rewrite !reject_if_seq, !Z.ltb_ge, andb_false_iff, !negb_false_iff, MoneyRange_spec, !Z.eqb_eq.
  split.
  - intros (? & ? & ? & ? & ? & ? & [= <-]). rewrite i64_small in * by (unfold is_i64; lia). split_and!; lia.
  - intros ((? & ? & ?) & -> & ?). rewrite i64_small by (unfold is_i64; lia). by split_and!; try lia; try tauto.
Qed.

Lemma check_value_in_step_Pass s js s' : is_i64 (vpub_new js) -> 0 <= s <= MAX_MONEY ->
  check_value_in_step s js = Pass s' <-> 0 <= vpub_new js /\ s' = s + vpub_new js /\ s + vpub_new js <= MAX_MONEY.
Proof.
  intros Hi Hs. pose proof MAX_MONEY_lt. unfold check_value_in_step.
  rewrite !reject_if_seq, orb_false_iff, !negb_false_iff, !MoneyRange_spec. split.
  - intros ((? & ?) & [= <-]). rewrite i64_small in * by (unfold is_i64; lia). lia.
  - intros (? & -> & ?). rewrite i64_small by (unfold is_i64; lia). by split_and!; try lia.
Qed.

Lemma is_empty_spec {A} (l : list A) : is_empty l = true <-> l = [].
Proof. by destruct l. Qed.
Lemma is_empty_false {A} (l : list A) : is_empty l = false <-> l <> [].
Proof. by destruct l. Qed.

(** The amounts of a transaction that passes, over the integers. *)
Record tx_amounts_ok (tx : CMutableTransaction) : Prop := {
  ta_vout : Forall (fun o => 0 <= nValue o) (tx_vout tx);
  ta_joinsplits : Forall joinsplit_amounts_ok (vjoinsplit tx);
  ta_balance : - MAX_MONEY <= valueBalance tx <= MAX_MONEY;
  ta_no_shielded : vShieldedSpend tx = [] -> vShieldedOutput tx = [] -> valueBalance tx = 0;
  ta_out : exact_value_out tx <= MAX_MONEY;
  ta_in : exact_shielded_in tx <= MAX_MONEY
}.

Lemma MAX_MONEY_nonneg : 0 <= MAX_MONEY.
Proof. vm_compute. done. Qed.

Definition balance_ok (tx : CMutableTransaction) : Prop :=
  - MAX_MONEY <= valueBalance tx <= MAX_MONEY /\ (vShieldedSpend tx = [] -> vShieldedOutput tx = [] -> valueBalance tx = 0).

Lemma balance_tests tx :
  is_empty (vShieldedSpend tx) && is_empty (vShieldedOutput tx) && negb (valueBalance tx =? 0) = false
  /\ (MAX_MONEY <? valueBalance tx) || (valueBalance tx <? - MAX_MONEY) = false <-> balance_ok tx.
Proof.
  unfold balance_ok. rewrite orb_false_iff, !Z.ltb_ge.
  destruct (vShieldedSpend tx), (vShieldedOutput tx); cbn; rewrite ?negb_false_iff, ?Z.eqb_eq; try (intuition (try done; lia)).
Qed.

Lemma check_transparent_out_Pass tx n : tx_amounts_i64 tx ->
  check_transparent_out tx = Pass n <-> Forall (fun o => 0 <= nValue o) (tx_vout tx) /\ balance_ok tx
    /\ n = sumZ (nValue <$> tx_vout tx) + Z.max 0 (- valueBalance tx) /\ n <= MAX_MONEY.
Proof.
  intros (Ho & _). rewrite Forall_fmap in Ho. pose proof MAX_MONEY_lt. pose proof MAX_MONEY_nonneg.
  unfold check_transparent_out. rewrite bind_Pass.
  setoid_rewrite (sum_loop check_vout_step nValue (fun o => 0 <= nValue o) (fun o => is_i64 (nValue o)));
    [|done|exact check_vout_step_Pass|done|lia].
  setoid_rewrite reject_if_seq. setoid_rewrite reject_if_seq.
  assert (Hsn : Forall (fun o => 0 <= nValue o) (tx_vout tx) -> 0 <= sumZ (nValue <$> tx_vout tx))
    by (intros; apply sumZ_nonneg, Forall_fmap; done).
  split.
  - intros (m & (Hvo & -> & Hs) & Hz & Hr & E). specialize (Hsn Hvo).
    assert (Hb : balance_ok tx) by (by apply balance_tests). destruct Hb as [Hb1 Hb2].
    split; [done|]. split; [done|]. destruct (Z.leb_spec (valueBalance tx) 0).
    + apply reject_if_seq in E as [E [= <-]]. apply negb_false_iff, MoneyRange_spec in E.
      rewrite (i64_small (- _)) in * by (unfold is_i64; lia). rewrite i64_small in * by (unfold is_i64; lia). lia.
    + injection E as <-. lia.
  - intros (Hvo & Hb & -> & Hle). specialize (Hsn Hvo). pose proof Hb as [Hb1 _]. apply balance_tests in Hb as [Hz Hr].
    exists (0 + sumZ (nValue <$> tx_vout tx)). split; [split_and!; [done|done|lia]|]. split; [done|]. split; [done|].
    destruct (Z.leb_spec (valueBalance tx) 0); [|f_equal; lia].
    rewrite (i64_small (- _)) by (unfold is_i64; lia). rewrite i64_small by (unfold is_i64; lia).
    apply reject_if_seq. rewrite negb_false_iff, MoneyRange_spec. split; [lia|]. f_equal. lia.
Qed.

Lemma check_shielded_in_Pass tx : tx_amounts_i64 tx -> balance_ok tx ->
  check_shielded_in tx = Pass tt <-> Forall (fun js => 0 <= vpub_new js) (vjoinsplit tx) /\ exact_shielded_in tx <= MAX_MONEY.
Proof.
  intros (_ & _ & _ & Hjn) [Hb _]. rewrite Forall_fmap in Hjn. pose proof MAX_MONEY_lt. pose proof MAX_MONEY_nonneg.
  unfold check_shielded_in, exact_shielded_in. rewrite bind_Pass.
  setoid_rewrite (sum_loop check_value_in_step vpub_new (fun js => 0 <= vpub_new js) (fun js => is_i64 (vpub_new js)));
    [|done|exact check_value_in_step_Pass|done|lia].
  assert (Hsn : Forall (fun js => 0 <= vpub_new js) (vjoinsplit tx) -> 0 <= sumZ (vpub_new <$> vjoinsplit tx))
    by (intros; apply sumZ_nonneg, Forall_fmap; done).
  split.
  - intros (m & (Hj & -> & Hs) & E). specialize (Hsn Hj). split; [done|].
    destruct (Z.leb_spec 0 (valueBalance tx)); [|lia].
    apply reject_if_Pass, negb_false_iff, MoneyRange_spec in E. rewrite i64_small in E by (unfold is_i64; lia). lia.
  - intros [Hj Hle]. specialize (Hsn Hj). eexists. split; [split_and!; [done|done|lia]|].
    destruct (Z.leb_spec 0 (valueBalance tx)); [|done]. apply reject_if_Pass, negb_false_iff, MoneyRange_spec.
    rewrite i64_small by (unfold is_i64; lia). lia.
Qed.

Lemma check_tx_amounts_Pass tx : tx_amounts_i64 tx -> check_tx_amounts tx = Pass tt <-> tx_amounts_ok tx.
Proof.
  intros Hi. unfold check_tx_amounts. rewrite bind_Pass. setoid_rewrite check_transparent_out_Pass; [|done].
  assert (Hjs : forall n s', 0 <= n <= MAX_MONEY -> check_loop check_joinsplit_step (vjoinsplit tx) n = Pass s' <->
    Forall joinsplit_amounts_ok (vjoinsplit tx) /\ s' = n + sumZ (vpub_old <$> vjoinsplit tx) /\ n + sumZ (vpub_old <$> vjoinsplit tx) <= MAX_MONEY).
  { intros n s' Hn. apply (sum_loop _ vpub_old joinsplit_amounts_ok (fun _ => True));
      [by intros ? ((? & ?) & _)|exact check_joinsplit_step_Pass|by apply Forall_true|done]. }
  assert (Hsn : Forall (fun o => 0 <= nValue o) (tx_vout tx) -> 0 <= sumZ (nValue <$> tx_vout tx))
    by (intros; apply sumZ_nonneg, Forall_fmap; done).
  split.
  - intros (n & (Hvo & Hb & -> & Hle) & E). specialize (Hsn Hvo). apply bind_Pass in E as (n2 & E1 & E2).
    apply Hjs in E1 as (Hj & -> & Hso); [|lia]. apply (check_shielded_in_Pass tx Hi Hb) in E2 as [_ Hin]. by destruct Hb.
  - intros [Hvo Hj Hb1 Hb2 Hout Hin]. specialize (Hsn Hvo). unfold exact_value_out in Hout.
    assert (Hso : 0 <= sumZ (vpub_old <$> vjoinsplit tx))
      by (apply sumZ_nonneg, Forall_fmap; eapply Forall_impl; [exact Hj|]; by intros ? ((? & ?) & _)).
    eexists. split; [split_and!; [done|done|done|lia]|]. apply bind_Pass. eexists. split.
    { apply Hjs; [lia|]. split_and!; [done|done|lia]. }
    apply check_shielded_in_Pass; [done|done|]. split; [|done]. eapply Forall_impl; [exact Hj|]. by intros ? (_ & (? & ?) & _).
Qed.

Definition tx_version_ok (tx : CMutableTransaction) : Prop :=
  if fOverwintered tx then
    OVERWINTER_MIN_TX_VERSION <= tx_nVersion tx
    /\ (nVersionGroupId tx = OVERWINTER_VERSION_GROUP_ID \/ nVersionGroupId tx = SAPLING_VERSION_GROUP_ID)
    /\ nExpiryHeight tx < TX_EXPIRY_HEIGHT_THRESHOLD
  else SPROUT_MIN_TX_VERSION <= tx_nVersion tx.

Lemma check_tx_version_Pass tx : check_tx_version tx = Pass tt <-> tx_version_ok tx.
Proof.
  unfold check_tx_version, tx_version_ok. destruct (fOverwintered tx); cbn [negb andb].
  - rewrite !reject_if_seq, reject_if_Pass, Z.ltb_ge, Z.leb_gt, andb_false_iff, !negb_false_iff, !Z.eqb_eq. done.
  - destruct (Z.ltb_spec (tx_nVersion tx) SPROUT_MIN_TX_VERSION); split; try done; lia.
Qed.

Definition tx_coinbase_ok (tx : CMutableTransaction) : Prop :=
  if IsCoinBase tx then
    vjoinsplit tx = [] /\ vShieldedSpend tx = [] /\ vShieldedOutput tx = []
    /\ exists i, vin tx = [i] /\ (2 <= length (scriptSig i) <= 100)%nat
  else Forall (fun i => COutPoint_IsNull (prevout i) = false) (vin tx).

Lemma check_tx_coinbase_Pass tx : check_tx_coinbase tx = Pass tt <-> tx_coinbase_ok tx.
Proof.
  unfold check_tx_coinbase, tx_coinbase_ok. destruct (IsCoinBase tx) eqn:Ec.
  - unfold IsCoinBase in Ec. destruct (vin tx) as [|i [|]]; [done| |done].
    rewrite !reject_if_seq, !negb_false_iff, !is_empty_spec. change (index_or_abort [i] 0) with (Ok i).
    cbn [of_result]. rewrite Pass_bind, reject_if_Pass, orb_false_iff, !Z.ltb_ge.
    split; [intros (? & ? & ? & ? & ?); split_and!; [done..|]; exists i; split; [done|lia]|].
    intros (? & ? & ? & j & [= <-] & ?). split_and!; [done..|lia|lia].
  - rewrite check_each_Pass. apply Forall_iff. intros i. apply reject_if_Pass.
Qed.

(** What a transaction is checked for without context. *)
Record tx_checked (tx : CMutableTransaction) : Prop := {
  tc_version : tx_version_ok tx;
  tc_vin : vin tx <> [] \/ vjoinsplit tx <> [] \/ vShieldedSpend tx <> [];
  tc_vout : tx_vout tx <> [] \/ vjoinsplit tx <> [] \/ vShieldedOutput tx <> [];
  tc_size : exists n, GetSerializeSize_tx tx = Ok n /\ n <= MAX_TX_SIZE_AFTER_SAPLING;
  tc_amounts : tx_amounts_ok tx;
  tc_inputs : NoDup (prevout <$> vin tx);
  tc_sprout : NoDup (sprout_nullifiers tx);
  tc_sapling : NoDup (sapling_nullifiers tx);
  tc_coinbase : tx_coinbase_ok tx
}.

Lemma CheckTransactionWithoutProofVerification_Pass tx : tx_amounts_i64 tx ->
  CheckTransactionWithoutProofVerification tx = Pass tt <-> tx_checked tx.
Proof.
  intros Hi. unfold CheckTransactionWithoutProofVerification.
  rewrite seq_Pass, !reject_if_seq, bind_Pass, check_tx_version_Pass, !andb_false_iff, !is_empty_false.
  assert (Hs : (exists a, of_result (GetSerializeSize_tx tx) = Pass a /\
    (_ ← reject_if (MAX_TX_SIZE_AFTER_SAPLING <? a) (dos 100 REJECT_INVALID "bad-txns-oversize");
     _ ← check_tx_amounts tx;
     _ ← check_distinct (dos 100 REJECT_INVALID "bad-txns-inputs-duplicate") (prevout <$> vin tx);
     _ ← check_distinct (dos 100 REJECT_INVALID "bad-joinsplits-nullifiers-duplicate") (sprout_nullifiers tx);
     _ ← check_distinct (dos 100 REJECT_INVALID "bad-spend-description-nullifiers-duplicate") (sapling_nullifiers tx);
     check_tx_coinbase tx) = Pass tt)
    <-> (exists n, GetSerializeSize_tx tx = Ok n /\ n <= MAX_TX_SIZE_AFTER_SAPLING) /\ tx_amounts_ok tx
        /\ NoDup (prevout <$> vin tx) /\ NoDup (sprout_nullifiers tx) /\ NoDup (sapling_nullifiers tx) /\ tx_coinbase_ok tx).
  { setoid_rewrite reject_if_seq. setoid_rewrite Z.ltb_ge. setoid_rewrite seq_Pass. setoid_rewrite seq_Pass. setoid_rewrite seq_Pass.
    setoid_rewrite seq_Pass. setoid_rewrite check_distinct_Pass. setoid_rewrite check_tx_coinbase_Pass.
    setoid_rewrite (check_tx_amounts_Pass tx Hi).
    destruct (GetSerializeSize_tx tx) as [n| |]; cbn [of_result]; naive_solver. }
  rewrite Hs. split; [intros (? & ? & ? & ? & ? & ? & ? & ? & ?); split; tauto|]. intros []. tauto.
Qed.

Lemma CheckTransaction_Pass (VerifySprout : JSDescription -> bytes -> bool) (tx : CMutableTransaction) : tx_amounts_i64 tx ->
  CheckTransaction VerifySprout tx = Pass tt
  <-> tx_checked tx /\ Forall (fun js => VerifySprout js (joinSplitPubKey tx) = true) (vjoinsplit tx).
Proof.
  intros Hi. unfold CheckTransaction. rewrite seq_Pass, CheckTransactionWithoutProofVerification_Pass, check_each_Pass by done.
  apply and_iff_compat_l, Forall_iff. intros js. rewrite reject_if_Pass. apply negb_false_iff.
Qed.

(** (C25) [CheckTransaction] accepts exactly the well-formed transactions: a
    known version, inputs and outputs present, serialized size within the
    limit, amounts in range with their exact integer totals at most
    [MAX_MONEY] in both directions, no input, Sprout nullifier or Sapling
    nullifier twice, the shape of a coinbase or no null input, and a valid
    proof for every joinsplit.  The 64-bit additions of the running totals
    cannot wrap past the tests. *)
Theorem CheckTransaction_iff (VerifySprout : JSDescription -> bytes -> bool) (tx : CMutableTransaction)
  (Hi : tx_amounts_i64 tx) :
  CheckTransaction VerifySprout tx = Pass tt
  <-> tx_checked tx /\ Forall (fun js => VerifySprout js (joinSplitPubKey tx) = true) (vjoinsplit tx).
Proof. by apply CheckTransaction_Pass. Qed.

Lemma CheckTransaction_iff_witness : tx_checked (example_tx [1] 9) /\ ~ tx_checked (example_tx [1] (MAX_MONEY + 1)).
Proof.
  split.
  - apply (CheckTransaction_iff (fun _ _ => true)); [|by vm_compute].
    unfold tx_amounts_i64, is_i64. cbn. split_and!; repeat constructor; lia.
  - intros Hc. assert (E : CheckTransaction (fun _ _ => true) (example_tx [1] (MAX_MONEY + 1)) = Pass tt); [|by vm_compute in E].
    apply (CheckTransaction_iff (fun _ _ => true)); [|by split; [|constructor]].
    unfold tx_amounts_i64, is_i64. split_and!; cbn; repeat constructor; vm_compute; done.
Defined.
