(* ===== verification/CheckInputs.v ===== *)
(** * Transaction inputs against the coins view

    main.cpp: [Consensus::CheckTxInputs] (inputs available, shielded
    requirements met, coinbases mature, value in at least value out),
    [CScriptCheck] and [ContextualCheckInputs] (the scripts of all inputs,
    now or as deferred checks), with the reject codes of the shielded
    requirements. *)
From stdpp Require Import prelude gmap strings list.
From S2P Require Import Prelude Transaction Script Interpreter InterpreterSafety Serialize TxSerialize SigHash Coins CoinsView CoinsLaws CoinsCache CoinsOps ChainParams Chain Checks CheckTx.
#[local] Open Scope Z_scope.

Definition ShieldedReqRejectCode (shieldedReq : UnsatisfiedShieldedReq) : Z :=
  match shieldedReq with
  | SproutDuplicateNullifier | SaplingDuplicateNullifier => REJECT_DUPLICATE
  | SproutUnknownAnchor | SaplingUnknownAnchor => REJECT_INVALID
  end.

Definition ShieldedReqRejectReason (shieldedReq : UnsatisfiedShieldedReq) : string :=
  match shieldedReq with
  | SproutDuplicateNullifier => "bad-txns-sprout-duplicate-nullifier"
  | SproutUnknownAnchor => "bad-txns-sprout-unknown-anchor"
  | SaplingDuplicateNullifier => "bad-txns-sapling-duplicate-nullifier"
  | SaplingUnknownAnchor => "bad-txns-sapling-unknown-anchor"
  end.

(** ** The signature checker of a transaction *)

Record TransactionSignatureChecker := mkChecker {
  ck_txTo : CMutableTransaction;
  ck_nIn : Z;
  ck_amount : Z;
  ck_txdata : option PrecomputedTransactionData
}.

#[global] Instance TransactionSignatureChecker_checker `{SigHashCrypto} : BaseSignatureChecker TransactionSignatureChecker := {
  CheckSig ck vchSig vchPubKey scriptCode branch :=
    Tx_CheckSig (ck_txTo ck) (ck_nIn ck) (ck_amount ck) (ck_txdata ck) vchSig vchPubKey scriptCode branch;
  CheckLockTime ck nLockTime := Tx_CheckLockTime (ck_txTo ck) (Z.to_nat (ck_nIn ck)) nLockTime
}.

(** The checker of an input does not abort. *)
Lemma TransactionSignatureChecker_ok `{SigHashCrypto} (ck : TransactionSignatureChecker) :
  0 <= ck_nIn ck < Z.of_nat (length (vin (ck_txTo ck))) -> Z.of_nat (length (vin (ck_txTo ck))) < 2 ^ 32 - 1 -> checker_ok ck.
Proof.
  intros Hn Hl. split.
  - intros sig key code branch. by apply Tx_CheckSig_returns.
  - intros n. cbn. unfold Tx_CheckLockTime. destruct (negb _); [done|]. destruct (_ <? n); [done|].
    destruct (lookup_lt_is_Some_2 (vin (ck_txTo ck)) (Z.to_nat (ck_nIn ck))) as [i Hi]; [lia|]. unfold index_or_abort. by rewrite Hi.
Qed.

(** ** [CScriptCheck] *)

Record CScriptCheck := mkScriptCheck {
  sc_scriptPubKey : CScript;
  sc_amount : Z;
  sc_txTo : CMutableTransaction;
  sc_nIn : Z;
  sc_nFlags : Z;
  sc_consensusBranchId : Z;
  sc_txdata : option PrecomputedTransactionData
}.

Definition CScriptCheck_new (txFromIn : CCoins) (txToIn : CMutableTransaction) (nInIn nFlagsIn consensusBranchIdIn : Z)
  (txdataIn : option PrecomputedTransactionData) : result CScriptCheck :=
  i ← index_or_abort (vin txToIn) (Z.to_nat nInIn);
  o ← index_or_abort (vout txFromIn) (Z.to_nat (out_n (prevout i)));
  Ok (mkScriptCheck (scriptPubKey o) (nValue o) txToIn nInIn nFlagsIn consensusBranchIdIn txdataIn).

Definition MANDATORY_SCRIPT_VERIFY_FLAGS : Z := SCRIPT_VERIFY_P2SH.
Definition STANDARD_SCRIPT_VERIFY_FLAGS : Z :=
  Z.lor (Z.lor (Z.lor (Z.lor (Z.lor (Z.lor (Z.lor MANDATORY_SCRIPT_VERIFY_FLAGS SCRIPT_VERIFY_STRICTENC) SCRIPT_VERIFY_MINIMALDATA)
    SCRIPT_VERIFY_NULLDUMMY) SCRIPT_VERIFY_DISCOURAGE_UPGRADABLE_NOPS) SCRIPT_VERIFY_CLEANSTACK)
    SCRIPT_VERIFY_CHECKLOCKTIMEVERIFY) SCRIPT_VERIFY_LOW_S.
Definition STANDARD_NOT_MANDATORY_VERIFY_FLAGS : Z := Z.ldiff STANDARD_SCRIPT_VERIFY_FLAGS MANDATORY_SCRIPT_VERIFY_FLAGS.

Definition ScriptErrorString (serror : ScriptError) : string :=
  match serror with
  | SCRIPT_ERR_OK => "No error"
  | SCRIPT_ERR_EVAL_FALSE => "Script evaluated without error but finished with a false/empty top stack element"
  | SCRIPT_ERR_VERIFY => "Script failed an OP_VERIFY operation"
  | SCRIPT_ERR_EQUALVERIFY => "Script failed an OP_EQUALVERIFY operation"
  | SCRIPT_ERR_CHECKMULTISIGVERIFY => "Script failed an OP_CHECKMULTISIGVERIFY operation"
  | SCRIPT_ERR_CHECKSIGVERIFY => "Script failed an OP_CHECKSIGVERIFY operation"
  | SCRIPT_ERR_NUMEQUALVERIFY => "Script failed an OP_NUMEQUALVERIFY operation"
  | SCRIPT_ERR_SCRIPT_SIZE => "Script is too big"
  | SCRIPT_ERR_PUSH_SIZE => "Push value size limit exceeded"
  | SCRIPT_ERR_OP_COUNT => "Operation limit exceeded"
  | SCRIPT_ERR_STACK_SIZE => "Stack size limit exceeded"
  | SCRIPT_ERR_SIG_COUNT => "Signature count negative or greater than pubkey count"
  | SCRIPT_ERR_PUBKEY_COUNT => "Pubkey count negative or limit exceeded"
  | SCRIPT_ERR_BAD_OPCODE => "Opcode missing or not understood"
  | SCRIPT_ERR_DISABLED_OPCODE => "Attempted to use a disabled opcode"
  | SCRIPT_ERR_INVALID_STACK_OPERATION => "Operation not valid with the current stack size"
  | SCRIPT_ERR_INVALID_ALTSTACK_OPERATION => "Operation not valid with the current altstack size"
  | SCRIPT_ERR_OP_RETURN => "OP_RETURN was encountered"
  | SCRIPT_ERR_UNBALANCED_CONDITIONAL => "Invalid OP_IF construction"
  | SCRIPT_ERR_NEGATIVE_LOCKTIME => "Negative locktime"
  | SCRIPT_ERR_UNSATISFIED_LOCKTIME => "Locktime requirement not satisfied"
  | SCRIPT_ERR_SIG_HASHTYPE => "Signature hash type missing or not understood"
  | SCRIPT_ERR_SIG_DER => "Non-canonical DER signature"
  | SCRIPT_ERR_MINIMALDATA => "Data push larger than necessary"
  | SCRIPT_ERR_SIG_PUSHONLY => "Only non-push operators allowed in signatures"
  | SCRIPT_ERR_SIG_HIGH_S => "Non-canonical signature: S value is unnecessarily high"
  | SCRIPT_ERR_SIG_NULLDUMMY => "Dummy CHECKMULTISIG argument must be zero"
  | SCRIPT_ERR_DISCOURAGE_UPGRADABLE_NOPS => "NOPx reserved for soft-fork upgrades"
  | SCRIPT_ERR_PUBKEYTYPE => "Public key is neither compressed or uncompressed"
  | _ => "unknown error"
  end.

Section CheckInputs.
Context {SpT SaT V : Type} `{!MerkleTree SpT, !MerkleTree SaT, !CCoinsView SpT SaT V}.
Context `{SigHashCrypto} `{ScriptCrypto}.
Local Abbreviation cache := (CCoinsViewCache SpT SaT V).

(** [CScriptCheck::operator()]: [inl] is the script error. *)
Definition CScriptCheck_call (ck : CScriptCheck) : result (ScriptError + unit) :=
  i ← index_or_abort (vin (sc_txTo ck)) (Z.to_nat (sc_nIn ck));
  (VerifyScript (scriptSig i) (sc_scriptPubKey ck) (sc_nFlags ck)
    (mkChecker (sc_txTo ck) (sc_nIn ck) (sc_amount ck) (sc_txdata ck)) (sc_consensusBranchId ck) : result (ScriptError + unit)).

(** ** [Consensus::CheckTxInputs] *)

Section TxInputs.
Context (tx : CTransaction) (nSpendHeight : Z) (consensusParams : Params) (fCoinbaseEnforcedProtectionEnabled : bool).

(** [coins->vout[prevout.n]] of the coins of an input, which are there. *)
Definition access_input (i : CTxIn) : scheck cache CCoins :=
  coins ← query (Cache_AccessCoins (out_hash (prevout i)));
  lift (of_result (match coins with Some coins => Ok coins | None => Abort end)).

Definition check_coinbase_spend (coins : CCoins) : check unit :=
  if fCoinBase coins then
    _ ← reject_if (nSpendHeight - nHeight coins <? COINBASE_MATURITY)
          (invalid REJECT_INVALID "bad-txns-premature-spend-of-coinbase");
    reject_if (fCoinbaseEnforcedProtectionEnabled && fCoinbaseMustBeProtected consensusParams && negb (is_empty (tx_vout tx)))
      (invalid REJECT_INVALID "bad-txns-coinbase-spend-has-transparent-outputs")
  else Pass tt.

Definition inputvalues_outofrange : failure := dos 100 REJECT_INVALID "bad-txns-inputvalues-outofrange".

Definition check_input_step (nValueIn : Z) (i : CTxIn) : scheck cache Z :=
  coins ← access_input i;
  _ ← lift (check_coinbase_spend coins);
  o ← lift (of_result (index_or_abort (vout coins) (Z.to_nat (out_n (prevout i)))));
  let nValueIn := i64 (nValueIn + nValue o) in
  _ ← lift (reject_if (negb (MoneyRange (nValue o)) || negb (MoneyRange nValueIn)) inputvalues_outofrange);
  mret nValueIn.

(** The totals, once the transparent inputs have been added up. *)
Definition check_value_balance (nValueIn : Z) : check unit :=
  shielded ← of_result (GetShieldedValueIn tx);
  let nValueIn := i64 (nValueIn + shielded) in
  _ ← reject_if (negb (MoneyRange nValueIn)) inputvalues_outofrange;
  nValueOut ← of_result (GetValueOut tx);
  _ ← reject_if (nValueIn <? nValueOut) (dos 100 REJECT_INVALID "bad-txns-in-belowout");
  let nTxFee := i64 (nValueIn - nValueOut) in
  _ ← reject_if (nTxFee <? 0) (dos 100 REJECT_INVALID "bad-txns-fee-negative");
  let nFees := i64 (0 + nTxFee) in
  reject_if (negb (MoneyRange nFees)) (dos 100 REJECT_INVALID "bad-txns-fee-outofrange").

Definition CheckTxInputs : scheck cache unit :=
  have ← query (Cache_HaveInputs tx);
  _ ← lift (reject_if (negb have) (invalid 0 ""));
  unmet ← action (Cache_HaveShieldedRequirements tx);
  _ ← lift (match unmet with
            | Some req => Fail (invalid (ShieldedReqRejectCode req) (ShieldedReqRejectReason req))
            | None => Pass tt
            end);
  nValueIn ← scheck_loop check_input_step (vin tx) 0;
  lift (check_value_balance nValueIn).
End TxInputs.

(** [GetSpendHeight]: the height of the view's best block, plus one. *)
Definition GetSpendHeight (mapBlockIndex : BlockMap) : scheck cache Z :=
  best ← query Cache_GetBestBlock;
  pindexPrev ← lift (of_result (deref mapBlockIndex best));
  mret (bi_nHeight pindexPrev + 1).

(** ** [ContextualCheckInputs] *)

(** One input: with [pvChecks] the check is kept for later, without it is run. *)
Definition check_script_step (tx : CTransaction) (flags : Z) (txdata : option PrecomputedTransactionData) (consensusBranchId : Z)
  (pvChecks : option (list CScriptCheck)) (n_i : Z * CTxIn) : scheck cache (option (list CScriptCheck)) :=
  let '(n, i) := n_i in
  coins ← access_input i;
  ck ← lift (of_result (CScriptCheck_new coins tx n flags consensusBranchId txdata));
  match pvChecks with
  | Some l => mret (Some (l ++ [ck]))
  | None =>
      r ← lift (of_result (CScriptCheck_call ck));
      match r with
      | inr _ => mret None
      | inl serror =>
          r2 ← lift (if negb (Z.land flags STANDARD_NOT_MANDATORY_VERIFY_FLAGS =? 0) then
                  ck2 ← of_result (CScriptCheck_new coins tx n (Z.ldiff flags STANDARD_NOT_MANDATORY_VERIFY_FLAGS) consensusBranchId txdata);
                  r2 ← of_result (CScriptCheck_call ck2);
                  Pass (match r2 with inr _ => true | inl _ => false end)
                else Pass false);
          lift (Fail (if r2 : bool
                then invalid REJECT_NONSTANDARD ("non-mandatory-script-verify-flag (" +:+ ScriptErrorString serror +:+ ")")
                else dos 100 REJECT_INVALID ("mandatory-script-verify-flag-failed (" +:+ ScriptErrorString serror +:+ ")")))
      end
  end.

Definition ContextualCheckInputs (params : CChainParams) (mapBlockIndex : BlockMap) (tx : CTransaction) (fScriptChecks : bool)
  (flags : Z) (txdata : option PrecomputedTransactionData) (consensusParams : Params) (consensusBranchId : Z)
  (pvChecks : option (list CScriptCheck)) : scheck cache (option (list CScriptCheck)) :=
  if IsCoinBase tx then mret pvChecks
  else
    height ← GetSpendHeight mapBlockIndex;
    protected ← lift (of_result (GetCoinbaseProtected params height));
    _ ← CheckTxInputs tx height consensusParams protected;
    if fScriptChecks then
      scheck_loop (check_script_step tx flags txdata consensusBranchId)
        (zip (seqZ 0 (Z.of_nat (length (vin tx)))) (vin tx)) pvChecks
    else mret pvChecks.
End CheckInputs.

(** ** What accepted inputs satisfy *)

Lemma scheck_bind_Pass {S A B} (m : scheck S A) (k : A -> scheck S B) s b s' :
  (m ≫= k) s = (Pass b, s') -> exists a s1, m s = (Pass a, s1) /\ k a s1 = (Pass b, s').
Proof. unfold mbind, scheck_bind. destruct (m s) as [[] ?]; intros E; simplify_eq; eauto. Qed.

Lemma lift_Pass {S A} (m : check A) (s : S) a s' : lift m s = (Pass a, s') -> m = Pass a /\ s' = s.
Proof. unfold lift. by intros [= -> ->]. Qed.

Section InputLaws.
Context {SpT SaT V : Type} `{!MerkleTree SpT, !MerkleTree SaT, !CCoinsView SpT SaT V}.
Context `{!CCoinsViewReads SpT SaT V}.
Context `{SigHashCrypto} `{ScriptCrypto}.
Local Abbreviation cache := (CCoinsViewCache SpT SaT V).
Implicit Types c : cache.

(** A check that only reads the view, whatever its outcome. *)
Definition reads_only {A} (m : scheck cache A) : Prop := forall c, cache_core c -> read_ok c (m c).2.

Lemma reads_only_lift {A} (m : check A) : reads_only (lift m).
Proof. intros c Hc. by apply read_ok_refl. Qed.

Lemma reads_only_bind {A B} (m : scheck cache A) (k : A -> scheck cache B) :
  reads_only m -> (forall a, reads_only (k a)) -> reads_only (m ≫= k).
Proof.
  intros Hm Hk c Hc. specialize (Hm c Hc). unfold mbind, scheck_bind. destruct (m c) as [[a| | |] c1]; [|done..].
  eapply read_ok_trans; [exact Hm|]. apply (Hk a). apply Hm.
Qed.

Lemma reads_only_loop {T A} (body : T -> A -> scheck cache T) l :
  (forall t a, reads_only (body t a)) -> forall t, reads_only (scheck_loop body l t).
Proof.
  intros Hb. induction l as [|a l IH]; intros t; cbn [scheck_loop]; [intros c Hc; by apply read_ok_refl|].
  apply reads_only_bind; [apply Hb|apply IH].
Qed.

Lemma reads_only_query {A} (f : cache -> A * cache) : (forall c, cache_core c -> read_ok c (f c).2) -> reads_only (query f).
Proof. intros Hf c Hc. unfold query. specialize (Hf c Hc). by destruct (f c). Qed.

Lemma reads_only_access i : reads_only (access_input i).
Proof.
  apply reads_only_bind; [|intros; apply reads_only_lift]. apply reads_only_query. intros c Hc. by apply AccessCoins_ok.
Qed.

Lemma access_input_Pass i c coins c' : cache_core c -> access_input i c = (Pass coins, c') ->
  read_ok c c' /\ norm (Some coins) = a_coins (cache_abs c) (out_hash (prevout i)).
Proof.
  intros Hc E. apply scheck_bind_Pass in E as (o & c1 & E1 & E2). apply lift_Pass in E2 as [E2 ->].
  destruct o as [coins'|]; [|done]. injection E2 as ->. unfold query in E1.
  destruct (FetchCoins_ok (out_hash (prevout i)) c Hc) as (Hr & Hn & _). unfold Cache_AccessCoins in E1.
  destruct (FetchCoins _ c) as [o c2]. cbn [fst snd] in *. by simplify_eq.
Qed.

(** What is checked of one input: its unspent output in the view. *)
Definition input_ok (a : AbsView) (tx : CTransaction) (height : Z) (cp : Params) (prot : bool) (i : CTxIn) : Prop :=
  exists coins o, a_coins a (out_hash (prevout i)) = Some coins /\ unspent coins (Z.to_nat (out_n (prevout i))) = Some o
    /\ 0 <= nValue o
    /\ (fCoinBase coins = true -> COINBASE_MATURITY <= height - nHeight coins
          /\ (prot && fCoinbaseMustBeProtected cp = true -> tx_vout tx = [])).

Lemma check_coinbase_spend_Pass tx height cp prot coins : check_coinbase_spend tx height cp prot coins = Pass tt ->
  fCoinBase coins = true -> COINBASE_MATURITY <= height - nHeight coins
    /\ (prot && fCoinbaseMustBeProtected cp = true -> tx_vout tx = []).
Proof.
  unfold check_coinbase_spend. intros E Hcb. rewrite Hcb in E. apply reject_if_seq in E as [E1 E2]. apply Z.ltb_ge in E1. split; [done|].
  intros Hp. rewrite Hp in E2. apply reject_if_Pass, negb_false_iff in E2. by apply is_empty_spec.
Qed.

Lemma norm_unspent (coins : CCoins) ac n o : norm (Some coins) = ac -> (cs ← ac; unspent cs n) = Some o ->
  ac = Some coins /\ unspent coins n = Some o.
Proof.
  intros <- Ho. cbn [norm] in *. destruct (CCoins_IsPruned coins); [done|]. done.
Qed.

Lemma check_input_step_Pass tx height cp prot n i c n' c' :
  cache_core c -> is_Some (out_unspent (cache_abs c) (prevout i)) -> 0 <= n <= MAX_MONEY ->
  check_input_step tx height cp prot n i c = (Pass n', c') ->
  read_ok c c' /\ input_ok (cache_abs c) tx height cp prot i
  /\ exists o, out_unspent (cache_abs c) (prevout i) = Some o /\ n' = n + nValue o /\ 0 <= n' <= MAX_MONEY.
Proof.
  intros Hc [o Ho] Hn E. pose proof MAX_MONEY_lt. unfold check_input_step in E.
  apply scheck_bind_Pass in E as (coins & c1 & E1 & E). apply scheck_bind_Pass in E as ([] & c2 & E2 & E).
  apply lift_Pass in E2 as [E2 ->]. apply scheck_bind_Pass in E as (o' & c3 & E3 & E). apply lift_Pass in E3 as [E3 ->].
  apply scheck_bind_Pass in E as ([] & c4 & E4 & E). apply lift_Pass in E4 as [E4 ->].
  injection E as <- <-. destruct (access_input_Pass _ _ _ _ Hc E1) as [Hr Hnorm].
  apply of_result_Pass in E3. apply reject_if_Pass, orb_false_iff in E4 as [E4 E5].
  apply negb_false_iff, MoneyRange_spec in E4, E5.
  unfold out_unspent in Ho. destruct (norm_unspent _ _ _ _ Hnorm Ho) as [Ha Hu].
  assert (o' = o) as ->.
  { unfold unspent, index_or_abort in Hu, E3. destruct (vout coins !! _) as [x|]; [|done]. cbn in Hu. case_match; naive_solver. }
  rewrite i64_small in * by (unfold is_i64; lia). split; [done|]. split.
  - exists coins, o. split_and!; [done|done|lia|]. by apply check_coinbase_spend_Pass.
  - exists o. unfold out_unspent. by rewrite Ha.
Qed.

Lemma input_ok_equiv a a' tx height cp prot i : a ≡ a' -> input_ok a tx height cp prot i -> input_ok a' tx height cp prot i.
Proof. intros Ha (coins & o & H1 & H2). exists coins, o. by rewrite <- (eqv_coins _ _ Ha). Qed.

Lemma input_loop_Pass tx height cp prot l : forall n c n' c',
  cache_core c -> Forall (fun i => is_Some (out_unspent (cache_abs c) (prevout i))) l -> 0 <= n <= MAX_MONEY ->
  scheck_loop (check_input_step tx height cp prot) l n c = (Pass n', c') ->
  read_ok c c' /\ Forall (input_ok (cache_abs c) tx height cp prot) l
  /\ exists vs, input_values (cache_abs c) l = Some vs /\ n' = n + sumZ vs /\ 0 <= n' <= MAX_MONEY.
Proof.
  induction l as [|i l IH]; intros n c n' c' Hc Hl Hn E; cbn [scheck_loop] in E.
  - injection E as <- <-. split; [by apply read_ok_refl|]. split; [constructor|]. exists []. cbn. split_and!; [done|lia|lia|lia].
  - apply Forall_cons in Hl as [Hi Hl]. apply scheck_bind_Pass in E as (n1 & c1 & E1 & E2).
    destruct (check_input_step_Pass _ _ _ _ _ _ _ _ _ Hc Hi Hn E1) as (Hr & Hok & o & Ho & -> & Hn1).
    apply IH in E2 as (Hr2 & HF & vs & Hvs & -> & Hn2); [|apply Hr| |done].
    2:{ eapply Forall_impl; [exact Hl|]. intros j. cbv beta. by rewrite (read_ok_unspent _ _ _ Hr). }
    pose proof Hr as (_ & Ha & _). split; [by eapply read_ok_trans|]. split.
    + constructor; [done|]. eapply Forall_impl; [exact HF|]. intros j. by apply input_ok_equiv.
    + exists (nValue o :: vs). rewrite sumZ_cons. split_and!; [|lia|lia|lia].
      unfold input_values in *. cbn [mapM]. rewrite Ho. cbn.
      erewrite mapM_ext; [by rewrite Hvs|]. intros j. cbv beta. by rewrite (read_ok_unspent _ _ _ Hr).
Qed.

Lemma check_value_balance_Pass (tx : CTransaction) n : tx_amounts_i64 tx -> 0 <= n <= MAX_MONEY ->
  check_value_balance tx n = Pass tt ->
  exact_value_out tx <= n + exact_shielded_in tx <= MAX_MONEY /\ all_in_range (nValue <$> tx_vout tx)
  /\ all_in_range (vpub_old <$> vjoinsplit tx) /\ all_in_range (vpub_new <$> vjoinsplit tx).
Proof.
  intros Hi Hn E. pose proof MAX_MONEY_lt. unfold check_value_balance in E. rewrite GetShieldedValueIn_value in E by done.
  case_bool_decide as Hin; cbn [of_result] in E; [|discriminate E]. rewrite Pass_bind in E. destruct Hin as [Hj Hs].
  pose proof (sumZ_nonneg _ Hj). assert (0 <= exact_shielded_in tx) by (unfold exact_shielded_in; lia).
  apply reject_if_seq in E as [E1 E]. apply negb_false_iff, MoneyRange_spec in E1.
  rewrite i64_small in E1, E by (unfold is_i64; lia).
  rewrite GetValueOut_value in E by done. case_bool_decide as Hout; cbn [of_result] in E; [|discriminate E]. rewrite Pass_bind in E.
  apply reject_if_seq in E as [E2 _]. apply Z.ltb_ge in E2. destruct Hout as (? & ? & ?). by split_and!; try lia.
Qed.

Lemma reads_only_action {A} (f : cache -> result (A * cache)) :
  (forall c a c', cache_core c -> f c = Ok (a, c') -> read_ok c c') -> reads_only (action f).
Proof.
  intros Hf c Hc. unfold action. destruct (f c) as [[a c']| |] eqn:E; [by eapply Hf|by apply read_ok_refl..].
Qed.

Lemma reads_only_ret {A} (a : A) : reads_only (mret a).
Proof. intros c Hc. by apply read_ok_refl. Qed.

Lemma reads_only_HaveInputs tx : reads_only (query (Cache_HaveInputs tx)).
Proof.
  apply reads_only_query. intros c Hc. unfold Cache_HaveInputs. destruct (IsCoinBase tx); [by apply read_ok_refl|].
  by apply have_inputs_ok.
Qed.

Lemma reads_only_shielded tx : reads_only (action (Cache_HaveShieldedRequirements tx)).
Proof.
  apply reads_only_action. intros c r c' Hc E.
  unfold Cache_HaveShieldedRequirements in E. apply bind_Ok in E as ([r1 c1] & E1 & E). cbn [fst snd] in E.
  destruct (have_joinsplits_ok _ _ _ _ _ Hc E1) as [Hr1 _]. destruct r1; [by simplify_eq|]. injection E as E.
  destruct (have_spends_ok _ _ _ _ (proj1 Hr1) E) as [Hr2 _]. by eapply read_ok_trans.
Qed.

Lemma CheckTxInputs_reads_only tx height cp prot : reads_only (CheckTxInputs tx height cp prot).
Proof.
  unfold CheckTxInputs, check_input_step.
  repeat first [apply reads_only_lift|apply reads_only_ret|apply reads_only_HaveInputs|apply reads_only_shielded
               |apply reads_only_access|apply reads_only_loop; intros ? ?|apply reads_only_bind; [|intros ?]].
Qed.

Lemma CheckTxInputs_Pass (tx : CTransaction) (height : Z) (cp : Params) (prot : bool) (c c' : cache)
  (Hi : cache_inv c) (Hcb : IsCoinBase tx = false) (Ha : tx_amounts_i64 tx) (E : CheckTxInputs tx height cp prot c = (Pass tt, c')) :
  Forall (input_ok (cache_abs c) tx height cp prot) (vin tx)
  /\ (exists vs fee, input_values (cache_abs c) (vin tx) = Some vs
        /\ sumZ vs + exact_shielded_in tx = exact_value_out tx + fee /\ 0 <= fee <= MAX_MONEY)
  /\ Forall (fun nf => a_null (cache_abs c) SPROUT nf = false) (sprout_nullifiers tx)
  /\ Forall (fun nf => a_null (cache_abs c) SAPLING nf = false) (sapling_nullifiers tx)
  /\ Forall (fun sd => a_anchor (cache_abs c) SAPLING (sd_anchor sd) = true) (vShieldedSpend tx)
  /\ cache_inv c' /\ cache_abs c' ≡ cache_abs c.
Proof.
  pose proof (CheckTxInputs_reads_only tx height cp prot c (proj1 Hi)) as Hro. rewrite E in Hro. cbn [snd] in Hro.
  destruct (read_ok_stable c c' Hi Hro) as (Hi' & Ea' & _).
  unfold CheckTxInputs in E. apply scheck_bind_Pass in E as (have & c1 & E1 & E).
  unfold query, Cache_HaveInputs in E1. rewrite Hcb in E1. cbn [negb] in E1.
  destruct (have_inputs_ok (vin tx) c (proj1 Hi)) as [Hr1 Hh]. destruct (have_inputs_loop _ c) as [h c1']. cbn [fst snd] in *. simplify_eq.
  apply scheck_bind_Pass in E as ([] & c2 & E2 & E). apply lift_Pass in E2 as [E2 ->].
  apply reject_if_Pass, negb_false_iff in E2. apply Hh in E2.
  apply scheck_bind_Pass in E as (unmet & c3 & E3 & E). apply scheck_bind_Pass in E as ([] & c4 & E4 & E).
  apply lift_Pass in E4 as [E4 ->]. destruct unmet; [done|]. clear E4.
  unfold action in E3. destruct (Cache_HaveShieldedRequirements tx c1) as [[r c3']| |] eqn:Es; simplify_eq.
  destruct (HaveShieldedRequirements_sound _ _ _ (proj1 Hr1) Es) as (Hn1 & Hn2 & Han & Hr2).
  pose proof (read_ok_trans _ _ _ Hr1 Hr2) as Hr. apply scheck_bind_Pass in E as (n & c5 & E5 & E).
  apply lift_Pass in E as [E ->].
  apply input_loop_Pass in E5 as (_ & Hok & vs & Hvs & -> & Hn); [|apply Hr| |split; [done|apply MAX_MONEY_nonneg]].
  2:{ eapply Forall_impl; [exact E2|]. intros j. cbv beta. by rewrite (read_ok_unspent _ _ _ Hr). }
  rewrite Z.add_0_l in *. destruct (check_value_balance_Pass tx _ Ha Hn E) as (Hbal & Hp1 & Hp2 & _).
  assert (Hv : input_values (cache_abs c) (vin tx) = Some vs).
  { rewrite <- Hvs. apply mapM_ext. intros j. by rewrite (read_ok_unspent _ _ _ Hr). }
  assert (0 <= exact_value_out tx).
  { pose proof (sumZ_nonneg _ Hp1). pose proof (sumZ_nonneg _ Hp2). unfold exact_value_out. lia. }
  pose proof Hr as (_ & Ea & _). pose proof Hr1 as (_ & Ea1 & _).
  split_and!; [..|done|done].
  - eapply Forall_impl; [exact Hok|]. intros j. by apply input_ok_equiv.
  - exists vs, (sumZ vs + exact_shielded_in tx - exact_value_out tx). split_and!; [done|lia|lia|lia].
  - eapply Forall_impl; [exact Hn1|]. intros x. cbv beta. by rewrite (eqv_null _ _ Ea1).
  - eapply Forall_impl; [exact Hn2|]. intros x. cbv beta. by rewrite (eqv_null _ _ Ea1).
  - eapply Forall_impl; [exact Han|]. intros x. cbv beta. by rewrite (eqv_anchor _ _ Ea1).
Qed.

(** A transaction whose inputs pass [CheckTxInputs] spends only what the
    view holds and creates no money: every input is an unspent output of the
    view, of a coinbase only when it is mature (and then not to transparent
    outputs while coinbases are protected); the values of the inputs and of
    the shielded part add up, over the integers, to what the transaction pays
    out plus a fee of at least zero; no nullifier is spent and every Sapling
    anchor is known.  The view shows the same state afterwards. *)
Theorem CheckTxInputs_sound (tx : CTransaction) (height : Z) (cp : Params) (prot : bool) (c c' : cache)
  (Hi : cache_inv c) (Hcb : IsCoinBase tx = false) (Ha : tx_amounts_i64 tx) (E : CheckTxInputs tx height cp prot c = (Pass tt, c')) :
  Forall (input_ok (cache_abs c) tx height cp prot) (vin tx)
  /\ (exists vs fee, input_values (cache_abs c) (vin tx) = Some vs
        /\ sumZ vs + exact_shielded_in tx = exact_value_out tx + fee /\ 0 <= fee <= MAX_MONEY)
  /\ Forall (fun nf => a_null (cache_abs c) SPROUT nf = false) (sprout_nullifiers tx)
  /\ Forall (fun nf => a_null (cache_abs c) SAPLING nf = false) (sapling_nullifiers tx)
  /\ Forall (fun sd => a_anchor (cache_abs c) SAPLING (sd_anchor sd) = true) (vShieldedSpend tx)
  /\ cache_inv c' /\ cache_abs c' ≡ cache_abs c.
Proof. exact (CheckTxInputs_Pass tx height cp prot c c' Hi Hcb Ha E). Qed.
End InputLaws.
