(* ===== verification/CoinsReplay.v ===== *)
(** * Reads that a coins cache answers by itself

    [CCoinsViewCache::SetBackend] exchanges the view below a cache.  A cache
    keeps what it has read, so that a query that has been answered once is
    answered again in the same way over every backend, without touching it.
    [AcceptToMemoryPool] relies on this: it fills a cache from the pool and the
    chain and then puts the empty view below it. *)
From stdpp Require Import prelude gmap strings list.
From S2P Require Import Prelude Transaction Script Interpreter Serialize TxSerialize SigHash Coins History CoinsView CoinsLaws CoinsCache CoinsOps ChainParams Chain Checks CheckTx CheckInputs.
#[local] Open Scope Z_scope.

(** ** Caches that have read more *)

Record grown {SpT SaT : Type} (m m' : CacheMaps SpT SaT) : Prop := {
  gr_coins : cacheCoins m ⊆ cacheCoins m';
  gr_sprout : cacheSproutAnchors m ⊆ cacheSproutAnchors m';
  gr_sapling : cacheSaplingAnchors m ⊆ cacheSaplingAnchors m';
  gr_null : forall ty, get_nullifiers ty m ⊆ get_nullifiers ty m';
  gr_block : uint256_IsNull (hashBlock m) = false -> hashBlock m' = hashBlock m
}.
#[global] Instance grown_preorder {SpT SaT} : PreOrder (@grown SpT SaT).
Proof.
  split.
  - intros m. by split.
  - intros m1 m2 m3 [A1 A2 A3 A4 A5] [B1 B2 B3 B4 B5]. split; [by etrans|by etrans|by etrans|intros ty; etrans; [apply A4|apply B4]|].
    intros Hn. rewrite B5; [by apply A5|]. by rewrite (A5 Hn).
Qed.

(** A relation between the states of a view that every read keeps. *)
Record reads_keep {SpT SaT V : Type} `{!CCoinsView SpT SaT V} (Q : relation V) : Prop := {
  rk_coins : forall t v, Q v (GetCoins t v).2;
  rk_null : forall nf ty v, Q v (GetNullifier nf ty v).2;
  rk_sprout : forall rt v, Q v (GetSproutAnchorAt rt v).2;
  rk_sapling : forall rt v, Q v (GetSaplingAnchorAt rt v).2;
  rk_best : forall v, Q v (GetBestBlock v).2
}.

Section Replay.
Context {SpT SaT V W : Type} `{!MerkleTree SpT, !MerkleTree SaT, !CCoinsView SpT SaT V, !CCoinsView SpT SaT W}.
Context (Q : relation V) {HP : PreOrder Q} (HQ : reads_keep Q).
Implicit Types (c : CCoinsViewCache SpT SaT V) (d : CCoinsViewCache SpT SaT W).

(** The cache has read more, and its backend has been read only. *)
Definition went c c' : Prop := grown (maps c) (maps c') /\ Q (base c) (base c').
#[global] Instance went_preorder : PreOrder went.
Proof using HP.
  split; [by intros c|]. intros c1 c2 c3 [G1 Q1] [G2 Q2]. split; by etrans.
Qed.

Lemma went_grown c c' d : went c c' -> grown (maps c') (maps d) -> grown (maps c) (maps d).
Proof. intros [G _] G'. by etrans. Qed.
Local Ltac grow := repeat first [assumption|eapply went_grown; [eassumption|]].

(** A query grows the cache; when its answer is [good], a cache that has grown
    from there, over any backend, gives the same answer and stays as it is. *)
Definition replays {A} (good : A -> Prop) (f : CCoinsViewCache SpT SaT V -> A * CCoinsViewCache SpT SaT V)
  (g : CCoinsViewCache SpT SaT W -> A * CCoinsViewCache SpT SaT W) : Prop :=
  forall c a c', f c = (a, c') -> went c c' /\ (good a -> forall d, grown (maps c') (maps d) -> g d = (a, d)).

Lemma FetchCoins_replays t : replays is_Some (FetchCoins t) (FetchCoins t).
Proof.
  intros c a c' E. unfold FetchCoins in E. destruct (cacheCoins (maps c) !! t) as [e|] eqn:Et.
  { injection E as <- <-. split; [done|]. intros _ d G. unfold FetchCoins. by rewrite (lookup_weaken _ _ _ _ Et (gr_coins _ _ G)). }
  destruct (GetCoins t (base c)) as [[tmp|] v'] eqn:Eg; pose proof (rk_coins Q HQ t (base c)) as Hb; rewrite Eg in Hb; simplify_eq; [|split; [by split|by intros [? ?]]]. split.
  - split; [split; try done; by apply insert_subseteq|done].
  - intros _ d G. unfold FetchCoins. erewrite lookup_weaken; [|apply lookup_insert_eq|exact (gr_coins _ _ G)]. done.
Qed.

Lemma GetNullifier_replays nf ty : replays (fun _ => True) (Cache_GetNullifier nf ty) (Cache_GetNullifier nf ty).
Proof.
  intros c a c' E. unfold Cache_GetNullifier in E. destruct (get_nullifiers ty (maps c) !! nf) as [e|] eqn:Et.
  { injection E as <- <-. split; [done|]. intros _ d G. unfold Cache_GetNullifier. by rewrite (lookup_weaken _ _ _ _ Et (gr_null _ _ G ty)). }
  destruct (GetNullifier nf ty (base c)) as [tmp v'] eqn:Eg. pose proof (rk_null Q HQ nf ty (base c)) as Hb. rewrite Eg in Hb. injection E as <- <-. split.
  - split; [|done]. destruct ty; split; try done; intros []; try done; by apply insert_subseteq.
  - intros _ d G. unfold Cache_GetNullifier. assert (Hd : get_nullifiers ty (maps d) !! nf = Some (mkNullEntry tmp false)).
    { eapply lookup_weaken; [|exact (gr_null _ _ G ty)]. destruct ty; apply lookup_insert_eq. }
    by rewrite Hd.
Qed.

(** Both anchor maps; [get] and [set] select one. *)
Lemma anchor_at_replays {T} look look' (get : CacheMaps SpT SaT -> gmap uint256 (CAnchorsCacheEntry T)) set rt :
  (forall v, Q v (look rt v).2) -> (forall x m, get (set x m) = x) -> (forall x m, get m ⊆ x -> grown m (set x m)) -> (forall m m', grown m m' -> get m ⊆ get m') ->
  replays is_Some (anchor_at look get set rt) (anchor_at look' get set rt).
Proof.
  intros Hlook Hgs Hgrow Hmono c a c' E. unfold anchor_at in *. destruct (get (maps c) !! rt) as [e|] eqn:Et.
  { injection E as <- <-. split; [done|]. intros _ d G. by rewrite (lookup_weaken _ _ _ _ Et (Hmono _ _ G)). }
  specialize (Hlook (base c)). destruct (look rt (base c)) as [[tree|] v'] eqn:Eg; simplify_eq; [|split; [by split|by intros [? ?]]]. split.
  - split; [|done]. apply Hgrow. by apply insert_subseteq.
  - intros _ d G. apply Hmono in G. cbn in G. rewrite Hgs in G. by erewrite lookup_weaken; [|apply lookup_insert_eq|exact G].
Qed.

Lemma GetSproutAnchorAt_replays rt : replays is_Some (Cache_GetSproutAnchorAt rt) (Cache_GetSproutAnchorAt rt).
Proof using All. apply anchor_at_replays; [apply HQ|done|by split|]. intros m m' G. apply G. Qed.
Lemma GetSaplingAnchorAt_replays rt : replays is_Some (Cache_GetSaplingAnchorAt rt) (Cache_GetSaplingAnchorAt rt).
Proof using All. apply anchor_at_replays; [apply HQ|done|by split|]. intros m m' G. apply G. Qed.

Lemma GetBestBlock_replays : replays (fun h => uint256_IsNull h = false) Cache_GetBestBlock Cache_GetBestBlock.
Proof.
  intros c a c' E. unfold Cache_GetBestBlock in E. destruct (uint256_IsNull (hashBlock (maps c))) eqn:En.
  - pose proof (rk_best Q HQ (base c)) as Hb. destruct (GetBestBlock (base c)) as [h v']. injection E as <- <-.
    split; [split; [split; try done; cbn; congruence|done]|].
    intros Hn d G. unfold Cache_GetBestBlock. rewrite (gr_block _ _ G) by done. cbn. by rewrite Hn.
  - injection E as <- <-. split; [done|]. intros _ d G. unfold Cache_GetBestBlock. by rewrite (gr_block _ _ G), En.
Qed.

(** Queries in sequence: the second is made only when the first is good. *)

Lemma have_inputs_replays l : replays (fun b => b = true) (have_inputs_loop l) (have_inputs_loop l).
Proof.
  induction l as [|i l IH]; intros c a c' E; cbn [have_inputs_loop] in E; [by simplify_eq|].
  destruct (Cache_AccessCoins (out_hash (prevout i)) c) as [o c1] eqn:E1. destruct (FetchCoins_replays _ _ _ _ E1) as [G1 R1].
  destruct o as [coins|]; [|by simplify_eq]. destruct (CCoins_IsAvailable coins _) eqn:Ea; [|by simplify_eq].
  destruct (IH _ _ _ E) as [G2 R2]. split; [by etrans|]. intros Ht d G. cbn [have_inputs_loop].
  unfold Cache_AccessCoins. rewrite (R1 ltac:(by eexists) d) by grow. rewrite Ea. by apply R2.
Qed.

Lemma any_nullifier_replays nfs ty : replays (fun b => b = false) (any_nullifier nfs ty) (any_nullifier nfs ty).
Proof.
  induction nfs as [|nf nfs IH]; intros c a c' E; cbn [any_nullifier] in E; [by simplify_eq|].
  destruct (Cache_GetNullifier nf ty c) as [b c1] eqn:E1. destruct (GetNullifier_replays _ _ _ _ _ E1) as [G1 R1].
  destruct b; [by simplify_eq|]. destruct (IH _ _ _ E) as [G2 R2]. split; [by etrans|]. intros Ht d G. cbn [any_nullifier].
  rewrite (R1 I d) by grow. by apply R2.
Qed.

Lemma have_spends_replays l : replays (fun r => r = None) (have_spends l) (have_spends l).
Proof.
  induction l as [|sd l IH]; intros c a c' E; cbn [have_spends] in E; [by simplify_eq|].
  destruct (Cache_GetNullifier _ _ c) as [b c1] eqn:E1. destruct (GetNullifier_replays _ _ _ _ _ E1) as [G1 R1].
  destruct b; [by simplify_eq|]. destruct (Cache_GetSaplingAnchorAt (sd_anchor sd) c1) as [o c2] eqn:E2.
  destruct (GetSaplingAnchorAt_replays _ _ _ _ E2) as [G2 R2]. destruct o as [tree|]; [|simplify_eq; split; [by etrans|done]].
  destruct (IH _ _ _ E) as [G3 R3]. split; [by etrans; [|etrans]|]. intros Ht d G. cbn [have_spends].
  rewrite (R1 I d) by grow. rewrite (R2 ltac:(by eexists) d) by grow. by apply R3.
Qed.

Lemma have_joinsplits_replays jss : forall inter c a c', have_joinsplits jss inter c = Ok (a, c') ->
  went c c' /\ (a = None -> forall d, grown (maps c') (maps d) -> have_joinsplits jss inter d = Ok (a, d)).
Proof.
  induction jss as [|js jss IH]; intros inter c a c' E; cbn [have_joinsplits] in E; [by simplify_eq|].
  destruct (any_nullifier _ _ c) as [b c1] eqn:E1. destruct (any_nullifier_replays _ _ _ _ _ E1) as [G1 R1].
  destruct b; [by simplify_eq|].
  assert (Hstep : exists o c2, (match inter !! js_anchor js with Some t => (Some t, c1) | None => Cache_GetSproutAnchorAt (js_anchor js) c1 end) = (o, c2)
    /\ went c1 c2 /\ (is_Some o -> forall d, grown (maps c2) (maps d) ->
         (match inter !! js_anchor js with Some t => (Some t, d) | None => Cache_GetSproutAnchorAt (js_anchor js) d end) = (o, d))).
  { destruct (inter !! js_anchor js) as [t|]; [by exists (Some t), c1|]. destruct (Cache_GetSproutAnchorAt (js_anchor js) c1) as [o c2] eqn:E2.
    exists o, c2. split; [done|]. by apply GetSproutAnchorAt_replays. }
  destruct Hstep as (o & c2 & E2 & G2 & R2). rewrite E2 in E. destruct o as [tree|]; [|simplify_eq; split; [by etrans|done]].
  apply bind_Ok in E as (tree' & Et & E). destruct (IH _ _ _ _ E) as [G3 R3]. split; [by etrans; [|etrans]|]. intros Ht d G. cbn [have_joinsplits].
  rewrite (R1 eq_refl d) by grow. rewrite (R2 ltac:(by eexists) d) by grow. rewrite Et. cbn [mbind result_bind]. by apply R3.
Qed.

Lemma HaveShieldedRequirements_replays tx c a c' : Cache_HaveShieldedRequirements tx c = Ok (a, c') ->
  went c c' /\ (a = None -> forall d, grown (maps c') (maps d) -> Cache_HaveShieldedRequirements tx d = Ok (a, d)).
Proof.
  unfold Cache_HaveShieldedRequirements. intros E. apply bind_Ok in E as ([r c1] & E1 & E). cbn [fst snd] in E.
  destruct (have_joinsplits_replays _ _ _ _ _ E1) as [G1 R1]. destruct r; [by simplify_eq|]. injection E as E.
  destruct (have_spends_replays _ _ _ _ E) as [G2 R2]. split; [by etrans|]. intros Ha d G.
  rewrite (R1 eq_refl d) by grow. cbn [mbind result_bind fst snd]. by rewrite R2.
Qed.
End Replay.

(** The coins of inputs that are there have been cached. *)
Section Cached.
Context {SpT SaT V : Type} `{!MerkleTree SpT, !MerkleTree SaT, !CCoinsView SpT SaT V}.
Context (Q : relation V) {HP : PreOrder Q} (HQ : reads_keep Q).
Implicit Types c : CCoinsViewCache SpT SaT V.

Lemma FetchCoins_cached t c e : cacheCoins (maps c) !! t = Some e -> FetchCoins t c = (Some (ce_coins e), c).
Proof. intros E. unfold FetchCoins. by rewrite E. Qed.

Lemma FetchCoins_caches t c coins c' : FetchCoins t c = (Some coins, c') -> exists e, cacheCoins (maps c') !! t = Some e.
Proof.
  unfold FetchCoins. destruct (cacheCoins (maps c) !! t) as [e|] eqn:Et; [intros [= _ <-]; eauto|].
  destruct (GetCoins t (base c)) as [[tmp|] v']; intros E; simplify_eq. eexists. apply lookup_insert_eq.
Qed.

Lemma have_inputs_cached l i : forall c c', have_inputs_loop l c = (true, c') -> i ∈ l -> exists e, cacheCoins (maps c') !! out_hash (prevout i) = Some e.
Proof using HQ HP.
  induction l as [|j l IH]; intros c c' E Hi; [by apply elem_of_nil in Hi|]. cbn [have_inputs_loop] in E. unfold Cache_AccessCoins in E.
  destruct (FetchCoins _ c) as [[coins|] c1] eqn:E1; [|done]. destruct (CCoins_IsAvailable coins _); [|done].
  apply elem_of_cons in Hi as [->|Hi]; [|by eapply IH]. destruct (FetchCoins_caches _ _ _ _ E1) as [e He]. exists e.
  destruct (have_inputs_replays (W := V) Q HQ l c1 true c' E) as [[G _] _]. by apply (lookup_weaken _ _ _ _ He (gr_coins _ _ G)).
Qed.
End Cached.

(** ** Checks that a cache answers by itself *)

Section Same.
Context {SpT SaT V W : Type} `{!MerkleTree SpT, !MerkleTree SaT, !CCoinsView SpT SaT V, !CCoinsView SpT SaT W}.
Context `{SigHashCrypto} `{ScriptCrypto}.
Context (c : CCoinsViewCache SpT SaT V) (d : CCoinsViewCache SpT SaT W).
Local Abbreviation checkV := (scheck (CCoinsViewCache SpT SaT V)).
Local Abbreviation checkW := (scheck (CCoinsViewCache SpT SaT W)).

(** The check ends in the same way on both caches and changes neither. *)
Definition same {A} (m : checkV A) (m' : checkW A) : Prop := exists r, m c = (r, c) /\ m' d = (r, d).

Lemma same_lift {A} (r : check A) : same (lift r) (lift r).
Proof. by exists r. Qed.
Lemma same_ret {A} (a : A) : same (mret a) (mret a).
Proof. by exists (Pass a). Qed.
Lemma same_bind {A B} (m : checkV A) (m' : checkW A) (k : A -> checkV B) (k' : A -> checkW B) :
  same m m' -> (forall a, m c = (Pass a, c) -> same (k a) (k' a)) -> same (m ≫= k) (m' ≫= k').
Proof.
  intros (r & E & E') Hk. unfold mbind, scheck_bind, same. rewrite E, E'. destruct r as [a|f|msg|]; [by apply Hk|by eexists..].
Qed.
Lemma same_query {A} f f' (a : A) : f c = (a, c) -> f' d = (a, d) -> same (query f) (query f').
Proof. intros E E'. exists (Pass a). unfold query. by rewrite E, E'. Qed.
Lemma same_action {A} f f' (a : A) : f c = Ok (a, c) -> f' d = Ok (a, d) -> same (action f) (action f').
Proof. intros E E'. exists (Pass a). unfold action. by rewrite E, E'. Qed.
Lemma same_loop {T A} (body : T -> A -> checkV T) (body' : T -> A -> checkW T) l :
  (forall t a, a ∈ l -> same (body t a) (body' t a)) -> forall t, same (scheck_loop body l t) (scheck_loop body' l t).
Proof.
  induction l as [|a l IH]; intros Hb t; cbn [scheck_loop]; [apply same_ret|].
  apply same_bind; [apply Hb; left|]. intros t' _. apply IH. intros ? ? ?. apply Hb. by right.
Qed.

(** Everything that is looked up for the inputs of [tx] is in both caches. *)
Record ready (tx : CTransaction) : Prop := {
  rd_coins : forall i, i ∈ vin tx -> exists coins, Cache_AccessCoins (out_hash (prevout i)) c = (Some coins, c)
    /\ Cache_AccessCoins (out_hash (prevout i)) d = (Some coins, d);
  rd_have : Cache_HaveInputs tx c = (true, c) /\ Cache_HaveInputs tx d = (true, d);
  rd_shielded : Cache_HaveShieldedRequirements tx c = Ok (None, c) /\ Cache_HaveShieldedRequirements tx d = Ok (None, d);
  rd_best : exists h, Cache_GetBestBlock c = (h, c) /\ Cache_GetBestBlock d = (h, d)
}.
Context (tx : CTransaction) (R : ready tx).

Lemma access_input_same i : i ∈ vin tx -> same (access_input i) (access_input i).
Proof.
  intros Hi. destruct (rd_coins tx R i Hi) as (coins & E & E'). apply same_bind; [by eapply same_query|]. intros. apply same_lift.
Qed.

Lemma CheckTxInputs_same height cp prot : same (CheckTxInputs tx height cp prot) (CheckTxInputs tx height cp prot).
Proof.
  unfold CheckTxInputs. apply same_bind; [eapply same_query; apply (rd_have tx R)|]. intros have _.
  apply same_bind; [apply same_lift|]. intros _ _.
  apply same_bind; [eapply same_action; apply (rd_shielded tx R)|]. intros unmet _.
  apply same_bind; [apply same_lift|]. intros _ _. apply same_bind; [|intros; apply same_lift].
  apply same_loop. intros n i Hi. unfold check_input_step. apply same_bind; [by apply access_input_same|]. intros coins _.
  repeat (apply same_bind; [apply same_lift|intros ? _]). apply same_ret.
Qed.

Lemma GetSpendHeight_same blocks : same (GetSpendHeight blocks) (GetSpendHeight blocks).
Proof.
  destruct (rd_best tx R) as (h & E & E'). unfold GetSpendHeight. apply same_bind; [by eapply same_query|]. intros best _.
  apply same_bind; [apply same_lift|]. intros. apply same_ret.
Qed.

Lemma ContextualCheckInputs_same params blocks scripts flags txdata cp branch pv :
  same (ContextualCheckInputs params blocks tx scripts flags txdata cp branch pv) (ContextualCheckInputs params blocks tx scripts flags txdata cp branch pv).
Proof.
  unfold ContextualCheckInputs. destruct (IsCoinBase tx); [apply same_ret|].
  apply same_bind; [apply GetSpendHeight_same|]. intros height _. apply same_bind; [apply same_lift|]. intros prot _.
  apply same_bind; [apply CheckTxInputs_same|]. intros _ _. destruct scripts; [|apply same_ret].
  apply same_loop. intros l [n i] Hi. apply elem_of_zip_r in Hi. unfold check_script_step.
  apply same_bind; [by apply access_input_same|]. intros coins _. apply same_bind; [apply same_lift|]. intros ck _.
  destruct l; [apply same_ret|]. apply same_bind; [apply same_lift|]. intros [e|u] _; [|apply same_ret].
  apply same_bind; [apply same_lift|]. intros; apply same_lift.
Qed.
End Same.

(** A cache that has answered the queries for the inputs of [tx], and one that
    holds as much over another backend. *)
Section Ready.
Context {SpT SaT V W : Type} `{!MerkleTree SpT, !MerkleTree SaT, !CCoinsView SpT SaT V, !CCoinsView SpT SaT W}.
Context (Q : relation V) {HP : PreOrder Q} (HQ : reads_keep Q).

Lemma ready_after (tx : CTransaction) (c1 c2 c3 c4 c : CCoinsViewCache SpT SaT V) (d : CCoinsViewCache SpT SaT W) h :
  IsCoinBase tx = false -> Cache_HaveInputs tx c1 = (true, c2) -> Cache_HaveShieldedRequirements tx c2 = Ok (None, c3) ->
  Cache_GetBestBlock c3 = (h, c4) -> uint256_IsNull h = false -> grown (maps c4) (maps c) -> grown (maps c4) (maps d) -> ready c d tx.
Proof using All.
  intros Hcb E1 E2 E3 Hh Gc Gd. unfold Cache_HaveInputs in E1. rewrite Hcb in E1. cbn [negb] in E1.
  destruct (GetBestBlock_replays (W := V) Q HQ _ _ _ E3) as [W4 R3]. destruct (GetBestBlock_replays (W := W) Q HQ _ _ _ E3) as [_ R3'].
  destruct (HaveShieldedRequirements_replays (W := V) Q HQ _ _ _ _ E2) as [W3 R2]. destruct (HaveShieldedRequirements_replays (W := W) Q HQ _ _ _ _ E2) as [_ R2'].
  destruct (have_inputs_replays (W := V) Q HQ _ _ _ _ E1) as [W2 R1]. destruct (have_inputs_replays (W := W) Q HQ _ _ _ _ E1) as [_ R1'].
  destruct W3 as [G3 _], W4 as [G4 _]. assert (G2c : grown (maps c2) (maps c)) by (etrans; [exact G3|by etrans]).
  assert (G2d : grown (maps c2) (maps d)) by (etrans; [exact G3|by etrans]). split.
  - intros i Hi. destruct (have_inputs_cached Q HQ _ _ _ _ E1 Hi) as [e He]. exists (ce_coins e).
    split; apply FetchCoins_cached; by apply (lookup_weaken _ _ _ _ He), gr_coins.
  - unfold Cache_HaveInputs. rewrite Hcb. cbn [negb]. split; [by apply R1|by apply R1'].
  - split; [apply R2|apply R2']; try done; by etrans.
  - exists h. split; [by apply R3|by apply R3'].
Qed.
End Ready.
