(* ===== verification/CheckBlock.v ===== *)
(** * Block and header validity

    main.cpp: [CheckBlockHeader], [CheckBlock], [ContextualCheckBlockHeader],
    [ContextualCheckBlock].

    What these functions read of the rest of the node is the record
    [BlockEnv]: the active chain and the block tree, the clock, checkpoints,
    transaction locks, and the masternode payment rule.  Hashing, proof
    verification and address decoding are in the class [BlockOracle]. *)
From stdpp Require Import prelude gmap strings list.
From S2P Require Import Prelude Transaction Script Serialize TxSerialize SigHash ArithUint256 Block ChainParams Subsidy Chain Pow Checks CheckTx.
#[local] Open Scope Z_scope.

(** [CBlockHeader::GetHash], [CTransaction::GetHash], the double hash of two
    Merkle nodes, and [KeyIO::DecodeDestination] of an address string, when it
    is a [CScriptID]. *)
Class BlockOracle := {
  hash_header : CBlockHeader -> uint256;
  hash_tx : CMutableTransaction -> uint256;
  hash_pair : uint256 -> uint256 -> uint256;
  decode_script_id : string -> option bytes
}.

Record BlockEnv := mkBlockEnv {
  env_map : BlockMap;
  env_chain : CChain;
  env_adjustedTime : Z;
  env_time : Z;
  env_ibd : bool;
  env_lastCheckpoint : option Z;
  env_spork3 : bool;
  env_mapLockedInputs : COutPoint -> option uint256;
  env_IsBlockPayeeValid : CBlock -> Z -> bool;
  env_hashGenesisBlock : uint256;
  env_nEnforceBlockUpgradeMajority : Z
}.

Section Check.
Context `{BlockOracle} `{EquihashVerifier} `{SigHashCrypto} `{TxVerifier}.
(** [Params()] with its network, the [chainparams] argument and the node. *)
Context (net : Network) (params chainparams : CChainParams) (env : BlockEnv).

(** ** Headers *)

Definition CheckBlockHeader (block : CBlockHeader) (fCheckPOW : bool) : check unit :=
  _ ← reject_if (h_nVersion block <? MIN_BLOCK_VERSION) (dos 100 REJECT_INVALID "version-too-low");
  _ ← (if fCheckPOW then
         ok ← of_result (CheckEquihashSolution block (consensus chainparams));
         reject_if (negb ok) (dos 100 REJECT_INVALID "invalid-solution")
       else Pass tt);
  _ ← reject_if (fCheckPOW && negb (CheckProofOfWork (hash_header block) (nBits block) (consensus chainparams)))
        (dos 50 REJECT_INVALID "high-hash");
  let nHeight := u32 (CChain_Height (env_chain env)) in
  let time := CBlockHeader_GetBlockTime block in
  let too_new := invalid REJECT_INVALID "time-too-new" in
  if nHeight <? u32 (activation (consensus chainparams) UPGRADE_DIFA) then
    if (nHeight <? u32 (newTimeRule chainparams)) && (env_adjustedTime env + 2 * 60 * 60 <? time) then Fail too_new
    else reject_if ((u32 (newTimeRule chainparams) <=? nHeight) && (env_adjustedTime env + 10 * 60 <? time)) too_new
  else reject_if (env_adjustedTime env + 6 * 60 <? time) too_new.

(** [pindexPrev] is the parent's entry, [None] for a null pointer. *)
Definition ContextualCheckBlockHeader (block : CBlockHeader) (pindexPrev : option uint256) : check unit :=
  let cp := consensus chainparams in
  if hash_header block =? env_hashGenesisBlock env then Pass tt
  else
    p ← of_result (match pindexPrev with Some p => Ok p | None => Abort end);
    prev ← of_result (deref (env_map env) p);
    let nHeight := bi_nHeight prev + 1 in
    required ← of_result (GetNextWorkRequired (env_map env) (Some p) (Some block) cp);
    _ ← reject_if (negb (nBits block =? required)) (dos 100 REJECT_INVALID "bad-diffbits");
    past ← of_result (GetMedianTimePast (env_map env) p);
    _ ← reject_if (CBlockHeader_GetBlockTime block <=? past) (invalid REJECT_INVALID "time-too-old");
    _ ← reject_if (match env_lastCheckpoint env with Some h => nHeight <? h | None => false end) (dos 100 0 "");
    _ ← reject_if (h_nVersion block <? 4) (invalid REJECT_OBSOLETE "bad-version");
    wakanda ← of_result (NetworkUpgradeActive nHeight cp UPGRADE_WAKANDA);
    if (wakanda : bool) then
      krakoa ← of_result (NetworkUpgradeActive nHeight cp UPGRADE_KRAKOA);
      reject_if (negb (if negb krakoa then CheckBlockTimestamp (env_adjustedTime env) (consensus params) prev (Some block)
                       else CheckBlockTimestamp2 (env_adjustedTime env) prev (Some block)))
        (invalid REJECT_TIME_TOO_FAST "block-too-fast")
    else Pass tt.

(** ** Blocks *)

(** [chainActive.Tip() ? chainActive.Tip()->nHeight + 1 : 0]. *)
Definition next_height : result Z :=
  match CChain_Tip (env_chain env) with
  | Some p => b ← deref (env_map env) p; Ok (bi_nHeight b + 1)
  | None => Ok 0
  end.

Definition check_merkle_root (block : CBlock) : check unit :=
  r ← of_result (BuildMerkleTree hash_pair (hash_tx <$> b_vtx block));
  let '(hashMerkleRoot2, mutated, _) := r in
  _ ← reject_if (negb (hashMerkleRoot (b_header block) =? hashMerkleRoot2)) (FailDoS 100 REJECT_INVALID "bad-txnmrklroot" true);
  reject_if mutated (FailDoS 100 REJECT_INVALID "bad-txns-duplicate" true).

(** [mapRejectedBlocks]: a block hash and the time it was rejected first. *)
Abbreviation RejectedBlocks := (gmap uint256 Z).
Definition reject_block (block : CBlock) (r : RejectedBlocks) : RejectedBlocks :=
  match r !! hash_header (b_header block) with
  | Some _ => r
  | None => <[hash_header (b_header block) := env_time env]> r
  end.
(** Fail after recording the block. *)
Definition fail_recorded {A} (block : CBlock) (f : failure) : scheck RejectedBlocks A := fun r => (Fail f, reject_block block r).

(** An input locked by a SwiftTX transaction other than [tx]. *)
Definition lock_conflict (tx : CMutableTransaction) : bool :=
  negb (IsCoinBase tx) && existsb (fun i => match env_mapLockedInputs env (prevout i) with
                                            | Some h => negb (h =? hash_tx tx)
                                            | None => false
                                            end) (vin tx).

(** The height of the block by its parent: 0 when the parent is not known. *)
Definition payee_height (block : CBlock) : result Z :=
  match CChain_Tip (env_chain env) with
  | None => Ok 0
  | Some tip =>
      if tip =? hashPrevBlock (b_header block) then b ← deref (env_map env) tip; Ok (bi_nHeight b + 1)
      else Ok (match env_map env !! hashPrevBlock (b_header block) with Some b => bi_nHeight b + 1 | None => 0 end)
  end.

Definition block_sigops (vtx : list CMutableTransaction) : Z := foldl (fun n tx => u32 (n + GetLegacySigOpCount tx)) 0 vtx.

Definition CheckBlock (VerifySprout : JSDescription -> bytes -> bool) (block : CBlock) (fCheckPOW fCheckMerkleRoot : bool)
  : scheck RejectedBlocks unit :=
  let vtx := b_vtx block in
  _ ← lift (CheckBlockHeader (b_header block) fCheckPOW);
  _ ← lift (if fCheckMerkleRoot then check_merkle_root block else Pass tt);
  _ ← lift (
    nHeight ← of_result next_height;
    let limit := MAX_BLOCK_SIZE (consensus params) nHeight in
    if is_empty vtx || (limit <? Z.of_nat (length vtx)) then Fail (dos 100 REJECT_INVALID "bad-blk-length")
    else b ← of_result (ser_CBlock block);
         reject_if (limit <? Z.of_nat (length b)) (dos 100 REJECT_INVALID "bad-blk-length"));
  _ ← lift (reject_if (match vtx with [] => true | tx :: _ => negb (IsCoinBase tx) end) (dos 100 REJECT_INVALID "bad-cb-missing"));
  _ ← lift (reject_if (existsb IsCoinBase (tail vtx)) (dos 100 REJECT_INVALID "bad-cb-multiple"));
  _ ← (if env_spork3 env && existsb lock_conflict vtx then fail_recorded block (invalid REJECT_INVALID "conflicting-tx-ix")
       else mret tt);
  nHeight ← lift (of_result (payee_height block));
  _ ← (if bool_decide (CChain_Tip (env_chain env) <> None) && negb (nHeight =? 0) && negb (env_ibd env)
          && negb (env_IsBlockPayeeValid env block nHeight)
       then fail_recorded block (invalid REJECT_INVALID "bad-cb-payee")
       else mret tt);
  _ ← lift (check_each (CheckTransaction VerifySprout) vtx);
  lift (reject_if (MAX_BLOCK_SIGOPS <? block_sigops vtx) (FailDoS 100 REJECT_INVALID "bad-blk-sigops" true)).

(** ** Blocks in their context *)

(** [CScript() << OP_HASH160 << ToByteVector(scriptID) << OP_EQUAL] of an
    address, which must decode to a script hash. *)
Definition script_of_address (address : string) : result CScript :=
  match decode_script_id address with
  | Some scriptID =>
      s ← CScript_push_opcode [] OP_HASH160;
      CScript_push_opcode (CScript_push_data s scriptID) OP_EQUAL
  | None => Abort
  end.
Definition GetFoundersRewardScriptAtHeight (p : CChainParams) (nHeight : Z) : result CScript :=
  _ ← assert_true ((0 <? nHeight) && (nHeight <=? GetLastFoundersRewardBlockHeight (consensus p)));
  a ← GetFoundersRewardAddressAtHeight p nHeight; script_of_address a.
Definition GetTreasuryRewardScriptAtHeight (p : CChainParams) (nHeight : Z) : result CScript :=
  a ← GetTreasuryRewardAddressAtHeight p nHeight; script_of_address a.
Definition GetDevelopersRewardScriptAtHeight (p : CChainParams) (nHeight : Z) : result CScript :=
  a ← GetDevelopersRewardAddressAtHeight p nHeight; script_of_address a.

(** A loop over the coinbase outputs for one to the given script with a value
    that [paid] accepts; both are computed anew for every output. *)
Fixpoint find_payment (script : result CScript) (paid : Z -> result bool) (outputs : list CTxOut) : result bool :=
  match outputs with
  | [] => Ok false
  | output :: rest =>
      sc ← script;
      if bool_decide (scriptPubKey output = sc) then
        ok ← paid (nValue output);
        if (ok : bool) then Ok true else find_payment script paid rest
      else find_payment script paid rest
  end.

(** The founders reward.  The middle rule compares an integer with the
    [double] value of [GetBlockSubsidy(...) * 7.5 / 100]; below 2^45 that is
    equality of the exact values. *)
Definition founders_paid (nHeight value : Z) : result bool :=
  subsidy ← GetBlockSubsidy net params nHeight (consensus chainparams);
  Ok (if nHeight <? activation (consensus chainparams) UPGRADE_OVERWINTER then value =? Z.quot subsidy 20
      else if nHeight <? activation (consensus chainparams) UPGRADE_KNOWHERE then value * 200 =? subsidy * 15
      else value =? Z.quot (i64 (subsidy * 15)) 100).

Definition treasury_paid (nHeight value : Z) : result bool :=
  atlantis ← NetworkUpgradeActive nHeight (consensus chainparams) UPGRADE_ATLANTIS;
  if negb atlantis then
    subsidy ← GetBlockSubsidy net params nHeight (consensus chainparams); Ok (value =? Z.quot (i64 (subsidy * 5)) 100)
  else
    morag ← NetworkUpgradeActive nHeight (consensus chainparams) UPGRADE_MORAG;
    if negb morag then
      subsidy ← GetBlockSubsidy net params nHeight (consensus chainparams); Ok (value =? Z.quot (i64 (subsidy * 10)) 100)
    else Ok false.

Definition developers_paid (nHeight value : Z) : result bool :=
  subsidy ← GetBlockSubsidy net params nHeight (consensus chainparams);
  Ok (value =? GetDevelopersPayment params nHeight subsidy).

Definition premine_paid (nHeight value : Z) : result bool := Ok (value =? GetPremineAmountAtHeight params nHeight).

(** [if (due) { ... if (!found) return ...}]. *)
Definition require_payment (due : bool) (found : result bool) (f : failure) : check unit :=
  if due then ok ← of_result found; reject_if (negb ok) f else Pass tt.

(** The rewards the coinbase outputs must contain at a height.  [outputs] is
    [block.vtx[0].vout], used only when a reward is due. *)
Definition check_rewards (nHeight : Z) (outputs : result (list CTxOut)) : check unit :=
  let cp := consensus chainparams in
  morag ← of_result (if (0 <? nHeight) && (nHeight <=? GetLastFoundersRewardBlockHeight cp)
                     then NetworkUpgradeActive nHeight (consensus params) UPGRADE_MORAG else Ok true);
  _ ← require_payment ((0 <? nHeight) && (nHeight <=? GetLastFoundersRewardBlockHeight cp) && negb morag)
        (outs ← outputs; find_payment (GetFoundersRewardScriptAtHeight chainparams nHeight) (founders_paid nHeight) outs)
        (dos 100 REJECT_INVALID "cb-no-founders-reward");
  _ ← require_payment ((activation cp UPGRADE_KNOWHERE <? nHeight) && (nHeight <=? GetLastTreasuryRewardBlockHeight cp))
        (outs ← outputs; find_payment (GetTreasuryRewardScriptAtHeight params nHeight) (treasury_paid nHeight) outs)
        (invalid REJECT_INVALID "cb-no-treasury-reward");
  morag ← of_result (NetworkUpgradeActive nHeight (consensus params) UPGRADE_MORAG);
  _ ← require_payment (morag && (nHeight <=? GetLastDevelopersRewardBlockHeight cp))
        (outs ← outputs; find_payment (GetDevelopersRewardScriptAtHeight params nHeight) (developers_paid nHeight) outs)
        (invalid REJECT_INVALID "cb-no-developers-reward");
  require_payment (nHeight =? activation cp UPGRADE_MORAG)
    (outs ← outputs; find_payment (GetDevelopersRewardScriptAtHeight params nHeight) (premine_paid nHeight) outs)
    (invalid REJECT_INVALID "cb-no-treasury-reward").

(** [CScript() << nHeight] at the start of the coinbase's input script. *)
Definition coinbase_height_ok (nHeight : Z) (scriptSig : CScript) : bool :=
  let expect := CScript_push_int64 [] nHeight in
  negb (length scriptSig <? length expect)%nat && bool_decide (take (length expect) scriptSig = expect).

Definition ContextualCheckBlock (tipHeight : Z) (block : CBlock) (pindexPrev : option uint256) : check unit :=
  nHeight ← of_result (match pindexPrev with Some p => b ← deref (env_map env) p; Ok (bi_nHeight b + 1) | None => Ok 0 end);
  _ ← check_each (fun tx =>
        _ ← ContextualCheckTransaction params tipHeight chainparams tx nHeight 100 (env_ibd env);
        reject_if (negb (IsFinalTx tx nHeight (CBlockHeader_GetBlockTime (b_header block))))
          (dos 10 REJECT_INVALID "bad-txns-nonfinal")) (b_vtx block);
  _ ← (if env_nEnforceBlockUpgradeMajority env <? nHeight then
         tx ← of_result (index_or_abort (b_vtx block) 0);
         i ← of_result (index_or_abort (vin tx) 0);
         reject_if (negb (coinbase_height_ok nHeight (scriptSig i))) (dos 100 REJECT_INVALID "bad-cb-height")
       else Pass tt);
  check_rewards nHeight (tx ← index_or_abort (b_vtx block) 0; Ok (tx_vout tx)).
End Check.

(** ** The height in the coinbase *)

(** The first operation of the script that starts with a height. *)
Lemma push_height_op h rest : 0 <= h < 2 ^ 31 -> Z.of_nat (length (CScript_push_int64 [] h ++ rest)) < 2 ^ 32 ->
  exists op data, GetOp2 (CScript_push_int64 [] h ++ rest) = mkGetOp true op data rest
  /\ h = if (OP_1 <=? op) && (op <=? OP_16) then op - (OP_1 - 1) else match CScriptNum_set_vch data with Ok v => v | _ => 0 end.
Proof.
  intros Hh Hl. unfold CScript_push_int64 in *. rewrite (proj2 (Z.eqb_neq h (-1))) in * by lia. cbn [orb] in *.
  destruct ((1 <=? h) && (h <=? 16)) eqn:E1.
  { apply andb_true_iff in E1 as [H1 H2]. apply Z.leb_le in H1, H2. unfold OP_1, OP_16 in *.
    rewrite u8_small in * by (unfold is_u8; lia). exists (h + (81 - 1)), []. split.
    - cbn [app GetOp2]. rewrite (proj2 (Z.leb_gt _ _)) by (unfold OP_PUSHDATA4; lia). done.
    - rewrite (proj2 (Z.leb_le 81 _)), (proj2 (Z.leb_le _ 96)) by lia. cbn [andb]. lia. }
  destruct (Z.eqb_spec h 0) as [->|Hn0].
  { exists 0, []. split; [|done]. exact (GetOp2_pushed [] rest Hl). }
  rewrite push_data_app in *. cbn [app] in *. exists (push_opcode (CScriptNum_serialize h)), (CScriptNum_serialize h).
  split; [by apply GetOp2_pushed|]. rewrite set_vch_serialize by (unfold is_i64; lia).
  pose proof (push_opcode_le (CScriptNum_serialize h)) as Hop. unfold OP_PUSHDATA4, OP_1 in *.
  by rewrite (proj2 (Z.leb_gt 81 _)) by lia.
Qed.

(** The coinbase of a block names the block's height (BIP 34): an input
    script that [ContextualCheckBlock] accepts at two heights is accepted at
    the same height, so coinbases of blocks at different heights differ. *)
Theorem coinbase_height_unique (h1 h2 : Z) (s : CScript)
  (H1 : 0 <= h1 < 2 ^ 31) (H2 : 0 <= h2 < 2 ^ 31) (Hl : Z.of_nat (length s) < 2 ^ 32)
  (E1 : coinbase_height_ok h1 s = true) (E2 : coinbase_height_ok h2 s = true) : h1 = h2.
Proof.
  assert (Hs : forall h, coinbase_height_ok h s = true -> exists rest, s = CScript_push_int64 [] h ++ rest).
  { intros h E. unfold coinbase_height_ok in E. apply andb_true_iff in E as [_ E]. apply bool_decide_eq_true in E.
    exists (drop (length (CScript_push_int64 [] h)) s). rewrite <- E at 1. by rewrite take_drop. }
  destruct (Hs _ E1) as [r1 Hr1], (Hs _ E2) as [r2 Hr2]. clear E1 E2 Hs.
  rewrite Hr1 in Hl. destruct (push_height_op h1 r1 H1 Hl) as (o1 & d1 & G1 & ->).
  rewrite <- Hr1, Hr2 in Hl. destruct (push_height_op h2 r2 H2 Hl) as (o2 & d2 & G2 & ->).
  rewrite <- Hr1 in G1. rewrite <- Hr2, G1 in G2. by injection G2 as -> -> _.
Qed.

Lemma coinbase_height_unique_witness :
  coinbase_height_ok 100000 [3; 0xa0; 0x86; 1; 7] = true
  /\ forall h, 0 <= h < 2 ^ 31 -> coinbase_height_ok h [3; 0xa0; 0x86; 1; 7] = true -> h = 100000.
Proof.
  split; [by vm_compute|]. intros h Hh E. apply (coinbase_height_unique h 100000 [3; 0xa0; 0x86; 1; 7]);
    [exact Hh|lia|vm_compute; done|exact E|by vm_compute].
Defined.

(** ** What the checks of a block accept *)

Section Accepted.
Context `{BlockOracle} `{EquihashVerifier} `{SigHashCrypto} `{TxVerifier}.
Context (net : Network) (params chainparams : CChainParams) (env : BlockEnv).

(** How far in the future a block's time may be. *)
Definition future_allowance : Z :=
  let nHeight := u32 (CChain_Height (env_chain env)) in
  if nHeight <? u32 (activation (consensus chainparams) UPGRADE_DIFA) then
    if nHeight <? u32 (newTimeRule chainparams) then 2 * 60 * 60 else 10 * 60
  else 6 * 60.

Record header_checked (block : CBlockHeader) (fCheckPOW : bool) : Prop := {
  hc_version : MIN_BLOCK_VERSION <= h_nVersion block;
  hc_equihash : fCheckPOW = true -> CheckEquihashSolution block (consensus chainparams) = Ok true;
  hc_pow : fCheckPOW = true -> CheckProofOfWork (hash_header block) (nBits block) (consensus chainparams) = true;
  hc_time : CBlockHeader_GetBlockTime block <= env_adjustedTime env + future_allowance
}.

Lemma CheckBlockHeader_Pass block fCheckPOW : CheckBlockHeader chainparams env block fCheckPOW = Pass tt <-> header_checked block fCheckPOW.
Proof.
  unfold CheckBlockHeader. rewrite reject_if_seq, seq_Pass, reject_if_seq, Z.ltb_ge.
  assert (Ht : forall nHeight time,
    (if nHeight <? u32 (activation (consensus chainparams) UPGRADE_DIFA) then
       if (nHeight <? u32 (newTimeRule chainparams)) && (env_adjustedTime env + 2 * 60 * 60 <? time) then Fail (invalid REJECT_INVALID "time-too-new")
       else reject_if ((u32 (newTimeRule chainparams) <=? nHeight) && (env_adjustedTime env + 10 * 60 <? time)) (invalid REJECT_INVALID "time-too-new")
     else reject_if (env_adjustedTime env + 6 * 60 <? time) (invalid REJECT_INVALID "time-too-new")) = Pass tt
    <-> time <= env_adjustedTime env + (if nHeight <? u32 (activation (consensus chainparams) UPGRADE_DIFA) then
          if nHeight <? u32 (newTimeRule chainparams) then 2 * 60 * 60 else 10 * 60 else 6 * 60)).
  { intros nHeight time. destruct (nHeight <? u32 (activation _ _)); [|by rewrite reject_if_Pass, Z.ltb_ge].
    destruct (Z.ltb_spec nHeight (u32 (newTimeRule chainparams))); cbn [andb].
    - destruct (Z.ltb_spec (env_adjustedTime env + 2 * 60 * 60) time); [split; [done|lia]|].
      rewrite reject_if_Pass, (proj2 (Z.leb_gt _ _)) by lia. cbn. split; [lia|done].
    - rewrite reject_if_Pass, (proj2 (Z.leb_le _ _)) by lia. cbn [andb]. by rewrite Z.ltb_ge. }
  rewrite Ht. destruct fCheckPOW; cbn [andb].
  - rewrite bind_Pass, negb_false_iff. split.
    + intros (? & (ok & E1 & E2) & ? & ?). apply reject_if_Pass, negb_false_iff in E2 as ->. apply of_result_Pass in E1. by split.
    + intros [? He Hp ?]. rewrite He, Hp by done. split_and!; try done. by exists true.
  - split; [intros (? & _ & _ & ?); by split|]. intros []. by split_and!.
Qed.

(** The parts of [CheckBlock] after the header. *)
Record body_checked (VerifySprout : JSDescription -> bytes -> bool) (block : CBlock) (fCheckMerkleRoot : bool) : Prop := {
  bc_root : fCheckMerkleRoot = true -> merkle_root hash_pair (hash_tx <$> b_vtx block) = hashMerkleRoot (b_header block)
            /\ mutated_list hash_pair (hash_tx <$> b_vtx block) = false;
  bc_size : exists h b, next_height env = Ok h /\ ser_CBlock block = Ok b
            /\ Z.of_nat (length (b_vtx block)) <= MAX_BLOCK_SIZE (consensus params) h /\ Z.of_nat (length b) <= MAX_BLOCK_SIZE (consensus params) h;
  bc_coinbase : exists cb rest, b_vtx block = cb :: rest /\ IsCoinBase cb = true /\ Forall (fun tx => IsCoinBase tx = false) rest;
  bc_locks : env_spork3 env = true -> Forall (fun tx => lock_conflict env tx = false) (b_vtx block);
  bc_payee : exists h, payee_height env block = Ok h /\
             (CChain_Tip (env_chain env) <> None -> h <> 0 -> env_ibd env = false -> env_IsBlockPayeeValid env block h = true);
  bc_txs : Forall (fun tx => tx_checked tx /\ Forall (fun js => VerifySprout js (joinSplitPubKey tx) = true) (vjoinsplit tx)) (b_vtx block);
  bc_sigops : block_sigops (b_vtx block) <= MAX_BLOCK_SIGOPS
}.

Lemma check_merkle_root_Pass block : check_merkle_root block = Pass tt <->
  merkle_root hash_pair (hash_tx <$> b_vtx block) = hashMerkleRoot (b_header block)
  /\ mutated_list hash_pair (hash_tx <$> b_vtx block) = false.
Proof.
  unfold check_merkle_root. rewrite BuildMerkleTree_ok. cbn [of_result]. rewrite Pass_bind.
  rewrite reject_if_seq, reject_if_Pass, negb_false_iff, Z.eqb_eq. intuition congruence.
Qed.

Lemma size_check_Pass block :
  (nHeight ← of_result (next_height env);
   let limit := MAX_BLOCK_SIZE (consensus params) nHeight in
   if is_empty (b_vtx block) || (limit <? Z.of_nat (length (b_vtx block))) then Fail (dos 100 REJECT_INVALID "bad-blk-length")
   else b ← of_result (ser_CBlock block);
        reject_if (limit <? Z.of_nat (length b)) (dos 100 REJECT_INVALID "bad-blk-length")) = Pass tt
  <-> b_vtx block <> [] /\ exists h b, next_height env = Ok h /\ ser_CBlock block = Ok b
      /\ Z.of_nat (length (b_vtx block)) <= MAX_BLOCK_SIZE (consensus params) h /\ Z.of_nat (length b) <= MAX_BLOCK_SIZE (consensus params) h.
Proof.
  rewrite bind_Pass. setoid_rewrite of_result_Pass. cbv zeta. split.
  - intros (h & Eh & E). destruct (is_empty (b_vtx block)) eqn:En; [done|]. cbn [orb] in E.
    destruct (Z.ltb_spec (MAX_BLOCK_SIZE (consensus params) h) (Z.of_nat (length (b_vtx block)))); [done|].
    apply bind_Pass in E as (b & Eb & E). apply of_result_Pass in Eb. apply reject_if_Pass, Z.ltb_ge in E.
    apply is_empty_false in En. split; [done|]. by exists h, b.
  - intros (Hne & h & b & Eh & Eb & Hl & Hb). exists h. split; [done|]. apply is_empty_false in Hne. rewrite Hne. cbn [orb].
    rewrite (proj2 (Z.ltb_ge _ _)) by lia. apply bind_Pass. exists b. split; [by apply of_result_Pass|].
    apply reject_if_Pass. by apply Z.ltb_ge.
Qed.

Lemma existsb_false_Forall {A} (f : A -> bool) l : existsb f l = false <-> Forall (fun a => f a = false) l.
Proof. induction l as [|a l IH]; cbn; [done|]. rewrite orb_false_iff, Forall_cons. naive_solver. Qed.

(** A test that records the block when it fails. *)
Lemma recorded_seq {B} (bad : bool) block f (k : unit -> scheck (gmap uint256 Z) B) r b r' :
  ((if bad then fail_recorded env block f else mret tt) ≫= k) r = (Pass b, r') <-> bad = false /\ k tt r = (Pass b, r').
Proof. destruct bad; unfold mbind, scheck_bind, fail_recorded, mret, scheck_ret; split; naive_solver. Qed.

Lemma coinbase_Pass (vtx : list CMutableTransaction) :
  match vtx with [] => true | tx :: _ => negb (IsCoinBase tx) end = false /\ existsb IsCoinBase (tail vtx) = false
  <-> exists cb rest, vtx = cb :: rest /\ IsCoinBase cb = true /\ Forall (fun tx => IsCoinBase tx = false) rest.
Proof.
  destruct vtx as [|cb rest]; cbn [tail]; [split; [by intros []|by intros (? & ? & ? & _)]|].
  rewrite existsb_false_Forall, negb_false_iff. split; [intros [? ?]; by exists cb, rest|].
  by intros (? & ? & [= <- <-] & ? & ?).
Qed.

Lemma CheckBlock_Pass (VerifySprout : JSDescription -> bytes -> bool) (block : CBlock) (fCheckPOW fCheckMerkleRoot : bool)
  (r r' : gmap uint256 Z) (Hi : Forall tx_amounts_i64 (b_vtx block)) :
  CheckBlock params chainparams env VerifySprout block fCheckPOW fCheckMerkleRoot r = (Pass tt, r')
  <-> header_checked (b_header block) fCheckPOW /\ body_checked VerifySprout block fCheckMerkleRoot /\ r' = r.
Proof.
  unfold CheckBlock. rewrite !lift_seq, CheckBlockHeader_Pass, size_check_Pass, !reject_if_Pass, recorded_seq, lift_bind.
  setoid_rewrite recorded_seq. setoid_rewrite lift_seq. setoid_rewrite lift_last. setoid_rewrite reject_if_Pass.
  setoid_rewrite of_result_Pass.
  assert (Hm : (if fCheckMerkleRoot then check_merkle_root block else Pass tt) = Pass tt <->
    (fCheckMerkleRoot = true -> merkle_root hash_pair (hash_tx <$> b_vtx block) = hashMerkleRoot (b_header block)
      /\ mutated_list hash_pair (hash_tx <$> b_vtx block) = false)).
  { destruct fCheckMerkleRoot; [rewrite check_merkle_root_Pass|]; naive_solver. }
  assert (Ht : check_each (CheckTransaction VerifySprout) (b_vtx block) = Pass tt <->
    Forall (fun tx => tx_checked tx /\ Forall (fun js => VerifySprout js (joinSplitPubKey tx) = true) (vjoinsplit tx)) (b_vtx block)).
  { rewrite check_each_Pass, !Forall_forall. rewrite Forall_forall in Hi. split; intros HF tx Hx; specialize (HF tx Hx);
      [by apply CheckTransaction_Pass in HF; [|apply Hi]|by apply CheckTransaction_Pass; [apply Hi|]]. }
  rewrite Hm. setoid_rewrite Ht. setoid_rewrite Z.ltb_ge. pose proof (coinbase_Pass (b_vtx block)) as Hcb.
  assert (Hl : env_spork3 env && existsb (lock_conflict env) (b_vtx block) = false <->
    (env_spork3 env = true -> Forall (fun tx => lock_conflict env tx = false) (b_vtx block))).
  { rewrite <- existsb_false_Forall. destruct (env_spork3 env); cbn; naive_solver. }
  assert (Hp : forall h, bool_decide (CChain_Tip (env_chain env) <> None) && negb (h =? 0) && negb (env_ibd env)
      && negb (env_IsBlockPayeeValid env block h) = false
    <-> (CChain_Tip (env_chain env) <> None -> h <> 0 -> env_ibd env = false -> env_IsBlockPayeeValid env block h = true)).
  { intros h. case_bool_decide; cbn [andb]; [|naive_solver]. destruct (Z.eqb_spec h 0), (env_ibd env), (env_IsBlockPayeeValid env block h); naive_solver. }
  rewrite Hl. setoid_rewrite Hp. split.
  - intros (Hh & Hr & [Hne Hs] & Hc1 & Hc2 & Hlk & h & Eh & Hpay & Htx & [Hsig ->]). split; [done|]. split; [|done].
    split; try done; [by apply Hcb|by exists h].
  - intros (Hh & [Hr Hs Hc Hlk (h & Eh & Hpay) Htx Hsig] & ->). apply Hcb in Hc as Hc'. destruct Hc' as [Hc1 Hc2].
    destruct Hc as (cb & rest & Ev & _). split_and!; try done; [by rewrite Ev|]. exists h. by split_and!.
Qed.

(** (C24) [CheckBlock] accepts exactly the well-formed blocks: a header of a
    known version with work and time in order, the Merkle root of the
    transactions and no duplicated tail of them, sizes within the limit, one
    coinbase and that first, no conflict with a transaction lock, the
    masternode payment where it is due, well-formed transactions, and
    signature operations within the limit.  Accepting changes nothing. *)
Theorem CheckBlock_iff (VerifySprout : JSDescription -> bytes -> bool) (block : CBlock) (fCheckPOW fCheckMerkleRoot : bool)
  (r r' : gmap uint256 Z) (Hi : Forall tx_amounts_i64 (b_vtx block)) :
  CheckBlock params chainparams env VerifySprout block fCheckPOW fCheckMerkleRoot r = (Pass tt, r')
  <-> header_checked (b_header block) fCheckPOW /\ body_checked VerifySprout block fCheckMerkleRoot /\ r' = r.
Proof. by apply CheckBlock_Pass. Qed.
End Accepted.

(** A block with a coinbase only, checked by a node without blocks. *)
#[local] Instance example_oracle : BlockOracle := {
  hash_header h := h_nTime h;
  hash_tx tx := nLockTime tx;
  hash_pair a b := 31 * a + b;
  decode_script_id _ := Some (replicate 20 5)
}.
#[local] Instance example_equihash : EquihashVerifier := {| eh_isvalid := fun _ _ _ _ _ _ => true |}.
Definition example_coinbase : CMutableTransaction :=
  mkTx true 4 SAPLING_VERSION_GROUP_ID [mkCTxIn COutPoint_SetNull [1; 2; 3] 0] [mkCTxOut 50 [81] (-10)] 77 0 0 [] [] [] [] [] [].
Definition example_block : CBlock := mkCBlock (mkHeader 4 0 77 0 1000 0 0 []) [example_coinbase] [] [].
Definition example_env : BlockEnv := mkBlockEnv ∅ [] 900 900 true None true (fun _ => None) (fun _ _ => false) 5 20.

Lemma CheckBlock_iff_witness :
  header_checked main_params example_env (b_header example_block) false
  /\ body_checked main_params example_env (fun _ _ => true) example_block true.
Proof.
  assert (Hi : Forall tx_amounts_i64 (b_vtx example_block)).
  { apply Forall_singleton. unfold tx_amounts_i64, is_i64. cbn. split_and!; repeat constructor; lia. }
  destruct (proj1 (CheckBlock_iff main_params main_params example_env (fun _ _ => true) example_block false true ∅ ∅ Hi)) as (H1 & H2 & _).
  - by vm_compute.
  - split; [exact H1|exact H2].
Defined.
