(* ===== verification/ChainState.v ===== *)
(** * The block index of the node and the choice of the best chain

    main.cpp: the globals [mapBlockIndex], [chainActive], [pindexBestHeader],
    [pindexBestInvalid], [setBlockIndexCandidates], [mapBlocksUnlinked], the
    dirty sets and the block file statistics, with the functions that change
    them: [AddToBlockIndex], [ReceivedBlockTransactions], [FindBlockPos],
    [FindUndoPos], [InvalidChainFound], [InvalidBlockFound], the fork
    warnings, [FindMostWorkChain], [PruneBlockIndexCandidates],
    [ReconsiderBlock], [PruneOneBlockFile] and [LastCommonAncestor].

    A [CBlockIndex*] is the block's hash, as in Chain.v.  The ordered set of
    candidates is a finite set; its last element is the greatest one in
    [CBlockIndexWorkComparator], the order that the code's set maintains while
    the compared fields of its members stay the same.  The multimap of
    unlinked blocks is the list of its pairs, equal keys in order of
    insertion. *)
From stdpp Require Import prelude gmap strings list.
From S2P Require Import Prelude Transaction Serialize Block ArithUint256 ChainParams Chain Pow Checks.
#[local] Open Scope Z_scope.

Definition MAX_BLOCKFILE_SIZE : Z := 0x8000000.
Definition BLOCKFILE_CHUNK_SIZE : Z := 0x1000000.
Definition UNDOFILE_CHUNK_SIZE : Z := 0x100000.
Definition MIN_BLOCKS_TO_KEEP : Z := 288.

(** ** State *)

Record ChainState := mkChainState {
  mapBlockIndex : BlockMap;
  chainActive : CChain;
  pindexBestHeader : option uint256;
  pindexBestInvalid : option uint256;
  setBlockIndexCandidates : gset uint256;
  mapBlocksUnlinked : list (uint256 * uint256);
  setDirtyBlockIndex : gset uint256;
  nBlockSequenceId : Z
}.

Definition with_map (f : BlockMap -> BlockMap) (s : ChainState) : ChainState :=
  mkChainState (f (mapBlockIndex s)) (chainActive s) (pindexBestHeader s) (pindexBestInvalid s)
    (setBlockIndexCandidates s) (mapBlocksUnlinked s) (setDirtyBlockIndex s) (nBlockSequenceId s).
Definition with_chain (c : CChain) (s : ChainState) : ChainState :=
  mkChainState (mapBlockIndex s) c (pindexBestHeader s) (pindexBestInvalid s)
    (setBlockIndexCandidates s) (mapBlocksUnlinked s) (setDirtyBlockIndex s) (nBlockSequenceId s).
Definition with_best_header (p : option uint256) (s : ChainState) : ChainState :=
  mkChainState (mapBlockIndex s) (chainActive s) p (pindexBestInvalid s)
    (setBlockIndexCandidates s) (mapBlocksUnlinked s) (setDirtyBlockIndex s) (nBlockSequenceId s).
Definition with_best_invalid (p : option uint256) (s : ChainState) : ChainState :=
  mkChainState (mapBlockIndex s) (chainActive s) (pindexBestHeader s) p
    (setBlockIndexCandidates s) (mapBlocksUnlinked s) (setDirtyBlockIndex s) (nBlockSequenceId s).
Definition with_candidates (f : gset uint256 -> gset uint256) (s : ChainState) : ChainState :=
  mkChainState (mapBlockIndex s) (chainActive s) (pindexBestHeader s) (pindexBestInvalid s)
    (f (setBlockIndexCandidates s)) (mapBlocksUnlinked s) (setDirtyBlockIndex s) (nBlockSequenceId s).
Definition with_unlinked (f : list (uint256 * uint256) -> list (uint256 * uint256)) (s : ChainState) : ChainState :=
  mkChainState (mapBlockIndex s) (chainActive s) (pindexBestHeader s) (pindexBestInvalid s)
    (setBlockIndexCandidates s) (f (mapBlocksUnlinked s)) (setDirtyBlockIndex s) (nBlockSequenceId s).
Definition with_dirty (p : uint256) (s : ChainState) : ChainState :=
  mkChainState (mapBlockIndex s) (chainActive s) (pindexBestHeader s) (pindexBestInvalid s)
    (setBlockIndexCandidates s) (mapBlocksUnlinked s) ({[p]} ∪ setDirtyBlockIndex s) (nBlockSequenceId s).
Definition with_sequence (n : Z) (s : ChainState) : ChainState :=
  mkChainState (mapBlockIndex s) (chainActive s) (pindexBestHeader s) (pindexBestInvalid s)
    (setBlockIndexCandidates s) (mapBlocksUnlinked s) (setDirtyBlockIndex s) n.

(** Writing through a pointer. *)
Definition set_entry (p : uint256) (b : CBlockIndex) : ChainState -> ChainState := with_map <[p := b]>.
Definition get_entry (s : ChainState) (p : uint256) : result CBlockIndex := deref (mapBlockIndex s) p.

Definition Tip (s : ChainState) : option uint256 := CChain_Tip (chainActive s).

Section Ops.
(** The address at which an entry was allocated. *)
Context (addr : uint256 -> Z).

(** ** The order of candidates *)

Definition CBlockIndexWorkComparator (pa pb : uint256) (a b : CBlockIndex) : bool :=
  if bu_gt (bi_nChainWork a) (bi_nChainWork b) then false
  else if bu_lt (bi_nChainWork a) (bi_nChainWork b) then true
  else if bi_nSequenceId a <? bi_nSequenceId b then false
  else if bi_nSequenceId b <? bi_nSequenceId a then true
  else if addr pa <? addr pb then false
  else if addr pb <? addr pa then true
  else false.

Definition value_comp (m : BlockMap) (pa pb : uint256) : result bool :=
  a ← deref m pa; b ← deref m pb; Ok (CBlockIndexWorkComparator pa pb a b).

(** The greatest member. *)
Definition greater_of (m : BlockMap) (best : option uint256) (p : uint256) : result (option uint256) :=
  match best with
  | None => Ok (Some p)
  | Some q => worse ← value_comp m q p; Ok (Some (if worse : bool then p else q))
  end.
Definition candidates_rbegin (m : BlockMap) (c : gset uint256) : result (option uint256) :=
  foldM (greater_of m) (elements c) None.

(** ** New headers *)

Definition bi_of_header (block : CBlockHeader) (pprev : option uint256) (nHeight : Z) : CBlockIndex :=
  let b := CBlockIndex_of_header block in
  mkIndex pprev None nHeight (bi_nFile b) (bi_nDataPos b) (bi_nUndoPos b) (bi_nChainWork b) (bi_nTx b) (bi_nChainTx b)
    (bi_nStatus b) (bi_nCachedBranchId b) (bi_hashSproutAnchor b) (bi_hashFinalSproutRoot b) (bi_nSproutValue b)
    (bi_nChainSproutValue b) (bi_nSaplingValue b) (bi_nChainSaplingValue b) (bi_nVersion b) (bi_hashMerkleRoot b)
    (bi_hashFinalSaplingRoot b) (bi_nTime b) (bi_nBits b) (bi_nNonce b) (bi_nSolution b) 0.

Definition bi_with_work (b : CBlockIndex) (w : base_uint) : CBlockIndex :=
  mkIndex (bi_pprev b) (bi_pskip b) (bi_nHeight b) (bi_nFile b) (bi_nDataPos b) (bi_nUndoPos b) w
    (bi_nTx b) (bi_nChainTx b) (bi_nStatus b) (bi_nCachedBranchId b) (bi_hashSproutAnchor b)
    (bi_hashFinalSproutRoot b) (bi_nSproutValue b) (bi_nChainSproutValue b) (bi_nSaplingValue b)
    (bi_nChainSaplingValue b) (bi_nVersion b) (bi_hashMerkleRoot b) (bi_hashFinalSaplingRoot b) (bi_nTime b)
    (bi_nBits b) (bi_nNonce b) (bi_nSolution b) (bi_nSequenceId b).

(** [pprev ? pprev->nChainWork : 0]. *)
Definition prev_work (m : BlockMap) (pprev : option uint256) : result base_uint :=
  match pprev with Some q => b ← deref m q; Ok (bi_nChainWork b) | None => Ok (bu_of_u64 0) end.

(** [best == NULL || best->nChainWork < work]. *)
Definition more_work (m : BlockMap) (best : option uint256) (work : base_uint) : result bool :=
  match best with Some q => b ← deref m q; Ok (bu_lt (bi_nChainWork b) work) | None => Ok true end.

(** [hash] is [block.GetHash()].  The predecessor is looked up after the new
    entry has been inserted. *)
Definition AddToBlockIndex (hash : uint256) (block : CBlockHeader) (s : ChainState) : result (uint256 * ChainState) :=
  match mapBlockIndex s !! hash with
  | Some _ => Ok (hash, s)
  | None =>
      let m1 := <[hash := bi_of_header block None 0]> (mapBlockIndex s) in
      m2 ← (match m1 !! hashPrevBlock block with
            | Some prev => BuildSkip (<[hash := bi_of_header block (Some (hashPrevBlock block)) (bi_nHeight prev + 1)]> m1) hash
            | None => Ok m1
            end);
      b ← deref m2 hash;
      w ← prev_work m2 (bi_pprev b);
      proof ← GetBlockProof (bi_nBits b);
      r ← RaiseValidity (bi_with_work b (bu_add w proof)) BLOCK_VALID_TREE;
      let s1 := with_map (fun _ => <[hash := r.2]> m2) s in
      better ← more_work (mapBlockIndex s1) (pindexBestHeader s) (bi_nChainWork r.2);
      Ok (hash, with_dirty hash (if better : bool then with_best_header (Some hash) s1 else s1))
  end.

(** ** Blocks whose data has arrived *)

(** The change of the two shielded pools by the transactions of a block. *)
Definition sapling_delta (vtx : list CMutableTransaction) : Z :=
  foldl (fun v tx => i64 (v + i64 (- valueBalance tx))) 0 vtx.
Definition sprout_delta (vtx : list CMutableTransaction) : Z :=
  foldl (fun v tx => foldl (fun v js => i64 (i64 (v + vpub_old js) - vpub_new js)) v (vjoinsplit tx)) 0 vtx.

Definition bi_received (b : CBlockIndex) (block : CBlock) (pos : CDiskBlockPos) : CBlockIndex :=
  mkIndex (bi_pprev b) (bi_pskip b) (bi_nHeight b) (dp_nFile pos) (dp_nPos pos) 0 (bi_nChainWork b)
    (u32 (Z.of_nat (length (b_vtx block)))) 0 (Z.lor (bi_nStatus b) BLOCK_HAVE_DATA)
    (bi_nCachedBranchId b) (bi_hashSproutAnchor b) (bi_hashFinalSproutRoot b)
    (Some (sprout_delta (b_vtx block))) None (sapling_delta (b_vtx block)) None (bi_nVersion b)
    (bi_hashMerkleRoot b) (bi_hashFinalSaplingRoot b) (bi_nTime b) (bi_nBits b) (bi_nNonce b) (bi_nSolution b)
    (bi_nSequenceId b).

(** [nChainTx], the chain values and the sequence id of a block whose parents
    all have their transactions. *)
Definition bi_linked (b : CBlockIndex) (prev : option CBlockIndex) (sequence : Z) : CBlockIndex :=
  mkIndex (bi_pprev b) (bi_pskip b) (bi_nHeight b) (bi_nFile b) (bi_nDataPos b) (bi_nUndoPos b) (bi_nChainWork b)
    (bi_nTx b) (u32 (match prev with Some q => bi_nChainTx q | None => 0 end + bi_nTx b)) (bi_nStatus b)
    (bi_nCachedBranchId b) (bi_hashSproutAnchor b) (bi_hashFinalSproutRoot b) (bi_nSproutValue b)
    (match prev with
     | Some q => match bi_nChainSproutValue q, bi_nSproutValue b with Some x, Some y => Some (i64 (x + y)) | _, _ => None end
     | None => bi_nSproutValue b
     end)
    (bi_nSaplingValue b)
    (match prev with
     | Some q => match bi_nChainSaplingValue q with Some x => Some (i64 (x + bi_nSaplingValue b)) | None => None end
     | None => Some (bi_nSaplingValue b)
     end)
    (bi_nVersion b) (bi_hashMerkleRoot b) (bi_hashFinalSaplingRoot b) (bi_nTime b) (bi_nBits b) (bi_nNonce b)
    (bi_nSolution b) sequence.

Definition get_prev (m : BlockMap) (b : CBlockIndex) : result (option CBlockIndex) :=
  match bi_pprev b with Some q => bq ← deref m q; Ok (Some bq) | None => Ok None end.

(** One round of the queue: the block gets its totals and may become a
    candidate; the blocks that waited for it are taken from the multimap. *)
Definition link_block (p : uint256) (s : ChainState) : result ChainState :=
  b ← get_entry s p;
  prev ← get_prev (mapBlockIndex s) b;
  let s1 := with_sequence (u32 (nBlockSequenceId s + 1)) (set_entry p (bi_linked b prev (nBlockSequenceId s)) s) in
  eligible ← (match Tip s1 with
              | None => Ok true
              | Some t => worse ← value_comp (mapBlockIndex s1) p t; Ok (negb worse)
              end);
  Ok (if eligible : bool then with_candidates ({[p]} ∪.) s1 else s1).

Definition waiting_for (p : uint256) (l : list (uint256 * uint256)) : list uint256 :=
  snd <$> filter (fun x => x.1 = p) l.
Definition not_waiting_for (p : uint256) (l : list (uint256 * uint256)) : list (uint256 * uint256) :=
  filter (fun x => x.1 <> p) l.

(** Every round takes one block from the queue; what it adds leaves the
    multimap. *)
Fixpoint link_loop (fuel : nat) (queue : list uint256) (s : ChainState) : result ChainState :=
  match queue with
  | [] => Ok s
  | p :: queue' =>
      match fuel with
      | O => Abort
      | S fuel' =>
          s1 ← link_block p s;
          link_loop fuel' (queue' ++ waiting_for p (mapBlocksUnlinked s1)) (with_unlinked (not_waiting_for p) s1)
      end
  end.

Definition ReceivedBlockTransactions (block : CBlock) (pindexNew : uint256) (pos : CDiskBlockPos) (s : ChainState)
  : result ChainState :=
  b ← get_entry s pindexNew;
  r ← RaiseValidity (bi_received b block pos) BLOCK_VALID_TRANSACTIONS;
  let s1 := with_dirty pindexNew (set_entry pindexNew r.2 s) in
  prev ← get_prev (mapBlockIndex s1) r.2;
  match prev, bi_pprev b with
  | Some q, Some hq =>
      if negb (bi_nChainTx q =? 0) then link_loop (S (length (mapBlocksUnlinked s1))) [pindexNew] s1
      else valid ← CBlockIndex_IsValid q BLOCK_VALID_TREE;
           Ok (if valid : bool then with_unlinked (fun l => l ++ [(hq, pindexNew)]) s1 else s1)
  | _, _ => link_loop (S (length (mapBlocksUnlinked s1))) [pindexNew] s1
  end.

(** ** Invalid chains *)

Definition add_status (mask : Z) (p : uint256) (s : ChainState) : result ChainState :=
  b ← get_entry s p; Ok (set_entry p (bi_with_status b (Z.lor (bi_nStatus b) mask)) s).

(** [pindexBestInvalid == NULL || p->nChainWork > pindexBestInvalid->nChainWork]. *)
Definition update_best_invalid (p : uint256) (s : ChainState) : result ChainState :=
  b ← get_entry s p;
  better ← more_work (mapBlockIndex s) (pindexBestInvalid s) (bi_nChainWork b);
  Ok (if better : bool then with_best_invalid (Some p) s else s).

(** ** The best candidate *)

(** What the protection of masternodes against long reorganisations reads: is
    this node a started masternode (or synchronised with the option set), the
    height of the rule, and the greatest reorganisation allowed. *)
Record Protection := mkProtection {
  pr_enabled : bool;
  pr_block : Z;
  pr_reorg : Z
}.

(** [reorgLength] between the tip and the branch of a block. *)
Definition reorg_length (m : BlockMap) (c : CChain) (tip : CBlockIndex) (p : uint256) : result Z :=
  f ← CChain_FindFork m c p;
  h ← (match f with Some q => b ← deref m q; Ok (bi_nHeight b) | None => Ok (-1) end);
  Ok (bi_nHeight tip - h).

(** [fInvalidChain] for the block [pindexTest]. *)
Definition protected_from (pr : Protection) (m : BlockMap) (c : CChain) (pindexTest : uint256) : result bool :=
  match CChain_Tip c with
  | None => Ok false
  | Some t =>
      tip ← deref m t;
      if (pr_block pr <? bi_nHeight tip) && pr_enabled pr then
        n ← reorg_length m c tip pindexTest; Ok (pr_reorg pr <? n)
      else Ok false
  end.

(** The outcome of the walk from a candidate to the active chain: every block
    is usable, or the first block that is not, with the reason (failed, or
    only without data). *)
Inductive walk_result :=
| AllUsable
| Unusable (pindexTest : uint256) (fFailed : bool).

Fixpoint test_path (fuel : nat) (pr : Protection) (m : BlockMap) (c : CChain) (pindexTest : option uint256)
  : result walk_result :=
  match pindexTest with
  | None => Ok AllUsable
  | Some p =>
      contained ← CChain_Contains m c p;
      if contained : bool then Ok AllUsable
      else match fuel with
      | O => Abort
      | S fuel' =>
          b ← deref m p;
          _ ← assert_true (negb (bi_nChainTx b =? 0) || (bi_nHeight b =? 0));
          let fFailedChain := has_status (bi_nStatus b) BLOCK_FAILED_MASK in
          let fMissingData := negb (has_status (bi_nStatus b) BLOCK_HAVE_DATA) in
          fInvalidChain ← protected_from pr m c p;
          if fFailedChain || fMissingData || fInvalidChain then Ok (Unusable p (fFailedChain || fInvalidChain))
          else test_path fuel' pr m c (bi_pprev b)
      end
  end.

(** [while (pindexTest != pindexFailed)]: the blocks from the candidate down
    to the unusable one leave the set of candidates. *)
Fixpoint remove_chain (fuel : nat) (fFailed : bool) (pindexTest pindexFailed : uint256) (s : ChainState) : result ChainState :=
  if pindexTest =? pindexFailed then Ok s
  else match fuel with
  | O => Abort
  | S fuel' =>
      b ← get_entry s pindexFailed;
      match bi_pprev b with
      | None => Abort
      | Some prev =>
          s1 ← (if fFailed then add_status BLOCK_FAILED_CHILD pindexFailed s
                else Ok (with_unlinked (fun l => l ++ [(prev, pindexFailed)]) s));
          remove_chain fuel' fFailed pindexTest prev (with_candidates (fun c => c ∖ {[pindexFailed]}) s1)
      end
  end.

(** The body of [do ... while (true)]: the best candidate, if it is usable. *)
Definition try_best (pr : Protection) (s : ChainState) : result (option (option uint256) * ChainState) :=
  best ← candidates_rbegin (mapBlockIndex s) (setBlockIndexCandidates s);
  match best with
  | None => Ok (Some None, s)
  | Some pindexNew =>
      b ← get_entry s pindexNew;
      let fuel := S (Z.to_nat (bi_nHeight b)) in
      w ← test_path fuel pr (mapBlockIndex s) (chainActive s) (Some pindexNew);
      match w with
      | AllUsable => Ok (Some (Some pindexNew), s)
      | Unusable pindexTest fFailed =>
          s1 ← (if fFailed then update_best_invalid pindexNew s else Ok s);
          s2 ← remove_chain fuel fFailed pindexTest pindexNew s1;
          Ok (None, with_candidates (fun c => c ∖ {[pindexTest]}) s2)
      end
  end.

(** Every round that does not return removes a candidate. *)
Fixpoint most_work_loop (fuel : nat) (pr : Protection) (s : ChainState) : result (option uint256 * ChainState) :=
  match fuel with
  | O => Abort
  | S fuel' =>
      r ← try_best pr s;
      match r.1 with
      | Some found => Ok (found, r.2)
      | None => most_work_loop fuel' pr r.2
      end
  end.
Definition FindMostWorkChain (pr : Protection) (s : ChainState) : result (option uint256 * ChainState) :=
  most_work_loop (S (size (setBlockIndexCandidates s))) pr s.

(** [while (it != end() && value_comp()( *it, Tip())) erase(it++)]: the
    members worse than the tip come first. *)
Definition PruneBlockIndexCandidates (s : ChainState) : result ChainState :=
  match Tip s with
  | None => Abort
  | Some t =>
      drop ← foldM (fun drop p => worse ← value_comp (mapBlockIndex s) p t; Ok (if worse : bool then {[p]} ∪ drop else drop))
               (elements (setBlockIndexCandidates s)) ∅;
      let s1 := with_candidates (fun c => c ∖ drop) s in
      _ ← assert_true (negb (bool_decide (setBlockIndexCandidates s1 = ∅)));
      Ok s1
  end.

(** [while (pIndex && pIndex->nHeight > nHeight)]. *)
Fixpoint find_at_height (fuel : nat) (m : BlockMap) (nHeight : Z) (p : option uint256) : result (option uint256) :=
  match p with
  | None => Ok None
  | Some h =>
      b ← deref m h;
      if nHeight <? bi_nHeight b then
        match fuel with O => Abort | S fuel' => find_at_height fuel' m nHeight (bi_pprev b) end
      else Ok (Some h)
  end.
Definition FindBlockAtHeight (m : BlockMap) (nHeight : Z) (p : option uint256) : result (option uint256) :=
  match p with
  | None => Ok None
  | Some h => b ← deref m h; find_at_height (S (Z.to_nat (bi_nHeight b))) m nHeight p
  end.

(** ** Reconsidering a block *)

Definition clear_failed (p : uint256) (b : CBlockIndex) (s : ChainState) : ChainState :=
  with_dirty p (set_entry p (bi_with_status b (Z.land (bi_nStatus b) (u32 (Z.lnot BLOCK_FAILED_MASK)))) s).

Definition reconsider_step (pindex : uint256) (nHeight : Z) (s : ChainState) (it : uint256) : result ChainState :=
  b ← get_entry s it;
  valid ← CBlockIndex_IsValid b BLOCK_VALID_TRANSACTIONS;
  a ← (if valid : bool then Ok None else GetAncestor (mapBlockIndex s) it nHeight);
  if negb valid && bool_decide (a = Some pindex) then
    let s1 := clear_failed it b s in
    b1 ← get_entry s1 it;
    valid1 ← CBlockIndex_IsValid b1 BLOCK_VALID_TRANSACTIONS;
    better ← (if valid1 && negb (bi_nChainTx b1 =? 0) then
                match Tip s1 with Some t => value_comp (mapBlockIndex s1) t it | None => Abort end
              else Ok false);
    let s2 := if better : bool then with_candidates ({[it]} ∪.) s1 else s1 in
    Ok (if bool_decide (pindexBestInvalid s2 = Some it) then with_best_invalid None s2 else s2)
  else Ok s.

(** [while (pindex != NULL)], down to the genesis block. *)
Fixpoint reconsider_ancestors (fuel : nat) (pindex : option uint256) (s : ChainState) : result ChainState :=
  match pindex with
  | None => Ok s
  | Some p =>
      match fuel with
      | O => Abort
      | S fuel' =>
          b ← get_entry s p;
          reconsider_ancestors fuel' (bi_pprev b)
            (if has_status (bi_nStatus b) BLOCK_FAILED_MASK then clear_failed p b s else s)
      end
  end.

Definition ReconsiderBlock (pindex : uint256) (s : ChainState) : result ChainState :=
  b ← get_entry s pindex;
  s1 ← foldM (reconsider_step pindex (bi_nHeight b)) (map_to_list (mapBlockIndex s)).*1 s;
  reconsider_ancestors (S (Z.to_nat (bi_nHeight b))) (Some pindex) s1.

(** ** The last common ancestor of two blocks *)

Fixpoint common_loop (fuel : nat) (m : BlockMap) (pa pb : option uint256) : result (option uint256) :=
  match pa, pb with
  | Some a, Some b =>
      if a =? b then Ok pa
      else match fuel with
      | O => Abort
      | S fuel' => ba ← deref m a; bb ← deref m b; common_loop fuel' m (bi_pprev ba) (bi_pprev bb)
      end
  | None, None => Ok None
  | _, _ => Abort
  end.
Definition LastCommonAncestor (m : BlockMap) (pa pb : uint256) : result (option uint256) :=
  a ← deref m pa; b ← deref m pb;
  pa' ← (if bi_nHeight b <? bi_nHeight a then GetAncestor m pa (bi_nHeight b) else Ok (Some pa));
  pb' ← (if bi_nHeight a <? bi_nHeight b then GetAncestor m pb (bi_nHeight a) else Ok (Some pb));
  common_loop (S (Z.to_nat (bi_nHeight a))) m pa' pb'.

(** ** Fork warnings *)

Record ForkWarnings := mkWarnings {
  pindexBestForkTip : option uint256;
  pindexBestForkBase : option uint256;
  fLargeWorkForkFound : bool;
  fLargeWorkInvalidChainFound : bool
}.

(** [pindexBestInvalid->nChainWork > Tip()->nChainWork + GetBlockProof( *Tip()) * 6]. *)
Definition invalid_far_ahead (s : ChainState) : result bool :=
  match pindexBestInvalid s with
  | None => Ok false
  | Some p =>
      b ← get_entry s p;
      t ← (match Tip s with Some t => get_entry s t | None => Abort end);
      proof ← GetBlockProof (bi_nBits t);
      Ok (bu_gt (bi_nChainWork b) (bu_add (bi_nChainWork t) (bu_mul32 proof 6)))
  end.

Definition CheckForkWarningConditions (ibd : bool) (s : ChainState) (w : ForkWarnings) : result ForkWarnings :=
  if ibd then Ok w
  else
    tip ← (match pindexBestForkTip w with
           | Some p => b ← get_entry s p;
                       Ok (if 288 <=? CChain_Height (chainActive s) - bi_nHeight b then None else Some p)
           | None => Ok None
           end);
    ahead ← (if bool_decide (tip = None) then invalid_far_ahead s else Ok true);
    Ok (if ahead : bool then
          if bool_decide (tip <> None) && bool_decide (pindexBestForkBase w <> None)
          then mkWarnings tip (pindexBestForkBase w) true (fLargeWorkInvalidChainFound w)
          else mkWarnings tip (pindexBestForkBase w) (fLargeWorkForkFound w) true
        else mkWarnings tip (pindexBestForkBase w) false false).

(** The two nested loops of [CheckForkWarningConditionsOnNewFork]. *)
Fixpoint fork_base_loop (fuel : nat) (m : BlockMap) (pfork plonger : option uint256) : result (option uint256) :=
  match pfork with
  | None => Ok None
  | Some f =>
      if bool_decide (plonger = Some f) then Ok pfork
      else match fuel with
      | O => Abort
      | S fuel' =>
          b ← deref m f;
          plonger ← FindBlockAtHeight m (bi_nHeight b) plonger;
          if bool_decide (plonger = Some f) then Ok pfork else fork_base_loop fuel' m (bi_pprev b) plonger
      end
  end.

Definition CheckForkWarningConditionsOnNewFork (ibd : bool) (pindexNewForkTip : uint256) (s : ChainState) (w : ForkWarnings)
  : result ForkWarnings :=
  new ← get_entry s pindexNewForkTip;
  pfork ← fork_base_loop (S (Z.to_nat (bi_nHeight new))) (mapBlockIndex s) (Some pindexNewForkTip) (Tip s);
  w1 ← (match pfork with
        | None => Ok w
        | Some f =>
            higher ← (match pindexBestForkTip w with
                      | None => Ok true
                      | Some p => b ← get_entry s p; Ok (bi_nHeight b <? bi_nHeight new)
                      end);
            fork ← get_entry s f;
            proof ← GetBlockProof (bi_nBits fork);
            Ok (if higher && bu_gt (bu_sub (bi_nChainWork new) (bi_nChainWork fork)) (bu_mul32 proof 7)
                   && (CChain_Height (chainActive s) - bi_nHeight new <? 72)
                then mkWarnings (Some pindexNewForkTip) (Some f) (fLargeWorkForkFound w) (fLargeWorkInvalidChainFound w)
                else w)
        end);
  CheckForkWarningConditions ibd s w1.

Definition InvalidChainFound (ibd : bool) (pindexNew : uint256) (s : ChainState) (w : ForkWarnings)
  : result (ChainState * ForkWarnings) :=
  s1 ← update_best_invalid pindexNew s;
  _ ← assert_true (bool_decide (Tip s1 <> None));
  w1 ← CheckForkWarningConditions ibd s1 w;
  Ok (s1, w1).

(** The effect of [InvalidBlockFound] on the block index; the message to the
    peer that sent the block is not modelled. *)
Definition InvalidBlockFound (ibd : bool) (pindex : uint256) (state : CValidationState) (s : ChainState) (w : ForkWarnings)
  : result (ChainState * ForkWarnings) :=
  if corruptionPossible state then Ok (s, w)
  else s1 ← add_status BLOCK_FAILED_VALID pindex s;
       InvalidChainFound ibd pindex (with_candidates (fun c => c ∖ {[pindex]}) (with_dirty pindex s1)) w.

End Ops.

(** ** Block files *)

(** [vinfoBlockFile], [nLastBlockFile], [setDirtyFileInfo] and
    [fCheckForPruning]. *)
Record BlockFiles := mkBlockFiles {
  vinfoBlockFile : list CBlockFileInfo;
  nLastBlockFile : Z;
  setDirtyFileInfo : gset Z;
  fCheckForPruning : bool
}.

Definition fi_with_size (f : CBlockFileInfo) (n : Z) : CBlockFileInfo :=
  mkFileInfo (fi_nBlocks f) n (fi_nUndoSize f) (fi_nHeightFirst f) (fi_nHeightLast f) (fi_nTimeFirst f) (fi_nTimeLast f).
Definition fi_with_undo_size (f : CBlockFileInfo) (n : Z) : CBlockFileInfo :=
  mkFileInfo (fi_nBlocks f) (fi_nSize f) n (fi_nHeightFirst f) (fi_nHeightLast f) (fi_nTimeFirst f) (fi_nTimeLast f).

(** [if (vinfoBlockFile.size() <= nFile) vinfoBlockFile.resize(nFile + 1)]. *)
Definition grow_files (v : list CBlockFileInfo) (nFile : nat) : list CBlockFileInfo :=
  v ++ replicate (S nFile - length v) CBlockFileInfo_SetNull.

(** [while (vinfoBlockFile[nFile].nSize + nAddSize >= MAX_BLOCKFILE_SIZE)]:
    after the last file in use comes an empty one. *)
Fixpoint find_file (fuel : nat) (v : list CBlockFileInfo) (nFile : nat) (nAddSize : Z) : result (nat * list CBlockFileInfo) :=
  f ← index_or_abort v nFile;
  if MAX_BLOCKFILE_SIZE <=? u32 (fi_nSize f + nAddSize) then
    match fuel with
    | O => Abort
    | S fuel' => find_file fuel' (grow_files v (S nFile)) (S nFile) nAddSize
    end
  else Ok (nFile, v).

(** [(n + chunk - 1) / chunk], in 32 bits. *)
Definition chunks (n chunk : Z) : Z := u32 (n + chunk - 1) / chunk.

Section Files.
(** [CheckDiskSpace] and [fPruneMode]. *)
Context (CheckDiskSpace : Z -> bool) (fPruneMode : bool).

(** Allocating the chunks that the new size needs. *)
Definition allocate (nPos nSize chunk : Z) : scheck BlockFiles unit := fun f =>
  if chunks nPos chunk <? chunks nSize chunk then
    let f1 := if fPruneMode then mkBlockFiles (vinfoBlockFile f) (nLastBlockFile f) (setDirtyFileInfo f) true else f in
    if CheckDiskSpace (u32 (u32 (chunks nSize chunk * chunk) - nPos)) then (Pass tt, f1)
    else (Fail (FailError "out of disk space"), f1)
  else (Pass tt, f).

Definition mark_dirty_file (nFile : Z) : scheck BlockFiles unit := fun f =>
  (Pass tt, mkBlockFiles (vinfoBlockFile f) (nLastBlockFile f) ({[nFile]} ∪ setDirtyFileInfo f) (fCheckForPruning f)).

(** [pos] is read when the position is known ([fKnown]).  Flushing the file
    that is left is not modelled. *)
Definition FindBlockPos (pos : CDiskBlockPos) (nAddSize nHeight nTime : Z) (fKnown : bool) : scheck BlockFiles CDiskBlockPos :=
  r ← action (fun f =>
        let nFile := Z.to_nat (u32 (if fKnown then dp_nFile pos else nLastBlockFile f)) in
        let v := grow_files (vinfoBlockFile f) nFile in
        r ← (if fKnown then Ok (nFile, v) else find_file (S (length v)) v nFile nAddSize);
        let '(nFile, v) := r in
        i ← index_or_abort v nFile;
        let pos' := if fKnown then pos else mkDiskPos (Z.of_nat nFile) (fi_nSize i) in
        let i1 := CBlockFileInfo_AddBlock i nHeight nTime in
        let nSize := if fKnown then Z.max (u32 (dp_nPos pos + nAddSize)) (fi_nSize i1) else u32 (fi_nSize i1 + nAddSize) in
        Ok (pos', nFile, nSize, mkBlockFiles (<[nFile := fi_with_size i1 nSize]> v) (Z.of_nat nFile) (setDirtyFileInfo f) (fCheckForPruning f)));
  let '(pos', nFile, nSize) := r in
  _ ← (if fKnown then mret tt else allocate (dp_nPos pos') nSize BLOCKFILE_CHUNK_SIZE);
  _ ← mark_dirty_file (Z.of_nat nFile);
  mret pos'.

Definition FindUndoPos (nFile nAddSize : Z) : scheck BlockFiles CDiskBlockPos :=
  r ← action (fun f =>
        i ← index_or_abort (vinfoBlockFile f) (Z.to_nat nFile);
        let nNewSize := u32 (fi_nUndoSize i + nAddSize) in
        Ok (fi_nUndoSize i, nNewSize,
            mkBlockFiles (<[Z.to_nat nFile := fi_with_undo_size i nNewSize]> (vinfoBlockFile f)) (nLastBlockFile f)
              ({[nFile]} ∪ setDirtyFileInfo f) (fCheckForPruning f)));
  let '(nPos, nNewSize) := r in
  _ ← allocate nPos nNewSize UNDOFILE_CHUNK_SIZE;
  mret (mkDiskPos nFile nPos).

(** ** Pruning *)

Definition CalculateCurrentUsage (v : list CBlockFileInfo) : Z :=
  foldl (fun retval file => u64 (retval + u32 (fi_nSize file + fi_nUndoSize file))) 0 v.

Definition bi_pruned (b : CBlockIndex) : CBlockIndex :=
  mkIndex (bi_pprev b) (bi_pskip b) (bi_nHeight b) 0 0 0 (bi_nChainWork b) (bi_nTx b) (bi_nChainTx b)
    (Z.land (Z.land (bi_nStatus b) (u32 (Z.lnot BLOCK_HAVE_DATA))) (u32 (Z.lnot BLOCK_HAVE_UNDO)))
    (bi_nCachedBranchId b) (bi_hashSproutAnchor b) (bi_hashFinalSproutRoot b) (bi_nSproutValue b)
    (bi_nChainSproutValue b) (bi_nSaplingValue b) (bi_nChainSaplingValue b) (bi_nVersion b) (bi_hashMerkleRoot b)
    (bi_hashFinalSaplingRoot b) (bi_nTime b) (bi_nBits b) (bi_nNonce b) (bi_nSolution b) (bi_nSequenceId b).

Definition prune_entry (fileNumber : Z) (p : uint256) (b : CBlockIndex) (s : ChainState) : ChainState :=
  if bi_nFile b =? fileNumber then
    with_unlinked (filter (fun x => ~ (Some x.1 = bi_pprev b /\ x.2 = p))) (with_dirty p (set_entry p (bi_pruned b) s))
  else s.
Definition PruneOneBlockFile (fileNumber : Z) (s : ChainState) (f : BlockFiles) : result (ChainState * BlockFiles) :=
  _ ← index_or_abort (vinfoBlockFile f) (Z.to_nat fileNumber);
  Ok (map_fold (prune_entry fileNumber) s (mapBlockIndex s),
      mkBlockFiles (<[Z.to_nat fileNumber := CBlockFileInfo_SetNull]> (vinfoBlockFile f)) (nLastBlockFile f)
        ({[fileNumber]} ∪ setDirtyFileInfo f) (fCheckForPruning f)).

Record PruneRun := mkPruneRun {
  run_index : ChainState;
  run_files : BlockFiles;
  run_toPrune : gset Z;
  run_usage : Z
}.

(** The loop over the files before the last one. *)
Fixpoint prune_loop (nPruneTarget nLastBlockWeCanPrune : Z) (numbers : list nat) (r : PruneRun) : result PruneRun :=
  match numbers with
  | [] => Ok r
  | n :: rest =>
      i ← index_or_abort (vinfoBlockFile (run_files r)) n;
      if fi_nSize i =? 0 then prune_loop nPruneTarget nLastBlockWeCanPrune rest r
      else if u64 (run_usage r + (BLOCKFILE_CHUNK_SIZE + UNDOFILE_CHUNK_SIZE)) <? nPruneTarget then Ok r
      else if nLastBlockWeCanPrune <? fi_nHeightLast i then prune_loop nPruneTarget nLastBlockWeCanPrune rest r
      else
        sf ← PruneOneBlockFile (Z.of_nat n) (run_index r) (run_files r);
        prune_loop nPruneTarget nLastBlockWeCanPrune rest
          (mkPruneRun sf.1 sf.2 ({[Z.of_nat n]} ∪ run_toPrune r) (u64 (run_usage r - u32 (fi_nSize i + fi_nUndoSize i))))
  end.

Definition FindFilesToPrune (nPruneTarget nPruneAfterHeight : Z) (s : ChainState) (f : BlockFiles) (setFilesToPrune : gset Z)
  : result PruneRun :=
  let r := mkPruneRun s f setFilesToPrune (CalculateCurrentUsage (vinfoBlockFile f)) in
  match Tip s with
  | None => Ok r
  | Some t =>
      tip ← get_entry s t;
      if (nPruneTarget =? 0) || (bi_nHeight tip <=? nPruneAfterHeight) then Ok r
      else
        let nLastBlockWeCanPrune := u32 (bi_nHeight tip - MIN_BLOCKS_TO_KEEP) in
        if nPruneTarget <=? u64 (run_usage r + (BLOCKFILE_CHUNK_SIZE + UNDOFILE_CHUNK_SIZE))
        then prune_loop nPruneTarget nLastBlockWeCanPrune (seq 0 (Z.to_nat (nLastBlockFile f))) r
        else Ok r
  end.
End Files.
