(* ===== verification/ChainShape.v ===== *)
(** * What updates of block index entries leave alone

    Most updates of an entry of [mapBlockIndex] change its status, counts or
    file position and not its place in the tree.  [shape] is the tree that is
    left when the other fields are dropped; everything that only walks the tree
    ([GetAncestor], [FindFork], [Contains], well-formedness) depends on the
    shape alone. *)
From stdpp Require Import prelude gmap strings list.
From S2P Require Import Prelude Transaction Serialize Block ArithUint256 ChainParams Chain Pow Checks ChainState.
#[local] Open Scope Z_scope.

Definition place (b : CBlockIndex) : option uint256 * option uint256 * Z := (bi_pprev b, bi_pskip b, bi_nHeight b).
Definition shape (m : BlockMap) : gmap uint256 (option uint256 * option uint256 * Z) := place <$> m.

Lemma place_eq b b' : place b = place b' -> bi_pprev b = bi_pprev b' /\ bi_pskip b = bi_pskip b' /\ bi_nHeight b = bi_nHeight b'.
Proof. unfold place. intros [= ? ? ?]. done. Qed.

Lemma shape_insert m p b b' : m !! p = Some b -> place b' = place b -> shape (<[p := b']> m) = shape m.
Proof. intros Hp E. unfold shape. rewrite fmap_insert. apply insert_id. by rewrite lookup_fmap, Hp, E. Qed.

Lemma shape_lookup m m' p b : shape m = shape m' -> m !! p = Some b -> exists b', m' !! p = Some b' /\ place b' = place b.
Proof.
  intros E Hp. assert (Hs : shape m' !! p = Some (place b)) by (rewrite <- E; unfold shape; by rewrite lookup_fmap, Hp).
  unfold shape in Hs. rewrite lookup_fmap in Hs. destruct (m' !! p) as [b'|]; [|done]. exists b'. split; [done|]. cbn in Hs. congruence.
Qed.

Lemma shape_None m m' p : shape m = shape m' -> m !! p = None -> m' !! p = None.
Proof.
  intros E Hp. destruct (m' !! p) as [b|] eqn:Hb; [|done]. symmetry in E.
  destruct (shape_lookup m' m p b E Hb) as (b' & H' & _). congruence.
Qed.

(** The entries of two maps of one shape at a key: both absent, or in the same
    place. *)
Lemma shape_cases m m' p : shape m = shape m' ->
  (m !! p = None /\ m' !! p = None)
  \/ exists b b', m !! p = Some b /\ m' !! p = Some b' /\ bi_pprev b' = bi_pprev b /\ bi_pskip b' = bi_pskip b /\ bi_nHeight b' = bi_nHeight b.
Proof.
  intros E. destruct (m !! p) as [b|] eqn:Hb.
  - destruct (shape_lookup m m' p b E Hb) as (b' & H' & Ep). apply place_eq in Ep as (? & ? & ?). right. by exists b, b'.
  - left. split; [done|]. by apply (shape_None m).
Qed.

Ltac shape_at E p :=
  let b := fresh "b" in let b' := fresh "b'" in let Hb := fresh "Hb" in let Hb' := fresh "Hb'" in
  let Ep := fresh "Ep" in let Es := fresh "Es" in let Eh := fresh "Eh" in
  destruct (shape_cases _ _ p E) as [[Hb Hb']|(b & b' & Hb & Hb' & Ep & Es & Eh)];
  [rewrite ?Hb, ?Hb'; try done|rewrite ?Hb, ?Hb'; mstep; cbn [mbind option_bind]; rewrite ?Ep, ?Es, ?Eh].

Section Shape.
Context (m m' : BlockMap) (E : shape m = shape m').

Lemma prev_n_shape n p : prev_n n m p = prev_n n m' p.
Proof using E. revert p. induction n as [|n IH]; intros p; [done|]. cbn [prev_n]. shape_at E p. destruct (bi_pprev b) as [q|]; [|done]. apply IH. Qed.

Lemma ancestor_shape p h : ancestor_at m p h = ancestor_at m' p h.
Proof using E. unfold ancestor_at. shape_at E p. destruct (_ && _); [|done]. apply prev_n_shape. Qed.

Lemma is_ancestor_shape q p : is_ancestor m q p <-> is_ancestor m' q p.
Proof using E.
  unfold is_ancestor. destruct (shape_cases _ _ q E) as [[Hb Hb']|(b & b' & Hb & Hb' & _ & _ & Eh)]; rewrite Hb, Hb'; [naive_solver|].
  split; intros (x & [= <-] & Ha); [exists b'|exists b]; (split; [done|]); [by rewrite <- ancestor_shape, Eh|by rewrite ancestor_shape, <- Eh].
Qed.

Lemma tree_wf_shape : tree_wf m -> tree_wf m'.
Proof using E.
  intros W. assert (Hback : forall p b', m' !! p = Some b' -> exists b, m !! p = Some b /\ place b = place b')
    by (intros p b'; apply shape_lookup; done). split.
  - intros p b' Hp. destruct (Hback p b' Hp) as (b & Hb & Ep). apply place_eq in Ep as (_ & _ & <-). by apply (tw_height m W p).
  - intros p b' Hp. destruct (Hback p b' Hp) as (b & Hb & Ep). apply place_eq in Ep as (<- & _ & <-).
    pose proof (tw_prev m W p b Hb) as Hpr. destruct (bi_pprev b) as [q|]; [|done]. destruct Hpr as (bq & Hq & Hh).
    destruct (shape_lookup m m' q bq E Hq) as (bq' & Hq' & Eq). apply place_eq in Eq as (_ & _ & Eq).
    exists bq'. split; [done|lia].
  - intros p b' s Hp. destruct (Hback p b' Hp) as (b & Hb & Ep). apply place_eq in Ep as (_ & <- & <-).
    rewrite <- ancestor_shape. by apply (tw_skip m W p).
Qed.

Lemma is_branch_shape c p : is_branch m c p -> is_branch m' c p.
Proof using E.
  intros (b & Hp & Hl & Hc). destruct (shape_lookup m m' p b E Hp) as (b' & Hp' & Ep). apply place_eq in Ep as (_ & _ & Eh).
  exists b'. rewrite Eh. split_and!; [done..|]. intros i Hi. rewrite <- ancestor_shape. by apply Hc.
Qed.

Lemma chain_wf_shape c : chain_wf m c -> chain_wf m' c.
Proof using E. intros [->|[p Hp]]; [by left|right]. exists p. by apply is_branch_shape. Qed.

Lemma ancestor_walk_shape fuel : forall p hw h, ancestor_walk fuel m p hw h = ancestor_walk fuel m' p hw h.
Proof using E.
  induction fuel as [|fuel IH]; intros p hw h; cbn [ancestor_walk]; destruct (negb _); try done.
  unfold deref. shape_at E p. destruct (bi_pskip b) as [s|], (bi_pprev b) as [q|]; by rewrite ?IH.
Qed.

Lemma GetAncestor_shape p h : GetAncestor m p h = GetAncestor m' p h.
Proof using E. unfold GetAncestor, deref. shape_at E p. destruct (_ || _); [done|]. by rewrite ancestor_walk_shape. Qed.

Lemma Contains_shape c p : CChain_Contains m c p = CChain_Contains m' c p.
Proof using E. unfold CChain_Contains, deref. by shape_at E p. Qed.

Lemma fork_loop_shape c fuel : forall p, fork_loop fuel m c p = fork_loop fuel m' c p.
Proof using E.
  induction fuel as [|fuel IH]; intros [p|]; cbn [fork_loop]; try done; unfold deref; shape_at E p; case_bool_decide; done.
Qed.

Lemma FindFork_shape c p : CChain_FindFork m c p = CChain_FindFork m' c p.
Proof using E.
  unfold CChain_FindFork, deref. shape_at E p. rewrite GetAncestor_shape. destruct (CChain_Height c <? bi_nHeight b).
  - destruct (GetAncestor m' p (CChain_Height c)); mstep; try done. apply fork_loop_shape.
  - mstep. apply fork_loop_shape.
Qed.

Lemma protected_from_shape pr c p : protected_from pr m c p = protected_from pr m' c p.
Proof using E.
  unfold protected_from. destruct (CChain_Tip c) as [t|]; [|done]. unfold deref. shape_at E t.
  destruct (_ && _); [|done]. unfold reorg_length. rewrite FindFork_shape.
  destruct (CChain_FindFork m' c p) as [[q|]| |]; mstep; try done; [|by rewrite Eh].
  unfold deref. destruct (shape_cases _ _ q E) as [[-> ->]|(x & x' & -> & -> & _ & _ & Ex)]; [done|]. mstep. by rewrite Eh, Ex.
Qed.
End Shape.
