(* ===== verification/BestChain.v ===== *)
(** * The best chain is found, and no block is lost

    The invariant of the block index that main.cpp's [CheckBlockIndex] asserts
    in part, that every operation of ChainState.v keeps it, and what two of
    them achieve: [FindMostWorkChain] ends with the best usable candidate, and
    [ReceivedBlockTransactions] links every block that waited. *)
From stdpp Require Import prelude gmap strings list.
From S2P Require Import Prelude Transaction Serialize Block ArithUint256 ChainParams Chain Pow Checks ChainState ChainShape.
#[local] Open Scope Z_scope.

(** ** The invariant *)

(** The transactions of a block and its predecessors. *)
Fixpoint txs_to (n : nat) (m : BlockMap) (p : uint256) : Z :=
  match m !! p with
  | None => 0
  | Some b => bi_nTx b + match n, bi_pprev b with S n', Some q => txs_to n' m q | _, _ => 0 end
  end.

(** [nChainTx]: set when all predecessors have had their transactions, and
    then the number of transactions in the chain up to the block. *)
Record counted (m : BlockMap) (p : uint256) (b : CBlockIndex) : Prop := {
  ct_prev : match bi_pprev b with Some q => exists bq, m !! q = Some bq /\ bi_nChainTx bq <> 0 | None => True end;
  ct_tx : 0 < bi_nTx b;
  ct_sum : bi_nChainTx b = txs_to (Z.to_nat (bi_nHeight b)) m p
}.

Record index_wf (m : BlockMap) : Prop := {
  ix_tree : tree_wf m;
  ix_work : forall p b, m !! p = Some b -> wf (bi_nChainWork b);
  ix_count : forall p b, m !! p = Some b -> bi_nChainTx b <> 0 -> counted m p b;
  ix_nonneg : forall p b, m !! p = Some b -> 0 <= bi_nTx b
}.

Record state_wf (s : ChainState) : Prop := {
  sw_index : index_wf (mapBlockIndex s);
  sw_chain : chain_wf (mapBlockIndex s) (chainActive s);
  sw_candidates : forall p, p ∈ setBlockIndexCandidates s -> exists b, mapBlockIndex s !! p = Some b /\ bi_nChainTx b <> 0;
  sw_unlinked : forall q p, (q, p) ∈ mapBlocksUnlinked s ->
    exists b, mapBlockIndex s !! p = Some b /\ bi_pprev b = Some q /\ 0 < bi_nTx b;
  sw_header : forall p, pindexBestHeader s = Some p -> is_Some (mapBlockIndex s !! p);
  sw_invalid : forall p, pindexBestInvalid s = Some p -> is_Some (mapBlockIndex s !! p)
}.

(** Blocks with [nChainTx] have only predecessors with it. *)
Lemma counted_ancestors m p b : index_wf m -> m !! p = Some b -> bi_nChainTx b <> 0 ->
  forall q bq, is_ancestor m q p -> m !! q = Some bq -> bi_nChainTx bq <> 0.
Proof.
  intros W Hp Hn q bq (bq' & Hq & Ha) Hq'. rewrite Hq in Hq'. injection Hq' as ->.
  pose proof (ix_tree m W) as Wt. destruct (ancestor_Some m Wt p b _ q Hp Ha) as (Hh & _).
  rewrite (ancestor_prev m Wt p b _ (Z.to_nat (bi_nHeight b - bi_nHeight bq))) in Ha by (done || lia). clear Hh.
  revert Ha. generalize (Z.to_nat (bi_nHeight b - bi_nHeight bq)) as n. intros n. revert p b Hp Hn.
  induction n as [|n IH]; intros p b Hp Hn Ha; [by simplify_eq/=|].
  cbn [prev_n] in Ha. rewrite Hp in Ha. cbn in Ha. pose proof (ct_prev _ _ _ (ix_count m W p b Hp Hn)) as Hpr.
  destruct (bi_pprev b) as [r|]; [|done]. destruct Hpr as (br & Hr & Hnr). by apply (IH r br).
Qed.

(** ** Updates that keep counts, work and place *)

(** The entry [b'] in place of [b]: same place, work and counts. *)
Definition same_counts (b b' : CBlockIndex) : Prop :=
  place b' = place b /\ bi_nChainWork b' = bi_nChainWork b /\ bi_nTx b' = bi_nTx b /\ bi_nChainTx b' = bi_nChainTx b.

Lemma with_status_counts b st : same_counts b (bi_with_status b st).
Proof. done. Qed.

(** Two maps whose entries agree in place, work and counts. *)
Definition same_index (m m' : BlockMap) : Prop :=
  forall p, match m !! p, m' !! p with Some b, Some b' => same_counts b b' | None, None => True | _, _ => False end.

#[global] Instance same_index_refl : Reflexive same_index.
Proof. intros m p. by destruct (m !! p). Qed.
#[global] Instance same_index_trans : Transitive same_index.
Proof.
  intros m1 m2 m3 H1 H2 p. specialize (H1 p). specialize (H2 p). unfold same_counts in *.
  destruct (m1 !! p), (m2 !! p), (m3 !! p); try done. intuition congruence.
Qed.

Lemma same_index_sym m m' : same_index m m' -> same_index m' m.
Proof. intros H p. specialize (H p). unfold same_counts in *. destruct (m !! p), (m' !! p); try done. intuition congruence. Qed.

Lemma same_index_insert m p b b' : m !! p = Some b -> same_counts b b' -> same_index m (<[p := b']> m).
Proof.
  intros Hp Hb q. destruct (decide (q = p)) as [->|]; [by rewrite Hp, lookup_insert_eq|].
  rewrite lookup_insert_ne by done. by destruct (m !! q).
Qed.

Lemma same_index_shape m m' : same_index m m' -> shape m = shape m'.
Proof.
  intros H. apply map_eq. intros p. unfold shape. rewrite !lookup_fmap. specialize (H p). unfold same_counts in H.
  destruct (m !! p), (m' !! p); try done. cbn. f_equal. intuition congruence.
Qed.

Lemma same_index_lookup m m' p b' : same_index m m' -> m' !! p = Some b' -> exists b, m !! p = Some b /\ same_counts b b'.
Proof. intros H Hp. specialize (H p). rewrite Hp in H. destruct (m !! p) as [b|]; [by exists b|done]. Qed.

(** The count depends on predecessors and block sizes only. *)
Lemma txs_to_ext m m' : (forall p, match m !! p, m' !! p with
    | Some b, Some b' => bi_pprev b' = bi_pprev b /\ bi_nTx b' = bi_nTx b | None, None => True | _, _ => False end) ->
  forall n p, txs_to n m p = txs_to n m' p.
Proof.
  intros H n. induction n as [|n IH]; intros p; cbn [txs_to]; specialize (H p);
    (destruct (m !! p) as [b|], (m' !! p) as [b'|]; try done); destruct H as (Ep & Et); rewrite Et, ?Ep; [done|].
  destruct (bi_pprev b); [by rewrite IH|done].
Qed.

Lemma txs_to_same m m' n : same_index m m' -> forall p, txs_to n m p = txs_to n m' p.
Proof.
  intros H. apply txs_to_ext. intros p. specialize (H p). unfold same_counts in H. destruct (m !! p), (m' !! p); try done.
  destruct H as (Ep & _ & Et & _). by apply place_eq in Ep as (? & _ & _).
Qed.

Lemma index_wf_same m m' : index_wf m -> same_index m m' -> index_wf m'.
Proof.
  intros W H. split.
  - apply (tree_wf_shape m); [by apply same_index_shape|apply W].
  - intros p b' Hp. destruct (same_index_lookup m m' p b' H Hp) as (b & Hb & _ & -> & _). by apply (ix_work m W p).
  - intros p b' Hp Hn. destruct (same_index_lookup m m' p b' H Hp) as (b & Hb & Ep & _ & Et & Ec). rewrite Ec in Hn.
    apply place_eq in Ep as (Epp & _ & Eh). destruct (ix_count m W p b Hb Hn) as [H1 H2 H3]. split; [|lia|].
    + rewrite Epp. destruct (bi_pprev b) as [q|]; [|done]. destruct H1 as (bq & Hq & Hnq). specialize (H q). rewrite Hq in H.
      destruct (m' !! q) as [bq'|]; [|done]. exists bq'. split; [done|]. unfold same_counts in H. intuition congruence.
    + by rewrite Ec, Eh, <- (txs_to_same m m').
  - intros p b' Hp. destruct (same_index_lookup m m' p b' H Hp) as (b & Hb & _ & _ & -> & _). by apply (ix_nonneg m W p).
Qed.

(** A state whose entries keep place, work and counts, with the same chain,
    no new candidates and pointers into the map. *)
Lemma state_wf_same s s' : state_wf s -> same_index (mapBlockIndex s) (mapBlockIndex s') -> chainActive s' = chainActive s ->
  setBlockIndexCandidates s' ⊆ setBlockIndexCandidates s ->
  (forall q p, (q, p) ∈ mapBlocksUnlinked s' -> exists b, mapBlockIndex s' !! p = Some b /\ bi_pprev b = Some q /\ 0 < bi_nTx b) ->
  pindexBestHeader s' = pindexBestHeader s ->
  (forall p, pindexBestInvalid s' = Some p -> is_Some (mapBlockIndex s' !! p)) -> state_wf s'.
Proof.
  intros W H Ec Hc Hu Eh Hi.
  assert (Hkeep : forall p b, mapBlockIndex s !! p = Some b -> exists b', mapBlockIndex s' !! p = Some b' /\ same_counts b b').
  { intros p b Hp. specialize (H p). rewrite Hp in H. destruct (mapBlockIndex s' !! p) as [b'|]; [by exists b'|done]. }
  split; [by apply (index_wf_same (mapBlockIndex s)); [apply W|]|rewrite Ec| |done| |done].
  - apply (chain_wf_shape (mapBlockIndex s)); [by apply same_index_shape|apply W].
  - intros p Hp. destruct (sw_candidates s W p (Hc p Hp)) as (b & Hb & Hn).
    destruct (Hkeep p b Hb) as (b' & Hb' & _ & _ & _ & En). exists b'. split; [done|congruence].
  - intros p Ep. rewrite Eh in Ep. destruct (sw_header s W p Ep) as [b Hb]. destruct (Hkeep p b Hb) as (b' & Hb' & _). eauto.
Qed.

(** ** Usable candidates *)

Definition contains (m : BlockMap) (c : CChain) (t : uint256) : Prop := CChain_Contains m c t = Ok true.

(** A block that may become part of the active chain: not failed, its data at
    hand, and not behind a reorganisation that is too long. *)
Definition usable_block (pr : Protection) (m : BlockMap) (c : CChain) (t : uint256) : Prop :=
  exists b, m !! t = Some b /\ has_status (bi_nStatus b) BLOCK_FAILED_MASK = false
    /\ has_status (bi_nStatus b) BLOCK_HAVE_DATA = true /\ protected_from pr m c t = Ok false.

(** All blocks from [p] down to the active chain are. *)
Definition usable (pr : Protection) (m : BlockMap) (c : CChain) (p : uint256) : Prop :=
  forall t, is_ancestor m t p -> ~ contains m c t -> usable_block pr m c t.

Lemma Contains_total m c p : is_Some (m !! p) -> exists v, CChain_Contains m c p = Ok v.
Proof. intros [b Hp]. unfold CChain_Contains, deref. rewrite Hp. mstep. eauto. Qed.

Lemma branch_Tip m c p : tree_wf m -> is_branch m c p -> CChain_Tip c = Some p.
Proof.
  intros W (b & Hp & Hl & Hc). pose proof (tw_height m W _ _ Hp). unfold CChain_Tip. rewrite last_lookup, Hc by lia.
  replace (Z.of_nat (Nat.pred (length c))) with (bi_nHeight b) by lia. cbn. by apply ancestor_self.
Qed.

(** Below a block of the chain, all blocks are in it. *)
Lemma contains_ancestor m c p q : tree_wf m -> chain_wf m c -> contains m c p -> is_ancestor m q p -> contains m c q.
Proof.
  intros W Hc Hp (bq & Hq & Ha). unfold contains, CChain_Contains, deref in *.
  destruct (m !! p) as [bp|] eqn:Hmp; [|done]. rewrite Hq. mstep. cbn in Hp. injection Hp as Hp. apply bool_decide_eq_true in Hp.
  f_equal. apply bool_decide_eq_true. destruct (ancestor_Some m W p bp _ q Hmp Ha) as (Hh & _). destruct Hc as [->|[t Ht]].
  - rewrite CChain_at_spec in Hp. destruct (0 <=? _); done.
  - rewrite (branch_at m W c t) in Hp |- * by done. pose proof Ht as (bt & Hmt & _).
    by rewrite (ancestor_trans m W t bt p bp) by (done || lia).
Qed.

Lemma protected_total pr m c p : tree_wf m -> chain_wf m c -> is_Some (m !! p) -> exists v, protected_from pr m c p = Ok v.
Proof.
  intros W Hc [b Hp]. unfold protected_from. destruct Hc as [->|[t Ht]]; [by eexists|].
  rewrite (branch_Tip m c t W Ht). pose proof Ht as (bt & Hmt & _). unfold deref. rewrite Hmt. mstep.
  destruct (_ && _); [|by eexists]. unfold reorg_length. destruct (FindFork_ok m W c t p b Ht Hp) as (r & -> & Hr). mstep.
  destruct r as [f|]; mstep; [|by eexists]. destruct Hr as ((bf & Hf & _) & _). unfold deref. rewrite Hf. mstep. by eexists.
Qed.

(** An ancestor is the block itself or an ancestor of its predecessor. *)
Lemma is_ancestor_step m p b t : tree_wf m -> m !! p = Some b ->
  is_ancestor m t p <-> t = p \/ exists q, bi_pprev b = Some q /\ is_ancestor m t q.
Proof.
  intros W Hp. split.
  - intros (bt & Ht & Ha). destruct (ancestor_Some m W p b _ t Hp Ha) as (Hh & _).
    destruct (decide (bi_nHeight bt = bi_nHeight b)) as [E|]; [left; rewrite E, (ancestor_self m W p b Hp) in Ha; congruence|].
    right. pose proof (tw_prev m W p b Hp) as Hpr. destruct (bi_pprev b) as [q|] eqn:Eq; [|lia]. destruct Hpr as (bq & Hq & Hhq).
    exists q. split; [done|]. exists bt. split; [done|]. pose proof (ancestor_pprev m W p b q Hp Eq) as Hpq.
    replace (bi_nHeight b - 1) with (bi_nHeight bq) in Hpq by lia. by rewrite (ancestor_trans m W p b q bq) in Ha by (done || lia).
  - intros [->|(q & Eq & Ha)]; [apply is_ancestor_refl; eauto|]. pose proof (tw_prev m W p b Hp) as Hpr. rewrite Eq in Hpr.
    destruct Hpr as (bq & Hq & Hhq). apply (is_ancestor_trans m W p q); [eauto| |done]. exists bq. split; [done|].
    replace (bi_nHeight bq) with (bi_nHeight b - 1) by lia. by apply (ancestor_pprev m W).
Qed.

(** The walk of [FindMostWorkChain] decides whether a candidate is usable, and
    finds the first block that is not. *)
Lemma test_path_ok pr m c : tree_wf m -> chain_wf m c -> forall fuel p b, m !! p = Some b -> bi_nHeight b < Z.of_nat fuel ->
  (forall t bt, is_ancestor m t p -> m !! t = Some bt -> bi_nChainTx bt <> 0) ->
  exists w, test_path fuel pr m c (Some p) = Ok w /\
    match w with
    | AllUsable => usable pr m c p
    | Unusable t failed => is_ancestor m t p /\ ~ contains m c t /\ ~ usable_block pr m c t
    end.
Proof.
  intros W Hc. induction fuel as [|fuel IH]; intros p b Hp Hf Hn; pose proof (tw_height m W _ _ Hp); [lia|].
  cbn [test_path]. destruct (Contains_total m c p) as [v Ev]; [eauto|]. rewrite Ev. mstep. destruct v.
  { eexists. split; [done|]. intros t Ht Hnt. exfalso. apply Hnt. by apply (contains_ancestor m c p). }
  assert (Hself : is_ancestor m p p) by (apply is_ancestor_refl; eauto). unfold deref. rewrite Hp. mstep.
  rewrite (proj2 (Z.eqb_neq _ _)) by by apply (Hn p b). cbn [negb orb]. mstep.
  destruct (protected_total pr m c p W Hc) as [v Epr]; [eauto|]. rewrite Epr. mstep.
  assert (Hnc : ~ contains m c p) by (unfold contains; congruence).
  destruct (_ || v) eqn:Ebad.
  { eexists. split; [done|]. split; [done|]. split; [done|]. intros (b' & Hb' & H1 & H2 & H3). simplify_eq.
    rewrite H1, H2 in Ebad. rewrite Epr in H3. injection H3 as ->. done. }
  apply orb_false_iff in Ebad as [Ebad ->]. apply orb_false_iff in Ebad as [E1 E2]. apply negb_false_iff in E2.
  assert (Hu : usable_block pr m c p) by by exists b.
  pose proof (tw_prev m W p b Hp) as Hpr. destruct (bi_pprev b) as [q|] eqn:Eq.
  - destruct Hpr as (bq & Hq & Hhq).
    assert (Hup : forall t, is_ancestor m t q -> is_ancestor m t p) by (intros t Ht; apply (is_ancestor_step m p b t W Hp); eauto).
    destruct (IH q bq Hq) as (w & E & Hw); [lia|intros t bt Ht; apply Hn; by apply Hup|]. exists w. split; [exact E|].
    destruct w; [|naive_solver]. intros t Ht Hnt. apply (is_ancestor_step m p b t W Hp) in Ht as [->|(q' & Eq' & Ht)]; [done|].
    simplify_eq. by apply Hw.
  - exists AllUsable. split; [by destruct fuel|]. intros t Ht Hnt.
    apply (is_ancestor_step m p b t W Hp) in Ht as [->|(q' & Eq' & Ht)]; [done|congruence].
Qed.

(** ** Rounds that remove unusable candidates *)

Lemma has_status_lor st flag mask : Z.land flag mask <> 0 -> has_status (Z.lor st flag) mask = true.
Proof.
  intros H. unfold has_status. apply negb_true_iff, Z.eqb_neq. rewrite Z.land_lor_distr_l. intros E.
  by apply Z.lor_eq_0_iff in E as [_ E].
Qed.

(** An entry as it was, or marked failed and on an unusable branch. *)
Definition entry_kept (unusable : Prop) (o o' : option CBlockIndex) : Prop :=
  match o, o' with
  | Some b, Some b' => b' = b \/ (exists st, b' = bi_with_status b st /\ has_status st BLOCK_FAILED_MASK = true /\ unusable)
  | None, None => True
  | _, _ => False
  end.

(** The state [s] after rounds that started in [s0]: only unusable candidates
    are gone, and only blocks of unusable branches are marked. *)
Record narrowed (pr : Protection) (s0 s : ChainState) : Prop := {
  nw_entry : forall q, entry_kept (~ usable pr (mapBlockIndex s0) (chainActive s0) q) (mapBlockIndex s0 !! q) (mapBlockIndex s !! q);
  nw_chain : chainActive s = chainActive s0;
  nw_sub : setBlockIndexCandidates s ⊆ setBlockIndexCandidates s0;
  nw_dropped : forall q, q ∈ setBlockIndexCandidates s0 -> q ∉ setBlockIndexCandidates s ->
    ~ usable pr (mapBlockIndex s0) (chainActive s0) q;
  nw_unlinked : forall q p, (q, p) ∈ mapBlocksUnlinked s -> (q, p) ∈ mapBlocksUnlinked s0
    \/ exists b, mapBlockIndex s0 !! p = Some b /\ bi_pprev b = Some q /\ 0 < bi_nTx b;
  nw_header : pindexBestHeader s = pindexBestHeader s0;
  nw_invalid : forall p, pindexBestInvalid s = Some p -> is_Some (mapBlockIndex s0 !! p)
}.

Section Narrow.
Context (pr : Protection) (s0 : ChainState) (W0 : state_wf s0).
Abbreviation m0 := (mapBlockIndex s0).
Abbreviation usable0 := (usable pr (mapBlockIndex s0) (chainActive s0)).
Lemma Wt : tree_wf m0.
Proof using W0. apply W0. Qed.

Lemma narrowed_refl : narrowed pr s0 s0.
Proof using W0.
  split; try done; [|by left|apply W0]. intros q. unfold entry_kept. destruct (m0 !! q); [by left|done].
Qed.

Lemma narrowed_same s : narrowed pr s0 s -> same_index m0 (mapBlockIndex s).
Proof using W0.
  intros H q. pose proof (nw_entry _ _ _ H q) as E. unfold entry_kept in E. destruct (m0 !! q), (mapBlockIndex s !! q); try done.
  by destruct E as [->|(st & -> & _)].
Qed.

Lemma narrowed_lookup s p b : narrowed pr s0 s -> m0 !! p = Some b -> exists b', mapBlockIndex s !! p = Some b' /\ place b' = place b.
Proof using W0. intros H. apply shape_lookup, same_index_shape. by apply narrowed_same. Qed.

Lemma narrowed_wf s : narrowed pr s0 s -> state_wf s.
Proof using W0.
  intros H. pose proof (narrowed_same s H) as Hs. apply (state_wf_same s0); [done|done|apply H|apply H| |apply H|].
  - intros q p Hin.
    assert (Hb : exists b, m0 !! p = Some b /\ bi_pprev b = Some q /\ 0 < bi_nTx b)
      by (destruct (nw_unlinked _ _ _ H q p Hin) as [Hin0|?]; [by apply (sw_unlinked _ W0)|done]).
    destruct Hb as (b & Hb & Ep & Ht). specialize (Hs p). rewrite Hb in Hs. destruct (mapBlockIndex s !! p) as [b'|]; [|done].
    destruct Hs as (E1 & _ & E2 & _). apply place_eq in E1 as (E1 & _ & _). exists b'. split_and!; [done|congruence|lia].
  - intros p Ep. destruct (nw_invalid _ _ _ H p Ep) as [b Hb]. destruct (narrowed_lookup s p b H Hb) as (b' & Hb' & _). eauto.
Qed.

(** Usable candidates stay usable, and no other becomes so. *)
Lemma narrowed_usable s p : narrowed pr s0 s -> usable pr (mapBlockIndex s) (chainActive s) p <-> usable0 p.
Proof using W0.
  intros H. pose proof (same_index_shape _ _ (narrowed_same s H)) as Es. rewrite (nw_chain _ _ _ H).
  assert (Hb : forall t, contains (mapBlockIndex s) (chainActive s0) t <-> contains m0 (chainActive s0) t).
  { intros t. unfold contains. by rewrite (Contains_shape _ _ Es). }
  assert (Ha : forall t, is_ancestor (mapBlockIndex s) t p <-> is_ancestor m0 t p) by (intros t; symmetry; by apply is_ancestor_shape).
  unfold usable. split; intros Hu t Ht Hnt.
  - destruct (Hu t) as (b' & Hb' & H1 & H2 & H3); [by apply Ha|by rewrite Hb|].
    pose proof (nw_entry _ _ _ H t) as E. rewrite Hb' in E. destruct (m0 !! t) as [b|] eqn:Hm; [|done].
    destruct E as [->|(st & -> & Hst & _)]; [|by cbn in H1; rewrite Hst in H1].
    exists b. split_and!; try done. by rewrite (protected_from_shape _ _ Es).
  - apply Ha in Ht. rewrite Hb in Hnt. destruct (Hu t Ht Hnt) as (b & Hb' & H1 & H2 & H3).
    pose proof (nw_entry _ _ _ H t) as E. rewrite Hb' in E. destruct (mapBlockIndex s !! t) as [b'|] eqn:Hm; [|done].
    destruct E as [->|(st & -> & Hst & Hbad)].
    + exists b. split_and!; try done. by rewrite <- (protected_from_shape _ _ Es).
    + destruct Hbad. intros x Hx. apply Hu. destruct (decide (is_Some (m0 !! p))) as [Hp|Hp].
      * by apply (is_ancestor_trans m0 Wt p t).
      * destruct Ht as (bt & _ & Hpt). unfold ancestor_at in Hpt. apply eq_None_not_Some in Hp. by rewrite Hp in Hpt.
Qed.

Lemma narrowed_drop s p : narrowed pr s0 s -> ~ usable0 p -> narrowed pr s0 (with_candidates (fun c => c ∖ {[p]}) s).
Proof using W0.
  intros H Hp. destruct H. split; try done; cbn [with_candidates setBlockIndexCandidates].
  - set_solver.
  - intros q Hq Hnq. destruct (decide (q = p)) as [->|]; [done|]. apply nw_dropped0; set_solver.
Qed.

Lemma narrowed_failed s p b : narrowed pr s0 s -> ~ usable0 p -> mapBlockIndex s !! p = Some b ->
  narrowed pr s0 (set_entry p (bi_with_status b (Z.lor (bi_nStatus b) BLOCK_FAILED_CHILD)) s).
Proof using W0.
  intros H Hp Hb. destruct H. split; try done. intros q. cbn [set_entry with_map mapBlockIndex].
  destruct (decide (q = p)) as [->|]; [|rewrite lookup_insert_ne by done; apply nw_entry0]. rewrite lookup_insert_eq.
  specialize (nw_entry0 p). rewrite Hb in nw_entry0. unfold entry_kept in *. destruct (m0 !! p) as [b0|]; [|done]. right.
  exists (Z.lor (bi_nStatus b) BLOCK_FAILED_CHILD).
  split_and!; [by destruct nw_entry0 as [->|(st & -> & _)]|by apply has_status_lor|done].
Qed.

Lemma narrowed_unlink s q p b : narrowed pr s0 s -> m0 !! p = Some b -> bi_pprev b = Some q -> 0 < bi_nTx b ->
  narrowed pr s0 (with_unlinked (fun l => l ++ [(q, p)]) s).
Proof using W0.
  intros H Hb Hq Ht. destruct H. split; try done. cbn [with_unlinked mapBlocksUnlinked]. intros x y Hin.
  apply elem_of_app in Hin as [Hin|Hin]; [by apply nw_unlinked0|]. apply list_elem_of_singleton in Hin as [= -> ->]. right. eauto.
Qed.

(** [remove_chain] from [p] down to the unusable block [t]. *)
Lemma remove_chain_ok failed t bt : m0 !! t = Some bt -> (forall x, is_ancestor m0 t x -> ~ usable0 x) ->
  forall fuel p b s, narrowed pr s0 s -> m0 !! p = Some b -> bi_nChainTx b <> 0 -> is_ancestor m0 t p ->
  bi_nHeight b - bi_nHeight bt <= Z.of_nat fuel ->
  exists s', remove_chain fuel failed t p s = Ok s' /\ narrowed pr s0 s'
    /\ setBlockIndexCandidates s' ⊆ setBlockIndexCandidates s /\ (p <> t -> p ∉ setBlockIndexCandidates s').
Proof using W0.
  intros Ht Hbad. induction fuel as [|fuel IH]; intros p b s H Hp Hn Ha Hf; cbn [remove_chain].
  all: destruct (Z.eqb_spec t p) as [->|Hne]; [by exists s; split_and!|].
  all: pose proof (proj1 (is_ancestor_step m0 p b t Wt Hp) Ha) as [->|(q & Eq & Hq)]; [done|].
  all: pose proof (tw_prev m0 Wt p b Hp) as Hpr; rewrite Eq in Hpr; destruct Hpr as (bq & Hmq & Hhq).
  { destruct Hq as (bt' & Ht' & Htq). simplify_eq. destruct (ancestor_Some m0 Wt q bq _ t Hmq Htq). lia. }
  assert (Hup : ~ usable0 p) by by apply Hbad.
  destruct (narrowed_lookup s p b H Hp) as (b' & Hb' & Epl). apply place_eq in Epl as (Epp & _ & _).
  pose proof (ix_count _ (sw_index _ W0) p b Hp Hn) as [Hcp Htx _]. rewrite Eq in Hcp.
  destruct Hcp as (bq' & Hq' & Hnq). rewrite Hmq in Hq'. injection Hq' as <-.
  unfold get_entry, deref. rewrite Hb'. mstep. rewrite Epp, Eq.
  assert (Hs1 : exists s1, (if failed then add_status BLOCK_FAILED_CHILD p s else Ok (with_unlinked (fun l => l ++ [(q, p)]) s)) = Ok s1
    /\ narrowed pr s0 s1 /\ setBlockIndexCandidates s1 = setBlockIndexCandidates s).
  { destruct failed; eexists.
    - unfold add_status, get_entry, deref. rewrite Hb'. mstep. split_and!; [done|by apply narrowed_failed|done].
    - split_and!; [done|by eapply narrowed_unlink|done]. }
  destruct Hs1 as (s1 & -> & H1 & Ec). mstep.
  destruct (IH q bq (with_candidates (fun c => c ∖ {[p]}) s1)) as (s' & E & H' & Hsub & _); [by apply narrowed_drop|done..|lia|].
  exists s'. split; [exact E|]. split; [done|]. cbn [with_candidates setBlockIndexCandidates] in Hsub. rewrite Ec in Hsub. set_solver.
Qed.
End Narrow.

(** ** New entries *)

Lemma txs_to_fresh m p b : tree_wf m -> m !! p = None -> forall n x, is_Some (m !! x) -> txs_to n m x = txs_to n (<[p := b]> m) x.
Proof.
  intros W Hp. induction n as [|n IH]; intros x [bx Hx]; cbn [txs_to]; rewrite lookup_insert_ne by congruence; rewrite Hx; [done|].
  pose proof (tw_prev m W x bx Hx) as Hpr. destruct (bi_pprev bx) as [q|]; [|done]. destruct Hpr as (bq & Hq & _). by rewrite IH by eauto.
Qed.

Lemma index_wf_fresh m p b : index_wf m -> m !! p = None -> tree_wf (<[p := b]> m) -> wf (bi_nChainWork b) ->
  bi_nChainTx b = 0 -> bi_nTx b = 0 -> index_wf (<[p := b]> m).
Proof.
  intros W Hp Wt' Ww Hc Ht. split; [done|..]; intros x bx; rewrite lookup_insert_Some; intros [[<- <-]|[Hne Hx]].
  - done.
  - by apply (ix_work m W x).
  - done.
  - intros Hn. destruct (ix_count m W x bx Hx Hn) as [H1 H2 H3]. split; [|done|by rewrite <- txs_to_fresh by (eauto || apply W)].
    destruct (bi_pprev bx) as [q|]; [|done]. destruct H1 as (bq & Hq & Hnq). exists bq. by rewrite lookup_insert_ne by congruence.
  - lia.
  - by apply (ix_nonneg m W x).
Qed.

Lemma chain_wf_fresh m p b c : tree_wf m -> m !! p = None -> chain_wf m c -> chain_wf (<[p := b]> m) c.
Proof.
  intros W Hp [->|[t (bt & Ht & Hl & Hc)]]; [by left|right]. exists t, bt. rewrite lookup_insert_ne by congruence. split_and!; [done..|].
  intros i Hi. rewrite ancestor_insert by eauto. by apply Hc.
Qed.

Lemma GetBlockProof_total c : is_u32 c -> exists w, GetBlockProof c = Ok w /\ wf w.
Proof.
  intros Hc. destruct (SetCompact c) as [[t neg] ovf] eqn:Es. destruct (of_u64_spec 0) as [W0 _]; [unfold is_u64; lia|].
  unfold GetBlockProof. rewrite Es. destruct (neg || ovf || EqualTo t 0) eqn:E; [by eexists|].
  apply orb_false_iff in E as [E E0]. apply orb_false_iff in E as [-> ->].
  pose proof (compact_target_wf c Hc) as Wt. unfold compact_target in Wt. rewrite Es in Wt. cbn [fst] in Wt.
  rewrite EqualTo_spec in E0 by (done || unfold is_u64; lia). apply Z.eqb_neq in E0.
  destruct (GetBlockProof_exact c t Hc Es E0) as (w & Hw & Ww & _). unfold GetBlockProof in Hw. rewrite Es in Hw.
  rewrite EqualTo_spec, (proj2 (Z.eqb_neq _ _)) in Hw by (done || unfold is_u64; lia). by exists w.
Qed.

Lemma RaiseValidity_ok b n : assert_validity_level n = Ok tt -> exists v st, RaiseValidity b n = Ok (v, bi_with_status b st).
Proof.
  intros E. unfold RaiseValidity. rewrite E. mstep. assert (Eb : b = bi_with_status b (bi_nStatus b)) by by destruct b.
  destruct (has_status _ _); [exists false, (bi_nStatus b); by rewrite <- Eb|].
  destruct (_ <? n); [by eexists _, _|]. exists false, (bi_nStatus b). by rewrite <- Eb.
Qed.

Lemma more_work_total m best w : (forall p, best = Some p -> is_Some (m !! p)) -> exists v, more_work m best w = Ok v.
Proof.
  intros H. unfold more_work, deref. destruct best as [q|]; [|eauto]. destruct (H q eq_refl) as [b ->]. mstep. eauto.
Qed.

(** The work of a new block: that of its predecessor and its own. *)
Definition work_of (m : BlockMap) (b : CBlockIndex) : Prop :=
  exists w proof, prev_work m (bi_pprev b) = Ok w /\ GetBlockProof (bi_nBits b) = Ok proof /\ bi_nChainWork b = bu_add w proof.

(** Adding a header whose hash is new and is not its own predecessor. *)
Lemma AddToBlockIndex_ok hash block s : state_wf s -> is_u32 (nBits block) -> hash <> hashPrevBlock block -> mapBlockIndex s !! hash = None ->
  exists s' b, AddToBlockIndex hash block s = Ok (hash, s') /\ state_wf s' /\ mapBlockIndex s' = <[hash := b]> (mapBlockIndex s)
    /\ bi_pprev b = (match mapBlockIndex s !! hashPrevBlock block with Some _ => Some (hashPrevBlock block) | None => None end) /\ work_of (mapBlockIndex s) b
    /\ (is_Some (mapBlockIndex s !! hashPrevBlock block) -> CBlockIndex_GetBlockHeader b = block).
Proof.
  intros W Hbits Hne Hnew. pose proof (sw_index s W) as Wi. pose proof (ix_tree _ Wi) as Wt. set (m := mapBlockIndex s) in *.
  unfold AddToBlockIndex. fold m. rewrite Hnew. rewrite lookup_insert_ne by done.
  set (pprev := match m !! hashPrevBlock block with Some _ => Some (hashPrevBlock block) | None => None end).
  assert (Hm2 : exists b2, (match m !! hashPrevBlock block with
     | Some prev => BuildSkip (<[hash := bi_of_header block (Some (hashPrevBlock block)) (bi_nHeight prev + 1)]> (<[hash := bi_of_header block None 0]> m)) hash
     | None => Ok (<[hash := bi_of_header block None 0]> m) end) = Ok (<[hash := b2]> m) /\ tree_wf (<[hash := b2]> m)
     /\ exists sk h, b2 = bi_with_pskip (bi_of_header block pprev h) sk).
  { unfold pprev. destruct (m !! hashPrevBlock block) as [prev|] eqn:Hprev.
    - rewrite insert_insert_eq. destruct (BuildSkip_ok m hash (bi_of_header block (Some (hashPrevBlock block)) (bi_nHeight prev + 1)) Wt) as [E W'].
      { split; [done|]. split; [done|]. cbn. eauto. }
      eexists. split; [exact E|]. split; [exact W'|]. by eexists _, _.
    - exists (bi_of_header block None 0). split; [done|]. split; [|by exists None, 0]. apply tree_wf_insert; [done..|cbn; lia|done|done]. }
  destruct Hm2 as (b2 & -> & W2 & sk & h & Eb2). mstep. unfold deref at 1. rewrite lookup_insert_eq. mstep.
  assert (Hpw : exists w, prev_work (<[hash := b2]> m) (bi_pprev b2) = Ok w /\ prev_work m (bi_pprev b2) = Ok w /\ wf w).
  { rewrite Eb2. cbn [bi_with_pskip bi_of_header bi_pprev]. unfold pprev. destruct (m !! hashPrevBlock block) as [prev|] eqn:Hprev; cbn [prev_work].
    - unfold deref. rewrite lookup_insert_ne, Hprev by done. mstep. eexists. split_and!; [done..|]. by apply (ix_work m Wi (hashPrevBlock block)).
    - eexists. split_and!; [done..|]. by apply of_u64_spec; unfold is_u64; lia. }
  destruct Hpw as (w & -> & Hpw & Ww). mstep. destruct (GetBlockProof_total (bi_nBits b2)) as (proof & Epr & Wpr); [by rewrite Eb2|].
  rewrite Epr. mstep. destruct (RaiseValidity_ok (bi_with_work b2 (bu_add w proof)) BLOCK_VALID_TREE) as (v & st & ->); [done|]. mstep. cbn [snd].
  rewrite insert_insert_eq. set (b := bi_with_status (bi_with_work b2 (bu_add w proof)) st).
  destruct (add_spec w proof Ww Wpr) as [Wb _].
  assert (Wt' : tree_wf (<[hash := b]> m)).
  { apply (tree_wf_shape (<[hash := b2]> m)); [|done]. unfold shape. by rewrite !fmap_insert. }
  assert (Wi' : index_wf (<[hash := b]> m)) by (apply index_wf_fresh; try done; unfold b; by rewrite Eb2).
  assert (Hold : forall x, is_Some (m !! x) -> is_Some (<[hash := b]> m !! x)).
  { intros x [bx Hx]. rewrite lookup_insert_ne by congruence. eauto. }
  set (s1 := with_map _ s). assert (W1 : state_wf s1).
  { split; [done|by apply chain_wf_fresh; [..|apply W]| | |intros x Hx; exact (Hold x (sw_header s W x Hx))|intros x Hx; exact (Hold x (sw_invalid s W x Hx))].
    - intros x Hx. destruct (sw_candidates s W x Hx) as (bx & Hbx & Hn). exists bx. split; [|done]. cbn.
      by rewrite lookup_insert_ne by (intros ->; fold m in Hbx; congruence).
    - intros q x Hx. destruct (sw_unlinked s W q x Hx) as (bx & Hbx & Hn). exists bx. split; [|done]. cbn.
      by rewrite lookup_insert_ne by (intros ->; fold m in Hbx; congruence). }
  destruct (more_work_total (mapBlockIndex s1) (pindexBestHeader s) (bi_nChainWork b)) as [better ->]; [intros x Hx; exact (Hold x (sw_header s W x Hx))|].
  mstep. eexists _, b. split; [done|]. split; [|split; [by destruct better|]].
  - destruct better; [|by destruct W1; split]. destruct W1. split; try done. intros x [= <-]. cbn. rewrite lookup_insert_eq. eauto.
  - split; [by unfold b; rewrite Eb2|]. split; [exists w, proof; by split_and!|].
    intros [prev Hprev]. unfold b, CBlockIndex_GetBlockHeader. rewrite Eb2. cbn. unfold pprev. rewrite Hprev. by destruct block.
Qed.

(** ** Waiting blocks *)

(** The blocks that wait for a block of the queue, directly or not. *)
Inductive waits_on (U : list (uint256 * uint256)) (Q : list uint256) : uint256 -> Prop :=
| waits_queue x : x ∈ Q -> waits_on U Q x
| waits_step y x : waits_on U Q y -> (y, x) ∈ U -> waits_on U Q x.

Lemma elem_waiting p x l : x ∈ waiting_for p l <-> (p, x) ∈ l.
Proof.
  unfold waiting_for. rewrite list_elem_of_fmap. split.
  - intros ([y z] & -> & H). apply list_elem_of_filter in H as [Hy Hz]. cbn in *. by subst.
  - intros H. exists (p, x). split; [done|]. by apply list_elem_of_filter.
Qed.
Lemma elem_not_waiting p q x l : (q, x) ∈ not_waiting_for p l <-> q <> p /\ (q, x) ∈ l.
Proof. unfold not_waiting_for. by rewrite list_elem_of_filter. Qed.
Lemma length_waiting p l : length l = (length (waiting_for p l) + length (not_waiting_for p l))%nat.
Proof.
  unfold waiting_for, not_waiting_for. rewrite length_fmap, <- length_app. apply Permutation_length. symmetry. apply filter_app_complement.
Qed.

(** One round of the queue. *)
Lemma waits_round U p Q x : waits_on U (p :: Q) x <-> x = p \/ waits_on (not_waiting_for p U) (Q ++ waiting_for p U) x.
Proof.
  split.
  - induction 1 as [x Hx|y x Hy IH Hin].
    + apply elem_of_cons in Hx as [->|Hx]; [by left|right]. apply waits_queue, elem_of_app. by left.
    + right. destruct (decide (y = p)) as [->|Hne].
      * apply waits_queue, elem_of_app. right. by apply elem_waiting.
      * destruct IH as [->|IH]; [done|]. apply (waits_step _ _ y); [done|]. by apply elem_not_waiting.
  - intros [->|H]; [apply waits_queue; set_solver|]. induction H as [x Hx|y x Hy IH Hin].
    + apply elem_of_app in Hx as [Hx|Hx]; [apply waits_queue; set_solver|].
      apply (waits_step _ _ p); [apply waits_queue; set_solver|by apply elem_waiting].
    + apply elem_not_waiting in Hin as [_ Hin]. by apply (waits_step _ _ y).
Qed.

Section Best.
Context (addr : uint256 -> Z).

(** ** The order of candidates *)

(** [q] sorts before [p]: less work, or the same work and received later. *)
Definition worse_than (m : BlockMap) (q p : uint256) : Prop := value_comp addr m q p = Ok true.

(** The comparator is the lexicographic order on work, sequence and address. *)
Lemma comparator_spec pa pb a b : wf (bi_nChainWork a) -> wf (bi_nChainWork b) ->
  CBlockIndexWorkComparator addr pa pb a b = true <->
  val (bi_nChainWork a) < val (bi_nChainWork b)
  \/ (val (bi_nChainWork a) = val (bi_nChainWork b)
      /\ (bi_nSequenceId b < bi_nSequenceId a \/ (bi_nSequenceId b = bi_nSequenceId a /\ addr pb < addr pa))).
Proof.
  intros Wa Wb. unfold CBlockIndexWorkComparator. rewrite gt_spec, lt_spec by done.
  repeat match goal with |- context [?x <? ?y] => destruct (Z.ltb_spec x y) end; (split; [try done; lia|try done; lia]).
Qed.

Lemma comparator_false pa pb a b : wf (bi_nChainWork a) -> wf (bi_nChainWork b) ->
  CBlockIndexWorkComparator addr pa pb a b = false <->
  val (bi_nChainWork b) < val (bi_nChainWork a)
  \/ (val (bi_nChainWork a) = val (bi_nChainWork b)
      /\ (bi_nSequenceId a < bi_nSequenceId b \/ (bi_nSequenceId b = bi_nSequenceId a /\ addr pa <= addr pb))).
Proof.
  intros Wa Wb. pose proof (comparator_spec pa pb a b Wa Wb) as H.
  destruct (CBlockIndexWorkComparator addr pa pb a b); split; intros Hx; try done.
  - exfalso. destruct H as [H _]. specialize (H eq_refl). lia.
  - destruct H as [_ H]. destruct (Z.lt_ge_cases (val (bi_nChainWork b)) (val (bi_nChainWork a))); [by left|]. right.
    assert (~ val (bi_nChainWork a) < val (bi_nChainWork b)) by (intros ?; discriminate H; by left).
    assert (val (bi_nChainWork a) = val (bi_nChainWork b)) as Ew by lia. split; [done|].
    assert (~ (bi_nSequenceId b < bi_nSequenceId a \/ (bi_nSequenceId b = bi_nSequenceId a /\ addr pb < addr pa))); [|lia].
    intros ?. discriminate H. by right.
Qed.

(** The greatest member of a set of entries. *)
Lemma rbegin_fold m (l : list uint256) : (forall p, p ∈ l -> exists b, m !! p = Some b /\ wf (bi_nChainWork b)) ->
  forall o, match o with Some p => exists b, m !! p = Some b /\ wf (bi_nChainWork b) | None => True end ->
  exists r, foldM (greater_of addr m) l o = Ok r
    /\ (r = None -> o = None /\ l = [])
    /\ forall p, r = Some p -> (o = Some p \/ p ∈ l)
         /\ (forall q, q ∈ l -> value_comp addr m p q = Ok false)
         /\ (forall q, o = Some q -> value_comp addr m p q = Ok false).
Proof using Type.
  assert (Hrefl : forall p b, m !! p = Some b -> wf (bi_nChainWork b) -> value_comp addr m p p = Ok false).
  { intros p b Hp Wb. unfold value_comp, deref. rewrite Hp. mstep. f_equal. apply comparator_false; [done..|]. lia. }
  induction l as [|x l IH]; intros Hl o Ho; cbn [foldM].
  - exists o. split; [done|]. split; [done|]. intros p ->. destruct Ho as (b & Hb & Wb).
    split_and!; [by left|set_solver|]. intros q [= <-]. by apply (Hrefl p b).
  - destruct (Hl x ltac:(set_solver)) as (bx & Hx & Wx).
    assert (Hl' : forall p, p ∈ l -> exists b, m !! p = Some b /\ wf (bi_nChainWork b)) by (intros p Hp; apply Hl; set_solver).
    destruct o as [y|]; cbn [greater_of].
    + destruct Ho as (by' & Hy & Wy). unfold value_comp at 1, deref. rewrite Hy, Hx. mstep.
      set (z := if CBlockIndexWorkComparator addr y x by' bx then x else y).
      assert (Hz : exists bz, m !! z = Some bz /\ wf (bi_nChainWork bz)) by (unfold z; destruct (CBlockIndexWorkComparator _ _ _ _ _); eauto).
      destruct (IH Hl' (Some z) Hz) as (r & E & Hn & Hr). exists r. split; [done|]. split; [intros ->; by destruct (Hn eq_refl)|].
      intros p ->. destruct (Hr p eq_refl) as (Hin & Hge & Hgz).
      assert (Hp : exists bp, m !! p = Some bp /\ wf (bi_nChainWork bp)).
      { destruct Hin as [[= <-]|Hin]; [done|by apply Hl']. }
      destruct Hp as (bp & Hp & Wp). specialize (Hgz z eq_refl).
      assert (Hxy : value_comp addr m p x = Ok false /\ value_comp addr m p y = Ok false).
      { unfold value_comp, deref in *. rewrite Hp, ?Hx, ?Hy in *. unfold z in Hgz.
        destruct (CBlockIndexWorkComparator addr y x by' bx) eqn:Ec; rewrite ?Hx, ?Hy in Hgz; mstep; injection Hgz as Hgz; cbn in Hgz.
        - apply comparator_spec in Ec; [|done..]. split; [by f_equal|]. f_equal. apply comparator_false in Hgz; [|done..].
          apply comparator_false; [done..|]. lia.
        - apply comparator_false in Ec; [|done..]. split; [|by f_equal]. f_equal. apply comparator_false in Hgz; [|done..].
          apply comparator_false; [done..|]. lia. }
      split_and!.
      * destruct Hin as [[= <-]|?]; [|set_solver]. unfold z. destruct (CBlockIndexWorkComparator _ _ _ _ _); set_solver.
      * intros q Hq. apply elem_of_cons in Hq as [->|Hq]; [apply Hxy|by apply Hge].
      * intros q [= <-]. apply Hxy.
    + mstep. destruct (IH Hl' (Some x)) as (r & E & Hn & Hr); [eauto|]. exists r. split; [done|].
      split; [intros ->; by destruct (Hn eq_refl)|]. intros p ->. destruct (Hr p eq_refl) as (Hin & Hge & Hgx).
      split_and!; [destruct Hin as [[= <-]|?]; set_solver| |done].
      intros q Hq. apply elem_of_cons in Hq as [->|Hq]; [by apply Hgx|by apply Hge].
Qed.

Lemma candidates_rbegin_ok m (c : gset uint256) : index_wf m -> (forall p, p ∈ c -> is_Some (m !! p)) ->
  exists r, candidates_rbegin addr m c = Ok r
    /\ match r with
       | None => c = ∅
       | Some p => p ∈ c /\ forall q, q ∈ c -> value_comp addr m p q = Ok false
       end.
Proof using Type.
  intros W Hc. destruct (rbegin_fold m (elements c)) with (o := @None uint256) as (r & E & Hn & Hr); [|done|].
  { intros p Hp. apply elem_of_elements in Hp. destruct (Hc p Hp) as [b Hb]. exists b. split; [done|]. by apply (ix_work m W p). }
  exists r. split; [exact E|]. destruct r as [p|].
  - destruct (Hr p eq_refl) as ([?|Hin] & Hge & _); [done|]. split; [by apply elem_of_elements|].
    intros q Hq. apply Hge. by apply elem_of_elements.
  - destruct (Hn eq_refl) as [_ He]. by apply elements_empty_inv, leibniz_equiv in He.
Qed.

(** ** Finding the best chain *)

Section Find.
Context (pr : Protection) (s0 : ChainState) (W0 : state_wf s0).

Lemma update_best_invalid_ok s p : narrowed pr s0 s -> is_Some (mapBlockIndex s0 !! p) ->
  exists s1, update_best_invalid p s = Ok s1 /\ narrowed pr s0 s1 /\ setBlockIndexCandidates s1 = setBlockIndexCandidates s.
Proof using W0.
  intros H [b Hp]. pose proof (narrowed_wf pr s0 W0 s H) as W. destruct (narrowed_lookup pr s0 W0 s p b H Hp) as (b' & Hb' & _).
  unfold update_best_invalid, get_entry, deref. rewrite Hb'. mstep.
  destruct (more_work_total (mapBlockIndex s) (pindexBestInvalid s) (bi_nChainWork b')) as [v ->]; [apply W|]. mstep.
  eexists. split; [done|]. destruct v; [|done]. split; [|done]. destruct H. split; try done.
  intros q [= <-]. eauto.
Qed.

Lemma value_comp_narrowed s p q : narrowed pr s0 s -> value_comp addr (mapBlockIndex s) p q = value_comp addr (mapBlockIndex s0) p q.
Proof using Type.
  intros H. assert (Hd : forall x, match mapBlockIndex s0 !! x, mapBlockIndex s !! x with
    | Some b, Some b' => bi_nChainWork b' = bi_nChainWork b /\ bi_nSequenceId b' = bi_nSequenceId b
    | None, None => True | _, _ => False end).
  { intros x. pose proof (nw_entry _ _ _ H x) as E. unfold entry_kept in E.
    destruct (mapBlockIndex s0 !! x), (mapBlockIndex s !! x); try done. by destruct E as [->|(st & -> & _)]. }
  unfold value_comp, deref. pose proof (Hd p) as Hp. pose proof (Hd q) as Hq.
  destruct (mapBlockIndex s0 !! p), (mapBlockIndex s !! p); try done. mstep.
  destruct (mapBlockIndex s0 !! q), (mapBlockIndex s !! q); try done. mstep. f_equal. unfold CBlockIndexWorkComparator.
  by destruct Hp as [-> ->], Hq as [-> ->].
Qed.

Lemma try_best_ok s : narrowed pr s0 s -> exists r s', try_best addr pr s = Ok (r, s') /\ narrowed pr s0 s' /\
  match r with
  | Some None => setBlockIndexCandidates s = ∅
  | Some (Some p) => p ∈ setBlockIndexCandidates s /\ usable pr (mapBlockIndex s0) (chainActive s0) p
      /\ forall q, q ∈ setBlockIndexCandidates s -> value_comp addr (mapBlockIndex s0) p q = Ok false
  | None => setBlockIndexCandidates s' ⊂ setBlockIndexCandidates s
  end.
Proof using W0.
  intros H. pose proof (narrowed_wf pr s0 W0 s H) as W. pose proof (sw_index s W) as Wi. pose proof (ix_tree _ Wi) as Wtr.
  pose proof (same_index_shape _ _ (narrowed_same pr s0 W0 s H)) as Es.
  unfold try_best. destruct (candidates_rbegin_ok (mapBlockIndex s) (setBlockIndexCandidates s) Wi) as (best & -> & Hbest).
  { intros p Hp. destruct (sw_candidates s W p Hp) as (b & Hb & _). eauto. }
  mstep. destruct best as [p|]; [|by eexists _, _; split_and!]. destruct Hbest as [Hin Hmax].
  destruct (sw_candidates s W p Hin) as (b & Hb & Hn). unfold get_entry, deref. rewrite Hb. mstep.
  destruct (test_path_ok pr (mapBlockIndex s) (chainActive s) Wtr (sw_chain s W) (S (Z.to_nat (bi_nHeight b))) p b Hb) as (w & -> & Hw).
  { pose proof (tw_height _ Wtr p b Hb). lia. }
  { intros t bt Ht Hbt. by apply (counted_ancestors _ p b Wi Hb Hn t). }
  mstep. destruct w as [|t failed].
  { eexists _, _. split; [done|]. split; [done|]. split; [done|]. split; [by apply (narrowed_usable pr s0 W0 s p H)|].
    intros q Hq. rewrite <- (value_comp_narrowed s) by done. by apply Hmax. }
  destruct Hw as (Ha & Hnc & Hbad). rewrite <- (is_ancestor_shape _ _ Es) in Ha.
  rewrite (nw_chain _ _ _ H) in Hnc, Hbad.
  assert (Hs1 : exists s1, (if failed then update_best_invalid p s else Ok s) = Ok s1 /\ narrowed pr s0 s1
    /\ setBlockIndexCandidates s1 = setBlockIndexCandidates s).
  { destruct failed; [|eauto]. apply update_best_invalid_ok; [done|]. destruct (shape_lookup _ _ p b (eq_sym Es) Hb) as (b0 & H0 & _). eauto. }
  destruct Hs1 as (s1 & -> & H1 & Ec1). mstep.
  assert (Hnu : forall x, is_ancestor (mapBlockIndex s0) t x -> ~ usable pr (mapBlockIndex s0) (chainActive s0) x).
  { intros x Hx Hu. apply (narrowed_usable pr s0 W0 s x H) in Hu. rewrite (nw_chain _ _ _ H) in Hu. apply Hbad, Hu; [|done].
    by rewrite <- (is_ancestor_shape _ _ Es). }
  destruct (shape_lookup _ _ p b (eq_sym Es) Hb) as (b0 & Hb0 & Epl). apply place_eq in Epl as (_ & _ & Eh).
  assert (Hn0 : bi_nChainTx b0 <> 0).
  { pose proof (narrowed_same pr s0 W0 s H p) as Hs. rewrite Hb0, Hb in Hs. destruct Hs as (_ & _ & _ & <-). done. }
  destruct Ha as (bt & Hbt & Hat). assert (Ha : is_ancestor (mapBlockIndex s0) t p) by by exists bt.
  destruct (remove_chain_ok pr s0 W0 failed t bt Hbt Hnu (S (Z.to_nat (bi_nHeight b))) p b0 s1 H1 Hb0 Hn0 Ha) as (s2 & -> & H2 & Hsub & Hpt).
  { pose proof (tw_height _ Wtr p b Hb). pose proof (tw_height _ (ix_tree _ (sw_index _ W0)) t bt Hbt). lia. }
  mstep. eexists _, _. split; [done|]. split.
  - apply narrowed_drop; [done|done|]. apply Hnu. apply is_ancestor_refl; [apply W0|eauto].
  - cbn [with_candidates setBlockIndexCandidates]. rewrite Ec1 in Hsub.
    destruct (decide (p = t)) as [->|Hne]; [set_solver|]. specialize (Hpt Hne). set_solver.
Qed.

Lemma most_work_loop_ok : forall fuel s, narrowed pr s0 s -> (size (setBlockIndexCandidates s) < fuel)%nat ->
  exists r s', most_work_loop addr fuel pr s = Ok (r, s') /\ narrowed pr s0 s' /\
  match r with
  | Some p => p ∈ setBlockIndexCandidates s0 /\ usable pr (mapBlockIndex s0) (chainActive s0) p
      /\ forall q, q ∈ setBlockIndexCandidates s0 -> usable pr (mapBlockIndex s0) (chainActive s0) q ->
         ~ worse_than (mapBlockIndex s0) p q
  | None => forall q, q ∈ setBlockIndexCandidates s0 -> ~ usable pr (mapBlockIndex s0) (chainActive s0) q
  end.
Proof using W0.
  induction fuel as [|fuel IH]; intros s H Hf; [lia|]. cbn [most_work_loop].
  destruct (try_best_ok s H) as (r & s1 & -> & H1 & Hr). mstep. cbn [fst snd]. destruct r as [[p|]|].
  - eexists _, _. split; [done|]. split; [done|]. destruct Hr as (Hin & Hu & Hmax). split_and!; [by apply (nw_sub _ _ _ H)|done|].
    intros q Hq Huq Hw. destruct (decide (q ∈ setBlockIndexCandidates s)) as [Hqs|Hqs].
    + unfold worse_than in Hw. rewrite Hmax in Hw by done. done.
    + by apply (nw_dropped _ _ _ H q).
  - eexists _, _. split; [done|]. split; [done|]. intros q Hq. apply (nw_dropped _ _ _ H q Hq). rewrite Hr. set_solver.
  - apply IH; [done|]. apply subset_size in Hr. lia.
Qed.
End Find.

(** ** Linking the blocks that waited *)

(** No chain has 2^32 transactions, so that [nChainTx] does not wrap. *)
Definition small_chains (m : BlockMap) : Prop :=
  forall p b, m !! p = Some b -> txs_to (Z.to_nat (bi_nHeight b)) m p < 2 ^ 32.

Definition prev_ready (m : BlockMap) (b : CBlockIndex) : Prop :=
  match bi_pprev b with Some q => exists bq, m !! q = Some bq /\ bi_nChainTx bq <> 0 | None => True end.
(** The block has transactions and so have its predecessors. *)
Definition ready (m : BlockMap) (p : uint256) : Prop := exists b, m !! p = Some b /\ 0 < bi_nTx b /\ prev_ready m b.

Lemma txs_to_nonneg m n p : index_wf m -> 0 <= txs_to n m p.
Proof using Type.
  intros W. revert p. induction n as [|n IH]; intros p; cbn [txs_to]; destruct (m !! p) as [b|] eqn:Hp; try lia;
    pose proof (ix_nonneg m W p b Hp); [lia|]. destruct (bi_pprev b) as [q|]; [|lia]. specialize (IH q). lia.
Qed.

(** The chain count of a ready block, as [link_block] computes it. *)
Lemma linked_count m p b : index_wf m -> small_chains m -> m !! p = Some b -> 0 < bi_nTx b -> prev_ready m b ->
  exists prev, get_prev m b = Ok prev
    /\ u32 (match prev with Some q => bi_nChainTx q | None => 0 end + bi_nTx b) = txs_to (Z.to_nat (bi_nHeight b)) m p
    /\ 0 < txs_to (Z.to_nat (bi_nHeight b)) m p.
Proof using Type.
  intros W Hs Hp Ht Hr. pose proof (Hs p b Hp) as Hlt. unfold get_prev, prev_ready in *.
  pose proof (tw_prev m (ix_tree m W) p b Hp) as Hh. destruct (bi_pprev b) as [q|] eqn:Eq.
  - destruct Hr as (bq & Hq & Hnq). destruct Hh as (bq' & Hq' & Hh). rewrite Hq in Hq'. injection Hq' as <-.
    unfold deref. rewrite Hq. mstep. eexists. split; [done|]. pose proof (tw_height m (ix_tree m W) q bq Hq).
    replace (Z.to_nat (bi_nHeight b)) with (S (Z.to_nat (bi_nHeight bq))) in * by lia. cbn [txs_to] in *. rewrite Hp, Eq in *.
    rewrite (ct_sum _ _ _ (ix_count m W q bq Hq Hnq)). pose proof (txs_to_nonneg m (Z.to_nat (bi_nHeight bq)) q W).
    rewrite u32_small by (unfold is_u32; lia). lia.
  - eexists. split; [done|]. rewrite Hh in Hlt |- *. change (Z.to_nat 0) with 0%nat in *. cbn [txs_to] in *. rewrite Hp in Hlt |- *.
    rewrite u32_small by (unfold is_u32; lia). lia.
Qed.

(** The entry of [p] after linking. *)
Lemma index_wf_linked m p b prev n : index_wf m -> small_chains m -> m !! p = Some b -> 0 < bi_nTx b -> prev_ready m b ->
  get_prev m b = Ok prev ->
  let m' := <[p := bi_linked b prev n]> m in
  index_wf m' /\ small_chains m' /\ shape m = shape m' /\ bi_nChainTx (bi_linked b prev n) <> 0.
Proof using Type.
  intros W Hs Hp Ht Hr Hg m'. destruct (linked_count m p b W Hs Hp Ht Hr) as (prev' & Hg' & Hc & Hpos).
  rewrite Hg in Hg'. injection Hg' as <-.
  assert (Esh : shape m' = shape m) by by apply (shape_insert m p b).
  assert (Etx : forall n p, txs_to n m p = txs_to n m' p).
  { apply txs_to_ext. intros x. unfold m'. destruct (decide (x = p)) as [->|]; [by rewrite Hp, lookup_insert_eq|].
    rewrite lookup_insert_ne by done. by destruct (m !! x). }
  assert (Hcp : bi_nChainTx (bi_linked b prev n) <> 0) by (cbn [bi_linked bi_nChainTx]; rewrite Hc; lia).
  assert (Hnz : forall x bx, m !! x = Some bx -> bi_nChainTx bx <> 0 -> exists bx', m' !! x = Some bx' /\ bi_nChainTx bx' <> 0).
  { intros x bx Hx Hn. unfold m'. destruct (decide (x = p)) as [->|]; [|rewrite lookup_insert_ne by done; eauto].
    rewrite lookup_insert_eq. eauto. }
  split_and!; [|intros x bx|done|done].
  - split.
    + apply (tree_wf_shape m); [done|apply W].
    + intros x bx. unfold m'. rewrite lookup_insert_Some. intros [[_ <-]|[_ Hx]]; [exact (ix_work m W p b Hp)|by apply (ix_work m W x)].
    + intros x bx. unfold m' at 1. rewrite lookup_insert_Some. intros [[<- <-]|[Hne Hx]] Hn; split.
      * cbn [bi_linked bi_pprev]. unfold prev_ready in Hr. destruct (bi_pprev b) as [q|]; [|done]. destruct Hr as (bq & Hq & Hnq). by apply (Hnz q bq).
      * done.
      * cbn [bi_linked bi_nChainTx bi_nHeight]. by rewrite Hc, Etx.
      * pose proof (ct_prev _ _ _ (ix_count m W x bx Hx Hn)) as H1. destruct (bi_pprev bx) as [q|]; [|done]. destruct H1 as (bq & Hq & Hnq). by apply (Hnz q bq).
      * apply (ix_count m W x bx Hx Hn).
      * rewrite <- Etx. apply (ix_count m W x bx Hx Hn).
    + intros x bx. unfold m'. rewrite lookup_insert_Some. intros [[_ <-]|[_ Hx]]; [cbn; lia|by apply (ix_nonneg m W x)].
  - rewrite <- Etx. unfold m'. rewrite lookup_insert_Some. intros [[<- <-]|[_ Hx]]; [by apply (Hs p b)|by apply Hs].
Qed.

Lemma tip_known s t : state_wf s -> Tip s = Some t -> is_Some (mapBlockIndex s !! t).
Proof using Type.
  intros W Ht. unfold Tip in Ht. destruct (sw_chain s W) as [E|[p Hp]]; [by rewrite E in Ht|].
  rewrite (branch_Tip _ _ p (ix_tree _ (sw_index s W)) Hp) in Ht. injection Ht as <-. destruct Hp as (b & Hb & _). eauto.
Qed.

(** What linking blocks leaves and adds. *)
Record linked_more (s s' : ChainState) : Prop := {
  lm_shape : shape (mapBlockIndex s) = shape (mapBlockIndex s');
  lm_entry : forall x b, mapBlockIndex s !! x = Some b -> exists b', mapBlockIndex s' !! x = Some b'
    /\ bi_nChainWork b' = bi_nChainWork b /\ bi_nTx b' = bi_nTx b /\ (bi_nChainTx b <> 0 -> bi_nChainTx b' <> 0);
  lm_chain : chainActive s' = chainActive s;
  lm_cand : setBlockIndexCandidates s ⊆ setBlockIndexCandidates s'
}.

Lemma linked_more_trans s1 s2 s3 : linked_more s1 s2 -> linked_more s2 s3 -> linked_more s1 s3.
Proof using Type.
  intros H1 H2. split; [by rewrite (lm_shape _ _ H1), (lm_shape _ _ H2)| |by rewrite (lm_chain _ _ H2), (lm_chain _ _ H1)|].
  - intros x b Hx. destruct (lm_entry _ _ H1 x b Hx) as (b' & Hb' & E1 & E2 & E3).
    destruct (lm_entry _ _ H2 x b' Hb') as (b'' & Hb'' & F1 & F2 & F3). exists b''. split_and!; [done|congruence..|auto].
  - etrans; [apply H1|apply H2].
Qed.

(** The block has more work than the tip of the active chain. *)
Definition ahead (s : ChainState) (p : uint256) : Prop :=
  match Tip s with
  | None => True
  | Some t => exists bt bp, mapBlockIndex s !! t = Some bt /\ mapBlockIndex s !! p = Some bp
              /\ val (bi_nChainWork bt) < val (bi_nChainWork bp)
  end.

Lemma linked_more_ahead s s' p : linked_more s s' -> ahead s p -> ahead s' p.
Proof using Type.
  intros H. unfold ahead, Tip. rewrite (lm_chain _ _ H). destruct (CChain_Tip _) as [t|]; [|done].
  intros (bt & bp & Ht & Hp & Hw). destruct (lm_entry _ _ H t bt Ht) as (bt' & Ht' & Et & _).
  destruct (lm_entry _ _ H p bp Hp) as (bp' & Hp' & Ep & _). exists bt', bp'. split_and!; [done..|congruence].
Qed.

Definition chain_counted (s : ChainState) (p : uint256) : Prop := exists b, mapBlockIndex s !! p = Some b /\ bi_nChainTx b <> 0.

Lemma linked_more_counted s s' p : linked_more s s' -> chain_counted s p -> chain_counted s' p.
Proof using Type. intros H (b & Hb & Hn). destruct (lm_entry _ _ H p b Hb) as (b' & Hb' & _ & _ & Hc). exists b'. auto. Qed.

Lemma linked_more_ready s s' p : linked_more s s' -> ready (mapBlockIndex s) p -> ready (mapBlockIndex s') p.
Proof using Type.
  intros H (b & Hb & Ht & Hr). destruct (lm_entry _ _ H p b Hb) as (b' & Hb' & _ & Et & _). exists b'. split_and!; [done|lia|].
  destruct (shape_lookup _ _ p b (lm_shape _ _ H) Hb) as (b2 & Hb2 & Epl). rewrite Hb' in Hb2. injection Hb2 as <-.
  apply place_eq in Epl as (Ep & _ & _).
  unfold prev_ready in *. rewrite Ep. destruct (bi_pprev b) as [q|]; [|done]. by apply (linked_more_counted s s').
Qed.

Lemma link_block_ok p s : state_wf s -> small_chains (mapBlockIndex s) -> ready (mapBlockIndex s) p ->
  exists s1, link_block addr p s = Ok s1 /\ state_wf s1 /\ small_chains (mapBlockIndex s1) /\ linked_more s s1
    /\ mapBlocksUnlinked s1 = mapBlocksUnlinked s /\ chain_counted s1 p /\ (ahead s p -> p ∈ setBlockIndexCandidates s1).
Proof using Type.
  intros W Hs (b & Hb & Ht & Hr). pose proof (sw_index s W) as Wi. destruct (linked_count _ p b Wi Hs Hb Ht Hr) as (prev & Hg & _).
  set (n := nBlockSequenceId s). destruct (index_wf_linked _ p b prev n Wi Hs Hb Ht Hr Hg) as (Wi' & Hs' & Esh & Hc).
  unfold link_block, get_entry, deref. rewrite Hb. mstep. rewrite Hg. mstep. fold n.
  set (b' := bi_linked b prev n) in *. set (m' := <[p := b']> (mapBlockIndex s)) in *.
  set (s1 := with_sequence _ _). assert (Hent : forall x bx, mapBlockIndex s !! x = Some bx -> exists bx', m' !! x = Some bx' /\ place bx' = place bx
    /\ bi_nChainWork bx' = bi_nChainWork bx /\ bi_nTx bx' = bi_nTx bx /\ (bi_nChainTx bx <> 0 -> bi_nChainTx bx' <> 0)).
  { intros x bx Hx. unfold m'. destruct (decide (x = p)) as [->|]; [|rewrite lookup_insert_ne by done; exists bx; split_and!; done].
    rewrite lookup_insert_eq. exists b'. simplify_eq. by split_and!. }
  assert (Hp1 : m' !! p = Some b') by apply lookup_insert_eq.
  assert (He : exists v, (match Tip s1 with None => Ok true | Some t => worse ← value_comp addr m' p t; Ok (negb worse) end) = Ok v
    /\ (ahead s p -> v = true)).
  { change (Tip s1) with (Tip s). unfold ahead. destruct (Tip s) as [t|] eqn:Et; [|eauto].
    destruct (tip_known s t W Et) as [bt Hbt]. destruct (Hent t bt Hbt) as (bt' & Hbt' & _ & Ew & _). unfold value_comp, deref. rewrite Hp1, Hbt'. mstep.
    eexists. split; [done|]. intros (bt2 & bp & Ht2 & Hp2 & Hlt). simplify_eq. apply negb_true_iff, comparator_false.
    - by apply (ix_work _ Wi' p).
    - by apply (ix_work _ Wi' t).
    - left. rewrite Ew. done. }
  change (mapBlockIndex s1) with m'. destruct He as (v & -> & Hv). mstep. eexists. split; [done|].
  assert (Hl : linked_more s s1).
  { split; try done. intros x bx Hx. destruct (Hent x bx Hx) as (bx' & H1 & _ & H2 & H3 & H4). eauto. }
  assert (Hin : forall x, is_Some (mapBlockIndex s !! x) -> is_Some (m' !! x)) by (intros x [bx Hx]; destruct (Hent x bx Hx) as (bx' & ? & _); eauto).
  assert (W1 : state_wf s1).
  { split; [done|by apply (chain_wf_shape (mapBlockIndex s)); [|apply W]| | | |]; cbn [s1 with_sequence set_entry with_map mapBlockIndex].
    - intros x Hx. apply (linked_more_counted s s1 x Hl), W, Hx.
    - intros q x Hx. destruct (sw_unlinked s W q x Hx) as (bx & Hbx & Eq & Hn). destruct (Hent x bx Hbx) as (bx' & H1 & Epl & _ & H3 & _).
      apply place_eq in Epl as (Epp & _ & _). exists bx'. split_and!; [done|congruence|lia].
    - intros x Hx. exact (Hin x (sw_header s W x Hx)).
    - intros x Hx. exact (Hin x (sw_invalid s W x Hx)). }
  destruct v; split_and!; try done.
  - destruct W1. split; try done. cbn [with_candidates setBlockIndexCandidates mapBlockIndex].
    intros x Hx. apply elem_of_union in Hx as [Hx|Hx]; [|by apply sw_candidates0]. apply elem_of_singleton in Hx as ->. by exists b'.
  - destruct Hl. split; try done. cbn [with_candidates setBlockIndexCandidates]. set_solver.
  - by exists b'.
  - intros _. cbn [with_candidates setBlockIndexCandidates]. set_solver.
  - by exists b'.
  - intros Ha. by specialize (Hv Ha).
Qed.

Lemma link_loop_ok : forall fuel Q s, state_wf s -> small_chains (mapBlockIndex s) -> (forall r, r ∈ Q -> ready (mapBlockIndex s) r) ->
  (length Q + length (mapBlocksUnlinked s) <= fuel)%nat ->
  exists s', link_loop addr fuel Q s = Ok s' /\ state_wf s' /\ linked_more s s'
    /\ (forall x, waits_on (mapBlocksUnlinked s) Q x -> chain_counted s' x /\ (ahead s x -> x ∈ setBlockIndexCandidates s'))
    /\ (forall q x, (q, x) ∈ mapBlocksUnlinked s' <-> (q, x) ∈ mapBlocksUnlinked s /\ ~ waits_on (mapBlocksUnlinked s) Q q).
Proof using Type.
  assert (Hnone : forall U x, waits_on U [] x -> False) by (intros U x H; induction H; [set_solver|done]).
  induction fuel as [|fuel IH]; intros [|p Q] s W Hs Hr Hf; cbn [link_loop]; try (simpl in Hf; lia).
  1,2: exists s; split_and!; [done|done|by split; eauto 10|intros x Hx; by apply Hnone in Hx|naive_solver].
  destruct (link_block_ok p s W Hs) as (s1 & -> & W1 & Hs1 & L1 & EU & Hc & Hcand); [apply Hr; set_solver|]. mstep.
  set (U := mapBlocksUnlinked s) in *. set (s2 := with_unlinked (not_waiting_for p) s1).
  assert (EU2 : mapBlocksUnlinked s2 = not_waiting_for p U) by (unfold s2, U; cbn; by rewrite EU).
  assert (W2 : state_wf s2).
  { destruct W1. split; try done. intros q x Hx. rewrite EU2 in Hx. apply elem_not_waiting in Hx as [_ Hx]. apply sw_unlinked0. by rewrite EU. }
  assert (L2 : linked_more s s2) by by destruct L1; split.
  destruct (IH (Q ++ waiting_for p (mapBlocksUnlinked s1)) s2 W2 Hs1) as (s' & E & W' & L' & Hw & HU).
  - intros r Hin. rewrite EU in Hin. apply elem_of_app in Hin as [Hin|Hin]; [apply (linked_more_ready s s2); [done|apply Hr; set_solver]|].
    apply elem_waiting in Hin. destruct (sw_unlinked s W p r Hin) as (b & Hb & Ep & Ht).
    destruct (lm_entry _ _ L1 r b Hb) as (b' & Hb' & _ & Et & _). exists b'. split_and!; [done|lia|].
    destruct (shape_lookup _ _ r b (lm_shape _ _ L1) Hb) as (b2 & Hb2 & Epl). rewrite Hb' in Hb2. injection Hb2 as <-.
    apply place_eq in Epl as (Epp & _ & _). unfold prev_ready. by rewrite Epp, Ep.
  - rewrite EU2, EU, length_app. cbn [length] in Hf. fold U in Hf. pose proof (length_waiting p U). unfold U in *. lia.
  - exists s'. split; [exact E|]. split; [done|]. split; [by apply (linked_more_trans s s2)|]. rewrite EU2, EU in *. fold U in Hw, HU. split.
    + intros x Hx. apply waits_round in Hx as [->|Hx].
      * split; [by apply (linked_more_counted s2 s')|]. intros Ha. apply (lm_cand _ _ L'), Hcand, Ha.
      * destruct (Hw x Hx) as [Hcx Hax]. split; [done|]. intros Ha. apply Hax. by apply (linked_more_ahead s).
    + intros q x. rewrite HU, elem_not_waiting, waits_round. naive_solver.
Qed.

(** ** Receiving a block *)

(** Changing a block that has no chain count leaves the counts of the others. *)
Lemma txs_to_uncounted m p b b' : index_wf m -> m !! p = Some b -> bi_nChainTx b = 0 ->
  forall n x bx, m !! x = Some bx -> bi_nChainTx bx <> 0 -> txs_to n m x = txs_to n (<[p := b']> m) x.
Proof using Type.
  intros W Hp H0. induction n as [|n IH]; intros x bx Hx Hn; cbn [txs_to];
    rewrite lookup_insert_ne by congruence; rewrite Hx; [done|].
  pose proof (ct_prev _ _ _ (ix_count m W x bx Hx Hn)) as Hpr. destruct (bi_pprev bx) as [q|]; [|done].
  destruct Hpr as (bq & Hq & Hnq). by rewrite (IH q bq).
Qed.

Lemma index_wf_received m p b b' : index_wf m -> m !! p = Some b -> bi_nChainTx b = 0 -> place b' = place b ->
  bi_nChainWork b' = bi_nChainWork b -> bi_nChainTx b' = 0 -> 0 <= bi_nTx b' -> index_wf (<[p := b']> m).
Proof using Type.
  intros W Hp H0 Epl Ew H0' Ht. split.
  - apply (tree_wf_shape m); [symmetry; by apply (shape_insert m p b)|apply W].
  - intros x bx. rewrite lookup_insert_Some. intros [[_ <-]|[_ Hx]]; [rewrite Ew; by apply (ix_work m W p)|by apply (ix_work m W x)].
  - intros x bx. rewrite lookup_insert_Some. intros [[_ <-]|[Hne Hx]] Hn; [done|].
    destruct (ix_count m W x bx Hx Hn) as [H1 H2 H3]. split; [|done|by rewrite <- (txs_to_uncounted m p b b' W Hp H0 _ x bx)].
    destruct (bi_pprev bx) as [q|]; [|done]. destruct H1 as (bq & Hq & Hnq). exists bq. split; [|done].
    rewrite lookup_insert_ne by congruence. done.
  - intros x bx. rewrite lookup_insert_Some. intros [[_ <-]|[_ Hx]]; [done|by apply (ix_nonneg m W x)].
Qed.

Lemma not_counted s p b : state_wf s -> mapBlockIndex s !! p = Some b -> bi_nTx b = 0 -> bi_nChainTx b = 0.
Proof using Type.
  intros W Hp H0. destruct (decide (bi_nChainTx b = 0)) as [|Hn]; [done|].
  pose proof (ct_tx _ _ _ (ix_count _ (sw_index s W) p b Hp Hn)). lia.
Qed.

Section Receive.
Context (block : CBlock) (p : uint256) (b : CBlockIndex) (pos : CDiskBlockPos) (s : ChainState).
Context (W : state_wf s) (Hp : mapBlockIndex s !! p = Some b) (Hnew : bi_nChainTx b = 0).
Context (Hlen : 0 < Z.of_nat (length (b_vtx block)) < 2 ^ 32).
Context (Hsmall : small_chains (<[p := bi_received b block pos]> (mapBlockIndex s))).

(** The state with the data of the block recorded. *)
Lemma received_wf st : let s1 := with_dirty p (set_entry p (bi_with_status (bi_received b block pos) st) s) in
  state_wf s1 /\ small_chains (mapBlockIndex s1) /\ (forall x, ahead s x -> ahead s1 x)
  /\ (prev_ready (mapBlockIndex s) b -> ready (mapBlockIndex s1) p).
Proof using Hlen Hnew Hp Hsmall W.
  intros s1. set (b' := bi_with_status (bi_received b block pos) st) in *.
  assert (Etx : bi_nTx b' = Z.of_nat (length (b_vtx block))) by (cbn; apply u32_small; unfold is_u32; lia).
  change (mapBlockIndex s1) with (<[p := b']> (mapBlockIndex s)).
  assert (Hkeep : forall x bx, mapBlockIndex s !! x = Some bx -> exists bx', <[p := b']> (mapBlockIndex s) !! x = Some bx'
    /\ bi_nChainWork bx' = bi_nChainWork bx /\ bi_pprev bx' = bi_pprev bx /\ bi_nChainTx bx' = bi_nChainTx bx
    /\ (0 < bi_nTx bx -> 0 < bi_nTx bx')).
  { intros x bx Hx. destruct (decide (x = p)) as [->|]; [|rewrite lookup_insert_ne by done; exists bx; by split_and!].
    rewrite lookup_insert_eq. exists b'. rewrite Hp in Hx. injection Hx as <-. split_and!; try done; lia. }
  assert (Wi : index_wf (<[p := b']> (mapBlockIndex s))) by (apply (index_wf_received _ p b); try done; [apply W|lia]).
  split_and!.
  - split; [done|apply (chain_wf_shape (mapBlockIndex s)); [symmetry; by apply (shape_insert _ p b)|apply W]| | | |].
    + intros x Hx. destruct (sw_candidates s W x Hx) as (bx & Hbx & Hn). destruct (Hkeep x bx Hbx) as (bx' & H1 & _ & _ & H2 & _).
      exists bx'. split; [done|congruence].
    + intros q x Hx. destruct (sw_unlinked s W q x Hx) as (bx & Hbx & Eq & Hn). destruct (Hkeep x bx Hbx) as (bx' & H1 & _ & H2 & _ & H3).
      exists bx'. split_and!; [done|congruence|auto].
    + intros x Hx. destruct (sw_header s W x Hx) as [bx Hbx]. destruct (Hkeep x bx Hbx) as (bx' & H1 & _). by exists bx'.
    + intros x Hx. destruct (sw_invalid s W x Hx) as [bx Hbx]. destruct (Hkeep x bx Hbx) as (bx' & H1 & _). by exists bx'.
  - intros x bx Hx. assert (Hx' : exists bx', <[p := bi_received b block pos]> (mapBlockIndex s) !! x = Some bx' /\ bi_nHeight bx' = bi_nHeight bx).
    { destruct (decide (x = p)) as [->|]; [rewrite lookup_insert_eq in Hx |- *; injection Hx as <-; by eexists|].
      rewrite lookup_insert_ne in Hx |- * by done. eauto. }
    destruct Hx' as (bx' & Hx' & Eh). rewrite <- Eh. erewrite <- txs_to_ext; [exact (Hsmall x bx' Hx')|].
    intros y. destruct (decide (y = p)) as [->|]; [by rewrite !lookup_insert_eq|]. rewrite !lookup_insert_ne by done. by destruct (mapBlockIndex s !! y).
  - intros x. unfold ahead. change (Tip s1) with (Tip s). destruct (Tip s) as [t|]; [|done]. intros (bt & bx & Ht & Hx & Hw).
    destruct (Hkeep t bt Ht) as (bt' & Ht' & Et & _). destruct (Hkeep x bx Hx) as (bx' & Hx' & Ex & _).
    exists bt', bx'. split_and!; [done..|congruence].
  - intros Hr. exists b'. split_and!; [by rewrite lookup_insert_eq|lia|]. unfold prev_ready in *. cbn [b' bi_with_status bi_received bi_pprev].
    destruct (bi_pprev b) as [q|]; [|done]. destruct Hr as (bq & Hq & Hnq). destruct (Hkeep q bq Hq) as (bq' & Hq' & _ & _ & Eq & _).
    exists bq'. split; [done|congruence].
Qed.

(** [ReceivedBlockTransactions] links every block that waited, or waits. *)
Lemma received_links : exists s', ReceivedBlockTransactions addr block p pos s = Ok s' /\ state_wf s'
  /\ (prev_ready (mapBlockIndex s) b ->
        (forall x, waits_on (mapBlocksUnlinked s) [p] x -> chain_counted s' x /\ (ahead s x -> x ∈ setBlockIndexCandidates s'))
        /\ (forall q x, (q, x) ∈ mapBlocksUnlinked s' <-> (q, x) ∈ mapBlocksUnlinked s /\ ~ waits_on (mapBlocksUnlinked s) [p] q))
  /\ (forall q bq, bi_pprev b = Some q -> mapBlockIndex s !! q = Some bq -> bi_nChainTx bq = 0 ->
        CBlockIndex_IsValid bq BLOCK_VALID_TREE = Ok true -> mapBlocksUnlinked s' = mapBlocksUnlinked s ++ [(q, p)]).
Proof using Hlen Hnew Hp Hsmall W.
  unfold ReceivedBlockTransactions, get_entry. unfold deref at 1. rewrite Hp. mstep.
  destruct (RaiseValidity_ok (bi_received b block pos) BLOCK_VALID_TRANSACTIONS) as (v & st & ->); [done|]. mstep. cbn [snd].
  destruct (received_wf st) as (W1 & Hs1 & Ha1 & Hr1). set (s1 := with_dirty _ _) in *.
  assert (Hloop : prev_ready (mapBlockIndex s) b -> exists s', link_loop addr (S (length (mapBlocksUnlinked s1))) [p] s1 = Ok s' /\ state_wf s'
    /\ (forall x, waits_on (mapBlocksUnlinked s) [p] x -> chain_counted s' x /\ (ahead s x -> x ∈ setBlockIndexCandidates s'))
    /\ (forall q x, (q, x) ∈ mapBlocksUnlinked s' <-> (q, x) ∈ mapBlocksUnlinked s /\ ~ waits_on (mapBlocksUnlinked s) [p] q)).
  { intros Hr. destruct (link_loop_ok (S (length (mapBlocksUnlinked s1))) [p] s1 W1 Hs1) as (s' & E & W' & _ & Hw & HU).
    - intros r Hin. apply list_elem_of_singleton in Hin as ->. by apply Hr1.
    - cbn. lia.
    - exists s'. split_and!; [done..| |exact HU]. intros x Hx. destruct (Hw x Hx) as [H1 H2]. split; [done|]. intros Ha. by apply H2, Ha1. }
  unfold get_prev. cbn [bi_with_status bi_received bi_pprev]. unfold prev_ready in Hloop |- *. pose proof (tw_prev _ (ix_tree _ (sw_index s W)) p b Hp) as Hpr.
  destruct (bi_pprev b) as [q|] eqn:Eq.
  - destruct Hpr as (bq & Hq & Hh). assert (Hq1 : mapBlockIndex s1 !! q = Some bq).
    { cbn. rewrite lookup_insert_ne; [done|]. intros ->. rewrite Hp in Hq. injection Hq as <-. lia. }
    unfold deref. rewrite Hq1. mstep. destruct (Z.eqb_spec (bi_nChainTx bq) 0) as [E0|E0]; cbn [negb].
    + unfold CBlockIndex_IsValid. change (assert_validity_level BLOCK_VALID_TREE) with (Ok tt). mstep.
      assert (Hex : exists v, (if has_status (bi_nStatus bq) BLOCK_FAILED_MASK then Ok false
        else Ok (BLOCK_VALID_TREE <=? Z.land (bi_nStatus bq) BLOCK_VALID_MASK)) = Ok v) by (destruct (has_status _ _); eauto).
      destruct Hex as (valid & Ev). rewrite Ev. mstep. eexists. split; [done|]. split; [|split].
      * destruct valid; [|done]. destruct W1. split; try done. cbn [with_unlinked mapBlocksUnlinked]. intros y x Hin.
        apply elem_of_app in Hin as [Hin|Hin]; [by apply sw_unlinked0|]. apply list_elem_of_singleton in Hin as [= -> ->].
        eexists. split; [apply lookup_insert_eq|]. split; [exact Eq|]. cbn. rewrite u32_small by (unfold is_u32; lia). lia.
      * intros (bq' & Hq' & Hn). congruence.
      * intros q' bq' [= <-] Hq' _ Hv. rewrite Hq in Hq'. injection Hq' as <-.
        change (assert_validity_level BLOCK_VALID_TREE) with (Ok tt) in Hv. cbn [mbind result_bind] in Hv. rewrite Ev in Hv. by injection Hv as ->.
    + destruct Hloop as (s' & E & W' & H1 & H2); [eauto|]. exists s'. split_and!; [done..|].
      intros q' bq' [= <-] Hq' H0 _. congruence.
  - mstep. destruct Hloop as (s' & E & W' & H1 & H2); [done|]. exists s'. split_and!; [done..|]. done.
Qed.
End Receive.

Lemma small_chains_ext m m' : (forall p, match m !! p, m' !! p with
    | Some b, Some b' => bi_pprev b' = bi_pprev b /\ bi_nTx b' = bi_nTx b /\ bi_nHeight b' = bi_nHeight b | None, None => True | _, _ => False end) ->
  small_chains m -> small_chains m'.
Proof using Type.
  intros H Hs p b' Hp. pose proof (H p) as Hx. rewrite Hp in Hx. destruct (m !! p) as [b|] eqn:Hb; [|done]. destruct Hx as (_ & _ & ->).
  rewrite <- (txs_to_ext m m'); [by apply Hs|]. intros q. specialize (H q). destruct (m !! q), (m' !! q); try done. by destruct H as (? & ? & _).
Qed.

(** The data of a counted block again, after its file was pruned: linking gives
    the block the count it had. *)
Lemma received_again block p b pos s : state_wf s -> mapBlockIndex s !! p = Some b -> bi_nChainTx b <> 0 ->
  bi_nTx b = Z.of_nat (length (b_vtx block)) -> Z.of_nat (length (b_vtx block)) < 2 ^ 32 -> small_chains (<[p := bi_received b block pos]> (mapBlockIndex s)) ->
  exists s', ReceivedBlockTransactions addr block p pos s = Ok s' /\ state_wf s'.
Proof using Type.
  intros W Hp Hn Etx Hlen Hsmall. pose proof (ix_count _ (sw_index s W) p b Hp Hn) as [Hprev Hpos Hsum].
  unfold ReceivedBlockTransactions, get_entry. unfold deref at 1. rewrite Hp. mstep.
  destruct (RaiseValidity_ok (bi_received b block pos) BLOCK_VALID_TRANSACTIONS) as (v & st & ->); [done|]. mstep. cbn [snd].
  set (b' := bi_with_status (bi_received b block pos) st). set (s1 := with_dirty p (set_entry p b' s)).
  assert (Etx' : bi_nTx b' = bi_nTx b) by (cbn; rewrite u32_small by (unfold is_u32; lia); done).
  assert (Hsm : small_chains (mapBlockIndex s)).
  { eapply small_chains_ext; [|exact Hsmall]. intros x. destruct (decide (x = p)) as [->|]; [rewrite Hp, lookup_insert_eq; by split_and!|].
    rewrite lookup_insert_ne by done. by destruct (mapBlockIndex s !! x). }
  destruct (linked_count _ p b (sw_index s W) Hsm Hp Hpos Hprev) as (prev & Hg & Hc & _).
  assert (Hg1 : get_prev (mapBlockIndex s1) b' = Ok prev).
  { rewrite <- Hg. unfold get_prev. cbn [b' bi_with_status bi_received bi_pprev]. pose proof (tw_prev _ (ix_tree _ (sw_index s W)) p b Hp) as Hpr.
    destruct (bi_pprev b) as [q|]; [|done]. destruct Hpr as (bq & Hq & Hh). unfold deref. cbn. rewrite lookup_insert_ne; [done|].
    intros ->. rewrite Hp in Hq. injection Hq as <-. lia. }
  set (b2 := bi_linked b' prev (bi_nSequenceId b)). set (s2 := with_dirty p (set_entry p b2 s)).
  assert (Hb2 : same_counts b b2) by (split_and!; [done|done|exact Etx'|cbn [b2 bi_linked bi_nChainTx]; rewrite Etx', Hc; by rewrite Hsum]).
  assert (Hi : same_index (mapBlockIndex s) (mapBlockIndex s2)) by (by apply (same_index_insert _ p b)).
  assert (W2 : state_wf s2).
  { apply (state_wf_same s); [done..| |done|].
    - intros q x Hx. destruct (sw_unlinked s W q x Hx) as (bx & Hbx & Hq & Ht). specialize (Hi x). rewrite Hbx in Hi.
      destruct (mapBlockIndex s2 !! x) as [bx'|]; [|done]. destruct Hi as (Epl & _ & Et & _). apply place_eq in Epl as (Epp & _ & _). exists bx'. split_and!; [done|congruence|lia].
    - intros x Hx. destruct (sw_invalid s W x Hx) as [bx Hbx]. specialize (Hi x). rewrite Hbx in Hi. destruct (mapBlockIndex s2 !! x); [by eexists|done]. }
  assert (Hsame : forall n, link_loop addr (S n) [p] s1 = link_loop addr (S n) [p] s2).
  { intros n. cbn [link_loop]. f_equal. unfold link_block, get_entry, deref.
    assert (Hg2 : get_prev (mapBlockIndex s2) b2 = Ok prev).
    { rewrite <- Hg1. unfold get_prev. cbn [b2 bi_linked bi_pprev]. cbn [b' bi_with_status bi_received bi_pprev].
      pose proof (tw_prev _ (ix_tree _ (sw_index s W)) p b Hp) as Hpr. destruct (bi_pprev b) as [q|]; [|done]. destruct Hpr as (bq & Hq & Hh).
      unfold deref. cbn. rewrite !lookup_insert_ne; [done|..]; intros ->; rewrite Hp in Hq; injection Hq as <-; lia. }
    replace (mapBlockIndex s1 !! p) with (Some b') by (symmetry; apply lookup_insert_eq).
    replace (mapBlockIndex s2 !! p) with (Some b2) by (symmetry; apply lookup_insert_eq). mstep. rewrite Hg1, Hg2. mstep.
    assert (Eset : forall x, set_entry p x s1 = set_entry p x s2) by (intros x; unfold s1, s2, set_entry, with_dirty, with_map; cbn; by rewrite !insert_insert_eq).
    change (bi_linked b2 prev (nBlockSequenceId s2)) with (bi_linked b' prev (nBlockSequenceId s1)). by rewrite Eset. }
  assert (Hloop : exists s', link_loop addr (S (length (mapBlocksUnlinked s1))) [p] s1 = Ok s' /\ state_wf s').
  { rewrite Hsame. destruct (link_loop_ok (S (length (mapBlocksUnlinked s2))) [p] s2 W2) as (s' & E & W' & _); [| |cbn; lia|by exists s'].
    - eapply small_chains_ext; [|exact Hsm]. intros x. specialize (Hi x). unfold same_counts in Hi. destruct (mapBlockIndex s !! x), (mapBlockIndex s2 !! x); try done.
      destruct Hi as (Epl & _ & Et & _). by apply place_eq in Epl as (? & _ & ?).
    - intros r Hin. apply list_elem_of_singleton in Hin as ->. exists b2. split; [apply lookup_insert_eq|]. split; [unfold b2; cbn [bi_linked bi_nTx]; lia|].
      apply (ix_count _ (sw_index s2 W2) p b2); [apply lookup_insert_eq|]. destruct Hb2 as (_ & _ & _ & ->). done. }
  rewrite Hg1. mstep. cbn [b' bi_with_status bi_received bi_pprev] in *. unfold get_prev in Hg. destruct (bi_pprev b) as [q|]; [|by injection Hg as <-].
  destruct Hprev as (bq & Hq & Hnq). unfold deref in Hg. rewrite Hq in Hg. injection Hg as <-. by apply Z.eqb_neq in Hnq as ->.
Qed.
End Best.
