(* ===== verification/ChainSteps.v ===== *)
(** * Every state the block index can reach

    The operations of ChainState.v as steps of a transition system, and the
    invariant of BestChain.v in every state it reaches from the empty one. *)
From stdpp Require Import prelude gmap strings list relations.
From S2P Require Import Prelude Transaction Serialize Block ArithUint256 ChainParams Chain Pow Checks ChainState ChainShape BestChain.
#[local] Open Scope Z_scope.

(** ** Operations that change status bits and pointers *)

Lemma state_wf_entry s p b b' : state_wf s -> mapBlockIndex s !! p = Some b -> same_counts b b' -> state_wf (set_entry p b' s).
Proof.
  intros W Hp Hsc. pose proof (same_index_insert (mapBlockIndex s) p b b' Hp Hsc) as Hs.
  assert (Hk : forall x bx, mapBlockIndex s !! x = Some bx -> exists bx', mapBlockIndex (set_entry p b' s) !! x = Some bx' /\ same_counts bx bx').
  { intros x bx Hx. specialize (Hs x). rewrite Hx in Hs. cbn. destruct (<[p := _]> _ !! x) as [bx'|]; [by exists bx'|done]. }
  apply (state_wf_same s); try done.
  - intros q x Hx. destruct (sw_unlinked s W q x Hx) as (bx & Hbx & Eq & Ht). destruct (Hk x bx Hbx) as (bx' & Hx' & Epl & _ & Et & _).
    apply place_eq in Epl as (Epp & _ & _). exists bx'. split_and!; [done|congruence|lia].
  - intros x Hx. destruct (sw_invalid s W x Hx) as [bx Hbx]. destruct (Hk x bx Hbx) as (bx' & Hx' & _). eauto.
Qed.
Lemma state_wf_status s p b st : state_wf s -> mapBlockIndex s !! p = Some b -> state_wf (set_entry p (bi_with_status b st) s).
Proof. intros W Hp. by apply (state_wf_entry s p b); [..|apply with_status_counts]. Qed.

Lemma state_wf_dirty s p : state_wf s -> state_wf (with_dirty p s).
Proof. intros []. by split. Qed.

Lemma state_wf_drop s (f : gset uint256 -> gset uint256) : state_wf s -> (forall c, f c ⊆ c) -> state_wf (with_candidates f s).
Proof. intros [] Hf. split; try done. intros p Hp. apply sw_candidates. by apply Hf in Hp. Qed.

Lemma state_wf_candidate s p b : state_wf s -> mapBlockIndex s !! p = Some b -> bi_nChainTx b <> 0 -> state_wf (with_candidates ({[p]} ∪.) s).
Proof.
  intros [] Hp Hn. split; try done. cbn. intros x Hx. apply elem_of_union in Hx as [Hx|Hx]; [|by apply sw_candidates].
  apply elem_of_singleton in Hx as ->. eauto.
Qed.

Lemma state_wf_best_invalid s p : state_wf s -> match p with Some q => is_Some (mapBlockIndex s !! q) | None => True end ->
  state_wf (with_best_invalid p s).
Proof. intros [] Hp. split; try done. cbn. intros q ->. exact Hp. Qed.

Lemma get_entry_Ok s p b : get_entry s p = Ok b <-> mapBlockIndex s !! p = Some b.
Proof. unfold get_entry, deref. destruct (mapBlockIndex s !! p); naive_solver. Qed.

Lemma update_best_invalid_wf s p s' : state_wf s -> update_best_invalid p s = Ok s' -> state_wf s'.
Proof.
  intros W E. unfold update_best_invalid in E. ok_inv. apply get_entry_Ok in E0. subst.
  destruct a0; [|done]. apply state_wf_best_invalid; [done|]. eauto.
Qed.

Lemma add_status_wf s mask p s' : state_wf s -> add_status mask p s = Ok s' -> state_wf s'.
Proof. intros W E. unfold add_status in E. ok_inv. apply get_entry_Ok in E0. subst. by apply state_wf_status. Qed.

Lemma InvalidBlockFound_wf ibd p st s w s' w' : state_wf s -> InvalidBlockFound ibd p st s w = Ok (s', w') -> state_wf s'.
Proof.
  intros W E. unfold InvalidBlockFound in E. destruct (corruptionPossible st); [by injection E as <- <-|]. ok_inv.
  unfold InvalidChainFound in E. ok_inv. eapply update_best_invalid_wf; [|done].
  apply state_wf_drop; [|set_solver]. apply state_wf_dirty. by apply (add_status_wf s) in E0.
Qed.

(** A loop whose body keeps a property. *)
Lemma foldM_keeps {A B} (P : A -> Prop) (f : A -> B -> result A) l :
  (forall a b a', P a -> f a b = Ok a' -> P a') -> forall a a', P a -> foldM f l a = Ok a' -> P a'.
Proof.
  intros Hf. induction l as [|b l IH]; intros a a' Ha E; cbn [foldM] in E; [by injection E as <-|]. ok_inv.
  apply (IH a0); [by apply (Hf a b)|done].
Qed.

Lemma clear_failed_wf s p b : state_wf s -> mapBlockIndex s !! p = Some b -> state_wf (clear_failed p b s).
Proof. intros W Hp. apply state_wf_dirty. by apply state_wf_status. Qed.

Section Keep.
Context (addr : uint256 -> Z).

Lemma PruneBlockIndexCandidates_wf s s' : state_wf s -> PruneBlockIndexCandidates addr s = Ok s' -> state_wf s'.
Proof.
  intros W E. unfold PruneBlockIndexCandidates in E. destruct (Tip s); [|done]. ok_inv. apply state_wf_drop; [done|set_solver].
Qed.

Lemma reconsider_step_wf pindex h s it s' : state_wf s -> reconsider_step addr pindex h s it = Ok s' -> state_wf s'.
Proof.
  intros W E. unfold reconsider_step in E. apply bind_Ok in E as (b & Eb & E). apply get_entry_Ok in Eb.
  apply bind_Ok in E as (valid & Ev & E). apply bind_Ok in E as (a & Ea & E). destruct (_ && _); [|by injection E as <-].
  pose proof (clear_failed_wf s it b W Eb) as W1. set (s1 := clear_failed it b s) in *.
  apply bind_Ok in E as (b1 & Eb1 & E). apply get_entry_Ok in Eb1. apply bind_Ok in E as (valid1 & Ev1 & E).
  apply bind_Ok in E as (better & Ebt & E). injection E as <-.
  assert (W2 : state_wf (if better then with_candidates ({[it]} ∪.) s1 else s1)).
  { destruct better; [|done]. destruct (_ && _) eqn:Ec in Ebt; [|done]. apply andb_true_iff in Ec as [_ Ec].
    apply negb_true_iff, Z.eqb_neq in Ec. by apply (state_wf_candidate s1 it b1). }
  case_bool_decide; [|done]. by apply state_wf_best_invalid.
Qed.

Lemma reconsider_ancestors_wf fuel : forall p s s', state_wf s -> reconsider_ancestors fuel p s = Ok s' -> state_wf s'.
Proof.
  induction fuel as [|fuel IH]; intros [p|] s s' W E; cbn [reconsider_ancestors] in E; try (by injection E as <-); [done|].
  apply bind_Ok in E as (b & Eb & E). apply get_entry_Ok in Eb. apply IH in E; [done|].
  destruct (has_status _ _); [by apply clear_failed_wf|done].
Qed.

Lemma ReconsiderBlock_wf pindex s s' : state_wf s -> ReconsiderBlock addr pindex s = Ok s' -> state_wf s'.
Proof.
  intros W E. unfold ReconsiderBlock in E. apply bind_Ok in E as (b & Eb & E). apply bind_Ok in E as (s1 & E1 & E).
  eapply reconsider_ancestors_wf; [|exact E]. eapply (foldM_keeps state_wf); [|exact W|exact E1].
  intros a x a' Wa Ea. by eapply reconsider_step_wf.
Qed.

(** Pruning changes each entry of the file once, from what it was. *)
Lemma prune_entry_wf n p b s : state_wf s -> mapBlockIndex s !! p = Some b -> state_wf (prune_entry n p b s).
Proof.
  intros W Hp. unfold prune_entry. destruct (_ =? n); [|done]. set (b' := bi_pruned b).
  pose proof (same_index_insert (mapBlockIndex s) p b b' Hp ltac:(done)) as Hs.
  assert (Hk : forall x bx, mapBlockIndex s !! x = Some bx -> exists bx', <[p := b']> (mapBlockIndex s) !! x = Some bx' /\ same_counts bx bx').
  { intros x bx Hx. specialize (Hs x). rewrite Hx in Hs. destruct (<[p := _]> _ !! x) as [bx'|]; [by exists bx'|done]. }
  apply (state_wf_same s); try done.
  - cbn. intros q x Hx. apply list_elem_of_filter in Hx as [_ Hx].
    destruct (sw_unlinked s W q x Hx) as (bx & Hbx & Eq & Ht). destruct (Hk x bx Hbx) as (bx' & Hx' & Epl & _ & Et & _).
    apply place_eq in Epl as (Epp & _ & _). exists bx'. split_and!; [done|congruence|lia].
  - cbn. intros x Hx. destruct (sw_invalid s W x Hx) as [bx Hbx]. destruct (Hk x bx Hbx) as (bx' & Hx' & _). eauto.
Qed.

Lemma prune_entry_other n p b s x : x <> p -> mapBlockIndex (prune_entry n p b s) !! x = mapBlockIndex s !! x.
Proof. intros Hne. unfold prune_entry. destruct (_ =? n); [|done]. cbn. by rewrite lookup_insert_ne. Qed.

Lemma PruneOneBlockFile_wf n s f s' f' : state_wf s -> PruneOneBlockFile n s f = Ok (s', f') -> state_wf s'.
Proof.
  intros W E. unfold PruneOneBlockFile in E. apply bind_Ok in E as (i & _ & E). injection E as <- _.
  assert (HP : forall m, m ⊆ mapBlockIndex s -> state_wf (map_fold (prune_entry n) s m)
    /\ forall x, m !! x = None -> mapBlockIndex (map_fold (prune_entry n) s m) !! x = mapBlockIndex s !! x).
  { intros m Hm. apply (map_fold_weak_ind (fun r m => m ⊆ mapBlockIndex s -> state_wf r /\ forall x, m !! x = None -> mapBlockIndex r !! x = mapBlockIndex s !! x)); [done| |done].
    intros p b m' r Hp IH Hsub. assert (Hsub' : m' ⊆ mapBlockIndex s) by (etrans; [by apply insert_subseteq|done]).
    destruct (IH Hsub') as [Wr Hr]. assert (Hpb : mapBlockIndex r !! p = Some b).
    { rewrite Hr by done. by apply (lookup_weaken (<[p := b]> m')); [apply lookup_insert_eq|]. }
    split; [by apply prune_entry_wf|]. intros x Hx. apply lookup_insert_None in Hx as [Hx Hne]. rewrite prune_entry_other by done. by apply Hr. }
  by apply HP.
Qed.

(** ** Steps *)

(** One operation on the block index: a new header, the data of a block, for
    the first time or again after its file was pruned, a new tip, an invalid block, the search for the best chain, the
    pruning of candidates and of block files, a block reconsidered. *)
Inductive index_step (s : ChainState) : ChainState -> Prop :=
| step_header hash block s' : is_u32 (nBits block) -> hash <> hashPrevBlock block ->
    AddToBlockIndex hash block s = Ok (hash, s') -> index_step s s'
| step_block block p b pos s' : mapBlockIndex s !! p = Some b ->
    bi_nTx b = 0 \/ bi_nTx b = Z.of_nat (length (b_vtx block)) -> 0 < Z.of_nat (length (b_vtx block)) < 2 ^ 32 -> small_chains (<[p := bi_received b block pos]> (mapBlockIndex s)) ->
    ReceivedBlockTransactions addr block p pos s = Ok s' -> index_step s s'
| step_tip p c : CChain_SetTip (mapBlockIndex s) (chainActive s) p = Ok c -> index_step s (with_chain c s)
| step_invalid ibd p st w s' w' : InvalidBlockFound ibd p st s w = Ok (s', w') -> index_step s s'
| step_best pr r s' : FindMostWorkChain addr pr s = Ok (r, s') -> index_step s s'
| step_prune s' : PruneBlockIndexCandidates addr s = Ok s' -> index_step s s'
| step_prune_file n f s' f' : PruneOneBlockFile n s f = Ok (s', f') -> index_step s s'
| step_reconsider p s' : ReconsiderBlock addr p s = Ok s' -> index_step s s'.

(** The node before it has read or received anything. *)
Definition ChainState_empty : ChainState := mkChainState ∅ [] None None ∅ [] ∅ 1.

Lemma ChainState_empty_wf : state_wf ChainState_empty.
Proof.
  split; [|by left|..]; cbn; try done; try (by intros; set_solver).
Qed.

Lemma SetTip_wf s p c : state_wf s -> CChain_SetTip (mapBlockIndex s) (chainActive s) p = Ok c -> state_wf (with_chain c s).
Proof.
  intros W E. assert (Hc : chain_wf (mapBlockIndex s) c).
  { destruct p as [p|]; [|injection E as <-; by left]. destruct (mapBlockIndex s !! p) as [b|] eqn:Hp.
    - destruct (SetTip_ok _ (ix_tree _ (sw_index s W)) (chainActive s) p b (sw_chain s W) Hp) as (c' & E' & Hb).
      rewrite E in E'. injection E' as <-. right. by exists p.
    - unfold CChain_SetTip, deref in E. by rewrite Hp in E. }
  destruct W. by split.
Qed.

Lemma FindMostWorkChain_ok pr s : state_wf s -> exists r s', FindMostWorkChain addr pr s = Ok (r, s') /\ narrowed pr s s' /\
  match r with
  | Some p => p ∈ setBlockIndexCandidates s /\ usable pr (mapBlockIndex s) (chainActive s) p
      /\ forall q, q ∈ setBlockIndexCandidates s -> usable pr (mapBlockIndex s) (chainActive s) q ->
         ~ worse_than addr (mapBlockIndex s) p q
  | None => forall q, q ∈ setBlockIndexCandidates s -> ~ usable pr (mapBlockIndex s) (chainActive s) q
  end.
Proof. intros W. apply most_work_loop_ok; [done|by apply narrowed_refl|lia]. Qed.

Lemma index_step_wf s s' : state_wf s -> index_step s s' -> state_wf s'.
Proof.
  intros W [hash block s1 Hb Hne E|block p b pos s1 Hp Hn Hl Hs E|p c E|ibd p st w s1 w' E|pr r s1 E|s1 E|n f s1 f' E|p s1 E].
  - destruct (mapBlockIndex s !! hash) as [x|] eqn:Hh; [unfold AddToBlockIndex in E; rewrite Hh in E; by injection E as <-|].
    destruct (AddToBlockIndex_ok hash block s W Hb Hne Hh) as (s2 & b & E2 & W2 & _). rewrite E in E2. by injection E2 as <-.
  - destruct (decide (bi_nChainTx b = 0)) as [H0|Hc].
    + destruct (received_links addr block p b pos s W Hp H0 Hl Hs) as (s2 & E2 & W2 & _). rewrite E in E2. by injection E2 as <-.
    + destruct Hn as [Hn|Hn]; [by apply (not_counted s p b W Hp) in Hn|].
      destruct (received_again addr block p b pos s W Hp Hc Hn (proj2 Hl) Hs) as (s2 & E2 & W2). rewrite E in E2. by injection E2 as <-.
  - by apply (SetTip_wf s p).
  - by apply InvalidBlockFound_wf in E.
  - destruct (FindMostWorkChain_ok pr s W) as (r2 & s2 & E2 & Hnw & _). rewrite E in E2. injection E2 as <- <-. by apply narrowed_wf in Hnw.
  - by apply PruneBlockIndexCandidates_wf in E.
  - by apply PruneOneBlockFile_wf in E.
  - by apply ReconsiderBlock_wf in E.
Qed.

Lemma index_steps_wf s s' : state_wf s -> rtc index_step s s' -> state_wf s'.
Proof. intros W H. induction H as [|x y z Hxy _ IH]; [done|]. apply IH. by apply (index_step_wf x). Qed.
End Keep.

(** (C16) The block index is well formed in every state the node can reach:
    whatever sequence of headers, blocks (with their data for the first time,
    or again once it was pruned), tips, failures, searches, prunings and
    reconsiderations led to it, heights count predecessors and skip
    pointers lead to ancestors, the active chain is one branch of the tree,
    chain counts are set exactly over predecessors that have them and are the
    number of transactions of the chain, candidates are blocks with a chain
    count, and every stored pointer leads to an entry; so the search for the
    best chain never meets a null pointer or a failed assertion. *)
Theorem reachable_index_wf (addr : uint256 -> Z) (s : ChainState) (Hr : rtc (index_step addr) ChainState_empty s) :
  state_wf s /\ forall pr, exists r s', FindMostWorkChain addr pr s = Ok (r, s') /\ state_wf s'.
Proof.
  assert (W : state_wf s) by (apply (index_steps_wf addr ChainState_empty); [apply ChainState_empty_wf|done]).
  split; [done|]. intros pr. destruct (FindMostWorkChain_ok addr pr s W) as (r & s' & E & Hn & _). exists r, s'.
  split; [done|]. by apply narrowed_wf in Hn.
Qed.

(** (C14) [FindMostWorkChain] ends, and finds the best chain: when it returns a
    block, that block was a candidate, all blocks from it down to the active
    chain are usable (not failed, data at hand, no protected reorganisation),
    and no usable candidate sorts after it; it returns null only when no
    candidate is usable.  It removes no usable candidate, marks only blocks of
    unusable branches as failed, and keeps the block index well formed. *)
Theorem FindMostWorkChain_finds (addr : uint256 -> Z) (pr : Protection) (s : ChainState) (W : state_wf s) :
  exists r s', FindMostWorkChain addr pr s = Ok (r, s') /\ state_wf s'
  /\ match r with
     | Some p => p ∈ setBlockIndexCandidates s /\ usable pr (mapBlockIndex s) (chainActive s) p
         /\ forall q, q ∈ setBlockIndexCandidates s -> usable pr (mapBlockIndex s) (chainActive s) q ->
            ~ worse_than addr (mapBlockIndex s) p q
     | None => forall q, q ∈ setBlockIndexCandidates s -> ~ usable pr (mapBlockIndex s) (chainActive s) q
     end
  /\ (forall q, q ∈ setBlockIndexCandidates s' -> q ∈ setBlockIndexCandidates s)
  /\ (forall q, q ∈ setBlockIndexCandidates s -> usable pr (mapBlockIndex s) (chainActive s) q -> q ∈ setBlockIndexCandidates s')
  /\ forall q, entry_kept (~ usable pr (mapBlockIndex s) (chainActive s) q) (mapBlockIndex s !! q) (mapBlockIndex s' !! q).
Proof.
  destruct (FindMostWorkChain_ok addr pr s W) as (r & s' & E & Hn & Hr). exists r, s'. split_and!; [done|by apply narrowed_wf in Hn|done| | |].
  - intros q. apply (nw_sub _ _ _ Hn).
  - intros q Hq Hu. destruct (decide (q ∈ setBlockIndexCandidates s')) as [|Hx]; [done|]. by destruct (nw_dropped _ _ _ Hn q Hq Hx).
  - apply Hn.
Qed.

(** (C15) No block is lost.  When the transactions of a block arrive for the
    first time, [ReceivedBlockTransactions] ends, keeps the block index well
    formed, and: if the predecessors have all had their transactions, then so
    has now every block that waited for this one, directly or through others,
    each of them with more work than the tip is a candidate for the best chain,
    and nothing waits for a linked block any more; otherwise the block waits for
    its predecessor, unless that one is known to be invalid. *)
Theorem ReceivedBlockTransactions_links (addr : uint256 -> Z) (block : CBlock) (p : uint256) (b : CBlockIndex) (pos : CDiskBlockPos)
  (s : ChainState) (W : state_wf s) (Hp : mapBlockIndex s !! p = Some b) (Hnew : bi_nTx b = 0)
  (Hlen : 0 < Z.of_nat (length (b_vtx block)) < 2 ^ 32)
  (Hsmall : small_chains (<[p := bi_received b block pos]> (mapBlockIndex s))) :
  exists s', ReceivedBlockTransactions addr block p pos s = Ok s' /\ state_wf s'
  /\ (prev_ready (mapBlockIndex s) b ->
        (forall x, waits_on (mapBlocksUnlinked s) [p] x -> chain_counted s' x /\ (ahead s x -> x ∈ setBlockIndexCandidates s'))
        /\ (forall q x, (q, x) ∈ mapBlocksUnlinked s' <-> (q, x) ∈ mapBlocksUnlinked s /\ ~ waits_on (mapBlocksUnlinked s) [p] q))
  /\ (forall q bq, bi_pprev b = Some q -> mapBlockIndex s !! q = Some bq -> bi_nChainTx bq = 0 ->
        CBlockIndex_IsValid bq BLOCK_VALID_TREE = Ok true -> mapBlocksUnlinked s' = mapBlocksUnlinked s ++ [(q, p)]).
Proof. apply received_links; [done|done|by apply (not_counted s p)|done|done]. Qed.

(** ** Example

    Three headers 10 - 11 - 12; the data of 12 arrives before that of 11. *)
Definition example_addr (p : uint256) : Z := p.
Definition example_header (prev : uint256) : CBlockHeader := mkHeader 4 prev 0 0 1000 0x2007ffff 0 [].
Definition example_data (prev : uint256) : CBlock :=
  mkCBlock (example_header prev) [mkTx true 4 SAPLING_VERSION_GROUP_ID [] [] 0 0 0 [] [] [] [] [] []] [] [].
Definition state_of {A} (r : result (A * ChainState)) : ChainState := match r with Ok x => x.2 | _ => ChainState_empty end.
Definition state_of1 (r : result ChainState) : ChainState := match r with Ok x => x | _ => ChainState_empty end.
Definition add_example (hash prev : uint256) (s : ChainState) : ChainState := state_of (AddToBlockIndex hash (example_header prev) s).
Definition receive_example (hash prev : uint256) (s : ChainState) : ChainState :=
  state_of1 (ReceivedBlockTransactions example_addr (example_data prev) hash (mkDiskPos 0 8) s).
Definition example_headers : ChainState := add_example 12 11 (add_example 11 10 (add_example 10 0 ChainState_empty)).
Definition example_waiting : ChainState := receive_example 12 11 (receive_example 10 0 example_headers).

Lemma small_chains_check m : bool_decide (map_Forall (fun p b => txs_to (Z.to_nat (bi_nHeight b)) m p < 2 ^ 32) m) = true -> small_chains m.
Proof. intros H. by apply bool_decide_eq_true in H. Qed.

Lemma add_example_step hash prev s : hash <> prev -> AddToBlockIndex hash (example_header prev) s = Ok (hash, add_example hash prev s) ->
  index_step example_addr s (add_example hash prev s).
Proof. intros Hne E. apply (step_header _ _ hash (example_header prev)); [unfold is_u32; cbn; lia|done|done]. Qed.

Lemma receive_example_step hash prev s b : mapBlockIndex s !! hash = Some b -> bi_nTx b = 0 ->
  bool_decide (map_Forall (fun p x => txs_to (Z.to_nat (bi_nHeight x)) (<[hash := bi_received b (example_data prev) (mkDiskPos 0 8)]> (mapBlockIndex s)) p < 2 ^ 32)
    (<[hash := bi_received b (example_data prev) (mkDiskPos 0 8)]> (mapBlockIndex s))) = true ->
  ReceivedBlockTransactions example_addr (example_data prev) hash (mkDiskPos 0 8) s = Ok (receive_example hash prev s) ->
  index_step example_addr s (receive_example hash prev s).
Proof.
  intros Hb Ht Hs E. apply (step_block _ _ (example_data prev) hash b (mkDiskPos 0 8)); [done|by left|cbn; lia|by apply small_chains_check|done].
Qed.

Lemma example_waiting_reached : rtc (index_step example_addr) ChainState_empty example_waiting.
Proof.
  apply (rtc_l _ _ (add_example 10 0 ChainState_empty)); [by apply add_example_step|].
  apply (rtc_l _ _ (add_example 11 10 (add_example 10 0 ChainState_empty))); [by apply add_example_step; [|vm_compute]|].
  apply (rtc_l _ _ example_headers); [by apply add_example_step; [|vm_compute]|].
  apply (rtc_l _ _ (receive_example 10 0 example_headers)); [by eapply receive_example_step; [vm_compute; reflexivity|..]; vm_compute|].
  apply rtc_once. by eapply receive_example_step; [vm_compute; reflexivity|..]; vm_compute.
Qed.

Lemma reachable_index_wf_witness : state_wf example_waiting /\ mapBlocksUnlinked example_waiting = [(11, 12)].
Proof.
  split; [|by vm_compute]. exact (proj1 (reachable_index_wf example_addr example_waiting example_waiting_reached)).
Defined.

Lemma example_waiting_wf : state_wf example_waiting.
Proof. apply (index_steps_wf example_addr ChainState_empty); [apply ChainState_empty_wf|apply example_waiting_reached]. Qed.

Definition example_entry : CBlockIndex := default CBlockIndex_SetNull (mapBlockIndex example_waiting !! 11).

(** When the data of 11 arrives, 12 is linked too and becomes a candidate. *)
Lemma ReceivedBlockTransactions_links_witness :
  exists s', ReceivedBlockTransactions example_addr (example_data 10) 11 (mkDiskPos 0 8) example_waiting = Ok s'
  /\ chain_counted s' 12 /\ 12 ∈ setBlockIndexCandidates s'.
Proof.
  destruct (ReceivedBlockTransactions_links example_addr (example_data 10) 11 example_entry (mkDiskPos 0 8) example_waiting
    example_waiting_wf) as (s' & E & W' & Hl & _).
  - vm_compute. reflexivity.
  - vm_compute. reflexivity.
  - cbn. lia.
  - apply small_chains_check. vm_compute. reflexivity.
  - exists s'. split; [exact E|].
    assert (Hr : prev_ready (mapBlockIndex example_waiting) example_entry).
    { vm_compute. eexists. split; [reflexivity|discriminate]. }
    destruct (proj1 (Hl Hr) 12) as [Hc Ha].
    + apply (waits_step _ _ 11); [apply waits_queue, list_elem_of_here|]. change (mapBlocksUnlinked example_waiting) with [(11, 12)]. apply list_elem_of_here.
    + split; [exact Hc|]. apply Ha. unfold ahead. by vm_compute.
Defined.

(** Without the data of 11 the best chain ends in 10. *)
Lemma FindMostWorkChain_finds_witness :
  (exists s', FindMostWorkChain example_addr (mkProtection false 0 0) example_waiting = Ok (Some 10, s'))
  /\ usable (mkProtection false 0 0) (mapBlockIndex example_waiting) (chainActive example_waiting) 10.
Proof.
  destruct (FindMostWorkChain_finds example_addr (mkProtection false 0 0) example_waiting example_waiting_wf) as (r & s' & E & _ & Hr & _).
  assert (Er : r = Some 10) by (vm_compute in E; injection E as Er _; by symmetry).
  rewrite Er in E, Hr. split; [exists s'; exact E|]. exact (proj1 (proj2 Hr)).
Defined.
