(* ===== verification/BlockFileAlloc.v ===== *)
(** * Positions in block files

    [FindBlockPos] hands out the positions at which blocks are written.  It
    ends, stays below the size limit of a file, and never hands out the same
    byte twice. *)
From stdpp Require Import prelude gmap strings list.
From S2P Require Import Prelude Transaction Serialize Block ArithUint256 ChainParams Chain Pow Checks ChainState.
#[local] Open Scope Z_scope.

(** Files are below the size limit and the last one is at most one beyond
    those known. *)
Definition files_wf (f : BlockFiles) : Prop :=
  Forall (fun i => 0 <= fi_nSize i < MAX_BLOCKFILE_SIZE) (vinfoBlockFile f)
  /\ 0 <= nLastBlockFile f <= Z.of_nat (length (vinfoBlockFile f)).

Definition file_size (f : BlockFiles) (n : Z) : Z := from_option fi_nSize 0 (vinfoBlockFile f !! Z.to_nat n).

Lemma grow_lookup v n i : from_option fi_nSize 0 (grow_files v n !! i) = from_option fi_nSize 0 (v !! i).
Proof.
  unfold grow_files. destruct (Nat.lt_ge_cases i (length v)); [by rewrite lookup_app_l|].
  rewrite lookup_app_r, (lookup_ge_None_2 v) by lia. destruct (replicate _ _ !! _) as [x|] eqn:E; [|done].
  by apply lookup_replicate in E as [-> _].
Qed.
Lemma grow_length v n : (n < length (grow_files v n))%nat.
Proof. unfold grow_files. rewrite length_app, length_replicate. lia. Qed.
Lemma grow_Forall v n : Forall (fun i => 0 <= fi_nSize i < MAX_BLOCKFILE_SIZE) v ->
  Forall (fun i => 0 <= fi_nSize i < MAX_BLOCKFILE_SIZE) (grow_files v n).
Proof. intros H. apply Forall_app. split; [done|]. apply Forall_replicate. done. Qed.

(** The search ends at a file with room: at the latest behind the last one. *)
Lemma find_file_ok nAddSize : 0 <= nAddSize < MAX_BLOCKFILE_SIZE -> forall fuel v nFile,
  Forall (fun i => 0 <= fi_nSize i < MAX_BLOCKFILE_SIZE) v -> (nFile < length v)%nat -> (length v - nFile <= fuel)%nat ->
  exists n v' i, find_file fuel v nFile nAddSize = Ok (n, v') /\ v' !! n = Some i
    /\ Forall (fun i => 0 <= fi_nSize i < MAX_BLOCKFILE_SIZE) v' /\ fi_nSize i + nAddSize < MAX_BLOCKFILE_SIZE
    /\ (length v' <= S (length v))%nat /\ forall k, from_option fi_nSize 0 (v' !! k) = from_option fi_nSize 0 (v !! k).
Proof.
  intros Ha. induction fuel as [|fuel IH]; intros v nFile Hv Hlt Hf; [lia|].
  cbn [find_file]. destruct (lookup_lt_is_Some_2 v nFile Hlt) as [i Hi]. unfold index_or_abort. rewrite Hi. mstep.
  pose proof Hv as Hs. rewrite Forall_lookup in Hs. specialize (Hs _ _ Hi). cbn in Hs. unfold MAX_BLOCKFILE_SIZE in *.
  rewrite u32_small by (unfold is_u32; lia). destruct (Z.leb_spec 0x8000000 (fi_nSize i + nAddSize)) as [Hge|Hle].
  2:{ exists nFile, v, i. split_and!; try done; lia. }
  destruct (Nat.lt_ge_cases (S nFile) (length v)) as [Hin|Hout].
  - assert (Eg : grow_files v (S nFile) = v).
    { unfold grow_files. replace (S (S nFile) - length v)%nat with 0%nat by lia. apply app_nil_r. }
    rewrite Eg. destruct (IH v (S nFile) Hv Hin) as (n & v' & i' & E & H1 & H2 & H3 & H4 & H5); [lia|].
    exists n, v', i'. split_and!; try done; lia.
  - pose proof (grow_length v (S nFile)) as Hgl. assert (Hgs : from_option fi_nSize 0 (grow_files v (S nFile) !! S nFile) = 0).
    { rewrite grow_lookup. by rewrite lookup_ge_None_2. }
    destruct (lookup_lt_is_Some_2 _ _ Hgl) as [i' Hi']. rewrite Hi' in Hgs. cbn in Hgs.
    assert (Hex : exists i'', find_file fuel (grow_files v (S nFile)) (S nFile) nAddSize = Ok (S nFile, grow_files v (S nFile)) /\ i'' = i').
    { exists i'. split; [|done]. destruct fuel; cbn [find_file]; unfold index_or_abort, MAX_BLOCKFILE_SIZE; rewrite Hi'; mstep;
        rewrite Hgs, u32_small, (proj2 (Z.leb_gt _ _)) by (unfold is_u32; lia); done. }
    destruct Hex as (_ & E & _). exists (S nFile), (grow_files v (S nFile)), i'.
    split_and!; [exact E|done|by apply grow_Forall|lia|unfold grow_files; rewrite length_app, length_replicate; lia|]. intros k. apply grow_lookup.
Qed.

Section Alloc.
Context (CheckDiskSpace : Z -> bool) (fPruneMode : bool).

Lemma allocate_files nPos nSize chunk f : exists o d, allocate CheckDiskSpace fPruneMode nPos nSize chunk f
  = (o, mkBlockFiles (vinfoBlockFile f) (nLastBlockFile f) (setDirtyFileInfo f) d) /\ (o = Pass tt \/ o = Fail (FailError "out of disk space")).
Proof using Type.
  assert (Ef : f = mkBlockFiles (vinfoBlockFile f) (nLastBlockFile f) (setDirtyFileInfo f) (fCheckForPruning f)) by by destruct f.
  unfold allocate. destruct (_ <? _); [|exists (Pass tt), (fCheckForPruning f); rewrite <- Ef; auto].
  destruct (CheckDiskSpace _), fPruneMode; [exists (Pass tt), true|exists (Pass tt), (fCheckForPruning f)|eexists _, true|eexists _, (fCheckForPruning f)];
    rewrite <- ?Ef; auto.
Qed.

(** One allocation: the range handed out starts at the old end of its file and
    ends at the new one. *)
Lemma FindBlockPos_alloc pos0 nAddSize nHeight nTime f : files_wf f -> 0 <= nAddSize < MAX_BLOCKFILE_SIZE ->
  Z.of_nat (length (vinfoBlockFile f)) < 2 ^ 31 ->
  exists o f' pos, FindBlockPos CheckDiskSpace fPruneMode pos0 nAddSize nHeight nTime false f = (o, f')
    /\ (o = Pass pos \/ o = Fail (FailError "out of disk space")) /\ files_wf f'
    /\ 0 <= dp_nFile pos /\ dp_nPos pos = file_size f (dp_nFile pos) /\ file_size f' (dp_nFile pos) = dp_nPos pos + nAddSize
    /\ (forall n, 0 <= n -> n <> dp_nFile pos -> file_size f' n = file_size f n)
    /\ (length (vinfoBlockFile f') <= 2 + length (vinfoBlockFile f))%nat.
Proof using Type.
  intros [Hv Hl] Ha Hn. unfold FindBlockPos, mbind, scheck_bind, action. rewrite u32_small by (unfold is_u32; lia).
  set (n0 := Z.to_nat (nLastBlockFile f)). set (v0 := grow_files (vinfoBlockFile f) n0).
  assert (Hl0 : (length v0 <= S (length (vinfoBlockFile f)))%nat).
  { unfold v0, grow_files. rewrite length_app, length_replicate. lia. }
  destruct (find_file_ok nAddSize Ha (S (length v0)) v0 n0) as (n & v & i & -> & Hi & Hvf & Hfit & Hlen & Hsame);
    [by apply grow_Forall|apply grow_length|lia|]. mstep. unfold index_or_abort. rewrite Hi. mstep.
  pose proof (lookup_lt_Some _ _ _ Hi) as Hlt. assert (Hsz : 0 <= fi_nSize i) by (rewrite Forall_lookup in Hvf; by apply (Hvf n)).
  cbn [CBlockFileInfo_AddBlock fi_nSize]. rewrite u32_small by (unfold is_u32, MAX_BLOCKFILE_SIZE in *; lia).
  set (i' := fi_with_size _ _). set (f1 := mkBlockFiles (<[n := i']> v) _ _ _).
  assert (Hf1 : forall d g, files_wf (mkBlockFiles (vinfoBlockFile f1) (nLastBlockFile f1) d g)).
  { intros d g. split; cbn; [|rewrite length_insert; lia]. apply Forall_insert; [done|]. cbn. lia. }
  assert (Hsize : forall k, 0 <= k -> from_option fi_nSize 0 (<[n := i']> v !! Z.to_nat k) = if decide (k = Z.of_nat n) then fi_nSize i + nAddSize else file_size f k).
  { intros k Hk. destruct (decide (k = Z.of_nat n)) as [->|Hne]; [by rewrite Nat2Z.id, list_lookup_insert_eq|].
    rewrite list_lookup_insert_ne, Hsame by lia. apply grow_lookup. }
  assert (Hold : file_size f (Z.of_nat n) = fi_nSize i).
  { unfold file_size. rewrite Nat2Z.id. assert (Hk := Hsame n). rewrite Hi in Hk. cbn in Hk. rewrite Hk. symmetry. apply grow_lookup. }
  destruct (allocate_files (fi_nSize i) (fi_nSize i + nAddSize) BLOCKFILE_CHUNK_SIZE f1) as (o & d & Ea & Ho).
  cbn [dp_nPos dp_nFile]. fold i' f1. rewrite Ea.
  assert (Hfin : forall D, let f' := mkBlockFiles (vinfoBlockFile f1) (nLastBlockFile f1) D d in files_wf f' /\ 0 <= Z.of_nat n
    /\ fi_nSize i = file_size f (Z.of_nat n) /\ file_size f' (Z.of_nat n) = fi_nSize i + nAddSize
    /\ (forall k, 0 <= k -> k <> Z.of_nat n -> file_size f' k = file_size f k) /\ (length (vinfoBlockFile f') <= 2 + length (vinfoBlockFile f))%nat).
  { intros D f'. split; [apply Hf1|]. split_and!; [lia|done| | |cbn; rewrite length_insert; lia].
    - unfold file_size at 1. cbn. rewrite Hsize by lia. by rewrite decide_True.
    - intros k Hk Hne. unfold file_size at 1. cbn. rewrite Hsize by done. by rewrite decide_False. }
  destruct Ho as [->| ->]; cbn; eexists _, _, (mkDiskPos (Z.of_nat n) (fi_nSize i)); (split; [reflexivity|]); (split; [auto|]); apply Hfin.
Qed.

(** ** A run of allocations *)

Record alloc_request := mkRequest { rq_size : Z; rq_height : Z; rq_time : Z }.

(** Requests one after the other; the ranges of those that succeeded, newest
    first. *)
Fixpoint alloc_run (reqs : list alloc_request) (f : BlockFiles) (given : list (CDiskBlockPos * Z)) : option (list (CDiskBlockPos * Z) * BlockFiles) :=
  match reqs with
  | [] => Some (given, f)
  | r :: rest =>
      match FindBlockPos CheckDiskSpace fPruneMode CDiskBlockPos_SetNull (rq_size r) (rq_height r) (rq_time r) false f with
      | (Pass pos, f') => alloc_run rest f' ((pos, rq_size r) :: given)
      | (Fail _, f') => alloc_run rest f' given
      | _ => None
      end
  end.

(** Two ranges have no byte in common. *)
Definition disjoint_ranges (a b : CDiskBlockPos * Z) : Prop :=
  dp_nFile a.1 <> dp_nFile b.1 \/ dp_nPos a.1 + a.2 <= dp_nPos b.1 \/ dp_nPos b.1 + b.2 <= dp_nPos a.1.

Fixpoint pairwise_disjoint (l : list (CDiskBlockPos * Z)) : Prop :=
  match l with [] => True | a :: l' => Forall (disjoint_ranges a) l' /\ pairwise_disjoint l' end.

(** Everything handed out lies below the sizes of the files. *)
Definition below_sizes (f : BlockFiles) (given : list (CDiskBlockPos * Z)) : Prop :=
  Forall (fun a => 0 <= dp_nFile a.1 /\ dp_nPos a.1 + a.2 <= file_size f (dp_nFile a.1)) given.

Lemma alloc_run_ok reqs : forall f given, files_wf f -> Forall (fun r => 0 <= rq_size r < MAX_BLOCKFILE_SIZE) reqs ->
  Z.of_nat (length (vinfoBlockFile f) + 2 * length reqs) < 2 ^ 31 -> below_sizes f given -> pairwise_disjoint given ->
  exists given' f', alloc_run reqs f given = Some (given', f') /\ files_wf f' /\ below_sizes f' given' /\ pairwise_disjoint given'.
Proof using Type.
  induction reqs as [|r reqs IH]; intros f given W Hr Hn Hb Hd; cbn [alloc_run]; [by eexists _, _|].
  apply Forall_cons in Hr as [Hr Hrs]. cbn [length] in Hn.
  destruct (FindBlockPos_alloc CDiskBlockPos_SetNull (rq_size r) (rq_height r) (rq_time r) f W Hr) as (o & f' & pos & -> & Ho & W' & H0 & Hp & Hs & Hother & Hlen); [lia|].
  assert (Hgrow : forall n, 0 <= n -> file_size f n <= file_size f' n).
  { intros n Hn0. destruct (decide (n = dp_nFile pos)) as [->|]; [lia|]. rewrite Hother by done. lia. }
  assert (Hb' : below_sizes f' given).
  { eapply Forall_impl; [exact Hb|]. intros [a sz] [Ha1 Ha2]. cbn in *. split; [done|]. specialize (Hgrow _ Ha1). lia. }
  destruct Ho as [->| ->]; apply IH; try done; try lia.
  - constructor; [|done]. cbn. lia.
  - split; [|done]. eapply Forall_impl; [exact Hb|]. intros [a sz] [Ha1 Ha2]. cbn in *. unfold disjoint_ranges. cbn.
    destruct (decide (dp_nFile pos = dp_nFile a)) as [E|]; [|by left]. right. right. rewrite <- E in Ha2. lia.
Qed.
End Alloc.

(** (C18) Block positions do not overlap.  However many blocks are stored, of
    whatever sizes below the limit of a file, and whether or not there is disk
    space at each time, every call of [FindBlockPos] ends, files stay below
    [MAX_BLOCKFILE_SIZE], and the byte ranges handed out are pairwise disjoint
    and lie within the recorded sizes of their files. *)
Theorem FindBlockPos_disjoint (CheckDiskSpace : Z -> bool) (fPruneMode : bool) (reqs : list alloc_request) (f : BlockFiles)
  (W : files_wf f) (Hr : Forall (fun r => 0 <= rq_size r < MAX_BLOCKFILE_SIZE) reqs)
  (Hn : Z.of_nat (length (vinfoBlockFile f) + 2 * length reqs) < 2 ^ 31) :
  exists given f', alloc_run CheckDiskSpace fPruneMode reqs f [] = Some (given, f') /\ files_wf f'
    /\ below_sizes f' given /\ pairwise_disjoint given.
Proof. apply alloc_run_ok; try done. apply Forall_nil_2. Qed.

Lemma FindBlockPos_disjoint_witness :
  exists given f', alloc_run (fun _ => true) false [mkRequest 0x7000000 1 10; mkRequest 0x2000000 2 11; mkRequest 500 3 12]
    (mkBlockFiles [] 0 ∅ false) [] = Some (given, f') /\ pairwise_disjoint given /\ length given = 3%nat.
Proof.
  destruct (FindBlockPos_disjoint (fun _ => true) false [mkRequest 0x7000000 1 10; mkRequest 0x2000000 2 11; mkRequest 500 3 12]
    (mkBlockFiles [] 0 ∅ false)) as (given & f' & E & _ & _ & Hd).
  - split; cbn; [constructor|lia].
  - repeat constructor; cbn; unfold MAX_BLOCKFILE_SIZE; lia.
  - cbn. lia.
  - exists given, f'. split; [exact E|]. split; [exact Hd|]. vm_compute in E. by injection E as <- _.
Defined.
