(* ===== verification/AcceptBlock.v ===== *)
(** * Accepting headers and blocks

    main.cpp: [AcceptBlockHeader] and [AcceptBlock], which compose the checks
    of CheckBlock.v with the block index and the block files.

    The node's state is the block index, the block files, the map of rejected
    blocks, and [*ppindex], which both functions assign.  Writing the block to
    its file and [FlushStateToDisk] are parameters. *)
From stdpp Require Import prelude gmap strings list.
From S2P Require Import Prelude Transaction Script Serialize TxSerialize SigHash ArithUint256 Block ChainParams Subsidy Chain Pow Checks CheckTx CheckBlock ChainState ChainShape BestChain ChainSteps.
#[local] Open Scope Z_scope.

Record NodeState := mkNode {
  nd_index : ChainState;
  nd_files : BlockFiles;
  nd_rejected : gmap uint256 Z;
  nd_ppindex : option uint256
}.

Definition with_ppindex (p : option uint256) (s : NodeState) : NodeState := mkNode (nd_index s) (nd_files s) (nd_rejected s) p.
Definition with_index (i : ChainState) (s : NodeState) : NodeState := mkNode i (nd_files s) (nd_rejected s) (nd_ppindex s).

(** Reading the state, and running an operation of one part. *)
Definition gets {S A} (f : S -> A) : scheck S A := fun s => (Pass (f s), s).
Definition on_index {A} (f : ChainState -> result (A * ChainState)) : scheck NodeState A :=
  action (fun s => r ← f (nd_index s); Ok (r.1, with_index r.2 s)).
Definition on_files {A} (f : scheck BlockFiles A) : scheck NodeState A := fun s =>
  let '(o, fs) := f (nd_files s) in (o, mkNode (nd_index s) fs (nd_rejected s) (nd_ppindex s)).
Definition on_rejected {A} (f : scheck (gmap uint256 Z) A) : scheck NodeState A := fun s =>
  let '(o, r) := f (nd_rejected s) in (o, mkNode (nd_index s) (nd_files s) r (nd_ppindex s)).
Definition set_ppindex (p : uint256) : scheck NodeState unit := fun s => (Pass tt, with_ppindex (Some p) s).

Section Accept.
Context `{BlockOracle} `{EquihashVerifier} `{SigHashCrypto} `{TxVerifier}.
Context (net : Network) (params chainparams : CChainParams) (env : BlockEnv) (addr : uint256 -> Z).

(** The checks read the block index as it is at their call. *)
Definition env_at (s : ChainState) : BlockEnv :=
  mkBlockEnv (mapBlockIndex s) (chainActive s) (env_adjustedTime env) (env_time env) (env_ibd env) (env_lastCheckpoint env)
    (env_spork3 env) (env_mapLockedInputs env) (env_IsBlockPayeeValid env) (env_hashGenesisBlock env)
    (env_nEnforceBlockUpgradeMajority env).

(** The predecessor of a header: null for the genesis block. *)
Definition header_prev (block : CBlockHeader) (s : ChainState) : check (option uint256) :=
  if hash_header block =? env_hashGenesisBlock env then Pass None
  else match mapBlockIndex s !! hashPrevBlock block with
       | None => Fail (dos 10 0 "bad-prevblk")
       | Some prev =>
           if has_status (bi_nStatus prev) BLOCK_FAILED_MASK then Fail (dos 100 REJECT_INVALID "bad-prevblk")
           else Pass (Some (hashPrevBlock block))
       end.

Definition AcceptBlockHeader (block : CBlockHeader) : scheck NodeState unit :=
  let hash := hash_header block in
  s ← gets nd_index;
  match mapBlockIndex s !! hash with
  | Some pindex =>
      _ ← set_ppindex hash;
      lift (reject_if (has_status (bi_nStatus pindex) BLOCK_FAILED_MASK) (invalid 0 "duplicate"))
  | None =>
      _ ← lift (CheckBlockHeader chainparams (env_at s) block true);
      pindexPrev ← lift (header_prev block s);
      _ ← lift (ContextualCheckBlockHeader params chainparams (env_at s) block pindexPrev);
      p ← on_index (AddToBlockIndex hash block);
      set_ppindex p
  end.

(** *** Blocks *)

(** [WriteBlockToDisk], which also moves the position behind the header of
    the record, and [FlushStateToDisk(state, FLUSH_STATE_NONE)]. *)
Context (WriteBlockToDisk : CBlock -> CDiskBlockPos -> bool * CDiskBlockPos).
Context (FlushStateToDisk : CValidationState -> NodeState -> CValidationState * NodeState).
Context (CheckDiskSpace : Z -> bool) (fPruneMode : bool).

Definition the_index (s : NodeState) : result (uint256 * CBlockIndex) :=
  match nd_ppindex s with Some p => b ← get_entry (nd_index s) p; Ok (p, b) | None => Abort end.

(** An unrequested block that is not worth processing. *)
Definition not_wanted (s : ChainState) (b : CBlockIndex) (fRequested : bool) : result bool :=
  fHasMoreWork ← (match Tip s with Some t => bt ← get_entry s t; Ok (bu_gt (bi_nChainWork b) (bi_nChainWork bt)) | None => Ok true end);
  let fTooFarAhead := i32 (u32 (CChain_Height (chainActive s) + MIN_BLOCKS_TO_KEEP)) <? bi_nHeight b in
  Ok (has_status (bi_nStatus b) BLOCK_HAVE_DATA
      || (negb fRequested && (negb (bi_nTx b =? 0) || negb fHasMoreWork || fTooFarAhead))).

(** [CheckBlock] with proof verification disabled, then [ContextualCheckBlock]. *)
Definition check_body (block : CBlock) : scheck NodeState unit :=
  s ← gets nd_index;
  _ ← on_rejected (CheckBlock params chainparams (env_at s) (fun _ _ => true) block true true);
  pb ← action (fun n => pb ← the_index n; Ok (pb, n));
  lift (ContextualCheckBlock net params chainparams (env_at s) (CChain_Height (chainActive s)) block (bi_pprev pb.2)).

(** Storing the block: a position in the block files, the data on disk, the
    block index.  A failed write stops the node later, but the block is
    recorded all the same. *)
Definition store_block (block : CBlock) (dbp : option CDiskBlockPos) (st : CValidationState)
  : scheck NodeState CValidationState :=
  pb ← action (fun n => pb ← the_index n; Ok (pb, n));
  size ← lift (b ← of_result (ser_CBlock block); Pass (u32 (Z.of_nat (length b))));
  pos ← on_files (FindBlockPos CheckDiskSpace fPruneMode (default CDiskBlockPos_SetNull dbp) (u32 (size + 8)) (u32 (bi_nHeight pb.2))
                    (CBlockHeader_GetBlockTime (b_header block)) (bool_decide (dbp <> None)));
  let '(written, pos) := if bool_decide (dbp = None) then WriteBlockToDisk block pos else (true, pos) in
  let st := if written then st else Error "Failed to write block" st in
  _ ← on_index (fun s => s' ← ReceivedBlockTransactions addr block pb.1 pos s; Ok (tt, s'));
  mret st.

(** An outcome as the function's return value and validation state. *)
Definition AcceptBlock (block : CBlock) (fRequested : bool) (dbp : option CDiskBlockPos) (st : CValidationState) (s : NodeState)
  : result (bool * CValidationState) * NodeState :=
  match AcceptBlockHeader (b_header block) s with
  | (Pass _, s1) =>
      match (pb ← the_index s1; skip ← not_wanted (nd_index s1) pb.2 fRequested; Ok (pb, skip)) with
      | Ok (pb, true) => (Ok (true, st), s1)
      | Ok (pb, false) =>
          match check_body block s1 with
          | (Pass _, s2) =>
              match store_block block dbp st s2 with
              | (Pass st', s3) =>
                  if fCheckForPruning (nd_files s3) then let '(st'', s4) := FlushStateToDisk st' s3 in (Ok (true, st''), s4)
                  else (Ok (true, st'), s3)
              | (Fail f, s3) => (finish (Fail (A := unit) f) st, s3)
              | (Raise msg, s3) => (Ok (false, Error ("System error: " ++ msg) st), s3)
              | (Halt, s3) => (Abort, s3)
              end
          | (Fail f, s2) =>
              let st' := apply_failure f st in
              if IsInvalid st' && negb (corruptionPossible st') then
                match add_status BLOCK_FAILED_VALID pb.1 (nd_index s2) with
                | Ok i => (Ok (false, st'), with_index (with_dirty pb.1 i) s2)
                | _ => (Abort, s2)
                end
              else (Ok (false, st'), s2)
          | (Raise msg, s2) => (Throw msg, s2)
          | (Halt, s2) => (Abort, s2)
          end
      | Throw msg => (Throw msg, s1)
      | Abort => (Abort, s1)
      end
  | (Fail f, s1) => (Ok (false, apply_failure f st), s1)
  | (Raise msg, s1) => (Throw msg, s1)
  | (Halt, s1) => (Abort, s1)
  end.

(** ** What an accepted header is *)

(** The entry of an accepted header: known before and not marked failed, or
    new, with every check passed on top of a predecessor not marked failed, and
    recorded as it is. *)
Definition header_accepted (block : CBlockHeader) (i i' : ChainState) : Prop :=
  let hash := hash_header block in
  exists b, mapBlockIndex i' !! hash = Some b /\
  ((i' = i /\ has_status (bi_nStatus b) BLOCK_FAILED_MASK = false)
   \/ (mapBlockIndex i !! hash = None
       /\ header_checked chainparams (env_at i) block true
       /\ mapBlockIndex i' = <[hash := b]> (mapBlockIndex i)
       /\ work_of (mapBlockIndex i) b
       /\ (hash <> env_hashGenesisBlock env ->
           exists prev, mapBlockIndex i !! hashPrevBlock block = Some prev /\ has_status (bi_nStatus prev) BLOCK_FAILED_MASK = false
             /\ bi_pprev b = Some (hashPrevBlock block) /\ bi_nHeight b = bi_nHeight prev + 1
             /\ CBlockIndex_GetBlockHeader b = block
             /\ ContextualCheckBlockHeader params chainparams (env_at i) block (Some (hashPrevBlock block)) = Pass tt))).

Lemma on_index_bind {A B} (f : ChainState -> result (A * ChainState)) (k : A -> scheck NodeState B) s a i :
  f (nd_index s) = Ok (a, i) -> (on_index f ≫= k) s = k a (with_index i s).
Proof. intros E. unfold on_index, mbind, scheck_bind, action. rewrite E. done. Qed.

Lemma gets_bind {S A B} (f : S -> A) (k : A -> scheck S B) s : (gets f ≫= k) s = k (f s) s.
Proof. done. Qed.

(** A check that does not pass ends the function and leaves the state. *)
Lemma lift_cases {A B} (m : check A) (k : A -> scheck NodeState B) s :
  (exists a, m = Pass a /\ (lift m ≫= k) s = k a s) \/ (exists o, (forall b, o <> Pass b) /\ (lift m ≫= k) s = (o, s)).
Proof. destruct m as [a|f|msg|]; [left; by exists a|right..]; eexists; (split; [|reflexivity]; done). Qed.

Lemma header_prev_Pass block i o : header_prev block i = Pass o -> hash_header block <> env_hashGenesisBlock env ->
  o = Some (hashPrevBlock block)
  /\ exists prev, mapBlockIndex i !! hashPrevBlock block = Some prev /\ has_status (bi_nStatus prev) BLOCK_FAILED_MASK = false.
Proof.
  unfold header_prev. intros E Hg. rewrite (proj2 (Z.eqb_neq _ _) Hg) in E. destruct (mapBlockIndex i !! _) as [prev|]; [|done].
  destruct (has_status _ _) eqn:Es; [done|]. injection E as <-. eauto.
Qed.

Lemma AcceptBlockHeader_cases block s : state_wf (nd_index s) -> is_u32 (nBits block) -> hash_header block <> hashPrevBlock block ->
  exists o s', AcceptBlockHeader block s = (o, s') /\ state_wf (nd_index s') /\ nd_files s' = nd_files s /\ nd_rejected s' = nd_rejected s
  /\ match o with
     | Pass _ => nd_ppindex s' = Some (hash_header block) /\ header_accepted block (nd_index s) (nd_index s')
     | _ => nd_index s' = nd_index s
     end.
Proof.
  intros W Hb Hne. unfold AcceptBlockHeader. cbv zeta. rewrite gets_bind. set (i := nd_index s) in *. set (hash := hash_header block) in *.
  destruct (mapBlockIndex i !! hash) as [b|] eqn:Hh.
  { unfold mbind, scheck_bind, set_ppindex, lift. destruct (has_status (bi_nStatus b) BLOCK_FAILED_MASK) eqn:Es; cbn [reject_if].
    - eexists _, _. by split_and!.
    - eexists _, _. split; [reflexivity|]. split_and!; try done. exists b. split; [done|]. by left. }
  match goal with |- context [(lift ?m ≫= ?k) s] => destruct (lift_cases m k s) as [([] & E1 & ->)|(o & Ho & ->)] end.
  2:{ exists o, s. split; [done|]. split_and!; try done. destruct o; try done. by destruct (Ho a). }
  match goal with |- context [(lift ?m ≫= ?k) s] => destruct (lift_cases m k s) as [(prev & E2 & ->)|(o & Ho & ->)] end.
  2:{ exists o, s. split; [done|]. split_and!; try done. destruct o; try done. by destruct (Ho a). }
  match goal with |- context [(lift ?m ≫= ?k) s] => destruct (lift_cases m k s) as [([] & E3 & ->)|(o & Ho & ->)] end.
  2:{ exists o, s. split; [done|]. split_and!; try done. destruct o; try done. by destruct (Ho a). }
  destruct (AddToBlockIndex_ok hash block i W Hb Hne Hh) as (i' & b & E & W' & Em & Ep & Hwork & Hhead).
  rewrite (on_index_bind _ _ s hash i') by done. eexists _, _. split; [reflexivity|]. split_and!; try done. exists b.
  split; [by cbn; rewrite Em, lookup_insert_eq|]. right. split_and!; try done; [by apply CheckBlockHeader_Pass|].
  intros Hg. destruct (header_prev_Pass block i prev E2 Hg) as (-> & q & Hq & Hs). exists q. rewrite Hq in Ep. split_and!; try done; [|eauto].
  pose proof (tw_prev _ (ix_tree _ (sw_index _ W')) hash b) as Hpr. rewrite Em, lookup_insert_eq, Ep in Hpr.
  destruct (Hpr eq_refl) as (b' & Hb' & Hht). rewrite lookup_insert_ne, Hq in Hb' by done. by injection Hb' as <-.
Qed.
End Accept.

(** (C17) [AcceptBlockHeader] adds a header to the block index only when every
    check passes: afterwards the index has the entry of the header, either known
    before and not marked failed, or new, with version, Equihash solution, work
    and time in order, on a predecessor that is in the index and not marked
    failed, one higher, with the accumulated work, and passing the contextual
    checks; from the entry the header is recovered.  A header that is rejected,
    for whatever reason, leaves the index as it was; the index stays well
    formed in every case. *)
Theorem AcceptBlockHeader_sound `{BlockOracle} `{EquihashVerifier} (params chainparams : CChainParams) (env : BlockEnv)
  (block : CBlockHeader) (s : NodeState)
  (W : state_wf (nd_index s)) (Hb : is_u32 (nBits block)) (Hne : hash_header block <> hashPrevBlock block) :
  exists o s', AcceptBlockHeader params chainparams env block s = (o, s') /\ state_wf (nd_index s')
  /\ nd_files s' = nd_files s /\ nd_rejected s' = nd_rejected s
  /\ match o with
     | Pass _ => nd_ppindex s' = Some (hash_header block)
                 /\ header_accepted params chainparams env block (nd_index s) (nd_index s')
     | _ => nd_index s' = nd_index s
     end.
Proof. by apply AcceptBlockHeader_cases. Qed.

#[local] Instance example_oracle : BlockOracle := {
  hash_header h := nNonce h;
  hash_tx tx := nLockTime tx;
  hash_pair a b := 31 * a + b;
  decode_script_id _ := None
}.
#[local] Instance example_equihash : EquihashVerifier := {| eh_isvalid := fun _ _ _ _ _ _ => true |}.
Definition example_genesis (version : Z) : CBlockHeader := mkHeader version 0 0 0 1000 0x1f07ffff 77 (replicate 400 1).
Definition example_node : NodeState := mkNode ChainState_empty (mkBlockFiles [] 0 ∅ false) ∅ None.
Definition genesis_env : BlockEnv := mkBlockEnv ∅ [] 900 900 true None true (fun _ => None) (fun _ _ => false) 77 20.

(** The genesis header is accepted by an empty node; one of version 3 is not. *)
Lemma AcceptBlockHeader_sound_witness :
  (exists s', AcceptBlockHeader main_params main_params genesis_env (example_genesis 4) example_node = (Pass tt, s')
     /\ header_accepted main_params main_params genesis_env (example_genesis 4) ChainState_empty (nd_index s'))
  /\ exists s', AcceptBlockHeader main_params main_params genesis_env (example_genesis 3) example_node
       = (Fail (dos 100 REJECT_INVALID "version-too-low"), s') /\ nd_index s' = ChainState_empty.
Proof.
  split.
  - destruct (AcceptBlockHeader_sound main_params main_params genesis_env (example_genesis 4) example_node ChainState_empty_wf)
      as (o & s' & E & _ & _ & _ & Ho); [unfold is_u32; cbn; lia|done|].
    assert (Eo : o = Pass tt) by (vm_compute in E; by injection E as <- _). subst o.
    exists s'. split; [exact E|]. exact (proj2 Ho).
  - destruct (AcceptBlockHeader_sound main_params main_params genesis_env (example_genesis 3) example_node ChainState_empty_wf)
      as (o & s' & E & _ & _ & _ & Ho); [unfold is_u32; cbn; lia|done|].
    assert (Eo : o = Fail (dos 100 REJECT_INVALID "version-too-low")) by (vm_compute in E; by injection E as <- _). subst o.
    exists s'. split; [exact E|exact Ho].
Defined.
