(* ===== verification/ConnectBlock.v ===== *)
(** * Connecting a block

    main.cpp: [ConnectBlock], and from masternode-payments.cpp
    [IsBlockValueValid].  The function checks a block once more, connects its
    transactions one by one in the coins view, extends the note commitment
    trees, checks the reward, and records undo data and indexes.

    What it changes is the record [Connecting]: the coins view, the block's
    index entry, the block files and the batches handed to the block tree
    database.  The database's answers, the undo file and the budget schedule
    are parameters. *)
From stdpp Require Import prelude gmap strings list.
From S2P Require Import Prelude Transaction Script Interpreter Serialize TxSerialize SigHash Coins History CoinsView CoinsLaws CoinsCache CoinsOps UpdateCoins CoinsSerialize.
From S2P Require Import ArithUint256 Block ChainParams Subsidy Chain Pow Checks CheckTx CheckInputs CheckBlock ChainState.
#[local] Open Scope Z_scope.

(** ** Index batches *)

Record CSpentIndexValue := mkSpentIndexValue {
  siv_txid : uint256;
  siv_inputIndex : Z;
  siv_blockHeight : Z;
  siv_satoshis : Z;
  siv_addressType : Z;
  siv_addressHash : bytes
}.

Record CDiskTxPos := mkDiskTxPos {
  dtp_block : CDiskBlockPos;
  dtp_nTxOffset : Z
}.

(** The writes to the block tree database. *)
Inductive IndexBatch :=
| WriteTxIndex (vPos : list (uint256 * CDiskTxPos))
| WriteAddressIndex (v : list (CAddressIndexKey * Z))
| UpdateAddressUnspentIndex (v : list (CAddressUnspentKey * CAddressUnspentValue))
| UpdateSpentIndex (v : list (CSpentIndexKey * CSpentIndexValue))
| WriteTimestampIndex (timestamp : Z) (blockHash : uint256)
| WriteTimestampBlockIndex (blockHash : uint256) (ltimestamp : Z).

(** ** The rest of the node

    The checkpoints are in order of height.  [ce_UndoWriteToDisk] gives
    whether the undo data was written, and where. *)

Record ConnectEnv := mkConnectEnv {
  ce_fAddressIndex : bool;
  ce_fSpentIndex : bool;
  ce_fTxIndex : bool;
  ce_fTimestampIndex : bool;
  ce_scriptThreads : bool;
  ce_fCheckpointsEnabled : bool;
  ce_mapCheckpoints : list (Z * uint256);
  ce_IsSynced : bool;
  ce_spork13 : bool;
  ce_budgetCycle : Z;
  ce_IsBudgetPaymentBlock : Z -> bool;
  ce_CheckDiskSpace : Z -> bool;
  ce_fPruneMode : bool;
  ce_UndoWriteToDisk : CBlockUndo -> CDiskBlockPos -> bool * CDiskBlockPos;
  ce_dbWrite : IndexBatch -> bool;
  ce_ReadTimestampBlockIndex : uint256 -> option Z
}.

Section Connect.
Context {SpT SaT V : Type} `{!MerkleTree SpT, !MerkleTree SaT, !CCoinsView SpT SaT V}.
Context `{BlockOracle} `{EquihashVerifier} `{SigHashCrypto} `{TxVerifier} `{ScriptCrypto} `{Secp256k1}.
(** [ProofVerifier::Strict()], [Params()] with its network, the [chainparams]
    argument and the node. *)
Context (VerifySprout : JSDescription -> bytes -> bool).
Context (net : Network) (params chainparams : CChainParams) (benv : BlockEnv) (env : ConnectEnv).
Local Abbreviation cache := (CCoinsViewCache SpT SaT V).

(** checkpoints.cpp: the last checkpoint whose block is known. *)
Definition GetLastCheckpoint (mapCheckpoints : list (Z * uint256)) (m : BlockMap) : option uint256 :=
  snd <$> List.find (fun i => bool_decide (is_Some (m !! i.2))) (reverse mapCheckpoints).

(** The heights at which the budget is paid out, whose value is not limited here:
    without budget data, the first hundred of a cycle. *)
Definition is_superblock (nHeight : Z) : bool :=
  if negb (ce_IsSynced env) then ce_spork13 env && (Z.rem nHeight (ce_budgetCycle env) <? 100)
  else ce_spork13 env && ce_IsBudgetPaymentBlock env nHeight.
Definition IsBlockValueValid (nHeight : Z) (block : CBlock) (nExpectedValue : Z) : result bool :=
  if is_superblock nHeight then Ok true
  else tx ← index_or_abort (b_vtx block) 0; v ← GetValueOut tx; Ok (v <=? nExpectedValue).

(** ** The loop over the transactions *)

Record TxLoop := mkTxLoop {
  tl_nFees : Z;
  tl_nSigOps : Z;
  tl_undo : list CTxUndo;
  tl_sprout : SpT;
  tl_sapling : SaT;
  tl_addressIndex : list (CAddressIndexKey * Z);
  tl_addressUnspentIndex : list (CAddressUnspentKey * CAddressUnspentValue);
  tl_spentIndex : list (CSpentIndexKey * CSpentIndexValue);
  tl_vPos : list (uint256 * CDiskTxPos);
  tl_offset : Z;
  tl_checks : list CScriptCheck
}.

Definition too_many_sigops : failure := dos 100 REJECT_INVALID "bad-blk-sigops".

(** The spending activity of one input. *)
Definition index_input (height i : Z) (txhash : uint256) (l : TxLoop) (j : Z) (input : CTxIn) (prev : CTxOut) : TxLoop :=
  let addr := script_address (scriptPubKey prev) in
  let '(addressType, hashBytes) := default (0, replicate 20 0) addr in
  let hit := ce_fAddressIndex env && (0 <? addressType) in
  mkTxLoop (tl_nFees l) (tl_nSigOps l) (tl_undo l) (tl_sprout l) (tl_sapling l)
    (if hit then tl_addressIndex l ++ [(mkAddressIndexKey addressType hashBytes height i txhash j true, i64 (nValue prev * -1))]
     else tl_addressIndex l)
    (if hit then tl_addressUnspentIndex l
       ++ [(mkAddressUnspentKey addressType hashBytes (out_hash (prevout input)) (out_n (prevout input)), CAddressUnspentValue_SetNull)]
     else tl_addressUnspentIndex l)
    (if ce_fSpentIndex env then tl_spentIndex l
       ++ [(mkSpentIndexKey (out_hash (prevout input)) (out_n (prevout input)),
            mkSpentIndexValue txhash j height (nValue prev) addressType hashBytes)]
     else tl_spentIndex l)
    (tl_vPos l) (tl_offset l) (tl_checks l).

Definition index_input_step (height i : Z) (txhash : uint256) (l : TxLoop) (j_in : Z * CTxIn) : scheck cache TxLoop :=
  prev ← action (Cache_GetOutputFor j_in.2);
  mret (index_input height i txhash l j_in.1 j_in.2 prev).

(** The receiving activity of one output. *)
Definition index_output (height i : Z) (txhash : uint256) (l : TxLoop) (k_out : nat * CTxOut) : TxLoop :=
  let '(k, out) := k_out in
  match script_address (scriptPubKey out) with
  | None => l
  | Some (ty, h) =>
      mkTxLoop (tl_nFees l) (tl_nSigOps l) (tl_undo l) (tl_sprout l) (tl_sapling l)
        (tl_addressIndex l ++ [(mkAddressIndexKey ty h height i txhash (Z.of_nat k) false, nValue out)])
        (tl_addressUnspentIndex l ++ [(mkAddressUnspentKey ty h txhash (Z.of_nat k), mkAddressUnspentValue (nValue out) (scriptPubKey out) height)])
        (tl_spentIndex l) (tl_vPos l) (tl_offset l) (tl_checks l)
  end.

Definition with_sigops (n : Z) (l : TxLoop) : TxLoop :=
  mkTxLoop (tl_nFees l) n (tl_undo l) (tl_sprout l) (tl_sapling l) (tl_addressIndex l) (tl_addressUnspentIndex l)
    (tl_spentIndex l) (tl_vPos l) (tl_offset l) (tl_checks l).
Definition with_fees (n : Z) (checks : list CScriptCheck) (l : TxLoop) : TxLoop :=
  mkTxLoop n (tl_nSigOps l) (tl_undo l) (tl_sprout l) (tl_sapling l) (tl_addressIndex l) (tl_addressUnspentIndex l)
    (tl_spentIndex l) (tl_vPos l) (tl_offset l) (tl_checks l ++ checks).

(** The transparent and shielded inputs of transaction [i], the spending
    index, and the signature operations of its P2SH inputs. *)
Definition connect_inputs (height i : Z) (tx : CTransaction) (l : TxLoop) : scheck cache TxLoop :=
  have ← query (Cache_HaveInputs tx);
  _ ← lift (reject_if (negb have) (dos 100 REJECT_INVALID "bad-txns-inputs-missingorspent"));
  unmet ← action (Cache_HaveShieldedRequirements tx);
  _ ← lift (match unmet with
            | Some req => Fail (dos 100 (ShieldedReqRejectCode req) (ShieldedReqRejectReason req))
            | None => Pass tt
            end);
  l ← (if ce_fAddressIndex env || ce_fSpentIndex env then
         scheck_loop (index_input_step height i (tx_hash tx)) (zip (seqZ 0 (Z.of_nat (length (vin tx)))) (vin tx)) l
       else mret l);
  n ← action (GetP2SHSigOpCount tx);
  let nSigOps := u32 (tl_nSigOps l + n) in
  _ ← lift (reject_if (MAX_BLOCK_SIGOPS <? nSigOps) too_many_sigops);
  mret (with_sigops nSigOps l).

(** The fee, and the scripts now or as deferred checks. *)
Definition connect_scripts (m : BlockMap) (fExpensiveChecks : bool) (flags branch : Z) (tx : CTransaction)
  (txdata : PrecomputedTransactionData) (l : TxLoop) : scheck cache TxLoop :=
  valueIn ← action (Cache_GetValueIn tx);
  valueOut ← lift (of_result (GetValueOut tx));
  let nFees := i64 (tl_nFees l + i64 (valueIn - valueOut)) in
  checks ← ContextualCheckInputs params m tx fExpensiveChecks flags (Some txdata) (consensus chainparams) branch
             (if ce_scriptThreads env then Some [] else None);
  mret (with_fees nFees (default [] checks) l).

(** The note commitments of a transaction. *)
Definition append_commitments (tx : CMutableTransaction) (l : TxLoop) : result TxLoop :=
  sp ← foldM (fun t cm => tree_append cm t) (concat (js_commitments <$> vjoinsplit tx)) (tl_sprout l);
  sa ← foldM (fun t cm => tree_append cm t) (od_cm <$> vShieldedOutput tx) (tl_sapling l);
  Ok (mkTxLoop (tl_nFees l) (tl_nSigOps l) (tl_undo l) sp sa (tl_addressIndex l) (tl_addressUnspentIndex l)
        (tl_spentIndex l) (tl_vPos l) (tl_offset l) (tl_checks l)).

(** The undo record of every transaction but the first is kept. *)
Definition with_undo (i : Z) (u : CTxUndo) (l : TxLoop) : TxLoop :=
  mkTxLoop (tl_nFees l) (tl_nSigOps l) (if 0 <? i then tl_undo l ++ [u] else tl_undo l) (tl_sprout l) (tl_sapling l)
    (tl_addressIndex l) (tl_addressUnspentIndex l) (tl_spentIndex l) (tl_vPos l) (tl_offset l) (tl_checks l).
Definition with_position (pos : CDiskBlockPos) (txhash : uint256) (size : Z) (l : TxLoop) : TxLoop :=
  mkTxLoop (tl_nFees l) (tl_nSigOps l) (tl_undo l) (tl_sprout l) (tl_sapling l) (tl_addressIndex l) (tl_addressUnspentIndex l)
    (tl_spentIndex l) (tl_vPos l ++ [(txhash, mkDiskTxPos pos (tl_offset l))]) (u32 (tl_offset l + size)) (tl_checks l).

Definition connect_tx (m : BlockMap) (height : Z) (pos : CDiskBlockPos) (fExpensiveChecks : bool) (flags branch : Z)
  (l : TxLoop) (i_tx : Z * CTransaction) : scheck cache TxLoop :=
  let '(i, tx) := i_tx in
  let nSigOps := u32 (tl_nSigOps l + GetLegacySigOpCount tx) in
  _ ← lift (reject_if (MAX_BLOCK_SIGOPS <? nSigOps) too_many_sigops);
  let l := with_sigops nSigOps l in
  l ← (if negb (IsCoinBase tx) then connect_inputs height i tx l else mret l);
  txdata ← lift (of_result (Precompute tx));
  l ← (if negb (IsCoinBase tx) then connect_scripts m fExpensiveChecks flags branch tx txdata l else mret l);
  let l := if ce_fAddressIndex env then foldl (index_output height i (tx_hash tx)) l (imap pair (tx_vout tx)) else l in
  u ← action (fun view => UpdateCoins tx view (mkTxUndo []) height);
  l ← lift (of_result (append_commitments tx (with_undo i u l)));
  size ← lift (b ← of_result (ser_tx tx); Pass (Z.of_nat (length b)));
  mret (with_position pos (tx_hash tx) size l).

(** ** The function *)

Record Connecting := mkConnecting {
  cn_view : cache;
  cn_pindex : CBlockIndex;
  cn_dirty : bool;
  cn_files : BlockFiles;
  cn_rejected : gmap uint256 Z;
  cn_undo : list (CDiskBlockPos * CBlockUndo);
  cn_written : list IndexBatch
}.

Definition on_view {A} (f : scheck cache A) : scheck Connecting A := fun s =>
  let '(o, v) := f (cn_view s) in (o, mkConnecting v (cn_pindex s) (cn_dirty s) (cn_files s) (cn_rejected s) (cn_undo s) (cn_written s)).
Definition on_cn_rejected {A} (f : scheck (gmap uint256 Z) A) : scheck Connecting A := fun s =>
  let '(o, r) := f (cn_rejected s) in (o, mkConnecting (cn_view s) (cn_pindex s) (cn_dirty s) (cn_files s) r (cn_undo s) (cn_written s)).
Definition on_cn_files {A} (f : scheck BlockFiles A) : scheck Connecting A := fun s =>
  let '(o, fs) := f (cn_files s) in (o, mkConnecting (cn_view s) (cn_pindex s) (cn_dirty s) fs (cn_rejected s) (cn_undo s) (cn_written s)).
Definition set_pindex (f : CBlockIndex -> CBlockIndex) : scheck Connecting unit := fun s =>
  (Pass tt, mkConnecting (cn_view s) (f (cn_pindex s)) (cn_dirty s) (cn_files s) (cn_rejected s) (cn_undo s) (cn_written s)).
Definition set_dirty : scheck Connecting unit := fun s =>
  (Pass tt, mkConnecting (cn_view s) (cn_pindex s) true (cn_files s) (cn_rejected s) (cn_undo s) (cn_written s)).
Definition get_pindex : scheck Connecting CBlockIndex := fun s => (Pass (cn_pindex s), s).
(** A write to the database; [AbortNode] when it fails. *)
Definition db_write (b : IndexBatch) (error : string) : scheck Connecting unit := fun s =>
  (if ce_dbWrite env b then Pass tt else Fail (FailError error),
   mkConnecting (cn_view s) (cn_pindex s) (cn_dirty s) (cn_files s) (cn_rejected s) (cn_undo s) (cn_written s ++ [b])).

Definition bi_with_sprout (anchor final : CBlockIndex -> uint256) (b : CBlockIndex) : CBlockIndex :=
  mkIndex (bi_pprev b) (bi_pskip b) (Chain.bi_nHeight b) (bi_nFile b) (bi_nDataPos b) (bi_nUndoPos b) (bi_nChainWork b)
    (bi_nTx b) (bi_nChainTx b) (bi_nStatus b) (bi_nCachedBranchId b) (anchor b) (final b) (bi_nSproutValue b)
    (bi_nChainSproutValue b) (bi_nSaplingValue b) (bi_nChainSaplingValue b) (bi_nVersion b) (bi_hashMerkleRoot b)
    (Chain.bi_hashFinalSaplingRoot b) (bi_nTime b) (bi_nBits b) (bi_nNonce b) (bi_nSolution b) (bi_nSequenceId b).
Definition bi_with_undo (nUndoPos : Z) (b : CBlockIndex) : CBlockIndex :=
  mkIndex (bi_pprev b) (bi_pskip b) (Chain.bi_nHeight b) (bi_nFile b) (bi_nDataPos b) nUndoPos (bi_nChainWork b)
    (bi_nTx b) (bi_nChainTx b) (Z.lor (bi_nStatus b) BLOCK_HAVE_UNDO) (bi_nCachedBranchId b) (bi_hashSproutAnchor b)
    (bi_hashFinalSproutRoot b) (bi_nSproutValue b) (bi_nChainSproutValue b) (bi_nSaplingValue b)
    (bi_nChainSaplingValue b) (bi_nVersion b) (bi_hashMerkleRoot b) (Chain.bi_hashFinalSaplingRoot b) (bi_nTime b)
    (bi_nBits b) (bi_nNonce b) (bi_nSolution b) (bi_nSequenceId b).
Definition bi_with_branch (nStatus : Z) (branch : option Z) (b : CBlockIndex) : CBlockIndex :=
  mkIndex (bi_pprev b) (bi_pskip b) (Chain.bi_nHeight b) (bi_nFile b) (bi_nDataPos b) (bi_nUndoPos b) (bi_nChainWork b)
    (bi_nTx b) (bi_nChainTx b) nStatus branch (bi_hashSproutAnchor b)
    (bi_hashFinalSproutRoot b) (bi_nSproutValue b) (bi_nChainSproutValue b) (bi_nSaplingValue b)
    (bi_nChainSaplingValue b) (bi_nVersion b) (bi_hashMerkleRoot b) (Chain.bi_hashFinalSaplingRoot b) (bi_nTime b)
    (bi_nBits b) (bi_nNonce b) (bi_nSolution b) (bi_nSequenceId b).

(** No script check below the last known checkpoint. *)
Definition expensive_checks (pindex : option uint256) (nHeight : Z) : result bool :=
  match (if ce_fCheckpointsEnabled env then GetLastCheckpoint (ce_mapCheckpoints env) (env_map benv) else None) with
  | None => Ok true
  | Some p => a ← GetAncestor (env_map benv) p nHeight; Ok (negb (bool_decide (is_Some a /\ a = pindex)))
  end.

Definition bip30_step (_ : unit) (tx : CTransaction) : scheck cache unit :=
  coins ← query (Cache_AccessCoins (tx_hash tx));
  lift (reject_if (match coins with Some coins => negb (CCoins_IsPruned coins) | None => false end)
          (dos 100 REJECT_INVALID "bad-txns-BIP30")).

(** The trees at the best anchors, and the Sprout root. *)
Definition current_trees : scheck cache (uint256 * SpT * SaT) :=
  old_sprout_tree_root ← query (Cache_GetBestAnchor SPROUT);
  spt ← query (Cache_GetSproutAnchorAt old_sprout_tree_root);
  sprout_tree ← lift (of_result (match spt with Some t => Ok t | None => Abort end));
  _ ← lift (of_result (assert_true (bool_decide (tree_root sprout_tree = old_sprout_tree_root))));
  rt ← query (Cache_GetBestAnchor SAPLING);
  sat ← query (Cache_GetSaplingAnchorAt rt);
  sapling_tree ← lift (of_result (match sat with Some t => Ok t | None => Abort end));
  mret (old_sprout_tree_root, sprout_tree, sapling_tree).

Definition connect_txs (nHeight : Z) (pos : CDiskBlockPos) (fExpensiveChecks : bool) (branch : Z) (vtx : list CTransaction)
  (spt : SpT) (sat : SaT) : scheck cache TxLoop :=
  scheck_loop (connect_tx (env_map benv) nHeight pos fExpensiveChecks
                 (Z.lor SCRIPT_VERIFY_P2SH SCRIPT_VERIFY_CHECKLOCKTIMEVERIFY) branch)
    (zip (seqZ 0 (Z.of_nat (length vtx))) vtx)
    (mkTxLoop 0 0 [] spt sat [] [] [] [] (GetSizeOfCompactSize (Z.of_nat (length vtx))) []).

Definition push_anchors (spt : SpT) (sat : SaT) : scheck cache unit := fun c =>
  (Pass tt, PushAnchor_Sapling sat (PushAnchor_Sprout spt c)).

(** [control.Wait()]: the deferred script checks all hold. *)
Definition control_Wait (checks : list CScriptCheck) : result bool :=
  foldM (fun ok ck => r ← CScriptCheck_call ck; Ok (ok && match r with inr _ => true | inl _ => false end)) checks true.

(** What is checked of the whole block once its transactions are connected. *)
Definition check_totals (nHeight : Z) (block : CBlock) (l : TxLoop) : check unit :=
  sapling ← of_result (NetworkUpgradeActive nHeight (consensus chainparams) UPGRADE_SAPLING);
  _ ← reject_if (sapling && negb (hashFinalSaplingRoot (b_header block) =? tree_root (tl_sapling l)))
        (dos 100 REJECT_INVALID "bad-sapling-root-in-block");
  subsidy ← of_result (GetBlockSubsidy net params nHeight (consensus chainparams));
  let blockReward := i64 (tl_nFees l + subsidy) in
  valid ← of_result (IsBlockValueValid nHeight block blockReward);
  _ ← reject_if (negb valid) (dos 100 REJECT_INVALID "bad-cb-amount");
  ok ← of_result (control_Wait (tl_checks l));
  reject_if (negb ok) (dos 100 0 "").

Definition log_undo (pos : CDiskBlockPos) (u : CBlockUndo) : scheck Connecting unit := fun s =>
  (Pass tt, mkConnecting (cn_view s) (cn_pindex s) (cn_dirty s) (cn_files s) (cn_rejected s) (cn_undo s ++ [(pos, u)]) (cn_written s)).

(** A new position in the undo file, and the undo data written to it. *)
Definition write_undo (blockundo : CBlockUndo) : scheck Connecting unit :=
  b ← get_pindex;
  bytes ← lift (of_result (ser_CBlockUndo blockundo));
  pos ← on_cn_files (FindUndoPos (ce_CheckDiskSpace env) (ce_fPruneMode env) (bi_nFile b) (u32 (Z.of_nat (length bytes) + 40)));
  _ ← lift (of_result (match bi_pprev b with Some p => Ok p | None => Abort end));
  let '(ok, pos) := ce_UndoWriteToDisk env blockundo pos in
  _ ← lift (reject_if (negb ok) (FailError "Failed to write undo data"));
  _ ← log_undo pos blockundo;
  set_pindex (bi_with_undo (dp_nPos pos)).

(** [nCachedBranchId] and the validity of the entry. *)
Definition raise_to_scripts : scheck Connecting unit :=
  b ← get_pindex;
  let nHeight := Chain.bi_nHeight b in
  b ← lift (if IsActivationHeightForAnyUpgrade nHeight (consensus params) then
              branch ← of_result (CurrentEpochBranchId nHeight (consensus chainparams));
              Pass (bi_with_branch (Z.lor (bi_nStatus b) BLOCK_ACTIVATES_UPGRADE) (Some branch) b)
            else match bi_pprev b with
            | Some p => prev ← of_result (deref (env_map benv) p); Pass (bi_with_branch (bi_nStatus b) (bi_nCachedBranchId prev) b)
            | None => Pass b
            end);
  r ← lift (of_result (RaiseValidity b BLOCK_VALID_SCRIPTS));
  _ ← set_pindex (fun _ => r.2);
  set_dirty.

Definition record_undo (blockundo : CBlockUndo) : scheck Connecting unit :=
  b ← get_pindex;
  valid ← lift (of_result (CBlockIndex_IsValid b BLOCK_VALID_SCRIPTS));
  if CDiskBlockPos_IsNull (GetUndoPos b) || negb valid then
    _ ← (if CDiskBlockPos_IsNull (GetUndoPos b) then write_undo blockundo else mret tt);
    raise_to_scripts
  else mret tt.

Definition write_timestamps (hash : uint256) : scheck Connecting unit :=
  b ← get_pindex;
  let prevLogicalTS := match bi_pprev b with Some p => default 0 (ce_ReadTimestampBlockIndex env p) | None => 0 end in
  let logicalTS := if bi_nTime b <=? prevLogicalTS then u32 (prevLogicalTS + 1) else bi_nTime b in
  _ ← db_write (WriteTimestampIndex logicalTS hash) "Failed to write timestamp index";
  db_write (WriteTimestampBlockIndex hash logicalTS) "Failed to write blockhash index".

Definition write_indexes (hash : uint256) (l : TxLoop) : scheck Connecting unit :=
  _ ← (if ce_fTxIndex env then db_write (WriteTxIndex (tl_vPos l)) "Failed to write transaction index" else mret tt);
  _ ← (if ce_fAddressIndex env then
         _ ← db_write (WriteAddressIndex (tl_addressIndex l)) "Failed to write address index";
         db_write (UpdateAddressUnspentIndex (tl_addressUnspentIndex l)) "Failed to write address unspent index"
       else mret tt);
  _ ← (if ce_fSpentIndex env then db_write (UpdateSpentIndex (tl_spentIndex l)) "Failed to write transaction index" else mret tt);
  if ce_fTimestampIndex env then write_timestamps hash else mret tt.

Definition set_best_block (hash : uint256) : scheck cache unit := fun c => (Pass tt, Cache_SetBestBlock hash c).

(** [*phashBlock]: [None] is an entry that is not in the block index, the
    dummy of [TestBlockValidity]. *)
Definition block_hash_of (pindex : option uint256) : result uint256 := match pindex with Some h => Ok h | None => Abort end.

(** The transactions of a block that is not the genesis block, up to the
    point where only a check would return. *)
Definition connect_body (block : CBlock) (fExpensiveChecks fJustCheck : bool) : scheck Connecting (uint256 * TxLoop) :=
  let vtx := CTransaction_copy hash_tx <$> b_vtx block in
  b ← get_pindex;
  let nHeight := Chain.bi_nHeight b in
  _ ← on_view (scheck_loop bip30_step vtx tt);
  t ← on_view current_trees;
  let '(old_sprout_tree_root, spt, sat) := t in
  _ ← set_pindex (if fJustCheck then id else bi_with_sprout (fun _ => old_sprout_tree_root) bi_hashFinalSproutRoot);
  branch ← lift (of_result (CurrentEpochBranchId nHeight (consensus params)));
  l ← on_view (connect_txs nHeight (GetBlockPos b) fExpensiveChecks branch vtx spt sat);
  _ ← on_view (push_anchors (tl_sprout l) (tl_sapling l));
  _ ← set_pindex (if fJustCheck then id else bi_with_sprout bi_hashSproutAnchor (fun _ => tree_root (tl_sprout l)));
  _ ← lift (check_totals nHeight block l);
  mret (old_sprout_tree_root, l).

Definition ConnectBlock (block : CBlock) (pindex : option uint256) (fJustCheck : bool) : scheck Connecting unit :=
  b ← get_pindex;
  fExpensiveChecks ← lift (of_result (expensive_checks pindex (Chain.bi_nHeight b)));
  _ ← on_cn_rejected (CheckBlock params chainparams benv (if fExpensiveChecks : bool then VerifySprout else fun _ _ => true)
                        block (negb fJustCheck) (negb fJustCheck));
  best ← on_view (query Cache_GetBestBlock);
  _ ← lift (of_result (assert_true (bool_decide (default uint256_null (bi_pprev b) = best))));
  if hash_header (b_header block) =? env_hashGenesisBlock benv then
    if fJustCheck then mret tt
    else
      hash ← lift (of_result (block_hash_of pindex));
      _ ← on_view (set_best_block hash);
      set_pindex (bi_with_sprout (fun _ => tree_empty_root (T := SpT)) (fun _ => tree_empty_root (T := SpT)))
  else
    r ← connect_body block fExpensiveChecks fJustCheck;
    let '(old_sprout_tree_root, l) := r in
    if fJustCheck then mret tt
    else
      _ ← record_undo (mkBlockUndo (tl_undo l) old_sprout_tree_root);
      hash ← lift (of_result (block_hash_of pindex));
      _ ← write_indexes hash l;
      on_view (set_best_block hash).
End Connect.
