(* ===== verification/ConnectTx.v ===== *)
(** * Connecting one transaction

    The checks that [ConnectBlock] makes of a transaction only read the coins
    view; then [UpdateCoins] connects it.  What the checks establish: no
    nullifier is spent, and the transaction pays out no more than it takes in. *)
From stdpp Require Import prelude gmap strings list.
From S2P Require Import Prelude Transaction Script Interpreter Serialize TxSerialize SigHash Coins History CoinsView CoinsLaws CoinsCache CoinsOps UpdateCoins CoinsSerialize.
From S2P Require Import ArithUint256 Block ChainParams Subsidy Chain Pow Checks CheckTx CheckInputs CheckBlock ChainState ConnectBlock.
#[local] Open Scope Z_scope.

(** Every input is an unspent output of the view, and the values balance up to
    a fee that is not negative. *)
Definition tx_pays (a : AbsView) (tx : CMutableTransaction) (fee : Z) : Prop :=
  exists vs, input_values a (vin tx) = Some vs
    /\ sumZ vs + exact_shielded_in tx = exact_value_out tx + fee /\ 0 <= fee <= MAX_MONEY.

Lemma tx_pays_equiv a b tx fee : a ≡ b -> tx_pays a tx fee -> tx_pays b tx fee.
Proof.
  intros Ha (vs & Hv & Hb). exists vs. split; [|done]. rewrite <- Hv. apply mapM_ext. intros i. by rewrite (out_unspent_equiv _ _ _ Ha).
Qed.

Lemma foldl_i64 vs : forall n, n + sumZ vs < 2 ^ 63 -> 0 <= n -> Forall (fun v => 0 <= v) vs ->
  foldl (fun n v => i64 (n + v)) n vs = n + sumZ vs.
Proof.
  induction vs as [|v vs IH]; intros n Hb Hn Hv; [cbn; lia|]. apply Forall_cons in Hv as [Hv Hvs].
  rewrite sumZ_cons in *. pose proof (sumZ_nonneg vs Hvs). cbn [foldl].
  rewrite i64_small by (unfold is_i64; lia). rewrite IH; [lia|lia|lia|done].
Qed.

Section ConnectTx.
Context {SpT SaT V : Type} `{!MerkleTree SpT, !MerkleTree SaT, !CCoinsView SpT SaT V}.
Context `{!CCoinsViewReads SpT SaT V}.
Context `{BlockOracle} `{EquihashVerifier} `{SigHashCrypto} `{TxVerifier} `{ScriptCrypto} `{Secp256k1}.
Context (VerifySprout : JSDescription -> bytes -> bool).
Context (net : Network) (params chainparams : CChainParams) (benv : BlockEnv) (env : ConnectEnv).
Local Abbreviation cache := (CCoinsViewCache SpT SaT V).
Implicit Types c : cache.
Local Abbreviation reads_only f := (CheckInputs.reads_only (SpT := SpT) (SaT := SaT) (V := V) f).

(** ** Reading *)

Lemma GetOutputFor_reads i c o c' : cache_core c -> Cache_GetOutputFor i c = Ok (o, c') -> read_ok c c'.
Proof.
  intros Hc E. pose proof (GetOutputFor_ok i c Hc) as Ho.
  rewrite E in Ho. destruct (out_unspent _ _); [|done]. destruct Ho as (c1 & [= _ <-] & Hr). done.
Qed.

Lemma foldM_reads {A B} (f : A * cache -> B -> result (A * cache)) l :
  (forall a c b a' c', cache_core c -> f (a, c) b = Ok (a', c') -> read_ok c c') ->
  forall a c a' c', cache_core c -> foldM f l (a, c) = Ok (a', c') -> read_ok c c'.
Proof.
  intros Hf. induction l as [|b l IH]; intros a c a' c' Hc E; cbn [foldM] in E.
  - injection E as <- <-. by apply read_ok_refl.
  - apply bind_Ok in E as ([a1 c1] & E1 & E). pose proof (Hf _ _ _ _ _ Hc E1) as Hr.
    exact (read_ok_trans _ _ _ Hr (IH _ _ _ _ (proj1 Hr) E)).
Qed.

Lemma reads_only_GetOutputFor i : reads_only (action (Cache_GetOutputFor i)).
Proof. apply reads_only_action. intros c a c'. apply GetOutputFor_reads. Qed.

Lemma reads_only_P2SH tx : reads_only (action (GetP2SHSigOpCount tx)).
Proof.
  apply reads_only_action. intros c a c' Hc. unfold GetP2SHSigOpCount.
  destruct (IsCoinBase tx); [intros [= _ <-]; by apply read_ok_refl|]. apply foldM_reads; [|done].
  clear. intros n c i n' c' Hc E. unfold p2sh_sigops_step in E. cbn [fst snd] in E.
  apply bind_Ok in E as ([o c1] & E1 & [= _ <-]). by eapply GetOutputFor_reads.
Qed.

Lemma reads_only_GetValueIn tx : reads_only (action (Cache_GetValueIn tx)).
Proof.
  apply reads_only_action. intros c a c' Hc. unfold Cache_GetValueIn.
  destruct (IsCoinBase tx); [intros [= _ <-]; by apply read_ok_refl|]. intros E.
  apply bind_Ok in E as ([n c1] & E1 & E). apply bind_Ok in E as (s & _ & [= _ <-]). revert Hc E1. cbn [snd]. apply foldM_reads.
  clear. intros n c i n' c' Hc E. unfold value_in_step in E. cbn [fst snd] in E.
  apply bind_Ok in E as ([o c1] & E1 & [= _ <-]). by eapply GetOutputFor_reads.
Qed.

Lemma reads_only_best : reads_only (query Cache_GetBestBlock).
Proof. apply reads_only_query. intros c Hc. by apply GetBestBlock_ok. Qed.

Lemma reads_only_AccessCoins t : reads_only (query (Cache_AccessCoins t)).
Proof. apply reads_only_query. intros c Hc. by apply FetchCoins_ok. Qed.

(** By the shape of the check. *)
Ltac reads_step := lazymatch goal with
  | |- reads_only (lift _) => apply reads_only_lift
  | |- reads_only (mret _) => apply reads_only_ret
  | |- reads_only (query (Cache_HaveInputs _)) => apply reads_only_HaveInputs
  | |- reads_only (query (Cache_AccessCoins _)) => apply reads_only_AccessCoins
  | |- reads_only (query Cache_GetBestBlock) => apply reads_only_best
  | |- reads_only (action (Cache_HaveShieldedRequirements _)) => apply reads_only_shielded
  | |- reads_only (action (Cache_GetOutputFor _)) => apply reads_only_GetOutputFor
  | |- reads_only (action (GetP2SHSigOpCount _)) => apply reads_only_P2SH
  | |- reads_only (action (Cache_GetValueIn _)) => apply reads_only_GetValueIn
  | |- reads_only (access_input _) => apply reads_only_access
  | |- reads_only (CheckTxInputs _ _ _ _) => apply CheckTxInputs_reads_only
  | |- reads_only (scheck_loop _ _ _) => apply reads_only_loop; intros ? ?
  | |- reads_only (mbind _ _) => apply reads_only_bind; [|intros ?]
  | |- reads_only (if ?b then _ else _) => destruct b
  | |- reads_only (match ?x with _ => _ end) => destruct x
  end.
Ltac reads := repeat (cbv beta zeta; reads_step).

Lemma ContextualCheckInputs_reads m tx fScript flags txdata cp br pv : reads_only (ContextualCheckInputs params m tx fScript flags txdata cp br pv).
Proof. unfold ContextualCheckInputs, GetSpendHeight, check_script_step. reads. Qed.

Lemma connect_inputs_reads height i tx l : reads_only (connect_inputs env height i tx l).
Proof. unfold connect_inputs, index_input_step. reads. Qed.

Lemma connect_scripts_reads m e flags br tx txdata l : reads_only (connect_scripts params chainparams env m e flags br tx txdata l).
Proof. unfold connect_scripts. reads. apply ContextualCheckInputs_reads. Qed.

Lemma reads_only_Pass {A} (f : scheck cache A) c a c' : reads_only f -> cache_core c -> f c = (Pass a, c') -> read_ok c c'.
Proof. intros Hf Hc E. specialize (Hf c Hc). by rewrite E in Hf. Qed.

(** ** One transaction *)

(** The part of the loop's state that the checks leave alone, the fees apart. *)
Definition loop_state (l : TxLoop (SpT := SpT) (SaT := SaT)) : Z * list CTxUndo * SpT * SaT :=
  (tl_nFees l, tl_undo l, tl_sprout l, tl_sapling l).

Lemma index_input_state height i h l j_in c l' c' :
  index_input_step env height i h l j_in c = (Pass l', c') -> loop_state l' = loop_state l.
Proof.
  unfold index_input_step. intros E. apply scheck_bind_Pass in E as (prev & c1 & _ & [= <- _]).
  unfold index_input. by destruct (default _ _).
Qed.

Lemma index_inputs_state height i h ins : forall l c l' c',
  scheck_loop (index_input_step env height i h) ins l c = (Pass l', c') -> loop_state l' = loop_state l.
Proof.
  induction ins as [|x ins IH]; intros l c l' c' E; cbn [scheck_loop] in E; [by injection E as <- _|].
  apply scheck_bind_Pass in E as (l1 & c1 & E1 & E). apply index_input_state in E1. apply IH in E. by etrans.
Qed.

Lemma index_outputs_state height i h outs : forall l, loop_state (foldl (index_output height i h) l outs) = loop_state l.
Proof.
  induction outs as [|[k o] outs IH]; intros l; [done|]. cbn [foldl]. rewrite IH. unfold index_output.
  by destruct (script_address _) as [[ty hb]|].
Qed.

(** What the checks of the inputs establish: nothing in the transaction is
    spent twice. *)
Definition nullifiers_new (a : AbsView) (tx : CMutableTransaction) : Prop :=
  Forall (fun nf => a_null a SPROUT nf = false) (sprout_nullifiers tx)
  /\ Forall (fun nf => a_null a SAPLING nf = false) (sapling_nullifiers tx).

Lemma nullifiers_new_equiv a b tx : a ≡ b -> nullifiers_new a tx -> nullifiers_new b tx.
Proof.
  intros Ha [? ?]. split; (eapply Forall_impl; [eassumption|]); intros nf; cbv beta; by rewrite (eqv_null _ _ Ha).
Qed.

Lemma connect_inputs_Pass height i tx l c l' c' : cache_core c -> connect_inputs env height i tx l c = (Pass l', c') ->
  loop_state l' = loop_state l /\ nullifiers_new (cache_abs c) tx.
Proof.
  intros Hc E. unfold connect_inputs in E.
  apply scheck_bind_Pass in E as (have & c1 & E1 & E). apply (reads_only_Pass _ _ _ _ (reads_only_HaveInputs tx) Hc) in E1.
  apply scheck_bind_Pass in E as ([] & c2 & E2 & E). apply lift_Pass in E2 as [_ ->].
  apply scheck_bind_Pass in E as (unmet & c3 & E3 & E). apply scheck_bind_Pass in E as ([] & c4 & E4 & E).
  apply lift_Pass in E4 as [E4 ->]. destruct unmet; [done|]. clear E4.
  unfold action in E3. destruct (Cache_HaveShieldedRequirements tx c1) as [[r c3']| |] eqn:Es; simplify_eq.
  destruct (HaveShieldedRequirements_sound _ _ _ (proj1 E1) Es) as (Hn1 & Hn2 & _).
  split; [|apply (nullifiers_new_equiv (cache_abs c1)); [apply E1|by split]].
  apply scheck_bind_Pass in E as (l1 & c5 & E5 & E). apply scheck_bind_Pass in E as (n & c6 & _ & E).
  apply scheck_bind_Pass in E as ([] & c7 & _ & [= <- _]). change (loop_state (with_sigops _ l1)) with (loop_state l1).
  destruct (ce_fAddressIndex env || ce_fSpentIndex env); [by apply index_inputs_state in E5|by injection E5 as <- _].
Qed.

Lemma connect_scripts_Pass m e flags br tx txdata l c l' c' :
  connect_scripts params chainparams env m e flags br tx txdata l c = (Pass l', c') ->
  (loop_state l').1.1.2 = (loop_state l).1.1.2 /\ (loop_state l').1.2 = (loop_state l).1.2 /\ (loop_state l').2 = (loop_state l).2.
Proof.
  intros E. unfold connect_scripts in E. apply scheck_bind_Pass in E as (vi & c1 & _ & E).
  apply scheck_bind_Pass in E as (vo & c2 & _ & E). by apply scheck_bind_Pass in E as (ck & c3 & _ & [= <- _]).
Qed.

(** The note commitments of transactions, appended to the trees. *)
Definition sprout_commitments (tx : CMutableTransaction) : list uint256 := concat (js_commitments <$> vjoinsplit tx).
Definition sapling_commitments (tx : CMutableTransaction) : list uint256 := od_cm <$> vShieldedOutput tx.
Definition extend_tree {T} `{MerkleTree T} (cms : list uint256) (t : T) : result T := foldM (fun t cm => tree_append cm t) cms t.

Lemma connect_tx_Pass m h pos e flags br l i (tx : CTransaction) c l' c' : cache_core c ->
  connect_tx params chainparams env m h pos e flags br l (i, tx) c = (Pass l', c') ->
  exists c0 u, read_ok c c0 /\ UpdateCoins tx c0 (mkTxUndo []) h = Ok (u, c')
    /\ (IsCoinBase tx = false -> nullifiers_new (cache_abs c) tx)
    /\ tl_undo l' = (if 0 <? i then tl_undo l ++ [u] else tl_undo l)
    /\ extend_tree (sprout_commitments tx) (tl_sprout l) = Ok (tl_sprout l')
    /\ extend_tree (sapling_commitments tx) (tl_sapling l) = Ok (tl_sapling l')
    /\ (if IsCoinBase tx then tl_nFees l' = tl_nFees l
        else exists l1 c1 txdata l2 c2, read_ok c c1 /\ tl_nFees l1 = tl_nFees l /\ tl_nFees l2 = tl_nFees l'
             /\ connect_scripts params chainparams env m e flags br tx txdata l1 c1 = (Pass l2, c2)).
Proof.
  intros Hc E. unfold connect_tx in E. apply scheck_bind_Pass in E as ([] & c1 & E1 & E). apply lift_Pass in E1 as [_ ->].
  apply scheck_bind_Pass in E as (l1 & c1 & E1 & E). apply scheck_bind_Pass in E as (txdata & c2 & E2 & E).
  apply lift_Pass in E2 as [_ ->]. apply scheck_bind_Pass in E as (l2 & c2 & E2 & E).
  apply scheck_bind_Pass in E as (u & c3 & E3 & E). apply scheck_bind_Pass in E as (l4 & c4 & E4 & E).
  apply lift_Pass in E4 as [E4 ->]. apply scheck_bind_Pass in E as (size & c5 & E5 & E). apply lift_Pass in E5 as [_ ->].
  injection E as <- <-. apply of_result_Pass in E4. unfold action in E3.
  destruct (UpdateCoins tx c2 (mkTxUndo []) h) as [[u' c3']| |] eqn:Eu; simplify_eq.
  assert (Hin : read_ok c c1 /\ loop_state l1 = loop_state l /\ (IsCoinBase tx = false -> nullifiers_new (cache_abs c) tx)).
  { destruct (IsCoinBase tx); cbn [negb] in E1.
    - injection E1 as <- <-. split; [by apply read_ok_refl|done].
    - split; [by eapply reads_only_Pass; [apply connect_inputs_reads| |exact E1]|].
      destruct (connect_inputs_Pass _ _ _ _ _ _ _ Hc E1) as [-> ?]. done. }
  destruct Hin as (Hr1 & Hs1 & Hnull).
  injection Hs1 as Hf1 Hu1 Hsp1 Hsa1.
  assert (Hsc : read_ok c1 c2 /\ tl_undo l2 = tl_undo l /\ tl_sprout l2 = tl_sprout l /\ tl_sapling l2 = tl_sapling l
    /\ (if IsCoinBase tx then tl_nFees l2 = tl_nFees l
        else exists l1 c1 txdata l2' c2, read_ok c c1 /\ tl_nFees l1 = tl_nFees l /\ tl_nFees l2' = tl_nFees l2
             /\ connect_scripts params chainparams env m e flags br tx txdata l1 c1 = (Pass l2', c2))).
  { destruct (IsCoinBase tx); cbn [negb] in E2.
    - injection E2 as <- <-. split; [apply read_ok_refl, Hr1|done].
    - split; [by eapply reads_only_Pass; [apply connect_scripts_reads|apply Hr1|exact E2]|].
      pose proof (connect_scripts_Pass _ _ _ _ _ _ _ _ _ _ E2) as (Ha & Hb & Hd). cbn in Ha, Hb, Hd.
      split_and!; [congruence..|]. exists l1, c1, txdata, l2, c2. done. }
  destruct Hsc as (Hr2 & Hu2 & Hsp2 & Hsa2 & Hfee). exists c2, u. split; [by eapply read_ok_trans|]. split; [done|]. split; [done|].
  set (l3 := if ce_fAddressIndex env then _ else l2) in E4.
  assert (Hs3 : loop_state l3 = loop_state l2).
  { subst l3. destruct (ce_fAddressIndex env); [by rewrite index_outputs_state|done]. }
  unfold append_commitments in E4. apply bind_Ok in E4 as (sp & Esp & E4). apply bind_Ok in E4 as (sa & Esa & [= <-]).
  injection Hs3 as Hf Hu Hsp Hsa. cbn in Esp, Esa |- *. rewrite Hf, Hu, Hsp, Hsa, Hu2, Hsp2, Hsa2 in *. done.
Qed.

(** ** The fee *)

Lemma input_values_nonneg a tx height cp prot l : forall vs, Forall (input_ok a tx height cp prot) l ->
  input_values a l = Some vs -> Forall (fun v => 0 <= v) vs.
Proof.
  induction l as [|i l IH]; intros vs HF E; [by injection E as <-|].
  apply Forall_cons in HF as [(coins & o & Hc & Hu & Hv & _) HF]. unfold input_values in E. cbn [mapM] in E.
  assert (Ho : out_unspent a (prevout i) = Some o) by (unfold out_unspent; by rewrite Hc). rewrite Ho in E. cbn in E.
  destruct (mapM _ l) as [vs'|] eqn:Em; [|done]. injection E as <-. constructor; [done|]. by apply IH.
Qed.

(** What [GetValueIn] returns for a transaction whose values balance. *)
Lemma GetValueIn_pays (tx : CTransaction) c n c' vs fee : cache_core c -> IsCoinBase tx = false -> tx_amounts_i64 tx ->
  input_values (cache_abs c) (vin tx) = Some vs -> Forall (fun v => 0 <= v) vs ->
  sumZ vs + exact_shielded_in tx = exact_value_out tx + fee -> 0 <= fee <= MAX_MONEY -> exact_value_out tx <= MAX_MONEY ->
  Cache_GetValueIn tx c = Ok (n, c') -> n = exact_value_out tx + fee.
Proof.
  intros Hc Hcb Ha Hvs Hnn Hbal Hfee Hout E. pose proof MAX_MONEY_lt. unfold Cache_GetValueIn in E. rewrite Hcb in E.
  destruct (value_in_ok (vin tx) c 0 vs Hc Hvs) as (c1 & E1 & _). rewrite E1 in E.
  apply bind_Ok in E as (r & [= <-] & E). cbn [fst snd] in E. apply bind_Ok in E as (sh & Es & [= <- _]).
  rewrite GetShieldedValueIn_value in Es by done. case_bool_decide as Hsh; [|done]. injection Es as <-. destruct Hsh as [Hj Hs].
  pose proof (sumZ_nonneg _ Hj). assert (0 <= exact_shielded_in tx) by (unfold exact_shielded_in; lia).
  pose proof (sumZ_nonneg _ Hnn). rewrite foldl_i64 by (done || lia). rewrite i64_small by (unfold is_i64; lia). lia.
Qed.

Lemma connect_scripts_fee m e flags br (tx : CTransaction) txdata l c l' c' : cache_inv c -> IsCoinBase tx = false -> tx_amounts_i64 tx ->
  connect_scripts params chainparams env m e flags br tx txdata l c = (Pass l', c') ->
  exists fee, tx_pays (cache_abs c) tx fee /\ tl_nFees l' = i64 (tl_nFees l + fee).
Proof.
  intros Hi Hcb Ha E. pose proof MAX_MONEY_lt. unfold connect_scripts in E. apply scheck_bind_Pass in E as (n & c1 & E1 & E).
  pose proof (reads_only_Pass _ _ _ _ (reads_only_GetValueIn tx) (proj1 Hi) E1) as Hr1.
  apply scheck_bind_Pass in E as (out & c2 & E2 & E). apply lift_Pass in E2 as [E2 ->]. apply of_result_Pass in E2.
  apply scheck_bind_Pass in E as (ck & c3 & E3 & [= <- _]). unfold ContextualCheckInputs in E3. rewrite Hcb in E3.
  apply scheck_bind_Pass in E3 as (height & c4 & E4 & E3).
  assert (Hr4 : read_ok c1 c4).
  { eapply reads_only_Pass; [|apply Hr1|exact E4]. unfold GetSpendHeight. reads. }
  apply scheck_bind_Pass in E3 as (prot & c5 & E5 & E3). apply lift_Pass in E5 as [_ ->].
  apply scheck_bind_Pass in E3 as ([] & c5 & E5 & _).
  pose proof (read_ok_trans _ _ _ Hr1 Hr4) as Hr. destruct (read_ok_stable _ _ Hi Hr) as (Hi4 & Ha4 & _).
  destruct (CheckTxInputs_Pass _ _ _ _ _ _ Hi4 Hcb Ha E5) as (Hok & (vs & fee & Hvs & Hbal & Hfee) & _).
  pose proof (input_values_nonneg _ _ _ _ _ _ _ Hok Hvs) as Hnn.
  assert (Hp : tx_pays (cache_abs c) tx fee) by (eapply tx_pays_equiv; [exact Ha4|by exists vs]).
  exists fee. split; [done|]. cbn [with_fees tl_nFees].
  rewrite GetValueOut_value in E2 by done. case_bool_decide as Ho; [|done]. injection E2 as <-. destruct Ho as (Ho1 & Ho2 & Ho3).
  unfold action in E1. destruct (Cache_GetValueIn tx c) as [[n' c1']| |] eqn:Ev; simplify_eq.
  assert (Hvs' : input_values (cache_abs c) (vin tx) = Some vs).
  { rewrite <- Hvs. apply mapM_ext. intros i. by rewrite (out_unspent_equiv _ _ _ Ha4). }
  rewrite (GetValueIn_pays tx c n c1 vs fee (proj1 Hi) Hcb Ha Hvs' Hnn Hbal Hfee Ho3 Ev).
  replace (exact_value_out tx + fee - exact_value_out tx) with fee by lia.
  by rewrite (i64_small fee) by (unfold is_i64; lia).
Qed.
End ConnectTx.
