(* ===== verification/ConnectLaws.v ===== *)
(** * What connecting a block does to the coins view

    A block that [ConnectBlock] accepts is connected transaction by
    transaction as [txs_connected] says, and the undo data it writes lets
    [DisconnectBlock] restore the view.  Every transaction but the coinbase
    pays out no more than it takes in, and the coinbase at most the subsidy and
    the fees. *)
From stdpp Require Import prelude gmap strings list.
From S2P Require Import Prelude Transaction Script Interpreter Serialize TxSerialize SigHash Coins History CoinsView CoinsLaws CoinsCache CoinsOps UpdateCoins CoinsSerialize.
From S2P Require Import ArithUint256 Block ChainParams Subsidy Chain Pow Checks CheckTx CheckInputs CheckBlock ChainState ConnectBlock ConnectTx.
#[local] Open Scope Z_scope.

Lemma has_undo_testbit x : has_status x BLOCK_HAVE_UNDO = Z.testbit x 4.
Proof.
  unfold has_status, BLOCK_HAVE_UNDO. change 16 with (2 ^ 4). destruct (Z.testbit x 4) eqn:E.
  - apply negb_true_iff, Z.eqb_neq. intros Hz. apply (f_equal (fun y => Z.testbit y 4)) in Hz.
    rewrite Z.land_spec, E, Z.bits_0 in Hz. done.
  - apply negb_false_iff, Z.eqb_eq, Z.bits_inj'. intros n Hn. rewrite Z.land_spec, Z.pow2_bits_eqb, Z.bits_0 by lia.
    destruct (Z.eqb_spec 4 n) as [<-|]; [by rewrite E|by rewrite andb_false_r].
Qed.

Lemma RaiseValidity_undo b n r : RaiseValidity b n = Ok r ->
  bi_nUndoPos r.2 = bi_nUndoPos b /\ bi_hashFinalSproutRoot r.2 = bi_hashFinalSproutRoot b
  /\ (has_status (bi_nStatus b) BLOCK_HAVE_UNDO = true -> has_status (bi_nStatus r.2) BLOCK_HAVE_UNDO = true).
Proof.
  unfold RaiseValidity. intros E. apply bind_Ok in E as ([] & _ & E). destruct (has_status _ BLOCK_FAILED_MASK); [by injection E as <-|].
  destruct (_ <? n); injection E as <-; [|done]. split; [done|]. split; [done|]. rewrite !has_undo_testbit. cbn [snd bi_with_status bi_nStatus].
  intros Hb. rewrite Z.lor_spec, Z.land_spec, Hb. done.
Qed.

Section ConnectLaws.
Context {SpT SaT V : Type} `{!MerkleTree SpT, !MerkleTree SaT, !CCoinsView SpT SaT V}.
Context `{!CCoinsViewReads SpT SaT V}.
Context `{BlockOracle} `{EquihashVerifier} `{SigHashCrypto} `{TxVerifier} `{ScriptCrypto} `{Secp256k1}.
Context (VerifySprout : JSDescription -> bytes -> bool).
Context (net : Network) (params chainparams : CChainParams) (benv : BlockEnv) (env : ConnectEnv).
Local Abbreviation cache := (CCoinsViewCache SpT SaT V).
Implicit Types c : cache.

(** ** The loop *)

(** What is known of the transactions before the loop. *)
Record tx_ready (h : Z) (tx : CTransaction) : Prop := {
  rd_checked : tx_checked tx;
  rd_amounts : tx_amounts_i64 tx;
  rd_inputs : IsCoinBase tx = false -> Forall (fun i => 0 <= out_n (prevout i) < 2 ^ 32 - 1) (vin tx);
  rd_height : 0 < h < 2 ^ 31
}.

Lemma ready_connectable a (tx : CTransaction) h : tx_ready h tx -> a_coins a (tx_hash tx) = None ->
  (IsCoinBase tx = false -> nullifiers_new a tx) -> connectable a tx h.
Proof.
  intros [Hck _ Hin Hh] Hnew Hnull.
  assert (nullifiers_new a tx) as [? ?].
  { destruct (IsCoinBase tx) eqn:Hcb; [|by apply Hnull]. pose proof (tc_coinbase _ Hck) as Hc. unfold tx_coinbase_ok in Hc.
    rewrite Hcb in Hc. destruct Hc as (Hj & Hs & _). unfold nullifiers_new, sprout_nullifiers, sapling_nullifiers.
    rewrite Hj, Hs. split; constructor. }
  split; try done. apply (ta_vout _ (tc_amounts _ Hck)).
Qed.

(** The transactions of a block one after the other, with their fees. *)
Inductive txs_paid (h : Z) : cache -> list CTransaction -> list Z -> cache -> Prop :=
| paid_nil c : txs_paid h c [] [] c
| paid_cons c c0 tx u c1 fee txs fees c2 :
    read_ok c c0 -> UpdateCoins tx c0 (mkTxUndo []) h = Ok (u, c1) ->
    (if IsCoinBase tx then fee = 0 else tx_pays (cache_abs c) tx fee) ->
    txs_paid h c1 txs fees c2 -> txs_paid h c (tx :: txs) (fee :: fees) c2.

Lemma txs_paid_nonneg h c txs fees c' : txs_paid h c txs fees c' -> Forall (fun fee => 0 <= fee) fees.
Proof.
  induction 1 as [|c c0 tx u c1 fee txs fees c2 _ _ Hf _ IH]; constructor; [|done].
  destruct (IsCoinBase tx); [lia|]. destruct Hf as (vs & _ & _ & ?). lia.
Qed.

Lemma connect_tx_fee m h pos e flags br l i (tx : CTransaction) c l' c' : cache_inv c -> tx_amounts_i64 tx ->
  connect_tx params chainparams env m h pos e flags br l (i, tx) c = (Pass l', c') ->
  exists fee, (if IsCoinBase tx then fee = 0 else tx_pays (cache_abs c) tx fee) /\ 0 <= fee
    /\ (is_i64 (tl_nFees l) -> tl_nFees l' = i64 (tl_nFees l + fee)).
Proof.
  intros Hi Ha E. destruct (connect_tx_Pass _ _ _ _ _ _ _ _ _ _ _ _ _ _ _ (proj1 Hi) E) as (_ & _ & _ & _ & _ & _ & _ & _ & Hf).
  destruct (IsCoinBase tx) eqn:Hcb; [exists 0; split; [done|]; split; [done|]; intros; by rewrite Hf, Z.add_0_r, i64_small|]. destruct Hf as (l1 & c1 & txdata & l2 & c2 & Hr & Hl1 & Hl2 & Es).
  destruct (read_ok_stable _ _ Hi Hr) as (Hi1 & Ha1 & _).
  destruct (connect_scripts_fee _ _ _ _ _ _ _ _ _ _ _ _ _ Hi1 Hcb Ha Es) as (fee & Hp & Hfee).
  apply (tx_pays_equiv _ _ _ _ Ha1) in Hp. exists fee. split; [done|]. destruct Hp as (vs & _ & _ & Hpos). split; [lia|].
  intros. by rewrite <- Hl2, Hfee, Hl1.
Qed.

Lemma extend_tree_app {T} `{MerkleTree T} l1 l2 (t t1 t2 : T) :
  extend_tree l1 t = Ok t1 -> extend_tree l2 t1 = Ok t2 -> extend_tree (l1 ++ l2) t = Ok t2.
Proof. unfold extend_tree. intros E1 E2. rewrite foldM_app, E1. done. Qed.

Lemma connect_loop_Pass m h pos e flags br (txs : list CTransaction) : forall k l c l' c', cache_inv c -> view_wf (cache_abs c) ->
  NoDup (tx_hash <$> txs) -> Forall (fun tx => a_coins (cache_abs c) (tx_hash tx) = None) txs -> Forall (tx_ready h) txs ->
  (forall j (tx : CTransaction), txs !! j = Some tx -> IsCoinBase tx = bool_decide ((k + j)%nat = 0%nat)) ->
  scheck_loop (connect_tx params chainparams env m h pos e flags br)
    (zip (seqZ (Z.of_nat k) (Z.of_nat (length txs))) txs) l c = (Pass l', c') ->
  exists us fees, txs_connected h k c txs us c' /\ txs_paid h c txs fees c'
    /\ (is_i64 (tl_nFees l) -> tl_nFees l' = i64 (tl_nFees l + sumZ fees))
    /\ tl_undo l' = tl_undo l ++ (if (k =? 0)%nat then tail us else us)
    /\ extend_tree ((tx_body <$> txs) ≫= sprout_commitments) (tl_sprout l) = Ok (tl_sprout l')
    /\ extend_tree ((tx_body <$> txs) ≫= sapling_commitments) (tl_sapling l) = Ok (tl_sapling l').
Proof.
  induction txs as [|tx txs IH]; intros k l c l' c' Hi Hw Hnd Hnew Hrd Hcb E.
  - cbn in E. injection E as <- <-. exists [], []. split; [constructor|]. split; [constructor|].
    split; [intros; cbn; by rewrite Z.add_0_r, i64_small|]. by destruct (k =? 0)%nat; cbn; rewrite app_nil_r.
  - cbn [length] in E. rewrite seqZ_cons in E by lia. cbn [zip zip_with scheck_loop] in E.
    rewrite <- Nat2Z.inj_succ in E.
    replace (Z.pred (Z.of_nat (S (length txs)))) with (Z.of_nat (length txs)) in E by lia.
    apply scheck_bind_Pass in E as (l1 & c1 & E1 & E).
    destruct (connect_tx_Pass _ _ _ _ _ _ _ _ _ _ _ _ _ _ _ (proj1 Hi) E1) as (c0 & u & Hr & Eu & Hnull & Hund & Hsp & Hsa & _).
    apply NoDup_cons in Hnd as [Hni Hnd]. apply Forall_cons in Hnew as [Hnew1 Hnew], Hrd as [Hrd1 Hrd].
    destruct (connect_tx_fee _ _ _ _ _ _ _ _ _ _ _ _ Hi (rd_amounts _ _ Hrd1) E1) as (fee & Hfee & Hfee0 & Hsum).
    destruct (read_ok_stable c c0 Hi Hr) as (Hi0 & Ha0 & _).
    assert (Hcn : connectable (cache_abs c0) tx h).
    { apply ready_connectable; [done|by rewrite (eqv_coins _ _ Ha0)|]. intros Hc. eapply nullifiers_new_equiv; [done|by apply Hnull]. }
    assert (Hcb0 : IsCoinBase tx = bool_decide (k = 0%nat)) by (rewrite (Hcb 0%nat) by done; by rewrite Nat.add_0_r).
    pose proof (view_wf_equiv _ _ Ha0 Hw) as Hw0.
    destruct (tx_roundtrip tx k h c0 u c1 Hi0 Hw0 Hcn Hcb0 Eu) as (Hi1 & Hw1 & _).
    destruct (IH (S k) l1 c1 l' c' Hi1 Hw1 Hnd) as (us & fees & Htx & Hpaid & Hsum' & Hund' & Hsp' & Hsa'); [|done| | |].
    { apply Forall_forall. intros t Ht. rewrite Forall_forall in Hnew.
      eapply UpdateCoins_absent; [exact Hi0|exact Hw0|exact Hcn|exact Eu| |by rewrite (eqv_coins _ _ Ha0); apply Hnew].
      intros Heq. apply Hni. rewrite <- Heq. by apply list_elem_of_fmap_2. }
    { intros j t Hj. rewrite (Hcb (S j)) by done. apply bool_decide_ext. lia. }
    { exact E. }
    exists (u :: us), (fee :: fees). split; [by econstructor|]. split; [by econstructor|].
    split; [intros Hl; rewrite Hsum' by (rewrite Hsum by done; apply i64_bound); by rewrite Hsum, i64_add_l, sumZ_cons, Z.add_assoc by done|].
    rewrite Hund', Hund. cbn [Nat.eqb tail]. split; [|split; [by eapply extend_tree_app|by eapply extend_tree_app]].
    destruct k; cbn; [done|]. rewrite (proj2 (Z.ltb_lt _ _)) by lia. by rewrite <- app_assoc.
Qed.

(** ** The rest of the function *)

Local Abbreviation state := (Connecting (SpT := SpT) (SaT := SaT) (V := V)).
Implicit Types s : state.

(** What is followed through the steps: the view, the entry and the undo data. *)
Definition tracked s : cache * CBlockIndex * list (CDiskBlockPos * CBlockUndo) := (cn_view s, cn_pindex s, cn_undo s).
Definition untracked {A} (f : scheck state A) : Prop := forall s, tracked (f s).2 = tracked s.

Lemma untracked_bind {A B} (f : scheck state A) (k : A -> scheck state B) :
  untracked f -> (forall a, untracked (k a)) -> untracked (f ≫= k).
Proof.
  intros Hf Hk s. specialize (Hf s). unfold mbind, scheck_bind. destruct (f s) as [[a| | |] s1]; cbn [snd] in *; [|done..].
  by rewrite Hk.
Qed.

Lemma untracked_db b error : untracked (db_write env b error).
Proof. done. Qed.

Lemma write_indexes_untracked hash (l : TxLoop) : untracked (write_indexes env hash l).
Proof.
  unfold write_indexes, write_timestamps.
  repeat first [apply untracked_db|apply untracked_bind; [|intros ?]|case_match|done].
Qed.

Lemma untracked_Pass {A} (f : scheck state A) s a s' : untracked f -> f s = (Pass a, s') -> tracked s' = tracked s.
Proof. intros Hf E. specialize (Hf s). by rewrite E in Hf. Qed.

Lemma on_view_Pass {A} (f : scheck cache A) s a s' : on_view f s = (Pass a, s') ->
  f (cn_view s) = (Pass a, cn_view s') /\ cn_pindex s' = cn_pindex s /\ cn_undo s' = cn_undo s.
Proof. unfold on_view. destruct (f (cn_view s)) as [o v]. by intros [= -> <-]. Qed.

Lemma set_pindex_Pass f s u s' : set_pindex f s = (Pass u, s') ->
  cn_view s' = cn_view s /\ cn_pindex s' = f (cn_pindex s) /\ cn_undo s' = cn_undo s.
Proof. by intros [= _ <-]. Qed.

(** The undo data is written once, and the entry says where. *)
Lemma raise_to_scripts_Pass s u s' : raise_to_scripts params chainparams benv s = (Pass u, s') ->
  cn_view s' = cn_view s /\ cn_undo s' = cn_undo s /\ bi_nUndoPos (cn_pindex s') = bi_nUndoPos (cn_pindex s)
  /\ bi_hashFinalSproutRoot (cn_pindex s') = bi_hashFinalSproutRoot (cn_pindex s)
  /\ (has_status (bi_nStatus (cn_pindex s)) BLOCK_HAVE_UNDO = true -> has_status (bi_nStatus (cn_pindex s')) BLOCK_HAVE_UNDO = true).
Proof.
  unfold raise_to_scripts. intros E. apply scheck_bind_Pass in E as (b & s1 & [= <- <-] & E).
  apply scheck_bind_Pass in E as (b & s1 & E1 & E). apply lift_Pass in E1 as [E1 ->].
  apply scheck_bind_Pass in E as (r & s1 & E2 & E). apply lift_Pass in E2 as [E2 ->]. apply of_result_Pass, RaiseValidity_undo in E2 as (E2 & Ef & E3).
  apply scheck_bind_Pass in E as ([] & s1 & [= <-] & [= _ <-]). cbn [cn_view cn_undo cn_pindex].
  split; [done|]. split; [done|]. rewrite E2, Ef.
  assert (bi_nUndoPos b = bi_nUndoPos (cn_pindex s) /\ bi_hashFinalSproutRoot b = bi_hashFinalSproutRoot (cn_pindex s)
    /\ (has_status (bi_nStatus (cn_pindex s)) BLOCK_HAVE_UNDO = true -> has_status (bi_nStatus b) BLOCK_HAVE_UNDO = true)) as (-> & -> & Hst)
    by (destruct (IsActivationHeightForAnyUpgrade _ _);
        [apply bind_Pass in E1 as (br & _ & [= <-]); split; [done|]; split; [done|]; rewrite !has_undo_testbit; cbn [bi_with_branch bi_nStatus];
         intros Hb; by rewrite Z.lor_spec, Hb
        |destruct (bi_pprev _); [by apply bind_Pass in E1 as (prev & _ & [= <-])|by injection E1 as <-]]).
  split; [done|]. split; [done|]. intros Hb. apply E3, Hst, Hb.
Qed.

Lemma write_undo_Pass undo s u s' : write_undo env undo s = (Pass u, s') ->
  cn_view s' = cn_view s /\ bi_hashFinalSproutRoot (cn_pindex s') = bi_hashFinalSproutRoot (cn_pindex s)
  /\ exists pos, cn_undo s' = cn_undo s ++ [(pos, undo)] /\ bi_nUndoPos (cn_pindex s') = dp_nPos pos /\ has_status (bi_nStatus (cn_pindex s')) BLOCK_HAVE_UNDO = true.
Proof.
  unfold write_undo. intros E1. apply scheck_bind_Pass in E1 as (b & s2 & [= <- <-] & E1).
  apply scheck_bind_Pass in E1 as (bs & s2 & E2 & E1). apply lift_Pass in E2 as [_ ->].
  apply scheck_bind_Pass in E1 as (pos & s2 & E2 & E1). apply scheck_bind_Pass in E1 as (p & s3 & E3 & E1). apply lift_Pass in E3 as [_ ->].
  assert (cn_view s2 = cn_view s /\ cn_undo s2 = cn_undo s /\ cn_pindex s2 = cn_pindex s) as (Hv & Hu & Hp).
  { unfold on_cn_files in E2. destruct (FindUndoPos _ _ _ _ _) as [o fs]. by injection E2 as _ <-. }
  destruct (ce_UndoWriteToDisk env undo pos) as [ok pos'].
  apply scheck_bind_Pass in E1 as ([] & s3 & E3 & E1). apply lift_Pass in E3 as [_ ->].
  apply scheck_bind_Pass in E1 as ([] & s3 & [= <-] & [= _ <-]). cbn [cn_view cn_undo cn_pindex] in *. split; [done|].
  split; [by rewrite Hp|]. exists pos'. rewrite Hu. split; [done|]. split; [done|]. rewrite has_undo_testbit.
  cbn [bi_with_undo bi_nStatus]. rewrite Z.lor_spec. apply orb_true_r.
Qed.

(** Undo data is written for a block that has none yet, and recorded in its
    entry; a block that is connected again keeps the data it has. *)
Definition undo_kept (undo : CBlockUndo) s s' : Prop :=
  if CDiskBlockPos_IsNull (GetUndoPos (cn_pindex s))
  then exists pos, cn_undo s' = cn_undo s ++ [(pos, undo)] /\ bi_nUndoPos (cn_pindex s') = dp_nPos pos
         /\ has_status (bi_nStatus (cn_pindex s')) BLOCK_HAVE_UNDO = true
  else cn_undo s' = cn_undo s /\ bi_nUndoPos (cn_pindex s') = bi_nUndoPos (cn_pindex s)
         /\ (has_status (bi_nStatus (cn_pindex s)) BLOCK_HAVE_UNDO = true -> has_status (bi_nStatus (cn_pindex s')) BLOCK_HAVE_UNDO = true).

Lemma record_undo_Pass undo s u s' : record_undo params chainparams benv env undo s = (Pass u, s') ->
  cn_view s' = cn_view s /\ bi_hashFinalSproutRoot (cn_pindex s') = bi_hashFinalSproutRoot (cn_pindex s) /\ undo_kept undo s s'.
Proof.
  intros E. unfold record_undo in E. apply scheck_bind_Pass in E as (b & s1 & [= <- <-] & E).
  apply scheck_bind_Pass in E as (v & s1 & E1 & E). apply lift_Pass in E1 as [_ ->]. unfold undo_kept.
  destruct (CDiskBlockPos_IsNull (GetUndoPos (cn_pindex s))) eqn:Hnull; cbn [orb] in E.
  - apply scheck_bind_Pass in E as ([] & s1 & E1 & E). apply raise_to_scripts_Pass in E as (-> & -> & -> & -> & Hst).
    apply write_undo_Pass in E1 as (Hv & Hf & pos & Hu & Hp & Hs). split; [done|]. split; [done|]. exists pos. auto.
  - destruct (negb v); [|by injection E as _ <-]. apply scheck_bind_Pass in E as ([] & s1 & [= <-] & E).
    apply raise_to_scripts_Pass in E as (-> & -> & -> & -> & Hst). auto.
Qed.

(** BIP 30: no id of the block is in the view. *)
Lemma bip30_Pass (txs : list CTransaction) : forall c u c', cache_core c -> scheck_loop bip30_step txs tt c = (Pass u, c') ->
  read_ok c c' /\ Forall (fun tx => a_coins (cache_abs c) (tx_hash tx) = None) txs.
Proof.
  induction txs as [|tx txs IH]; intros c u c' Hc E; cbn [scheck_loop] in E.
  - injection E as <- <-. split; [by apply read_ok_refl|constructor].
  - apply scheck_bind_Pass in E as ([] & c1 & E1 & E). unfold bip30_step in E1.
    apply scheck_bind_Pass in E1 as (o & c2 & E1 & E2). apply lift_Pass in E2 as [E2 ->]. apply reject_if_Pass in E2.
    unfold query, Cache_AccessCoins in E1. destruct (FetchCoins_ok (tx_hash tx) c Hc) as (Hr & Hn & _).
    destruct (FetchCoins _ c) as [o' c2']. cbn [fst snd] in *. injection E1 as -> ->.
    destruct (IH c2 u c' (proj1 Hr) E) as [Hr2 HF]. split; [by eapply read_ok_trans|]. constructor.
    + rewrite <- Hn. destruct o as [coins|]; [|done]. cbn. by apply negb_false_iff in E2 as ->.
    + eapply Forall_impl; [exact HF|]. intros t. cbv beta. pose proof Hr as (_ & Ha & _). by rewrite (eqv_coins _ _ Ha).
Qed.

Lemma query_Pass {A} (f : cache -> A * cache) c a c' : query f c = (Pass a, c') -> f c = (a, c').
Proof. unfold query. destruct (f c). by intros [= -> ->]. Qed.

(** The trees of the best anchors. *)
Lemma current_trees_Pass c root spt sat c' : cache_core c -> current_trees c = (Pass (root, spt, sat), c') ->
  read_ok c c' /\ root = a_bestAnchor (cache_abs c) SPROUT
  /\ tree_root spt = a_bestAnchor (cache_abs c) SPROUT /\ tree_root sat = a_bestAnchor (cache_abs c) SAPLING.
Proof.
  intros Hc E. unfold current_trees in E.
  apply scheck_bind_Pass in E as (r1 & c1 & E1 & E). apply query_Pass in E1. destruct (GetBestAnchor_ok SPROUT c Hc) as [Hr1 Hb1].
  rewrite E1 in Hr1, Hb1. cbn [fst snd] in *.
  apply scheck_bind_Pass in E as (o & c2 & E2 & E). apply query_Pass in E2. destruct (GetSproutAnchorAt_ok r1 c1 (proj1 Hr1)) as [Hr2 Hb2].
  rewrite E2 in Hr2, Hb2. cbn [fst snd] in *. apply scheck_bind_Pass in E as (t & c3 & E3 & E). apply lift_Pass in E3 as [E3 ->].
  destruct o as [t'|]; [|done]. injection E3 as ->. apply scheck_bind_Pass in E as ([] & c3 & E3 & E). apply lift_Pass in E3 as [_ ->].
  apply scheck_bind_Pass in E as (r2 & c3 & E3 & E). apply query_Pass in E3. destruct (GetBestAnchor_ok SAPLING c2 (proj1 Hr2)) as [Hr3 Hb3].
  rewrite E3 in Hr3, Hb3. cbn [fst snd] in *.
  apply scheck_bind_Pass in E as (o & c4 & E4 & E). apply query_Pass in E4. destruct (GetSaplingAnchorAt_ok r2 c3 (proj1 Hr3)) as [Hr4 Hb4].
  rewrite E4 in Hr4, Hb4. cbn [fst snd] in *. apply scheck_bind_Pass in E as (t2 & c5 & E5 & E). apply lift_Pass in E5 as [E5 ->].
  destruct o as [t2'|]; [|done]. injection E5 as ->. injection E as <- <- <- <-.
  pose proof (read_ok_trans _ _ _ Hr1 Hr2) as Hr12. split_and!; [|done|by rewrite (proj1 Hb2)|].
  - exact (read_ok_trans _ _ _ (read_ok_trans _ _ _ Hr12 Hr3) Hr4).
  - rewrite (proj1 Hb4), Hb3. pose proof Hr12 as (_ & Ha & _). by rewrite (eqv_bestAnchor _ _ Ha).
Qed.

Lemma new_anchor_equiv a b ty empty rt : a ≡ b -> new_anchor b ty empty rt -> new_anchor a ty empty rt.
Proof.
  intros Ha (? & ? & ? & ?). unfold new_anchor. rewrite (eqv_bestAnchor _ _ Ha), !(eqv_anchor _ _ Ha). done.
Qed.

(** What the block must satisfy besides being accepted: the transaction ids
    are distinct (different transactions have different ids), and no input
    names the output of number 2^32 - 1, which no transaction has. *)
Record block_ready (block : CBlock) (h : Z) : Prop := {
  br_amounts : Forall tx_amounts_i64 (b_vtx block);
  br_ids : NoDup (hash_tx <$> b_vtx block);
  br_inputs : Forall (fun tx => Forall (fun i => 0 <= out_n (prevout i) < 2 ^ 32 - 1) (vin tx)) (tail (b_vtx block));
  br_height : 0 < h < 2 ^ 31
}.

(** How the transactions of an accepted block change the view. *)
Record body_connected (block : CBlock) (h : Z) c root (l : TxLoop (SpT := SpT) (SaT := SaT)) c' : Prop := {
  bd_view : exists c0 c1 us fees, read_ok c c0 /\ txs_connected h 0 c0 (CTransaction_copy hash_tx <$> b_vtx block) us c1
    /\ txs_paid h c0 (CTransaction_copy hash_tx <$> b_vtx block) fees c1 /\ tl_nFees l = i64 (sumZ fees)
    /\ c' = PushAnchor_Sapling (tl_sapling l) (PushAnchor_Sprout (tl_sprout l) c1) /\ tl_undo l = tail us;
  bd_some : CTransaction_copy hash_tx <$> b_vtx block <> [];
  bd_root : root = a_bestAnchor (cache_abs c) SPROUT;
  bd_trees : exists spt sat, tree_root spt = a_bestAnchor (cache_abs c) SPROUT /\ tree_root sat = a_bestAnchor (cache_abs c) SAPLING
    /\ extend_tree (b_vtx block ≫= sprout_commitments) spt = Ok (tl_sprout l)
    /\ extend_tree (b_vtx block ≫= sapling_commitments) sat = Ok (tl_sapling l)
}.

Lemma ready_txs vs block e h : block_ready block h -> body_checked params benv vs block e ->
  Forall (tx_ready h) (CTransaction_copy hash_tx <$> b_vtx block)
  /\ (forall j (tx : CTransaction), (CTransaction_copy hash_tx <$> b_vtx block) !! j = Some tx -> IsCoinBase tx = bool_decide ((0 + j)%nat = 0%nat))
  /\ NoDup (tx_hash <$> (CTransaction_copy hash_tx <$> b_vtx block)).
Proof.
  intros [Ham Hids Hin Hh] [_ _ (cb & rest & Ev & Hcb & Hrest) _ _ Htxs _]. rewrite Ev in *. cbn [tail] in Hin. split_and!.
  - apply Forall_fmap, Forall_forall. intros tx Hx. rewrite Forall_forall in Htxs. destruct (Htxs tx Hx) as [Hck _].
    split; [done|by eapply Forall_forall in Hx; [|exact Ham]| |done]. cbn [CTransaction_copy tx_body]. intros Hc. apply elem_of_cons in Hx as [->|Hx]; [congruence|].
    rewrite Forall_forall in Hin. by apply Hin.
  - intros j tx Hj. rewrite list_lookup_fmap in Hj. apply fmap_Some in Hj as (t & Hj & ->). cbn [CTransaction_copy tx_body Nat.add].
    destruct j; [by injection Hj as <-|]. rewrite bool_decide_false by done. by eapply Forall_lookup_1 in Hrest.
  - by rewrite <- list_fmap_compose.
Qed.

(** What the checks of the totals establish. *)
Lemma check_totals_sapling h block (l : TxLoop (SpT := SpT) (SaT := SaT)) :
  check_totals net params chainparams env h block l = Pass tt ->
  NetworkUpgradeActive h (consensus chainparams) UPGRADE_SAPLING = Ok true ->
  hashFinalSaplingRoot (b_header block) = tree_root (tl_sapling l).
Proof.
  intros E Hsap. unfold check_totals in E. rewrite Hsap in E. cbn [of_result] in E. rewrite Pass_bind in E.
  apply reject_if_seq in E as [E _]. cbn [andb] in E. by apply negb_false_iff, Z.eqb_eq in E.
Qed.

Lemma check_totals_reward h block (l : TxLoop (SpT := SpT) (SaT := SaT)) :
  check_totals net params chainparams env h block l = Pass tt -> is_superblock env h = false -> Forall tx_amounts_i64 (b_vtx block) ->
  exists subsidy cb, GetBlockSubsidy net params h (consensus chainparams) = Ok subsidy /\ b_vtx block !! 0%nat = Some cb
    /\ exact_value_out cb <= i64 (tl_nFees l + subsidy).
Proof.
  intros E Hsp Ham. unfold check_totals in E. apply bind_Pass in E as (sap & _ & E). apply reject_if_seq in E as [_ E].
  apply bind_Pass in E as (subsidy & Es & E). apply of_result_Pass in Es. apply bind_Pass in E as (valid & Ev & E).
  apply reject_if_seq in E as [Hv _]. apply negb_false_iff in Hv as ->. apply of_result_Pass in Ev. unfold IsBlockValueValid in Ev.
  rewrite Hsp in Ev. unfold index_or_abort in Ev. destruct (b_vtx block !! 0%nat) as [cb|] eqn:Ecb; [|done]. cbn in Ev.
  exists subsidy, cb. split; [done|]. split; [done|]. eapply Forall_lookup_1 in Ham; [|exact Ecb].
  rewrite GetValueOut_value in Ev by done. case_bool_decide; [|done]. injection Ev as Ev. by apply Z.leb_le.
Qed.

Lemma connect_body_Pass vs block e fMerkle s root l s' : cache_inv (cn_view s) -> view_wf (cache_abs (cn_view s)) ->
  block_ready block (Chain.bi_nHeight (cn_pindex s)) -> body_checked params benv vs block fMerkle ->
  connect_body net params chainparams benv env block e false s = (Pass (root, l), s') ->
  body_connected block (Chain.bi_nHeight (cn_pindex s)) (cn_view s) root l (cn_view s')
  /\ cn_undo s' = cn_undo s
  /\ (GetUndoPos (cn_pindex s'), bi_nUndoPos (cn_pindex s'), bi_nStatus (cn_pindex s')) = (GetUndoPos (cn_pindex s), bi_nUndoPos (cn_pindex s), bi_nStatus (cn_pindex s))
  /\ bi_hashFinalSproutRoot (cn_pindex s') = tree_root (tl_sprout l)
  /\ check_totals net params chainparams env (Chain.bi_nHeight (cn_pindex s)) block l = Pass tt.
Proof.
  intros Hi Hw Hrd Hck E. destruct (ready_txs _ _ _ _ Hrd Hck) as (Hready & Hcb & Hnd). unfold connect_body in E.
  apply scheck_bind_Pass in E as (b & s0 & [= <- <-] & E). apply scheck_bind_Pass in E as ([] & s1 & E1 & E).
  apply on_view_Pass in E1 as (E1 & Hp1 & Hu1). destruct (bip30_Pass _ _ _ _ (proj1 Hi) E1) as [Hr1 Hnew].
  apply scheck_bind_Pass in E as ([[r spt] sat] & s2 & E2 & E). apply on_view_Pass in E2 as (E2 & Hp2 & Hu2).
  destruct (current_trees_Pass _ _ _ _ _ (proj1 Hr1) E2) as (Hr2 & Hroot & Hspt & Hsat).
  apply scheck_bind_Pass in E as ([] & s3 & E3 & E). apply set_pindex_Pass in E3 as (Hv3 & Hp3 & Hu3).
  apply scheck_bind_Pass in E as (br & s4 & E4 & E). apply lift_Pass in E4 as [_ ->].
  apply scheck_bind_Pass in E as (l' & s5 & E5 & E). apply on_view_Pass in E5 as (E5 & Hp5 & Hu5).
  apply scheck_bind_Pass in E as ([] & s6 & E6 & E). apply on_view_Pass in E6 as (E6 & Hp6 & Hu6). injection E6 as Hv6.
  apply scheck_bind_Pass in E as ([] & s7 & E7 & E). apply set_pindex_Pass in E7 as (Hv7 & Hp7 & Hu7).
  apply scheck_bind_Pass in E as ([] & s8 & E8 & E). apply lift_Pass in E8 as [E8 ->]. injection E as <- <- <-.
  pose proof (read_ok_trans _ _ _ Hr1 Hr2) as Hr. destruct (read_ok_stable _ _ Hi Hr) as (Hi2 & Ha2 & _). rewrite Hv3 in E5.
  apply (connect_loop_Pass _ _ _ _ _ _ _ 0) in E5 as (us & fees & Htxs & Hpaid & Hsum & Hund & Hsp & Hsa); [|done|by eapply view_wf_equiv|done| |done|done].
  2:{ eapply Forall_impl; [exact Hnew|]. intros t. cbv beta. by rewrite (eqv_coins _ _ Ha2). }
  pose proof Hr1 as (_ & Ha1 & _). rewrite (eqv_bestAnchor _ _ Ha1) in Hroot, Hspt, Hsat.
  split; [|split; [congruence|split; [|split; [by rewrite Hp7|done]]]].
  - split; [| |done|].
    + exists (cn_view s2), (cn_view s5), us, fees. split_and!; [done|done|done| |congruence|exact Hund]. cbn in Hsum. by rewrite Hsum by (unfold is_i64; lia).
    + destruct Hck as [_ _ (cb & rest & -> & _) _ _ _ _]. done.
    + exists spt, sat. split; [done|]. split; [done|]. rewrite <- list_fmap_compose in Hsp, Hsa. cbn [compose CTransaction_copy tx_body] in Hsp, Hsa.
      rewrite list_fmap_id in Hsp, Hsa. done.
  - rewrite Hp7, Hp6, Hp5, Hp3, Hp2, Hp1. done.
Qed.

(** The checks and the connection of a block that is not the genesis block,
    recorded and made the best block. *)
Lemma ConnectBlock_Pass block hash s s' : cache_inv (cn_view s) -> view_wf (cache_abs (cn_view s)) ->
  block_ready block (Chain.bi_nHeight (cn_pindex s)) -> hash_header (b_header block) <> env_hashGenesisBlock benv ->
  ConnectBlock VerifySprout net params chainparams benv env block (Some hash) false s = (Pass tt, s') ->
  default uint256_null (bi_pprev (cn_pindex s)) = a_best (cache_abs (cn_view s))
  /\ exists l c, body_connected block (Chain.bi_nHeight (cn_pindex s)) (cn_view s) (a_bestAnchor (cache_abs (cn_view s)) SPROUT) l c
    /\ cn_view s' = Cache_SetBestBlock hash c
    /\ undo_kept (mkBlockUndo (tl_undo l) (a_bestAnchor (cache_abs (cn_view s)) SPROUT)) s s'
    /\ bi_hashFinalSproutRoot (cn_pindex s') = tree_root (tl_sprout l)
    /\ check_totals net params chainparams env (Chain.bi_nHeight (cn_pindex s)) block l = Pass tt.
Proof.
  intros Hi Hw Hrd Hg E. unfold ConnectBlock in E. apply scheck_bind_Pass in E as (b & s0 & [= <- <-] & E).
  apply scheck_bind_Pass in E as (e & s0 & E0 & E). apply lift_Pass in E0 as [_ ->].
  apply scheck_bind_Pass in E as ([] & s1 & E1 & E). unfold on_cn_rejected in E1.
  destruct (CheckBlock _ _ _ _ _ _ _ _) as [o r'] eqn:Ec. injection E1 as -> <-.
  apply CheckBlock_Pass in Ec as (_ & Hck & _); [|apply Hrd].
  apply scheck_bind_Pass in E as (best & s2 & E2 & E). apply on_view_Pass in E2 as (E2 & Hp2 & Hu2). apply query_Pass in E2.
  cbn [cn_view cn_pindex cn_undo] in *. destruct (GetBestBlock_ok _ (proj1 Hi)) as [Hr2 Hb2]. rewrite E2 in Hr2, Hb2. cbn [fst snd] in *.
  destruct (read_ok_stable _ _ Hi Hr2) as (Hi2 & Ha2 & _).
  apply scheck_bind_Pass in E as ([] & s3 & E3 & E). apply lift_Pass in E3 as [E3 ->].
  apply of_result_Pass, assert_true_Ok, bool_decide_eq_true in E3. rewrite (proj2 (Z.eqb_neq _ _) Hg) in E.
  apply scheck_bind_Pass in E as ([root l] & s3 & E4 & E). rewrite <- Hp2 in Hrd.
  apply (connect_body_Pass _ _ _ _ _ _ _ _ Hi2 (view_wf_equiv _ _ Ha2 Hw) Hrd Hck) in E4 as (Hbd & Hu3 & [= Hn3 Hb3 Hst3] & Hf3 & Hs3).
  apply scheck_bind_Pass in E as ([] & s4 & E5 & E).
  apply record_undo_Pass in E5 as (Hv4 & Hf4 & Hk4).
  apply scheck_bind_Pass in E as (h' & s5 & E6 & E). apply lift_Pass in E6 as [[= <-] ->].
  apply scheck_bind_Pass in E as ([] & s5 & E7 & E). apply untracked_Pass in E7; [|apply write_indexes_untracked].
  injection E7 as Hv5 Hp5 Hu5. apply on_view_Pass in E as ([= Hv6] & Hp6 & Hu6). split; [congruence|].
  exists l, (cn_view s3). rewrite Hp2 in Hbd, Hs3. pose proof (bd_root _ _ _ _ _ _ Hbd) as Hroot. rewrite (eqv_bestAnchor _ _ Ha2) in Hroot.
  assert (Hp : cn_pindex s' = cn_pindex s4 /\ cn_undo s' = cn_undo s4) by (split; congruence).
  subst root. split; [|split; [congruence|split_and!; [|destruct Hp as [-> _]; congruence|exact Hs3]]].
  2:{ destruct Hp as [Hp Hu]. unfold undo_kept in *. rewrite Hp, Hu. rewrite Hn3, Hb3, Hst3, Hp2, Hu3, Hu2 in Hk4. done. }
  destruct Hbd as [(c0 & c1 & us & fees & Hr & Ht) Hne _ (spt & sat & Hs1 & Hs2 & Htr)]. rewrite !(eqv_bestAnchor _ _ Ha2) in *.
  split; [|done|done|by exists spt, sat]. exists c0, c1, us, fees. split; [by eapply read_ok_trans|done].
Qed.

(** (C2) What [ConnectBlock] accepts can be undone: the first time a block is
    connected, the function writes the undo data once and records its place in
    the block's entry, and [DisconnectBlock] with exactly that data takes the
    view it leaves back to the coins, nullifiers, anchors and best block of
    before.  The trees whose roots become the anchors are those of the best
    anchors, extended by the block's note commitments in order; the Sprout root
    is recorded in the entry and, once Sapling is active, the Sapling root is
    the one in the block's header. *)
Theorem ConnectBlock_undone (block : CBlock) (hash : uint256) s s'
  (Hi : cache_inv (cn_view s)) (Hw : view_wf (cache_abs (cn_view s)))
  (Hrd : block_ready block (Chain.bi_nHeight (cn_pindex s)))
  (Hg : hash_header (b_header block) <> env_hashGenesisBlock benv) (Hh : hash <> uint256_null)
  (Hnull : CDiskBlockPos_IsNull (GetUndoPos (cn_pindex s)) = true)
  (E : ConnectBlock VerifySprout net params chainparams benv env block (Some hash) false s = (Pass tt, s')) :
  exists pos undo (spt0 : SpT) (sat0 : SaT) (spt : SpT) (sat : SaT),
    cn_undo s' = cn_undo s ++ [(pos, undo)] /\ bi_nUndoPos (cn_pindex s') = dp_nPos pos
    /\ has_status (bi_nStatus (cn_pindex s')) BLOCK_HAVE_UNDO = true
    /\ bi_hashFinalSproutRoot (cn_pindex s') = tree_root spt
    /\ (NetworkUpgradeActive (Chain.bi_nHeight (cn_pindex s)) (consensus chainparams) UPGRADE_SAPLING = Ok true ->
        hashFinalSaplingRoot (b_header block) = tree_root sat)
    /\ tree_root spt0 = a_bestAnchor (cache_abs (cn_view s)) SPROUT /\ tree_root sat0 = a_bestAnchor (cache_abs (cn_view s)) SAPLING
    /\ extend_tree (b_vtx block ≫= sprout_commitments) spt0 = Ok spt
    /\ extend_tree (b_vtx block ≫= sapling_commitments) sat0 = Ok sat
    /\ forall (fA fS : bool) (active : Z -> bool) (pfClean : bool) (pindex pprev : BlockIndexInfo),
       bi_hash pindex = hash -> bi_has_undo pindex = true ->
       bi_pprev (cn_pindex s) = Some (bi_hash pprev) -> bi_hash pprev <> uint256_null ->
       new_anchor (cache_abs (cn_view s)) SPROUT (tree_empty_root (T := SpT)) (tree_root spt) ->
       new_anchor (cache_abs (cn_view s)) SAPLING (tree_empty_root (T := SaT)) (tree_root sat) ->
       (if active (UpdateCoins.bi_nHeight pprev) then UpdateCoins.bi_hashFinalSaplingRoot pprev else tree_empty_root (T := SaT))
         = a_bestAnchor (cache_abs (cn_view s)) SAPLING ->
       exists out : @DisconnectOutcome SpT SaT V,
         DisconnectBlock fA fS (Chain.bi_nHeight (cn_pindex s)) (CTransaction_copy hash_tx <$> b_vtx block) pindex pprev
           (Some undo) active true true pfClean (cn_view s') = Ok out
         /\ do_ret out = true /\ do_pfClean out = (if pfClean then Some true else None)
         /\ cache_inv (do_view out) /\ cache_abs (do_view out) ≡ cache_abs (cn_view s).
Proof.
  destruct (ConnectBlock_Pass block hash s s' Hi Hw Hrd Hg E) as (Hbest & l & c & Hbd & Hv & Hk & Hfs & Hfa).
  unfold undo_kept in Hk. rewrite Hnull in Hk. destruct Hk as (pos & Hu & Hpos & Hst).
  destruct Hbd as [(c0 & c1 & us & fees & Hr & Htxs & _ & _ & -> & Hund) Hne _ (spt0 & sat0 & Hs1 & Hs2 & Hsp & Hsa)].
  destruct (read_ok_stable _ _ Hi Hr) as (Hi0 & Ha0 & _).
  exists pos, (mkBlockUndo (tl_undo l) (a_bestAnchor (cache_abs (cn_view s)) SPROUT)), spt0, sat0, (tl_sprout l), (tl_sapling l).
  split_and!; try done; [by apply (check_totals_sapling _ block l)|]. intros fA fS active pfClean pindex pprev Hpi Hun Hpp Hpn Hnsp Hnsa Hroot.
  destruct (disconnect_connected (Chain.bi_nHeight (cn_pindex s)) c0 c1 (CTransaction_copy hash_tx <$> b_vtx block) us
    (tl_sprout l) (tl_sapling l) pindex pprev fA fS active pfClean) as (out & Eo & Hret & Hcl & Hio & Hao); try done.
  - by eapply view_wf_equiv.
  - by eapply new_anchor_equiv.
  - by eapply new_anchor_equiv.
  - by rewrite Hpi.
  - rewrite (eqv_best _ _ Ha0), <- Hbest, Hpp. done.
  - by rewrite (eqv_bestAnchor _ _ Ha0).
  - exists out. rewrite (eqv_bestAnchor _ _ Ha0), Hpi, <- Hund in Eo. unfold block_anchored in Eo. rewrite Hv.
    split_and!; try done. by rewrite Hao.
Qed.

(** (C3) A block creates no more money than its subsidy.  Whenever [ConnectBlock]
    accepts a block, for the first time or again, at a height that is not a
    superblock of the budget, each transaction but the coinbase, taken in order,
    spends outputs that are unspent where it stands and pays out what it takes in
    less a fee of at least zero, over the integers; the coinbase pays out at most
    the subsidy of the height and the sum of these fees, also where the sum the
    code computes has wrapped around.  At a superblock the amount is left to the
    budget. *)
Theorem ConnectBlock_no_inflation (block : CBlock) (hash : uint256) s s'
  (Hi : cache_inv (cn_view s)) (Hw : view_wf (cache_abs (cn_view s)))
  (Hrd : block_ready block (Chain.bi_nHeight (cn_pindex s)))
  (Hg : hash_header (b_header block) <> env_hashGenesisBlock benv)
  (Hsb : is_superblock env (Chain.bi_nHeight (cn_pindex s)) = false)
  (E : ConnectBlock VerifySprout net params chainparams benv env block (Some hash) false s = (Pass tt, s')) :
  exists subsidy cb fees c0 c1,
    GetBlockSubsidy net params (Chain.bi_nHeight (cn_pindex s)) (consensus chainparams) = Ok subsidy /\ b_vtx block !! 0%nat = Some cb
    /\ read_ok (cn_view s) c0
    /\ txs_paid (Chain.bi_nHeight (cn_pindex s)) c0 (CTransaction_copy hash_tx <$> b_vtx block) fees c1
    /\ Forall (fun fee => 0 <= fee) fees
    /\ exact_value_out cb <= sumZ fees + subsidy.
Proof.
  destruct (ConnectBlock_Pass block hash s s' Hi Hw Hrd Hg E) as (_ & l & c & Hbd & _ & _ & _ & Htot).
  destruct (check_totals_reward _ _ _ Htot Hsb (br_amounts _ _ Hrd)) as (subsidy & cb & Es & Ecb & Hle).
  destruct Hbd as [(c0 & c1 & us & fees & Hr & _ & Hpaid & Hsum & _) _ _ _]. pose proof (txs_paid_nonneg _ _ _ _ _ Hpaid) as Hnn.
  exists subsidy, cb, fees, c0, c1. split_and!; try done. rewrite Hsum, i64_add_l in Hle. etrans; [exact Hle|]. apply i64_le.
  pose proof (sumZ_nonneg _ Hnn). pose proof (GetBlockSubsidy_nonneg _ _ _ _ _ (proj1 (br_height _ _ Hrd)) Es). lia.
Qed.
End ConnectLaws.
