(* ===== verification/Double.v ===== *)
(** * Double precision numbers

    The C++ [double] as an IEEE 754 binary64 number, rounding to nearest even:
    the Standard Library's executable specification of floating point at
    precision 53 and maximal exponent 1024. *)
From Stdlib Require Import Floats.SpecFloat.
From stdpp Require Import prelude.
#[local] Open Scope Z_scope.

Abbreviation double := spec_float.
Definition double_zero : double := S754_zero false.

(** The conversion of an integer. *)
Definition double_of (z : Z) : double := binary_normalize 53 1024 z 0 false.
Definition double_add : double -> double -> double := SFadd 53 1024.
Definition double_sub : double -> double -> double := SFsub 53 1024.
Definition double_mul : double -> double -> double := SFmul 53 1024.
Definition double_div : double -> double -> double := SFdiv 53 1024.
Definition double_lt : double -> double -> bool := SFltb.
Definition double_le : double -> double -> bool := SFleb.
Definition double_gt (a b : double) : bool := SFltb b a.
Definition double_ge (a b : double) : bool := SFleb b a.
Definition double_eq : double -> double -> bool := SFeqb.

(** A decimal constant [m / 10^k], rounded once. *)
Definition double_dec (m : Z) (k : Z) : double := double_div (double_of m) (double_of (10 ^ k)).

Example double_of_third : double_div (double_of 1) (double_of 3) = S754_finite false 6004799503160661 (-54).
Proof. reflexivity. Qed.

Example double_of_rounds : double_of (2 ^ 53 + 1) = double_of (2 ^ 53).
Proof. reflexivity. Qed.
