(* ===== verification/MempoolLimit.v ===== *)
(** * Limiting the memory pool

    mempool_limit.{h,cpp}: the weights of transactions, the tree of weights
    from which a transaction is drawn at random ([WeightedTxTree]), and the
    memory of evicted transactions ([RecentlyEvictedList]).

    The clock, the random number and the memory usage of a transaction are
    arguments.  Indices are below 2^62, so that [index * 2 + 2] does not wrap
    around. *)
From stdpp Require Import prelude gmap strings list sorting.
From S2P Require Import Prelude Transaction.
#[local] Open Scope Z_scope.

Definition EVICTION_MEMORY_ENTRIES : Z := 40000.
Definition MIN_TX_COST : Z := 4000.
Definition LOW_FEE_PENALTY : Z := 16000.
Definition DEFAULT_FEE : Z := 1000.
Definition DEFAULT_MEMPOOL_TOTAL_COST_LIMIT : Z := 80000000.
Definition DEFAULT_MEMPOOL_EVICTION_MEMORY_MINUTES : Z := 60.

(** ** Weights *)

Record TxWeight := mkTxWeight { cost : Z; evictionWeight : Z }.
Definition ZERO_WEIGHT : TxWeight := mkTxWeight 0 0.
Definition TxWeight_add (a b : TxWeight) : TxWeight := mkTxWeight (i64 (cost a + cost b)) (i64 (evictionWeight a + evictionWeight b)).
Definition TxWeight_negate (a : TxWeight) : TxWeight := mkTxWeight (i64 (- cost a)) (i64 (- evictionWeight a)).

Record WeightedTxInfo := mkTxInfo { wi_txId : uint256; wi_txWeight : TxWeight }.

(** [memUsage] is [RecursiveDynamicUsage(tx)]. *)
Definition WeightedTxInfo_from (memUsage : Z) (tx : CTransaction) (fee : Z) : WeightedTxInfo :=
  let c := Z.max (i64 memUsage) (i64 MIN_TX_COST) in
  mkTxInfo (tx_hash tx) (mkTxWeight c (if fee <? DEFAULT_FEE then i64 (c + LOW_FEE_PENALTY) else c)).

(** ** The tree *)

Record WeightedTxTree := mkTree {
  wt_capacity : Z;
  wt_size : nat;
  txIdAndWeights : list WeightedTxInfo;
  childWeights : list TxWeight;
  txIdToIndexMap : gmap uint256 nat
}.
Definition WeightedTxTree_new (capacity : Z) : result WeightedTxTree :=
  _ ← assert_true (0 <=? capacity); Ok (mkTree capacity 0 [] [] ∅).

Definition getWeightAt (t : WeightedTxTree) (index : nat) : result TxWeight :=
  if (index <? wt_size t)%nat then
    i ← index_or_abort (txIdAndWeights t) index;
    c ← index_or_abort (childWeights t) index;
    Ok (TxWeight_add (wi_txWeight i) c)
  else Ok ZERO_WEIGHT.

(** [while (fromIndex > 0)]: the index at least halves. *)
Fixpoint backPropagate_loop (fuel fromIndex : nat) (weightDelta : TxWeight) (children : list TxWeight) : result (list TxWeight) :=
  if (fromIndex =? 0)%nat then Ok children
  else match fuel with
  | O => Abort
  | S fuel' =>
      let p := ((fromIndex - 1) / 2)%nat in
      c ← index_or_abort children p;
      backPropagate_loop fuel' p weightDelta (<[p := TxWeight_add c weightDelta]> children)
  end.
Definition backPropagate (fromIndex : nat) (weightDelta : TxWeight) (children : list TxWeight) : result (list TxWeight) :=
  backPropagate_loop fromIndex fromIndex weightDelta children.

(** [leftWeight] and [rightWeight] are [int]s. *)
Fixpoint find_loop (fuel : nat) (t : WeightedTxTree) (fromIndex : nat) (weightToFind : Z) : result nat :=
  match fuel with
  | O => Abort
  | S fuel' =>
      left ← getWeightAt t (fromIndex * 2 + 1);
      here ← getWeightAt t fromIndex;
      right ← getWeightAt t (fromIndex * 2 + 2);
      let leftWeight := i32 (evictionWeight left) in
      let rightWeight := i32 (i64 (evictionWeight here - evictionWeight right)) in
      if weightToFind <? leftWeight then find_loop fuel' t (fromIndex * 2 + 1) weightToFind
      else if weightToFind <? rightWeight then Ok fromIndex
      else find_loop fuel' t (fromIndex * 2 + 2) (i64 (weightToFind - rightWeight))
  end.
(** An index below the size is found within that many steps. *)
Definition findByEvictionWeight (t : WeightedTxTree) (fromIndex : nat) (weightToFind : Z) : result nat :=
  find_loop (wt_size t) t fromIndex weightToFind.

Definition getTotalWeight (t : WeightedTxTree) : result TxWeight := getWeightAt t 0.

Definition tree_add (weightedTxInfo : WeightedTxInfo) (t : WeightedTxTree) : result WeightedTxTree :=
  if bool_decide (is_Some (txIdToIndexMap t !! wi_txId weightedTxInfo)) then Ok t
  else
    children ← backPropagate (wt_size t) (wi_txWeight weightedTxInfo) (childWeights t ++ [ZERO_WEIGHT]);
    Ok (mkTree (wt_capacity t) (S (wt_size t)) (txIdAndWeights t ++ [weightedTxInfo]) children
          (<[wi_txId weightedTxInfo := wt_size t]> (txIdToIndexMap t))).

Definition tree_remove (txId : uint256) (t : WeightedTxTree) : result WeightedTxTree :=
  match txIdToIndexMap t !! txId with
  | None => Ok t
  | Some removeIndex =>
      let size := (wt_size t - 1)%nat in
      last ← index_or_abort (txIdAndWeights t) size;
      let lastChildWeight := wi_txWeight last in
      children ← backPropagate size (TxWeight_negate lastChildWeight) (childWeights t);
      r ← (if (removeIndex <? size)%nat then
             removed ← index_or_abort (txIdAndWeights t) removeIndex;
             let weightDelta := TxWeight_add lastChildWeight (TxWeight_negate (wi_txWeight removed)) in
             children ← backPropagate removeIndex weightDelta children;
             Ok (<[removeIndex := last]> (txIdAndWeights t), children, <[wi_txId last := removeIndex]> (txIdToIndexMap t))
           else Ok (txIdAndWeights t, children, txIdToIndexMap t));
      let '(infos, children, indices) := r in
      Ok (mkTree (wt_capacity t) size (removelast infos) (removelast children) (delete txId indices))
  end.

(** [rand] is [GetRand]: a number below its argument. *)
Definition maybeDropRandom (rand : Z -> Z) (t : WeightedTxTree) : result (option uint256 * WeightedTxTree) :=
  total ← getTotalWeight t;
  if cost total <=? wt_capacity t then Ok (None, t)
  else
    let randomWeight := i32 (rand (u64 (evictionWeight total))) in
    k ← findByEvictionWeight t 0 randomWeight;
    drop ← index_or_abort (txIdAndWeights t) k;
    t ← tree_remove (wi_txId drop) t;
    Ok (Some (wi_txId drop), t).

(** ** Recently evicted transactions *)

Record RecentlyEvictedList := mkEvicted {
  ev_capacity : Z;
  timeToKeep : Z;
  txIdsAndTimes : list (uint256 * Z);
  txIdSet : gset uint256
}.
Definition RecentlyEvictedList_new (capacity keep : Z) : result RecentlyEvictedList :=
  _ ← assert_true (capacity <=? EVICTION_MEMORY_ENTRIES); Ok (mkEvicted capacity keep [] ∅).

Fixpoint prune_entries (now keep : Z) (l : list (uint256 * Z)) (s : gset uint256) : list (uint256 * Z) * gset uint256 :=
  match l with
  | (t, time) :: l' => if keep <? now - time then prune_entries now keep l' (s ∖ {[t]}) else (l, s)
  | [] => (l, s)
  end.
Definition pruneList (now : Z) (e : RecentlyEvictedList) : RecentlyEvictedList :=
  if bool_decide (txIdSet e = ∅) then e
  else let '(l, s) := prune_entries now (timeToKeep e) (txIdsAndTimes e) (txIdSet e) in
       mkEvicted (ev_capacity e) (timeToKeep e) l s.

(** [front()] of an empty deque is undefined: a capacity of zero is not used. *)
Definition evicted_add (now : Z) (txId : uint256) (e : RecentlyEvictedList) : result RecentlyEvictedList :=
  let e := pruneList now e in
  r ← (if Z.of_nat (length (txIdsAndTimes e)) =? ev_capacity e then
         match txIdsAndTimes e with
         | (t, _) :: l => Ok (l, txIdSet e ∖ {[t]})
         | [] => Abort
         end
       else Ok (txIdsAndTimes e, txIdSet e));
  Ok (mkEvicted (ev_capacity e) (timeToKeep e) (r.1 ++ [(txId, now)]) ({[txId]} ∪ r.2)).
Definition evicted_contains (now : Z) (txId : uint256) (e : RecentlyEvictedList) : bool * RecentlyEvictedList :=
  let e := pruneList now e in (bool_decide (txId ∈ txIdSet e), e).

(** ** The path from a node to the root *)

Fixpoint path_f (fuel j : nat) : list nat :=
  j :: match fuel with
       | O => []
       | S f => if (j =? 0)%nat then [] else path_f f ((j - 1) / 2)
       end.
Definition path (j : nat) : list nat := path_f j j.

Lemma parent_lt j : j <> 0%nat -> ((j - 1) / 2 < j)%nat.
Proof. intros Hj. apply Nat.Div0.div_lt_upper_bound; lia. Qed.

Lemma path_fuel f : forall j, (j <= f)%nat -> path_f f j = path j.
Proof.
  induction f as [f IH] using lt_wf_ind. intros j Hj. unfold path. destruct f as [|f].
  { by replace j with 0%nat by lia. }
  destruct j as [|j]; [done|]. cbn [path_f Nat.eqb]. f_equal. pose proof (parent_lt (S j) ltac:(lia)).
  transitivity (path ((S j - 1) / 2)); [apply IH; lia|symmetry; apply IH; lia].
Qed.

Lemma path_step j : j <> 0%nat -> path j = j :: path ((j - 1) / 2).
Proof.
  intros Hj. unfold path at 1. destruct j as [|j]; [done|]. cbn [path_f Nat.eqb]. f_equal. apply path_fuel.
  pose proof (parent_lt (S j) Hj). lia.
Qed.

Lemma path_le j i : i ∈ path j -> (i <= j)%nat.
Proof.
  induction j as [j IH] using lt_wf_ind. destruct (decide (j = 0%nat)) as [->|Hj].
  - intros [->|Hn]%elem_of_cons; [done|]. by apply elem_of_nil in Hn.
  - rewrite path_step by done. intros [->|Hi]%elem_of_cons; [done|]. pose proof (parent_lt j Hj).
    apply IH in Hi; lia.
Qed.

Lemma path_refl j : j ∈ path j.
Proof. unfold path. destruct j; constructor. Qed.

Lemma path_parent i j : i <> j -> i ∈ path j <-> j <> 0%nat /\ i ∈ path ((j - 1) / 2).
Proof.
  intros Hne. destruct (decide (j = 0%nat)) as [->|Hj].
  - split; [|by intros []]. intros [?|Hn]%elem_of_cons; [done|]. by apply elem_of_nil in Hn.
  - rewrite path_step by done. rewrite elem_of_cons. naive_solver.
Qed.

(** The two children split what lies below a node. *)
Lemma path_children i j : i <> j -> i ∈ path j -> (2 * i + 1)%nat ∈ path j \/ (2 * i + 2)%nat ∈ path j.
Proof.
  induction j as [j IH] using lt_wf_ind. intros Hne Hi. apply path_parent in Hi as [Hj Hi]; [|done].
  destruct (decide (i = ((j - 1) / 2)%nat)) as [Heq|Hp].
  - pose proof (Nat.div_mod_eq (j - 1) 2) as Hd. pose proof (Nat.mod_upper_bound (j - 1) 2).
    assert (j = 2 * i + 1 \/ j = 2 * i + 2)%nat as [->| ->] by lia; [left|right]; apply path_refl.
  - pose proof (parent_lt j Hj) as Hlt. rewrite !(path_step j) by done. rewrite !elem_of_cons.
    destruct (IH _ Hlt Hp Hi); auto.
Qed.

Lemma child_path i j c : c = (2 * i + 1)%nat \/ c = (2 * i + 2)%nat -> c ∈ path j -> i ∈ path j /\ i <> j.
Proof.
  intros Hc. induction j as [j IH] using lt_wf_ind. intros Hj. destruct (decide (c = j)) as [->|Hne].
  - assert (Hp : ((j - 1) / 2)%nat = i).
    { symmetry. apply (Nat.div_unique _ _ _ (if decide (j = 2 * i + 1)%nat then 0 else 1)%nat); case_decide; lia. }
    split; [|lia]. rewrite path_step by lia. rewrite Hp. apply elem_of_cons. right. apply path_refl.
  - apply path_parent in Hj as [Hj0 Hj]; [|done]. pose proof (parent_lt j Hj0) as Hlt.
    destruct (IH _ Hlt Hj) as [Hi _]. pose proof (path_le _ _ Hi). split; [|lia]. rewrite path_step by done. by apply elem_of_cons; right.
Qed.

Lemma children_disjoint i j : (2 * i + 1)%nat ∈ path j -> (2 * i + 2)%nat ∈ path j -> False.
Proof.
  induction j as [j IH] using lt_wf_ind. intros H1 H2.
  destruct (decide (2 * i + 1 = j)%nat) as [<-|]; [apply path_le in H2; lia|].
  destruct (decide (2 * i + 2 = j)%nat) as [Hj|].
  - apply path_parent in H1 as [_ H1]; [|done]. apply path_le in H1.
    replace ((j - 1) / 2)%nat with i in H1 by (apply (Nat.div_unique _ _ _ 1); lia). lia.
  - apply path_parent in H1 as [Hj H1], H2 as [_ H2]; [|done..]. by apply (IH _ (parent_lt j Hj)).
Qed.

(** ** The weight below a node *)

(** The sum of [w] over the nodes below [n] whose path passes [i]. *)
Definition below (n : nat) (w : nat -> Z) (i : nat) : Z :=
  sumZ ((fun j => if decide (i ∈ path j) then w j else 0) <$> seq 0 n).

Lemma below_S n w i : below (S n) w i = below n w i + (if decide (i ∈ path n) then w n else 0).
Proof. unfold below. rewrite seq_S, fmap_app, sumZ_app, Nat.add_0_l. f_equal. apply Z.add_0_r. Qed.

Lemma below_out n w i : (n <= i)%nat -> below n w i = 0.
Proof.
  induction n as [|n IH]; intros Hi; [done|]. rewrite below_S, IH by lia.
  rewrite decide_False; [done|]. intros Hp%path_le. lia.
Qed.

Lemma below_ext n w w' i : (forall j, (j < n)%nat -> w j = w' j) -> below n w i = below n w' i.
Proof.
  induction n as [|n IH]; intros Hw; [done|]. rewrite !below_S, IH by (intros; apply Hw; lia). by rewrite Hw by lia.
Qed.

Lemma below_update n w w' i k : (k < n)%nat -> (forall j, j <> k -> w' j = w j) ->
  below n w' i = below n w i + (if decide (i ∈ path k) then w' k - w k else 0).
Proof.
  intros Hk Hw. induction n as [|n IH]; [lia|]. rewrite !below_S. destruct (decide (k = n)) as [->|Hne].
  - rewrite (below_ext n w' w) by (intros; apply Hw; lia). case_decide; lia.
  - rewrite IH by lia. rewrite (Hw n) by done. lia.
Qed.

Lemma below_node n w i : (i < n)%nat -> below n w i = w i + below n w (i * 2 + 1) + below n w (i * 2 + 2).
Proof.
  intros Hi. induction n as [|n IH]; [lia|]. rewrite !below_S.
  replace (i * 2 + 1)%nat with (2 * i + 1)%nat in * by lia. replace (i * 2 + 2)%nat with (2 * i + 2)%nat in * by lia.
  destruct (decide (i = n)) as [->|Hne].
  - rewrite !(below_out n) by lia. rewrite decide_True by apply path_refl.
    rewrite !decide_False by (intros Hp%path_le; lia). lia.
  - rewrite IH by lia. pose proof (path_children i n Hne) as Hc. pose proof (children_disjoint i n) as Hd.
    pose proof (child_path i n (2 * i + 1) (or_introl eq_refl)). pose proof (child_path i n (2 * i + 2) (or_intror eq_refl)).
    repeat case_decide; try lia; exfalso; naive_solver.
Qed.

Lemma below_root n w : below n w 0 = sumZ (w <$> seq 0 n).
Proof.
  unfold below. f_equal. apply list_fmap_ext. intros _ j _. rewrite decide_True; [done|].
  induction j as [j IH] using lt_wf_ind. destruct (decide (j = 0%nat)) as [->|Hj]; [apply path_refl|].
  rewrite path_step by done. apply elem_of_cons. right. apply IH. by apply parent_lt.
Qed.

Lemma below_nonneg n w i : (forall j, (j < n)%nat -> 0 <= w j) -> 0 <= below n w i.
Proof.
  induction n as [|n IH]; intros Hw; [done|]. rewrite below_S. specialize (IH ltac:(intros; apply Hw; lia)).
  pose proof (Hw n ltac:(lia)). case_decide; lia.
Qed.

(** ** Back-propagation *)

Lemma backPropagate_ok delta f : forall from cw, (from <= f)%nat -> (from <= length cw)%nat ->
  exists cw', backPropagate_loop f from delta cw = Ok cw' /\ length cw' = length cw
    /\ forall i c, cw !! i = Some c -> cw' !! i = Some (if decide (i ∈ path from /\ i <> from) then TxWeight_add c delta else c).
Proof.
  induction f as [|f IH]; intros from cw Hf Hl.
  { replace from with 0%nat by lia. exists cw. split; [done|]. split; [done|]. intros i c Hc. rewrite decide_False; [done|].
    intros [Hi%path_le ?]. lia. }
  destruct (decide (from = 0%nat)) as [->|Hn].
  { exists cw. split; [done|]. split; [done|]. intros i c Hc. rewrite decide_False; [done|]. intros [Hi%path_le ?]. lia. }
  cbn [backPropagate_loop]. rewrite (proj2 (Nat.eqb_neq _ _) Hn). pose proof (parent_lt from Hn) as Hp.
  set (p := ((from - 1) / 2)%nat) in *. unfold index_or_abort.
  destruct (lookup_lt_is_Some_2 cw p) as [c0 Hc0]; [lia|]. rewrite Hc0. cbn [mbind result_bind].
  destruct (IH p (<[p := TxWeight_add c0 delta]> cw)) as (cw' & E & Hl' & Hw); [lia|rewrite length_insert; lia|].
  exists cw'. rewrite length_insert in Hl'. split; [exact E|]. split; [exact Hl'|]. intros i c Hc.
  assert (Hiff : i ∈ path from /\ i <> from <-> i = p \/ (i ∈ path p /\ i <> p)).
  { split.
    - intros [Hi Hne]. apply path_parent in Hi as [_ Hi]; [|done]. fold p in Hi. destruct (decide (i = p)); auto.
    - intros Hor. assert (Hi : i ∈ path p) by (destruct Hor as [->|[]]; [apply path_refl|done]). pose proof (path_le _ _ Hi).
      split; [|lia]. apply path_parent; [lia|]. done. }
  destruct (decide (i = p)) as [->|Hne].
  - rewrite Hc0 in Hc. injection Hc as ->. rewrite (Hw p (TxWeight_add c delta)) by (rewrite list_lookup_insert_eq by lia; done).
    rewrite decide_False by tauto. rewrite decide_True by tauto. done.
  - rewrite (Hw i c) by (rewrite list_lookup_insert_ne by done; exact Hc). f_equal. apply decide_ext. tauto.
Qed.

(** ** The invariant *)

Lemma i64_add_r a b : i64 (a + i64 b) = i64 (a + b).
Proof. rewrite Z.add_comm, i64_add_l. f_equal. lia. Qed.

Section Projection.
(** [cost] or [evictionWeight]. *)
Context (proj : TxWeight -> Z).
Hypothesis proj_add : forall a b, proj (TxWeight_add a b) = i64 (proj a + proj b).
Hypothesis proj_negate : forall a, proj (TxWeight_negate a) = i64 (- proj a).
Hypothesis proj_zero : proj ZERO_WEIGHT = 0.

Definition node_w (l : list WeightedTxInfo) (j : nat) : Z :=
  match l !! j with Some x => proj (wi_txWeight x) | None => 0 end.

(** The child weight of a node is what lies strictly below it. *)
Definition children_ok (l : list WeightedTxInfo) (cw : list TxWeight) : Prop :=
  forall i c, cw !! i = Some c -> proj c = i64 (below (length l) (node_w l) i - node_w l i).

Lemma node_w_app l x j : (j < length l)%nat -> node_w (l ++ [x]) j = node_w l j.
Proof. intros Hj. unfold node_w. by rewrite lookup_app_l. Qed.

Lemma node_w_last l x : node_w (l ++ [x]) (length l) = proj (wi_txWeight x).
Proof. unfold node_w. by rewrite lookup_app_r, Nat.sub_diag. Qed.

Lemma children_add l cw x cw' : length cw = length l -> children_ok l cw ->
  backPropagate (length l) (wi_txWeight x) (cw ++ [ZERO_WEIGHT]) = Ok cw' ->
  length cw' = S (length l) /\ children_ok (l ++ [x]) cw'.
Proof.
  intros Hl Hc E. destruct (backPropagate_ok (wi_txWeight x) (length l) (length l) (cw ++ [ZERO_WEIGHT])) as (cw1 & E1 & Hl1 & Hw);
    [lia|rewrite length_app; lia|].
  unfold backPropagate in E. rewrite E in E1. injection E1 as <-. rewrite length_app in Hl1. cbn in Hl1. split; [lia|].
  intros i c Hi. rewrite length_app. cbn [length]. rewrite Nat.add_1_r, below_S, node_w_last.
  rewrite (below_ext _ _ (node_w l)) by (intros; by apply node_w_app).
  destruct (decide (i < length l)%nat) as [Hlt|Hge].
  - destruct (lookup_lt_is_Some_2 cw i) as [c0 Hc0]; [lia|].
    rewrite (Hw i c0) in Hi by (rewrite lookup_app_l by lia; exact Hc0). injection Hi as <-. rewrite node_w_app by done.
    rewrite (decide_ext (i ∈ path (length l) /\ i <> length l) (i ∈ path (length l))) by (split; [tauto|intros; split; [done|lia]]).
    case_decide; [rewrite proj_add|]; rewrite (Hc i c0 Hc0); [rewrite i64_add_l|]; f_equal; lia.
  - apply lookup_lt_Some in Hi as Hlt. assert (i = length l) as -> by lia.
    rewrite (Hw (length l) ZERO_WEIGHT) in Hi by (rewrite lookup_app_r by lia; by replace (length l - length cw)%nat with 0%nat by lia).
    rewrite decide_False in Hi by tauto. injection Hi as <-. rewrite proj_zero, below_out, node_w_last by lia.
    rewrite decide_True by apply path_refl. symmetry. etrans; [|by apply i64_small; unfold is_i64; lia]. f_equal. lia.
Qed.

(** Without the last node. *)
Lemma children_drop_last l x cw cw' : length cw = S (length l) -> children_ok (l ++ [x]) cw ->
  backPropagate (length l) (TxWeight_negate (wi_txWeight x)) cw = Ok cw' ->
  length cw' = S (length l) /\ children_ok l cw'.
Proof.
  intros Hl Hc E. destruct (backPropagate_ok (TxWeight_negate (wi_txWeight x)) (length l) (length l) cw) as (cw1 & E1 & Hl1 & Hw); [lia..|].
  unfold backPropagate in E. rewrite E in E1. injection E1 as <-. split; [lia|]. intros i c Hi.
  apply lookup_lt_Some in Hi as Hil.
  destruct (lookup_lt_is_Some_2 cw i) as [c0 Hc0]; [lia|]. rewrite (Hw i c0 Hc0) in Hi. injection Hi as <-.
  specialize (Hc i c0 Hc0). rewrite length_app in Hc. cbn [length] in Hc. rewrite Nat.add_1_r, below_S, node_w_last in Hc.
  rewrite (below_ext _ _ (node_w l)) in Hc by (intros; by apply node_w_app).
  destruct (decide (i = length l)) as [->|Hne].
  { rewrite decide_False by tauto. rewrite Hc, below_out by lia. rewrite decide_True by apply path_refl. rewrite node_w_last.
    f_equal. unfold node_w. rewrite lookup_ge_None_2 by lia. lia. }
  rewrite node_w_app in Hc by lia.
  rewrite (decide_ext (i ∈ path (length l) /\ i <> length l) (i ∈ path (length l))) by (split; [tauto|intros; split; [done|lia]]).
  case_decide; [rewrite proj_add, proj_negate, i64_add_r|]; rewrite Hc; [rewrite i64_add_l|]; f_equal; lia.
Qed.

(** With another transaction at a node. *)
Lemma children_replace l x r old cw cw' : (length l <= length cw)%nat -> children_ok l cw -> l !! r = Some old ->
  backPropagate r (TxWeight_add (wi_txWeight x) (TxWeight_negate (wi_txWeight old))) cw = Ok cw' ->
  length cw' = length cw /\ children_ok (<[r := x]> l) cw'.
Proof.
  intros Hl Hc Hr E. apply lookup_lt_Some in Hr as Hlt.
  destruct (backPropagate_ok (TxWeight_add (wi_txWeight x) (TxWeight_negate (wi_txWeight old))) r r cw) as (cw1 & E1 & Hl1 & Hw); [lia..|].
  unfold backPropagate in E. rewrite E in E1. injection E1 as <-. split; [lia|]. intros i c Hi.
  apply lookup_lt_Some in Hi as Hil. destruct (lookup_lt_is_Some_2 cw i) as [c0 Hc0]; [lia|]. rewrite (Hw i c0 Hc0) in Hi. injection Hi as <-.
  rewrite length_insert. rewrite (below_update _ (node_w l) _ i r Hlt).
  2:{ intros j Hj. unfold node_w. by rewrite list_lookup_insert_ne. }
  assert (Hnew : node_w (<[r := x]> l) r = proj (wi_txWeight x)) by (unfold node_w; by rewrite list_lookup_insert_eq).
  assert (Hold : node_w l r = proj (wi_txWeight old)) by (unfold node_w; by rewrite Hr). rewrite Hnew, Hold.
  specialize (Hc i c0 Hc0). destruct (decide (i = r)) as [->|Hne].
  - rewrite decide_False by tauto. rewrite decide_True by apply path_refl. rewrite Hnew, Hc. f_equal. lia.
  - assert (Hni : node_w (<[r := x]> l) i = node_w l i) by (unfold node_w; by rewrite list_lookup_insert_ne). rewrite Hni.
    rewrite (decide_ext (i ∈ path r /\ i <> r) (i ∈ path r)) by tauto.
    case_decide; [rewrite !proj_add, proj_negate, (i64_add_r (proj (wi_txWeight x))), i64_add_r|]; rewrite Hc; [rewrite i64_add_l|]; f_equal; lia.
Qed.
End Projection.

Record weights_wf (t : WeightedTxTree) : Prop := {
  ww_infos : length (txIdAndWeights t) = wt_size t;
  ww_children : length (childWeights t) = wt_size t;
  ww_index : forall id k, txIdToIndexMap t !! id = Some k <-> wi_txId <$> txIdAndWeights t !! k = Some id;
  ww_cost : children_ok cost (txIdAndWeights t) (childWeights t);
  ww_eviction : children_ok evictionWeight (txIdAndWeights t) (childWeights t)
}.

(** The weight kept for a transaction. *)
Definition tree_weight (t : WeightedTxTree) (id : uint256) : option TxWeight :=
  k ← txIdToIndexMap t !! id; wi_txWeight <$> txIdAndWeights t !! k.

Lemma tree_weight_Some t id w : weights_wf t -> tree_weight t id = Some w <-> mkTxInfo id w ∈ txIdAndWeights t.
Proof.
  intros W. unfold tree_weight. rewrite bind_Some. setoid_rewrite (ww_index t W). setoid_rewrite fmap_Some. rewrite list_elem_of_lookup. split.
  - intros (k & ([id' w'] & Hk & ->) & (x & Hk' & ->)). rewrite Hk in Hk'. injection Hk' as <-. by exists k.
  - intros [k Hk]. exists k. split; [by exists (mkTxInfo id w)|]. by exists (mkTxInfo id w).
Qed.

Lemma tree_weight_None t id : weights_wf t -> tree_weight t id = None <-> txIdToIndexMap t !! id = None.
Proof.
  intros W. unfold tree_weight. destruct (txIdToIndexMap t !! id) as [k|] eqn:E; [|done]. cbn.
  apply (ww_index t W) in E. apply fmap_Some in E as (x & -> & _). done.
Qed.

Lemma weights_wf_new capacity : weights_wf (mkTree capacity 0 [] [] ∅).
Proof. split; try done. Qed.

Lemma tree_add_ok x t : weights_wf t -> exists t', tree_add x t = Ok t' /\ weights_wf t' /\ wt_capacity t' = wt_capacity t
  /\ forall id, tree_weight t' id = match tree_weight t id with
       | Some w => Some w
       | None => if decide (id = wi_txId x) then Some (wi_txWeight x) else None
       end.
Proof.
  intros W. unfold tree_add. case_bool_decide as Hin.
  { exists t. split; [done|]. split; [done|]. split; [done|]. intros id. destruct (tree_weight t id) eqn:E; [done|].
    rewrite decide_False; [done|]. intros ->. apply tree_weight_None in E; [|done]. rewrite E in Hin. by destruct Hin. }
  apply eq_None_not_Some in Hin as Hnew. destruct W as [Hi Hc Hx Hco Hev] eqn:EW. clear EW.
  destruct (backPropagate_ok (wi_txWeight x) (wt_size t) (wt_size t) (childWeights t ++ [ZERO_WEIGHT])) as (cw & E & Hl & _);
    [lia|rewrite length_app; lia|].
  change (backPropagate_loop (wt_size t) (wt_size t) (wi_txWeight x) (childWeights t ++ [ZERO_WEIGHT])) with
    (backPropagate (wt_size t) (wi_txWeight x) (childWeights t ++ [ZERO_WEIGHT])) in E.
  rewrite E. cbn [mbind result_bind]. rewrite <- Hi in E. assert (Hci : length (childWeights t) = length (txIdAndWeights t)) by lia.
  destruct (children_add cost ltac:(done) eq_refl _ _ _ _ Hci Hco E) as [_ Hco'].
  destruct (children_add evictionWeight ltac:(done) eq_refl _ _ _ _ Hci Hev E) as [Hlen Hev'].
  eexists. split; [done|].
  assert (W' : weights_wf (mkTree (wt_capacity t) (S (wt_size t)) (txIdAndWeights t ++ [x]) cw
      (<[wi_txId x := wt_size t]> (txIdToIndexMap t)))).
  { split; cbn [wt_size txIdAndWeights childWeights txIdToIndexMap]; [rewrite length_app; cbn; lia|lia| |done|done].
    intros id k. rewrite lookup_insert_Some, Hx. destruct (decide (k < wt_size t)%nat) as [Hk|Hk].
    - rewrite lookup_app_l by lia. split; [intros [[_ ?]|[_ ?]]; [lia|done]|]. intros Hid. right. split; [|done].
      intros <-. apply Hx in Hid. congruence.
    - split.
      + intros [[<- <-]|[_ Hn]]; [by rewrite <- Hi, lookup_app_r, Nat.sub_diag|]. rewrite lookup_ge_None_2 in Hn by lia. done.
      + intros Hn. left. apply fmap_Some in Hn as (y & Hy & ->). apply lookup_app_Some in Hy as [Hy|[_ Hy]]; [apply lookup_lt_Some in Hy; lia|].
        destruct (k - length (txIdAndWeights t))%nat eqn:Ek; [|done]. injection Hy as <-. split; [done|lia]. }
  split; [exact W'|]. split; [done|]. intros id.
  apply option_eq. intros w. rewrite (tree_weight_Some _ id w W'). cbn [txIdAndWeights]. rewrite elem_of_app, list_elem_of_singleton.
  rewrite <- (tree_weight_Some t id w) by done. destruct (tree_weight t id) as [w0|] eqn:E0.
  - split; [|auto]. intros [?|Hq]; [done|]. subst x. cbn in Hnew. apply (tree_weight_None t id) in Hnew; [congruence|done].
  - split.
    + intros [?|Hq]; [done|]. subst x. cbn. by rewrite decide_True.
    + case_decide as Hd; [|done]. intros [= <-]. right. subst id. by destruct x.
Qed.

Lemma removelast_snoc {A} (l : list A) x : removelast (l ++ [x]) = l.
Proof. apply removelast_last. Qed.

Lemma removelast_take {A} (l : list A) n : length l = S n -> removelast l = take n l.
Proof. intros Hl. rewrite removelast_firstn_len, Hl. done. Qed.

Lemma tree_remove_ok id t : weights_wf t -> exists t', tree_remove id t = Ok t' /\ weights_wf t' /\ wt_capacity t' = wt_capacity t
  /\ forall id', tree_weight t' id' = if decide (id' = id) then None else tree_weight t id'.
Proof.
  intros W. unfold tree_remove. destruct (txIdToIndexMap t !! id) as [r|] eqn:Er.
  2:{ exists t. split; [done|]. split; [done|]. split; [done|]. intros id'. case_decide; [subst; by apply tree_weight_None|done]. }
  pose proof (proj1 (ww_index t W id r) Er) as Hr. apply fmap_Some in Hr as (old & Hr & ->). apply lookup_lt_Some in Hr as Hrl.
  destruct W as [Hi Hc Hx Hco Hev] eqn:EW. clear EW.
  destruct (exists_last (l := txIdAndWeights t)) as (l & x & El); [intros E; rewrite E in Hrl; cbn in Hrl; lia|].
  rewrite El in Hi, Hr, Hrl, Hx, Hco, Hev. rewrite El. rewrite length_app in Hi, Hrl. cbn [length] in Hi, Hrl.
  replace (wt_size t - 1)%nat with (length l) by lia. unfold index_or_abort.
  assert (Hlx : (l ++ [x]) !! length l = Some x) by (rewrite lookup_app_r by lia; by rewrite Nat.sub_diag).
  rewrite Hlx. cbn [mbind result_bind].
  destruct (backPropagate_ok (TxWeight_negate (wi_txWeight x)) (length l) (length l) (childWeights t)) as (cw & E & Hl & _); [lia..|].
  change (backPropagate (length l) (TxWeight_negate (wi_txWeight x)) (childWeights t) = Ok cw) in E. rewrite E. cbn [mbind result_bind].
  assert (Hcl : length (childWeights t) = S (length l)) by lia.
  destruct (children_drop_last cost ltac:(done) ltac:(done) _ _ _ _ Hcl Hco E) as [Hlen Hco'].
  destruct (children_drop_last evictionWeight ltac:(done) ltac:(done) _ _ _ _ Hcl Hev E) as [_ Hev'].
  assert (Hlast : txIdToIndexMap t !! wi_txId x = Some (length l)) by (apply Hx; by rewrite Hlx).
  assert (Htake : forall proj l' cw', children_ok proj l' cw' -> children_ok proj l' (take (length l) cw')).
  { intros proj l' cw' Hok i c Hi'. apply lookup_take_Some in Hi' as [Hi' _]. by apply Hok. }
  destruct (Nat.ltb_spec r (length l)) as [Hlt|Hge].
  - rewrite Hr. cbn [mbind result_bind]. rewrite lookup_app_l in Hr by done.
    destruct (backPropagate_ok (TxWeight_add (wi_txWeight x) (TxWeight_negate (wi_txWeight old))) r r cw) as (cw2 & E2 & Hl2 & _); [lia..|].
    change (backPropagate r (TxWeight_add (wi_txWeight x) (TxWeight_negate (wi_txWeight old))) cw = Ok cw2) in E2. rewrite E2. cbn [mbind result_bind].
    assert (Hle : (length l <= length cw)%nat) by lia.
    destruct (children_replace cost ltac:(done) ltac:(done) _ _ _ _ _ _ Hle Hco' Hr E2) as [_ Hco2].
    destruct (children_replace evictionWeight ltac:(done) ltac:(done) _ _ _ _ _ _ Hle Hev' Hr E2) as [_ Hev2].
    rewrite insert_app_l, removelast_snoc, (removelast_take cw2 (length l)) by lia.
    assert (Hdiff : wi_txId x <> wi_txId old) by (intros Heq; rewrite Heq in Hlast; rewrite Er in Hlast; injection Hlast; lia).
    assert (Hnew : forall i k, delete (wi_txId old) (<[wi_txId x := r]> (txIdToIndexMap t)) !! i = Some k
      <-> (i = wi_txId x /\ k = r) \/ (i <> wi_txId x /\ i <> wi_txId old /\ k <> r /\ (k < length l)%nat /\ wi_txId <$> l !! k = Some i)).
    { intros i k. rewrite lookup_delete_Some, lookup_insert_Some, Hx. split.
      - intros [Ho [[<- <-]|[Hn Hk]]]; [by left|]. right. destruct (decide (k = length l)) as [->|Hkl].
        { rewrite Hlx in Hk. cbn in Hk. congruence. }
        apply fmap_Some in Hk as (y & Hy & ->). apply lookup_lt_Some in Hy as Hyl. rewrite length_app in Hyl. cbn in Hyl.
        rewrite lookup_app_l in Hy by lia. split_and!; [done|done| |lia|by rewrite Hy]. intros ->. congruence.
      - intros [[-> ->]|(Hn & Ho & Hkr & Hkl & Hk)]; [split; [done|by left]|]. split; [done|]. right. split; [done|]. by rewrite lookup_app_l. }
    eexists. split; [done|]. split; [|split; [done|]].
    + split; cbn [wt_size txIdAndWeights childWeights txIdToIndexMap]; [by rewrite length_insert|rewrite length_take; lia| |by apply Htake..].
      intros i k. rewrite Hnew. destruct (decide (k = r)) as [->|Hkr].
      * rewrite list_lookup_insert_eq by done. cbn. naive_solver.
      * rewrite list_lookup_insert_ne by done. split; [naive_solver|]. intros Hk. right.
        apply fmap_Some in Hk as (y & Hy & ->). apply lookup_lt_Some in Hy as Hyl.
        assert (Hky : txIdToIndexMap t !! wi_txId y = Some k) by (apply Hx; rewrite lookup_app_l by done; by rewrite Hy).
        split_and!; [intros Heq; rewrite Heq in Hky; rewrite Hlast in Hky; injection Hky; lia
          |intros Heq; rewrite Heq in Hky; rewrite Er in Hky; congruence|done|done|by rewrite Hy].
    + intros i. unfold tree_weight at 1. cbn [txIdToIndexMap txIdAndWeights]. case_decide as Hd; [by rewrite Hd, lookup_delete_eq|].
      rewrite lookup_delete_ne by done. unfold tree_weight. rewrite El. destruct (decide (i = wi_txId x)) as [->|Hix].
      * rewrite lookup_insert_eq, Hlast. cbn. by rewrite list_lookup_insert_eq, Hlx by done.
      * rewrite lookup_insert_ne by done. destruct (txIdToIndexMap t !! i) as [k|] eqn:Ek; [|done]. cbn.
        assert (Hk : delete (wi_txId old) (<[wi_txId x := r]> (txIdToIndexMap t)) !! i = Some k)
          by (rewrite lookup_delete_ne, lookup_insert_ne by done; done).
        apply Hnew in Hk as [[? _]|(_ & _ & Hkr & Hkl & _)]; [done|]. by rewrite list_lookup_insert_ne, lookup_app_l by done.
  - assert (r = length l) as -> by lia. rewrite Hlx in Hr. injection Hr as <-. cbn [mbind result_bind].
    rewrite removelast_snoc, (removelast_take cw (length l)) by lia. eexists. split; [done|]. split; [|split; [done|]].
    + split; cbn [wt_size txIdAndWeights childWeights txIdToIndexMap]; [done|rewrite length_take; lia| |by apply Htake..].
      intros i k. rewrite lookup_delete_Some, Hx. split.
      * intros [Hne Hk]. apply fmap_Some in Hk as (y & Hy & ->). apply lookup_app_Some in Hy as [Hy|[_ Hy]]; [by rewrite Hy|].
        apply list_lookup_singleton_Some in Hy as [_ <-]. done.
      * intros Hk. apply fmap_Some in Hk as (y & Hy & ->). apply lookup_lt_Some in Hy as Hyl.
        assert (Hk : wi_txId <$> (l ++ [x]) !! k = Some (wi_txId y)) by (rewrite lookup_app_l by done; by rewrite Hy).
        split; [|done]. intros Heq. apply Hx in Hk. rewrite <- Heq, Hlast in Hk. injection Hk. lia.
    + intros i. unfold tree_weight at 1. cbn [txIdToIndexMap txIdAndWeights]. case_decide as Hd; [by rewrite Hd, lookup_delete_eq|].
      rewrite lookup_delete_ne by done. unfold tree_weight. rewrite El. destruct (txIdToIndexMap t !! i) as [k|] eqn:Ek; [|done]. cbn.
      apply Hx in Ek. apply fmap_Some in Ek as (y & Hy & ->). apply lookup_app_Some in Hy as [Hy|[_ Hy]]; [|apply list_lookup_singleton_Some in Hy as [_ <-]; done].
      by rewrite lookup_app_l by (by eapply lookup_lt_Some).
Qed.

(** ** Drawing a transaction *)

Definition total_w (proj : TxWeight -> Z) (t : WeightedTxTree) : Z := sumZ ((fun x => proj (wi_txWeight x)) <$> txIdAndWeights t).

(** No cost is negative, the eviction weight is not below it, and the eviction
    weights fit in an [int]. *)
Definition weights_small (t : WeightedTxTree) : Prop :=
  Forall (fun x => 0 <= cost (wi_txWeight x) <= evictionWeight (wi_txWeight x)) (txIdAndWeights t)
  /\ total_w evictionWeight t < 2 ^ 31.

Lemma node_w_seq proj l : sumZ (node_w proj l <$> seq 0 (length l)) = sumZ ((fun x => proj (wi_txWeight x)) <$> l).
Proof.
  f_equal. apply list_eq. intros i. rewrite !list_lookup_fmap. destruct (decide (i < length l)%nat) as [Hi|Hi].
  - rewrite lookup_seq_lt by done. destruct (lookup_lt_is_Some_2 l i Hi) as [x Hx]. rewrite Hx. cbn. unfold node_w. by rewrite Hx.
  - rewrite !lookup_ge_None_2; [done|lia|by rewrite length_seq; lia].
Qed.

Lemma below_le_root n w i : (forall j, (j < n)%nat -> 0 <= w j) -> below n w i <= below n w 0.
Proof.
  rewrite below_root. induction n as [|n IH]; intros Hw; [done|]. rewrite below_S, seq_S, fmap_app, sumZ_app. cbn [fmap list_fmap sumZ foldr].
  specialize (IH ltac:(intros; apply Hw; lia)). pose proof (Hw n ltac:(lia)). cbn. case_decide; lia.
Qed.

Lemma getWeightAt_proj proj t i : weights_wf t -> (forall a b, proj (TxWeight_add a b) = i64 (proj a + proj b)) -> proj ZERO_WEIGHT = 0 ->
  children_ok proj (txIdAndWeights t) (childWeights t) ->
  exists w, getWeightAt t i = Ok w /\ proj w = i64 (below (wt_size t) (node_w proj (txIdAndWeights t)) i).
Proof.
  intros W Hadd Hz Hok. unfold getWeightAt. destruct (Nat.ltb_spec i (wt_size t)) as [Hi|Hi].
  2:{ exists ZERO_WEIGHT. split; [done|]. by rewrite below_out. }
  pose proof (ww_infos t W) as Hl1. pose proof (ww_children t W) as Hl2. unfold index_or_abort.
  destruct (lookup_lt_is_Some_2 (txIdAndWeights t) i) as [x Hx]; [lia|]. destruct (lookup_lt_is_Some_2 (childWeights t) i) as [c Hc]; [lia|].
  rewrite Hx, Hc. cbn [mbind result_bind]. eexists. split; [done|]. rewrite Hadd, (Hok i c Hc), i64_add_r, Hl1.
  f_equal. unfold node_w at 2. rewrite Hx. lia.
Qed.

Section Draw.
Context (t : WeightedTxTree).
Hypothesis (W : weights_wf t) (Hs : weights_small t).
Local Abbreviation ev := (node_w evictionWeight (txIdAndWeights t)).
Local Abbreviation n := (wt_size t).

Lemma ev_nonneg j : (j < n)%nat -> 0 <= ev j.
Proof.
  intros Hj. unfold node_w. destruct (txIdAndWeights t !! j) eqn:E; [|done].
  destruct Hs as [Hn _]. rewrite Forall_lookup in Hn. specialize (Hn j _ E). lia.
Qed.

Lemma ev_below_range i : 0 <= below n ev i < 2 ^ 31.
Proof.
  split; [apply below_nonneg, ev_nonneg|]. eapply Z.le_lt_trans; [apply below_le_root, ev_nonneg|].
  rewrite below_root, <- (ww_infos t W), node_w_seq. apply Hs.
Qed.

(** The weight at a node is the exact sum. *)
Lemma getWeightAt_ok i : exists w, getWeightAt t i = Ok w /\ evictionWeight w = below n ev i.
Proof.
  destruct (getWeightAt_proj evictionWeight t i W) as (w & E & Hw); [done|done|apply W|].
  exists w. split; [done|]. rewrite Hw. pose proof (ev_below_range i). apply i64_small. unfold is_i64. lia.
Qed.

(** One step of the search, over the integers. *)
Lemma find_step f i r : (i < n)%nat -> 0 <= r < below n ev i ->
  find_loop (S f) t i r =
    if r <? below n ev (i * 2 + 1) then find_loop f t (i * 2 + 1) r
    else if r <? below n ev (i * 2 + 1) + ev i then Ok i
    else find_loop f t (i * 2 + 2) (r - (below n ev (i * 2 + 1) + ev i)).
Proof.
  intros Hi Hr. cbn [find_loop]. destruct (getWeightAt_ok (i * 2 + 1)) as (wl & -> & Hl), (getWeightAt_ok i) as (wh & -> & Hh),
    (getWeightAt_ok (i * 2 + 2)) as (wr & -> & Hrr). cbn [mbind result_bind]. rewrite Hl, Hh, Hrr.
  pose proof (below_node n ev i Hi) as Hb. pose proof (ev_below_range i). pose proof (ev_below_range (i * 2 + 1)). pose proof (ev_below_range (i * 2 + 2)).
  pose proof (ev_nonneg i Hi). replace (below n ev i - below n ev (i * 2 + 2)) with (below n ev (i * 2 + 1) + ev i) by lia.
  rewrite (i64_small (_ + ev i)) by (unfold is_i64; lia). rewrite !i32_small by (unfold is_i32; lia).
  by rewrite (i64_small (r - _)) by (unfold is_i64; lia).
Qed.

(** Whether a number draws node [k] when the search starts at [i]. *)
Definition drawn (f i k : nat) (r : Z) : Z :=
  match find_loop f t i r with Ok j => if decide (j = k) then 1 else 0 | _ => 0 end.

Lemma seqZ_split a b c : 0 <= a -> 0 <= b -> 0 <= c ->
  seqZ 0 (a + b + c) = seqZ 0 a ++ (Z.add a <$> seqZ 0 b) ++ (Z.add (a + b) <$> seqZ 0 c).
Proof. intros. rewrite !fmap_add_seqZ, !Z.add_0_r. rewrite seqZ_app, seqZ_app by lia. by rewrite <- app_assoc. Qed.

Lemma sumZ_fmap_ext (f g : Z -> Z) l : (forall r, r ∈ l -> f r = g r) -> sumZ (f <$> l) = sumZ (g <$> l).
Proof. intros H. f_equal. apply list_fmap_ext. intros i r Hr. apply H. by eapply list_elem_of_lookup_2. Qed.

Lemma sumZ_const c m : 0 <= m -> sumZ ((fun _ => c) <$> seqZ 0 m) = m * c.
Proof.
  intros Hm. rewrite <- (Z2Nat.id m) at 2 by done. unfold seqZ. generalize (Z.to_nat m) as j. intros j. rewrite <- list_fmap_compose.
  unfold compose. generalize 0%nat. induction j as [|j IH]; intros b; [done|]. cbn [seq fmap list_fmap]. rewrite sumZ_cons.
  change (list_fmap _ _ ?f ?l) with (f <$> l). rewrite IH. lia.
Qed.

Lemma find_counts f : forall i, (n <= i + f)%nat ->
  (forall r, 0 <= r < below n ev i -> exists k, find_loop f t i r = Ok k /\ (k < n)%nat)
  /\ forall k, (k < n)%nat -> sumZ (drawn f i k <$> seqZ 0 (below n ev i)) = if decide (i ∈ path k) then ev k else 0.
Proof.
  induction f as [|f IH]; intros i Hf.
  { rewrite below_out by lia. split; [lia|]. intros k Hk. rewrite decide_False; [done|]. intros Hp%path_le. lia. }
  destruct (decide (i < n)%nat) as [Hi|Hi].
  2:{ rewrite below_out by lia. split; [lia|]. intros k Hk. rewrite decide_False; [done|]. intros Hp%path_le. lia. }
  destruct (IH (i * 2 + 1)%nat ltac:(lia)) as [Hl1 Hl2], (IH (i * 2 + 2)%nat ltac:(lia)) as [Hr1 Hr2].
  pose proof (below_node n ev i Hi) as Hb. pose proof (ev_below_range (i * 2 + 1)). pose proof (ev_below_range (i * 2 + 2)). pose proof (ev_nonneg i Hi).
  split.
  - intros r Hr. rewrite find_step by done. destruct (Z.ltb_spec r (below n ev (i * 2 + 1))); [apply Hl1; lia|].
    destruct (Z.ltb_spec r (below n ev (i * 2 + 1) + ev i)); [by exists i|]. apply Hr1. lia.
  - intros k Hk. rewrite Hb. replace (ev i + below n ev (i * 2 + 1) + below n ev (i * 2 + 2)) with (below n ev (i * 2 + 1) + ev i + below n ev (i * 2 + 2)) by lia.
    rewrite seqZ_split, !fmap_app, !sumZ_app by lia. rewrite <- !list_fmap_compose. unfold compose.
    rewrite (sumZ_fmap_ext _ (drawn f (i * 2 + 1) k)), Hl2 by
      (done || (intros r Hr%elem_of_seqZ; unfold drawn; rewrite find_step by (done || lia); by rewrite (proj2 (Z.ltb_lt _ _)) by lia)).
    rewrite (sumZ_fmap_ext _ (fun _ => if decide (i = k) then 1 else 0)) by
      (intros r Hr%elem_of_seqZ; unfold drawn; rewrite find_step by (done || lia);
       rewrite (proj2 (Z.ltb_ge _ _)) by lia; by rewrite (proj2 (Z.ltb_lt _ _)) by lia).
    rewrite sumZ_const by done. rewrite (sumZ_fmap_ext _ (drawn f (i * 2 + 2) k)), Hr2 by
      (done || (intros r Hr%elem_of_seqZ; unfold drawn; rewrite find_step by (done || lia);
       rewrite !(proj2 (Z.ltb_ge _ _)) by lia;
       by replace (below n ev (i * 2 + 1) + ev i + r - (below n ev (i * 2 + 1) + ev i)) with r by lia)).
    replace (i * 2 + 1)%nat with (2 * i + 1)%nat by lia. replace (i * 2 + 2)%nat with (2 * i + 2)%nat by lia.
    destruct (decide (i = k)) as [->|Hne].
    + rewrite (decide_True (P := k ∈ path k)) by apply path_refl. rewrite !decide_False by (intros Hp%path_le; lia). lia.
    + pose proof (path_children i k Hne) as Hc. pose proof (children_disjoint i k) as Hd.
      pose proof (child_path i k (2 * i + 1) (or_introl eq_refl)). pose proof (child_path i k (2 * i + 2) (or_intror eq_refl)).
      repeat case_decide; try lia; exfalso; naive_solver.
Qed.

Lemma getTotalWeight_ok : exists w, getTotalWeight t = Ok w
  /\ evictionWeight w = total_w evictionWeight t /\ cost w = total_w cost t /\ 0 <= total_w cost t <= total_w evictionWeight t.
Proof.
  destruct (getWeightAt_ok 0) as (w & E & Hw), (getWeightAt_proj cost t 0 W) as (w' & E' & Hw'); [done|done|apply W|].
  rewrite E in E'. injection E' as <-. exists w. split; [exact E|]. rewrite below_root, <- (ww_infos t W), node_w_seq in Hw, Hw'.
  fold (total_w evictionWeight t) in Hw. fold (total_w cost t) in Hw'.
  assert (Hle : 0 <= total_w cost t <= total_w evictionWeight t).
  { destruct Hs as [Hf _]. unfold total_w. clear -Hf. induction Hf as [|x l Hx _ IH]; [done|]. rewrite !fmap_cons, !sumZ_cons. lia. }
  split; [done|]. split; [|done]. rewrite Hw'. apply i64_small. destruct Hs as [_ Hb]. unfold is_i64. lia.
Qed.
End Draw.

(** How many of the random numbers below the total draw the transaction at
    index [k]. *)
Definition draws (t : WeightedTxTree) (k : nat) : Z :=
  sumZ ((fun r => match findByEvictionWeight t 0 r with Ok j => if decide (j = k) then 1 else 0 | _ => 0 end)
          <$> seqZ 0 (total_w evictionWeight t)).

Lemma find_total t r : weights_wf t -> weights_small t -> 0 <= r < total_w evictionWeight t ->
  exists k x, findByEvictionWeight t 0 r = Ok k /\ txIdAndWeights t !! k = Some x.
Proof.
  intros W Hs Hr. destruct (find_counts t W Hs (wt_size t) 0 ltac:(lia)) as [Hf _].
  rewrite below_root, <- (ww_infos t W), node_w_seq in Hf. destruct (Hf r Hr) as (k & E & Hk).
  destruct (lookup_lt_is_Some_2 (txIdAndWeights t) k) as [x Hx]; [lia|]. exists k, x. split; [|done].
  unfold findByEvictionWeight. by rewrite <- (ww_infos t W).
Qed.

(** ** The content of the tree *)

Lemma infos_NoDup t : weights_wf t -> NoDup (txIdAndWeights t).
Proof.
  intros W. apply NoDup_alt. intros i j x Hi Hj.
  assert (Ei : txIdToIndexMap t !! wi_txId x = Some i) by (apply (ww_index t W); by rewrite Hi).
  assert (Ej : txIdToIndexMap t !! wi_txId x = Some j) by (apply (ww_index t W); by rewrite Hj). congruence.
Qed.

Lemma tree_remove_perm id w t t' : weights_wf t -> weights_wf t' -> tree_weight t id = Some w ->
  (forall id', tree_weight t' id' = if decide (id' = id) then None else tree_weight t id') ->
  txIdAndWeights t ≡ₚ mkTxInfo id w :: txIdAndWeights t'.
Proof.
  intros W W' Hw Ht'. apply NoDup_Permutation; [by apply infos_NoDup|constructor; [|by apply infos_NoDup]|].
  - rewrite <- tree_weight_Some by done. rewrite Ht', decide_True by done. done.
  - intros [id' w']. rewrite elem_of_cons, <- !tree_weight_Some by done. rewrite Ht'.
    destruct (decide (id' = id)) as [->|Hne]; [rewrite Hw; naive_solver|]. naive_solver.
Qed.

Lemma sumZ_perm (l1 l2 : list Z) : l1 ≡ₚ l2 -> sumZ l1 = sumZ l2.
Proof. induction 1; rewrite ?sumZ_cons in *; try lia; done. Qed.
Lemma total_w_perm proj t t' x : txIdAndWeights t ≡ₚ x :: txIdAndWeights t' -> total_w proj t = proj (wi_txWeight x) + total_w proj t'.
Proof.
  intros Hp. unfold total_w. rewrite (sumZ_perm _ _ (fmap_Permutation _ _ _ Hp)). done.
Qed.


Lemma weights_small_remove t t' x : weights_small t -> txIdAndWeights t ≡ₚ x :: txIdAndWeights t' -> weights_small t'.
Proof.
  intros [Hf Hb] Hp. rewrite Hp in Hf. apply Forall_cons in Hf as [Hx Hf]. split; [done|].
  rewrite (total_w_perm _ _ _ _ Hp) in Hb. lia.
Qed.

(** Below the limit nothing is dropped; above it one transaction of the tree
    is, whatever the random number. *)
Lemma maybeDropRandom_ok rand t : weights_wf t -> weights_small t -> 0 <= wt_capacity t -> (forall m, 0 < m -> 0 <= rand m < m) ->
  exists o t', maybeDropRandom rand t = Ok (o, t') /\
    match o with
    | None => t' = t /\ total_w cost t <= wt_capacity t
    | Some id => wt_capacity t < total_w cost t /\ weights_wf t' /\ weights_small t' /\ wt_capacity t' = wt_capacity t
        /\ is_Some (tree_weight t id) /\ forall id', tree_weight t' id' = if decide (id' = id) then None else tree_weight t id'
    end.
Proof.
  intros W Hs Hcap Hrand. unfold maybeDropRandom. destruct (getTotalWeight_ok t W Hs) as (w & -> & He & Hc & Hle). cbn [mbind result_bind].
  rewrite Hc, He. destruct (Z.leb_spec (total_w cost t) (wt_capacity t)) as [Hlt|Hgt]; [by exists None, t|].
  pose proof Hs as [_ Hb]. rewrite u64_small by (unfold is_u64; lia). specialize (Hrand (total_w evictionWeight t) ltac:(lia)).
  rewrite i32_small by (unfold is_i32; lia).
  destruct (find_total t _ W Hs Hrand) as (k & [id wt] & -> & Hk). cbn [mbind result_bind]. unfold index_or_abort. rewrite Hk. cbn [mbind result_bind wi_txId].
  destruct (tree_remove_ok id t W) as (t' & -> & W' & Hcap' & Ht'). cbn [mbind result_bind].
  assert (Hid : tree_weight t id = Some wt) by (apply tree_weight_Some; [done|by eapply list_elem_of_lookup_2]).
  exists (Some id), t'. split; [done|]. split; [done|]. split; [done|].
  split; [|split; [done|split; [by eexists|done]]]. eapply weights_small_remove; [exact Hs|]. by apply (tree_remove_perm id wt).
Qed.

Lemma tree_add_perm x t t' : weights_wf t -> weights_wf t' -> tree_weight t (wi_txId x) = None ->
  (forall id, tree_weight t' id = match tree_weight t id with Some w => Some w | None => if decide (id = wi_txId x) then Some (wi_txWeight x) else None end) ->
  txIdAndWeights t' ≡ₚ x :: txIdAndWeights t.
Proof.
  intros W W' Hn Ht'. destruct x as [id w]. cbn [wi_txId wi_txWeight] in *. apply (tree_remove_perm id w t' t W' W).
  - by rewrite Ht', Hn, decide_True.
  - intros id'. rewrite Ht'. case_decide as Hd; [by subst|]. by destruct (tree_weight t id').
Qed.

Lemma weights_small_perm t t' : txIdAndWeights t' ≡ₚ txIdAndWeights t -> weights_small t -> weights_small t'.
Proof.
  intros Hp [Hf Hb]. split; [by rewrite Hp|]. assert (total_w evictionWeight t' = total_w evictionWeight t) as ->; [|done].
  apply sumZ_perm, fmap_Permutation, Hp.
Qed.
Lemma weights_small_add x t t' : weights_wf t -> weights_wf t' -> weights_small t ->
  (forall id, tree_weight t' id = match tree_weight t id with Some w => Some w | None => if decide (id = wi_txId x) then Some (wi_txWeight x) else None end) ->
  0 <= cost (wi_txWeight x) <= evictionWeight (wi_txWeight x) -> total_w evictionWeight t + evictionWeight (wi_txWeight x) < 2 ^ 31 -> weights_small t'.
Proof.
  intros W W' [Hf Hb] Ht' Hx Hn. destruct (tree_weight t (wi_txId x)) as [w|] eqn:E.
  - assert (Hp : txIdAndWeights t' ≡ₚ txIdAndWeights t).
    { apply NoDup_Permutation; [by apply infos_NoDup..|]. intros [id w']. rewrite <- !tree_weight_Some, Ht' by done.
      destruct (tree_weight t id) eqn:E'; [done|]. case_decide as Hd; [subst; congruence|done]. }
    by apply (weights_small_perm t).
  - pose proof (tree_add_perm x t t' W W' E Ht') as Hp. split; [rewrite Hp; by constructor|]. rewrite (total_w_perm _ _ _ _ Hp). lia.
Qed.
Lemma weights_small_removed id t t' : weights_wf t -> weights_wf t' -> weights_small t ->
  (forall id', tree_weight t' id' = if decide (id' = id) then None else tree_weight t id') -> weights_small t'.
Proof.
  intros W W' Hs Ht'. destruct (tree_weight t id) as [w|] eqn:E; [eapply weights_small_remove; [exact Hs|]; by apply (tree_remove_perm id w)|].
  assert (Hp : txIdAndWeights t' ≡ₚ txIdAndWeights t).
  { apply NoDup_Permutation; [by apply infos_NoDup..|]. intros [id' w']. rewrite <- !tree_weight_Some, Ht' by done. case_decide; [subst; by rewrite E|done]. }
  by apply (weights_small_perm t).
Qed.

(** (C23) The transaction to evict is drawn fairly, as long as the eviction
    weights add up to less than 2^31 ([weights_small]): the code keeps them in
    64 bits but searches with [int].  Then the root holds the exact totals, the
    search ends at a transaction for every random number below the total
    eviction weight, and each transaction is drawn by exactly as many of these
    numbers as its eviction weight.  Adding and removing transactions keep the
    invariant of the tree, removing keeps the bound, and adding keeps it when
    the new total is below it.  [eviction_truncates] shows what happens at the
    bound. *)
Theorem eviction_fair (t : WeightedTxTree) (W : weights_wf t) (Hs : weights_small t) :
  (exists w, getTotalWeight t = Ok w /\ evictionWeight w = total_w evictionWeight t /\ cost w = total_w cost t)
  /\ (forall r, 0 <= r < total_w evictionWeight t -> exists k x, findByEvictionWeight t 0 r = Ok k /\ txIdAndWeights t !! k = Some x)
  /\ (forall k x, txIdAndWeights t !! k = Some x -> draws t k = evictionWeight (wi_txWeight x))
  /\ (forall x, exists t', tree_add x t = Ok t' /\ weights_wf t'
        /\ (0 <= cost (wi_txWeight x) <= evictionWeight (wi_txWeight x) -> total_w evictionWeight t + evictionWeight (wi_txWeight x) < 2 ^ 31 -> weights_small t'))
  /\ (forall id, exists t', tree_remove id t = Ok t' /\ weights_wf t' /\ weights_small t').
Proof.
  split_and!.
  - destruct (getTotalWeight_ok t W Hs) as (w & E & He & Hc & _). by exists w.
  - intros r Hr. by apply find_total.
  - intros k x Hk. apply lookup_lt_Some in Hk as Hlt. rewrite (ww_infos t W) in Hlt.
    destruct (find_counts t W Hs (wt_size t) 0 ltac:(lia)) as [_ Hn]. specialize (Hn k Hlt).
    rewrite below_root, <- (ww_infos t W), node_w_seq in Hn.
    assert (Hp : 0%nat ∈ path k).
    { clear. induction k as [k IH] using lt_wf_ind. destruct (decide (k = 0%nat)) as [->|Hk]; [apply path_refl|].
      rewrite path_step by done. apply elem_of_cons. right. apply IH. by apply parent_lt. }
    rewrite decide_True in Hn by done. unfold node_w in Hn. rewrite Hk in Hn. rewrite <- Hn. unfold draws, drawn, findByEvictionWeight, total_w.
    by rewrite (ww_infos t W).
  - intros x. destruct (tree_add_ok x t W) as (t' & E & W' & _ & Ht'). exists t'. split; [done|]. split; [done|]. intros Hx Hb.
    by apply (weights_small_add x t).
  - intros id. destruct (tree_remove_ok id t W) as (t' & E & W' & _ & Ht'). exists t'. split; [done|]. split; [done|].
    by apply (weights_small_removed id t).
Qed.

(** Two transactions of weight 2^30: the [int] of the root's weight is
    negative, so that no number draws the transaction at the root, and numbers
    from 2^30 on lead the search out of the tree, where it does not end. *)
Definition truncated_weights : WeightedTxTree :=
  match foldM (fun t x => tree_add x t) [mkTxInfo 100 (mkTxWeight (2 ^ 30) (2 ^ 30)); mkTxInfo 101 (mkTxWeight (2 ^ 30) (2 ^ 30))] (mkTree 10 0 [] [] ∅) with
  | Ok t => t
  | _ => mkTree 10 0 [] [] ∅
  end.
Lemma eviction_truncates :
  total_w evictionWeight truncated_weights = 2 ^ 31
  /\ findByEvictionWeight truncated_weights 0 (2 ^ 30 - 1) = Ok 1%nat
  /\ findByEvictionWeight truncated_weights 0 (2 ^ 30) = Abort /\ findByEvictionWeight truncated_weights 0 (2 ^ 31 - 1) = Abort.
Proof. by vm_compute. Qed.

(** Five transactions, the third removed. *)
Definition example_weights : WeightedTxTree :=
  match foldM (fun t x => tree_add x t) (imap (fun i e => mkTxInfo (Z.of_nat i + 100) (mkTxWeight 4 e)) [4; 5; 20; 7; 4]) (mkTree 10 0 [] [] ∅) with
  | Ok t => match tree_remove 102 t with Ok t => t | _ => t end
  | _ => mkTree 10 0 [] [] ∅
  end.

Lemma example_weights_wf : weights_wf example_weights.
Proof.
  assert (Hadd : forall l t, weights_wf t -> exists t', foldM (fun t x => tree_add x t) l t = Ok t' /\ weights_wf t').
  { induction l as [|x l IH]; intros t W; [by exists t|]. cbn [foldM]. destruct (tree_add_ok x t W) as (t1 & -> & W1 & _). cbn [mbind result_bind].
    by apply IH. }
  unfold example_weights. match goal with |- context [foldM ?f ?l ?t] => destruct (Hadd l t) as (t1 & -> & W1); [apply weights_wf_new|] end.
  destruct (tree_remove_ok 102 t1 W1) as (t2 & -> & W2 & _). done.
Qed.

Lemma eviction_fair_witness : draws example_weights 2 = 4 /\ draws example_weights 3 = 7
  /\ exists k x, findByEvictionWeight example_weights 0 19 = Ok k /\ txIdAndWeights example_weights !! k = Some x.
Proof.
  assert (Hs : weights_small example_weights).
  { split; [|by vm_compute]. apply Forall_forall. intros x Hx. vm_compute in Hx. set_unfold in Hx. repeat destruct Hx as [->|Hx]; cbn; lia || done. }
  destruct (eviction_fair example_weights example_weights_wf Hs) as (_ & Hf & Hd & _). split_and!.
  - apply (Hd 2%nat (mkTxInfo 104 (mkTxWeight 4 4))). by vm_compute.
  - apply (Hd 3%nat (mkTxInfo 103 (mkTxWeight 4 7))). by vm_compute.
  - apply Hf. by vm_compute.
Defined.

(** ** What the list of evicted transactions remembers *)

Record evicted_wf (now : Z) (e : RecentlyEvictedList) : Prop := {
  ew_ids : NoDup (txIdsAndTimes e).*1;
  ew_set : txIdSet e = list_to_set (txIdsAndTimes e).*1;
  ew_sorted : StronglySorted (fun a b => a.2 <= b.2) (txIdsAndTimes e);
  ew_past : Forall (fun a => a.2 <= now) (txIdsAndTimes e);
  ew_size : Z.of_nat (length (txIdsAndTimes e)) <= ev_capacity e
}.

(** The entries that are kept are those that are recent. *)
Lemma prune_entries_ok now keep l : forall s, NoDup l.*1 -> StronglySorted (fun a b => a.2 <= b.2) l -> s = list_to_set l.*1 ->
  prune_entries now keep l s = (filter (fun a => now - a.2 <= keep) l, list_to_set (filter (fun a => now - a.2 <= keep) l).*1).
Proof.
  induction l as [|[t time] l IH]; intros s Hn Hs ->; cbn [prune_entries]; [done|].
  apply NoDup_cons in Hn as [Ht Hn]. apply StronglySorted_inv in Hs as [Hs Hle].
  destruct (Z.ltb_spec keep (now - time)) as [Hold|Hnew].
  - rewrite IH; [|done|done|].
    + rewrite filter_cons_False by (cbn; lia). done.
    + cbn in Ht |- *. set_solver.
  - assert (Hall : filter (fun a => now - a.2 <= keep) l = l).
    { clear -Hle Hnew. induction Hle as [|[t' time'] l Hx _ IH]; [done|]. rewrite filter_cons_True, IH by (cbn in *; lia). done. }
    rewrite filter_cons_True by (cbn; lia). by rewrite Hall.
Qed.

Lemma Forall_sublist {A} (P : A -> Prop) l l' : l `sublist_of` l' -> Forall P l' -> Forall P l.
Proof. intros Hs. rewrite !Forall_forall. intros HP x Hx. apply HP. by eapply elem_of_sublist. Qed.

Lemma StronglySorted_sublist {A} (R : relation A) l l' : l `sublist_of` l' -> StronglySorted R l' -> StronglySorted R l.
Proof.
  induction 1 as [|x l l' Hs IH|x l l' Hs IH]; intros Hl; [done|apply StronglySorted_inv in Hl as [Hl Hx]..].
  - constructor; [by apply IH|]. by eapply Forall_sublist.
  - by apply IH.
Qed.

Lemma pruneList_ok now e : evicted_wf now e ->
  txIdsAndTimes (pruneList now e) = filter (fun a => now - a.2 <= timeToKeep e) (txIdsAndTimes e)
  /\ timeToKeep (pruneList now e) = timeToKeep e /\ ev_capacity (pruneList now e) = ev_capacity e /\ evicted_wf now (pruneList now e).
Proof.
  intros [Hn Hs Hso Hp Hz]. unfold pruneList. case_bool_decide as He.
  - rewrite He in Hs. destruct (txIdsAndTimes e) as [|[t time] l] eqn:El; [|set_solver].
    split_and!; try done. split; rewrite El; try done; constructor.
  - rewrite (prune_entries_ok now (timeToKeep e) _ _ Hn Hso Hs). cbn [txIdsAndTimes timeToKeep ev_capacity]. split_and!; try done.
    assert (Hsub : filter (fun a => now - a.2 <= timeToKeep e) (txIdsAndTimes e) `sublist_of` txIdsAndTimes e) by apply sublist_filter.
    split; cbn [txIdsAndTimes txIdSet ev_capacity].
    + eapply sublist_NoDup; [exact Hn|by apply fmap_sublist].
    + done.
    + by eapply StronglySorted_sublist.
    + by eapply Forall_sublist.
    + apply sublist_length in Hsub. lia.
Qed.

(** An id is refused exactly while it is in the list and not too old. *)
Lemma evicted_contains_spec now id e : evicted_wf now e ->
  (evicted_contains now id e).1 = true <-> exists time, (id, time) ∈ txIdsAndTimes e /\ now - time <= timeToKeep e.
Proof.
  intros W. destruct (pruneList_ok now e W) as (El & _ & _ & [_ Hs _ _ _]). unfold evicted_contains. cbn [fst].
  rewrite bool_decide_eq_true, Hs, elem_of_list_to_set, El, list_elem_of_fmap. split.
  - intros ([id' time] & -> & Hx). apply list_elem_of_filter in Hx as [Hk Hx]. exists time. done.
  - intros (time & Hx & Hk). exists (id, time). split; [done|]. by apply list_elem_of_filter.
Qed.

(** Adding an id that is not remembered: it is remembered from now on. *)
Lemma evicted_add_ok now id e : evicted_wf now e -> 0 < ev_capacity e -> (evicted_contains now id e).1 = false ->
  exists e', evicted_add now id e = Ok e' /\ evicted_wf now e' /\ (id, now) ∈ txIdsAndTimes e'.
Proof.
  intros W Hcap Hc. destruct (pruneList_ok now e W) as (El & Ek & Ec & [Hn Hs Hso Hp Hz]). unfold evicted_contains in Hc. cbn [fst] in Hc.
  apply bool_decide_eq_false in Hc. unfold evicted_add. set (p := pruneList now e) in *.
  assert (Hr : exists l s, (if Z.of_nat (length (txIdsAndTimes p)) =? ev_capacity p then
      match txIdsAndTimes p with (t, _) :: l => Ok (l, txIdSet p ∖ {[t]}) | [] => Abort end
      else Ok (txIdsAndTimes p, txIdSet p)) = Ok (l, s) /\ l `sublist_of` txIdsAndTimes p /\ s = list_to_set l.*1
      /\ Z.of_nat (length l) < ev_capacity p).
  { destruct (Z.eqb_spec (Z.of_nat (length (txIdsAndTimes p))) (ev_capacity p)) as [Heq|Hneq].
    - destruct (txIdsAndTimes p) as [|[t time] l]; [cbn in Heq; lia|]. exists l, (txIdSet p ∖ {[t]}). split; [done|].
      split; [by apply sublist_cons|]. cbn in Hn, Hs, Heq. apply NoDup_cons in Hn as [Ht _]. split; [set_solver|lia].
    - exists (txIdsAndTimes p), (txIdSet p). split_and!; try done. lia. }
  destruct Hr as (l & s & -> & Hsub & -> & Hl). cbn [mbind result_bind fst snd]. eexists. split; [done|]. cbn [txIdsAndTimes].
  split; [|apply elem_of_app; right; constructor].
  assert (Hni : id ∉ l.*1).
  { intros Hx. apply Hc. rewrite Hs, elem_of_list_to_set. eapply elem_of_sublist; [exact Hx|]. by apply fmap_sublist. }
  split; cbn [txIdsAndTimes txIdSet ev_capacity]; rewrite ?fmap_app; cbn [fmap list_fmap].
  - apply NoDup_app. split_and!; [eapply sublist_NoDup; [exact Hn|by apply fmap_sublist]|set_solver|apply NoDup_singleton].
  - rewrite list_to_set_app_L. cbn. set_solver.
  - apply StronglySorted_app_2; [|by eapply StronglySorted_sublist|repeat constructor].
    intros x y Hx ->%list_elem_of_singleton. rewrite Forall_forall in Hp. apply Hp. by eapply elem_of_sublist.
  - apply Forall_app. split; [by eapply Forall_sublist|]. by constructor.
  - rewrite length_app. cbn. lia.
Qed.
