(* ===== verification/TxMemPool.v ===== *)
(** * The memory pool

    txmempool.{h,cpp} and addressindex.h: [CTxMemPoolEntry], the state of
    [CTxMemPool] and its operations that need no coins view: adding a
    transaction, removing one with its descendants, removing what conflicts
    with a block, has expired, commits to another branch or depends on an
    anchor, priorities, the notification queue and the cost limit.

    The pool's maps hold pointers to the transactions inside [mapTx]; a
    pointer is the transaction's id and following it is a lookup, which aborts
    when the transaction is gone (a dangling pointer). *)
From stdpp Require Import prelude gmap strings list sorting.
From S2P Require Import Prelude Transaction Script Serialize TxSerialize Double Coins CoinsView CoinsCache UpdateCoins ConnectBlock Checks CheckTx MempoolLimit.
#[local] Open Scope Z_scope.

(** ** Entries *)

Definition AllowFreeThreshold : double := double_of (COIN * 144 ÷ 250).
Definition AllowFree (dPriority : double) : bool := double_gt dPriority AllowFreeThreshold.

Definition MEMPOOL_HEIGHT : Z := 0x7FFFFFFF.

Record CTxMemPoolEntry := mkEntry {
  me_tx : CTransaction;
  me_nFee : Z;
  me_nTxSize : Z;
  me_nModSize : Z;
  me_nUsageSize : Z;
  me_feeRate : CFeeRate;
  me_nTime : Z;
  me_dPriority : double;
  me_nHeight : Z;
  me_hadNoDependencies : bool;
  me_spendsCoinbase : bool;
  me_nBranchId : Z
}.

(** [usage] is [RecursiveDynamicUsage(tx)]. *)
Definition CTxMemPoolEntry_new (usage : Z) (tx : CTransaction) (nFee nTime : Z) (dPriority : double) (nHeight : Z)
  (poolHasNoInputsOf spendsCoinbase : bool) (nBranchId : Z) : result CTxMemPoolEntry :=
  nTxSize ← GetSerializeSize_tx tx;
  let nModSize := CalculateModifiedSize nTxSize tx (u32 nTxSize) in
  Ok (mkEntry tx nFee nTxSize nModSize usage (CFeeRate_of nFee nTxSize) nTime dPriority nHeight
        poolHasNoInputsOf spendsCoinbase nBranchId).

Definition me_GetPriority (e : CTxMemPoolEntry) (currentHeight : Z) : result double :=
  out ← GetValueOut (me_tx e);
  let nValueIn := i64 (out + me_nFee e) in
  let deltaPriority := double_div (double_mul (double_of (u32 (currentHeight - me_nHeight e))) (double_of nValueIn))
                                  (double_of (me_nModSize e)) in
  Ok (double_add (me_dPriority e) deltaPriority).

Definition CompareTxMemPoolEntryByFee (a b : CTxMemPoolEntry) : bool :=
  if nSatoshisPerK (me_feeRate a) =? nSatoshisPerK (me_feeRate b) then me_nTime a <? me_nTime b
  else nSatoshisPerK (me_feeRate b) <? nSatoshisPerK (me_feeRate a).

(** ** The address index of the pool *)

Record CMempoolAddressDelta := mkAddressDelta {
  ad_time : Z;
  ad_amount : Z;
  ad_prevhash : uint256;
  ad_prevout : Z
}.

Record CMempoolAddressDeltaKey := mkAddressDeltaKey {
  adk_type : Z;
  adk_addressBytes : bytes;
  adk_txhash : uint256;
  adk_index : Z;
  adk_spending : Z
}.
#[global] Instance CMempoolAddressDeltaKey_eq_dec : EqDecision CMempoolAddressDeltaKey.
Proof. solve_decision. Defined.
#[global] Instance CMempoolAddressDeltaKey_countable : Countable CMempoolAddressDeltaKey.
Proof.
  refine (inj_countable' (fun k => (adk_type k, adk_addressBytes k, adk_txhash k, adk_index k, adk_spending k))
    (fun '(t, a, h, i, s) => mkAddressDeltaKey t a h i s) _). by intros [].
Defined.
#[global] Instance CSpentIndexKey_eq_dec : EqDecision CSpentIndexKey.
Proof. solve_decision. Defined.
#[global] Instance CSpentIndexKey_countable : Countable CSpentIndexKey.
Proof. refine (inj_countable' (fun k => (sik_txid k, sik_outputIndex k)) (fun '(t, i) => mkSpentIndexKey t i) _). by intros []. Defined.

Definition ScriptType_code (t : ScriptType) : Z := match t with UNKNOWN => 0 | P2PKH => 1 | P2SH => 2 end.

(** ** The pool *)

(** What the pool uses of the rest of the node: the fee estimator, the memory
    used by a transaction, the index options, and the order in which the salted
    hash table of transactions is walked. *)
Class PoolEnv := {
  Estimator : Type;
  est_processTransaction : CTxMemPoolEntry -> bool -> Estimator -> Estimator;
  est_removeTx : uint256 -> Estimator -> Estimator;
  est_processBlock : Z -> list CTxMemPoolEntry -> bool -> Estimator -> Estimator;
  RecursiveDynamicUsage : CTransaction -> Z;
  fAddressIndex : bool;
  fSpentIndex : bool;
  walk : gmap uint256 CTxMemPoolEntry -> list CTxMemPoolEntry
}.
(** Walking the table visits every entry once. *)
Class PoolEnvLaws `{PoolEnv} := walk_all m : walk m ≡ₚ (map_to_list m).*2.

Record PoolIndex := mkPoolIndex {
  mapAddress : gmap CMempoolAddressDeltaKey CMempoolAddressDelta;
  mapAddressInserted : gmap uint256 (list CMempoolAddressDeltaKey);
  mapSpent : gmap CSpentIndexKey CSpentIndexValue;
  mapSpentInserted : gmap uint256 (list CSpentIndexKey)
}.

(** The estimate of the policy for fees is a field of type [Estimator]. *)
Record CTxMemPool `{PoolEnv} := mkPool {
  nCheckFrequency : Z;
  nTransactionsUpdated : Z;
  minerPolicyEstimator : Estimator;
  totalTxSize : Z;
  cachedInnerUsage : Z;
  mapRecentlyAddedTx : gmap uint256 uint256;
  nRecentlyAddedSequence : Z;
  nNotifiedSequence : Z;
  mapSproutNullifiers : gmap uint256 uint256;
  mapSaplingNullifiers : gmap uint256 uint256;
  recentlyEvicted : RecentlyEvictedList;
  weightedTxTree : WeightedTxTree;
  mapTx : gmap uint256 CTxMemPoolEntry;
  insight : PoolIndex;
  mapNextTx : gmap COutPoint (uint256 * Z);
  mapDeltas : gmap uint256 (double * Z)
}.

(** [x.insert(make_pair(k, v))] of a map keeps an entry that is there. *)
Definition map_add `{Countable K} {A} (k : K) (v : A) (m : gmap K A) : gmap K A :=
  match m !! k with Some _ => m | None => <[k := v]> m end.

Section Pool.
Context `{PoolEnv}.
Implicit Types (p : CTxMemPool) (tx : CTransaction).

(** The constructor; the pool is a global object, so [cachedInnerUsage], which
    has no initializer, starts as zero. *)
Definition CTxMemPool_new (est : Estimator) : result CTxMemPool :=
  ev ← RecentlyEvictedList_new EVICTION_MEMORY_ENTRIES (DEFAULT_MEMPOOL_EVICTION_MEMORY_MINUTES * 60);
  t ← WeightedTxTree_new DEFAULT_MEMPOOL_TOTAL_COST_LIMIT;
  Ok (mkPool _ 0 0 est 0 0 ∅ 0 0 ∅ ∅ ev t ∅ (mkPoolIndex ∅ ∅ ∅ ∅) ∅ ∅).

(** Following a pointer to a transaction of the pool. *)
Definition deref_tx p (ptx : uint256) : result CTransaction :=
  match mapTx p !! ptx with Some e => Ok (me_tx e) | None => Abort end.

(** ** Setters *)

Definition set_updated (n : Z) p : CTxMemPool :=
  mkPool _ (nCheckFrequency p) n (minerPolicyEstimator p) (totalTxSize p) (cachedInnerUsage p) (mapRecentlyAddedTx p)
    (nRecentlyAddedSequence p) (nNotifiedSequence p) (mapSproutNullifiers p) (mapSaplingNullifiers p) (recentlyEvicted p)
    (weightedTxTree p) (mapTx p) (insight p) (mapNextTx p) (mapDeltas p).
Definition set_estimator (est : Estimator) p : CTxMemPool :=
  mkPool _ (nCheckFrequency p) (nTransactionsUpdated p) est (totalTxSize p) (cachedInnerUsage p) (mapRecentlyAddedTx p)
    (nRecentlyAddedSequence p) (nNotifiedSequence p) (mapSproutNullifiers p) (mapSaplingNullifiers p) (recentlyEvicted p)
    (weightedTxTree p) (mapTx p) (insight p) (mapNextTx p) (mapDeltas p).
Definition set_recent (m : gmap uint256 uint256) p : CTxMemPool :=
  mkPool _ (nCheckFrequency p) (nTransactionsUpdated p) (minerPolicyEstimator p) (totalTxSize p) (cachedInnerUsage p) m
    (nRecentlyAddedSequence p) (nNotifiedSequence p) (mapSproutNullifiers p) (mapSaplingNullifiers p) (recentlyEvicted p)
    (weightedTxTree p) (mapTx p) (insight p) (mapNextTx p) (mapDeltas p).
Definition set_limits (ev : RecentlyEvictedList) (t : WeightedTxTree) p : CTxMemPool :=
  mkPool _ (nCheckFrequency p) (nTransactionsUpdated p) (minerPolicyEstimator p) (totalTxSize p) (cachedInnerUsage p)
    (mapRecentlyAddedTx p) (nRecentlyAddedSequence p) (nNotifiedSequence p) (mapSproutNullifiers p) (mapSaplingNullifiers p)
    ev t (mapTx p) (insight p) (mapNextTx p) (mapDeltas p).
Definition set_insight (x : PoolIndex) p : CTxMemPool :=
  mkPool _ (nCheckFrequency p) (nTransactionsUpdated p) (minerPolicyEstimator p) (totalTxSize p) (cachedInnerUsage p)
    (mapRecentlyAddedTx p) (nRecentlyAddedSequence p) (nNotifiedSequence p) (mapSproutNullifiers p) (mapSaplingNullifiers p)
    (recentlyEvicted p) (weightedTxTree p) (mapTx p) x (mapNextTx p) (mapDeltas p).
Definition set_deltas (m : gmap uint256 (double * Z)) p : CTxMemPool :=
  mkPool _ (nCheckFrequency p) (nTransactionsUpdated p) (minerPolicyEstimator p) (totalTxSize p) (cachedInnerUsage p)
    (mapRecentlyAddedTx p) (nRecentlyAddedSequence p) (nNotifiedSequence p) (mapSproutNullifiers p) (mapSaplingNullifiers p)
    (recentlyEvicted p) (weightedTxTree p) (mapTx p) (insight p) (mapNextTx p) m.

(** ** Adding *)

Definition number {A} (l : list A) : list (Z * A) := imap (fun i x => (Z.of_nat i, x)) l.

Definition addUnchecked (hash : uint256) (entry : CTxMemPoolEntry) (fCurrentEstimate : bool) p : result CTxMemPool :=
  t ← tree_add (WeightedTxInfo_from (RecursiveDynamicUsage (me_tx entry)) (me_tx entry) (me_nFee entry)) (weightedTxTree p);
  let txs := map_add (tx_hash (me_tx entry)) entry (mapTx p) in
  match txs !! hash with
  | None => Abort
  | Some e =>
      let tx := me_tx e in
      Ok (mkPool _ (nCheckFrequency p)
            (u32 (nTransactionsUpdated p + 1))
            (est_processTransaction entry fCurrentEstimate (minerPolicyEstimator p))
            (u64 (totalTxSize p + me_nTxSize entry))
            (u64 (cachedInnerUsage p + me_nUsageSize entry))
            (<[tx_hash tx := hash]> (mapRecentlyAddedTx p))
            (u64 (nRecentlyAddedSequence p + 1))
            (nNotifiedSequence p)
            (foldl (fun m nf => <[nf := hash]> m) (mapSproutNullifiers p) (sprout_nullifiers tx))
            (foldl (fun m nf => <[nf := hash]> m) (mapSaplingNullifiers p) (sapling_nullifiers tx))
            (recentlyEvicted p) t txs (insight p)
            (foldl (fun m '(i, txin) => <[prevout txin := (hash, i)]> m) (mapNextTx p) (number (vin tx)))
            (mapDeltas p))
  end.

(** ** The indexes *)

Definition removeAddressIndex (txhash : uint256) (x : PoolIndex) : PoolIndex :=
  match mapAddressInserted x !! txhash with
  | None => x
  | Some keys => mkPoolIndex (foldl (fun m k => delete k m) (mapAddress x) keys) (delete txhash (mapAddressInserted x))
                   (mapSpent x) (mapSpentInserted x)
  end.
Definition removeSpentIndex (txhash : uint256) (x : PoolIndex) : PoolIndex :=
  match mapSpentInserted x !! txhash with
  | None => x
  | Some keys => mkPoolIndex (mapAddress x) (mapAddressInserted x) (foldl (fun m k => delete k m) (mapSpent x) keys)
                   (delete txhash (mapSpentInserted x))
  end.
Definition getSpentIndex (key : CSpentIndexKey) p : option CSpentIndexValue := mapSpent (insight p) !! key.

(** ** Removing *)

(** The pool's transactions that spend one of the first [n] outputs of [hash]. *)
Definition push_child (hash : uint256) p (q : list uint256) (i : nat) : result (list uint256) :=
  match mapNextTx p !! mkCOutPoint hash (Z.of_nat i) with
  | None => Ok q
  | Some (ptx, _) => tx ← deref_tx p ptx; Ok (q ++ [tx_hash tx])
  end.
Definition push_children (hash : uint256) (n : nat) p (q : list uint256) : result (list uint256) :=
  foldM (push_child hash p) (seq 0 n) q.

(** Takes the entry [e] of [hash] out of every map of the pool. *)
Definition erase_entry (hash : uint256) (e : CTxMemPoolEntry) p : CTxMemPool :=
  let tx := me_tx e in
  let x := if fAddressIndex then removeAddressIndex hash (insight p) else insight p in
  let x := if fSpentIndex then removeSpentIndex hash x else x in
  mkPool _ (nCheckFrequency p)
    (u32 (nTransactionsUpdated p + 1))
    (est_removeTx hash (minerPolicyEstimator p))
    (u64 (totalTxSize p - me_nTxSize e))
    (u64 (cachedInnerUsage p - me_nUsageSize e))
    (delete hash (mapRecentlyAddedTx p))
    (nRecentlyAddedSequence p)
    (nNotifiedSequence p)
    (foldl (fun m nf => delete nf m) (mapSproutNullifiers p) (sprout_nullifiers tx))
    (foldl (fun m nf => delete nf m) (mapSaplingNullifiers p) (sapling_nullifiers tx))
    (recentlyEvicted p) (weightedTxTree p)
    (delete hash (mapTx p)) x
    (foldl (fun m txin => delete (prevout txin) m) (mapNextTx p) (vin tx))
    (mapDeltas p).

(** [while (!txToRemove.empty())]. *)
Fixpoint remove_loop (fuel : nat) (fRecursive : bool) (txToRemove : list uint256) p (removed : list CTransaction)
  : result (CTxMemPool * list CTransaction) :=
  match txToRemove with
  | [] => Ok (p, removed)
  | hash :: q =>
      match fuel with
      | O => Abort
      | S fuel' =>
          match mapTx p !! hash with
          | None => remove_loop fuel' fRecursive q p removed
          | Some e =>
              q ← (if fRecursive then push_children hash (length (tx_vout (me_tx e))) p q else Ok q);
              remove_loop fuel' fRecursive q (erase_entry hash e p) (removed ++ [me_tx e])
          end
      end
  end.

(** Every turn takes one id off the queue, and a transaction, which leaves the
    pool, puts at most one per output on it. *)
Definition outputs_total p : nat := map_fold (fun _ e n => (length (tx_vout (me_tx e)) + n)%nat) 0%nat (mapTx p).

Definition remove (origTx : CTransaction) (removed : list CTransaction) (fRecursive : bool) p
  : result (CTxMemPool * list CTransaction) :=
  q ← (if fRecursive && bool_decide (mapTx p !! tx_hash origTx = None)
       then push_children (tx_hash origTx) (length (tx_vout origTx)) p [tx_hash origTx]
       else Ok [tx_hash origTx]);
  r ← remove_loop (length q + outputs_total p) fRecursive q p removed;
  let '(p, removed) := r in
  t ← foldM (fun t tx => tree_remove (tx_hash tx) t) removed (weightedTxTree p);
  Ok (set_limits (recentlyEvicted p) t p, removed).

(** [for (tx : transactionsToRemove) { list removed; remove(tx, removed, true); }]. *)
Definition remove_step p tx : result CTxMemPool := r ← remove tx [] true p; Ok r.1.
Definition remove_each (l : list CTransaction) p : result CTxMemPool := foldM remove_step l p.

(** The transactions of the pool that satisfy a condition. *)
Definition select (cond : CTxMemPoolEntry -> bool) p : list CTransaction :=
  me_tx <$> filter (fun e => cond e = true) (walk (mapTx p)).

Definition uses_anchor (invalidRoot : uint256) (ty : ShieldedType) (tx : CTransaction) : bool :=
  match ty with
  | SPROUT => existsb (fun js => js_anchor js =? invalidRoot) (vjoinsplit tx)
  | SAPLING => existsb (fun sd => sd_anchor sd =? invalidRoot) (vShieldedSpend tx)
  end.
Definition removeWithAnchor (invalidRoot : uint256) (ty : ShieldedType) p : result CTxMemPool :=
  remove_each (select (fun e => uses_anchor invalidRoot ty (me_tx e)) p) p.

Definition removeExpired (nBlockHeight : Z) p : result (list uint256 * CTxMemPool) :=
  let txs := select (fun e => IsExpiredTx (me_tx e) nBlockHeight) p in
  p ← remove_each txs p; Ok (tx_hash <$> txs, p).

Definition removeWithoutBranchId (nMemPoolBranchId : Z) p : result CTxMemPool :=
  remove_each (select (fun e => negb (me_nBranchId e =? nMemPoolBranchId)) p) p.

(** [if (txConflict != tx) remove(txConflict, removed, true);] when a map has
    a transaction under the input. *)
Definition remove_conflict tx (found : CTxMemPool -> option uint256) (s : CTxMemPool * list CTransaction)
  : result (CTxMemPool * list CTransaction) :=
  match found s.1 with
  | None => Ok s
  | Some ptx =>
      txConflict ← deref_tx s.1 ptx;
      if tx_hash txConflict =? tx_hash tx then Ok s else remove txConflict s.2 true s.1
  end.
Definition removeConflicts tx (removed : list CTransaction) p : result (CTxMemPool * list CTransaction) :=
  s ← foldM (fun s txin => remove_conflict tx (fun p => (mapNextTx p !! prevout txin) ≫= fun x => Some x.1) s) (vin tx) (p, removed);
  s ← foldM (fun s nf => remove_conflict tx (fun p => mapSproutNullifiers p !! nf) s) (sprout_nullifiers tx) s;
  foldM (fun s nf => remove_conflict tx (fun p => mapSaplingNullifiers p !! nf) s) (sapling_nullifiers tx) s.

Definition ClearPrioritisation (hash : uint256) p : CTxMemPool := set_deltas (delete hash (mapDeltas p)) p.

Definition remove_block_tx (s : CTxMemPool * list CTransaction) tx : result (CTxMemPool * list CTransaction) :=
  r ← remove tx [] false s.1;
  r ← removeConflicts tx s.2 r.1;
  Ok (ClearPrioritisation (tx_hash tx) r.1, r.2).
Definition removeForBlock (vtx : list CTransaction) (nBlockHeight : Z) (conflicts : list CTransaction) (fCurrentEstimate : bool) p
  : result (CTxMemPool * list CTransaction) :=
  let entries := omap (fun tx => mapTx p !! tx_hash tx) vtx in
  r ← foldM remove_block_tx vtx (p, conflicts);
  Ok (set_estimator (est_processBlock nBlockHeight entries fCurrentEstimate (minerPolicyEstimator r.1)) r.1, r.2).

Definition clear p : CTxMemPool :=
  mkPool _ (nCheckFrequency p) (u32 (nTransactionsUpdated p + 1)) (minerPolicyEstimator p) 0 0 (mapRecentlyAddedTx p)
    (nRecentlyAddedSequence p) (nNotifiedSequence p) (mapSproutNullifiers p) (mapSaplingNullifiers p) (recentlyEvicted p)
    (weightedTxTree p) ∅ (insight p) ∅ (mapDeltas p).

(** ** Queries *)

Definition exists_ (hash : uint256) p : bool := bool_decide (is_Some (mapTx p !! hash)).
Definition lookup_ (hash : uint256) p : option CTransaction := me_tx <$> mapTx p !! hash.
Definition queryHashes p : list uint256 := (fun e => tx_hash (me_tx e)) <$> walk (mapTx p).
Definition pool_size p : nat := size (mapTx p).
Definition GetTransactionsUpdated p : Z := nTransactionsUpdated p.
Definition AddTransactionsUpdated (n : Z) p : CTxMemPool := set_updated (u32 (nTransactionsUpdated p + n)) p.
Definition HasNoInputsOf tx p : bool := forallb (fun i => negb (exists_ (out_hash (prevout i)) p)) (vin tx).
Definition nullifierExists (nullifier : uint256) (ty : ShieldedType) p : bool :=
  match ty with
  | SPROUT => bool_decide (is_Some (mapSproutNullifiers p !! nullifier))
  | SAPLING => bool_decide (is_Some (mapSaplingNullifiers p !! nullifier))
  end.

(** The outputs of [hashTx] that the pool spends, in order of their index. *)
Definition spent_outputs (hashTx : uint256) p : list Z :=
  merge_sort Z.le (omap (fun '(o, _) => if out_hash o =? hashTx then Some (out_n o) else None) (map_to_list (mapNextTx p))).
Definition pruneSpent (hashTx : uint256) (coins : CCoins) p : CCoins :=
  foldl (fun c n => (CCoins_Spend c (Z.to_nat n)).2) coins (spent_outputs hashTx p).

(** ** Priorities and notifications *)

Definition PrioritiseTransaction (hash : uint256) (dPriorityDelta : double) (nFeeDelta : Z) p : CTxMemPool :=
  let deltas := default (double_zero, 0) (mapDeltas p !! hash) in
  set_deltas (<[hash := (double_add deltas.1 dPriorityDelta, i64 (deltas.2 + nFeeDelta))]> (mapDeltas p)) p.
Definition ApplyDeltas (hash : uint256) (dPriorityDelta : double) (nFeeDelta : Z) p : double * Z :=
  match mapDeltas p !! hash with
  | None => (dPriorityDelta, nFeeDelta)
  | Some deltas => (double_add dPriorityDelta deltas.1, i64 (nFeeDelta + deltas.2))
  end.

(** A [std::map] keyed by blobs is walked in the order of [memcmp]: that of the
    numbers their bytes spell, most significant byte first. *)
Definition blob_key (h : uint256) : Z := le_val (reverse (le_bytes 32 h)).
Definition blob_le (a b : uint256) : Prop := blob_key a <= blob_key b.
#[global] Instance blob_le_dec : RelDecision blob_le.
Proof. intros a b. unfold blob_le. apply _. Defined.

Definition drain_step p (txs : list CTransaction) (ptx : uint256) : result (list CTransaction) :=
  tx ← deref_tx p ptx; Ok (txs ++ [tx]).
Definition DrainRecentlyAdded p : result (list CTransaction * Z * CTxMemPool) :=
  let ptxs := omap (fun k => mapRecentlyAddedTx p !! k) (merge_sort blob_le (map_to_list (mapRecentlyAddedTx p)).*1) in
  txs ← foldM (drain_step p) ptxs [];
  Ok (txs, nRecentlyAddedSequence p, set_recent ∅ p).

(** [regtest] is whether the network is the regression test network. *)
Definition SetNotifiedSequence (regtest : bool) (recentlyAddedSequence : Z) p : result CTxMemPool :=
  _ ← assert_true regtest;
  Ok (mkPool _ (nCheckFrequency p) (nTransactionsUpdated p) (minerPolicyEstimator p) (totalTxSize p) (cachedInnerUsage p)
        (mapRecentlyAddedTx p) (nRecentlyAddedSequence p) recentlyAddedSequence (mapSproutNullifiers p) (mapSaplingNullifiers p)
        (recentlyEvicted p) (weightedTxTree p) (mapTx p) (insight p) (mapNextTx p) (mapDeltas p)).
Definition IsFullyNotified (regtest : bool) p : result bool :=
  _ ← assert_true regtest; Ok (nRecentlyAddedSequence p =? nNotifiedSequence p).

(** ** The cost limit *)

Definition SetMempoolCostLimit (totalCostLimit evictionMemorySeconds : Z) p : result CTxMemPool :=
  ev ← RecentlyEvictedList_new EVICTION_MEMORY_ENTRIES evictionMemorySeconds;
  t ← WeightedTxTree_new totalCostLimit;
  Ok (set_limits ev t p).

Definition IsRecentlyEvicted (now : Z) (txId : uint256) p : bool * CTxMemPool :=
  let '(b, ev) := evicted_contains now txId (recentlyEvicted p) in (b, set_limits ev (weightedTxTree p) p).

(** One eviction: draw a transaction, remember it, and remove it with its
    descendants; [None] when the pool is within its limit. *)
Definition evict_one (now : Z) (rand : Z -> Z) p : result (option CTxMemPool) :=
  r ← maybeDropRandom rand (weightedTxTree p);
  match r with
  | (None, _) => Ok None
  | (Some txId, t) =>
      ev ← evicted_add now txId (recentlyEvicted p);
      let p := set_limits ev t p in
      tx ← deref_tx p txId;
      r ← remove tx [] true p;
      Ok (Some r.1)
  end.

(** [rand i] is the [i]-th number drawn.  A transaction leaves the tree each
    time, so that the fuel is the size of the tree. *)
Fixpoint ensure_loop (fuel : nat) (now : Z) (rand : nat -> Z -> Z) (i : nat) p : result CTxMemPool :=
  match fuel with
  | O => Abort
  | S fuel' =>
      r ← evict_one now (rand i) p;
      match r with
      | None => Ok p
      | Some p' => ensure_loop fuel' now rand (S i) p'
      end
  end.
Definition EnsureSizeLimit (now : Z) (rand : nat -> Z -> Z) p : result CTxMemPool :=
  ensure_loop (S (wt_size (weightedTxTree p))) now rand 0 p.
End Pool.
