(* ===== verification/PoolLaws.v ===== *)
(** * Laws of the memory pool

    The invariant of [CTxMemPool] (its maps describe exactly the transactions
    of [mapTx], so that no two of them spend the same output or reveal the
    same nullifier, and every pointer can be followed), and what the removals
    do: [remove] takes out a transaction and all its descendants and nothing
    else, whatever the order of the queue. *)
From stdpp Require Import prelude gmap strings list sorting relations.
From S2P Require Import Prelude Transaction Script Serialize TxSerialize Double Coins CoinsView CoinsCache UpdateCoins ConnectBlock Checks CheckTx MempoolLimit TxMemPool.
#[local] Open Scope Z_scope.

(** ** Loops over maps *)

Lemma foldl_delete_lookup `{Countable K} {A B} (f : B -> K) (l : list B) (m : gmap K A) k :
  foldl (fun m b => delete (f b) m) m l !! k = if decide (k ∈ f <$> l) then None else m !! k.
Proof.
  revert m. induction l as [|b l IH]; intros m; cbn; [done|]. rewrite IH. destruct (decide (k = f b)) as [->|Hk].
  - rewrite lookup_delete_eq. repeat case_decide; set_solver.
  - rewrite lookup_delete_ne by done. repeat case_decide; set_solver.
Qed.

Lemma foldl_insert_lookup `{Countable K} {A} (v : A) (l : list K) (m : gmap K A) k :
  foldl (fun m b => <[b := v]> m) m l !! k = if decide (k ∈ l) then Some v else m !! k.
Proof.
  revert m. induction l as [|b l IH]; intros m; cbn; [done|]. rewrite IH. destruct (decide (k = b)) as [->|Hk].
  - rewrite lookup_insert_eq. repeat case_decide; set_solver.
  - rewrite lookup_insert_ne by done. repeat case_decide; set_solver.
Qed.

(** The sum of a measure over the entries of a map. *)
Definition map_total `{Countable K} {A} (f : A -> Z) (m : gmap K A) : Z := map_fold (fun _ e z => f e + z) 0 m.

Lemma map_total_insert `{Countable K} {A} (f : A -> Z) (m : gmap K A) k e : m !! k = None -> map_total f (<[k := e]> m) = f e + map_total f m.
Proof. intros Hk. unfold map_total. rewrite map_fold_insert_L; [done|intros; lia|done]. Qed.
Lemma map_total_delete `{Countable K} {A} (f : A -> Z) (m : gmap K A) k e : m !! k = Some e -> map_total f m = f e + map_total f (delete k m).
Proof. intros Hk. unfold map_total. rewrite (map_fold_delete_L _ _ k e m); [done|intros; lia|done]. Qed.

Lemma u64_add_l a b : u64 (u64 a + b) = u64 (a + b).
Proof. unfold u64. by rewrite Zplus_mod_idemp_l. Qed.
Lemma u64_sub_l a b : u64 (u64 a - b) = u64 (a - b).
Proof. unfold u64. by rewrite Zminus_mod_idemp_l. Qed.

Section Laws.
Context `{PoolEnv}.
Implicit Types (p : CTxMemPool) (tx : CTransaction) (e : CTxMemPoolEntry).

(** ** The invariant *)

(** Input [n] of the transaction spends [o]. *)
Definition spends_at tx (n : Z) (o : COutPoint) : Prop := 0 <= n /\ prevout <$> (vin tx !! Z.to_nat n) = Some o.

Record pool_core p : Prop := {
  pc_key : forall h e, mapTx p !! h = Some e -> tx_hash (me_tx e) = h;
  pc_next : forall o h n, mapNextTx p !! o = Some (h, n) <-> exists e, mapTx p !! h = Some e /\ spends_at (me_tx e) n o;
  pc_sprout : forall nf h, mapSproutNullifiers p !! nf = Some h <-> exists e, mapTx p !! h = Some e /\ nf ∈ sprout_nullifiers (me_tx e);
  pc_sapling : forall nf h, mapSaplingNullifiers p !! nf = Some h <-> exists e, mapTx p !! h = Some e /\ nf ∈ sapling_nullifiers (me_tx e);
  pc_recent : forall k h, mapRecentlyAddedTx p !! k = Some h -> h = k /\ is_Some (mapTx p !! h);
  pc_size : totalTxSize p = u64 (map_total me_nTxSize (mapTx p));
  pc_usage : cachedInnerUsage p = u64 (map_total me_nUsageSize (mapTx p))
}.

(** The weight of an entry in the tree. *)
Definition entry_weight e : TxWeight := wi_txWeight (WeightedTxInfo_from (RecursiveDynamicUsage (me_tx e)) (me_tx e) (me_nFee e)).

Record pool_wf p : Prop := {
  pw_core : pool_core p;
  pw_tree : weights_wf (weightedTxTree p);
  pw_weight : forall h, tree_weight (weightedTxTree p) h = entry_weight <$> mapTx p !! h
}.

(** No output is spent twice inside the pool, no nullifier revealed twice. *)
Lemma pool_no_double_spend p h1 h2 e1 e2 : pool_core p -> mapTx p !! h1 = Some e1 -> mapTx p !! h2 = Some e2 ->
  (exists o, o ∈ prevout <$> vin (me_tx e1) /\ o ∈ prevout <$> vin (me_tx e2))
  \/ (exists nf, nf ∈ sprout_nullifiers (me_tx e1) /\ nf ∈ sprout_nullifiers (me_tx e2))
  \/ (exists nf, nf ∈ sapling_nullifiers (me_tx e1) /\ nf ∈ sapling_nullifiers (me_tx e2)) -> h1 = h2.
Proof.
  intros C H1 H2 [(o & Ho1 & Ho2)|[(nf & Hn1 & Hn2)|(nf & Hn1 & Hn2)]].
  - assert (Hat : forall h e, mapTx p !! h = Some e -> o ∈ prevout <$> vin (me_tx e) -> exists n, mapNextTx p !! o = Some (h, n)).
    { intros h e He Ho. apply list_elem_of_lookup in Ho as [i Hi]. rewrite list_lookup_fmap in Hi. exists (Z.of_nat i).
      apply (pc_next p C). exists e. split; [done|]. split; [lia|]. by rewrite Nat2Z.id. }
    destruct (Hat _ _ H1 Ho1) as [n1 E1], (Hat _ _ H2 Ho2) as [n2 E2]. congruence.
  - assert (Hs1 : mapSproutNullifiers p !! nf = Some h1) by (apply (pc_sprout p C); eauto).
    assert (Hs2 : mapSproutNullifiers p !! nf = Some h2) by (apply (pc_sprout p C); eauto). congruence.
  - assert (Hs1 : mapSaplingNullifiers p !! nf = Some h1) by (apply (pc_sapling p C); eauto).
    assert (Hs2 : mapSaplingNullifiers p !! nf = Some h2) by (apply (pc_sapling p C); eauto). congruence.
Qed.

Lemma deref_tx_ok p h e : mapTx p !! h = Some e -> deref_tx p h = Ok (me_tx e).
Proof. unfold deref_tx. by intros ->. Qed.

(** ** Erasing one entry *)

Lemma nullifiers_erase (nfs : CMutableTransaction -> list uint256) (m : gmap uint256 uint256) (txs : gmap uint256 CTxMemPoolEntry) hash e :
  (forall nf h, m !! nf = Some h <-> exists e, txs !! h = Some e /\ nf ∈ nfs (me_tx e)) -> txs !! hash = Some e ->
  forall nf h, foldl (fun m nf => delete nf m) m (nfs (me_tx e)) !! nf = Some h
    <-> exists e', delete hash txs !! h = Some e' /\ nf ∈ nfs (me_tx e').
Proof.
  intros Hm He nf h. rewrite (foldl_delete_lookup id), list_fmap_id. setoid_rewrite lookup_delete_Some. case_decide as Hin.
  - split; [done|]. intros (e' & [Hne He'] & Hin').
    assert (H1 : m !! nf = Some h) by (apply Hm; eauto). assert (H2 : m !! nf = Some hash) by (apply Hm; eauto). congruence.
  - rewrite Hm. split.
    + intros (e' & He' & Hin'). exists e'. split; [|done]. split; [|done]. intros <-. congruence.
    + intros (e' & [_ He'] & Hin'). eauto.
Qed.

Lemma erase_entry_core hash e p : pool_core p -> mapTx p !! hash = Some e -> pool_core (erase_entry hash e p).
Proof.
  intros C He. pose proof (pc_key p C _ _ He) as Hk. split; cbn [erase_entry mapTx mapNextTx mapSproutNullifiers mapSaplingNullifiers mapRecentlyAddedTx totalTxSize cachedInnerUsage].
  - intros h e' [_ He']%lookup_delete_Some. by apply C.
  - intros o h n. rewrite (foldl_delete_lookup prevout). setoid_rewrite lookup_delete_Some. case_decide as Hin.
    + split; [done|]. intros (e' & [Hne He'] & Hs). destruct Hne. apply list_elem_of_lookup in Hin as [i Hi]. rewrite list_lookup_fmap in Hi.
      assert (H1 : mapNextTx p !! o = Some (h, n)) by (apply (pc_next p C); eauto).
      assert (H2 : mapNextTx p !! o = Some (hash, Z.of_nat i)).
      { apply (pc_next p C). exists e. split; [done|]. split; [lia|by rewrite Nat2Z.id]. }
      congruence.
    + rewrite (pc_next p C). split.
      * intros (e' & He' & Hs). exists e'. split; [|done]. split; [|done]. intros <-. rewrite He in He'. injection He' as <-.
        destruct Hin. destruct Hs as [_ Hs]. rewrite <- list_lookup_fmap in Hs. by eapply list_elem_of_lookup_2.
      * intros (e' & [_ He'] & Hs). eauto.
  - by apply nullifiers_erase; [apply C|].
  - by apply nullifiers_erase; [apply C|].
  - intros k h [Hne Hr]%lookup_delete_Some. apply (pc_recent p C) in Hr as [-> Hs]. split; [done|]. by rewrite lookup_delete_ne.
  - rewrite (pc_size p C), u64_sub_l, (map_total_delete _ _ _ _ He). f_equal. lia.
  - rewrite (pc_usage p C), u64_sub_l, (map_total_delete _ _ _ _ He). f_equal. lia.
Qed.

(** A pool with fewer transactions has fewer spent outputs. *)
Lemma next_subset p0 p o x : pool_core p0 -> pool_core p -> mapTx p ⊆ mapTx p0 -> mapNextTx p !! o = Some x -> mapNextTx p0 !! o = Some x.
Proof.
  intros C0 C Hsub Hx. destruct x as [h n]. apply (pc_next p C) in Hx as (e & He & Hs). apply (pc_next p0 C0). exists e. split; [|done].
  by eapply lookup_weaken.
Qed.

(** ** What a removal takes out *)

(** How many outputs of [h] the removal of [orig] looks at. *)
Definition outs p orig (h : uint256) : nat :=
  match mapTx p !! h with
  | Some e => length (tx_vout (me_tx e))
  | None => if decide (h = tx_hash orig) then length (tx_vout orig) else 0%nat
  end.

Inductive doomed (fRecursive : bool) p orig : uint256 -> Prop :=
| doomed_self : doomed fRecursive p orig (tx_hash orig)
| doomed_child h i h' n : fRecursive = true -> doomed fRecursive p orig h -> (i < outs p orig h)%nat ->
    mapNextTx p !! mkCOutPoint h (Z.of_nat i) = Some (h', n) -> doomed fRecursive p orig h'.

Lemma push_children_ok p hash n q : pool_core p ->
  exists l, push_children hash n p q = Ok (q ++ l) /\ (length l <= n)%nat
    /\ forall h', h' ∈ l <-> exists i k, (i < n)%nat /\ mapNextTx p !! mkCOutPoint hash (Z.of_nat i) = Some (h', k).
Proof.
  intros C. unfold push_children. induction n as [|n IH].
  { exists []. rewrite app_nil_r. split; [done|]. split; [done|]. intros h'. split; [by intros Hnil%not_elem_of_nil|intros (i & k & Hi & _); lia]. }
  destruct IH as (l & E & Hl & Hin). rewrite seq_S, foldM_app. cbn [Nat.add]. rewrite E. cbn [mbind result_bind foldM]. unfold push_child at 1.
  destruct (mapNextTx p !! mkCOutPoint hash (Z.of_nat n)) as [[ptx k]|] eqn:En.
  - pose proof (proj1 (pc_next p C _ _ _) En) as (e & He & _). rewrite (deref_tx_ok _ _ _ He). cbn [mbind result_bind]. rewrite (pc_key p C _ _ He).
    exists (l ++ [ptx]). rewrite <- app_assoc. split; [done|]. split; [rewrite length_app; cbn; lia|]. intros h'. rewrite elem_of_app, Hin, list_elem_of_singleton. split.
    + intros [(i & k' & Hi & Hx)| ->]; [exists i, k'; split; [lia|done]|]. exists n, k. split; [lia|done].
    + intros (i & k' & Hi & Hx). destruct (decide (i = n)) as [->|]; [right; congruence|]. left. exists i, k'. split; [lia|done].
  - exists l. split; [done|]. split; [lia|]. intros h'. rewrite Hin. split; intros (i & k' & Hi & Hx); exists i, k'; (split; [|done]); [lia|].
    destruct (decide (i = n)) as [->|]; [congruence|lia].
Qed.

(** The state of the loop: [p0] is the pool it started from. *)
Record loop_inv (rec : bool) p0 orig (q : list uint256) p : Prop := {
  li_core : pool_core p;
  li_sub : mapTx p ⊆ mapTx p0;
  li_queue : forall h, h ∈ q -> doomed rec p0 orig h;
  li_gone : forall h, is_Some (mapTx p0 !! h) -> mapTx p !! h = None -> doomed rec p0 orig h;
  li_children : forall h i h' n, rec = true -> doomed rec p0 orig h -> mapTx p !! h = None -> (i < outs p0 orig h)%nat ->
    mapNextTx p0 !! mkCOutPoint h (Z.of_nat i) = Some (h', n) -> h' ∈ q \/ mapTx p !! h' = None;
  li_orig : tx_hash orig ∈ q \/ mapTx p !! tx_hash orig = None
}.

Lemma loop_inv_skip rec p0 orig hash q p : loop_inv rec p0 orig (hash :: q) p -> mapTx p !! hash = None -> loop_inv rec p0 orig q p.
Proof.
  intros [C Hsub Hq Hg Hc Ho] Hn. split; try done.
  - intros h Hh. apply Hq. by right.
  - intros h i h' n Hr Hd Hh Hi Hx. destruct (Hc h i h' n) as [Hin|?]; [done..| |by right]. apply elem_of_cons in Hin as [->|?]; [by right|by left].
  - destruct Ho as [Ho|?]; [|by right]. apply elem_of_cons in Ho as [->|?]; [by right|by left].
Qed.

Lemma loop_inv_erase rec p0 orig hash e q l p : pool_core p0 -> loop_inv rec p0 orig (hash :: q) p -> mapTx p !! hash = Some e ->
  (rec = false -> l = []) ->
  (rec = true -> forall h', h' ∈ l <-> exists i k, (i < length (tx_vout (me_tx e)))%nat /\ mapNextTx p !! mkCOutPoint hash (Z.of_nat i) = Some (h', k)) ->
  loop_inv rec p0 orig (q ++ l) (erase_entry hash e p).
Proof.
  intros C0 [C Hsub Hq Hg Hc Ho] He Hf Hl. assert (He0 : mapTx p0 !! hash = Some e) by (by eapply lookup_weaken).
  assert (Hd : doomed rec p0 orig hash) by (apply Hq; constructor).
  assert (Houts : outs p0 orig hash = length (tx_vout (me_tx e))) by (unfold outs; by rewrite He0).
  split; cbn [erase_entry mapTx].
  - by apply erase_entry_core.
  - etrans; [apply delete_subseteq|done].
  - intros h [Hh|Hh]%elem_of_app; [apply Hq; by right|]. destruct rec; [|rewrite (Hf eq_refl) in Hh; by apply not_elem_of_nil in Hh].
    apply (Hl eq_refl) in Hh as (i & k & Hi & Hx). eapply doomed_child; [done|exact Hd|by rewrite Houts|]. by eapply next_subset.
  - intros h Hs [->|Hn]%lookup_delete_None; [done|by apply Hg].
  - intros h i h' n Hr Hdh Hh Hi Hx. rewrite lookup_delete_None. rewrite elem_of_app. destruct (mapTx p !! h') as [e'|] eqn:He'; [|auto].
    destruct (decide (hash = h')) as [|Hne]; [auto|]. destruct (decide (h = hash)) as [->|Hneh].
    + left. right. rewrite (Hl Hr). rewrite Houts in Hi. exists i, n. split; [done|]. apply (pc_next p C).
      apply (pc_next p0 C0) in Hx as (e0 & He0' & Hs). exists e'. split; [done|]. assert (mapTx p0 !! h' = Some e') by (by eapply lookup_weaken). congruence.
    + rewrite lookup_delete_ne in Hh by done. destruct (Hc h i h' n) as [[->|Hq0]%elem_of_cons|?]; try done; [auto|congruence].
  - rewrite lookup_delete_None, elem_of_app. destruct Ho as [[<-|Hq0]%elem_of_cons|?]; auto.
Qed.

Lemma outputs_total_erase hash e p : mapTx p !! hash = Some e ->
  outputs_total p = (length (tx_vout (me_tx e)) + outputs_total (erase_entry hash e p))%nat.
Proof. intros He. unfold outputs_total. cbn [erase_entry mapTx]. rewrite (map_fold_delete_L _ _ hash e); [done|intros; lia|done]. Qed.

(** The fields that a removal leaves alone. *)
Record same_rest p p' : Prop := {
  sr_check : nCheckFrequency p' = nCheckFrequency p;
  sr_sequence : nRecentlyAddedSequence p' = nRecentlyAddedSequence p;
  sr_notified : nNotifiedSequence p' = nNotifiedSequence p;
  sr_evicted : recentlyEvicted p' = recentlyEvicted p
}.
#[global] Instance same_rest_preorder : PreOrder same_rest.
Proof. split; [by intros p|]. intros p1 p2 p3 [] []. split; congruence. Qed.

(** The removal of the transactions in [D], which [l] lists. *)
Record removal (D : uint256 -> Prop) p p' (l : list CTransaction) : Prop := {
  rm_core : pool_core p';
  rm_tx : forall h e, mapTx p' !! h = Some e <-> mapTx p !! h = Some e /\ ~ D h;
  rm_gone : forall h, is_Some (mapTx p !! h) -> mapTx p' !! h = None -> D h;
  rm_listed : forall tx, tx ∈ l <-> exists e, mapTx p !! tx_hash tx = Some e /\ me_tx e = tx /\ D (tx_hash tx);
  rm_nodup : NoDup l;
  rm_rest : same_rest p p'
}.

(** What the loop has taken out so far. *)
Record taken p0 p (l : list CTransaction) : Prop := {
  tk_listed : forall tx, tx ∈ l <-> exists e, mapTx p0 !! tx_hash tx = Some e /\ me_tx e = tx /\ mapTx p !! tx_hash tx = None;
  tk_nodup : NoDup l;
  tk_rest : same_rest p0 p;
  tk_tree : weightedTxTree p = weightedTxTree p0
}.

Lemma taken_erase p0 p l hash e : pool_core p -> mapTx p ⊆ mapTx p0 -> taken p0 p l -> mapTx p !! hash = Some e ->
  taken p0 (erase_entry hash e p) (l ++ [me_tx e]).
Proof.
  intros C Hsub [Hl Hn Hr Ht] He. pose proof (pc_key p C _ _ He) as Hk. assert (He0 : mapTx p0 !! hash = Some e) by (by eapply lookup_weaken).
  split.
  - intros tx. cbn [erase_entry mapTx]. rewrite elem_of_app, list_elem_of_singleton, Hl. setoid_rewrite lookup_delete_None. split.
    + intros [(e' & He' & <- & Hn')| ->]; [eauto 6|]. exists e. rewrite Hk. auto.
    + intros (e' & He' & <- & [Heq|Hn']); [|eauto 6]. right. rewrite <- Heq in He'. congruence.
  - apply NoDup_app. split; [done|]. split; [|apply NoDup_singleton]. intros tx Htx ->%list_elem_of_singleton.
    apply Hl in Htx as (e' & _ & _ & Hx). rewrite Hk in Hx. congruence.
  - etrans; [exact Hr|]. by split.
  - done.
Qed.

Lemma remove_loop_ok rec p0 orig removed : pool_core p0 -> forall fuel q p l,
  loop_inv rec p0 orig q p -> taken p0 p l -> (length q + outputs_total p <= fuel)%nat ->
  exists p' l', remove_loop fuel rec q p (removed ++ l) = Ok (p', removed ++ l') /\ loop_inv rec p0 orig [] p' /\ taken p0 p' l'.
Proof.
  intros C0 fuel. induction fuel as [|fuel IH]; intros [|hash q] p l J T Hf; cbn [remove_loop]; cbn [length] in Hf; try lia; [by eauto..|].
  destruct (mapTx p !! hash) as [e|] eqn:He.
  2:{ apply IH; [by eapply loop_inv_skip|done|lia]. }
  pose proof (outputs_total_erase _ _ _ He) as Ho.
  assert (Hq : exists l', (if rec then push_children hash (length (tx_vout (me_tx e))) p q else Ok q) = Ok (q ++ l') /\
      (length l' <= length (tx_vout (me_tx e)))%nat /\ (rec = false -> l' = []) /\
      (rec = true -> forall h', h' ∈ l' <-> exists i k, (i < length (tx_vout (me_tx e)))%nat /\ mapNextTx p !! mkCOutPoint hash (Z.of_nat i) = Some (h', k))).
  { destruct rec; [|exists []; rewrite app_nil_r; split_and!; [done|cbn; lia|done|done]].
    destruct (push_children_ok p hash (length (tx_vout (me_tx e))) q (li_core _ _ _ _ _ J)) as (l' & E & Hl & Hin). exists l'. done. }
  destruct Hq as (l' & -> & Hlen & Hl1 & Hl2). cbn [mbind result_bind]. rewrite <- app_assoc. apply IH.
  - by apply loop_inv_erase.
  - apply taken_erase; [apply J|apply J|done|done].
  - rewrite length_app. lia.
Qed.

(** When the queue is empty, everything doomed is gone. *)
Lemma loop_inv_done rec p0 orig p h : loop_inv rec p0 orig [] p -> doomed rec p0 orig h -> mapTx p !! h = None.
Proof.
  intros J Hd. induction Hd as [|h i h' n Hr Hd IH Hi Hx].
  - destruct (li_orig _ _ _ _ _ J) as [Hnil%not_elem_of_nil|?]; done.
  - destruct (li_children _ _ _ _ _ J h i h' n) as [Hnil%not_elem_of_nil|?]; done.
Qed.

(** ** The tree after a removal *)

Lemma tree_remove_all l : forall t, weights_wf t -> exists t', foldM (fun t tx => tree_remove (tx_hash tx) t) l t = Ok t' /\ weights_wf t'
  /\ wt_capacity t' = wt_capacity t /\ forall id, tree_weight t' id = if decide (id ∈ tx_hash <$> l) then None else tree_weight t id.
Proof.
  induction l as [|tx l IH]; intros t W; cbn [foldM]; [by exists t|]. destruct (tree_remove_ok (tx_hash tx) t W) as (t1 & -> & W1 & Hc1 & Hw1).
  cbn [mbind result_bind]. destruct (IH t1 W1) as (t2 & -> & W2 & Hc2 & Hw2). exists t2. split; [done|]. split; [done|]. split; [congruence|].
  intros id. rewrite Hw2, Hw1. repeat case_decide; set_solver.
Qed.

(** ** Removing a transaction and its descendants *)

Lemma set_limits_core ev t p : pool_core p -> pool_core (set_limits ev t p).
Proof. intros []. by split. Qed.

Lemma outs_absent p orig h i : mapTx p !! h = None -> (i < outs p orig h)%nat -> h = tx_hash orig.
Proof. unfold outs. intros ->. case_decide; [done|lia]. Qed.

Lemma loop_inv_start rec p orig : pool_core p -> exists l,
  (if rec && bool_decide (mapTx p !! tx_hash orig = None) then push_children (tx_hash orig) (length (tx_vout orig)) p [tx_hash orig]
   else Ok [tx_hash orig]) = Ok (tx_hash orig :: l) /\ loop_inv rec p orig (tx_hash orig :: l) p.
Proof.
  intros C. case_bool_decide as Hn; [|rewrite andb_false_r]; [rewrite andb_true_r; destruct rec|].
  - destruct (push_children_ok p (tx_hash orig) (length (tx_vout orig)) [tx_hash orig] C) as (l & -> & _ & Hl). exists l. split; [done|]. split; try done.
    + intros h [->|Hh]%elem_of_cons; [constructor|]. apply Hl in Hh as (i & k & Hi & Hx). eapply doomed_child; [done|constructor| |exact Hx].
      unfold outs. by rewrite Hn, decide_True.
    + intros h [e He] Hh. congruence.
    + intros h i h' n _ _ Hh Hi Hx. left. right. pose proof (outs_absent _ _ _ _ Hh Hi) as ->. apply Hl. exists i, n. split; [|done].
      unfold outs in Hi. by rewrite Hn, decide_True in Hi.
    + left. constructor.
  - exists []. split; [done|]. split; try done; [intros h ->%list_elem_of_singleton; constructor|intros h [e He]; congruence|left; constructor].
  - exists []. split; [done|]. split; try done; [intros h ->%list_elem_of_singleton; constructor|intros h [e He]; congruence| |left; constructor].
    intros h i h' n _ _ Hh Hi _. by pose proof (outs_absent _ _ _ _ Hh Hi) as ->.
Qed.

Lemma remove_ok rec orig removed p : pool_core p -> weights_wf (weightedTxTree p) -> exists p' l,
  remove orig removed rec p = Ok (p', removed ++ l) /\ removal (doomed rec p orig) p p' l
  /\ weights_wf (weightedTxTree p') /\ wt_capacity (weightedTxTree p') = wt_capacity (weightedTxTree p)
  /\ forall h, tree_weight (weightedTxTree p') h =
       if decide (h ∈ tx_hash <$> (removed ++ l)) then None else tree_weight (weightedTxTree p) h.
Proof.
  intros C W. unfold remove. destruct (loop_inv_start rec p orig C) as (q & -> & J). cbn [mbind result_bind].
  assert (T0 : taken p p []).
  { split; [|constructor|done|done]. intros tx. split; [by intros Hnil%not_elem_of_nil|]. intros (e & He & _ & Hn). congruence. }
  destruct (remove_loop_ok rec p orig removed C (length (tx_hash orig :: q) + outputs_total p) (tx_hash orig :: q) p [] J T0) as (p' & l & E & J' & [Hl Hn Hr Ht]); [done|].
  rewrite app_nil_r in E. rewrite E. cbn [mbind result_bind]. rewrite Ht.
  destruct (tree_remove_all (removed ++ l) (weightedTxTree p) W) as (t & -> & Wt & Hct & Hwt). cbn [mbind result_bind].
  exists (set_limits (recentlyEvicted p') t p'), l. split; [done|]. split; [|done]. split; cbn [set_limits mapTx].
  - apply set_limits_core, J'.
  - intros h e. split.
    + intros He. split; [eapply lookup_weaken; [exact He|apply J']|]. intros Hd. rewrite (loop_inv_done _ _ _ _ _ J' Hd) in He. done.
    + intros [He Hd]. destruct (mapTx p' !! h) as [e'|] eqn:He'; [|by destruct Hd; apply (li_gone _ _ _ _ _ J')].
      assert (mapTx p !! h = Some e') by (eapply lookup_weaken; [exact He'|apply J']). congruence.
  - apply J'.
  - intros tx. rewrite Hl. split; intros (e & He & Htx & Hx); exists e; (split; [done|split; [done|]]).
    + apply (li_gone _ _ _ _ _ J'); [by eexists|done].
    + by eapply loop_inv_done.
  - done.
  - by destruct Hr.
Qed.

(** A transaction of the pool and one that spends an output of it. *)
Definition child p (h h' : uint256) : Prop :=
  exists e i n, mapTx p !! h = Some e /\ (i < length (tx_vout (me_tx e)))%nat /\ mapNextTx p !! mkCOutPoint h (Z.of_nat i) = Some (h', n).

Lemma doomed_descendants p h e h' : pool_core p -> mapTx p !! h = Some e -> doomed true p (me_tx e) h' <-> rtc (child p) h h'.
Proof.
  intros C He. pose proof (pc_key p C _ _ He) as Hk. split.
  - induction 1 as [|h1 i h2 n _ Hd IH Hi Hx]; [by rewrite Hk|]. eapply rtc_r; [exact IH|]. destruct (mapTx p !! h1) as [e1|] eqn:E1.
    + exists e1, i, n. unfold outs in Hi. by rewrite E1 in Hi.
    + pose proof (outs_absent _ _ _ _ E1 Hi) as ->. rewrite Hk in E1. congruence.
  - revert h'. apply rtc_ind_r; [rewrite <- Hk; constructor|]. intros h1 h2 _ (e1 & i & n & E1 & Hi & Hx) IH.
    eapply doomed_child; [done|exact IH| |exact Hx]. unfold outs. by rewrite E1.
Qed.

(** [p'] is [p] without some transactions, each of which had a reason to go. *)
Record trims (R : uint256 -> Prop) p p' : Prop := {
  tr_wf : pool_wf p';
  tr_sub : mapTx p' ⊆ mapTx p;
  tr_reason : forall h, is_Some (mapTx p !! h) -> mapTx p' !! h = None -> R h;
  tr_rest : same_rest p p';
  tr_capacity : wt_capacity (weightedTxTree p') = wt_capacity (weightedTxTree p)
}.

Lemma trims_refl R p : pool_wf p -> trims R p p.
Proof. intros W. split; try done. intros h [e He] Hn. congruence. Qed.

Lemma trims_weaken (R R' : uint256 -> Prop) p p' : (forall h, R h -> R' h) -> trims R p p' -> trims R' p p'.
Proof. intros HR []. split; try done. auto. Qed.

Lemma trims_trans R p1 p2 p3 : trims R p1 p2 -> trims R p2 p3 -> trims R p1 p3.
Proof.
  intros [W1 S1 R1 Q1 C1] [W2 S2 R2 Q2 C2]. split; [done|by etrans| |by etrans|congruence].
  intros h Hs Hn. destruct (mapTx p2 !! h) eqn:E; [apply R2; [by eexists|done]|by apply R1].
Qed.

Lemma trims_absent R p p' h : trims R p p' -> mapTx p !! h = None -> mapTx p' !! h = None.
Proof. intros T Hn. destruct (mapTx p' !! h) as [e|] eqn:E; [|done]. rewrite (lookup_weaken _ _ _ _ E (tr_sub _ _ _ T)) in Hn. done. Qed.

Definition absent p (l : list CTransaction) : Prop := Forall (fun tx => mapTx p !! tx_hash tx = None) l.
Lemma trims_absent_all R p p' l : trims R p p' -> absent p l -> absent p' l.
Proof. intros T Ha. eapply Forall_impl; [exact Ha|]. intros tx. by apply (trims_absent R). Qed.

(** [remove] on a well-formed pool, from whose tree the transaction itself may
    already be missing; [removed] may list transactions that have left. *)
Lemma remove_near rec orig removed p : pool_core p -> weights_wf (weightedTxTree p) ->
  (forall h, tree_weight (weightedTxTree p) h = entry_weight <$> mapTx p !! h \/ (h = tx_hash orig /\ tree_weight (weightedTxTree p) h = None)) ->
  absent p removed -> exists p' l,
  remove orig removed rec p = Ok (p', removed ++ l) /\ removal (doomed rec p orig) p p' l /\ trims (doomed rec p orig) p p' /\ absent p' (removed ++ l).
Proof.
  intros C Wt Hw Ha. destruct (remove_ok rec orig removed p C Wt) as (p' & l & E & M & Wt' & Hc & Ht). exists p', l. split; [done|].
  assert (Hsub : mapTx p' ⊆ mapTx p).
  { apply map_subseteq_spec. intros h e He. by apply (rm_tx _ _ _ _ M) in He as [? _]. }
  assert (Hgone : absent p' (removed ++ l)).
  { apply Forall_app. split.
    - eapply Forall_impl; [exact Ha|]. intros tx Hn. cbn beta in Hn |- *. destruct (mapTx p' !! tx_hash tx) as [e|] eqn:E'; [|done]. by rewrite (lookup_weaken _ _ _ _ E' Hsub) in Hn.
    - apply Forall_forall. intros tx Htx. apply (rm_listed _ _ _ _ M) in Htx as (e & _ & _ & Hd). destruct (mapTx p' !! tx_hash tx) as [e'|] eqn:E'; [|done].
      by apply (rm_tx _ _ _ _ M) in E' as [_ []]. }
  split; [done|]. split; [|done]. split; [|done|apply M|apply M|done]. split; [apply M|done|].
  intros h. rewrite Ht. case_decide as Hin.
  - apply list_elem_of_fmap in Hin as (tx & -> & Htx). unfold absent in Hgone. rewrite Forall_forall in Hgone. by rewrite (Hgone tx Htx).
  - destruct (mapTx p' !! h) as [e|] eqn:E'.
    + destruct (Hw h) as [-> | [-> _]]; [by rewrite (lookup_weaken _ _ _ _ E' Hsub)|]. apply (rm_tx _ _ _ _ M) in E' as [_ []]. constructor.
    + destruct (Hw h) as [-> | [_ ->]]; [|done]. destruct (mapTx p !! h) as [e|] eqn:E0; [|done]. destruct Hin.
      pose proof (pc_key p C _ _ E0) as Hk. rewrite <- Hk. apply list_elem_of_fmap_2, elem_of_app. right.
      apply (rm_listed _ _ _ _ M). exists e. rewrite Hk. split; [done|]. split; [done|]. apply (rm_gone _ _ _ _ M); [by eexists|done].
Qed.

Lemma remove_wf rec orig removed p : pool_wf p -> absent p removed -> exists p' l,
  remove orig removed rec p = Ok (p', removed ++ l) /\ removal (doomed rec p orig) p p' l /\ trims (doomed rec p orig) p p' /\ absent p' (removed ++ l).
Proof. intros [C Wt Hw] Ha. apply remove_near; [done..| |done]. intros h. left. apply Hw. Qed.
End Laws.
