(* ===== verification/PoolRemovals.v ===== *)
(** * Removals from the memory pool

    What the composite removals keep: the selections ([removeExpired],
    [removeWithoutBranchId], [removeWithAnchor]), the conflicts with a
    transaction ([removeConflicts]) or with a block ([removeForBlock]), and
    the evictions above the cost limit ([EnsureSizeLimit]). *)
From stdpp Require Import prelude gmap strings list sorting relations.
From S2P Require Import Prelude Transaction Script Serialize TxSerialize Double Coins CoinsView CoinsCache UpdateCoins ConnectBlock Checks CheckTx MempoolLimit TxMemPool PoolLaws.
#[local] Open Scope Z_scope.

Section Removals.
Context `{PoolEnv}.
Implicit Types (p : CTxMemPool) (tx : CTransaction) (e : CTxMemPoolEntry).

(** ** Descendants in a smaller pool *)

Lemma child_mono p0 p h h' : pool_core p0 -> pool_core p -> mapTx p ⊆ mapTx p0 -> child p h h' -> child p0 h h'.
Proof.
  intros C0 C Hsub (e & i & n & He & Hi & Hx). exists e, i, n. split; [by eapply lookup_weaken|]. split; [done|]. by eapply next_subset.
Qed.
Lemma descendants_mono p0 p h h' : pool_core p0 -> pool_core p -> mapTx p ⊆ mapTx p0 -> rtc (child p) h h' -> rtc (child p0) h h'.
Proof. intros C0 C Hsub. apply rtc_subrel. intros ??. by apply child_mono. Qed.

Lemma child_in_pool p h h' : pool_core p -> child p h h' -> is_Some (mapTx p !! h').
Proof. intros C (e & i & n & _ & _ & Hx). apply (pc_next p C) in Hx as (e' & He' & _). by exists e'. Qed.

(** A transaction of the pool [p0]. *)
Definition from_pool p0 tx : Prop := exists e, mapTx p0 !! tx_hash tx = Some e /\ me_tx e = tx.

Lemma doomed_in_larger p0 p tx h : pool_core p0 -> pool_core p -> mapTx p ⊆ mapTx p0 -> from_pool p0 tx ->
  doomed true p tx h -> rtc (child p0) (tx_hash tx) h.
Proof.
  intros C0 C Hsub (e & He & Htx) Hd. induction Hd as [|h i h' n _ Hd IH Hi Hx]; [done|]. eapply rtc_r; [exact IH|].
  destruct (mapTx p !! h) as [e1|] eqn:E1.
  - exists e1, i, n. split; [by eapply lookup_weaken|]. unfold outs in Hi. rewrite E1 in Hi. split; [done|]. by eapply next_subset.
  - pose proof (outs_absent _ _ _ _ E1 Hi) as ->. exists e, i, n. split; [done|]. unfold outs in Hi. rewrite E1, decide_True in Hi by done.
    subst tx. split; [done|]. by eapply next_subset.
Qed.

(** ** Removing a list of transactions of the pool *)

Definition descends p0 (l : list CTransaction) (h : uint256) : Prop := exists tx, tx ∈ l /\ rtc (child p0) (tx_hash tx) h.

(** [p] is [p0] without the descendants of [l]. *)
Definition without p0 (l : list CTransaction) p : Prop :=
  trims (descends p0 l) p0 p /\ forall h e, mapTx p !! h = Some e -> ~ descends p0 l h.

Lemma without_doomed p0 l p tx h : pool_core p0 -> without p0 l p -> from_pool p0 tx ->
  rtc (child p0) (tx_hash tx) h -> is_Some (mapTx p !! h) -> doomed true p tx h.
Proof.
  intros C0 [T Hno] (e0 & He0 & Htx) Hr. revert h Hr. apply (rtc_ind_r (fun h => is_Some (mapTx p !! h) -> doomed true p tx h)); [constructor|].
  intros h1 h2 _ (e1 & i & n & E1 & Hi & Hx) IH [e2 E2].
  assert (C : pool_core p) by apply T. assert (Hsub := tr_sub _ _ _ T).
  destruct (mapTx p !! h1) as [e1'|] eqn:E1'.
  - assert (e1' = e1) as -> by (rewrite (lookup_weaken _ _ _ _ E1' Hsub) in E1; congruence).
    eapply doomed_child; [done|apply IH; by eexists|unfold outs; by rewrite E1'|].
    apply (pc_next p C). apply (pc_next p0 C0) in Hx as (e2' & E2' & Hs). exists e2. split; [done|].
    rewrite (lookup_weaken _ _ _ _ E2 Hsub) in E2'. by simplify_eq.
  - destruct (Hno h2 e2 E2). destruct (tr_reason _ _ _ T h1) as (tx' & Htx' & Hr'); [by eexists|done|].
    exists tx'. split; [done|]. eapply rtc_r; [exact Hr'|]. by exists e1, i, n.
Qed.

Lemma remove_step_without p0 l p tx : pool_wf p0 -> without p0 l p -> from_pool p0 tx ->
  exists p', remove_step p tx = Ok p' /\ without p0 (l ++ [tx]) p'.
Proof.
  intros W0 Wi Hf. pose proof Wi as [T Hno]. unfold remove_step.
  destruct (remove_wf true tx [] p (tr_wf _ _ _ T) ltac:(constructor)) as (p' & l' & -> & M & T' & _). cbn [mbind result_bind fst].
  exists p'. split; [done|]. assert (C0 : pool_core p0) by apply W0. assert (C : pool_core p) by apply T. split.
  - eapply trims_trans; [eapply trims_weaken; [|exact T]|eapply trims_weaken; [|exact T']].
    + intros h (tx' & Hin & Hr). exists tx'. split; [|done]. apply elem_of_app. by left.
    + intros h Hd. exists tx. split; [apply elem_of_app; right; constructor|]. exact (doomed_in_larger p0 p tx h C0 C (tr_sub _ _ _ T) Hf Hd).
  - intros h e He (tx' & Hin & Hr). apply (rm_tx _ _ _ _ M) in He as [He Hd]. apply elem_of_app in Hin as [Hin| ->%list_elem_of_singleton].
    + destruct (Hno h e He). by exists tx'.
    + destruct Hd. apply (without_doomed p0 l p tx h C0 Wi Hf Hr). by exists e.
Qed.

Lemma remove_each_without p0 l : pool_wf p0 -> forall l0 p, without p0 l0 p -> Forall (from_pool p0) l ->
  exists p', remove_each l p = Ok p' /\ without p0 (l0 ++ l) p'.
Proof.
  intros W0. induction l as [|tx l IH]; intros l0 p Wi Hf; [exists p; by rewrite app_nil_r|].
  apply Forall_cons in Hf as [Hx Hf]. unfold remove_each. cbn [foldM]. destruct (remove_step_without p0 l0 p tx W0 Wi Hx) as (p1 & -> & Wi1). cbn [mbind result_bind].
  rewrite (cons_middle tx l0 l), app_assoc. by apply IH.
Qed.

Lemma without_nil p0 : pool_wf p0 -> without p0 [] p0.
Proof. intros W. split; [by apply trims_refl|]. intros h e _ (tx & Hnil%not_elem_of_nil & _). done. Qed.

(** ** Selections *)

Context `{!PoolEnvLaws}.

Lemma elem_of_walk m e : e ∈ walk m <-> exists h, m !! h = Some e.
Proof.
  rewrite walk_all, list_elem_of_fmap. setoid_rewrite <- elem_of_map_to_list. split.
  - intros ([h e'] & -> & Hx). by exists h.
  - intros [h Hx]. by exists (h, e).
Qed.

Lemma elem_of_select cond p tx : tx ∈ select cond p <-> exists h e, mapTx p !! h = Some e /\ cond e = true /\ me_tx e = tx.
Proof.
  unfold select. rewrite list_elem_of_fmap. setoid_rewrite list_elem_of_filter. setoid_rewrite elem_of_walk. naive_solver.
Qed.

(** The condition holds of the transaction or of one it descends from. *)
Definition tainted (cond : CTxMemPoolEntry -> bool) p (h : uint256) : Prop :=
  exists h0 e0, mapTx p !! h0 = Some e0 /\ cond e0 = true /\ rtc (child p) h0 h.

Lemma remove_selected cond p : pool_wf p -> exists p', remove_each (select cond p) p = Ok p' /\ trims (tainted cond p) p p'
  /\ forall h e, mapTx p' !! h = Some e <-> mapTx p !! h = Some e /\ ~ tainted cond p h.
Proof.
  intros W. assert (C : pool_core p) by apply W.
  assert (Hf : Forall (from_pool p) (select cond p)).
  { apply Forall_forall. intros tx (h & e & He & _ & <-)%elem_of_select. exists e. by rewrite (pc_key p C _ _ He). }
  assert (Hd : forall h, descends p (select cond p) h <-> tainted cond p h).
  { intros h. split.
    - intros (tx & (h0 & e0 & He & Hc & <-)%elem_of_select & Hr). exists h0, e0. by rewrite (pc_key p C _ _ He) in Hr.
    - intros (h0 & e0 & He & Hc & Hr). exists (me_tx e0). split; [apply elem_of_select; by exists h0, e0|]. by rewrite (pc_key p C _ _ He). }
  destruct (remove_each_without p (select cond p) W [] p (without_nil p W) Hf) as (p' & E & T & Hno). cbn [app] in T, Hno.
  exists p'. split; [done|]. assert (T' : trims (tainted cond p) p p') by (eapply trims_weaken; [|exact T]; intros h; apply Hd). split; [done|].
  intros h e. split.
  - intros He. split; [eapply lookup_weaken; [exact He|apply T]|]. rewrite <- Hd. by eapply Hno.
  - intros [He Hn]. destruct (mapTx p' !! h) as [e'|] eqn:E'.
    + rewrite (lookup_weaken _ _ _ _ E' (tr_sub _ _ _ T)) in He. congruence.
    + destruct Hn. apply (tr_reason _ _ _ T'); [by eexists|done].
Qed.

(** ** Conflicts with a transaction *)

(** [R] for the conflicts: descending from a transaction, other than [tx],
    that [holds] one of the items [l]. *)
Definition descends_holder {B} (holds : B -> CTxMemPoolEntry -> Prop) (l : list B) p tx (h : uint256) : Prop :=
  exists b h0 e0, b ∈ l /\ mapTx p !! h0 = Some e0 /\ holds b e0 /\ h0 <> tx_hash tx /\ rtc (child p) h0 h.

Lemma descends_holder_mono {B} (holds : B -> CTxMemPoolEntry -> Prop) l l' p0 p tx h : pool_core p0 -> pool_core p -> mapTx p ⊆ mapTx p0 -> l ⊆ l' ->
  descends_holder holds l p tx h -> descends_holder holds l' p0 tx h.
Proof.
  intros C0 C Hsub Hl (b & h0 & e0 & Hb & He & Hh & Hne & Hr). exists b, h0, e0. split; [by apply Hl|]. split; [by eapply lookup_weaken|]. split; [done|]. split; [done|].
  by eapply descendants_mono.
Qed.

Section ConflictLoop.
Context {B : Type} (holds : B -> CTxMemPoolEntry -> Prop) (found : B -> CTxMemPool -> option uint256) (tx : CTransaction).
Hypothesis found_ok : forall p b h, pool_core p -> found b p = Some h <-> exists e, mapTx p !! h = Some e /\ holds b e.

Lemma remove_conflict_ok b p removed : pool_wf p -> absent p removed -> exists p' l,
  remove_conflict tx (found b) (p, removed) = Ok (p', removed ++ l) /\ trims (descends_holder holds [b] p tx) p p' /\ absent p' (removed ++ l)
  /\ forall h e, mapTx p' !! h = Some e -> holds b e -> h = tx_hash tx.
Proof.
  intros W Ha. assert (C : pool_core p) by apply W. unfold remove_conflict. cbn [fst snd].
  destruct (found b p) as [ptx|] eqn:Ef.
  2:{ exists p, []. rewrite app_nil_r. split; [done|]. split; [by apply trims_refl|]. split; [done|].
      intros h e He Hh. assert (Hs : found b p = Some h) by (apply found_ok; [done|by exists e]). congruence. }
  pose proof (proj1 (found_ok p b ptx C) Ef) as (e0 & He0 & Hh0). rewrite (deref_tx_ok _ _ _ He0). cbn [mbind result_bind]. rewrite (pc_key p C _ _ He0).
  assert (Honly : forall h e, mapTx p !! h = Some e -> holds b e -> h = ptx).
  { intros h e He Hh. assert (Hs : found b p = Some h) by (apply found_ok; [done|by exists e]). congruence. }
  destruct (Z.eqb_spec ptx (tx_hash tx)) as [Heq|Hne].
  { exists p, []. rewrite app_nil_r. split; [done|]. split; [by apply trims_refl|]. split; [done|]. intros h e He Hh. by rewrite (Honly h e He Hh). }
  destruct (remove_wf true (me_tx e0) removed p W Ha) as (p' & l & -> & M & T & Ha'). exists p', l. split; [done|]. split; [|split; [done|]].
  - eapply trims_weaken; [|exact T]. intros h Hd. exists b, ptx, e0. split; [constructor|]. split; [done|]. split; [done|]. split; [done|].
    by apply (doomed_descendants p ptx e0 h C He0).
  - intros h e He Hh. apply (rm_tx _ _ _ _ M) in He as [He Hd]. destruct Hd. rewrite (Honly h e He Hh), <- (pc_key p C _ _ He0). constructor.
Qed.

Lemma conflict_loop_ok l : forall p removed, pool_wf p -> absent p removed -> exists p' l',
  foldM (fun s b => remove_conflict tx (found b) s) l (p, removed) = Ok (p', removed ++ l')
  /\ trims (descends_holder holds l p tx) p p' /\ absent p' (removed ++ l')
  /\ forall b h e, b ∈ l -> mapTx p' !! h = Some e -> holds b e -> h = tx_hash tx.
Proof.
  induction l as [|b l IH]; intros p removed W Ha; cbn [foldM].
  { exists p, []. rewrite app_nil_r. split; [done|]. split; [by apply trims_refl|]. split; [done|]. by intros b h e Hnil%not_elem_of_nil. }
  destruct (remove_conflict_ok b p removed W Ha) as (p1 & l1 & -> & T1 & Ha1 & Hb). cbn [mbind result_bind].
  destruct (IH p1 (removed ++ l1) (tr_wf _ _ _ T1) Ha1) as (p2 & l2 & -> & T2 & Ha2 & Hl). exists p2, (l1 ++ l2). rewrite app_assoc. split; [done|].
  assert (C : pool_core p) by apply W. assert (C1 : pool_core p1) by apply T1. split; [|split; [done|]].
  - eapply trims_trans; [eapply trims_weaken; [|exact T1]|eapply trims_weaken; [|exact T2]]; intros h; apply descends_holder_mono; try done; try apply T1; set_solver.
  - intros b' h e [->|Hb']%elem_of_cons He Hh; [|by eapply Hl]. eapply Hb; [|done]. eapply lookup_weaken; [exact He|apply T2].
Qed.
End ConflictLoop.

Definition conflicts tx e : Prop :=
  (exists i, i ∈ vin tx /\ prevout i ∈ prevout <$> vin (me_tx e))
  \/ (exists nf, nf ∈ sprout_nullifiers tx /\ nf ∈ sprout_nullifiers (me_tx e))
  \/ (exists nf, nf ∈ sapling_nullifiers tx /\ nf ∈ sapling_nullifiers (me_tx e)).

(** Descending from a transaction, other than [tx], that conflicts with it. *)
Definition descends_conflict p tx (h : uint256) : Prop :=
  exists h0 e0, mapTx p !! h0 = Some e0 /\ conflicts tx e0 /\ h0 <> tx_hash tx /\ rtc (child p) h0 h.

Lemma descends_conflict_mono p0 p tx h : pool_core p0 -> pool_core p -> mapTx p ⊆ mapTx p0 -> descends_conflict p tx h -> descends_conflict p0 tx h.
Proof.
  intros C0 C Hsub (h0 & e0 & He & Hc & Hne & Hr). exists h0, e0. split; [by eapply lookup_weaken|]. split; [done|]. split; [done|]. by eapply descendants_mono.
Qed.

Lemma next_found p i h : pool_core p ->
  ((mapNextTx p !! prevout i) ≫= fun x : uint256 * Z => Some x.1) = Some h <-> exists e, mapTx p !! h = Some e /\ prevout i ∈ prevout <$> vin (me_tx e).
Proof.
  intros C. rewrite bind_Some. split.
  - intros ([h' n] & Hx & [= <-]). apply (pc_next p C) in Hx as (e & He & _ & Hs). exists e. split; [done|]. rewrite <- list_lookup_fmap in Hs. by eapply list_elem_of_lookup_2.
  - intros (e & He & Hi). apply list_elem_of_lookup in Hi as [k Hk]. rewrite list_lookup_fmap in Hk. exists (h, Z.of_nat k). split; [|done].
    apply (pc_next p C). exists e. split; [done|]. split; [lia|by rewrite Nat2Z.id].
Qed.

Lemma removeConflicts_ok tx removed p : pool_wf p -> absent p removed -> exists p' l,
  removeConflicts tx removed p = Ok (p', removed ++ l) /\ trims (descends_conflict p tx) p p' /\ absent p' (removed ++ l)
  /\ forall h e, mapTx p' !! h = Some e -> conflicts tx e -> h = tx_hash tx.
Proof.
  intros W Ha. unfold removeConflicts.
  destruct (conflict_loop_ok (fun i e => prevout i ∈ prevout <$> vin (me_tx e)) (fun i p => (mapNextTx p !! prevout i) ≫= fun x => Some x.1) tx
    (fun p i h C => next_found p i h C) (vin tx) p removed W Ha) as (p1 & l1 & E1 & T1 & Ha1 & H1). rewrite E1. cbn [mbind result_bind].
  destruct (conflict_loop_ok (fun nf e => nf ∈ sprout_nullifiers (me_tx e)) (fun nf p => mapSproutNullifiers p !! nf) tx
    (fun p nf h C => pc_sprout p C nf h) (sprout_nullifiers tx) p1 (removed ++ l1) (tr_wf _ _ _ T1) Ha1) as (p2 & l2 & E2 & T2 & Ha2 & H2). rewrite E2. cbn [mbind result_bind].
  destruct (conflict_loop_ok (fun nf e => nf ∈ sapling_nullifiers (me_tx e)) (fun nf p => mapSaplingNullifiers p !! nf) tx
    (fun p nf h C => pc_sapling p C nf h) (sapling_nullifiers tx) p2 ((removed ++ l1) ++ l2) (tr_wf _ _ _ T2) Ha2) as (p3 & l3 & E3 & T3 & Ha3 & H3). rewrite E3.
  assert (C : pool_core p) by apply W. assert (C1 : pool_core p1) by apply T1. assert (C2 : pool_core p2) by apply T2.
  assert (S12 : mapTx p2 ⊆ mapTx p) by (etrans; [apply T2|apply T1]).
  exists p3, (l1 ++ l2 ++ l3). rewrite !app_assoc. split; [done|]. split; [|split; [done|]].
  - apply (trims_trans _ p p2); [apply (trims_trans _ p p1)|]; (eapply trims_weaken; [|eassumption]); intros h (b & h0 & e0 & Hb & He & Hh & Hne & Hr).
    + exists h0, e0. split; [done|]. split; [left; by exists b|done].
    + apply (descends_conflict_mono p p1); [done..|apply T1|]. exists h0, e0. split; [done|]. split; [right; left; by exists b|done].
    + apply (descends_conflict_mono p p2); [done..|]. exists h0, e0. split; [done|]. split; [right; right; by exists b|done].
  - intros h e He [(i & Hi & Hh)|[(nf & Hi & Hh)|(nf & Hi & Hh)]]; [eapply H1|eapply H2|eapply H3]; try done.
    + eapply lookup_weaken; [exact He|]. etrans; [apply T3|apply T2].
    + eapply lookup_weaken; [exact He|apply T3].
Qed.

(** ** Conflicts with a block *)

Lemma doomed_alone p tx h : doomed false p tx h -> h = tx_hash tx.
Proof. by induction 1. Qed.

Lemma set_deltas_trims R m p p' : trims R p p' -> trims R p (set_deltas m p').
Proof. intros [[[] ? ?] ? ? [] ?]. split; [split; [by split|done|done]|done|done|by split|done]. Qed.
Lemma set_estimator_trims R est p p' : trims R p p' -> trims R p (set_estimator est p').
Proof. intros [[[] ? ?] ? ? [] ?]. split; [split; [by split|done|done]|done|done|by split|done]. Qed.

Lemma remove_block_tx_ok tx removed p : pool_wf p -> absent p removed -> exists p' l,
  remove_block_tx (p, removed) tx = Ok (p', removed ++ l)
  /\ trims (fun h => h = tx_hash tx \/ descends_conflict p tx h) p p' /\ absent p' (removed ++ l)
  /\ (forall h e, mapTx p' !! h = Some e -> h <> tx_hash tx /\ ~ conflicts tx e) /\ mapDeltas p' !! tx_hash tx = None.
Proof.
  intros W Ha. unfold remove_block_tx. cbn [fst snd].
  destruct (remove_wf false tx [] p W ltac:(constructor)) as (p1 & l1 & -> & M & T1 & _). cbn [mbind result_bind fst snd].
  destruct (removeConflicts_ok tx removed p1 (tr_wf _ _ _ T1) (trims_absent_all _ _ _ _ T1 Ha)) as (p2 & l2 & -> & T2 & Ha2 & H2). cbn [mbind result_bind fst snd].
  assert (Hself : mapTx p1 !! tx_hash tx = None).
  { destruct (mapTx p1 !! tx_hash tx) as [e|] eqn:E; [|done]. apply (rm_tx _ _ _ _ M) in E as [_ []]. constructor. }
  exists (ClearPrioritisation (tx_hash tx) p2), l2. split; [done|]. split; [|split; [done|split]].
  - apply set_deltas_trims. eapply trims_trans; [eapply trims_weaken; [|exact T1]|eapply trims_weaken; [|exact T2]].
    + intros h Hd. left. by eapply doomed_alone.
    + intros h Hd. right. eapply descends_conflict_mono; [..|exact Hd]; [apply W|apply T1|apply T1].
  - cbn [ClearPrioritisation set_deltas mapTx]. intros h e He.
    assert (Hne : h <> tx_hash tx) by (intros ->; by rewrite (trims_absent _ _ _ _ T2 Hself) in He). split; [done|]. intros Hc. by apply Hne, (H2 h e).
  - cbn. apply lookup_delete_eq.
Qed.

(** Why a transaction leaves the pool when the block [vtx] is connected. *)
Definition block_reason p (vtx : list CTransaction) (h : uint256) : Prop :=
  h ∈ tx_hash <$> vtx \/ exists tx, tx ∈ vtx /\ descends_conflict p tx h.

Lemma block_loop_ok vtx : forall p removed, pool_wf p -> absent p removed -> exists p' l,
  foldM remove_block_tx vtx (p, removed) = Ok (p', removed ++ l) /\ trims (block_reason p vtx) p p' /\ absent p' (removed ++ l)
  /\ forall tx h e, tx ∈ vtx -> mapTx p' !! h = Some e -> h <> tx_hash tx /\ ~ conflicts tx e.
Proof.
  induction vtx as [|tx vtx IH]; intros p removed W Ha; cbn [foldM].
  { exists p, []. rewrite app_nil_r. split; [done|]. split; [by apply trims_refl|]. split; [done|]. by intros tx h e Hnil%not_elem_of_nil. }
  destruct (remove_block_tx_ok tx removed p W Ha) as (p1 & l1 & -> & T1 & Ha1 & H1 & _). cbn [mbind result_bind].
  destruct (IH p1 (removed ++ l1) (tr_wf _ _ _ T1) Ha1) as (p2 & l2 & -> & T2 & Ha2 & H2). exists p2, (l1 ++ l2). rewrite app_assoc. split; [done|].
  split; [|split; [done|]].
  - eapply trims_trans; [eapply trims_weaken; [|exact T1]|eapply trims_weaken; [|exact T2]].
    + intros h [->|Hc]; [left; constructor|]. right. exists tx. split; [constructor|done].
    + intros h [Hin|(tx' & Hin & Hc)]; [left; by right|]. right. exists tx'. split; [by right|].
      eapply descends_conflict_mono; [..|exact Hc]; [apply W|apply T1|apply T1].
  - intros tx' h e [->|Hin]%elem_of_cons He; [|by eapply H2]. apply H1. eapply lookup_weaken; [exact He|apply T2].
Qed.

Lemma removeForBlock_ok vtx nBlockHeight fCurrentEstimate p : pool_wf p -> exists p' l,
  removeForBlock vtx nBlockHeight [] fCurrentEstimate p = Ok (p', l) /\ trims (block_reason p vtx) p p' /\ absent p' l
  /\ forall tx h e, tx ∈ vtx -> mapTx p' !! h = Some e -> h <> tx_hash tx /\ ~ conflicts tx e.
Proof.
  intros W. unfold removeForBlock. destruct (block_loop_ok vtx p [] W ltac:(constructor)) as (p' & l & -> & T & Ha & H').
  cbn [mbind result_bind fst snd app]. eexists _, l. split; [done|]. split; [by apply set_estimator_trims|]. done.
Qed.

(** ** Evictions *)

(** A tree whose weights are among those of another. *)
Lemma weights_sub t t' : weights_wf t -> weights_wf t' -> (forall id w, tree_weight t' id = Some w -> tree_weight t id = Some w) ->
  weights_small t -> weights_small t' /\ (wt_size t' <= wt_size t)%nat.
Proof.
  intros W W' Hsub [Hf Hb].
  assert (Hs : txIdAndWeights t' ⊆+ txIdAndWeights t).
  { apply NoDup_submseteq; [by apply infos_NoDup|]. intros [id w] Hx. apply tree_weight_Some in Hx; [|done]. apply tree_weight_Some; [done|]. by apply Hsub. }
  pose proof (submseteq_length _ _ Hs) as Hl. rewrite (ww_infos t W), (ww_infos t' W') in Hl. split; [|done].
  apply submseteq_Permutation in Hs as [k Hk]. rewrite Hk in Hf. apply Forall_app in Hf as [Hf Hfk]. split; [done|].
  unfold total_w in *. assert (Hperm : forall l1 l2 : list Z, l1 ≡ₚ l2 -> sumZ l1 = sumZ l2) by (induction 1; rewrite ?sumZ_cons in *; try lia; done).
  rewrite (Hperm _ _ (fmap_Permutation (fun x => evictionWeight (wi_txWeight x)) _ _ Hk)), fmap_app, sumZ_app in Hb.
  assert (0 <= sumZ ((fun x => evictionWeight (wi_txWeight x)) <$> k)); [|lia].
  clear -Hfk. induction Hfk as [|x k Hx _ IH]; cbn [fmap list_fmap]; [done|]. rewrite sumZ_cons. cbn. lia.
Qed.

Lemma evicted_add_total now id (v : RecentlyEvictedList) : 0 < ev_capacity v -> exists v1, evicted_add now id v = Ok v1 /\ ev_capacity v1 = ev_capacity v /\ id ∈ txIdSet v1.
Proof.
  intros Hcap. unfold evicted_add. assert (Hc : ev_capacity (pruneList now v) = ev_capacity v).
  { unfold pruneList. case_bool_decide; [done|]. by destruct (prune_entries _ _ _ _). }
  rewrite Hc. destruct (Z.eqb_spec (Z.of_nat (length (txIdsAndTimes (pruneList now v)))) (ev_capacity v)) as [Heq|Hne].
  - destruct (txIdsAndTimes (pruneList now v)) as [|[t time] l]; [cbn in Heq; lia|]. eexists. split; [done|]. cbn. set_solver.
  - eexists. split; [done|]. cbn. set_solver.
Qed.

Definition rand_ok (rand : Z -> Z) : Prop := forall m, 0 < m -> 0 <= rand m < m.

(** What eviction needs of the pool besides its invariant. *)
Record evictable p : Prop := {
  ev_wf : pool_wf p;
  ev_small : weights_small (weightedTxTree p);
  ev_limit : 0 <= wt_capacity (weightedTxTree p);
  ev_memory : 0 < ev_capacity (recentlyEvicted p)
}.

(** The penalty for a low fee is four times the least cost. *)
Lemma entry_weight_cost e : MIN_TX_COST <= cost (entry_weight e)
  /\ (5 * cost (entry_weight e) < 2 ^ 63 -> cost (entry_weight e) <= evictionWeight (entry_weight e) <= 5 * cost (entry_weight e)).
Proof.
  unfold entry_weight, WeightedTxInfo_from. cbn [wi_txWeight cost evictionWeight]. change (i64 MIN_TX_COST) with 4000. unfold MIN_TX_COST, LOW_FEE_PENALTY.
  set (c := Z.max _ 4000). assert (4000 <= c) by lia. split; [done|]. intros Hc. destruct (_ <? _); [|lia]. rewrite i64_small by (unfold is_i64; lia). lia.
Qed.

Lemma costs_bound l : Forall (fun x => exists e, wi_txWeight x = entry_weight e) l ->
  5 * sumZ ((fun x => cost (wi_txWeight x)) <$> l) < 2 ^ 31 ->
  0 <= sumZ ((fun x => cost (wi_txWeight x)) <$> l)
  /\ Forall (fun x => 0 <= cost (wi_txWeight x) <= evictionWeight (wi_txWeight x)) l
  /\ sumZ ((fun x => evictionWeight (wi_txWeight x)) <$> l) <= 5 * sumZ ((fun x => cost (wi_txWeight x)) <$> l).
Proof.
  induction 1 as [|x l [e He] _ IH]; [done|]. rewrite !fmap_cons, !sumZ_cons. intros Hb. destruct (entry_weight_cost e) as [Hm Hc]. unfold MIN_TX_COST in Hm.
  rewrite <- He in *. destruct IH as (Hpos & Hf & Hs); [lia|]. split; [lia|]. split; [constructor; [lia|done]|lia].
Qed.
Lemma evictable_costs p : pool_wf p -> 0 <= wt_capacity (weightedTxTree p) -> 0 < ev_capacity (recentlyEvicted p) ->
  5 * total_w cost (weightedTxTree p) < 2 ^ 31 -> evictable p.
Proof.
  intros W Hcap Hmem Hb. destruct (costs_bound (txIdAndWeights (weightedTxTree p))) as (_ & Hf & Hs); [|done|split; [done|split; [done|unfold total_w in *; lia]|done|done]].
  apply Forall_forall. intros [id w] Hx. apply tree_weight_Some in Hx; [|apply W]. rewrite (pw_weight p W) in Hx. apply fmap_Some in Hx as (e & _ & ->). by exists e.
Qed.

Definition within_limit p : Prop := total_w cost (weightedTxTree p) <= wt_capacity (weightedTxTree p).

(** One eviction takes out a drawn transaction and its descendants. *)
Lemma evict_one_ok now rand p : evictable p -> rand_ok rand -> exists o, evict_one now rand p = Ok o /\
  match o with
  | None => within_limit p
  | Some p' => ~ within_limit p /\ evictable p' /\ (wt_size (weightedTxTree p') < wt_size (weightedTxTree p))%nat
      /\ wt_capacity (weightedTxTree p') = wt_capacity (weightedTxTree p)
      /\ exists txId, is_Some (mapTx p !! txId) /\ txId ∈ txIdSet (recentlyEvicted p')
         /\ (forall h e, mapTx p' !! h = Some e <-> mapTx p !! h = Some e /\ ~ rtc (child p) txId h)
         /\ forall h, is_Some (mapTx p !! h) -> mapTx p' !! h = None -> rtc (child p) txId h
  end.
Proof.
  intros [W Hs Hcap Hmem] Hrand. unfold evict_one. destruct W as [C Wt Hw].
  destruct (maybeDropRandom_ok rand (weightedTxTree p) Wt Hs Hcap Hrand) as ([txId|] & t & -> & Hd); cbn [mbind result_bind].
  2:{ exists None. split; [done|]. apply Hd. }
  destruct Hd as (Hover & Wt1 & Hs1 & Hc1 & Hin & Ht1). destruct (evicted_add_total now txId (recentlyEvicted p) Hmem) as (ev & -> & Hec & Hev).
  cbn [mbind result_bind]. destruct Hin as [w Hin]. pose proof Hin as Hin'. rewrite Hw in Hin. apply fmap_Some in Hin as (e & He & ->).
  set (p1 := set_limits ev t p). assert (He1 : mapTx p1 !! txId = Some e) by done. rewrite (deref_tx_ok p1 _ _ He1). cbn [mbind result_bind].
  assert (C1 : pool_core p1) by by apply set_limits_core. pose proof (pc_key p C _ _ He) as Hk.
  destruct (remove_near true (me_tx e) [] p1 C1 Wt1) as (p2 & l & -> & M & T & _); [|constructor|].
  { intros h. cbn [p1 set_limits weightedTxTree mapTx]. rewrite Ht1, Hk, Hw. case_decide; [right; done|by left]. }
  cbn [mbind result_bind fst]. exists (Some p2). split; [done|].
  assert (Hdoom : forall h, doomed true p1 (me_tx e) h <-> rtc (child p) txId h).
  { intros h. rewrite (doomed_descendants p1 txId e h C1 He1). done. }
  assert (Hsub2 : forall id w, tree_weight (weightedTxTree p2) id = Some w -> tree_weight t id = Some w).
  { intros id w0. rewrite (pw_weight p2 (tr_wf _ _ _ T)). intros (e0 & He0 & ->)%fmap_Some. apply (rm_tx _ _ _ _ M) in He0 as [He0 Hnd].
    rewrite Ht1, decide_False; [|intros ->; destruct Hnd; rewrite <- Hk; constructor]. rewrite Hw. cbn [p1 set_limits mapTx] in He0. by rewrite He0. }
  destruct (weights_sub t (weightedTxTree p2) Wt1 (pw_tree _ (tr_wf _ _ _ T)) Hsub2 Hs1) as [Hs2 Hle].
  pose proof (tree_remove_perm txId _ (weightedTxTree p) t Wt Wt1 Hin' Ht1) as Hperm. apply Permutation_length in Hperm. cbn [length] in Hperm.
  rewrite (ww_infos _ Wt), (ww_infos _ Wt1) in Hperm. pose proof (tr_capacity _ _ _ T) as Hcap2. cbn [p1 set_limits weightedTxTree] in Hcap2.
  pose proof (sr_evicted _ _ (tr_rest _ _ _ T)) as Hev2. cbn [p1 set_limits recentlyEvicted] in Hev2.
  split; [unfold within_limit; lia|]. split; [split; [apply T|done|lia|rewrite Hev2; lia]|]. split; [lia|]. split; [congruence|].
  exists txId. split; [by eexists|]. split; [by rewrite Hev2|]. split.
  - intros h e'. rewrite (rm_tx _ _ _ _ M), Hdoom. done.
  - intros h Hh Hn. apply Hdoom. by apply (rm_gone _ _ _ _ M).
Qed.

(** Evictions stop, with the pool within its limit. *)
Lemma ensure_loop_ok now rand fuel : (forall i, rand_ok (rand i)) -> forall i p, evictable p -> (wt_size (weightedTxTree p) < fuel)%nat ->
  exists p', ensure_loop fuel now rand i p = Ok p' /\ evictable p' /\ within_limit p' /\ mapTx p' ⊆ mapTx p
    /\ wt_capacity (weightedTxTree p') = wt_capacity (weightedTxTree p) /\ (within_limit p -> p' = p)
    /\ forall h h', child p h h' -> mapTx p' !! h = None -> mapTx p' !! h' = None.
Proof.
  intros Hrand. induction fuel as [|fuel IH]; intros i p Ev Hf; [lia|]. cbn [ensure_loop].
  destruct (evict_one_ok now (rand i) p Ev (Hrand i)) as ([p1|] & -> & Hp1); cbn [mbind result_bind].
  2:{ exists p. split_and!; try done. intros h h' (e & i' & n & He & _) Hn. congruence. }
  destruct Hp1 as (Hover & Ev1 & Hlt & Hc1 & txId & Hin & _ & Htx & Hgone). destruct (IH (S i) p1 Ev1) as (p2 & -> & Ev2 & Hlim & Hsub & Hc2 & _ & Hclosed); [lia|].
  assert (S1 : mapTx p1 ⊆ mapTx p) by (apply map_subseteq_spec; intros h e He; by apply Htx in He as [? _]).
  assert (C : pool_core p) by apply Ev. assert (C1 : pool_core p1) by apply Ev1.
  exists p2. split; [done|]. split; [done|]. split; [done|]. split; [by etrans|]. split; [congruence|]. split; [done|].
  intros h h' Hch Hn. destruct (mapTx p2 !! h') as [e'|] eqn:E'; [|done]. assert (E1' := lookup_weaken _ _ _ _ E' Hsub).
  destruct (mapTx p1 !! h) as [e1|] eqn:E1.
  - rewrite (Hclosed h h') in E'; [done| |done]. destruct Hch as (e0 & k & n & He0 & Hk & Hx). rewrite (lookup_weaken _ _ _ _ E1 S1) in He0. injection He0 as <-.
    exists e1, k, n. split; [done|]. split; [done|]. apply (pc_next p1 C1). apply (pc_next p C) in Hx as (e2 & He2 & Hs). exists e'. split; [done|].
    rewrite (lookup_weaken _ _ _ _ E1' S1) in He2. by simplify_eq.
  - apply Htx in E1' as [_ Hnd]. destruct Hnd. eapply rtc_r; [|exact Hch]. apply Hgone; [|done]. destruct Hch as (e0 & k & n & He0 & _). by eexists.
Qed.
End Removals.
