(* ===== verification/PoolCoins.v ===== *)
(** * The memory pool and the coins views

    txmempool.cpp: the operations of the pool that read a coins view (the
    address and spent indexes, [removeForReorg], the consistency check
    [check]), and [CCoinsViewMemPool], the view of the chain's coins with the
    pool's transactions on top.  That view keeps the laws of reads, so that a
    cache over it shows the outputs of the pool and of the chain. *)
From stdpp Require Import prelude gmap strings list sorting relations.
From S2P Require Import Prelude Transaction Script Interpreter Serialize TxSerialize SigHash Double Coins History CoinsView CoinsLaws CoinsCache CoinsOps UpdateCoins ChainParams Chain Checks CheckTx CheckInputs ConnectBlock MempoolLimit TxMemPool PoolLaws PoolRemovals.
#[local] Open Scope Z_scope.

Section PoolCoins.
Context {SpT SaT V : Type} `{!MerkleTree SpT, !MerkleTree SaT, !CCoinsView SpT SaT V}.
Context `{PoolEnv}.
Local Abbreviation cache := (CCoinsViewCache SpT SaT V).
Implicit Types (p : CTxMemPool) (tx : CTransaction) (entry : CTxMemPoolEntry) (c : cache).

(** ** The address and spent indexes *)

Abbreviation deltas_t := (gmap CMempoolAddressDeltaKey CMempoolAddressDelta * list CMempoolAddressDeltaKey)%type.
Definition insert_delta (key : CMempoolAddressDeltaKey) (delta : CMempoolAddressDelta) (s : deltas_t) : deltas_t :=
  (map_add key delta s.1, s.2 ++ [key]).

Definition address_input entry (s : deltas_t * cache) (j_in : Z * CTxIn) : result (deltas_t * cache) :=
  let '(j, input) := j_in in
  r ← Cache_GetOutputFor input s.2;
  let prev : CTxOut := r.1 in
  match CScript_GetType (scriptPubKey prev) with
  | UNKNOWN => Ok (s.1, r.2)
  | ty =>
      let key := mkAddressDeltaKey (ScriptType_code ty) (CScript_AddressHash (scriptPubKey prev)) (tx_hash (me_tx entry)) j 1 in
      let delta := mkAddressDelta (me_nTime entry) (i64 (nValue prev * -1)) (out_hash (prevout input)) (out_n (prevout input)) in
      Ok (insert_delta key delta s.1, r.2)
  end.

Definition address_output entry (s : deltas_t) (j_out : Z * CTxOut) : deltas_t :=
  let '(j, out) := j_out in
  match CScript_GetType (scriptPubKey out) with
  | UNKNOWN => s
  | ty =>
      insert_delta (mkAddressDeltaKey (ScriptType_code ty) (CScript_AddressHash (scriptPubKey out)) (tx_hash (me_tx entry)) j 0)
        (mkAddressDelta (me_nTime entry) (nValue out) uint256_null 0) s
  end.

Definition addAddressIndex entry c p : result (CTxMemPool * cache) :=
  let tx := me_tx entry in
  let x := insight p in
  r ← foldM (address_input entry) (number (vin tx)) ((mapAddress x, []), c);
  let '(m, inserted) := foldl (address_output entry) r.1 (number (tx_vout tx)) in
  Ok (set_insight (mkPoolIndex m (map_add (tx_hash tx) inserted (mapAddressInserted x)) (mapSpent x) (mapSpentInserted x)) p, r.2).

(** [CMempoolAddressDeltaKeyCompare]; blobs compare as [memcmp]. *)
Definition bytes_key (b : bytes) : Z := le_val (reverse b).
Definition CMempoolAddressDeltaKeyCompare (a b : CMempoolAddressDeltaKey) : bool :=
  if adk_type a =? adk_type b then
    if bytes_key (adk_addressBytes a) =? bytes_key (adk_addressBytes b) then
      if blob_key (adk_txhash a) =? blob_key (adk_txhash b) then
        if adk_index a =? adk_index b then adk_spending a <? adk_spending b
        else adk_index a <? adk_index b
      else blob_key (adk_txhash a) <? blob_key (adk_txhash b)
    else bytes_key (adk_addressBytes a) <? bytes_key (adk_addressBytes b)
  else adk_type a <? adk_type b.
Definition delta_before (a b : CMempoolAddressDeltaKey * CMempoolAddressDelta) : Prop := CMempoolAddressDeltaKeyCompare b.1 a.1 = false.
#[global] Instance delta_before_dec : RelDecision delta_before.
Proof. intros a b. unfold delta_before. apply _. Defined.

(** From [lower_bound] while type and bytes agree: the entries of an address
    are next to each other in the order of the map. *)
Definition address_deltas (address : bytes * Z) p : list (CMempoolAddressDeltaKey * CMempoolAddressDelta) :=
  merge_sort delta_before
    (filter (fun kv => adk_addressBytes kv.1 = address.1 /\ adk_type kv.1 = address.2) (map_to_list (mapAddress (insight p)))).
Definition getAddressIndex (addresses : list (bytes * Z)) p : list (CMempoolAddressDeltaKey * CMempoolAddressDelta) :=
  addresses ≫= fun a => address_deltas a p.

Definition spent_input entry (s : (gmap CSpentIndexKey CSpentIndexValue * list CSpentIndexKey) * cache) (j_in : Z * CTxIn)
  : result ((gmap CSpentIndexKey CSpentIndexValue * list CSpentIndexKey) * cache) :=
  let '(j, input) := j_in in
  r ← Cache_GetOutputFor input s.2;
  let prev : CTxOut := r.1 in
  let key := mkSpentIndexKey (out_hash (prevout input)) (out_n (prevout input)) in
  let value := mkSpentIndexValue (tx_hash (me_tx entry)) j (-1) (nValue prev)
                 (ScriptType_code (CScript_GetType (scriptPubKey prev))) (CScript_AddressHash (scriptPubKey prev)) in
  Ok ((map_add key value s.1.1, s.1.2 ++ [key]), r.2).

Definition addSpentIndex entry c p : result (CTxMemPool * cache) :=
  let tx := me_tx entry in
  let x := insight p in
  r ← foldM (spent_input entry) (number (vin tx)) ((mapSpent x, []), c);
  Ok (set_insight (mkPoolIndex (mapAddress x) (mapAddressInserted x) r.1.1 (map_add (tx_hash tx) r.1.2 (mapSpentInserted x))) p, r.2).

(** ** After a reorganisation *)

(** Whether an input spends coins that are gone or a coinbase that is now
    immature; outputs of the pool are not looked at. *)
Fixpoint reorg_inputs p (nMemPoolHeight : Z) (l : list CTxIn) c : result (bool * cache) :=
  match l with
  | [] => Ok (false, c)
  | txin :: l' =>
      if exists_ (out_hash (prevout txin)) p then reorg_inputs p nMemPoolHeight l' c
      else
        let '(coins, c) := Cache_AccessCoins (out_hash (prevout txin)) c in
        _ ← (if negb (nCheckFrequency p =? 0) then assert_true (bool_decide (is_Some coins)) else Ok tt);
        if match coins with
           | None => true
           | Some coins => fCoinBase coins && (nMemPoolHeight - nHeight coins <? COINBASE_MATURITY)
           end
        then Ok (true, c)
        else reorg_inputs p nMemPoolHeight l' c
  end.

Definition reorg_step p (nMemPoolHeight : Z) (final : CTransaction -> bool) (s : list CTransaction * cache) entry
  : result (list CTransaction * cache) :=
  if negb (final (me_tx entry)) then Ok (s.1 ++ [me_tx entry], s.2)
  else if me_spendsCoinbase entry then
    r ← reorg_inputs p nMemPoolHeight (vin (me_tx entry)) s.2;
    Ok (if r.1 : bool then s.1 ++ [me_tx entry] else s.1, r.2)
  else Ok s.

(** The arguments after [flags] are what [CheckFinalTx] reads of the node. *)
Definition removeForReorg (pcoins : cache) (nMemPoolHeight flags tipHeight medianTimePast adjustedTime : Z) p : result (CTxMemPool * cache) :=
  r ← foldM (reorg_step p nMemPoolHeight (fun tx => CheckFinalTx tx flags tipHeight medianTimePast adjustedTime)) (walk (mapTx p)) ([], pcoins);
  p ← remove_each r.1 p;
  Ok (p, r.2).

(** ** [CCoinsViewMemPool] *)

Record CCoinsViewMemPool := mkViewMemPool { vm_base : V; vm_mempool : CTxMemPool }.

Definition vm_forward {A} (v : CCoinsViewMemPool) (r : A * V) : A * CCoinsViewMemPool := (r.1, mkViewMemPool r.2 (vm_mempool v)).

Definition VM_GetNullifier (nf : uint256) (ty : ShieldedType) (v : CCoinsViewMemPool) : bool * CCoinsViewMemPool :=
  if nullifierExists nf ty (vm_mempool v) then (true, v) else vm_forward v (GetNullifier nf ty (vm_base v)).

Definition VM_GetCoins (txid : uint256) (v : CCoinsViewMemPool) : option CCoins * CCoinsViewMemPool :=
  match lookup_ txid (vm_mempool v) with
  | Some tx => (Some (CCoins_FromTx tx MEMPOOL_HEIGHT), v)
  | None =>
      let '(o, b) := GetCoins txid (vm_base v) in
      (match o with Some coins => if CCoins_IsPruned coins then None else Some coins | None => None end, mkViewMemPool b (vm_mempool v))
  end.

Definition VM_HaveCoins (txid : uint256) (v : CCoinsViewMemPool) : bool * CCoinsViewMemPool :=
  if exists_ txid (vm_mempool v) then (true, v) else vm_forward v (HaveCoins txid (vm_base v)).

#[global] Instance CCoinsViewMemPool_view : CCoinsView SpT SaT CCoinsViewMemPool := {|
  GetSproutAnchorAt rt v := vm_forward v (GetSproutAnchorAt rt (vm_base v));
  GetSaplingAnchorAt rt v := vm_forward v (GetSaplingAnchorAt rt (vm_base v));
  GetNullifier := VM_GetNullifier;
  GetCoins := VM_GetCoins;
  HaveCoins := VM_HaveCoins;
  GetBestBlock v := vm_forward v (GetBestBlock (vm_base v));
  GetBestAnchor ty v := vm_forward v (GetBestAnchor ty (vm_base v));
  GetHistoryLength e v := vm_forward v (GetHistoryLength e (vm_base v));
  GetHistoryAt e i v := r ← GetHistoryAt e i (vm_base v); Ok (vm_forward v r);
  GetHistoryRoot e v := vm_forward v (GetHistoryRoot e (vm_base v));
  BatchWrite b v := r ← BatchWrite b (vm_base v); Ok (vm_forward v r)
|}.
End PoolCoins.
Arguments CCoinsViewMemPool V {_}.
Arguments mkViewMemPool {V _}.
Arguments vm_base {V _}.
Arguments vm_mempool {V _}.

(** ** The laws of the view *)

Section ViewLaws.
Context {SpT SaT V : Type} `{!MerkleTree SpT, !MerkleTree SaT, !CCoinsView SpT SaT V}.
Context `{!CCoinsViewReads SpT SaT V}.
Context `{PoolEnv}.
Implicit Types (p : CTxMemPool) (v : CCoinsViewMemPool V).

(** The coins and nullifiers of a state with the pool on top. *)
Definition pool_over p (a : AbsView) : AbsView := mkAbs
  (fun t => match lookup_ t p with Some tx => norm (Some (CCoins_FromTx tx MEMPOOL_HEIGHT)) | None => a_coins a t end)
  (fun ty nf => nullifierExists nf ty p || a_null a ty nf)
  (a_anchor a) (a_best a) (a_bestAnchor a) (a_hlen a) (a_hroot a) (a_hat a).

#[global] Instance pool_over_proper p : Proper ((≡) ==> (≡)) (pool_over p).
Proof.
  intros a b E. split; cbn; [|intros ty nf; by rewrite (eqv_null _ _ E)|apply E|apply E|apply E|apply E|apply E|apply E].
  intros t. destruct (lookup_ t p); [done|apply E].
Qed.

Definition vm_inv v : Prop := view_inv (vm_base v).
Definition vm_abs v : AbsView := pool_over (vm_mempool v) (view_abs (vm_base v)).
Definition vm_backed v (t : uint256) : Prop := is_Some (lookup_ t (vm_mempool v)) \/ view_backed (vm_base v) t.

Lemma vm_stable v b : stable view_inv view_abs view_backed (vm_base v) b -> stable vm_inv vm_abs vm_backed v (mkViewMemPool b (vm_mempool v)).
Proof.
  intros (Hi & Ha & HB). split; [done|]. split; [by apply pool_over_proper|]. intros t [Ht|Ht]; [by left|]. right. by apply HB.
Qed.
Lemma vm_stable_refl v : vm_inv v -> stable vm_inv vm_abs vm_backed v v.
Proof. done. Qed.

#[global] Instance CCoinsViewMemPool_reads : CCoinsViewReads SpT SaT (CCoinsViewMemPool V).
Proof.
  refine {| view_inv := vm_inv; view_abs := vm_abs; view_backed := vm_backed |}.
  - intros v e Hv. by apply (view_hlen (vm_base v)).
  - intros t v Hv. cbn [GetCoins CCoinsViewMemPool_view]. unfold VM_GetCoins, vm_abs, pool_over, vm_backed. cbn [a_coins].
    destruct (lookup_ t (vm_mempool v)) as [tx|] eqn:E; [split; [done|]; split; [done|]; intros _; left; cbn; rewrite E; by eexists|].
    destruct (GetCoins_law t (vm_base v) Hv) as (Hs & Hn & HB). destruct (GetCoins t (vm_base v)) as [o b]. cbn [fst snd] in *.
    assert (Ho : norm (match o with Some coins => if CCoins_IsPruned coins then None else Some coins | None => None end) = norm o).
    { destruct o as [coins|]; [|done]. cbn. destruct (CCoins_IsPruned coins) eqn:Ep; [done|]. cbn. by rewrite Ep. }
    rewrite Ho. split; [by apply vm_stable|]. split; [done|]. intros Hne. right. by apply HB.
  - intros t v Hv. cbn [HaveCoins CCoinsViewMemPool_view]. unfold VM_HaveCoins, vm_abs, pool_over. cbn [a_coins].
    unfold exists_, lookup_. destruct (mapTx (vm_mempool v) !! t) as [e|] eqn:E; cbn [fmap option_fmap option_map].
    + rewrite bool_decide_true by (by eexists). done.
    + rewrite bool_decide_false by (by intros [? ?]). destruct (HaveCoins_law t (vm_base v) Hv) as [Hs Hh].
      unfold vm_forward. split; [by apply vm_stable|done].
  - intros nf ty v Hv. cbn [GetNullifier CCoinsViewMemPool_view]. unfold VM_GetNullifier, vm_abs, pool_over. cbn [a_null].
    destruct (nullifierExists nf ty (vm_mempool v)); [done|]. destruct (GetNullifier_law nf ty (vm_base v) Hv) as [Hs Hn].
    unfold vm_forward. split; [by apply vm_stable|done].
  - intros rt v Hv. destruct (GetSproutAnchorAt_law rt (vm_base v) Hv) as [Hs Hn]. split; [by apply vm_stable|done].
  - intros rt v Hv. destruct (GetSaplingAnchorAt_law rt (vm_base v) Hv) as [Hs Hn]. split; [by apply vm_stable|done].
  - intros v Hv. destruct (GetBestBlock_law (vm_base v) Hv) as [Hs Hn]. split; [by apply vm_stable|done].
  - intros ty v Hv. destruct (GetBestAnchor_law ty (vm_base v) Hv) as [Hs Hn]. split; [by apply vm_stable|done].
  - intros e v Hv. destruct (GetHistoryLength_law e (vm_base v) Hv) as [Hs Hn]. split; [by apply vm_stable|done].
  - intros e v Hv. destruct (GetHistoryRoot_law e (vm_base v) Hv) as [Hs Hn]. split; [by apply vm_stable|done].
  - intros e i v Hv Hb. destruct (GetHistoryAt_law e i (vm_base v) Hv Hb) as (n & b & E & Hn & Hs).
    exists n, (mkViewMemPool b (vm_mempool v)). cbn [GetHistoryAt CCoinsViewMemPool_view]. rewrite E. split; [done|]. split; [done|]. by apply vm_stable.
Defined.
End ViewLaws.

(** ** After a reorganisation: laws *)

Section ReorgLaws.
Context {SpT SaT V : Type} `{!MerkleTree SpT, !MerkleTree SaT, !CCoinsView SpT SaT V}.
Context `{!CCoinsViewReads SpT SaT V}.
Context `{PoolEnv}.
Local Abbreviation cache := (CCoinsViewCache SpT SaT V).
Implicit Types (p : CTxMemPool) (c : cache).

(** An input that the chain's coins do not forbid to spend at this height. *)
Definition input_mature (a : AbsView) p (nMemPoolHeight : Z) (i : CTxIn) : Prop :=
  forall coins, mapTx p !! out_hash (prevout i) = None -> a_coins a (out_hash (prevout i)) = Some coins -> fCoinBase coins = true ->
    COINBASE_MATURITY <= nMemPoolHeight - nHeight coins.

Lemma input_mature_equiv a a' p h i : a ≡ a' -> input_mature a p h i -> input_mature a' p h i.
Proof. intros Ha Hm coins. rewrite <- (eqv_coins _ _ Ha). apply Hm. Qed.

Lemma reorg_inputs_ok p height l : nCheckFrequency p = 0 -> forall c, cache_core c ->
  exists b c', reorg_inputs p height l c = Ok (b, c') /\ read_ok c c' /\ (b = false -> Forall (input_mature (cache_abs c) p height) l).
Proof.
  intros Hf. induction l as [|i l IH]; intros c Hc; cbn [reorg_inputs]; [exists false, c; split; [done|]; split; [by apply read_ok_refl|constructor]|].
  unfold exists_. case_bool_decide as Hin.
  { destruct (IH c Hc) as (b & c' & -> & Hr & Hb). exists b, c'. split; [done|]. split; [done|]. intros ->. constructor; [|by apply Hb].
    intros coins Hn. rewrite Hn in Hin. by destruct Hin. }
  destruct (FetchCoins_ok (out_hash (prevout i)) c Hc) as (Hr & Hn & _). unfold Cache_AccessCoins. destruct (FetchCoins _ c) as [o c1]. cbn [fst snd] in Hr, Hn.
  rewrite Hf. cbn [negb Z.eqb mbind result_bind].
  destruct o as [coins|]; [|exists true, c1; split; [done|]; split; [exact Hr|done]].
  destruct (fCoinBase coins && (height - nHeight coins <? COINBASE_MATURITY)) eqn:Eb; [exists true, c1; split; [done|]; split; [exact Hr|done]|].
  destruct (IH c1 (proj1 Hr)) as (b & c' & -> & Hr' & Hb). exists b, c'. split; [done|]. split; [by eapply read_ok_trans|]. intros ->. constructor.
  - intros coins' _ Hc' Hcb. rewrite <- Hn in Hc'. cbn [norm] in Hc'. destruct (CCoins_IsPruned coins); [done|]. injection Hc' as <-. rewrite Hcb in Eb. apply Z.ltb_ge in Eb. done.
  - eapply Forall_impl; [by apply Hb|]. intros j. apply input_mature_equiv. apply Hr.
Qed.

(** What an entry satisfies that is not selected. *)
Definition reorg_fine (a : AbsView) p (height : Z) (final : CTransaction -> bool) (e : CTxMemPoolEntry) : Prop :=
  final (me_tx e) = true /\ (me_spendsCoinbase e = true -> Forall (input_mature a p height) (vin (me_tx e))).

Lemma reorg_fine_equiv a a' p h final e : a ≡ a' -> reorg_fine a p h final e -> reorg_fine a' p h final e.
Proof. intros Ha [Hf Hm]. split; [done|]. intros Hs. eapply Forall_impl; [by apply Hm|]. intros i. by apply input_mature_equiv. Qed.

Lemma reorg_step_ok p height final (txs : list CTransaction) e : nCheckFrequency p = 0 -> forall c, cache_core c ->
  exists txs' c', reorg_step p height final (txs, c) e = Ok (txs', c') /\ read_ok c c'
    /\ (txs' = txs ++ [me_tx e] \/ txs' = txs /\ reorg_fine (cache_abs c) p height final e).
Proof.
  intros Hf c Hc. unfold reorg_step. cbn [fst snd]. destruct (final (me_tx e)) eqn:Ef; cbn [negb].
  2:{ exists (txs ++ [me_tx e]), c. split; [done|]. split; [by apply read_ok_refl|by left]. }
  destruct (me_spendsCoinbase e) eqn:Es.
  2:{ exists txs, c. split; [done|]. split; [by apply read_ok_refl|]. right. split; [done|]. split; [done|]. intros Hs. congruence. }
  destruct (reorg_inputs_ok p height (vin (me_tx e)) Hf c Hc) as (b & c1 & -> & Hr & Hb). cbn [mbind result_bind fst snd].
  exists (if b then txs ++ [me_tx e] else txs), c1. split; [done|]. split; [done|]. destruct b; [by left|]. right. split; [done|]. split; [done|]. intros _. by apply Hb.
Qed.

Lemma reorg_loop_ok p height final l : nCheckFrequency p = 0 -> forall c txs, cache_core c ->
  exists txs' c', foldM (reorg_step p height final) l (txs, c) = Ok (txs ++ txs', c') /\ read_ok c c'
    /\ (forall tx, tx ∈ txs' -> exists e, e ∈ l /\ me_tx e = tx)
    /\ (forall e, e ∈ l -> me_tx e ∈ txs' \/ reorg_fine (cache_abs c) p height final e).
Proof.
  intros Hf. induction l as [|e l IH]; intros c txs Hc; cbn [foldM].
  { exists [], c. rewrite app_nil_r. split; [done|]. split; [by apply read_ok_refl|]. split; [by intros tx Hnil%not_elem_of_nil|by intros e Hnil%not_elem_of_nil]. }
  destruct (reorg_step_ok p height final txs e Hf c Hc) as (txs1 & c1 & -> & Hr & Hcase). cbn [mbind result_bind].
  destruct (IH c1 txs1 (proj1 Hr)) as (txs2 & c2 & -> & Hr2 & Hin & Hall).
  assert (Hback : forall e0, reorg_fine (cache_abs c1) p height final e0 -> reorg_fine (cache_abs c) p height final e0)
    by (intros e0; apply reorg_fine_equiv, Hr).
  destruct Hcase as [-> | [-> Hfine]].
  - exists (me_tx e :: txs2), c2. rewrite <- app_assoc. split; [done|]. split; [by eapply read_ok_trans|]. split.
    + intros tx [->|Htx]%elem_of_cons; [exists e; split; [by left|done]|]. destruct (Hin tx Htx) as (e' & He' & <-). exists e'. split; [by right|done].
    + intros e' [->|He']%elem_of_cons; [left; by left|]. destruct (Hall e' He'); [left; by right|right; by apply Hback].
  - exists txs2, c2. split; [done|]. split; [by eapply read_ok_trans|]. split.
    + intros tx Htx. destruct (Hin tx Htx) as (e' & He' & <-). exists e'. split; [by right|done].
    + intros e' [->|He']%elem_of_cons; [by right|]. destruct (Hall e' He'); [by left|right; by apply Hback].
Qed.

(** The indexes are written when the view has the outputs that are spent. *)
Definition inputs_found (a : AbsView) (l : list CTxIn) : Prop := Forall (fun i => is_Some (out_unspent a (prevout i))) l.

Lemma input_loop_ok {S} (step : S * cache -> Z * CTxIn -> result (S * cache)) :
  (forall s j i c o c', Cache_GetOutputFor i c = Ok (o, c') -> exists s', step (s, c) (j, i) = Ok (s', c')) ->
  forall l s c, cache_core c -> inputs_found (cache_abs c) l.*2 -> exists s' c', foldM step l (s, c) = Ok (s', c') /\ read_ok c c'.
Proof.
  intros Hstep. induction l as [|[j i] l IH]; intros s c Hc Hl; cbn [foldM]; [exists s, c; split; [done|by apply read_ok_refl]|].
  apply Forall_cons in Hl as [[o Ho] Hl]. pose proof (GetOutputFor_ok i c Hc) as Hx. cbn [snd] in Ho. rewrite Ho in Hx. destruct Hx as (c1 & E & Hr).
  destruct (Hstep s j i c o c1 E) as [s1 ->]. cbn [mbind result_bind].
  destruct (IH s1 c1 (proj1 Hr)) as (s2 & c2 & -> & Hr2).
  - eapply Forall_impl; [exact Hl|]. intros k. cbv beta. by rewrite (read_ok_unspent _ _ _ Hr).
  - exists s2, c2. split; [done|]. by eapply read_ok_trans.
Qed.

Lemma number_snd {A} (l : list A) : (number l).*2 = l.
Proof. unfold number. rewrite fmap_imap. unfold compose. cbn [snd]. induction l; [done|]. cbn. by f_equal. Qed.

Lemma addAddressIndex_ok entry c p : cache_core c -> inputs_found (cache_abs c) (vin (me_tx entry)) ->
  exists x c', addAddressIndex entry c p = Ok (set_insight x p, c') /\ read_ok c c'.
Proof.
  intros Hc Hl. unfold addAddressIndex.
  destruct (input_loop_ok (address_input entry)) with (l := number (vin (me_tx entry))) (s := (mapAddress (insight p), @nil CMempoolAddressDeltaKey)) (c := c)
    as (s & c' & -> & Hr); [|done|by rewrite number_snd|].
  - intros s j i d o d' E. unfold address_input. cbn [snd]. rewrite E. cbn [mbind result_bind fst snd]. destruct (CScript_GetType _); by eexists.
  - cbn [mbind result_bind fst snd]. destruct (foldl _ _ _). by eexists _, c'.
Qed.
Lemma addSpentIndex_ok entry c p : cache_core c -> inputs_found (cache_abs c) (vin (me_tx entry)) ->
  exists x c', addSpentIndex entry c p = Ok (set_insight x p, c') /\ read_ok c c'.
Proof.
  intros Hc Hl. unfold addSpentIndex.
  destruct (input_loop_ok (spent_input entry)) with (l := number (vin (me_tx entry))) (s := (mapSpent (insight p), @nil CSpentIndexKey)) (c := c)
    as (s & c' & -> & Hr); [|done|by rewrite number_snd|].
  - intros s j i d o d' E. unfold spent_input. cbn [snd]. rewrite E. by eexists.
  - cbn [mbind result_bind fst snd]. by eexists _, c'.
Qed.

Context `{!PoolEnvLaws}.

(** [removeForReorg] leaves final transactions that spend no immature coinbase
    of the chain, and removes only what it selects with its descendants. *)
Lemma removeForReorg_ok (c : cache) height flags tip mtp adjusted p : pool_wf p -> cache_core c -> nCheckFrequency p = 0 ->
  exists p' c' txs, removeForReorg c height flags tip mtp adjusted p = Ok (p', c') /\ trims (descends p txs) p p' /\ read_ok c c'
    /\ forall h e, mapTx p' !! h = Some e -> reorg_fine (cache_abs c) p height (fun tx => CheckFinalTx tx flags tip mtp adjusted) e.
Proof.
  intros W Hc Hf. unfold removeForReorg.
  destruct (reorg_loop_ok p height (fun tx => CheckFinalTx tx flags tip mtp adjusted) (walk (mapTx p)) Hf c [] Hc) as (txs & c' & -> & Hr & Hin & Hall).
  cbn [mbind result_bind fst snd app]. assert (C : pool_core p) by apply W.
  destruct (remove_each_without p txs W [] p (without_nil p W)) as (p' & -> & T & Hno).
  { apply Forall_forall. intros tx Htx. destruct (Hin tx Htx) as (e & He & <-). apply elem_of_walk in He as [h He]. exists e. by rewrite (pc_key p C _ _ He). }
  cbn [mbind result_bind app] in *. exists p', c', txs. split; [done|]. split; [done|]. split; [done|]. intros h e He.
  pose proof (lookup_weaken _ _ _ _ He (tr_sub _ _ _ T)) as He0. destruct (Hall e) as [Hx|Hx]; [apply elem_of_walk; by exists h| |done].
  destruct (Hno h e He). exists (me_tx e). split; [done|]. by rewrite (pc_key p C _ _ He0).
Qed.
End ReorgLaws.
