(* ===== verification/PoolSafety.v ===== *)
(** * Safety of the memory pool

    Adding a transaction that conflicts with nothing keeps the pool's
    invariant; with the removals, every sequence of operations on a new pool
    runs without a failed assertion or dangling pointer and ends in a pool
    without double spends.  The main theorems of the pool, and what [clear]
    leaves behind. *)
From stdpp Require Import prelude gmap strings list sorting relations.
From S2P Require Import Prelude Transaction Script Serialize TxSerialize Double Coins CoinsView CoinsLaws CoinsCache CoinsOps UpdateCoins ConnectBlock Checks CheckTx MempoolLimit TxMemPool PoolLaws PoolRemovals PoolCoins.
#[local] Open Scope Z_scope.

Section Safety.
Context `{PoolEnv}.
Implicit Types (p : CTxMemPool) (tx : CTransaction) (e : CTxMemPoolEntry).

(** ** Adding *)

Lemma number_inputs_lookup (hash : uint256) (l : list CTxIn) (m : gmap COutPoint (uint256 * Z)) o h n : NoDup (prevout <$> l) ->
  foldl (fun m '(i, txin) => <[prevout txin := (hash, i)]> m) m (number l) !! o = Some (h, n)
  <-> (h = hash /\ 0 <= n /\ prevout <$> (l !! Z.to_nat n) = Some o) \/ ((o ∉ (prevout <$> l)) /\ m !! o = Some (h, n)).
Proof.
  revert o h n. induction l as [|i l IH] using rev_ind; intros o h n Hn.
  { cbn. split; [intros Hm; right; split; [apply not_elem_of_nil|done]|]. intros [(_ & _ & Hx)|[_ Hm]]; done. }
  rewrite fmap_app in Hn. apply NoDup_app in Hn as (Hn & Hd & _). unfold number in *. rewrite imap_app, foldl_app. cbn [imap foldl].
  assert (Hi : prevout i ∉ prevout <$> l) by (intros Hx; apply (Hd _ Hx); constructor). rewrite Nat.add_0_r. destruct (decide (prevout i = o)) as [<-|Hne].
  - rewrite lookup_insert_eq. split.
    + intros [= <- <-]. left. split; [done|]. split; [lia|]. rewrite Nat2Z.id, lookup_app_r, Nat.sub_diag by done. done.
    + intros [(-> & Hn0 & Hx)|[Hx _]]; [|destruct Hx; rewrite fmap_app; apply elem_of_app; right; constructor].
      apply fmap_Some in Hx as (j & Hj & Hp). apply lookup_app_Some in Hj as [Hj|[Hge Hj]].
      * destruct Hi. rewrite Hp. eapply list_elem_of_lookup_2. by rewrite list_lookup_fmap, Hj.
      * apply list_lookup_singleton_Some in Hj as [Hz _]. do 2 f_equal. lia.
  - rewrite lookup_insert_ne by done. rewrite IH by done. rewrite fmap_app, not_elem_of_app. cbn [fmap list_fmap]. rewrite list_elem_of_singleton. split.
    + intros [(-> & Hn0 & Hx)|[Hx Hm]]; [left|right; split; [split; [done|congruence]|done]]. split; [done|]. split; [done|].
      apply fmap_Some in Hx as (j & Hj & ->). by rewrite (lookup_app_l_Some _ _ _ _ Hj).
    + intros [(-> & Hn0 & Hx)|[[Hx _] Hm]]; [left|by right]. split; [done|]. split; [done|].
      apply fmap_Some in Hx as (j & Hj & ->). apply lookup_app_Some in Hj as [Hj|[_ Hj]]; [by rewrite Hj|]. apply list_lookup_singleton_Some in Hj as [_ <-]. done.
Qed.

Lemma nullifiers_add (nfs : CMutableTransaction -> list uint256) (m : gmap uint256 uint256) (txs : gmap uint256 CTxMemPoolEntry) hash e :
  (forall nf h, m !! nf = Some h <-> exists e, txs !! h = Some e /\ nf ∈ nfs (me_tx e)) -> txs !! hash = None ->
  (forall nf, nf ∈ nfs (me_tx e) -> m !! nf = None) ->
  forall nf h, foldl (fun m nf => <[nf := hash]> m) m (nfs (me_tx e)) !! nf = Some h
    <-> exists e', <[hash := e]> txs !! h = Some e' /\ nf ∈ nfs (me_tx e').
Proof.
  intros Hm Hnew Hfree nf h. rewrite foldl_insert_lookup. setoid_rewrite lookup_insert_Some. case_decide as Hin.
  - split; [intros [= <-]; exists e; auto|]. intros (e' & [[-> _]|[_ He']] & Hin'); [done|].
    assert (Hs : m !! nf = Some h) by (apply Hm; eauto). rewrite (Hfree nf Hin) in Hs. done.
  - rewrite Hm. split.
    + intros (e' & He' & Hin'). exists e'. split; [|done]. right. split; [|done]. intros ->. congruence.
    + intros (e' & [[_ <-]|[_ He']] & Hin'); [done|eauto].
Qed.

(** What AcceptToMemoryPool checks of the pool before it adds a transaction
    whose own inputs are distinct. *)
Record addable p e : Prop := {
  ad_new : mapTx p !! tx_hash (me_tx e) = None;
  ad_inputs : NoDup (prevout <$> vin (me_tx e));
  ad_unspent : forall i, i ∈ vin (me_tx e) -> mapNextTx p !! prevout i = None;
  ad_sprout : forall nf, nf ∈ sprout_nullifiers (me_tx e) -> nullifierExists nf SPROUT p = false;
  ad_sapling : forall nf, nf ∈ sapling_nullifiers (me_tx e) -> nullifierExists nf SAPLING p = false
}.

Lemma addUnchecked_ok e fCurrentEstimate p : pool_wf p -> addable p e -> exists p',
  addUnchecked (tx_hash (me_tx e)) e fCurrentEstimate p = Ok p' /\ pool_wf p' /\ mapTx p' = <[tx_hash (me_tx e) := e]> (mapTx p)
  /\ recentlyEvicted p' = recentlyEvicted p /\ wt_capacity (weightedTxTree p') = wt_capacity (weightedTxTree p).
Proof.
  intros [C Wt Hw] [Hnew Hin Hun Hsp Hsa]. unfold addUnchecked. set (hash := tx_hash (me_tx e)) in *.
  set (info := WeightedTxInfo_from (RecursiveDynamicUsage (me_tx e)) (me_tx e) (me_nFee e)).
  destruct (tree_add_ok info (weightedTxTree p) Wt) as (t & -> & Wt' & Hc & Ht). cbn [mbind result_bind].
  assert (Eadd : map_add hash e (mapTx p) = <[hash := e]> (mapTx p)) by (unfold map_add; by rewrite Hnew). rewrite Eadd, lookup_insert_eq.
  eexists. split; [done|]. split; [|done]. split; cbn [mapTx weightedTxTree]; [|done|].
  - assert (Hex : forall nf ty, nullifierExists nf ty p = false -> match ty with SPROUT => mapSproutNullifiers p | SAPLING => mapSaplingNullifiers p end !! nf = None).
    { intros nf [] Hx; apply bool_decide_eq_false in Hx; by apply eq_None_not_Some. }
    split; cbn [mapTx mapNextTx mapSproutNullifiers mapSaplingNullifiers mapRecentlyAddedTx totalTxSize cachedInnerUsage].
    + intros h e' [[<- <-]|[_ He']]%lookup_insert_Some; [done|by apply C].
    + intros o h n. rewrite number_inputs_lookup by done. setoid_rewrite lookup_insert_Some. rewrite (pc_next p C). split.
      * intros [(-> & Hn0 & Hx)|[Hx (e' & He' & Hs)]]; [exists e; split; [by left|done]|]. exists e'. split; [|done]. right. split; [|done]. intros ->. congruence.
      * intros (e' & [[<- <-]|[Hne He']] & [Hn0 Hs]); [by left|]. right. split; [|exists e'; done].
        intros Ho. apply list_elem_of_fmap in Ho as (i & -> & Hi). assert (Hx : mapNextTx p !! prevout i = Some (h, n)) by (apply (pc_next p C); by exists e').
        by rewrite (Hun i Hi) in Hx.
    + apply nullifiers_add; [apply C|done|]. intros nf Hnf. apply (Hex nf SPROUT), Hsp, Hnf.
    + apply nullifiers_add; [apply C|done|]. intros nf Hnf. apply (Hex nf SAPLING), Hsa, Hnf.
    + intros k h [[<- <-]|[Hne Hr]]%lookup_insert_Some; [split; [done|]; rewrite lookup_insert_eq; by eexists|].
      apply (pc_recent p C) in Hr as [-> [e' He']]. split; [done|]. rewrite lookup_insert_ne by congruence. by eexists.
    + rewrite map_total_insert, (pc_size p C), u64_add_l by done. f_equal. lia.
    + rewrite map_total_insert, (pc_usage p C), u64_add_l by done. f_equal. lia.
  - intros h. rewrite Ht, Hw. destruct (decide (h = hash)) as [->|Hne].
    + rewrite Hnew, lookup_insert_eq. cbn. by rewrite decide_True.
    + rewrite lookup_insert_ne by done. destruct (mapTx p !! h); [done|]. cbn. by rewrite decide_False.
Qed.

Lemma CTxMemPool_new_ok est : exists p, CTxMemPool_new est = Ok p /\ pool_wf p /\ mapTx p = ∅.
Proof.
  eexists. split; [done|]. split; [|done]. split; [split|apply weights_wf_new|done]; cbn; try done.
  - intros o h n. split; [done|]. by intros (e & ? & _).
  - intros nf h. split; [done|]. by intros (e & ? & _).
  - intros nf h. split; [done|]. by intros (e & ? & _).
Qed.

(** ** Sequences of operations *)

Context {SpT SaT V : Type} `{!MerkleTree SpT, !MerkleTree SaT, !CCoinsView SpT SaT V}.
Context `{!CCoinsViewReads SpT SaT V}.
Local Abbreviation cache := (CCoinsViewCache SpT SaT V).

(** Every operation that changes the pool, [clear] apart. *)
Inductive pool_op :=
| OpAdd (entry : CTxMemPoolEntry) (fCurrentEstimate : bool)
| OpRemove (tx : CTransaction) (fRecursive : bool)
| OpRemoveWithAnchor (invalidRoot : uint256) (ty : ShieldedType)
| OpRemoveConflicts (tx : CTransaction)
| OpRemoveExpired (nBlockHeight : Z)
| OpRemoveForBlock (vtx : list CTransaction) (nBlockHeight : Z) (fCurrentEstimate : bool)
| OpRemoveForReorg (pcoins : cache) (nMemPoolHeight flags tipHeight medianTimePast adjustedTime : Z)
| OpRemoveWithoutBranchId (nMemPoolBranchId : Z)
| OpAddAddressIndex (entry : CTxMemPoolEntry) (view : cache)
| OpAddSpentIndex (entry : CTxMemPoolEntry) (view : cache)
| OpPrioritise (hash : uint256) (dPriorityDelta : double) (nFeeDelta : Z)
| OpClearPrioritisation (hash : uint256)
| OpAddUpdated (n : Z)
| OpDrain
| OpIsRecentlyEvicted (now : Z) (txId : uint256)
| OpSetCostLimit (totalCostLimit evictionMemorySeconds : Z)
| OpEnsureSizeLimit (now : Z) (rand : nat -> Z -> Z).

Definition run_op (op : pool_op) p : result CTxMemPool :=
  match op with
  | OpAdd entry cur => addUnchecked (tx_hash (me_tx entry)) entry cur p
  | OpRemove tx rec => r ← remove tx [] rec p; Ok r.1
  | OpRemoveWithAnchor root ty => removeWithAnchor root ty p
  | OpRemoveConflicts tx => r ← removeConflicts tx [] p; Ok r.1
  | OpRemoveExpired h => r ← removeExpired h p; Ok r.2
  | OpRemoveForBlock vtx h cur => r ← removeForBlock vtx h [] cur p; Ok r.1
  | OpRemoveForReorg c height flags tip mtp adjusted => r ← removeForReorg c height flags tip mtp adjusted p; Ok r.1
  | OpRemoveWithoutBranchId b => removeWithoutBranchId b p
  | OpAddAddressIndex entry c => r ← addAddressIndex entry c p; Ok r.1
  | OpAddSpentIndex entry c => r ← addSpentIndex entry c p; Ok r.1
  | OpPrioritise hash d f => Ok (PrioritiseTransaction hash d f p)
  | OpClearPrioritisation hash => Ok (ClearPrioritisation hash p)
  | OpAddUpdated n => Ok (AddTransactionsUpdated n p)
  | OpDrain => r ← DrainRecentlyAdded p; Ok r.2
  | OpIsRecentlyEvicted now id => Ok (IsRecentlyEvicted now id p).2
  | OpSetCostLimit limit secs => SetMempoolCostLimit limit secs p
  | OpEnsureSizeLimit now rand => EnsureSizeLimit now rand p
  end.

(** When the node performs an operation: a transaction is added when nothing
    in the pool conflicts with it, the indexes when its inputs are found, the
    limit is set on an empty pool, transactions are evicted when the eviction
    weights add up to less than 2^31, and [removeForReorg] asserts nothing
    about the view it reads when the sanity checks are off. *)
Definition op_guard (op : pool_op) p : Prop :=
  match op with
  | OpAdd entry _ => addable p entry
  | OpRemoveForReorg c _ _ _ _ _ => cache_core c /\ nCheckFrequency p = 0
  | OpAddAddressIndex entry c | OpAddSpentIndex entry c => cache_core c /\ inputs_found (cache_abs c) (vin (me_tx entry))
  | OpSetCostLimit limit _ => mapTx p = ∅ /\ 0 <= limit
  | OpEnsureSizeLimit _ rand => evictable p /\ forall i, rand_ok (rand i)
  | _ => True
  end.

Fixpoint allowed (ops : list pool_op) p : Prop :=
  match ops with
  | [] => True
  | op :: ops => op_guard op p /\ forall p', run_op op p = Ok p' -> allowed ops p'
  end.
Definition run_ops (ops : list pool_op) p : result CTxMemPool := foldM (fun p op => run_op op p) ops p.

Context `{!PoolEnvLaws}.

Lemma drain_ok p : pool_wf p -> exists txs, DrainRecentlyAdded p = Ok (txs, nRecentlyAddedSequence p, set_recent ∅ p)
  /\ forall tx, tx ∈ txs -> exists e, mapTx p !! tx_hash tx = Some e /\ me_tx e = tx.
Proof.
  intros [C _ _]. unfold DrainRecentlyAdded. set (l := omap _ _). assert (Hl : Forall (fun h => is_Some (mapTx p !! h)) l).
  { apply Forall_forall. intros h Hh. apply list_elem_of_omap in Hh as (k & _ & Hk). by apply (pc_recent p C) in Hk as [_ ?]. }
  assert (Hd : forall txs0, (forall tx, tx ∈ txs0 -> exists e, mapTx p !! tx_hash tx = Some e /\ me_tx e = tx) ->
      exists txs, foldM (drain_step p) l txs0 = Ok txs /\ forall tx, tx ∈ txs -> exists e, mapTx p !! tx_hash tx = Some e /\ me_tx e = tx).
  { clearbody l. induction Hl as [|h l [e He] _ IH]; intros txs0 Hini; cbn [foldM]; [by eauto|]. replace (drain_step p txs0 h) with (Ok (txs0 ++ [me_tx e])) by (unfold drain_step; by rewrite (deref_tx_ok _ _ _ He)). cbn [mbind result_bind].
    apply IH. intros tx [Htx| ->%list_elem_of_singleton]%elem_of_app; [by apply Hini|]. exists e. by rewrite (pc_key p C _ _ He). }
  destruct (Hd []) as (txs & -> & Htxs); [by intros tx Hnil%not_elem_of_nil|]. exists txs. split; [done|done].
Qed.

Lemma run_op_ok op p : pool_wf p -> op_guard op p -> exists p', run_op op p = Ok p' /\ pool_wf p'.
Proof.
  intros W G. destruct op; cbn [run_op]; cbn [op_guard] in G.
  - destruct (addUnchecked_ok entry fCurrentEstimate p W G) as (p' & E & W' & _). by exists p'.
  - destruct (remove_wf fRecursive tx [] p W ltac:(constructor)) as (p' & l & -> & _ & T & _). exists p'. split; [done|apply T].
  - destruct (remove_selected (fun e => uses_anchor invalidRoot ty (me_tx e)) p W) as (p' & E & T & _). exists p'. split; [done|apply T].
  - destruct (removeConflicts_ok tx [] p W ltac:(constructor)) as (p' & l & -> & T & _). exists p'. split; [done|apply T].
  - unfold removeExpired. destruct (remove_selected (fun e => IsExpiredTx (me_tx e) nBlockHeight) p W) as (p' & -> & T & _). exists p'. split; [done|apply T].
  - destruct (removeForBlock_ok vtx nBlockHeight fCurrentEstimate p W) as (p' & l & -> & T & _). exists p'. split; [done|apply T].
  - destruct G as [Hc Hf]. destruct (removeForReorg_ok pcoins nMemPoolHeight flags tipHeight medianTimePast adjustedTime p W Hc Hf) as (p' & c' & txs & -> & T & _).
    exists p'. split; [done|apply T].
  - destruct (remove_selected (fun e => negb (me_nBranchId e =? nMemPoolBranchId)) p W) as (p' & E & T & _). exists p'. split; [done|apply T].
  - destruct G as [Hc Hi]. destruct (addAddressIndex_ok entry view p Hc Hi) as (x & c' & -> & _). eexists. split; [done|]. destruct W as [[] ? ?]. split; [by split|done|done].
  - destruct G as [Hc Hi]. destruct (addSpentIndex_ok entry view p Hc Hi) as (x & c' & -> & _). eexists. split; [done|]. destruct W as [[] ? ?]. split; [by split|done|done].
  - eexists. split; [done|]. destruct W as [[] ? ?]. split; [by split|done|done].
  - eexists. split; [done|]. destruct W as [[] ? ?]. split; [by split|done|done].
  - eexists. split; [done|]. destruct W as [[] ? ?]. split; [by split|done|done].
  - destruct (drain_ok p W) as (txs & -> & _). eexists. split; [done|]. destruct W as [[] ? ?]. split; [by split|done|done].
  - eexists. split; [done|]. unfold IsRecentlyEvicted. destruct (evicted_contains _ _ _). destruct W as [[] ? ?]. split; [by split|done|done].
  - destruct G as [He Hl]. unfold SetMempoolCostLimit, WeightedTxTree_new. apply Z.leb_le in Hl. rewrite Hl. eexists. split; [done|].
    destruct W as [C _ _]. split; [by apply set_limits_core|apply weights_wf_new|]. intros h. cbn. by rewrite He, lookup_empty.
  - destruct G as [Ev Hr]. unfold EnsureSizeLimit. destruct (ensure_loop_ok now rand _ Hr 0 p Ev (Nat.lt_succ_diag_r _)) as (p' & -> & Ev' & _). exists p'. split; [done|apply Ev'].
Qed.

Lemma run_ops_ok ops : forall p, pool_wf p -> allowed ops p -> exists p', run_ops ops p = Ok p' /\ pool_wf p'.
Proof.
  induction ops as [|op ops IH]; intros p W A; [by exists p|]. destruct A as [G A]. unfold run_ops. cbn [foldM].
  destruct (run_op_ok op p W G) as (p1 & E & W1). rewrite E. cbn [mbind result_bind]. by apply IH; [|apply A].
Qed.

(** ** The main theorems *)

(** (C19) The memory pool stays consistent.  From a new pool, every sequence of
    operations (adding transactions that conflict with nothing in the pool and
    indexing them, removing one with or without its descendants, conflicts,
    expired transactions, those of another branch or anchor, those of a block,
    those a reorganisation makes immature or not final, priorities,
    notifications, and evictions while the eviction weights add up to less than
    2^31) runs without a failed assertion or dangling pointer.  Of the
    operations that change a pool only [clear] is not among them: it leaves the
    nullifier maps as they are ([clear_keeps_nullifiers]); and the sanity
    checks of [check] are off.  In the pool it leaves, no two transactions spend the
    same output or reveal the same nullifier; [mapNextTx] and the nullifier
    maps describe exactly the transactions that are there; and the size and
    usage counters are their sums. *)
Theorem mempool_consistent (est : Estimator) (ops : list pool_op) (p0 : CTxMemPool)
  (Hnew : CTxMemPool_new est = Ok p0) (Hops : allowed ops p0) :
  exists p, run_ops ops p0 = Ok p
    /\ (forall h1 h2 e1 e2, mapTx p !! h1 = Some e1 -> mapTx p !! h2 = Some e2 -> h1 <> h2 ->
          (prevout <$> vin (me_tx e1)) ## (prevout <$> vin (me_tx e2))
          /\ sprout_nullifiers (me_tx e1) ## sprout_nullifiers (me_tx e2)
          /\ sapling_nullifiers (me_tx e1) ## sapling_nullifiers (me_tx e2))
    /\ (forall o h n, mapNextTx p !! o = Some (h, n) <-> exists e, mapTx p !! h = Some e /\ spends_at (me_tx e) n o)
    /\ (forall nf ty, nullifierExists nf ty p = true <->
          exists h e, mapTx p !! h = Some e /\ nf ∈ match ty with SPROUT => sprout_nullifiers (me_tx e) | SAPLING => sapling_nullifiers (me_tx e) end)
    /\ totalTxSize p = u64 (map_total me_nTxSize (mapTx p)) /\ cachedInnerUsage p = u64 (map_total me_nUsageSize (mapTx p)).
Proof.
  destruct (CTxMemPool_new_ok est) as (p1 & E1 & W1 & _). rewrite Hnew in E1. injection E1 as <-.
  destruct (run_ops_ok ops p0 W1 Hops) as (p & E & [C _ _]). exists p. split; [done|]. split_and!; [|exact (pc_next p C)| |exact (pc_size p C)|exact (pc_usage p C)].
  - intros h1 h2 e1 e2 H1 H2 Hne. split_and!; intros x Hx1 Hx2; destruct Hne; apply (pool_no_double_spend p h1 h2 e1 e2 C H1 H2); [left|right; left|right; right]; by exists x.
  - intros nf [|]; cbn [nullifierExists]; rewrite bool_decide_eq_true; unfold is_Some; [setoid_rewrite (pc_sprout p C)|setoid_rewrite (pc_sapling p C)]; done.
Qed.

(** (C20) Removals take out whole families and nothing else.  Removing a
    transaction of the pool recursively leaves exactly the transactions that
    do not descend from it, and lists every removed one once.  Likewise
    [removeExpired], [removeWithoutBranchId] and [removeWithAnchor] leave
    exactly the transactions of which neither they nor an ancestor in the pool
    has expired, commits to another branch, or uses the anchor. *)
Theorem removals_exact (p : CTxMemPool) (W : pool_wf p) :
  (forall h e, mapTx p !! h = Some e -> exists p' l, remove (me_tx e) [] true p = Ok (p', l) /\ pool_wf p'
     /\ (forall h' e', mapTx p' !! h' = Some e' <-> mapTx p !! h' = Some e' /\ ~ rtc (child p) h h')
     /\ NoDup l /\ forall tx, tx ∈ l <-> exists e', mapTx p !! tx_hash tx = Some e' /\ me_tx e' = tx /\ rtc (child p) h (tx_hash tx))
  /\ (forall height, exists ids p', removeExpired height p = Ok (ids, p') /\ pool_wf p'
     /\ forall h e, mapTx p' !! h = Some e <-> mapTx p !! h = Some e /\ ~ tainted (fun e => IsExpiredTx (me_tx e) height) p h)
  /\ (forall branch, exists p', removeWithoutBranchId branch p = Ok p' /\ pool_wf p'
     /\ forall h e, mapTx p' !! h = Some e <-> mapTx p !! h = Some e /\ ~ tainted (fun e => negb (me_nBranchId e =? branch)) p h)
  /\ (forall root ty, exists p', removeWithAnchor root ty p = Ok p' /\ pool_wf p'
     /\ forall h e, mapTx p' !! h = Some e <-> mapTx p !! h = Some e /\ ~ tainted (fun e => uses_anchor root ty (me_tx e)) p h).
Proof.
  assert (C : pool_core p) by apply W. split_and!.
  - intros h e He. destruct (remove_wf true (me_tx e) [] p W ltac:(constructor)) as (p' & l & E & M & T & _). exists p', l. split; [done|]. split; [apply T|].
    split; [|split; [apply M|]].
    + intros h' e'. rewrite (rm_tx _ _ _ _ M), (doomed_descendants p h e h' C He). done.
    + intros tx. rewrite (rm_listed _ _ _ _ M). by setoid_rewrite (doomed_descendants p h e _ C He).
  - intros height. unfold removeExpired. destruct (remove_selected (fun e => IsExpiredTx (me_tx e) height) p W) as (p' & -> & T & Hx).
    eexists _, p'. split; [done|]. split; [apply T|done].
  - intros branch. destruct (remove_selected (fun e => negb (me_nBranchId e =? branch)) p W) as (p' & E & T & Hx). exists p'. split; [done|]. split; [apply T|done].
  - intros root ty. destruct (remove_selected (fun e => uses_anchor root ty (me_tx e)) p W) as (p' & E & T & Hx). exists p'. split; [done|]. split; [apply T|done].
Qed.

(** (C21) After [removeForBlock] nothing in the pool is in the block, spends an
    output the block spends, or reveals a nullifier the block reveals; and
    what left the pool was in the block or descends from a transaction that
    conflicts with it.  Descendants of the block's own transactions stay. *)
Theorem removeForBlock_clean (vtx : list CTransaction) (nBlockHeight : Z) (fCurrentEstimate : bool) (p : CTxMemPool) (W : pool_wf p) :
  exists p' conflicted, removeForBlock vtx nBlockHeight [] fCurrentEstimate p = Ok (p', conflicted) /\ pool_wf p'
    /\ (forall tx h e, tx ∈ vtx -> mapTx p' !! h = Some e -> h <> tx_hash tx /\ ~ conflicts tx e)
    /\ mapTx p' ⊆ mapTx p
    /\ (forall h, is_Some (mapTx p !! h) -> mapTx p' !! h = None -> block_reason p vtx h)
    /\ Forall (fun tx => mapTx p' !! tx_hash tx = None) conflicted.
Proof.
  destruct (removeForBlock_ok vtx nBlockHeight fCurrentEstimate p W) as (p' & l & E & [W' Hsub Hr _ _] & Ha & Hc). by exists p', l.
Qed.

(** (C22) Evictions end within the limit.  When the eviction weights of a
    consistent pool add up to less than 2^31 ([evictable]; a total cost below
    2^31 / 5 is enough by [evictable_costs], and the default limit is 80,000,000) and
    the random numbers are in range, [EnsureSizeLimit] returns: the total cost
    of the pool is then within the limit, the pool is consistent and without
    orphans (a transaction never stays when a transaction it spends from was
    evicted), and a pool within the limit is not touched.  Without the bound
    the search of [findByEvictionWeight], which truncates weights to [int],
    need not end ([eviction_truncates]). *)
Theorem EnsureSizeLimit_terminates (now : Z) (rand : nat -> Z -> Z) (p : CTxMemPool) (Ev : evictable p) (Hr : forall i, rand_ok (rand i)) :
  exists p', EnsureSizeLimit now rand p = Ok p' /\ pool_wf p'
    /\ total_w cost (weightedTxTree p') <= wt_capacity (weightedTxTree p)
    /\ mapTx p' ⊆ mapTx p
    /\ (forall h h', child p h h' -> mapTx p' !! h = None -> mapTx p' !! h' = None)
    /\ (total_w cost (weightedTxTree p) <= wt_capacity (weightedTxTree p) -> p' = p).
Proof.
  unfold EnsureSizeLimit. destruct (ensure_loop_ok now rand _ Hr 0 p Ev (Nat.lt_succ_diag_r _)) as (p' & E & Ev' & Hlim & Hsub & Hc & Hid & Hcl).
  exists p'. split; [done|]. split; [apply Ev'|]. split; [by rewrite <- Hc|]. done.
Qed.

(** [clear] empties the pool but not its nullifier maps: a nullifier of a
    transaction that was in the pool counts as present afterwards, although no
    transaction is left, so that its transaction is refused from then on. *)
Lemma clear_keeps_nullifiers (p : CTxMemPool) nf ty h e : pool_wf p -> mapTx p !! h = Some e ->
  nf ∈ match ty with SPROUT => sprout_nullifiers (me_tx e) | SAPLING => sapling_nullifiers (me_tx e) end ->
  mapTx (clear p) = ∅ /\ nullifierExists nf ty (clear p) = true.
Proof.
  intros [C _ _] He Hnf. split; [done|]. destruct ty; apply bool_decide_eq_true; exists h; [apply (pc_sprout p C)|apply (pc_sapling p C)]; eauto.
Qed.
End Safety.

(** ** Examples *)

#[local] Instance example_env : PoolEnv := {|
  Estimator := unit;
  est_processTransaction _ _ est := est;
  est_removeTx _ est := est;
  est_processBlock _ _ _ est := est;
  RecursiveDynamicUsage _ := 5000;
  fAddressIndex := true;
  fSpentIndex := true;
  walk m := (map_to_list m).*2
|}.
#[local] Instance example_env_laws : PoolEnvLaws.
Proof. intros m. reflexivity. Qed.

Definition example_tx (hash : uint256) (ins : list COutPoint) (outputs : nat) : CTransaction :=
  mkCTransaction hash (mkTx false 1 0 ((fun o => mkCTxIn o [] 0) <$> ins) (replicate outputs (mkCTxOut 10 [] 0)) 0 0 0 [] [] [] [] [] []).
Definition example_entry (hash : uint256) (ins : list COutPoint) (outputs : nat) : CTxMemPoolEntry :=
  mkEntry (example_tx hash ins outputs) 1000 200 150 5000 (CFeeRate_of 1000 200) 0 double_zero 100 true false 7.

(** 1 spends from the chain; 2 and 3 spend from 1; 4 spends from the chain. *)
Definition example_entries : list CTxMemPoolEntry := [
  example_entry 1 [mkCOutPoint 100 0] 2;
  example_entry 2 [mkCOutPoint 1 0] 1;
  example_entry 3 [mkCOutPoint 1 1; mkCOutPoint 101 0] 1;
  example_entry 4 [mkCOutPoint 102 5] 1].
Definition add_all (l : list CTxMemPoolEntry) (p : CTxMemPool) : result CTxMemPool :=
  foldM (fun p e => addUnchecked (tx_hash (me_tx e)) e true p) l p.
Definition example_new : CTxMemPool := match CTxMemPool_new tt with Ok p => p | _ => mkPool _ 0 0 tt 0 0 ∅ 0 0 ∅ ∅ (mkEvicted 0 0 [] ∅) (mkTree 0 0 [] [] ∅) ∅ (mkPoolIndex ∅ ∅ ∅ ∅) ∅ ∅ end.
Definition example_pool : CTxMemPool := match add_all example_entries example_new with Ok p => p | _ => example_new end.

(** Adding is decidable on a concrete pool. *)
Definition addableb (p : CTxMemPool) (e : CTxMemPoolEntry) : bool :=
  bool_decide (mapTx p !! tx_hash (me_tx e) = None) && bool_decide (NoDup (prevout <$> vin (me_tx e)))
  && forallb (fun i => bool_decide (mapNextTx p !! prevout i = None)) (vin (me_tx e))
  && forallb (fun nf => negb (nullifierExists nf SPROUT p)) (sprout_nullifiers (me_tx e))
  && forallb (fun nf => negb (nullifierExists nf SAPLING p)) (sapling_nullifiers (me_tx e)).
Lemma addableb_ok p e : addableb p e = true -> addable p e.
Proof.
  unfold addableb. rewrite !andb_true_iff, !forallb_forall, !bool_decide_eq_true. intros [[[[H1 H2] H3] H4] H5]. split; [done|done|..].
  - intros i Hi. apply list_elem_of_In in Hi. by apply H3, bool_decide_eq_true in Hi.
  - intros nf Hnf. apply list_elem_of_In in Hnf. by apply H4, negb_true_iff in Hnf.
  - intros nf Hnf. apply list_elem_of_In in Hnf. by apply H5, negb_true_iff in Hnf.
Qed.
Fixpoint adds_ok (l : list CTxMemPoolEntry) (p : CTxMemPool) : bool :=
  match l with
  | [] => true
  | e :: l => addableb p e && match addUnchecked (tx_hash (me_tx e)) e true p with Ok p' => adds_ok l p' | _ => false end
  end.
Lemma add_all_wf l : forall p, pool_wf p -> adds_ok l p = true -> exists p', add_all l p = Ok p' /\ pool_wf p'.
Proof.
  induction l as [|e l IH]; intros p W Hok; [by exists p|]. cbn [adds_ok] in Hok. apply andb_true_iff in Hok as [Ha Hok].
  destruct (addUnchecked_ok e true p W (addableb_ok p e Ha)) as (p1 & E & W1 & _). unfold add_all. cbn [foldM]. rewrite E in Hok |- *. by apply IH.
Qed.

Lemma example_new_wf : pool_wf example_new.
Proof. destruct (CTxMemPool_new_ok (H:=example_env) tt) as (p0 & E0 & W0 & _). unfold example_new. by rewrite E0. Qed.
Lemma example_pool_wf : pool_wf example_pool.
Proof.
  destruct (add_all_wf example_entries example_new example_new_wf) as (p & E & W); [by vm_compute|]. unfold example_pool. by rewrite E.
Qed.

(** Removing 1 takes 2 and 3 along. *)
Lemma removals_exact_witness : exists p' l, remove (example_tx 1 [mkCOutPoint 100 0] 2) [] true example_pool = Ok (p', l)
  /\ tx_hash <$> l = [1; 2; 3] /\ pool_wf p'
  /\ (forall h e, mapTx p' !! h = Some e <-> mapTx example_pool !! h = Some e /\ ~ rtc (child example_pool) 1 h).
Proof.
  destruct (removals_exact example_pool example_pool_wf) as [Hr _].
  destruct (Hr 1 (example_entry 1 [mkCOutPoint 100 0] 2)) as (p' & l & E & W & Hx & _); [by vm_compute|].
  exists p', l. split; [exact E|]. split; [|split; [exact W|exact Hx]]. vm_compute in E. injection E as _ <-. done.
Defined.

(** A block with 1 and a double spend of 4's input: 2 and 3 stay. *)
Lemma removeForBlock_clean_witness : exists p' conflicted,
  removeForBlock [example_tx 1 [mkCOutPoint 100 0] 2; example_tx 9 [mkCOutPoint 102 5] 1] 101 [] true example_pool = Ok (p', conflicted)
  /\ tx_hash <$> conflicted = [4] /\ is_Some (mapTx p' !! 2) /\ is_Some (mapTx p' !! 3)
  /\ forall h, is_Some (mapTx p' !! h) -> h <> 1 /\ h <> 9.
Proof.
  destruct (removeForBlock_clean [example_tx 1 [mkCOutPoint 100 0] 2; example_tx 9 [mkCOutPoint 102 5] 1] 101 true example_pool example_pool_wf)
    as (p' & l & E & _ & Hc & _).
  exists p', l. split; [done|]. split_and!.
  - vm_compute in E. injection E as _ <-. done.
  - vm_compute in E. injection E as <- _. by eexists.
  - vm_compute in E. injection E as <- _. by eexists.
  - intros h [e He]. split; [exact (proj1 (Hc _ h e ltac:(left) He))|exact (proj1 (Hc _ h e ltac:(right; left) He))].
Defined.

(** The same transactions under a limit for two of them. *)
Definition example_limited : CTxMemPool := match SetMempoolCostLimit 12000 3600 example_new with Ok p => p | _ => example_new end.
Definition example_full : CTxMemPool := match add_all example_entries example_limited with Ok p => p | _ => example_new end.

Lemma example_full_evictable : evictable example_full.
Proof.
  assert (W1 : pool_wf example_limited).
  { destruct example_new_wf as [C _ _]. split; [by apply set_limits_core|apply weights_wf_new|]. intros h. done. }
  destruct (add_all_wf example_entries example_limited W1) as (p & E & W); [by vm_compute|]. assert (p = example_full) as -> by (unfold example_full; by rewrite E).
  split; [done| |by vm_compute|by vm_compute]. split; [|by vm_compute].
  apply Forall_forall. intros x Hx. vm_compute in Hx. set_unfold in Hx. repeat destruct Hx as [->|Hx]; cbn; lia || done.
Qed.

(** The first draw evicts 2, the next 3, which nothing else depends on. *)
Lemma EnsureSizeLimit_terminates_witness : exists p', EnsureSizeLimit 0 (fun _ m => m - 1) example_full = Ok p' /\ pool_wf p'
  /\ total_w cost (weightedTxTree p') <= 12000 /\ ~ total_w cost (weightedTxTree example_full) <= 12000.
Proof.
  destruct (EnsureSizeLimit_terminates 0 (fun _ m => m - 1) example_full example_full_evictable) as (p' & E & W & Hl & _).
  - intros i m Hm. lia.
  - exists p'. split; [done|]. split; [done|]. split; [exact Hl|]. vm_compute. intros Hc. by apply Hc.
Defined.
