(* ===== verification/PoolCheck.v ===== *)
(** * The consistency check of the memory pool

    txmempool.cpp: [CTxMemPool::check] and [checkNullifiers], the assertions
    that a node started with -checkmempool runs on its pool: every input is
    available and recorded, nullifiers are unspent, all transactions can be
    applied in some order, the maps point back into the pool, and the totals
    are right.  The assertions on the pool alone follow from its invariant. *)
From stdpp Require Import prelude gmap strings list sorting relations.
From S2P Require Import Prelude Transaction Script Interpreter Serialize TxSerialize SigHash Double Coins History CoinsView CoinsLaws CoinsCache CoinsOps UpdateCoins ChainParams Chain Checks CheckTx CheckInputs ConnectBlock MempoolLimit TxMemPool PoolLaws PoolRemovals PoolSafety PoolCoins.
#[local] Open Scope Z_scope.

(** ** The pool against its own maps *)

Section Structure.
Context `{PoolEnv}.
Implicit Types p : CTxMemPool.

(** [mapNextTx] points at inputs of transactions of the pool.  The entry found
    is read before it is compared with [end()]. *)
Definition check_next_entry p (x : COutPoint * (uint256 * Z)) : result unit :=
  let '(o, (ptx, n)) := x in
  tx ← deref_tx p ptx;
  tx' ← deref_tx p (tx_hash tx);
  _ ← assert_true (tx_hash tx' =? ptx);
  _ ← assert_true (n <? Z.of_nat (length (vin (tx_body tx'))));
  i ← index_or_abort (vin (tx_body tx)) (Z.to_nat n);
  assert_true (bool_decide (o = prevout i)).
Definition check_next p : result unit := foldM (fun _ x => check_next_entry p x) (map_to_list (mapNextTx p)) tt.

Definition check_nullifier_entry p (x : uint256 * uint256) : result unit :=
  tx ← deref_tx p x.2;
  tx' ← deref_tx p (tx_hash tx);
  assert_true (tx_hash tx' =? x.2).
Definition checkNullifiers (ty : ShieldedType) p : result unit :=
  foldM (fun _ x => check_nullifier_entry p x)
    (map_to_list match ty with SPROUT => mapSproutNullifiers p | SAPLING => mapSaplingNullifiers p end) tt.

(** [checkTotal] and [innerUsage]. *)
Definition check_sizes p : result unit :=
  let checkTotal := foldl (fun z e => u64 (z + me_nTxSize e)) 0 (walk (mapTx p)) in
  let innerUsage := foldl (fun z e => u64 (z + me_nUsageSize e)) 0 (walk (mapTx p)) in
  _ ← assert_true (totalTxSize p =? checkTotal);
  assert_true (innerUsage =? cachedInnerUsage p).
End Structure.

(** ** The pool against the coins *)

Section Check.
Context {SpT SaT V : Type} `{!MerkleTree SpT, !MerkleTree SaT, !CCoinsView SpT SaT V}.
Context `{PoolEnv} `{SigHashCrypto} `{ScriptCrypto}.
Local Abbreviation cache := (CCoinsViewCache SpT SaT V).
(** [mempoolDuplicate], a cache over [pcoins]: the coins that the check reads
    from [pcoins] are those of its base. *)
Local Abbreviation dup_t := (CCoinsViewCache SpT SaT cache).
Implicit Types (p : CTxMemPool) (d : dup_t).

(** A read of [pcoins] while [mempoolDuplicate] is on top of it. *)
Definition read_pcoins {A} (f : cache -> A * cache) d : A * dup_t := let '(a, c) := f (base d) in (a, mkCache c (hasModifier d) (maps d)).

(** One input: whether it depends on the pool. *)
Definition check_pool_input p (hash : uint256) (s : bool * dup_t) (i_in : Z * CTxIn) : result (bool * dup_t) :=
  let '(i, txin) := i_in in
  let o := prevout txin in
  r ← match mapTx p !! out_hash o with
      | Some e2 =>
          _ ← assert_true (match tx_vout (me_tx e2) !! Z.to_nat (out_n o) with Some x => negb (CTxOut_IsNull x) | None => false end);
          Ok (true, s.2)
      | None =>
          let '(coins, d) := read_pcoins (Cache_AccessCoins (out_hash o)) s.2 in
          _ ← assert_true (match coins with Some coins => CCoins_IsAvailable coins (Z.to_nat (out_n o)) | None => false end);
          Ok (s.1, d)
      end;
  match mapNextTx p !! o with
  | None => Abort
  | Some (ptx, n) => _ ← assert_true (ptx =? hash); _ ← assert_true (n =? i); Ok r
  end.

Definition unspent_nullifier (ty : ShieldedType) d (nf : uint256) : result dup_t :=
  let '(spent, d) := read_pcoins (Cache_GetNullifier nf ty) d in _ ← assert_true (negb spent); Ok d.

Definition check_pool_joinsplit (s : gmap uint256 SpT * dup_t) (js : JSDescription) : result (gmap uint256 SpT * dup_t) :=
  d ← foldM (unspent_nullifier SPROUT) (js_nullifiers js) s.2;
  r ← match s.1 !! js_anchor js with
      | Some tree => Ok (tree, d)
      | None => let '(tree, d) := read_pcoins (Cache_GetSproutAnchorAt (js_anchor js)) d in
                match tree with Some tree => Ok (tree, d) | None => Abort end
      end;
  tree ← foldM (fun t cm => tree_append cm t) (js_commitments js) r.1;
  Ok (map_add (tree_root tree) tree s.1, r.2).

Definition check_pool_spend d (sd : SpendDescription) : result dup_t :=
  let '(tree, d) := read_pcoins (Cache_GetSaplingAnchorAt (sd_anchor sd)) d in
  _ ← assert_true (bool_decide (is_Some tree));
  unspent_nullifier SAPLING d (sd_nullifier sd).

(** [CheckTxInputs] must hold; then the transaction is applied. *)
Definition apply_pool_tx (params : CChainParams) (nSpendHeight : Z) (tx : CTransaction) d : result dup_t :=
  protected ← GetCoinbaseProtected params nSpendHeight;
  d ← (if IsCoinBase tx then Ok d
       else match CheckTxInputs tx nSpendHeight (consensus params) protected d with
            | (Pass _, d) => Ok d
            | (Raise msg, _) => Throw msg
            | (Fail _, _) | (Halt, _) => Abort
            end);
  r ← UpdateCoins tx d (mkTxUndo []) 1000000; Ok r.2.

(** One entry: those that depend on the pool wait. *)
Definition check_pool_entry (params : CChainParams) (nSpendHeight : Z) p (s : list CTxMemPoolEntry * dup_t) (e : CTxMemPoolEntry)
  : result (list CTxMemPoolEntry * dup_t) :=
  let tx := me_tx e in
  r ← foldM (check_pool_input p (tx_hash tx)) (number (vin tx)) (false, s.2);
  j ← foldM check_pool_joinsplit (vjoinsplit tx) (∅, r.2);
  d ← foldM check_pool_spend (vShieldedSpend tx) j.2;
  if r.1 : bool then Ok (s.1 ++ [e], d)
  else d ← apply_pool_tx params nSpendHeight tx d; Ok (s.1, d).

(** [while (!waitingOnDependants.empty())]: an entry whose inputs are not
    there yet goes to the back, at most as often as entries wait. *)
Fixpoint wait_loop (fuel : nat) (params : CChainParams) (nSpendHeight : Z) (waiting : list CTxMemPoolEntry) (steps : nat) d : result dup_t :=
  match waiting with
  | [] => Ok d
  | e :: l =>
      match fuel with
      | O => Abort
      | S fuel' =>
          let '(have, d) := Cache_HaveInputs (me_tx e) d in
          if negb have then
            _ ← assert_true (S steps <? length (l ++ [e]))%nat;
            wait_loop fuel' params nSpendHeight (l ++ [e]) (S steps) d
          else
            d ← apply_pool_tx params nSpendHeight (me_tx e) d;
            wait_loop fuel' params nSpendHeight l 0 d
      end
  end.

(** [rand] is [GetRand(2^32 - 1)].  Returns [pcoins], which has been read. *)
Definition CTxMemPool_check (rand : Z) (params : CChainParams) (mapBlockIndex : BlockMap) (pcoins : cache) p : result cache :=
  if nCheckFrequency p =? 0 then Ok pcoins
  else if nCheckFrequency p <=? rand then Ok pcoins
  else
    match GetSpendHeight mapBlockIndex (mkCache pcoins false maps_empty : dup_t) with
    | (Pass nSpendHeight, d) =>
        r ← foldM (check_pool_entry params nSpendHeight p) (walk (mapTx p)) ([], d);
        d ← wait_loop (S (length r.1) * S (length r.1)) params nSpendHeight r.1 0 r.2;
        _ ← check_next p;
        _ ← checkNullifiers SPROUT p;
        _ ← checkNullifiers SAPLING p;
        _ ← check_sizes p;
        Ok (base d)
    | (Raise msg, _) => Throw msg
    | (Fail _, _) | (Halt, _) => Abort
    end.
End Check.

(** ** The assertions on the pool hold *)

Section StructureLaws.
Context `{PoolEnv} `{!PoolEnvLaws}.
Implicit Types p : CTxMemPool.

Lemma foldM_each {A} (f : A -> result unit) l : (forall x, x ∈ l -> f x = Ok tt) -> foldM (fun _ x => f x) l tt = Ok tt.
Proof.
  intros Hf. induction l as [|x l IH]; [done|]. cbn [foldM]. rewrite (Hf x) by (by left). cbn [mbind result_bind]. apply IH. intros y Hy. apply Hf. by right.
Qed.

Lemma wrapped_total (f : CTxMemPoolEntry -> Z) (l : list CTxMemPoolEntry) : forall z, foldl (fun z e => u64 (z + f e)) (u64 z) l = u64 (z + foldr (fun e z => f e + z) 0 l).
Proof.
  induction l as [|e l IH]; intros z; cbn [foldl foldr]; [by rewrite Z.add_0_r|]. rewrite u64_add_l, IH. f_equal. lia.
Qed.

Lemma walk_total (f : CTxMemPoolEntry -> Z) m : foldl (fun z e => u64 (z + f e)) 0 (walk m) = u64 (map_total f m).
Proof.
  change 0 with (u64 0) at 1. rewrite wrapped_total, Z.add_0_l. f_equal. unfold map_total. rewrite map_fold_foldr.
  transitivity (foldr (fun e z => f e + z) 0 (map_to_list m).*2).
  - apply foldr_permutation; [apply _|solve_proper| |apply walk_all]. intros j1 a1 j2 a2 b _ _ _. lia.
  - induction (map_to_list m) as [|[k e] l IH]; [done|]. cbn. by rewrite IH.
Qed.

(** A well-formed pool passes its structural assertions. *)
Lemma check_structure p : pool_wf p ->
  check_next p = Ok tt /\ checkNullifiers SPROUT p = Ok tt /\ checkNullifiers SAPLING p = Ok tt /\ check_sizes p = Ok tt.
Proof.
  intros [C _ _]. split; [|split; [|split]].
  - apply foldM_each. intros [o [h n]] Hx%elem_of_map_to_list. apply (pc_next p C) in Hx as (e & He & Hn & Hs). apply fmap_Some in Hs as (i & Hi & ->).
    unfold check_next_entry. rewrite (deref_tx_ok _ _ _ He). cbn [mbind result_bind]. rewrite (pc_key p C _ _ He), (deref_tx_ok _ _ _ He). cbn [mbind result_bind].
    rewrite (pc_key p C _ _ He), Z.eqb_refl. cbn [mbind result_bind assert_true]. apply lookup_lt_Some in Hi as Hlt.
    rewrite (proj2 (Z.ltb_lt n (Z.of_nat (length (vin (me_tx e)))))) by lia. unfold index_or_abort. rewrite Hi. cbn [mbind result_bind assert_true].
    by rewrite bool_decide_true.
  - apply foldM_each. intros [nf h] Hx%elem_of_map_to_list. apply (pc_sprout p C) in Hx as (e & He & _). unfold check_nullifier_entry. cbn [snd].
    rewrite (deref_tx_ok _ _ _ He). cbn [mbind result_bind]. by rewrite (pc_key p C _ _ He), (deref_tx_ok _ _ _ He); cbn [mbind result_bind]; rewrite (pc_key p C _ _ He), Z.eqb_refl.
  - apply foldM_each. intros [nf h] Hx%elem_of_map_to_list. apply (pc_sapling p C) in Hx as (e & He & _). unfold check_nullifier_entry. cbn [snd].
    rewrite (deref_tx_ok _ _ _ He). cbn [mbind result_bind]. by rewrite (pc_key p C _ _ He), (deref_tx_ok _ _ _ He); cbn [mbind result_bind]; rewrite (pc_key p C _ _ He), Z.eqb_refl.
  - unfold check_sizes. rewrite !walk_total, (pc_size p C), (pc_usage p C), !Z.eqb_refl. done.
Qed.
End StructureLaws.
