(* ===== verification/AcceptToPool.v ===== *)
(** * Admission to the memory pool

    main.cpp: [AcceptToMemoryPool] with the policy it enforces ([IsStandardTx],
    [AreInputsStandard], [GetMinRelayFee], the limiter of free transactions),
    and [AcceptableInputs], its variant for the inputs of masternodes.

    The inputs are looked up in a coins cache over [CCoinsViewMemPool].  When
    all of them are in the cache, [SetBackend] puts an empty view below it, and
    everything after runs on what the cache holds. *)
From stdpp Require Import prelude gmap strings list pretty.
From S2P Require Import Prelude Transaction Script Interpreter Serialize TxSerialize SigHash Standard Double Coins History CoinsView CoinsLaws CoinsCache CoinsOps UpdateCoins ChainParams Chain Checks CheckTx CheckInputs ConnectBlock MempoolLimit TxMemPool PoolLaws PoolRemovals PoolSafety PoolCoins.
#[local] Open Scope Z_scope.

(** ** Constants and the environment *)

Definition SPROUT_MIN_CURRENT_VERSION : Z := 1.
Definition SPROUT_MAX_CURRENT_VERSION : Z := 2.
Definition OVERWINTER_MIN_CURRENT_VERSION : Z := 3.
Definition OVERWINTER_MAX_CURRENT_VERSION : Z := 3.
Definition SAPLING_MIN_CURRENT_VERSION : Z := 4.
Definition SAPLING_MAX_CURRENT_VERSION : Z := 4.

Definition DEFAULT_BLOCK_MAX_SIZE : Z := 2000000.
Definition DEFAULT_BLOCK_PRIORITY_SIZE : Z := DEFAULT_BLOCK_MAX_SIZE / 2.
Definition MAX_P2SH_SIGOPS : Z := 15.
Definition MAX_STANDARD_TX_SIGOPS : Z := MAX_BLOCK_SIGOPS / 5.
Definition DEFAULT_MIN_RELAY_TX_FEE : Z := 100.
Definition MAX_PRIORITY : double := double_of (10 ^ 16).

(** What admission reads of the node: the tip, the clocks, the block index,
    the options of the command line and the proof verifier.  [env_time] and
    [env_nNow] are the two calls of [GetTime]; [env_pow] is [pow] of libm. *)
Record AcceptEnv := mkAcceptEnv {
  env_height : Z;
  env_medianTimePast : Z;
  env_adjusted : Z;
  env_time : Z;
  env_nNow : Z;
  env_blocks : BlockMap;
  env_ibd : bool;
  env_RequireStandard : bool;
  env_minRelayTxFee : CFeeRate;
  env_fIsBareMultisigStd : bool;
  env_datacarrier : bool;
  env_nMaxDatacarrierBytes : Z;
  env_mempooltxinputlimit : Z;
  env_relaypriority : bool;
  env_limitfreerelay : Z;
  env_pow : double -> double -> double;
  env_VerifySprout : JSDescription -> bytes -> bool
}.

(** [uint256::ToString]. *)
Definition uint256_ToString (h : uint256) : string :=
  String.string_of_list_ascii ((fun i => hex_digit (Z.shiftr h (4 * i) mod 16)) <$> reverse (seqZ 0 64)).

(** ** Priorities and dust *)

Definition ComputePriority (tx : CTransaction) (dPriorityInputs : double) (nTxSize : Z) : result double :=
  nSerSize ← (if nTxSize =? 0 then GetSerializeSize_tx tx else Ok 0);
  let nTxSize := CalculateModifiedSize (u32 nSerSize) tx nTxSize in
  Ok (if nTxSize =? 0 then double_zero else double_div dPriorityInputs (double_of nTxSize)).

Definition GetDustThreshold (o : CTxOut) (minRelayTxFee : CFeeRate) : result Z :=
  if CScript_IsUnspendable (scriptPubKey o) then Ok 0
  else
    b ← ser_CTxOut o;
    Ok (i64 (3 * CFeeRate_GetFee minRelayTxFee (Z.of_nat (length b) + 148))).
Definition IsDust (o : CTxOut) (minRelayTxFee : CFeeRate) : result bool :=
  t ← GetDustThreshold o minRelayTxFee; Ok (nValue o <? t).

(** ** Standard transactions *)

Section Policy.
Context (chainparams : CChainParams) (env : AcceptEnv).

Definition standard_version (tx : CTransaction) (nHeight : Z) : result (option string) :=
  overwinterActive ← NetworkUpgradeActive nHeight (consensus chainparams) UPGRADE_OVERWINTER;
  saplingActive ← NetworkUpgradeActive nHeight (consensus chainparams) UPGRADE_SAPLING;
  let outside lo hi := (hi <? tx_nVersion tx) || (tx_nVersion tx <? lo) in
  Ok (if saplingActive : bool then
        if outside SAPLING_MIN_CURRENT_VERSION SAPLING_MAX_CURRENT_VERSION then Some "sapling-version" else None
      else if overwinterActive : bool then
        if outside OVERWINTER_MIN_CURRENT_VERSION OVERWINTER_MAX_CURRENT_VERSION then Some "overwinter-version" else None
      else if outside SPROUT_MIN_CURRENT_VERSION SPROUT_MAX_CURRENT_VERSION then Some "version" else None)%string.

Fixpoint standard_inputs (l : list CTxIn) : option string :=
  match l with
  | [] => None
  | txin :: l' =>
      if 1650 <? Z.of_nat (length (scriptSig txin)) then Some "scriptsig-size"%string
      else if negb (CScript_IsPushOnly (scriptSig txin)) then Some "scriptsig-not-pushonly"%string
      else standard_inputs l'
  end.

(** [inl] is the reason, [inr] the number of data outputs. *)
Fixpoint standard_outputs (l : list CTxOut) (nDataOut : Z) : result (string + Z) :=
  match l with
  | [] => Ok (inr nDataOut)
  | txout :: l' =>
      r ← IsStandard (env_datacarrier env) (env_nMaxDatacarrierBytes env) (scriptPubKey txout);
      if negb r.1 then Ok (inl "scriptpubkey"%string)
      else if bool_decide (r.2 = TX_NULL_DATA) then standard_outputs l' (u32 (nDataOut + 1))
      else if bool_decide (r.2 = TX_MULTISIG) && negb (env_fIsBareMultisigStd env) then Ok (inl "bare-multisig"%string)
      else
        dust ← IsDust txout (env_minRelayTxFee env);
        if dust : bool then Ok (inl "dust"%string) else standard_outputs l' nDataOut
  end.

(** [IsStandardTx]: [None] when the transaction is standard, else the reason. *)
Definition IsStandardTx (tx : CTransaction) (nHeight : Z) : result (option string) :=
  v ← standard_version tx nHeight;
  match v with
  | Some reason => Ok (Some reason)
  | None =>
      match standard_inputs (vin tx) with
      | Some reason => Ok (Some reason)
      | None =>
          o ← standard_outputs (tx_vout tx) 0;
          Ok (match o with
              | inl reason => Some reason
              | inr nDataOut => if 1 <? nDataOut then Some "multi-op-return"%string else None
              end)
      end
  end.

(** ** Relay fees *)

Definition GetMinRelayFee `{PoolEnv} (mempool : CTxMemPool) (tx : CTransaction) (nBytes : Z) (fAllowFree : bool) : Z :=
  let '(dPriorityDelta, nFeeDelta) := ApplyDeltas (tx_hash tx) double_zero 0 mempool in
  if double_gt dPriorityDelta double_zero || (0 <? nFeeDelta) then 0
  else
    let nMinFee := CFeeRate_GetFee (env_minRelayTxFee env) nBytes in
    let nMinFee := if fAllowFree && (nBytes <? DEFAULT_BLOCK_PRIORITY_SIZE - 1000) then 0 else nMinFee in
    if negb (MoneyRange nMinFee) then MAX_MONEY else nMinFee.

(** The static variables of the limiter of free transactions. *)
Record FreeLimiter := mkLimiter { dFreeCount : double; nLastTime : Z }.

(** A window of about ten minutes that decays exponentially; false when the
    transaction is rejected. *)
Definition limit_free (limitfreerelay nSize : Z) (l : FreeLimiter) : bool * FreeLimiter :=
  let rate := double_sub (double_of 1) (double_div (double_of 1) (double_of 600)) in
  let count := double_mul (dFreeCount l) (env_pow env rate (double_of (i64 (env_nNow env - nLastTime l)))) in
  if double_ge count (double_of (i64 (limitfreerelay * 10 * 1000))) then (false, mkLimiter count (env_nNow env))
  else (true, mkLimiter (double_add count (double_of nSize)) (env_nNow env)).
End Policy.

(** ** Policy that looks at the inputs *)

(** [BaseSignatureChecker] itself: every check fails. *)
#[global] Instance NoSignatureChecker : BaseSignatureChecker unit := {
  CheckSig _ _ _ _ _ := Ok false;
  CheckLockTime _ _ := Ok false
}.

Section Inputs.
Context {SpT SaT V : Type} `{!MerkleTree SpT, !MerkleTree SaT, !CCoinsView SpT SaT V}.
Context `{ScriptCrypto}.
Local Abbreviation cache := (CCoinsViewCache SpT SaT V).

(** The script signature must leave exactly the arguments that the output and,
    for a script hash, the redeem script expect: [Some b] is a return of [b]
    from the loop. *)
Definition input_standard (consensusBranchId : Z) (txin : CTxIn) (prev : CTxOut) : result (option bool) :=
  s ← Solver (scriptPubKey prev);
  let '(ok, whichType, vSolutions) := s in
  if negb ok then Ok (Some false)
  else
    let nArgsExpected := ScriptSigArgsExpected whichType vSolutions in
    if nArgsExpected <? 0 then Ok (Some false)
    else
      r ← EvalScript (scriptSig txin) SCRIPT_VERIFY_NONE tt consensusBranchId [];
      match (r : ScriptError + list valtype) with
      | inl _ => Ok (Some false)
      | inr stack =>
          let count n := Ok (if negb (Z.of_nat (length stack) =? u32 n) then Some false else None) in
          if bool_decide (whichType = TX_SCRIPTHASH) then
            match stack with
            | [] => Ok (Some false)
            | subscript :: _ =>
                s2 ← Solver subscript;
                let '(ok2, whichType2, vSolutions2) := s2 in
                if ok2 : bool then
                  let tmpExpected := ScriptSigArgsExpected whichType2 vSolutions2 in
                  if tmpExpected <? 0 then Ok (Some false) else count (nArgsExpected + tmpExpected)
                else Ok (Some (CScript_GetSigOpCount subscript true <=? MAX_P2SH_SIGOPS))
            end
          else count nArgsExpected
      end.

Fixpoint are_inputs_standard (consensusBranchId : Z) (l : list CTxIn) (mapInputs : cache) : result (bool * cache) :=
  match l with
  | [] => Ok (true, mapInputs)
  | txin :: l' =>
      r ← Cache_GetOutputFor txin mapInputs;
      b ← input_standard consensusBranchId txin r.1;
      match b with
      | Some b => Ok (b, r.2)
      | None => are_inputs_standard consensusBranchId l' r.2
      end
  end.
Definition AreInputsStandard (tx : CTransaction) (mapInputs : cache) (consensusBranchId : Z) : result (bool * cache) :=
  if IsCoinBase tx then Ok (true, mapInputs) else are_inputs_standard consensusBranchId (vin tx) mapInputs.

(** [CCoinsViewCache::GetPriority]. *)
Definition priority_step (nHeight : Z) (s : double * cache) (txin : CTxIn) : result (double * cache) :=
  let '(coins, c) := Cache_AccessCoins (out_hash (prevout txin)) s.2 in
  match coins with
  | None => Abort
  | Some coins =>
      let n := Z.to_nat (out_n (prevout txin)) in
      if negb (CCoins_IsAvailable coins n) then Ok (s.1, c)
      else if Coins.nHeight coins <? nHeight then
        o ← index_or_abort (vout coins) n;
        Ok (double_add s.1 (double_of (i64 (nValue o * (nHeight - Coins.nHeight coins)))), c)
      else Ok (s.1, c)
  end.
Definition Cache_GetPriority (tx : CTransaction) (nHeight : Z) (c : cache) : result (double * cache) :=
  if IsCoinBase tx then Ok (double_zero, c)
  else if has_shielded tx then Ok (MAX_PRIORITY, c)
  else
    r ← foldM (priority_step nHeight) (vin tx) (double_zero, c);
    d ← ComputePriority tx r.1 0;
    Ok (d, r.2).

(** Whether an input spends a coinbase. *)
Fixpoint spends_coinbase (l : list CTxIn) (c : cache) : result (bool * cache) :=
  match l with
  | [] => Ok (false, c)
  | txin :: l' =>
      let '(coins, c) := Cache_AccessCoins (out_hash (prevout txin)) c in
      match coins with
      | None => Abort
      | Some coins => if fCoinBase coins then Ok (true, c) else spends_coinbase l' c
      end
  end.

(** Whether [HaveCoins] holds of every input; the loop stops at the first
    that is missing. *)
Fixpoint inputs_known (l : list CTxIn) (c : cache) : bool * cache :=
  match l with
  | [] => (true, c)
  | txin :: l' =>
      let '(have, c) := Cache_HaveCoins (out_hash (prevout txin)) c in
      if have then inputs_known l' c else (false, c)
  end.
End Inputs.

(** ** [AcceptToMemoryPool] *)

(** Reading and changing the state, and checks on one half of it. *)
Definition peek {S} : scheck S S := fun s => (Pass s, s).
Definition poke {S} (f : S -> S) : scheck S unit := fun s => (Pass tt, f s).
Definition on_fst {S T A} (m : scheck S A) : scheck (S * T) A := fun s => let '(r, s1) := m s.1 in (r, (s1, s.2)).
Definition on_snd {S T A} (m : scheck T A) : scheck (S * T) A := fun s => let '(r, s2) := m s.2 in (r, (s.1, s2)).

Section Accept.
Context {SpT SaT V : Type} `{!MerkleTree SpT, !MerkleTree SaT, !CCoinsView SpT SaT V}.
Context `{SigHashCrypto} `{ScriptCrypto} `{TxVerifier} `{PoolEnv}.
Context (params chainparams : CChainParams) (env : AcceptEnv).
#[local] Existing Instance CCoinsView_base.
(** [pcoinsTip], a view of the pool on top of it, and what is left of a cache
    over that view when its backend is the base class. *)
Local Abbreviation tip_t := (CCoinsViewCache SpT SaT V).
Local Abbreviation view_t := (CCoinsViewCache SpT SaT (CCoinsViewMemPool tip_t)).
Local Abbreviation cached_t := (CCoinsViewCache SpT SaT unit).

(** The pool (the only one of the node, [mempool]), the coins of the tip, the
    limiter, and the flag behind [pfMissingInputs]. *)
Record AcceptState := mkAcceptState {
  as_pool : CTxMemPool;
  as_pcoinsTip : tip_t;
  as_limiter : FreeLimiter;
  as_fMissingInputs : bool
}.

(** The checks of the transaction alone. *)
Definition accept_context_free (tx : CTransaction) : check unit :=
  let nextBlockHeight := env_height env + 1 in
  _ ← of_result (CurrentEpochBranchId nextBlockHeight (consensus chainparams));
  overwinterActive ← of_result (NetworkUpgradeActive nextBlockHeight (consensus chainparams) UPGRADE_OVERWINTER);
  let limit := if overwinterActive : bool then 0 else u64 (env_mempooltxinputlimit env) in
  _ ← reject_if ((0 <? limit) && (limit <? Z.of_nat (length (vin tx)))) FailPlain;
  _ ← CheckTransaction (env_VerifySprout env) tx;
  _ ← ContextualCheckTransaction params (env_height env) chainparams tx nextBlockHeight 10 (env_ibd env);
  _ ← reject_if (IsExpiringSoonTx tx nextBlockHeight) (dos 0 REJECT_INVALID "tx-expiring-soon");
  _ ← reject_if (IsCoinBase tx) (dos 100 REJECT_INVALID "coinbase");
  _ ← (if env_RequireStandard env then
         r ← of_result (IsStandardTx chainparams env tx nextBlockHeight);
         match r with Some reason => Fail (dos 0 REJECT_NONSTANDARD reason) | None => Pass tt end
       else Pass tt);
  reject_if (negb (CheckFinalTx tx STANDARD_LOCKTIME_VERIFY_FLAGS (env_height env) (env_medianTimePast env) (env_adjusted env)))
    (dos 0 REJECT_NONSTANDARD "non-final").

(** Conflicts with the transactions of the pool. *)
Definition accept_no_conflict (tx : CTransaction) (pool : CTxMemPool) : check unit :=
  _ ← reject_if (exists_ (tx_hash tx) pool) FailPlain;
  _ ← check_each (fun txin => reject_if (bool_decide (is_Some (mapNextTx pool !! prevout txin))) FailPlain) (vin tx);
  _ ← check_each (fun js => check_each (fun nf => reject_if (nullifierExists nf SPROUT pool) FailPlain) (js_nullifiers js)) (vjoinsplit tx);
  check_each (fun sd => reject_if (nullifierExists (sd_nullifier sd) SAPLING pool) FailPlain) (vShieldedSpend tx).

(** What is read of the coins of the pool and the chain; the flag is
    [*pfMissingInputs]. *)
Definition accept_view (tx : CTransaction) : scheck (bool * view_t) Z :=
  have ← on_snd (query (Cache_HaveCoins (tx_hash tx)));
  _ ← lift (reject_if have FailPlain);
  known ← on_snd (query (inputs_known (vin tx)));
  _ ← (if known : bool then mret tt else fun s => (Fail FailPlain, (true, s.2)));
  have ← on_snd (query (Cache_HaveInputs tx));
  _ ← lift (reject_if (negb have) (invalid REJECT_DUPLICATE "bad-txns-inputs-spent"));
  unmet ← on_snd (action (Cache_HaveShieldedRequirements tx));
  _ ← lift (match unmet with
            | Some req => Fail (invalid (ShieldedReqRejectCode req) (ShieldedReqRejectReason req))
            | None => Pass tt
            end);
  _ ← on_snd (query Cache_GetBestBlock);
  on_snd (action (Cache_GetValueIn tx)).

(** [view.SetBackend(viewMemPool)], the reads, and [view.SetBackend(dummy)]. *)
Definition accept_inputs (tx : CTransaction) : scheck AcceptState (Z * cached_t) := fun s =>
  let viewMemPool := mkViewMemPool (as_pcoinsTip s) (as_pool s) in
  let '(r, (missing, view)) := accept_view tx (as_fMissingInputs s, CCoinsViewCache_new viewMemPool) in
  (nValueIn ← r; Pass (nValueIn, mkCache tt (hasModifier view) (maps view)),
   mkAcceptState (as_pool s) (vm_base (base view)) (as_limiter s) missing).

(** A local [view], dropped at the end of its scope. *)
Definition with_view {A} (view : cached_t) (m : scheck (AcceptState * cached_t) A) : scheck AcceptState A := fun s =>
  let '(r, (s', _)) := m (s, view) in (r, s').

(** The new entry, when the signature operations are few enough. *)
Definition entry_of (tx : CTransaction) (nValueIn : Z) (pool : CTxMemPool) (consensusBranchId : Z) : scheck cached_t CTxMemPoolEntry :=
  p2sh ← action (GetP2SHSigOpCount tx);
  let nSigOps := u32 (GetLegacySigOpCount tx + p2sh) in
  _ ← lift (reject_if (MAX_STANDARD_TX_SIGOPS <? nSigOps) (dos 0 REJECT_NONSTANDARD "bad-txns-too-many-sigops"));
  nValueOut ← lift (of_result (GetValueOut tx));
  let nFees := i64 (nValueIn - nValueOut) in
  dPriority ← action (Cache_GetPriority tx (env_height env));
  fSpendsCoinbase ← action (spends_coinbase (vin tx));
  lift (of_result (CTxMemPoolEntry_new (RecursiveDynamicUsage tx) tx nFees (env_time env) dPriority (env_height env)
    (HasNoInputsOf tx pool) fSpendsCoinbase consensusBranchId)).

Definition accept_entry (tx : CTransaction) (nValueIn : Z) (pool : CTxMemPool) : scheck cached_t CTxMemPoolEntry :=
  consensusBranchId ← lift (of_result (CurrentEpochBranchId (env_height env + 1) (consensus chainparams)));
  _ ← (if env_RequireStandard env then
         standard ← action (fun view => AreInputsStandard tx view consensusBranchId);
         lift (reject_if (negb standard) FailPlain)
       else mret tt);
  entry_of tx nValueIn pool consensusBranchId.

(** The rules on fees: at least the relay fee, priority for free
    transactions, and the limiter. *)
Definition insufficient_fee : failure := dos 0 REJECT_INSUFFICIENTFEE "insufficient fee".

Definition check_min_fee (entry : CTxMemPoolEntry) (fLimitFree : bool) : scheck (AcceptState * cached_t) unit :=
  s ← on_fst peek;
  let txMinFee := GetMinRelayFee env (as_pool s) (me_tx entry) (u32 (me_nTxSize entry)) true in
  lift (reject_if (fLimitFree && (me_nFee entry <? txMinFee)) insufficient_fee).

Definition relay_fee (entry : CTxMemPoolEntry) : Z := CFeeRate_GetFee (env_minRelayTxFee env) (u32 (me_nTxSize entry)).

Definition check_relay_priority (entry : CTxMemPoolEntry) : scheck (AcceptState * cached_t) unit :=
  if env_relaypriority env && (me_nFee entry <? relay_fee entry) then
    d ← on_snd (action (Cache_GetPriority (me_tx entry) (env_height env + 1)));
    lift (reject_if (negb (AllowFree d)) (dos 0 REJECT_INSUFFICIENTFEE "insufficient priority"))
  else mret tt.

Definition check_free_limit (entry : CTxMemPoolEntry) (fLimitFree : bool) : scheck (AcceptState * cached_t) unit :=
  if fLimitFree && (me_nFee entry <? relay_fee entry) then
    ok ← on_fst (query (fun s : AcceptState =>
           let '(ok, l) := limit_free env (env_limitfreerelay env) (u32 (me_nTxSize entry)) (as_limiter s) in
           (ok, mkAcceptState (as_pool s) (as_pcoinsTip s) l (as_fMissingInputs s))));
    lift (reject_if (negb ok) (dos 0 REJECT_INSUFFICIENTFEE "rate limited free transaction"))
  else mret tt.

Definition accept_fees (entry : CTxMemPoolEntry) (fLimitFree fRejectAbsurdFee ignoreFees : bool) : scheck (AcceptState * cached_t) unit :=
  let nFees := me_nFee entry in
  let absurd := i64 (relay_fee entry * 10000) in
  _ ← check_min_fee entry fLimitFree;
  _ ← (if negb ignoreFees then check_min_fee entry fLimitFree else mret tt);
  _ ← check_relay_priority entry;
  _ ← check_free_limit entry fLimitFree;
  lift (reject_if (fRejectAbsurdFee && (absurd <? nFees))
    (FailError ("AcceptToMemoryPool: absurdly high fees " +:+ uint256_ToString (tx_hash (me_tx entry)) +:+ ", " +:+ pretty nFees
                +:+ " > " +:+ pretty absurd))).

(** The scripts of all inputs, with the standard and then the mandatory
    flags. *)
Definition accept_scripts (entry : CTxMemPoolEntry) : scheck cached_t unit :=
  let tx := me_tx entry in
  txdata ← lift (of_result (Precompute tx));
  _ ← ContextualCheckInputs params (env_blocks env) tx true STANDARD_SCRIPT_VERIFY_FLAGS (Some txdata) (consensus chainparams) (me_nBranchId entry) None;
  _ ← ContextualCheckInputs params (env_blocks env) tx true MANDATORY_SCRIPT_VERIFY_FLAGS (Some txdata) (consensus chainparams) (me_nBranchId entry) None;
  mret tt.

(** Into the pool and its indexes. *)
Definition accept_store (entry : CTxMemPoolEntry) : scheck (AcceptState * cached_t) unit :=
  action (fun s : AcceptState * cached_t =>
    pool ← addUnchecked (tx_hash (me_tx entry)) entry (negb (env_ibd env)) (as_pool s.1);
    r ← (if fAddressIndex then addAddressIndex entry s.2 pool else Ok (pool, s.2));
    r ← (if fSpentIndex then addSpentIndex entry r.2 r.1 else Ok r);
    Ok (tt, (mkAcceptState r.1 (as_pcoinsTip s.1) (as_limiter s.1) (as_fMissingInputs s.1), r.2))).

(** Everything after the inputs are in the cache. *)
Definition accept_cached (tx : CTransaction) (fLimitFree fRejectAbsurdFee ignoreFees : bool) (nValueIn : Z) : scheck (AcceptState * cached_t) unit :=
  s ← on_fst peek;
  entry ← on_snd (accept_entry tx nValueIn (as_pool s));
  _ ← accept_fees entry fLimitFree fRejectAbsurdFee ignoreFees;
  _ ← on_snd (accept_scripts entry);
  accept_store entry.

Definition AcceptToMemoryPool (tx : CTransaction) (fLimitFree fRejectAbsurdFee ignoreFees : bool) : scheck AcceptState unit :=
  _ ← poke (fun s => mkAcceptState (as_pool s) (as_pcoinsTip s) (as_limiter s) false);
  _ ← lift (accept_context_free tx);
  s ← peek;
  _ ← lift (accept_no_conflict tx (as_pool s));
  r ← accept_inputs tx;
  with_view r.2 (accept_cached tx fLimitFree fRejectAbsurdFee ignoreFees r.1).
End Accept.
