(* ===== verification/AcceptLaws.v ===== *)
(** * What admission to the memory pool establishes

    main.cpp: [AcceptToMemoryPool].  A transaction that is accepted is in the
    pool with its exact fee, spends outputs that the chain or the pool has and
    nobody spends, and keeps the invariant of the pool; one that is rejected
    leaves the pool as it was.  In both cases the coins of the tip are only
    read. *)
From stdpp Require Import prelude gmap strings list.
From S2P Require Import Prelude Transaction Script Interpreter Serialize TxSerialize SigHash Standard Double Coins History CoinsView CoinsLaws CoinsCache CoinsOps UpdateCoins ChainParams Chain Checks CheckTx CheckInputs CoinsReplay ConnectBlock MempoolLimit TxMemPool PoolLaws PoolRemovals PoolSafety PoolCoins AcceptToPool.
#[local] Open Scope Z_scope.

(** ** Checks on half of a state *)

Lemma on_snd_Pass {S T A} (m : scheck T A) (s : S * T) a s' : on_snd m s = (Pass a, s') -> exists t, m s.2 = (Pass a, t) /\ s' = (s.1, t).
Proof. unfold on_snd. destruct (m s.2) as [r t]. intros [= -> <-]. by exists t. Qed.
Lemma on_fst_Pass {S T A} (m : scheck S A) (s : S * T) a s' : on_fst m s = (Pass a, s') -> exists t, m s.1 = (Pass a, t) /\ s' = (t, s.2).
Proof. unfold on_fst. destruct (m s.1) as [r t]. intros [= -> <-]. by exists t. Qed.

(** ** Reads of the view of the pool *)

Section TipKept.
Context {SpT SaT V : Type} `{!MerkleTree SpT, !MerkleTree SaT, !CCoinsView SpT SaT V, !CCoinsViewReads SpT SaT V}.
Context `{PoolEnv}.
Implicit Types v : CCoinsViewMemPool V.

(** The pool is the same and the view below has only been read. *)
Definition tip_kept v v' : Prop :=
  vm_mempool v' = vm_mempool v /\ (view_inv (vm_base v) -> stable view_inv view_abs view_backed (vm_base v) (vm_base v')).
#[global] Instance tip_kept_preorder : PreOrder tip_kept.
Proof.
  split; [by intros v|]. intros v1 v2 v3 [P1 S1] [P2 S2]. split; [congruence|]. intros I1. destruct (S1 I1) as (I2 & A2 & B2).
  destruct (S2 I2) as (I3 & A3 & B3). split; [done|]. split; [by etrans|]. auto.
Qed.

Lemma tip_kept_reads : reads_keep tip_kept.
Proof.
  split.
  - intros t v. cbn. unfold VM_GetCoins. destruct (lookup_ t (vm_mempool v)); [done|]. destruct (GetCoins t (vm_base v)) as [o b] eqn:E.
    split; [done|]. intros I. pose proof (proj1 (GetCoins_law t (vm_base v) I)) as Hs. by rewrite E in Hs.
  - intros nf ty v. cbn. unfold VM_GetNullifier. destruct (nullifierExists nf ty _); [done|]. split; [done|]. intros I. by apply GetNullifier_law.
  - intros rt v. split; [done|]. intros I. by apply GetSproutAnchorAt_law.
  - intros rt v. split; [done|]. intros I. by apply GetSaplingAnchorAt_law.
  - intros v. split; [done|]. intros I. by apply GetBestBlock_law.
Qed.
End TipKept.

(** ** Checks that only read *)

Section Moves.
Context {SpT SaT V : Type} `{!MerkleTree SpT, !MerkleTree SaT, !CCoinsView SpT SaT V}.
Local Abbreviation cache := (CCoinsViewCache SpT SaT V).
(** A relation between caches that the lookup of coins keeps. *)
Context (R : relation cache) {HP : PreOrder R}.

(** Whatever the outcome, the caches before and after are related. *)
Definition drifts {A} (m : scheck cache A) : Prop := forall c, R c (m c).2.
Definition moves {S A} (m : scheck (S * cache) A) : Prop := forall s, R s.2 (m s).2.2.

Lemma drifts_lift {A} (r : check A) : drifts (lift r).
Proof using HP. by intros c. Qed.
Lemma drifts_ret {A} (a : A) : drifts (mret a).
Proof using HP. by intros c. Qed.
Lemma drifts_bind {A B} (m : scheck cache A) (k : A -> scheck cache B) : drifts m -> (forall a, drifts (k a)) -> drifts (m ≫= k).
Proof using HP.
  intros Hm Hk c. unfold mbind, scheck_bind. specialize (Hm c). destruct (m c) as [[a|f|msg|] c1]; [|done..].
  etrans; [exact Hm|apply Hk].
Qed.
Lemma drifts_query {A} (f : cache -> A * cache) : (forall c, R c (f c).2) -> drifts (query f).
Proof. intros Hf c. unfold query. specialize (Hf c). by destruct (f c). Qed.
Lemma drifts_action {A} (f : cache -> result (A * cache)) : (forall c a c', f c = Ok (a, c') -> R c c') -> drifts (action f).
Proof using HP. intros Hf c. unfold action. destruct (f c) as [[a c']| |] eqn:E; [by eapply Hf|done..]. Qed.

Context {S : Type}.
Lemma moves_lift {A} (r : check A) : moves (S := S) (lift r).
Proof using HP. by intros s. Qed.
Lemma moves_ret {A} (a : A) : moves (S := S) (mret a).
Proof using HP. by intros s. Qed.
Lemma moves_bind {A B} (m : scheck (S * cache) A) (k : A -> scheck (S * cache) B) : moves m -> (forall a, moves (k a)) -> moves (m ≫= k).
Proof using HP.
  intros Hm Hk s. unfold mbind, scheck_bind. specialize (Hm s). destruct (m s) as [[a|f|msg|] s1]; [|done..].
  etrans; [exact Hm|apply Hk].
Qed.
Lemma moves_on_snd {A} (m : scheck cache A) : drifts m -> moves (S := S) (on_snd m).
Proof. intros Hm s. unfold on_snd. specialize (Hm s.2). by destruct (m s.2). Qed.
Lemma moves_on_fst {A} (m : scheck S A) : moves (on_fst m).
Proof using HP. intros s. unfold on_fst. by destruct (m s.1). Qed.

(** The reads of [AcceptToMemoryPool]. *)
Context (HF : forall t c, R c (FetchCoins t c).2).

Lemma HaveCoins_went t c : R c (Cache_HaveCoins t c).2.
Proof using HP HF. unfold Cache_HaveCoins. pose proof (HF t c). by destruct (FetchCoins t c). Qed.
Lemma inputs_known_went l : forall c, R c (inputs_known l c).2.
Proof using HP HF.
  induction l as [|i l IH]; intros c; cbn [inputs_known]; [done|]. pose proof (HaveCoins_went (out_hash (prevout i)) c) as Hw.
  destruct (Cache_HaveCoins _ c) as [[] c1]; [|done]. etrans; [exact Hw|apply IH].
Qed.
Lemma have_inputs_went l : forall c, R c (have_inputs_loop l c).2.
Proof using HP HF.
  induction l as [|i l IH]; intros c; cbn [have_inputs_loop]; [done|]. unfold Cache_AccessCoins. pose proof (HF (out_hash (prevout i)) c) as Hw.
  destruct (FetchCoins _ c) as [[coins|] c1]; [|done]. destruct (CCoins_IsAvailable coins _); [|done]. etrans; [exact Hw|apply IH].
Qed.
Lemma HaveInputs_went tx c : R c (Cache_HaveInputs tx c).2.
Proof using HP HF. unfold Cache_HaveInputs. destruct (negb (IsCoinBase tx)); [apply have_inputs_went|done]. Qed.
Lemma GetOutputFor_went i c o c' : Cache_GetOutputFor i c = Ok (o, c') -> R c c'.
Proof using HP HF.
  unfold Cache_GetOutputFor, Cache_AccessCoins. intros E. pose proof (HF (out_hash (prevout i)) c) as Hw.
  destruct (FetchCoins _ c) as [[coins|] c1]; [|done]. by ok_inv.
Qed.
Lemma value_in_went l : forall n c n' c', foldM value_in_step l (n, c) = Ok (n', c') -> R c c'.
Proof using HP HF.
  induction l as [|i l IH]; intros n c n' c' E; cbn [foldM] in E; [by simplify_eq|]. apply bind_Ok in E as ([n1 c1] & E1 & E).
  unfold value_in_step in E1. apply bind_Ok in E1 as ([o c2] & E2 & E1). simplify_eq/=. etrans; [by eapply GetOutputFor_went|by eapply IH].
Qed.
Lemma GetValueIn_went tx c n c' : Cache_GetValueIn tx c = Ok (n, c') -> R c c'.
Proof using HP HF.
  unfold Cache_GetValueIn. destruct (IsCoinBase tx); [by intros [= <- <-]|]. intros E. apply bind_Ok in E as ([n1 c1] & E1 & E).
  apply bind_Ok in E as (x & _ & E). simplify_eq/=. by eapply value_in_went.
Qed.
Lemma are_inputs_standard_went `{ScriptCrypto} branch l : forall d b d', are_inputs_standard branch l d = Ok (b, d') -> R d d'.
Proof using HP HF.
  induction l as [|i l IH]; intros d b d' E; cbn [are_inputs_standard] in E; [by simplify_eq|]. apply bind_Ok in E as ([o d1] & E1 & E).
  apply bind_Ok in E as (x & _ & E). pose proof (GetOutputFor_went _ _ _ _ E1) as Hw. destruct x; [by simplify_eq|].
  etrans; [exact Hw|by eapply IH].
Qed.
Lemma p2sh_went l : forall n d n' d', foldM p2sh_sigops_step l (n, d) = Ok (n', d') -> R d d'.
Proof using HP HF.
  induction l as [|i l IH]; intros n d n' d' E; cbn [foldM] in E; [by simplify_eq|]. apply bind_Ok in E as ([n1 d1] & E1 & E).
  unfold p2sh_sigops_step in E1. apply bind_Ok in E1 as ([o d2] & E2 & E1). simplify_eq/=. etrans; [exact (GetOutputFor_went _ _ _ _ E2)|by eapply IH].
Qed.
Lemma priority_went h l : forall x d x' d', foldM (priority_step h) l (x, d) = Ok (x', d') -> R d d'.
Proof using HP HF.
  induction l as [|i l IH]; intros x d x' d' E; cbn [foldM] in E; [by simplify_eq|]. apply bind_Ok in E as ([x1 d1] & E1 & E).
  unfold priority_step, Cache_AccessCoins in E1. cbn [fst snd] in E1. pose proof (HF (out_hash (prevout i)) d) as Hw.
  destruct (FetchCoins _ d) as [[coins|] d2]; [|done]. cbn [snd] in Hw.
  assert (d1 = d2) as -> by (repeat case_match; ok_inv; done). etrans; [exact Hw|by eapply IH].
Qed.
Lemma spends_coinbase_went l : forall d b d', spends_coinbase l d = Ok (b, d') -> R d d'.
Proof using HP HF.
  induction l as [|i l IH]; intros d b d' E; cbn [spends_coinbase] in E; [by simplify_eq|]. unfold Cache_AccessCoins in E.
  pose proof (HF (out_hash (prevout i)) d) as Hw. destruct (FetchCoins _ d) as [[coins|] d2]; [|done].
  destruct (fCoinBase coins); [by simplify_eq|]. etrans; [exact Hw|by eapply IH].
Qed.
Lemma GetPriority_went tx h d x d' : Cache_GetPriority tx h d = Ok (x, d') -> R d d'.
Proof using HP HF.
  unfold Cache_GetPriority. destruct (IsCoinBase tx); [by intros [= <- <-]|]. destruct (has_shielded tx); [generalize MAX_PRIORITY; by intros m [= <- <-]|]. intros E. apply bind_Ok in E as ([y d1] & E1 & E).
  apply bind_Ok in E as (z & _ & E). simplify_eq/=. by eapply priority_went.
Qed.

End Moves.

Section EntryReads.
Context {SpT SaT : Type} `{!MerkleTree SpT, !MerkleTree SaT} `{PoolEnv}.
#[local] Existing Instance CCoinsView_base.
Context (R : relation (CCoinsViewCache SpT SaT unit)) {HP : PreOrder R} (HF : forall t c, R c (FetchCoins t c).2) (env : AcceptEnv).

Lemma entry_of_drifts tx n p branch : drifts R (entry_of (SpT := SpT) (SaT := SaT) env tx n p branch).
Proof using HP HF.
  unfold entry_of. apply (drifts_bind R).
  { apply (drifts_action R). intros d b d'. unfold GetP2SHSigOpCount. destruct (IsCoinBase tx); [by intros [= <- <-]|]. apply (p2sh_went R HF). }
  intros p2sh. cbv zeta. repeat (apply (drifts_bind R); [first [apply (drifts_lift R)|apply (drifts_action R)]|intros ?]); [| |apply (drifts_lift R)].
  - apply (GetPriority_went R HF).
  - apply (spends_coinbase_went R HF).
Qed.
End EntryReads.

Lemma FetchCoins_went {SpT SaT V} `{!MerkleTree SpT, !MerkleTree SaT, !CCoinsView SpT SaT V} (Q : relation V) {HP : PreOrder Q} (HQ : reads_keep Q)
  t (c : CCoinsViewCache SpT SaT V) : went Q c (FetchCoins t c).2.
Proof. destruct (FetchCoins t c) as [o c'] eqn:E. by apply (FetchCoins_replays (W := V) Q HQ t c o c'). Qed.
Lemma GetBestBlock_went {SpT SaT V} `{!MerkleTree SpT, !MerkleTree SaT, !CCoinsView SpT SaT V} (Q : relation V) {HP : PreOrder Q} (HQ : reads_keep Q)
  (c : CCoinsViewCache SpT SaT V) : went Q c (Cache_GetBestBlock c).2.
Proof. destruct (Cache_GetBestBlock c) as [h c'] eqn:E. by apply (GetBestBlock_replays (W := V) Q HQ c h c'). Qed.

(** ** The scripts of all inputs *)

Section Scripts.
Context {SpT SaT V : Type} `{!MerkleTree SpT, !MerkleTree SaT, !CCoinsView SpT SaT V, !CCoinsViewReads SpT SaT V}.
Context `{SigHashCrypto} `{ScriptCrypto}.
Implicit Types c : CCoinsViewCache SpT SaT V.

(** Input [n] unlocks the output it spends. *)
Definition unlocks (a : AbsView) (tx : CTransaction) (flags branch : Z) (txdata : option PrecomputedTransactionData) (n : Z) (i : CTxIn) : Prop :=
  exists o, out_unspent a (prevout i) = Some o
    /\ VerifyScript (scriptSig i) (scriptPubKey o) flags (mkChecker tx n (nValue o) txdata) branch = Ok (inr tt).

Lemma unlocks_equiv a a' tx flags branch txdata n i : a ≡ a' -> unlocks a tx flags branch txdata n i -> unlocks a' tx flags branch txdata n i.
Proof. intros Ha (o & Ho & Hv). exists o. by rewrite <- (out_unspent_equiv _ _ _ Ha). Qed.

Lemma check_script_step_Pass (tx : CTransaction) flags txdata branch n i c r c' : cache_core c -> is_Some (out_unspent (cache_abs c) (prevout i)) ->
  vin tx !! Z.to_nat n = Some i -> check_script_step tx flags txdata branch None (n, i) c = (Pass r, c') ->
  r = None /\ read_ok c c' /\ unlocks (cache_abs c) tx flags branch txdata n i.
Proof.
  intros Hc [o Ho] Hi E. unfold check_script_step in E. apply scheck_bind_Pass in E as (coins & c1 & E1 & E).
  destruct (access_input_Pass _ _ _ _ Hc E1) as [Hr Hnorm]. apply scheck_bind_Pass in E as (ck & c2 & E2 & E). apply lift_Pass in E2 as [E2 ->].
  apply of_result_Pass in E2. unfold CScriptCheck_new, index_or_abort in E2. rewrite Hi in E2. cbn [mbind result_bind] in E2.
  unfold out_unspent in Ho. destruct (norm_unspent _ _ _ _ Hnorm Ho) as [Ha Hu].
  assert (Ho' : vout coins !! Z.to_nat (out_n (prevout i)) = Some o).
  { unfold unspent in Hu. destruct (vout coins !! _) as [x|]; [|done]. cbn in Hu. case_match; naive_solver. }
  rewrite Ho' in E2. cbn [mbind result_bind] in E2. injection E2 as <-.
  apply scheck_bind_Pass in E as (v & c3 & E3 & E). apply lift_Pass in E3 as [E3 ->]. apply of_result_Pass in E3.
  unfold CScriptCheck_call, index_or_abort in E3. cbn [sc_txTo sc_nIn sc_scriptPubKey sc_nFlags sc_amount sc_txdata sc_consensusBranchId] in E3.
  rewrite Hi in E3. cbn [mbind result_bind] in E3. destruct v as [err|[]].
  { apply scheck_bind_Pass in E as (r2 & c4 & _ & E). apply lift_Pass in E as [E _]. done. }
  injection E as <- <-. split; [done|]. split; [done|]. exists o. unfold out_unspent. by rewrite Ha.
Qed.

Lemma script_loop_Pass (tx : CTransaction) flags txdata branch l : forall c r c', cache_core c ->
  Forall (fun x => is_Some (out_unspent (cache_abs c) (prevout x.2)) /\ vin tx !! Z.to_nat x.1 = Some x.2) l ->
  scheck_loop (check_script_step tx flags txdata branch) l None c = (Pass r, c') ->
  Forall (fun x => unlocks (cache_abs c) tx flags branch txdata x.1 x.2) l.
Proof.
  induction l as [|[n i] l IH]; intros c r c' Hc Hl E; [constructor|]. apply Forall_cons in Hl as [[Ho Hi] Hl]. cbn [scheck_loop] in E.
  apply scheck_bind_Pass in E as (r1 & c1 & E1 & E). destruct (check_script_step_Pass _ _ _ _ _ _ _ _ _ Hc Ho Hi E1) as (-> & Hr & Hu).
  constructor; [done|]. pose proof Hr as (Hc1 & Ha & _). eapply Forall_impl; [eapply (IH c1); [done| |exact E]|].
  - eapply Forall_impl; [exact Hl|]. intros x [Hx ?]. split; [|done]. by rewrite (read_ok_unspent _ _ _ Hr).
  - intros x. by apply unlocks_equiv.
Qed.

(** What a transaction whose inputs pass with their scripts has shown. *)
Lemma ContextualCheckInputs_Pass (params : CChainParams) blocks (tx : CTransaction) flags txdata cp branch c r c' :
  cache_inv c -> IsCoinBase tx = false -> tx_amounts_i64 tx ->
  ContextualCheckInputs params blocks tx true flags txdata cp branch None c = (Pass r, c') ->
  exists b prot, blocks !! a_best (cache_abs c) = Some b /\ GetCoinbaseProtected params (bi_nHeight b + 1) = Ok prot
    /\ Forall (input_ok (cache_abs c) tx (bi_nHeight b + 1) cp prot) (vin tx)
    /\ (exists vs fee, input_values (cache_abs c) (vin tx) = Some vs
          /\ sumZ vs + exact_shielded_in tx = exact_value_out tx + fee /\ 0 <= fee <= MAX_MONEY)
    /\ (forall n i, vin tx !! n = Some i -> unlocks (cache_abs c) tx flags branch txdata (Z.of_nat n) i).
Proof.
  intros Hi Hcb Ham E. unfold ContextualCheckInputs in E. rewrite Hcb in E. apply scheck_bind_Pass in E as (height & c1 & E1 & E).
  unfold GetSpendHeight in E1. apply scheck_bind_Pass in E1 as (best & c2 & E2 & E1). apply scheck_bind_Pass in E1 as (b & c3 & E3 & E1).
  apply lift_Pass in E3 as [E3 ->]. injection E1 as <- <-. unfold query in E2.
  destruct (GetBestBlock_ok c (proj1 Hi)) as [Hr Hb]. destruct (Cache_GetBestBlock c) as [best' c2']. cbn [fst snd] in Hr, Hb. simplify_eq.
  apply of_result_Pass in E3. unfold deref in E3. destruct (blocks !! _) as [b'|] eqn:Eb; simplify_eq.
  apply scheck_bind_Pass in E as (prot & c4 & E4 & E). apply lift_Pass in E4 as [E4 ->]. apply of_result_Pass in E4.
  apply scheck_bind_Pass in E as ([] & c5 & E5 & E). pose proof Hr as (_ & Ha & _).
  destruct (read_ok_stable c c2 Hi Hr) as (Hi2 & _). pose proof (CheckTxInputs_reads_only tx (bi_nHeight b + 1) cp prot c2 (proj1 Hi2)) as Hro. rewrite E5 in Hro. cbn [snd] in Hro.
  destruct (CheckTxInputs_Pass tx _ _ _ _ _ Hi2 Hcb Ham E5) as (Hok & (vs & fee & Hvs & Hfee) & _ & _ & _ & Hi5 & Ha5).
  exists b, prot. split_and!; [done|done| | |].
  - eapply Forall_impl; [exact Hok|]. intros i. by apply input_ok_equiv.
  - exists vs, fee. split; [|done]. rewrite <- Hvs. apply mapM_ext. intros j. by rewrite (read_ok_unspent _ _ _ Hr).
  - intros n i Hn. pose proof (read_ok_trans _ _ _ Hr Hro) as Hr5.
    assert (HF : Forall (fun x => unlocks (cache_abs c5) tx flags branch txdata x.1 x.2) (zip (seqZ 0 (Z.of_nat (length (vin tx)))) (vin tx))).
    { eapply script_loop_Pass; [apply Hr5| |exact E]. apply Forall_lookup. intros k [z j] Hk. apply lookup_zip_Some in Hk as [Hz Hj].
      apply lookup_seqZ in Hz as [-> _]. cbn [fst snd]. rewrite Z.add_0_l, Nat2Z.id. split; [|done]. rewrite (read_ok_unspent _ _ _ Hro).
      pose proof (Forall_lookup_1 _ _ _ _ Hok Hj) as (coins & o & H1 & H2 & _). exists o. unfold out_unspent. by rewrite H1. }
    eapply unlocks_equiv; [apply Hr5|]. apply (Forall_lookup_1 _ _ n (Z.of_nat n, i) HF). apply lookup_zip_Some. split; [|done].
    apply lookup_seqZ. split; [lia|]. apply lookup_lt_Some in Hn. lia.
Qed.
End Scripts.

(** ** The parts of [AcceptToMemoryPool] *)

(** A new cache shows what the view below shows. *)
Lemma new_cache_ok {SpT SaT V} `{!MerkleTree SpT, !MerkleTree SaT, !CCoinsView SpT SaT V, !CCoinsViewReads SpT SaT V} (v : V) :
  view_inv v -> cache_inv (CCoinsViewCache_new v) /\ cache_abs (CCoinsViewCache_new v) ≡ view_abs v.
Proof.
  intros Hv. split; [split; [split; [done|apply batch_ok_empty]|done]|]. unfold cache_abs, CCoinsViewCache_new. cbn [maps base]. split; try done; try (by intros []).
Qed.

Section View.
Context {SpT SaT V : Type} `{!MerkleTree SpT, !MerkleTree SaT, !CCoinsView SpT SaT V, !CCoinsViewReads SpT SaT V}.
Context `{PoolEnv}.
Local Abbreviation tip_t := (CCoinsViewCache SpT SaT V).
Local Abbreviation view_t := (CCoinsViewCache SpT SaT (CCoinsViewMemPool tip_t)).
Implicit Types view : view_t.

Local Abbreviation kept := (tip_kept (SpT := SpT) (SaT := SaT) (V := tip_t)).

Lemma kept_reads : reads_keep (SpT := SpT) (SaT := SaT) kept.
Proof. exact (tip_kept_reads (SpT := SpT) (SaT := SaT) (V := tip_t)). Qed.
#[local] Instance kept_preorder : PreOrder kept.
Proof. exact (tip_kept_preorder (SpT := SpT) (SaT := SaT) (V := tip_t)). Qed.
Local Abbreviation went_kept := (went (SpT := SpT) (SaT := SaT) kept).
Lemma kept_coins t view : went_kept view (FetchCoins t view).2.
Proof. exact (FetchCoins_went kept kept_reads t view). Qed.

Lemma accept_view_moves tx : moves went_kept (accept_view (SpT := SpT) (SaT := SaT) (V := V) tx).
Proof.
  unfold accept_view. pose proof (went_preorder (SpT := SpT) (SaT := SaT) kept) as HP.
  repeat first [apply (moves_lift went_kept)|apply (moves_bind went_kept); [|intros ?]|apply (moves_on_snd went_kept)].
  - apply drifts_query, (HaveCoins_went went_kept kept_coins).
  - apply drifts_query, (inputs_known_went went_kept kept_coins).
  - intros s. by destruct a1.
  - apply drifts_query, (HaveInputs_went went_kept kept_coins).
  - apply (drifts_action went_kept). intros c o c' E. by apply (HaveShieldedRequirements_replays (W := unit) (CCoinsView1 := CCoinsView_base) kept kept_reads tx c o c').
  - apply drifts_query, (GetBestBlock_went kept kept_reads).
  - apply (drifts_action went_kept). apply (GetValueIn_went went_kept kept_coins).
Qed.

Lemma HaveCoins_read t view : cache_core view -> read_ok view (Cache_HaveCoins t view).2.
Proof. intros Hc. unfold Cache_HaveCoins. destruct (FetchCoins_ok t view Hc) as [Hr _]. by destruct (FetchCoins t view). Qed.
Lemma inputs_known_read l : forall view, cache_core view -> read_ok view (inputs_known l view).2.
Proof.
  induction l as [|i l IH]; intros view Hc; cbn [inputs_known]; [by apply read_ok_refl|]. pose proof (HaveCoins_read (out_hash (prevout i)) view Hc) as Hr.
  destruct (Cache_HaveCoins _ view) as [[] c1]; [|done]. eapply read_ok_trans; [exact Hr|apply IH, Hr].
Qed.

(** What a transaction whose inputs are available has shown, and the queries
    that have been made for it. *)
Record view_passed (tx : CTransaction) (view view' : view_t) (n : Z) : Prop := {
  vp_read : read_ok view view';
  vp_unspent : Forall (fun i => is_Some (out_unspent (cache_abs view) (prevout i))) (vin tx);
  vp_sprout : Forall (fun nf => a_null (cache_abs view) SPROUT nf = false) (sprout_nullifiers tx);
  vp_sapling : Forall (fun nf => a_null (cache_abs view) SAPLING nf = false) (sapling_nullifiers tx);
  vp_anchor : Forall (fun sd => a_anchor (cache_abs view) SAPLING (sd_anchor sd) = true) (vShieldedSpend tx);
  vp_value : forall vs, input_values (cache_abs view) (vin tx) = Some vs ->
    exists shielded, GetShieldedValueIn tx = Ok shielded /\ n = i64 (foldl (fun n v => i64 (n + v)) 0 vs + shielded);
  vp_ready : a_best (cache_abs view) <> uint256_null ->
    forall (W : Type) `{!CCoinsView SpT SaT W} (d : CCoinsViewCache SpT SaT W), grown (maps view') (maps d) -> ready view' d tx
}.

(** The queries of a run that passes, in order. *)
Lemma accept_view_queries (tx : CTransaction) flag view n flag' view' : accept_view tx (flag, view) = (Pass n, (flag', view')) ->
  exists v1 v3 v5 v7 best v9, Cache_HaveCoins (tx_hash tx) view = (false, v1) /\ inputs_known (vin tx) v1 = (true, v3)
    /\ Cache_HaveInputs tx v3 = (true, v5) /\ Cache_HaveShieldedRequirements tx v5 = Ok (None, v7)
    /\ Cache_GetBestBlock v7 = (best, v9) /\ Cache_GetValueIn tx v9 = Ok (n, view').
Proof.
  intros E. unfold accept_view in E. apply scheck_bind_Pass in E as (have & s1 & E1 & E). apply on_snd_Pass in E1 as (v1 & E1 & ->). cbn [fst snd] in *.
  unfold query in E1. destruct (Cache_HaveCoins _ view) as [h1 v1'] eqn:Eh. simplify_eq.
  apply scheck_bind_Pass in E as ([] & s2 & E2 & E). apply lift_Pass in E2 as [E2 ->]. apply reject_if_Pass in E2 as ->.
  apply scheck_bind_Pass in E as (known & s3 & E3 & E). apply on_snd_Pass in E3 as (v3 & E3 & ->). cbn [fst snd] in *.
  unfold query in E3. destruct (inputs_known _ v1) as [k3 v3'] eqn:Ek. simplify_eq.
  apply scheck_bind_Pass in E as ([] & s4 & E4 & E). destruct known; [|done]. injection E4 as <-.
  apply scheck_bind_Pass in E as (hv & s5 & E5 & E). apply on_snd_Pass in E5 as (v5 & E5 & ->). cbn [fst snd] in *. unfold query in E5.
  destruct (Cache_HaveInputs tx v3) as [h5 v5'] eqn:E5'. simplify_eq. apply scheck_bind_Pass in E as ([] & s6 & E6 & E). apply lift_Pass in E6 as [E6 ->].
  apply reject_if_Pass, negb_false_iff in E6 as ->.
  apply scheck_bind_Pass in E as (unmet & s7 & E7 & E). apply on_snd_Pass in E7 as (v7 & E7 & ->). cbn [fst snd] in *. unfold action in E7.
  destruct (Cache_HaveShieldedRequirements tx v5) as [[u7 v7']| |] eqn:Es; simplify_eq.
  apply scheck_bind_Pass in E as ([] & s8 & E8 & E). apply lift_Pass in E8 as [E8 ->]. destruct unmet; [done|].
  apply scheck_bind_Pass in E as (best & s9 & E9 & E). apply on_snd_Pass in E9 as (v9 & E9 & ->). cbn [fst snd] in *. unfold query in E9.
  destruct (Cache_GetBestBlock v7) as [b9 v9'] eqn:Eb. simplify_eq. apply on_snd_Pass in E as (v10 & E10 & Es'). cbn [fst snd] in *. simplify_eq. unfold action in E10.
  destruct (Cache_GetValueIn tx v9) as [[n10 v10']| |] eqn:Ev; simplify_eq. by eexists _, _, _, _, _, _.
Qed.

Lemma GetValueIn_ok (tx : CTransaction) view n view' vs : cache_core view -> IsCoinBase tx = false ->
  input_values (cache_abs view) (vin tx) = Some vs -> Cache_GetValueIn tx view = Ok (n, view') ->
  read_ok view view' /\ exists shielded, GetShieldedValueIn tx = Ok shielded /\ n = i64 (foldl (fun n v => i64 (n + v)) 0 vs + shielded).
Proof.
  intros Hc Hcb Hvs E. unfold Cache_GetValueIn in E. rewrite Hcb in E. destruct (value_in_ok (vin tx) view 0 vs Hc Hvs) as (c' & Ec & Hrc).
  rewrite Ec in E. cbn [mbind result_bind fst snd] in E. apply bind_Ok in E as (sh & Esh & E). simplify_eq. split; [done|]. by exists sh.
Qed.

Lemma accept_view_Pass (tx : CTransaction) flag view n flag' view' : cache_core view -> IsCoinBase tx = false ->
  accept_view tx (flag, view) = (Pass n, (flag', view')) -> view_passed tx view view' n.
Proof.
  intros Hc Hcb E. apply accept_view_queries in E as (v1 & v3 & v5 & v7 & best & v9 & E1 & E3 & E5 & E7 & E9 & Ev).
  pose proof (HaveCoins_read (tx_hash tx) view Hc) as Hr1. rewrite E1 in Hr1.
  pose proof (inputs_known_read (vin tx) v1 (proj1 Hr1)) as Hr3. rewrite E3 in Hr3. pose proof (read_ok_trans _ _ _ Hr1 Hr3) as Hr13.
  pose proof E5 as E5'. unfold Cache_HaveInputs in E5'. rewrite Hcb in E5'. cbn [negb] in E5'.
  destruct (have_inputs_ok (vin tx) v3 (proj1 Hr13)) as [Hr5 Hun]. rewrite E5' in Hr5, Hun. cbn [fst snd] in Hr5, Hun. apply proj1 in Hun. specialize (Hun eq_refl).
  pose proof (read_ok_trans _ _ _ Hr13 Hr5) as Hr15. destruct (HaveShieldedRequirements_sound _ _ _ (proj1 Hr15) E7) as (Hn1 & Hn2 & Han & Hr7).
  pose proof (read_ok_trans _ _ _ Hr15 Hr7) as Hr17.
  destruct (GetBestBlock_ok v7 (proj1 Hr17)) as [Hr9 Hbest]. rewrite E9 in Hr9, Hbest. cbn [fst snd] in Hr9, Hbest. pose proof (read_ok_trans _ _ _ Hr17 Hr9) as Hr19.
  pose proof Hr15 as (_ & A15 & _). pose proof Hr17 as (_ & A17 & _).
  assert (Hun' : Forall (fun i => is_Some (out_unspent (cache_abs view) (prevout i))) (vin tx)).
  { eapply Forall_impl; [exact Hun|]. intros i. cbv beta. by rewrite (read_ok_unspent _ _ _ Hr13). }
  assert (Hval : forall vs, input_values (cache_abs view) (vin tx) = Some vs -> input_values (cache_abs v9) (vin tx) = Some vs).
  { intros vs <-. apply mapM_ext. intros j. by rewrite (read_ok_unspent _ _ _ Hr19). }
  assert (Hvs : exists vs, input_values (cache_abs view) (vin tx) = Some vs).
  { apply mapM_is_Some_2. eapply Forall_impl; [exact Hun'|]. intros i [o Ho]. exists (nValue o). by rewrite Ho. }
  destruct Hvs as [vs Hvs]. destruct (GetValueIn_ok tx _ _ _ vs (proj1 Hr19) Hcb (Hval vs Hvs) Ev) as [Hr10 _]. split.
  - by eapply read_ok_trans.
  - done.
  - eapply Forall_impl; [exact Hn1|]. intros nf. cbv beta. by rewrite (eqv_null _ _ A15).
  - eapply Forall_impl; [exact Hn2|]. intros nf. cbv beta. by rewrite (eqv_null _ _ A15).
  - eapply Forall_impl; [exact Han|]. intros sd. cbv beta. by rewrite (eqv_anchor _ _ A15).
  - intros vs' Hvs'. by apply (GetValueIn_ok tx _ _ _ vs' (proj1 Hr19) Hcb (Hval vs' Hvs') Ev).
  - intros Hnull W HW d Gd. pose proof (GetValueIn_went went_kept kept_coins _ _ _ _ Ev) as [G10 _].
    eapply (ready_after kept kept_reads tx _ _ _ _ _ _ best Hcb E5 E7 E9); [|done|by etrans].
    rewrite Hbest, (eqv_best _ _ A17). by apply bool_decide_eq_false.
Qed.
End View.
