(* ===== verification/AcceptSafety.v ===== *)
(** * The memory pool admits only what the next block could spend

    main.cpp: [AcceptToMemoryPool], composed from the parts of AcceptLaws.v:
    what an accepted transaction has shown, and that a rejected one leaves the
    pool and the coins of the tip as they were. *)
From stdpp Require Import prelude gmap strings list.
From S2P Require Import Prelude Transaction Script Interpreter Serialize TxSerialize SigHash Standard Double Coins History CoinsView CoinsLaws CoinsCache CoinsOps UpdateCoins ChainParams Chain Checks CheckTx CheckInputs CoinsReplay ConnectBlock MempoolLimit TxMemPool PoolLaws PoolRemovals PoolSafety PoolCoins AcceptToPool AcceptLaws.
#[local] Open Scope Z_scope.

Section Accept.
Context {SpT SaT V : Type} `{!MerkleTree SpT, !MerkleTree SaT, !CCoinsView SpT SaT V, !CCoinsViewReads SpT SaT V}.
Context `{SigHashCrypto} `{ScriptCrypto} `{TxVerifier} `{PoolEnv}.
Context (params chainparams : CChainParams) (env : AcceptEnv).
#[local] Existing Instance CCoinsView_base.
Local Abbreviation tip_t := (CCoinsViewCache SpT SaT V).
Local Abbreviation view_t := (CCoinsViewCache SpT SaT (CCoinsViewMemPool tip_t)).
Local Abbreviation cached_t := (CCoinsViewCache SpT SaT unit).
Local Abbreviation state := (AcceptState (SpT := SpT) (SaT := SaT) (V := V)).
Implicit Types (d : cached_t) (s : state) (tx : CTransaction) (e : CTxMemPoolEntry).

(** *** The checks before the view is read *)

Lemma CheckTransaction_inputs verify (tx : CMutableTransaction) : CheckTransaction verify tx = Pass tt -> NoDup (prevout <$> vin tx).
Proof.
  intros E. unfold CheckTransaction in E. apply seq_Pass in E as [E _]. unfold CheckTransactionWithoutProofVerification in E.
  apply seq_Pass in E as [_ E]. do 2 apply reject_if_seq in E as [_ E]. apply bind_Pass in E as (size & _ & E). apply reject_if_seq in E as [_ E].
  apply seq_Pass in E as [_ E]. apply seq_Pass in E as [E _]. by apply check_distinct_Pass in E.
Qed.

Lemma accept_context_free_Pass tx : accept_context_free params chainparams env tx = Pass tt ->
  IsCoinBase tx = false /\ NoDup (prevout <$> vin tx) /\ IsExpiringSoonTx tx (env_height env + 1) = false
  /\ CheckFinalTx tx STANDARD_LOCKTIME_VERIFY_FLAGS (env_height env) (env_medianTimePast env) (env_adjusted env) = true.
Proof.
  intros E. unfold accept_context_free in E. apply bind_Pass in E as (b & _ & E). apply bind_Pass in E as (o & _ & E).
  apply reject_if_seq in E as [_ E]. apply seq_Pass in E as [Ec E]. apply seq_Pass in E as [_ E]. apply reject_if_seq in E as [Ex E].
  apply reject_if_seq in E as [Ecb E]. apply seq_Pass in E as [_ E]. apply reject_if_Pass, negb_false_iff in E.
  split_and!; try done. by eapply CheckTransaction_inputs.
Qed.

Lemma accept_no_conflict_Pass tx e p : accept_no_conflict tx p = Pass tt -> NoDup (prevout <$> vin tx) -> me_tx e = tx -> addable p e.
Proof.
  intros E Hnd <-. unfold accept_no_conflict in E. apply reject_if_seq in E as [E1 E]. apply seq_Pass in E as [E2 E]. apply seq_Pass in E as [E3 E4].
  rewrite check_each_Pass, Forall_forall in E2. rewrite check_each_Pass, Forall_forall in E3. rewrite check_each_Pass, Forall_forall in E4. split.
  - apply bool_decide_eq_false in E1. by apply eq_None_not_Some.
  - done.
  - intros i Hi. specialize (E2 i Hi). apply reject_if_Pass, bool_decide_eq_false in E2. by apply eq_None_not_Some.
  - intros nf Hnf. apply list_elem_of_bind in Hnf as (js & Hnf & Hjs). specialize (E3 js Hjs). rewrite check_each_Pass, Forall_forall in E3.
    specialize (E3 nf Hnf). by apply reject_if_Pass in E3.
  - intros nf Hnf. apply list_elem_of_fmap in Hnf as (sd & -> & Hsd). specialize (E4 sd Hsd). by apply reject_if_Pass in E4.
Qed.

(** *** Reads of the cached view *)

(** Nothing is below the cache. *)
Definition nothing : relation unit := fun _ _ => True.
#[local] Instance nothing_preorder : PreOrder nothing.
Proof. by split. Qed.
Lemma nothing_reads : reads_keep (SpT := SpT) (SaT := SaT) nothing.
Proof. by split. Qed.
Local Abbreviation went' := (went (SpT := SpT) (SaT := SaT) nothing).
Lemma coins_went t d : went' d (FetchCoins t d).2.
Proof. exact (FetchCoins_went nothing nothing_reads t d). Qed.

Lemma accept_entry_drifts tx n p : drifts went' (accept_entry (SpT := SpT) (SaT := SaT) chainparams env tx n p).
Proof.
  unfold accept_entry. apply (drifts_bind went'); [apply (drifts_lift went')|]. intros branch. apply (drifts_bind went'); [|intros _; apply (entry_of_drifts went' coins_went)].
  destruct (env_RequireStandard env); [|apply (drifts_ret went')]. apply (drifts_bind went'); [|intros; apply (drifts_lift went')].
  apply (drifts_action went'). intros d b d'. unfold AreInputsStandard. destruct (IsCoinBase tx); [by intros [= <- <-]|]. apply (are_inputs_standard_went went' coins_went).
Qed.

Lemma accept_entry_Pass tx n p d e d' : accept_entry chainparams env tx n p d = (Pass e, d') ->
  me_tx e = tx /\ CurrentEpochBranchId (env_height env + 1) (consensus chainparams) = Ok (me_nBranchId e)
  /\ exists out, GetValueOut tx = Ok out /\ me_nFee e = i64 (n - out).
Proof.
  intros E. unfold accept_entry in E. apply scheck_bind_Pass in E as (branch & d1 & E1 & E). apply lift_Pass in E1 as [E1 ->]. apply of_result_Pass in E1.
  apply scheck_bind_Pass in E as ([] & d2 & _ & E). unfold entry_of in E. apply scheck_bind_Pass in E as (p2sh & d3 & _ & E). cbv zeta in E.
  apply scheck_bind_Pass in E as ([] & d4 & _ & E). apply scheck_bind_Pass in E as (out & d5 & E5 & E). apply lift_Pass in E5 as [E5 ->]. apply of_result_Pass in E5.
  apply scheck_bind_Pass in E as (pr & d6 & _ & E). apply scheck_bind_Pass in E as (cb & d7 & _ & E). apply lift_Pass in E as [E ->].
  apply of_result_Pass in E. unfold CTxMemPoolEntry_new in E. apply bind_Ok in E as (size & _ & E). injection E as <-. cbn. split; [done|]. split; [done|]. by exists out.
Qed.

(** *** The rules on fees change only the limiter *)

Definition same_node s s' : Prop := as_pool s' = as_pool s /\ as_pcoinsTip s' = as_pcoinsTip s /\ as_fMissingInputs s' = as_fMissingInputs s.
#[local] Instance same_node_preorder : PreOrder same_node.
Proof. split; [by intros s|]. intros s1 s2 s3 (? & ? & ?) (? & ? & ?). split_and!; congruence. Qed.
Definition frames {A} (m : scheck (state * cached_t) A) : Prop := forall x, same_node x.1 (m x).2.1 /\ went' x.2 (m x).2.2.

Lemma frames_lift {A} (r : check A) : frames (lift r).
Proof. by intros x. Qed.
Lemma frames_ret {A} (a : A) : frames (mret a).
Proof. by intros x. Qed.
Lemma frames_bind {A B} (m : scheck (state * cached_t) A) (k : A -> scheck (state * cached_t) B) : frames m -> (forall a, frames (k a)) -> frames (m ≫= k).
Proof.
  intros Hm Hk x. unfold mbind, scheck_bind. destruct (Hm x) as [Hn Hw]. destruct (m x) as [[a|f|msg|] x1]; [|done..]. cbn [snd] in Hn, Hw.
  destruct (Hk a x1) as [Hn1 Hw1]. split; by etrans.
Qed.
Lemma frames_on_snd {A} (m : scheck cached_t A) : drifts went' m -> frames (on_snd m).
Proof. intros Hm x. unfold on_snd. specialize (Hm x.2). by destruct (m x.2). Qed.
Lemma frames_on_fst {A} (m : scheck state A) : (forall s, same_node s (m s).2) -> frames (on_fst m).
Proof. intros Hm x. unfold on_fst. specialize (Hm x.1). by destruct (m x.1). Qed.

Lemma min_fee_frames e fl : frames (check_min_fee env e fl).
Proof. unfold check_min_fee. apply frames_bind; [by apply frames_on_fst|]. intros s. apply frames_lift. Qed.
Lemma relay_priority_frames e : frames (check_relay_priority env e).
Proof.
  unfold check_relay_priority. destruct (env_relaypriority env && _); [|apply frames_ret]. apply frames_bind; [|intros; apply frames_lift].
  apply frames_on_snd, (drifts_action went'). apply (GetPriority_went went' coins_went).
Qed.
Lemma free_limit_frames e fl : frames (check_free_limit env e fl).
Proof.
  unfold check_free_limit. destruct (fl && _); [|apply frames_ret]. apply frames_bind; [|intros; apply frames_lift].
  apply frames_on_fst. intros s'. unfold query. by destruct (limit_free _ _ _ _).
Qed.
Lemma accept_fees_frames e fLimitFree fRejectAbsurdFee ignoreFees : frames (accept_fees env e fLimitFree fRejectAbsurdFee ignoreFees).
Proof.
  unfold accept_fees. cbv zeta. apply frames_bind; [apply min_fee_frames|]. intros _.
  apply frames_bind; [destruct ignoreFees; [apply frames_ret|apply min_fee_frames]|]. intros _.
  apply frames_bind; [apply relay_priority_frames|]. intros _. apply frames_bind; [apply free_limit_frames|]. intros _. apply frames_lift.
Qed.

(** The fee is checked before [ignoreFees] is looked at, so that the option
    has no effect. *)
Lemma ignoreFees_no_effect e fl fa (x : state * cached_t) : accept_fees env e fl fa true x = accept_fees env e fl fa false x.
Proof.
  unfold accept_fees. cbn [negb]. cbv zeta. set (k := fun _ : unit => check_relay_priority env e ≫= _).
  assert (Hb : forall (m : scheck (state * cached_t) unit) (k1 k2 : unit -> scheck (state * cached_t) unit),
    (forall x', m x = (Pass tt, x') -> k1 tt x' = k2 tt x') -> (m ≫= k1) x = (m ≫= k2) x).
  { intros m k1 k2 Hk. unfold mbind, scheck_bind. destruct (m x) as [[[]| | |] x']; [by apply Hk|done..]. }
  apply Hb. intros x' E. assert (Ex : check_min_fee env e fl x' = (Pass tt, x')).
  { unfold check_min_fee, mbind, scheck_bind, on_fst, peek, lift in *. destruct x as [s d]. cbn [fst snd] in *. injection E as E <-. cbn [fst snd]. by rewrite E. }
  unfold mbind, scheck_bind. by rewrite Ex.
Qed.

(** *** Storing *)

Lemma set_insight_wf x (p : CTxMemPool) : pool_wf p -> pool_wf (set_insight x p).
Proof. intros [[] Wt Hw]. by split; [split|..]. Qed.

Lemma accept_store_Pass e s d s' d' : pool_wf (as_pool s) -> addable (as_pool s) e -> accept_store env e (s, d) = (Pass tt, (s', d')) ->
  pool_wf (as_pool s') /\ mapTx (as_pool s') = <[tx_hash (me_tx e) := e]> (mapTx (as_pool s)) /\ as_pcoinsTip s' = as_pcoinsTip s.
Proof.
  intros Wp Ad E. unfold accept_store, action in E. cbn [fst snd] in E. destruct (addUnchecked_ok e (negb (env_ibd env)) (as_pool s) Wp Ad) as (p1 & E1 & W1 & M1 & _).
  rewrite E1 in E. cbn [mbind result_bind] in E.
  assert (Hstep : forall (b : bool) (f : cached_t -> CTxMemPool -> result (CTxMemPool * cached_t)) p0 d0 r,
    (forall c p r, f c p = Ok r -> exists x, r.1 = set_insight x p) -> pool_wf p0 -> (if b then f d0 p0 else Ok (p0, d0)) = Ok r -> pool_wf r.1 /\ mapTx r.1 = mapTx p0).
  { intros b f p0 d0 r Hf W0 Er. destruct b; [|by simplify_eq]. apply Hf in Er as [x ->]. split; [by apply set_insight_wf|done]. }
  destruct (if fAddressIndex then addAddressIndex e d p1 else Ok (p1, d)) as [[p2 d2]| |] eqn:E2; [|done..]. cbn [mbind result_bind fst snd] in E.
  destruct (if fSpentIndex then addSpentIndex e d2 p2 else Ok (p2, d2)) as [[p3 d3]| |] eqn:E3; [|done..]. cbn [mbind result_bind fst snd] in E. simplify_eq/=.
  apply (Hstep _ (addAddressIndex e)) in E2 as [W2 M2]; [|clear|done]. apply (Hstep _ (addSpentIndex e)) in E3 as [W3 M3]; [|clear|done].
  - cbn [fst] in *. split; [done|]. split; [|done]. congruence.
  - intros c p r E. unfold addSpentIndex in E. apply bind_Ok in E as (y & _ & E). simplify_eq. by eexists.
  - intros c p r E. unfold addAddressIndex in E. apply bind_Ok in E as (y & _ & E). destruct (foldl _ _ _) in E. simplify_eq. by eexists.
Qed.

(** *** The inputs *)

(** The chain with the pool on top. *)
Definition pool_and_chain s : AbsView := pool_over (as_pool s) (cache_abs (as_pcoinsTip s)).
Definition first_view s : view_t := CCoinsViewCache_new (mkViewMemPool (as_pcoinsTip s) (as_pool s)).

Lemma first_view_ok s : cache_inv (as_pcoinsTip s) -> cache_inv (first_view s) /\ cache_abs (first_view s) ≡ pool_and_chain s.
Proof. intros Ht. exact (new_cache_ok (SpT := SpT) (SaT := SaT) (mkViewMemPool (as_pcoinsTip s) (as_pool s)) Ht). Qed.

(** The coins of the tip are only read. *)
Definition tip_read s s' : Prop := cache_inv (as_pcoinsTip s') /\ cache_abs (as_pcoinsTip s') ≡ cache_abs (as_pcoinsTip s).

Lemma accept_inputs_kept tx s r s' : cache_inv (as_pcoinsTip s) -> accept_inputs tx s = (r, s') -> as_pool s' = as_pool s /\ tip_read s s'.
Proof.
  intros Ht E. unfold accept_inputs in E. pose proof (accept_view_moves tx (as_fMissingInputs s, first_view s)) as [_ [_ Hk]]. unfold first_view in Hk.
  destruct (accept_view tx _) as [r1 [m view]]. cbn [fst snd] in Hk. injection E as _ <-. cbn [as_pool]. split; [done|].
  cbn [base CCoinsViewCache_new vm_base] in Hk. specialize (Hk Ht) as (Hi & Hab & _). by split.
Qed.

Lemma accept_inputs_Pass tx s n d s' : cache_inv (as_pcoinsTip s) -> IsCoinBase tx = false -> accept_inputs tx s = (Pass (n, d), s') ->
  exists view, view_passed tx (first_view s) view n /\ maps d = maps view.
Proof.
  intros Ht Hcb E. unfold accept_inputs in E. destruct (accept_view tx _) as [[n1| | |] [m view]] eqn:Ev; [|done..]. cbn in E. injection E as <- <- <-.
  exists view. split; [|done]. eapply accept_view_Pass; [|done|exact Ev]. apply (first_view_ok s Ht).
Qed.

(** An input whose transaction neither the pool nor the chain has. *)
Lemma inputs_known_false l : forall (view view' : view_t), cache_core view -> inputs_known l view = (false, view') ->
  exists i, i ∈ l /\ a_coins (cache_abs view) (out_hash (prevout i)) = None.
Proof.
  induction l as [|i l IH]; intros view view' Hc E; cbn [inputs_known] in E; [done|]. unfold Cache_HaveCoins in E.
  destruct (FetchCoins_ok (out_hash (prevout i)) view Hc) as (Hr & Hn & _). destruct (FetchCoins _ view) as [o v1]. cbn [fst snd] in Hr, Hn.
  destruct o as [coins|]; [|exists i; split; [left|by rewrite <- Hn]]. case_bool_decide as Hv; cbn [negb] in E.
  - exists i. split; [left|]. rewrite <- Hn. apply norm_pruned. unfold CCoins_IsPruned. by rewrite Hv.
  - apply IH in E as (j & Hj & En); [|apply Hr]. exists j. split; [by right|]. pose proof Hr as (_ & Ha & _). by rewrite (eqv_coins _ _ Ha) in En.
Qed.

Lemma accept_inputs_missing tx s r s' : cache_inv (as_pcoinsTip s) -> as_fMissingInputs s = false -> accept_inputs tx s = (r, s') ->
  as_fMissingInputs s' = true -> r = Fail FailPlain /\ exists i, i ∈ vin tx /\ a_coins (pool_and_chain s) (out_hash (prevout i)) = None.
Proof.
  intros Ht Hm E Hm'. destruct (first_view_ok s Ht) as [Hi Ha]. unfold accept_inputs in E. fold (first_view s) in E. rewrite Hm in E.
  destruct (accept_view tx (false, first_view s)) as [r1 [m view]] eqn:Ev. injection E as <- <-. cbn in Hm'. subst m.
  unfold accept_view in Ev. pose proof (HaveCoins_read (tx_hash tx) (first_view s) (proj1 Hi)) as Hr. unfold mbind, scheck_bind, on_snd, query, lift in Ev. cbn [fst snd] in Ev.
  destruct (Cache_HaveCoins _ _) as [[] v1]; cbn in Ev; [done|]. cbn [snd] in Hr. destruct (inputs_known (vin tx) v1) as [[] v2] eqn:Ek.
  - exfalso. cbn in Ev. repeat (case_match; simplify_eq/=).
  - cbn in Ev. simplify_eq. split; [done|]. apply inputs_known_false in Ek as (i & Hin & En); [|apply Hr]. exists i. split; [done|].
    pose proof Hr as (_ & Har & _). by rewrite (eqv_coins _ _ Har), (eqv_coins _ _ Ha) in En.
Qed.

(** *** The scripts, on what the cache holds *)

Lemma accept_scripts_Pass e (view : view_t) d d' : cache_inv view -> IsCoinBase (me_tx e) = false -> tx_amounts_i64 (me_tx e) -> ready view d (me_tx e) ->
  accept_scripts params chainparams env e d = (Pass tt, d') -> exists txdata b prot, Precompute (me_tx e) = Ok txdata
    /\ env_blocks env !! a_best (cache_abs view) = Some b /\ GetCoinbaseProtected params (bi_nHeight b + 1) = Ok prot
    /\ Forall (input_ok (cache_abs view) (me_tx e) (bi_nHeight b + 1) (consensus chainparams) prot) (vin (me_tx e))
    /\ (exists vs fee, input_values (cache_abs view) (vin (me_tx e)) = Some vs
          /\ sumZ vs + exact_shielded_in (me_tx e) = exact_value_out (me_tx e) + fee /\ 0 <= fee <= MAX_MONEY)
    /\ (forall n i, vin (me_tx e) !! n = Some i ->
          unlocks (cache_abs view) (me_tx e) STANDARD_SCRIPT_VERIFY_FLAGS (me_nBranchId e) (Some txdata) (Z.of_nat n) i
          /\ unlocks (cache_abs view) (me_tx e) MANDATORY_SCRIPT_VERIFY_FLAGS (me_nBranchId e) (Some txdata) (Z.of_nat n) i).
Proof.
  intros Hi Hcb Ham R E. unfold accept_scripts in E. apply scheck_bind_Pass in E as (txdata & d1 & E1 & E). apply lift_Pass in E1 as [E1 ->]. apply of_result_Pass in E1.
  apply scheck_bind_Pass in E as (r1 & d2 & E2 & E). apply scheck_bind_Pass in E as (r2 & d3 & E3 & _).
  destruct (ContextualCheckInputs_same _ _ _ R params (env_blocks env) true STANDARD_SCRIPT_VERIFY_FLAGS (Some txdata) (consensus chainparams) (me_nBranchId e) None) as (x & V2 & E2').
  rewrite E2' in E2. injection E2 as -> <-.
  destruct (ContextualCheckInputs_same _ _ _ R params (env_blocks env) true MANDATORY_SCRIPT_VERIFY_FLAGS (Some txdata) (consensus chainparams) (me_nBranchId e) None) as (y & V3 & E3').
  rewrite E3' in E3. injection E3 as -> <-.
  destruct (ContextualCheckInputs_Pass _ _ _ _ _ _ _ _ _ _ Hi Hcb Ham V2) as (b & prot & Hb & Hp & Hok & Hfee & Hu).
  destruct (ContextualCheckInputs_Pass _ _ _ _ _ _ _ _ _ _ Hi Hcb Ham V3) as (_ & _ & _ & _ & _ & _ & Hu').
  exists txdata, b, prot. split_and!; try done. intros n i Hn. split; [by apply Hu|by apply Hu'].
Qed.

Lemma wrapped_sum (vs : list Z) : forall k x, i64 (foldl (fun n v => i64 (n + v)) k vs + x) = i64 (k + sumZ vs + x).
Proof.
  induction vs as [|v vs IH]; intros k x; cbn [foldl]; [cbn; by rewrite Z.add_0_r|]. rewrite IH, sumZ_cons.
  replace (i64 (k + v) + sumZ vs + x) with (i64 (k + v) + (sumZ vs + x)) by lia. rewrite i64_add_l. f_equal. lia.
Qed.

(** What an accepted transaction has shown of the state [a] of the chain with
    the pool on top. *)
Record admissible (a : AbsView) (best : uint256) tx e : Prop := {
  am_block : exists b prot, env_blocks env !! best = Some b /\ GetCoinbaseProtected params (bi_nHeight b + 1) = Ok prot
    /\ Forall (input_ok a tx (bi_nHeight b + 1) (consensus chainparams) prot) (vin tx);
  am_fee : exists vs, input_values a (vin tx) = Some vs
    /\ sumZ vs + exact_shielded_in tx = exact_value_out tx + me_nFee e /\ 0 <= me_nFee e <= MAX_MONEY;
  am_sprout : Forall (fun nf => a_null a SPROUT nf = false) (sprout_nullifiers tx);
  am_sapling : Forall (fun nf => a_null a SAPLING nf = false) (sapling_nullifiers tx);
  am_anchor : Forall (fun sd => a_anchor a SAPLING (sd_anchor sd) = true) (vShieldedSpend tx);
  am_scripts : exists txdata, Precompute tx = Ok txdata /\ forall n i, vin tx !! n = Some i ->
    unlocks a tx STANDARD_SCRIPT_VERIFY_FLAGS (me_nBranchId e) (Some txdata) (Z.of_nat n) i
    /\ unlocks a tx MANDATORY_SCRIPT_VERIFY_FLAGS (me_nBranchId e) (Some txdata) (Z.of_nat n) i
}.

Lemma admissible_equiv a a' best tx e : a ≡ a' -> admissible a best tx e -> admissible a' best tx e.
Proof.
  intros Ha [(b & prot & Hb & Hp & Hok) (vs & Hvs & Hf) Hs1 Hs2 Han (td & Htd & Hu)]. split.
  - exists b, prot. split_and!; try done. eapply Forall_impl; [exact Hok|]. intros i. by apply input_ok_equiv.
  - exists vs. split; [|done]. rewrite <- Hvs. apply mapM_ext. intros i. by rewrite (out_unspent_equiv _ _ _ Ha).
  - eapply Forall_impl; [exact Hs1|]. intros nf. cbv beta. by rewrite (eqv_null _ _ Ha).
  - eapply Forall_impl; [exact Hs2|]. intros nf. cbv beta. by rewrite (eqv_null _ _ Ha).
  - eapply Forall_impl; [exact Han|]. intros sd. cbv beta. by rewrite (eqv_anchor _ _ Ha).
  - exists td. split; [done|]. intros n i Hn. destruct (Hu n i Hn). split; by eapply unlocks_equiv.
Qed.

(** The entry that is stored, from the checks on the cached view. *)
Lemma accept_cached_Pass tx fl fa ig n s s2 d (view : view_t) d' :
  cache_inv (as_pcoinsTip s) -> IsCoinBase tx = false -> tx_amounts_i64 tx -> a_best (cache_abs (first_view s)) <> uint256_null ->
  view_passed tx (first_view s) view n -> maps d = maps view -> pool_wf (as_pool s2) -> (forall e, me_tx e = tx -> addable (as_pool s2) e) ->
  forall s', accept_cached params chainparams env tx fl fa ig n (s2, d) = (Pass tt, (s', d')) ->
  exists e, me_tx e = tx /\ admissible (pool_and_chain s) (a_best (cache_abs (first_view s))) tx e /\ pool_wf (as_pool s')
    /\ mapTx (as_pool s') = <[tx_hash tx := e]> (mapTx (as_pool s2)) /\ as_pcoinsTip s' = as_pcoinsTip s2.
Proof.
  intros Ht Hcb Ham Hbest VP Hmaps Wp Had s' E. destruct (first_view_ok s Ht) as [Hfi Hfa].
  unfold accept_cached in E. apply scheck_bind_Pass in E as (s2' & x1 & E1 & E). apply on_fst_Pass in E1 as (s1' & E1 & ->). injection E1 as <- <-. cbn [fst snd] in *.
  apply scheck_bind_Pass in E as (e & x2 & E2 & E). apply on_snd_Pass in E2 as (d2 & E2 & ->). cbn [fst snd] in *.
  pose proof (accept_entry_drifts tx n (as_pool s2) d) as [G2 _]. rewrite E2 in G2. cbn [snd] in G2.
  apply accept_entry_Pass in E2 as (Htx & _ & out & Eout & Hfee).
  apply scheck_bind_Pass in E as ([] & [s3 d3] & E3 & E). destruct (accept_fees_frames e fl fa ig (s2, d2)) as [[Hp3 [Ht3 _]] [G3 _]]. rewrite E3 in Hp3, Ht3, G3. cbn [fst snd] in *.
  apply scheck_bind_Pass in E as ([] & x4 & E4 & E). apply on_snd_Pass in E4 as (d4 & E4 & ->). cbn [fst snd] in *.
  assert (Hiv : cache_inv view) by (apply (read_ok_stable _ _ Hfi (vp_read _ _ _ _ VP))).
  pose proof (vp_read _ _ _ _ VP) as (_ & Hav & _).
  assert (R : ready view d3 (me_tx e)) by (rewrite Htx; apply (vp_ready _ _ _ _ VP Hbest); rewrite <- Hmaps; by etrans).
  rewrite <- Htx in Hcb, Ham. destruct (accept_scripts_Pass e view d3 d4 Hiv Hcb Ham R E4) as (td & b & prot & Htd & Hb & Hpr & Hok & (vs & fee & Hvs & Hsum & Hrange) & Hu).
  rewrite Htx in *. apply accept_store_Pass in E as (W' & M' & T'); [|by rewrite Hp3|rewrite Hp3; by apply Had]. rewrite Hp3 in M'. rewrite Htx in M'.
  exists e. split_and!; [done| |done|done|congruence].
  assert (Hf : me_nFee e = fee).
  { assert (Hvs' : input_values (cache_abs (first_view s)) (vin tx) = Some vs).
    { rewrite <- Hvs. apply mapM_ext. intros i. by rewrite (out_unspent_equiv _ _ _ Hav). }
    destruct (vp_value _ _ _ _ VP vs Hvs') as (sh & Esh & ->). rewrite GetShieldedValueIn_value in Esh by done. rewrite GetValueOut_value in Eout by done.
    do 2 (case_bool_decide; [|done]). simplify_eq. rewrite Hfee. rewrite <- Z.add_opp_r, i64_add_l, <- Z.add_assoc, wrapped_sum.
    rewrite i64_small; pose proof MAX_MONEY_lt; unfold is_i64; lia. }
  eapply admissible_equiv; [exact Hfa|]. eapply admissible_equiv; [exact Hav|]. rewrite <- (eqv_best _ _ Hav). split.
  - by exists b, prot.
  - exists vs. by rewrite Hf.
  - eapply Forall_impl; [exact (vp_sprout _ _ _ _ VP)|]. intros nf. cbv beta. by rewrite (eqv_null _ _ Hav).
  - eapply Forall_impl; [exact (vp_sapling _ _ _ _ VP)|]. intros nf. cbv beta. by rewrite (eqv_null _ _ Hav).
  - eapply Forall_impl; [exact (vp_anchor _ _ _ _ VP)|]. intros sd. cbv beta. by rewrite (eqv_anchor _ _ Hav).
  - by exists td.
Qed.

Lemma scheck_bind_Fail {S A B} (m : scheck S A) (k : A -> scheck S B) x f x' :
  (m ≫= k) x = (Fail f, x') -> m x = (Fail f, x') \/ exists a x1, m x = (Pass a, x1) /\ k a x1 = (Fail f, x').
Proof. unfold mbind, scheck_bind. destruct (m x) as [[] ?]; intros E; simplify_eq; naive_solver. Qed.
Lemma on_snd_node {A} (m : scheck cached_t A) (x : state * cached_t) r x' : on_snd m x = (r, x') -> x'.1 = x.1.
Proof. unfold on_snd. destruct (m x.2). by intros [= <- <-]. Qed.

(** Only storing changes the pool, and storing does not fail. *)
Lemma accept_cached_Fail tx fl fa ig n s d f s' d' : accept_cached params chainparams env tx fl fa ig n (s, d) = (Fail f, (s', d')) -> same_node s s'.
Proof.
  intros E. unfold accept_cached in E. apply scheck_bind_Fail in E as [E|(s1 & x1 & E1 & E)]; [done|]. injection E1 as <- <-.
  apply scheck_bind_Fail in E as [E|(e & [s2 d2] & E2 & E)]; [by apply on_snd_node in E; simplify_eq/=|]. apply on_snd_node in E2. cbn [fst] in E2. subst s2.
  destruct (accept_fees_frames e fl fa ig (s, d2)) as [Hn _].
  apply scheck_bind_Fail in E as [E|([] & [s3 d3] & E3 & E)]; [by rewrite E in Hn|]. rewrite E3 in Hn. cbn [fst snd] in Hn.
  apply scheck_bind_Fail in E as [E|([] & [s4 d4] & E4 & E)]; [apply on_snd_node in E; cbn [fst] in E; by subst|]. apply on_snd_node in E4. cbn [fst] in E4. subst s4.
  unfold accept_store, action in E. destruct (mbind _ _) as [[[] ?]| |] in E; done.
Qed.

(** ** The theorems *)

Lemma AcceptToMemoryPool_run tx fl fa ig s r s' : AcceptToMemoryPool params chainparams env tx fl fa ig s = (r, s') ->
  let s0 := mkAcceptState (as_pool s) (as_pcoinsTip s) (as_limiter s) false in
  (forall u, r <> Pass u) /\ s' = s0
  \/ accept_context_free params chainparams env tx = Pass tt /\ accept_no_conflict tx (as_pool s) = Pass tt /\ exists ri s1, accept_inputs tx s0 = (ri, s1)
     /\ ((forall x, ri <> Pass x) /\ s' = s1 /\ (forall u, r <> Pass u) /\ (forall f, ri = Fail f <-> r = Fail f)
        \/ exists n d d', ri = Pass (n, d) /\ accept_cached params chainparams env tx fl fa ig n (s1, d) = (r, (s', d'))).
Proof.
  intros E s0. unfold AcceptToMemoryPool in E. unfold mbind, scheck_bind, poke, peek, lift in E. fold s0 in E.
  destruct (accept_context_free _ _ _ tx) as [[]| | |]; [|left; naive_solver..]. cbn [as_pool] in E.
  destruct (accept_no_conflict tx _) as [[]| | |]; [|left; naive_solver..]. right. split; [done|]. split; [done|].
  destruct (accept_inputs tx s0) as [ri s1]. exists ri, s1. split; [done|]. destruct ri as [[n d]| | |]; [|left; naive_solver..].
  right. unfold with_view in E. cbn [fst snd] in E. destruct (accept_cached _ _ _ _ _ _ _ _ _) as [r' [s2 d']] eqn:Ec. injection E as <- <-. by exists n, d, d'.
Qed.

Lemma accept_sound (tx : CTransaction) (fLimitFree fRejectAbsurdFee ignoreFees : bool) (s s' : state)
  (Wp : pool_wf (as_pool s)) (Ht : cache_inv (as_pcoinsTip s)) (Hb : a_best (cache_abs (as_pcoinsTip s)) <> uint256_null) (Ha : tx_amounts_i64 tx)
  (E : AcceptToMemoryPool params chainparams env tx fLimitFree fRejectAbsurdFee ignoreFees s = (Pass tt, s')) :
  exists e, me_tx e = tx /\ addable (as_pool s) e
    /\ admissible (pool_over (as_pool s) (cache_abs (as_pcoinsTip s))) (a_best (cache_abs (as_pcoinsTip s))) tx e
    /\ pool_wf (as_pool s') /\ mapTx (as_pool s') = <[tx_hash tx := e]> (mapTx (as_pool s))
    /\ CheckFinalTx tx STANDARD_LOCKTIME_VERIFY_FLAGS (env_height env) (env_medianTimePast env) (env_adjusted env) = true
    /\ IsExpiringSoonTx tx (env_height env + 1) = false
    /\ cache_inv (as_pcoinsTip s') /\ cache_abs (as_pcoinsTip s') ≡ cache_abs (as_pcoinsTip s).
Proof.
  apply AcceptToMemoryPool_run in E as [[Hn _]|(Ec & En & ri & s1 & Ei & [(_ & _ & Hn & _)|(n & d & d' & -> & Ed)])]; [by destruct (Hn tt)..|].
  apply accept_context_free_Pass in Ec as (Hcb & Hnd & Hx & Hf). destruct (accept_inputs_kept _ _ _ _ (Ht : cache_inv (as_pcoinsTip (mkAcceptState (as_pool s) (as_pcoinsTip s) (as_limiter s) false))) Ei) as [Hp1 [Ht1 Ha1]].
  apply accept_inputs_Pass in Ei as (view & VP & Hm); [|done..]. cbn [as_pool as_pcoinsTip] in Hp1, Ht1, Ha1.
  set (s0 := mkAcceptState (as_pool s) (as_pcoinsTip s) (as_limiter s) false) in *.
  assert (Ad : forall e, me_tx e = tx -> addable (as_pool s) e) by (intros e He; by eapply accept_no_conflict_Pass).
  assert (Hbe : a_best (cache_abs (first_view s0)) = a_best (cache_abs (as_pcoinsTip s))) by (destruct (first_view_ok s0 Ht) as [_ Hfa]; by rewrite (eqv_best _ _ Hfa)).
  apply (accept_cached_Pass tx _ _ _ n s0 s1 d view d') in Ed as (e & He & Adm & W' & M' & T'); [|done|done|done|by rewrite Hbe|done|done|by rewrite Hp1|by rewrite Hp1].
  exists e. rewrite Hbe in Adm. rewrite Hp1 in M'. rewrite T'. split_and!; try done. by apply Ad.
Qed.

(** (C10) A transaction that is accepted keeps the pool consistent and is the only
    new one in it; in the chain with the pool on top it spends only unspent
    outputs, mature ones of coinbases, that no transaction of the pool spends;
    its fee is exactly what its inputs leave over and at least zero; its
    nullifiers are unspent in the chain and in the pool; the scripts of its
    inputs succeed, under the standard and under the mandatory flags.  It can
    be mined next: it is final and does not expire soon.  The coins of the tip
    show what they showed before. *)
Theorem AcceptToMemoryPool_sound (tx : CTransaction) (fLimitFree fRejectAbsurdFee ignoreFees : bool) (s s' : state)
  (Wp : pool_wf (as_pool s)) (Ht : cache_inv (as_pcoinsTip s)) (Hb : a_best (cache_abs (as_pcoinsTip s)) <> uint256_null) (Ha : tx_amounts_i64 tx)
  (E : AcceptToMemoryPool params chainparams env tx fLimitFree fRejectAbsurdFee ignoreFees s = (Pass tt, s')) :
  exists e, me_tx e = tx /\ addable (as_pool s) e
    /\ admissible (pool_over (as_pool s) (cache_abs (as_pcoinsTip s))) (a_best (cache_abs (as_pcoinsTip s))) tx e
    /\ pool_wf (as_pool s') /\ mapTx (as_pool s') = <[tx_hash tx := e]> (mapTx (as_pool s))
    /\ CheckFinalTx tx STANDARD_LOCKTIME_VERIFY_FLAGS (env_height env) (env_medianTimePast env) (env_adjusted env) = true
    /\ IsExpiringSoonTx tx (env_height env + 1) = false
    /\ cache_inv (as_pcoinsTip s') /\ cache_abs (as_pcoinsTip s') ≡ cache_abs (as_pcoinsTip s).
Proof. by eapply accept_sound. Qed.

Lemma accept_rejects (tx : CTransaction) (fLimitFree fRejectAbsurdFee ignoreFees : bool) (s s' : state) (f : failure)
  (Ht : cache_inv (as_pcoinsTip s))
  (E : AcceptToMemoryPool params chainparams env tx fLimitFree fRejectAbsurdFee ignoreFees s = (Fail f, s')) :
  as_pool s' = as_pool s /\ cache_inv (as_pcoinsTip s') /\ cache_abs (as_pcoinsTip s') ≡ cache_abs (as_pcoinsTip s)
  /\ (as_fMissingInputs s' = true -> f = FailPlain
        /\ exists i, i ∈ vin tx /\ a_coins (pool_over (as_pool s) (cache_abs (as_pcoinsTip s))) (out_hash (prevout i)) = None).
Proof.
  apply AcceptToMemoryPool_run in E as [[_ ->]|(_ & _ & ri & s1 & Ei & Hc)]; [by split_and!|].
  set (s0 := mkAcceptState (as_pool s) (as_pcoinsTip s) (as_limiter s) false) in *.
  destruct (accept_inputs_kept _ _ _ _ (Ht : cache_inv (as_pcoinsTip s0)) Ei) as [Hp1 [Ht1 Ha1]].
  pose proof (accept_inputs_missing _ _ _ _ (Ht : cache_inv (as_pcoinsTip s0)) eq_refl Ei) as Hmiss.
  destruct Hc as [(_ & -> & _ & Hf)|(n & d & d' & -> & Ed)].
  - split_and!; try done. intros Hm. destruct (Hmiss Hm) as [Hri Hi]. apply Hf in Hri. by simplify_eq.
  - destruct (accept_cached_Fail tx fLimitFree fRejectAbsurdFee ignoreFees n s1 d f s' d' Ed) as (Hp2 & Ht2 & Hm2).
    rewrite Hp2, Ht2, Hm2. split_and!; try done. intros Hm. by destruct (Hmiss Hm).
Qed.

(** (C11) A transaction that is rejected leaves the pool as it was and the coins of
    the tip show what they showed.  The caller is told about missing inputs only
    when the transaction of an input is neither in the pool nor has unspent
    outputs in the chain, and then nothing else is held against the
    transaction. *)
Theorem AcceptToMemoryPool_rejects (tx : CTransaction) (fLimitFree fRejectAbsurdFee ignoreFees : bool) (s s' : state) (f : failure)
  (Ht : cache_inv (as_pcoinsTip s))
  (E : AcceptToMemoryPool params chainparams env tx fLimitFree fRejectAbsurdFee ignoreFees s = (Fail f, s')) :
  as_pool s' = as_pool s /\ cache_inv (as_pcoinsTip s') /\ cache_abs (as_pcoinsTip s') ≡ cache_abs (as_pcoinsTip s)
  /\ (as_fMissingInputs s' = true -> f = FailPlain
        /\ exists i, i ∈ vin tx /\ a_coins (pool_over (as_pool s) (cache_abs (as_pcoinsTip s))) (out_hash (prevout i)) = None).
Proof. by eapply accept_rejects. Qed.
End Accept.
