(* ===== verification/AcceptableInputs.v ===== *)
(** * Inputs acceptable for a masternode

    main.cpp: [AcceptableInputs], which checks the transaction of a masternode's
    collateral against the pool and the chain without adding it, with
    [ValidOutPoint].  It is a variant of [AcceptToMemoryPool] that looks up the
    inputs but not the shielded requirements before it puts the empty view
    below its cache; a theorem shows that it therefore rejects every
    transaction that spends shielded value. *)
From stdpp Require Import prelude gmap strings list.
From S2P Require Import Prelude Transaction Script Interpreter Serialize TxSerialize SigHash Standard Double Coins History CoinsView CoinsLaws CoinsCache CoinsOps UpdateCoins ChainParams Chain Checks CheckTx CheckInputs CoinsReplay ConnectBlock MempoolLimit TxMemPool PoolLaws PoolRemovals PoolSafety PoolCoins AcceptToPool AcceptLaws AcceptSafety.
#[local] Open Scope Z_scope.

(** The locks of SwiftTX, spork 11 and the outpoints that it invalidates, and
    the environment of [AcceptToMemoryPool] with the defaults of this function
    for its options. *)
Record InputsEnv := mkInputsEnv {
  ie_env : AcceptEnv;
  ie_mapLockedInputs : COutPoint -> option uint256;
  ie_spork11 : Z;
  ie_mapInvalidOutPoints : gset COutPoint
}.

Definition ValidOutPoint (ie : InputsEnv) (out : COutPoint) (nHeight : Z) : bool :=
  negb ((ie_spork11 ie <=? nHeight) && bool_decide (out ∈ ie_mapInvalidOutPoints ie)).

(** [0.1 * COIN], converted to an amount. *)
Definition DSTX_FEE_DELTA : Z := COIN / 10.

Section Acceptable.
Context {SpT SaT V : Type} `{!MerkleTree SpT, !MerkleTree SaT, !CCoinsView SpT SaT V}.
Context `{SigHashCrypto} `{ScriptCrypto} `{PoolEnv}.
Context (params : CChainParams) (ie : InputsEnv).
#[local] Existing Instance CCoinsView_base.
Local Abbreviation env := (ie_env ie).
Local Abbreviation tip_t := (CCoinsViewCache SpT SaT V).
Local Abbreviation view_t := (CCoinsViewCache SpT SaT (CCoinsViewMemPool tip_t)).
Local Abbreviation cached_t := (CCoinsViewCache SpT SaT unit).
Local Abbreviation state := (AcceptState (SpT := SpT) (SaT := SaT) (V := V)).

(** The checks of the transaction and of the pool.  The verifier is
    [ProofVerifier::Disabled()], which accepts every proof. *)
Definition acceptable_tx (tx : CTransaction) (pool : CTxMemPool) : check unit :=
  _ ← CheckTransaction (fun _ _ => true) tx;
  _ ← reject_if (IsCoinBase tx) (dos 100 REJECT_INVALID "coinbase");
  _ ← reject_if (exists_ (tx_hash tx) pool) FailPlain;
  _ ← check_each (fun i => reject_if (match ie_mapLockedInputs ie (prevout i) with Some h => negb (h =? tx_hash tx) | None => false end)
                  (dos 0 REJECT_INVALID "tx-lock-conflict")) (vin tx);
  check_each (fun i => reject_if (bool_decide (is_Some (mapNextTx pool !! prevout i))) FailPlain) (vin tx).

Definition acceptable_input (_ : unit) (txin : CTxIn) : scheck (bool * view_t) unit :=
  have ← on_snd (query (Cache_HaveCoins (out_hash (prevout txin))));
  _ ← (if have : bool then mret tt else fun s => (Fail FailPlain, (true, s.2)));
  lift (reject_if (negb (ValidOutPoint ie (prevout txin) (env_height env))) (invalid REJECT_INVALID "bad-txns-invalid-inputs")).

Definition acceptable_view (tx : CTransaction) : scheck (bool * view_t) Z :=
  have ← on_snd (query (Cache_HaveCoins (tx_hash tx)));
  _ ← lift (reject_if have FailPlain);
  _ ← scheck_loop acceptable_input (vin tx) tt;
  have ← on_snd (query (Cache_HaveInputs tx));
  _ ← lift (reject_if (negb have) (invalid REJECT_DUPLICATE "bad-txns-inputs-spent"));
  _ ← on_snd (query Cache_GetBestBlock);
  on_snd (action (Cache_GetValueIn tx)).

Definition acceptable_inputs (tx : CTransaction) : scheck state (Z * cached_t) := fun s =>
  let viewMemPool := mkViewMemPool (as_pcoinsTip s) (as_pool s) in
  let '(r, (missing, view)) := acceptable_view tx (as_fMissingInputs s, CCoinsViewCache_new viewMemPool) in
  (nValueIn ← r; Pass (nValueIn, mkCache tt (hasModifier view) (maps view)),
   mkAcceptState (as_pool s) (vm_base (base view)) (as_limiter s) missing).

(** Fees, unless the transaction is a DSTX, which is given priority. *)
Definition acceptable_fees (entry : CTxMemPoolEntry) (fLimitFree fRejectInsaneFee isDSTX : bool) : scheck (state * cached_t) unit :=
  _ ← (if isDSTX then
         on_fst (poke (fun s : state => mkAcceptState (PrioritiseTransaction (tx_hash (me_tx entry)) (double_of 1000) DSTX_FEE_DELTA (as_pool s))
                                          (as_pcoinsTip s) (as_limiter s) (as_fMissingInputs s)))
       else
         _ ← check_min_fee env entry fLimitFree;
         _ ← check_relay_priority env entry;
         check_free_limit env entry fLimitFree);
  lift (reject_if (fRejectInsaneFee && (i64 (relay_fee env entry * 10000) <? me_nFee entry)) FailPlain).

(** The inputs against the cache, without their scripts. *)
Definition acceptable_check (entry : CTxMemPoolEntry) : scheck cached_t unit :=
  txdata ← lift (of_result (Precompute (me_tx entry)));
  _ ← ContextualCheckInputs params (env_blocks env) (me_tx entry) false STANDARD_SCRIPT_VERIFY_FLAGS (Some txdata) (consensus params) (me_nBranchId entry) None;
  mret tt.

Definition acceptable_cached (tx : CTransaction) (fLimitFree fRejectInsaneFee isDSTX : bool) (nValueIn : Z) : scheck (state * cached_t) unit :=
  s ← on_fst peek;
  consensusBranchId ← lift (of_result (CurrentEpochBranchId (env_height env + 1) (consensus params)));
  entry ← on_snd (entry_of env tx nValueIn (as_pool s) consensusBranchId);
  _ ← acceptable_fees entry fLimitFree fRejectInsaneFee isDSTX;
  on_snd (acceptable_check entry).

Definition AcceptableInputs (tx : CTransaction) (fLimitFree fRejectInsaneFee isDSTX : bool) : scheck state unit :=
  _ ← poke (fun s => mkAcceptState (as_pool s) (as_pcoinsTip s) (as_limiter s) false);
  s ← peek;
  _ ← lift (acceptable_tx tx (as_pool s));
  r ← acceptable_inputs tx;
  with_view r.2 (acceptable_cached tx fLimitFree fRejectInsaneFee isDSTX r.1).
End Acceptable.

(** ** Only transparent transactions are acceptable *)

(** The anchors in the cache are the same. *)
Section Unread.
Context {SpT SaT V : Type} `{!MerkleTree SpT, !MerkleTree SaT, !CCoinsView SpT SaT V}.
Implicit Types c : CCoinsViewCache SpT SaT V.

Definition same_anchors c c' : Prop :=
  cacheSproutAnchors (maps c') = cacheSproutAnchors (maps c) /\ cacheSaplingAnchors (maps c') = cacheSaplingAnchors (maps c).
#[global] Instance same_anchors_preorder : PreOrder same_anchors.
Proof. split; [by intros c|]. intros c1 c2 c3 [? ?] [? ?]. split; congruence. Qed.

Lemma FetchCoins_anchors t c : same_anchors c (FetchCoins t c).2.
Proof. unfold FetchCoins. destruct (cacheCoins (maps c) !! t); [done|]. by destruct (GetCoins t (base c)) as [[] ?]. Qed.
Lemma GetBestBlock_anchors c : same_anchors c (Cache_GetBestBlock c).2.
Proof. unfold Cache_GetBestBlock. destruct (uint256_IsNull _); [|done]. by destruct (GetBestBlock (base c)). Qed.
End Unread.

Section Transparent.
Context {SpT SaT V : Type} `{!MerkleTree SpT, !MerkleTree SaT, !CCoinsView SpT SaT V}.
Context `{SigHashCrypto} `{ScriptCrypto} `{PoolEnv}.
Context (params : CChainParams) (ie : InputsEnv).
#[local] Existing Instance CCoinsView_base.
Local Abbreviation tip_t := (CCoinsViewCache SpT SaT V).
Local Abbreviation view_t := (CCoinsViewCache SpT SaT (CCoinsViewMemPool tip_t)).
Local Abbreviation cached_t := (CCoinsViewCache SpT SaT unit).
Local Abbreviation state := (AcceptState (SpT := SpT) (SaT := SaT) (V := V)).
Local Abbreviation kept := (same_anchors (SpT := SpT) (SaT := SaT) (V := CCoinsViewMemPool tip_t)).
Local Abbreviation kept' := (same_anchors (SpT := SpT) (SaT := SaT) (V := unit)).
Implicit Types (tx : CTransaction) (d : cached_t).

Lemma acceptable_view_anchors tx : moves kept (acceptable_view (SpT := SpT) (SaT := SaT) (V := V) ie tx).
Proof.
  unfold acceptable_view. repeat first [apply (moves_lift kept)|apply (moves_bind kept); [|intros ?]|apply (moves_on_snd kept)].
  - apply drifts_query, (HaveCoins_went kept FetchCoins_anchors).
  - generalize tt. induction (vin tx) as [|i l IH]; intros []; cbn [scheck_loop]; [apply (moves_ret kept)|]. apply (moves_bind kept); [|done].
    unfold acceptable_input. apply (moves_bind kept); [apply (moves_on_snd kept), drifts_query, (HaveCoins_went kept FetchCoins_anchors)|]. intros have.
    apply (moves_bind kept); [|intros; apply (moves_lift kept)]. intros s. by destruct have.
  - apply drifts_query, (HaveInputs_went kept FetchCoins_anchors).
  - apply drifts_query, GetBestBlock_anchors.
  - apply (drifts_action kept), (GetValueIn_went kept FetchCoins_anchors).
Qed.

Lemma acceptable_fees_anchors e fl fr ds : moves kept' (acceptable_fees (SpT := SpT) (SaT := SaT) (V := V) ie e fl fr ds).
Proof.
  unfold acceptable_fees. apply (moves_bind kept'); [|intros; apply (moves_lift kept')]. destruct ds; [apply (moves_on_fst kept')|].
  apply (moves_bind kept'); [unfold check_min_fee; apply (moves_bind kept'); [apply (moves_on_fst kept')|intros; apply (moves_lift kept')]|]. intros _.
  apply (moves_bind kept'); [|intros _]; unfold check_relay_priority, check_free_limit; (case_match; [|apply (moves_ret kept')]);
    (apply (moves_bind kept'); [|intros; apply (moves_lift kept')]); [|apply (moves_on_fst kept')].
  apply (moves_on_snd kept'), (drifts_action kept'), (GetPriority_went kept' FetchCoins_anchors).
Qed.

(** Without anchors in the cache and with nothing below, shielded spends have
    unknown anchors. *)
Lemma unread_requirements tx d d' : cacheSproutAnchors (maps d) = ∅ -> cacheSaplingAnchors (maps d) = ∅ ->
  Cache_HaveShieldedRequirements tx d = Ok (None, d') -> vjoinsplit tx = [] /\ vShieldedSpend tx = [].
Proof.
  intros Hs Hz E. unfold Cache_HaveShieldedRequirements in E. apply bind_Ok in E as ([r d1] & E1 & E). cbn [fst snd] in E. destruct r; [done|]. injection E as E.
  assert (Hn : forall nf ty x b x', Cache_GetNullifier nf ty x = (b, x') -> kept' x x').
  { intros nf ty x b x' En. unfold Cache_GetNullifier in En. destruct (get_nullifiers ty (maps x) !! nf); [by simplify_eq|]. injection En as _ <-. by destruct ty. }
  assert (Hany : forall nfs ty x b x', any_nullifier nfs ty x = (b, x') -> kept' x x').
  { induction nfs as [|nf nfs IH]; intros ty x b x' En; cbn [any_nullifier] in En; [by simplify_eq|]. destruct (Cache_GetNullifier nf ty x) as [[] x1] eqn:Ex; [|].
    - simplify_eq. by eapply Hn.
    - etrans; [by eapply Hn|by eapply IH]. }
  destruct (vjoinsplit tx) as [|js jss] eqn:Ej.
  - cbn in E1. simplify_eq. split; [done|]. destruct (vShieldedSpend tx) as [|sd l]; [done|]. cbn [have_spends] in E.
    destruct (Cache_GetNullifier _ _ d1) as [[] d2] eqn:E2; [done|]. destruct (Hn _ _ _ _ _ E2) as [_ Hz2]. exfalso.
    unfold Cache_GetSaplingAnchorAt, anchor_at in E. rewrite Hz2, Hz, lookup_empty in E. done.
  - exfalso. cbn [have_joinsplits] in E1. destruct (any_nullifier _ _ d) as [[] d2] eqn:E2; [done|]. destruct (Hany _ _ _ _ _ E2) as [Hs2 _].
    rewrite lookup_empty in E1. unfold Cache_GetSproutAnchorAt, anchor_at in E1. rewrite Hs2, Hs, lookup_empty in E1. done.
Qed.

Definition no_anchors d : Prop := cacheSproutAnchors (maps d) = ∅ /\ cacheSaplingAnchors (maps d) = ∅.
Lemma no_anchors_kept d d' : no_anchors d -> kept' d d' -> no_anchors d'.
Proof. intros [? ?] [? ?]. split; congruence. Qed.

Lemma unread_inputs tx blocks scripts flags txdata cp branch pv d r d' : no_anchors d -> IsCoinBase tx = false ->
  ContextualCheckInputs params blocks tx scripts flags txdata cp branch pv d = (Pass r, d') -> vjoinsplit tx = [] /\ vShieldedSpend tx = [].
Proof.
  intros Hd Hcb E. unfold ContextualCheckInputs in E. rewrite Hcb in E.
  apply scheck_bind_Pass in E as (h & d1 & E1 & E). apply scheck_bind_Pass in E as (prot & d2 & E2 & E). apply lift_Pass in E2 as [_ ->].
  unfold GetSpendHeight in E1. apply scheck_bind_Pass in E1 as (best & d3 & E3 & E1). apply scheck_bind_Pass in E1 as (pi & d4 & E4 & E1). apply lift_Pass in E4 as [_ ->].
  injection E1 as _ <-. unfold query in E3. pose proof (no_anchors_kept _ _ Hd (GetBestBlock_anchors d)) as Hd3. destruct (Cache_GetBestBlock d) as [bb dd]. injection E3 as _ <-. cbn [snd] in Hd3.
  apply scheck_bind_Pass in E as ([] & d5 & E5 & _). unfold CheckTxInputs in E5. apply scheck_bind_Pass in E5 as (have & d6 & E6 & E5).
  unfold query in E6. pose proof (no_anchors_kept _ _ Hd3 (HaveInputs_went kept' FetchCoins_anchors tx dd)) as Hd6. destruct (Cache_HaveInputs tx dd) as [hh dh]. injection E6 as _ <-. cbn [snd] in Hd6.
  apply scheck_bind_Pass in E5 as ([] & d7 & E7 & E5). apply lift_Pass in E7 as [_ ->]. apply scheck_bind_Pass in E5 as (unmet & d8 & E8 & E5).
  apply scheck_bind_Pass in E5 as ([] & d9 & E9 & _). apply lift_Pass in E9 as [E9 _]. destruct unmet; [done|]. unfold action in E8.
  destruct (Cache_HaveShieldedRequirements tx dh) as [[u du]| |] eqn:Eq; [|done..]. injection E8 as -> <-. destruct Hd6. by eapply unread_requirements.
Qed.

Lemma entry_of_tx tx n p branch d e d' : entry_of (ie_env ie) tx n p branch d = (Pass e, d') -> me_tx e = tx.
Proof.
  intros E. unfold entry_of in E. apply scheck_bind_Pass in E as (? & ? & _ & E). cbv zeta in E. do 4 apply scheck_bind_Pass in E as (? & ? & _ & E).
  apply lift_Pass in E as [E _]. apply of_result_Pass in E. unfold CTxMemPoolEntry_new in E. apply bind_Ok in E as (? & _ & E). by injection E as <-.
Qed.

Lemma acceptable_cached_transparent tx fl fr ds n (s : state) d x : no_anchors d -> IsCoinBase tx = false ->
  acceptable_cached params ie tx fl fr ds n (s, d) = (Pass tt, x) -> vjoinsplit tx = [] /\ vShieldedSpend tx = [].
Proof.
  intros Hd Hcb E. unfold acceptable_cached in E. apply scheck_bind_Pass in E as (s1 & x1 & E1 & E). injection E1 as <- <-.
  apply scheck_bind_Pass in E as (branch & x2 & E2 & E). apply lift_Pass in E2 as [_ ->].
  apply scheck_bind_Pass in E as (e & x3 & E3 & E). apply on_snd_Pass in E3 as (d3 & E3 & ->). cbn [fst snd] in *.
  pose proof (no_anchors_kept _ _ Hd (entry_of_drifts kept' FetchCoins_anchors (ie_env ie) tx n (as_pool s) branch d)) as Hd3. rewrite E3 in Hd3. cbn [snd] in Hd3.
  apply scheck_bind_Pass in E as ([] & [s4 d4] & E4 & E). pose proof (no_anchors_kept _ _ Hd3 (acceptable_fees_anchors e fl fr ds (s, d3))) as Hd4.
  rewrite E4 in Hd4. cbn [snd] in Hd4. apply on_snd_Pass in E as (d5 & E & _). cbn [snd] in E. unfold acceptable_check in E. rewrite (entry_of_tx _ _ _ _ _ _ _ E3) in E.
  apply scheck_bind_Pass in E as (txdata & d6 & E6 & E). apply lift_Pass in E6 as [_ ->]. apply scheck_bind_Pass in E as (pv & d7 & E7 & _). by eapply unread_inputs.
Qed.

(** The shielded requirements are not looked up before the backend is taken
    away, so that a transaction that spends shielded value is never
    acceptable, whatever the chain holds. *)
Lemma AcceptableInputs_transparent tx (fLimitFree fRejectInsaneFee isDSTX : bool) (s s' : state) :
  AcceptableInputs params ie tx fLimitFree fRejectInsaneFee isDSTX s = (Pass tt, s') -> vjoinsplit tx = [] /\ vShieldedSpend tx = [].
Proof.
  intros E. unfold AcceptableInputs in E. apply scheck_bind_Pass in E as ([] & s0 & _ & E). apply scheck_bind_Pass in E as (s0' & s1 & E1 & E). injection E1 as <- <-.
  apply scheck_bind_Pass in E as ([] & s2 & E2 & E). apply lift_Pass in E2 as [E2 ->]. unfold acceptable_tx in E2. apply seq_Pass in E2 as [_ E2].
  apply reject_if_seq in E2 as [Hcb _]. apply scheck_bind_Pass in E as ([n d] & s3 & E3 & E). unfold acceptable_inputs in E3.
  pose proof (acceptable_view_anchors tx (as_fMissingInputs s0, CCoinsViewCache_new (mkViewMemPool (as_pcoinsTip s0) (as_pool s0)))) as [A1 A2].
  destruct (acceptable_view ie tx _) as [[n1| | |] [m view]]; [|done..]. cbn [fst snd] in A1, A2. cbn in E3. injection E3 as <- <- <-.
  unfold with_view in E. cbn [fst snd] in E. destruct (acceptable_cached _ _ _ _ _ _ _ _) as [r x] eqn:Ec. destruct x as [s4 d4]. injection E as -> <-.
  eapply acceptable_cached_transparent; [|exact Hcb|exact Ec]. by split; cbn; [rewrite A1|rewrite A2].
Qed.
End Transparent.
