(* ===== verification/ConnectReads.v ===== *)
(** * Connecting a block only reads the view below

    [ConnectBlock] works on a cache; the view under the cache is read and not
    changed, whatever the outcome.  A block that turns out to be invalid leaves
    no trace in the coins of the tip. *)
From stdpp Require Import prelude gmap strings list.
From S2P Require Import Prelude Transaction Script Interpreter Serialize TxSerialize SigHash Coins History CoinsView CoinsLaws CoinsCache CoinsOps UpdateCoins CoinsSerialize.
From S2P Require Import ArithUint256 Block ChainParams Subsidy Chain Pow Checks CheckTx CheckInputs CoinsReplay CheckBlock ChainState ConnectBlock AcceptLaws.
#[local] Open Scope Z_scope.

Section Below.
Context {SpT SaT V : Type} `{!MerkleTree SpT, !MerkleTree SaT, !CCoinsView SpT SaT V, !CCoinsViewReads SpT SaT V}.
Local Abbreviation cache := (CCoinsViewCache SpT SaT V).
Implicit Types (c : cache) (v : V).

(** The view below has only been read. *)
Definition kept v v' : Prop := view_inv v -> stable view_inv view_abs view_backed v v'.
#[global] Instance kept_preorder : PreOrder kept.
Proof.
  split; [by intros v|]. intros v1 v2 v3 S1 S2 I1. destruct (S1 I1) as (I2 & A2 & B2). destruct (S2 I2) as (I3 & A3 & B3).
  split; [done|]. split; [by etrans|]. auto.
Qed.
Lemma base_kept_reads : reads_keep kept.
Proof.
  split; intros *; intros I.
  - by apply GetCoins_law.
  - by apply GetNullifier_law.
  - by apply GetSproutAnchorAt_law.
  - by apply GetSaplingAnchorAt_law.
  - by apply GetBestBlock_law.
Qed.

Definition below c c' : Prop := kept (base c) (base c').
#[global] Instance below_preorder : PreOrder below.
Proof. split; [by intros c|]. intros c1 c2 c3. unfold below. apply transitivity. Qed.

Local Abbreviation drifts := (drifts below).
Lemma below_went c c' : went kept c c' -> below c c'.
Proof. by intros [_ ?]. Qed.

(** ** Reads *)

Lemma FetchCoins_below t c : below c (FetchCoins t c).2.
Proof. apply below_went, (FetchCoins_went kept base_kept_reads). Qed.
Lemma GetBestBlock_below c : below c (Cache_GetBestBlock c).2.
Proof. apply below_went, (GetBestBlock_went kept base_kept_reads). Qed.
Lemma GetBestAnchor_below ty c : below c (Cache_GetBestAnchor ty c).2.
Proof.
  unfold Cache_GetBestAnchor. destruct (uint256_IsNull _); [|done]. pose proof (GetBestAnchor_law ty (base c)) as Hl.
  destruct (GetBestAnchor ty (base c)) as [h v']. intros I. by apply Hl.
Qed.
Lemma HaveShieldedRequirements_below tx c a c' : Cache_HaveShieldedRequirements tx c = Ok (a, c') -> below c c'.
Proof. intros E. by apply below_went, (HaveShieldedRequirements_replays (W := V) kept base_kept_reads _ _ _ _ E). Qed.
Lemma GetSproutAnchorAt_below rt c : below c (Cache_GetSproutAnchorAt rt c).2.
Proof. destruct (Cache_GetSproutAnchorAt rt c) as [o c'] eqn:E. by apply below_went, (GetSproutAnchorAt_replays (W := V) kept base_kept_reads _ _ _ _ E). Qed.
Lemma GetSaplingAnchorAt_below rt c : below c (Cache_GetSaplingAnchorAt rt c).2.
Proof. destruct (Cache_GetSaplingAnchorAt rt c) as [o c'] eqn:E. by apply below_went, (GetSaplingAnchorAt_replays (W := V) kept base_kept_reads _ _ _ _ E). Qed.

(** ** Writes to the cache *)

Lemma ModifyCoins_below t c c' : ModifyCoins t c = Ok c' -> below c c'.
Proof.
  unfold ModifyCoins. intros E. apply bind_Ok in E as (u & _ & E). destruct (cacheCoins (maps c) !! t) as [e|]; [by injection E as <-|].
  pose proof (rk_coins _ base_kept_reads t (base c)) as Hk. destruct (GetCoins t (base c)) as [[tmp|] v']; by injection E as <-.
Qed.
Lemma destroy_below t c c' : CCoinsModifier_destroy t c = Ok c' -> below c c'.
Proof.
  unfold CCoinsModifier_destroy. intros E. apply bind_Ok in E as (u & _ & E). destruct (cacheCoins (maps c) !! t); [|done].
  by injection E as <-.
Qed.
Lemma modify_below {A} t (body : CCoins -> result (A * CCoins)) c a c' : modify ModifyCoins t body c = Ok (a, c') -> below c c'.
Proof.
  unfold modify. intros E. apply bind_Ok in E as (c1 & E1 & E). destruct (cacheCoins (maps c1) !! t); [|done].
  apply bind_Ok in E as (r & _ & E). apply bind_Ok in E as (c2 & E2 & E). injection E as _ <-.
  etrans; [exact (ModifyCoins_below _ _ _ E1)|]. exact (destroy_below _ _ _ E2).
Qed.
Lemma set_nullifiers_base spent ty nfs : forall c, base (foldl (set_nullifier spent ty) c nfs) = base c.
Proof. induction nfs as [|nf nfs IH]; intros c; [done|]. cbn [foldl]. by rewrite IH. Qed.
Lemma SetNullifiers_below tx spent c : below c (Cache_SetNullifiers tx spent c).
Proof. unfold below, Cache_SetNullifiers. by rewrite !set_nullifiers_base. Qed.
Lemma spend_inputs_below l : forall us c us' c', foldM spend_input l (us, c) = Ok (us', c') -> below c c'.
Proof.
  induction l as [|i l IH]; intros us c us' c' E; cbn [foldM] in E; [by simplify_eq|]. apply bind_Ok in E as ([us1 c1] & E1 & E).
  unfold spend_input in E1. apply bind_Ok in E1 as ([a c2] & E2 & E1). simplify_eq/=. etrans; [by eapply modify_below|by eapply IH].
Qed.
Lemma UpdateCoins_below tx c u h r c' : UpdateCoins tx c u h = Ok (r, c') -> below c c'.
Proof.
  unfold UpdateCoins. intros E. apply bind_Ok in E as ([us c1] & E1 & E). apply bind_Ok in E as ([x c2] & E2 & E). simplify_eq/=.
  apply modify_below in E2. transitivity c1.
  - destruct (negb (IsCoinBase tx)); [by eapply spend_inputs_below|by simplify_eq].
  - etrans; [apply SetNullifiers_below|exact E2].
Qed.
Lemma PushAnchor_below {T} `{MerkleTree T} (get : CacheMaps SpT SaT -> gmap uint256 (CAnchorsCacheEntry T)) set ty tree c :
  below c (AbstractPushAnchor get set ty tree c).
Proof.
  unfold AbstractPushAnchor. pose proof (GetBestAnchor_below ty c) as Hb. destruct (Cache_GetBestAnchor ty c) as [rt c1]. by case_decide.
Qed.

(** ** Checks *)

Lemma drifts_loop {T A} (body : T -> A -> scheck cache T) l : (forall t a, drifts (body t a)) -> forall t, drifts (scheck_loop body l t).
Proof.
  intros Hb. induction l as [|a l IH]; intros t; cbn [scheck_loop]; [apply (drifts_ret below)|].
  apply (drifts_bind below); [apply Hb|]. intros t'. apply IH.
Qed.
Lemma access_input_drifts i : drifts (access_input i).
Proof. apply (drifts_bind below); [apply (drifts_query below), FetchCoins_below|]. intros a. apply (drifts_lift below). Qed.

Local Ltac drift :=
  repeat first
    [ apply (drifts_lift below) | apply (drifts_ret below) | apply access_input_drifts
    | apply (drifts_query below); first [apply (HaveInputs_went below FetchCoins_below)|apply GetBestBlock_below|apply GetBestAnchor_below
        |apply GetSproutAnchorAt_below|apply GetSaplingAnchorAt_below|apply FetchCoins_below]
    | apply (drifts_action below); first [apply HaveShieldedRequirements_below|apply (GetValueIn_went below FetchCoins_below)
        |apply (GetOutputFor_went below FetchCoins_below)|intros ? ? ?; apply UpdateCoins_below]
    | apply drifts_loop; intros ? ?
    | apply (drifts_bind below); [|intros ?]
    | progress cbv zeta
    | case_match ].

Context `{SigHashCrypto} `{ScriptCrypto}.

Lemma ContextualCheckInputs_drifts params m tx e flags txdata cp branch checks : drifts (ContextualCheckInputs params m tx e flags txdata cp branch checks).
Proof. unfold ContextualCheckInputs, GetSpendHeight, CheckTxInputs, check_input_step, check_script_step. drift. Qed.

Lemma GetP2SHSigOpCount_below tx c n c' : GetP2SHSigOpCount tx c = Ok (n, c') -> below c c'.
Proof. unfold GetP2SHSigOpCount. destruct (IsCoinBase tx); [by intros [= <- <-]|]. apply (p2sh_went below FetchCoins_below). Qed.

Context `{BlockOracle} `{EquihashVerifier} `{TxVerifier} `{Secp256k1}.
Context (VerifySprout : JSDescription -> bytes -> bool).
Context (net : Network) (params chainparams : CChainParams) (benv : BlockEnv) (env : ConnectEnv).

Lemma connect_tx_drifts m h pos e flags branch l i_tx : drifts (connect_tx params chainparams env m h pos e flags branch l i_tx).
Proof.
  unfold connect_tx, connect_inputs, connect_scripts, index_input_step.
  drift; try (apply (drifts_action below), GetP2SHSigOpCount_below); try apply ContextualCheckInputs_drifts; drift.
Qed.

(** ** The whole function *)

Local Abbreviation state := (Connecting (SpT := SpT) (SaT := SaT) (V := V)).
Implicit Types s : state.

Definition view_kept {A} (m : scheck state A) : Prop := forall s, below (cn_view s) (cn_view (m s).2).

Lemma view_kept_bind {A B} (m : scheck state A) (k : A -> scheck state B) : view_kept m -> (forall a, view_kept (k a)) -> view_kept (m ≫= k).
Proof.
  intros Hm Hk s. unfold mbind, scheck_bind. specialize (Hm s). destruct (m s) as [[a|f|msg|] s1]; [|done..]. etrans; [exact Hm|apply Hk].
Qed.
Lemma view_kept_on_view {A} (m : scheck cache A) : drifts m -> view_kept (on_view m).
Proof. intros Hm s. unfold on_view. specialize (Hm (cn_view s)). by destruct (m (cn_view s)). Qed.
Lemma view_kept_ret {A} (a : A) : view_kept (mret a).
Proof. by intros s. Qed.
Lemma view_kept_lift {A} (r : check A) : view_kept (lift r).
Proof. by intros s. Qed.
Lemma view_kept_rejected {A} (m : scheck (gmap uint256 Z) A) : view_kept (on_cn_rejected m).
Proof. intros s. unfold on_cn_rejected. by destruct (m (cn_rejected s)). Qed.
Lemma view_kept_files {A} (m : scheck BlockFiles A) : view_kept (on_cn_files m).
Proof. intros s. unfold on_cn_files. by destruct (m (cn_files s)). Qed.

Local Ltac view_step := first
  [ apply view_kept_ret | apply view_kept_lift | apply view_kept_rejected | apply view_kept_files
  | (apply view_kept_bind; [|intros ?]) | progress cbv zeta | case_match | (intros ?; reflexivity) ].
Local Ltac view_same := repeat view_step.

Lemma record_undo_view undo : view_kept (record_undo params chainparams benv env undo).
Proof. unfold record_undo, write_undo, raise_to_scripts. view_same. Qed.
Lemma write_indexes_view hash (l : TxLoop) : view_kept (write_indexes env hash l).
Proof. unfold write_indexes, write_timestamps. view_same. Qed.

Lemma bip30_drifts txs t : drifts (scheck_loop bip30_step txs t).
Proof. unfold bip30_step. drift. Qed.
Lemma current_trees_drifts : drifts current_trees.
Proof. unfold current_trees. drift. Qed.
Lemma push_anchors_drifts (spt : SpT) (sat : SaT) : drifts (push_anchors spt sat).
Proof. intros c. unfold push_anchors. cbn [snd]. transitivity (PushAnchor_Sprout spt c); apply PushAnchor_below. Qed.

Lemma set_best_drifts h : drifts (set_best_block h).
Proof. intros c. change (below c (Cache_SetBestBlock h c)). unfold below. cbn. reflexivity. Qed.

Lemma connect_body_view block e just : view_kept (connect_body net params chainparams benv env block e just).
Proof.
  unfold connect_body, connect_txs. view_same; apply view_kept_on_view.
  - apply bip30_drifts.
  - apply current_trees_drifts.
  - apply drifts_loop. intros. apply connect_tx_drifts.
  - apply push_anchors_drifts.
Qed.

Lemma ConnectBlock_view block hash just : view_kept (ConnectBlock VerifySprout net params chainparams benv env block hash just).
Proof.
  unfold ConnectBlock. repeat first [apply connect_body_view|apply record_undo_view|apply write_indexes_view|apply view_kept_on_view|view_step].
  - apply (drifts_query below), GetBestBlock_below.
  - apply set_best_drifts.
  - apply set_best_drifts.
Qed.
End Below.
