(* ===== verification/ConnectFails.v ===== *)
(** * Blocks that may have been corrupted

    Of all the reasons for which [ConnectBlock] rejects a block, only three say
    that the block may have been corrupted on its way: a wrong Merkle root,
    duplicated transactions and too many signature operations, all tests of the
    block alone.  An [intact] block is never rejected so. *)
From stdpp Require Import prelude gmap strings list.
From S2P Require Import Prelude Transaction Script Interpreter Serialize TxSerialize SigHash Coins History CoinsView CoinsLaws CoinsCache CoinsOps UpdateCoins CoinsSerialize.
From S2P Require Import ArithUint256 Block ChainParams Subsidy Chain Pow Checks CheckTx CheckInputs CheckBlock ChainState AcceptBlock ConnectBlock.
#[local] Open Scope Z_scope.

(** A failure that does not hint at corruption. *)
Definition plain (f : failure) : Prop := match f with FailDoS _ _ _ corruption => corruption = false | _ => True end.
Definition plain_check {A} (m : check A) : Prop := forall f, m = Fail f -> plain f.
Definition plain_fails {S A} (m : scheck S A) : Prop := forall s f s', m s = (Fail f, s') -> plain f.

Lemma plain_reject bad f : plain f -> plain_check (reject_if bad f).
Proof. intros Hf g. destruct bad; [|done]. by intros [= <-]. Qed.
Lemma plain_result {A} (r : result A) : plain_check (of_result r).
Proof. intros f. by destruct r. Qed.
Lemma plain_pass {A} (a : A) : plain_check (Pass a).
Proof. done. Qed.
Lemma plain_fail {A} f : plain f -> plain_check (Fail f : check A).
Proof. by intros Hf g [= <-]. Qed.
Lemma plain_bind {A B} (m : check A) (k : A -> check B) : plain_check m -> (forall a, plain_check (k a)) -> plain_check (m ≫= k).
Proof. intros Hm Hk f. destruct m as [a|g| |]; cbn; [apply Hk|intros [= <-]; by apply Hm|done..]. Qed.
Lemma plain_loop {S A} (body : S -> A -> check S) l : (forall s a, plain_check (body s a)) -> forall s, plain_check (check_loop body l s).
Proof. intros Hb. induction l as [|a l IH]; intros s; cbn [check_loop]; [done|]. apply plain_bind; [apply Hb|done]. Qed.
Lemma plain_each {A} (body : A -> check unit) l : (forall a, plain_check (body a)) -> plain_check (check_each body l).
Proof. intros Hb. apply plain_loop. intros s a. apply Hb. Qed.

Lemma fails_bind {S A B} (m : scheck S A) (k : A -> scheck S B) : plain_fails m -> (forall a, plain_fails (k a)) -> plain_fails (m ≫= k).
Proof.
  intros Hm Hk s f s'. unfold mbind, scheck_bind. specialize (Hm s). destruct (m s) as [[a|g|msg|] s1]; [apply Hk|intros [= <- _]; by eapply Hm|done..].
Qed.
Lemma fails_ret {S A} (a : A) : plain_fails (mret a : scheck S A).
Proof. by intros s f s'. Qed.
Lemma fails_lift {S A} (m : check A) : plain_check m -> plain_fails (lift m : scheck S A).
Proof. intros Hm s f s'. unfold lift. intros [= E _]. by apply Hm. Qed.
Lemma fails_query {S A} (g : S -> A * S) : plain_fails (query g).
Proof. intros s f s'. unfold query. by destruct (g s). Qed.
Lemma fails_action {S A} (g : S -> result (A * S)) : plain_fails (action g).
Proof. intros s f s'. unfold action. by destruct (g s) as [[]| |]. Qed.
Lemma fails_loop {S T A} (body : T -> A -> scheck S T) l : (forall t a, plain_fails (body t a)) -> forall t, plain_fails (scheck_loop body l t).
Proof. intros Hb. induction l as [|a l IH]; intros t; cbn [scheck_loop]; [apply fails_ret|]. apply fails_bind; [apply Hb|done]. Qed.

(** Sequences, branches and loops of such checks. *)
Ltac plain_step := match goal with
  | |- plain_check (of_result _) => apply plain_result
  | |- plain_check (Pass _) => apply plain_pass
  | |- plain_check (mret _) => apply plain_pass
  | |- plain_check (Fail (if ?b then _ else _)) => destruct b
  | |- plain_check (Fail _) => apply plain_fail; done
  | |- plain_check (reject_if _ _) => apply plain_reject; done
  | |- plain_check (_ ≫= _) => apply plain_bind; [|intros ?]
  | |- plain_check (check_each _ _) => apply plain_each; intros ?
  | |- plain_check (check_loop _ _ _) => apply plain_loop; intros ? ?
  | |- plain_fails (mret _) => apply fails_ret
  | |- plain_fails (query _) => apply fails_query
  | |- plain_fails (action _) => apply fails_action
  | |- plain_fails (lift _) => apply fails_lift
  | |- plain_fails (_ ≫= _) => apply fails_bind; [|intros ?]
  | |- plain_fails (scheck_loop _ _ _) => apply fails_loop; intros ? ?
  | |- plain_check (match ?x with _ => _ end) => destruct x
  | |- plain_fails (match ?x with _ => _ end) => destruct x
  | |- plain_fails (fun _ => _) => intros ? ? ?; cbv beta
  | _ => progress cbv zeta
  end.
Ltac plain := repeat plain_step.

(** ** Transactions *)

Lemma CheckTransaction_plain verify (tx : CMutableTransaction) : plain_check (CheckTransaction verify tx).
Proof.
  unfold CheckTransaction, CheckTransactionWithoutProofVerification, check_tx_version, check_tx_amounts, check_transparent_out, check_shielded_in, check_tx_coinbase,
    check_vout_step, check_joinsplit_step, check_value_in_step, check_distinct.
  plain.
Qed.

Section Inputs.
Context {SpT SaT V : Type} `{!MerkleTree SpT, !MerkleTree SaT, !CCoinsView SpT SaT V}.
Context `{SigHashCrypto} `{ScriptCrypto}.

Lemma ContextualCheckInputs_plain params m tx scripts flags txdata cp branch pv :
  plain_fails (ContextualCheckInputs (SpT := SpT) (SaT := SaT) (V := V) params m tx scripts flags txdata cp branch pv).
Proof.
  unfold ContextualCheckInputs, GetSpendHeight, CheckTxInputs, check_script_step, check_input_step, access_input, check_coinbase_spend, check_value_balance.
  plain.
Qed.
End Inputs.

(** ** Blocks *)

Section Blocks.
Context `{BlockOracle} `{EquihashVerifier} `{SigHashCrypto} `{TxVerifier} `{ScriptCrypto} `{Secp256k1}.

(** The Merkle root is right, no transaction is there twice, and the block has
    not too many signature operations. *)
Definition intact (block : CBlock) : Prop := check_merkle_root block = Pass tt /\ block_sigops (b_vtx block) <= MAX_BLOCK_SIGOPS.

Lemma CheckBlock_plain params chainparams env verify block pow : intact block -> plain_fails (CheckBlock params chainparams env verify block pow true).
Proof.
  intros [Hm Hs]. unfold CheckBlock, CheckBlockHeader. rewrite Hm. apply Z.ltb_ge in Hs. rewrite Hs. cbv zeta.
  repeat first [plain_step|apply CheckTransaction_plain|(unfold fail_recorded; intros ? ? ? [= <- _]; done)|(intros ? ?; done)].
Qed.

Context {SpT SaT V : Type} `{!MerkleTree SpT, !MerkleTree SaT, !CCoinsView SpT SaT V}.
Context (VerifySprout : JSDescription -> bytes -> bool).
Context (net : Network) (params chainparams : CChainParams) (benv : BlockEnv) (env : ConnectEnv).
Local Abbreviation state := (Connecting (SpT := SpT) (SaT := SaT) (V := V)).

Lemma plain_view {A} (m : scheck (CCoinsViewCache SpT SaT V) A) : plain_fails m -> plain_fails (on_view m).
Proof. intros Hm s f s'. unfold on_view. specialize (Hm (cn_view s)). destruct (m (cn_view s)) as [r v]. intros [= -> _]. by eapply Hm. Qed.
Lemma plain_rejected {A} (m : scheck (gmap uint256 Z) A) : plain_fails m -> plain_fails (on_cn_rejected m : scheck state A).
Proof. intros Hm s f s'. unfold on_cn_rejected. specialize (Hm (cn_rejected s)). destruct (m (cn_rejected s)) as [r v]. intros [= -> _]. by eapply Hm. Qed.
Lemma plain_files {A} (m : scheck BlockFiles A) : plain_fails m -> plain_fails (on_cn_files m : scheck state A).
Proof. intros Hm s f s'. unfold on_cn_files. specialize (Hm (cn_files s)). destruct (m (cn_files s)) as [r v]. intros [= -> _]. by eapply Hm. Qed.
Lemma plain_db b e : plain_fails (db_write env b e : scheck state unit).
Proof. intros s f s'. unfold db_write. destruct (ce_dbWrite env b); [done|]. by intros [= <- _]. Qed.
Lemma FindUndoPos_plain space prune n size : plain_fails (FindUndoPos space prune n size).
Proof.
  unfold FindUndoPos, mark_dirty_file, allocate. repeat plain_step. destruct (_ <? _); [|done]. destruct (space _); [done|]. by intros [= <- _].
Qed.

Lemma connect_tx_plain m h pos expensive flags branch l x : plain_fails (connect_tx (SpT := SpT) (SaT := SaT) (V := V) params chainparams env m h pos expensive flags branch l x).
Proof.
  unfold connect_tx, connect_inputs, connect_scripts, index_input_step. destruct x as [i tx].
  repeat first [plain_step|apply ContextualCheckInputs_plain].
Qed.

Lemma ConnectBlock_plain block pindex : intact block -> plain_fails (ConnectBlock (SpT := SpT) (SaT := SaT) (V := V) VerifySprout net params chainparams benv env block pindex false).
Proof.
  intros Hb. unfold ConnectBlock, connect_body, record_undo, write_undo, write_indexes, write_timestamps, raise_to_scripts, check_totals, bip30_step, current_trees, connect_txs.
  repeat first [plain_step|(apply plain_rejected, CheckBlock_plain; exact Hb)|apply plain_view|apply plain_files|apply plain_db|apply FindUndoPos_plain|apply connect_tx_plain|(intros ? ? ?; done)].
Qed.
End Blocks.
