(* ===== verification/Tip.v ===== *)
(** * The tip of the active chain

    main.cpp: [FlushStateToDisk], [UpdateTip], [ReadBlockFromDisk] of an index
    entry, [DisconnectTip], [ConnectTip], [DrainRecentlyConflicted], and from
    deprecation.cpp [EnforceNodeDeprecation].  Connecting and disconnecting the
    tip compose the coins views, the block checks, the block index and the
    memory pool.

    The state is the record [Node].  [pcoinsTip] is a cache over the view of
    the database; the local [view] of [ConnectTip] and [DisconnectTip] is a
    cache over [pcoinsTip], written to it by [Flush] or dropped.  What is read
    from the block files and the undo files, the answers of the databases and
    the memory that the cache takes are parameters.  Notifications of wallets
    and peers, [mapBlockSource] and the timers for the log are not modelled. *)
From stdpp Require Import prelude gmap strings list sorting.
From S2P Require Import Prelude Transaction Script Interpreter Serialize TxSerialize SigHash Coins History CoinsView CoinsLaws CoinsCache CoinsOps UpdateCoins CoinsSerialize.
From S2P Require Import ArithUint256 Block ChainParams Subsidy Chain Pow Checks CheckTx CheckInputs CheckBlock ChainState AcceptBlock ConnectBlock Double TxMemPool PoolCoins AcceptToPool.
#[local] Open Scope Z_scope.

(** ** The rest of the node *)

Record TipEnv := mkTipEnv {
  te_block : BlockEnv;
  te_connect : ConnectEnv;
  te_accept : AcceptEnv;
  (* the block files and the undo files *)
  te_ReadBlock : CDiskBlockPos -> option CBlock;
  te_UndoReadFromDisk : CDiskBlockPos -> uint256 -> option CBlockUndo;
  (* the address index of a disconnected block *)
  te_EraseAddressIndex : bool;
  te_UpdateAddressUnspentIndex : bool;
  (* [FlushStateToDisk] *)
  te_fReindex : bool;
  te_nPruneTarget : Z;
  te_nPruneAfterHeight : Z;
  te_GetTimeMicros : Z;
  te_nCoinCacheUsage : Z;
  te_WriteBatchSync : list (Z * CBlockFileInfo) -> Z -> list (uint256 * CBlockIndex) -> bool
}.

Definition DATABASE_WRITE_INTERVAL : Z := 60 * 60.
Definition DATABASE_FLUSH_INTERVAL : Z := 24 * 60 * 60.
Definition DEPRECATION_HEIGHT : Z := 2346000 + 200 * 7 * 24 * 60.

Inductive FlushStateMode := FLUSH_STATE_NONE | FLUSH_STATE_IF_NEEDED | FLUSH_STATE_PERIODIC | FLUSH_STATE_ALWAYS.
#[global] Instance FlushStateMode_eq_dec : EqDecision FlushStateMode.
Proof. solve_decision. Defined.

Section Tip.
Context {SpT SaT V : Type} `{!MerkleTree SpT, !MerkleTree SaT, !CCoinsView SpT SaT V}.
Context `{BlockOracle} `{EquihashVerifier} `{SigHashCrypto} `{TxVerifier} `{ScriptCrypto} `{Secp256k1} `{PoolEnv}.
Context (VerifySprout : JSDescription -> bytes -> bool).
Context (net : Network) (params chainparams : CChainParams) (env : TipEnv).
(** The address of an entry, and [pcoinsTip->DynamicMemoryUsage()]. *)
Local Abbreviation tip_t := (CCoinsViewCache SpT SaT V).
Context (addr : uint256 -> Z) (DynamicMemoryUsage : tip_t -> Z).
Local Abbreviation view_t := (CCoinsViewCache SpT SaT tip_t).
Local Abbreviation cenv := (te_connect env).

(** ** State *)

Record Node := mkNodeTip {
  n_tip : tip_t;
  n_pool : CTxMemPool;
  n_limiter : FreeLimiter;
  n_index : ChainState;
  n_warnings : ForkWarnings;
  n_files : BlockFiles;
  n_rejected : gmap uint256 Z;
  n_undo : list (CDiskBlockPos * CBlockUndo);
  n_written : list IndexBatch;
  n_unindexed : list (list (CAddressIndexKey * Z) * list (CAddressUnspentKey * CAddressUnspentValue));
  n_conflicted : gmap uint256 (list CTransaction);
  n_sequence : Z;
  n_fHavePruned : bool;
  n_nLastWrite : Z;
  n_nLastFlush : Z;
  n_nTimeBestReceived : Z;
  n_fRequestShutdown : bool
}.

Definition with_tip (c : tip_t) (s : Node) : Node :=
  mkNodeTip c (n_pool s) (n_limiter s) (n_index s) (n_warnings s) (n_files s) (n_rejected s) (n_undo s) (n_written s)
    (n_unindexed s) (n_conflicted s) (n_sequence s) (n_fHavePruned s) (n_nLastWrite s) (n_nLastFlush s) (n_nTimeBestReceived s) (n_fRequestShutdown s).
Definition with_pool (p : CTxMemPool) (s : Node) : Node :=
  mkNodeTip (n_tip s) p (n_limiter s) (n_index s) (n_warnings s) (n_files s) (n_rejected s) (n_undo s) (n_written s)
    (n_unindexed s) (n_conflicted s) (n_sequence s) (n_fHavePruned s) (n_nLastWrite s) (n_nLastFlush s) (n_nTimeBestReceived s) (n_fRequestShutdown s).
Definition with_accept (p : CTxMemPool) (c : tip_t) (l : FreeLimiter) (s : Node) : Node :=
  mkNodeTip c p l (n_index s) (n_warnings s) (n_files s) (n_rejected s) (n_undo s) (n_written s)
    (n_unindexed s) (n_conflicted s) (n_sequence s) (n_fHavePruned s) (n_nLastWrite s) (n_nLastFlush s) (n_nTimeBestReceived s) (n_fRequestShutdown s).
Definition with_chainstate (i : ChainState) (w : ForkWarnings) (s : Node) : Node :=
  mkNodeTip (n_tip s) (n_pool s) (n_limiter s) i w (n_files s) (n_rejected s) (n_undo s) (n_written s)
    (n_unindexed s) (n_conflicted s) (n_sequence s) (n_fHavePruned s) (n_nLastWrite s) (n_nLastFlush s) (n_nTimeBestReceived s) (n_fRequestShutdown s).
Definition with_files (i : ChainState) (f : BlockFiles) (pruned : bool) (s : Node) : Node :=
  mkNodeTip (n_tip s) (n_pool s) (n_limiter s) i (n_warnings s) f (n_rejected s) (n_undo s) (n_written s)
    (n_unindexed s) (n_conflicted s) (n_sequence s) pruned (n_nLastWrite s) (n_nLastFlush s) (n_nTimeBestReceived s) (n_fRequestShutdown s).
Definition with_times (nLastWrite nLastFlush : Z) (s : Node) : Node :=
  mkNodeTip (n_tip s) (n_pool s) (n_limiter s) (n_index s) (n_warnings s) (n_files s) (n_rejected s) (n_undo s) (n_written s)
    (n_unindexed s) (n_conflicted s) (n_sequence s) (n_fHavePruned s) nLastWrite nLastFlush (n_nTimeBestReceived s) (n_fRequestShutdown s).
Definition with_best_time (t : Z) (s : Node) : Node :=
  mkNodeTip (n_tip s) (n_pool s) (n_limiter s) (n_index s) (n_warnings s) (n_files s) (n_rejected s) (n_undo s) (n_written s)
    (n_unindexed s) (n_conflicted s) (n_sequence s) (n_fHavePruned s) (n_nLastWrite s) (n_nLastFlush s) t (n_fRequestShutdown s).
Definition with_shutdown (s : Node) : Node :=
  mkNodeTip (n_tip s) (n_pool s) (n_limiter s) (n_index s) (n_warnings s) (n_files s) (n_rejected s) (n_undo s) (n_written s)
    (n_unindexed s) (n_conflicted s) (n_sequence s) (n_fHavePruned s) (n_nLastWrite s) (n_nLastFlush s) (n_nTimeBestReceived s) true.
Definition with_conflicted (m : gmap uint256 (list CTransaction)) (n : Z) (s : Node) : Node :=
  mkNodeTip (n_tip s) (n_pool s) (n_limiter s) (n_index s) (n_warnings s) (n_files s) (n_rejected s) (n_undo s) (n_written s)
    (n_unindexed s) m n (n_fHavePruned s) (n_nLastWrite s) (n_nLastFlush s) (n_nTimeBestReceived s) (n_fRequestShutdown s).
Definition with_unindexed (tip : tip_t) (b : list (CAddressIndexKey * Z) * list (CAddressUnspentKey * CAddressUnspentValue)) (s : Node) : Node :=
  mkNodeTip tip (n_pool s) (n_limiter s) (n_index s) (n_warnings s) (n_files s) (n_rejected s) (n_undo s) (n_written s)
    (n_unindexed s ++ [b]) (n_conflicted s) (n_sequence s) (n_fHavePruned s) (n_nLastWrite s) (n_nLastFlush s) (n_nTimeBestReceived s) (n_fRequestShutdown s).

(** [AbortNode] requests a shutdown; so does [CheckDiskSpace], after which the
    callers report the error themselves. *)
Definition shutdown_on (f : failure) (s : Node) : Node := match f with FailError _ => with_shutdown s | _ => s end.

(** Operations of one part. *)
Definition on_tip {A} (f : tip_t -> A * tip_t) : scheck Node A := query (fun s => let '(a, c) := f (n_tip s) in (a, with_tip c s)).
Definition on_pool {A} (f : CTxMemPool -> result (A * CTxMemPool)) : scheck Node A :=
  action (fun s => r ← f (n_pool s); Ok (r.1, with_pool r.2 s)).

(** ** [FlushStateToDisk] *)

(** The block files to prune; the index forgets what they hold. *)
Definition find_prune : scheck Node (gset Z) :=
  action (fun s =>
    let f := n_files s in
    if ce_fPruneMode cenv && fCheckForPruning f && negb (te_fReindex env) then
      r ← FindFilesToPrune (te_nPruneTarget env) (te_nPruneAfterHeight env) (n_index s) f ∅;
      let f := run_files r in
      Ok (run_toPrune r,
          with_files (run_index r) (mkBlockFiles (vinfoBlockFile f) (nLastBlockFile f) (setDirtyFileInfo f) false)
            (n_fHavePruned s || negb (bool_decide (run_toPrune r = ∅))) s)
    else Ok (∅, s)).

Definition by_address (a b : uint256) : Prop := addr a <= addr b.
#[local] Instance by_address_dec : RelDecision by_address.
Proof. intros a b. unfold by_address. apply _. Defined.

(** The dirty records are collected and no longer dirty, whatever the
    database answers.  Flushing the block file and deleting pruned files are
    not modelled. *)
Definition write_index : scheck Node unit :=
  _ ← lift (reject_if (negb (ce_CheckDiskSpace cenv 0)) (FailError "out of disk space"));
  ok ← action (fun s =>
    let i := n_index s in let f := n_files s in
    vFiles ← foldM (fun l n => x ← index_or_abort (vinfoBlockFile f) (Z.to_nat n); Ok (l ++ [(n, x)]))
               (merge_sort Z.le (elements (setDirtyFileInfo f))) [];
    vBlocks ← foldM (fun l p => x ← get_entry i p; Ok (l ++ [(p, x)])) (merge_sort by_address (elements (setDirtyBlockIndex i))) [];
    Ok (te_WriteBatchSync env vFiles (nLastBlockFile f) vBlocks,
        with_files
          (mkChainState (mapBlockIndex i) (chainActive i) (pindexBestHeader i) (pindexBestInvalid i) (setBlockIndexCandidates i)
             (mapBlocksUnlinked i) ∅ (nBlockSequenceId i))
          (mkBlockFiles (vinfoBlockFile f) (nLastBlockFile f) ∅ (fCheckForPruning f)) (n_fHavePruned s) s));
  _ ← lift (reject_if (negb ok) (FailError "Files to write to block index database"));
  poke (fun s => with_times (te_GetTimeMicros env) (n_nLastFlush s) s).

(** The coins of the tip go to the database. *)
Definition write_coins : scheck Node unit :=
  s ← peek;
  _ ← lift (reject_if (negb (ce_CheckDiskSpace cenv (u32 (128 * 2 * 2 * Z.of_nat (size (cacheCoins (maps (n_tip s)))))))) (FailError "out of disk space"));
  ok ← action (fun s => r ← Cache_Flush (n_tip s); Ok (r.1, with_tip r.2 s));
  _ ← lift (reject_if (negb ok) (FailError "Failed to write to coin database"));
  poke (fun s => with_times (n_nLastWrite s) (te_GetTimeMicros env) s).

Definition flush_body (mode : FlushStateMode) : scheck Node unit :=
  toPrune ← find_prune;
  let fFlushForPrune := negb (bool_decide (toPrune = ∅)) in
  let nNow := te_GetTimeMicros env in
  _ ← poke (fun s => with_times (if n_nLastWrite s =? 0 then nNow else n_nLastWrite s) (if n_nLastFlush s =? 0 then nNow else n_nLastFlush s) s);
  s ← peek;
  let cacheSize := DynamicMemoryUsage (n_tip s) in
  let fPeriodic := bool_decide (mode = FLUSH_STATE_PERIODIC) in
  let fCacheLarge := fPeriodic && double_gt (double_mul (double_of cacheSize) (double_div (double_of 10) (double_of 9))) (double_of (te_nCoinCacheUsage env)) in
  let fCacheCritical := bool_decide (mode = FLUSH_STATE_IF_NEEDED) && (te_nCoinCacheUsage env <? cacheSize) in
  let fPeriodicWrite := fPeriodic && (n_nLastWrite s + DATABASE_WRITE_INTERVAL * 1000000 <? nNow) in
  let fPeriodicFlush := fPeriodic && (n_nLastFlush s + DATABASE_FLUSH_INTERVAL * 1000000 <? nNow) in
  let fDoFullFlush := bool_decide (mode = FLUSH_STATE_ALWAYS) || fCacheLarge || fCacheCritical || fPeriodicFlush || fFlushForPrune in
  _ ← (if fDoFullFlush || fPeriodicWrite then write_index else mret tt);
  if fDoFullFlush then write_coins else mret tt.

(** [catch (const std::runtime_error& e)]. *)
Definition FlushStateToDisk (mode : FlushStateMode) : scheck Node unit := fun s =>
  match flush_body mode s with
  | (Raise msg, s') => (Fail (FailError ("System error while flushing: " +:+ msg)), with_shutdown s')
  | (Fail f, s') => (Fail f, shutdown_on f s')
  | x => x
  end.

Definition PruneAndFlush : scheck Node unit := fun s =>
  let f := n_files s in
  FlushStateToDisk FLUSH_STATE_NONE
    (with_files (n_index s) (mkBlockFiles (vinfoBlockFile f) (nLastBlockFile f) (setDirtyFileInfo f) true) (n_fHavePruned s) s).

(** ** [UpdateTip] *)

(** The log message reads the new tip. *)
Definition UpdateTip (pindexNew : option uint256) : scheck Node unit :=
  _ ← action (fun s =>
    c ← CChain_SetTip (mapBlockIndex (n_index s)) (chainActive (n_index s)) pindexNew;
    Ok (tt, with_best_time (CheckBlock.env_time (te_block env))
              (with_pool (AddTransactionsUpdated 1 (n_pool s)) (with_chainstate (with_chain c (n_index s)) (n_warnings s) s))));
  s ← peek;
  lift (of_result (assert_true (bool_decide (is_Some (Tip (n_index s)))))).

(** A shutdown is requested at the height where the version is deprecated; the
    messages are not modelled. *)
Definition EnforceNodeDeprecation (nHeight : Z) (s : Node) : Node :=
  if bool_decide (net = MAIN) && (DEPRECATION_HEIGHT - nHeight <=? 0) then with_shutdown s else s.

(** ** Disconnecting *)

(** The block of an index entry, from its file. *)
Definition ReadBlockFromDisk (pindex : uint256) (b : CBlockIndex) : result (option CBlock) :=
  match te_ReadBlock env (GetBlockPos b) with
  | None => Ok None
  | Some block =>
      solution ← CheckEquihashSolution (b_header block) (consensus chainparams);
      let hash := hash_header (b_header block) in
      Ok (if solution && CheckProofOfWork hash (nBits (b_header block)) (consensus chainparams) && (hash =? pindex)
          then Some block else None)
  end.
Definition read_block (pindex : uint256) (b : CBlockIndex) : scheck Node CBlock :=
  block ← lift (of_result (ReadBlockFromDisk pindex b));
  match block with Some block => mret block | None => fun s => (Fail (FailError "Failed to read block"), with_shutdown s) end.

Definition block_txs (block : CBlock) : list CTransaction := CTransaction_copy hash_tx <$> b_vtx block.

(** What [DisconnectBlock] reads of an entry and its predecessor.  Without
    undo data the predecessor is not read. *)
Definition info_of (p : uint256) (b : CBlockIndex) : BlockIndexInfo :=
  mkIndexInfo p (negb (CDiskBlockPos_IsNull (GetUndoPos b))) (Chain.bi_nHeight b) (Chain.bi_hashFinalSaplingRoot b).
Definition prev_info (i : ChainState) (b : CBlockIndex) : result BlockIndexInfo :=
  match bi_pprev b with
  | Some q => bq ← get_entry i q; Ok (info_of q bq)
  | None => if CDiskBlockPos_IsNull (GetUndoPos b) then Ok (mkIndexInfo uint256_null false 0 uint256_null) else Abort
  end.
Definition sapling_active (h : Z) : bool :=
  match NetworkUpgradeActive h (consensus chainparams) UPGRADE_SAPLING with Ok b => b | _ => false end.

(** The local [view]: [DisconnectBlock], and [Flush] when it succeeds.  What
    the view has read stays in [pcoinsTip] in any case. *)
Definition disconnect_view (pindexDelete : uint256) (b : CBlockIndex) (vtx : list CTransaction) : scheck Node unit := fun s =>
  match prev_info (n_index s) b with
  | Ok pprev =>
      let undo := te_UndoReadFromDisk env (GetUndoPos b) (bi_hash pprev) in
      match DisconnectBlock (ce_fAddressIndex cenv) (ce_fSpentIndex cenv) (Chain.bi_nHeight b) vtx (info_of pindexDelete b) pprev undo
              sapling_active (te_EraseAddressIndex env) (te_UpdateAddressUnspentIndex env) false (CCoinsViewCache_new (n_tip s) : view_t) with
      | Ok out =>
          let batches := (do_eraseAddressIndex out, do_updateUnspentIndex out) in
          if do_ret out then
            match Cache_Flush (do_view out) with
            | Ok (true, view) => (Pass tt, with_unindexed (base view) batches s)
            | Throw msg => (Raise msg, s)
            | _ => (Halt, s)
            end
          else
            let f := match do_error out with Some msg => FailError msg | None => FailPlain end in
            (Fail f, shutdown_on f (with_unindexed (base (do_view out)) batches s))
      | Throw msg => (Raise msg, s)
      | Abort => (Halt, s)
      end
  | Throw msg => (Raise msg, s)
  | Abort => (Halt, s)
  end.

(** The environment of [AcceptToMemoryPool]: the active chain still ends with
    the block that is being disconnected. *)
Definition accept_env (i : ChainState) : result AcceptEnv :=
  let e := te_accept env in
  mtp ← (match Tip i with Some t => GetMedianTimePast (mapBlockIndex i) t | None => Abort end);
  Ok (mkAcceptEnv (CChain_Height (chainActive i)) mtp (env_adjusted e) (AcceptToPool.env_time e) (env_nNow e) (mapBlockIndex i) (AcceptToPool.env_ibd e)
        (env_RequireStandard e) (env_minRelayTxFee e) (env_fIsBareMultisigStd e) (env_datacarrier e) (env_nMaxDatacarrierBytes e)
        (env_mempooltxinputlimit e) (env_relaypriority e) (env_limitfreerelay e) (env_pow e) (env_VerifySprout e)).

(** [AcceptToMemoryPool(chainparams, mempool, stateDummy, tx, false, NULL)]. *)
Definition accept_again (tx : CTransaction) : scheck Node bool := fun s =>
  match accept_env (n_index s) with
  | Ok e =>
      let '(r, a) := AcceptToMemoryPool params chainparams e tx false false false (mkAcceptState (n_pool s) (n_tip s) (n_limiter s) false) in
      (match r with Pass _ => Pass true | Fail _ => Pass false | Raise msg => Raise msg | Halt => Halt end,
       with_accept (as_pool a) (as_pcoinsTip a) (as_limiter a) s)
  | Throw msg => (Raise msg, s)
  | Abort => (Halt, s)
  end.

(** [if (tx.IsCoinBase() || !AcceptToMemoryPool(...)) mempool.remove(tx, removed, true)]. *)
Definition resurrect (_ : unit) (tx : CTransaction) : scheck Node unit :=
  accepted ← (if IsCoinBase tx then mret false else accept_again tx);
  if accepted : bool then mret tt else on_pool (fun p => r ← remove tx [] true p; Ok (tt, r.1)).

(** The pool after a disconnect: the transactions of the block come back, and
    those that prove against an anchor that is gone leave. *)
Definition evict_anchor (ty : ShieldedType) (before after : uint256) : scheck Node unit :=
  if before =? after then mret tt else on_pool (fun p => p' ← removeWithAnchor before ty p; Ok (tt, p')).
Definition resurrect_block (vtx : list CTransaction) (sprout0 sprout1 sapling0 sapling1 : uint256) : scheck Node unit :=
  _ ← scheck_loop resurrect vtx tt;
  _ ← evict_anchor SPROUT sprout0 sprout1;
  evict_anchor SAPLING sapling0 sapling1.

Definition DisconnectTip (fBare : bool) : scheck Node unit :=
  s ← peek;
  pindexDelete ← lift (of_result (match Tip (n_index s) with Some t => Ok t | None => Abort end));
  b ← lift (of_result (get_entry (n_index s) pindexDelete));
  block ← read_block pindexDelete b;
  sprout0 ← on_tip (Cache_GetBestAnchor SPROUT);
  sapling0 ← on_tip (Cache_GetBestAnchor SAPLING);
  _ ← disconnect_view pindexDelete b (block_txs block);
  sprout1 ← on_tip (Cache_GetBestAnchor SPROUT);
  sapling1 ← on_tip (Cache_GetBestAnchor SAPLING);
  _ ← FlushStateToDisk FLUSH_STATE_IF_NEEDED;
  _ ← (if fBare then mret tt else resurrect_block (block_txs block) sprout0 sprout1 sapling0 sapling1);
  UpdateTip (bi_pprev b).

(** ** Connecting *)

(** What [ConnectBlock] did to the entry, the files and the indexes; what it
    has read of the tip stays cached. *)
Definition connect_kept (pindexNew : uint256) (c : Connecting (SpT := SpT) (SaT := SaT) (V := tip_t)) (s : Node) : Node :=
  let i := set_entry pindexNew (cn_pindex c) (n_index s) in
  mkNodeTip (base (cn_view c)) (n_pool s) (n_limiter s) (if cn_dirty c then with_dirty pindexNew i else i) (n_warnings s) (cn_files c)
    (cn_rejected c) (cn_undo c) (cn_written c) (n_unindexed s) (n_conflicted s) (n_sequence s) (n_fHavePruned s) (n_nLastWrite s)
    (n_nLastFlush s) (n_nTimeBestReceived s) (n_fRequestShutdown s).

(** [if (state.IsInvalid()) InvalidBlockFound(...)], with the validation state
    that the failure leaves. *)
Definition connect_failed (pindexNew : uint256) (st : CValidationState) (s : Node) : result Node :=
  if IsInvalid st then
    r ← InvalidBlockFound (CheckBlock.env_ibd (te_block env)) pindexNew st (n_index s) (n_warnings s);
    Ok (with_chainstate r.1 r.2 s)
  else Ok s.

(** The local [view]: [ConnectBlock], and [Flush] when it succeeds. *)
Definition connect_view (st : CValidationState) (pindexNew : uint256) (b : CBlockIndex) (block : CBlock) : scheck Node unit := fun s =>
  let '(r, c) := ConnectBlock VerifySprout net params chainparams (env_at (te_block env) (n_index s)) cenv block (Some pindexNew) false
    (mkConnecting (CCoinsViewCache_new (n_tip s) : view_t) b false (n_files s) (n_rejected s) (n_undo s) (n_written s)) in
  let s := connect_kept pindexNew c s in
  match r with
  | Pass _ =>
      match Cache_Flush (cn_view c) with
      | Ok (true, view) => (Pass tt, with_tip (base view) s)
      | Throw msg => (Raise msg, s)
      | _ => (Halt, s)
      end
  | Fail f =>
      match connect_failed pindexNew (apply_failure f st) s with
      | Ok s' => (Fail f, shutdown_on f s')
      | _ => (Halt, s)
      end
  | Raise msg => (Raise msg, s)
  | Halt => (Halt, s)
  end.

(** [recentlyConflictedTxs.insert(...)] keeps a list that is there already. *)
Definition log_conflicted (pindexNew : uint256) (txConflicted : list CTransaction) (s : Node) : Node :=
  with_conflicted (map_add pindexNew txConflicted (n_conflicted s)) (u64 (n_sequence s + 1)) s.

Definition ConnectTip (st : CValidationState) (pindexNew : uint256) (block : CBlock) : scheck Node unit :=
  s ← peek;
  b ← lift (of_result (get_entry (n_index s) pindexNew));
  _ ← lift (of_result (assert_true (bool_decide (bi_pprev b = Tip (n_index s)))));
  _ ← connect_view st pindexNew b block;
  _ ← FlushStateToDisk FLUSH_STATE_IF_NEEDED;
  txConflicted ← on_pool (fun p =>
    r ← removeForBlock (block_txs block) (Chain.bi_nHeight b) [] (negb (CheckBlock.env_ibd (te_block env))) p; Ok (r.2, r.1));
  _ ← on_pool (removeExpired (Chain.bi_nHeight b));
  _ ← UpdateTip (Some pindexNew);
  poke (fun s => EnforceNodeDeprecation (Chain.bi_nHeight b) (log_conflicted pindexNew txConflicted s)).

(** [DrainRecentlyConflicted]: the lists and the sequence number. *)
Definition DrainRecentlyConflicted (s : Node) : gmap uint256 (list CTransaction) * Z * Node :=
  (n_conflicted s, n_sequence s, with_conflicted ∅ (n_sequence s) s).

(** [for (int i = 0; i <= blocks; i++) DisconnectTip(state, Params())], whose
    result is ignored. *)
Fixpoint disconnect_many (n : nat) : scheck Node unit :=
  match n with
  | O => mret tt
  | S n' => fun s =>
      match DisconnectTip false s with
      | (Pass _, s') | (Fail _, s') => disconnect_many n' s'
      | x => x
      end
  end.
Definition DisconnectBlocksAndReprocess (blocks : Z) : scheck Node unit := disconnect_many (Z.to_nat (blocks + 1)).
End Tip.
