(* ===== verification/TipLaws.v ===== *)
(** * The coins of the tip while blocks come and go

    A local view over the tip is flushed without an assertion firing and leaves
    the tip showing what the view showed; [FlushStateToDisk] changes what is on
    disk and not what the tip shows; the entry of a connected block keeps its
    place in the tree. *)
From stdpp Require Import prelude gmap strings list.
From S2P Require Import Prelude Transaction Script Interpreter Serialize TxSerialize SigHash Coins History CoinsView CoinsLaws CoinsCache CoinsOps UpdateCoins CoinsSerialize.
From S2P Require Import ArithUint256 Block ChainParams Subsidy Chain Pow Checks CheckTx CheckInputs CheckBlock ChainState ChainShape BestChain ChainSteps AcceptBlock ConnectBlock ConnectReads Double TxMemPool PoolCoins AcceptToPool AcceptLaws Tip.
#[local] Open Scope Z_scope.

(** ** The block index while the tip moves *)

(** Entries keep place, work and counts, and none that is marked as failed
    loses its mark. *)
Definition failed (b : CBlockIndex) : Prop := has_status (bi_nStatus b) BLOCK_FAILED_MASK = true.
Definition entry_grown (b b' : CBlockIndex) : Prop := same_counts b b' /\ (failed b -> failed b').
#[global] Instance entry_grown_preorder : PreOrder entry_grown.
Proof.
  split; [by intros b|]. intros b1 b2 b3 [(? & ? & ? & ?) Hm] [(? & ? & ? & ?) Hn]. split; [split_and!; congruence|auto].
Qed.
Record grown (i i' : ChainState) : Prop := {
  gr_entry : forall p, match mapBlockIndex i !! p, mapBlockIndex i' !! p with Some b, Some b' => entry_grown b b' | None, None => True | _, _ => False end;
  gr_wf : state_wf i -> state_wf i'
}.
#[global] Instance grown_preorder : PreOrder grown.
Proof.
  split; [intros i; split; [|done]; intros p; by destruct (_ !! p)|]. intros i1 i2 i3 [A1 A2] [B1 B2]. split; [|auto].
  intros p. specialize (A1 p). specialize (B1 p). destruct (mapBlockIndex i1 !! p), (mapBlockIndex i2 !! p), (mapBlockIndex i3 !! p); try done. by etrans.
Qed.
Lemma grown_same i i' : grown i i' -> same_index (mapBlockIndex i) (mapBlockIndex i').
Proof. intros [H _] p. specialize (H p). destruct (_ !! p), (_ !! p); try done. apply H. Qed.
Lemma grown_map i i' : mapBlockIndex i' = mapBlockIndex i -> (state_wf i -> state_wf i') -> grown i i'.
Proof. intros E Hw. split; [|done]. intros p. rewrite E. by destruct (_ !! p). Qed.
Lemma grown_set i p b b' : mapBlockIndex i !! p = Some b -> entry_grown b b' -> grown i (set_entry p b' i).
Proof.
  intros Hp Hb. split; [|intros W; apply (state_wf_entry i p b); [done|done|apply Hb]]. intros q. cbn. destruct (decide (q = p)) as [->|].
  - by rewrite Hp, lookup_insert_eq.
  - rewrite lookup_insert_ne by done. by destruct (_ !! q).
Qed.
Lemma grown_at i i' p b : grown i i' -> mapBlockIndex i !! p = Some b -> exists b', mapBlockIndex i' !! p = Some b' /\ entry_grown b b'.
Proof. intros [H _] Hp. specialize (H p). rewrite Hp in H. destruct (mapBlockIndex i' !! p) as [b'|]; [by exists b'|done]. Qed.

Lemma failed_lor mask b b' : bi_nStatus b' = Z.lor (bi_nStatus b) mask -> failed b -> failed b'.
Proof.
  unfold failed, has_status. intros ->. rewrite !negb_true_iff, !Z.eqb_neq, Z.land_lor_distr_l. intros Hn E. by apply Z.lor_eq_0_iff in E as [E _].
Qed.
Lemma failed_pruned b : failed b -> failed (bi_pruned b).
Proof. unfold failed, has_status. cbn [bi_pruned bi_nStatus]. by rewrite <- !Z.land_assoc. Qed.

Lemma add_status_grown mask p i i' : add_status mask p i = Ok i' -> grown i i' /\ chainActive i' = chainActive i.
Proof.
  unfold add_status. intros E. apply bind_Ok in E as (b & Eb & [= <-]). apply get_entry_Ok in Eb. split; [|done]. apply (grown_set i p b); [done|]. split; [done|by apply (failed_lor mask)].
Qed.
Lemma InvalidChainFound_grown ibd p i w i' w' : InvalidChainFound ibd p i w = Ok (i', w') ->
  grown i i' /\ chainActive i' = chainActive i /\ Tip i' <> None.
Proof.
  unfold InvalidChainFound. intros E. apply bind_Ok in E as (i1 & E1 & E). apply bind_Ok in E as (u & Ht & E). apply bind_Ok in E as (w1 & _ & [= <- <-]).
  apply assert_true_Ok, bool_decide_eq_true in Ht. pose proof (fun W => update_best_invalid_wf i p i1 W E1) as Hw. unfold update_best_invalid in E1. apply bind_Ok in E1 as (b & _ & E1). apply bind_Ok in E1 as (better & _ & [= <-]).
  destruct better; (split; [by apply grown_map|done]).
Qed.
Lemma InvalidBlockFound_grown ibd p st i w i' w' : InvalidBlockFound ibd p st i w = Ok (i', w') -> grown i i' /\ chainActive i' = chainActive i.
Proof.
  unfold InvalidBlockFound. destruct (corruptionPossible st); [by intros [= <- <-]|]. intros E. apply bind_Ok in E as (i1 & E1 & E).
  apply add_status_grown in E1 as [G1 C1]. apply InvalidChainFound_grown in E as (G2 & C2 & _). rewrite C2. split; [|done]. etrans; [exact G1|]. etrans; [|exact G2].
  apply grown_map; [done|]. intros W. apply state_wf_drop; [by apply state_wf_dirty|set_solver].
Qed.
Lemma has_status_set x mask : mask <> 0 -> has_status (Z.lor x mask) mask = true.
Proof.
  intros Hm. unfold has_status. replace (Z.land (Z.lor x mask) mask) with mask; [by apply negb_true_iff, Z.eqb_neq|].
  apply Z.bits_inj'. intros n _. rewrite Z.land_spec, Z.lor_spec. by destruct (Z.testbit x n), (Z.testbit mask n).
Qed.

(** A block that is marked as failed. *)
Lemma InvalidBlockFound_marks ibd p st i w i' w' : corruptionPossible st = false -> InvalidBlockFound ibd p st i w = Ok (i', w') ->
  chainActive i' = chainActive i /\ (p ∉ setBlockIndexCandidates i') /\ exists b, mapBlockIndex i' !! p = Some b /\ has_status (bi_nStatus b) BLOCK_FAILED_VALID = true.
Proof.
  intros Hc E. unfold InvalidBlockFound in E. rewrite Hc in E. apply bind_Ok in E as (i1 & E1 & E). unfold add_status in E1.
  apply bind_Ok in E1 as (b & Eb & E1). injection E1 as <-. unfold InvalidChainFound in E. apply bind_Ok in E as (i2 & E2 & E).
  apply bind_Ok in E as (u & _ & E). apply bind_Ok in E as (w1 & _ & E). injection E as <- _. unfold update_best_invalid in E2.
  apply bind_Ok in E2 as (b2 & _ & E2). apply bind_Ok in E2 as (better & _ & E2). injection E2 as <-.
  assert (Hr : forall j : ChainState, chainActive j = chainActive i /\ (p ∉ setBlockIndexCandidates j)
    /\ mapBlockIndex j !! p = Some (bi_with_status b (Z.lor (bi_nStatus b) BLOCK_FAILED_VALID)) ->
    chainActive j = chainActive i /\ (p ∉ setBlockIndexCandidates j) /\ exists b, mapBlockIndex j !! p = Some b /\ has_status (bi_nStatus b) BLOCK_FAILED_VALID = true).
  { intros j (? & ? & ?). split; [done|]. split; [done|]. eexists. split; [done|]. by apply has_status_set. }
  apply Hr. destruct better; cbn; (split; [done|]; split; [set_solver|apply lookup_insert_eq]).
Qed.

Lemma PruneBlockIndexCandidates_grown addr i i' : PruneBlockIndexCandidates addr i = Ok i' -> grown i i' /\ chainActive i' = chainActive i.
Proof.
  intros E. pose proof (fun W => PruneBlockIndexCandidates_wf addr i i' W E) as Hw. unfold PruneBlockIndexCandidates in E. destruct (Tip i); [|done].
  apply bind_Ok in E as (drop & _ & E). apply bind_Ok in E as (u & _ & [= <-]). split; [by apply grown_map|done].
Qed.
Lemma SetTip_grown i p c : CChain_SetTip (mapBlockIndex i) (chainActive i) p = Ok c -> grown i (with_chain c i).
Proof. intros E. apply grown_map; [done|]. intros W. by apply (SetTip_wf i p). Qed.
Lemma narrowed_grown pr i i' : state_wf i -> narrowed pr i i' -> grown i i' /\ chainActive i' = chainActive i.
Proof.
  intros W Hn. split; [|apply Hn]. split; [|intros _; by apply (narrowed_wf pr i)]. intros q. pose proof (nw_entry _ _ _ Hn q) as E. unfold BestChain.entry_kept in E.
  destruct (mapBlockIndex i !! q) as [b|], (mapBlockIndex i' !! q) as [b'|]; try done. by destruct E as [->|(st & -> & Hf & _)].
Qed.

(** Pruned blocks. *)
Lemma PruneOneBlockFile_grown n i f i' f' : PruneOneBlockFile n i f = Ok (i', f') -> grown i i' /\ chainActive i' = chainActive i.
Proof.
  intros E. pose proof (fun W => PruneOneBlockFile_wf n i f i' f' W E) as Hw. unfold PruneOneBlockFile in E. apply bind_Ok in E as (x & _ & E). injection E as <- _.
  assert (HP : forall m, m ⊆ mapBlockIndex i -> chainActive (map_fold (prune_entry n) i m) = chainActive i
    /\ forall p, mapBlockIndex (map_fold (prune_entry n) i m) !! p = mapBlockIndex i !! p
         \/ exists b, m !! p = Some b /\ mapBlockIndex (map_fold (prune_entry n) i m) !! p = Some (bi_pruned b)).
  { intros m. apply (map_fold_weak_ind (fun r m => m ⊆ mapBlockIndex i -> chainActive r = chainActive i
      /\ forall p, mapBlockIndex r !! p = mapBlockIndex i !! p \/ exists b, m !! p = Some b /\ mapBlockIndex r !! p = Some (bi_pruned b))).
    - intros _. split; [done|]. by left.
    - intros q b m' r Hq IH Hm. destruct IH as [Hc IH]; [etrans; [|exact Hm]; by apply insert_subseteq|]. unfold prune_entry. split; [by destruct (_ =? n)|].
      intros p. destruct (decide (p = q)) as [->|Hne].
      + destruct (_ =? n); [right; exists b; split; apply lookup_insert_eq|left]. destruct (IH q) as [?|(b' & Hb' & _)]; [done|congruence].
      + rewrite lookup_insert_ne by done. destruct (_ =? n); [|exact (IH p)]. cbn. rewrite lookup_insert_ne by done. exact (IH p). }
  destruct (HP (mapBlockIndex i)) as [Hc Hp]; [done|]. split; [|done]. split; [|done]. intros p. destruct (Hp p) as [->|(b & Hb & ->)]; [by destruct (_ !! p)|].
  rewrite Hb. split; [done|apply failed_pruned].
Qed.

(** ** The hashes a cache knows *)

Section Known.
Context {SpT SaT V : Type} `{!MerkleTree SpT, !MerkleTree SaT, !CCoinsView SpT SaT V}.
Implicit Types c : CCoinsViewCache SpT SaT V.

Definition anchor_is ty rt c : Prop := get_hashAnchor ty (maps c) = rt.

Lemma GetBestAnchor_is ty c rt c' : Cache_GetBestAnchor ty c = (rt, c') -> anchor_is ty rt c' /\ forall ty' x, ty' <> ty -> anchor_is ty' x c -> anchor_is ty' x c'.
Proof.
  unfold Cache_GetBestAnchor, anchor_is. destruct (uint256_IsNull _); [|by intros [= <- <-]]. destruct (GetBestAnchor ty (base c)) as [h v'].
  intros [= <- <-]. by destruct ty; (split; [done|]); intros [].
Qed.

Lemma PushAnchor_Sprout_is (t : SpT) c : anchor_is SPROUT (tree_root t) (PushAnchor_Sprout t c).
Proof.
  unfold PushAnchor_Sprout, AbstractPushAnchor. destruct (Cache_GetBestAnchor SPROUT c) as [rt c1] eqn:E. apply GetBestAnchor_is in E as [E _].
  case_decide as Hd; [by rewrite <- Hd|done].
Qed.
Lemma PushAnchor_Sapling_is (t : SaT) c : anchor_is SAPLING (tree_root t) (PushAnchor_Sapling t c)
  /\ forall rt, anchor_is SPROUT rt c -> anchor_is SPROUT rt (PushAnchor_Sapling t c).
Proof.
  unfold PushAnchor_Sapling, AbstractPushAnchor. destruct (Cache_GetBestAnchor SAPLING c) as [rt c1] eqn:E. apply GetBestAnchor_is in E as [E Ho].
  case_decide as Hd; (split; [by rewrite <- ?Hd|]); intros x Hx; by apply Ho in Hx.
Qed.

Lemma anchored_is (spt : SpT) (sat : SaT) hash c :
  anchor_is SPROUT (tree_root spt) (block_anchored spt sat hash c) /\ anchor_is SAPLING (tree_root sat) (block_anchored spt sat hash c).
Proof.
  destruct (PushAnchor_Sapling_is sat (PushAnchor_Sprout spt c)) as [E2 Ho]. split; [|exact E2]. apply (Ho _ (PushAnchor_Sprout_is spt c)).
Qed.
Lemma anchored_known (spt : SpT) (sat : SaT) hash c : tree_root spt <> uint256_null -> tree_root sat <> uint256_null -> hash <> uint256_null ->
  best_known (maps (block_anchored spt sat hash c)).
Proof.
  intros Hs Hz Hh. destruct (anchored_is spt sat hash c) as [E1 E2]. unfold anchor_is in *. cbn [get_hashAnchor] in E1, E2.
  split; [done|]. by rewrite E1, E2.
Qed.

Lemma anchor_at_is {T} look (get : CacheMaps SpT SaT -> gmap uint256 (CAnchorsCacheEntry T)) set rt c o c' :
  (forall x m ty, get_hashAnchor ty (set x m) = get_hashAnchor ty m) -> anchor_at look get set rt c = (o, c') ->
  forall ty x, anchor_is ty x c -> anchor_is ty x c'.
Proof.
  intros Hset Ea ty x. unfold anchor_at in Ea. destruct (get (maps c) !! rt); [by injection Ea as _ <-|].
  destruct (look rt (base c)) as [[t|] v']; injection Ea as _ <-; [|done]. unfold anchor_is. cbn. by rewrite Hset.
Qed.
Lemma PopAnchor_is newrt ty c c' : Cache_PopAnchor newrt ty c = Ok c' -> anchor_is ty newrt c' /\ forall ty' x, ty' <> ty -> anchor_is ty' x c -> anchor_is ty' x c'.
Proof.
  destruct ty; cbn [Cache_PopAnchor]; unfold AbstractPopAnchor; intros E; (destruct (Cache_GetBestAnchor _ c) as [rt c1] eqn:Eb);
    apply GetBestAnchor_is in Eb as [Eb Ho]; (case_decide as Hd; [injection E as <-; rewrite <- Hd; by split|]);
    (destruct (anchor_at _ _ _ rt c1) as [o c2] eqn:Ea); apply bind_Ok in E as (u & _ & E); injection E as <-; (split; [done|]);
    intros ty' x Hne Hx; 
    (assert (anchor_is ty' x c2) by (eapply anchor_at_is; [|exact Ea|by apply Ho]; by intros ? ? [])); by destruct ty'.
Qed.

(** What a successful [DisconnectBlock] leaves as best block and anchors. *)
Lemma DisconnectBlock_known fA fS h vtx pindex pprev undo active e u pf c out :
  DisconnectBlock fA fS h vtx pindex pprev (Some undo) active e u pf c = Ok out -> do_ret out = true ->
  bi_hash pprev <> uint256_null -> old_sprout_tree_root undo <> uint256_null ->
  (if active (UpdateCoins.bi_nHeight pprev) then UpdateCoins.bi_hashFinalSaplingRoot pprev else tree_empty_root (T := SaT)) <> uint256_null ->
  best_known (maps (do_view out)).
Proof.
  intros E Hret Hp Ho Hz. unfold DisconnectBlock in E. destruct (Cache_GetBestBlock c) as [best v0]. apply bind_Ok in E as ([] & _ & E).
  destruct (negb (bi_has_undo pindex)); [by injection E as <-|]. destruct (negb _); [by injection E as <-|].
  apply bind_Ok in E as ([d|d] & _ & E); [by injection E as <-|]. apply bind_Ok in E as (v1 & E1 & E). apply bind_Ok in E as (v2 & E2 & E).
  apply PopAnchor_is in E1 as [E1 _]. apply PopAnchor_is in E2 as [E2 E3]. apply (E3 SPROUT) in E1; [|done].
  assert (Hk : best_known (maps (Cache_SetBestBlock (bi_hash pprev) v2))).
  { unfold anchor_is in *. cbn in E1, E2. split; [done|]. cbn. by rewrite E1, E2. }
  destruct pf; [by injection E as <-|]. by destruct fA; injection E as <-.
Qed.
End Known.

(** ** Flushing *)

Section Flush.
Context {SpT SaT V : Type} `{!MerkleTree SpT, !MerkleTree SaT, !CCoinsView SpT SaT V}.
Context `{!CCoinsViewLaws SpT SaT V} `{PoolEnv}.
Local Abbreviation tip_t := (CCoinsViewCache SpT SaT V).
Local Abbreviation node := (Node (SpT := SpT) (SaT := SaT) (V := V)).
Implicit Types (c : tip_t) (s : node).

(** A tip that shows its best block and anchors, and one that shows the same. *)
Definition tip_ok c : Prop := cache_inv c /\ best_known (maps c).

Lemma Cache_Flush_known c r c' : Cache_Flush c = Ok (r, c') -> best_known (maps c) -> best_known (maps c').
Proof. unfold Cache_Flush. intros E Hk. apply bind_Ok in E as (x & _ & E). by injection E as _ <-. Qed.

(** A local view over the tip. *)
Lemma view_flush (view : CCoinsViewCache SpT SaT tip_t) : cache_inv view -> best_known (maps view) ->
  exists view', Cache_Flush view = Ok (true, view') /\ tip_ok (base view') /\ cache_abs (base view') ≡ cache_abs view.
Proof.
  intros [[Hv Hb] Hm] Hk. destruct (BatchWrite_ok (maps view) (base view) Hv Hb Hk) as (c' & E & Hi & Ha).
  exists (mkCache c' (hasModifier view) (mkCacheMaps ∅ (hashBlock (maps view)) (hashSproutAnchor (maps view)) (hashSaplingAnchor (maps view)) ∅ ∅ ∅ ∅ ∅)).
  unfold Cache_Flush. cbn [BatchWrite CCoinsViewCache_view]. rewrite E. split; [done|]. cbn [base]. split; [|done]. split; [done|].
  unfold Cache_BatchWrite in E. apply bind_Ok in E as (u & _ & E). apply bind_Ok in E as (cc & _ & E). apply bind_Ok in E as (h & _ & E). by injection E as <-.
Qed.

Lemma new_view_ok c : cache_inv c -> cache_inv (CCoinsViewCache_new c : CCoinsViewCache SpT SaT tip_t)
  /\ cache_abs (CCoinsViewCache_new c : CCoinsViewCache SpT SaT tip_t) ≡ cache_abs c.
Proof. intros Hc. exact (new_cache_ok (SpT := SpT) (SaT := SaT) c Hc). Qed.

(** What writing to disk leaves alone. *)
Record flushed s s' : Prop := {
  fl_pool : n_pool s' = n_pool s;
  fl_undo : n_undo s' = n_undo s;
  fl_conflicted : n_conflicted s' = n_conflicted s;
  fl_chain : chainActive (n_index s') = chainActive (n_index s);
  fl_index : grown (n_index s) (n_index s');
  fl_tip : tip_ok (n_tip s) -> tip_ok (n_tip s') /\ cache_abs (n_tip s') ≡ cache_abs (n_tip s)
}.
#[global] Instance flushed_preorder : PreOrder flushed.
Proof.
  split; [by intros s|]. intros s1 s2 s3 [A1 A2 A3 A4 A5 A6] [B1 B2 B3 B4 B5 B6]. split; [congruence..|by etrans|].
  intros Ht. destruct (A6 Ht) as [Ht2 Ea]. destruct (B6 Ht2) as [Ht3 Eb]. split; [done|by etrans].
Qed.
Definition flushes {A} (m : scheck node A) : Prop := forall s, flushed s (m s).2.

Lemma flushes_bind {A B} (m : scheck node A) (k : A -> scheck node B) : flushes m -> (forall a, flushes (k a)) -> flushes (m ≫= k).
Proof.
  intros Hm Hk s. unfold mbind, scheck_bind. specialize (Hm s). destruct (m s) as [[a|f|msg|] s1]; [|done..]. etrans; [exact Hm|apply Hk].
Qed.
Lemma flushes_lift {A} (r : check A) : flushes (lift r).
Proof. by intros s. Qed.
Lemma flushes_action {A} (f : node -> result (A * node)) : (forall s a s', f s = Ok (a, s') -> flushed s s') -> flushes (action f).
Proof. intros Hf s. unfold action. destruct (f s) as [[a s']| |] eqn:E; [by eapply Hf|done..]. Qed.

Lemma prune_loop_kept target h l : forall r r', prune_loop target h l r = Ok r' ->
  grown (run_index r) (run_index r') /\ chainActive (run_index r') = chainActive (run_index r).
Proof.
  induction l as [|n l IH]; intros r r' E; cbn [prune_loop] in E; [by injection E as <-|]. apply bind_Ok in E as (i & _ & E).
  destruct (_ =? 0); [by apply IH|]. destruct (_ <? target); [by injection E as <-|]. destruct (h <? _); [by apply IH|].
  apply bind_Ok in E as ([i1 f1] & E1 & E). apply IH in E as [G2 C2]. apply PruneOneBlockFile_grown in E1 as [G1 C1]. cbn in G2, C2. split; [by etrans|congruence].
Qed.
Lemma FindFilesToPrune_kept target after i f r : FindFilesToPrune target after i f ∅ = Ok r ->
  grown i (run_index r) /\ chainActive (run_index r) = chainActive i.
Proof.
  unfold FindFilesToPrune. destruct (Tip i) as [t|]; [|by intros [= <-]]. intros E. apply bind_Ok in E as (b & _ & E).
  destruct (_ || _); [by injection E as <-|]. destruct (_ <=? _); [|by injection E as <-]. by apply prune_loop_kept in E.
Qed.

Context (env : TipEnv) (addr : uint256 -> Z) (usage : tip_t -> Z).

Lemma find_prune_flushes : flushes (find_prune env).
Proof.
  apply flushes_action. intros s a s' E. cbv zeta in E. destruct (_ && _); [|by injection E as _ <-]. apply bind_Ok in E as (r & Er & E). injection E as _ <-.
  apply FindFilesToPrune_kept in Er as [Hg Hc]. by split.
Qed.
Lemma write_index_flushes : flushes (write_index env addr).
Proof.
  unfold write_index. apply flushes_bind; [apply flushes_lift|intros _]. apply flushes_bind; [|intros ok].
  - apply flushes_action. intros s a s' E. apply bind_Ok in E as (x & _ & E). apply bind_Ok in E as (y & _ & E). injection E as _ <-.
    split; try done. apply grown_map; [done|]. intros []. by split.
  - apply flushes_bind; [apply flushes_lift|]. intros _ s. by split.
Qed.
Lemma write_coins_flushes : flushes (write_coins env).
Proof.
  unfold write_coins. apply flushes_bind; [by intros s|intros s0]. apply flushes_bind; [apply flushes_lift|intros _]. apply flushes_bind; [|intros ok].
  - apply flushes_action. intros s a s' E. apply bind_Ok in E as ([ok c'] & Ef & E). injection E as _ <-. split; try done. intros [Hi Hk]. cbn [n_tip with_tip snd].
    pose proof (Cache_Flush_known _ _ _ Ef Hk). destruct (flush_ok (n_tip s) Hi Hk) as (c2 & E2 & Hi2 & _ & Ha2). rewrite Ef in E2. injection E2 as _ <-. done.
  - apply flushes_bind; [apply flushes_lift|]. intros _ s. by split.
Qed.
Lemma flush_body_flushes mode : flushes (flush_body env addr usage mode).
Proof.
  unfold flush_body. apply flushes_bind; [apply find_prune_flushes|intros toPrune]. apply flushes_bind; [by intros s; split|intros _].
  apply flushes_bind; [by intros s|intros s1]. cbv zeta. apply flushes_bind; [destruct (_ || _); [apply write_index_flushes|by intros s]|intros _].
  destruct (_ || _); [apply write_coins_flushes|by intros s].
Qed.
Lemma FlushStateToDisk_flushes mode : flushes (FlushStateToDisk env addr usage mode).
Proof.
  intros s. unfold FlushStateToDisk. pose proof (flush_body_flushes mode s) as Hf.
  destruct (flush_body _ _ _ mode s) as [[|f| |] s']; [done|..|done]; (etrans; [exact Hf|]); [by destruct f; split|by split].
Qed.
End Flush.

(** ** The entry of a block that is being connected *)

Section Entry.
Context {SpT SaT V : Type} `{!MerkleTree SpT, !MerkleTree SaT, !CCoinsView SpT SaT V}.
Context `{SigHashCrypto} `{ScriptCrypto} `{BlockOracle} `{EquihashVerifier} `{TxVerifier} `{Secp256k1}.
Context (VerifySprout : JSDescription -> bytes -> bool).
Context (net : Network) (params chainparams : CChainParams) (benv : BlockEnv) (env : ConnectEnv).
Local Abbreviation state := (Connecting (SpT := SpT) (SaT := SaT) (V := V)).
Implicit Types s : state.

(** The entry keeps its place, work and counts, and its mark. *)
Definition entry_kept {A} (m : scheck state A) : Prop := forall s, entry_grown (cn_pindex s) (cn_pindex (m s).2).

Lemma entry_kept_bind {A B} (m : scheck state A) (k : A -> scheck state B) : entry_kept m -> (forall a, entry_kept (k a)) -> entry_kept (m ≫= k).
Proof.
  intros Hm Hk s. unfold mbind, scheck_bind. specialize (Hm s). destruct (m s) as [[a|f|msg|] s1]; [|done..]. etrans; [exact Hm|apply Hk].
Qed.
Lemma entry_kept_ret {A} (a : A) : entry_kept (mret a).
Proof. by intros s. Qed.
Lemma entry_kept_lift {A} (r : check A) : entry_kept (lift r).
Proof. by intros s. Qed.
Lemma entry_kept_get : entry_kept get_pindex.
Proof. by intros s. Qed.
Lemma entry_kept_view {A} (m : scheck (CCoinsViewCache SpT SaT V) A) : entry_kept (on_view m).
Proof. intros s. unfold on_view. by destruct (m (cn_view s)). Qed.
Lemma entry_kept_rejected {A} (m : scheck (gmap uint256 Z) A) : entry_kept (on_cn_rejected m).
Proof. intros s. unfold on_cn_rejected. by destruct (m (cn_rejected s)). Qed.
Lemma entry_kept_files {A} (m : scheck BlockFiles A) : entry_kept (on_cn_files m).
Proof. intros s. unfold on_cn_files. by destruct (m (cn_files s)). Qed.
Lemma entry_kept_set f : (forall b, entry_grown b (f b)) -> entry_kept (set_pindex f).
Proof. intros Hf s. apply Hf. Qed.
Lemma entry_kept_db b e : entry_kept (db_write env b e).
Proof. by intros s. Qed.

Lemma RaiseValidity_counts b n r : RaiseValidity b n = Ok r -> entry_grown b r.2.
Proof.
  unfold RaiseValidity. intros E. apply bind_Ok in E as ([] & _ & E). destruct (has_status _ _) eqn:Ef; [by injection E as <-|].
  destruct (_ <? n); injection E as <-; [|done]. split; [done|]. unfold failed. by rewrite Ef.
Qed.
Lemma raise_to_scripts_entry : entry_kept (raise_to_scripts params chainparams benv).
Proof.
  intros s. unfold raise_to_scripts. unfold mbind, scheck_bind, get_pindex, lift. set (m := if IsActivationHeightForAnyUpgrade _ _ then _ else _).
  assert (Hm : forall b, m = Pass b -> entry_grown (cn_pindex s) b).
  { intros b E. subst m. destruct (IsActivationHeightForAnyUpgrade _ _); [apply bind_Pass in E as (br & _ & [= <-]); split; [done|by apply (failed_lor BLOCK_ACTIVATES_UPGRADE)]|].
    destruct (bi_pprev _); [by apply bind_Pass in E as (prev & _ & [= <-])|by injection E as <-]. }
  destruct m as [b| | |]; [|done..]. specialize (Hm b eq_refl). destruct (RaiseValidity b BLOCK_VALID_SCRIPTS) as [r| |] eqn:Er; [|done..].
  cbn. apply RaiseValidity_counts in Er. by etrans.
Qed.

Lemma undo_grown n b : entry_grown b (bi_with_undo n b).
Proof. split; [done|by apply (failed_lor BLOCK_HAVE_UNDO)]. Qed.
Local Ltac entry_step := first
  [ apply entry_kept_ret | apply entry_kept_lift | apply entry_kept_get | apply entry_kept_view | apply entry_kept_rejected | apply entry_kept_files
  | apply entry_kept_db | (apply entry_kept_set; intros ?; first [reflexivity|(case_match; reflexivity)|apply undo_grown]) | (apply entry_kept_bind; [|intros ?]) | progress cbv zeta | case_match
  | (intros ?; reflexivity) ].

Lemma ConnectBlock_entry block hash just : entry_kept (ConnectBlock VerifySprout net params chainparams benv env block hash just).
Proof.
  unfold ConnectBlock, connect_body, record_undo, write_undo, write_indexes, write_timestamps.
  repeat first [apply raise_to_scripts_entry|entry_step].
Qed.
End Entry.
