(* ===== verification/TipSafety.v ===== *)
(** * Connecting and disconnecting the tip

    A block that [ConnectTip] rejects leaves coins, pool and chain as they
    were; one that it connects leaves them consistent with each other; and
    [DisconnectTip] brings the coins back. *)
From stdpp Require Import prelude gmap strings list.
From S2P Require Import Prelude Transaction Script Interpreter Serialize TxSerialize SigHash Coins History CoinsView CoinsLaws CoinsCache CoinsOps UpdateCoins CoinsSerialize.
From S2P Require Import ArithUint256 Block ChainParams Subsidy Chain Pow Checks CheckTx CheckInputs CheckBlock ChainState ChainShape BestChain ChainSteps AcceptBlock ConnectBlock ConnectTx ConnectLaws ConnectReads Double TxMemPool PoolLaws PoolRemovals PoolCoins AcceptToPool AcceptLaws AcceptSafety Tip TipLaws.
#[local] Open Scope Z_scope.

Section TipSafety.
Context {SpT SaT V : Type} `{!MerkleTree SpT, !MerkleTree SaT, !CCoinsView SpT SaT V}.
Context `{!CCoinsViewLaws SpT SaT V}.
Context `{BlockOracle} `{EquihashVerifier} `{SigHashCrypto} `{TxVerifier} `{ScriptCrypto} `{Secp256k1} `{PoolEnv} `{!PoolEnvLaws}.
Context (VerifySprout : JSDescription -> bytes -> bool).
Context (net : Network) (params chainparams : CChainParams) (env : TipEnv).
Local Abbreviation tip_t := (CCoinsViewCache SpT SaT V).
Context (addr : uint256 -> Z) (usage : tip_t -> Z).
Local Abbreviation view_t := (CCoinsViewCache SpT SaT tip_t).
Local Abbreviation node := (Node (SpT := SpT) (SaT := SaT) (V := V)).
Implicit Types s : node.
Local Abbreviation ConnectTip := (ConnectTip VerifySprout net params chainparams env addr usage).
Local Abbreviation DisconnectTip := (DisconnectTip params chainparams env addr usage).
Local Abbreviation flush := (FlushStateToDisk env addr usage FLUSH_STATE_IF_NEEDED).

(** What [ConnectBlock] is run on. *)
Definition connecting s (b : CBlockIndex) : Connecting (SpT := SpT) (SaT := SaT) (V := tip_t) :=
  mkConnecting (CCoinsViewCache_new (n_tip s)) b false (n_files s) (n_rejected s) (n_undo s) (n_written s).
Definition connect_block s p b block : check unit * Connecting (SpT := SpT) (SaT := SaT) (V := tip_t) :=
  ConnectBlock VerifySprout net params chainparams (env_at (te_block env) (n_index s)) (te_connect env) block (Some p) false (connecting s b).

(** The coins of the tip show what they showed. *)
Definition coins_kept s s' : Prop := cache_inv (n_tip s) -> cache_inv (n_tip s') /\ cache_abs (n_tip s') ≡ cache_abs (n_tip s).
#[local] Instance coins_kept_preorder : PreOrder coins_kept.
Proof. split; [by intros s|]. intros s1 s2 s3 A B Hi. destruct (A Hi) as [Hi2 E2]. destruct (B Hi2) as [Hi3 E3]. split; [done|by etrans]. Qed.

Lemma connect_kept_coins s p b block : coins_kept s (connect_kept p (connect_block s p b block).2 s).
Proof.
  intros Hi. unfold connect_kept. cbn [n_tip].
  pose proof (ConnectBlock_view VerifySprout net params chainparams (env_at (te_block env) (n_index s)) (te_connect env) block (Some p) false (connecting s b) Hi) as (Hi' & Ha & _).
  done.
Qed.

Lemma connect_kept_wf s p b block : state_wf (n_index s) -> mapBlockIndex (n_index s) !! p = Some b ->
  state_wf (n_index (connect_kept p (connect_block s p b block).2 s))
  /\ chainActive (n_index (connect_kept p (connect_block s p b block).2 s)) = chainActive (n_index s).
Proof.
  intros W Hp. pose proof (ConnectBlock_entry VerifySprout net params chainparams (env_at (te_block env) (n_index s)) (te_connect env) block (Some p) false (connecting s b)) as Hc.
  unfold connect_kept. cbn [n_index]. fold (connect_block s p b block) in Hc. cbn [connecting cn_pindex] in Hc.
  pose proof (state_wf_entry _ _ _ _ W Hp (proj1 Hc)) as W'. destruct (cn_dirty _); (split; [|done]); [by apply state_wf_dirty|done].
Qed.

(** *** [ConnectTip] step by step *)

Lemma connect_view_run st p b block s r s' : connect_view VerifySprout net params chainparams env st p b block s = (r, s') ->
  let '(rc, c) := connect_block s p b block in
  match rc with
  | Pass _ => (exists view, Cache_Flush (cn_view c) = Ok (true, view) /\ r = Pass tt /\ s' = with_tip (base view) (connect_kept p c s))
              \/ (forall u, r <> Pass u) /\ (forall f, r <> Fail f)
  | Fail f => (r = Fail f /\ exists s1, connect_failed env p (apply_failure f st) (connect_kept p c s) = Ok s1 /\ s' = shutdown_on f s1) \/ r = Halt
  | _ => (forall u, r <> Pass u) /\ (forall f, r <> Fail f)
  end.
Proof.
  unfold connect_view. fold (connecting s b). fold (connect_block s p b block). destruct (connect_block s p b block) as [[[]|f|msg|] c].
  - destruct (Cache_Flush (cn_view c)) as [[[] view]|msg|]; intros [= <- <-]; [left; eauto|right; naive_solver..].
  - destruct (connect_failed _ _ _ _); intros [= <- <-]; [left; eauto|by right..].
  - intros [= <- <-]. naive_solver.
  - intros [= <- <-]. naive_solver.
Qed.

(** Checks that fail with errors of the system only. *)
Definition errs {A} (m : scheck node A) : Prop := forall s f s', m s = (Fail f, s') -> exists msg, f = FailError msg.
Lemma errs_bind {A B} (m : scheck node A) (k : A -> scheck node B) : errs m -> (forall a, errs (k a)) -> errs (m ≫= k).
Proof. intros Hm Hk s f s' E. apply scheck_bind_Fail in E as [E|(a & s1 & _ & E)]; [by eapply Hm|by eapply Hk]. Qed.
Lemma errs_reject bad e : errs (lift (reject_if bad (FailError e))).
Proof. intros s f s' E. destruct bad; [|done]. injection E as <- _. eauto. Qed.
Lemma errs_action {A} (g : node -> result (A * node)) : errs (action g).
Proof. intros s f s'. unfold action. by destruct (g s) as [[]| |]. Qed.
Lemma errs_result {A} (r : result A) : errs (lift (of_result r)).
Proof. intros s f s'. unfold lift. by destruct r. Qed.
Lemma flush_errs mode : errs (FlushStateToDisk env addr usage mode).
Proof.
  assert (Hb : errs (flush_body env addr usage mode)).
  { unfold flush_body, find_prune, write_index, write_coins.
    repeat first [apply errs_reject|apply errs_action|apply errs_bind; [|intros ?]|progress cbv zeta|case_match|(by intros ? ? ?)]. }
  intros s f s'. unfold FlushStateToDisk. destruct (flush_body _ _ _ _ s) as [[] s1] eqn:E; intros E'; simplify_eq; [by eapply Hb|eauto].
Qed.

(** [ConnectTip] fails in [ConnectBlock], or with an error of the system. *)
Lemma ConnectTip_Fail st p block s f s' : ConnectTip st p block s = (Fail f, s') ->
  (exists b, get_entry (n_index s) p = Ok b /\ connect_view VerifySprout net params chainparams env st p b block s = (Fail f, s')) \/ exists msg, f = FailError msg.
Proof.
  unfold Tip.ConnectTip. intros E. apply scheck_bind_Fail in E as [E|(s0 & s1 & E1 & E)]; [done|]. injection E1 as <- <-.
  apply scheck_bind_Fail in E as [E|(b & s1 & E1 & E)]; [by apply errs_result in E; right|]. apply lift_Pass in E1 as [E1 ->]. apply of_result_Pass in E1.
  apply scheck_bind_Fail in E as [E|([] & s1 & E2 & E)]; [by apply errs_result in E; right|]. apply lift_Pass in E2 as [_ ->].
  apply scheck_bind_Fail in E as [E|([] & s1 & _ & E)]; [left; by exists b|]. right.
  apply scheck_bind_Fail in E as [E|([] & s2 & _ & E)]; [by eapply flush_errs|].
  apply scheck_bind_Fail in E as [E|(conf & s3 & _ & E)]; [exact (errs_action _ _ _ _ E)|].
  apply scheck_bind_Fail in E as [E|(ids & s4 & _ & E)]; [exact (errs_action _ _ _ _ E)|].
  apply scheck_bind_Fail in E as [E|([] & s5 & _ & E)]; [|done]. unfold UpdateTip in E.
  apply scheck_bind_Fail in E as [E|([] & s5 & _ & E)]; [exact (errs_action _ _ _ _ E)|].
  apply scheck_bind_Fail in E as [E|(s6 & s7 & _ & E)]; [done|]. by eapply errs_result.
Qed.

(** *** The coins with one more block *)

(** [a'] shows [a] with the block connected, and [undo] is what takes it back. *)
Definition connects (block : CBlock) (p : uint256) (h : Z) (a : AbsView) (undo : CBlockUndo) (a' : AbsView) : Prop :=
  exists (c0 c1 : view_t) us (spt : SpT) (sat : SaT), cache_inv c0 /\ cache_abs c0 ≡ a /\ txs_connected h 0 c0 (block_txs block) us c1 /\ block_txs block <> []
    /\ new_anchor a SPROUT (tree_empty_root (T := SpT)) (tree_root spt) /\ new_anchor a SAPLING (tree_empty_root (T := SaT)) (tree_root sat)
    /\ undo = mkBlockUndo (tail us) (a_bestAnchor a SPROUT) /\ a' ≡ cache_abs (block_anchored spt sat p c1).

Lemma connects_equiv block p h a undo a1 a2 : a1 ≡ a2 -> connects block p h a undo a1 -> connects block p h a undo a2.
Proof. intros Ha (c0 & c1 & us & spt & sat & ? & ? & ? & ? & ? & ? & ? & Hx). exists c0, c1, us, spt, sat. split_and!; try done. by rewrite <- Ha. Qed.

Lemma txs_connected_wf h k (c : view_t) txs us c' : txs_connected h k c txs us c' -> cache_inv c -> view_wf (cache_abs c) -> cache_inv c' /\ view_wf (cache_abs c').
Proof.
  induction 1 as [k c|k c c0 tx u c1 txs us c2 Hrd Hcn Hcb E _ IH]; intros Hi Hw; [done|]. destruct (read_ok_stable c c0 Hi Hrd) as (Hi0 & Ha0 & _).
  destruct (tx_roundtrip tx k h c0 u c1 Hi0 (view_wf_equiv _ _ Ha0 Hw) Hcn Hcb E) as (Hi1 & Hw1 & _). by apply IH.
Qed.

Lemma connects_shows block p h a undo a' : p <> uint256_null -> view_wf a -> connects block p h a undo a' -> a_best a' = p /\ view_wf a'.
Proof.
  intros Hp Hw (c0 & c1 & us & spt & sat & Hi0 & Ha0 & Htx & _ & Hsp & Hsa & _ & Ha').
  destruct (txs_connected_wf _ _ _ _ _ _ Htx Hi0 (view_wf_equiv _ _ Ha0 Hw)) as [Hi1 Hw1].
  destruct (block_anchored_ok spt sat p c1 Hi1 Hp (proj1 Hsp) (proj1 Hsa)) as [_ Hab]. rewrite Hab in Ha'. split; [by rewrite (eqv_best _ _ Ha')|].
  intros t x. rewrite (eqv_coins _ _ Ha'). cbn [a_coins abs_set_best].
  assert (Hpush : forall ty rt b, a_coins (push_anchor_abs ty rt b) t = a_coins b t) by (intros ty rt b; unfold push_anchor_abs; by case_decide).
  rewrite !Hpush. apply Hw1.
Qed.

(** What the block must satisfy besides being accepted, where it stands.  The
    anchors that [ConnectBlock] leaves, the roots of the trees that the block's
    note commitments extend, must not be among those of the tip, unless they
    stay the same. *)
Record ready_block s (p : uint256) (b : CBlockIndex) (block : CBlock) : Prop := {
  rb_entry : mapBlockIndex (n_index s) !! p = Some b;
  rb_ready : block_ready block (Chain.bi_nHeight b);
  rb_genesis : hash_header (b_header block) <> env_hashGenesisBlock (te_block env);
  rb_hash : p <> uint256_null;
  rb_sprout : new_anchor (cache_abs (n_tip s)) SPROUT (tree_empty_root (T := SpT)) (hashSproutAnchor (maps (cn_view (connect_block s p b block).2)));
  rb_sapling : new_anchor (cache_abs (n_tip s)) SAPLING (tree_empty_root (T := SaT)) (hashSaplingAnchor (maps (cn_view (connect_block s p b block).2)))
}.

(** Undo data is written where the entry [b] has none. *)
Definition undo_written (b : CBlockIndex) (undo : CBlockUndo) (u u' : list (CDiskBlockPos * CBlockUndo)) : Prop :=
  if CDiskBlockPos_IsNull (GetUndoPos b) then exists pos, u' = u ++ [(pos, undo)] else u' = u.

Lemma connect_block_Pass s p b block c : cache_inv (n_tip s) -> view_wf (cache_abs (n_tip s)) -> ready_block s p b block -> connect_block s p b block = (Pass tt, c) ->
  exists undo, undo_written b undo (n_undo s) (cn_undo c) /\ connects block p (Chain.bi_nHeight b) (cache_abs (n_tip s)) undo (cache_abs (cn_view c))
    /\ cache_inv (cn_view c) /\ best_known (maps (cn_view c)) /\ default uint256_null (bi_pprev b) = a_best (cache_abs (n_tip s)).
Proof.
  intros Hi Hw [Hb Hrd Hg Hp Nsp Nsa] E. rewrite E in Nsp, Nsa. cbn [snd] in Nsp, Nsa. destruct (new_view_ok (n_tip s) Hi) as [Hiv Hav]. unfold connect_block in E.
  apply ConnectBlock_Pass in E as (Hbest & l & c' & Hbd & Hv & Hun & _); [|exact Hiv|exact (view_wf_equiv _ _ Hav Hw)|done|done].
  cbn [connecting cn_view cn_undo cn_pindex] in *. destruct Hbd as [(c0 & c1 & us & fees & Hr & Htxs & _ & _ & -> & Hund) Hne _ _].
  rewrite (eqv_bestAnchor _ _ Hav) in Hun. change (Cache_SetBestBlock p _) with (block_anchored (tl_sprout l) (tl_sapling l) p c1) in Hv.
  destruct (anchored_is (tl_sprout l) (tl_sapling l) p c1) as [Es Ez]. unfold anchor_is in Es, Ez. cbn [get_hashAnchor] in Es, Ez. rewrite Hv in Nsp, Nsa. rewrite Es in Nsp. rewrite Ez in Nsa.
  destruct (read_ok_stable _ _ Hiv Hr) as (Hi0 & Ha0 & _). rewrite Hav in Ha0.
  destruct (txs_connected_wf _ _ _ _ _ _ Htxs Hi0 (view_wf_equiv _ _ Ha0 Hw)) as [Hi1 _].
  exists (mkBlockUndo (tl_undo l) (a_bestAnchor (cache_abs (n_tip s)) SPROUT)).
  split; [unfold undo_kept in Hun; unfold undo_written; cbn [connecting cn_pindex cn_undo] in Hun; destruct (CDiskBlockPos_IsNull _); [destruct Hun as (pos & ? & _); by exists pos|by destruct Hun]|].
  rewrite Hv.
  destruct (block_anchored_ok (tl_sprout l) (tl_sapling l) p c1 Hi1 Hp (proj1 Nsp) (proj1 Nsa)) as [Hi2 _]. split; [|split; [exact Hi2|split; [by apply anchored_known; [apply Nsp|apply Nsa|]|]]].
  2:{ cbn [connecting cn_pindex] in Hbest. by rewrite (eqv_best _ _ Hav) in Hbest. }
  exists c0, c1, us, (tl_sprout l), (tl_sapling l). split_and!; try done. by rewrite Hund.
Qed.

(** Where a block is rejected for breaking a rule. *)
Lemma ConnectTip_invalid st p block s s' level code reason corruption : vs_mode st <> MODE_ERROR ->
  ConnectTip st p block s = (Fail (FailDoS level code reason corruption), s') ->
  exists b st' i w, mapBlockIndex (n_index s) !! p = Some b /\ corruptionPossible st' = corruption
    /\ let s1 := connect_kept p (connect_block s p b block).2 s in
       InvalidBlockFound (CheckBlock.env_ibd (te_block env)) p st' (n_index s1) (n_warnings s1) = Ok (i, w) /\ s' = with_chainstate i w s1.
Proof.
  intros Hst E. apply ConnectTip_Fail in E as [(b & Eb & E)|[msg ?]]; [|done]. apply get_entry_Ok in Eb. apply connect_view_run in E. exists b.
  destruct (connect_block s p b block) as [[[]|f|msg|] c]; cbn [snd]; [by destruct E as [(view & _ & ? & _)|[_ Hn]]; [|destruct (Hn _ eq_refl)]| |by destruct E as [_ Hn]; destruct (Hn _ eq_refl)..].
  destruct E as [[[= <-] (s1 & E & ->)]|?]; [|done]. cbn [shutdown_on]. unfold connect_failed in E. exists (apply_failure (FailDoS level code reason corruption) st).
  assert (Hinv : IsInvalid (apply_failure (FailDoS level code reason corruption) st) = true) by (cbn; unfold DoS; by rewrite decide_False).
  rewrite Hinv in E. apply bind_Ok in E as ([i w] & E & [= <-]). exists i, w. split; [done|]. split; [|done]. cbn. unfold DoS. by rewrite decide_False.
Qed.

(** (C6) A block that breaks a rule leaves no trace in the coins, the pool and the
    active chain.  When [ConnectTip] rejects a block, whatever part of it was
    connected before, the coins of the tip show what they showed, the pool and
    the chain are the same, and the block index is well formed.  Unless the
    block may have been corrupted on the way, it is marked as failed and is no
    candidate for the best chain any more. *)
Theorem ConnectTip_rejects (st : CValidationState) (p : uint256) (block : CBlock) s s' (level code : Z) (reason : string) (corruption : bool)
  (W : state_wf (n_index s)) (Hi : cache_inv (n_tip s)) (Hst : vs_mode st <> MODE_ERROR)
  (E : ConnectTip st p block s = (Fail (FailDoS level code reason corruption), s')) :
  cache_inv (n_tip s') /\ cache_abs (n_tip s') ≡ cache_abs (n_tip s) /\ n_pool s' = n_pool s /\ n_conflicted s' = n_conflicted s
  /\ chainActive (n_index s') = chainActive (n_index s) /\ state_wf (n_index s')
  /\ (corruption = false -> (p ∉ setBlockIndexCandidates (n_index s'))
        /\ exists b, mapBlockIndex (n_index s') !! p = Some b /\ has_status (bi_nStatus b) BLOCK_FAILED_VALID = true).
Proof.
  apply ConnectTip_invalid in E as (b & st' & i & w & Eb & Hcor & E & ->); [|done].
  destruct (connect_kept_coins s p b block Hi) as [Hi' Ha]. destruct (connect_kept_wf s p b block W Eb) as [W' Hc].
  cbn [n_tip n_pool n_conflicted n_index with_chainstate]. pose proof (InvalidBlockFound_wf _ _ _ _ _ _ _ W' E) as Wi. destruct corruption.
  - unfold InvalidBlockFound in E. rewrite Hcor in E. injection E as <- <-. by split_and!.
  - destruct (InvalidBlockFound_marks _ _ _ _ _ _ _ Hcor E) as (Hch & Hcand). rewrite Hch. by split_and!.
Qed.

(** *** A block connected *)

Lemma AddTransactionsUpdated_wf n p : pool_wf p -> pool_wf (AddTransactionsUpdated n p) /\ mapTx (AddTransactionsUpdated n p) = mapTx p.
Proof. intros [[] ? ?]. split; [|done]. by split; [split|..]. Qed.

Lemma UpdateTip_Pass pn s s' : UpdateTip env pn s = (Pass tt, s') -> exists c t,
  CChain_SetTip (mapBlockIndex (n_index s)) (chainActive (n_index s)) pn = Ok c /\ CChain_Tip c = Some t /\ n_index s' = with_chain c (n_index s)
  /\ n_pool s' = AddTransactionsUpdated 1 (n_pool s) /\ n_tip s' = n_tip s /\ n_undo s' = n_undo s.
Proof.
  unfold UpdateTip. intros E. apply scheck_bind_Pass in E as ([] & s1 & E1 & E). unfold action in E1.
  destruct (CChain_SetTip _ _ pn) as [c| |]; [|done..]. cbn in E1. injection E1 as <-. apply scheck_bind_Pass in E as (s1 & s2 & [= <- <-] & E).
  apply lift_Pass in E as [E ->]. apply of_result_Pass, assert_true_Ok, bool_decide_eq_true in E as [t Ht]. by exists c, t.
Qed.

Lemma SetTip_Tip i p c : state_wf i -> CChain_SetTip (mapBlockIndex i) (chainActive i) (Some p) = Ok c -> CChain_Tip c = Some p.
Proof.
  intros W E. destruct (mapBlockIndex i !! p) as [b|] eqn:Hp; [|unfold CChain_SetTip, deref in E; by rewrite Hp in E].
  destruct (SetTip_ok _ (ix_tree _ (sw_index i W)) (chainActive i) p b (sw_chain i W) Hp) as (c' & E' & Hb). rewrite E in E'. injection E' as <-.
  by apply (branch_Tip _ _ _ (ix_tree _ (sw_index i W)) Hb).
Qed.

Lemma on_pool_Pass {A} (f : CTxMemPool -> result (A * CTxMemPool)) s a s' : on_pool f s = (Pass a, s') -> exists p, f (n_pool s) = Ok (a, p) /\ s' = with_pool p s.
Proof. unfold on_pool, action. destruct (f (n_pool s)) as [[x p]| |]; [|done..]. cbn. intros [= <- <-]. by exists p. Qed.

Lemma ConnectTip_Pass st p block s s' : ConnectTip st p block s = (Pass tt, s') -> exists b c view s2 pool1 conf ids pool2 ch t,
  mapBlockIndex (n_index s) !! p = Some b /\ bi_pprev b = Tip (n_index s) /\ connect_block s p b block = (Pass tt, c)
  /\ Cache_Flush (cn_view c) = Ok (true, view) /\ flush (with_tip (base view) (connect_kept p c s)) = (Pass tt, s2)
  /\ removeForBlock (block_txs block) (Chain.bi_nHeight b) [] (negb (CheckBlock.env_ibd (te_block env))) (n_pool s2) = Ok (pool1, conf)
  /\ removeExpired (Chain.bi_nHeight b) pool1 = Ok (ids, pool2)
  /\ CChain_SetTip (mapBlockIndex (n_index s2)) (chainActive (n_index s2)) (Some p) = Ok ch /\ CChain_Tip ch = Some t
  /\ n_index s' = with_chain ch (n_index s2) /\ n_pool s' = AddTransactionsUpdated 1 pool2 /\ n_tip s' = n_tip s2 /\ n_undo s' = n_undo s2.
Proof.
  unfold Tip.ConnectTip. intros E. apply scheck_bind_Pass in E as (s0 & s1 & [= <- <-] & E). apply scheck_bind_Pass in E as (b & s1 & E1 & E).
  apply lift_Pass in E1 as [E1 ->]. apply of_result_Pass, get_entry_Ok in E1. apply scheck_bind_Pass in E as ([] & s1 & E2 & E).
  apply lift_Pass in E2 as [E2 ->]. apply of_result_Pass, assert_true_Ok, bool_decide_eq_true in E2.
  apply scheck_bind_Pass in E as ([] & s1 & E3 & E). apply connect_view_run in E3. destruct (connect_block s p b block) as [[[]|f|msg|] c] eqn:Ec.
  2:{ by destruct E3 as [[? _]|?]. }
  2,3: by destruct E3 as [Hn _]; destruct (Hn tt).
  destruct E3 as [(view & Ef & _ & ->)|[Hn _]]; [|by destruct (Hn tt)].
  apply scheck_bind_Pass in E as ([] & s2 & E4 & E). apply scheck_bind_Pass in E as (conf & s3 & E5 & E). apply on_pool_Pass in E5 as (p1 & E5 & ->).
  apply bind_Ok in E5 as ([p1' conf'] & E5 & [= <- <-]). apply scheck_bind_Pass in E as (ids & s4 & E6 & E). apply on_pool_Pass in E6 as (p2 & E6 & ->).
  apply scheck_bind_Pass in E as ([] & s5 & E7 & E). apply UpdateTip_Pass in E7 as (ch & t & E7 & Et & Hx & Hp & Ht & Hu). injection E as <-.
  exists b, c, view, s2, p1', conf', ids, p2, ch, t. cbn [n_pool n_index n_tip n_undo with_pool] in *.
  unfold EnforceNodeDeprecation. destruct (_ && _); cbn; by split_and!.
Qed.

Lemma connect_tip_ok (st : CValidationState) (p : uint256) (b : CBlockIndex) (block : CBlock) s s'
  (Wp : pool_wf (n_pool s)) (W : state_wf (n_index s)) (Hi : cache_inv (n_tip s)) (Hw : view_wf (cache_abs (n_tip s)))
  (Hb : ready_block s p b block)
  (E : ConnectTip st p block s = (Pass tt, s')) :
  (exists undo, undo_written b undo (n_undo s) (n_undo s')
    /\ connects block p (Chain.bi_nHeight b) (cache_abs (n_tip s)) undo (cache_abs (n_tip s')))
  /\ default uint256_null (bi_pprev b) = a_best (cache_abs (n_tip s))
  /\ cache_inv (n_tip s') /\ view_wf (cache_abs (n_tip s')) /\ a_best (cache_abs (n_tip s')) = p
  /\ Tip (n_index s') = Some p /\ state_wf (n_index s')
  /\ pool_wf (n_pool s') /\ mapTx (n_pool s') ⊆ mapTx (n_pool s)
  /\ forall h e, mapTx (n_pool s') !! h = Some e -> IsExpiredTx (me_tx e) (Chain.bi_nHeight b) = false
       /\ forall tx, tx ∈ block_txs block -> h <> tx_hash tx /\ ~ conflicts tx e.
Proof.
  apply ConnectTip_Pass in E as (b' & c & view & s2 & p1 & conf & ids & p2 & ch & t & Eb & _ & Ec & Ef & Efl & E1 & E2 & Ech & Et & Hx & Hp & Ht & Hu).
  assert (b' = b) as -> by (rewrite (rb_entry _ _ _ _ Hb) in Eb; congruence).
  destruct (connect_kept_wf s p b block W Eb) as [W1 _]. rewrite Ec in W1. cbn [snd] in W1.
  destruct (connect_block_Pass s p b block c Hi Hw Hb Ec) as (undo & Hun & Hcn & Hiv & Hk & Hprev).
  destruct (view_flush (cn_view c) Hiv Hk) as (view' & Ef' & Hok & Hab). rewrite Ef in Ef'. injection Ef' as <-.
  destruct (FlushStateToDisk_flushes env addr usage FLUSH_STATE_IF_NEEDED (with_tip (base view) (connect_kept p c s))) as [F1 F2 _ _ F5 F6].
  rewrite Efl in *. cbn [snd n_pool n_undo n_index n_tip with_tip connect_kept] in *. destruct (F6 Hok) as [[Hi2 _] Ha2]. rewrite Hab in Ha2.
  symmetry in Ha2. pose proof (connects_equiv _ _ _ _ _ _ _ Ha2 Hcn) as Hcn2. destruct (connects_shows _ _ _ _ _ _ (rb_hash _ _ _ _ Hb) Hw Hcn2) as [Hbest Hw2].
  pose proof (gr_wf _ _ F5 W1) as W2. rewrite Ht, Hx, Hp, Hu, F2. rewrite F1 in E1.
  destruct (removeForBlock_ok (block_txs block) (Chain.bi_nHeight b) (negb (CheckBlock.env_ibd (te_block env))) (n_pool s) Wp) as (p1' & l & E1' & T1 & _ & Hc1).
  rewrite E1 in E1'. injection E1' as <- <-. unfold removeExpired in E2.
  destruct (remove_selected (fun e => IsExpiredTx (me_tx e) (Chain.bi_nHeight b)) p1 (tr_wf _ _ _ T1)) as (p2' & E2' & T2 & Hc2).
  rewrite E2' in E2. cbn in E2. injection E2 as _ <-. destruct (AddTransactionsUpdated_wf 1 p2' (tr_wf _ _ _ T2)) as [Wu ->].
  split; [by exists undo|]. split; [done|]. split; [done|]. split; [done|]. split; [done|]. split; [by apply (SetTip_Tip (n_index s2))|].
  split; [by eapply SetTip_wf|]. split; [done|]. split; [etrans; [apply T2|apply T1]|].
  intros h e He. apply Hc2 in He as [He Hnt]. split; [|intros tx Htx; by apply (Hc1 tx h e)].
  destruct (IsExpiredTx (me_tx e) _) eqn:Ex; [|done]. destruct Hnt. by exists h, e.
Qed.

(** (C4) Coins, chain and pool move together when a block is connected.  After
    [ConnectTip] accepts a block, for the first time or again after a
    reorganisation, the coins of the tip are those of before with the block
    connected; its undo data was recorded, unless the block has some from
    before; the best block of the
    coins is the tip of the active chain; the block index and the pool are
    well formed.  Nothing new is in the pool, and nothing in it is in the
    block, spends what the block spends, reveals a nullifier the block
    reveals, or has expired. *)
Theorem ConnectTip_extends (st : CValidationState) (p : uint256) (b : CBlockIndex) (block : CBlock) s s'
  (Wp : pool_wf (n_pool s)) (W : state_wf (n_index s)) (Hi : cache_inv (n_tip s)) (Hw : view_wf (cache_abs (n_tip s)))
  (Hb : ready_block s p b block)
  (E : ConnectTip st p block s = (Pass tt, s')) :
  (exists undo, undo_written b undo (n_undo s) (n_undo s')
    /\ connects block p (Chain.bi_nHeight b) (cache_abs (n_tip s)) undo (cache_abs (n_tip s')))
  /\ cache_inv (n_tip s') /\ view_wf (cache_abs (n_tip s')) /\ a_best (cache_abs (n_tip s')) = p
  /\ Tip (n_index s') = Some p /\ state_wf (n_index s')
  /\ pool_wf (n_pool s') /\ mapTx (n_pool s') ⊆ mapTx (n_pool s)
  /\ forall h e, mapTx (n_pool s') !! h = Some e -> IsExpiredTx (me_tx e) (Chain.bi_nHeight b) = false
       /\ forall tx, tx ∈ block_txs block -> h <> tx_hash tx /\ ~ conflicts tx e.
Proof. by destruct (connect_tip_ok st p b block s s' Wp W Hi Hw Hb E) as (? & _ & ?). Qed.

(** The undo data is determined by the block and the coins it is connected to. *)
Lemma connects_undo block p h a u1 u2 a1 a2 : connects block p h a u1 a1 -> connects block p h a u2 a2 -> u1 = u2.
Proof.
  intros (c0 & c1 & us & spt & sat & Hi & Ha & T & _ & _ & _ & -> & _) (d0 & d1 & vs & spt' & sat' & Hj & Hb & T' & _ & _ & _ & -> & _).
  destruct (txs_connected_det _ _ _ _ _ _ T d0 vs d1 Hi Hj) as [-> _]; [by rewrite Ha, Hb|done..].
Qed.

(** *** What a disconnect leaves of the coins *)

Section Accepting.
Context (aenv : AcceptEnv).
Local Abbreviation astate := (AcceptState (SpT := SpT) (SaT := SaT) (V := V)).
#[local] Existing Instance CCoinsView_base.
Definition same_tip {A} (m : scheck (astate * CCoinsViewCache SpT SaT unit) A) : Prop := forall x, as_pcoinsTip (m x).2.1 = as_pcoinsTip x.1.
Lemma same_tip_bind {A B} (m : scheck (astate * CCoinsViewCache SpT SaT unit) A) (k : A -> scheck (astate * CCoinsViewCache SpT SaT unit) B) :
  same_tip m -> (forall a, same_tip (k a)) -> same_tip (m ≫= k).
Proof. intros Hm Hk x. unfold mbind, scheck_bind. specialize (Hm x). destruct (m x) as [[a|f|msg|] x1]; [|done..]. by rewrite Hk. Qed.

Lemma accept_cached_tip tx fl fa ig n : same_tip (accept_cached params chainparams aenv tx fl fa ig n).
Proof.
  unfold accept_cached. apply same_tip_bind; [by intros [x d]|intros s0]. apply same_tip_bind; [intros [x d]; unfold on_snd; by destruct (accept_entry _ _ _ _ _ _)|intros e].
  apply same_tip_bind; [intros x; apply (accept_fees_frames aenv e fl fa ig x)|intros _].
  apply same_tip_bind; [intros [x d]; unfold on_snd; by destruct (accept_scripts _ _ _ _ _)|intros _].
  intros [x d]. unfold accept_store, action. destruct (addUnchecked _ _ _ _); [|done..]. cbn [mbind result_bind].
  destruct (if fAddressIndex then _ else _) as [[p1 d1]| |]; [|done..]. cbn [mbind result_bind fst snd].
  by destruct (if fSpentIndex then _ else _) as [[p2 d2]| |].
Qed.
Lemma accept_keeps_tip tx fl fa ig (x : astate) r x' : cache_inv (as_pcoinsTip x) -> AcceptToMemoryPool params chainparams aenv tx fl fa ig x = (r, x') ->
  cache_inv (as_pcoinsTip x') /\ cache_abs (as_pcoinsTip x') ≡ cache_abs (as_pcoinsTip x).
Proof.
  intros Hi E. apply AcceptToMemoryPool_run in E as [[_ ->]|(_ & _ & ri & x1 & Ei & Hc)]; [done|].
  set (x0 := mkAcceptState (as_pool x) (as_pcoinsTip x) (as_limiter x) false) in *.
  destruct (accept_inputs_kept _ _ _ _ (Hi : cache_inv (as_pcoinsTip x0)) Ei) as [_ [Ht1 Ha1]].
  destruct Hc as [(_ & -> & _)|(n & d & d' & _ & Ed)]; [done|]. pose proof (accept_cached_tip tx fl fa ig n (x1, d)) as Ht. rewrite Ed in Ht. cbn in Ht. by rewrite Ht.
Qed.
End Accepting.

(** Steps that keep what the coins show and the block index, whatever their
    outcome. *)
Definition settled s s' : Prop := coins_kept s s' /\ n_index s' = n_index s.
#[local] Instance settled_preorder : PreOrder settled.
Proof. split; [by intros s|]. intros s1 s2 s3 [A1 B1] [A2 B2]. split; [by etrans|congruence]. Qed.
Definition keeps_coins {A} (m : scheck node A) : Prop := forall s, settled s (m s).2.
Lemma keeps_bind {A B} (m : scheck node A) (k : A -> scheck node B) : keeps_coins m -> (forall a, keeps_coins (k a)) -> keeps_coins (m ≫= k).
Proof.
  intros Hm Hk s. unfold mbind, scheck_bind. specialize (Hm s). destruct (m s) as [[a|f|msg|] s1]; [|done..]. etrans; [exact Hm|apply Hk].
Qed.
Lemma keeps_pool {A} (f : CTxMemPool -> result (A * CTxMemPool)) : keeps_coins (on_pool f).
Proof. intros s. unfold on_pool, action. by destruct (f (n_pool s)) as [[]| |]. Qed.
Lemma keeps_loop {T A} (body : T -> A -> scheck node T) l : (forall t a, keeps_coins (body t a)) -> forall t, keeps_coins (scheck_loop body l t).
Proof. intros Hb. induction l as [|a l IH]; intros t; cbn [scheck_loop]; [by intros s|]. apply keeps_bind; [apply Hb|done]. Qed.
Lemma accept_again_keeps tx : keeps_coins (accept_again params chainparams env tx).
Proof.
  intros s. unfold accept_again. destruct (accept_env env (n_index s)) as [e| |]; [|done..].
  destruct (AcceptToMemoryPool _ _ e tx _ _ _ _) as [r a] eqn:E. split; [|done]. intros Hi. by apply accept_keeps_tip in E.
Qed.
Lemma resurrect_block_keeps vtx a b c d : keeps_coins (resurrect_block params chainparams env vtx a b c d).
Proof.
  unfold resurrect_block. apply keeps_bind; [|intros _; apply keeps_bind; [|intros _]].
  - apply keeps_loop. intros u tx. apply keeps_bind; [destruct (IsCoinBase tx); [by intros s|apply accept_again_keeps]|]. intros []; [by intros s|apply keeps_pool].
  - unfold evict_anchor. destruct (_ =? _); [by intros s|apply keeps_pool].
  - unfold evict_anchor. destruct (_ =? _); [by intros s|apply keeps_pool].
Qed.
Lemma UpdateTip_keeps pn s : coins_kept s (UpdateTip env pn s).2.
Proof. unfold UpdateTip. unfold mbind at 1, scheck_bind at 1, action. by destruct (CChain_SetTip _ _ pn). Qed.
Lemma anchor_keeps ty : keeps_coins (on_tip (Cache_GetBestAnchor ty)).
Proof.
  intros s. unfold on_tip, query. pose proof (GetBestAnchor_ok ty (n_tip s)) as Hl. destruct (Cache_GetBestAnchor ty (n_tip s)) as [h c].
  split; [|done]. intros Hi. destruct (Hl (proj1 Hi)) as [Hr _]. destruct (read_ok_stable _ _ Hi Hr) as (Hi' & Ha & _). done.
Qed.

(** The block [p] at the tip of [t], where the files still have what was
    written when it was connected to the coins [a] with the undo data [undo]. *)
Record at_tip (t : node) (p : uint256) (b bt : CBlockIndex) (q : uint256) (block : CBlock) (a : AbsView) (undo : CBlockUndo) : Prop := {
  at_wf : state_wf (n_index t);
  at_Tip : Tip (n_index t) = Some p;
  at_entry : mapBlockIndex (n_index t) !! p = Some bt;
  at_place : Chain.bi_nHeight bt = Chain.bi_nHeight b /\ bi_pprev b = Some q /\ bi_pprev bt = Some q;
  at_prev : q <> uint256_null /\ exists bq, mapBlockIndex (n_index t) !! q = Some bq
    /\ (if sapling_active chainparams (Chain.bi_nHeight bq) then Chain.bi_hashFinalSaplingRoot bq else tree_empty_root (T := SaT)) = a_bestAnchor a SAPLING;
  at_block : ReadBlockFromDisk chainparams env p bt = Ok (Some block);
  at_undo : CDiskBlockPos_IsNull (GetUndoPos bt) = false /\ te_UndoReadFromDisk env (GetUndoPos bt) q = Some undo;
  at_index : te_EraseAddressIndex env = true /\ te_UpdateAddressUnspentIndex env = true
}.

Lemma disconnect_view_restores t p b bt q block a undo : p <> uint256_null -> view_wf a -> q = a_best a ->
  connects block p (Chain.bi_nHeight b) a undo (cache_abs (n_tip t)) -> cache_inv (n_tip t) -> at_tip t p b bt q block a undo ->
  exists c x, disconnect_view chainparams env p bt (block_txs block) t = (Pass tt, with_unindexed c x t) /\ tip_ok c /\ cache_abs c ≡ a.
Proof.
  intros Hp Hw Hq (c0 & c1 & us & spt & sat & Hi0 & Ha0 & Htx & Hne & Hsp & Hsa & -> & Hs) Hi [_ _ _ (Hh & _ & Hpt) (Hqn & bq & Hbq & Hsr) _ (Hun & Hrd) (He & Hup)].
  unfold disconnect_view, prev_info. rewrite Hpt. unfold get_entry, deref. rewrite Hbq. cbn [mbind result_bind]. cbn [info_of bi_hash]. rewrite Hrd, He, Hup, Hh.
  destruct (new_view_ok (n_tip t) Hi) as [Hiv Hav]. rewrite <- Hav in Hs.
  destruct (disconnect_shown (Chain.bi_nHeight b) c0 c1 (CCoinsViewCache_new (n_tip t)) (block_txs block) us spt sat (info_of p bt) (info_of q bq)
    (ce_fAddressIndex (te_connect env)) (ce_fSpentIndex (te_connect env)) (sapling_active chainparams) false) as (out & Eo & Hret & _ & Hio & Hao); try done.
  - by eapply view_wf_equiv.
  - by eapply new_anchor_equiv.
  - by eapply new_anchor_equiv.
  - cbn. by rewrite Hun.
  - cbn [info_of bi_hash]. by rewrite (eqv_best _ _ Ha0).
  - cbn [info_of UpdateCoins.bi_nHeight UpdateCoins.bi_hashFinalSaplingRoot]. by rewrite (eqv_bestAnchor _ _ Ha0).
  - rewrite (eqv_bestAnchor _ _ Ha0) in Eo. rewrite Eo, Hret.
    assert (Hk : best_known (maps (do_view out))).
    { eapply DisconnectBlock_known; [exact Eo|done|done|cbn; apply Hsp|]. cbn [info_of UpdateCoins.bi_nHeight UpdateCoins.bi_hashFinalSaplingRoot].
      rewrite Hsr. apply Hsa. }
    destruct (view_flush (do_view out) Hio Hk) as (view & -> & Hok & Hab). eexists (base view), _. split; [done|]. split; [done|]. by rewrite Hab, Hao.
Qed.

Lemma anchor_known_same ty (t : node) : tip_ok (n_tip t) -> on_tip (Cache_GetBestAnchor ty) t = (Pass (a_bestAnchor (cache_abs (n_tip t)) ty), t).
Proof.
  intros [Hi (_ & K2 & K3)]. destruct (GetBestAnchor_ok ty (n_tip t) (proj1 Hi)) as [_ <-]. unfold on_tip, query, Cache_GetBestAnchor.
  assert (uint256_IsNull (get_hashAnchor ty (maps (n_tip t))) = false) as ->.
  { apply uint256_IsNull_false. by destruct ty. }
  by destruct t.
Qed.

(** There is room in the cache: nothing is written. *)
Lemma flush_room t : ce_fPruneMode (te_connect env) = false -> usage (n_tip t) <= te_nCoinCacheUsage env ->
  exists t', flush t = (Pass tt, t') /\ n_index t' = n_index t /\ n_tip t' = n_tip t.
Proof.
  intros Hpr Hu. unfold FlushStateToDisk, flush_body, find_prune. unfold mbind at 1, scheck_bind at 1. unfold action. cbv zeta. rewrite Hpr. cbn [andb].
  rewrite (bool_decide_true (∅ = ∅ :> gset Z)) by done. unfold mbind, scheck_bind, poke, peek. cbv beta iota zeta. cbn [n_tip with_times].
  rewrite (proj2 (Z.ltb_ge _ _) Hu). eexists. split; [done|]. done.
Qed.

Lemma bind_run {S A B} (m : scheck S A) (k : A -> scheck S B) x a x' : m x = (Pass a, x') -> (m ≫= k) x = k a x'.
Proof. intros E. unfold mbind, scheck_bind. by rewrite E. Qed.
Lemma loop_run {S T A} (body : T -> A -> scheck S T) l1 l2 : forall t x t' x', scheck_loop body l1 t x = (Pass t', x') ->
  scheck_loop body (l1 ++ l2) t x = scheck_loop body l2 t' x'.
Proof.
  induction l1 as [|a l1 IH]; intros t x t' x' E; cbn [scheck_loop app] in *; [by injection E as -> ->|].
  apply scheck_bind_Pass in E as (t1 & x1 & E1 & E). rewrite (bind_run _ _ _ _ _ E1). by apply IH.
Qed.
Lemma anchor_run ty (t : node) : cache_inv (n_tip t) -> exists c, on_tip (Cache_GetBestAnchor ty) t = (Pass (a_bestAnchor (cache_abs (n_tip t)) ty), with_tip c t)
  /\ cache_inv c /\ cache_abs c ≡ cache_abs (n_tip t).
Proof.
  intros Hi. pose proof (proj1 (anchor_keeps ty t) Hi) as K. destruct (GetBestAnchor_ok ty (n_tip t) (proj1 Hi)) as [_ Hb]. unfold on_tip, query in *.
  destruct (Cache_GetBestAnchor ty (n_tip t)) as [h c]. cbn [fst] in Hb. subst h. by exists c.
Qed.

(** The start of [DisconnectTip], up to the coins. *)
Lemma DisconnectTip_start fBare t p b bt q block a undo : p <> uint256_null -> view_wf a -> q = a_best a -> at_tip t p b bt q block a undo ->
  cache_inv (n_tip t) -> connects block p (Chain.bi_nHeight b) a undo (cache_abs (n_tip t)) ->
  exists t2, DisconnectTip fBare t
    = (_ ← flush; _ ← (if fBare then mret tt else resurrect_block params chainparams env (block_txs block)
                         (a_bestAnchor (cache_abs (n_tip t)) SPROUT) (a_bestAnchor a SPROUT)
                         (a_bestAnchor (cache_abs (n_tip t)) SAPLING) (a_bestAnchor a SAPLING)); UpdateTip env (Some q)) t2
    /\ tip_ok (n_tip t2) /\ cache_abs (n_tip t2) ≡ a /\ n_index t2 = n_index t /\ n_pool t2 = n_pool t.
Proof.
  intros Hp Hw Hq D Hi Hcn. unfold Tip.DisconnectTip. rewrite (bind_run peek _ t t t) by done.
  rewrite (bind_run _ _ t p t) by (by rewrite (at_Tip _ _ _ _ _ _ _ _ D)).
  rewrite (bind_run _ _ t bt t) by (by unfold get_entry, deref; rewrite (at_entry _ _ _ _ _ _ _ _ D)).
  rewrite (bind_run _ _ t block t) by (by unfold read_block; rewrite (at_block _ _ _ _ _ _ _ _ D)).
  destruct (anchor_run SPROUT t Hi) as (x0 & E0 & Hi0 & Ha0). rewrite (bind_run _ _ _ _ _ E0).
  destruct (anchor_run SAPLING (with_tip x0 t) Hi0) as (x1 & E1 & Hi1 & Ha1). rewrite (bind_run _ _ _ _ _ E1).
  cbn [n_tip with_tip] in Ha0, Ha1 |- *. rewrite (eqv_bestAnchor _ _ Ha0). rewrite Ha0 in Ha1. set (t1 := with_tip x1 (with_tip x0 t)) in *.
  assert (D1 : at_tip t1 p b bt q block a undo) by (destruct D; by split). symmetry in Ha1. pose proof (connects_equiv _ _ _ _ _ _ _ Ha1 Hcn) as Hcn1.
  destruct (disconnect_view_restores t1 p b bt q block a undo Hp Hw Hq Hcn1 Hi1 D1) as (c & x & E2 & Hok & Hab). rewrite (bind_run _ _ _ _ _ E2).
  rewrite (bind_run _ _ _ _ _ (anchor_known_same SPROUT (with_unindexed c x t1) Hok)). rewrite (bind_run _ _ _ _ _ (anchor_known_same SAPLING (with_unindexed c x t1) Hok)).
  rewrite (proj2 (proj2 (at_place _ _ _ _ _ _ _ _ D))). 
  cbn [n_tip with_unindexed]. rewrite !(eqv_bestAnchor _ _ Hab). eexists. split; [reflexivity|]. done.
Qed.

(** *** The pool after a disconnect *)

(** What the transactions of the block meet when they come back. *)
Definition receptive s : Prop := pool_wf (n_pool s) /\ cache_inv (n_tip s) /\ a_best (cache_abs (n_tip s)) <> uint256_null.

Lemma accept_again_pool (tx : CTransaction) s r s' : receptive s -> tx_amounts_i64 tx -> accept_again params chainparams env tx s = (Pass r, s') ->
  pool_wf (n_pool s') /\ if r : bool then exists e, me_tx e = tx /\ mapTx (n_pool s') = <[tx_hash tx := e]> (mapTx (n_pool s)) else n_pool s' = n_pool s.
Proof.
  intros (Wp & Hi & Hb) Ham. unfold accept_again. destruct (accept_env env (n_index s)) as [e| |]; [|done..].
  destruct (AcceptToMemoryPool _ _ e tx _ _ _ _) as [[[]|f| |] x] eqn:E; intros [= <- <-]; cbn [n_pool with_accept].
  - apply accept_sound in E as (en & He & _ & _ & W' & M & _); [|done..]. split; [done|]. by exists en.
  - apply accept_rejects in E as (Hp & _); [|done]. by rewrite Hp.
Qed.
Lemma remove_pool_trims (tx : CTransaction) s s' : pool_wf (n_pool s) -> on_pool (fun p => r ← remove tx [] true p; Ok (tt, r.1)) s = (Pass tt, s') ->
  trims (doomed true (n_pool s) tx) (n_pool s) (n_pool s').
Proof.
  intros W E. apply on_pool_Pass in E as (p' & E & ->). apply bind_Ok in E as ([p1 l] & E & [= <-]).
  destruct (remove_wf true tx [] (n_pool s) W ltac:(constructor)) as (p2 & l2 & E2 & _ & T & _). rewrite E in E2. by injection E2 as <- <-.
Qed.
Lemma resurrect_keeps u tx : keeps_coins (resurrect params chainparams env u tx).
Proof. apply keeps_bind; [destruct (IsCoinBase tx); [by intros ?|apply accept_again_keeps]|]. intros []; [by intros ?|apply keeps_pool]. Qed.

Section Return.
Context (vtx : list CTransaction) (t3 : node) (a a' : AbsView).

(** A transaction of the pool before or of the block; a link from a transaction
    to one of these that spends an output of it. *)
Definition known_tx (tx : CTransaction) : Prop := from_pool (n_pool t3) tx \/ tx ∈ vtx.
Definition feeds (h h' : uint256) : Prop := exists tx : CTransaction, known_tx tx /\ tx_hash tx = h' /\ h ∈ (fun i => out_hash (prevout i)) <$> vin tx.

(** Why a transaction may not be in the pool afterwards: it is a coinbase, it
    was refused by [AcceptToMemoryPool] in its turn, or it proves against a best
    anchor that is gone. *)
Definition turned_away (tx : CTransaction) : Prop :=
  (tx ∈ vtx /\ IsCoinBase tx = true)
  \/ (exists pre post x x', vtx = pre ++ tx :: post /\ scheck_loop (resurrect params chainparams env) pre tt t3 = (Pass tt, x)
        /\ accept_again params chainparams env tx x = (Pass false, x'))
  \/ (known_tx tx /\ exists ty, a_bestAnchor a ty <> a_bestAnchor a' ty /\ uses_anchor (a_bestAnchor a ty) ty tx = true).
Definition lost (h : uint256) : Prop := exists tx : CTransaction, turned_away tx /\ rtc feeds (tx_hash tx) h.

(** The pool [p'] after the transactions of the block came back: each of them
    and each that was there is in it, unless it or one it descends from was
    turned away; and nothing else is. *)
Record returned (back : list CTransaction) (p' : CTxMemPool) : Prop := {
  rt_origin : forall h e, mapTx p' !! h = Some e -> known_tx (me_tx e);
  rt_back : forall tx : CTransaction, tx ∈ back -> IsCoinBase tx = false -> is_Some (mapTx p' !! tx_hash tx) \/ lost (tx_hash tx);
  rt_stay : forall h, is_Some (mapTx (n_pool t3) !! h) -> is_Some (mapTx p' !! h) \/ lost h
}.

Lemma next_feeds p h i h' n : pool_core p -> (forall h e, mapTx p !! h = Some e -> known_tx (me_tx e)) ->
  mapNextTx p !! mkCOutPoint h i = Some (h', n) -> feeds h h'.
Proof.
  intros C Hk Hx. apply (pc_next p C) in Hx as (e & He & _ & Hs). exists (me_tx e). split; [by eapply Hk|]. split; [by apply (pc_key p C)|].
  apply fmap_Some in Hs as (inp & Hin & Ho). apply list_elem_of_fmap. exists inp. split; [by rewrite <- Ho|by eapply list_elem_of_lookup_2].
Qed.
Lemma trims_returned back R p p' : trims R p p' -> (forall h, is_Some (mapTx p !! h) -> R h -> lost h) -> returned back p -> returned back p'.
Proof.
  intros T HR [Ho Hb Hs]. assert (Hp : forall h, is_Some (mapTx p !! h) -> is_Some (mapTx p' !! h) \/ lost h).
  { intros h Hh. destruct (mapTx p' !! h) as [e|] eqn:E; [by left; eexists|right]. apply HR; [done|]. by apply (tr_reason _ _ _ T). }
  split.
  - intros h e He. eapply Ho, lookup_weaken; [exact He|apply T].
  - intros tx Htx Hc. destruct (Hb tx Htx Hc); [by apply Hp|by right].
  - intros h Hh. destruct (Hs h Hh); [by apply Hp|by right].
Qed.
Lemma doomed_lost p orig h : pool_core p -> (forall h e, mapTx p !! h = Some e -> known_tx (me_tx e)) -> turned_away orig -> doomed true p orig h -> lost h.
Proof.
  intros C Hk Ht Hd. exists orig. split; [done|]. induction Hd as [|h i h' n _ _ IH _ Hx]; [done|]. eapply rtc_r; [exact IH|]. by eapply next_feeds.
Qed.
Lemma tainted_lost ty p h : pool_core p -> (forall h e, mapTx p !! h = Some e -> known_tx (me_tx e)) -> a_bestAnchor a ty <> a_bestAnchor a' ty ->
  tainted (fun e => uses_anchor (a_bestAnchor a ty) ty (me_tx e)) p h -> lost h.
Proof.
  intros C Hk Hn (h0 & e0 & He & Hu & Hr). exists (me_tx e0). rewrite (pc_key p C _ _ He). split; [right; right; split; [by eapply Hk|by exists ty]|].
  eapply rtc_subrel; [|exact Hr]. intros h1 h2 (e & i & n & _ & _ & Hx). by eapply next_feeds.
Qed.

Lemma resurrect_returned pre (tx : CTransaction) post x x' : vtx = pre ++ tx :: post -> scheck_loop (resurrect params chainparams env) pre tt t3 = (Pass tt, x) ->
  receptive x -> tx_amounts_i64 tx -> returned pre (n_pool x) -> resurrect params chainparams env tt tx x = (Pass tt, x') ->
  receptive x' /\ returned (pre ++ [tx]) (n_pool x').
Proof.
  intros Hv Hpre R Ham Hr E. pose proof R as (Wp & Hi & Hb). destruct (proj1 (resurrect_keeps tt tx x) Hi) as [Hi' Ha']. rewrite E in Hi', Ha'. cbn [snd] in Hi', Ha'.
  assert (Hin : tx ∈ vtx) by (rewrite Hv; apply elem_of_app; right; by left).
  assert (pool_wf (n_pool x') /\ returned (pre ++ [tx]) (n_pool x')) as [? ?]; [|split; [split; [done|]; split; [done|by rewrite (eqv_best _ _ Ha')]|done]].
  assert (Hgone : forall y, n_pool y = n_pool x -> turned_away tx -> on_pool (fun p => r ← remove tx [] true p; Ok (tt, r.1)) y = (Pass tt, x') ->
    pool_wf (n_pool x') /\ returned (pre ++ [tx]) (n_pool x')).
  { intros y Ey Ht Er. rewrite <- Ey in Wp, Hr. apply remove_pool_trims in Er as T; [|done]. split; [apply T|].
    eapply trims_returned; [exact T|intros h _; by apply doomed_lost; [apply Wp|apply Hr|]|]. destruct Hr as [Ho Hk Hs]. split; [done| |done].
    intros tx' [?|Htx']%elem_of_app Hc; [by apply Hk|]. apply list_elem_of_singleton in Htx' as ->. right. by exists tx. }
  unfold resurrect in E. apply scheck_bind_Pass in E as (acc & y & E1 & E). destruct (IsCoinBase tx) eqn:Hcb.
  - injection E1 as <- <-. apply (Hgone x); [done|by left|done].
  - destruct (accept_again_pool _ _ _ _ R Ham E1) as [Wy Hy]. destruct acc.
    + injection E as <-. destruct Hy as (e & He & M). split; [done|]. destruct Hr as [Ho Hk Hs]. split; rewrite M.
      * intros h e' [[<- <-]|[_ Hh]]%lookup_insert_Some; [right; by rewrite He|by eapply Ho].
      * intros tx' [Htx'|Htx']%elem_of_app Hc.
        -- destruct (Hk tx' Htx' Hc); [left; by apply lookup_insert_is_Some'; right|by right].
        -- apply list_elem_of_singleton in Htx' as ->. left. apply lookup_insert_is_Some'. by left.
      * intros h Hh. destruct (Hs h Hh); [left; by apply lookup_insert_is_Some'; right|by right].
    + apply (Hgone y); [done| |done]. right. left. by exists pre, post, x, y.
Qed.
Lemma resurrect_loop_returned post : forall pre x x', vtx = pre ++ post -> scheck_loop (resurrect params chainparams env) pre tt t3 = (Pass tt, x) ->
  Forall (fun tx : CTransaction => tx_amounts_i64 tx) post -> receptive x -> returned pre (n_pool x) ->
  scheck_loop (resurrect params chainparams env) post tt x = (Pass tt, x') -> receptive x' /\ returned vtx (n_pool x').
Proof.
  induction post as [|tx post IH]; intros pre x x' Hv Hpre Ham R Hr E; cbn [scheck_loop] in E.
  - injection E as <-. rewrite Hv, app_nil_r. done.
  - apply Forall_cons in Ham as [Hx Ham]. apply scheck_bind_Pass in E as ([] & y & E1 & E).
    destruct (resurrect_returned pre tx post x y Hv Hpre R Hx Hr E1) as [Ry Hry]. apply (IH (pre ++ [tx]) y); [by rewrite <- app_assoc| |done..].
    rewrite (loop_run _ _ _ _ _ _ _ Hpre). cbn [scheck_loop]. by rewrite (bind_run _ _ _ _ _ E1).
Qed.
Lemma evict_anchor_returned ty s s' : pool_wf (n_pool s) -> returned vtx (n_pool s) -> evict_anchor ty (a_bestAnchor a ty) (a_bestAnchor a' ty) s = (Pass tt, s') ->
  pool_wf (n_pool s') /\ returned vtx (n_pool s').
Proof.
  intros W Hr. unfold evict_anchor. destruct (Z.eqb_spec (a_bestAnchor a ty) (a_bestAnchor a' ty)) as [|Hne]; [by intros [= <-]|]. intros E.
  apply on_pool_Pass in E as (p' & E & ->). apply bind_Ok in E as (p1 & E & [= <-]).
  destruct (remove_selected (fun e => uses_anchor (a_bestAnchor a ty) ty (me_tx e)) (n_pool s) W) as (p2 & E2 & T & _). unfold removeWithAnchor in E. rewrite E in E2. injection E2 as <-.
  split; [apply T|]. eapply trims_returned; [exact T| |done]. intros h _. apply tainted_lost; [apply W|apply Hr|done].
Qed.
Lemma resurrect_block_returned s' : receptive t3 -> Forall (fun tx : CTransaction => tx_amounts_i64 tx) vtx ->
  resurrect_block params chainparams env vtx (a_bestAnchor a SPROUT) (a_bestAnchor a' SPROUT) (a_bestAnchor a SAPLING) (a_bestAnchor a' SAPLING) t3 = (Pass tt, s') ->
  pool_wf (n_pool s') /\ returned vtx (n_pool s').
Proof.
  intros R Ham E. unfold resurrect_block in E. apply scheck_bind_Pass in E as ([] & s1 & E1 & E). apply scheck_bind_Pass in E as ([] & s2 & E2 & E).
  destruct (resurrect_loop_returned vtx [] t3 s1) as [(W1 & _) R1]; [done..| |done|].
  { split; [|by intros tx Htx%not_elem_of_nil|by left]. intros h e He. left. exists e. by rewrite (pc_key _ (pw_core _ (proj1 R)) _ _ He). }
  destruct (evict_anchor_returned SPROUT s1 s2 W1 R1 E2) as [W2 R2]. by apply (evict_anchor_returned SAPLING s2).
Qed.
End Return.

Lemma resurrect_block_errs vtx a b c d : errs (resurrect_block params chainparams env vtx a b c d).
Proof.
  assert (Hl : forall l u, errs (scheck_loop (resurrect params chainparams env) l u)).
  { induction l as [|tx l IH]; intros u; cbn [scheck_loop]; [by intros ? ? ?|]. apply errs_bind; [|intros ?; apply IH].
    apply errs_bind; [destruct (IsCoinBase tx); [by intros ? ? ?|]|intros []; [by intros ? ? ?|apply errs_action]].
    intros s f s'. unfold accept_again. destruct (accept_env _ _); [|done..]. by destruct (AcceptToMemoryPool _ _ _ _ _ _ _ _) as [[] ?]. }
  unfold resurrect_block, evict_anchor. apply errs_bind; [apply Hl|intros _]. apply errs_bind; [|intros _]; (destruct (_ =? _); [by intros ? ? ?|apply errs_action]).
Qed.
Lemma UpdateTip_errs pn : errs (UpdateTip env pn).
Proof. unfold UpdateTip. apply errs_bind; [apply errs_action|intros _]. apply errs_bind; [by intros ? ? ?|intros ?]. apply errs_result. Qed.

Lemma disconnect_rest_coins (again : scheck node unit) (q : uint256) s : keeps_coins again -> tip_ok (n_tip s) ->
  cache_inv (n_tip ((_ ← flush; _ ← again; UpdateTip env (Some q)) s).2) /\ cache_abs (n_tip ((_ ← flush; _ ← again; UpdateTip env (Some q)) s).2) ≡ cache_abs (n_tip s).
Proof.
  intros Ka Hok. destruct (fl_tip _ _ (FlushStateToDisk_flushes env addr usage FLUSH_STATE_IF_NEEDED s) Hok) as [[Hi _] Ha].
  unfold mbind at 1 3, scheck_bind at 1 3. destruct (flush s) as [[[]| | |] s1]; [|done..]. cbn [snd] in Hi, Ha.
  assert (Hk : coins_kept s1 ((_ ← again; UpdateTip env (Some q)) s1).2).
  { unfold mbind, scheck_bind. destruct (Ka s1) as [K _]. destruct (again s1) as [[[]| | |] s2]; [|done..]. etrans; [exact K|apply UpdateTip_keeps]. }
  destruct (Hk Hi) as [Hi' Ha']. split; [done|by etrans].
Qed.
Lemma UpdateTip_total s q bq : state_wf (n_index s) -> mapBlockIndex (n_index s) !! q = Some bq -> exists s', UpdateTip env (Some q) s = (Pass tt, s').
Proof.
  intros W Hq. destruct (SetTip_ok _ (ix_tree _ (sw_index _ W)) (chainActive (n_index s)) q bq (sw_chain _ W) Hq) as (c & E & Hb).
  pose proof (branch_Tip _ _ _ (ix_tree _ (sw_index _ W)) Hb) as Ht. unfold UpdateTip. erewrite bind_run; [|unfold action; by rewrite E].
  erewrite bind_run; [|done]. unfold Tip. cbn. unfold CChain_Tip in *. rewrite Ht. by eexists.
Qed.
Lemma block_txs_amounts block : Forall tx_amounts_i64 (b_vtx block) -> Forall (fun tx : CTransaction => tx_amounts_i64 tx) (block_txs block).
Proof. intros Hf. unfold block_txs. apply Forall_fmap. eapply Forall_impl; [exact Hf|]. done. Qed.

End TipSafety.
