(* ===== verification/Activate.v ===== *)
(** * Activating the best chain

    main.cpp: [ActivateBestChainStep], [ActivateBestChain] and
    [InvalidateBlock], over the tip of Tip.v and the choice of the best chain
    of ChainState.v.

    The loops call code that may itself stop with a failed assertion, so that
    running out of rounds is an outcome of its own: an [lscheck] returns
    [None] then.  Notifications, the interruption of threads and the self-check
    [CheckBlockIndex] are not modelled. *)
From stdpp Require Import prelude gmap strings list.
From S2P Require Import Prelude Transaction Script Interpreter Serialize TxSerialize SigHash Coins History CoinsView CoinsLaws CoinsCache CoinsOps UpdateCoins CoinsSerialize.
From S2P Require Import ArithUint256 Block ChainParams Subsidy Chain Pow Checks CheckTx CheckInputs CheckBlock ChainState AcceptBlock ConnectBlock Double TxMemPool PoolCoins PoolCheck AcceptToPool Tip.
#[local] Open Scope Z_scope.

(** ** Code with loops *)

Definition lscheck (S A : Type) : Type := S -> option (check A * S).
#[global] Instance lscheck_ret {S} : MRet (lscheck S) := fun A a s => Some (Pass a, s).
#[global] Instance lscheck_bind {S} : MBind (lscheck S) := fun A B (k : A -> lscheck S B) (m : lscheck S A) s =>
  match m s with
  | None => None
  | Some (Pass a, s') => k a s'
  | Some (Fail f, s') => Some (Fail f, s')
  | Some (Raise msg, s') => Some (Raise msg, s')
  | Some (Halt, s') => Some (Halt, s')
  end.
(** Code that ends by itself. *)
Definition once {S A} (m : scheck S A) : lscheck S A := fun s => Some (m s).

Definition MAX_REORG_LENGTH : Z := COINBASE_MATURITY - 1.

(** How the loop over the blocks to connect ends: all are connected, the tip
    has more work than before, or a block breaks a rule. *)
Inductive Progress := AllConnected | BetterTip | InvalidFound.

Section Activate.
Context {SpT SaT V : Type} `{!MerkleTree SpT, !MerkleTree SaT, !CCoinsView SpT SaT V}.
Context `{BlockOracle} `{EquihashVerifier} `{SigHashCrypto} `{TxVerifier} `{ScriptCrypto} `{Secp256k1} `{PoolEnv}.
Context (VerifySprout : JSDescription -> bytes -> bool).
Context (net : Network) (params chainparams : CChainParams) (env : TipEnv).
Local Abbreviation tip_t := (CCoinsViewCache SpT SaT V).
Context (addr : uint256 -> Z) (DynamicMemoryUsage : tip_t -> Z).
(** The protection of masternodes that [FindMostWorkChain] reads, and the random
    number of [CTxMemPool::check]. *)
Context (pr : Protection) (rand : Z).
Local Abbreviation node := (Node (SpT := SpT) (SaT := SaT) (V := V)).
Local Abbreviation ibd := (CheckBlock.env_ibd (te_block env)).

(** ** The pool at a new tip *)

(** [chainActive.Tip()->...]. *)
Definition tip_entry (i : ChainState) : result (uint256 * CBlockIndex) :=
  match Tip i with Some t => b ← get_entry i t; Ok (t, b) | None => Abort end.

(** [mempool.removeForReorg(pcoinsTip, chainActive.Tip()->nHeight + 1, STANDARD_LOCKTIME_VERIFY_FLAGS)]. *)
Definition reorg_pool : scheck node unit :=
  action (fun s =>
    let i := n_index s in
    t ← tip_entry i;
    mtp ← GetMedianTimePast (mapBlockIndex i) t.1;
    r ← removeForReorg (n_tip s) (bi_nHeight t.2 + 1) STANDARD_LOCKTIME_VERIFY_FLAGS (CChain_Height (chainActive i)) mtp
          (env_adjusted (te_accept env)) (n_pool s);
    Ok (tt, with_accept r.1 r.2 (n_limiter s) s)).

(** [mempool.removeWithoutBranchId(CurrentEpochBranchId(chainActive.Tip()->nHeight + 1, ...))]. *)
Definition branch_pool : scheck node unit :=
  action (fun s =>
    t ← tip_entry (n_index s);
    id ← CurrentEpochBranchId (bi_nHeight t.2 + 1) (consensus chainparams);
    p ← removeWithoutBranchId id (n_pool s);
    Ok (tt, with_pool p s)).

(** [mempool.check(pcoinsTip)]. *)
Definition check_pool : scheck node unit :=
  action (fun s => c ← CTxMemPool_check rand params (mapBlockIndex (n_index s)) (n_tip s) (n_pool s); Ok (tt, with_tip c s)).

(** ** One step towards the best chain *)

(** [pindexFork] and its height. *)
Definition find_fork (pindexMostWork : uint256) (i : ChainState) : result (option uint256 * Z) :=
  pindexFork ← CChain_FindFork (mapBlockIndex i) (chainActive i) pindexMostWork;
  nHeight ← (match pindexFork with Some q => b ← get_entry i q; Ok (bi_nHeight b) | None => Ok (-1) end);
  Ok (pindexFork, nHeight).

(** A reorganisation that is too long shuts the node down.  The message reads
    the fork point, which may be null. *)
Definition refuse_reorg (pindexFork : option uint256) (nForkHeight : Z) : scheck node unit := fun s =>
  match Tip (n_index s) with
  | None => (Pass tt, s)
  | Some t =>
      match get_entry (n_index s) t with
      | Ok b =>
          if (MAX_REORG_LENGTH <? u32 (bi_nHeight b - nForkHeight)) && ce_IsSynced (te_connect env) then
            match pindexFork with Some _ => (Fail FailPlain, with_shutdown s) | None => (Halt, s) end
          else (Pass tt, s)
      | _ => (Halt, s)
      end
  end.

(** [while (chainActive.Tip() && chainActive.Tip() != pindexFork)]; the result
    is [fBlocksDisconnected]. *)
Fixpoint disconnect_to (fuel : nat) (pindexFork : option uint256) (fBlocksDisconnected : bool) : lscheck node bool := fun s =>
  if bool_decide (Tip (n_index s) = None \/ Tip (n_index s) = pindexFork) then Some (Pass fBlocksDisconnected, s)
  else match fuel with
  | O => None
  | S fuel' => (_ ← once (DisconnectTip params chainparams env addr DynamicMemoryUsage false); disconnect_to fuel' pindexFork true) s
  end.

(** [while (pindexIter && pindexIter->nHeight != nHeight)]: [vpindexToConnect],
    the last block first. *)
Fixpoint blocks_above (fuel : nat) (m : BlockMap) (nHeight : Z) (pindexIter : option uint256) : result (list uint256) :=
  match pindexIter with
  | None => Ok []
  | Some p =>
      b ← deref m p;
      if bi_nHeight b =? nHeight then Ok []
      else match fuel with
      | O => Abort
      | S fuel' => l ← blocks_above fuel' m nHeight (bi_pprev b); Ok (p :: l)
      end
  end.

(** The block comes from the caller or from its file. *)
Definition block_to_connect (pindexMostWork : uint256) (pblock : option CBlock) (p : uint256) : scheck node CBlock :=
  s ← peek;
  b ← lift (of_result (get_entry (n_index s) p));
  match pblock with
  | Some block => if p =? pindexMostWork then mret block else read_block chainparams env p b
  | None => read_block chainparams env p b
  end.

(** [!pindexOldTip || chainActive.Tip()->nChainWork > pindexOldTip->nChainWork]. *)
Definition in_better_position (pindexOldTip : option uint256) (i : ChainState) : result bool :=
  match pindexOldTip with
  | None => Ok true
  | Some o => t ← tip_entry i; b ← get_entry i o; Ok (bu_gt (bi_nChainWork t.2) (bi_nChainWork b))
  end.

(** One block: [back] is the lowest of the blocks that are being connected. *)
Definition connect_result (st : CValidationState) (pindexOldTip : option uint256) (back p : uint256) (block : CBlock) : scheck node Progress := fun s =>
  match ConnectTip VerifySprout net params chainparams env addr DynamicMemoryUsage st p block s with
  | (Pass _, s1) =>
      (_ ← action (fun s => i ← PruneBlockIndexCandidates addr (n_index s); Ok (tt, with_chainstate i (n_warnings s) s));
       s ← peek;
       better ← lift (of_result (in_better_position pindexOldTip (n_index s)));
       mret (if better : bool then BetterTip else AllConnected)) s1
  | (Fail f, s1) =>
      let st' := apply_failure f st in
      if IsInvalid st' then
        (_ ← (if corruptionPossible st' then mret tt
              else action (fun s => r ← InvalidChainFound ibd back (n_index s) (n_warnings s); Ok (tt, with_chainstate r.1 r.2 s)));
         mret InvalidFound) s1
      else (Fail f, s1)
  | (Raise msg, s1) => (Raise msg, s1)
  | (Halt, s1) => (Halt, s1)
  end.
Definition connect_one (st : CValidationState) (pindexMostWork : uint256) (pblock : option CBlock) (pindexOldTip : option uint256)
  (back p : uint256) : scheck node Progress :=
  block ← block_to_connect pindexMostWork pblock p;
  connect_result st pindexOldTip back p block.

Fixpoint connect_each (st : CValidationState) (pindexMostWork : uint256) (pblock : option CBlock) (pindexOldTip : option uint256)
  (back : uint256) (l : list uint256) : scheck node Progress :=
  match l with
  | [] => mret AllConnected
  | p :: l' =>
      r ← connect_one st pindexMostWork pblock pindexOldTip back p;
      match r with
      | AllConnected => connect_each st pindexMostWork pblock pindexOldTip back l'
      | _ => mret r
      end
  end.

(** [while (fContinue && nHeight != pindexMostWork->nHeight)]: at most 32
    blocks at a time.  The result is [fInvalidFound] with the last member of
    [vpindexToConnect]. *)
Fixpoint connect_toward (fuel : nat) (st : CValidationState) (pindexMostWork : uint256) (pblock : option CBlock) (pindexOldTip : option uint256)
  (nHeight : Z) : lscheck node (option uint256) := fun s =>
  match get_entry (n_index s) pindexMostWork with
  | Ok b =>
      if nHeight =? bi_nHeight b then Some (Pass None, s)
      else match fuel with
      | O => None
      | S fuel' =>
          let nTargetHeight := Z.min (nHeight + 32) (bi_nHeight b) in
          (vpindexToConnect ← once (lift (of_result (
             a ← GetAncestor (mapBlockIndex (n_index s)) pindexMostWork nTargetHeight;
             blocks_above (Z.to_nat (nTargetHeight - nHeight)) (mapBlockIndex (n_index s)) nHeight a)));
           let back := default uint256_null (last vpindexToConnect) in
           r ← once (connect_each st pindexMostWork pblock pindexOldTip back (reverse vpindexToConnect));
           match r with
           | AllConnected => connect_toward fuel' st pindexMostWork pblock pindexOldTip nTargetHeight
           | BetterTip => mret None
           | InvalidFound => mret (Some back)
           end) s
      end
  | _ => Some (Halt, s)
  end.

(** The pool and the warnings at the new tip. *)
Definition after_step (fBlocksDisconnected : bool) (invalid : option uint256) : scheck node unit :=
  _ ← (if fBlocksDisconnected then reorg_pool else mret tt);
  _ ← branch_pool;
  _ ← check_pool;
  action (fun s =>
    w ← (match invalid with
         | Some back => CheckForkWarningConditionsOnNewFork ibd back (n_index s) (n_warnings s)
         | None => CheckForkWarningConditions ibd (n_index s) (n_warnings s)
         end);
    Ok (tt, with_chainstate (n_index s) w s)).

(** The result is [fInvalidFound]. *)
Definition ActivateBestChainStep (st : CValidationState) (pindexMostWork : uint256) (pblock : option CBlock) : lscheck node bool :=
  s ← once peek;
  let pindexOldTip := Tip (n_index s) in
  fork ← once (lift (of_result (find_fork pindexMostWork (n_index s))));
  b ← once (lift (of_result (get_entry (n_index s) pindexMostWork)));
  _ ← once (refuse_reorg fork.1 fork.2);
  fBlocksDisconnected ← disconnect_to (length (chainActive (n_index s))) fork.1 false;
  invalid ← connect_toward (Z.to_nat (bi_nHeight b - fork.2)) st pindexMostWork pblock pindexOldTip fork.2;
  _ ← once (after_step fBlocksDisconnected invalid);
  mret (bool_decide (is_Some invalid)).

(** ** All steps *)

(** The body of [do ... while (pindexMostWork != chainActive.Tip())].  The result
    tells whether there was nothing to do, in which case the function returns
    at once. *)
Fixpoint activate_rounds (fuel : nat) (st : CValidationState) (pblock : option CBlock) : lscheck node bool :=
  match fuel with
  | O => fun _ => None
  | S fuel' =>
      mw ← once (action (fun s => r ← FindMostWorkChain addr pr (n_index s); Ok (r.1, with_chainstate r.2 (n_warnings s) s)));
      s ← once peek;
      match mw with
      | None => mret true
      | Some p =>
          if bool_decide (Tip (n_index s) = Some p) then mret true
          else
            fInvalidFound ← ActivateBestChainStep st p
              (match pblock with Some block => if hash_header (b_header block) =? p then Some block else None | None => None end);
            s ← once peek;
            if bool_decide (Tip (n_index s) = (if fInvalidFound : bool then None else Some p)) then mret false
            else activate_rounds fuel' (if fInvalidFound : bool then CValidationState_new else st) pblock
      end
  end.
Definition ActivateBestChain (fuel : nat) (st : CValidationState) (pblock : option CBlock) : lscheck node unit :=
  done ← activate_rounds fuel st pblock;
  if done : bool then mret tt else once (FlushStateToDisk env addr DynamicMemoryUsage FLUSH_STATE_PERIODIC).

(** ** Invalidating a block *)

(** [nStatus |= mask], dirty, and no candidate. *)
Definition mark_failed (mask : Z) (p : uint256) : scheck node unit :=
  action (fun s =>
    i ← add_status mask p (n_index s);
    Ok (tt, with_chainstate (with_candidates (fun c => c ∖ {[p]}) (with_dirty p i)) (n_warnings s) s)).

(** A failed [DisconnectTip] still leaves the pool to be cleaned. *)
Definition disconnect_away : scheck node unit := fun s =>
  match DisconnectTip params chainparams env addr DynamicMemoryUsage false s with
  | (Fail f, s1) => (_ ← reorg_pool; _ ← branch_pool; lift (Fail f)) s1
  | x => x
  end.

(** [while (chainActive.Contains(pindex))]. *)
Fixpoint invalidate_loop (fuel : nat) (pindex : uint256) : lscheck node unit := fun s =>
  match CChain_Contains (mapBlockIndex (n_index s)) (chainActive (n_index s)) pindex with
  | Ok false => Some (Pass tt, s)
  | Ok true =>
      match fuel with
      | O => None
      | S fuel' =>
          (t ← once (lift (of_result (tip_entry (n_index s))));
           _ ← once (mark_failed BLOCK_FAILED_CHILD t.1);
           _ ← once disconnect_away;
           invalidate_loop fuel' pindex) s
      end
  | _ => Some (Halt, s)
  end.

(** The new tip and what is not worse become candidates again. *)
Definition readd_step (i : ChainState) (it : uint256) : result ChainState :=
  b ← get_entry i it;
  valid ← CBlockIndex_IsValid b BLOCK_VALID_TRANSACTIONS;
  if valid && negb (bi_nChainTx b =? 0) then
    worse ← (match Tip i with Some t => value_comp addr (mapBlockIndex i) it t | None => Abort end);
    Ok (if worse : bool then i else with_candidates ({[it]} ∪.) i)
  else Ok i.

Definition InvalidateBlock (pindex : uint256) : lscheck node unit :=
  _ ← once (mark_failed BLOCK_FAILED_VALID pindex);
  s ← once peek;
  _ ← invalidate_loop (length (chainActive (n_index s))) pindex;
  _ ← once (action (fun s => i ← foldM readd_step (map_to_list (mapBlockIndex (n_index s))).*1 (n_index s); Ok (tt, with_chainstate i (n_warnings s) s)));
  _ ← once (action (fun s => r ← InvalidChainFound ibd pindex (n_index s) (n_warnings s); Ok (tt, with_chainstate r.1 r.2 s)));
  _ ← once reorg_pool;
  once branch_pool.
End Activate.
