(* ===== verification/ActivateLaws.v ===== *)
(** * The block index and the tip under activation

    What connecting and disconnecting do to the block index and the active
    chain, whatever the coins: entries keep their place, work and marks
    ([grown]), a connected block becomes the tip, a disconnected one leaves its
    predecessor.  From this the loops of Activate.v end, and their results are
    those of a step towards the best chain. *)
From stdpp Require Import prelude gmap strings list.
From S2P Require Import Prelude Transaction Script Interpreter Serialize TxSerialize SigHash Coins History CoinsView CoinsLaws CoinsCache CoinsOps UpdateCoins CoinsSerialize.
From S2P Require Import ArithUint256 Block ChainParams Subsidy Chain Pow Checks CheckTx CheckInputs CheckBlock ChainState ChainShape BestChain ChainSteps AcceptBlock ConnectBlock ConnectFails Double TxMemPool PoolLaws PoolCoins AcceptToPool AcceptLaws AcceptSafety Tip TipLaws TipSafety Activate.
#[local] Open Scope Z_scope.

Section ActivateLaws.
Context {SpT SaT V : Type} `{!MerkleTree SpT, !MerkleTree SaT, !CCoinsView SpT SaT V}.
Context `{!CCoinsViewLaws SpT SaT V}.
Context `{BlockOracle} `{EquihashVerifier} `{SigHashCrypto} `{TxVerifier} `{ScriptCrypto} `{Secp256k1} `{PoolEnv} `{!PoolEnvLaws}.
Context (VerifySprout : JSDescription -> bytes -> bool).
Context (net : Network) (params chainparams : CChainParams) (env : TipEnv).
Local Abbreviation tip_t := (CCoinsViewCache SpT SaT V).
Context (addr : uint256 -> Z) (usage : tip_t -> Z) (pr : Protection) (rand : Z).
Local Abbreviation node := (Node (SpT := SpT) (SaT := SaT) (V := V)).
Implicit Types s : node.
Local Abbreviation ConnectTip := (ConnectTip VerifySprout net params chainparams env addr usage).
Local Abbreviation DisconnectTip := (DisconnectTip params chainparams env addr usage).

(** ** What grows *)

Definition grows {A} (m : scheck node A) : Prop := forall s, grown (n_index s) (n_index (m s).2).
Lemma grown_bind {A B} (m : scheck node A) (k : A -> scheck node B) s : grown (n_index s) (n_index (m s).2) ->
  (forall a s', m s = (Pass a, s') -> grown (n_index s') (n_index (k a s').2)) -> grown (n_index s) (n_index ((m ≫= k) s).2).
Proof.
  intros Hm Hk. unfold mbind, scheck_bind. destruct (m s) as [[a|f|msg|] s1]; [|done..]. etrans; [exact Hm|by apply Hk].
Qed.
Lemma grows_lift {A} (r : check A) : grows (lift r).
Proof. by intros s. Qed.
Lemma grows_action {A} (f : node -> result (A * node)) : (forall s a s', f s = Ok (a, s') -> grown (n_index s) (n_index s')) -> grows (action f).
Proof. intros Hf s. unfold action. destruct (f s) as [[a s']| |] eqn:E; [by eapply Hf|done..]. Qed.
Lemma grows_pool {A} (f : CTxMemPool -> result (A * CTxMemPool)) : grows (on_pool f).
Proof. apply grows_action. intros s a s' E. apply bind_Ok in E as (r & _ & [= _ <-]). done. Qed.
Lemma flush_grows mode : grows (FlushStateToDisk env addr usage mode).
Proof. intros s. apply FlushStateToDisk_flushes. Qed.
Lemma UpdateTip_grows pn : grows (UpdateTip env pn).
Proof.
  intros s. unfold UpdateTip. apply grown_bind; [|done]. revert s. apply grows_action. intros s a s' E. apply bind_Ok in E as (c & E & [= _ <-]). by apply (SetTip_grown _ pn).
Qed.

Lemma kept_grown s p b block : mapBlockIndex (n_index s) !! p = Some b ->
  grown (n_index s) (n_index (connect_kept p (connect_block VerifySprout net params chainparams env s p b block).2 s)).
Proof.
  intros Hp. unfold connect_kept. cbn [n_index]. set (c := (connect_block _ _ _ _ _ s p b block).2).
  assert (G : grown (n_index s) (set_entry p (cn_pindex c) (n_index s))).
  { apply (grown_set _ p b); [done|]. apply (ConnectBlock_entry VerifySprout net params chainparams (env_at (te_block env) (n_index s)) (te_connect env) block (Some p) false (connecting s b)). }
  destruct (cn_dirty c); [|done]. etrans; [exact G|]. apply grown_map; [done|apply state_wf_dirty].
Qed.
Lemma connect_view_grows st p b block s : mapBlockIndex (n_index s) !! p = Some b ->
  grown (n_index s) (n_index (connect_view VerifySprout net params chainparams env st p b block s).2).
Proof.
  intros Hp. pose proof (kept_grown s p b block Hp) as G. unfold connect_view. fold (connecting s b). fold (connect_block VerifySprout net params chainparams env s p b block).
  destruct (connect_block _ _ _ _ _ s p b block) as [[[]|f|msg|] c]; cbn [snd] in *; [|..|done|done].
  - by destruct (Cache_Flush (cn_view c)) as [[[] view]|msg|].
  - unfold connect_failed. destruct (IsInvalid _); [|by destruct f]. destruct (InvalidBlockFound _ _ _ _ _) as [[i w]| |] eqn:Ei; [|done..].
    apply InvalidBlockFound_grown in Ei as [Gi _]. cbn [mbind result_bind]. etrans; [exact G|]. by destruct f.
Qed.
Lemma ConnectTip_grows st p block : grows (ConnectTip st p block).
Proof.
  intros s. unfold Tip.ConnectTip. apply grown_bind; [done|]. intros s0 s1 [= <- <-]. apply grown_bind; [done|]. intros b s1 E. apply lift_Pass in E as [E ->].
  apply of_result_Pass, get_entry_Ok in E. apply grown_bind; [done|]. intros [] s1 E1. apply lift_Pass in E1 as [_ ->].
  apply grown_bind; [by apply connect_view_grows|]. intros [] s1 _. apply grown_bind; [apply flush_grows|]. intros [] s2 _.
  apply grown_bind; [apply grows_pool|]. intros conf s3 _. apply grown_bind; [apply grows_pool|]. intros ids s4 _.
  apply grown_bind; [apply UpdateTip_grows|]. intros [] s5 _. unfold poke, EnforceNodeDeprecation. cbn [snd]. by destruct (_ && _).
Qed.

Lemma disconnect_view_index p b vtx s : n_index (disconnect_view chainparams env p b vtx s).2 = n_index s.
Proof.
  unfold disconnect_view. destruct (prev_info _ _); [|done..]. destruct (DisconnectBlock _ _ _ _ _ _ _ _ _ _ _ _) as [out| |]; [|done..].
  destruct (do_ret out); [|by destruct (do_error out)]. by destruct (Cache_Flush _) as [[[] ?]| |].
Qed.

(** The blocks that [DisconnectTip] takes from the chain. *)
Lemma DisconnectTip_grows fBare : grows (DisconnectTip fBare).
Proof.
  intros s. unfold Tip.DisconnectTip. apply grown_bind; [done|]. intros s0 s1 [= <- <-]. apply grown_bind; [done|]. intros p s1 E. apply lift_Pass in E as [_ ->].
  apply grown_bind; [done|]. intros b s1 E. apply lift_Pass in E as [_ ->].
  apply grown_bind; [unfold read_block, mbind, scheck_bind, lift; by destruct (of_result _) as [[]| | |]|]. intros block s1 _.
  apply grown_bind; [by rewrite (proj2 (anchor_keeps SPROUT s1))|]. intros sp s2 _. apply grown_bind; [by rewrite (proj2 (anchor_keeps SAPLING s2))|]. intros sa s3 _.
  apply grown_bind; [by rewrite disconnect_view_index|]. intros [] s4 _.
  apply grown_bind; [by rewrite (proj2 (anchor_keeps SPROUT s4))|]. intros sp' s5 _. apply grown_bind; [by rewrite (proj2 (anchor_keeps SAPLING s5))|]. intros sa' s6 _.
  apply grown_bind; [apply flush_grows|]. intros [] s7 _. apply grown_bind; [|intros [] s8 _; apply UpdateTip_grows].
  destruct fBare; [done|]. by rewrite (proj2 (resurrect_block_keeps params chainparams env _ _ _ _ _ s7)).
Qed.
Lemma index_of {A} (m : scheck node A) s a s' : n_index (m s).2 = n_index s -> m s = (Pass a, s') -> n_index s' = n_index s.
Proof. intros Hm E. by rewrite E in Hm. Qed.
Lemma DisconnectTip_Pass fBare s s' : DisconnectTip fBare s = (Pass tt, s') -> exists t b i c,
  Tip (n_index s) = Some t /\ mapBlockIndex (n_index s) !! t = Some b /\ grown (n_index s) i /\ chainActive i = chainActive (n_index s)
  /\ CChain_SetTip (mapBlockIndex i) (chainActive i) (bi_pprev b) = Ok c /\ n_index s' = with_chain c i /\ CChain_Tip c <> None.
Proof.
  unfold Tip.DisconnectTip. intros E. apply scheck_bind_Pass in E as (s0 & s1 & [= <- <-] & E). apply scheck_bind_Pass in E as (t & s1 & E1 & E).
  apply lift_Pass in E1 as [E1 ->]. destruct (Tip (n_index s)) as [t'|] eqn:Et; [|done]. injection E1 as ->. apply scheck_bind_Pass in E as (b & s1 & E1 & E).
  apply lift_Pass in E1 as [E1 ->]. apply of_result_Pass, get_entry_Ok in E1. apply scheck_bind_Pass in E as (block & s1 & E2 & E).
  assert (s1 = s) as -> by (unfold read_block in E2; apply scheck_bind_Pass in E2 as ([bl|] & x & E2 & E3); [|done]; apply lift_Pass in E2 as [_ ->]; by injection E3 as _ <-).
  apply scheck_bind_Pass in E as (x1 & s2 & F1 & E). apply (index_of _ _ _ _ (proj2 (anchor_keeps SPROUT _))) in F1.
  apply scheck_bind_Pass in E as (x2 & s3 & F2 & E). apply (index_of _ _ _ _ (proj2 (anchor_keeps SAPLING _))) in F2.
  apply scheck_bind_Pass in E as ([] & s4 & F3 & E). apply (index_of _ _ _ _ (disconnect_view_index _ _ _ _)) in F3.
  apply scheck_bind_Pass in E as (x3 & s5 & F4 & E). apply (index_of _ _ _ _ (proj2 (anchor_keeps SPROUT _))) in F4.
  apply scheck_bind_Pass in E as (x4 & s6 & F5 & E). apply (index_of _ _ _ _ (proj2 (anchor_keeps SAPLING _))) in F5.
  apply scheck_bind_Pass in E as ([] & s7 & F6 & E). apply scheck_bind_Pass in E as ([] & s8 & F7 & E).
  assert (F8 : n_index s8 = n_index s7).
  { destruct fBare; [by injection F7 as <-|]. by apply (index_of _ _ _ _ (proj2 (resurrect_block_keeps params chainparams env _ _ _ _ _ _))) in F7. }
  apply UpdateTip_Pass in E as (c & x & Ec & Ex & Hx & _). pose proof (FlushStateToDisk_flushes env addr usage FLUSH_STATE_IF_NEEDED s6) as F. rewrite F6 in F.
  destruct F as [_ _ _ F9 F10 _]. cbn [snd] in *. assert (E6 : n_index s6 = n_index s) by congruence. rewrite E6 in *. rewrite F8 in *.
  exists t, b, (n_index s7), c. by rewrite Ex.
Qed.

(** ** Disconnecting to the fork *)

Lemma tip_branch i t : state_wf i -> Tip i = Some t -> is_branch (mapBlockIndex i) (chainActive i) t.
Proof.
  intros W Ht. unfold Tip in Ht. destruct (sw_chain i W) as [E|[p Hp]]; [by rewrite E in Ht|].
  rewrite (branch_Tip _ _ p (ix_tree _ (sw_index i W)) Hp) in Ht. by injection Ht as <-.
Qed.
Lemma no_tip i : state_wf i -> Tip i = None -> chainActive i = [].
Proof. intros W Ht. destruct (sw_chain i W) as [E|[p Hp]]; [done|]. unfold Tip in Ht. by rewrite (branch_Tip _ _ p (ix_tree _ (sw_index i W)) Hp) in Ht. Qed.

Lemma DisconnectTip_shorter fBare s s' : state_wf (n_index s) -> DisconnectTip fBare s = (Pass tt, s') ->
  is_Some (Tip (n_index s')) /\ length (chainActive (n_index s)) = S (length (chainActive (n_index s'))).
Proof.
  intros W E. apply DisconnectTip_Pass in E as (t & b & i & c & Ht & Hb & G & Hc & Ec & -> & Hn). pose proof (gr_wf _ _ G W) as Wi.
  split; [destruct (CChain_Tip c) as [x|] eqn:E; [by exists x|done]|]. destruct (tip_branch _ _ W Ht) as (b' & Hb' & Hl & _). rewrite Hb in Hb'. injection Hb' as <-.
  destruct (bi_pprev b) as [q|] eqn:Hq; [|by injection Ec as <-]. pose proof (tw_prev _ (ix_tree _ (sw_index _ W)) _ _ Hb) as Hp. rewrite Hq in Hp. destruct Hp as (bq & Hbq & Hh).
  destruct (grown_at _ _ _ _ G Hbq) as (bq' & Hbq' & [(Hpl & _) _]). apply place_eq in Hpl as (_ & _ & Hh').
  destruct (SetTip_ok _ (ix_tree _ (sw_index _ Wi)) (chainActive i) q bq' (sw_chain _ Wi) Hbq') as (c' & Ec' & (b2 & Hb2 & Hl2 & _)). rewrite Ec in Ec'. injection Ec' as <-.
  rewrite Hbq' in Hb2. injection Hb2 as <-. cbn [chainActive with_chain]. lia.
Qed.

Lemma lbind_Some {A B} (m : lscheck node A) (k : A -> lscheck node B) s r s' : m s = Some (r, s') ->
  (m ≫= k) s = match r with Pass a => k a s' | Fail f => Some (Fail f, s') | Raise msg => Some (Raise msg, s') | Halt => Some (Halt, s') end.
Proof. intros E. unfold mbind, lscheck_bind. rewrite E. by destruct r. Qed.

Local Abbreviation disconnect_to := (disconnect_to params chainparams env addr usage).
Lemma disconnect_to_ok fork : forall fuel d s, state_wf (n_index s) -> (length (chainActive (n_index s)) <= fuel)%nat ->
  exists r s', disconnect_to fuel fork d s = Some (r, s') /\ grown (n_index s) (n_index s')
  /\ forall d', r = Pass d' -> Tip (n_index s') = fork \/ (Tip (n_index s) = None /\ s' = s).
Proof.
  induction fuel as [|fuel IH]; intros d s W Hl; cbn [Activate.disconnect_to]; (case_bool_decide as Hd; [eexists _, _; split; [done|]; split; [done|]; intros; destruct Hd; auto|]).
  - destruct Hd. left. unfold Tip, CChain_Tip. destruct (chainActive (n_index s)); [done|cbn in Hl; lia].
  - pose proof (DisconnectTip_grows false s) as G. destruct (DisconnectTip false s) as [r1 s1] eqn:E1. cbn [snd] in G. rewrite (lbind_Some _ _ s r1 s1) by (unfold once; by rewrite E1).
    destruct r1 as [[]|f|msg|]; [|by eexists _, _..]. destruct (DisconnectTip_shorter false s s1 W E1) as [[t Ht] Hlen].
    destruct (IH true s1) as (r & s' & E & G' & Hr); [by apply (gr_wf _ _ G)|lia|]. exists r, s'. split; [done|]. split; [by etrans|].
    intros d' Er. destruct (Hr d' Er) as [?|[? _]]; [by left|congruence].
Qed.

(** ** Connecting towards the best chain *)

Lemma failed_valid b : has_status (bi_nStatus b) BLOCK_FAILED_VALID = true -> failed b.
Proof.
  unfold failed, has_status. rewrite !negb_true_iff, !Z.eqb_neq. intros Hn E. apply Hn. replace BLOCK_FAILED_VALID with (Z.land BLOCK_FAILED_MASK BLOCK_FAILED_VALID) by done.
  by rewrite Z.land_assoc, E.
Qed.

(** An intact block is rejected for good. *)
Lemma ConnectTip_plain st p block s f s' : intact block -> ConnectTip st p block s = (Fail f, s') -> plain f.
Proof.
  intros Hb E. apply ConnectTip_Fail in E as [(b & _ & E)|[msg ->]]; [|done]. apply (connect_view_run VerifySprout net params chainparams env addr) in E.
  destruct (connect_block _ _ _ _ _ s p b block) as [r c] eqn:Ec. unfold connect_block in Ec. destruct r as [u|g|msg|].
  - by destruct E as [(view & _ & ? & _)|[_ Hn]]; [|destruct (Hn f)].
  - destruct E as [[[= ->] _]|?]; [|done]. exact (ConnectBlock_plain VerifySprout net params chainparams _ _ block (Some p) Hb _ _ _ Ec).
  - by destruct E as [_ Hn]; destruct (Hn f).
  - by destruct E as [_ Hn]; destruct (Hn f).
Qed.

Definition marked (i : ChainState) (p : uint256) : Prop := exists b, mapBlockIndex i !! p = Some b /\ failed b.
Lemma marked_grown i i' p : grown i i' -> marked i p -> marked i' p.
Proof. intros G (b & Hb & Hf). destruct (grown_at _ _ _ _ G Hb) as (b' & Hb' & Hg). exists b'. split; [done|]. by apply Hg. Qed.

(** [t] has more work than the entry [o]. *)
Definition more_work_than (i : ChainState) (o : option uint256) (t : uint256) : Prop :=
  forall p, o = Some p -> exists bp bt, mapBlockIndex i !! p = Some bp /\ mapBlockIndex i !! t = Some bt /\ val (bi_nChainWork bp) < val (bi_nChainWork bt).
Lemma more_work_back i i' o t : grown i i' -> more_work_than i' o t -> more_work_than i o t.
Proof.
  intros [G _] Hm p Hp. destruct (Hm p Hp) as (bp & bt & Hbp & Hbt & Hlt). pose proof (G p) as Gp. pose proof (G t) as Gt. rewrite Hbp in Gp. rewrite Hbt in Gt.
  destruct (mapBlockIndex i !! p) as [bp0|], (mapBlockIndex i !! t) as [bt0|]; try done. destruct Gp as [(_ & Ep & _) _]. destruct Gt as [(_ & Et & _) _].
  exists bp0, bt0. split; [done|]. split; [done|]. by rewrite <- Ep, <- Et.
Qed.

Lemma ConnectTip_tip st p block s s' : state_wf (n_index s) -> ConnectTip st p block s = (Pass tt, s') -> Tip (n_index s') = Some p.
Proof.
  intros W E. apply ConnectTip_Pass in E as (b & c & view & s2 & p1 & conf & ids & p2 & ch & t & Hb & _ & Ec & _ & Efl & _ & _ & Ech & _ & Hx & _).
  pose proof (kept_grown s p b block Hb) as G. rewrite Ec in G. cbn [snd] in G. pose proof (flush_grows FLUSH_STATE_IF_NEEDED (with_tip (base view) (connect_kept p c s))) as G2.
  rewrite Efl in G2. rewrite Hx. apply (SetTip_Tip (n_index s2)); [|done]. apply (gr_wf _ _ G2). cbn. by apply (gr_wf _ _ G).
Qed.

Lemma connect_result_ok st old back p block s r s' : state_wf (n_index s) -> vs_mode st = MODE_VALID -> intact block ->
  connect_result VerifySprout net params chainparams env addr usage st old back p block s = (r, s') ->
  grown (n_index s) (n_index s')
  /\ match r with
     | Pass InvalidFound => marked (n_index s') p /\ Tip (n_index s') <> None
     | Pass BetterTip => Tip (n_index s') = Some p /\ more_work_than (n_index s') old p
     | Pass AllConnected => Tip (n_index s') = Some p
     | _ => True
     end.
Proof.
  intros W Hst Hbl. unfold connect_result. pose proof (ConnectTip_grows st p block s) as G. destruct (ConnectTip st p block s) as [[[]|f|msg|] s1] eqn:E; cbn [snd] in G.
  - pose proof (ConnectTip_tip _ _ _ _ _ W E) as Ht. unfold mbind at 1, scheck_bind at 1, action. destruct (PruneBlockIndexCandidates addr (n_index s1)) as [i| |] eqn:Ei; [|by intros [= <- <-]..].
    apply PruneBlockIndexCandidates_grown in Ei as [Gi Hc]. cbn [mbind result_bind scheck_bind peek lift].
    assert (Ht' : Tip i = Some p) by (unfold Tip; by rewrite Hc). pose proof (gr_wf _ _ Gi (gr_wf _ _ G W)) as Wi.
    unfold mbind, scheck_bind, peek, lift. cbn [n_index with_chainstate]. destruct (in_better_position old i) as [better| |] eqn:Eb; intros [= <- <-]; cbn [n_index with_chainstate]; (split; [by etrans|]); [|done..].
    destruct better; [|done]. split; [done|]. intros o ->. cbn in Eb. unfold tip_entry in Eb. rewrite Ht' in Eb.
    apply bind_Ok in Eb as ([t bt] & Et & Eb). apply bind_Ok in Et as (bt' & Ebt & [= <- <-]). apply bind_Ok in Eb as (bo & Ebo & [= Hgt]). cbn [snd] in Hgt.
    apply get_entry_Ok in Ebt, Ebo. exists bo, bt'. split; [done|]. split; [done|].
    pose proof (ix_work _ (sw_index _ Wi) _ _ Ebt) as W1. pose proof (ix_work _ (sw_index _ Wi) _ _ Ebo) as W2. rewrite (gt_spec _ _ W1 W2) in Hgt. zbool. lia.
  - destruct (IsInvalid (apply_failure f st)) eqn:Ev; [|by intros [= <- <-]].
    assert (exists level code reason corr, f = FailDoS level code reason corr /\ corruptionPossible (apply_failure f st) = corr) as (level & code & reason & corr & -> & Hcor).
    { destruct f as [level code reason corr|reason|]; cbn in Ev |- *; [exists level, code, reason, corr; split; [done|]; unfold DoS; by rewrite decide_False by (by rewrite Hst)|exfalso..].
      - unfold IsInvalid in Ev. by case_bool_decide.
      - unfold IsInvalid in Ev. rewrite Hst in Ev. by case_bool_decide. }
    rewrite Hcor. pose proof (ConnectTip_plain _ _ _ _ _ _ Hbl E) as Hpl. cbn in Hpl. subst corr.
    apply ConnectTip_invalid in E as (b & st' & i & w & Hb & Hc & Ei & ->); [|by rewrite Hst].
    destruct (InvalidBlockFound_marks _ _ _ _ _ _ _ Hc Ei) as (_ & _ & b' & Hb' & Hf). cbn [n_index with_chainstate] in *.
    assert (M : marked i p) by (exists b'; split; [done|by apply failed_valid]).
    unfold mbind, scheck_bind, action. cbn [n_index n_warnings with_chainstate]. destruct (InvalidChainFound _ back i _) as [[i2 w2]| |] eqn:E2; intros [= <- <-]; [|done..].
    cbn [n_index with_chainstate fst snd]. apply InvalidChainFound_grown in E2 as (G2 & _ & Ht). split; [by etrans|]. split; [by eapply marked_grown|done].
  - by intros [= <- <-].
  - by intros [= <- <-].
Qed.

(** The block that the caller gives and the blocks of the files are intact. *)
Definition all_intact (pblock : option CBlock) : Prop :=
  (forall block, pblock = Some block -> intact block) /\ forall p b block, ReadBlockFromDisk chainparams env p b = Ok (Some block) -> intact block.
Lemma read_block_intact p b s block s' pblock : all_intact pblock -> read_block chainparams env p b s = (Pass block, s') -> intact block.
Proof.
  intros [_ Hd] E. unfold read_block in E. apply scheck_bind_Pass in E as ([bl|] & s1 & E1 & E); [|done]. injection E as <- <-.
  apply lift_Pass in E1 as [E1 _]. apply of_result_Pass in E1. by eapply Hd.
Qed.
Lemma block_to_connect_intact mw pblock p s block s' : all_intact pblock -> block_to_connect chainparams env mw pblock p s = (Pass block, s') -> intact block.
Proof.
  intros Ha E. unfold block_to_connect in E. apply scheck_bind_Pass in E as (s0 & s1 & [= <- <-] & E). apply scheck_bind_Pass in E as (b & s1 & _ & E).
  destruct pblock as [bl|]; [destruct (p =? mw)|]; [|by eapply read_block_intact..]. injection E as -> _. by apply Ha.
Qed.
Lemma block_to_connect_index mw pblock p s : n_index (block_to_connect chainparams env mw pblock p s).2 = n_index s.
Proof.
  unfold block_to_connect, mbind, scheck_bind, peek, lift. destruct (get_entry (n_index s) p) as [b| |]; [|done..]. cbn [of_result].
  assert (Hr : n_index (read_block chainparams env p b s).2 = n_index s).
  { unfold read_block, mbind, scheck_bind, lift. by destruct (of_result _) as [[]| | |]. }
  destruct pblock as [bl|]; [by destruct (p =? mw)|done].
Qed.

(** What one block, and the blocks of a batch, lead to. *)
Definition outcome (old : option uint256) (l : list uint256) (r : check Progress) (i : ChainState) : Prop :=
  match r with
  | Pass InvalidFound => exists p, p ∈ l /\ marked i p /\ Tip i <> None
  | Pass BetterTip => exists p, p ∈ l /\ Tip i = Some p /\ more_work_than i old p
  | Pass AllConnected => match last l with Some p => Tip i = Some p | None => True end
  | _ => True
  end.
Local Abbreviation connect_one := (connect_one VerifySprout net params chainparams env addr usage).
Local Abbreviation connect_each := (connect_each VerifySprout net params chainparams env addr usage).
Lemma connect_one_ok st mw pblock old back p s r s' : state_wf (n_index s) -> vs_mode st = MODE_VALID -> all_intact pblock -> connect_one st mw pblock old back p s = (r, s') ->
  grown (n_index s) (n_index s') /\ outcome old [p] r (n_index s').
Proof.
  intros W Hst Ha. unfold Activate.connect_one, mbind, scheck_bind. pose proof (block_to_connect_index mw pblock p s) as Hx. pose proof (fun block s1 => block_to_connect_intact mw pblock p s block s1 Ha) as Hbl.
  destruct (block_to_connect chainparams env mw pblock p s) as [[block|f|msg|] s1]; cbn [snd] in Hx; [|intros [= <- <-]; by rewrite Hx..].
  intros E. apply connect_result_ok in E as [G Ho]; [|by rewrite Hx|done|by eapply Hbl]. rewrite Hx in G. split; [done|].
  destruct r as [[]| | |]; cbn; [done|exists p; set_solver..|done|done|done].
Qed.
Lemma connect_each_ok st mw pblock old back l : vs_mode st = MODE_VALID -> all_intact pblock -> forall s r s', state_wf (n_index s) -> connect_each st mw pblock old back l s = (r, s') ->
  grown (n_index s) (n_index s') /\ outcome old l r (n_index s').
Proof.
  intros Hst Ha. induction l as [|p l IH]; intros s r s' W; cbn [Activate.connect_each]; [by intros [= <- <-]|]. unfold mbind, scheck_bind.
  destruct (connect_one st mw pblock old back p s) as [r1 s1] eqn:E1. apply connect_one_ok in E1 as [G1 O1]; [|done..].
  destruct r1 as [[]|f|msg|]; [|intros [= <- <-]; (split; [done|]); cbn in *; set_solver..].
  destruct l as [|q l]; [by intros [= <- <-]|]. intros E. apply IH in E as [G O]; [|by apply (gr_wf _ _ G1)]. split; [by etrans|].
  destruct r as [[]| | |]; cbn in *; set_solver.
Qed.

(** The blocks from an ancestor of the best block down to a height. *)
Lemma blocks_above_ok m : tree_wf m -> forall fuel h q b, m !! q = Some b -> -1 <= h <= bi_nHeight b -> bi_nHeight b - h <= Z.of_nat fuel ->
  exists l, blocks_above fuel m h (Some q) = Ok l /\ (h < bi_nHeight b -> head l = Some q)
    /\ forall p, p ∈ l -> is_ancestor m p q /\ exists bp, m !! p = Some bp /\ h < bi_nHeight bp.
Proof.
  intros Wt. induction fuel as [|fuel IH]; intros h q b Hq Hh Hf; cbn [blocks_above]; unfold deref; rewrite Hq; cbn [mbind result_bind];
    (destruct (Z.eqb_spec (bi_nHeight b) h) as [->|Hne]; [exists []; split; [done|]; split; [lia|set_solver]|]); [lia|].
  assert (Hself : is_ancestor m q q) by (exists b; split; [done|by apply ancestor_self]). pose proof (tw_prev _ Wt _ _ Hq) as Hp.
  destruct (bi_pprev b) as [q'|] eqn:Eq.
  - destruct Hp as (b' & Hq' & Hh'). destruct (IH h q' b' Hq') as (l & -> & _ & Hl); [lia..|]. exists (q :: l). split; [done|]. split; [done|].
    intros p [->|Hin]%elem_of_cons; [split; [done|]; exists b; split; [done|lia]|]. destruct (Hl p Hin) as [Ha Hb]. split; [|done].
    apply (is_ancestor_trans m Wt q q' p); [by exists b| |done]. exists b'. split; [done|]. replace (bi_nHeight b') with (bi_nHeight b - 1) by lia. by apply ancestor_pprev.
  - exists [q]. split; [by destruct fuel|]. split; [done|]. intros p ->%list_elem_of_singleton. split; [done|]. exists b. split; [done|lia].
Qed.

Local Abbreviation connect_toward := (connect_toward VerifySprout net params chainparams env addr usage).

(** A block that is to be connected, above the height [h]. *)
Definition above (i : ChainState) (mw : uint256) (h : Z) (p : uint256) : Prop :=
  is_ancestor (mapBlockIndex i) p mw /\ exists b, mapBlockIndex i !! p = Some b /\ h < bi_nHeight b.
Lemma above_back i i' mw h p : grown i i' -> above i' mw h p -> above i mw h p.
Proof.
  intros G [Ha (b & Hb & Hh)]. pose proof (same_index_shape _ _ (grown_same _ _ G)) as Es. split; [by apply (is_ancestor_shape _ _ Es)|].
  destruct (same_index_lookup _ _ _ _ (grown_same _ _ G) Hb) as (b0 & Hb0 & Hpl & _). exists b0. split; [done|]. apply place_eq in Hpl as (_ & _ & <-). done.
Qed.

Lemma connect_toward_ok st mw pblock old : vs_mode st = MODE_VALID -> all_intact pblock -> forall fuel h s b, state_wf (n_index s) -> mapBlockIndex (n_index s) !! mw = Some b ->
  -1 <= h <= bi_nHeight b -> bi_nHeight b - h <= Z.of_nat fuel -> (h = bi_nHeight b -> Tip (n_index s) = Some mw) ->
  exists r s', connect_toward fuel st mw pblock old h s = Some (r, s') /\ grown (n_index s) (n_index s')
  /\ match r with
     | Pass None => exists p, Tip (n_index s') = Some p /\ (p = mw \/ more_work_than (n_index s') old p)
     | Pass (Some _) => exists p, above (n_index s) mw h p /\ marked (n_index s') p /\ Tip (n_index s') <> None
     | _ => True
     end.
Proof.
  intros Hst Hint. induction fuel as [|fuel IH]; intros h s b W Hb Hh Hf Htip; cbn [Activate.connect_toward];
    rewrite (proj2 (get_entry_Ok (n_index s) mw b) Hb); (destruct (Z.eqb_spec h (bi_nHeight b)) as [Eh|Hne]; [eexists _, _; split; [done|]; split; [done|]; exists mw; by auto|]); [lia|].
  set (target := Z.min (h + 32) (bi_nHeight b)). pose proof (ix_tree _ (sw_index _ W)) as Wt.
  destruct (ancestor_exists _ Wt mw b target Hb) as (q & bq & Hq & Hbq & Hhq); [lia|].
  destruct (blocks_above_ok _ Wt (Z.to_nat (target - h)) h q bq Hbq) as (l & El & Hhd & Hl); [lia|lia|].
  rewrite (lbind_Some _ _ s (Pass l) s) by (unfold once, lift; by rewrite (GetAncestor_ok _ Wt mw b) by done; rewrite Hq; cbn [mbind result_bind]; rewrite El).
  cbv zeta. set (back := default uint256_null (last l)). destruct (connect_each st mw pblock old back (reverse l) s) as [r1 s1] eqn:E1.
  pose proof E1 as E1'. apply connect_each_ok in E1' as [G1 O1]; [|done..]. rewrite (lbind_Some _ _ s r1 s1) by (unfold once; by rewrite E1).
  assert (Habove : forall p, p ∈ reverse l -> above (n_index s) mw h p).
  { intros p Hp. rewrite elem_of_reverse in Hp. destruct (Hl p Hp) as [Ha Hx]. split; [|done]. apply (is_ancestor_trans _ Wt mw q p); [by exists b| |done]. exists bq. by rewrite Hhq. }
  destruct r1 as [[]|f|msg|].
  - destruct (grown_at _ _ _ _ G1 Hb) as (b1 & Hb1 & [(Hpl & _) _]). apply place_eq in Hpl as (_ & _ & Hh1).
    destruct (IH target s1 b1) as (r & s' & E & G & Hr); [by apply (gr_wf _ _ G1)|done|lia|lia| |].
    + intros Et. cbn in O1. rewrite last_reverse, Hhd in O1 by lia. rewrite O1. f_equal. rewrite Et, Hh1, (ancestor_self _ Wt mw b Hb) in Hq. by injection Hq.
    + exists r, s'. split; [done|]. split; [by etrans|]. destruct r as [[x|]| | |]; try done. destruct Hr as (p & Hp & Hm). exists p. split; [|done].
      apply (above_back _ _ _ _ _ G1) in Hp as [Ha (bp & Hbp & Hlt)]. split; [done|]. exists bp. split; [done|lia].
  - eexists _, _. split; [done|]. split; [done|]. destruct O1 as (p & _ & Ht & Hm). exists p. auto.
  - eexists _, _. split; [done|]. split; [done|]. destruct O1 as (p & Hp & Hm). exists p. auto.
  - by eexists _, _.
  - by eexists _, _.
  - by eexists _, _.
Qed.
End ActivateLaws.
