(* ===== verification/ActivateSafety.v ===== *)
(** * The best chain is activated

    One step of [ActivateBestChain] ends and makes progress: it reaches the
    best candidate or a tip with more work, or it marks a block that breaks a
    rule.  Since there are finitely many blocks to mark and finitely many
    amounts of work to reach, the steps end. *)
From stdpp Require Import prelude gmap strings list.
From S2P Require Import Prelude Transaction Script Interpreter Serialize TxSerialize SigHash Coins History CoinsView CoinsLaws CoinsCache CoinsOps UpdateCoins CoinsSerialize.
From S2P Require Import ArithUint256 Block ChainParams Subsidy Chain Pow Checks CheckTx CheckInputs CheckBlock ChainState ChainShape BestChain ChainSteps AcceptBlock ConnectBlock ConnectFails Double TxMemPool PoolLaws PoolCoins AcceptToPool AcceptLaws AcceptSafety Tip TipLaws TipSafety Activate ActivateLaws.
#[local] Open Scope Z_scope.

(** ** The fork *)

Lemma find_fork_ok i mw b : state_wf i -> mapBlockIndex i !! mw = Some b -> exists fork h, find_fork mw i = Ok (fork, h)
  /\ -1 <= h <= bi_nHeight b /\ (h = bi_nHeight b -> fork = Some mw) /\ (Tip i = None -> fork = None)
  /\ (forall f, fork = Some f -> exists bf, mapBlockIndex i !! f = Some bf /\ bi_nHeight bf = h)
  /\ forall p, above i mw h p -> ~ contains (mapBlockIndex i) (chainActive i) p.
Proof.
  intros W Hb. pose proof (ix_tree _ (sw_index _ W)) as Wt. pose proof (tw_height _ Wt _ _ Hb) as Hnn. unfold find_fork. destruct (Tip i) as [t|] eqn:Ht.
  - pose proof (tip_branch _ _ W Ht) as Hbr. destruct (FindFork_ok _ Wt _ t mw b Hbr Hb) as (r & -> & Hr). cbn [mbind result_bind].
    assert (Hno : forall h, (forall g bg, mapBlockIndex i !! g = Some bg -> is_ancestor (mapBlockIndex i) g mw -> is_ancestor (mapBlockIndex i) g t -> bi_nHeight bg <= h) ->
      forall p, above i mw h p -> ~ contains (mapBlockIndex i) (chainActive i) p).
    { intros h Hm p [Ha (bp & Hp & Hlt)] Hc. unfold contains in Hc. rewrite (branch_contains _ Wt _ t p bp Hbr Hp) in Hc. injection Hc as Hc. apply bool_decide_eq_true in Hc.
      assert (bi_nHeight bp <= h) by (apply (Hm p); [done|done|by exists bp]). lia. }
    destruct r as [f|]; cbn [last_common] in Hr.
    + destruct Hr as ((bf & Hf & Haf) & Hft & Hmax). unfold get_entry, deref. rewrite Hf. cbn [mbind result_bind]. exists (Some f), (bi_nHeight bf).
      destruct (ancestor_Some _ Wt mw b _ f Hb Haf) as (Hh & _). split; [done|]. split; [lia|]. split.
      * intros E. rewrite E, (ancestor_self _ Wt mw b Hb) in Haf. by rewrite Haf.
      * split; [done|]. split; [intros g [= <-]; by exists bf|]. apply Hno. intros g bg Hg Hg1 Hg2. by apply (Hmax g bf bg).
    + exists None, (-1). split; [done|]. split; [lia|]. split; [lia|]. split; [done|]. split; [done|]. apply Hno. intros g bg _ Hg1 Hg2. by destruct (Hr g Hg1 Hg2).
  - rewrite (no_tip _ W Ht). unfold CChain_FindFork, deref. rewrite Hb. cbn [mbind result_bind]. change (CChain_Height []) with (-1).
    rewrite (proj2 (Z.ltb_lt (-1) _)) by lia. rewrite (GetAncestor_ok _ Wt mw b) by done.
    assert (ancestor_at (mapBlockIndex i) mw (-1) = None) as -> by (unfold ancestor_at; by rewrite Hb). cbn [mbind result_bind].
    exists None, (-1). split; [done|]. split; [lia|]. split; [lia|]. split; [done|]. split; [done|].
    intros p [_ (bp & Hp & _)] Hc. unfold contains, CChain_Contains, deref in Hc. rewrite Hp in Hc. cbn in Hc. injection Hc as Hc. apply bool_decide_eq_true in Hc.
    rewrite CChain_at_spec in Hc. by destruct (0 <=? _).
Qed.

(** ** What every round uses up *)

#[local] Instance failed_dec b : Decision (failed b).
Proof. unfold failed. apply _. Defined.
Definition marks (i : ChainState) : gset uint256 := dom (filter (fun kv => failed kv.2) (mapBlockIndex i)).
Definition within (i : ChainState) (w : Z) : gset uint256 := dom (filter (fun kv => val (bi_nChainWork kv.2) <= w) (mapBlockIndex i)).
(** The blocks that have at most the work of the tip. *)
Definition reached (i : ChainState) : gset uint256 :=
  match t ← Tip i; mapBlockIndex i !! t with Some b => within i (val (bi_nChainWork b)) | None => ∅ end.

Lemma elem_of_marks i p : p ∈ marks i <-> marked i p.
Proof. unfold marks. rewrite elem_of_dom. split; [intros [b Hb]|intros (b & Hb & Hf)]; [|exists b]; rewrite map_lookup_filter_Some in *; [by exists b|done]. Qed.
Lemma elem_of_within i w p : p ∈ within i w <-> exists b, mapBlockIndex i !! p = Some b /\ val (bi_nChainWork b) <= w.
Proof. unfold within. rewrite elem_of_dom. split; [intros [b Hb]|intros (b & Hb & Hf); exists b]; rewrite map_lookup_filter_Some in *; [by exists b|done]. Qed.
Lemma marks_size i : (size (marks i) <= size (mapBlockIndex i))%nat.
Proof. unfold marks. rewrite size_dom. apply map_subseteq_size, map_filter_subseteq. Qed.
Lemma reached_size i : (size (reached i) <= size (mapBlockIndex i))%nat.
Proof.
  unfold reached. destruct (t ← Tip i; mapBlockIndex i !! t); [|rewrite size_empty; lia]. unfold within. rewrite size_dom. apply map_subseteq_size, map_filter_subseteq.
Qed.
Lemma grown_size i i' : grown i i' -> size (mapBlockIndex i') = size (mapBlockIndex i).
Proof.
  intros [G _]. rewrite <- !(size_dom (D := gset uint256)). f_equal. apply set_eq. intros p. rewrite !elem_of_dom. specialize (G p).
  destruct (mapBlockIndex i !! p), (mapBlockIndex i' !! p); try done.
Qed.

(** Blocks that are still good, and then work that is still missing. *)
Definition fuel_left (i : ChainState) : nat :=
  (size (mapBlockIndex i) - size (marks i)) * S (size (mapBlockIndex i)) + (size (mapBlockIndex i) - size (reached i)).
Definition enough_rounds (i : ChainState) : nat := S (size (mapBlockIndex i)) * S (size (mapBlockIndex i)).
Lemma fuel_left_enough i : (fuel_left i < enough_rounds i)%nat.
Proof. unfold fuel_left, enough_rounds. pose proof (marks_size i). pose proof (reached_size i). nia. Qed.

Lemma marks_grown i i' : grown i i' -> marks i ⊆ marks i'.
Proof. intros G p. rewrite !elem_of_marks. by apply marked_grown. Qed.
Lemma fuel_marked i i' p : grown i i' -> marked i' p -> ~ marked i p -> (fuel_left i' < fuel_left i)%nat.
Proof.
  intros G Hm Hn. unfold fuel_left. rewrite (grown_size _ _ G).
  assert (size (marks i) < size (marks i'))%nat.
  { apply subset_size. split; [by apply marks_grown|]. intros Hs. apply Hn, elem_of_marks, Hs. by apply elem_of_marks. }
  pose proof (marks_size i'). rewrite (grown_size _ _ G) in *. pose proof (reached_size i'). rewrite (grown_size _ _ G) in *. nia.
Qed.
Lemma fuel_reached i i' p : grown i i' -> is_Some (mapBlockIndex i' !! p) -> Tip i' = Some p -> more_work_than i' (Tip i) p -> (fuel_left i' < fuel_left i)%nat.
Proof.
  intros G [bp Hbp] Ht Hm. unfold fuel_left. rewrite (grown_size _ _ G). pose proof (subseteq_size _ _ (marks_grown _ _ G)).
  assert (size (reached i) < size (reached i'))%nat.
  { assert (Er : reached i' = within i' (val (bi_nChainWork bp))) by (unfold reached; rewrite Ht; cbn; by rewrite Hbp). rewrite Er.
    assert (Hp : p ∈ within i' (val (bi_nChainWork bp))) by (apply elem_of_within; by exists bp). apply subset_size. unfold reached. destruct (Tip i) as [o|] eqn:Eo; cbn; [|set_solver].
    destruct (Hm o eq_refl) as (bo' & bp' & Ho' & Hp' & Hlt). rewrite Hbp in Hp'. injection Hp' as <-.
    destruct (mapBlockIndex i !! o) as [bo|] eqn:Ho; [|set_solver]. destruct (grown_at _ _ _ _ G Ho) as (bo2 & Ho2 & [(_ & Ew & _) _]). rewrite Ho' in Ho2. injection Ho2 as <-.
    split.
    - intros q. rewrite !elem_of_within. intros (bq & Hq & Hle). destruct (grown_at _ _ _ _ G Hq) as (bq' & Hq' & [(_ & Ewq & _) _]). exists bq'. split; [done|]. rewrite Ewq. rewrite Ew in Hlt. lia.
    - intros Hs. apply Hs, elem_of_within in Hp as (bp2 & Hp2 & Hle). destruct (grown_at _ _ _ _ G Hp2) as (bp3 & Hp3 & [(_ & Ewp & _) _]). rewrite Hbp in Hp3. injection Hp3 as <-.
      rewrite <- Ewp, <- Ew in Hle. lia. }
  pose proof (reached_size i'). rewrite (grown_size _ _ G) in *. nia.
Qed.

Section ActivateSafety.
Context {SpT SaT V : Type} `{!MerkleTree SpT, !MerkleTree SaT, !CCoinsView SpT SaT V}.
Context `{!CCoinsViewLaws SpT SaT V}.
Context `{BlockOracle} `{EquihashVerifier} `{SigHashCrypto} `{TxVerifier} `{ScriptCrypto} `{Secp256k1} `{PoolEnv} `{!PoolEnvLaws}.
Context (VerifySprout : JSDescription -> bytes -> bool).
Context (net : Network) (params chainparams : CChainParams) (env : TipEnv).
Local Abbreviation tip_t := (CCoinsViewCache SpT SaT V).
Context (addr : uint256 -> Z) (usage : tip_t -> Z) (pr : Protection) (rand : Z).
Local Abbreviation node := (Node (SpT := SpT) (SaT := SaT) (V := V)).
Implicit Types s : node.
Local Abbreviation ActivateBestChainStep := (ActivateBestChainStep VerifySprout net params chainparams env addr usage rand).
Local Abbreviation activate_rounds := (activate_rounds VerifySprout net params chainparams env addr usage pr rand).
Local Abbreviation ActivateBestChain := (ActivateBestChain VerifySprout net params chainparams env addr usage pr rand).

(** ** One step *)

(** The pool and the warnings at the new tip leave the block index alone. *)
Definition same_chain {A} (m : scheck node A) : Prop := forall s, n_index (m s).2 = n_index s.
Lemma same_chain_bind {A B} (m : scheck node A) (k : A -> scheck node B) : same_chain m -> (forall a, same_chain (k a)) -> same_chain (m ≫= k).
Proof. intros Hm Hk s. unfold mbind, scheck_bind. specialize (Hm s). destruct (m s) as [[a|f|msg|] s1]; [|done..]. by rewrite Hk. Qed.
Lemma same_chain_action {A} (f : node -> result (A * node)) : (forall s a s', f s = Ok (a, s') -> n_index s' = n_index s) -> same_chain (action f).
Proof. intros Hf s. unfold action. destruct (f s) as [[a s']| |] eqn:E; [by eapply Hf|done..]. Qed.
Lemma reorg_pool_chain : same_chain (reorg_pool env).
Proof.
  apply same_chain_action. intros s a s' E. apply bind_Ok in E as (t & _ & E). apply bind_Ok in E as (mtp & _ & E). by apply bind_Ok in E as (r & _ & [= _ <-]).
Qed.
Lemma branch_pool_chain : same_chain (branch_pool chainparams).
Proof.
  apply same_chain_action. intros s a s' E. apply bind_Ok in E as (t & _ & E). apply bind_Ok in E as (id & _ & E). by apply bind_Ok in E as (p & _ & [= _ <-]).
Qed.
Lemma after_step_chain d invalid : same_chain (after_step params chainparams env rand d invalid).
Proof.
  unfold after_step. apply same_chain_bind; [destruct d; [apply reorg_pool_chain|by intros s]|intros _]. apply same_chain_bind; [apply branch_pool_chain|intros _].
  apply same_chain_bind; [|intros _]; apply same_chain_action; intros s a s' E; by apply bind_Ok in E as (c & _ & [= _ <-]).
Qed.

(** The reorganisation to the branch of [mw] is too long. *)
Definition too_long s (h : Z) : Prop :=
  exists t bt, Tip (n_index s) = Some t /\ mapBlockIndex (n_index s) !! t = Some bt /\ MAX_REORG_LENGTH < u32 (bi_nHeight bt - h) /\ ce_IsSynced (te_connect env) = true.
Lemma refuse_reorg_ok fork h s r s' : refuse_reorg env fork h s = (r, s') ->
  n_index s' = n_index s /\ (r = Pass tt -> s' = s) /\ (forall f, fork = Some f -> too_long s h -> r = Fail FailPlain /\ s' = with_shutdown s).
Proof.
  unfold refuse_reorg. destruct (Tip (n_index s)) as [t|] eqn:Ht.
  2:{ intros [= <- <-]. split; [done|]. split; [done|]. intros f _ (t & bt & ? & _). congruence. }
  destruct (get_entry (n_index s) t) as [b| |] eqn:Eb.
  - apply get_entry_Ok in Eb. destruct (_ && _) eqn:Ec.
    + destruct fork as [f|]; intros [= <- <-]; (split; [done|]); (split; [done|]); [done|]. by intros f.
    + intros [= <- <-]. split; [done|]. split; [done|]. intros f _ (t' & bt & Ht' & Hbt & Hl & Hs). rewrite Ht in Ht'. injection Ht' as <-. rewrite Eb in Hbt. injection Hbt as <-.
      apply Z.ltb_lt in Hl. by rewrite Hl, Hs in Ec.
  - intros [= <- <-]. split; [done|]. split; [done|]. intros f _ (t' & bt & Ht' & Hbt & _). rewrite Ht in Ht'. injection Ht' as <-. apply get_entry_Ok in Hbt. congruence.
  - intros [= <- <-]. split; [done|]. split; [done|]. intros f _ (t' & bt & Ht' & Hbt & _). rewrite Ht in Ht'. injection Ht' as <-. apply get_entry_Ok in Hbt. congruence.
Qed.

Lemma step_ok st mw pblock s : state_wf (n_index s) -> is_Some (mapBlockIndex (n_index s) !! mw) -> vs_mode st = MODE_VALID -> all_intact chainparams env pblock ->
  exists r s', ActivateBestChainStep st mw pblock s = Some (r, s') /\ grown (n_index s) (n_index s')
  /\ match r with
     | Pass false => exists p, Tip (n_index s') = Some p /\ (p = mw \/ more_work_than (n_index s') (Tip (n_index s)) p)
     | Pass true => exists p, is_ancestor (mapBlockIndex (n_index s)) p mw /\ ~ contains (mapBlockIndex (n_index s)) (chainActive (n_index s)) p /\ marked (n_index s') p /\ Tip (n_index s') <> None
     | _ => True
     end
  /\ forall f h, find_fork mw (n_index s) = Ok (Some f, h) -> too_long s h -> r = Fail FailPlain /\ s' = with_shutdown s.
Proof.
  intros W [b Hb] Hst Hint. destruct (find_fork_ok _ mw b W Hb) as (fork & h & Ef & Hh & Hself & Hnt & _ & Habove).
  unfold Activate.ActivateBestChainStep. rewrite (lbind_Some _ _ s (Pass s) s) by done. cbv zeta. rewrite (lbind_Some _ _ s (Pass (fork, h)) s) by (unfold once, lift; by rewrite Ef).
  rewrite (lbind_Some _ _ s (Pass b) s) by (unfold once, lift; by rewrite (proj2 (get_entry_Ok _ _ _) Hb)). cbn [fst snd].
  destruct (refuse_reorg env fork h s) as [r1 s1] eqn:E1. rewrite (lbind_Some _ _ s r1 s1) by (unfold once; by rewrite E1). apply refuse_reorg_ok in E1 as (Hx1 & Hp1 & Hlong).
  assert (Hr : forall f h', find_fork mw (n_index s) = Ok (Some f, h') -> too_long s h' -> r1 = Fail FailPlain /\ s1 = with_shutdown s).
  { intros f h' E. rewrite Ef in E. injection E as -> ->. by apply (Hlong f). }
  destruct r1 as [[]|f|msg|].
  2:{ exists (Fail f), s1. split; [done|]. rewrite Hx1. split; [done|]. split; [done|]. intros g h' E L. destruct (Hr g h' E L) as [[= ->] ->]. done. }
  2,3: eexists _, s1; split; [done|]; rewrite Hx1; split; [done|]; split; [done|]; intros g h' E L; by destruct (Hr g h' E L).
  rewrite (Hp1 eq_refl) in *. clear Hp1 Hx1.
  assert (Hend : forall (r : check bool) (s' : node) f h', find_fork mw (n_index s) = Ok (Some f, h') -> too_long s h' -> r = Fail FailPlain /\ s' = with_shutdown s)
    by (intros r s' f h' E L; by destruct (Hr f h' E L)).
  destruct (disconnect_to_ok params chainparams env addr usage fork (length (chainActive (n_index s))) false s W) as (r2 & s2 & E2 & G2 & Hd2); [done|].
  rewrite (lbind_Some _ _ s r2 s2) by exact E2. destruct r2 as [d|f|msg|]; [|eexists _, _; split; [done|]; split; [done|]; split; [done|apply Hend]..].
  assert (Ht2 : Tip (n_index s2) = fork) by (destruct (Hd2 d eq_refl) as [?|[Hn ->]]; [done|by rewrite Hn, (Hnt Hn)]).
  destruct (grown_at _ _ _ _ G2 Hb) as (b2 & Hb2 & [(Hpl & _) _]). apply place_eq in Hpl as (_ & _ & Hh2).
  destruct (connect_toward_ok VerifySprout net params chainparams env addr usage st mw pblock (Tip (n_index s)) Hst Hint (Z.to_nat (bi_nHeight b - h)) h s2 b2)
    as (r3 & s3 & E3 & G3 & Hc3); [by apply (gr_wf _ _ G2)|done|lia|lia|intros Eh; rewrite Ht2; apply Hself; lia|].
  rewrite (lbind_Some _ _ s2 r3 s3) by exact E3. destruct r3 as [invalid|f|msg|]; [|eexists _, _; split; [done|]; split; [by etrans|]; split; [done|apply Hend]..].
  pose proof (after_step_chain d invalid s3) as Hx4. destruct (after_step params chainparams env rand d invalid s3) as [r4 s4] eqn:E4. cbn [snd] in Hx4.
  rewrite (lbind_Some _ _ s3 r4 s4) by (unfold once; by rewrite E4). assert (G4 : grown (n_index s) (n_index s4)) by (rewrite Hx4; by etrans).
  destruct r4 as [[]|f|msg|]; [|eexists _, _; split; [done|]; split; [done|]; split; [done|apply Hend]..]. eexists _, s4. split; [done|]. split; [done|]. split; [|apply Hend].
  rewrite Hx4. destruct invalid as [x|].
  - rewrite bool_decide_true by done. destruct Hc3 as (p & Hp & Hm). apply (above_back _ _ _ _ _ G2) in Hp. exists p. split; [apply Hp|]. split; [by apply Habove|done].
  - by rewrite bool_decide_false by (by intros [? ?]).
Qed.

(** ** All steps *)

(** At some time between [i] and [i'] the tip of [i'] was the best of the usable
    candidates, or no candidate was usable. *)
Definition activated (i i' : ChainState) : Prop :=
  exists i1, grown i i1 /\ grown i1 i'
  /\ ((exists p, Tip i' = Some p /\ p ∈ setBlockIndexCandidates i1 /\ usable pr (mapBlockIndex i1) (chainActive i1) p
         /\ forall q, q ∈ setBlockIndexCandidates i1 -> usable pr (mapBlockIndex i1) (chainActive i1) q -> ~ worse_than addr (mapBlockIndex i1) p q)
      \/ forall q, q ∈ setBlockIndexCandidates i1 -> ~ usable pr (mapBlockIndex i1) (chainActive i1) q).
Lemma activated_grown i0 i i' i2 : grown i0 i -> activated i i' -> grown i' i2 -> chainActive i2 = chainActive i' -> activated i0 i2.
Proof. intros G (i1 & G1 & G2 & Ho) G3 Hc. exists i1. split; [by etrans|]. split; [by etrans|]. unfold Tip in *. by rewrite Hc. Qed.

Lemma usable_unmarked i i2 mw p : same_index (mapBlockIndex i) (mapBlockIndex i2) -> chainActive i2 = chainActive i -> usable pr (mapBlockIndex i) (chainActive i) mw ->
  is_ancestor (mapBlockIndex i2) p mw -> ~ contains (mapBlockIndex i2) (chainActive i2) p -> ~ marked i p.
Proof.
  intros Hs Hc Hu Ha Hn (b & Hb & Hf). pose proof (same_index_shape _ _ Hs) as Es. apply (is_ancestor_shape _ _ Es) in Ha.
  destruct (Hu p Ha) as (b' & Hb' & Hf' & _); [|rewrite Hb in Hb'; injection Hb' as <-; unfold failed in Hf; congruence].
  intros Hin. apply Hn. unfold contains in *. by rewrite <- (Contains_shape _ _ Es), Hc.
Qed.

Lemma activate_rounds_ok pblock : all_intact chainparams env pblock -> forall fuel st s, vs_mode st = MODE_VALID -> state_wf (n_index s) -> (fuel_left (n_index s) < fuel)%nat ->
  exists r s', activate_rounds fuel st pblock s = Some (r, s') /\ grown (n_index s) (n_index s') /\ forall d, r = Pass d -> activated (n_index s) (n_index s').
Proof.
  intros Hint. induction fuel as [|fuel IH]; intros st s Hst W Hf; [lia|]. cbn [Activate.activate_rounds].
  destruct (FindMostWorkChain_ok addr pr (n_index s) W) as (mw & i & Ei & Hnw & Hmw). destruct (narrowed_grown _ _ _ W Hnw) as [Gi Hc].
  rewrite (lbind_Some _ _ s (Pass mw) (with_chainstate i (n_warnings s) s)) by (unfold once, action; by rewrite Ei). set (s1 := with_chainstate i (n_warnings s) s).
  rewrite (lbind_Some _ _ s1 (Pass s1) s1) by done.
  assert (Hact : forall s', grown i (n_index s') -> (mw = None \/ mw = Tip (n_index s')) -> activated (n_index s) (n_index s')).
  { intros s' G Ho. exists (n_index s). split; [done|]. split; [by etrans|]. destruct mw as [p|]; [left|by right]. exists p. destruct Ho as [?|<-]; done. }
  destruct mw as [p|]; [|exists (Pass true), s1; split; [done|]; split; [done|]; intros; apply Hact; [done|auto]].
  case_bool_decide as Ht; [exists (Pass true), s1; split; [done|]; split; [done|]; intros; apply Hact; [done|auto]|].
  destruct Hmw as (Hcand & Hu & _). destruct (sw_candidates _ W p Hcand) as (b & Hb & _). destruct (grown_at _ _ _ _ Gi Hb) as (b1 & Hb1 & _).
  set (given := match pblock with Some block => if hash_header (b_header block) =? p then Some block else None | None => None end).
  assert (Hgiven : all_intact chainparams env given).
  { split; [|apply Hint]. intros bl. subst given. destruct pblock as [bl'|]; [|done]. destruct (_ =? p); [|done]. apply Hint. }
  destruct (step_ok st p given s1 (gr_wf _ _ Gi W) (mk_is_Some _ _ Hb1) Hst Hgiven) as (r2 & s2 & E2 & G2 & Hr2 & _). rewrite (lbind_Some _ _ s1 r2 s2) by exact E2.
  assert (G : grown (n_index s) (n_index s2)) by (etrans; [exact Gi|exact G2]).
  destruct r2 as [inv|f|msg|]; [|eexists _, _; split; [done|]; split; [done|]; by intros d..]. rewrite (lbind_Some _ _ s2 (Pass s2) s2) by done.
  case_bool_decide as Hend.
  - exists (Pass false), s2. split; [done|]. split; [done|]. intros _ _. destruct inv; [|apply Hact; [done|auto]]. by destruct Hr2 as (q & _ & _ & _ & Hn).
  - destruct (IH (if inv then CValidationState_new else st) s2) as (r & s' & E & G' & Hr); [by destruct inv|by apply (gr_wf _ _ G)| |].
    + enough (fuel_left (n_index s2) < fuel_left (n_index s))%nat by lia. destruct inv.
      * destruct Hr2 as (q & Ha & Hn & Hm & _). apply (fuel_marked _ _ q G Hm). by apply (usable_unmarked (n_index s) i p); [apply grown_same|..].
      * destruct Hr2 as (q & Hq & [->|Hm]); [done|]. apply (fuel_reached _ _ q G); [|done|].
        -- by apply tip_known; [apply (gr_wf _ _ G)|].
        -- cbn [n_index with_chainstate s1] in Hm. unfold Tip in *. by rewrite <- Hc.
    + exists r, s'. split; [done|]. split; [by etrans|]. intros d Ed. apply (activated_grown _ _ (n_index s') _ G); [by eapply Hr|done..].
Qed.

(** A round after which the loop goes on because the block broke a rule. *)
Lemma activate_rounds_again n st s p i s2 : FindMostWorkChain addr pr (n_index s) = Ok (Some p, i) -> Tip i <> Some p ->
  ActivateBestChainStep st p None (with_chainstate i (n_warnings s) s) = Some (Pass true, s2) -> Tip (n_index s2) <> None ->
  activate_rounds (S n) st None s = activate_rounds n CValidationState_new None s2.
Proof.
  intros Ei Ht E2 Hn. cbn [Activate.activate_rounds]. rewrite (lbind_Some _ _ s (Pass (Some p)) (with_chainstate i (n_warnings s) s)) by (unfold once, action; by rewrite Ei).
  set (s1 := with_chainstate i (n_warnings s) s) in *. rewrite (lbind_Some _ _ s1 (Pass s1) s1) by done. rewrite bool_decide_false by done.
  rewrite (lbind_Some _ _ s1 (Pass true) s2) by exact E2. rewrite (lbind_Some _ _ s2 (Pass s2) s2) by done. by rewrite bool_decide_false by done.
Qed.

(** ** Invalidating a block *)

Local Abbreviation InvalidateBlock := (InvalidateBlock params chainparams env addr usage).
Local Abbreviation disconnect_away := (disconnect_away params chainparams env addr usage).
Local Abbreviation invalidate_loop := (invalidate_loop params chainparams env addr usage).

Lemma mark_failed_grows mask p : grows (mark_failed (SpT := SpT) (SaT := SaT) (V := V) mask p).
Proof.
  apply grows_action. intros s a s' E. apply bind_Ok in E as (i & Ei & [= _ <-]). apply add_status_grown in Ei as [G _]. etrans; [exact G|].
  apply grown_map; [done|]. intros W. apply state_wf_drop; [by apply state_wf_dirty|set_solver].
Qed.
Lemma mark_failed_Pass p s s' : mark_failed BLOCK_FAILED_VALID p s = (Pass tt, s') -> marked (n_index s') p /\ chainActive (n_index s') = chainActive (n_index s).
Proof.
  unfold mark_failed, action. destruct (add_status _ p (n_index s)) as [i| |] eqn:Ei; [|done..]. cbn [mbind result_bind]. intros [= <-]. split; [|by apply add_status_grown in Ei as [_ ?]].
  unfold add_status in Ei. apply bind_Ok in Ei as (b & Eb & [= <-]). eexists. split; [apply lookup_insert_eq|]. apply failed_valid, has_status_set. done.
Qed.
Lemma mark_failed_chain mask p s s' : mark_failed mask p s = (Pass tt, s') -> chainActive (n_index s') = chainActive (n_index s).
Proof.
  unfold mark_failed, action. destruct (add_status _ p (n_index s)) as [i| |] eqn:Ei; [|done..]. cbn [mbind result_bind]. intros [= <-]. by apply add_status_grown in Ei as [_ ?].
Qed.
Lemma disconnect_away_grows : grows disconnect_away.
Proof.
  intros s. unfold Activate.disconnect_away. pose proof (DisconnectTip_grows params chainparams env addr usage false s) as G.
  destruct (DisconnectTip _ _ _ _ _ false s) as [[u|f|msg|] s1]; try done. cbn [snd] in G. etrans; [exact G|].
  assert (Hc : same_chain (_ ← reorg_pool (SpT := SpT) (SaT := SaT) (V := V) env; _ ← branch_pool chainparams; lift (Fail f : check unit))).
  { apply same_chain_bind; [apply reorg_pool_chain|intros _]. by apply same_chain_bind; [apply branch_pool_chain|]. }
  by rewrite Hc.
Qed.
Lemma disconnect_away_Pass s s' : disconnect_away s = (Pass tt, s') -> DisconnectTip params chainparams env addr usage false s = (Pass tt, s').
Proof.
  unfold Activate.disconnect_away. destruct (DisconnectTip _ _ _ _ _ false s) as [[u|f|msg|] s1]; try done. intros E.
  apply scheck_bind_Pass in E as (? & ? & _ & E). by apply scheck_bind_Pass in E as (? & ? & _ & E).
Qed.

Lemma invalidate_loop_ok p : forall fuel s, state_wf (n_index s) -> is_Some (mapBlockIndex (n_index s) !! p) -> (length (chainActive (n_index s)) <= fuel)%nat ->
  exists r s', invalidate_loop fuel p s = Some (r, s') /\ grown (n_index s) (n_index s')
  /\ (r = Pass tt -> ~ contains (mapBlockIndex (n_index s')) (chainActive (n_index s')) p).
Proof.
  induction fuel as [|fuel IH]; intros s W Hp Hl; destruct (Contains_total _ (chainActive (n_index s)) p Hp) as [v Ev]; cbn [Activate.invalidate_loop]; rewrite Ev;
    (destruct v; [|eexists _, _; split; [done|]; split; [done|]; intros _; unfold contains; by rewrite Ev]).
  - exfalso. destruct (chainActive (n_index s)) as [|x c] eqn:Ec; [|cbn in Hl; lia]. unfold CChain_Contains, deref in Ev. destruct Hp as [b Hb]. rewrite Hb in Ev.
    cbn in Ev. injection Ev as Ev. apply bool_decide_eq_true in Ev. rewrite CChain_at_spec in Ev. by destruct (0 <=? _).
  - destruct (tip_entry (n_index s)) as [[t bt]|msg|]; [|by eexists _, _..]. rewrite (lbind_Some _ _ s (Pass (t, bt)) s) by done. cbn [fst].
    pose proof (mark_failed_grows BLOCK_FAILED_CHILD t s) as G1. destruct (mark_failed BLOCK_FAILED_CHILD t s) as [r1 s1] eqn:E1. cbn [snd] in G1.
    rewrite (lbind_Some _ _ s r1 s1) by (unfold once; by rewrite E1). destruct r1 as [[]|f|msg|]; [|by eexists _, _..]. pose proof (gr_wf _ _ G1 W) as W1.
    pose proof (disconnect_away_grows s1) as G2. destruct (disconnect_away s1) as [r2 s2] eqn:E2. cbn [snd] in G2. assert (G : grown (n_index s) (n_index s2)) by (by etrans).
    rewrite (lbind_Some _ _ s1 r2 s2) by (unfold once; by rewrite E2). destruct r2 as [[]|f|msg|]; [|by eexists _, _..].
    apply disconnect_away_Pass, DisconnectTip_shorter in E2 as [_ Hs]; [|done]. rewrite (mark_failed_chain _ _ _ _ E1) in Hs.
    destruct (IH s2) as (r & s' & E & G' & Hr); [by apply (gr_wf _ _ G)| |lia|].
    + destruct Hp as [b Hb]. destruct (grown_at _ _ _ _ G Hb) as (b' & Hb' & _). by exists b'.
    + exists r, s'. split; [done|]. split; [by etrans|done].
Qed.

Lemma readd_grown l : forall i i', foldM (readd_step addr) l i = Ok i' -> grown i i' /\ chainActive i' = chainActive i.
Proof.
  induction l as [|p l IH]; intros i i' E; cbn [foldM] in E; [by injection E as <-|]. apply bind_Ok in E as (i1 & E1 & E). apply IH in E as [G Hc].
  assert (Hs : grown i i1 /\ chainActive i1 = chainActive i); [|destruct Hs as [G1 Hc1]; split; [by etrans|congruence]].
  unfold readd_step in E1. apply bind_Ok in E1 as (b & Eb & E1). apply get_entry_Ok in Eb. apply bind_Ok in E1 as (valid & _ & E1). destruct (valid && _) eqn:Ev; [|by injection E1 as <-].
  apply bind_Ok in E1 as (worse & _ & [= <-]). destruct worse; [done|]. split; [|done]. apply grown_map; [done|]. intros W. apply (state_wf_candidate _ p b); [done|done|].
  apply andb_true_iff in Ev as [_ Ev]. by apply negb_true_iff, Z.eqb_neq in Ev.
Qed.

(** The rest of the function leaves the chain. *)
Definition settles (m : scheck node unit) : Prop := forall s, grown (n_index s) (n_index (m s).2) /\ chainActive (n_index (m s).2) = chainActive (n_index s).
Lemma settles_action (f : node -> result (unit * node)) :
  (forall s a s', f s = Ok (a, s') -> grown (n_index s) (n_index s') /\ chainActive (n_index s') = chainActive (n_index s)) -> settles (action f).
Proof. intros Hf s. unfold action. destruct (f s) as [[a s']| |] eqn:E; [by eapply Hf|done..]. Qed.
Lemma same_chain_settles (m : scheck node unit) : same_chain m -> settles m.
Proof. intros Hm s. by rewrite Hm. Qed.
Lemma settled_last (m : scheck node unit) s : settles m -> exists r s', once m s = Some (r, s') /\ grown (n_index s) (n_index s') /\ chainActive (n_index s') = chainActive (n_index s).
Proof. intros Hm. specialize (Hm s). unfold once. destruct (m s) as [r s'] eqn:E. by exists r, s'. Qed.
Lemma settled_then (m : scheck node unit) (k : lscheck node unit) s : settles m ->
  (forall s1, exists r s', k s1 = Some (r, s') /\ grown (n_index s1) (n_index s') /\ chainActive (n_index s') = chainActive (n_index s1)) ->
  exists r s', (once m ≫= fun _ => k) s = Some (r, s') /\ grown (n_index s) (n_index s') /\ chainActive (n_index s') = chainActive (n_index s).
Proof.
  intros Hm Hk. destruct (settled_last m s Hm) as (r1 & s1 & E & G & Hc). rewrite (lbind_Some _ _ s r1 s1) by exact E. destruct r1 as [[]|f|msg|]; [|by eexists _, _..].
  destruct (Hk s1) as (r & s' & E' & G' & Hc'). exists r, s'. split; [done|]. split; [by etrans|congruence].
Qed.

Lemma invalidate_ok p s : state_wf (n_index s) -> is_Some (mapBlockIndex (n_index s) !! p) ->
  exists r s', InvalidateBlock p s = Some (r, s') /\ grown (n_index s) (n_index s')
  /\ (r = Pass tt -> marked (n_index s') p /\ ~ contains (mapBlockIndex (n_index s')) (chainActive (n_index s')) p).
Proof.
  intros W Hp. unfold Activate.InvalidateBlock. pose proof (mark_failed_grows BLOCK_FAILED_VALID p s) as G1. destruct (mark_failed BLOCK_FAILED_VALID p s) as [r1 s1] eqn:E1. cbn [snd] in G1.
  rewrite (lbind_Some _ _ s r1 s1) by (unfold once; by rewrite E1). destruct r1 as [[]|f|msg|]; [|by eexists _, _..]. rewrite (lbind_Some _ _ s1 (Pass s1) s1) by done.
  apply mark_failed_Pass in E1 as [M1 _].
  destruct (invalidate_loop_ok p (length (chainActive (n_index s1))) s1 (gr_wf _ _ G1 W)) as (r2 & s2 & E2 & G2 & Hn); [destruct M1 as (b & Hb & _); by exists b|done|].
  rewrite (lbind_Some _ _ s1 r2 s2) by exact E2. assert (G : grown (n_index s) (n_index s2)) by (by etrans). destruct r2 as [[]|f|msg|]; [|by eexists _, _..].
  specialize (Hn eq_refl). apply (marked_grown _ _ _ G2) in M1.
  match goal with |- exists r s', ?k s2 = _ /\ _ => assert (Hk : exists r s', k s2 = Some (r, s') /\ grown (n_index s2) (n_index s') /\ chainActive (n_index s') = chainActive (n_index s2)) end.
  { apply settled_then; [apply settles_action; intros x a x' E; apply bind_Ok in E as (i & Ei & [= _ <-]); by apply readd_grown in Ei|intros s3].
    apply settled_then; [apply settles_action; intros x a x' E; apply bind_Ok in E as ([i w] & Ei & [= _ <-]); by apply InvalidChainFound_grown in Ei as (? & ? & _)|intros s4].
    apply settled_then; [apply same_chain_settles, reorg_pool_chain|intros s5]. apply settled_last, same_chain_settles, branch_pool_chain. }
  destruct Hk as (r & s' & E & G' & Hc). exists r, s'. split; [exact E|]. split; [by etrans|]. intros _. split; [by eapply marked_grown|].
  intros Hin. apply Hn. unfold contains in *. by rewrite (Contains_shape _ _ (same_index_shape _ _ (grown_same _ _ G'))), <- Hc.
Qed.

(** ** Theorems *)

(** (C8) A step towards the best chain ends and gets somewhere, when the block
    given by the caller and the blocks that the files return are intact
    ([all_intact]; a damaged block is rejected without being marked, see
    [damaged_file_never_ends]).  Whatever happens in such a step, the block
    index stays well formed.  A step that succeeds has the best candidate as
    its tip, or a tip with more work than before; or it has found a block on
    the way that breaks a rule, which was not in the active chain and is now
    marked as failed.  When the masternodes are synced and the branch of the
    candidate forks from the active chain at some block, a reorganisation
    longer than [MAX_REORG_LENGTH] is refused before anything is changed, and
    the node shuts down; a node that is not synced does not refuse it. *)
Theorem ActivateBestChainStep_progress (st : CValidationState) (mw : uint256) (pblock : option CBlock) s
  (W : state_wf (n_index s)) (Hmw : is_Some (mapBlockIndex (n_index s) !! mw)) (Hst : vs_mode st = MODE_VALID) (Hint : all_intact chainparams env pblock) :
  exists r s', ActivateBestChainStep st mw pblock s = Some (r, s') /\ state_wf (n_index s')
  /\ match r with
     | Pass false => exists p, Tip (n_index s') = Some p /\ (p = mw \/ more_work_than (n_index s') (Tip (n_index s)) p)
     | Pass true => exists p, is_ancestor (mapBlockIndex (n_index s)) p mw /\ ~ contains (mapBlockIndex (n_index s)) (chainActive (n_index s)) p
         /\ marked (n_index s') p /\ Tip (n_index s') <> None
     | _ => True
     end
  /\ forall f h, find_fork mw (n_index s) = Ok (Some f, h) -> too_long s h -> r = Fail FailPlain /\ s' = with_shutdown s.
Proof.
  destruct (step_ok st mw pblock s W Hmw Hst Hint) as (r & s' & E & G & Hr & Hl). exists r, s'. split; [done|]. split; [by apply (gr_wf _ _ G)|done].
Qed.

(** (C7) [ActivateBestChain] ends when the blocks it is given and the blocks of the
    files are intact, after at most one round for every block that can be
    marked as failed and every amount of work that can be reached.  The block
    index is well formed then; and when the function succeeds, the tip is the
    best of all usable candidates of the last search, or no candidate was
    usable. *)
Theorem ActivateBestChain_ends (st : CValidationState) (pblock : option CBlock) s (n : nat)
  (W : state_wf (n_index s)) (Hst : vs_mode st = MODE_VALID) (Hint : all_intact chainparams env pblock) (Hn : (enough_rounds (n_index s) <= n)%nat) :
  exists r s', ActivateBestChain n st pblock s = Some (r, s') /\ state_wf (n_index s') /\ (r = Pass tt -> activated (n_index s) (n_index s')).
Proof.
  pose proof (fuel_left_enough (n_index s)). destruct (activate_rounds_ok pblock Hint n st s Hst W) as (r1 & s1 & E1 & G1 & Ha); [lia|].
  unfold Activate.ActivateBestChain. rewrite (lbind_Some _ _ s r1 s1) by exact E1. pose proof (gr_wf _ _ G1 W) as W1. destruct r1 as [d|f|msg|]; [|by eexists _, _..].
  specialize (Ha d eq_refl). destruct d; [by exists (Pass tt), s1|]. pose proof (FlushStateToDisk_flushes env addr usage FLUSH_STATE_PERIODIC s1) as F. unfold once.
  destruct (FlushStateToDisk env addr usage FLUSH_STATE_PERIODIC s1) as [r s'] eqn:E. destruct F as [_ _ _ Fc Fg _]. cbn [snd] in Fc, Fg. exists r, s'. split; [done|].
  split; [by apply (gr_wf _ _ Fg)|]. intros _. by apply (activated_grown _ (n_index s) (n_index s1)).
Qed.

(** (C9) [InvalidateBlock] ends; when it succeeds the block is marked as failed and no
    longer part of the active chain, and the block index is well formed. *)
Theorem InvalidateBlock_removes (p : uint256) s (W : state_wf (n_index s)) (Hp : is_Some (mapBlockIndex (n_index s) !! p)) :
  exists r s', InvalidateBlock p s = Some (r, s') /\ state_wf (n_index s')
  /\ (r = Pass tt -> marked (n_index s') p /\ ~ contains (mapBlockIndex (n_index s')) (chainActive (n_index s')) p).
Proof. destruct (invalidate_ok p s W Hp) as (r & s' & E & G & Hr). exists r, s'. split; [done|]. split; [by apply (gr_wf _ _ G)|done]. Qed.
End ActivateSafety.
