(* ===== verification/ChainExamples.v ===== *)
(** * Concrete chain states

    A small chain state database over executable note commitment trees, with
    one unspent coin, and the cache of it.  The hypotheses of the theorems on
    the coins views, [UpdateCoins] and [DisconnectBlock] hold there, and the
    theorems are applied to it. *)
From stdpp Require Import prelude gmap strings list.
From S2P Require Import Prelude Transaction Script Coins History CoinsView CoinsLaws CoinsCache CoinsOps.
From S2P Require Import UpdateCoins CoinsDB MerkleTree ChainParams Checks CheckTx CheckInputs.
#[local] Open Scope Z_scope.

#[local] Existing Instance toy_hash.
Abbreviation sprout_tree := (IncrementalMerkleTree 3 Z).
Abbreviation sapling_tree := (IncrementalMerkleTree 4 Z).
Abbreviation db := (CCoinsViewDB sprout_tree sapling_tree).
Abbreviation dbcache := (CCoinsViewCache sprout_tree sapling_tree db).

(** Two outputs, the second a P2PKH output. *)
Definition ex_script : CScript := [0x76; 0xa9; 20] ++ replicate 20 7 ++ [0x88; 0xac].
Definition ex_coin : CCoins := mkCCoins false [CTxOut_new 50 []; CTxOut_new 70 ex_script] 90 4.
Definition ex_txid : uint256 := 1000.
Definition ex_db : db := mkDB {[ex_txid := ex_coin]} ∅ ∅ ∅ ∅ (Some 77) None None ∅ ∅ ∅ ∅.
Definition ex_cache : dbcache := CCoinsViewCache_new ex_db.

Lemma ex_db_inv : db_inv ex_db.
Proof.
  split; simpl.
  - intros t c. rewrite lookup_singleton_Some. by intros [_ <-].
  - intros t c. by rewrite lookup_empty.
  - intros t c. by rewrite lookup_empty.
  - intros e. unfold DB_GetHistoryLength. simpl. rewrite lookup_empty. simpl. lia.
  - intros e i. unfold DB_GetHistoryLength. simpl. rewrite lookup_empty. simpl. lia.
Qed.

Lemma ex_cache_inv : cache_inv ex_cache.
Proof. split; [split; [exact ex_db_inv|apply batch_ok_empty]|done]. Qed.

Lemma ex_view_wf : view_wf (cache_abs ex_cache).
Proof.
  intros t c. change (a_coins (cache_abs ex_cache) t) with (({[ex_txid := ex_coin]} : gmap uint256 CCoins) !! t).
  rewrite lookup_singleton_Some. intros [_ <-].
  split; [done|]. split; [|simpl; lia]. repeat constructor; done.
Qed.

(** A block: a coinbase and a transaction spending the second output, with a
    nullifier of each kind and a note commitment of each kind. *)
Definition ex_coinbase : CTransaction := mkCTransaction 2000
  (mkTx true 4 SAPLING_VERSION_GROUP_ID [mkCTxIn COutPoint_SetNull [1; 90] 0] [CTxOut_new 10 ex_script]
     0 0 0 [] [] [] [] [] []).
Definition ex_js : JSDescription := mkJSDescription 0 0 (tree_empty_root (T := sprout_tree)) [301; 302] [401; 402] 0 [] 0 [] (GrothProof []).
Definition ex_spend : CTransaction := mkCTransaction 2001
  (mkTx true 4 SAPLING_VERSION_GROUP_ID [mkCTxIn (mkCOutPoint ex_txid 1) [] 0; mkCTxIn (mkCOutPoint ex_txid 0) [] 0]
     [CTxOut_new 60 []; CTxOut_new 20 [OP_RETURN]] 0 0 0
     [mkSpendDescription 0 (tree_empty_root (T := sapling_tree)) 303 0 [] []] [] [ex_js] [] [] []).
Definition ex_vtx : list CTransaction := [ex_coinbase; ex_spend].

Definition ex_connect (tx : CTransaction) (c : dbcache) : CTxUndo * dbcache :=
  match UpdateCoins tx c (mkTxUndo []) 91 with Ok r => r | _ => (mkTxUndo [], c) end.

Definition ex_spt : sprout_tree :=
  match tree_append 401 tree_new with Ok t => t | _ => tree_new end.
Definition ex_sat : sapling_tree := tree_new.

Definition ex_view1 : dbcache := (ex_connect ex_coinbase ex_cache).2.
Definition ex_view2 : dbcache := (ex_connect ex_spend ex_view1).2.
Definition ex_undos : list CTxUndo := [(ex_connect ex_coinbase ex_cache).1; (ex_connect ex_spend ex_view1).1].

Ltac ex_forall := repeat first [apply Forall_nil; exact I | apply Forall_cons; split; [by vm_compute|]].

Lemma ex_connectable0 : connectable (cache_abs ex_cache) ex_coinbase 91.
Proof. split; [by vm_compute|by vm_compute|by vm_compute|done|ex_forall|lia]. Qed.

Lemma ex_connectable1 : connectable (cache_abs ex_view1) ex_spend 91.
Proof. split; [by vm_compute|ex_forall|ex_forall|intros _; ex_forall|ex_forall|lia]. Qed.

Lemma ex_txs : txs_connected 91 0 ex_cache ex_vtx ex_undos ex_view2.
Proof.
  assert (E : UpdateCoins ex_coinbase ex_cache (mkTxUndo []) 91 = Ok ((ex_connect ex_coinbase ex_cache).1, ex_view1))
    by (by vm_compute).
  destruct (tx_roundtrip ex_coinbase 0 91 ex_cache _ ex_view1 ex_cache_inv ex_view_wf ex_connectable0 eq_refl E) as [Hi _].
  eapply txs_cons; [apply read_ok_refl, ex_cache_inv|exact ex_connectable0|done|exact E|].
  eapply txs_cons; [apply read_ok_refl, Hi|exact ex_connectable1|done|by vm_compute|]. constructor.
Qed.

Lemma DisconnectBlock_restores_witness :
  exists out : @DisconnectOutcome sprout_tree sapling_tree db,
    DisconnectBlock true true 91 ex_vtx (mkIndexInfo 78 true 91 0) (mkIndexInfo 77 true 90 0)
      (Some (mkBlockUndo (tail ex_undos) (a_bestAnchor (cache_abs ex_cache) SPROUT))) (fun _ => false)
      true true true (block_anchored ex_spt ex_sat 78 ex_view2) = Ok out
    /\ do_ret out = true /\ cache_abs (do_view out) ≡ cache_abs ex_cache.
Proof.
  destruct (DisconnectBlock_restores 91 ex_cache ex_view2 ex_vtx ex_undos ex_spt ex_sat
    (mkIndexInfo 78 true 91 0) (mkIndexInfo 77 true 90 0) true true (fun _ => false) true)
    as (out & E & Hr & _ & _ & Ha).
  - exact ex_cache_inv.
  - exact ex_view_wf.
  - exact ex_txs.
  - discriminate.
  - split; [by vm_compute|split; [by vm_compute|split; [by vm_compute|]]]. right. split; by vm_compute.
  - split; [by vm_compute|split; [by vm_compute|split; [by vm_compute|]]]. left. by vm_compute.
  - split; [discriminate|reflexivity].
  - split; [by vm_compute|discriminate].
  - by vm_compute.
  - exists out. split; [exact E|split; [exact Hr|exact Ha]].
Defined.

(** ** The cache *)

Definition ex_dirty : dbcache := block_anchored ex_spt ex_sat 78 ex_view2.

Lemma ex_dirty_inv : cache_inv ex_dirty.
Proof.
  destruct (txs_roundtrip 91 0 ex_cache ex_vtx ex_undos ex_view2 ex_txs ex_cache_inv ex_view_wf) as (Hi & _).
  apply (block_anchored_ok ex_spt ex_sat 78 ex_view2 Hi); by vm_compute.
Qed.

(** After a block is connected, the cache flushes to the database. *)
Lemma Flush_refines_witness :
  exists c' : dbcache, Cache_Flush ex_dirty = Ok (true, c')
    /\ db_abs (base c') ≡ cache_abs ex_dirty.
Proof.
  destruct (Flush_refines ex_dirty) as (c' & E & _ & Ha & _).
  - exact ex_dirty_inv.
  - by vm_compute.
  - exists c'. split; [exact E|exact Ha].
Defined.

Lemma ModifyNewCoins_refines_witness :
  exists c' : dbcache, modify ModifyNewCoins 2002 (fun _ => Ok (tt, ex_coin)) ex_dirty = Ok (tt, c')
    /\ cache_abs c' ≡ abs_set_coins 2002 (Some ex_coin) (cache_abs ex_dirty).
Proof.
  destruct (ModifyNewCoins_refines 2002 (fun _ => Ok (tt, ex_coin)) ex_dirty) as (c' & E & _ & Ha).
  - exact ex_dirty_inv.
  - by vm_compute.
  - exists c'. split; [exact E|exact Ha].
Defined.

Lemma CheckTxInputs_sound_witness :
  exists fee, sumZ [70; 50] + exact_shielded_in ex_spend = exact_value_out ex_spend + fee /\ 0 <= fee <= MAX_MONEY
    /\ a_null (cache_abs ex_cache) SPROUT 301 = false.
Proof.
  assert (Hi : tx_amounts_i64 ex_spend) by (unfold tx_amounts_i64, is_i64; cbn; split_and!; repeat constructor; cbn; lia).
  destruct (CheckTxInputs_sound ex_spend 100 (consensus main_params) true ex_cache (CheckTxInputs ex_spend 100 (consensus main_params) true ex_cache).2)
    as (_ & (vs & fee & Hv & Hb & Hf) & Hn & _).
  - exact ex_cache_inv.
  - done.
  - exact Hi.
  - by vm_compute.
  - exists fee. vm_compute in Hv. injection Hv as <-. split; [exact Hb|split; [exact Hf|by inversion Hn]].
Defined.

Lemma GetValueOut_exact_witness : GetValueOut ex_spend = Ok 80.
Proof.
  assert (Hi : tx_amounts_i64 ex_spend) by (unfold tx_amounts_i64, is_i64; cbn; split_and!; repeat constructor; cbn; lia).
  rewrite (proj1 (GetValueOut_exact ex_spend Hi)). by vm_compute.
Defined.
