(* ===== verification/ConnectExamples.v ===== *)
(** * A block connected

    [ConnectBlock] run on the small chain state of ChainExamples.v, with toy
    hashes and verifiers, and the theorem on it applied there. *)
From stdpp Require Import prelude gmap strings list.
From S2P Require Import Prelude Transaction Script Interpreter Serialize TxSerialize SigHash Coins History CoinsView CoinsLaws CoinsCache CoinsOps UpdateCoins CoinsSerialize CoinsDB MerkleTree.
From S2P Require Import ArithUint256 Block ChainParams Subsidy Chain Pow Checks CheckTx CheckInputs CheckBlock ChainState ConnectBlock ConnectTx ConnectLaws ChainExamples.
#[local] Open Scope Z_scope.

#[local] Existing Instance toy_hash.
#[local] Existing Instance toy_secp.
#[local] Instance cx_oracle : BlockOracle := {
  hash_header h := nNonce h;
  hash_tx tx := 2000 + nLockTime tx;
  hash_pair a b := 31 * a + b;
  decode_script_id _ := None
}.
#[local] Instance cx_equihash : EquihashVerifier := {| eh_isvalid := fun _ _ _ _ _ _ => true |}.
#[local] Program Instance cx_sighash : SigHashCrypto := {
  blake2b _ b := Z.of_nat (length b) mod 2 ^ 256;
  Hash256 b := Z.of_nat (length b);
  ecdsa_verify _ _ _ := false
}.
Next Obligation. intros p b. cbv beta. apply Z.mod_pos_bound. lia. Qed.
#[local] Instance cx_verifier : TxVerifier := {
  ed25519_verify _ _ _ := true;
  sapling_ctx := unit;
  sapling_verification_ctx_init := tt;
  sapling_check_spend _ _ _ := (true, tt);
  sapling_check_output _ _ := (true, tt);
  sapling_final_check _ _ _ _ := true;
  GetLastPaymentBlock _ := None
}.
#[local] Instance cx_crypto : ScriptCrypto := {
  ripemd160 _ := replicate 20 0;
  sha1 _ := replicate 20 0;
  sha256 _ := replicate 32 0;
  CheckLowS _ := true
}.

(** A coinbase, and a transaction that spends an output with a JoinSplit; its
    input script pushes one. *)
Definition cx_coinbase : CMutableTransaction :=
  mkTx true 4 SAPLING_VERSION_GROUP_ID [mkCTxIn COutPoint_SetNull [1; 91] 0] [CTxOut_new 10 ex_script] 1 0 0 [] [] [] [] [] [].
Definition cx_js : JSDescription :=
  mkJSDescription 5 0 (tree_empty_root (T := sprout_tree)) [301; 302] [401; 402] 0 [] 0 [] (GrothProof (replicate 192 0)).
Definition cx_spend : CMutableTransaction :=
  mkTx true 4 SAPLING_VERSION_GROUP_ID [mkCTxIn (mkCOutPoint ex_txid 0) [81] 0] [CTxOut_new 40 []] 2 0 0
    [] [] [cx_js] (replicate 32 0) (replicate 64 0) [].
Definition cx_block : CBlock :=
  mkCBlock (mkHeader 4 77 (31 * 2001 + 2002) (tree_empty_root (T := sapling_tree)) 1000 0x1f07ffff 78 []) [cx_coinbase; cx_spend] [] [].

Definition cx_parent : CBlockIndex :=
  mkIndex (Some 76) None 850099 0 8 0 bu_zero 2 0 (BLOCK_VALID_SCRIPTS + BLOCK_HAVE_DATA) (Some 0x76b809bb) 0 0 None None 0 None
    4 0 0 900 0x1f07ffff 77 [] 0.
Definition cx_entry : CBlockIndex :=
  mkIndex (Some 77) None 850100 0 8 0 bu_zero 2 0 (BLOCK_VALID_TRANSACTIONS + BLOCK_HAVE_DATA) None 0 0 None None 0 None
    4 0 0 1000 0x1f07ffff 78 [] 0.
Definition cx_benv : BlockEnv :=
  mkBlockEnv {[77 := cx_parent; 78 := cx_entry]} [Some 77] 900 900 true None true (fun _ => None) (fun _ _ => false) 5 20.
Definition cx_env : ConnectEnv :=
  mkConnectEnv true true true true false true [] false false 100 (fun _ => false) (fun _ => true) false
    (fun _ pos => (true, mkDiskPos (dp_nFile pos) (dp_nPos pos + 8))) (fun _ => true) (fun _ => None).
Definition cx_start : Connecting (SpT := sprout_tree) (SaT := sapling_tree) (V := db) :=
  mkConnecting ex_cache cx_entry false (mkBlockFiles [CBlockFileInfo_SetNull] 0 ∅ false) ∅ [] [].
Definition cx_connect := ConnectBlock (fun _ _ => true) MAIN main_params main_params cx_benv cx_env cx_block (Some 78) false cx_start.

Lemma cx_ready : block_ready cx_block 850100.
Proof.
  split.
  - repeat constructor; unfold is_i64; cbn; lia.
  - change (NoDup [2001; 2002]). repeat constructor; set_solver.
  - repeat constructor; cbn; lia.
  - lia.
Qed.

(** Connecting the block of two transactions, one of them shielded, and
    disconnecting it. *)
Lemma ConnectBlock_undone_witness :
  cx_connect.1 = Pass tt /\ exists undo (out : @DisconnectOutcome sprout_tree sapling_tree db),
    snd <$> last (cn_undo cx_connect.2) = Some undo
    /\ DisconnectBlock true true 850100 (CTransaction_copy hash_tx <$> b_vtx cx_block) (mkIndexInfo 78 true 850100 0) (mkIndexInfo 77 true 850099 0)
         (Some undo) (fun _ => false) true true true (cn_view cx_connect.2) = Ok out
    /\ do_ret out = true /\ cache_abs (do_view out) ≡ cache_abs ex_cache.
Proof.
  split; [by vm_compute|].
  destruct (ConnectBlock_undone (fun _ _ => true) MAIN main_params main_params cx_benv cx_env cx_block 78 cx_start cx_connect.2)
    as (pos & undo & _ & _ & spt & sat & Hu & _ & _ & Hsp & Hsa & _ & _ & _ & _ & Hd).
  - exact ex_cache_inv.
  - exact ex_view_wf.
  - exact cx_ready.
  - by vm_compute.
  - by vm_compute.
  - by vm_compute.
  - by vm_compute.
  - assert (Hsp' : tree_root spt = bi_hashFinalSproutRoot (cn_pindex cx_connect.2)) by (symmetry; exact Hsp).
    assert (Hsa' : tree_root sat = tree_empty_root (T := sapling_tree)) by (symmetry; apply Hsa; by vm_compute).
    destruct (Hd true true (fun _ => false) true (mkIndexInfo 78 true 850100 0) (mkIndexInfo 77 true 850099 0)) as (out & E & Hr & _ & _ & Ha).
    + done.
    + done.
    + by vm_compute.
    + by vm_compute.
    + rewrite Hsp'. split; [by vm_compute|split; [by vm_compute|split; [by vm_compute|]]]. right. split; by vm_compute.
    + rewrite Hsa'. split; [by vm_compute|split; [by vm_compute|split; [by vm_compute|]]]. left. by vm_compute.
    + by vm_compute.
    + exists undo, out. split; [by rewrite Hu, last_snoc|]. split; [exact E|]. split; [exact Hr|exact Ha].
Defined.

(** The coinbase of the example takes ten, the fee of the other transaction is
    five. *)
Lemma ConnectBlock_no_inflation_witness :
  exists subsidy fees, GetBlockSubsidy MAIN main_params 850100 (consensus main_params) = Ok subsidy
    /\ Forall (fun fee => 0 <= fee) fees
    /\ exact_value_out cx_coinbase <= sumZ fees + subsidy.
Proof.
  destruct (ConnectBlock_no_inflation (fun _ _ => true) MAIN main_params main_params cx_benv cx_env cx_block 78 cx_start cx_connect.2)
    as (subsidy & cb & fees & c0 & c1 & Es & Ecb & _ & _ & Hnn & Hle).
  - exact ex_cache_inv.
  - exact ex_view_wf.
  - exact cx_ready.
  - by vm_compute.
  - reflexivity.
  - by vm_compute.
  - assert (Ec : cb = cx_coinbase) by (injection Ecb as <-; reflexivity).
    exists subsidy, fees. split; [exact Es|]. split; [exact Hnn|]. rewrite <- Ec. exact Hle.
Defined.
