(* ===== verification/AcceptExamples.v ===== *)
(** * A transaction accepted and one rejected

    [AcceptToMemoryPool] run on the small chain state of ChainExamples.v and an
    empty pool, with the toy hashes and verifiers of ConnectExamples.v, and the
    theorems on it applied there. *)
From stdpp Require Import prelude gmap strings list.
From S2P Require Import Prelude Transaction Script Interpreter Serialize TxSerialize SigHash Double Coins History CoinsView CoinsLaws CoinsCache CoinsOps UpdateCoins CoinsDB MerkleTree.
From S2P Require Import ChainParams Chain Checks CheckTx CheckInputs ConnectBlock MempoolLimit TxMemPool PoolLaws PoolRemovals PoolSafety PoolCoins AcceptToPool AcceptLaws AcceptSafety ChainExamples ConnectExamples.
#[local] Open Scope Z_scope.

#[local] Existing Instance toy_hash.
#[local] Existing Instance cx_sighash.
#[local] Existing Instance cx_verifier.
#[local] Existing Instance cx_crypto.
#[local] Existing Instance example_env.
#[local] Existing Instance example_env_laws.

Definition ax_tx : CTransaction := mkCTransaction 2002 cx_spend.
Definition ax_env : AcceptEnv :=
  mkAcceptEnv 850099 900 900 1000 1000 {[77 := cx_parent; 78 := cx_entry]} false false (mkCFeeRate DEFAULT_MIN_RELAY_TX_FEE) true true 83 0 false 15
    (fun _ _ => double_of 1) (fun _ _ => true).
Definition ax_start : AcceptState (SpT := sprout_tree) (SaT := sapling_tree) (V := db) :=
  mkAcceptState example_new ex_cache (mkLimiter double_zero 0) false.
Definition ax_accept (tx : CTransaction) := AcceptToMemoryPool main_params main_params ax_env tx true true false ax_start.

Lemma ax_pool_wf : pool_wf (as_pool ax_start).
Proof. destruct (@CTxMemPool_new_ok example_env tt) as (p & Ep & Wp & _). assert (Hp : as_pool ax_start = p) by (vm_compute in Ep; by injection Ep as <-). by rewrite Hp. Qed.

(** The transaction pays five; it is the only one in the pool. *)
Lemma AcceptToMemoryPool_sound_witness :
  (ax_accept ax_tx).1 = Pass tt /\ exists e, mapTx (as_pool (ax_accept ax_tx).2) = <[2002 := e]> ∅ /\ me_nFee e = 5 /\ pool_wf (as_pool (ax_accept ax_tx).2).
Proof.
  split; [by vm_compute|].
  destruct (AcceptToMemoryPool_sound main_params main_params ax_env ax_tx true true false ax_start (ax_accept ax_tx).2) as (e & Htx & _ & Adm & Wp & Hm & _).
  - exact ax_pool_wf.
  - exact ex_cache_inv.
  - by vm_compute.
  - repeat constructor; unfold is_i64; cbn; lia.
  - by vm_compute.
  - destruct (am_fee _ _ _ _ _ _ _ Adm) as (vs & Hvs & Hsum & _). assert (Ev : Some [50] = Some vs) by (rewrite <- Hvs; by vm_compute). injection Ev as <-.
    assert (Esum : sumZ [50] + exact_shielded_in ax_tx = 50) by (by vm_compute). assert (Eout : exact_value_out ax_tx = 45) by (by vm_compute). rewrite Esum, Eout in Hsum.
    exists e. split; [exact Hm|]. split; [lia|exact Wp].
Defined.

(** The same transaction with an input that nobody has: the pool stays empty
    and the caller learns that inputs are missing. *)
Definition ax_orphan : CTransaction := mkCTransaction 2003
  (mkTx true 4 SAPLING_VERSION_GROUP_ID [mkCTxIn (mkCOutPoint 999 0) [81] 0] [CTxOut_new 40 []] 2 0 0 [] [] [cx_js] (replicate 32 0) (replicate 64 0) []).

Lemma AcceptToMemoryPool_rejects_witness :
  (ax_accept ax_orphan).1 = Fail FailPlain /\ as_fMissingInputs (ax_accept ax_orphan).2 = true /\ as_pool (ax_accept ax_orphan).2 = example_new
  /\ cache_abs (as_pcoinsTip (ax_accept ax_orphan).2) ≡ cache_abs ex_cache.
Proof.
  split; [by vm_compute|]. split; [by vm_compute|].
  destruct (AcceptToMemoryPool_rejects main_params main_params ax_env ax_orphan true true false ax_start (ax_accept ax_orphan).2 FailPlain) as (Hp & _ & Ha & _).
  - exact ex_cache_inv.
  - by vm_compute.
  - split; [exact Hp|exact Ha].
Defined.

(** ** A run of the memory pool

    [ax_locked] spends an output of the chain and is not final before block
    200; [ax_child] spends from it; the last one is on its own.  After a
    reorganisation to height 100 the first two are gone. *)
Definition ax_entry (hash : uint256) (ins : list COutPoint) (nLockTime : Z) : CTxMemPoolEntry :=
  mkEntry (mkCTransaction hash (mkTx false 1 0 ((fun o => mkCTxIn o [] 0) <$> ins) [CTxOut_new 10 []] nLockTime 0 0 [] [] [] [] [] []))
    1000 200 150 5000 (CFeeRate_of 1000 200) 0 double_zero 100 true false 7.
Definition ax_locked : CTxMemPoolEntry := ax_entry 11 [mkCOutPoint ex_txid 0] 200.
Definition ax_child : CTxMemPoolEntry := ax_entry 12 [mkCOutPoint 11 0] 0.
Definition ax_ops : list (pool_op (SpT := sprout_tree) (SaT := sapling_tree) (V := db)) := [
  OpAdd ax_locked true; OpAddSpentIndex ax_locked ex_cache; OpAdd ax_child true; OpAdd (ax_entry 13 [mkCOutPoint 102 5] 0) true;
  OpRemoveForReorg ex_cache 101 LOCKTIME_MEDIAN_TIME_PAST 100 0 0].

Lemma ax_ops_allowed : allowed ax_ops example_new.
Proof.
  split; [apply addableb_ok; by vm_compute|]. intros p1 E1. vm_compute in E1. injection E1 as <-.
  split; [split; [apply ex_cache_inv|]; repeat constructor; vm_compute; by eexists|]. intros p2 E2. vm_compute in E2. injection E2 as <-.
  split; [apply addableb_ok; by vm_compute|]. intros p3 E3. vm_compute in E3. injection E3 as <-.
  split; [apply addableb_ok; by vm_compute|]. intros p4 E4. vm_compute in E4. injection E4 as <-.
  split; [split; [apply ex_cache_inv|by vm_compute]|]. intros p5 _. done.
Qed.

Lemma mempool_consistent_witness : exists p, run_ops ax_ops example_new = Ok p /\ (map_to_list (mapTx p)).*1 = [13] /\ totalTxSize p = 200
  /\ forall o h n, mapNextTx p !! o = Some (h, n) <-> exists e, mapTx p !! h = Some e /\ spends_at (me_tx e) n o.
Proof.
  destruct (mempool_consistent (H:=example_env) tt ax_ops example_new) as (p & E & _ & Hn & _).
  - done.
  - exact ax_ops_allowed.
  - exists p. split; [done|]. split_and!; [..|exact Hn]; vm_compute in E; injection E as <-; by vm_compute.
Defined.
