(* ===== verification/TipExamples.v ===== *)
(** * A block at the tip

    [ConnectTip] and [DisconnectTip] run on the small chain state of
    ChainExamples.v, with the block of ConnectExamples.v as the second of its
    chain: connected, disconnected, and rejected when it pays too much. *)
From stdpp Require Import prelude gmap strings list.
From S2P Require Import Prelude Transaction Script Interpreter Serialize TxSerialize SigHash Coins History CoinsView CoinsLaws CoinsCache CoinsOps UpdateCoins CoinsSerialize CoinsDB MerkleTree.
From S2P Require Import ArithUint256 Block ChainParams Subsidy Chain Pow Checks CheckTx CheckInputs CheckBlock ChainState ChainShape BestChain ChainSteps ConnectBlock ConnectTx ConnectLaws Double MempoolLimit TxMemPool PoolLaws PoolRemovals PoolSafety PoolCoins AcceptToPool Tip TipLaws TipSafety ChainExamples ConnectExamples AcceptExamples.
#[local] Open Scope Z_scope.

#[local] Existing Instance toy_hash.
#[local] Existing Instance toy_secp.
#[local] Existing Instance cx_oracle.
#[local] Existing Instance cx_equihash.
#[local] Existing Instance cx_sighash.
#[local] Existing Instance cx_verifier.
#[local] Existing Instance cx_crypto.
#[local] Existing Instance example_env.
#[local] Existing Instance example_env_laws.

Definition px_parent : CBlockIndex :=
  mkIndex None None 0 0 8 0 bu_zero 1 1 (BLOCK_VALID_SCRIPTS + BLOCK_HAVE_DATA) (Some 0) 0 0 None None 0 None 4 0 0 900 0x1f07ffff 77 [] 0.
Definition px_entry : CBlockIndex :=
  mkIndex (Some 77) None 1 0 8 0 bu_zero 2 3 (BLOCK_VALID_TRANSACTIONS + BLOCK_HAVE_DATA) None 0 0 None None 0 None 4 0 0 1000 0x1f07ffff 78 [] 1.
(** The entry [e] is that of a block that is new, or of one that was connected
    before. *)
Definition px_index_of (e : CBlockIndex) : ChainState :=
  mkChainState {[77 := px_parent; 78 := e]} [Some 77] (Some 78) None {[77; 78]} [] ∅ 2.
Definition px_index : ChainState := px_index_of px_entry.

Definition px_start_of (e : CBlockIndex) : Node (SpT := sprout_tree) (SaT := sapling_tree) (V := db) :=
  mkNodeTip ex_cache example_new (mkLimiter double_zero 0) (px_index_of e) (mkWarnings None None false false) (mkBlockFiles [CBlockFileInfo_SetNull] 0 ∅ false) ∅ [] [] [] ∅ 0
    false 0 0 0 false.
Definition px_start := px_start_of px_entry.
Definition px_env (block : CBlock) (undo : option CBlockUndo) : TipEnv :=
  mkTipEnv cx_benv cx_env ax_env (fun _ => Some block) (fun _ _ => undo) true true false 0 0 1000000 1000 (fun _ _ _ => true).
Definition px_connect_of (e : CBlockIndex) (block : CBlock) (undo : option CBlockUndo) :=
  ConnectTip (fun _ _ => true) MAIN main_params main_params (px_env block undo) (fun h => h) (fun _ => 0) CValidationState_new 78 block (px_start_of e).
Definition px_connect := px_connect_of px_entry.
Definition px_connected : CBlockIndex := Eval vm_compute in default px_entry (mapBlockIndex (n_index (px_connect cx_block None).2) !! 78).
Definition px_undo : option CBlockUndo := Eval vm_compute in snd <$> last (n_undo (px_connect cx_block None).2).

Lemma px_index_of_wf e : e = px_entry \/ e = px_connected -> state_wf (px_index_of e).
Proof.
  intros He. assert (Hm : forall p b, (mapBlockIndex (px_index_of e)) !! p = Some b -> p = 77 /\ b = px_parent \/ p = 78 /\ b = e).
  { intros p b Hp. unfold px_index_of in Hp. cbn [mapBlockIndex] in Hp. apply lookup_insert_Some in Hp as [[<- <-]|[_ Hp]]; [by left|]. apply lookup_singleton_Some in Hp as [<- <-]. by right. }
  split.
  - split.
    + split.
      * intros p b Hp. apply Hm in Hp as [[-> ->]|[-> ->]]; [|destruct He as [-> | ->]]; cbn; lia.
      * intros p b Hp. apply Hm in Hp as [[-> ->]|[-> ->]]; [done|]. destruct He as [-> | ->]; (exists px_parent; by vm_compute).
      * intros p b s Hp. by apply Hm in Hp as [[-> ->]|[-> ->]]; [|destruct He as [-> | ->]].
    + intros p b Hp. apply Hm in Hp as [[-> ->]|[-> ->]]; [|destruct He as [-> | ->]]; apply wf_zero.
    + intros p b Hp _. apply Hm in Hp as [[-> ->]|[-> ->]]; [|destruct He as [-> | ->]]; (split; [|done|first [by vm_compute|by destruct He as [-> | ->]; vm_compute]]); [done|..]; exists px_parent; (split; [by vm_compute|done]).
    + intros p b Hp. apply Hm in Hp as [[-> ->]|[-> ->]]; [|destruct He as [-> | ->]]; cbn; lia.
  - right. exists 77. exists px_parent. split; [by destruct He as [-> | ->]; vm_compute|]. split; [done|]. intros i Hi. destruct i as [|i]; [by destruct He as [-> | ->]; vm_compute|cbn in Hi; lia].
  - intros p Hp. unfold px_index_of in Hp. cbn [setBlockIndexCandidates] in Hp. apply elem_of_union in Hp as [Hp|Hp]; apply elem_of_singleton in Hp as ->; destruct He as [-> | ->]; eexists; (split; [by vm_compute|done]).
  - intros q p Hp. by apply elem_of_nil in Hp.
  - intros p [= <-]. exists e. by destruct He as [-> | ->]; vm_compute.
  - done.
Qed.

Lemma px_index_wf : state_wf px_index.
Proof. apply px_index_of_wf. by left. Qed.

Lemma px_ready_of e (undo : option CBlockUndo) : e = px_entry \/ e = px_connected ->
  ready_block (fun _ _ => true) MAIN main_params main_params (px_env cx_block undo) (px_start_of e) 78 e cx_block.
Proof.
  assert (Hr : block_ready cx_block 1) by (destruct cx_ready as [Ha Hn Hi _]; split; [exact Ha|exact Hn|exact Hi|cbn; lia]).
  intros [-> | ->]; (split; [by vm_compute|exact Hr|by vm_compute|done| |]).
  all: (split; [by vm_compute|split; [by vm_compute|split; [by vm_compute|]]]).
  1, 3: right; split; by vm_compute.
  all: left; by vm_compute.
Qed.
Lemma px_ready (undo : option CBlockUndo) :
  ready_block (fun _ _ => true) MAIN main_params main_params (px_env cx_block undo) px_start 78 px_entry cx_block.
Proof. apply px_ready_of. by left. Qed.

(** The block of two transactions becomes the tip and its undo data is written;
    connected again, it keeps the data it has. *)
Lemma ConnectTip_extends_witness :
  ((px_connect cx_block px_undo).1 = Pass tt /\ Tip (n_index (px_connect cx_block px_undo).2) = Some 78
   /\ a_best (cache_abs (n_tip (px_connect cx_block px_undo).2)) = 78 /\ pool_wf (n_pool (px_connect cx_block px_undo).2)
   /\ length (n_undo (px_connect cx_block px_undo).2) = 1%nat)
  /\ (px_connect_of px_connected cx_block px_undo).1 = Pass tt /\ Tip (n_index (px_connect_of px_connected cx_block px_undo).2) = Some 78
  /\ n_undo (px_connect_of px_connected cx_block px_undo).2 = [].
Proof.
  split.
  - split; [by vm_compute|].
    destruct (ConnectTip_extends (fun _ _ => true) MAIN main_params main_params (px_env cx_block px_undo) (fun h => h) (fun _ => 0) CValidationState_new 78 px_entry cx_block
      px_start (px_connect cx_block px_undo).2) as ((u & Hu & _) & _ & _ & Hb & Ht & _ & Wp & _);
      [exact ax_pool_wf|exact px_index_wf|exact ex_cache_inv|exact ex_view_wf|apply px_ready|by vm_compute|].
    split; [exact Ht|]. split; [exact Hb|]. split; [exact Wp|]. destruct Hu as [pos Hu]. by rewrite Hu.
  - split; [by vm_compute|].
    destruct (ConnectTip_extends (fun _ _ => true) MAIN main_params main_params (px_env cx_block px_undo) (fun h => h) (fun _ => 0) CValidationState_new 78 px_connected cx_block
      (px_start_of px_connected) (px_connect_of px_connected cx_block px_undo).2) as ((u & Hu & _) & _ & _ & _ & Ht & _);
      [exact ax_pool_wf|apply px_index_of_wf; by right|exact ex_cache_inv|exact ex_view_wf|apply px_ready_of; by right|by vm_compute|].
    split; [exact Ht|exact Hu].
Defined.

(** Back to the block before. *)
Definition px_disconnect := DisconnectTip main_params main_params (px_env cx_block px_undo) (fun h => h) (fun _ => 0) false (px_connect cx_block px_undo).2.

(** A coinbase that pays itself too much: the tip stays, and the block is
    marked. *)
Definition px_greedy : CBlock :=
  mkCBlock (b_header cx_block)
    [mkTx true 4 SAPLING_VERSION_GROUP_ID [mkCTxIn COutPoint_SetNull [1; 91] 0] [CTxOut_new (1000 * COIN) ex_script] 1 0 0 [] [] [] [] [] []; cx_spend] [] [].
Lemma ConnectTip_rejects_witness :
  (px_connect px_greedy None).1 = Fail (dos 100 REJECT_INVALID "bad-cb-amount")
  /\ cache_abs (n_tip (px_connect px_greedy None).2) ≡ cache_abs ex_cache /\ chainActive (n_index (px_connect px_greedy None).2) = [Some 77]
  /\ 78 ∉ setBlockIndexCandidates (n_index (px_connect px_greedy None).2).
Proof.
  split; [by vm_compute|].
  destruct (ConnectTip_rejects (fun _ _ => true) MAIN main_params main_params (px_env px_greedy None) (fun h => h) (fun _ => 0) CValidationState_new 78 px_greedy
    px_start (px_connect px_greedy None).2 100 REJECT_INVALID "bad-cb-amount" false) as (_ & Ha & _ & _ & Hc & _ & Hf).
  - exact px_index_wf.
  - exact ex_cache_inv.
  - done.
  - by vm_compute.
  - split; [exact Ha|]. split; [exact Hc|]. exact (proj1 (Hf eq_refl)).
Defined.
