(* ===== verification/ActivateExamples.v ===== *)
(** * A chain activated

    The small chain state of TipExamples.v with two branches: the block of
    ConnectExamples.v, and one with more work that pays too much.  Activation
    tries the second, marks it, and connects the first; a block whose file is
    damaged is tried for ever. *)
From stdpp Require Import prelude gmap strings list.
From S2P Require Import Prelude Transaction Script Interpreter Serialize TxSerialize SigHash Coins History CoinsView CoinsLaws CoinsCache CoinsOps UpdateCoins CoinsSerialize CoinsDB MerkleTree.
From S2P Require Import ArithUint256 Block ChainParams Subsidy Chain Pow Checks CheckTx CheckInputs CheckBlock ChainState ChainShape BestChain ChainSteps ConnectBlock ConnectFails ConnectTx ConnectLaws Double MempoolLimit TxMemPool PoolLaws PoolRemovals PoolSafety PoolCoins AcceptToPool Tip TipLaws TipSafety Activate ActivateLaws ActivateSafety ChainExamples ConnectExamples AcceptExamples TipExamples.
#[local] Open Scope Z_scope.

#[local] Existing Instance toy_hash.
#[local] Existing Instance toy_secp.
#[local] Existing Instance cx_oracle.
#[local] Existing Instance cx_equihash.
#[local] Existing Instance cx_sighash.
#[local] Existing Instance cx_verifier.
#[local] Existing Instance cx_crypto.
#[local] Existing Instance example_env.
#[local] Existing Instance example_env_laws.

Definition vx_parent : CBlockIndex := bi_with_work px_parent (bu_of_u64 1).
Definition vx_entry : CBlockIndex := bi_with_work px_entry (bu_of_u64 2).
Definition vx_greedy_entry : CBlockIndex :=
  mkIndex (Some 77) None 1 0 16 0 (bu_of_u64 3) 2 3 (BLOCK_VALID_TRANSACTIONS + BLOCK_HAVE_DATA) None 0 0 None None 0 None 4 0 0 1000 0x1f07ffff 79 [] 2.
Definition vx_index : ChainState :=
  mkChainState {[77 := vx_parent; 78 := vx_entry; 79 := vx_greedy_entry]} [Some 77] (Some 78) None {[77; 78; 79]} [] ∅ 3.
Definition vx_start : Node (SpT := sprout_tree) (SaT := sapling_tree) (V := db) := with_chainstate vx_index (mkWarnings None None false false) px_start.
Definition vx_greedy : CBlock :=
  mkCBlock (mkHeader 4 77 (31 * 2001 + 2002) (tree_empty_root (T := sapling_tree)) 1000 0x1f07ffff 79 []) (b_vtx px_greedy) [] [].
Definition vx_read (pos : CDiskBlockPos) : option CBlock := Some (if dp_nPos pos =? 16 then vx_greedy else cx_block).
Definition vx_env (read : CDiskBlockPos -> option CBlock) : TipEnv :=
  mkTipEnv cx_benv cx_env ax_env read (fun _ _ => px_undo) true true false 0 0 1000000 1000 (fun _ _ _ => true).
Definition vx_activate (read : CDiskBlockPos -> option CBlock) (n : nat) :=
  ActivateBestChain (fun _ _ => true) MAIN main_params main_params (vx_env read) (fun h => h) (fun _ => 0) (mkProtection false 0 0) 0 n CValidationState_new None vx_start.

Lemma vx_index_wf : state_wf vx_index.
Proof.
  assert (Hm : forall p b, (mapBlockIndex vx_index) !! p = Some b -> p = 77 /\ b = vx_parent \/ p = 78 /\ b = vx_entry \/ p = 79 /\ b = vx_greedy_entry).
  { intros p b Hp. unfold vx_index in Hp. cbn [mapBlockIndex] in Hp. apply lookup_insert_Some in Hp as [[<- <-]|[_ Hp]]; [by left|].
    apply lookup_insert_Some in Hp as [[<- <-]|[_ Hp]]; [by right; left|]. apply lookup_singleton_Some in Hp as [<- <-]. by right; right. }
  split.
  - split.
    + split.
      * intros p b Hp. apply Hm in Hp as [[-> ->]|[[-> ->]|[-> ->]]]; cbn; lia.
      * intros p b Hp. apply Hm in Hp as [[-> ->]|[[-> ->]|[-> ->]]]; [done|..]; exists vx_parent; by vm_compute.
      * intros p b s Hp. by apply Hm in Hp as [[-> ->]|[[-> ->]|[-> ->]]].
    + intros p b Hp. apply Hm in Hp as [[-> ->]|[[-> ->]|[-> ->]]]; cbn [vx_parent vx_entry vx_greedy_entry bi_with_work bi_nChainWork]; by apply of_u64_spec.
    + intros p b Hp _. apply Hm in Hp as [[-> ->]|[[-> ->]|[-> ->]]]; (split; [|done|by vm_compute]); [done|..]; exists vx_parent; (split; [by vm_compute|done]).
    + intros p b Hp. apply Hm in Hp as [[-> ->]|[[-> ->]|[-> ->]]]; cbn; lia.
  - right. exists 77. exists vx_parent. split; [by vm_compute|]. split; [done|]. intros i Hi. destruct i as [|i]; [by vm_compute|cbn in Hi; lia].
  - intros p Hp. unfold vx_index in Hp. cbn [setBlockIndexCandidates] in Hp. rewrite !elem_of_union, !elem_of_singleton in Hp.
    destruct Hp as [[->| ->]| ->]; eexists; (split; [by vm_compute|done]).
  - intros q p Hp. by apply elem_of_nil in Hp.
  - intros p [= <-]. eexists. by vm_compute.
  - done.
Qed.

Lemma vx_intact : all_intact main_params (vx_env vx_read) None.
Proof.
  split; [done|]. intros p b block E. unfold ReadBlockFromDisk in E. cbn [te_ReadBlock vx_env vx_read] in E. apply bind_Ok in E as (sol & _ & E).
  destruct (_ && _); [|done]. injection E as <-. unfold vx_read. destruct (_ =? 16); (split; [by vm_compute|]); apply Z.leb_le; by vm_compute.
Qed.

(** The branch with more work is marked, and the other one becomes active. *)
Lemma ActivateBestChain_ends_witness : exists s', vx_activate vx_read 16 = Some (Pass tt, s') /\ chainActive (n_index s') = [Some 77; Some 78]
  /\ elements (marks (n_index s')) = [79] /\ activated (fun h => h) (mkProtection false 0 0) vx_index (n_index s').
Proof.
  destruct (ActivateBestChain_ends (fun _ _ => true) MAIN main_params main_params (vx_env vx_read) (fun h => h) (fun _ => 0) (mkProtection false 0 0) 0 CValidationState_new None vx_start 16)
    as (r & s' & E & _ & Ha).
  - exact vx_index_wf.
  - done.
  - exact vx_intact.
  - apply Nat.leb_le. by vm_compute.
  - change (vx_activate vx_read 16 = Some (r, s')) in E.
    assert (Er : (fun x => (x.1, chainActive (n_index x.2), elements (marks (n_index x.2)))) <$> vx_activate vx_read 16 = Some (Pass tt, [Some 77; Some 78], [79])) by (by vm_compute).
    rewrite E in Er. cbn [fmap option_fmap option_map fst snd] in Er. exists s'. split; [rewrite E; f_equal; f_equal; congruence|]. split; [congruence|]. split; [congruence|].
    apply Ha. congruence.
Defined.

(** The first step tries the block that pays too much. *)
Definition vx_step :=
  ActivateBestChainStep (fun _ _ => true) MAIN main_params main_params (vx_env vx_read) (fun h => h) (fun _ => 0) 0 CValidationState_new 79 None vx_start.
Lemma ActivateBestChainStep_progress_witness : exists s', vx_step = Some (Pass true, s') /\ chainActive (n_index s') = [Some 77] /\ state_wf (n_index s').
Proof.
  destruct (ActivateBestChainStep_progress (fun _ _ => true) MAIN main_params main_params (vx_env vx_read) (fun h => h) (fun _ => 0) 0 CValidationState_new 79 None vx_start)
    as (r & s' & E & W' & _).
  - exact vx_index_wf.
  - eexists. by vm_compute.
  - done.
  - exact vx_intact.
  - change (vx_step = Some (r, s')) in E. assert (Er : (fun x => (x.1, chainActive (n_index x.2))) <$> vx_step = Some (Pass true, [Some 77])) by (by vm_compute).
    rewrite E in Er. cbn [fmap option_fmap option_map fst snd] in Er. exists s'. split; [rewrite E; f_equal; f_equal; congruence|]. split; [congruence|done].
Defined.

(** The block of the active chain is invalidated. *)
Definition vx_invalidate := InvalidateBlock main_params main_params (vx_env vx_read) (fun h => h) (fun _ => 0) 78 (px_connect cx_block px_undo).2.
Lemma InvalidateBlock_removes_witness : exists s', vx_invalidate = Some (Pass tt, s') /\ chainActive (n_index s') = [Some 77] /\ marked (n_index s') 78.
Proof.
  destruct (connect_tip_ok (fun _ _ => true) MAIN main_params main_params (px_env cx_block px_undo) (fun h => h) (fun _ => 0) CValidationState_new 78 px_entry cx_block
    px_start (px_connect cx_block px_undo).2 ax_pool_wf px_index_wf ex_cache_inv ex_view_wf (px_ready px_undo)) as (_ & _ & _ & _ & _ & _ & Wc & _); [by vm_compute|].
  destruct (InvalidateBlock_removes main_params main_params (vx_env vx_read) (fun h => h) (fun _ => 0) 78 (px_connect cx_block px_undo).2) as (r & s' & E & _ & Hr).
  - exact Wc.
  - apply (bool_decide_unpack (is_Some _)). by vm_compute.
  - change (vx_invalidate = Some (r, s')) in E. assert (Er : (fun x => (x.1, chainActive (n_index x.2))) <$> vx_invalidate = Some (Pass tt, [Some 77])) by (by vm_compute).
    rewrite E in Er. cbn [fmap option_fmap option_map fst snd] in Er. exists s'. split; [rewrite E; f_equal; f_equal; congruence|]. split; [congruence|]. apply Hr. congruence.
Defined.

(** ** A damaged file *)

(** The file of the first branch has one transaction too many. *)
Definition vx_damaged (pos : CDiskBlockPos) : option CBlock :=
  Some (if dp_nPos pos =? 16 then vx_greedy else mkCBlock (b_header cx_block) (b_vtx cx_block ++ [cx_spend]) [] []).
Definition vx_find (s : Node (SpT := sprout_tree) (SaT := sapling_tree) (V := db)) := FindMostWorkChain (fun h => h) (mkProtection false 0 0) (n_index s).
Definition vx_try (p : uint256) :=
  ActivateBestChainStep (SpT := sprout_tree) (SaT := sapling_tree) (V := db) (fun _ _ => true) MAIN main_params main_params (vx_env vx_damaged) (fun h => h) (fun _ => 0) 0
    CValidationState_new p None.
Definition vx_round (s : Node (SpT := sprout_tree) (SaT := sapling_tree) (V := db)) :=
  match vx_find s with
  | Ok (Some p, i) => match vx_try p (with_chainstate i (n_warnings s) s) with Some (_, s') => s' | None => s end
  | _ => s
  end.
Definition vx_first := Eval vm_compute in vx_round vx_start.
Definition vx_stuck := Eval vm_compute in vx_round vx_first.

(** A block that cannot be read back intact is reported as possibly corrupted and
    not marked, so that it stays the best candidate: the loop tries it again and
    again, and the state does not change any more. *)
Theorem damaged_file_never_ends n : vx_activate vx_damaged n = None.
Proof.
  assert (Hr : forall k, activate_rounds (fun _ _ => true) MAIN main_params main_params (vx_env vx_damaged) (fun h => h) (fun _ => 0) (mkProtection false 0 0) 0 k
    CValidationState_new None vx_stuck = None).
  { intros k. induction k as [|m IH]; [reflexivity|]. rewrite (activate_rounds_again _ _ _ _ _ _ _ _ _ m _ vx_stuck 78 (n_index vx_stuck) vx_stuck); [exact IH|..]; by vm_compute. }
  unfold vx_activate, ActivateBestChain, mbind, lscheck_bind.
  enough (activate_rounds (fun _ _ => true) MAIN main_params main_params (vx_env vx_damaged) (fun h => h) (fun _ => 0) (mkProtection false 0 0) 0 n
    CValidationState_new None vx_start = None) as -> by done.
  destruct n as [|[|n]]; [reflexivity|by vm_compute|].
  rewrite (activate_rounds_again _ _ _ _ _ _ _ _ _ (S n) _ vx_start 79 vx_index vx_first) by (by vm_compute).
  rewrite (activate_rounds_again _ _ _ _ _ _ _ _ _ n _ vx_first 78 (n_index vx_first) vx_stuck) by (by vm_compute). apply Hr.
Qed.
